(* ===== verification/_CoqProject ===== *)
-Q . S2P
Prelude.v
Effects.v
Text.v
Digest.v
ConfigCommands.v
LauncherProtocol.v
Capture.v
Paths.v
Net.v
Config.v
Webex.v
Serde.v
Policy.v
Markers.v
Jenkins.v
Replies.v
Threads.v
WebexCalls.v
Programs.v
BotApp.v
BotRules.v
BotProperties.v
FileSystem.v
MessageJobs.v
MessageJobRules.v
MessageJobRecovery.v
MessageJobOperations.v
MessageJobEffects.v
QueueProperties.v
Scheduler.v
JsonCompact.v
CanaryProtocol.v
CanaryRules.v
CanaryExec.v
CanaryExecRules.v
ConfigStatus.v
ConfigStatusRules.v
HostFiles.v
ConfigActions.v
LauncherClient.v
CodexLauncher.v
CodexLauncherRules.v
IsolatedPlan.v
IsolatedPlanRules.v
IsolatedRun.v
IsolatedRunRules.v
WorkBudget.v
Descriptors.v
DescriptorRules.v
HostPaths.v
HostPathRules.v
Activation.v
ActivationRules.v
RebootChallenge.v
RebootChallengeRules.v
TreeCopy.v
TreeCopyRules.v
RunnerInput.v
RunnerInputRules.v
InputSealer.v
InputSealerRules.v
IsolatedWorkspace.v
IsolatedWorkspaceRules.v
IsolatedPrepare.v
IsolatedPrepareRules.v
Runner.v
RunnerRules.v
JenkinsHelper.v
JenkinsHelperRules.v
CanaryHost.v
ActivationCanary.v
ActivationCanaryRules.v
CodexRuntime.v
CodexRuntimeRules.v
LauncherService.v
LauncherServiceRules.v
