(* ===== verification/Prelude.v ===== *)
(** * webex-generic-account-bot: a verification library

    A Webex account bot: it receives webhook events, decides with a per-room policy whether
    a message is work, runs Codex on it (with Jenkins logs prefetched), and posts a reply
    that carries a hidden marker of the message it answers. This library models the Rust
    program under [src/src/], file by file, and proves what makes it correct.

    ** Parts, files and how they interact

    - [Prelude.v]: the result monad ([let?] is Rust's [?]), the notations, the tactics, the
      [len] rewrite base and the lemmas on lists and options the other files share.
    - [Text.v]: Rust's [str] as a list of scalar values ([str := list N]) with the string
      operations the program calls ([trim], [split], [find], [replace], [strip_prefix],
      UTF-8 lengths and bytes).
    - [ConfigCommands.v]: [config_commands.rs], the admin-space command language.
    - [LauncherProtocol.v]: [launcher_protocol.rs], messages, validation and frames.
    - [Paths.v], [Net.v]: [std::path] components, lexical normalisation and containment;
      [SocketAddr] parsing. Used by the configuration checks.
    - [Config.v]: [config.rs], the configuration records with their defaults and
      [BotConfig::validate] with every check in source order.
    - [Webex.v]: the records of Webex messages, rooms and people the sources read.
    - [Policy.v]: [policy.rs], the trigger decision and the prompt template.
    - [Markers.v], [Jenkins.v], [Replies.v], [Threads.v], [WebexCalls.v]: the helpers of
      [main.rs]: markers; URL allowlist, console output and log evidence; Codex output to
      posted Markdown; follow-ups and thread context; error classes and paged listings.
    - [Programs.v]: calls to what surrounds the bot ([call]), their answers, programs as
      trees of calls ([prog]), execution ([exec]) and a weakest precondition ([wp]).
    - [BotApp.v]: the handlers of [BotApp] in [main.rs] as programs, from [process_event]
      down. [BotRules.v]: the rule each call has to satisfy given the calls before it, one
      lemma per handler. [BotProperties.v]: what follows for events and across attempts.
    - [FileSystem.v]: the directory of the message queue on a disk whose system calls can
      fail, with stops and power losses. [MessageJobs.v]: [message_jobs.rs], the durable
      queue. [MessageJobRules.v], [MessageJobSteps.v], [MessageJobRecovery.v],
      [MessageJobIndex.v], [MessageJobOperations.v], [MessageJobEffects.v]: its invariant
      and a specification per helper and operation. [QueueProperties.v]: the abstract queue,
      histories, and the properties.
    - [Scheduler.v]: the scheduler of queued jobs and the HTTP handlers of [main.rs], as an
      interleaving of tasks over the abstract queue.

    [BotApp] calls the parts above it as pure functions. What it calls and the repository
    does not define is a [call] whose answer is arbitrary, errors included; a theorem about
    a handler therefore holds for every answer of the store, Webex and Codex.

    ** Correspondence with the code

    A definition bears the name of the Rust item it translates and keeps the order of its
    guards and early returns. Record fields share one name space in Rocq, so fields whose
    Rust name occurs in two structs bear a prefix: [rp_] for [RoomPolicy], [fu_] for
    [FollowupConfig], [jk_] for [JenkinsConfig], [cx_] for [CodexConfig], [p_] for
    patches, [mc_] and [cm_] for the messages of the command tables, [comp_], [rej_],
    [req_] and [resp_] for launcher messages, [ca_] and [cs_] for configuration status,
    [cr_], [rc_], [fc_] and [rt_] for contexts and run results, [mj_] for message jobs, [dr_] and [fr_] for the two
    kinds of Codex reply, and [ba_] for the fields of [BotApp]. Integers are [N] with the
    saturating, checked or bounded operation the source uses written out. Errors keep the
    distinctions the callers make; their texts are kept where a later decision reads them.

    ** Parameters

    Code outside the repository is an argument, bundled in type classes with the documented
    laws the code relies on: [JsonCodec] and [JsonText] ([serde_json]), [DateTimeOps]
    ([chrono]), [PathEnv] and [Env] (working directory, environment), [EvidenceOps] (the
    file system seen by evidence loading), [StateStore] (the attempt store's leases),
    [BotLibraries] (the remaining calls into libraries that a handler makes inline),
    [RecordJson] and [Sha256] (a queued record as text, [ring]), [Kernel] (directory order,
    clock, user and umask).
    Witnesses instantiate them with concrete functions.

    ** Theorem groups

    - Events ([BotProperties.v]): an attempt that was begun is closed at most once and by
      the calls the outcome asks for; read-only rooms see no writes; Codex runs only for
      authorised rooms and senders; each post is accounted for by an attempt or a marker;
      only administrators pull the configuration; across crashes and retries a message is
      answered at most once as far as the store and the marker search can tell.
    - Configuration: a validated configuration isolates executions uniformly, keeps secrets
      out of workspaces, leases attempts longer than their worst case and routes every
      message to one policy.
    - Replies: escaping is faithful, links and excerpts come only from allowed Jenkins
      sources, the posted text stays within the limits and its marker is found again.
    - Text protocols: Jenkins URL grammar, launcher frames (round trip and soundness),
      follow-up prompts (single pass), thread context (newest first), the command language.
    - Effort: marker search and thread listing end within the page bounds.
    - Durability ([QueueProperties.v]): a job answered as queued survives every fault, stop,
      restart and power loss until its removal; reopening recovers; without faults the queue
      refines a finite map; where an acknowledgement is not durable (a deviation).
    - Scheduling ([Scheduler.v]): for every interleaving, jobs run exclusively and within the
      limits, and leave the queue only after success; where a retry delay is cut short (a
      deviation).

    ** Bounds and fuel

    Structural recursion is used wherever the code loops over data. The loops that follow
    links of Webex pages carry the source's own page limit as fuel, so running out is the
    code's own exit. The marker scan and [replace] recurse on the length of the remaining
    text, which each round shortens; their specifications are stated without fuel.
    Programs are finite trees, because every loop around a call is bounded in the source.
    Directory loops recurse on the listing. A fault plan is a finite list, after which system
    calls only fail by the state of the disk; theorems quantify over all plans.

    ** Not modelled

    Log lines, TOML parsing, HTTP plumbing and process control are outside. The host tools
    (launcher service, input sealer, activation, canaries, isolated execution), the runner
    and the scripts are planned extensions.
*)

From Stdlib Require Export Sorted ZifyBool ZifyN ZifyNat.
From stdpp Require Export base tactics numbers list gmap sets strings.

Create Rewrite HintDb len.

(** ** The result monad

    Rust's [Result<A, E>]: [let? x := m in k] is the [?] operator, and [fail_if b e]
    is the early return [if b { return Err(e) }]. *)

Inductive result (E A : Type) : Type :=
| Ok (a : A)
| Err (e : E).

Arguments Ok {E A} a.
Arguments Err {E A} e.

Definition rbind {E A B} (m : result E A) (k : A -> result E B) : result E B :=
  match m with
  | Ok a => k a
  | Err e => Err e
  end.

Definition fail_if {E} (b : bool) (e : E) : result E unit :=
  if b then Err e else Ok tt.

(** [opt.ok_or(e)]. *)
Definition ok_or {E A} (o : option A) (e : E) : result E A :=
  match o with
  | Some a => Ok a
  | None => Err e
  end.

Definition map_err {E F A} (f : E -> F) (m : result E A) : result F A :=
  match m with
  | Ok a => Ok a
  | Err e => Err (f e)
  end.

Definition is_ok {E A} (m : result E A) : bool :=
  match m with
  | Ok _ => true
  | Err _ => false
  end.

Declare Scope rust_scope.
Delimit Scope rust_scope with rust.
Notation "'let?' x ':=' m 'in' k" := (rbind m (fun x => k))
  (at level 10, x pattern, m at level 100, k at level 200) : rust_scope.
Notation "m ;? k" := (rbind m (fun _ => k))
  (at level 100, k at level 200, right associativity) : rust_scope.
Open Scope rust_scope.

(** A loop [for x in l { f(x)?; }]. *)
Fixpoint try_each {E A} (f : A -> result E unit) (l : list A) : result E unit :=
  match l with
  | [] => Ok tt
  | x :: l' => f x ;? try_each f l'
  end.

(** ** Machine-width integers

    [u64]/[usize] values are [N] below [2^64]; the saturating operations the code uses
    are written with their bound. *)

Definition u32_max : N := 4294967295.
Definition u64_max : N := 18446744073709551615.

Definition sat_add (a b : N) : N := N.min (a + b) u64_max.
Definition sat_mul (a b : N) : N := N.min (a * b) u64_max.
(** [a.saturating_sub(b)]: subtraction on [N] is already truncated. *)
Definition sat_sub (a b : N) : N := a - b.

(** ** Lists *)

Definition len {A} (l : list A) : N := N.of_nat (length l).

(** [iter().any(f)], [iter().all(f)] and membership by a boolean equality. *)
Definition any {A} (f : A -> bool) (l : list A) : bool := existsb f l.
Definition all {A} (f : A -> bool) (l : list A) : bool := forallb f l.

Definition is_empty {A} (l : list A) : bool :=
  match l with
  | [] => true
  | _ => false
  end.

(** [opt.is_some_and(f)]. *)
Definition is_some_and {A} (o : option A) (f : A -> bool) : bool :=
  match o with
  | Some a => f a
  | None => false
  end.

(** [a.or(b)]. *)
Definition opt_or {A} (a b : option A) : option A :=
  match a with
  | Some _ => a
  | None => b
  end.

(** Drop the longest prefix whose elements satisfy [f]. *)
Fixpoint drop_while {A} (f : A -> bool) (l : list A) : list A :=
  match l with
  | [] => []
  | x :: l' => if f x then drop_while f l' else l
  end.

(** [take_while(f)]. *)
Fixpoint take_while {A} (f : A -> bool) (l : list A) : list A :=
  match l with
  | [] => []
  | x :: l' => if f x then x :: take_while f l' else []
  end.

(** [iter().take(n)] and [iter().skip(n)] with a machine integer. *)
Fixpoint take_N {A} (n : N) (l : list A) : list A :=
  match l with
  | [] => []
  | x :: l' => if (n =? 0)%N then [] else x :: take_N (n - 1) l'
  end.

Fixpoint drop_N {A} (n : N) (l : list A) : list A :=
  match l with
  | [] => []
  | x :: l' => if (n =? 0)%N then l else drop_N (n - 1) l'
  end.

(** Rust's [sort_by_key]/[sort]: a stable sort by a boolean "at most" test. *)
Fixpoint insert_by {A} (le : A -> A -> bool) (x : A) (l : list A) : list A :=
  match l with
  | [] => [x]
  | y :: l' => if le x y then x :: l else y :: insert_by le x l'
  end.

Definition stable_sort {A} (le : A -> A -> bool) (l : list A) : list A :=
  foldr (insert_by le) [] l.

(** A [HashSet::insert] loop that reports the first repetition. *)
Fixpoint first_duplicate {A} (eqb : A -> A -> bool) (seen l : list A) : option A :=
  match l with
  | [] => None
  | x :: l' => if any (eqb x) seen then Some x else first_duplicate eqb (x :: seen) l'
  end.

(** ** Lemmas on results *)

Lemma rbind_ok {E A B} (m : result E A) (k : A -> result E B) b :
  rbind m k = Ok b <-> exists a, m = Ok a /\ k a = Ok b.
Proof.
  destruct m as [a|e]; cbn; split.
  - eauto.
  - by intros (a' & [= <-] & ?).
  - done.
  - by intros (? & ? & ?).
Qed.

Lemma rbind_err {E A B} (m : result E A) (k : A -> result E B) e :
  rbind m k = Err e <-> m = Err e \/ exists a, m = Ok a /\ k a = Err e.
Proof. destruct m; cbn; naive_solver. Qed.

Lemma fail_if_ok {E} b (e : E) u : fail_if b e = Ok u <-> b = false.
Proof. destruct b, u; naive_solver. Qed.

Lemma fail_if_err {E} b (e e' : E) : fail_if b e = Err e' <-> b = true /\ e = e'.
Proof. destruct b; naive_solver. Qed.

Lemma seq_ok {E A} (b : bool) (e : E) (k : result E A) a :
  (fail_if b e ;? k) = Ok a <-> b = false /\ k = Ok a.
Proof. destruct b; cbn; naive_solver. Qed.

Lemma then_ok {E A} (m : result E unit) (k : result E A) a :
  (m ;? k) = Ok a <-> m = Ok tt /\ k = Ok a.
Proof. destruct m as [[]|]; cbn; naive_solver. Qed.

Lemma ok_or_ok {E A} (o : option A) (e : E) a : ok_or o e = Ok a <-> o = Some a.
Proof. destruct o; cbn; naive_solver. Qed.

Lemma map_err_ok {E F A} (f : E -> F) (m : result E A) a : map_err f m = Ok a <-> m = Ok a.
Proof. destruct m; cbn; naive_solver. Qed.

Lemma is_ok_spec {E A} (m : result E A) : is_ok m = true <-> exists a, m = Ok a.
Proof. destruct m; cbn; naive_solver. Qed.

Lemma try_each_ok {E A} (f : A -> result E unit) l u :
  try_each f l = Ok u <-> Forall (fun x => f x = Ok tt) l.
Proof.
  destruct u. induction l as [|x l IH]; cbn; [by split|].
  rewrite Forall_cons, <-IH. destruct (f x) as [[]|]; cbn; naive_solver.
Qed.

(** Break a hypothesis [chain = Ok a] into the facts its steps left behind. *)
Ltac ok_inv :=
  repeat match goal with
  | H : (fail_if _ _ ;? _) = Ok _ |- _ => apply seq_ok in H as [? H]
  | H : (_ ;? _) = Ok _ |- _ => apply then_ok in H as [? H]
  | H : rbind _ _ = Ok _ |- _ => apply rbind_ok in H as (? & ? & H)
  | H : fail_if _ _ = Ok _ |- _ => apply fail_if_ok in H
  | H : ok_or _ _ = Ok _ |- _ => apply ok_or_ok in H
  | H : map_err _ _ = Ok _ |- _ => apply map_err_ok in H
  | H : try_each _ _ = Ok _ |- _ => apply try_each_ok in H
  | H : Ok _ = Ok _ |- _ => injection H as H; try subst
  | H : Err _ = Ok _ |- _ => discriminate H
  end.

(** Split boolean conditions in the hypotheses into propositions. *)
Ltac bool_inv :=
  repeat match goal with
  | H : negb _ = true |- _ => apply negb_true_iff in H
  | H : negb _ = false |- _ => apply negb_false_iff in H
  | H : orb _ _ = false |- _ => apply orb_false_iff in H as [? ?]
  | H : andb _ _ = true |- _ => apply andb_true_iff in H as [? ?]
  end.

(** Evaluate the comparisons of the goal that [lia] decides; division and remainder
    by constants are in its reach. *)
Ltac Zify.zify_post_hook ::= Z.to_euclidean_division_equations.

Ltac decide_N :=
  repeat match goal with
  | |- context [N.leb ?a ?b] =>
      first [rewrite (proj2 (N.leb_le a b)) by lia | rewrite (proj2 (N.leb_gt a b)) by lia]
  | |- context [N.ltb ?a ?b] =>
      first [rewrite (proj2 (N.ltb_lt a b)) by lia | rewrite (proj2 (N.ltb_ge a b)) by lia]
  | |- context [N.eqb ?a ?b] =>
      first [rewrite (proj2 (N.eqb_eq a b)) by lia | rewrite (proj2 (N.eqb_neq a b)) by lia]
  end.

(** ** Lemmas on integers *)

Lemma sat_add_le a b : (sat_add a b <= u64_max)%N.
Proof. unfold sat_add. lia. Qed.

Lemma sat_add_exact a b : (a + b <= u64_max)%N -> sat_add a b = (a + b)%N.
Proof. unfold sat_add. lia. Qed.

Lemma sat_add_mono_l a b : (b <= u64_max)%N -> (b <= sat_add a b)%N.
Proof. unfold sat_add. lia. Qed.

Lemma sat_add_lt_exact a b c :
  (sat_add a b < c)%N -> (c <= u64_max)%N -> sat_add a b = (a + b)%N.
Proof. unfold sat_add. lia. Qed.

(** ** Lemmas on lists *)

Lemma is_empty_true {A} (l : list A) : is_empty l = true <-> l = [].
Proof. by destruct l. Qed.

Lemma is_empty_false {A} (l : list A) : is_empty l = false <-> l <> [].
Proof. by destruct l. Qed.

Lemma find_none {A} (f : A -> bool) l : List.find f l = None <-> forall x, x ∈ l -> f x = false.
Proof.
  split.
  - intros H x Hx. eapply List.find_none; [done|]. by apply list_elem_of_In.
  - induction l as [|x l IH]; intros H; [done|]. cbn. rewrite H by apply list_elem_of_here.
    apply IH. intros y Hy. apply H. by apply list_elem_of_further.
Qed.

Lemma elem_of_map {A B} (f : A -> B) l y : y ∈ map f l <-> exists x, y = f x /\ x ∈ l.
Proof. change (map f l) with (f <$> l). apply list_elem_of_fmap. Qed.

Lemma len_app {A} (l1 l2 : list A) : len (l1 ++ l2) = (len l1 + len l2)%N.
Proof. unfold len. rewrite length_app. lia. Qed.

Lemma len_cons {A} (x : A) l : len (x :: l) = (len l + 1)%N.
Proof. unfold len. cbn [length]. lia. Qed.

Lemma len_nil {A} : len (@nil A) = 0%N.
Proof. done. Qed.

Lemma len_pos {A} (l : list A) : l <> [] <-> (0 < len l)%N.
Proof. destruct l; unfold len; cbn [length]; split; (done || lia). Qed.

#[export] Hint Rewrite @len_app @len_cons @len_nil : len.

Lemma take_drop_N {A} n (l : list A) : take_N n l ++ drop_N n l = l.
Proof. revert n. induction l as [|x l IH]; intros n; cbn; [done|]. destruct (n =? 0)%N; cbn; [done|]. by rewrite IH. Qed.

Lemma len_take_N {A} n (l : list A) : len (take_N n l) = N.min n (len l).
Proof.
  revert n. induction l as [|x l IH]; intros n; cbn; [rewrite len_nil; lia|].
  destruct (N.eqb_spec n 0); rewrite ?len_cons, ?len_nil, ?IH; lia.
Qed.

Lemma Forall_take_N {A} (P : A -> Prop) n l : Forall P l -> Forall P (take_N n l).
Proof.
  intros Hl. revert n. induction Hl as [|x l Hx Hl IH]; intros n; cbn [take_N]; [constructor|].
  destruct (n =? 0)%N; [constructor|]. by constructor.
Qed.

Lemma take_N_all {A} n (l : list A) : (len l <= n)%N -> take_N n l = l.
Proof.
  revert n. induction l as [|x l IH]; intros n; cbn; [done|]. rewrite len_cons. intros H.
  destruct (N.eqb_spec n 0); [lia|]. f_equal. apply IH. lia.
Qed.

Lemma len_drop_N {A} n (l : list A) : len (drop_N n l) = (len l - n)%N.
Proof.
  revert n. induction l as [|x l IH]; intros n; cbn; [rewrite len_nil; lia|].
  destruct (N.eqb_spec n 0); rewrite ?len_cons, ?IH; lia.
Qed.

Lemma any_true {A} (f : A -> bool) l : any f l = true <-> exists x, x ∈ l /\ f x = true.
Proof. unfold any. rewrite existsb_exists. by setoid_rewrite <-list_elem_of_In. Qed.

Lemma any_false {A} (f : A -> bool) l : any f l = false <-> forall x, x ∈ l -> f x = false.
Proof.
  rewrite <-not_true_iff_false, any_true. split.
  - intros Hn x Hx. destruct (f x) eqn:E; [|done]. exfalso. eauto.
  - intros H (x & Hx & Hf). rewrite H in Hf; done.
Qed.

Lemma all_true {A} (f : A -> bool) l : all f l = true <-> Forall (fun x => f x = true) l.
Proof. unfold all. rewrite forallb_forall, Forall_forall. by setoid_rewrite <-list_elem_of_In. Qed.

Lemma drop_while_suffix {A} (f : A -> bool) l : exists k, l = k ++ drop_while f l /\ Forall (fun x => f x = true) k.
Proof.
  induction l as [|x l (k & Hk & IH)]; cbn; [by exists []|].
  destruct (f x) eqn:E.
  - exists (x :: k). rewrite Hk at 1. auto.
  - by exists [].
Qed.

Lemma drop_while_head {A} (f : A -> bool) l x l' : drop_while f l = x :: l' -> f x = false.
Proof. induction l as [|y l IH]; cbn; [done|]. destruct (f y) eqn:E; naive_solver. Qed.

Lemma drop_while_id {A} (f : A -> bool) x l : f x = false -> drop_while f (x :: l) = x :: l.
Proof. cbn. by intros ->. Qed.

Lemma drop_while_nil {A} (f : A -> bool) l : drop_while f l = [] <-> Forall (fun x => f x = true) l.
Proof.
  induction l as [|x l IH]; cbn; [by split|].
  rewrite Forall_cons. destruct (f x) eqn:E; naive_solver.
Qed.

Lemma drop_while_length {A} (f : A -> bool) l : length (drop_while f l) <= length l.
Proof. induction l as [|x l IH]; cbn; [done|]. destruct (f x); cbn; lia. Qed.

Lemma take_while_all {A} (f : A -> bool) l : Forall (fun x => f x = true) (take_while f l).
Proof. induction l as [|x l IH]; cbn; [constructor|]. destruct (f x) eqn:E; auto. Qed.

Lemma take_while_app_stop {A} (f : A -> bool) l x l' :
  Forall (fun y => f y = true) l -> f x = false -> take_while f (l ++ x :: l') = l.
Proof. induction 1 as [|y l Hy _ IH]; cbn; intros Hx; [by rewrite Hx|]. rewrite Hy. f_equal. auto. Qed.

Lemma insert_by_perm {A} (le : A -> A -> bool) x l : insert_by le x l ≡ₚ x :: l.
Proof.
  induction l as [|y l IH]; cbn; [done|]. destruct (le x y); [done|].
  rewrite IH. apply Permutation_swap.
Qed.

Lemma stable_sort_perm {A} (le : A -> A -> bool) l : stable_sort le l ≡ₚ l.
Proof. induction l as [|x l IH]; cbn; [done|]. by rewrite insert_by_perm, IH. Qed.

Section stable_sort_sorted.
Context {A : Type} (le : A -> A -> bool).
Hypothesis le_total : forall x y, le x y = true \/ le y x = true.
Hypothesis le_trans : forall x y z, le x y = true -> le y z = true -> le x z = true.

Lemma insert_by_sorted x l :
  StronglySorted (fun a b => le a b = true) l -> StronglySorted (fun a b => le a b = true) (insert_by le x l).
Proof.
  induction 1 as [|y l Hs IH Hall]; cbn; [by repeat constructor|].
  destruct (le x y) eqn:E.
  - constructor; [by constructor|]. constructor; [done|].
    eapply Forall_impl; [exact Hall|]. eauto.
  - constructor; [done|]. rewrite insert_by_perm. constructor; [|done].
    destruct (le_total x y); congruence.
Qed.

Lemma stable_sort_sorted l : StronglySorted (fun a b => le a b = true) (stable_sort le l).
Proof. induction l; cbn; [constructor|]. by apply insert_by_sorted. Qed.
End stable_sort_sorted.

Section first_duplicate_spec.
Context {A : Type} (eqb : A -> A -> bool).
Hypothesis eqb_eq : forall x y, eqb x y = true <-> x = y.

Lemma first_duplicate_none seen l :
  first_duplicate eqb seen l = None <-> NoDup l /\ (forall x, x ∈ l -> x ∉ seen).
Proof.
  revert seen. induction l as [|x l IH]; intros seen; cbn.
  { split; [|done]. intros _. split; [constructor|]. intros x Hx. by apply not_elem_of_nil in Hx. }
  destruct (any (eqb x) seen) eqn:E.
  - apply any_true in E as (y & Hy & ->%eqb_eq). split; [done|]. intros [_ H].
    exfalso. eapply H; [apply elem_of_cons; by left|done].
  - assert (x ∉ seen) as Hx.
    { intros Hx. rewrite any_false in E. specialize (E x Hx). by rewrite (proj2 (eqb_eq x x)) in E. }
    rewrite IH, NoDup_cons. setoid_rewrite elem_of_cons. naive_solver.
Qed.
End first_duplicate_spec.
