(* ===== verification/Effects.v ===== *)
(** * Effectful programs

    A program is a tree of calls to what surrounds it; a call may answer anything of its
    answer's type, errors included. Running a tree yields the trace of its calls; a small
    weakest-precondition calculus proves what every trace satisfies, traces cut short by a
    crash included. *)

From S2P Require Import Prelude.

Local Open Scope N_scope.

(** ** Programs *)

Inductive prog {call : Type} (answer : call -> Type) (A : Type) : Type :=
| Ret (a : A)
| Do (c : call) (k : answer c -> prog answer A).
Arguments Ret {call answer A} a.
Arguments Do {call answer A} c k.

Section programs.
Context {call : Type} {answer : call -> Type}.

#[local] Abbreviation prog := (prog answer).

Fixpoint bind {A B} (p : prog A) (f : A -> prog B) : prog B :=
  match p with
  | Ret a => f a
  | Do c k => Do c (fun r => bind (k r) f)
  end.

Definition perform (c : call) : prog (answer c) := Do c Ret.

(** [p.await?]. *)
Definition bind_ok {E A B} (p : prog (result E A)) (f : A -> prog (result E B)) : prog (result E B) :=
  bind p (fun r => match r with Ok a => f a | Err e => Ret (Err e) end).

(** ** Traces *)

(** One call and its answer. A trace lists the newest event first. *)
Record event : Type := Ev { ev_call : call; ev_answer : answer ev_call }.

(** Running against an environment that sees the trace so far. *)
Definition environment : Type := list event -> forall c : call, answer c.

Fixpoint exec {A} (env : environment) (h : list event) (p : prog A) : list event * A :=
  match p with
  | Ret a => (h, a)
  | Do c k => let r := env h c in exec env (Ev c r :: h) (k r)
  end.

(** ** Weakest preconditions *)

(** Every call satisfies the guard [G], whatever was answered before, and the result
    satisfies [Q]. *)
Fixpoint wp (G : list event -> call -> Prop) {A} (p : prog A) (Q : list event -> A -> Prop) (h : list event) : Prop :=
  match p with
  | Ret a => Q h a
  | Do c k => G h c /\ forall r : answer c, wp G (k r) Q (Ev c r :: h)
  end.

(** Every event of the trace satisfied the guard when it happened. *)
Fixpoint guarded (G : list event -> call -> Prop) (h : list event) : Prop :=
  match h with
  | [] => True
  | e :: h' => G h' (ev_call e) /\ guarded G h'
  end.

Lemma wp_exec G {A} (p : prog A) Q env h :
  wp G p Q h -> guarded G h -> guarded G (exec env h p).1 /\ Q (exec env h p).1 (exec env h p).2.
Proof.
  revert h. induction p as [a|c k IH]; intros h; cbn; [auto|]. intros [HG Hk] Hh.
  apply IH; [apply Hk|]. by split.
Qed.

Lemma wp_mono G (G' : list event -> call -> Prop) {A} (p : prog A) (Q Q' : list event -> A -> Prop) h :
  wp G p Q h -> (forall h c, G h c -> G' h c) -> (forall h a, Q h a -> Q' h a) -> wp G' p Q' h.
Proof. intros Hw HG HQ. revert h Hw. induction p as [a|c k IH]; intros h; cbn; [auto|]. intros [? ?]. split; auto. Qed.

Lemma wp_consequence G {A} (p : prog A) (Q Q' : list event -> A -> Prop) h :
  wp G p Q h -> (forall h a, Q h a -> Q' h a) -> wp G p Q' h.
Proof. intros. eapply wp_mono; eauto. Qed.

Lemma wp_bind G {A B} (p : prog A) (f : A -> prog B) Q h :
  wp G (bind p f) Q h <-> wp G p (fun h' a => wp G (f a) Q h') h.
Proof.
  revert h. induction p as [a|c k IH]; intros h; cbn; [done|].
  split; intros [HG Hk]; (split; [done|]); intros r; by apply IH.
Qed.

Lemma wp_bind_ok G {E A B} (p : prog (result E A)) (f : A -> prog (result E B)) Q h :
  wp G (bind_ok p f) Q h <->
  wp G p (fun h' r => match r with Ok a => wp G (f a) Q h' | Err e => Q h' (Err e) end) h.
Proof.
  unfold bind_ok. rewrite wp_bind. split; intros Hw; (eapply wp_consequence; [exact Hw|]); by intros h' [a|e].
Qed.

(** Two things proved of a program hold together. *)
Lemma wp_and G G' {A} (p : prog A) (Q Q' : list event -> A -> Prop) h :
  wp G p Q h -> wp G' p Q' h -> wp (fun h c => G h c /\ G' h c) p (fun h a => Q h a /\ Q' h a) h.
Proof. revert h. induction p as [a|c k IH]; intros h; cbn; [auto|]. intros [? ?] [? ?]. auto. Qed.

Lemma wp_perform G (c : call) (Q : list event -> answer c -> Prop) h :
  wp G (perform c) Q h <-> G h c /\ forall r, Q (Ev c r :: h) r.
Proof. done. Qed.

Lemma exec_bind {A B} env h (p : prog A) (f : A -> prog B) :
  exec env h (bind p f) = exec env (exec env h p).1 (f (exec env h p).2).
Proof. revert h. induction p as [a|c k IH]; intros h; cbn; [done|]. apply IH. Qed.

(** [p.await?] succeeds when both parts do. *)
Lemma exec_bind_ok {E A B} env h h' (p : prog (result E A)) (f : A -> prog (result E B)) b :
  exec env h (bind_ok p f) = (h', Ok b) ->
  exists h1 a, exec env h p = (h1, Ok a) /\ exec env h1 (f a) = (h', Ok b).
Proof.
  unfold bind_ok. rewrite exec_bind. destruct (exec env h p) as [h1 [a|e]]; cbn; [|done].
  intros He. by exists h1, a.
Qed.

Lemma exec_bind_ok_assoc {E A B C} env h (p : prog (result E A)) (q : A -> prog (result E B)) (r : B -> prog (result E C)) :
  exec env h (bind_ok (bind_ok p q) r) = exec env h (bind_ok p (fun a => bind_ok (q a) r)).
Proof.
  unfold bind_ok. rewrite !exec_bind. destruct (exec env h p) as [h1 [a|e]]; cbn; [|done]. by rewrite exec_bind.
Qed.

(** Running against a machine with a state of its own. *)
Fixpoint interp {S A} (machine : forall c : call, S -> S * answer c) (s : S) (p : prog A) : S * A :=
  match p with
  | Ret a => (s, a)
  | Do c k => interp machine (machine c s).1 (k (machine c s).2)
  end.

Lemma interp_bind {S A B} (machine : forall c : call, S -> S * answer c) s (p : prog A) (f : A -> prog B) :
  interp machine s (bind p f) = interp machine (interp machine s p).1 (f (interp machine s p).2).
Proof. revert s. induction p as [a|c k IH]; intros s; cbn; [done|]. apply IH. Qed.

Lemma interp_bind_ok {S E A B} (machine : forall c : call, S -> S * answer c) s (p : prog (result E A))
    (f : A -> prog (result E B)) :
  interp machine s (bind_ok p f)
  = match interp machine s p with
    | (s', Ok a) => interp machine s' (f a)
    | (s', Err e) => (s', Err e)
    end.
Proof. unfold bind_ok. rewrite interp_bind. by destruct (interp machine s p) as [s' [a|e]]. Qed.

(** Extensions of a trace. *)
Definition extends (h h' : list event) : Prop := exists t, h' = t ++ h.

Lemma extends_refl h : extends h h.
Proof. by exists []. Qed.

Lemma extends_cons e h h' : extends h h' -> extends h (e :: h').
Proof. intros (t & ->). by exists (e :: t). Qed.

Lemma extends_trans h1 h2 h3 : extends h1 h2 -> extends h2 h3 -> extends h1 h3.
Proof. intros (t1 & ->) (t2 & ->). exists (t2 ++ t1). by rewrite app_assoc. Qed.

Lemma extends_in h h' e : extends h h' -> e ∈ h -> e ∈ h'.
Proof. intros (t & ->) He. apply elem_of_app. by right. Qed.

Lemma exec_extends {A} env h (p : prog A) : extends h (exec env h p).1.
Proof.
  revert h. induction p as [a|c k IH]; intros h; cbn; [apply extends_refl|].
  eapply extends_trans; [|apply IH]. apply extends_cons, extends_refl.
Qed.

Lemma exec_extends_to {A} env h (p : prog A) h' a : exec env h p = (h', a) -> extends h h'.
Proof. intros He. pose proof (exec_extends env h p) as Hx. by rewrite He in Hx. Qed.

Lemma extends_length h h' : extends h h' -> (length h <= length h')%nat.
Proof. intros (t & ->). rewrite length_app. lia. Qed.

(** What holds of every program. *)
Lemma wp_any {A} (p : prog A) h : wp (fun _ _ => True) p (fun h' _ => extends h h') h.
Proof.
  assert (forall h1, extends h h1 -> wp (fun _ _ => True) p (fun h' _ => extends h h') h1) as Hw; [|apply Hw, extends_refl].
  induction p as [a|c k IH]; intros h1 Hh; cbn; [done|]. split; [done|]. intros r. apply IH, extends_cons, Hh.
Qed.

Lemma wp_extends G {A} (p : prog A) Q h : wp G p Q h -> wp G p (fun h' a => extends h h' /\ Q h' a) h.
Proof.
  intros Hw. eapply wp_mono; [exact (wp_and _ _ p _ _ h (wp_any p h) Hw)| |done]. by intros h' c [_ ?].
Qed.

(** A guard may use that the trace extends the one the program starts from. *)
Lemma wp_extends_guard G {A} (p : prog A) Q h :
  wp G p Q h -> wp (fun h' c => G h' c /\ extends h h') p (fun h' a => Q h' a /\ extends h h') h.
Proof.
  assert (forall h1, extends h h1 -> wp G p Q h1 -> wp (fun h' c => G h' c /\ extends h h') p (fun h' a => Q h' a /\ extends h h') h1) as Hw;
    [|apply Hw, extends_refl].
  induction p as [a|c k IH]; intros h1 Hx; cbn; [done|]. intros [Hc Hk]. split; [done|]. intros r. apply IH; [by apply extends_cons|done].
Qed.

(** Programs that only make calls of one kind. *)
Definition calls_only (kind : call -> bool) {A} (p : prog A) : Prop :=
  forall h, wp (fun _ c => kind c = true) p (fun _ _ => True) h.

Lemma calls_only_ret kind {A} (a : A) : calls_only kind (Ret a).
Proof. done. Qed.

Lemma calls_only_perform kind c : kind c = true -> calls_only kind (perform c).
Proof. done. Qed.

Lemma calls_only_bind kind {A B} (p : prog A) (f : A -> prog B) :
  calls_only kind p -> (forall a, calls_only kind (f a)) -> calls_only kind (bind p f).
Proof. intros Hp Hf h. rewrite wp_bind. eapply wp_consequence; [apply Hp|]. intros h' a _. apply Hf. Qed.

Lemma calls_only_bind_ok kind {E A B} (p : prog (result E A)) (f : A -> prog (result E B)) :
  calls_only kind p -> (forall a, calls_only kind (f a)) -> calls_only kind (bind_ok p f).
Proof. intros Hp Hf. apply calls_only_bind; [done|]. intros [a|e]; [apply Hf|apply calls_only_ret]. Qed.

Lemma calls_only_mono kind (kind' : call -> bool) {A} (p : prog A) :
  calls_only kind p -> (forall c, kind c = true -> kind' c = true) -> calls_only kind' p.
Proof. intros Hp Hk h. eapply wp_mono; [apply Hp| |done]. intros h' c. apply Hk. Qed.

(** What such a program adds to a trace. *)
Lemma exec_calls_only kind {A} (p : prog A) env h h' a :
  calls_only kind p -> exec env h p = (h', a) -> exists t, h' = t ++ h /\ forall e, e ∈ t -> kind (ev_call e) = true.
Proof.
  intros Hp. specialize (Hp h). revert h Hp. induction p as [x|c k IH]; intros h; cbn.
  - intros _ [= <- <-]. exists []. split; [done|]. by intros e ?%not_elem_of_nil.
  - intros [Hc Hk] He. destruct (IH _ _ (Hk _) He) as (t & -> & Ht).
    exists (t ++ [Ev c (env h c)]). split; [by rewrite <-app_assoc|]. intros e. rewrite elem_of_app, list_elem_of_singleton. intros [He'| ->]; auto.
Qed.

(** The events of the other kind stay as they were. *)
Lemma wp_calls_only kind {A} (p : prog A) h :
  calls_only kind p ->
  wp (fun _ c => kind c = true) p
    (fun h' _ => extends h h' /\ List.filter (fun e => negb (kind (ev_call e))) h' = List.filter (fun e => negb (kind (ev_call e))) h) h.
Proof.
  intros Hp. specialize (Hp h). revert Hp.
  assert (forall h1, extends h h1 -> List.filter (fun e => negb (kind (ev_call e))) h1 = List.filter (fun e => negb (kind (ev_call e))) h ->
    wp (fun _ c => kind c = true) p (fun _ _ => True) h1 ->
    wp (fun _ c => kind c = true) p (fun h' _ => extends h h' /\ List.filter (fun e => negb (kind (ev_call e))) h'
      = List.filter (fun e => negb (kind (ev_call e))) h) h1) as Hw; [|apply Hw; [apply extends_refl|done]].
  induction p as [a|c k IH]; intros h1 Hh He; cbn; [done|]. intros [Hc Hk]. split; [done|]. intros r.
  apply IH; [by apply extends_cons| |apply Hk]. cbn. by rewrite Hc.
Qed.

(** A crash keeps a final part of the trace, which is still guarded. *)
Lemma guarded_extends G h h' : extends h h' -> guarded G h' -> guarded G h.
Proof. intros (t & ->). induction t as [|e t IH]; cbn; [done|]. intros [_ ?]. auto. Qed.

Lemma guarded_in G h e : guarded G h -> e ∈ h -> exists h', extends (e :: h') h /\ G h' (ev_call e).
Proof.
  induction h as [|e' h IH]; cbn; [by intros _ ?%not_elem_of_nil|]. intros [HG Hh] [->|He]%elem_of_cons.
  - exists h. split; [by exists []|done].
  - destruct (IH Hh He) as (h' & (t & ->) & HG'). exists h'. split; [by exists (e' :: t)|done].
Qed.

(** Guards of a run, part by part. *)
Lemma guarded_bind G {A B} env h (p : prog A) (f : A -> prog B) :
  guarded G (exec env h p).1 ->
  (forall h1 a, exec env h p = (h1, a) -> guarded G h1 -> guarded G (exec env h1 (f a)).1) -> guarded G (exec env h (bind p f)).1.
Proof. rewrite exec_bind. destruct (exec env h p) as [h1 a]. cbn. auto. Qed.

Lemma guarded_bind_ok G {E A B} env h (p : prog (result E A)) (f : A -> prog (result E B)) :
  guarded G (exec env h p).1 ->
  (forall h1 a, exec env h p = (h1, Ok a) -> guarded G h1 -> guarded G (exec env h1 (f a)).1) -> guarded G (exec env h (bind_ok p f)).1.
Proof. intros Hp Hf. apply guarded_bind; [done|]. intros h1 [a|e] He Hg; [by apply Hf|done]. Qed.

Lemma guarded_calls_only G kind {A} env h (p : prog A) :
  (forall h c, kind c = true -> G h c) -> calls_only kind p -> guarded G h -> guarded G (exec env h p).1.
Proof.
  intros Hk Hp Hh. apply (wp_exec G p (fun _ _ => True)); [|done].
  eapply wp_mono; [apply Hp| |done]. intros h' c. apply Hk.
Qed.
End programs.

Arguments event {call} answer.
Arguments environment {call} answer.

Create HintDb calls_only.
#[export] Hint Resolve calls_only_ret : calls_only.

Ltac calls_only_call :=
  match goal with |- calls_only ?kind (perform ?c) => exact (calls_only_perform kind c eq_refl) end.

(** [calls_only] of a program written with the notations; the lemmas of the programs it
    calls are hints. *)
Ltac calls_only :=
  repeat first
    [ progress intros
    | apply calls_only_ret
    | calls_only_call
    | solve [auto with calls_only nocore]
    | apply calls_only_bind_ok
    | apply calls_only_bind
    | case_match ].

Create HintDb trace.
#[export] Hint Resolve extends_refl extends_cons extends_trans : trace.

Notation "'let*' x ':=' p 'in' k" := (bind p (fun x => k))
  (at level 10, x pattern, p at level 100, k at level 200) : rust_scope.
Notation "'let*?' x ':=' p 'in' k" := (bind_ok p (fun x => k))
  (at level 10, x pattern, p at level 100, k at level 200) : rust_scope.

(** ** Programs inside programs *)

Section embedding.
Context {call call' : Type} {answer : call -> Type} {answer' : call' -> Type}.

(** How a call appears outside and how an event is seen inside. *)
Class Embedding : Type := {
  inject : call -> call';
  answered : forall c, answer' (inject c) -> answer c;
  view : event answer' -> option (event answer);
  view_inject : forall c (r : answer' (inject c)), view (Ev (inject c) r) = Some (Ev c (answered c r))
}.

Context `{!Embedding}.

Fixpoint embed {A} (p : prog answer A) : prog answer' A :=
  match p with
  | Ret a => Ret a
  | Do c k => Do (inject c) (fun r => embed (k (answered c r)))
  end.

(** The events of the inner program. *)
Definition seen (h : list (event answer')) : list (event answer) := omap view h.

Lemma seen_inject c (r : answer' (inject c)) h : seen (Ev (inject c) r :: h) = Ev c (answered c r) :: seen h.
Proof. unfold seen. cbn. by rewrite view_inject. Qed.

Lemma seen_in h e e' : view e' = Some e -> e' ∈ h -> e ∈ seen h.
Proof. intros Hv He. apply list_elem_of_omap. by exists e'. Qed.

Lemma seen_extends h h' : extends h h' -> extends (seen h) (seen h').
Proof. intros (t & ->). exists (seen t). unfold seen. by rewrite omap_app. Qed.

Lemma wp_embed (G : list (event answer) -> call -> Prop) (G' : list (event answer') -> call' -> Prop) {A} (p : prog answer A) Q h :
  wp G p Q (seen h) -> (forall h c, G (seen h) c -> G' h (inject c)) ->
  wp G' (embed p) (fun h' a => extends h h' /\ Q (seen h') a) h.
Proof.
  intros Hw HG.
  assert (forall h1, extends h h1 -> wp G p Q (seen h1) -> wp G' (embed p) (fun h' a => extends h h' /\ Q (seen h') a) h1) as Hp;
    [|apply Hp; [apply extends_refl|exact Hw]].
  clear Hw. induction p as [a|c k IH]; intros h1 Hx; cbn; [done|]. intros [Hc Hk]. split; [by apply HG|]. intros r.
  apply IH; [by apply extends_cons|]. rewrite seen_inject. apply Hk.
Qed.

(** A run of the embedded program is a run of the program: the inner environment answers from
    the outer trace that belongs to the inner one. *)
Definition replay (env' : environment answer') (h final : list (event answer')) : environment answer :=
  fun g c => answered c (env' (drop (length final - (length h + (length g - length (seen h)))) final) (inject c)).

Lemma exec_embed {A} (p : prog answer A) env' h h' a :
  exec env' h (embed p) = (h', a) -> extends h h' /\ exec (replay env' h h') (seen h) p = (seen h', a).
Proof.
  intros He. split; [by eapply exec_extends_to|].
  assert (forall h1, (length h <= length h1)%nat -> (length (seen h) <= length (seen h1))%nat -> (length (seen h1) - length (seen h) = length h1 - length h)%nat ->
    exec env' h1 (embed p) = (h', a) -> exec (replay env' h h') (seen h1) p = (seen h', a)) as Hp; [|apply Hp; [lia|lia|lia|exact He]].
  clear He. induction p as [x|c k IH]; intros h1 Hl Hg Hs; cbn; [by intros [= <- <-]|]. intros He.
  pose proof (exec_extends_to _ _ _ _ _ He) as Hx.
  assert (replay env' h h' (seen h1) c = answered c (env' h1 (inject c))) as ->.
  { unfold replay. rewrite Hs. destruct Hx as (t & ->). f_equal. f_equal. rewrite !length_app. cbn [length].
    replace (length t + S (length h1) - (length h + (length h1 - length h)))%nat with (length (t ++ [Ev (inject c) (env' h1 (inject c))]))
      by (rewrite length_app; cbn; lia).
    change (t ++ ?e :: h1) with (t ++ [e] ++ h1). by rewrite app_assoc, drop_app_length. }
  rewrite <-seen_inject. apply IH; [cbn; lia|rewrite seen_inject; cbn [length]; lia| |exact He]. rewrite seen_inject. cbn [length]. lia.
Qed.

Lemma exec_embed_bind {A B} (p : prog answer A) (k : A -> prog answer B) env' h :
  exec env' h (embed (bind p k)) = exec env' (exec env' h (embed p)).1 (embed (k (exec env' h (embed p)).2)).
Proof. revert h. induction p as [a|c f IH]; intros h; cbn; [done|]. apply IH. Qed.

Lemma calls_only_embed kind {A} (p : prog answer A) : (forall c, kind (inject c) = true) -> calls_only kind (embed p).
Proof.
  intros Hk h. revert h. induction p as [a|c k IH]; intros h; cbn; [done|]. split; [apply Hk|]. intros r. apply IH.
Qed.
End embedding.
