(* ===== verification/Text.v ===== *)
(** * Strings

    Rust's [str] as the list of its Unicode scalar values, with the operations of
    [core::str] the program uses. [char::is_whitespace] is the [White_Space] property and
    [char::is_control] the [Cc] category, both written out; byte lengths and byte views
    go through UTF-8. *)

From S2P Require Import Prelude.
From Stdlib Require Import Ascii.

Local Open Scope N_scope.

(** ** Characters *)

Abbreviation char := N (only parsing).
Abbreviation str := (list N) (only parsing).

(** A string literal of the source (all of them are ASCII). *)
Fixpoint lit (s : string) : str :=
  match s with
  | EmptyString => []
  | String a s' => N_of_ascii a :: lit s'
  end.

Definition is_scalar (c : char) : bool :=
  (c <? 55296) || ((57344 <=? c) && (c <? 1114112)).

Definition is_whitespace (c : char) : bool :=
  ((9 <=? c) && (c <=? 13)) || (c =? 32) || (c =? 133) || (c =? 160) || (c =? 5760)
  || ((8192 <=? c) && (c <=? 8202)) || (c =? 8232) || (c =? 8233) || (c =? 8239)
  || (c =? 8287) || (c =? 12288).

Definition is_control (c : char) : bool :=
  (c <=? 31) || ((127 <=? c) && (c <=? 159)).

Definition is_ascii_char (c : char) : bool := c <=? 127.
Definition is_ascii_control (c : char) : bool := (c <=? 31) || (c =? 127).
Definition is_ascii_digit (c : char) : bool := (48 <=? c) && (c <=? 57).
Definition is_ascii_uppercase (c : char) : bool := (65 <=? c) && (c <=? 90).
Definition is_ascii_lowercase (c : char) : bool := (97 <=? c) && (c <=? 122).
Definition is_ascii_alphanumeric (c : char) : bool :=
  is_ascii_digit c || is_ascii_uppercase c || is_ascii_lowercase c.
Definition is_ascii_hexdigit (c : char) : bool :=
  is_ascii_digit c || ((65 <=? c) && (c <=? 70)) || ((97 <=? c) && (c <=? 102)).
Definition to_ascii_lowercase_char (c : char) : char :=
  if is_ascii_uppercase c then c + 32 else c.

(** [matches!(ch, 'a' | 'b' | ...)] for the characters of a literal. *)
Definition one_of (cs : str) (c : char) : bool := any (N.eqb c) cs.

(** A character literal, written as a one-character string. *)
Definition ch (s : string) : char := hd 0 (lit s).

(** ** UTF-8 *)

Definition len_utf8 (c : char) : N :=
  if c <? 128 then 1 else if c <? 2048 then 2 else if c <? 65536 then 3 else 4.

Definition utf8_char (c : char) : list N :=
  if c <? 128 then [c]
  else if c <? 2048 then [192 + c / 64; 128 + c mod 64]
  else if c <? 65536 then [224 + c / 4096; 128 + c / 64 mod 64; 128 + c mod 64]
  else [240 + c / 262144; 128 + c / 4096 mod 64; 128 + c / 64 mod 64; 128 + c mod 64].

(** [s.as_bytes()]. *)
Definition as_bytes (s : str) : list N := concat (map utf8_char s).

(** [s.len()]: the number of UTF-8 bytes. *)
Definition byte_len (s : str) : N := fold_right (fun c n => len_utf8 c + n) 0 s.

(** [s.chars().count()]. *)
Definition char_count (s : str) : N := len s.

(** One step of [String::from_utf8]: the first scalar value of a byte string and how
    many continuation bytes it takes; overlong forms, surrogates and values above
    [U+10FFFF] are errors. *)
Definition is_cont (b : N) : bool := (128 <=? b) && (b <? 192).

Fixpoint from_utf8 (bs : list N) : option str :=
  match bs with
  | [] => Some []
  | b0 :: r0 =>
      if b0 <? 128 then cons b0 <$> from_utf8 r0
      else match r0 with
      | b1 :: r1 =>
          if (194 <=? b0) && (b0 <? 224) && is_cont b1
          then cons ((b0 - 192) * 64 + (b1 - 128)) <$> from_utf8 r1
          else match r1 with
          | b2 :: r2 =>
              if (224 <=? b0) && (b0 <? 240) && is_cont b1 && is_cont b2
                 && (2048 <=? (b0 - 224) * 4096 + (b1 - 128) * 64 + (b2 - 128))
                 && is_scalar ((b0 - 224) * 4096 + (b1 - 128) * 64 + (b2 - 128))
              then cons ((b0 - 224) * 4096 + (b1 - 128) * 64 + (b2 - 128)) <$> from_utf8 r2
              else match r2 with
              | b3 :: r3 =>
                  if (240 <=? b0) && (b0 <? 245) && is_cont b1 && is_cont b2 && is_cont b3
                     && (65536 <=? (b0 - 240) * 262144 + (b1 - 128) * 4096 + (b2 - 128) * 64 + (b3 - 128))
                     && is_scalar ((b0 - 240) * 262144 + (b1 - 128) * 4096 + (b2 - 128) * 64 + (b3 - 128))
                  then cons ((b0 - 240) * 262144 + (b1 - 128) * 4096 + (b2 - 128) * 64 + (b3 - 128))
                       <$> from_utf8 r3
                  else None
              | [] => None
              end
          | [] => None
          end
      | [] => None
      end
  end.

(** [String::from_utf8_lossy]: each maximal part of an invalid sequence becomes [U+FFFD]. *)
Definition replacement_char : char := 65533.

Definition valid_second (b0 b1 : N) : bool :=
  if b0 =? 224 then (160 <=? b1) && (b1 <? 192)
  else if b0 =? 237 then (128 <=? b1) && (b1 <? 160)
  else if b0 =? 240 then (144 <=? b1) && (b1 <? 192)
  else if b0 =? 244 then (128 <=? b1) && (b1 <? 144)
  else is_cont b1.

Fixpoint from_utf8_lossy (bs : list N) : str :=
  match bs with
  | [] => []
  | b0 :: r0 =>
      if b0 <? 128 then b0 :: from_utf8_lossy r0
      else if negb ((194 <=? b0) && (b0 <? 245)) then replacement_char :: from_utf8_lossy r0
      else match r0 with
      | [] => [replacement_char]
      | b1 :: r1 =>
          if negb (valid_second b0 b1) then replacement_char :: from_utf8_lossy r0
          else if b0 <? 224 then (b0 - 192) * 64 + (b1 - 128) :: from_utf8_lossy r1
          else match r1 with
          | [] => [replacement_char]
          | b2 :: r2 =>
              if negb (is_cont b2) then replacement_char :: from_utf8_lossy r1
              else if b0 <? 240 then (b0 - 224) * 4096 + (b1 - 128) * 64 + (b2 - 128) :: from_utf8_lossy r2
              else match r2 with
              | [] => [replacement_char]
              | b3 :: r3 =>
                  if negb (is_cont b3) then replacement_char :: from_utf8_lossy r2
                  else (b0 - 240) * 262144 + (b1 - 128) * 4096 + (b2 - 128) * 64 + (b3 - 128) :: from_utf8_lossy r3
              end
          end
      end
  end.

(** ** Searching, trimming and splitting *)

Definition str_eqb (a b : str) : bool := bool_decide (a = b).

Fixpoint strip_prefix (p s : str) : option str :=
  match p, s with
  | [], _ => Some s
  | x :: p', y :: s' => if x =? y then strip_prefix p' s' else None
  | _ :: _, [] => None
  end.

Definition starts_with (p s : str) : bool := is_some_and (strip_prefix p s) (fun _ => true).

Definition strip_suffix (p s : str) : option str := reverse <$> strip_prefix (reverse p) (reverse s).

Definition ends_with (p s : str) : bool := is_some_and (strip_suffix p s) (fun _ => true).

(** [s.find(p)]: the text before the first occurrence and the text from it on. *)
Fixpoint find_str (p s : str) : option (str * str) :=
  if starts_with p s then Some ([], s)
  else match s with
  | [] => None
  | c :: s' => (fun ba => (c :: ba.1, ba.2)) <$> find_str p s'
  end.

(** [s.split_once(p)]. *)
Definition split_once (p s : str) : option (str * str) :=
  match find_str p s with
  | Some (before, from) => Some (before, drop (length p) from)
  | None => None
  end.

(** [s.rfind(p)], splitting the text around the last occurrence. *)
Fixpoint rfind_str (p s : str) : option (str * str) :=
  match s with
  | [] => if is_empty p then Some ([], []) else None
  | c :: s' =>
      match rfind_str p s' with
      | Some (a, b) => Some (c :: a, b)
      | None => pair [] <$> strip_prefix p s
      end
  end.

Definition contains (p s : str) : bool := is_some_and (find_str p s) (fun _ => true).

Definition contains_char (c : char) (s : str) : bool := any (N.eqb c) s.

(** [s.replace(p, t)] for a non-empty [p]: leftmost, non-overlapping. [skip] counts the
    characters of the current occurrence still to be dropped. *)
Fixpoint replace_go (p t : str) (skip : nat) (s : str) : str :=
  match s with
  | [] => []
  | c :: s' =>
      match skip with
      | S k => replace_go p t k s'
      | O => if starts_with p s then t ++ replace_go p t (length p - 1) s'
             else c :: replace_go p t 0 s'
      end
  end.

Definition replace (p t s : str) : str := replace_go p t 0 s.

Definition trim_start_matches (f : char -> bool) (s : str) : str := drop_while f s.
Definition trim_end_matches (f : char -> bool) (s : str) : str := reverse (drop_while f (reverse s)).
Definition trim_matches (f : char -> bool) (s : str) : str := trim_end_matches f (trim_start_matches f s).

Definition trim_start (s : str) : str := trim_start_matches is_whitespace s.
Definition trim_end (s : str) : str := trim_end_matches is_whitespace s.
Definition trim (s : str) : str := trim_matches is_whitespace s.

(** [s.split(f)]: one more piece than there are separators. *)
Fixpoint split_by (f : char -> bool) (s : str) : list str :=
  match s with
  | [] => [[]]
  | c :: s' =>
      if f c then [] :: split_by f s'
      else match split_by f s' with
      | w :: ws => (c :: w) :: ws
      | [] => [[c]]
      end
  end.

Definition split_whitespace (s : str) : list str :=
  List.filter (fun w => negb (is_empty w)) (split_by is_whitespace s).

(** [s.lines()]: pieces end at ['\n'], a ['\r'] just before it belongs to the line end,
    and a final line end does not open an empty last line. *)
(** [s.split_ascii_whitespace()]. *)
Definition is_ascii_whitespace (c : char) : bool := one_of [9; 10; 12; 13; 32] c.

Definition split_ascii_whitespace (s : str) : list str :=
  List.filter (fun w => negb (is_empty w)) (split_by is_ascii_whitespace s).

Definition drop_cr (l : str) : str := default l (strip_suffix [13] l).

Fixpoint drop_cr_all_but_last (ls : list str) : list str :=
  match ls with
  | [] => []
  | [l] => if is_empty l then [] else [l]
  | l :: ls' => drop_cr l :: drop_cr_all_but_last ls'
  end.

Definition lines (s : str) : list str := drop_cr_all_but_last (split_by (N.eqb 10) s).

(** [pieces.join(sep)]. *)
Fixpoint join (sep : str) (ws : list str) : str :=
  match ws with
  | [] => []
  | [w] => w
  | w :: ws' => w ++ sep ++ join sep ws'
  end.

Definition to_ascii_lowercase (s : str) : str := map to_ascii_lowercase_char s.

Definition eq_ignore_ascii_case (a b : str) : bool :=
  str_eqb (to_ascii_lowercase a) (to_ascii_lowercase b).

(** [String]'s order: lexicographic by scalar value, which is the order of the bytes. *)
Fixpoint str_leb (a b : str) : bool :=
  match a, b with
  | [], _ => true
  | _ :: _, [] => false
  | x :: a', y :: b' => (x <? y) || ((x =? y) && str_leb a' b')
  end.

(** ** Hexadecimal *)

Definition hex_digit (n : N) : char := if n <? 10 then 48 + n else 87 + n.

(** [format!("{byte:02x}")]. *)
Definition hex_byte (b : N) : str := [hex_digit (b / 16); hex_digit (b mod 16)].

Definition hex_value (c : char) : option N :=
  if is_ascii_digit c then Some (c - 48)
  else if (97 <=? c) && (c <=? 102) then Some (c - 87)
  else if (65 <=? c) && (c <=? 70) then Some (c - 55)
  else None.

(** [u8::from_str_radix(&hex[i..i + 2], 16)] for each pair of hexadecimal digits. *)
Fixpoint hex_pairs (s : str) : option (list N) :=
  match s with
  | [] => Some []
  | [_] => None
  | a :: b :: s' =>
      match hex_value a, hex_value b, hex_pairs s' with
      | Some x, Some y, Some r => Some (16 * x + y :: r)
      | _, _, _ => None
      end
  end.

(** Decimal digits of a number, as [format!("{n}")] prints it. *)
Fixpoint decimal_go (fuel : nat) (n : N) (acc : str) : str :=
  match fuel with
  | O => acc
  | S k => let acc' := (48 + n mod 10) :: acc in
           if n <? 10 then acc' else decimal_go k (n / 10) acc'
  end.

Definition decimal (n : N) : str := decimal_go (S (N.to_nat (N.log2 n))) n [].

(** [format!("{n:x}")]. *)
Fixpoint hex_radix_go (fuel : nat) (n : N) (acc : str) : str :=
  match fuel with
  | O => acc
  | S k => let acc' := hex_digit (n mod 16) :: acc in
           if n <? 16 then acc' else hex_radix_go k (n / 16) acc'
  end.

Definition format_hex (n : N) : str := hex_radix_go (S (N.to_nat (N.log2 n))) n [].

(** ** Lemmas: prefixes and search *)

Lemma str_eqb_eq (a b : str) : str_eqb a b = true <-> a = b.
Proof. unfold str_eqb. by rewrite bool_decide_eq_true. Qed.

Lemma str_eqb_neq (a b : str) : str_eqb a b = false <-> a <> b.
Proof. unfold str_eqb. by rewrite bool_decide_eq_false. Qed.

Lemma str_eqb_refl (a : str) : str_eqb a a = true.
Proof. by apply str_eqb_eq. Qed.

Lemma strip_prefix_spec p (s r : str) : strip_prefix p s = Some r <-> s = p ++ r.
Proof.
  revert s. induction p as [|x p IH]; intros s; cbn; [naive_solver|].
  destruct s as [|y s]; [naive_solver|]. destruct (N.eqb_spec x y) as [->|]; [|naive_solver].
  rewrite IH. naive_solver.
Qed.

Lemma starts_with_spec p (s : str) : starts_with p s = true <-> exists r, s = p ++ r.
Proof.
  unfold starts_with. setoid_rewrite <-strip_prefix_spec.
  destruct (strip_prefix p s); cbn; naive_solver.
Qed.

Lemma starts_with_app p (s : str) : starts_with p (p ++ s) = true.
Proof. apply starts_with_spec. eauto. Qed.

Lemma strip_suffix_spec p (s r : str) : strip_suffix p s = Some r <-> s = r ++ p.
Proof.
  unfold strip_suffix. rewrite fmap_Some. setoid_rewrite strip_prefix_spec. split.
  - intros (x & Hs & ->). rewrite <-(reverse_involutive s), Hs, reverse_app.
    by rewrite reverse_involutive.
  - intros ->. exists (reverse r). by rewrite reverse_app, reverse_involutive.
Qed.

Lemma ends_with_spec p (s : str) : ends_with p s = true <-> exists r, s = r ++ p.
Proof.
  unfold ends_with. setoid_rewrite <-strip_suffix_spec.
  destruct (strip_suffix p s); cbn; naive_solver.
Qed.

Lemma find_str_some p (s a b : str) :
  find_str p s = Some (a, b) -> s = a ++ b /\ starts_with p b = true.
Proof.
  revert a b. induction s as [|c s IH]; intros a b; cbn.
  - destruct (starts_with p []) eqn:E; [|done]. by intros [= <- <-].
  - destruct (starts_with p (c :: s)) eqn:E; [by intros [= <- <-]|].
    intros ([a' b'] & Hf & [= -> ->])%fmap_Some. cbn. apply IH in Hf as [-> ?]. done.
Qed.

Lemma find_str_none p (s : str) : find_str p s = None -> forall a r, s <> a ++ p ++ r.
Proof.
  induction s as [|c s IH]; cbn; destruct (starts_with p _) eqn:E; try done.
  - intros _ a r H. symmetry in H. apply app_nil in H as [-> H]. apply app_nil in H as [-> ->]. done.
  - intros H%fmap_None a r Heq. destruct a as [|x a]; cbn in Heq.
    + rewrite Heq, starts_with_app in E. done.
    + injection Heq as -> Heq. by eapply IH.
Qed.

Lemma contains_spec p (s : str) : contains p s = true <-> exists a r, s = a ++ p ++ r.
Proof.
  unfold contains. split.
  - destruct (find_str p s) as [[a b]|] eqn:E; [|done]. intros _.
    apply find_str_some in E as [-> (r & ->)%starts_with_spec]. eauto.
  - intros (a & r & H). destruct (find_str p s) eqn:E; [done|].
    exfalso. by eapply find_str_none.
Qed.

Lemma contains_app_l p (a b : str) : contains p a = true -> contains p (a ++ b) = true.
Proof. rewrite !contains_spec. intros (x & r & ->). exists x, (r ++ b). by rewrite <-!app_assoc. Qed.

Lemma contains_app_r p (a b : str) : contains p b = true -> contains p (a ++ b) = true.
Proof. rewrite !contains_spec. intros (x & r & ->). exists (a ++ x), r. by rewrite <-!app_assoc. Qed.

Lemma contains_refl (p : str) : contains p p = true.
Proof. apply contains_spec. exists [], []. by rewrite app_nil_r. Qed.

(** ** Lemmas: trimming *)

Lemma trim_end_matches_prefix f (s : str) : exists k, s = trim_end_matches f s ++ k /\ Forall (fun c => f c = true) k.
Proof.
  unfold trim_end_matches. destruct (drop_while_suffix f (reverse s)) as (k & Hk & HF).
  exists (reverse k). split; [|by apply Forall_reverse].
  by rewrite <-reverse_app, <-Hk, reverse_involutive.
Qed.

Lemma trim_end_matches_last f (s l : str) c : trim_end_matches f s = l ++ [c] -> f c = false.
Proof.
  unfold trim_end_matches. intros H. apply (f_equal reverse) in H.
  rewrite reverse_involutive, reverse_snoc in H. by eapply drop_while_head.
Qed.

Lemma trim_end_matches_id f (s : str) :
  trim_end_matches f s = s <-> (s = [] \/ exists l c, s = l ++ [c] /\ f c = false).
Proof.
  split.
  - intros H. destruct s as [|c l _] using rev_ind; [by left|]. right. exists l, c.
    split; [done|]. by eapply trim_end_matches_last.
  - intros [->|(l & c & -> & Hc)]; [done|]. unfold trim_end_matches.
    rewrite reverse_snoc, drop_while_id by done. by rewrite reverse_cons, reverse_involutive.
Qed.

Lemma trim_matches_infix f (s : str) :
  exists a b, s = a ++ trim_matches f s ++ b
    /\ Forall (fun c => f c = true) a /\ Forall (fun c => f c = true) b.
Proof.
  unfold trim_matches, trim_start_matches.
  destruct (drop_while_suffix f s) as (a & Ha & HFa).
  destruct (trim_end_matches_prefix f (drop_while f s)) as (b & Hb & HFb).
  exists a, b. by rewrite <-Hb, <-Ha.
Qed.

Lemma trim_matches_nil f (s : str) : trim_matches f s = [] <-> Forall (fun c => f c = true) s.
Proof.
  split.
  - intros H. destruct (trim_matches_infix f s) as (a & b & Hs & Ha & Hb).
    rewrite Hs, H. cbn. by rewrite Forall_app.
  - intros H. unfold trim_matches, trim_start_matches. by rewrite (proj2 (drop_while_nil f s)).
Qed.

(** A trimmed text begins and ends with a character that is kept. *)
Definition trimmed (f : char -> bool) (s : str) : Prop :=
  s = [] \/ (exists c l, s = c :: l /\ f c = false) /\ (exists l c, s = l ++ [c] /\ f c = false).

Lemma trim_matches_trimmed f (s : str) : trimmed f (trim_matches f s).
Proof.
  unfold trim_matches, trim_start_matches.
  destruct (drop_while f s) as [|c l] eqn:E; [by left|]. pose proof (drop_while_head _ _ _ _ E) as Hc.
  destruct (trim_end_matches f (c :: l)) as [|x r] eqn:Et; [by left|]. right. split.
  - exists x, r. split; [done|]. destruct (trim_end_matches_prefix f (c :: l)) as (k & Hk & _).
    rewrite Et in Hk. by simplify_eq/=.
  - destruct r as [|c' l' _] using rev_ind.
    + exists [], x. split; [done|]. exact (trim_end_matches_last f (c :: l) [] x Et).
    + exists (x :: l'), c'. split; [done|]. exact (trim_end_matches_last f (c :: l) (x :: l') c' Et).
Qed.

Lemma trimmed_trim f (s : str) : trimmed f s -> trim_matches f s = s.
Proof.
  intros [->|[(c & l & -> & Hc) Hl]]; [done|]. unfold trim_matches, trim_start_matches.
  rewrite drop_while_id by done. apply trim_end_matches_id. by right.
Qed.

Lemma trim_matches_idem f (s : str) : trim_matches f (trim_matches f s) = trim_matches f s.
Proof. apply trimmed_trim, trim_matches_trimmed. Qed.

Lemma trim_idem (s : str) : trim (trim s) = trim s.
Proof. apply trim_matches_idem. Qed.

Lemma trim_matches_Forall f (P : char -> Prop) (s : str) : Forall P s -> Forall P (trim_matches f s).
Proof.
  destruct (trim_matches_infix f s) as (a & b & Hs & _ & _). rewrite Hs at 1.
  by rewrite !Forall_app; intros (_ & ? & _).
Qed.

Lemma trim_matches_length f (s : str) : (length (trim_matches f s) <= length s)%nat.
Proof.
  destruct (trim_matches_infix f s) as (a & b & Hs & _ & _). rewrite Hs at 2.
  rewrite !length_app. lia.
Qed.

(** ** Lemmas: byte lengths and UTF-8 *)

Lemma byte_len_app (a b : str) : byte_len (a ++ b) = byte_len a + byte_len b.
Proof. induction a as [|c a IH]; cbn; [done|]. unfold byte_len in *. lia. Qed.

Lemma byte_len_cons c (s : str) : byte_len (c :: s) = len_utf8 c + byte_len s.
Proof. done. Qed.

Lemma byte_len_nil : byte_len [] = 0.
Proof. done. Qed.

#[export] Hint Rewrite byte_len_app byte_len_cons byte_len_nil : len.

Lemma len_utf8_bounds c : 1 <= len_utf8 c <= 4.
Proof. unfold len_utf8. repeat case_match; lia. Qed.

Lemma byte_len_bounds (s : str) : char_count s <= byte_len s <= 4 * char_count s.
Proof.
  unfold char_count, len. induction s as [|c s IH]; [done|].
  rewrite byte_len_cons. cbn [length]. pose proof (len_utf8_bounds c). lia.
Qed.

Lemma byte_len_ascii (s : str) : Forall (fun c => is_ascii_char c = true) s -> byte_len s = char_count s.
Proof.
  unfold char_count, len. induction 1 as [|c s Hc _ IH]; [done|].
  rewrite byte_len_cons, IH. cbn [length]. unfold is_ascii_char in Hc. apply N.leb_le in Hc.
  unfold len_utf8. destruct (N.ltb_spec c 128); lia.
Qed.

Lemma byte_len_zero (s : str) : byte_len s = 0 <-> s = [].
Proof.
  split; [|by intros ->]. destruct s as [|c s]; [done|]. rewrite byte_len_cons.
  pose proof (len_utf8_bounds c). lia.
Qed.

Lemma len_utf8_char c : len (utf8_char c) = len_utf8 c.
Proof. unfold utf8_char, len_utf8. by repeat case_match. Qed.

Lemma len_as_bytes (s : str) : len (as_bytes s) = byte_len s.
Proof.
  induction s as [|c s IH]; [done|]. unfold as_bytes in *. cbn.
  autorewrite with len. by rewrite IH, len_utf8_char.
Qed.

Lemma as_bytes_app (a b : str) : as_bytes (a ++ b) = as_bytes a ++ as_bytes b.
Proof. unfold as_bytes. by rewrite map_app, concat_app. Qed.

(** Decoding undoes encoding on scalar values. *)
Lemma from_utf8_char c (bs : list N) :
  is_scalar c = true -> from_utf8 (utf8_char c ++ bs) = cons c <$> from_utf8 bs.
Proof.
  intros Hc. assert (c < 1114112) as Hmax.
  { unfold is_scalar in Hc. apply orb_true_iff in Hc as [?%N.ltb_lt|[_ ?%N.ltb_lt]%andb_true_iff]; lia. }
  unfold utf8_char. destruct (N.ltb_spec c 128); [cbn; by decide_N|].
  destruct (N.ltb_spec c 2048); [|destruct (N.ltb_spec c 65536)]; cbn; unfold is_cont; decide_N; cbn.
  - do 2 f_equal. lia.
  - assert ((224 + c / 4096 - 224) * 4096 + (128 + c / 64 mod 64 - 128) * 64 + (128 + c mod 64 - 128) = c) as -> by lia.
    rewrite Hc. by decide_N.
  - assert ((240 + c / 262144 - 240) * 262144 + (128 + c / 4096 mod 64 - 128) * 4096
            + (128 + c / 64 mod 64 - 128) * 64 + (128 + c mod 64 - 128) = c) as -> by lia.
    rewrite Hc. by decide_N.
Qed.

Lemma from_utf8_as_bytes (s : str) : Forall (fun c => is_scalar c = true) s -> from_utf8 (as_bytes s) = Some s.
Proof.
  induction 1 as [|c s Hc _ IH]; [done|]. change (as_bytes (c :: s)) with (utf8_char c ++ as_bytes s).
  by rewrite from_utf8_char, IH.
Qed.

Lemma as_bytes_byte (s : str) : Forall (fun c => is_scalar c = true) s -> Forall (fun b => b < 256) (as_bytes s).
Proof.
  induction 1 as [|c s Hc _ IH]; [constructor|]. change (as_bytes (c :: s)) with (utf8_char c ++ as_bytes s).
  apply Forall_app. split; [|done]. unfold is_scalar in Hc.
  assert (c < 1114112) by (apply orb_true_iff in Hc as [?%N.ltb_lt|[_ ?%N.ltb_lt]%andb_true_iff]; lia).
  clear Hc. unfold utf8_char.
  destruct (N.ltb_spec c 128); [|destruct (N.ltb_spec c 2048); [|destruct (N.ltb_spec c 65536)]];
    repeat constructor; lia.
Qed.

(** Valid UTF-8 is decoded without a replacement. *)
Ltac second_byte :=
  unfold valid_second, is_cont, is_scalar in *; repeat case_match; lia.

Ltac cont_bytes :=
  repeat match goal with Hx : _ && _ = true |- _ => apply andb_true_iff in Hx as [? ?] end;
  repeat match goal with Hx : is_cont _ = true |- context [is_cont _] => rewrite Hx end.

Lemma from_utf8_lossy_len (n : nat) (bs : list N) (s : str) :
  (length bs <= n)%nat -> from_utf8 bs = Some s -> from_utf8_lossy bs = s.
Proof.
  revert bs s. induction n as [|n IH]; intros bs s Hn; [destruct bs; cbn in *; [by intros [= <-]|lia]|].
  destruct bs as [|b0 r0]; [by intros [= <-]|]. cbn [from_utf8 from_utf8_lossy length] in *.
  destruct (N.ltb_spec b0 128).
  { intros (r & Hr & ->)%fmap_Some. f_equal. apply IH; [lia|done]. }
  destruct r0 as [|b1 r1]; [done|]. cbn [length] in *.
  destruct ((194 <=? b0) && (b0 <? 224) && is_cont b1) eqn:E2.
  { intros (r & Hr & ->)%fmap_Some. assert (valid_second b0 b1 = true) as -> by second_byte.
    decide_N. cbn [negb andb]. f_equal. apply IH; [lia|done]. }
  destruct r1 as [|b2 r2]; [done|]. cbn [length] in *.
  destruct (_ && is_scalar ((b0 - 224) * 4096 + _ + _)) eqn:E3.
  { intros (r & Hr & ->)%fmap_Some. assert (valid_second b0 b1 = true) as -> by second_byte.
    cont_bytes. decide_N. cbn [negb andb]. f_equal. apply IH; [lia|done]. }
  destruct r2 as [|b3 r3]; [done|]. cbn [length] in *.
  match goal with |- (if ?c then _ else None) = _ -> _ => destruct c eqn:E4 end; [|by intros [=]].
  intros (r & Hr & ->)%fmap_Some. assert (valid_second b0 b1 = true) as -> by second_byte.
  cont_bytes.
  decide_N. cbn [negb andb]. f_equal. apply IH; [lia|done].
Qed.

Lemma from_utf8_lossy_valid (bs : list N) (s : str) : from_utf8 bs = Some s -> from_utf8_lossy bs = s.
Proof. by apply (from_utf8_lossy_len (length bs)). Qed.

(** ** Lemmas: replacing *)

Lemma replace_go_Forall (P : char -> Prop) p t k (s : str) :
  Forall P t -> Forall P s -> Forall P (replace_go p t k s).
Proof.
  intros Ht Hs. revert k. induction Hs as [|c s Hc _ IH]; intros k; cbn [replace_go]; [constructor|].
  destruct k; [|done]. destruct (starts_with p (c :: s)); [by apply Forall_app|auto].
Qed.

(** Replacing a two-character pattern [x y] by a text in which it does not occur, which
    ends in [y] and does not begin with [y], removes every occurrence. *)
Section replace_removes.
Context (x y : char) (t u : str).
Hypothesis Hxy : x <> y.
Hypothesis Ht : t = u ++ [y].
Hypothesis Hu : Forall (fun c => c <> x /\ c <> y) u.
Hypothesis Hu0 : u <> [].

Lemma no_pair_cons c (s : str) :
  contains [x; y] s = false -> (c <> x \/ head s <> Some y) -> contains [x; y] (c :: s) = false.
Proof.
  rewrite <-!not_true_iff_false, !contains_spec. intros Hn Hc (a & r & H). apply Hn.
  destruct a as [|b a]; cbn in H; injection H as -> H; [|by exists a, r].
  destruct s as [|c' s]; [done|]. injection H as -> ->. by destruct Hc as [[]|[]].
Qed.

Lemma no_pair_app (s : str) : contains [x; y] s = false -> contains [x; y] (t ++ s) = false.
Proof.
  intros Hs. rewrite Ht, <-app_assoc. clear Ht Hu0. induction Hu as [|c v [Hcx Hcy] _ IH]; cbn.
  - apply no_pair_cons; [done|]. left. congruence.
  - apply no_pair_cons; [|by left]. apply IH. by inversion Hu.
Qed.

Lemma replace_go_head k (s : str) : head (replace_go [x; y] t k s) = Some y -> k <> 0%nat \/ head s = Some y.
Proof.
  destruct s as [|c s]; cbn [replace_go]; [done|]. destruct k as [|k]; [|by left].
  destruct (starts_with _ _); [|by right]. rewrite Ht. destruct u as [|c' u']; [done|]. cbn.
  intros [= ->]. inversion Hu; subst. naive_solver.
Qed.

Lemma replace_removes_pair k (s : str) : contains [x; y] (replace_go [x; y] t k s) = false.
Proof.
  revert k. induction s as [|c s IH]; intros k; [done|]. cbn [replace_go].
  destruct k as [|k]; [|done]. destruct (starts_with [x; y] (c :: s)) eqn:E; [by apply no_pair_app|].
  apply no_pair_cons; [done|]. destruct (decide (c = x)) as [->|]; [|by left]. right.
  intros [?|H]%replace_go_head; [done|]. destruct s as [|c' s]; [done|]. injection H as ->.
  change (x :: y :: s) with ([x; y] ++ s) in E. by rewrite starts_with_app in E.
Qed.
End replace_removes.

(** Replacing by a text that shares no character with [p] creates no occurrence of [p]. *)
Section replace_keeps_absent.
Context (x : char) (p' q' t p : str).
Let q : str := x :: q'.
Hypothesis t_pos : t <> [].
Hypothesis p_pos : p <> [].
Hypothesis disjoint : Forall (fun c => c ∉ p) t.

Lemma starts_with_disjoint (pre s : str) :
  (forall c, c ∈ pre -> c ∈ p) -> starts_with pre (replace_go q t 0 s) = true -> starts_with pre s = true.
Proof.
  revert pre. induction s as [|c s IH]; intros pre Hp; cbn [replace_go]; [done|].
  destruct (starts_with q (c :: s)).
  - destruct t as [|d t']; [done|]. destruct pre as [|e pre]; [done|].
    unfold starts_with. cbn [app strip_prefix]. destruct (N.eqb_spec e d) as [->|]; [|done].
    exfalso. inversion disjoint as [|? ? Hd]; subst. apply Hd, Hp, elem_of_cons. by left.
  - destruct pre as [|e pre]; [done|]. unfold starts_with. cbn [strip_prefix].
    destruct (N.eqb_spec e c); [|done]. intros H. apply IH; [|exact H].
    intros y Hy. apply Hp, elem_of_cons. by right.
Qed.

Lemma contains_disjoint (s : str) : contains p (t ++ s) = true -> contains p s = true.
Proof.
  clear t_pos. induction disjoint as [|c t' Hc _ IH]; [done|]. intros H. apply IH; [by inversion disjoint|].
  cbn in H. unfold contains in *. cbn [app find_str] in H. destruct p as [|e p0]; [done|].
  unfold starts_with in H. cbn [strip_prefix] in H. destruct (N.eqb_spec e c) as [->|].
  - exfalso. apply Hc, elem_of_cons. by left.
  - cbn in H. destruct (find_str (e :: p0) (t' ++ s)); [done|discriminate H].
Qed.

Lemma contains_replace_go k (s : str) : contains p (replace_go q t k s) = true -> contains p s = true.
Proof.
  revert k. induction s as [|c s IH]; intros k; [done|]. cbn [replace_go].
  assert (contains p s = true -> contains p (c :: s) = true) as Hcons by (apply (contains_app_r p [c] s)).
  destruct k as [|k]; [|by eauto]. destruct (starts_with q (c :: s)) eqn:E.
  - intros H%contains_disjoint. eauto.
  - intros H. unfold contains in H. cbn [find_str] in H. destruct (starts_with p _) eqn:Es.
    + assert (starts_with p (c :: s) = true) as (r & Hr)%starts_with_spec.
      { apply starts_with_disjoint; [done|]. cbn [replace_go]. by rewrite E. }
      apply contains_spec. exists [], r. done.
    + apply Hcons, (IH 0%nat). unfold contains. by destruct (find_str p (replace_go q t 0 s)).
Qed.
End replace_keeps_absent.

Lemma contains_pair_app (x y : char) (s w : str) :
  contains [x; y] s = false -> y ∉ w -> contains [x; y] (s ++ w) = false.
Proof.
  intros Hs Hw. apply not_true_iff_false. intros (a & r & H)%contains_spec.
  apply app_eq_inv in H as [(k & Hk & Hr)|(k & _ & Hr)].
  - destruct k as [|c [|d k]]; cbn in Hr.
    + subst w. apply Hw. apply elem_of_cons. right. apply elem_of_cons. by left.
    + injection Hr as _ Hr. subst w. apply Hw, elem_of_cons. by left.
    + injection Hr as <- <- _. assert (contains [x; y] s = true) as Hc by (rewrite Hk; apply contains_spec; by exists a, k).
      congruence.
  - subst w. apply Hw, elem_of_app. right. apply elem_of_cons. right. apply elem_of_cons. by left.
Qed.

Lemma contains_take p n (s : str) : contains p s = false -> contains p (take n s) = false.
Proof.
  intros H. apply not_true_iff_false. intros Hc. rewrite <-(take_drop n s) in H. by rewrite contains_app_l in H.
Qed.

(** ** Lemmas: splitting and joining *)

Lemma contains_absent (x y : char) (s : str) : x ∉ s -> contains [x; y] s = false.
Proof.
  intros Hs. apply not_true_iff_false. intros (a & r & ->)%contains_spec. apply Hs.
  apply elem_of_app. right. by left.
Qed.

Lemma join_not_in x sep (ws : list str) : x ∉ sep -> Forall (fun w => x ∉ w) ws -> x ∉ join sep ws.
Proof.
  intros Hs HF. induction HF as [|w ws Hw HF IH]; [apply not_elem_of_nil|].
  destruct ws as [|w' ws]; [done|]. change (join sep (w :: w' :: ws)) with (w ++ sep ++ join sep (w' :: ws)).
  rewrite !elem_of_app. naive_solver.
Qed.

Lemma split_by_nonnil f (s : str) : split_by f s <> [].
Proof. destruct s as [|c s]; cbn; [done|]. destruct (f c); [done|]. by destruct (split_by f s). Qed.

Lemma split_by_pieces f (s : str) : Forall (Forall (fun c => f c = false)) (split_by f s).
Proof.
  induction s as [|c s IH]; cbn; [by repeat constructor|]. destruct (f c) eqn:E; [by constructor|].
  destruct (split_by f s) as [|w ws]; [by repeat constructor|].
  inversion IH; subst. repeat constructor; auto.
Qed.

Lemma split_by_head f (s : str) : exists b, s = hd [] (split_by f s) ++ b.
Proof.
  induction s as [|c s (b & IH)]; cbn; [by exists []|]. destruct (f c); [by exists (c :: s)|].
  destruct (split_by f s) as [|w ws]; cbn in *; [by exists s|]. exists b. by rewrite <-IH.
Qed.

Lemma split_by_infix f (s w : str) : w ∈ split_by f s -> exists a b, s = a ++ w ++ b.
Proof.
  assert (w ∈ tail (split_by f s) -> exists a b, s = a ++ w ++ b) as Ht.
  { induction s as [|c s IH]; cbn; [by intros ?%not_elem_of_nil|].
    pose proof (split_by_head f s) as (b & Hb). destruct (f c); cbn.
    - intros Hw. destruct (split_by f s) as [|w0 ws] eqn:E; [by apply not_elem_of_nil in Hw|].
      apply elem_of_cons in Hw as [->|Hw]; [by exists [c], b; cbn; rewrite Hb at 1|].
      destruct (IH Hw) as (a & b' & ->). by exists (c :: a), b'.
    - destruct (split_by f s) as [|w0 ws]; cbn; [by intros ?%not_elem_of_nil|].
      intros Hw. destruct (IH Hw) as (a & b' & ->). by exists (c :: a), b'. }
  intros Hw. pose proof (split_by_head f s) as (b & Hb). destruct (split_by f s) as [|w0 ws] eqn:E; [by apply not_elem_of_nil in Hw|].
  apply elem_of_cons in Hw as [->|Hw]; [by exists [], b|by apply Ht].
Qed.

(** The pieces hold all characters of the text but the separators, in order. *)
Lemma split_by_concat f (s : str) : concat (split_by f s) = List.filter (fun c => negb (f c)) s.
Proof.
  induction s as [|c s IH]; [done|]. cbn [split_by List.filter].
  destruct (f c) eqn:E; cbn [negb]; [done|]. rewrite <-IH.
  destruct (split_by f s) as [|w ws]; done.
Qed.

Lemma split_by_none f (s : str) : Forall (fun c => f c = false) s -> split_by f s = [s].
Proof. induction 1 as [|c s Hc _ IH]; cbn; [done|]. by rewrite Hc, IH. Qed.

Lemma split_by_app f (a b : str) c :
  Forall (fun c => f c = false) a -> f c = true -> split_by f (a ++ c :: b) = a :: split_by f b.
Proof. intros Ha Hc. induction Ha as [|x a Hx _ IH]; cbn; [by rewrite Hc|]. by rewrite Hx, IH. Qed.

Lemma split_by_join f c (ws : list str) :
  f c = true -> ws <> [] -> Forall (Forall (fun x => f x = false)) ws -> split_by f (join [c] ws) = ws.
Proof.
  intros Hc Hn HF. induction HF as [|w ws Hw HF IH]; [done|].
  destruct ws as [|w' ws]; [by apply split_by_none|].
  change (join [c] (w :: w' :: ws)) with (w ++ c :: join [c] (w' :: ws)).
  rewrite split_by_app by done. by rewrite IH.
Qed.

Lemma split_join c (ws : list str) :
  ws <> [] -> Forall (Forall (fun x => N.eqb c x = false)) ws -> split_by (N.eqb c) (join [c] ws) = ws.
Proof. apply split_by_join, N.eqb_refl. Qed.

(** A line of words, one space apart. *)
Lemma split_ascii_whitespace_line (ws : list str) :
  ws <> [] -> Forall (fun w => w <> [] /\ Forall (fun c => is_ascii_whitespace c = false) w) ws ->
  split_ascii_whitespace (join [32] ws ++ [10]) = ws.
Proof.
  intros Hn Hw. unfold split_ascii_whitespace.
  replace (split_by is_ascii_whitespace (join [32] ws ++ [10])) with (ws ++ [[]]).
  - rewrite List.filter_app. cbn. rewrite app_nil_r. clear Hn.
    induction Hw as [|w ws [Hw _] _ IH]; [done|]. cbn. apply is_empty_false in Hw. by rewrite Hw, IH.
  - symmetry. induction Hw as [|w ws [_ Hw] HF IH]; [done|].
    destruct ws as [|w' ws]; [by rewrite split_by_app|].
    change (join [32] (w :: w' :: ws)) with (w ++ 32 :: join [32] (w' :: ws)).
    rewrite <-app_assoc. cbn [app]. rewrite split_by_app by done. by rewrite IH.
Qed.

Lemma join_split c (s : str) : join [c] (split_by (N.eqb c) s) = s.
Proof.
  induction s as [|x s IH]; [done|]. cbn [split_by]. pose proof (split_by_nonnil (N.eqb c) s).
  destruct (N.eqb_spec c x) as [->|]; destruct (split_by _ s) as [|w ws]; try done.
  - change (x :: join [x] (w :: ws) = x :: s). by rewrite IH.
  - destruct ws; cbn in *; by f_equal.
Qed.

Lemma join_Forall (P : char -> Prop) sep (ws : list str) :
  Forall P sep -> Forall (Forall P) ws -> Forall P (join sep ws).
Proof.
  intros Hs. induction 1 as [|w ws Hw HF IH]; [constructor|].
  destruct ws; cbn [join] in *; [done|]. rewrite !Forall_app. done.
Qed.

(** ** Lemmas: hexadecimal *)

Lemma hex_value_digit n : n < 16 -> hex_value (hex_digit n) = Some n.
Proof.
  intros H. unfold hex_digit. destruct (N.ltb_spec n 10); unfold hex_value, is_ascii_digit; decide_N; cbn; f_equal; lia.
Qed.

Lemma hex_digit_lower n : n < 16 -> is_ascii_digit (hex_digit n) || ((97 <=? hex_digit n) && (hex_digit n <=? 102)) = true.
Proof. intros H. unfold hex_digit. destruct (N.ltb_spec n 10); unfold is_ascii_digit; decide_N; done. Qed.

Lemma hex_pairs_bytes (bs : list N) : Forall (fun b => b < 256) bs -> hex_pairs (concat (map hex_byte bs)) = Some bs.
Proof.
  induction 1 as [|b bs Hb _ IH]; [done|]. cbn. rewrite IH, !hex_value_digit by lia.
  do 2 f_equal. lia.
Qed.

Lemma length_hex_bytes (bs : list N) : length (concat (map hex_byte bs)) = (2 * length bs)%nat.
Proof. induction bs as [|b bs IH]; [done|]. cbn. lia. Qed.

Lemma hex_bytes_inj (a b : list N) :
  Forall (fun x => x < 256) a -> Forall (fun x => x < 256) b ->
  concat (map hex_byte a) = concat (map hex_byte b) -> a = b.
Proof. intros Ha Hb H. apply (f_equal hex_pairs) in H. rewrite !hex_pairs_bytes in H by done. by injection H. Qed.

(** ** Integers as text *)

(** The value of a text of decimal digits. *)
Definition digits_value (s : str) : N := fold_left (fun acc c => acc * 10 + (c - 48)) s 0.

Definition all_digits (s : str) : bool := negb (is_empty s) && all is_ascii_digit s.

Definition unsigned_text (max : N) (s : str) : option N :=
  if all_digits s && (digits_value s <=? max) then Some (digits_value s) else None.

(** [text.parse::<u32>()] and [text.parse::<u64>()]: one leading [+] is accepted. *)
Definition parse_unsigned (max : N) (s : str) : option N := unsigned_text max (default s (strip_prefix (lit "+") s)).

Definition i64_max : N := 9223372036854775807.

(** [text.parse::<i64>()]. *)
Definition parse_i64 (s : str) : option Z :=
  match strip_prefix (lit "-") s with
  | Some digits => n ← unsigned_text (i64_max + 1) digits; Some (- Z.of_N n)%Z
  | None => Z.of_N <$> parse_unsigned i64_max s
  end.

(** ** Lemmas *)

Lemma digits_value_snoc s c : digits_value (s ++ [c]) = digits_value s * 10 + (c - 48).
Proof. unfold digits_value. by rewrite fold_left_app. Qed.

Lemma fold_digits_app a acc s :
  fold_left (fun acc c => acc * 10 + (c - 48)) s acc
  = acc * 10 ^ len s + fold_left (fun acc c => acc * 10 + (c - 48)) s a - a * 10 ^ len s.
Proof.
  revert a acc. induction s as [|c s IH]; intros a acc; cbn; [rewrite len_nil; lia|].
  rewrite (IH 0 (acc * 10 + _)), (IH 0 (a * 10 + _)), len_cons, N.pow_add_r. nia.
Qed.

Lemma decimal_go_value fuel n acc :
  n < 10 ^ N.of_nat fuel -> digits_value (decimal_go fuel n acc) = n * 10 ^ len acc + digits_value acc.
Proof.
  revert n acc. induction fuel as [|fuel IH]; intros n acc Hn; cbn [decimal_go].
  { change (10 ^ N.of_nat 0) with 1 in Hn. replace n with 0 by lia. lia. }
  assert (digits_value ((48 + n mod 10) :: acc) = (n mod 10) * 10 ^ len acc + digits_value acc) as Hc.
  { unfold digits_value. cbn [fold_left]. rewrite (fold_digits_app 0). lia. }
  destruct (N.ltb_spec n 10).
  - rewrite Hc. replace (n mod 10) with n by lia. done.
  - rewrite IH, Hc, len_cons, N.pow_add_r.
    + pose proof (N.div_mod' n 10). nia.
    + replace (N.of_nat (S fuel)) with (N.of_nat fuel + 1) in Hn by lia.
      rewrite N.pow_add_r in Hn. lia.
Qed.

Lemma decimal_value n : digits_value (decimal n) = n.
Proof.
  unfold decimal. rewrite decimal_go_value; [rewrite len_nil; cbn; lia|].
  rewrite Nat2N.inj_succ, N2Nat.id. destruct (N.eq_dec n 0) as [->|Hn]; [done|].
  pose proof (N.log2_spec n ltac:(lia)) as [_ Hl].
  eapply N.lt_le_trans; [exact Hl|]. apply N.pow_le_mono_l. lia.
Qed.

Lemma decimal_go_digits fuel n acc :
  all is_ascii_digit acc = true -> all is_ascii_digit (decimal_go fuel n acc) = true.
Proof.
  revert n acc. induction fuel as [|fuel IH]; intros n acc Ha; cbn [decimal_go]; [done|].
  assert (all is_ascii_digit ((48 + n mod 10) :: acc) = true) as Hd.
  { unfold all in *. cbn [forallb]. rewrite Ha. unfold is_ascii_digit. lia. }
  destruct (n <? 10); auto.
Qed.

Lemma decimal_go_nonempty fuel n acc : acc <> [] -> decimal_go fuel n acc <> [].
Proof. revert n acc. induction fuel; intros n acc Ha; cbn; [done|]. destruct (n <? 10); auto. Qed.

Lemma decimal_all_digits n : all_digits (decimal n) = true.
Proof.
  unfold all_digits, decimal. rewrite decimal_go_digits by done. cbn [decimal_go].
  destruct (n <? 10); [done|]. rewrite andb_true_r, negb_true_iff. apply is_empty_false.
  by apply decimal_go_nonempty.
Qed.

Lemma unsigned_text_decimal max n : n <= max -> unsigned_text max (decimal n) = Some n.
Proof. intros H. unfold unsigned_text. rewrite decimal_all_digits, decimal_value. by decide_N. Qed.
