(* ===== verification/Digest.v ===== *)
(** * Digests

    SHA-256 as an interface, the lowercase hexadecimal text of bytes, and ASCII texts: names
    built from digests and decimal numbers are ASCII, so their bytes are their characters. *)

From S2P Require Import Prelude Text.

Local Open Scope N_scope.

(** [ring::digest::SHA256]: 32 bytes. *)
Class Sha256 : Type := {
  sha256 : list N -> list N;
  sha256_length : forall bs, length (sha256 bs) = 32%nat;
  sha256_bytes : forall bs, Forall (fun b => b < 256) (sha256 bs)
}.

(** [hex(bytes)]: two lowercase digits per byte. *)
Definition hex (bytes : list N) : str := concat (map hex_byte bytes).

(** ** Lemmas *)

Lemma ascii_scalar (s : str) : Forall (fun c => is_ascii_char c = true) s -> Forall (fun c => is_scalar c = true) s.
Proof. intros Ha. eapply Forall_impl; [exact Ha|]. intros c. unfold is_ascii_char, is_scalar. lia. Qed.

Lemma as_bytes_ascii_text (s : str) : Forall (fun c => is_ascii_char c = true) s -> as_bytes s = s.
Proof.
  induction 1 as [|c s Hc _ IH]; [done|]. unfold as_bytes in *. cbn. rewrite IH.
  unfold is_ascii_char in Hc. unfold utf8_char. by rewrite (proj2 (N.ltb_lt c 128)) by lia.
Qed.

Definition lower_hex (c : N) : bool := is_ascii_digit c || ((97 <=? c) && (c <=? 102)).

Lemma lower_hex_ascii c : lower_hex c = true -> is_ascii_char c = true.
Proof. unfold lower_hex, is_ascii_digit, is_ascii_char. lia. Qed.

Lemma hex_bytes_lower (bs : list N) :
  Forall (fun b => b < 256) bs -> Forall (fun c => lower_hex c = true) (hex bs).
Proof.
  induction 1 as [|b bs Hb _ IH]; [constructor|]. cbn.
  repeat constructor; [apply hex_digit_lower; lia..|done].
Qed.

Lemma decimal_go_ascii fuel n acc :
  Forall (fun c => is_ascii_char c = true) acc -> Forall (fun c => is_ascii_char c = true) (decimal_go fuel n acc).
Proof.
  revert n acc. induction fuel as [|fuel IH]; intros n acc Ha; cbn; [done|].
  assert (is_ascii_char (48 + n mod 10) = true) as Hd by (unfold is_ascii_char; lia).
  destruct (n <? 10); [by constructor|]. apply IH. by constructor.
Qed.

Lemma decimal_ascii n : Forall (fun c => is_ascii_char c = true) (decimal n).
Proof. apply decimal_go_ascii. constructor. Qed.

Lemma length_hex (bs : list N) : length (hex bs) = (2 * length bs)%nat.
Proof. apply length_hex_bytes. Qed.

Lemma utf8_small c P : Forall P (utf8_char c) -> (forall b, P b -> b < 128) -> c < 128 /\ P c.
Proof.
  intros Hc Hp. unfold utf8_char in Hc. destruct (N.ltb_spec c 128); [by inversion Hc|].
  exfalso. destruct (c <? 2048); [|destruct (c <? 65536)]; inversion Hc as [|? ? Hh]; subst; apply Hp in Hh; lia.
Qed.

(** A byte-wise test on the bytes of a text that only ASCII passes is a test on its characters. *)
Lemma bytes_test f (s : str) : (forall b, f b = true -> b < 128) ->
  all f (as_bytes s) = true <-> Forall (fun c => f c = true) s.
Proof.
  intros Hf. rewrite all_true. split.
  - intros H. induction s as [|c s IH]; [constructor|].
    change (as_bytes (c :: s)) with (utf8_char c ++ as_bytes s) in H. apply Forall_app in H as [Hc Hs].
    constructor; [|auto]. by apply (utf8_small c _ Hc).
  - intros H. rewrite as_bytes_ascii_text; [done|]. eapply Forall_impl; [exact H|].
    intros c Hc%Hf. unfold is_ascii_char. lia.
Qed.

Lemma test_byte_len f (s : str) : (forall b, f b = true -> b < 128) ->
  Forall (fun c => f c = true) s -> byte_len s = len s.
Proof.
  intros Hf H. rewrite <-len_as_bytes, as_bytes_ascii_text; [done|]. eapply Forall_impl; [exact H|].
  intros c Hc%Hf. unfold is_ascii_char. lia.
Qed.

Lemma any_negb {A} (f : A -> bool) l : any f l = false <-> all (fun x => negb (f x)) l = true.
Proof.
  rewrite any_false, all_true, Forall_forall. setoid_rewrite negb_true_iff. done.
Qed.

(** A concrete 32-byte digest for examples: a checksum, repeated. *)
Definition checksum (bs : list N) : N := fold_left (fun acc b => (acc * 31 + b) mod 256) bs 7.

Definition checksum_digest (bs : list N) : list N := replicate 32 (checksum bs mod 256).

Lemma checksum_digest_bytes bs : Forall (fun b => b < 256) (checksum_digest bs).
Proof. apply Forall_replicate. lia. Qed.

Definition checksum_sha256 : Sha256 := {|
  sha256 := checksum_digest;
  sha256_length bs := length_replicate 32 _;
  sha256_bytes := checksum_digest_bytes
|}.
