(* ===== verification/ConfigCommands.v ===== *)
(** * [src/config_commands.rs]: the admin-space command language

    The commands a configuration space accepts, their parser, and the validated
    [config_commands] table: who may send a command and which commands are enabled. *)

From S2P Require Import Prelude Text.

(** ** Commands *)

Inductive ConfigCommand : Type :=
| Status
| Pull
| Reload
| Sync.

#[export] Instance ConfigCommand_eq_dec : EqDecision ConfigCommand.
Proof. solve_decision. Defined.

Definition config_command_eqb (a b : ConfigCommand) : bool := bool_decide (a = b).

(** The exact text of each command. *)
Definition command_text (c : ConfigCommand) : str :=
  match c with
  | Status => lit "/config status"
  | Pull => lit "/config pull"
  | Reload => lit "/config reload"
  | Sync => lit "/config sync"
  end.

Definition parse_config_command (input : str) : option ConfigCommand :=
  let s := trim input in
  if str_eqb s (lit "/config status") then Some Status
  else if str_eqb s (lit "/config pull") then Some Pull
  else if str_eqb s (lit "/config reload") then Some Reload
  else if str_eqb s (lit "/config sync") then Some Sync
  else None.

Definition is_config_command_namespace (input : str) : bool :=
  let input := trim input in
  str_eqb input (lit "/config")
  || is_some_and (strip_prefix (lit "/config") input ≫= head) is_whitespace.

(** ** The [config_commands] table *)

Record ConfigCommandsConfig : Type := mkConfigCommandsConfig {
  room_id : str;
  allowed_person_ids : list str;
  allowed_person_emails : list str;
  allowed_commands : list ConfigCommand
}.

(** The messages of [validate]'s errors, one constructor per [anyhow!]. *)
Inductive CommandsError : Type :=
| NotTrimmed (name : str)
| DuplicateValues (name : str)
| NoAllowedSender
| NoAllowedCommand
| DuplicateCommands
| CommandNotDeployable (command : ConfigCommand).

Definition validate_trimmed_value (name value : str) : result CommandsError unit :=
  fail_if (is_empty (trim value) || negb (str_eqb (trim value) value)) (NotTrimmed name).

Definition deduplication_key (case_insensitive : bool) (value : str) : str :=
  if case_insensitive then to_ascii_lowercase value else value.

(** The loop of [validate_string_list] with the keys already [seen]. *)
Fixpoint validate_string_list_from (name : str) (case_insensitive : bool) (seen values : list str)
  : result CommandsError unit :=
  match values with
  | [] => Ok tt
  | value :: values' =>
      validate_trimmed_value name value ;?
      let key := deduplication_key case_insensitive value in
      fail_if (any (str_eqb key) seen) (DuplicateValues name) ;?
      validate_string_list_from name case_insensitive (key :: seen) values'
  end.

Definition validate_string_list (name : str) (values : list str) (case_insensitive : bool)
  : result CommandsError unit :=
  validate_string_list_from name case_insensitive [] values.

Definition not_deployable (c : ConfigCommand) : bool :=
  match c with
  | Reload | Sync => true
  | Status | Pull => false
  end.

Definition validate (cfg : ConfigCommandsConfig) : result CommandsError unit :=
  validate_trimmed_value (lit "config_commands.room_id") (room_id cfg) ;?
  validate_string_list (lit "config_commands.allowed_person_ids") (allowed_person_ids cfg) false ;?
  validate_string_list (lit "config_commands.allowed_person_emails") (allowed_person_emails cfg) true ;?
  fail_if (is_empty (allowed_person_ids cfg) && is_empty (allowed_person_emails cfg)) NoAllowedSender ;?
  fail_if (is_empty (allowed_commands cfg)) NoAllowedCommand ;?
  match first_duplicate config_command_eqb [] (allowed_commands cfg) with
  | Some _ => Err DuplicateCommands
  | None =>
      match List.find not_deployable (allowed_commands cfg) with
      | Some c => Err (CommandNotDeployable c)
      | None => Ok tt
      end
  end.

Definition sender_allowed (cfg : ConfigCommandsConfig) (person_id person_email : option str) : bool :=
  is_some_and person_id (fun p => any (fun allowed => str_eqb allowed p) (allowed_person_ids cfg))
  || is_some_and person_email
       (fun e => any (fun allowed => eq_ignore_ascii_case allowed e) (allowed_person_emails cfg)).

Definition command_allowed (cfg : ConfigCommandsConfig) (c : ConfigCommand) : bool :=
  any (config_command_eqb c) (allowed_commands cfg).

(** ** The declarative meaning of a valid table *)

Definition trimmed_value (v : str) : Prop := v <> [] /\ trim v = v.

Record valid_config (cfg : ConfigCommandsConfig) : Prop := {
  valid_room : trimmed_value (room_id cfg);
  valid_ids : Forall trimmed_value (allowed_person_ids cfg) /\ NoDup (allowed_person_ids cfg);
  valid_emails : Forall trimmed_value (allowed_person_emails cfg)
    /\ NoDup (map to_ascii_lowercase (allowed_person_emails cfg));
  valid_sender : allowed_person_ids cfg <> [] \/ allowed_person_emails cfg <> [];
  valid_commands : allowed_commands cfg <> [] /\ NoDup (allowed_commands cfg);
  valid_deployable : forall c, c ∈ allowed_commands cfg -> c = Status \/ c = Pull
}.

(** ** Lemmas *)

Lemma config_command_eqb_eq a b : config_command_eqb a b = true <-> a = b.
Proof. apply bool_decide_eq_true. Qed.

Lemma validate_trimmed_value_ok name v : validate_trimmed_value name v = Ok tt <-> trimmed_value v.
Proof.
  unfold validate_trimmed_value, trimmed_value.
  rewrite fail_if_ok, orb_false_iff, negb_false_iff, str_eqb_eq, is_empty_false.
  split; intros [H1 H2]; split; congruence.
Qed.

Lemma validate_string_list_from_ok name ci seen values :
  validate_string_list_from name ci seen values = Ok tt <->
  Forall trimmed_value values /\ NoDup (map (deduplication_key ci) values)
  /\ (forall v, v ∈ values -> deduplication_key ci v ∉ seen).
Proof.
  revert seen. induction values as [|v values IH]; intros seen; cbn [validate_string_list_from map]; cbv zeta.
  { split; [|done]. intros _. split; [done|]. split; [constructor|]. by intros v ?%not_elem_of_nil. }
  rewrite Forall_cons, NoDup_cons, then_ok, seq_ok, IH, validate_trimmed_value_ok.
  assert (any (str_eqb (deduplication_key ci v)) seen = false <-> deduplication_key ci v ∉ seen) as Hany.
  { rewrite any_false. setoid_rewrite str_eqb_neq. split; [intros H Hin; by eapply H|congruence]. }
  rewrite Hany. setoid_rewrite elem_of_cons. setoid_rewrite elem_of_map. split.
  - intros (? & ? & ? & ? & Hs). split; [done|]. split.
    + split; [|done]. intros (v' & Hk & Hin). apply (Hs v' Hin). by left.
    + intros v' [->|Hin]; [done|]. intros Hs'. apply (Hs v' Hin). by right.
  - intros ([? ?] & [Hn ?] & Hs). do 4 (split; [done || by apply Hs; left|]).
    intros v' Hin [Hk|Hk]; [apply Hn; by exists v'|]. eapply Hs; [by right|done].
Qed.

Lemma validate_string_list_ok name values ci :
  validate_string_list name values ci = Ok tt <->
  Forall trimmed_value values /\ NoDup (map (deduplication_key ci) values).
Proof.
  unfold validate_string_list. rewrite validate_string_list_from_ok. split; [naive_solver|].
  intros [? ?]. repeat split; try done. intros v _ ?%not_elem_of_nil. done.
Qed.

Lemma trim_command_text c : trim (command_text c) = command_text c.
Proof. by destruct c. Qed.

Lemma parse_config_command_iff input c :
  parse_config_command input = Some c <-> trim input = command_text c.
Proof.
  unfold parse_config_command. split.
  - repeat (case_match; [intros [= <-]; by apply str_eqb_eq|]). done.
  - intros ->. by destruct c.
Qed.

Lemma deployable_iff (l : list ConfigCommand) : (forall x, x ∈ l -> not_deployable x = false) <-> (forall c, c ∈ l -> c = Status \/ c = Pull).
Proof. split; intros H c Hc; specialize (H c Hc); destruct c; naive_solver. Qed.

Lemma validate_iff cfg : validate cfg = Ok tt <-> valid_config cfg.
Proof.
  unfold validate. rewrite !then_ok, !fail_if_ok, validate_trimmed_value_ok, !validate_string_list_ok.
  rewrite andb_false_iff, !is_empty_false.
  assert (match first_duplicate config_command_eqb [] (allowed_commands cfg) with
          | Some _ => Err DuplicateCommands
          | None => match List.find not_deployable (allowed_commands cfg) with
                    | Some c => Err (CommandNotDeployable c)
                    | None => Ok tt
                    end
          end = Ok tt <->
          NoDup (allowed_commands cfg) /\ (forall c, c ∈ allowed_commands cfg -> c = Status \/ c = Pull)) as ->.
  { rewrite <-deployable_iff, <-find_none.
    pose proof (first_duplicate_none config_command_eqb config_command_eqb_eq [] (allowed_commands cfg)) as Hd.
    assert (forall x : ConfigCommand, x ∈ allowed_commands cfg -> x ∉ []) as Hnil by (intros ? _; apply not_elem_of_nil).
    destruct (first_duplicate _ _ _); destruct (List.find _ _); naive_solver. }
  split.
  - intros (H1 & H2 & H3 & H4 & H5 & H6 & H7).
    cbn in H2. rewrite map_id in H2. by constructor.
  - intros [H1 H2 H3 H4 [H5 H6] H7]. cbn. rewrite map_id. done.
Qed.

Lemma command_allowed_spec cfg c : command_allowed cfg c = true <-> c ∈ allowed_commands cfg.
Proof.
  unfold command_allowed. rewrite any_true. setoid_rewrite config_command_eqb_eq.
  split; [by intros (? & ? & ->)|eauto].
Qed.

(** ** Properties *)

(** the command language is exactly the four command texts, surrounded by any white
    space: parsing succeeds with [c] if and only if the trimmed body is the text of [c],
    different commands have different texts, and everything that parses lies in the
    reserved [/config] namespace, so no command can be mistaken for an ordinary message. *)
Theorem command_language :
  (forall input c, parse_config_command input = Some c <-> trim input = command_text c) /\
  (forall c d, command_text c = command_text d -> c = d) /\
  (forall input, parse_config_command input <> None -> is_config_command_namespace input = true).
Proof.
  split; [exact parse_config_command_iff|]. split; [by intros [] []|].
  intros input H. destruct (parse_config_command input) as [c|] eqn:E; [|done].
  apply parse_config_command_iff in E. unfold is_config_command_namespace. rewrite E. by destruct c.
Qed.

Lemma command_language_witness :
  parse_config_command (lit " /config pull ") = Some Pull /\ is_config_command_namespace (lit " /config pull ") = true.
Proof. split; [by vm_compute|]. apply (proj2 (proj2 command_language)). by vm_compute. Defined.

(** [validate] accepts a [config_commands] table exactly when it is valid in the
    declarative sense: a trimmed room, trimmed and pairwise different senders (e-mails
    compared without ASCII case), at least one sender and one command, no repeated
    command; and an accepted table enables nothing beyond [status] and [pull]. *)
Theorem validate_spec (cfg : ConfigCommandsConfig) :
  (validate cfg = Ok tt <-> valid_config cfg) /\
  (validate cfg = Ok tt -> forall c, command_allowed cfg c = true -> c = Status \/ c = Pull).
Proof.
  split; [apply validate_iff|]. intros [? ? ? ? ? Hd]%validate_iff c Hc%command_allowed_spec. by apply Hd.
Qed.

Definition sample_config : ConfigCommandsConfig :=
  mkConfigCommandsConfig (lit "admin-room") [lit "person-1"] [lit "operator@example.com"] [Status; Pull].

Lemma validate_spec_witness : validate sample_config = Ok tt /\ valid_config sample_config.
Proof. split; [by vm_compute|]. apply (proj1 (validate_spec sample_config)). by vm_compute. Defined.
