(* ===== verification/LauncherProtocol.v ===== *)
(** * [src/launcher_protocol.rs]: the launcher's wire protocol

    Requests and responses between the bot and the privileged launcher, their
    validation, the bounded response constructors and the length-prefixed framing. The
    JSON payload format is [serde_json]'s and stays abstract behind [JsonCodec]. *)

From S2P Require Import Prelude Text.

Local Open Scope N_scope.

(** ** Limits *)

Definition PROTOCOL_VERSION : N := 1.
Definition FRAME_HEADER_BYTES : N := 4.
Definition REQUEST_MAX_BYTES : N := 512 * 1024.
Definition RESPONSE_MAX_BYTES : N := 1024 * 1024.
Definition LAUNCHER_MAX_CONNECTIONS : N := 4.
Definition RUN_ID_MAX_BYTES : N := 64.
Definition MESSAGE_ID_MAX_BYTES : N := 256.
Definition PROMPT_MAX_CHARS : N := 64 * 1024.
Definition PROMPT_MAX_BYTES : N := 256 * 1024.
Definition WORKSPACE_PATH_MAX_BYTES : N := 4 * 1024.
Definition MODEL_MAX_BYTES : N := 128.
Definition TIMEOUT_SECONDS_MIN : N := 1.
Definition TIMEOUT_SECONDS_MAX : N := 60 * 60.
Definition LAUNCHER_IO_TIMEOUT_SECONDS : N := 5.
Definition LAUNCHER_PREFLIGHT_RESPONSE_TIMEOUT_SECONDS : N := 10 * 60.
Definition INPUT_STAGING_TIMEOUT_SECONDS : N := 10 * 60.
Definition INPUT_STAGING_WORK_TIMEOUT_SECONDS : N := 9 * 60.
Definition PENDING_WORKSPACE_CLEANUP_WORK_TIMEOUT_SECONDS : N := INPUT_STAGING_WORK_TIMEOUT_SECONDS.
Definition PENDING_WORKSPACE_CLEANUP_TIMEOUT_SECONDS : N := INPUT_STAGING_TIMEOUT_SECONDS.
Definition LAUNCHER_CLEANUP_STEP_SECONDS : N := 10.
Definition LAUNCHER_CANCELLATION_DRAIN_SECONDS : N := 105.
Definition LAUNCHER_EXECUTION_PREPARATION_GRACE_SECONDS : N := 10 * 60.
Definition LAUNCHER_EXECUTION_CLEANUP_GRACE_SECONDS : N := 110.
Definition LAUNCHER_EXECUTE_RESPONSE_OVERHEAD_SECONDS : N :=
  LAUNCHER_EXECUTION_PREPARATION_GRACE_SECONDS
  + LAUNCHER_EXECUTION_CLEANUP_GRACE_SECONDS
  + LAUNCHER_IO_TIMEOUT_SECONDS.
Definition LAUNCHER_SERVICE_RUNTIME_MAX_SECONDS : N := 4450.
Definition EPHEMERAL_RUNNER_WALL_OVERHEAD_SECONDS : N :=
  LAUNCHER_IO_TIMEOUT_SECONDS * 2
  + LAUNCHER_PREFLIGHT_RESPONSE_TIMEOUT_SECONDS
  + INPUT_STAGING_TIMEOUT_SECONDS
  + PENDING_WORKSPACE_CLEANUP_TIMEOUT_SECONDS
  + LAUNCHER_IO_TIMEOUT_SECONDS * 2
  + LAUNCHER_EXECUTE_RESPONSE_OVERHEAD_SECONDS.
Definition OUTPUT_CHAR_LIMIT_MIN : N := 1.
Definition OUTPUT_CHAR_LIMIT_MAX : N := 100000.
Definition OUTPUT_MAX_BYTES : N := 4 * OUTPUT_CHAR_LIMIT_MAX.
Definition ERROR_MESSAGE_MAX_CHARS : N := 1024.
Definition ERROR_MESSAGE_MAX_BYTES : N := 4 * ERROR_MESSAGE_MAX_CHARS.

(** ** Messages *)

Inductive ProtocolError : Type :=
| FrameTooShort
| EmptyPayload
| FrameLengthMismatch
| RequestTooLarge
| ResponseTooLarge
| InvalidRequestJson
| InvalidResponseJson
| UnsupportedVersion
| InvalidRunId
| InvalidMessageId
| InvalidPrompt
| InvalidWorkspace
| InvalidModel
| InvalidReasoningEffort
| InvalidTimeout
| InvalidOutputLimit
| InvalidOutput
| InvalidErrorMessage.

Inductive ReasoningEffort : Type := Minimal | Low | Medium | High | Xhigh | Unknown.

#[export] Instance ReasoningEffort_eq_dec : EqDecision ReasoningEffort.
Proof. solve_decision. Defined.

(** [workspace] is a [PathBuf]: the bytes of an operating-system string. *)
Record ExecuteRequest : Type := mkExecuteRequest {
  run_id : str;
  message_id : str;
  prompt : str;
  workspace : list N;
  model : option str;
  reasoning_effort : option ReasoningEffort;
  timeout_seconds : N;
  output_char_limit : N;
  skip_git_repo_check : bool
}.

#[export] Instance ExecuteRequest_eq_dec : EqDecision ExecuteRequest.
Proof. solve_decision. Defined.

Inductive LauncherRequestKind : Type :=
| Preflight
| Execute (request : ExecuteRequest).

#[export] Instance LauncherRequestKind_eq_dec : EqDecision LauncherRequestKind.
Proof. solve_decision. Defined.

Record LauncherRequest : Type := mkLauncherRequest {
  req_version : N;
  request : LauncherRequestKind
}.

#[export] Instance LauncherRequest_eq_dec : EqDecision LauncherRequest.
Proof. solve_decision. Defined.

Inductive RejectionCode : Type :=
| RejUnsupportedVersion | RejMalformedRequest | RejRequestTooLarge | RejInvalidRunId
| RejInvalidMessageId | RejInvalidPrompt | RejInvalidWorkspace | RejInvalidModel
| RejInvalidReasoningEffort | RejInvalidTimeout | RejInvalidOutputLimit
| RejExecutionUnavailable | RejExecutionTimedOut | RejExecutionFailed | RejInternalError.

Record CompletedResponse : Type := mkCompletedResponse {
  comp_run_id : str;
  output : str;
  truncated : bool
}.

Record RejectedResponse : Type := mkRejectedResponse {
  rej_run_id : option str;
  code : RejectionCode;
  message : str
}.

Inductive LauncherResponseKind : Type :=
| Ready (execution_available : bool)
| Completed (response : CompletedResponse)
| Rejected (response : RejectedResponse).

Record LauncherResponse : Type := mkLauncherResponse {
  resp_version : N;
  response : LauncherResponseKind
}.

Definition preflight : LauncherRequest := mkLauncherRequest PROTOCOL_VERSION Preflight.
Definition execute (r : ExecuteRequest) : LauncherRequest := mkLauncherRequest PROTOCOL_VERSION (Execute r).
Definition ready (available : bool) : LauncherResponse := mkLauncherResponse PROTOCOL_VERSION (Ready available).
Definition completed (r : CompletedResponse) : LauncherResponse := mkLauncherResponse PROTOCOL_VERSION (Completed r).
Definition rejected (r : RejectedResponse) : LauncherResponse := mkLauncherResponse PROTOCOL_VERSION (Rejected r).

(** ** Field validation *)

Definition validate_version (version : N) : result ProtocolError unit :=
  fail_if (negb (version =? PROTOCOL_VERSION)) UnsupportedVersion.

Definition is_run_id_byte (b : N) : bool := is_ascii_alphanumeric b || one_of (lit "-_") b.

Definition validate_run_id (run_id : str) : result ProtocolError unit :=
  match as_bytes run_id with
  | [] => Err InvalidRunId
  | first :: bytes =>
      fail_if ((RUN_ID_MAX_BYTES <? byte_len run_id)
               || negb (is_ascii_alphanumeric first)
               || negb (all is_run_id_byte bytes)) InvalidRunId
  end.

Definition validate_message_id (message_id : str) : result ProtocolError unit :=
  fail_if (is_empty message_id
           || (MESSAGE_ID_MAX_BYTES <? byte_len message_id)
           || negb (all is_ascii_char message_id)
           || any is_ascii_control (as_bytes message_id)) InvalidMessageId.

Definition validate_prompt (prompt : str) : result ProtocolError unit :=
  fail_if (is_empty (trim prompt)
           || (PROMPT_MAX_BYTES <? byte_len prompt)
           || (PROMPT_MAX_CHARS <? char_count prompt)
           || any (fun c => (c =? 0) || (is_control c && negb (one_of [10; 13; 9] c))) prompt)
    InvalidPrompt.

Definition bad_component (c : str) : bool :=
  is_empty c || str_eqb c (lit ".") || str_eqb c (lit "..").

Definition validate_workspace (workspace : list N) : result ProtocolError unit :=
  match from_utf8 workspace with
  | None => Err InvalidWorkspace
  | Some workspace_text =>
      fail_if ((WORKSPACE_PATH_MAX_BYTES <? byte_len workspace_text) || any is_control workspace_text)
        InvalidWorkspace ;?
      match strip_prefix (lit "/") workspace_text with
      | None => Err InvalidWorkspace
      | Some relative =>
          fail_if (is_empty relative || any bad_component (split_by (N.eqb (ch "/")) relative))
            InvalidWorkspace
      end
  end.

Definition validate_model (model : str) : result ProtocolError unit :=
  fail_if (is_empty model
           || (MODEL_MAX_BYTES <? byte_len model)
           || negb (all (fun b => is_ascii_alphanumeric b || one_of (lit "-_.") b) (as_bytes model)))
    InvalidModel.

Definition validate_timeout_seconds (timeout_seconds : N) : result ProtocolError unit :=
  fail_if (negb ((TIMEOUT_SECONDS_MIN <=? timeout_seconds) && (timeout_seconds <=? TIMEOUT_SECONDS_MAX)))
    InvalidTimeout.

Definition validate_output_char_limit (output_char_limit : N) : result ProtocolError unit :=
  fail_if (negb ((OUTPUT_CHAR_LIMIT_MIN <=? output_char_limit) && (output_char_limit <=? OUTPUT_CHAR_LIMIT_MAX)))
    InvalidOutputLimit.

(** ** Message validation *)

Definition validate_execute (r : ExecuteRequest) : result ProtocolError unit :=
  validate_run_id (run_id r) ;?
  validate_message_id (message_id r) ;?
  validate_prompt (prompt r) ;?
  validate_workspace (workspace r) ;?
  match model r with
  | Some m => validate_model m
  | None => Ok tt
  end ;?
  fail_if (bool_decide (reasoning_effort r = Some Unknown)) InvalidReasoningEffort ;?
  validate_timeout_seconds (timeout_seconds r) ;?
  validate_output_char_limit (output_char_limit r).

Definition validate_request (r : LauncherRequest) : result ProtocolError unit :=
  validate_version (req_version r) ;?
  match request r with
  | Preflight => Ok tt
  | Execute e => validate_execute e
  end.

Definition validate_completed (r : CompletedResponse) : result ProtocolError unit :=
  validate_run_id (comp_run_id r) ;?
  fail_if ((OUTPUT_CHAR_LIMIT_MAX <? char_count (output r)) || (OUTPUT_MAX_BYTES <? byte_len (output r)))
    InvalidOutput.

Definition validate_run_id_opt (o : option str) : result ProtocolError unit :=
  match o with
  | Some run_id => validate_run_id run_id
  | None => Ok tt
  end.

Definition validate_rejected (r : RejectedResponse) : result ProtocolError unit :=
  validate_run_id_opt (rej_run_id r) ;?
  fail_if (is_empty (message r)
           || (ERROR_MESSAGE_MAX_CHARS <? char_count (message r))
           || (ERROR_MESSAGE_MAX_BYTES <? byte_len (message r))
           || any is_control (message r)) InvalidErrorMessage.

Definition validate_response (r : LauncherResponse) : result ProtocolError unit :=
  validate_version (resp_version r) ;?
  match response r with
  | Ready _ => Ok tt
  | Completed c => validate_completed c
  | Rejected j => validate_rejected j
  end.

(** ** Bounded constructors *)

Definition bound_output (output : str) (output_char_limit : N) : result ProtocolError (str * bool) :=
  validate_output_char_limit output_char_limit ;?
  if char_count output <=? output_char_limit then Ok (output, false)
  else Ok (take (N.to_nat output_char_limit) output, true).

Definition completed_bounded (run_id output : str) (output_char_limit : N) : result ProtocolError CompletedResponse :=
  validate_output_char_limit output_char_limit ;?
  validate_run_id run_id ;?
  let? (output, truncated) := bound_output output output_char_limit in
  Ok (mkCompletedResponse run_id output truncated).

Definition space_controls (s : str) : str := map (fun c => if is_control c then ch " " else c) s.

Definition bound_error_message (message : str) : str :=
  let sanitized := trim (take (N.to_nat ERROR_MESSAGE_MAX_CHARS) (space_controls message)) in
  if is_empty sanitized then lit "launcher request rejected" else sanitized.

Definition rejected_bounded (run_id : option str) (code : RejectionCode) (message : str)
  : result ProtocolError RejectedResponse :=
  validate_run_id_opt run_id ;?
  let response := mkRejectedResponse run_id code (bound_error_message message) in
  validate_rejected response ;?
  Ok response.

(** ** Framing *)

(** What [serde_json] promises for a type: [to_vec] and [from_slice], and that reading
    back what was written gives the value. *)
Class JsonCodec (T : Type) : Type := {
  to_vec : T -> option (list N);
  from_slice : list N -> option T
}.

Class JsonRoundTrip (T : Type) `{!JsonCodec T} : Prop :=
  from_slice_to_vec : forall v payload, to_vec v = Some payload -> from_slice payload = Some v.

(** [u32::to_be_bytes] and [u32::from_be_bytes]. *)
Definition to_be_bytes (n : N) : list N :=
  [n / 16777216 mod 256; n / 65536 mod 256; n / 256 mod 256; n mod 256].

Definition from_be_bytes (bs : list N) : N := fold_left (fun acc b => acc * 256 + b) bs 0.

Definition encode_frame {T} `{!JsonCodec T} (value : T) (max_bytes : N) (too_large invalid_json : ProtocolError)
  : result ProtocolError (list N) :=
  let? payload := ok_or (to_vec value) invalid_json in
  fail_if (is_empty payload) EmptyPayload ;?
  fail_if ((max_bytes <? len payload) || (u32_max <? len payload)) too_large ;?
  Ok (to_be_bytes (len payload) ++ payload).

(** [FRAME_HEADER_BYTES.checked_add(payload_len)] on [usize]. *)
Definition checked_add (a b : N) : option N := if a + b <=? u64_max then Some (a + b) else None.

Definition decode_frame {T} `{!JsonCodec T} (frame : list N) (max_bytes : N) (too_large invalid_json : ProtocolError)
  : result ProtocolError T :=
  fail_if (len frame <? FRAME_HEADER_BYTES) FrameTooShort ;?
  let payload_len := from_be_bytes (take (N.to_nat FRAME_HEADER_BYTES) frame) in
  fail_if (payload_len =? 0) EmptyPayload ;?
  fail_if (max_bytes <? payload_len) too_large ;?
  let? expected_len := ok_or (checked_add FRAME_HEADER_BYTES payload_len) FrameLengthMismatch in
  fail_if (negb (len frame =? expected_len)) FrameLengthMismatch ;?
  ok_or (from_slice (drop (N.to_nat FRAME_HEADER_BYTES) frame)) invalid_json.

Definition encode_request_frame `{!JsonCodec LauncherRequest} (r : LauncherRequest) : result ProtocolError (list N) :=
  validate_request r ;?
  encode_frame r REQUEST_MAX_BYTES RequestTooLarge InvalidRequestJson.

Definition decode_request_frame `{!JsonCodec LauncherRequest} (frame : list N) : result ProtocolError LauncherRequest :=
  let? r := decode_frame frame REQUEST_MAX_BYTES RequestTooLarge InvalidRequestJson in
  validate_request r ;?
  Ok r.

Definition encode_response_frame `{!JsonCodec LauncherResponse} (r : LauncherResponse) : result ProtocolError (list N) :=
  validate_response r ;?
  encode_frame r RESPONSE_MAX_BYTES ResponseTooLarge InvalidResponseJson.

Definition decode_response_frame `{!JsonCodec LauncherResponse} (frame : list N) : result ProtocolError LauncherResponse :=
  let? r := decode_frame frame RESPONSE_MAX_BYTES ResponseTooLarge InvalidResponseJson in
  validate_response r ;?
  Ok r.

(** ** Lemmas: framing *)

Lemma length_to_be_bytes n : length (to_be_bytes n) = 4%nat.
Proof. done. Qed.

Lemma from_be_to_be n : n <= u32_max -> from_be_bytes (to_be_bytes n) = n.
Proof. unfold u32_max, from_be_bytes, to_be_bytes. cbn [fold_left]. intros. lia. Qed.

Lemma to_be_from_be (bs : list N) :
  length bs = 4%nat -> Forall (fun b => b < 256) bs -> to_be_bytes (from_be_bytes bs) = bs.
Proof.
  destruct bs as [|a [|b [|c [|d []]]]]; try done. intros _ H.
  repeat match goal with H : Forall _ (_ :: _) |- _ => apply Forall_cons in H as [? H] end.
  unfold to_be_bytes, from_be_bytes. cbn [fold_left].
  assert (((0 * 256 + a) * 256 + b) * 256 + c = a * 65536 + b * 256 + c) as -> by lia.
  repeat f_equal; lia.
Qed.

Section framing.
Context {T : Type} `{!JsonCodec T}.
Context (max_bytes : N) (too_large invalid_json : ProtocolError).
Hypothesis max_u32 : max_bytes <= u32_max.

Lemma encode_frame_ok (v : T) frame :
  encode_frame v max_bytes too_large invalid_json = Ok frame <->
  exists payload, to_vec v = Some payload /\ 0 < len payload <= max_bytes
    /\ frame = to_be_bytes (len payload) ++ payload.
Proof.
  unfold encode_frame. rewrite rbind_ok. setoid_rewrite ok_or_ok. split.
  - intros (payload & Hp & H). ok_inv. apply is_empty_false in H0. bool_inv.
    exists payload. split; [done|]. split; [|done].
    apply len_pos in H0. lia.
  - intros (payload & Hp & Hlen & ->). exists payload. split; [done|].
    rewrite then_ok, seq_ok, fail_if_ok. repeat split.
    + apply is_empty_false, len_pos. lia.
    + unfold u32_max in *. by decide_N.
Qed.

Lemma decode_frame_ok frame v :
  decode_frame frame max_bytes too_large invalid_json = Ok v <->
  exists header payload, frame = header ++ payload /\ length header = 4%nat
    /\ from_be_bytes header = len payload /\ 0 < len payload <= max_bytes
    /\ from_slice payload = Some v.
Proof.
  unfold decode_frame, FRAME_HEADER_BYTES, checked_add. cbv zeta. unfold u32_max, u64_max in *. split.
  - intros H. ok_inv. bool_inv. exists (take 4 frame), (drop 4 frame).
    unfold len in *. case_match; [|done]. simplify_eq.
    split; [by rewrite take_drop|]. rewrite length_take, length_drop in *. change (N.to_nat 4) with 4%nat in *.
    repeat split; try done; lia.
  - intros (header & payload & -> & Hh & Hb & Hl & Hs).
    change (N.to_nat 4) with 4%nat. rewrite take_app_length', drop_app_length' by done.
    rewrite Hb, Hs, len_app. assert (len header = 4) as -> by (unfold len; lia).
    decide_N. cbn. by decide_N.
Qed.

Lemma frame_roundtrip `{!JsonRoundTrip T} (v : T) frame :
  encode_frame v max_bytes too_large invalid_json = Ok frame ->
  decode_frame frame max_bytes too_large invalid_json = Ok v.
Proof.
  rewrite encode_frame_ok, decode_frame_ok. intros (payload & Hv & Hl & ->).
  exists (to_be_bytes (len payload)), payload. split; [done|]. split; [done|].
  rewrite from_be_to_be by lia. eauto using from_slice_to_vec.
Qed.
End framing.

(** ** Lemmas: fields *)

Lemma request_max_u32 : REQUEST_MAX_BYTES <= u32_max.
Proof. done. Qed.

Lemma response_max_u32 : RESPONSE_MAX_BYTES <= u32_max.
Proof. done. Qed.

#[export] Hint Resolve request_max_u32 response_max_u32 : core.

Lemma utf8_char_first c : exists b bs, utf8_char c = b :: bs /\ (b < 128 -> b = c /\ bs = []).
Proof.
  unfold utf8_char. destruct (N.ltb_spec c 128); [eauto|].
  repeat case_match; eexists _, _; (split; [done|]); lia.
Qed.

(** A text all of whose bytes are ASCII is its own encoding. *)
Lemma as_bytes_ascii (s : str) : Forall (fun b => b < 128) (as_bytes s) -> as_bytes s = s.
Proof.
  induction s as [|c s IH]; [done|]. change (as_bytes (c :: s)) with (utf8_char c ++ as_bytes s).
  rewrite Forall_app. intros [Hc Hs]. rewrite IH by done.
  destruct (utf8_char_first c) as (b & bs & E & Hb). rewrite E in *. apply Forall_cons in Hc as [Hlt _].
  by destruct (Hb Hlt) as [-> ->].
Qed.

Lemma as_bytes_nil (s : str) : as_bytes s = [] -> s = [].
Proof.
  destruct s as [|c s]; [done|]. change (as_bytes (c :: s)) with (utf8_char c ++ as_bytes s).
  by destruct (utf8_char_first c) as (b & bs & -> & _).
Qed.

Lemma is_run_id_byte_ascii b : is_run_id_byte b = true -> b < 128.
Proof.
  unfold is_run_id_byte, is_ascii_alphanumeric, is_ascii_digit, is_ascii_uppercase, is_ascii_lowercase, one_of.
  cbn [any existsb lit]. unfold any. cbn. intros H.
  destruct (N.ltb_spec b 128); [done|]. revert H. decide_N. done.
Qed.

Lemma alphanumeric_run_id_byte b : is_ascii_alphanumeric b = true -> is_run_id_byte b = true.
Proof. unfold is_run_id_byte. by intros ->. Qed.

(** A valid run ID is 1 to 64 ASCII letters, digits, dashes and underscores, and begins
    with a letter or digit. *)
Lemma validate_run_id_ok (s : str) :
  validate_run_id s = Ok tt <->
  exists c r, s = c :: r /\ is_ascii_alphanumeric c = true /\ Forall (fun x => is_run_id_byte x = true) s
    /\ char_count s <= RUN_ID_MAX_BYTES.
Proof.
  assert (Forall (fun x => is_run_id_byte x = true) s -> byte_len s = char_count s) as Hbl.
  { intros H. apply byte_len_ascii. eapply Forall_impl; [exact H|].
    intros b Hb%is_run_id_byte_ascii. unfold is_ascii_char. apply N.leb_le. lia. }
  unfold validate_run_id. split.
  - destruct (as_bytes s) as [|b bs] eqn:E; [done|]. intros H%fail_if_ok. bool_inv.
    apply all_true in H0.
    assert (Forall (fun x => is_run_id_byte x = true) (as_bytes s)) as Ha.
    { rewrite E. constructor; [by apply alphanumeric_run_id_byte|done]. }
    assert (as_bytes s = s) as Es.
    { apply as_bytes_ascii. eapply Forall_impl; [exact Ha|]. apply is_run_id_byte_ascii. }
    rewrite Es in *. subst s. exists b, bs. repeat split; try done.
    rewrite <-Hbl by done. by apply N.ltb_ge.
  - intros (c & r & -> & Hc & Ha & Hl).
    assert (as_bytes (c :: r) = c :: r) as ->.
    { clear -Ha. induction Ha as [|x l Hx _ IH]; [done|].
      change (as_bytes (x :: l)) with (utf8_char x ++ as_bytes l). rewrite IH.
      apply is_run_id_byte_ascii in Hx. unfold utf8_char. by decide_N. }
    rewrite fail_if_ok, Hbl by done. inversion Ha; subst.
    rewrite Hc, (proj2 (all_true _ r)) by done. by decide_N.
Qed.

(** A valid workspace is an absolute, normalised path below the root. *)
Lemma validate_workspace_ok (w : list N) :
  validate_workspace w = Ok tt <->
  exists text components, from_utf8 w = Some text
    /\ text = ch "/" :: join [ch "/"] components /\ components <> []
    /\ Forall (fun c => bad_component c = false /\ Forall (fun x => N.eqb (ch "/") x = false) c) components
    /\ byte_len text <= WORKSPACE_PATH_MAX_BYTES /\ Forall (fun c => is_control c = false) text.
Proof.
  unfold validate_workspace. split.
  - destruct (from_utf8 w) as [text|]; [|done]. intros H. ok_inv.
    apply orb_false_iff in H0 as [Hl Hc]. rewrite any_false in Hc.
    destruct (strip_prefix _ _) as [rel|] eqn:Ep; [|done]. apply strip_prefix_spec in Ep as ->.
    apply fail_if_ok in H. apply orb_false_iff in H as [Hne Hb]. rewrite any_false in Hb.
    exists (lit "/" ++ rel), (split_by (N.eqb (ch "/")) rel). split; [done|].
    rewrite join_split. split; [done|]. split; [apply split_by_nonnil|]. split; [|split].
    + pose proof (split_by_pieces (N.eqb (ch "/")) rel) as Hp. rewrite Forall_forall in *. auto.
    + by apply N.ltb_ge.
    + by apply Forall_forall.
  - intros (text & comps & -> & -> & Hn & Hc & Hl & Hctl).
    assert (Forall (Forall (fun x => N.eqb (ch "/") x = false)) comps) as Hsep.
    { eapply Forall_impl; [exact Hc|]. by intros ? [??]. }
    rewrite then_ok, fail_if_ok. split.
    + apply orb_false_iff. split; [by apply N.ltb_ge|]. apply any_false. by apply Forall_forall.
    + change (strip_prefix (lit "/") (ch "/" :: join [ch "/"] comps)) with (Some (join [ch "/"] comps)).
      cbn [rbind]. rewrite split_join by done. apply fail_if_ok, orb_false_iff. split.
      * apply is_empty_false. intros Hj. destruct comps as [|w1 ws]; [done|].
        apply Forall_cons in Hc as [[Hb _] _]. destruct ws; cbn in Hj.
        -- subst w1. done.
        -- by apply app_nil in Hj as [-> ?].
      * apply any_false. rewrite Forall_forall in Hc. intros x Hx. by apply Hc.
Qed.

(** ** Lemmas: bounded constructors *)

Lemma space_controls_clean (s : str) : Forall (fun c => is_control c = false) (space_controls s).
Proof.
  unfold space_controls. apply Forall_map, Forall_true. intros c.
  destruct (is_control c) eqn:E; by rewrite ?E.
Qed.

Lemma bound_error_message_bounded (msg : str) :
  let m := bound_error_message msg in
  m <> [] /\ char_count m <= ERROR_MESSAGE_MAX_CHARS /\ Forall (fun c => is_control c = false) m.
Proof.
  unfold bound_error_message. set (t := trim _). cbv zeta. destruct (is_empty t) eqn:E.
  { split; [done|]. split; [done|]. by repeat constructor. }
  split; [by apply is_empty_false|]. split.
  - unfold char_count, len, t, trim. pose proof (trim_matches_length is_whitespace
      (take (N.to_nat ERROR_MESSAGE_MAX_CHARS) (space_controls msg))) as H.
    rewrite length_take in H. lia.
  - apply trim_matches_Forall, Forall_take, space_controls_clean.
Qed.

Lemma bound_error_message_valid msg run_id code :
  validate_run_id_opt run_id = Ok tt ->
  validate_rejected (mkRejectedResponse run_id code (bound_error_message msg)) = Ok tt.
Proof.
  intros Hr. unfold validate_rejected. cbn [rej_run_id message]. rewrite then_ok, fail_if_ok. split; [done|].
  destruct (bound_error_message_bounded msg) as (Hn & Hl & Hc). set (m := bound_error_message msg) in *.
  pose proof (byte_len_bounds m). unfold ERROR_MESSAGE_MAX_BYTES.
  rewrite (proj2 (is_empty_false m)) by done. decide_N. cbn.
  apply any_false. by apply Forall_forall.
Qed.

Lemma bound_output_ok (text : str) limit o t :
  bound_output text limit = Ok (o, t) <->
  OUTPUT_CHAR_LIMIT_MIN <= limit <= OUTPUT_CHAR_LIMIT_MAX /\ o = take (N.to_nat limit) text
  /\ t = (limit <? char_count text).
Proof.
  unfold bound_output, validate_output_char_limit. rewrite seq_ok, negb_false_iff, andb_true_iff, !N.leb_le.
  unfold char_count, len. destruct (N.leb_spec (N.of_nat (length text)) limit) as [Hle|Hgt].
  - rewrite take_ge by lia. rewrite (proj2 (N.ltb_ge limit _)) by lia. naive_solver.
  - rewrite (proj2 (N.ltb_lt limit _)) by lia. naive_solver.
Qed.

(** ** Sample values for the witnesses *)

Definition sample_execute : ExecuteRequest :=
  mkExecuteRequest (lit "run_20260628-01") (lit "message-123") (lit "Inspect the workspace.")
    (as_bytes (lit "/srv/workspaces/repository")) (Some (lit "gpt-5.5-codex")) (Some High) 600 6000 false.

Definition sample_request : LauncherRequest := execute sample_execute.
Definition sample_payload : list N := lit "{}".

#[local] Instance sample_codec : JsonCodec LauncherRequest := {
  to_vec r := if bool_decide (r = sample_request) then Some sample_payload else None;
  from_slice b := if bool_decide (b = sample_payload) then Some sample_request else None
}.

#[local] Instance sample_codec_roundtrip : JsonRoundTrip LauncherRequest.
Proof.
  intros v payload. cbn. case_bool_decide; [|done]. intros [= <-].
  rewrite bool_decide_eq_true_2 by done. congruence.
Qed.

(** ** Properties *)

(** C23: encoding a request into a length-prefixed frame and decoding that frame gives the
    request back: whatever the encoder emits, the launcher reads as the same request, and
    the request it reads is a valid one. *)
Theorem request_frame_roundtrip `{!JsonCodec LauncherRequest} `{!JsonRoundTrip LauncherRequest}
    (r : LauncherRequest) (frame : list N) :
  encode_request_frame r = Ok frame -> decode_request_frame frame = Ok r.
Proof.
  unfold encode_request_frame, decode_request_frame. rewrite then_ok. intros [Hv Hf].
  apply (frame_roundtrip _ _ _ request_max_u32) in Hf. rewrite Hf. cbn [rbind]. by rewrite Hv.
Qed.

Lemma request_frame_roundtrip_witness :
  exists frame, encode_request_frame sample_request = Ok frame /\ decode_request_frame frame = Ok sample_request.
Proof.
  exists (to_be_bytes 2 ++ sample_payload). split; [by vm_compute|].
  apply request_frame_roundtrip. by vm_compute.
Defined.

(** a frame of bytes that decodes to a request is exactly the canonical framing of a
    non-empty payload of at most 512 KiB, with no trailing byte, and the decoded request
    passed every field check. *)
Theorem decode_request_frame_sound `{!JsonCodec LauncherRequest} (frame : list N) (r : LauncherRequest) :
  Forall (fun b => b < 256) frame ->
  decode_request_frame frame = Ok r ->
  validate_request r = Ok tt /\
  exists payload, frame = to_be_bytes (len payload) ++ payload
    /\ 0 < len payload <= REQUEST_MAX_BYTES /\ from_slice payload = Some r.
Proof.
  unfold decode_request_frame. intros Hb (r' & Hd & H)%rbind_ok. ok_inv. split; [done|].
  apply (decode_frame_ok _ _ _ request_max_u32) in Hd as (header & payload & -> & Hh & Hlen & Hl & Hs).
  apply Forall_app in Hb as [Hb _]. exists payload.
  split; [by rewrite <-Hlen, to_be_from_be|done].
Qed.

Lemma decode_request_frame_sound_witness :
  decode_request_frame (to_be_bytes 2 ++ sample_payload) = Ok sample_request /\
  validate_request sample_request = Ok tt.
Proof.
  split; [by vm_compute|].
  apply (decode_request_frame_sound (to_be_bytes 2 ++ sample_payload)).
  - repeat constructor.
  - by vm_compute.
Defined.

(** an execute request that passes validation names a confined workspace and run: the
    workspace is an absolute normalised path strictly below the root, with no empty, [.]
    or [..] component and no control character, and the run ID is a single safe path
    component of at most 64 letters, digits, dashes and underscores. *)
Theorem valid_execute_confined (r : ExecuteRequest) :
  validate_execute r = Ok tt ->
  (exists text components, from_utf8 (workspace r) = Some text
     /\ text = ch "/" :: join [ch "/"] components /\ components <> []
     /\ Forall (fun c => c <> [] /\ c <> lit "." /\ c <> lit ".." /\ ch "/" ∉ c) components
     /\ Forall (fun c => is_control c = false) text)
  /\ 1 <= char_count (run_id r) <= RUN_ID_MAX_BYTES
  /\ Forall (fun c => is_run_id_byte c = true) (run_id r)
  /\ TIMEOUT_SECONDS_MIN <= timeout_seconds r <= TIMEOUT_SECONDS_MAX.
Proof.
  unfold validate_execute, validate_timeout_seconds. intros H. ok_inv. bool_inv.
  apply validate_workspace_ok in H3 as (text & comps & -> & Htext & Hn & Hc & _ & Hctl).
  apply validate_run_id_ok in H0 as (c & s & Es & _ & Hall & Hlen). split.
  - exists text, comps. repeat split; try done. eapply Forall_impl; [exact Hc|].
    intros x [Hb Hs]. unfold bad_component in Hb.
    rewrite !orb_false_iff, !str_eqb_neq, is_empty_false in Hb. destruct Hb as [[? ?] ?].
    do 3 (split; [done|]). intros Hin. rewrite Forall_forall in Hs. by specialize (Hs _ Hin).
  - rewrite Es in *. unfold char_count, len in *. cbn [length] in *. repeat split; try done; lia.
Qed.

Lemma valid_execute_confined_witness :
  validate_execute sample_execute = Ok tt /\ 1 <= char_count (run_id sample_execute) <= RUN_ID_MAX_BYTES.
Proof. split; [by vm_compute|]. apply (valid_execute_confined sample_execute). by vm_compute. Defined.

(** the bounded response constructors only build responses the peer accepts. A
    completed response holds a prefix of the output of at most the requested number of
    characters and says whether it was cut; a rejection is total on every message, however
    long or full of control characters. *)
Theorem bounded_responses_valid :
  (forall run_id text limit r, completed_bounded run_id text limit = Ok r ->
     validate_completed r = Ok tt /\ output r = take (N.to_nat limit) text
     /\ truncated r = (limit <? char_count text) /\ char_count (output r) <= limit) /\
  (forall run_id code msg, validate_run_id_opt run_id = Ok tt ->
     exists r, rejected_bounded run_id code msg = Ok r /\ validate_rejected r = Ok tt
       /\ rej_run_id r = run_id /\ LauncherProtocol.code r = code).
Proof.
  split.
  - intros rid text limit r H. unfold completed_bounded in H. ok_inv. destruct x as [o t]. ok_inv.
    apply bound_output_ok in H2 as (Hlim & -> & ->). cbn [output truncated].
    assert (char_count (take (N.to_nat limit) text) <= limit) as Hc.
    { unfold char_count, len. rewrite length_take. lia. }
    split; [|done]. unfold validate_completed. cbn [comp_run_id output]. rewrite then_ok, fail_if_ok. split; [done|].
    pose proof (byte_len_bounds (take (N.to_nat limit) text)). unfold OUTPUT_MAX_BYTES in *. by decide_N.
  - intros rid c msg Hr. exists (mkRejectedResponse rid c (bound_error_message msg)).
    pose proof (bound_error_message_valid msg rid c Hr) as Hv.
    unfold rejected_bounded. rewrite Hr. cbn [rbind]. by rewrite Hv.
Qed.

Lemma bounded_responses_valid_witness :
  exists r, completed_bounded (lit "run-1") (lit "abcd") 3 = Ok r /\ output r = lit "abc" /\ validate_completed r = Ok tt.
Proof.
  exists (mkCompletedResponse (lit "run-1") (lit "abc") true). split; [by vm_compute|]. split; [done|].
  apply (proj1 bounded_responses_valid (lit "run-1") (lit "abcd") 3). by vm_compute.
Defined.
