(* ===== verification/Capture.v ===== *)
(** * Bounded captures of a child's output

    [read_limited] of [src/runner.rs] and [src/isolated_execution.rs]: everything is read to
    the end of the stream and a bounded prefix is kept. *)

From S2P Require Import Prelude Text.

Local Open Scope N_scope.

(** What successive reads return before the end of the stream: bytes, or an error. *)
Abbreviation reads := (list (option (list N))) (only parsing).

Fixpoint read_limited_loop (limit : N) (chunks : reads) (kept : list N) (truncated : bool) : option (list N * bool) :=
  match chunks with
  | [] => Some (kept, truncated)
  | None :: _ => None
  | Some chunk :: rest =>
      let remaining := limit - len kept in
      let to_keep := N.min (len chunk) remaining in
      read_limited_loop limit rest (kept ++ take_N to_keep chunk) (truncated || (to_keep <? len chunk))
  end.

Definition read_limited (limit : N) (chunks : reads) : option (str * bool) :=
  (fun r => (from_utf8_lossy r.1, r.2)) <$> read_limited_loop limit chunks [] false.

(** ** What is kept *)

Lemma take_N_app {A} n (a b : list A) : take_N n (a ++ b) = take_N n a ++ take_N (n - len a) b.
Proof.
  revert n. induction a as [|x a IH]; intros n; cbn [app take_N].
  - rewrite len_nil, N.sub_0_r. by destruct b.
  - destruct (N.eqb_spec n 0) as [->|Hn]; [by destruct b|]. cbn [app].
    rewrite IH, len_cons. do 2 f_equal. f_equal. lia.
Qed.

Lemma take_N_min {A} n (l : list A) : take_N (N.min (len l) n) l = take_N n l.
Proof.
  destruct (N.le_ge_cases (len l) n) as [Hm|Hm]; [|by rewrite N.min_r].
  rewrite N.min_l by done. by rewrite !take_N_all.
Qed.

(** After any reads, the kept bytes are the longest prefix within the limit. *)
Lemma read_limited_loop_spec limit chunks sofar :
  read_limited_loop limit (map Some chunks) (take_N limit sofar) (limit <? len sofar)
  = Some (take_N limit (sofar ++ concat chunks), limit <? len (sofar ++ concat chunks)).
Proof.
  revert sofar. induction chunks as [|c chunks IH]; intros sofar; cbn [map read_limited_loop concat].
  - by rewrite app_nil_r.
  - rewrite app_assoc, <-IH, len_take_N. f_equal.
    + rewrite take_N_app. f_equal. replace (limit - N.min limit (len sofar)) with (limit - len sofar) by lia. apply take_N_min.
    + rewrite len_app. apply eq_bool_prop_intro. rewrite !Is_true_true, orb_true_iff, !N.ltb_lt. lia.
Qed.

(** The prefix of the whole stream that fits, marked exactly when it is not the whole. *)
Lemma read_limited_spec limit chunks :
  read_limited limit (map Some chunks)
  = Some (from_utf8_lossy (take_N limit (concat chunks)), limit <? len (concat chunks)).
Proof.
  unfold read_limited. pose proof (read_limited_loop_spec limit chunks []) as H. cbn [take_N app] in H.
  rewrite len_nil in H. destruct (N.ltb_spec limit 0); [lia|]. by rewrite H.
Qed.

Lemma read_limited_loop_ok limit chunks kept truncated r :
  read_limited_loop limit chunks kept truncated = Some r -> exists bytes, chunks = map Some bytes.
Proof.
  revert kept truncated. induction chunks as [|[c|] chunks IH]; intros kept truncated; cbn; [by exists []| |done].
  intros H. apply IH in H as (bytes & ->). by exists (c :: bytes).
Qed.

(** A capture that is read to the end is determined by the bytes alone. *)
Lemma read_limited_ok limit chunks r : read_limited limit chunks = Some r ->
  exists bytes, chunks = map Some bytes
    /\ r = (from_utf8_lossy (take_N limit (concat bytes)), limit <? len (concat bytes)).
Proof.
  intros H. assert (exists bytes, chunks = map Some bytes) as (bytes & ->).
  { unfold read_limited in H. destruct (read_limited_loop _ _ _ _) eqn:E; [|done]. by eapply read_limited_loop_ok. }
  exists bytes. rewrite read_limited_spec in H. by injection H as <-.
Qed.
