(* ===== verification/Paths.v ===== *)
(** * Paths

    [std::path] on Unix: a path is the bytes of an operating-system string, read as a
    sequence of components, and two paths are equal when their components are. With the
    lexical normalisation of [src/config.rs] (and its copy in [src/main.rs]) and the
    containment test built on it. *)

From S2P Require Import Prelude Text.

Local Open Scope N_scope.

Abbreviation path := (list N) (only parsing).

Definition separator : N := ch "/".

Inductive Component : Type :=
| RootDir
| CurDir
| ParentDir
| Normal (name : list N).

#[export] Instance Component_eq_dec : EqDecision Component.
Proof. solve_decision. Defined.

Definition has_root (p : path) : bool := starts_with [separator] p.
Definition is_absolute (p : path) : bool := has_root p.

(** One piece between separators; empty pieces and [.] are skipped. *)
Definition component_of (piece : list N) : list Component :=
  if is_empty piece || str_eqb piece (lit ".") then []
  else if str_eqb piece (lit "..") then [ParentDir]
  else [Normal piece].

(** [path.components()]: a leading [.] of a relative path is kept. *)
Definition components (p : path) : list Component :=
  let pieces := split_by (N.eqb separator) p in
  (if has_root p then [RootDir]
   else if str_eqb (hd [] pieces) (lit ".") then [CurDir] else [])
  ++ concat (map component_of pieces).

(** [base.join(p)]. *)
Definition path_join (base p : path) : path :=
  if is_absolute p then p
  else if is_empty base || ends_with [separator] base then base ++ p
  else base ++ [separator] ++ p.

(** [PathBuf::pop]: the root and the empty path have no parent. *)
Definition pop (cs : list Component) : list Component :=
  match reverse cs with
  | [] | RootDir :: _ => cs
  | _ :: r => reverse r
  end.

(** [PathBuf::push] of one component. *)
Definition push (cs : list Component) (c : Component) : list Component :=
  match c with
  | RootDir => [RootDir]
  | _ => cs ++ [c]
  end.

Definition normalize_step (acc : list Component) (c : Component) : list Component :=
  match c with
  | CurDir => acc
  | ParentDir => pop acc
  | _ => push acc c
  end.

Definition normalize_lexical (cs : list Component) : list Component := fold_left normalize_step cs [].

(** [path.starts_with(root)], component by component. *)
Fixpoint components_prefix (root p : list Component) : bool :=
  match root, p with
  | [], _ => true
  | r :: root', c :: p' => bool_decide (r = c) && components_prefix root' p'
  | _ :: _, [] => false
  end.

Definition path_starts_with (p root : list Component) : bool :=
  bool_decide (p = root) || components_prefix root p.

(** What the code asks of the operating system about paths. *)
Record PathEnv : Type := mkPathEnv {
  current_dir : option path;
  canonicalize : path -> option path
}.

Definition absolute_lexical (env : PathEnv) (p : path) : list Component :=
  let joined := if is_absolute p then p
                else path_join (default (lit ".") (current_dir env)) p in
  normalize_lexical (components joined).

Definition path_is_inside (env : PathEnv) (p root : path) : bool :=
  let lexical_path := absolute_lexical env p in
  let lexical_root := absolute_lexical env root in
  if path_starts_with lexical_path lexical_root then true
  else match canonicalize env p, canonicalize env root with
  | Some p', Some root' => path_starts_with (components p') (components root')
  | Some p', None => path_starts_with (components p') lexical_root
  | None, Some root' => path_starts_with lexical_path (components root')
  | None, None => false
  end.

(** [path.file_name()]: the last component when it is a normal one. *)
Definition file_name (p : path) : option (list N) :=
  match reverse (components p) with
  | Normal n :: _ => Some n
  | _ => None
  end.

(** ** Lemmas *)

Definition plain (c : Component) : Prop :=
  match c with
  | RootDir | Normal _ => True
  | CurDir | ParentDir => False
  end.

Definition is_normal (c : Component) : Prop :=
  match c with
  | Normal _ => True
  | _ => False
  end.

(** A normal form: an optional root followed by normal components only. *)
Definition normal_form (cs : list Component) : Prop :=
  exists r ns, cs = r ++ ns /\ (r = [] \/ r = [RootDir]) /\ Forall is_normal ns.

Lemma is_normal_not_root c : is_normal c -> c <> RootDir.
Proof. by intros H ->. Qed.

Lemma pop_snoc cs c : c <> RootDir -> pop (cs ++ [c]) = cs.
Proof. intros H. unfold pop. rewrite reverse_snoc. destruct c; [done|..]; by rewrite reverse_involutive. Qed.

Lemma pop_normal_form cs : normal_form cs -> normal_form (pop cs).
Proof.
  intros (r & ns & -> & Hr & Hn). destruct ns as [|c ns _] using rev_ind.
  - rewrite app_nil_r. exists r, []. rewrite app_nil_r. destruct Hr as [->| ->]; by repeat split; auto.
  - apply Forall_app in Hn as [Hn [Hc _]%Forall_cons]. rewrite app_assoc, pop_snoc by by apply is_normal_not_root.
    by exists r, ns.
Qed.

Lemma normalize_step_normal_form acc c : normal_form acc -> normal_form (normalize_step acc c).
Proof.
  intros H. destruct c; cbn; [by exists [RootDir], []; auto|done|by apply pop_normal_form|].
  destruct H as (r & ns & -> & Hr & Hn). exists r, (ns ++ [Normal name]). rewrite app_assoc.
  split; [done|]. split; [done|]. apply Forall_app; split; [done|]. by repeat constructor.
Qed.

Lemma fold_normal_form cs acc : normal_form acc -> normal_form (fold_left normalize_step cs acc).
Proof. revert acc. induction cs as [|c cs IH]; cbn; [done|]. intros acc H. by apply IH, normalize_step_normal_form. Qed.

Lemma normalize_normal_form cs : normal_form (normalize_lexical cs).
Proof. apply fold_normal_form. exists [], []. auto. Qed.

Lemma normalize_normals acc ns : Forall is_normal ns -> fold_left normalize_step ns acc = acc ++ ns.
Proof.
  intros H. revert acc. induction H as [|c ns Hc _ IH]; intros acc; cbn; [by rewrite app_nil_r|].
  rewrite IH. destruct c; try done. cbn. by rewrite <-app_assoc.
Qed.

(** Normal forms are fixed points. *)
Lemma normalize_id cs : normal_form cs -> normalize_lexical cs = cs.
Proof.
  intros (r & ns & -> & Hr & Hn). unfold normalize_lexical. destruct Hr as [->| ->]; cbn; by rewrite normalize_normals.
Qed.

Lemma fold_rooted cs ns : exists ns', fold_left normalize_step cs (RootDir :: ns) = RootDir :: ns'.
Proof.
  revert ns. induction cs as [|c cs IH]; intros ns; cbn; [eauto|].
  assert (exists ns', normalize_step (RootDir :: ns) c = RootDir :: ns') as (ns' & ->); [|apply IH].
  destruct c; cbn; eauto. destruct ns as [|x ns _] using rev_ind; [by exists []|].
  destruct (decide (x = RootDir)) as [->|Hx].
  - unfold pop. rewrite app_comm_cons, reverse_snoc. eauto.
  - rewrite app_comm_cons, pop_snoc by done. eauto.
Qed.

Lemma components_absolute p : is_absolute p = true -> exists cs, components p = RootDir :: cs.
Proof. unfold is_absolute, components. intros ->. cbn. eauto. Qed.

(** However many [..] an absolute path holds, its normal form stays at or below the root. *)
Lemma normalize_absolute p :
  is_absolute p = true -> exists ns, normalize_lexical (components p) = RootDir :: ns /\ Forall is_normal ns.
Proof.
  intros (cs & E)%components_absolute. pose proof (normalize_normal_form (components p)) as (r & ns & Hn & Hr & Hall).
  destruct (fold_rooted cs []) as (ns' & Hf). unfold normalize_lexical in *. rewrite E in *. cbn in *.
  rewrite Hf in *. destruct Hr as [->| ->]; cbn in *; [|by injection Hn as ->; exists ns].
  subst ns. by apply Forall_cons in Hall as [[] _].
Qed.

Lemma components_prefix_spec root p : components_prefix root p = true <-> exists k, p = root ++ k.
Proof.
  revert p. induction root as [|r root IH]; intros p; cbn; [naive_solver|].
  destruct p as [|c p]; [naive_solver|]. rewrite andb_true_iff, bool_decide_eq_true, IH. naive_solver.
Qed.

Lemma path_starts_with_spec p root : path_starts_with p root = true <-> exists k, p = root ++ k.
Proof.
  unfold path_starts_with. rewrite orb_true_iff, components_prefix_spec, bool_decide_eq_true. split; [|auto].
  intros [->|?]; [|done]. exists []. by rewrite app_nil_r.
Qed.

(** What a negative containment answer guarantees. *)
Lemma path_not_inside env p root :
  path_is_inside env p root = false ->
  (forall k, absolute_lexical env p <> absolute_lexical env root ++ k) /\
  (forall p' root', canonicalize env p = Some p' -> canonicalize env root = Some root' ->
     forall k, components p' <> components root' ++ k).
Proof.
  unfold path_is_inside. destruct (path_starts_with _ _) eqn:E; [done|].
  intros H. split.
  - intros k Hk. assert (path_starts_with (absolute_lexical env p) (absolute_lexical env root) = true); [|congruence].
    apply path_starts_with_spec. eauto.
  - intros p' root' Hp Hr k Hk. rewrite Hp, Hr in H.
    assert (path_starts_with (components p') (components root') = true); [|congruence].
    apply path_starts_with_spec. eauto.
Qed.
