(* ===== verification/Net.v ===== *)
(** * Socket addresses

    [str::parse::<SocketAddr>()] of the standard library, as recursive-descent readers on
    text, the [Display] of socket addresses, and the classification of addresses. *)

From S2P Require Import Prelude Text.

Local Open Scope N_scope.

Inductive IpAddr : Type :=
| V4 (a b c d : N)
| V6 (groups : list N).

#[export] Instance IpAddr_eq_dec : EqDecision IpAddr.
Proof. solve_decision. Defined.

(** The scope of an IPv6 address; 0 for IPv4. Texts carry no flow information. *)
Record SocketAddr : Type := mkSocketAddr { ip : IpAddr; port : N; scope_id : N }.

#[export] Instance SocketAddr_eq_dec : EqDecision SocketAddr.
Proof. solve_decision. Defined.

(** A reader consumes a prefix of the text or fails. *)
Definition reader (A : Type) : Type := str -> option (A * str).

Definition read_char (c : char) : reader unit := fun s =>
  match s with
  | x :: s' => if x =? c then Some (tt, s') else None
  | [] => None
  end.

Definition digit_value (radix : N) (c : char) : option N :=
  match hex_value c with
  | Some d => if d <? radix then Some d else None
  | None => None
  end.

(** The digit loop of [read_number]: at most [max_digits] digits and no overflow. *)
Fixpoint read_digits (radix bound : N) (max_digits : option nat) (acc : N) (count : nat) (s : str)
  : option (N * nat * str) :=
  match s with
  | [] => Some (acc, count, [])
  | c :: s' =>
      match digit_value radix c with
      | None => Some (acc, count, s)
      | Some d =>
          let acc' := acc * radix + d in
          if bound <? acc' then None
          else match max_digits with
          | Some m => if (m <? S count)%nat then None
                      else read_digits radix bound max_digits acc' (S count) s'
          | None => read_digits radix bound max_digits acc' (S count) s'
          end
      end
  end.

Definition read_number (radix bound : N) (max_digits : option nat) (allow_zero_prefix : bool) : reader N :=
  fun s =>
  match read_digits radix bound max_digits 0 0 s with
  | Some (n, count, s') =>
      if (count =? 0)%nat then None
      else if negb allow_zero_prefix && starts_with (lit "0") s && (1 <? count)%nat then None
      else Some (n, s')
  | None => None
  end.

Definition read_ipv4 : reader (N * N * N * N) := fun s =>
  let octet := read_number 10 255 (Some 3%nat) false in
  '(a, s) ← octet s; '(_, s) ← read_char (ch ".") s;
  '(b, s) ← octet s; '(_, s) ← read_char (ch ".") s;
  '(c, s) ← octet s; '(_, s) ← read_char (ch ".") s;
  '(d, s) ← octet s;
  Some (a, b, c, d, s).

Definition read_separated {A} (first : bool) (r : reader A) : reader A := fun s =>
  if first then r s else '(_, s) ← read_char (ch ":") s; r s.

(** [read_groups]: up to [limit] 16-bit groups, an embedded IPv4 address filling two. *)
Fixpoint read_groups (limit : nat) (first : bool) (s : str) : list N * bool * str :=
  match limit with
  | O => ([], false, s)
  | S l =>
      match (if (0 <? l)%nat then read_separated first read_ipv4 s else None) with
      | Some (a, b, c, d, s') => ([a * 256 + b; c * 256 + d], true, s')
      | None =>
          match read_separated first (read_number 16 65535 (Some 4%nat) true) s with
          | Some (g, s') =>
              let '(gs, v4, s'') := read_groups l false s' in (g :: gs, v4, s'')
          | None => ([], false, s)
          end
      end
  end.

Definition read_ipv6 : reader (list N) := fun s =>
  let '(front, front_v4, s) := read_groups 8 true s in
  if (length front =? 8)%nat then Some (front, s)
  else if front_v4 then None
  else
    '(_, s) ← read_char (ch ":") s; '(_, s) ← read_char (ch ":") s;
    let '(back, _, s) := read_groups (8 - (length front + 1)) true s in
    Some (front ++ replicate (8 - length front - length back) 0 ++ back, s).

Definition read_port : reader N := fun s =>
  '(_, s) ← read_char (ch ":") s; read_number 10 65535 None true s.

Definition read_socket_addr_v4 : reader SocketAddr := fun s =>
  '((a, b, c, d), s) ← read_ipv4 s;
  '(p, s) ← read_port s;
  Some (mkSocketAddr (V4 a b c d) p 0, s).

Definition read_scope_id : reader N := fun s =>
  '(_, s) ← read_char (ch "%") s; read_number 10 u32_max None true s.

Definition read_socket_addr_v6 : reader SocketAddr := fun s =>
  '(_, s) ← read_char (ch "[") s;
  '(groups, s) ← read_ipv6 s;
  let '(scope, s) := match read_scope_id s with Some (n, s') => (n, s') | None => (0, s) end in
  '(_, s) ← read_char (ch "]") s;
  '(p, s) ← read_port s;
  Some (mkSocketAddr (V6 groups) p scope, s).

(** [text.parse::<SocketAddr>()]: the whole text must be consumed. *)
Definition parse_socket_addr (s : str) : option SocketAddr :=
  match opt_or (read_socket_addr_v4 s) (read_socket_addr_v6 s) with
  | Some (a, []) => Some a
  | _ => None
  end.

Definition is_loopback (a : IpAddr) : bool :=
  match a with
  | V4 a _ _ _ => a =? 127
  | V6 groups => bool_decide (groups = [0; 0; 0; 0; 0; 0; 0; 1])
  end.

Definition is_unspecified (a : IpAddr) : bool :=
  match a with
  | V4 a b c d => bool_decide ([a; b; c; d] = [0; 0; 0; 0])
  | V6 groups => bool_decide (groups = [0; 0; 0; 0; 0; 0; 0; 0])
  end.

Definition is_multicast (a : IpAddr) : bool :=
  match a with
  | V4 a _ _ _ => (224 <=? a) && (a <=? 239)
  | V6 groups => N.land (hd 0 groups) 65280 =? 65280
  end.

(** [Ipv4Addr::is_broadcast] and [Ipv6Addr::to_ipv4]. *)
Definition is_broadcast (a b c d : N) : bool := bool_decide ([a; b; c; d] = [255; 255; 255; 255]).

Definition to_ipv4 (groups : list N) : option (N * N * N * N) :=
  match groups with
  | [0; 0; 0; 0; 0; f; ab; cd] =>
      if (f =? 0) || (f =? 65535) then Some (ab / 256, ab mod 256, cd / 256, cd mod 256) else None
  | _ => None
  end.

(** ** Printing *)

Definition ipv4_to_string (a b c d : N) : str := join (lit ".") (map decimal [a; b; c; d]).

(** The first longest run of zero groups, as its start and length. *)
Fixpoint longest_zero_run (i : nat) (current longest : nat * nat) (groups : list N) : nat * nat :=
  match groups with
  | [] => longest
  | g :: groups' =>
      if g =? 0 then
        let current := (if (snd current =? 0)%nat then i else fst current, S (snd current)) in
        longest_zero_run (S i) current (if (snd longest <? snd current)%nat then current else longest) groups'
      else longest_zero_run (S i) (0, 0)%nat longest groups'
  end.

Definition fmt_subslice (chunk : list N) : str := join (lit ":") (map format_hex chunk).

(** IPv4-mapped addresses are printed with their IPv4 form. *)
Definition ipv6_to_string (groups : list N) : str :=
  match groups with
  | [0; 0; 0; 0; 0; 65535; ab; cd] =>
      lit "::ffff:" ++ ipv4_to_string (ab / 256) (ab mod 256) (cd / 256) (cd mod 256)
  | _ =>
      let '(start, count) := longest_zero_run 0 (0, 0)%nat (0, 0)%nat groups in
      if (1 <? count)%nat
      then fmt_subslice (take start groups) ++ lit "::" ++ fmt_subslice (drop (start + count) groups)
      else fmt_subslice groups
  end.

Definition socket_addr_to_string (a : SocketAddr) : str :=
  match ip a with
  | V4 x y z w => ipv4_to_string x y z w ++ lit ":" ++ decimal (port a)
  | V6 groups =>
      let scope := if scope_id a =? 0 then [] else lit "%" ++ decimal (scope_id a) in
      lit "[" ++ ipv6_to_string groups ++ scope ++ lit "]:" ++ decimal (port a)
  end.

(** ** Examples *)

Example print_v4 : socket_addr_to_string (mkSocketAddr (V4 127 0 0 1) 8787 0) = lit "127.0.0.1:8787".
Proof. by vm_compute. Qed.

Example print_v6 : map (fun g => socket_addr_to_string (mkSocketAddr (V6 g) 80 0))
    [[0; 0; 0; 0; 0; 0; 0; 1]; [8193; 3512; 0; 0; 1; 0; 0; 1]; [1; 0; 2; 3; 4; 5; 6; 7]; [0; 0; 0; 0; 0; 65535; 258; 772]]
  = [lit "[::1]:80"; lit "[2001:db8::1:0:0:1]:80"; lit "[1:0:2:3:4:5:6:7]:80"; lit "[::ffff:1.2.3.4]:80"].
Proof. by vm_compute. Qed.

Example print_scoped : socket_addr_to_string (mkSocketAddr (V6 [65152; 0; 0; 0; 0; 0; 0; 1]) 1 7) = lit "[fe80::1%7]:1".
Proof. by vm_compute. Qed.

Example parse_v4 : parse_socket_addr (lit "127.0.0.1:8787") = Some (mkSocketAddr (V4 127 0 0 1) 8787 0).
Proof. by vm_compute. Qed.

Example parse_v6 : parse_socket_addr (lit "[::1]:80") = Some (mkSocketAddr (V6 [0; 0; 0; 0; 0; 0; 0; 1]) 80 0).
Proof. by vm_compute. Qed.

Example parse_v6_embedded :
  parse_socket_addr (lit "[fe80::1.2.3.4%7]:1") = Some (mkSocketAddr (V6 [65152; 0; 0; 0; 0; 0; 258; 772]) 1 7).
Proof. by vm_compute. Qed.

Example parse_bad : map parse_socket_addr [lit "127.0.0.01:1"; lit "127.0.0.1"; lit "127.0.0.1:65536"; lit "[::1]:"; lit "1.2.3:4"]
  = [None; None; None; None; None].
Proof. by vm_compute. Qed.
