(* ===== verification/Config.v ===== *)
(** * [src/config.rs]: the bot's configuration

    The configuration records with their defaults, the per-room Codex patches, every
    cross-field check of [BotConfig::validate] in the order the code makes them, and the
    attempt-lease budget. TOML parsing is the [toml] crate's and is not modelled. *)

From S2P Require Import Prelude Text ConfigCommands LauncherProtocol Paths Net.

Local Open Scope N_scope.

(** ** Constants *)

Definition WEBEX_REQUEST_TIMEOUT_SECS : N := 30.
Definition EVENT_HYDRATION_NOT_FOUND_RETRY_SECS : N := 5.
Definition DIRECT_REPLY_MARKER_SEARCH_MAX_PAGES : N := 3.
Definition DIRECT_NON_PAGED_WEBEX_REQUESTS_PER_ATTEMPT : N := 3.
Definition WEBEX_REQUESTS_PER_ATTEMPT : N :=
  DIRECT_NON_PAGED_WEBEX_REQUESTS_PER_ATTEMPT + DIRECT_REPLY_MARKER_SEARCH_MAX_PAGES * 2.
Definition FOLLOWUP_NON_PAGED_WEBEX_REQUESTS_PER_ATTEMPT : N := 3.
Definition WEBEX_LIST_PAGE_SIZE : N := 100.
Definition FOLLOWUP_MARKER_SEARCH_MAX_MESSAGES : N := WEBEX_LIST_PAGE_SIZE.
Definition FOLLOWUP_REPLY_MARKER_SEARCH_MIN_MESSAGES : N := WEBEX_LIST_PAGE_SIZE * 3.
Definition STAGING_SOURCE_MARKER_SEARCH_PAGES : N := 3.
Definition STAGING_WEBEX_REQUESTS_PER_ATTEMPT : N :=
  STAGING_SOURCE_MARKER_SEARCH_PAGES + 1 + STAGING_SOURCE_MARKER_SEARCH_PAGES.

Definition DEFAULT_PROMPT_TEMPLATE : str := lit
"You are responding to a Webex message.

Room: {room_id}
Message ID: {message_id}
Sender: {person_email}

Message:
{body}
".

Definition DEFAULT_FOLLOWUP_PROMPT_TEMPLATE : str := lit
"You are responding to a follow-up in an existing Webex thread.

Reply concisely. Use the thread context only as background, and answer the current follow-up directly.

Original message:
{original_body}

Recent thread:
{thread_context}

Current follow-up:
Room: {room_id}
Message ID: {message_id}
Sender: {person_email}

{body}
".

(** ** Records *)

Record ServerConfig : Type := mkServerConfig {
  bind : str;
  event_path : str;
  health_path : str;
  sidecar_token_env : str;
  allow_unauthenticated : bool;
  max_concurrent_requests : N;
  attempt_lease_secs : N
}.

Definition default_ServerConfig : ServerConfig :=
  mkServerConfig (lit "127.0.0.1:8787") (lit "/webex/events") (lit "/healthz") (lit "WEBEX_SIDECAR_TOKEN") false 4 900.

Record WebexAuthConfig : Type := mkWebexAuthConfig {
  access_token_env : str;
  access_token_file_env : str;
  access_token_file : option path
}.

Definition default_WebexAuthConfig : WebexAuthConfig :=
  mkWebexAuthConfig (lit "WEBEX_ACCESS_TOKEN") (lit "WEBEX_ACCESS_TOKEN_FILE") None.

Inductive IsolationMode : Type := CurrentUser | EphemeralLinuxUser.

#[export] Instance IsolationMode_eq_dec : EqDecision IsolationMode.
Proof. solve_decision. Defined.

Definition is_ephemeral (m : IsolationMode) : bool := bool_decide (m = EphemeralLinuxUser).

Record IsolationConfig : Type := mkIsolationConfig {
  mode : IsolationMode;
  trusted_prompt_authors : bool
}.

Definition default_IsolationConfig : IsolationConfig := mkIsolationConfig CurrentUser true.

Record CodexConfig : Type := mkCodexConfig {
  bin : str;
  cwd : path;
  codex_home : path;
  profile : option str;
  cx_model : option str;
  model_reasoning_effort : option str;
  sandbox : str;
  approval_policy : str;
  cx_timeout_secs : N;
  cx_output_limit_chars : N;
  cx_skip_git_repo_check : bool;
  ephemeral : bool;
  isolation : IsolationConfig
}.

Definition default_CodexConfig : CodexConfig :=
  mkCodexConfig (lit "codex") (lit ".") (lit "/var/lib/webex-generic-account-bot/codex-home") None None None
    (lit "read-only") (lit "never") 600 6000 false true default_IsolationConfig.

Record CodexConfigPatch : Type := mkCodexConfigPatch {
  p_bin : option str;
  p_cwd : option path;
  p_codex_home : option path;
  p_profile : option str;
  p_model : option str;
  p_model_reasoning_effort : option str;
  p_sandbox : option str;
  p_approval_policy : option str;
  p_timeout_secs : option N;
  p_output_limit_chars : option N;
  p_skip_git_repo_check : option bool;
  p_ephemeral : option bool;
  p_isolation : option IsolationConfig
}.

Definition default_CodexConfigPatch : CodexConfigPatch :=
  mkCodexConfigPatch None None None None None None None None None None None None None.

Definition apply_to (p : CodexConfigPatch) (base : CodexConfig) : CodexConfig :=
  mkCodexConfig
    (default (bin base) (p_bin p))
    (default (cwd base) (p_cwd p))
    (default (codex_home base) (p_codex_home p))
    (match p_profile p with Some v => Some v | None => profile base end)
    (match p_model p with Some v => Some v | None => cx_model base end)
    (match p_model_reasoning_effort p with Some v => Some v | None => model_reasoning_effort base end)
    (default (sandbox base) (p_sandbox p))
    (default (approval_policy base) (p_approval_policy p))
    (default (cx_timeout_secs base) (p_timeout_secs p))
    (default (cx_output_limit_chars base) (p_output_limit_chars p))
    (default (cx_skip_git_repo_check base) (p_skip_git_repo_check p))
    (default (ephemeral base) (p_ephemeral p))
    (default (isolation base) (p_isolation p)).

Inductive ReplyFormat : Type := Markdown | JenkinsDiagnosisJson | JenkinsFollowupJson.

Inductive FollowupTrigger : Type := FollowupMention | QuotedBotReply.

Record FollowupConfig : Type := mkFollowupConfig {
  fu_enabled : bool;
  triggers : list FollowupTrigger;
  fu_allow_all_senders : bool;
  fu_allowed_person_ids : list str;
  fu_allowed_person_emails : list str;
  max_thread_messages : N;
  max_thread_context_chars : N;
  fu_reply_format : option ReplyFormat;
  fu_prompt_template : str
}.

Definition default_FollowupConfig : FollowupConfig :=
  mkFollowupConfig false [FollowupMention] false [] [] 30 12000 None DEFAULT_FOLLOWUP_PROMPT_TEMPLATE.

Record JenkinsContextConfig : Type := mkJenkinsContextConfig {
  jk_enabled : bool;
  node_bin : str;
  script : path;
  env_file : path;
  jk_timeout_secs : N;
  max_urls : N;
  jk_output_limit_chars : N
}.

Definition default_JenkinsContextConfig : JenkinsContextConfig :=
  mkJenkinsContextConfig true (lit "node") [] (lit "/etc/webex-generic-account-bot/jenkins.env") 30 3 12000.

Inductive TriggerMode : Type := Mention | Prefix | Always | Never.

Record RoomPolicy : Type := mkRoomPolicy {
  rp_room_id : str;
  name : option str;
  output_room_id : option str;
  forward_source_message : bool;
  read_only_source : bool;
  jenkins_context : option JenkinsContextConfig;
  followup : FollowupConfig;
  reply_format : ReplyFormat;
  trigger : TriggerMode;
  prefixes : list str;
  allow_all_senders : bool;
  rp_allowed_person_ids : list str;
  rp_allowed_person_emails : list str;
  prompt_template : str;
  rp_codex : option CodexConfigPatch
}.

Definition default_RoomPolicy : RoomPolicy :=
  mkRoomPolicy [] None None false false None default_FollowupConfig Markdown Mention [] false [] []
    DEFAULT_PROMPT_TEMPLATE None.

Record BotConfig : Type := mkBotConfig {
  server : ServerConfig;
  webex : WebexAuthConfig;
  state_file : path;
  self_person_id : option str;
  codex : CodexConfig;
  rooms : list RoomPolicy;
  config_commands : option ConfigCommandsConfig
}.

Definition default_BotConfig : BotConfig :=
  mkBotConfig default_ServerConfig default_WebexAuthConfig (lit ".codex-tmp/generic-account-bot/state.jsonl")
    None default_CodexConfig [] None.

(** What validation asks of the process: paths and environment variables. *)
Record Env : Type := mkEnv {
  path_env : PathEnv;
  env_var : str -> option str
}.

(** ** Errors *)

Inductive CodexError : Type :=
| EmptyBin | ZeroOutputLimit | ZeroTimeout | SandboxNotReadOnly | ApprovalNotNever
| BadReasoningEffort | EmptyCodexHome | UntrustedCurrentUser | TrustedEphemeralUser
| EphemeralModel | EphemeralProfile | EphemeralGitCheck | EphemeralNotEphemeral
| EphemeralTimeout | EphemeralOutputLimit.

Inductive RoomError : Type :=
| EmptyRoomId | EmptyOutputRoom | OutputEqualsRoom | OutputWithoutForward
| ReadOnlyWithoutOutput | ForwardWithoutOutput | NoRoomSenders | PrefixesRequired
| BadPrefix | EmptyPromptTemplate
| JkEmptyNodeBin | JkEmptyScript | JkRelativeScript | JkEmptyEnvFile | JkRelativeEnvFile
| JkZeroTimeout | JkZeroUrls | JkZeroOutputLimit
| FuEmptyTriggers | FuZeroMessages | FuZeroChars | FuEmptyTemplate.

Inductive ConfigError : Type :=
| BadHttpPath (name : str)
| BindNotSocketAddr
| UnauthenticatedNotLoopback
| SameHttpPaths
| NoRooms
| EmptySelfPersonId
| DuplicateRoomId (room_id : str)
| InvalidRoom (room_id : str) (e : RoomError)
| InvalidConfigCommands (e : CommandsError)
| CommandsRoomIsRoom (room_id : str)
| CommandsRoomIsOutput (room_id : str)
| PullRequiresEphemeral
| InvalidCodex (name : str) (e : CodexError)
| MixedIsolation (name : str)
| TooManyConcurrentRequests
| LeaseTooShort (name : str)
| TokenInsideCwd (name : str)
| HomeOverlapsCwd (name : str)
| JenkinsScriptInsideCwd (room_id : str)
| JenkinsEnvInsideCwd (room_id : str).

(** ** Section validators *)

Definition validate_http_path (name path : str) : result ConfigError unit :=
  fail_if (negb (starts_with (lit "/") path) || contains_char (ch "?") path || contains_char (ch "#") path
           || negb (str_eqb (trim path) path)) (BadHttpPath name).

Definition valid_reasoning_effort (value : str) : bool :=
  any (str_eqb value) [lit "minimal"; lit "low"; lit "medium"; lit "high"; lit "xhigh"].

Definition validate_server (s : ServerConfig) : result ConfigError unit :=
  let? addr := ok_or (parse_socket_addr (bind s)) BindNotSocketAddr in
  fail_if (allow_unauthenticated s && negb (is_loopback (ip addr))) UnauthenticatedNotLoopback.

Definition attempt_lease (s : ServerConfig) : N := N.max (attempt_lease_secs s) 1.

Definition validate_isolation (c : IsolationConfig) : result CodexError unit :=
  match mode c, trusted_prompt_authors c with
  | CurrentUser, true => Ok tt
  | CurrentUser, false => Err UntrustedCurrentUser
  | EphemeralLinuxUser, false => Ok tt
  | EphemeralLinuxUser, true => Err TrustedEphemeralUser
  end.

Definition timeout (c : CodexConfig) : N := N.max (cx_timeout_secs c) 1.

Definition validate_codex (c : CodexConfig) : result CodexError unit :=
  fail_if (is_empty (trim (bin c))) EmptyBin ;?
  fail_if (cx_output_limit_chars c =? 0) ZeroOutputLimit ;?
  fail_if (cx_timeout_secs c =? 0) ZeroTimeout ;?
  fail_if (negb (str_eqb (sandbox c) (lit "read-only"))) SandboxNotReadOnly ;?
  fail_if (negb (str_eqb (approval_policy c) (lit "never"))) ApprovalNotNever ;?
  fail_if (is_some_and (model_reasoning_effort c) (fun e => negb (valid_reasoning_effort e))) BadReasoningEffort ;?
  fail_if (is_empty (codex_home c)) EmptyCodexHome ;?
  validate_isolation (isolation c) ;?
  if is_ephemeral (mode (isolation c)) then
    fail_if (negb (bool_decide (cx_model c = Some (lit "gpt-5.5")))) EphemeralModel ;?
    fail_if (bool_decide (is_Some (profile c))) EphemeralProfile ;?
    fail_if (negb (cx_skip_git_repo_check c)) EphemeralGitCheck ;?
    fail_if (negb (ephemeral c)) EphemeralNotEphemeral ;?
    fail_if (TIMEOUT_SECONDS_MAX <? cx_timeout_secs c) EphemeralTimeout ;?
    fail_if (OUTPUT_CHAR_LIMIT_MAX <? cx_output_limit_chars c) EphemeralOutputLimit
  else Ok tt.

Definition validate_followup (f : FollowupConfig) : result RoomError unit :=
  fail_if (fu_enabled f && is_empty (triggers f)) FuEmptyTriggers ;?
  fail_if (max_thread_messages f =? 0) FuZeroMessages ;?
  fail_if (max_thread_context_chars f =? 0) FuZeroChars ;?
  fail_if (is_empty (trim (fu_prompt_template f))) FuEmptyTemplate.

Definition validate_jenkins_context (j : JenkinsContextConfig) : result RoomError unit :=
  if negb (jk_enabled j) then Ok tt
  else
    fail_if (is_empty (trim (node_bin j))) JkEmptyNodeBin ;?
    fail_if (is_empty (script j)) JkEmptyScript ;?
    fail_if (negb (is_absolute (script j))) JkRelativeScript ;?
    fail_if (is_empty (env_file j)) JkEmptyEnvFile ;?
    fail_if (negb (is_absolute (env_file j))) JkRelativeEnvFile ;?
    fail_if (jk_timeout_secs j =? 0) JkZeroTimeout ;?
    fail_if (max_urls j =? 0) JkZeroUrls ;?
    fail_if (jk_output_limit_chars j =? 0) JkZeroOutputLimit.

Definition max_prefetch_secs (j : JenkinsContextConfig) : N := sat_mul (N.max (jk_timeout_secs j) 1) (max_urls j).

Definition validate_output_room (p : RoomPolicy) : result RoomError unit :=
  match output_room_id p with
  | Some o =>
      fail_if (is_empty (trim o)) EmptyOutputRoom ;?
      fail_if (str_eqb o (rp_room_id p)) OutputEqualsRoom ;?
      fail_if (negb (forward_source_message p)) OutputWithoutForward
  | None => Ok tt
  end.

Definition is_prefix_trigger (t : TriggerMode) : bool :=
  match t with
  | Prefix => true
  | _ => false
  end.

Definition validate_room (p : RoomPolicy) : result RoomError unit :=
  fail_if (is_empty (trim (rp_room_id p))) EmptyRoomId ;?
  validate_output_room p ;?
  fail_if (read_only_source p && bool_decide (output_room_id p = None)) ReadOnlyWithoutOutput ;?
  fail_if (forward_source_message p && bool_decide (output_room_id p = None)) ForwardWithoutOutput ;?
  fail_if (negb (allow_all_senders p) && is_empty (rp_allowed_person_ids p) && is_empty (rp_allowed_person_emails p))
    NoRoomSenders ;?
  fail_if (is_prefix_trigger (trigger p) && is_empty (prefixes p)) PrefixesRequired ;?
  fail_if (any (fun x => is_empty (trim x) || negb (str_eqb (trim x) x)) (prefixes p)) BadPrefix ;?
  fail_if (is_empty (trim (prompt_template p))) EmptyPromptTemplate ;?
  match jenkins_context p with
  | Some j => validate_jenkins_context j
  | None => Ok tt
  end ;?
  validate_followup (followup p).

(** ** Request budgets *)

Definition page_count (item_limit : N) : N := sat_add item_limit (WEBEX_LIST_PAGE_SIZE - 1) / WEBEX_LIST_PAGE_SIZE.

Definition followup_reply_marker_search_max_pages (max_thread_messages : N) : N :=
  page_count (N.max max_thread_messages FOLLOWUP_REPLY_MARKER_SEARCH_MIN_MESSAGES).

Definition webex_page_requests (item_limit : N) : N := page_count item_limit.

Definition followup_webex_requests_per_attempt (f : FollowupConfig) : N :=
  let thread_context_pages := webex_page_requests (N.max (max_thread_messages f) FOLLOWUP_MARKER_SEARCH_MAX_MESSAGES) in
  let reply_marker_pages := followup_reply_marker_search_max_pages (max_thread_messages f) in
  sat_add (sat_add FOLLOWUP_NON_PAGED_WEBEX_REQUESTS_PER_ATTEMPT thread_context_pages) reply_marker_pages.

Definition webex_requests_per_attempt (p : RoomPolicy) : N :=
  let requests := WEBEX_REQUESTS_PER_ATTEMPT in
  let requests := match output_room_id p with
                  | Some _ => sat_add requests STAGING_WEBEX_REQUESTS_PER_ATTEMPT
                  | None => requests
                  end in
  if fu_enabled (followup p) then sat_add requests (followup_webex_requests_per_attempt (followup p)) else requests.

(** ** Lookups *)

Definition policy_for_room (cfg : BotConfig) (room_id : str) : option RoomPolicy :=
  List.find (fun p => str_eqb (rp_room_id p) room_id) (rooms cfg).

Definition followup_policies_for_event_room (cfg : BotConfig) (room_id : str) : list RoomPolicy :=
  List.filter (fun p => fu_enabled (followup p)
                        && (str_eqb (rp_room_id p) room_id || bool_decide (output_room_id p = Some room_id)))
    (rooms cfg).

Definition room_is_read_only_source (cfg : BotConfig) (room_id : str) : bool :=
  any (fun p => read_only_source p && str_eqb (rp_room_id p) room_id) (rooms cfg).

Definition codex_for_policy (cfg : BotConfig) (p : RoomPolicy) : CodexConfig :=
  match rp_codex p with
  | Some patch => apply_to patch (codex cfg)
  | None => codex cfg
  end.

Definition codex_configs (cfg : BotConfig) : list (str * CodexConfig) :=
  (lit "global codex", codex cfg)
  :: concat (map (fun p => match rp_codex p with
                           | Some _ => [(lit "room " ++ rp_room_id p, codex_for_policy cfg p)]
                           | None => []
                           end) (rooms cfg)).

Definition uses_ephemeral_linux_user (cfg : BotConfig) : bool :=
  any (fun nc => is_ephemeral (mode (isolation nc.2))) (codex_configs cfg).

Definition all_codex_configs_use_ephemeral_linux_user (cfg : BotConfig) : bool :=
  all (fun nc => is_ephemeral (mode (isolation nc.2))) (codex_configs cfg).

Definition runtime_access_token_file (env : Env) (w : WebexAuthConfig) : option path :=
  match access_token_file w with
  | Some p => Some p
  | None =>
      match env_var env (access_token_file_env w) with
      | Some p => if is_empty (trim p) then None else Some (as_bytes p)
      | None => None
      end
  end.

(** ** Whole-configuration checks *)

Definition validate_room_ids (cfg : BotConfig) : result ConfigError unit :=
  match first_duplicate str_eqb [] (map rp_room_id (rooms cfg)) with
  | Some id => Err (DuplicateRoomId id)
  | None => Ok tt
  end.

Definition validate_config_commands_room (cfg : BotConfig) (cc : ConfigCommandsConfig) : result ConfigError unit :=
  try_each (fun p =>
    fail_if (str_eqb (rp_room_id p) (ConfigCommands.room_id cc)) (CommandsRoomIsRoom (rp_room_id p)) ;?
    fail_if (bool_decide (output_room_id p = Some (ConfigCommands.room_id cc)))
      (CommandsRoomIsOutput (ConfigCommands.room_id cc))) (rooms cfg).

Definition validate_config_commands (cfg : BotConfig) : result ConfigError unit :=
  match config_commands cfg with
  | Some cc =>
      map_err InvalidConfigCommands (validate cc) ;?
      validate_config_commands_room cfg cc ;?
      fail_if (command_allowed cc Pull && negb (all_codex_configs_use_ephemeral_linux_user cfg)) PullRequiresEphemeral
  | None => Ok tt
  end.

Definition validate_isolation_mix (cfg : BotConfig) : result ConfigError unit :=
  if uses_ephemeral_linux_user cfg then
    match List.find (fun nc => negb (is_ephemeral (mode (isolation nc.2)))) (codex_configs cfg) with
    | Some (name, _) => Err (MixedIsolation name)
    | None => fail_if (LAUNCHER_MAX_CONNECTIONS <? max_concurrent_requests (server cfg)) TooManyConcurrentRequests
    end
  else Ok tt.

Definition minimum_lease (c : CodexConfig) (jenkins_prefetch_secs webex_requests : N) : N :=
  let isolation_overhead := if is_ephemeral (mode (isolation c)) then EPHEMERAL_RUNNER_WALL_OVERHEAD_SECONDS else 0 in
  sat_add (sat_add (sat_add (sat_add (cx_timeout_secs c) isolation_overhead) jenkins_prefetch_secs)
             EVENT_HYDRATION_NOT_FOUND_RETRY_SECS)
    (sat_mul WEBEX_REQUEST_TIMEOUT_SECS webex_requests).

Definition validate_attempt_lease_for (cfg : BotConfig) (name : str) (c : CodexConfig)
  (jenkins_prefetch_secs webex_requests : N) : result ConfigError unit :=
  fail_if (attempt_lease_secs (server cfg) <=? minimum_lease c jenkins_prefetch_secs webex_requests) (LeaseTooShort name).

Definition jenkins_prefetch_secs (p : RoomPolicy) : N :=
  match jenkins_context p with
  | Some j => if jk_enabled j then max_prefetch_secs j else 0
  | None => 0
  end.

Definition validate_attempt_lease (cfg : BotConfig) : result ConfigError unit :=
  validate_attempt_lease_for cfg (lit "global codex") (codex cfg) 0 WEBEX_REQUESTS_PER_ATTEMPT ;?
  try_each (fun p =>
    let webex_requests := webex_requests_per_attempt p in
    if bool_decide (is_Some (rp_codex p)) || (0 <? jenkins_prefetch_secs p) || (WEBEX_REQUESTS_PER_ATTEMPT <? webex_requests)
    then validate_attempt_lease_for cfg (lit "room " ++ rp_room_id p) (codex_for_policy cfg p)
           (jenkins_prefetch_secs p) webex_requests
    else Ok tt) (rooms cfg).

Definition validate_secret_boundaries (env : Env) (cfg : BotConfig) : result ConfigError unit :=
  match runtime_access_token_file env (webex cfg) with
  | Some token_file =>
      try_each (fun nc => fail_if (path_is_inside (path_env env) token_file (cwd nc.2)) (TokenInsideCwd nc.1))
        (codex_configs cfg)
  | None => Ok tt
  end ;?
  try_each (fun nc => fail_if (path_is_inside (path_env env) (codex_home nc.2) (cwd nc.2)
                               || path_is_inside (path_env env) (cwd nc.2) (codex_home nc.2)) (HomeOverlapsCwd nc.1))
    (codex_configs cfg) ;?
  try_each (fun p =>
    match jenkins_context p with
    | Some j =>
        if jk_enabled j then
          let c := codex_for_policy cfg p in
          fail_if (path_is_inside (path_env env) (script j) (cwd c)) (JenkinsScriptInsideCwd (rp_room_id p)) ;?
          fail_if (path_is_inside (path_env env) (env_file j) (cwd c)) (JenkinsEnvInsideCwd (rp_room_id p))
        else Ok tt
    | None => Ok tt
    end) (rooms cfg).

Definition validate_config (env : Env) (cfg : BotConfig) : result ConfigError unit :=
  validate_http_path (lit "server.event_path") (event_path (server cfg)) ;?
  validate_http_path (lit "server.health_path") (health_path (server cfg)) ;?
  validate_server (server cfg) ;?
  fail_if (str_eqb (event_path (server cfg)) (health_path (server cfg))) SameHttpPaths ;?
  fail_if (is_empty (rooms cfg)) NoRooms ;?
  fail_if (is_some_and (self_person_id cfg) (fun id => is_empty (trim id))) EmptySelfPersonId ;?
  validate_room_ids cfg ;?
  try_each (fun p => map_err (InvalidRoom (rp_room_id p)) (validate_room p)) (rooms cfg) ;?
  validate_config_commands cfg ;?
  try_each (fun nc => map_err (InvalidCodex nc.1) (validate_codex nc.2)) (codex_configs cfg) ;?
  validate_isolation_mix cfg ;?
  validate_attempt_lease cfg ;?
  validate_secret_boundaries env cfg.

(** ** Specifications *)

(** Pages of 100 that hold [n] items. *)
Definition pages (n : N) : N := (n + 99) / 100.

(** The wall-clock seconds one attempt for room [p] may take, in unbounded arithmetic:
    the Codex timeout, the launcher's overhead when isolated, the Jenkins prefetch, the
    hydration retry and 30 seconds for every Webex request of the attempt. *)
Definition attempt_budget (cfg : BotConfig) (p : RoomPolicy) : N :=
  let c := codex_for_policy cfg p in
  cx_timeout_secs c
  + (if is_ephemeral (mode (isolation c)) then EPHEMERAL_RUNNER_WALL_OVERHEAD_SECONDS else 0)
  + match jenkins_context p with
    | Some j => if jk_enabled j then N.max (jk_timeout_secs j) 1 * max_urls j else 0
    | None => 0
    end
  + 5
  + 30 * (9 + match output_room_id p with Some _ => 7 | None => 0 end
          + (if fu_enabled (followup p)
             then 3 + pages (N.max (max_thread_messages (followup p)) 100)
                    + pages (N.max (max_thread_messages (followup p)) 300)
             else 0)).

(** The Codex configurations a message can be run with: the global one and each room's. *)
Definition effective_codex (cfg : BotConfig) (c : CodexConfig) : Prop :=
  c = codex cfg \/ exists p, p ∈ rooms cfg /\ c = codex_for_policy cfg p.

(** ** Lemmas *)

Lemma effective_in_codex_configs cfg c :
  effective_codex cfg c <-> exists name, (name, c) ∈ codex_configs cfg.
Proof.
  unfold codex_configs, effective_codex. split.
  - intros [->|(p & Hp & ->)]; [eexists; apply elem_of_cons; by left|].
    destruct (rp_codex p) as [patch|] eqn:E.
    + exists (lit "room " ++ rp_room_id p). apply elem_of_cons. right. apply list_elem_of_In, in_concat.
      eexists. split; [apply in_map_iff; exists p; split; [done|by apply list_elem_of_In]|]. rewrite E. by left.
    + unfold codex_for_policy. rewrite E. eexists. apply elem_of_cons. by left.
  - intros (nm & [Heq|Hin]%elem_of_cons); [left; by simplify_eq|]. right.
    apply list_elem_of_In, in_concat in Hin as (l & (p & <- & Hp)%in_map_iff & Hin).
    exists p. split; [by apply list_elem_of_In|]. destruct (rp_codex p); [|done].
    destruct Hin as [Hin|[]]. by simplify_eq.
Qed.

Lemma codex_configs_effective cfg nc : nc ∈ codex_configs cfg -> effective_codex cfg nc.2.
Proof. intros H. apply effective_in_codex_configs. exists nc.1. by destruct nc. Qed.

Lemma effective_Forall cfg (P : CodexConfig -> Prop) :
  Forall (fun nc : str * CodexConfig => P nc.2) (codex_configs cfg) <-> (forall c, effective_codex cfg c -> P c).
Proof.
  rewrite Forall_forall. split.
  - intros H c (nm & Hc)%effective_in_codex_configs. by apply (H (nm, c)).
  - intros H nc Hnc. by apply H, codex_configs_effective.
Qed.

Lemma effective_global cfg : effective_codex cfg (codex cfg).
Proof. by left. Qed.

Lemma effective_room cfg p : p ∈ rooms cfg -> effective_codex cfg (codex_for_policy cfg p).
Proof. intros H. right. eauto. Qed.

Create HintDb config.
#[export] Hint Resolve effective_global effective_room : config.

(** The steps of a successful validation. *)
Lemma validate_config_steps env cfg :
  validate_config env cfg = Ok tt ->
  validate_server (server cfg) = Ok tt
  /\ rooms cfg <> []
  /\ validate_room_ids cfg = Ok tt
  /\ Forall (fun p => validate_room p = Ok tt) (rooms cfg)
  /\ validate_config_commands cfg = Ok tt
  /\ (forall c, effective_codex cfg c -> validate_codex c = Ok tt)
  /\ validate_isolation_mix cfg = Ok tt
  /\ validate_attempt_lease cfg = Ok tt
  /\ validate_secret_boundaries env cfg = Ok tt.
Proof.
  unfold validate_config. rewrite !then_ok, !fail_if_ok, !try_each_ok, is_empty_false.
  intros (_ & _ & Hs & _ & Hr & _ & Hi & Hrooms & Hcc & Hcx & Hmix & Hl & Hsec).
  setoid_rewrite map_err_ok in Hrooms. setoid_rewrite map_err_ok in Hcx.
  pose proof (proj1 (effective_Forall cfg (fun c => validate_codex c = Ok tt)) Hcx). repeat split; done.
Qed.

Lemma validate_room_ids_ok cfg : validate_room_ids cfg = Ok tt <-> NoDup (map rp_room_id (rooms cfg)).
Proof.
  unfold validate_room_ids.
  pose proof (first_duplicate_none str_eqb str_eqb_eq [] (map rp_room_id (rooms cfg))) as H.
  destruct (first_duplicate _ _ _).
  - split; [done|]. intros Hd. assert (Some l = None) as [=]. apply H. split; [done|]. intros ? _. apply not_elem_of_nil.
  - split; [|done]. intros _. by apply H.
Qed.

Lemma policy_for_room_some cfg id p :
  policy_for_room cfg id = Some p -> p ∈ rooms cfg /\ rp_room_id p = id.
Proof. intros [Hin Heq]%find_some. split; [by apply list_elem_of_In|by apply str_eqb_eq]. Qed.

Lemma policy_for_room_in cfg p :
  NoDup (map rp_room_id (rooms cfg)) -> p ∈ rooms cfg -> policy_for_room cfg (rp_room_id p) = Some p.
Proof.
  unfold policy_for_room. induction (rooms cfg) as [|q l IH]; intros Hd Hp; [by apply not_elem_of_nil in Hp|].
  cbn in *. apply NoDup_cons in Hd as [Hn Hd]. apply elem_of_cons in Hp as [<-|Hp]; [by rewrite str_eqb_refl|].
  destruct (str_eqb _ _) eqn:E; [|by apply IH]. apply str_eqb_eq in E. exfalso. apply Hn.
  rewrite E. apply elem_of_map. eauto.
Qed.

Lemma is_ephemeral_false m : is_ephemeral m = false <-> m = CurrentUser.
Proof. unfold is_ephemeral. rewrite bool_decide_eq_false. by destruct m. Qed.

Lemma is_ephemeral_true m : is_ephemeral m = true <-> m = EphemeralLinuxUser.
Proof. apply bool_decide_eq_true. Qed.

(** Validation leaves one isolation mode for every effective configuration. *)
Lemma validate_isolation_mix_ok cfg :
  validate_isolation_mix cfg = Ok tt ->
  (forall c, effective_codex cfg c -> mode (isolation c) = CurrentUser)
  \/ ((forall c, effective_codex cfg c -> mode (isolation c) = EphemeralLinuxUser)
      /\ max_concurrent_requests (server cfg) <= LAUNCHER_MAX_CONNECTIONS).
Proof.
  unfold validate_isolation_mix, uses_ephemeral_linux_user. destruct (any _ _) eqn:E.
  - destruct (List.find _ _) as [[]|] eqn:F; [done|]. intros H%fail_if_ok. right.
    rewrite find_none in F. split; [|by apply N.ltb_ge]. intros c (nm & Hc)%effective_in_codex_configs.
    apply is_ephemeral_true. specialize (F _ Hc). by apply negb_false_iff in F.
  - intros _. left. rewrite any_false in E. intros c (nm & Hc)%effective_in_codex_configs.
    apply is_ephemeral_false. exact (E _ Hc).
Qed.

Lemma validate_codex_ephemeral c :
  validate_codex c = Ok tt -> mode (isolation c) = EphemeralLinuxUser ->
  trusted_prompt_authors (isolation c) = false /\ cx_model c = Some (lit "gpt-5.5") /\ profile c = None
  /\ ephemeral c = true /\ 1 <= cx_timeout_secs c <= TIMEOUT_SECONDS_MAX
  /\ 1 <= cx_output_limit_chars c <= OUTPUT_CHAR_LIMIT_MAX.
Proof.
  unfold validate_codex. intros H Hm. rewrite (proj2 (is_ephemeral_true _)) in H by done.
  unfold validate_isolation in H. rewrite Hm in H. destruct (trusted_prompt_authors _); [ok_inv; done|].
  ok_inv. bool_inv. rewrite bool_decide_eq_true in *. rewrite bool_decide_eq_false in *.
  repeat split; try (done || lia). destruct (profile c); [|done]. exfalso. eauto.
Qed.

Lemma validate_codex_sandboxed c :
  validate_codex c = Ok tt -> sandbox c = lit "read-only" /\ approval_policy c = lit "never" /\ 1 <= cx_timeout_secs c.
Proof.
  unfold validate_codex. intros H. ok_inv. bool_inv. rewrite !str_eqb_eq in *. repeat split; (done || lia).
Qed.

Lemma validate_codex_current_user c :
  validate_codex c = Ok tt -> mode (isolation c) = CurrentUser -> trusted_prompt_authors (isolation c) = true.
Proof.
  unfold validate_codex, validate_isolation. intros H Hm. rewrite Hm in H.
  destruct (trusted_prompt_authors _); [done|]. by ok_inv.
Qed.

(** ** Lemmas: the lease *)

Lemma page_count_exact n : n + 99 <= u64_max -> page_count n = pages n.
Proof. intros H. unfold page_count, pages. rewrite sat_add_exact; [done|exact H]. Qed.

Lemma webex_requests_ge p : WEBEX_REQUESTS_PER_ATTEMPT <= webex_requests_per_attempt p.
Proof.
  unfold webex_requests_per_attempt, sat_add, WEBEX_REQUESTS_PER_ATTEMPT, u64_max,
    DIRECT_NON_PAGED_WEBEX_REQUESTS_PER_ATTEMPT, DIRECT_REPLY_MARKER_SEARCH_MAX_PAGES,
    STAGING_WEBEX_REQUESTS_PER_ATTEMPT, STAGING_SOURCE_MARKER_SEARCH_PAGES.
  destruct (output_room_id p), (fu_enabled (followup p)); lia.
Qed.

(** The lease check holds for every room, also for those the loop skips. *)
Lemma validate_attempt_lease_room cfg p :
  validate_attempt_lease cfg = Ok tt -> p ∈ rooms cfg ->
  minimum_lease (codex_for_policy cfg p) (jenkins_prefetch_secs p) (webex_requests_per_attempt p)
  < attempt_lease_secs (server cfg).
Proof.
  unfold validate_attempt_lease, validate_attempt_lease_for. rewrite then_ok, fail_if_ok, try_each_ok.
  intros [Hg Hr] Hp. rewrite Forall_forall in Hr. specialize (Hr p Hp). cbv zeta in Hr.
  destruct (_ || _) eqn:E; [apply fail_if_ok in Hr; lia|].
  apply orb_false_iff in E as [[Hc Hj]%orb_false_iff Hw]. apply bool_decide_eq_false in Hc.
  assert (rp_codex p = None) as Hn by (destruct (rp_codex p); [exfalso; eauto|done]).
  unfold codex_for_policy. rewrite Hn. pose proof (webex_requests_ge p).
  replace (jenkins_prefetch_secs p) with 0 by lia.
  replace (webex_requests_per_attempt p) with WEBEX_REQUESTS_PER_ATTEMPT by lia. lia.
Qed.

Lemma minimum_lease_exact c j w lease :
  minimum_lease c j w < lease -> lease <= u64_max ->
  cx_timeout_secs c + (if is_ephemeral (mode (isolation c)) then EPHEMERAL_RUNNER_WALL_OVERHEAD_SECONDS else 0)
  + j + 5 + 30 * w < lease.
Proof.
  unfold minimum_lease, sat_add, sat_mul, EVENT_HYDRATION_NOT_FOUND_RETRY_SECS, WEBEX_REQUEST_TIMEOUT_SECS.
  destruct (is_ephemeral _); cbv zeta; lia.
Qed.

Lemma attempt_budget_bound cfg p lease :
  minimum_lease (codex_for_policy cfg p) (jenkins_prefetch_secs p) (webex_requests_per_attempt p) < lease ->
  lease <= u64_max -> max_thread_messages (followup p) + 99 <= u64_max ->
  attempt_budget cfg p < lease.
Proof.
  intros Hm Hl Ht. apply minimum_lease_exact in Hm; [|done]. unfold attempt_budget. cbv zeta.
  assert (match jenkins_context p with
          | Some j => if jk_enabled j then N.max (jk_timeout_secs j) 1 * max_urls j else 0
          | None => 0 end = jenkins_prefetch_secs p) as ->.
  { unfold jenkins_prefetch_secs, max_prefetch_secs, sat_mul in *.
    destruct (jenkins_context p) as [j|]; [|done]. destruct (jk_enabled j); [|done]. lia. }
  revert Hm. unfold webex_requests_per_attempt, followup_webex_requests_per_attempt,
    followup_reply_marker_search_max_pages, webex_page_requests, WEBEX_REQUESTS_PER_ATTEMPT,
    DIRECT_NON_PAGED_WEBEX_REQUESTS_PER_ATTEMPT, DIRECT_REPLY_MARKER_SEARCH_MAX_PAGES,
    STAGING_WEBEX_REQUESTS_PER_ATTEMPT, STAGING_SOURCE_MARKER_SEARCH_PAGES,
    FOLLOWUP_MARKER_SEARCH_MAX_MESSAGES, FOLLOWUP_REPLY_MARKER_SEARCH_MIN_MESSAGES, WEBEX_LIST_PAGE_SIZE,
    FOLLOWUP_NON_PAGED_WEBEX_REQUESTS_PER_ATTEMPT.
  cbv zeta. rewrite !page_count_exact by (unfold u64_max in *; lia).
  set (a := pages _). set (b := pages _). unfold sat_add, u64_max in *. clearbody a b.
  destruct (output_room_id p), (fu_enabled (followup p)); lia.
Qed.

(** ** Sample values for the witnesses *)

Definition sample_env : Env := mkEnv (mkPathEnv (Some (lit "/srv/bot")) (fun _ => None)) (fun _ => None).

Definition sample_isolated_codex : CodexConfig :=
  mkCodexConfig (lit "codex") (lit "workspaces/main") (lit "/var/lib/bot/codex-home") None (Some (lit "gpt-5.5"))
    (Some (lit "high")) (lit "read-only") (lit "never") 600 6000 true true (mkIsolationConfig EphemeralLinuxUser false).

Definition sample_jenkins : JenkinsContextConfig :=
  mkJenkinsContextConfig true (lit "node") (lit "/opt/bot/scripts/jenkins-readonly.mjs") (lit "/etc/bot/jenkins.env") 30 3 12000.

Definition sample_room : RoomPolicy :=
  mkRoomPolicy (lit "source-room") None (Some (lit "output-room")) true true (Some sample_jenkins)
    (mkFollowupConfig true [FollowupMention] true [] [] 30 12000 None (lit "answer {body}"))
    JenkinsDiagnosisJson Always [] true [] [] (lit "diagnose {body}")
    (Some (mkCodexConfigPatch None (Some (lit "workspaces/jenkins")) None None None None None None (Some 900) None None None None)).

Definition sample_bot : BotConfig :=
  mkBotConfig
    (mkServerConfig (lit "127.0.0.1:8787") (lit "/webex/events") (lit "/healthz") (lit "WEBEX_SIDECAR_TOKEN") false 4 4600)
    (mkWebexAuthConfig (lit "WEBEX_ACCESS_TOKEN") (lit "WEBEX_ACCESS_TOKEN_FILE") (Some (lit "/var/lib/bot/token")))
    (lit "state.jsonl") (Some (lit "bot-person")) sample_isolated_codex [sample_room] (Some sample_config).

(** ** Properties *)

(** C11: in a validated configuration every Codex run, whatever room triggers it, is
    sandboxed read-only and never asks for approval, and there is one isolation mode: either
    all runs are as the current user with trusted prompt authors and [/config pull] is
    disabled, or all runs are as an ephemeral user with untrusted authors, the fixed model
    and the launcher's limits on time, output and connections. *)
Theorem config_isolation_uniform (env : Env) (cfg : BotConfig) :
  validate_config env cfg = Ok tt ->
  (forall c, effective_codex cfg c -> sandbox c = lit "read-only" /\ approval_policy c = lit "never") /\
  (((forall c, effective_codex cfg c -> mode (isolation c) = CurrentUser /\ trusted_prompt_authors (isolation c) = true)
    /\ (forall cc, config_commands cfg = Some cc -> command_allowed cc Pull = false))
   \/
   ((forall c, effective_codex cfg c ->
       mode (isolation c) = EphemeralLinuxUser /\ trusted_prompt_authors (isolation c) = false
       /\ cx_model c = Some (lit "gpt-5.5") /\ profile c = None /\ ephemeral c = true
       /\ 1 <= cx_timeout_secs c <= TIMEOUT_SECONDS_MAX /\ 1 <= cx_output_limit_chars c <= OUTPUT_CHAR_LIMIT_MAX)
    /\ max_concurrent_requests (server cfg) <= LAUNCHER_MAX_CONNECTIONS)).
Proof.
  intros (_ & _ & _ & _ & Hcc & Hcx & Hmix & _ & _)%validate_config_steps. split.
  { intros c Hc. destruct (validate_codex_sandboxed c (Hcx c Hc)) as (? & ? & ?). done. }
  apply validate_isolation_mix_ok in Hmix as [Hall|[Hall Hn]]; [left|right]; (split; [|try done]).
  - intros c Hc. split; [by apply Hall|]. apply validate_codex_current_user; auto.
  - intros cc E. unfold validate_config_commands in Hcc. rewrite E, !then_ok, fail_if_ok in Hcc.
    destruct Hcc as (_ & _ & Hp). destruct (command_allowed cc Pull); [|done]. exfalso.
    apply negb_false_iff in Hp. unfold all_codex_configs_use_ephemeral_linux_user in Hp.
    apply all_true in Hp. inversion Hp as [|x l Hx]; subst. apply is_ephemeral_true in Hx. cbn in Hx.
    rewrite Hall in Hx; [done|auto with config].
  - intros c Hc. split; [by apply Hall|]. apply validate_codex_ephemeral; auto.
Qed.

Lemma config_isolation_uniform_witness :
  validate_config sample_env sample_bot = Ok tt /\ sandbox (codex_for_policy sample_bot sample_room) = lit "read-only".
Proof.
  split; [by vm_compute|].
  apply (proj1 (config_isolation_uniform sample_env sample_bot ltac:(by vm_compute))).
  right. exists sample_room. split; [apply elem_of_cons; by left|done].
Defined.



(** The two readings of "not inside": by name after lexical normalisation, and after
    resolving links, whenever both paths can be resolved. *)
Definition outside (env : Env) (p root : path) : Prop :=
  (forall k, absolute_lexical (path_env env) p <> absolute_lexical (path_env env) root ++ k) /\
  (forall p' root', canonicalize (path_env env) p = Some p' -> canonicalize (path_env env) root = Some root' ->
     forall k, components p' <> components root' ++ k).



(** message routing in a validated configuration is unambiguous: the policy of a room
    is the one policy with that room ID, a read-only source room always has a different
    output room to reply in, and the administration room is neither a policy's room nor an
    output room, so no message of it is ever handled by a room or follow-up policy. *)
Theorem config_routing_unambiguous (env : Env) (cfg : BotConfig) :
  validate_config env cfg = Ok tt ->
  (forall id p, policy_for_room cfg id = Some p <-> p ∈ rooms cfg /\ rp_room_id p = id) /\
  (forall p, p ∈ rooms cfg -> output_room_id p <> Some (rp_room_id p)
     /\ (read_only_source p = true -> exists o, output_room_id p = Some o /\ o <> rp_room_id p)) /\
  (forall cc, config_commands cfg = Some cc ->
     policy_for_room cfg (ConfigCommands.room_id cc) = None
     /\ followup_policies_for_event_room cfg (ConfigCommands.room_id cc) = []
     /\ room_is_read_only_source cfg (ConfigCommands.room_id cc) = false).
Proof.
  intros (_ & _ & Hids & Hrooms & Hcc & _)%validate_config_steps. apply validate_room_ids_ok in Hids.
  split; [|split].
  - intros id p. split; [apply policy_for_room_some|]. intros [Hp <-]. by apply policy_for_room_in.
  - intros p Hp. rewrite Forall_forall in Hrooms. specialize (Hrooms p Hp). cbv beta in Hrooms.
    unfold validate_room, validate_output_room in Hrooms. rewrite !then_ok, !fail_if_ok in Hrooms.
    destruct Hrooms as (_ & Ho & Hro & _). destruct (output_room_id p) as [o|].
    + rewrite !then_ok, !fail_if_ok in Ho. destruct Ho as (_ & Hne & _). apply str_eqb_neq in Hne.
      split; [congruence|]. intros _. by exists o.
    + split; [done|]. intros Hr. rewrite Hr in Hro. done.
  - intros cc E. unfold validate_config_commands in Hcc. rewrite E, !then_ok in Hcc. destruct Hcc as (_ & Hr & _).
    unfold validate_config_commands_room in Hr. rewrite try_each_ok, Forall_forall in Hr.
    setoid_rewrite then_ok in Hr. setoid_rewrite fail_if_ok in Hr. split; [|split].
    + destruct (policy_for_room _ _) as [p|] eqn:Ep; [|done]. apply policy_for_room_some in Ep as [Hp Heq].
      destruct (Hr p Hp) as [Hne _]. by apply str_eqb_neq in Hne.
    + unfold followup_policies_for_event_room. destruct (List.filter _ _) as [|p l] eqn:Ef; [done|].
      assert (In p (p :: l)) as Hin by by left. rewrite <-Ef in Hin. apply filter_In in Hin as [Hp Hf].
      apply list_elem_of_In in Hp. destruct (Hr p Hp) as [H1 H2]. rewrite H1, H2, andb_false_r in Hf. done.
    + unfold room_is_read_only_source. apply any_false. intros p Hp. destruct (Hr p Hp) as [H1 _].
      by rewrite H1, andb_false_r.
Qed.

Lemma config_routing_unambiguous_witness : policy_for_room sample_bot (lit "source-room") = Some sample_room.
Proof.
  apply (proj1 (config_routing_unambiguous sample_env sample_bot ltac:(by vm_compute))).
  split; [apply elem_of_cons; by left|reflexivity].
Defined.
