(* ===== verification/Webex.v ===== *)
(** * Webex data

    The records of [webex-headless-messenger] and [serde_json] the bot reads and writes,
    with the fields the sources use. How a timestamp is printed and turned into
    milliseconds is the [chrono] crate's and stays abstract. *)

From S2P Require Import Prelude Text.

(** [types::Message]. [created] is an instant; only its order matters here. *)
Record Message : Type := mkMessage {
  id : option str;
  room_id : option str;
  parent_id : option str;
  person_id : option str;
  person_email : option str;
  text : option str;
  markdown : option str;
  html : option str;
  mentioned_people : list str;
  created : option Z
}.

#[export] Instance Message_eq_dec : EqDecision Message.
Proof. solve_decision. Defined.

Definition empty_message : Message := mkMessage None None None None None None None None [] None.

(** [types::CreateMessage]: the fields the bot fills in. *)
Record CreateMessage : Type := mkCreateMessage {
  cm_room_id : option str;
  cm_parent_id : option str;
  cm_markdown : option str
}.

#[export] Instance CreateMessage_eq_dec : EqDecision CreateMessage.
Proof. solve_decision. Defined.

(** [serde_json::Value]. *)
Inductive Json : Type :=
| JNull
| JBool (b : bool)
| JNumber (text : str)
| JString (s : str)
| JArray (elements : list Json)
| JObject (fields : list (str * Json)).

#[export] Instance Json_eq_dec : EqDecision Json.
Proof.
  refine (fix go (a b : Json) : Decision (a = b) :=
    match a, b with
    | JNull, JNull => left eq_refl
    | JBool x, JBool y => cast_if (decide (x = y))
    | JNumber x, JNumber y => cast_if (decide (x = y))
    | JString x, JString y => cast_if (decide (x = y))
    | JArray x, JArray y => cast_if (List.list_eq_dec go x y)
    | JObject x, JObject y =>
        cast_if (List.list_eq_dec (fun p q : str * Json =>
                   match p, q with
                   | (k, v), (k', v') =>
                       match decide (k = k'), go v v' with
                       | left _, left _ => left _
                       | right _, _ => right _
                       | _, right _ => right _
                       end
                   end) x y)
    | _, _ => right _
    end); try clear go; congruence.
Defined.

(** [value.get(key)] and [as_str()]. *)
Definition json_get (key : str) (v : Json) : option Json :=
  match v with
  | JObject fields => snd <$> List.find (fun kv => str_eqb (fst kv) key) fields
  | _ => None
  end.

Definition json_as_str (v : Json) : option str :=
  match v with
  | JString s => Some s
  | _ => None
  end.

(** [serde_json::from_str], up to the target type: the fields of an object come in the
    order of the text, repetitions included. *)
Class JsonText : Type := parse_json : str -> option Json.

(** Deserialising a struct: the field with one of the given names (its own and its
    aliases); two of them are an error. *)
Definition unique_field (names : list str) (fields : list (str * Json)) : option (option Json) :=
  match List.filter (fun kv => any (str_eqb (fst kv)) names) fields with
  | [] => Some None
  | [kv] => Some (Some (snd kv))
  | _ => None
  end.

(** [#[serde(default)] field: String], [Option<String>] and [bool]. *)
Definition string_field (o : option Json) : option str :=
  match o with
  | None => Some []
  | Some (JString s) => Some s
  | Some _ => None
  end.

Definition opt_string_field (o : option Json) : option (option str) :=
  match o with
  | None | Some JNull => Some None
  | Some (JString s) => Some (Some s)
  | Some _ => None
  end.

Definition bool_field (o : option Json) : option bool :=
  match o with
  | None => Some false
  | Some (JBool b) => Some b
  | Some _ => None
  end.

(** [SidecarEvent]. *)
Record SidecarEvent : Type := mkSidecarEvent {
  version : N;
  resource : str;
  event : str;
  received_at : option str;
  data : Json
}.

#[export] Instance SidecarEvent_eq_dec : EqDecision SidecarEvent.
Proof. solve_decision. Defined.

(** What [chrono] provides on the instants of messages. *)
Class DateTimeOps : Type := {
  timestamp_millis : Z -> Z;
  to_rfc3339 : Z -> str
}.

(** The order of [Option<DateTime>]: no date sorts first. *)
Definition created_leb (a b : option Z) : bool :=
  match a, b with
  | None, _ => true
  | Some _, None => false
  | Some x, Some y => (x <=? y)%Z
  end.

Lemma created_leb_total a b : created_leb a b = true \/ created_leb b a = true.
Proof. destruct a, b; cbn; auto. lia. Qed.

Lemma created_leb_trans a b c : created_leb a b = true -> created_leb b c = true -> created_leb a c = true.
Proof. destruct a, b, c; cbn; try done. lia. Qed.
