(* ===== verification/Serde.v ===== *)
(** * JSON and derived deserialisers

    [serde_json] as an interface (text to value and back), and what [#[derive(Deserialize)]]
    generates for a struct with required fields and [deny_unknown_fields]: it reads an object,
    whose keys are the field names in any order and without repetition, or an array with the
    fields in the order of their declaration. *)

From S2P Require Import Prelude Text Digest Webex.

Local Open Scope N_scope.

(** ** Numbers *)

(** A number as [u16], [u32] or [u64], by the type's greatest value. *)
Definition json_unsigned (max : N) (v : Json) : option N :=
  match v with
  | JNumber s => unsigned_text max s
  | _ => None
  end.

(** A number as [i32]: [-0] is a floating-point number to [serde_json]. *)
Definition json_i32 (v : Json) : option Z :=
  match v with
  | JNumber s =>
      match strip_prefix (lit "-") s with
      | Some digits =>
          n ← unsigned_text 2147483648 digits; if n =? 0 then None else Some (- Z.of_N n)%Z
      | None => Z.of_N <$> unsigned_text 2147483647 s
      end
  | _ => None
  end.

Definition json_string (v : Json) : option str := json_as_str v.

Definition json_bool (v : Json) : option bool :=
  match v with
  | JBool b => Some b
  | _ => None
  end.

(** ** Structs *)

Definition known_fields (names : list str) (fields : list (str * Json)) : bool :=
  all (fun kv => any (str_eqb (fst kv)) names) fields.

Definition required_field (fields : list (str * Json)) (name : str) : option Json :=
  unique_field [name] fields ≫= fun o => o.

Definition struct_fields (names : list str) (v : Json) : option (list Json) :=
  match v with
  | JObject fields => if known_fields names fields then mapM (required_field fields) names else None
  | JArray elements => if (length elements =? length names)%nat then Some elements else None
  | _ => None
  end.

(** What [#[derive(Serialize)]] writes: an object in the order of the fields. *)
Definition struct_json (names : list str) (values : list Json) : Json := JObject (zip names values).

(** ** Text *)

Class JsonPrint : Type := print_json : Json -> str.

(** Nesting of arrays and objects; [serde_json] reads fewer than 128 levels. *)
Fixpoint json_depth (v : Json) : nat :=
  match v with
  | JArray elements => S (foldr (fun e n => Nat.max (json_depth e) n) 0%nat elements)
  | JObject fields => S (foldr (fun kv n => Nat.max (json_depth (snd kv)) n) 0%nat fields)
  | _ => 0%nat
  end.

(** Values a program can hold: strings of scalar values, and unsigned integers. *)
Fixpoint json_ok (v : Json) : bool :=
  match v with
  | JNull | JBool _ => true
  | JNumber s => is_some_and (unsigned_text u64_max s) (fun n => str_eqb s (decimal n))
  | JString s => all is_scalar s
  | JArray elements => all json_ok elements
  | JObject fields => all (fun kv => all is_scalar (fst kv) && json_ok (snd kv)) fields
  end.

(** [serde_json::to_string] writes one line that [from_str] reads back. *)
Class JsonLaws `{JsonText} `{JsonPrint} : Prop := {
  parse_print : forall v, json_ok v = true -> (json_depth v < 128)%nat -> parse_json (print_json v) = Some v;
  print_scalar : forall v, json_ok v = true -> Forall (fun c => is_scalar c = true) (print_json v);
  print_one_line : forall v, json_ok v = true -> Forall (fun c => 32 <= c) (print_json v)
}.

(** [serde_json::to_vec] and [from_slice]. *)
Definition json_to_vec `{JsonPrint} (v : Json) : list N := as_bytes (print_json v).

Definition json_from_slice `{JsonText} (bytes : list N) : option Json := from_utf8 bytes ≫= parse_json.

(** ** Lemmas *)

(** Induction on a value with the hypothesis for the elements and fields. *)
Section json_induction.
Context (P : Json -> Prop).
Hypothesis P_null : P JNull.
Hypothesis P_bool : forall b, P (JBool b).
Hypothesis P_number : forall s, P (JNumber s).
Hypothesis P_string : forall s, P (JString s).
Hypothesis P_array : forall es, Forall P es -> P (JArray es).
Hypothesis P_object : forall fs, Forall (fun kv => P (snd kv)) fs -> P (JObject fs).

Fixpoint json_induction (v : Json) : P v :=
  match v with
  | JNull => P_null
  | JBool b => P_bool b
  | JNumber s => P_number s
  | JString s => P_string s
  | JArray es =>
      P_array es ((fix go l : Forall P l :=
        match l with
        | [] => Forall_nil_2 P
        | e :: l' => Forall_cons_2 P e l' (json_induction e) (go l')
        end) es)
  | JObject fs =>
      P_object fs ((fix go l : Forall (fun kv => P (snd kv)) l :=
        match l with
        | [] => Forall_nil_2 _
        | kv :: l' => Forall_cons_2 _ kv l' (json_induction (snd kv)) (go l')
        end) fs)
  end.
End json_induction.

Lemma json_slice_round_trip `{JsonLaws} v :
  json_ok v = true -> (json_depth v < 128)%nat -> json_from_slice (json_to_vec v) = Some v.
Proof.
  intros Hv Hd. unfold json_from_slice, json_to_vec.
  rewrite from_utf8_as_bytes by (by apply print_scalar). by apply parse_print.
Qed.

Lemma utf8_char_ge k c : k <= 128 -> k <= c -> is_scalar c = true -> Forall (fun b => k <= b) (utf8_char c).
Proof.
  intros Hk Hc Hs. unfold utf8_char, is_scalar in *.
  repeat case_match; repeat constructor; lia.
Qed.

Lemma json_to_vec_one_line `{JsonLaws} v : json_ok v = true -> Forall (fun b => 32 <= b) (json_to_vec v).
Proof.
  intros Hv. pose proof (print_scalar v Hv) as Hs. pose proof (print_one_line v Hv) as Hl.
  unfold json_to_vec, as_bytes. induction (print_json v) as [|c s IH]; cbn; [constructor|].
  inversion Hs; inversion Hl; subst. apply Forall_app_2; [by apply utf8_char_ge|auto].
Qed.

Lemma json_unsigned_decimal max n : n <= max -> json_unsigned max (JNumber (decimal n)) = Some n.
Proof. apply unsigned_text_decimal. Qed.

Lemma json_ok_decimal n : n <= u64_max -> json_ok (JNumber (decimal n)) = true.
Proof. intros H. cbn [json_ok]. rewrite unsigned_text_decimal by done. apply str_eqb_refl. Qed.

Lemma string_json_ok (s : str) : all is_scalar s = true -> json_ok (JString s) = true.
Proof. done. Qed.

(** A struct's object gives back its values. *)
Lemma any_single (k n : str) : any (str_eqb k) [n] = str_eqb k n.
Proof. unfold any. cbn. apply orb_false_r. Qed.

Lemma filter_key_skip (name k : str) v (fields : list (str * Json)) :
  k <> name -> required_field ((k, v) :: fields) name = required_field fields name.
Proof.
  intros Hn. unfold required_field, unique_field. cbn [List.filter fst].
  by rewrite any_single, (proj2 (str_eqb_neq k name)).
Qed.

Lemma required_field_absent (name : str) (fields : list (str * Json)) :
  name ∉ map fst fields -> List.filter (fun kv => any (str_eqb (fst kv)) [name]) fields = [].
Proof.
  induction fields as [|[k v] fields IH]; [done|]. cbn [map fst List.filter].
  rewrite not_elem_of_cons. intros [Hk Hn].
  rewrite any_single, (proj2 (str_eqb_neq k name)) by congruence. by apply IH.
Qed.

Lemma required_field_head (name : str) v (fields : list (str * Json)) :
  name ∉ map fst fields -> required_field ((name, v) :: fields) name = Some v.
Proof.
  intros Hn. unfold required_field, unique_field. cbn [List.filter fst].
  rewrite any_single, str_eqb_refl. by rewrite required_field_absent.
Qed.

Lemma map_fst_zip {A B} (l : list A) (k : list B) : length l = length k -> map fst (zip l k) = l.
Proof. revert k. induction l as [|x l IH]; intros [|y k]; cbn; try done. intros [= H]. f_equal. by apply IH. Qed.

Lemma mapM_ext_in {A B} (f g : A -> option B) l : (forall x, x ∈ l -> f x = g x) -> mapM f l = mapM g l.
Proof.
  induction l as [|x l IH]; intros H; [done|]. cbn. rewrite (H x) by (by left).
  rewrite IH; [done|]. intros y Hy. apply H. by right.
Qed.

Lemma mapM_required names values :
  NoDup names -> length names = length values -> mapM (required_field (zip names values)) names = Some values.
Proof.
  revert values. induction names as [|n names IH]; intros [|v values] Hnd Hl; try done.
  injection Hl as Hl. apply NoDup_cons in Hnd as [Hn Hnd]. cbn [zip zip_with mapM].
  rewrite required_field_head by (by rewrite map_fst_zip).
  cbn. rewrite (mapM_ext_in _ (required_field (zip names values))).
  - by rewrite IH.
  - intros m Hm. apply filter_key_skip. by intros ->.
Qed.

Lemma struct_fields_json names values :
  NoDup names -> length names = length values -> struct_fields names (struct_json names values) = Some values.
Proof.
  intros Hnd Hl. unfold struct_fields, struct_json.
  assert (known_fields names (zip names values) = true) as ->; [|by apply mapM_required].
  unfold known_fields. apply all_true, Forall_forall. intros [k v] Hk. apply any_true. exists k.
  split; [|apply str_eqb_refl]. by eapply elem_of_zip_l.
Qed.

Lemma struct_json_ok names values :
  all (all is_scalar) names = true -> all json_ok values = true -> json_ok (struct_json names values) = true.
Proof.
  unfold struct_json. cbn [json_ok]. revert values.
  induction names as [|n names IH]; intros [|v values]; try done.
  unfold all in *. cbn [forallb zip zip_with fst snd].
  intros [Hn Hns]%andb_true_iff [Hv Hvs]%andb_true_iff. rewrite Hn, Hv. cbn. by apply IH.
Qed.
