(* ===== verification/Policy.v ===== *)
(** * [src/policy.rs]: when a message triggers a run, and with which prompt *)

From S2P Require Import Prelude Text Config Webex.

Local Open Scope N_scope.

(** ** Data *)

Inductive TriggerDecision : Type :=
| Matched
| RoomDisabled
| SenderNotAllowed
| MissingSelfPersonId
| NotMentioned
| PrefixNotMatched.

Record MessageContext : Type := mkMessageContext {
  mc_message_id : str;
  mc_room_id : str;
  mc_person_id : option str;
  mc_person_email : option str;
  mc_body : str
}.

(** ** Operations *)

Definition message_body (m : Message) : str := default [] (opt_or (text m) (markdown m)).

Definition from_message (m : Message) : option MessageContext :=
  match id m, room_id m with
  | Some message_id, Some rid => Some (mkMessageContext message_id rid (person_id m) (person_email m) (message_body m))
  | _, _ => None
  end.

Definition sender_allowed (p : RoomPolicy) (m : Message) : bool :=
  if allow_all_senders p then true
  else if is_empty (rp_allowed_person_ids p) && is_empty (rp_allowed_person_emails p) then false
  else
    let person_id_allowed :=
      is_some_and (person_id m) (fun pid => any (fun id => str_eqb id pid) (rp_allowed_person_ids p)) in
    let person_email_allowed :=
      is_some_and (person_email m) (fun e => any (fun allowed => eq_ignore_ascii_case allowed e) (rp_allowed_person_emails p)) in
    person_id_allowed || person_email_allowed.

Definition prefix_matches (body prefix : str) : bool :=
  match strip_prefix prefix (trim_start body) with
  | None => false
  | Some rest => is_empty rest || is_some_and (head rest) is_whitespace
  end.

Definition message_matches_prefix (m : Message) (prefixes : list str) : bool :=
  any (prefix_matches (message_body m)) prefixes.

Definition should_trigger (p : RoomPolicy) (m : Message) (self_person_id : option str) : TriggerDecision :=
  match trigger p with
  | Never => RoomDisabled
  | t =>
      if negb (sender_allowed p m) then SenderNotAllowed
      else match t with
      | Always => Matched
      | Never => RoomDisabled
      | Mention =>
          match self_person_id with
          | None => MissingSelfPersonId
          | Some self => if any (fun pid => str_eqb pid self) (mentioned_people m) then Matched else NotMentioned
          end
      | Prefix => if message_matches_prefix m (prefixes p) then Matched else PrefixNotMatched
      end
  end.

Definition render_prompt (template : str) (c : MessageContext) : str :=
  replace (lit "{body}") (mc_body c)
    (replace (lit "{person_email}") (default [] (mc_person_email c))
      (replace (lit "{person_id}") (default [] (mc_person_id c))
        (replace (lit "{message_id}") (mc_message_id c)
          (replace (lit "{room_id}") (mc_room_id c) template)))).

Definition truncation_suffix : str := 10 :: lit "[truncated]".

(** The loop of [trim_to_chars] over [value.chars().enumerate()]. *)
Fixpoint trim_loop (max_chars index : N) (value : str) : str :=
  match value with
  | [] => []
  | c :: value' => if max_chars <=? index then truncation_suffix else c :: trim_loop max_chars (index + 1) value'
  end.

Definition trim_to_chars (value : str) (max_chars : N) : str := trim_loop (N.max max_chars 1) 0 value.

(** ** Specifications *)

(** Who may address a room. *)
Definition authorized (p : RoomPolicy) (m : Message) : Prop :=
  allow_all_senders p = true
  \/ (exists pid, person_id m = Some pid /\ pid ∈ rp_allowed_person_ids p)
  \/ (exists e allowed, person_email m = Some e /\ allowed ∈ rp_allowed_person_emails p
        /\ to_ascii_lowercase allowed = to_ascii_lowercase e).

(** The body, after leading white space, is [prefix] followed by a word boundary. *)
Definition invokes (body prefix : str) : Prop :=
  exists rest, trim_start body = prefix ++ rest
    /\ (rest = [] \/ exists c r, rest = c :: r /\ is_whitespace c = true).

Definition addressed (p : RoomPolicy) (m : Message) (self_person_id : option str) : Prop :=
  match trigger p with
  | Always => True
  | Never => False
  | Mention => exists self, self_person_id = Some self /\ self ∈ mentioned_people m
  | Prefix => exists prefix, prefix ∈ prefixes p /\ invokes (message_body m) prefix
  end.

(** ** Lemmas *)

Lemma sender_allowed_spec p m : sender_allowed p m = true <-> authorized p m.
Proof.
  unfold sender_allowed, authorized. destruct (allow_all_senders p); [naive_solver|].
  assert (is_some_and (person_id m) (fun pid => any (fun id => str_eqb id pid) (rp_allowed_person_ids p)) = true
          <-> exists pid, person_id m = Some pid /\ pid ∈ rp_allowed_person_ids p) as H1.
  { destruct (person_id m) as [pid|]; cbn; [|naive_solver]. rewrite any_true. setoid_rewrite str_eqb_eq. naive_solver. }
  assert (is_some_and (person_email m) (fun e => any (fun allowed => eq_ignore_ascii_case allowed e) (rp_allowed_person_emails p)) = true
          <-> exists e allowed, person_email m = Some e /\ allowed ∈ rp_allowed_person_emails p
                /\ to_ascii_lowercase allowed = to_ascii_lowercase e) as H2.
  { destruct (person_email m) as [e|]; cbn; [|naive_solver]. rewrite any_true.
    unfold eq_ignore_ascii_case. setoid_rewrite str_eqb_eq. naive_solver. }
  destruct (_ && _) eqn:E; [|rewrite orb_true_iff, H1, H2; split; [by right|by intros [|]]].
  apply andb_true_iff in E as [->%is_empty_true ->%is_empty_true].
  split; [done|]. intros [[=]|[(pid & _ & H)|(e & a & _ & H & _)]]; by apply not_elem_of_nil in H.
Qed.

Lemma prefix_matches_spec body prefix : prefix_matches body prefix = true <-> invokes body prefix.
Proof.
  unfold prefix_matches, invokes. setoid_rewrite <-strip_prefix_spec.
  destruct (strip_prefix prefix (trim_start body)) as [rest|]; [|naive_solver].
  rewrite orb_true_iff, is_empty_true. destruct rest; cbn; naive_solver.
Qed.

Lemma should_trigger_matched p m self :
  should_trigger p m self = Matched <-> authorized p m /\ addressed p m self.
Proof.
  unfold should_trigger, addressed. rewrite <-sender_allowed_spec.
  destruct (trigger p); destruct (sender_allowed p m); cbn; try naive_solver.
  - destruct self as [s|]; [|naive_solver]. destruct (any _ _) eqn:E.
    + apply any_true in E as (x & Hx & ->%str_eqb_eq). naive_solver.
    + split; [done|]. intros [_ (s' & [= <-] & Hs)]. rewrite any_false in E.
      specialize (E _ Hs). by rewrite str_eqb_refl in E.
  - unfold message_matches_prefix. destruct (any _ _) eqn:E.
    + apply any_true in E as (x & Hx & H%prefix_matches_spec). naive_solver.
    + split; [done|]. intros [_ (x & Hx & H%prefix_matches_spec)]. rewrite any_false in E. by rewrite E in H.
Qed.

Lemma trim_loop_spec max index (value : str) :
  index <= max ->
  trim_loop max index value =
  if char_count value <=? max - index then value
  else take (N.to_nat (max - index)) value ++ truncation_suffix.
Proof.
  unfold char_count. revert index. induction value as [|c value IH]; intros index Hi; cbn [trim_loop].
  { rewrite len_nil. by decide_N. }
  rewrite len_cons. destruct (N.leb_spec max index) as [Hle|Hlt].
  - assert (max - index = 0) as -> by lia. by decide_N.
  - rewrite IH by lia. assert (N.to_nat (max - index) = S (N.to_nat (max - (index + 1)))) as -> by lia.
    destruct (N.leb_spec (len value) (max - (index + 1))); by decide_N.
Qed.

Lemma trim_to_chars_spec (value : str) max_chars :
  trim_to_chars value max_chars =
  if char_count value <=? N.max max_chars 1 then value
  else take (N.to_nat (N.max max_chars 1)) value ++ truncation_suffix.
Proof. unfold trim_to_chars. rewrite trim_loop_spec by lia. by rewrite N.sub_0_r. Qed.

Lemma trim_to_chars_count (value : str) max_chars :
  char_count (trim_to_chars value max_chars) <= N.max max_chars 1 + 12.
Proof.
  rewrite trim_to_chars_spec. destruct (N.leb_spec (char_count value) (N.max max_chars 1)); [lia|].
  unfold char_count, len in *. rewrite length_app, length_take. cbn [length truncation_suffix lit]. lia.
Qed.

Lemma trim_to_chars_id (value : str) max_chars :
  char_count value <= N.max max_chars 1 -> trim_to_chars value max_chars = value.
Proof. intros H. rewrite trim_to_chars_spec. by decide_N. Qed.

(** ** Properties *)

Definition sample_message : Message :=
  mkMessage (Some (lit "message-1")) (Some (lit "room-1")) None (Some (lit "person-1"))
    (Some (lit "Joey@Example.com")) (Some (lit "@codex summarize")) None None [lit "bot-person"] None.

(** a message triggers a run exactly when its sender is authorized for the room (all
    senders, a listed person ID, or a listed e-mail up to ASCII case; an empty allowlist
    authorizes nobody) and it is addressed to the bot the way the room's trigger mode asks
    (always, a mention of the bot itself, or a configured prefix at a word boundary);
    otherwise the decision names the first reason, and a disabled room is never matched. *)
Theorem should_trigger_spec (p : RoomPolicy) (m : Message) (self : option str) :
  (should_trigger p m self = Matched <-> authorized p m /\ addressed p m self) /\
  (should_trigger p m self = SenderNotAllowed <-> trigger p <> Never /\ ~ authorized p m) /\
  (should_trigger p m self = RoomDisabled <-> trigger p = Never).
Proof.
  split; [apply should_trigger_matched|]. rewrite <-sender_allowed_spec. unfold should_trigger.
  destruct (trigger p), (sender_allowed p m), self; cbn; repeat (case_match; cbn); naive_solver.
Qed.

(** truncation keeps a prefix of the requested number of characters: a short text is
    unchanged, a long one becomes its first [max_chars] characters (at least one) and the
    truncation mark, and the result never exceeds the limit by more than that mark. *)
Theorem trim_to_chars_bounded (value : str) (max_chars : N) :
  (char_count value <= N.max max_chars 1 -> trim_to_chars value max_chars = value) /\
  (N.max max_chars 1 < char_count value ->
     exists rest, value = take (N.to_nat (N.max max_chars 1)) value ++ rest /\ rest <> []
       /\ trim_to_chars value max_chars = take (N.to_nat (N.max max_chars 1)) value ++ truncation_suffix) /\
  char_count (trim_to_chars value max_chars) <= N.max max_chars 1 + char_count truncation_suffix.
Proof.
  split; [apply trim_to_chars_id|]. split; [|apply trim_to_chars_count].
  intros H. exists (drop (N.to_nat (N.max max_chars 1)) value). split; [by rewrite take_drop|]. split.
  - intros Hd. apply (f_equal length) in Hd. rewrite length_drop in Hd. unfold char_count, len in H. cbn in Hd. lia.
  - rewrite trim_to_chars_spec. by decide_N.
Qed.

Lemma trim_to_chars_bounded_witness :
  trim_to_chars (lit "abc") 3 = lit "abc" /\ char_count (trim_to_chars (lit "abcdef") 3) <= 15.
Proof.
  split; [apply (trim_to_chars_bounded (lit "abc") 3); vm_compute; discriminate|].
  apply (trim_to_chars_bounded (lit "abcdef") 3).
Defined.
