(* ===== verification/Markers.v ===== *)
(** * Hidden markers of [src/main.rs]

    Every message the bot posts ends in an HTML comment that carries the ID of the message
    it answers (or forwards), in hexadecimal. Markers make replies idempotent across
    retries and tie follow-ups to their source. *)

From S2P Require Import Prelude Text Webex.

Local Open Scope N_scope.

(** ** Encoding *)

Definition reply_marker_prefix : str := lit "wgb-ref:".
Definition source_marker_prefix : str := lit "wgb-source-ref:".

Definition marker_hex (message_id : str) : str := concat (map hex_byte (as_bytes message_id)).
Definition reply_marker (message_id : str) : str := reply_marker_prefix ++ marker_hex message_id.
Definition source_marker (message_id : str) : str := source_marker_prefix ++ marker_hex message_id.
Definition hidden_marker_comment (marker : str) : str := lit "<!-- " ++ marker ++ lit " -->".

(** ** Decoding *)

(** The text of a message, all three renderings. *)
Definition reply_body (m : Message) : str := join [10] (omap (fun o => o) [markdown m; text m; html m]).

Definition message_contains_marker (m : Message) (marker_prefix : str) : bool := contains marker_prefix (reply_body m).

(** [hex] is a run of hexadecimal digits. *)
Definition decode_marker_hex (hex : str) : option str :=
  if is_empty hex || negb (byte_len hex mod 2 =? 0) then None
  else hex_pairs hex ≫= from_utf8.

(** The [while let Some(index) = remaining.find(marker_prefix)] loop; every turn consumes
    the prefix it found, so the length of the body is fuel enough. *)
Fixpoint marker_ids_loop (fuel : nat) (marker_prefix remaining : str) (ids : list str) : list str :=
  match fuel with
  | O => ids
  | S fuel' =>
      match find_str marker_prefix remaining with
      | None => ids
      | Some (_, from) =>
          let after_prefix := drop (length marker_prefix) from in
          let hex := take_while is_ascii_hexdigit after_prefix in
          let ids' := match decode_marker_hex hex with
                      | Some message_id => if any (str_eqb message_id) ids then ids else ids ++ [message_id]
                      | None => ids
                      end in
          marker_ids_loop fuel' marker_prefix (drop (length hex) after_prefix) ids'
      end
  end.

Definition marker_message_ids_from_body (body marker_prefix : str) : list str :=
  marker_ids_loop (S (length body)) marker_prefix body [].

Definition marker_message_ids (m : Message) (marker_prefix : str) (self_person_id : option str)
  (require_self_message : bool) : list str :=
  if require_self_message then
    match self_person_id with
    | None => []
    | Some self =>
        if bool_decide (person_id m = Some self)
        then marker_message_ids_from_body (reply_body m) marker_prefix
        else []
    end
  else marker_message_ids_from_body (reply_body m) marker_prefix.

Definition created_le (a b : Message) : bool := created_leb (created a) (created b).

(** The source a follow-up belongs to: the first reply marker the bot itself wrote, in the
    root message unless that is a forwarded source, then in the thread in time order. *)
Definition followup_source_message_id (root_message : Message) (thread_messages : list Message)
  (current_message : Message) (self_person_id : option str) : option str :=
  let root_reply_markers :=
    if message_contains_marker root_message source_marker_prefix then []
    else marker_message_ids root_message reply_marker_prefix self_person_id true in
  head (root_reply_markers
        ++ concat (map (fun m => if bool_decide (id m = id current_message) then []
                                 else marker_message_ids m reply_marker_prefix self_person_id true)
                       (stable_sort created_le thread_messages))).

(** ** Reconciliation *)

Definition reply_matches_marker (reply : Message) (marker : str) (self_person_id : option str) : bool :=
  match self_person_id with
  | Some self => bool_decide (person_id reply = Some self) && contains marker (reply_body reply)
  | None => contains marker (reply_body reply)
  end.

Definition existing_reply_chars (reply : Message) : N := char_count (default [] (opt_or (markdown reply) (text reply))).

(** ** Lemmas *)

Definition scalar_text (s : str) : Prop := Forall (fun c => is_scalar c = true) s.

Lemma is_scalar_ascii c : c < 128 -> is_scalar c = true.
Proof. intros H. unfold is_scalar. by decide_N. Qed.

Lemma hex_digit_hexdigit n : n < 16 -> is_ascii_hexdigit (hex_digit n) = true.
Proof.
  intros H. unfold is_ascii_hexdigit, is_ascii_digit, hex_digit.
  destruct (N.ltb_spec n 10); decide_N; done.
Qed.

Lemma marker_hex_hexdigits (id : str) :
  scalar_text id -> Forall (fun c => is_ascii_hexdigit c = true) (marker_hex id).
Proof.
  intros H%as_bytes_byte. unfold marker_hex. induction H as [|b bs Hb _ IH]; [constructor|].
  cbn. repeat constructor; [apply hex_digit_hexdigit; lia..|done].
Qed.

Lemma hexdigit_ascii c : is_ascii_hexdigit c = true -> c < 128.
Proof. unfold is_ascii_hexdigit, is_ascii_digit. intros H. destruct (N.ltb_spec c 128); [done|]. revert H. by decide_N. Qed.

Lemma hexdigits_byte_len (s : str) : Forall (fun c => is_ascii_hexdigit c = true) s -> byte_len s = char_count s.
Proof.
  intros H. apply byte_len_ascii. eapply Forall_impl; [exact H|].
  intros c Hc%hexdigit_ascii. unfold is_ascii_char. lia.
Qed.

Lemma marker_hex_length (id : str) : char_count (marker_hex id) = 2 * byte_len id.
Proof. unfold char_count, len, marker_hex. rewrite length_hex_bytes, <-len_as_bytes. unfold len. lia. Qed.

Lemma decode_marker_hex_marker_hex (id : str) : scalar_text id -> id <> [] -> decode_marker_hex (marker_hex id) = Some id.
Proof.
  intros Hs Hn. unfold decode_marker_hex.
  pose proof (marker_hex_length id) as Hl.
  assert (byte_len id <> 0) by (by rewrite byte_len_zero).
  assert (marker_hex id <> []) as Hne by (apply len_pos; unfold char_count in Hl; lia).
  rewrite hexdigits_byte_len, Hl, (proj2 (is_empty_false _)) by auto using marker_hex_hexdigits.
  assert (2 * byte_len id mod 2 = 0) as -> by lia. cbn.
  unfold marker_hex. rewrite hex_pairs_bytes by auto using as_bytes_byte. cbn. by apply from_utf8_as_bytes.
Qed.

Lemma marker_hex_inj (a b : str) : scalar_text a -> scalar_text b -> marker_hex a = marker_hex b -> a = b.
Proof.
  intros Ha Hb H. apply hex_bytes_inj in H; [|by apply as_bytes_byte..].
  apply (f_equal from_utf8) in H. rewrite !from_utf8_as_bytes in H by done. by injection H.
Qed.

(** More fuel than the length of the rest changes nothing: the loop has ended. *)
Lemma marker_ids_loop_fuel p (s : str) ids f1 f2 :
  p <> [] -> (length s < f1)%nat -> (length s < f2)%nat ->
  marker_ids_loop f1 p s ids = marker_ids_loop f2 p s ids.
Proof.
  intros Hp. revert s ids f2. induction f1 as [|f1 IH]; intros s ids f2 H1 H2; [lia|].
  destruct f2 as [|f2]; [lia|]. cbn. destruct (find_str p s) as [[a b]|] eqn:E; [|done].
  apply find_str_some in E as [-> (r & ->)%starts_with_spec].
  rewrite !length_app in *. assert (0 < length p)%nat by (destruct p; [done|cbn; lia]).
  apply IH; rewrite !length_drop, length_app; lia.
Qed.

Lemma marker_ids_keep p fuel (s : str) ids x : x ∈ ids -> x ∈ marker_ids_loop fuel p s ids.
Proof.
  revert s ids. induction fuel as [|fuel IH]; intros s ids Hx; [done|]. cbn.
  destruct (find_str p s) as [[a b]|]; [|done]. apply IH.
  destruct (decode_marker_hex _); [|done]. destruct (any _ _); [done|]. apply elem_of_app. by left.
Qed.

(** The IDs found are pairwise different. *)
Lemma marker_ids_nodup p fuel (s : str) ids : NoDup ids -> NoDup (marker_ids_loop fuel p s ids).
Proof.
  revert s ids. induction fuel as [|fuel IH]; intros s ids Hx; [done|]. cbn.
  destruct (find_str p s) as [[a b]|]; [|done]. apply IH.
  destruct (decode_marker_hex _) as [i|]; [|done]. destruct (any _ _) eqn:E; [done|].
  apply NoDup_app. split; [done|]. split; [|by repeat constructor; apply not_elem_of_nil].
  intros y Hy ->%list_elem_of_singleton. rewrite any_false in E. specialize (E _ Hy). by rewrite str_eqb_refl in E.
Qed.

(** [find_str] returns the leftmost occurrence. *)
Lemma find_str_leftmost p (s a b x y : str) :
  find_str p s = Some (a, b) -> s = x ++ p ++ y -> (length a <= length x)%nat.
Proof.
  revert a x. induction s as [|c s IH]; intros a x H Hs.
  - cbn in H. destruct (starts_with p []); [|done]. injection H as <- _. cbn. lia.
  - cbn [find_str] in H. destruct (starts_with p (c :: s)) eqn:E; [injection H as <- _; cbn; lia|].
    apply fmap_Some in H as ([a' b'] & H & [= -> ->]). destruct x as [|c' x].
    + cbn in Hs. by rewrite Hs, starts_with_app in E.
    + injection Hs as -> Hs. cbn. specialize (IH _ x H Hs). lia.
Qed.

(** A character the pattern does not contain separates occurrences. *)
Lemma find_str_separator p (v w : str) x :
  p <> [] -> x ∉ p -> contains p v = false ->
  find_str p (v ++ x :: w) = (fun ba => (v ++ x :: ba.1, ba.2)) <$> find_str p w.
Proof.
  intros Hp Hx. induction v as [|c v IH]; intros Hv.
  - cbn [app find_str]. destruct (starts_with p (x :: w)) eqn:E; [|done].
    apply starts_with_spec in E as (r & Hr). destruct p as [|c p]; [done|]. injection Hr as -> _.
    exfalso. apply Hx, elem_of_cons. by left.
  - assert (contains p v = false) as Hv'.
    { apply not_true_iff_false. intros H%contains_spec. apply not_true_iff_false in Hv. apply Hv, contains_spec.
      destruct H as (a & r & ->). by exists (c :: a), r. }
    cbn [app find_str]. destruct (starts_with p (c :: v ++ x :: w)) eqn:E.
    + exfalso. apply starts_with_spec in E as (r & Hr).
      change (c :: v ++ x :: w) with ((c :: v) ++ x :: w) in Hr.
      apply app_eq_inv in Hr as [(k & Hk & _)|(k & Hk & Hr)].
      * assert (contains p (c :: v) = true) as Hc by (rewrite Hk; apply contains_app_l, contains_refl).
        by rewrite Hc in Hv.
      * destruct k as [|x' k].
        -- rewrite app_nil_r in Hk. subst p. by rewrite contains_refl in Hv.
        -- injection Hr as <- _. apply Hx. rewrite Hk. apply elem_of_app. right. apply elem_of_cons. by left.
    + rewrite IH by done. by destruct (find_str p w).
Qed.

(** So does a text without the pattern's first character. *)
Lemma find_str_skip c q (u w : str) :
  c ∉ u -> find_str (c :: q) (u ++ w) = (fun ba => (u ++ ba.1, ba.2)) <$> find_str (c :: q) w.
Proof.
  induction u as [|y u IH]; intros Hu.
  - cbn [app]. by destruct (find_str (c :: q) w) as [[]|].
  - apply not_elem_of_cons in Hu as [Hy Hu]. cbn [app find_str]. unfold starts_with. cbn [strip_prefix].
    decide_N. cbn. rewrite IH by done. by destruct (find_str (c :: q) w).
Qed.

Lemma find_str_here p (w : str) : find_str p (p ++ w) = Some ([], p ++ w).
Proof.
  pose proof (starts_with_app p w) as H. destruct (p ++ w) as [|c s] eqn:E; cbn [find_str]; by rewrite H.
Qed.

Lemma contains_first_char c q (s : str) : c ∉ s -> contains (c :: q) s = false.
Proof.
  intros H. apply not_true_iff_false. intros (a & r & ->)%contains_spec. apply H.
  rewrite !elem_of_app, elem_of_cons. auto.
Qed.

Lemma hex_bytes_prefix (a b : list N) (k : str) :
  Forall (fun x => x < 256) a -> Forall (fun x => x < 256) b ->
  concat (map hex_byte b) = concat (map hex_byte a) ++ k -> exists k', b = a ++ k'.
Proof.
  intros Ha. revert b. induction Ha as [|x a Hx Ha IH]; intros b Hb H; [by exists b|].
  destruct Hb as [|y b Hy Hb]; [done|]. cbn in H.
  assert (hex_byte y = hex_byte x /\ concat (map hex_byte b) = concat (map hex_byte a) ++ k) as [H1 H2].
  { injection H as H1 H2 H3. split; [unfold hex_byte; by rewrite H1, H2|done]. }
  destruct (IH b Hb H2) as (k' & ->). exists k'. cbn. f_equal.
  assert ([y] = [x]) as [= ->]; [|done]. apply hex_bytes_inj; [by repeat constructor..|].
  cbn [map concat]. by rewrite H1.
Qed.

(** One message as [prepare_reply_markdown] and [prepare_forward_markdown] build it: a
    visible part without the marker's prefix [w ++ q], then the hidden comment. *)
Section hidden_comment.
Context (q : str).
Let p : str := 119 :: q.
Hypothesis q_w : 119 ∉ q.
Hypothesis q_newline : 10 ∉ q.

Let comment_of (i : str) : str := lit "<!-- " ++ (p ++ marker_hex i) ++ lit " -->".

Lemma find_str_comment (v i : str) :
  contains p v = false ->
  find_str p (v ++ [10; 10] ++ comment_of i) = Some (v ++ [10; 10] ++ lit "<!-- ", p ++ marker_hex i ++ lit " -->").
Proof.
  intros Hv. change ([10; 10] ++ comment_of i) with (10 :: [10] ++ comment_of i).
  rewrite find_str_separator; [|done|by apply not_elem_of_cons|done].
  unfold comment_of. rewrite (app_assoc [10]), <-(app_assoc p).
  unfold p. rewrite find_str_skip by (vm_compute; by rewrite <-elem_of_list_singleton || set_solver).
  fold p. by rewrite find_str_here.
Qed.

Lemma marker_ids_comment (v i : str) :
  contains p v = false -> scalar_text i -> i <> [] ->
  marker_message_ids_from_body (v ++ [10; 10] ++ comment_of i) p = [i].
Proof.
  intros Hv Hs Hn. unfold marker_message_ids_from_body. cbn [marker_ids_loop].
  rewrite find_str_comment, drop_app_length by done.
  change (lit " -->") with (32 :: lit "-->").
  rewrite take_while_app_stop by (done || by apply marker_hex_hexdigits).
  rewrite drop_app_length, decode_marker_hex_marker_hex by done. cbn [any existsb].
  destruct (length (v ++ [10; 10] ++ comment_of i)); [done|]. cbn [marker_ids_loop].
  assert (contains p (32 :: lit "-->") = false) as Hc by (apply contains_first_char; vm_compute; set_solver).
  unfold contains in Hc. by destruct (find_str p _).
Qed.

Lemma hex_digit_no_w n : n < 16 -> hex_digit n <> 119.
Proof. intros H. unfold hex_digit. destruct (N.ltb_spec n 10); lia. Qed.

Lemma marker_hex_no_w (i : str) : scalar_text i -> 119 ∉ marker_hex i.
Proof.
  intros H%marker_hex_hexdigits Hin. rewrite Forall_forall in H. by specialize (H _ Hin).
Qed.

Lemma marker_hex_prefix (a b y : str) :
  scalar_text a -> scalar_text b ->
  marker_hex a ++ y = marker_hex b ++ lit " -->" -> exists k, as_bytes b = as_bytes a ++ k.
Proof.
  intros Ha Hb Hr. apply app_eq_inv in Hr as [(k & Hh & Hr)|(k & Hh & _)].
  - destruct k as [|c k].
    + rewrite app_nil_r in Hh. exists []. rewrite app_nil_r. by rewrite (marker_hex_inj _ _ Ha Hb Hh).
    + exfalso. injection Hr as <- _. pose proof (marker_hex_hexdigits _ Ha) as Hd. rewrite Hh in Hd.
      apply Forall_app in Hd as [_ Hd]. by inversion Hd.
  - by apply (hex_bytes_prefix _ _ k (as_bytes_byte _ Ha) (as_bytes_byte _ Hb)).
Qed.

Lemma contains_comment (v a b : str) :
  contains p v = false -> scalar_text a -> scalar_text b ->
  contains (p ++ marker_hex a) (v ++ [10; 10] ++ comment_of b) = true <-> exists k, as_bytes b = as_bytes a ++ k.
Proof.
  intros Hv Ha Hb. pose proof (find_str_comment v b Hv) as Hf.
  pose proof (find_str_some _ _ _ _ Hf) as [Heq _]. set (A := v ++ [10; 10] ++ lit "<!-- ") in *.
  rewrite contains_spec. split.
  - intros (x & y & Hxy). rewrite <-!(app_assoc p) in Hxy.
    pose proof (find_str_leftmost _ _ _ _ _ _ Hf Hxy) as Hlen. rewrite Heq in Hxy.
    apply app_eq_inv in Hxy as [(k & Hk & Hr)|(k & Hk & Hr)].
    + assert (k = []) as -> by (apply length_zero_iff_nil; rewrite Hk, length_app in Hlen; lia).
      cbn [app] in Hr. apply app_inv_head in Hr. by apply (marker_hex_prefix a b y).
    + destruct k as [|c k].
      * cbn [app] in Hr. symmetry in Hr. apply app_inv_head in Hr. by apply (marker_hex_prefix a b y).
      * exfalso. assert (119 ∈ q ++ marker_hex b ++ lit " -->") as Hin.
        { assert (q ++ marker_hex b ++ lit " -->" = k ++ p ++ marker_hex a ++ y) as -> by (by injection Hr).
          rewrite elem_of_app. right. by left. }
        rewrite !elem_of_app in Hin. destruct Hin as [?|[Hin|Hin]]; [done| |].
        -- by apply (marker_hex_no_w b Hb).
        -- vm_compute in Hin. set_solver.
  - intros (k & Hk). exists A, (concat (map hex_byte k) ++ lit " -->"). rewrite Heq. f_equal.
    rewrite <-app_assoc. f_equal. unfold marker_hex. by rewrite Hk, map_app, concat_app, <-app_assoc.
Qed.
End hidden_comment.

(** Every ID the loop reports was spelled out after an occurrence of the prefix. *)
Definition marked_with (p body i : str) : Prop :=
  exists hex, contains (p ++ hex) body = true /\ decode_marker_hex hex = Some i.

Lemma take_while_prefix {A} (f : A -> bool) (l : list A) : exists k, l = take_while f l ++ k.
Proof.
  induction l as [|x l (k & IH)]; cbn; [by exists []|]. destruct (f x); [|by exists (x :: l)].
  exists k. cbn. by rewrite <-IH.
Qed.

Lemma marked_with_app p (a b i : str) : marked_with p b i -> marked_with p (a ++ b) i.
Proof. intros (hex & Hc & Hd). exists hex. split; [by apply contains_app_r|done]. Qed.

Lemma marker_ids_sound p fuel (s : str) ids i :
  i ∈ marker_ids_loop fuel p s ids -> i ∈ ids \/ marked_with p s i.
Proof.
  revert s ids. induction fuel as [|fuel IH]; intros s ids Hi; [by left|]. cbn in Hi.
  destruct (find_str p s) as [[a b]|] eqn:E; [|by left].
  apply find_str_some in E as [-> (r & ->)%starts_with_spec]. rewrite drop_app_length in Hi.
  set (hex := take_while is_ascii_hexdigit r) in *.
  destruct (take_while_prefix is_ascii_hexdigit r) as (k & Hk). fold hex in Hk.
  assert (drop (length hex) r = k) as Hd by (rewrite Hk; apply drop_app_length). rewrite Hd in Hi.
  apply IH in Hi as [Hi|Hi].
  - destruct (decode_marker_hex hex) as [j|] eqn:Ed; [|by left].
    destruct (any (str_eqb j) ids); [by left|]. apply elem_of_app in Hi as [Hi| ->%list_elem_of_singleton]; [by left|].
    right. exists hex. split; [|done]. rewrite Hk, (app_assoc p). apply contains_app_r, contains_app_l, contains_refl.
  - right. rewrite Hk. by repeat apply marked_with_app.
Qed.

Lemma marker_message_ids_sound m p self i :
  i ∈ marker_message_ids m p self true -> self <> None /\ person_id m = self /\ marked_with p (reply_body m) i.
Proof.
  unfold marker_message_ids. destruct self as [s|]; [|by intros ?%not_elem_of_nil].
  case_bool_decide as Hp; [|by intros ?%not_elem_of_nil].
  intros [?%not_elem_of_nil|?]%marker_ids_sound; [done|]. by rewrite Hp.
Qed.

(** ** Properties *)

Definition sample_thread_root : Message :=
  mkMessage (Some (lit "R")) (Some (lit "room")) None (Some (lit "bot")) None None
    (Some (lit "analysis <!-- wgb-ref:4d31 -->")) None [] (Some 1%Z).
Definition sample_followup_message : Message :=
  mkMessage (Some (lit "F")) (Some (lit "room")) (Some (lit "R")) (Some (lit "user")) None
    (Some (lit "why? wgb-ref:4d32")) None None [] (Some 2%Z).

(** the source of a follow-up is only taken from what the bot wrote itself: when one is
    found, the bot's own ID is known and some message it posted (the thread root, unless
    that is a forwarded source, or a thread message other than the follow-up) spells the
    ID in hexadecimal after the reply marker. Markers in other people's messages count
    for nothing. *)
Theorem followup_source_from_bot (root : Message) (thread : list Message) (cur : Message) (self : option str) (i : str) :
  followup_source_message_id root thread cur self = Some i ->
  self <> None /\
  exists m, person_id m = self /\ marked_with reply_marker_prefix (reply_body m) i
    /\ (m = root /\ message_contains_marker root source_marker_prefix = false
        \/ m ∈ thread /\ id m <> id cur).
Proof.
  unfold followup_source_message_id. intros H%head_Some_elem_of.
  apply elem_of_app in H as [H|H].
  - destruct (message_contains_marker root source_marker_prefix) eqn:E; [by apply not_elem_of_nil in H|].
    apply marker_message_ids_sound in H as (? & ? & ?). split; [done|]. exists root. auto.
  - apply list_elem_of_In, in_concat in H as (l & Hl & Hi). apply list_elem_of_In, elem_of_map in Hl as (m & -> & Hm).
    apply list_elem_of_In in Hi. case_bool_decide as Hc; [by apply not_elem_of_nil in Hi|].
    apply marker_message_ids_sound in Hi as (? & ? & ?). split; [done|]. exists m. rewrite stable_sort_perm in Hm. auto.
Qed.

Lemma followup_source_from_bot_witness :
  followup_source_message_id sample_thread_root [sample_followup_message] sample_followup_message (Some (lit "bot")) = Some (lit "M1")
  /\ Some (lit "bot") <> None.
Proof.
  split; [by vm_compute|].
  apply (followup_source_from_bot sample_thread_root [sample_followup_message] sample_followup_message
           (Some (lit "bot")) (lit "M1")). by vm_compute.
Defined.
