(* ===== verification/Jenkins.v ===== *)
(** * Jenkins prefetch of [src/main.rs]

    Which URLs of a message are fetched, how the helper's output is compacted and quoted,
    and which downloaded logs count as evidence. The helper process and the artifact
    directories are in [JenkinsHelper]. *)

From S2P Require Import Prelude Text Paths Config.

Local Open Scope N_scope.

(** ** Build URLs *)

Definition build_host : str := lit "https://engci-private-sjc.cisco.com/".

(** [parts.chunks_exact(2).all(...)] on an even number of parts. *)
Fixpoint job_pairs (parts : list str) : bool :=
  match parts with
  | job :: name :: parts' => str_eqb job (lit "job") && negb (is_empty name) && job_pairs parts'
  | _ => true
  end.

Definition url_path (rest : str) : str := hd [] (split_by (one_of (lit "?#")) rest).
Definition path_parts (p : str) : list str := List.filter (fun w => negb (is_empty w)) (split_by (N.eqb (ch "/")) p).

Definition is_allowed_jenkins_build_url (value : str) : bool :=
  match strip_prefix build_host value with
  | None => false
  | Some rest =>
      let p := url_path rest in
      let lowercase_path := to_ascii_lowercase p in
      if any (fun encoded => contains encoded lowercase_path) [lit "%00"; lit "%0a"; lit "%0d"] then false
      else
        let parts := path_parts p in
        let parts := if bool_decide (head parts = Some (lit "jenkins")) then tail parts else parts in
        let parts := if is_some_and (last parts) (fun part => str_eqb part (lit "console") || str_eqb part (lit "consoleText"))
                     then removelast parts else parts in
        match last parts with
        | None => false
        | Some build_number =>
            let parts := removelast parts in
            all is_ascii_digit build_number && negb (is_empty build_number)
            && (2 <=? len parts) && (len parts mod 2 =? 0) && job_pairs parts
        end
  end.

Definition is_url_delimiter (c : char) : bool := is_whitespace c || one_of [60; 62; 34; 39] c.

(** The URL a token of the message stands for, when it is an allowed one. *)
Definition token_url (token : str) : option str :=
  let trimmed := trim_matches (one_of (lit "()[]")) token in
  match strip_prefix build_host trimmed with
  | None => None
  | Some rest =>
      let url := build_host ++ trim_end_matches (one_of (lit ")].,;:")) rest in
      if is_allowed_jenkins_build_url url then Some url else None
  end.

Fixpoint extract_urls_loop (max_urls : N) (tokens : list str) (urls : list str) : list str :=
  match tokens with
  | [] => urls
  | token :: tokens' =>
      match token_url token with
      | None => extract_urls_loop max_urls tokens' urls
      | Some url =>
          let urls' := if any (str_eqb url) urls then urls else urls ++ [url] in
          if max_urls <=? len urls' then urls' else extract_urls_loop max_urls tokens' urls'
      end
  end.

Definition extract_jenkins_urls (body : str) (max_urls : N) : list str :=
  extract_urls_loop max_urls (split_by is_url_delimiter body) [].

(** ** Console URLs *)

Definition is_valid_jenkins_console_url (url : str) : bool :=
  let url := trim url in
  let p := trim_end_matches (N.eqb (ch "/")) url in
  (starts_with (lit "https://") url || starts_with (lit "http://") url)
  && ends_with (lit "/console") p
  && negb (contains (lit "consoleText") url)
  && negb (any (one_of (lit "<>")) url)
  && negb (any is_whitespace url)
  && negb (any is_control url).

Definition normalized_jenkins_console_url (url : str) : option str :=
  let url := trim url in
  if is_valid_jenkins_console_url url then Some (trim_end_matches (N.eqb (ch "/")) url) else None.

(** ** Helper output *)

Definition JENKINS_FETCH_RETRIES : N := 3.
Definition JENKINS_FETCH_TIMEOUT_MAX_SECS : N := 60.
Definition JENKINS_HELPER_COMPLETION_MARGIN_SECS : N := 30.

Definition jenkins_fetch_timeout_seconds (helper_timeout_secs : N) : N :=
  let margin := N.min JENKINS_HELPER_COMPLETION_MARGIN_SECS (sat_sub helper_timeout_secs 1) in
  let retry_budget := sat_sub helper_timeout_secs margin in
  let request_slots := (JENKINS_FETCH_RETRIES + 1) * 2 in
  N.min (N.max (retry_budget / request_slots) 1) JENKINS_FETCH_TIMEOUT_MAX_SECS.

Definition helper_capture_limit_bytes (output_limit_chars : N) : N :=
  N.max (sat_add (sat_mul (N.max output_limit_chars 1) 4) 1024) (256 * 1024).

Definition compact_jenkins_helper_output (output : str) : str :=
  let kept := take_while (fun line => negb (str_eqb (trim line) (lit "console_tail:"))) (lines output) in
  let compacted := trim (join [10] kept) in
  if is_empty compacted then trim output else compacted.

Definition prefix_jenkins_helper_output (output : str) : str :=
  join [10] (map (fun line => lit "Jenkins helper data: " ++ line) (lines output)).

Definition append_prefetched_context (prompt context : str) : str := prompt ++ [10; 10] ++ context.

(** ** Artifact paths *)

Definition safe_path_fragment (value : str) : str :=
  let fragment := map (fun c => if is_ascii_alphanumeric c || one_of (lit "-_.") c then c else ch "_") value in
  let fragment := trim_matches (N.eqb (ch "_")) fragment in
  if is_empty fragment then lit "unknown" else take_N 160 fragment.

Definition component_name (c : Component) : option (list N) := match c with Normal name => Some name | _ => None end.

(** The working directory the prompt names: the host directory, or its image under
    [/workspace] inside the isolated runner. *)
Definition codex_artifact_prompt_path (codex_config : CodexConfig) (artifact_root artifact_dir : path) : option path :=
  if negb (is_ephemeral (mode (isolation codex_config))) then Some artifact_dir
  else
    let root := components artifact_root in
    let dir := components artifact_dir in
    if negb (path_starts_with dir root) then None
    else
      let relative := drop (length root) dir in
      if any (fun c => match c with Normal _ => false | _ => true end) relative then None
      else Some (path_join (lit "/workspace") (join [separator] (omap component_name relative))).

(** [None] when a path is not UTF-8. *)
Definition codex_helper_output (codex_config : CodexConfig) (host_artifact_dir prompt_artifact_dir : path) (output : str)
  : option str :=
  if negb (is_ephemeral (mode (isolation codex_config))) then Some output
  else
    host ← from_utf8 host_artifact_dir;
    prompt ← from_utf8 prompt_artifact_dir;
    Some (replace host prompt output).

(** ** Evidence logs *)

Definition JENKINS_LOG_INDEX_MAX_BYTES : N := 1024 * 1024.
Definition JENKINS_EVIDENCE_LOG_MAX_BYTES : N := 10 * 1024 * 1024.

Record FileMetadata : Type := mkFileMetadata {
  is_file : bool;
  is_symlink : bool;
  file_len : N
}.

Record JenkinsLogIndexJob : Type := mkJenkinsLogIndexJob {
  local_log_relative : option path;
  jenkins_console : str
}.

Record JenkinsEvidenceLog : Type := mkJenkinsEvidenceLog {
  ev_path : path;
  sha256 : list N
}.

(** What the code asks of the file system, of [serde_json] and of [ring]; [None] is an I/O
    error or a timeout. [open_nofollow] gives the metadata of the opened file and the bytes
    that can be read from it. *)
Class EvidenceOps : Type := {
  symlink_metadata : path -> option FileMetadata;
  metadata : path -> option FileMetadata;
  fs_canonicalize : path -> option path;
  fs_read : path -> option (list N);
  open_nofollow : path -> option (FileMetadata * list N);
  parse_log_index : list N -> option (list JenkinsLogIndexJob);
  sha256_digest : list N -> list N
}.

Inductive EvidenceError : Type :=
| EvidenceIo
| IndexNotRegular
| IndexTooLarge
| IndexUnparsable
| UnsafeRelativePath (p : path)
| LogEscaped (p : path)
| LogNotRegular
| LogTooLarge (p : path)
| InvalidConsoleUrl.

Section evidence.
Context `{EvidenceOps}.

Definition jenkins_evidence_digest (contents : list N) : list N := sha256_digest contents.

Definition read_jenkins_evidence_log (p : path) : result EvidenceError (list N) :=
  let? file := ok_or (open_nofollow p) EvidenceIo in
  fail_if (negb (is_file (fst file))) LogNotRegular ;?
  fail_if (JENKINS_EVIDENCE_LOG_MAX_BYTES <? file_len (fst file)) (LogTooLarge p) ;?
  let contents := take_N (JENKINS_EVIDENCE_LOG_MAX_BYTES + 1) (snd file) in
  fail_if (JENKINS_EVIDENCE_LOG_MAX_BYTES <? len contents) (LogTooLarge p) ;?
  Ok contents.

Definition unsafe_relative_path (p : path) : bool :=
  is_absolute p
  || any (fun c => match c with Normal _ => false | _ => true end) (components p)
  || negb (bool_decide (head (components p) = Some (Normal (lit "logs")))).

(** One turn of the loop over [index.jobs]: the evidence it adds, if any. *)
Definition job_evidence (artifact_dir canonical_logs_root : path) (job : JenkinsLogIndexJob)
  : result EvidenceError (list (str * JenkinsEvidenceLog)) :=
  match local_log_relative job with
  | None => Ok []
  | Some relative_path =>
      fail_if (unsafe_relative_path relative_path) (UnsafeRelativePath relative_path) ;?
      let log_path := path_join artifact_dir relative_path in
      let? canonical_log_path := ok_or (fs_canonicalize log_path) EvidenceIo in
      fail_if (negb (path_starts_with (components canonical_log_path) (components canonical_logs_root)))
        (LogEscaped log_path) ;?
      let? log_metadata := ok_or (metadata canonical_log_path) EvidenceIo in
      if negb (is_file log_metadata) || (file_len log_metadata =? 0) then Ok []
      else
        fail_if (JENKINS_EVIDENCE_LOG_MAX_BYTES <? file_len log_metadata) (LogTooLarge log_path) ;?
        let? console_url := ok_or (normalized_jenkins_console_url (jenkins_console job)) InvalidConsoleUrl in
        let? contents := read_jenkins_evidence_log canonical_log_path in
        if is_empty contents then Ok []
        else Ok [(console_url, mkJenkinsEvidenceLog canonical_log_path (jenkins_evidence_digest contents))]
  end.

Fixpoint jobs_evidence (artifact_dir canonical_logs_root : path) (jobs : list JenkinsLogIndexJob)
  : result EvidenceError (list (str * JenkinsEvidenceLog)) :=
  match jobs with
  | [] => Ok []
  | job :: jobs' =>
      let? found := job_evidence artifact_dir canonical_logs_root job in
      let? rest := jobs_evidence artifact_dir canonical_logs_root jobs' in
      Ok (found ++ rest)
  end.

Definition load_jenkins_log_evidence (artifact_dir : path) : result EvidenceError (list (str * JenkinsEvidenceLog)) :=
  let logs_root := path_join artifact_dir (lit "logs") in
  let index_path := path_join logs_root (lit "index.json") in
  let? index_metadata := ok_or (symlink_metadata index_path) EvidenceIo in
  fail_if (negb (is_file index_metadata) || is_symlink index_metadata) IndexNotRegular ;?
  fail_if (JENKINS_LOG_INDEX_MAX_BYTES <? file_len index_metadata) IndexTooLarge ;?
  let? bytes := ok_or (fs_read index_path) EvidenceIo in
  let? jobs := ok_or (parse_log_index bytes) IndexUnparsable in
  let? canonical_logs_root := ok_or (fs_canonicalize logs_root) EvidenceIo in
  jobs_evidence artifact_dir canonical_logs_root jobs.

(** Merging the evidence of one URL: the first log of a console URL stays. *)
Fixpoint merge_evidence (found : list (str * JenkinsEvidenceLog)) (console_urls : list str)
  (evidence_logs : gmap (list N) JenkinsEvidenceLog) : list str * gmap (list N) JenkinsEvidenceLog :=
  match found with
  | [] => (console_urls, evidence_logs)
  | (console_url, log) :: found' =>
      merge_evidence found'
        (if any (str_eqb console_url) console_urls then console_urls else console_urls ++ [console_url])
        (match evidence_logs !! console_url with
         | Some _ => evidence_logs
         | None => <[console_url := log]> evidence_logs
         end)
  end.
End evidence.

(** ** Build URLs: lemmas *)

Definition job_parts (jobs : list str) : list str := concat (map (fun name => [lit "job"; name]) jobs).

(** The paths of Jenkins builds: nested jobs and a build number, with an optional
    [jenkins] in front and an optional console view behind. *)
Definition build_path (parts : list str) : Prop :=
  exists (front : list str) (jobs : list str) (number : str) (back : list str),
    parts = front ++ job_parts jobs ++ [number] ++ back
    /\ (front = [] \/ front = [lit "jenkins"])
    /\ (back = [] \/ back = [lit "console"] \/ back = [lit "consoleText"])
    /\ jobs <> [] /\ number <> [] /\ Forall (fun c => is_ascii_digit c = true) number.

Definition no_encoded_control (p : str) : Prop :=
  forall encoded, encoded ∈ [lit "%00"; lit "%0a"; lit "%0d"] -> contains encoded (to_ascii_lowercase p) = false.

Definition build_url (value : str) : Prop :=
  exists rest, value = build_host ++ rest /\ no_encoded_control (url_path rest) /\ build_path (path_parts (url_path rest)).

Lemma job_pairs_spec (n : nat) (parts : list str) :
  length parts = (2 * n)%nat ->
  job_pairs parts = true <-> exists jobs, parts = job_parts jobs /\ Forall (fun j => j <> []) jobs /\ length jobs = n.
Proof.
  revert parts. induction n as [|n IH]; intros parts Hl.
  - destruct parts; [|done]. split; [|done]. intros _. by exists [].
  - destruct parts as [|a [|b parts]]; [done|cbn in Hl; lia|]. cbn [job_pairs].
    rewrite !andb_true_iff, str_eqb_eq, negb_true_iff, is_empty_false, IH by (cbn in Hl; lia). split.
    + intros [[-> Hb] (jobs & -> & Hj & <-)]. exists (b :: jobs). by repeat constructor.
    + intros (jobs & Hp & Hj & Hn). destruct jobs as [|j jobs]; [done|]. cbn in Hp. injection Hp as -> -> ->.
      apply Forall_cons in Hj as [? ?]. split; [done|]. exists jobs. cbn in Hn. repeat split; [done|lia].
Qed.

Lemma length_job_parts (jobs : list str) : length (job_parts jobs) = (2 * length jobs)%nat.
Proof. induction jobs as [|j jobs IH]; [done|]. unfold job_parts in *. cbn [map concat app length]. rewrite IH. lia. Qed.

Lemma removelast_last' {A} (l : list A) x : last l = Some x -> l = removelast l ++ [x].
Proof.
  destruct l as [|y l _] using rev_ind; [done|]. rewrite last_snoc. intros [= ->]. by rewrite removelast_last.
Qed.

(** A part that is the last of a list of digits is not a console view. *)
Lemma number_not_console (number : str) :
  Forall (fun c => is_ascii_digit c = true) number ->
  str_eqb number (lit "console") || str_eqb number (lit "consoleText") = false.
Proof.
  intros H. apply orb_false_iff. split; apply str_eqb_neq; intros ->; by inversion H.
Qed.

Definition strip_front (parts : list str) : list str :=
  if bool_decide (head parts = Some (lit "jenkins")) then tail parts else parts.

Definition strip_back (parts : list str) : list str :=
  if is_some_and (last parts) (fun part => str_eqb part (lit "console") || str_eqb part (lit "consoleText"))
  then removelast parts else parts.

Definition numbered_jobs (parts : list str) : Prop :=
  exists (jobs : list str) (number : str), parts = job_parts jobs ++ [number]
    /\ jobs <> [] /\ number <> [] /\ Forall (fun c => is_ascii_digit c = true) number.

Lemma numbered_jobs_head parts : numbered_jobs parts -> exists r, parts = lit "job" :: r.
Proof. intros (jobs & n & -> & Hj & _). destruct jobs; [done|]. by eexists. Qed.

Lemma strip_front_spec (parts : list str) (P : list str -> Prop) :
  (forall r, P r -> exists r', r = lit "job" :: r') ->
  P (strip_front parts) <-> exists front r, parts = front ++ r /\ (front = [] \/ front = [lit "jenkins"]) /\ P r.
Proof.
  intros HP. unfold strip_front. case_bool_decide as Hh.
  - destruct parts as [|x parts]; [done|]. injection Hh as ->. cbn [tail]. split.
    + intros H. exists [lit "jenkins"], parts. auto.
    + intros (front & r & Heq & [->| ->] & H); cbn in Heq.
      * subst r. destruct (HP _ H) as (r' & Hr). discriminate Hr.
      * by injection Heq as ->.
  - split; [intros H; exists [], parts; auto|]. intros (front & r & -> & [->| ->] & H); [done|].
    by cbn in Hh.
Qed.

Lemma strip_back_spec (parts : list str) (P : list str -> Prop) :
  (forall r, P r -> exists r' number, r = r' ++ [number] /\ Forall (fun c => is_ascii_digit c = true) number) ->
  P (strip_back parts) <->
  exists r back, parts = r ++ back /\ (back = [] \/ back = [lit "console"] \/ back = [lit "consoleText"]) /\ P r.
Proof.
  intros HP. unfold strip_back. destruct (is_some_and _ _) eqn:E.
  - destruct (last parts) as [x|] eqn:El; [|done]. cbn in E. apply removelast_last' in El. split.
    + intros H. exists (removelast parts), [x]. split; [done|]. split; [|done].
      apply orb_true_iff in E as [->%str_eqb_eq| ->%str_eqb_eq]; auto.
    + intros (r & back & Heq & Hb & H). destruct Hb as [->|Hb].
      * rewrite app_nil_r in Heq. subst r. destruct (HP _ H) as (r' & n & Hr & Hn). rewrite Hr in El.
        rewrite removelast_last in El. apply app_inj_tail in El as [_ ->].
        by rewrite number_not_console in E.
      * assert (exists y, back = [y]) as (y & ->) by (destruct Hb as [->| ->]; by eexists).
        rewrite Heq, removelast_last. done.
  - split; [intros H; exists parts, []; rewrite app_nil_r; auto|].
    intros (r & back & -> & Hb & H). destruct Hb as [->|Hb]; [by rewrite app_nil_r|].
    exfalso. destruct Hb as [->| ->]; rewrite last_snoc in E; done.
Qed.

Lemma numbered_jobs_check (parts : list str) :
  Forall (fun w => w <> []) parts ->
  match last parts with
  | None => false
  | Some build_number =>
      let parts := removelast parts in
      all is_ascii_digit build_number && negb (is_empty build_number)
      && (2 <=? len parts) && (len parts mod 2 =? 0) && job_pairs parts
  end = true <-> numbered_jobs parts.
Proof.
  intros Hne. destruct (last parts) as [n|] eqn:El.
  - apply removelast_last' in El. set (r := removelast parts) in *. cbv zeta.
    rewrite !andb_true_iff, all_true, negb_true_iff, is_empty_false. split.
    + intros [[[[Hd Hn] H2] Hm] Hp]. apply (job_pairs_spec (Nat.div (length r) 2)) in Hp as (jobs & Hr & Hj & Hl).
      * exists jobs, n. rewrite <-Hr. split; [done|]. repeat split; [|done..]. intros ->. rewrite Hr in H2. done.
      * unfold len in Hm. pose proof (Nat.div_mod_eq (length r) 2). lia.
    + intros (jobs & m & Heq & Hj & Hm & Hd). rewrite Heq in El. unfold r in *. rewrite Heq, removelast_last in *.
      apply app_inj_tail in El as [_ ->]. unfold len. rewrite length_job_parts.
      assert (length jobs <> 0)%nat by (by destruct jobs).
      repeat split; [done|done|lia|lia|]. apply (job_pairs_spec (length jobs)); [apply length_job_parts|].
      exists jobs. repeat split. apply Forall_app in Hne as [Hne _]. revert Hne. clear.
      induction jobs as [|j jobs IH]; [constructor|]. unfold job_parts. cbn.
      intros [_ [Hj Hr]%Forall_cons]%Forall_cons. constructor; [done|by apply IH].
  - split; [done|]. intros (jobs & n & -> & _). by rewrite last_snoc in El.
Qed.

Lemma path_parts_nonempty (p : str) : Forall (fun w => w <> []) (path_parts p).
Proof.
  unfold path_parts. apply Forall_forall. intros w Hw%list_elem_of_In. apply filter_In in Hw as [_ Hw].
  apply negb_true_iff, is_empty_false in Hw. done.
Qed.

Lemma build_path_strip (parts : list str) : build_path parts <-> numbered_jobs (strip_back (strip_front parts)).
Proof.
  rewrite strip_back_spec.
  2: { intros r (jobs & n & -> & _ & _ & Hd). eauto. }
  split.
  - intros (front & jobs & n & back & -> & Hf & Hb & Hj & Hn & Hd).
    exists (job_parts jobs ++ [n]), back. split; [|split; [done|by exists jobs, n]].
    destruct jobs as [|j jobs]; [done|]. destruct Hf as [->| ->]; cbn; by rewrite <-?app_assoc.
  - intros (r & back & Hs & Hb & Hr).
    pose proof (proj1 (strip_front_spec parts (fun s => s = r ++ back)
      ltac:(intros s ->; destruct (numbered_jobs_head _ Hr) as (r' & ->); by eexists)) Hs)
      as (front & s & -> & Hf & ->).
    destruct Hr as (jobs & n & -> & Hj & Hn & Hd). exists front, jobs, n, back.
    rewrite <-!app_assoc. auto 10.
Qed.

Lemma Forall_strip (P : str -> Prop) (parts : list str) : Forall P parts -> Forall P (strip_back (strip_front parts)).
Proof.
  intros H. assert (Forall P (strip_front parts)) as H'.
  { unfold strip_front. destruct (bool_decide _); [|done]. by destruct H. }
  unfold strip_back. destruct (is_some_and _ _); [|done].
  destruct (strip_front parts) as [|x l _] using rev_ind; [done|]. rewrite removelast_last.
  by apply Forall_app in H' as [? _].
Qed.

Lemma is_allowed_spec (value : str) : is_allowed_jenkins_build_url value = true <-> build_url value.
Proof.
  unfold is_allowed_jenkins_build_url, build_url. setoid_rewrite <-strip_prefix_spec.
  destruct (strip_prefix build_host value) as [rest|]; [|naive_solver].
  cbv zeta. change (if bool_decide (head (path_parts (url_path rest)) = Some (lit "jenkins"))
    then tail (path_parts (url_path rest)) else path_parts (url_path rest)) with (strip_front (path_parts (url_path rest))).
  set (q := strip_front _).
  change (if is_some_and (last q) (fun part => str_eqb part (lit "console") || str_eqb part (lit "consoleText"))
    then removelast q else q) with (strip_back q).
  pose proof (numbered_jobs_check (strip_back q) (Forall_strip _ _ (path_parts_nonempty _))) as Hc. cbv zeta in Hc.
  destruct (any _ _) eqn:E.
  - split; [done|]. intros (r & [= <-] & Hn & _). apply any_true in E as (e & He & Ht). specialize (Hn e He). congruence.
  - rewrite any_false in E. rewrite Hc. unfold q. rewrite <-build_path_strip. split; [intros H; by exists rest|].
    by intros (r & [= <-] & _ & H).
Qed.

(** ** Extraction: lemmas *)

Lemma extract_urls_loop_inv max tokens urls (P : str -> Prop) :
  (forall token url, token ∈ tokens -> token_url token = Some url -> P url) ->
  Forall P urls -> NoDup urls -> len urls < N.max max 1 ->
  let r := extract_urls_loop max tokens urls in Forall P r /\ NoDup r /\ len r <= N.max max 1.
Proof.
  revert urls. induction tokens as [|token tokens IH]; intros urls HP Hu Hn Hl; cbn; [repeat split; [done..|lia]|].
  assert (forall token' url, token' ∈ tokens -> token_url token' = Some url -> P url) as HP'.
  { intros t u Ht. apply HP, elem_of_cons. by right. }
  destruct (token_url token) as [url|] eqn:E; [|by apply IH].
  set (urls' := if any (str_eqb url) urls then urls else urls ++ [url]).
  assert (Forall P urls' /\ NoDup urls' /\ len urls' <= N.max max 1) as (Hu' & Hn' & Hl').
  { unfold urls'. destruct (any (str_eqb url) urls) eqn:Ea; [repeat split; [done..|lia]|]. rewrite any_false in Ea.
    repeat split.
    - apply Forall_app. split; [done|]. constructor; [|constructor]. eapply HP; [apply elem_of_cons; by left|done].
    - apply NoDup_app. split; [done|]. split; [|by repeat constructor; apply not_elem_of_nil].
      intros y Hy ->%list_elem_of_singleton. specialize (Ea _ Hy). by rewrite str_eqb_refl in Ea.
    - autorewrite with len. lia. }
  destruct (N.leb_spec max (len urls')); [done|]. apply IH; [done..|lia].
Qed.

Lemma token_url_some (token url : str) :
  token_url token = Some url -> build_url url /\ contains url token = true.
Proof.
  unfold token_url. destruct (strip_prefix _ _) as [rest|] eqn:E; [|done].
  destruct (is_allowed_jenkins_build_url _) eqn:Ea; [|done]. intros [= <-]. apply strip_prefix_spec in E.
  split; [by apply is_allowed_spec|].
  destruct (trim_matches_infix (one_of (lit "()[]")) token) as (a & b & Ht & _).
  destruct (trim_end_matches_prefix (one_of (lit ")].,;:")) rest) as (k & Hk & _).
  apply contains_spec. exists a, (k ++ b). rewrite Ht, E, Hk at 1. by rewrite <-!app_assoc.
Qed.

Lemma split_by_piece_free f (s w : str) : w ∈ split_by f s -> Forall (fun c => f c = false) w.
Proof. intros H. pose proof (split_by_pieces f s) as Hp. rewrite Forall_forall in Hp. by apply Hp. Qed.

Lemma Forall_contained (P : char -> Prop) (a b : str) : contains a b = true -> Forall P b -> Forall P a.
Proof. intros (x & y & ->)%contains_spec. rewrite !Forall_app. tauto. Qed.

Lemma contains_infix (a b x y : str) : contains a b = true -> contains a (x ++ b ++ y) = true.
Proof. intros H. by apply contains_app_r, contains_app_l. Qed.

(** ** Evidence: lemmas *)

Section evidence_lemmas.
Context `{EvidenceOps}.

(** What a log in the evidence is known to be. *)
Definition evidence_ok (canonical_logs_root : path) (e : str * JenkinsEvidenceLog) : Prop :=
  path_starts_with (components (ev_path (snd e))) (components canonical_logs_root) = true
  /\ (exists raw, normalized_jenkins_console_url raw = Some (fst e))
  /\ exists contents, read_jenkins_evidence_log (ev_path (snd e)) = Ok contents
       /\ contents <> [] /\ sha256 (snd e) = sha256_digest contents.

Lemma job_evidence_ok artifact_dir root job found :
  job_evidence artifact_dir root job = Ok found -> Forall (evidence_ok root) found.
Proof.
  unfold job_evidence. destruct (local_log_relative job) as [p|]; [|by intros [= <-]].
  intros Hj. apply seq_ok in Hj as [_ Hj]. cbv zeta in Hj.
  apply rbind_ok in Hj as (log & _ & Hj). apply seq_ok in Hj as [Hroot Hj].
  apply rbind_ok in Hj as (md & _ & Hj). destruct (negb (is_file md) || _); [by injection Hj as <-|].
  apply seq_ok in Hj as [_ Hj]. apply rbind_ok in Hj as (url & Hurl & Hj). apply rbind_ok in Hj as (contents & Hc & Hj).
  destruct (is_empty contents) eqn:E; injection Hj as <-; [constructor|]. apply is_empty_false in E.
  apply ok_or_ok in Hurl. apply negb_false_iff in Hroot.
  constructor; [|constructor]. split; [done|]. split; [by exists (jenkins_console job)|]. by exists contents.
Qed.

Lemma jobs_evidence_ok artifact_dir root jobs found :
  jobs_evidence artifact_dir root jobs = Ok found -> Forall (evidence_ok root) found.
Proof.
  revert found. induction jobs as [|job jobs IH]; intros found; cbn; [by intros [= <-]|].
  intros Hj. apply rbind_ok in Hj as (f & Hf & Hj). apply rbind_ok in Hj as (r & Hr & [= <-]).
  apply Forall_app. split; [by eapply job_evidence_ok|by apply IH].
Qed.

Lemma read_evidence_bounded p contents :
  read_jenkins_evidence_log p = Ok contents -> len contents <= JENKINS_EVIDENCE_LOG_MAX_BYTES.
Proof.
  unfold read_jenkins_evidence_log. intros Hr. apply rbind_ok in Hr as (file & _ & Hr).
  apply seq_ok in Hr as [_ Hr]. apply seq_ok in Hr as [_ Hr]. cbv zeta in Hr. apply seq_ok in Hr as [Hb Hr].
  injection Hr as <-. by apply N.ltb_ge.
Qed.

Lemma merge_evidence_in (found : list (str * JenkinsEvidenceLog)) (urls : list str) (logs : gmap (list N) JenkinsEvidenceLog) url log :
  (merge_evidence found urls logs).2 !! url = Some log -> logs !! url = Some log \/ (url, log) ∈ found.
Proof.
  revert urls logs. induction found as [|[u l] found IH]; intros urls logs; cbn; [auto|].
  intros [Hl|Hf]%IH; [|by right; apply elem_of_cons; right].
  destruct (logs !! u) eqn:E; [by left|]. apply lookup_insert_Some in Hl as [[<- <-]|[_ Hl]]; [|by left].
  right. apply elem_of_cons. by left.
Qed.
End evidence_lemmas.

(** What a valid console URL is made of. *)
Definition console_char (u : str) (c : char) : Prop :=
  is_whitespace c = false /\ is_control c = false /\ c <> ch "<" /\ c <> ch ">" /\ contains (lit "consoleText") u = false.

Lemma console_valid_parts (url : str) :
  is_valid_jenkins_console_url url = true <->
  starts_with (lit "https://") (trim url) || starts_with (lit "http://") (trim url) = true
  /\ ends_with (lit "/console") (trim_end_matches (N.eqb (ch "/")) (trim url)) = true
  /\ (contains (lit "consoleText") (trim url) = false /\ Forall (console_char (trim url)) (trim url)).
Proof.
  unfold is_valid_jenkins_console_url. cbv zeta. set (u := trim url).
  rewrite !andb_true_iff, !negb_true_iff, !any_false. unfold console_char. rewrite Forall_forall.
  assert (forall c, one_of (lit "<>") c = false <-> c <> ch "<" /\ c <> ch ">") as Hone.
  { intros c. unfold one_of, any. cbn. rewrite orb_false_r, orb_false_iff, !N.eqb_neq. done. }
  split.
  - intros [[[[[Hs He] Hn] Ho] Hw] Hc]. repeat split; auto; by apply Hone, Ho.
  - intros (Hs & He & Hn & Hf). repeat split; auto; intros c Hc; destruct (Hf c Hc) as (? & ? & ? & ? & _); auto.
    by apply Hone.
Qed.

(** Cutting an end off a URL that still ends in [/console] does not touch the scheme. *)
Lemma scheme_prefix (r k : str) :
  starts_with (lit "https://") (r ++ k) || starts_with (lit "http://") (r ++ k) = true ->
  ends_with (lit "/console") r = true ->
  starts_with (lit "https://") r || starts_with (lit "http://") r = true.
Proof.
  intros Hs (r0 & ->)%ends_with_spec.
  assert (forall p : str, (length p <= 8)%nat -> p <> r0 ++ lit "/console" ->
    starts_with p ((r0 ++ lit "/console") ++ k) = true -> starts_with p (r0 ++ lit "/console") = true) as H.
  { intros p Hl Hne (x & Hx)%starts_with_spec. apply starts_with_spec.
    apply app_eq_inv in Hx as [(y & Hy & _)|(y & Hy & _)]; [by exists y|].
    exfalso. apply Hne. assert (length y = 0)%nat as Hy0.
    { apply (f_equal length) in Hy. rewrite !length_app in Hy. cbn in Hy. lia. }
    apply length_zero_iff_nil in Hy0 as ->. by rewrite app_nil_r in Hy. }
  apply orb_true_iff. apply orb_true_iff in Hs as [Hs|Hs]; [left|right]; apply H; try done; cbn; try lia.
  - intros Heq. assert (ends_with (lit "/console") (lit "https://") = true) as He by (apply ends_with_spec; by exists r0).
    by vm_compute in He.
  - intros Heq. assert (ends_with (lit "/console") (lit "http://") = true) as He by (apply ends_with_spec; by exists r0).
    by vm_compute in He.
Qed.

Lemma console_url_fixed (r : str) :
  starts_with (lit "https://") r || starts_with (lit "http://") r = true ->
  ends_with (lit "/console") r = true ->
  Forall (fun c => is_whitespace c = false /\ is_control c = false /\ c <> ch "<" /\ c <> ch ">") r ->
  contains (lit "consoleText") r = false ->
  normalized_jenkins_console_url r = Some r.
Proof.
  intros Hs He Hf Hn. pose proof He as (r0 & Hr)%ends_with_spec.
  assert (r = (r0 ++ lit "/consol") ++ [ch "e"]) as Hl by by rewrite <-app_assoc.
  assert (trim r = r) as Ht.
  { apply trimmed_trim. right. rewrite Forall_forall in Hf. split.
    - destruct r as [|c r']; [by destruct r0|]. exists c, r'. split; [done|]. apply Hf, elem_of_cons. by left.
    - rewrite Hl. by eexists _, _. }
  assert (trim_end_matches (N.eqb (ch "/")) r = r) as Hte.
  { apply trim_end_matches_id. right. rewrite Hl. by eexists _, _. }
  unfold normalized_jenkins_console_url. rewrite Ht, Hte.
  rewrite (proj2 (console_valid_parts r)); [done|]. rewrite Ht, Hte. repeat split; [done..|].
  eapply Forall_impl; [exact Hf|]. by intros c (? & ? & ? & ?).
Qed.

(** ** Properties *)

Definition sample_body : str :=
  lit "see (https://engci-private-sjc.cisco.com/jenkins/job/a/job/b/12/console). and https://engci-private-sjc.cisco.com/job/a/x".

(** only URLs of Jenkins builds are ever fetched: the extracted URLs are pairwise
    different, at most the configured number, occur in the message as they are, contain no
    white space, quote or angle bracket, and each has the one allowed host and a path of
    nested jobs ending in a build number, without encoded control characters. *)
Theorem extract_jenkins_urls_allowed (body : str) (max_urls : N) :
  let urls := extract_jenkins_urls body max_urls in
  NoDup urls /\ len urls <= N.max max_urls 1 /\
  Forall (fun url => build_url url /\ contains url body = true
                     /\ Forall (fun c => is_url_delimiter c = false) url) urls.
Proof.
  cbv zeta. unfold extract_jenkins_urls.
  pose proof (extract_urls_loop_inv max_urls (split_by is_url_delimiter body) []
    (fun url => build_url url /\ contains url body = true /\ Forall (fun c => is_url_delimiter c = false) url)) as Hi.
  destruct Hi as (HP & Hn & Hl); [|constructor|constructor|rewrite len_nil; lia|by auto].
  intros token url Ht [Hu Hc]%token_url_some. split; [done|].
  destruct (split_by_infix _ _ _ Ht) as (a & b & Hb). split; [rewrite Hb; by apply contains_infix|].
  eapply Forall_contained; [done|]. by eapply split_by_piece_free.
Qed.

(** the URL allowlist accepts exactly the documented grammar: the fixed HTTPS host,
    then (before any query or fragment, ignoring empty segments) an optional [jenkins],
    one or more [job/<name>] pairs, a decimal build number and an optional [console] or
    [consoleText], with none of [%00], [%0a], [%0d] in any case. *)
Theorem jenkins_url_grammar (value : str) : is_allowed_jenkins_build_url value = true <-> build_url value.
Proof. apply is_allowed_spec. Qed.

(** evidence is confined and authenticated: every log accepted as evidence resolves
    under the canonical logs directory of the artifact directory, is non-empty and at most
    10 MiB, is filed under a normalised console URL, and carries the digest of the contents
    read from that path. *)
Theorem evidence_confined `{EvidenceOps} (artifact_dir : path) (found : list (str * JenkinsEvidenceLog)) :
  load_jenkins_log_evidence artifact_dir = Ok found ->
  exists root, fs_canonicalize (path_join artifact_dir (lit "logs")) = Some root /\
  forall url log, (url, log) ∈ found ->
    path_starts_with (components (ev_path log)) (components root) = true
    /\ (exists raw, normalized_jenkins_console_url raw = Some url)
    /\ exists contents, read_jenkins_evidence_log (ev_path log) = Ok contents
         /\ 0 < len contents <= JENKINS_EVIDENCE_LOG_MAX_BYTES /\ sha256 log = sha256_digest contents.
Proof.
  unfold load_jenkins_log_evidence. cbv zeta. intros Hl.
  apply rbind_ok in Hl as (md & _ & Hl). apply seq_ok in Hl as [_ Hl]. apply seq_ok in Hl as [_ Hl].
  apply rbind_ok in Hl as (bytes & _ & Hl). apply rbind_ok in Hl as (jobs & _ & Hl).
  apply rbind_ok in Hl as (root & Hroot%ok_or_ok & Hl). exists root. split; [done|].
  intros url log Hin. apply jobs_evidence_ok in Hl. rewrite Forall_forall in Hl.
  destruct (Hl _ Hin) as (Hp & Hu & contents & Hr & Hne & Hs). split; [done|]. split; [done|].
  exists contents. apply len_pos in Hne. pose proof (read_evidence_bounded _ _ Hr). auto.
Qed.

(** A directory with one log, for the witnesses. *)
Definition sample_log : list N := lit "Finished: FAILURE".
Definition sample_evidence_ops : EvidenceOps := {|
  symlink_metadata _ := Some (mkFileMetadata true false 40);
  metadata _ := Some (mkFileMetadata true false 17);
  fs_canonicalize p := Some p;
  fs_read _ := Some (lit "{}");
  open_nofollow _ := Some (mkFileMetadata true false 17, sample_log);
  parse_log_index _ := Some [mkJenkinsLogIndexJob (Some (lit "logs/a.log")) (lit "https://host/job/a/1/console/")];
  sha256_digest := fun contents => take_N 32 contents
|}.

Lemma evidence_confined_witness :
  exists found, @load_jenkins_log_evidence sample_evidence_ops (lit "/a") = Ok found /\
  exists root, @fs_canonicalize sample_evidence_ops (lit "/a/logs") = Some root.
Proof.
  eexists. split; [vm_compute; reflexivity|].
  edestruct (@evidence_confined sample_evidence_ops (lit "/a")) as (root & Hr & _); [vm_compute; reflexivity|].
  exists root. exact Hr.
Defined.

(** a console URL the program keeps is an HTTP(S) URL ending in [/console], with no
    white space, control character or angle bracket, so it cannot leave the link it is
    rendered in; normalising it again gives it back. *)
Theorem console_url_normalized (raw url : str) :
  normalized_jenkins_console_url raw = Some url ->
  (starts_with (lit "https://") url || starts_with (lit "http://") url) = true
  /\ ends_with (lit "/console") url = true
  /\ Forall (fun c => is_whitespace c = false /\ is_control c = false /\ c <> ch "<" /\ c <> ch ">") url
  /\ normalized_jenkins_console_url url = Some url.
Proof.
  unfold normalized_jenkins_console_url. destruct (is_valid_jenkins_console_url (trim raw)) eqn:Hv; [|done].
  intros [= <-]. set (u := trim raw) in *. apply console_valid_parts in Hv as (Hs & He & Hn & Hf).
  unfold u in Hs, He, Hn, Hf. rewrite trim_idem in Hs, He, Hn, Hf. fold u in Hs, He, Hn, Hf.
  set (r := trim_end_matches (N.eqb (ch "/")) u) in *.
  destruct (trim_end_matches_prefix (N.eqb (ch "/")) u) as (k & Hk & _). fold r in Hk.
  assert (starts_with (lit "https://") r || starts_with (lit "http://") r = true) as Hs'
    by (eapply scheme_prefix; [by rewrite <-Hk|done]).
  assert (Forall (console_char u) r) as Hr by (eapply Forall_contained; [|exact Hf];
    rewrite Hk; apply contains_app_l, contains_refl).
  split; [done|]. split; [done|]. split.
  { eapply Forall_impl; [exact Hr|]. by intros c (? & ? & ? & ? & _). }
  apply console_url_fixed; try done.
  - eapply Forall_impl; [exact Hr|]. by intros c (? & ? & ? & ? & _).
  - apply not_true_iff_false. intros Hc. rewrite Hk in Hn. by rewrite contains_app_l in Hn.
Qed.

Lemma console_url_normalized_witness :
  normalized_jenkins_console_url (lit " https://host/job/a/1/console/ ") = Some (lit "https://host/job/a/1/console")
  /\ ends_with (lit "/console") (lit "https://host/job/a/1/console") = true.
Proof.
  split; [by vm_compute|].
  apply (console_url_normalized (lit " https://host/job/a/1/console/ ") (lit "https://host/job/a/1/console")).
  by vm_compute.
Defined.
