(* ===== verification/Replies.v ===== *)
(** * Replies of [src/main.rs]: from Codex output to the text that is posted

    Codex output is parsed, its parts are shortened and escaped, links are limited to known
    Jenkins logs and excerpts to what those logs contain; the result is cut to Webex's
    limits and carries the hidden marker of the message it answers. *)

From S2P Require Import Prelude Text Paths Config Webex Policy Markers Jenkins.

Local Open Scope N_scope.

(** ** Constants and data *)

Definition REPLY_LIMIT_CHARS : N := 6000.
Definition FORWARD_MARKDOWN_LIMIT_BYTES : N := 4000.
Definition JENKINS_DIAGNOSIS_EXCERPT_LIMIT : N := 240.

Inductive JenkinsDiagnosisVerdict : Type :=
| InfraFalseAlarm
| LikelyProductTestFailure
| NotEnoughEvidence.

Inductive JenkinsDiagnosisExcerptFormat : Type :=
| InlineCode
| BlockQuote.

Record JenkinsDiagnosisReply : Type := mkJenkinsDiagnosisReply {
  verdict : JenkinsDiagnosisVerdict;
  reason : str;
  dr_log_url : option str;
  dr_excerpt : option str;
  dr_excerpt_format : JenkinsDiagnosisExcerptFormat
}.

Record JenkinsFollowupReply : Type := mkJenkinsFollowupReply {
  answer : str;
  include_evidence : bool;
  fr_log_url : option str;
  fr_excerpt : option str;
  fr_excerpt_format : JenkinsDiagnosisExcerptFormat
}.

(** ** Parsing Codex output *)

Definition extract_json_object (output : str) : option str :=
  let trimmed := trim output in
  if starts_with (lit "{") trimmed && ends_with (lit "}") trimmed then Some trimmed
  else
    match find_str (lit "{") output with
    | None => None
    | Some (_, from) =>
        (* up to the last closing brace; there is none when it comes before the start *)
        let body := trim_end_matches (fun c => negb (c =? ch "}")) from in
        if is_empty body then None else Some (trim body)
    end.

(** [#[serde(rename_all = snake_case)]]; a unit variant is a string or a one-entry object. *)
Definition verdict_named (s : str) : option JenkinsDiagnosisVerdict :=
  if str_eqb s (lit "infra_false_alarm") then Some InfraFalseAlarm
  else if str_eqb s (lit "likely_product_test_failure") then Some LikelyProductTestFailure
  else if str_eqb s (lit "not_enough_evidence") then Some NotEnoughEvidence
  else None.

Definition verdict_field (o : option Json) : option JenkinsDiagnosisVerdict :=
  match o with
  | Some (JString s) => verdict_named s
  | Some (JObject [(s, JNull)]) => verdict_named s
  | _ => None
  end.

Definition deserialize_jenkins_excerpt_format (o : option Json) : JenkinsDiagnosisExcerptFormat :=
  match o with
  | Some (JString value) =>
      if any (str_eqb (to_ascii_lowercase (trim value))) [lit "block_quote"; lit "blockquote"; lit "quote"]
      then BlockQuote else InlineCode
  | _ => InlineCode
  end.

Definition decode_diagnosis (v : Json) : option JenkinsDiagnosisReply :=
  match v with
  | JObject fields =>
      vd ← unique_field [lit "verdict"] fields ≫= verdict_field;
      rs ← unique_field [lit "reason"] fields ≫= string_field;
      lu ← unique_field [lit "log_url"] fields ≫= opt_string_field;
      ex ← unique_field [lit "excerpt"] fields ≫= opt_string_field;
      ef ← unique_field [lit "excerpt_format"; lit "excerpt_style"] fields;
      Some (mkJenkinsDiagnosisReply vd rs lu ex (deserialize_jenkins_excerpt_format ef))
  | _ => None
  end.

Definition decode_followup (v : Json) : option JenkinsFollowupReply :=
  match v with
  | JObject fields =>
      an ← unique_field [lit "answer"] fields ≫= string_field;
      ie ← unique_field [lit "include_evidence"] fields ≫= bool_field;
      lu ← unique_field [lit "log_url"] fields ≫= opt_string_field;
      ex ← unique_field [lit "excerpt"] fields ≫= opt_string_field;
      ef ← unique_field [lit "excerpt_format"; lit "excerpt_style"] fields;
      Some (mkJenkinsFollowupReply an ie lu ex (deserialize_jenkins_excerpt_format ef))
  | _ => None
  end.

(** ** Escaping and shortening *)

Definition is_formatting (c : char) : bool := one_of [92; 96; 42; 95; 91; 93; 40; 41] c.

Definition escape_char (c : char) : str :=
  if is_formatting c then [92; c]
  else if c =? ch "&" then lit "&amp;"
  else if c =? ch "<" then lit "&lt;"
  else if c =? ch ">" then lit "&gt;"
  else [c].

Definition escape_markdown_plain_text (value : str) : str := concat (map escape_char value).

Definition is_end_punctuation (c : char) : bool := one_of [46; 33; 63; 32; 9] c.

(** Up to the first full stop, exclamation or question mark that ends a word. *)
Fixpoint first_sentence (s : str) : str :=
  match s with
  | [] => []
  | c :: s' =>
      if one_of (lit ".!?") c && match s' with [] => true | d :: _ => is_whitespace d end then []
      else c :: first_sentence s'
  end.

Definition collapse_whitespace (s : str) : str := join [32] (split_whitespace s).

Definition concise_reason (reason : str) : str :=
  let normalised := trim (trim_matches is_end_punctuation (collapse_whitespace reason)) in
  if is_empty normalised then lit "diagnostic evidence is inconclusive"
  else trim_matches is_end_punctuation (first_sentence normalised).

Definition concise_followup_answer (answer : str) : str :=
  let normalised := trim (trim_matches is_end_punctuation (collapse_whitespace answer)) in
  if is_empty normalised then lit "I do not have enough evidence to answer that follow-up"
  else trim_to_chars normalised (REPLY_LIMIT_CHARS / 2).

Definition sanitize_reply_markdown (markdown : str) : str := replace (lit "<@") (lit "&lt;@") markdown.

(** ** Excerpts *)

Definition sanitize_jenkins_excerpt (value : str) : option str :=
  let sanitized := trim (List.filter (fun c => negb (is_control c && negb (one_of [10; 9] c))) (trim value)) in
  if is_empty sanitized then None else Some (trim_to_chars sanitized JENKINS_DIAGNOSIS_EXCERPT_LIMIT).

Definition effective_excerpt_format (excerpt : str) (requested : JenkinsDiagnosisExcerptFormat)
  : JenkinsDiagnosisExcerptFormat :=
  match requested with
  | InlineCode => if negb (contains_char 96 excerpt) && negb (contains_char 10 excerpt) then InlineCode else BlockQuote
  | BlockQuote => BlockQuote
  end.

Definition escape_blockquote_excerpt (value : str) : str := escape_markdown_plain_text value.

Definition blockquote_line (line : str) : str :=
  if is_empty (trim line) then lit ">" else lit "> " ++ escape_blockquote_excerpt line.

Definition blockquote_excerpt (excerpt : str) : str := join [10] (map blockquote_line (lines excerpt)).

Definition append_jenkins_excerpt (reply : str) (excerpt : option str) (format : JenkinsDiagnosisExcerptFormat) : str :=
  match excerpt ≫= sanitize_jenkins_excerpt with
  | None => reply
  | Some excerpt =>
      match effective_excerpt_format excerpt format with
      | InlineCode => reply ++ [10; 96] ++ excerpt ++ [96]
      | BlockQuote => reply ++ [10] ++ blockquote_excerpt excerpt
      end
  end.

(** ** Rendering *)

(** The URL Codex asked for, when it is one of the allowed logs. *)
Definition requested_log_url (log_url : option str) (allowed_log_urls : list str) : option str :=
  match log_url ≫= normalized_jenkins_console_url with
  | Some url => if any (fun allowed => str_eqb allowed url) allowed_log_urls then Some url else None
  | None => None
  end.

Definition log_link (url : str) : str := lit " [log](<" ++ url ++ lit ">)".

Definition verdict_prefix (v : JenkinsDiagnosisVerdict) : str :=
  match v with
  | InfraFalseAlarm => lit "**Jenkins infra false alarm:**"
  | LikelyProductTestFailure => lit "**Likely product/test failure:**"
  | NotEnoughEvidence => lit "**Not enough evidence:**"
  end.

Definition render_jenkins_diagnosis_reply (reply : JenkinsDiagnosisReply) (allowed_log_urls : list str)
  (fallback_log_url verified_excerpt : option str) : str :=
  let reason_is_blank := is_empty (split_whitespace (reason reply)) in
  let vd := if reason_is_blank then NotEnoughEvidence else verdict reply in
  let rs := if reason_is_blank then lit "diagnostic evidence is inconclusive"
            else escape_markdown_plain_text (concise_reason (reason reply)) in
  let '(log_url, excerpt) :=
    match requested_log_url (dr_log_url reply) allowed_log_urls with
    | Some url => (Some url, verified_excerpt)
    | None => (fallback_log_url ≫= normalized_jenkins_console_url, None)
    end in
  match log_url with
  | Some url => append_jenkins_excerpt (verdict_prefix vd ++ [32] ++ rs ++ log_link url) excerpt (dr_excerpt_format reply)
  | None => verdict_prefix vd ++ [32] ++ rs
  end.

Definition render_jenkins_followup_reply (reply : JenkinsFollowupReply) (allowed_log_urls : list str)
  (verified_excerpt : option str) : str :=
  let an := escape_markdown_plain_text (concise_followup_answer (answer reply)) in
  let '(log_url, excerpt) :=
    if include_evidence reply then (requested_log_url (fr_log_url reply) allowed_log_urls, verified_excerpt)
    else (None, None) in
  match log_url with
  | Some url => append_jenkins_excerpt (an ++ log_link url) excerpt (fr_excerpt_format reply)
  | None => an
  end.

Section rendering.
Context `{JsonText}.

Definition parse_jenkins_diagnosis_json (output : str) : option JenkinsDiagnosisReply :=
  json ← extract_json_object output;
  v ← parse_json json;
  decode_diagnosis v.

Definition parse_jenkins_followup_json (output : str) : option JenkinsFollowupReply :=
  json ← extract_json_object output;
  v ← parse_json json;
  decode_followup v.

Definition render_jenkins_diagnosis_json_with_allowed_urls (output : str) (allowed_log_urls : list str)
  (verified_excerpt : option str) : str :=
  let fallback_log_url := match allowed_log_urls with [url] => Some url | _ => None end in
  match parse_jenkins_diagnosis_json output with
  | Some reply => render_jenkins_diagnosis_reply reply allowed_log_urls fallback_log_url verified_excerpt
  | None =>
      render_jenkins_diagnosis_reply
        (mkJenkinsDiagnosisReply NotEnoughEvidence (lit "Codex did not return valid diagnosis JSON") fallback_log_url
           None InlineCode) allowed_log_urls fallback_log_url None
  end.

Definition render_jenkins_followup_json_with_allowed_urls (output : str) (allowed_log_urls : list str)
  (verified_excerpt : option str) : str :=
  match parse_jenkins_followup_json output with
  | Some reply => render_jenkins_followup_reply reply allowed_log_urls verified_excerpt
  | None =>
      render_jenkins_followup_reply
        (mkJenkinsFollowupReply (lit "I could not parse the follow-up answer") false None None InlineCode)
        allowed_log_urls None
  end.

Definition render_reply_text_with_verified_excerpt (format : ReplyFormat) (output : str) (allowed_log_urls : list str)
  (verified_excerpt : option str) : str :=
  match format with
  | Markdown => output
  | JenkinsDiagnosisJson => render_jenkins_diagnosis_json_with_allowed_urls output allowed_log_urls verified_excerpt
  | JenkinsFollowupJson => render_jenkins_followup_json_with_allowed_urls output allowed_log_urls verified_excerpt
  end.

(** The log and the excerpt a reply quotes, before they are checked. *)
Definition quoted_excerpt (format : ReplyFormat) (output : str) : option (str * str) :=
  match format with
  | JenkinsDiagnosisJson =>
      reply ← parse_jenkins_diagnosis_json output;
      url ← dr_log_url reply;
      excerpt ← dr_excerpt reply;
      Some (url, excerpt)
  | JenkinsFollowupJson =>
      reply ← parse_jenkins_followup_json output;
      if negb (include_evidence reply) then None
      else
        url ← fr_log_url reply;
        excerpt ← fr_excerpt reply;
        Some (url, excerpt)
  | Markdown => None
  end.

Definition verified_jenkins_excerpt `{EvidenceOps} (format : ReplyFormat) (output : str)
  (evidence_logs : gmap (list N) JenkinsEvidenceLog) : option str :=
  '(log_url, excerpt) ← quoted_excerpt format output;
  normalized_url ← normalized_jenkins_console_url log_url;
  evidence ← evidence_logs !! normalized_url;
  sanitized_excerpt ← sanitize_jenkins_excerpt excerpt;
  match read_jenkins_evidence_log (ev_path evidence) with
  | Err _ => None
  | Ok contents =>
      if negb (bool_decide (jenkins_evidence_digest contents = sha256 evidence)) then None
      else
        log ← from_utf8 contents;
        if contains sanitized_excerpt log then Some sanitized_excerpt else None
  end.
End rendering.

(** ** Messages *)

(** The longest prefix of at most [limit] bytes, found character by character. *)
Fixpoint utf8_prefix (limit index : N) (value : str) : str :=
  match value with
  | [] => []
  | c :: value' =>
      let next := index + len_utf8 c in
      if limit <? next then [] else c :: utf8_prefix limit next value'
  end.

Definition trim_to_utf8_bytes (value : str) (max_bytes : N) : str :=
  if byte_len value <=? max_bytes then value
  else if max_bytes =? 0 then []
  else if max_bytes <=? byte_len truncation_suffix then take_N max_bytes truncation_suffix
  else utf8_prefix (max_bytes - byte_len truncation_suffix) 0 value ++ truncation_suffix.

Definition quote_line (line : str) : str := if is_empty (trim line) then lit ">" else lit "> " ++ line.

Definition quote_body (body : str) : str :=
  if is_empty (trim body) then lit "> [empty message]" else join [10] (map quote_line (lines body)).

Definition forward_prefix (m : Message) (source_room_id message_id : str) : str :=
  let sender := default (lit "unknown") (opt_or (person_email m) (person_id m)) in
  lit "**Forwarded Webex message for staging triage**" ++ [10; 10]
  ++ lit "Source room: `" ++ source_room_id ++ lit "`" ++ [10]
  ++ lit "Source message: `" ++ message_id ++ lit "`" ++ [10]
  ++ lit "Sender: `" ++ sender ++ lit "`" ++ [10; 10].

Definition prepare_forward_markdown (m : Message) (source_room_id message_id marker : str) : str :=
  let prefix := forward_prefix m source_room_id message_id in
  let suffix := [10; 10] ++ hidden_marker_comment marker in
  let body_limit := N.max (sat_sub (sat_sub FORWARD_MARKDOWN_LIMIT_BYTES (byte_len prefix)) (byte_len suffix)) 1 in
  let body := sanitize_reply_markdown (default [] (opt_or (markdown m) (opt_or (text m) (html m)))) in
  prefix ++ trim_to_utf8_bytes (quote_body body) body_limit ++ suffix.

Definition prepare_reply_markdown (markdown marker : str) : str :=
  let marker_footer := hidden_marker_comment marker in
  let marker_chars := sat_add (char_count marker_footer) 2 in
  let truncation_chars := char_count truncation_suffix in
  let visible_limit := N.max (sat_sub (sat_sub REPLY_LIMIT_CHARS marker_chars) truncation_chars) 1 in
  trim_to_chars (sanitize_reply_markdown markdown) visible_limit ++ [10; 10] ++ marker_footer.

Definition reply_markdown_message (room parent md : str) : CreateMessage := mkCreateMessage (Some room) (Some parent) (Some md).
Definition top_level_markdown_message (room md : str) : CreateMessage := mkCreateMessage (Some room) None (Some md).

(** ** Specifications *)

(** [displays s v]: the Markdown text [s] shows as the plain text [v], each character of
    which is written literally, behind a backslash or as a character entity. *)
Inductive displays : str -> str -> Prop :=
| displays_nil : displays [] []
| displays_plain c s v : escape_char c = [c] -> displays s v -> displays (c :: s) (c :: v)
| displays_backslash c s v : is_formatting c = true -> displays s v -> displays (92 :: c :: s) (c :: v)
| displays_amp s v : displays s v -> displays (lit "&amp;" ++ s) (ch "&" :: v)
| displays_lt s v : displays s v -> displays (lit "&lt;" ++ s) (ch "<" :: v)
| displays_gt s v : displays s v -> displays (lit "&gt;" ++ s) (ch ">" :: v).

(** A link target the program knows: an allowed log, or the only allowed one. *)
Definition linkable (allowed : list str) (url : str) : Prop :=
  url ∈ allowed \/ exists sole, allowed = [sole] /\ normalized_jenkins_console_url sole = Some url.

(** What follows the answer: nothing, or one link and, for an allowed log only, the
    verified excerpt. *)
Definition evidence_tail (allowed : list str) (verified : option str) (tail : str) : Prop :=
  tail = [] \/
  exists url, linkable allowed url /\
    (tail = log_link url
     \/ url ∈ allowed /\ exists e format, verified = Some e /\ tail = append_jenkins_excerpt (log_link url) (Some e) format).

Definition single_line (s : str) : Prop := Forall (fun c => c = 32 \/ is_whitespace c = false) s.

(** ** Lemmas: escaping *)

Lemma escape_displays (v : str) : displays (escape_markdown_plain_text v) v.
Proof.
  unfold escape_markdown_plain_text. induction v as [|c v IH]; cbn [map concat]; [constructor|].
  unfold escape_char. destruct (is_formatting c) eqn:Ef; [by constructor|].
  destruct (N.eqb_spec c (ch "&")) as [->|H1]; [by apply displays_amp|].
  destruct (N.eqb_spec c (ch "<")) as [->|H2]; [by apply displays_lt|].
  destruct (N.eqb_spec c (ch ">")) as [->|H3]; [by apply displays_gt|].
  apply (displays_plain c); [|done]. unfold escape_char. rewrite Ef. apply N.eqb_neq in H1, H2, H3. by rewrite H1, H2, H3.
Qed.

Lemma escape_char_plain c : escape_char c = [c] -> c <> 92 /\ c <> 38.
Proof. intros H. split; intros ->; by vm_compute in H. Qed.

Lemma displays_functional (s v v' : str) : displays s v -> displays s v' -> v = v'.
Proof.
  intros H. revert v'. induction H as [|c s v Hc _ IH|c s v Hc _ IH|s v _ IH|s v _ IH|s v _ IH]; intros v' H'.
  1: by inversion H'.
  all: inversion H' as [|? ? ? Hp| | | |]; subst; try (f_equal; by auto).
  all: try (by apply escape_char_plain in Hp as [? ?]).
  all: by apply escape_char_plain in Hc as [? ?].
Qed.

(** Escaped text holds no raw angle bracket. *)
Lemma displays_no_angle (s v : str) : displays s v -> (ch "<" ∉ s) /\ (ch ">" ∉ s).
Proof.
  assert (forall c, escape_char c = [c] -> c <> ch "<" /\ c <> ch ">") as Hp
    by (intros c H; split; intros ->; by vm_compute in H).
  induction 1 as [|c s v Hc _ [I1 I2]|c s v Hc _ [I1 I2]|s v _ [I1 I2]|s v _ [I1 I2]|s v _ [I1 I2]].
  - split; apply not_elem_of_nil.
  - rewrite !not_elem_of_cons. apply Hp in Hc. naive_solver.
  - rewrite !not_elem_of_cons. repeat split; try done; intros <-; by vm_compute in Hc.
  - split; intros [H|H]%elem_of_app; try done; vm_compute in H; set_solver.
  - split; intros [H|H]%elem_of_app; try done; vm_compute in H; set_solver.
  - split; intros [H|H]%elem_of_app; try done; vm_compute in H; set_solver.
Qed.

(** ** Lemmas: shortening *)

Lemma collapse_single_line (s : str) : single_line (collapse_whitespace s).
Proof.
  unfold collapse_whitespace, split_whitespace. apply join_Forall; [by repeat constructor; left|].
  apply Forall_forall. intros w Hw%list_elem_of_In. apply filter_In in Hw as [Hw%list_elem_of_In _].
  eapply Forall_impl; [by eapply split_by_piece_free|]. by right.
Qed.

Lemma first_sentence_prefix (s : str) : exists k, s = first_sentence s ++ k.
Proof.
  induction s as [|c s (k & IH)]; cbn [first_sentence]; [by exists []|].
  destruct (_ && _); [by exists (c :: s)|]. exists k. cbn. by rewrite <-IH.
Qed.

Lemma single_line_test (s : str) : all (fun c => (c =? 32) || negb (is_whitespace c)) s = true -> single_line s.
Proof.
  rewrite all_true. intros H. eapply Forall_impl; [exact H|]. intros c Hc. cbv beta in Hc.
  apply orb_true_iff in Hc as [Hc%N.eqb_eq|Hc%negb_true_iff]; auto.
Qed.

Lemma concise_reason_single_line (s : str) : single_line (concise_reason s).
Proof.
  unfold concise_reason. set (n := trim _). destruct (is_empty n).
  - by apply single_line_test.
  - apply trim_matches_Forall. assert (single_line n) as Hn by apply trim_matches_Forall, trim_matches_Forall, collapse_single_line.
    destruct (first_sentence_prefix n) as (k & Hk). rewrite Hk in Hn. by apply Forall_app in Hn as [? _].
Qed.

Lemma requested_log_url_allowed log_url allowed url :
  requested_log_url log_url allowed = Some url -> url ∈ allowed.
Proof.
  unfold requested_log_url. destruct (log_url ≫= _) as [u|]; [|done].
  destruct (any _ _) eqn:E; [|done]. intros [= <-]. by apply any_true in E as (x & Hx & ->%str_eqb_eq).
Qed.

Lemma append_excerpt_app (a b : str) e format :
  append_jenkins_excerpt (a ++ b) e format = a ++ append_jenkins_excerpt b e format.
Proof.
  unfold append_jenkins_excerpt. destruct (e ≫= _) as [x|]; [|done].
  destruct (effective_excerpt_format x format); by rewrite <-!app_assoc.
Qed.

Lemma append_no_excerpt (a : str) format : append_jenkins_excerpt a None format = a.
Proof. done. Qed.

(** The tail of a diagnosis reply, whatever was parsed. *)
Lemma diagnosis_reply_parts reply allowed fallback verified :
  (forall url, fallback = Some url -> allowed = [url]) ->
  exists v rs tail, render_jenkins_diagnosis_reply reply allowed fallback verified = verdict_prefix v ++ [32] ++ rs ++ tail
    /\ (exists shown, displays rs shown /\ single_line shown) /\ evidence_tail allowed verified tail.
Proof.
  intros Hf. unfold render_jenkins_diagnosis_reply. set (blank := is_empty _).
  assert (exists shown, displays (if blank then lit "diagnostic evidence is inconclusive"
      else escape_markdown_plain_text (concise_reason (reason reply))) shown /\ single_line shown) as Hr.
  { destruct blank.
    - exists (concise_reason []). split; [exact (escape_displays (concise_reason []))|apply concise_reason_single_line].
    - eexists. split; [apply escape_displays|apply concise_reason_single_line]. }
  destruct (requested_log_url _ _) as [url|] eqn:E.
  - eexists _, _, _. split; [by rewrite !append_excerpt_app|]. split; [exact Hr|].
    apply requested_log_url_allowed in E. right. exists url. split; [by left|].
    destruct verified as [e|]; [|by left]. right. split; [done|]. eauto.
  - destruct (fallback ≫= _) as [url|] eqn:Ef.
    + eexists _, _, _. split; [by rewrite !append_excerpt_app|]. split; [exact Hr|].
      right. exists url. split; [|by left]. right.
      destruct fallback as [f|]; [|done]. exists f. split; [by apply Hf|done].
    + eexists _, _, []. rewrite app_nil_r. split; [done|]. split; [exact Hr|by left].
Qed.

Lemma followup_reply_parts reply allowed verified :
  exists an tail, render_jenkins_followup_reply reply allowed verified = an ++ tail
    /\ (exists shown, displays an shown) /\ evidence_tail allowed verified tail
    /\ (include_evidence reply = false -> tail = []).
Proof.
  unfold render_jenkins_followup_reply. eexists.
  destruct (include_evidence reply); [destruct (requested_log_url _ _) as [url|] eqn:E|].
  - eexists. split; [by rewrite append_excerpt_app|]. split; [eexists; apply escape_displays|]. split; [|done].
    apply requested_log_url_allowed in E. right. exists url. split; [by left|].
    destruct verified as [e|]; [|by left]. right. split; [done|]. eauto.
  - exists []. rewrite app_nil_r. split; [done|]. split; [eexists; apply escape_displays|]. split; [by left|done].
  - exists []. rewrite app_nil_r. split; [done|]. split; [eexists; apply escape_displays|]. split; [by left|done].
Qed.

(** ** Lemmas: excerpts *)

Lemma sanitize_excerpt_bounds (value e : str) :
  sanitize_jenkins_excerpt value = Some e ->
  e <> [] /\ char_count e <= JENKINS_DIAGNOSIS_EXCERPT_LIMIT + char_count truncation_suffix
  /\ Forall (fun c => is_control c = false \/ c = 10 \/ c = 9) e.
Proof.
  unfold sanitize_jenkins_excerpt. set (s := trim _). destruct (is_empty s) eqn:Ee; [done|]. intros [= <-].
  apply is_empty_false in Ee. split; [|split; [apply trim_to_chars_count|]].
  - rewrite trim_to_chars_spec. destruct (_ <=? _); [done|]. by destruct s.
  - assert (Forall (fun c => is_control c = false \/ c = 10 \/ c = 9) s) as Hs.
    { apply trim_matches_Forall, Forall_forall. intros c Hc%list_elem_of_In. apply filter_In in Hc as [_ Hc].
      unfold one_of, any in Hc. cbn in Hc. destruct (is_control c); [right|by left].
      destruct (N.eqb_spec c 10); [by left|]. destruct (N.eqb_spec c 9); [by right|done]. }
    rewrite trim_to_chars_spec. destruct (_ <=? _); [done|]. apply Forall_app. split.
    + by apply Forall_take.
    + assert (all (fun c => negb (is_control c) || (c =? 10)) truncation_suffix = true) as Ht by done.
      apply all_true in Ht. eapply Forall_impl; [exact Ht|]. intros c Hc. cbv beta in Hc.
      apply orb_true_iff in Hc as [Hc%negb_true_iff|Hc%N.eqb_eq]; auto.
Qed.

(** ** Lemmas: limits *)

Lemma char_count_app (a b : str) : char_count (a ++ b) = char_count a + char_count b.
Proof. apply len_app. Qed.

Lemma hidden_comment_count (i : str) :
  char_count (hidden_marker_comment (reply_marker i)) = 17 + 2 * byte_len i.
Proof.
  unfold hidden_marker_comment, reply_marker. rewrite !char_count_app, marker_hex_length.
  change (char_count (lit "<!-- ")) with 5. change (char_count (lit " -->")) with 4.
  change (char_count reply_marker_prefix) with 8. lia.
Qed.

Lemma utf8_prefix_bound limit index (value : str) :
  index <= limit -> index + byte_len (utf8_prefix limit index value) <= limit.
Proof.
  revert index. induction value as [|c value IH]; intros index Hi; cbn [utf8_prefix]; [cbn; lia|].
  destruct (N.ltb_spec limit (index + len_utf8 c)); [cbn; lia|]. rewrite byte_len_cons.
  specialize (IH (index + len_utf8 c)). lia.
Qed.

Lemma utf8_prefix_prefix limit index (value : str) : exists k, value = utf8_prefix limit index value ++ k.
Proof.
  revert index. induction value as [|c value IH]; intros index; cbn [utf8_prefix]; [by exists []|].
  destruct (limit <? index + len_utf8 c); [by exists (c :: value)|].
  destruct (IH (index + len_utf8 c)) as (k & Hk). exists k. cbn. by rewrite <-Hk.
Qed.

Lemma trim_to_utf8_bytes_bound (value : str) max_bytes : byte_len (trim_to_utf8_bytes value max_bytes) <= max_bytes.
Proof.
  unfold trim_to_utf8_bytes. destruct (N.leb_spec (byte_len value) max_bytes); [done|].
  destruct (N.eqb_spec max_bytes 0); [cbn; lia|].
  change (byte_len truncation_suffix) with 12. destruct (N.leb_spec max_bytes 12).
  - assert (byte_len (take_N max_bytes truncation_suffix) = char_count (take_N max_bytes truncation_suffix)) as ->.
    { apply byte_len_ascii. assert (Forall (fun c => is_ascii_char c = true) truncation_suffix) as Ha by by repeat constructor.
      rewrite <-(take_drop_N max_bytes) in Ha. by apply Forall_app in Ha as [? _]. }
    unfold char_count. rewrite len_take_N. change (len truncation_suffix) with 12. lia.
  - rewrite byte_len_app. change (byte_len truncation_suffix) with 12.
    pose proof (utf8_prefix_bound (max_bytes - 12) 0 value). lia.
Qed.

(** ** Lemmas: markers in what is posted *)

Lemma contains_trim_to_chars p (s : str) n :
  p <> [] -> 10 ∉ p -> contains p (lit "[truncated]") = false -> contains p s = false ->
  contains p (trim_to_chars s n) = false.
Proof.
  intros Hp Hx Ht Hs. rewrite trim_to_chars_spec. destruct (_ <=? _); [done|].
  unfold truncation_suffix, contains. rewrite find_str_separator; [|done..|by apply contains_take].
  unfold contains in Ht. by destruct (find_str p (lit "[truncated]")).
Qed.

Lemma reply_marker_prefix_no_newline : 10 ∉ reply_marker_prefix.
Proof. vm_compute. set_solver. Qed.

(** The visible part of a reply. *)
Definition visible_reply (markdown marker : str) : str :=
  trim_to_chars (sanitize_reply_markdown markdown)
    (N.max (sat_sub (sat_sub REPLY_LIMIT_CHARS (sat_add (char_count (hidden_marker_comment marker)) 2)) (char_count truncation_suffix)) 1).

Lemma visible_reply_no_mention markdown marker : contains (lit "<@") (visible_reply markdown marker) = false.
Proof.
  apply contains_trim_to_chars; [done|vm_compute; set_solver|done|].
  apply (replace_removes_pair 60 64 (lit "&lt;@") (lit "&lt;")); [done|done|by repeat constructor|done].
Qed.

Lemma visible_reply_no_marker markdown marker :
  contains reply_marker_prefix markdown = false -> contains reply_marker_prefix (visible_reply markdown marker) = false.
Proof.
  intros H. apply contains_trim_to_chars; [done|apply reply_marker_prefix_no_newline|done|].
  apply not_true_iff_false. intros Hc. apply contains_replace_go in Hc; [by rewrite H in Hc|done|done|].
  repeat constructor; vm_compute; set_solver.
Qed.

Lemma marker_comment_no_at (i : str) :
  scalar_text i -> 64 ∉ hidden_marker_comment (reply_marker i).
Proof.
  intros H%marker_hex_hexdigits. unfold hidden_marker_comment, reply_marker. rewrite !elem_of_app.
  intros [Hi|[[Hi|Hi]|Hi]].
  - vm_compute in Hi. set_solver.
  - vm_compute in Hi. set_solver.
  - rewrite Forall_forall in H. by specialize (H _ Hi).
  - vm_compute in Hi. set_solver.
Qed.

(** The shape both messages share, as the lemmas on hidden comments read it. *)
Lemma reply_comment_shape (v i : str) :
  v ++ [10; 10] ++ hidden_marker_comment (reply_marker i)
  = v ++ [10; 10] ++ lit "<!-- " ++ ((119 :: lit "gb-ref:") ++ marker_hex i) ++ lit " -->".
Proof. done. Qed.

Lemma w_q_letters : (119 ∉ lit "gb-ref:") /\ (10 ∉ lit "gb-ref:").
Proof. split; vm_compute; set_solver. Qed.

Lemma posted_shape md i :
  prepare_reply_markdown md (reply_marker i)
  = visible_reply md (reply_marker i) ++ [10; 10] ++ hidden_marker_comment (reply_marker i).
Proof. unfold prepare_reply_markdown, visible_reply. reflexivity. Qed.

Lemma visible_reply_count md marker :
  char_count (visible_reply md marker)
  <= N.max (REPLY_LIMIT_CHARS - sat_add (char_count (hidden_marker_comment marker)) 2 - 12) 1 + 12.
Proof.
  unfold visible_reply, sat_sub. change (char_count truncation_suffix) with 12.
  etransitivity; [apply trim_to_chars_count|]. lia.
Qed.

Lemma posted_count md (i : str) :
  byte_len i <= 2900 -> char_count (prepare_reply_markdown md (reply_marker i)) <= REPLY_LIMIT_CHARS.
Proof.
  intros Hl. rewrite posted_shape, !char_count_app, hidden_comment_count.
  pose proof (visible_reply_count md (reply_marker i)) as Hv. rewrite hidden_comment_count in Hv.
  assert (char_count [10; 10] = 2) as H2 by done. rewrite H2.
  revert Hv. generalize (char_count (visible_reply md (reply_marker i))). generalize (byte_len i) Hl. clear.
  unfold REPLY_LIMIT_CHARS, sat_add, u64_max. intros b Hb n Hn. lia.
Qed.

Lemma posted_no_mention md (i : str) :
  scalar_text i -> contains (lit "<@") (prepare_reply_markdown md (reply_marker i)) = false.
Proof.
  intros Hs. rewrite posted_shape. apply contains_pair_app; [apply visible_reply_no_mention|].
  rewrite elem_of_app. intros [Hi|Hi]; [vm_compute in Hi; set_solver|by apply (marker_comment_no_at i Hs)].
Qed.

Lemma posted_marker_ids md (i : str) :
  scalar_text i -> i <> [] -> contains reply_marker_prefix md = false ->
  marker_message_ids_from_body (prepare_reply_markdown md (reply_marker i)) reply_marker_prefix = [i].
Proof.
  intros Hs Hn Hm. rewrite posted_shape, reply_comment_shape. destruct w_q_letters as [Hw Hnl].
  apply (marker_ids_comment (lit "gb-ref:") Hw Hnl); [by apply visible_reply_no_marker|done..].
Qed.

Lemma posted_contains md (i a : str) :
  scalar_text i -> scalar_text a -> contains reply_marker_prefix md = false ->
  contains (reply_marker a) (prepare_reply_markdown md (reply_marker i)) = true <-> exists k, as_bytes i = as_bytes a ++ k.
Proof.
  intros Hs Ha Hm. rewrite posted_shape, reply_comment_shape. destruct w_q_letters as [Hw Hnl].
  apply (contains_comment (lit "gb-ref:") Hw Hnl); [by apply visible_reply_no_marker|done..].
Qed.

(** ** Properties *)

Definition sample_json : JsonText := fun text =>
  if str_eqb text (lit "{diagnosis}") then
    Some (JObject [(lit "verdict", JString (lit "infra_false_alarm")); (lit "reason", JString (lit "Agent *lost*. More."));
                   (lit "log_url", JString (lit "https://host/job/a/1/console")); (lit "excerpt", JString (lit "FAILURE"))])
  else None.

(** escaping is faithful and total: the escaped text displays exactly the original
    characters and nothing else, so distinct texts stay distinct, and it holds no raw angle
    bracket, hence no HTML and no mention. *)
Theorem escape_markdown_faithful (value : str) :
  displays (escape_markdown_plain_text value) value
  /\ (forall shown, displays (escape_markdown_plain_text value) shown -> shown = value)
  /\ (ch "<" ∉ escape_markdown_plain_text value) /\ (ch ">" ∉ escape_markdown_plain_text value).
Proof.
  split; [apply escape_displays|]. split; [|by apply (displays_no_angle _ value), escape_displays].
  intros shown H. eapply displays_functional; [exact H|apply escape_displays].
Qed.

(** C15: whatever Codex prints, a Jenkins diagnosis reply is one of the three verdict
    headings, a single-line reason shown literally, and at most one link, which points to
    an allowed log (or to the only allowed one); an excerpt follows only when it was
    verified and the link is an allowed log. *)
Theorem diagnosis_reply_confined `{JsonText} (output : str) (allowed : list str) (verified : option str) :
  exists v rs tail,
    render_reply_text_with_verified_excerpt JenkinsDiagnosisJson output allowed verified = verdict_prefix v ++ [32] ++ rs ++ tail
    /\ (exists shown, displays rs shown /\ single_line shown)
    /\ evidence_tail allowed verified tail.
Proof.
  cbn [render_reply_text_with_verified_excerpt]. unfold render_jenkins_diagnosis_json_with_allowed_urls.
  set (fallback := match allowed with [url] => Some url | _ => None end).
  assert (forall url, fallback = Some url -> allowed = [url]) as Hf.
  { unfold fallback. intros url. destruct allowed as [|a [|b l]]; [done|by intros [= ->]|done]. }
  destruct (parse_jenkins_diagnosis_json output) as [reply|]; [by apply diagnosis_reply_parts|].
  destruct (diagnosis_reply_parts (mkJenkinsDiagnosisReply NotEnoughEvidence (lit "Codex did not return valid diagnosis JSON")
    fallback None InlineCode) allowed fallback None Hf) as (v & rs & tail & Hr & Hs & Ht).
  exists v, rs, tail. split; [done|]. split; [done|].
  destruct Ht as [?|(url & Hl & [?|(_ & e & f & ? & _)])]; [by left|right; exists url; auto|done].
Qed.

(** a follow-up reply is an answer shown literally and, only when Codex asked for
    evidence, at most one link to an allowed log with at most the verified excerpt. *)
Theorem followup_reply_confined `{JsonText} (output : str) (allowed : list str) (verified : option str) :
  exists an tail,
    render_reply_text_with_verified_excerpt JenkinsFollowupJson output allowed verified = an ++ tail
    /\ (exists shown, displays an shown) /\ evidence_tail allowed verified tail
    /\ (is_some_and (parse_jenkins_followup_json output) include_evidence = false -> tail = []).
Proof.
  cbn [render_reply_text_with_verified_excerpt]. unfold render_jenkins_followup_json_with_allowed_urls.
  destruct (parse_jenkins_followup_json output) as [reply|]; [apply followup_reply_parts|].
  destruct (followup_reply_parts (mkJenkinsFollowupReply (lit "I could not parse the follow-up answer") false None None InlineCode)
    allowed None) as (an & tail & Hr & Hs & Ht & He). exists an, tail. split; [done|]. split; [done|].
  split; [|by intros _; apply He]. rewrite He by done. by left.
Qed.

(** C14: an excerpt is only quoted from an authenticated log: the excerpt a reply may show
    occurs in the log that the evidence files under the URL Codex gave, that log still has
    the digest recorded when it was downloaded, and the excerpt is non-empty, free of
    control characters but tabs and line ends, and at most 240 characters plus the
    truncation mark. *)
Theorem verified_excerpt_authentic `{JsonText} `{EvidenceOps} (format : ReplyFormat) (output : str)
  (evidence_logs : gmap (list N) JenkinsEvidenceLog) (e : str) :
  verified_jenkins_excerpt format output evidence_logs = Some e ->
  exists raw url excerpt log contents txt,
    quoted_excerpt format output = Some (raw, excerpt)
    /\ normalized_jenkins_console_url raw = Some url
    /\ evidence_logs !! url = Some log
    /\ read_jenkins_evidence_log (ev_path log) = Ok contents
    /\ jenkins_evidence_digest contents = sha256 log
    /\ from_utf8 contents = Some txt /\ contains e txt = true
    /\ e <> [] /\ char_count e <= 240 + char_count truncation_suffix
    /\ Forall (fun c => is_control c = false \/ c = 10 \/ c = 9) e.
Proof.
  unfold verified_jenkins_excerpt. intros ([raw excerpt] & Hq & Hv)%bind_Some.
  apply bind_Some in Hv as (url & Hu & Hv). apply bind_Some in Hv as (log & Hl & Hv).
  apply bind_Some in Hv as (s & Hs & Hv). destruct (read_jenkins_evidence_log _) as [contents|] eqn:Hr; [|done].
  case_bool_decide as Hd; [|done]. cbn in Hv. apply bind_Some in Hv as (txt & Ht & Hv).
  destruct (contains s txt) eqn:Hc; [|done]. injection Hv as <-.
  destruct (sanitize_excerpt_bounds _ _ Hs) as (H1 & H2 & H3).
  exists raw, url, excerpt, log, contents, txt. auto 15.
Qed.

Definition sample_evidence_logs : gmap (list N) JenkinsEvidenceLog :=
  {[ lit "https://host/job/a/1/console" := mkJenkinsEvidenceLog (lit "/a/logs/a.log") sample_log ]}.

Lemma verified_excerpt_authentic_witness :
  @verified_jenkins_excerpt sample_json sample_evidence_ops JenkinsDiagnosisJson (lit "{diagnosis}") sample_evidence_logs
    = Some (lit "FAILURE") /\ lit "FAILURE" <> [].
Proof.
  split; [by vm_compute|].
  destruct (@verified_excerpt_authentic sample_json sample_evidence_ops JenkinsDiagnosisJson (lit "{diagnosis}")
    sample_evidence_logs (lit "FAILURE") ltac:(by vm_compute)) as (? & ? & ? & ? & ? & ? & ? & ? & ? & ? & ? & ? & ? & Hne & ?).
  exact Hne.
Defined.

(** an excerpt that was shortened is never shown from a log that does not itself contain
    the truncation mark: the check looks for the shortened text, mark included. *)
Theorem long_excerpt_needs_mark `{JsonText} `{EvidenceOps} (format : ReplyFormat) (output raw excerpt : str)
  (evidence_logs : gmap (list N) JenkinsEvidenceLog) (e : str) :
  quoted_excerpt format output = Some (raw, excerpt) ->
  240 < char_count (trim (List.filter (fun c => negb (is_control c && negb (one_of [10; 9] c))) (trim excerpt))) ->
  verified_jenkins_excerpt format output evidence_logs = Some e ->
  exists log contents txt, read_jenkins_evidence_log (ev_path log) = Ok contents /\ from_utf8 contents = Some txt
    /\ contains truncation_suffix txt = true.
Proof.
  unfold verified_jenkins_excerpt. intros Hq Hlong. rewrite Hq. cbn [mbind option_bind].
  intros (url & Hu & Hv)%bind_Some. apply bind_Some in Hv as (log & Hl & Hv).
  apply bind_Some in Hv as (s & Hs & Hv). destruct (read_jenkins_evidence_log _) as [contents|] eqn:Hr; [|done].
  destruct (negb _); [done|]. apply bind_Some in Hv as (txt & Ht & Hv).
  destruct (contains s txt) eqn:Hc; [|done]. exists log, contents, txt. split; [done|]. split; [done|].
  unfold sanitize_jenkins_excerpt in Hs. destruct (is_empty _) in Hs; [done|]. injection Hs as <-.
  rewrite trim_to_chars_spec in Hc. change (N.max JENKINS_DIAGNOSIS_EXCERPT_LIMIT 1) with 240 in Hc.
  match type of Hc with context [?n <=? 240] => assert ((n <=? 240) = false) as Hle by by apply N.leb_gt end.
  rewrite Hle in Hc. apply contains_spec in Hc as (x & y & ->). rewrite <-!app_assoc, app_assoc. apply contains_infix, contains_refl.
Qed.

Definition long_json : JsonText := fun _ =>
  Some (JObject [(lit "verdict", JString (lit "infra_false_alarm")); (lit "reason", JString (lit "x"));
                 (lit "log_url", JString (lit "https://host/job/a/1/console")); (lit "excerpt", JString (repeat 97 241))]).

Definition marked_ops : EvidenceOps := {|
  symlink_metadata _ := None; metadata _ := None; fs_canonicalize _ := None; fs_read _ := None;
  open_nofollow _ := Some (mkFileMetadata true false 252, repeat 97 240 ++ truncation_suffix);
  parse_log_index _ := None;
  sha256_digest := fun contents => take_N 17 (repeat 97 17)
|}.

Lemma long_excerpt_needs_mark_witness :
  exists e, @verified_jenkins_excerpt long_json marked_ops JenkinsDiagnosisJson (lit "{}")
    {[ lit "https://host/job/a/1/console" := mkJenkinsEvidenceLog (lit "/a") (repeat 97 17) ]} = Some e
  /\ exists txt, contains truncation_suffix txt = true.
Proof.
  eexists. split; [vm_compute; reflexivity|].
  edestruct (@long_excerpt_needs_mark long_json marked_ops JenkinsDiagnosisJson (lit "{}") (lit "https://host/job/a/1/console")
    (repeat 97 241) {[ lit "https://host/job/a/1/console" := mkJenkinsEvidenceLog (lit "/a") (repeat 97 17) ]})
    as (log & contents & txt & _ & _ & Ht); [by vm_compute|by vm_compute|vm_compute; reflexivity|].
  exists txt. exact Ht.
Defined.



(** a forwarded message is within the byte limit Webex accepts: when the heading and the
    marker leave room for one byte, the whole text has at most 4,000 bytes, whatever the
    message says, and the cut never splits a character. *)
Theorem forward_markdown_bounded (m : Message) (source_room_id message_id marker : str) :
  let prefix := forward_prefix m source_room_id message_id in
  let suffix := [10; 10] ++ hidden_marker_comment marker in
  byte_len prefix + byte_len suffix < FORWARD_MARKDOWN_LIMIT_BYTES ->
  exists quoted, prepare_forward_markdown m source_room_id message_id marker = prefix ++ quoted ++ suffix
    /\ byte_len (prepare_forward_markdown m source_room_id message_id marker) <= FORWARD_MARKDOWN_LIMIT_BYTES.
Proof.
  intros prefix suffix Hl. unfold prepare_forward_markdown. fold prefix suffix. cbv zeta.
  set (body := quote_body _). set (limit := N.max _ 1).
  exists (trim_to_utf8_bytes body limit). split; [done|]. rewrite !byte_len_app.
  pose proof (trim_to_utf8_bytes_bound body limit) as Hb. revert Hb. generalize (byte_len (trim_to_utf8_bytes body limit)).
  unfold limit, sat_sub. intros n Hb. lia.
Qed.

Lemma forward_markdown_bounded_witness :
  byte_len (prepare_forward_markdown sample_message (lit "room-1") (lit "message-1") (source_marker (lit "message-1"))) <= 4000.
Proof.
  destruct (forward_markdown_bounded sample_message (lit "room-1") (lit "message-1") (source_marker (lit "message-1")))
    as (q & _ & Hb); [by vm_compute|exact Hb].
Defined.
