(* ===== verification/Threads.v ===== *)
(** * Follow-ups and thread context of [src/main.rs]

    Which thread replies are follow-ups, the prompt a follow-up is run with, and how much
    of its thread the prompt shows. *)

From S2P Require Import Prelude Text Config Webex Policy Markers.

Local Open Scope N_scope.

(** ** Which messages are follow-ups *)

Definition followup_sender_allowed (p : RoomPolicy) (m : Message) : bool :=
  let fu := followup p in
  if fu_allow_all_senders fu then true
  else if is_empty (fu_allowed_person_ids fu) && is_empty (fu_allowed_person_emails fu) then sender_allowed p m
  else
    let person_id_allowed :=
      is_some_and (person_id m) (fun pid => any (fun id => str_eqb id pid) (fu_allowed_person_ids fu)) in
    let person_email_allowed :=
      is_some_and (person_email m) (fun e => any (fun allowed => eq_ignore_ascii_case allowed e) (fu_allowed_person_emails fu)) in
    person_id_allowed || person_email_allowed.

Definition followup_trigger_matches (p : RoomPolicy) (m : Message) (self_person_id : option str) (t : FollowupTrigger) : bool :=
  match t with
  | FollowupMention =>
      is_some_and self_person_id (fun self => any (fun pid => str_eqb pid self) (mentioned_people m))
      || message_matches_prefix m (prefixes p)
  | QuotedBotReply => message_contains_marker m reply_marker_prefix
  end.

Definition followup_candidate_matches (p : RoomPolicy) (m : Message) (self_person_id : option str) : bool :=
  if bool_decide (parent_id m = None) || negb (followup_sender_allowed p m) then false
  else any (followup_trigger_matches p m self_person_id) (triggers (followup p)).

(** ** The prompt *)

(** [render_template_once]; [skip] counts the characters of a placeholder still to be
    dropped. *)
Fixpoint render_template_go (replacements : list (str * str)) (skip : nat) (remaining : str) : str :=
  match remaining with
  | [] => []
  | c :: rest =>
      match skip with
      | S k => render_template_go replacements k rest
      | O =>
          match List.find (fun r => starts_with (fst r) remaining) replacements with
          | Some (placeholder, value) => value ++ render_template_go replacements (length placeholder - 1) rest
          | None => c :: render_template_go replacements 0 rest
          end
      end
  end.

Definition render_template_once (template : str) (replacements : list (str * str)) : str :=
  render_template_go replacements 0 template.

Definition followup_replacements (context source_context : MessageContext) (thread_context : str) : list (str * str) :=
  [ (lit "{room_id}", mc_room_id context);
    (lit "{message_id}", mc_message_id context);
    (lit "{person_id}", default [] (mc_person_id context));
    (lit "{person_email}", default [] (mc_person_email context));
    (lit "{body}", mc_body context);
    (lit "{original_room_id}", mc_room_id source_context);
    (lit "{original_message_id}", mc_message_id source_context);
    (lit "{original_person_id}", default [] (mc_person_id source_context));
    (lit "{original_person_email}", default [] (mc_person_email source_context));
    (lit "{original_body}", mc_body source_context);
    (lit "{thread_context}", thread_context) ].

Definition render_followup_prompt (template : str) (context source_context : MessageContext) (thread_context : str) : str :=
  render_template_once template (followup_replacements context source_context thread_context).

(** ** The thread *)

Definition has_marker_comment (line : str) : bool :=
  contains (lit "<!-- wgb-ref:") line || contains (lit "<!-- wgb-source-ref:") line.

Definition clean_prompt_message_body (m : Message) : str :=
  let body := default [] (opt_or (markdown m) (opt_or (text m) (html m))) in
  trim (join [10] (List.filter (fun line => negb (has_marker_comment line)) (lines body))).

Section thread_context.
Context `{DateTimeOps}.

Definition render_thread_message (role : str) (m : Message) (self_person_id : option str) (max_chars : N) : str :=
  let i := default (lit "unknown") (id m) in
  let sender :=
    if is_some_and self_person_id (fun self => bool_decide (person_id m = Some self)) then lit "bot"
    else default (lit "unknown") (opt_or (person_email m) (person_id m)) in
  let created_text := match created m with Some c => to_rfc3339 c | None => lit "unknown-time" end in
  let body_limit := N.min (N.max max_chars 1) 1200 in
  let body := trim_to_chars (clean_prompt_message_body m) body_limit in
  lit "[" ++ role ++ lit "] " ++ created_text ++ [32] ++ sender ++ lit " (" ++ i ++ lit ")" ++ [10] ++ body.

(** The loop over the entries, newest first; it returns the selected ones newest first. *)
Fixpoint select_entries (max_chars : N) (root_blank : bool) (entries selected : list str) (selected_chars : N) : list str :=
  match entries with
  | [] => selected
  | entry :: entries' =>
      let separator_chars := if root_blank && is_empty selected then 0 else 2 in
      let entry_chars := char_count entry in
      if max_chars <? sat_add (sat_add selected_chars separator_chars) entry_chars then selected
      else select_entries max_chars root_blank entries' (selected ++ [entry]) (selected_chars + (separator_chars + entry_chars))
  end.

Definition nonblank (entry : str) : bool := negb (is_empty (trim entry)).

Definition reply_entries (thread_messages : list Message) (current_message_id : str) (self_person_id : option str)
  (max_chars : N) : list str :=
  List.filter nonblank
    (map (fun m => render_thread_message (lit "reply") m self_person_id max_chars)
       (List.filter (fun m => negb (bool_decide (id m = Some current_message_id)))
          (stable_sort created_le thread_messages))).

Definition render_thread_context (root_message : Message) (thread_messages : list Message) (current_message_id : str)
  (self_person_id : option str) (max_chars : N) : str :=
  let root_entry := render_thread_message (lit "root") root_message self_person_id max_chars in
  let entries := reply_entries thread_messages current_message_id self_person_id max_chars in
  let max_chars := N.max max_chars 1 in
  let root_entry := trim_to_chars root_entry max_chars in
  let selected := select_entries max_chars (is_empty (trim root_entry)) (reverse entries) [] (char_count root_entry) in
  let rendered := join [10; 10] (List.filter nonblank (root_entry :: reverse selected)) in
  trim_to_chars rendered max_chars.

(** ** Message age *)

Definition SOURCE_MARKER_SEARCH_MAX_PAGES : N := 3.

(** [now_ms] is the clock, in milliseconds since the epoch ([None]: before it). *)
Definition message_is_at_least_age (now_ms : option N) (m : Message) (min_age_ms : N) : bool :=
  match created m with
  | None => false
  | Some c =>
      if (timestamp_millis c <? 0)%Z then true
      else match now_ms with
      | None => false
      | Some now => min_age_ms <=? now - Z.to_N (timestamp_millis c)
      end
  end.

(** [None]: search the whole room. *)
Definition source_marker_search_max_pages (now_ms : option N) (m : Message) (recovery_age_ms : N) : option N :=
  if message_is_at_least_age now_ms m recovery_age_ms then None else Some SOURCE_MARKER_SEARCH_MAX_PAGES.
End thread_context.

Definition config_command_body (m : Message) : option str :=
  List.find (fun body => negb (is_empty (trim body))) (omap (fun o => o) [text m; markdown m]).

(** ** Specifications *)

(** Who may follow up: the follow-up lists when there are any, the room's rule otherwise. *)
Definition followup_authorized (p : RoomPolicy) (m : Message) : Prop :=
  let fu := followup p in
  fu_allow_all_senders fu = true
  \/ (fu_allowed_person_ids fu = [] /\ fu_allowed_person_emails fu = [] /\ authorized p m)
  \/ (exists pid, person_id m = Some pid /\ pid ∈ fu_allowed_person_ids fu)
  \/ (exists e allowed, person_email m = Some e /\ allowed ∈ fu_allowed_person_emails fu
        /\ to_ascii_lowercase allowed = to_ascii_lowercase e).

Definition trigger_fires (p : RoomPolicy) (m : Message) (self : option str) (t : FollowupTrigger) : Prop :=
  match t with
  | FollowupMention =>
      (exists s, self = Some s /\ s ∈ mentioned_people m)
      \/ (exists prefix, prefix ∈ prefixes p /\ invokes (message_body m) prefix)
  | QuotedBotReply => contains reply_marker_prefix (reply_body m) = true
  end.

(** A template cut into literal characters and placeholders. *)
Inductive piece : Type :=
| Literal (c : char)
| Placeholder (name : str).

Definition piece_text (p : piece) : str :=
  match p with
  | Literal c => [c]
  | Placeholder name => name
  end.

Definition piece_value (replacements : list (str * str)) (p : piece) : str :=
  match p with
  | Literal c => [c]
  | Placeholder name => default [] (snd <$> List.find (fun r => str_eqb (fst r) name) replacements)
  end.

Fixpoint template_pieces (names : list str) (skip : nat) (template : str) : list piece :=
  match template with
  | [] => []
  | c :: rest =>
      match skip with
      | S k => template_pieces names k rest
      | O =>
          match List.find (fun name => starts_with name template) names with
          | Some name => Placeholder name :: template_pieces names (length name - 1) rest
          | None => Literal c :: template_pieces names 0 rest
          end
      end
  end.

(** ** Lemmas: follow-up triggers *)

Lemma followup_sender_allowed_spec p m : followup_sender_allowed p m = true <-> followup_authorized p m.
Proof.
  unfold followup_sender_allowed, followup_authorized. set (fu := followup p).
  destruct (fu_allow_all_senders fu); [naive_solver|].
  assert (is_some_and (person_id m) (fun pid => any (fun id => str_eqb id pid) (fu_allowed_person_ids fu)) = true
          <-> exists pid, person_id m = Some pid /\ pid ∈ fu_allowed_person_ids fu) as H1.
  { destruct (person_id m) as [pid|]; cbn; [|naive_solver]. rewrite any_true. setoid_rewrite str_eqb_eq. naive_solver. }
  assert (is_some_and (person_email m) (fun e => any (fun allowed => eq_ignore_ascii_case allowed e) (fu_allowed_person_emails fu)) = true
          <-> exists e allowed, person_email m = Some e /\ allowed ∈ fu_allowed_person_emails fu
                /\ to_ascii_lowercase allowed = to_ascii_lowercase e) as H2.
  { destruct (person_email m) as [e|]; cbn; [|naive_solver]. rewrite any_true.
    unfold eq_ignore_ascii_case. setoid_rewrite str_eqb_eq. naive_solver. }
  destruct (_ && _) eqn:E.
  - apply andb_true_iff in E as [E1%is_empty_true E2%is_empty_true]. rewrite sender_allowed_spec, E1, E2. split.
    + intros H. right. by left.
    + intros [[=]|[(_ & _ & H)|[(pid & _ & H)|(e & a & _ & H & _)]]]; [done|by apply not_elem_of_nil in H..].
  - rewrite orb_true_iff, H1, H2. split; [by intros [|]; auto|].
    intros [[=]|[(E1 & E2 & _)|[?|?]]]; [|by left|by right]. by rewrite E1, E2 in E.
Qed.

Lemma trigger_fires_spec p m self t : followup_trigger_matches p m self t = true <-> trigger_fires p m self t.
Proof.
  destruct t; cbn; [|done]. rewrite orb_true_iff.
  assert (is_some_and self (fun s => any (fun pid => str_eqb pid s) (mentioned_people m)) = true
          <-> exists s, self = Some s /\ s ∈ mentioned_people m) as ->.
  { destruct self as [s|]; cbn; [|naive_solver]. rewrite any_true. setoid_rewrite str_eqb_eq. naive_solver. }
  unfold message_matches_prefix. rewrite any_true. by setoid_rewrite prefix_matches_spec.
Qed.

(** ** Lemmas: templates *)

Lemma find_fst (f : str -> bool) (reps : list (str * str)) :
  match List.find (fun r => f (fst r)) reps with
  | Some r => List.find f (map fst reps) = Some (fst r)
              /\ List.find (fun r' => str_eqb (fst r') (fst r)) reps = Some r
  | None => List.find f (map fst reps) = None
  end.
Proof.
  induction reps as [|[n v] reps IH]; [done|]. cbn. destruct (f n) eqn:E; [by rewrite str_eqb_refl|].
  destruct (List.find _ reps) as [[n' v']|] eqn:Ef; [|done]. destruct IH as [H1 H2]. split; [done|].
  cbn. destruct (str_eqb n n') eqn:En; [|done]. apply str_eqb_eq in En as ->.
  apply List.find_some in Ef as [_ Ef]. cbn in Ef. congruence.
Qed.

Lemma render_template_pieces (reps : list (str * str)) k template :
  render_template_go reps k template = concat (map (piece_value reps) (template_pieces (map fst reps) k template)).
Proof.
  revert k. induction template as [|c rest IH]; intros k; [done|]. cbn [render_template_go template_pieces].
  destruct k as [|k]; [|done]. pose proof (find_fst (fun name => starts_with name (c :: rest)) reps) as Hf.
  destruct (List.find _ reps) as [[n v]|] eqn:E.
  - destruct Hf as [-> Hv]. cbn [map concat piece_value fst]. cbn [fst] in Hv. rewrite Hv, IH. done.
  - rewrite Hf. cbn. by rewrite IH.
Qed.

Lemma template_pieces_text (names : list str) k template :
  Forall (fun n => n <> []) names ->
  concat (map piece_text (template_pieces names k template)) = drop k template.
Proof.
  intros Hn. revert k. induction template as [|c rest IH]; intros k; [by destruct k|]. cbn [template_pieces].
  destruct k as [|k]; [|by rewrite IH]. destruct (List.find _ names) as [n|] eqn:E.
  - apply List.find_some in E as [Hin Hs]. rewrite Forall_forall in Hn.
    apply list_elem_of_In, Hn in Hin. apply starts_with_spec in Hs as (r & Hs).
    destruct n as [|c' n]; [done|]. injection Hs as <- ->. cbn [map concat piece_text length].
    rewrite IH. replace (S (length n) - 1)%nat with (length n) by lia. by rewrite drop_app_length.
  - cbn. by rewrite IH.
Qed.

(** ** Lemmas: thread entries *)

Lemma nonblank_cons (c : char) (s : str) : is_whitespace c = false -> nonblank (c :: s) = true.
Proof.
  intros Hc. unfold nonblank. apply negb_true_iff, is_empty_false. unfold trim.
  rewrite trim_matches_nil. intros H. inversion H; subst. congruence.
Qed.

Lemma trim_to_chars_head (c : char) (s : str) n : exists s', trim_to_chars (c :: s) n = c :: s'.
Proof.
  rewrite trim_to_chars_spec. destruct (_ <=? _); [by eexists|].
  destruct (N.to_nat (N.max n 1)) as [|k] eqn:E; [lia|]. by eexists.
Qed.

Definition entries_chars (l : list str) : N := fold_right (fun e n => 2 + char_count e + n) 0 l.

Lemma entries_chars_cons e l : entries_chars (e :: l) = 2 + char_count e + entries_chars l.
Proof. done. Qed.

Lemma entries_chars_app a b : entries_chars (a ++ b) = entries_chars a + entries_chars b.
Proof. unfold entries_chars. induction a as [|e a IH]; [done|]. cbn [app fold_right]. lia. Qed.

Lemma join_chars (x : str) (l : list str) : char_count (join [10; 10] (x :: l)) = char_count x + entries_chars l.
Proof.
  revert x. induction l as [|y l IH]; intros x; [cbn [join entries_chars fold_right]; lia|].
  change (join [10; 10] (x :: y :: l)) with (x ++ [10; 10] ++ join [10; 10] (y :: l)).
  unfold char_count in *. rewrite !len_app, IH. change (len [10; 10]) with 2. cbn [entries_chars fold_right].
  unfold char_count. fold entries_chars. unfold entries_chars. unfold char_count. lia.
Qed.

Lemma entries_chars_reverse l : entries_chars (reverse l) = entries_chars l.
Proof.
  induction l as [|e l IH]; [done|]. rewrite reverse_cons, entries_chars_app, IH. cbn [entries_chars fold_right].
  unfold entries_chars. lia.
Qed.

Lemma select_entries_spec max (entries selected : list str) sc :
  max < u64_max ->
  exists kept rest, entries = kept ++ rest
    /\ select_entries max false entries selected sc = selected ++ kept
    /\ (sc <= max -> sc + entries_chars kept <= max)
    /\ (rest = [] \/ exists e r, rest = e :: r /\ max < sc + entries_chars kept + (2 + char_count e)).
Proof.
  intros Hmax. revert selected sc. induction entries as [|e entries IH]; intros selected sc; cbn [select_entries andb].
  - exists [], []. rewrite !app_nil_r. change (entries_chars []) with 0. split_and!; [done..|lia|by left].
  - destruct (N.ltb_spec max (sat_add (sat_add sc 2) (char_count e))) as [Hlt|Hge].
    + exists [], (e :: entries). rewrite app_nil_r. change (entries_chars []) with 0. split_and!; [done..|lia|].
      right. exists e, entries. split; [done|]. unfold sat_add in Hlt. lia.
    + destruct (IH (selected ++ [e]) (sc + (2 + char_count e))) as (kept & rest & -> & Hs & Hk & Hr).
      exists (e :: kept), rest. rewrite Hs, <-app_assoc, entries_chars_cons. cbn [app].
      unfold sat_add in Hge. split_and!; [done..|lia|].
      destruct Hr as [?|(e' & r & -> & Hr)]; [by left|]. right. exists e', r. split; [done|]. lia.
Qed.

(** ** Lemmas: cleaned bodies *)

Lemma contains_join p (ws : list str) :
  p <> [] -> 10 ∉ p -> Forall (fun w => contains p w = false) ws -> contains p (join [10] ws) = false.
Proof.
  intros Hp Hx. induction 1 as [|w ws Hw _ IH]; [by destruct p|]. destruct ws as [|w' ws]; [done|].
  change (join [10] (w :: w' :: ws)) with (w ++ 10 :: join [10] (w' :: ws)).
  unfold contains in *. rewrite find_str_separator by done. by destruct (find_str p (join [10] (w' :: ws))).
Qed.

Lemma clean_body_without p (m : Message) :
  p <> [] -> 10 ∉ p -> (forall line, contains p line = true -> has_marker_comment line = true) ->
  contains p (clean_prompt_message_body m) = false.
Proof.
  intros Hp Hx Hm. unfold clean_prompt_message_body.
  set (body := join [10] _). assert (contains p body = false) as Hb.
  { apply contains_join; [done..|]. apply Forall_forall. intros w Hw%list_elem_of_In.
    apply filter_In in Hw as [_ Hw]. apply not_true_iff_false. intros Hc%Hm. by rewrite Hc in Hw. }
  destruct (trim_matches_infix is_whitespace body) as (a & b & Hs & _). fold (trim body) in Hs.
  rewrite Hs in Hb. apply not_true_iff_false. intros Hc. apply not_true_iff_false in Hb. apply Hb.
  by apply contains_app_r, contains_app_l.
Qed.

(** ** Properties *)

(** a message is taken for a follow-up exactly when it is a reply in a thread, its
    sender may follow up (the follow-up allowlists when configured, the room's sender rule
    otherwise) and one of the configured triggers fires: a mention of the bot or a room
    prefix, or a quotation of one of the bot's markers. *)
Theorem followup_candidate_spec (p : RoomPolicy) (m : Message) (self : option str) :
  followup_candidate_matches p m self = true <->
  parent_id m <> None /\ followup_authorized p m /\ exists t, t ∈ triggers (followup p) /\ trigger_fires p m self t.
Proof.
  rewrite <-followup_sender_allowed_spec. setoid_rewrite <-trigger_fires_spec. rewrite <-any_true.
  unfold followup_candidate_matches. case_bool_decide; destruct (followup_sender_allowed p m); cbn [orb negb]; intuition congruence.
Qed.

Definition followup_placeholders : list str :=
  map lit ["{room_id}"; "{message_id}"; "{person_id}"; "{person_email}"; "{body}"; "{original_room_id}";
           "{original_message_id}"; "{original_person_id}"; "{original_person_email}"; "{original_body}";
           "{thread_context}"]%string.

(** the follow-up prompt is rendered in a single pass: the configured template alone
    decides, once, which of its parts are placeholders, and every message, thread and
    sender text is put in their places as it is; a placeholder spelled inside a message is
    never expanded. *)
Theorem followup_prompt_single_pass (template : str) :
  let pieces := template_pieces followup_placeholders 0 template in
  concat (map piece_text pieces) = template
  /\ forall context source_context thread_context,
       render_followup_prompt template context source_context thread_context
       = concat (map (piece_value (followup_replacements context source_context thread_context)) pieces).
Proof.
  cbv zeta. split.
  - rewrite template_pieces_text; [done|]. by repeat constructor.
  - intros context source_context thread_context. unfold render_followup_prompt, render_template_once.
    by rewrite render_template_pieces.
Qed.

(** hidden markers never reach a prompt through the thread: a cleaned message body
    contains neither marker comment. *)
Theorem clean_body_no_markers (m : Message) :
  contains (lit "<!-- wgb-ref:") (clean_prompt_message_body m) = false
  /\ contains (lit "<!-- wgb-source-ref:") (clean_prompt_message_body m) = false.
Proof.
  split; apply clean_body_without; try done; try (vm_compute; set_solver);
    intros line H; unfold has_marker_comment; rewrite H; by rewrite ?orb_true_r.
Qed.

(** the thread context is the newest part of the thread that fits: of the replies other
    than the current message, in time order, it shows a final run, each entry whole; unless
    every reply is shown, the next older one would exceed the budget; and when the root
    entry fits, the context is exactly the root and these entries and within the limit,
    else it is cut at the limit. *)
Theorem thread_context_newest_first `{DateTimeOps} (root : Message) (thread : list Message) (current : str)
  (self : option str) (max_chars : N) :
  max_chars < u64_max ->
  let limit := N.max max_chars 1 in
  let root_entry := trim_to_chars (render_thread_message (lit "root") root self max_chars) limit in
  let context := render_thread_context root thread current self max_chars in
  exists dropped kept,
    reply_entries thread current self max_chars = dropped ++ kept
    /\ Forall (fun e => exists m, m ∈ thread /\ id m <> Some current
                /\ e = render_thread_message (lit "reply") m self max_chars) (dropped ++ kept)
    /\ (dropped = [] \/ exists d e, dropped = d ++ [e] /\ limit < char_count root_entry + entries_chars (e :: kept))
    /\ (char_count root_entry <= limit ->
        context = join [10; 10] (root_entry :: kept) /\ char_count context <= limit)
    /\ char_count context <= limit + char_count truncation_suffix.
Proof.
  intros Hmax limit root_entry context.
  assert (exists s, root_entry = ch "[" :: s) as (s & Hroot) by apply trim_to_chars_head.
  assert (nonblank root_entry = true) as Hnb by (rewrite Hroot; by apply nonblank_cons).
  assert (is_empty (trim root_entry) = false) as Hblank by (by apply negb_true_iff in Hnb).
  assert (Forall (fun e => nonblank e = true) (reply_entries thread current self max_chars)) as Hall.
  { apply Forall_forall. intros e He%list_elem_of_In. by apply filter_In in He as [_ He]. }
  destruct (select_entries_spec limit (reverse (reply_entries thread current self max_chars)) [] (char_count root_entry))
    as (kept & rest & He & Hs & Hk & Hr); [unfold limit, u64_max in *; lia|].
  cbn [app] in Hs. exists (reverse rest), (reverse kept).
  assert (reply_entries thread current self max_chars = reverse rest ++ reverse kept) as Heq.
  { by rewrite <-reverse_app, <-He, reverse_involutive. }
  rewrite Heq in Hall. apply Forall_app in Hall as [_ Hall].
  split; [done|]. split; [|split; [|split]].
  - rewrite <-Heq. apply Forall_forall. intros e Hin%list_elem_of_In. apply filter_In in Hin as [Hin _].
    apply in_map_iff in Hin as (m & <- & Hin). apply filter_In in Hin as [Hin Hc]. apply list_elem_of_In in Hin.
    rewrite stable_sort_perm in Hin. exists m. split; [done|]. split; [|done].
    intros Hm. by rewrite bool_decide_eq_true_2 in Hc.
  - destruct Hr as [->|(e & r & -> & Hr)]; [by left|]. right. exists (reverse r), e. split; [apply reverse_cons|].
    rewrite entries_chars_cons, entries_chars_reverse. lia.
  - intros Hfit. assert (char_count (join [10; 10] (root_entry :: reverse kept)) <= limit) as Hj.
    { rewrite join_chars, entries_chars_reverse. by apply Hk. }
    assert (context = join [10; 10] (root_entry :: reverse kept)) as ->; [|done].
    unfold context, render_thread_context. cbv zeta. fold limit. fold root_entry. rewrite Hblank, Hs.
    assert (List.filter nonblank (root_entry :: reverse kept) = root_entry :: reverse kept) as ->.
    { cbn [List.filter]. rewrite Hnb. f_equal. revert Hall. clear. induction 1 as [|e l He _ IH]; [done|].
      cbn. by rewrite He, IH. }
    apply trim_to_chars_id. unfold limit in *. lia.
  - change (char_count truncation_suffix) with 12. unfold context, render_thread_context. cbv zeta. fold limit.
    etransitivity; [apply trim_to_chars_count|]. unfold limit. lia.
Qed.

Definition sample_clock : DateTimeOps := {| timestamp_millis z := z; to_rfc3339 z := decimal (Z.to_N z) |}.

Lemma thread_context_newest_first_witness :
  char_count (@render_thread_context sample_clock sample_thread_root [sample_followup_message] (lit "X") None 60) <= 72.
Proof.
  destruct (@thread_context_newest_first sample_clock sample_thread_root [sample_followup_message] (lit "X") None 60)
    as (d & k & _ & _ & _ & _ & Hb); [by vm_compute|exact Hb].
Defined.
