(* ===== verification/WebexCalls.v ===== *)
(** * Calls to the Webex API in [src/main.rs]

    The errors of a call and what the bot does about them, and the two operations of
    [WebexApi for WebexClient] that page through a listing. The HTTP client itself is the
    [webex-headless-messenger] crate's. Durations are in milliseconds. *)

From S2P Require Import Prelude Text Config Webex Policy Markers.

Local Open Scope N_scope.

(** ** Errors *)

(** [webex_headless_messenger::Error]: an API error with its HTTP status, or another one. *)
Inductive WebexError : Type :=
| Api (status : N) (retry_after : option N)
| OtherWebexError (description : str).

Inductive WebexCallError : Type :=
| Client (error : WebexError)
| TimedOut
| WriteBlocked (room_id : str).

Inductive WebexFailureAction : Type :=
| Stop
| Retry (after : N).

Definition classify_webex_api_error (status : N) (retry_after : option N) (default_retry : N) : WebexFailureAction :=
  if status =? 429 then Retry (default default_retry retry_after)
  else if any (N.eqb status) [400; 403; 404; 410; 422] then Stop
  else Retry (default default_retry retry_after).

Definition classify_webex_failure (error : WebexCallError) (default_retry : N) : WebexFailureAction :=
  match error with
  | TimedOut => Retry default_retry
  | Client (Api status retry_after) => classify_webex_api_error status retry_after default_retry
  | Client _ => Retry default_retry
  | WriteBlocked _ => Stop
  end.

Definition classify_webex_create_failure (error : WebexCallError) (default_retry : N) : WebexFailureAction :=
  classify_webex_failure error default_retry.

Definition webex_call_is_not_found (error : WebexCallError) : bool :=
  match error with
  | Client (Api status _) => status =? 404
  | _ => false
  end.

Definition parent_message_listing_is_empty (parent_id : option str) (error : WebexError) : bool :=
  bool_decide (is_Some parent_id) && match error with Api status _ => status =? 404 | _ => false end.

(** ** Answers to the sidecar *)

Record HttpError : Type := mkHttpError {
  status : N;
  message : str;
  retry_after : option N
}.

Definition bad_request (m : str) : HttpError := mkHttpError 400 m None.
Definition http_retry_after (st : N) (m : str) (after : N) : HttpError := mkHttpError st m (Some after).
Definition SERVICE_UNAVAILABLE : N := 503.
Definition MESSAGE_JOB_RETRY_FALLBACK : N := 30000.

Definition state_error (error : str) : HttpError :=
  http_retry_after SERVICE_UNAVAILABLE (lit "state store error: " ++ error) 30000.
Definition message_job_error : HttpError :=
  http_retry_after SERVICE_UNAVAILABLE (lit "message job persistence unavailable") MESSAGE_JOB_RETRY_FALLBACK.

(** The [Retry-After] header of an error response, in seconds. *)
Definition retry_after_header (e : HttpError) : option N :=
  (fun d => N.max (d / 1000) 1) <$> retry_after e.

Record BotAction : Type := mkBotAction {
  action : str;
  ba_reason : option str;
  ba_message_id : option str;
  ba_room_id : option str;
  reply_id : option str;
  reply_chars : option N
}.

Definition queued (message_id : str) (existing : bool) : BotAction :=
  mkBotAction (lit "queued") (if existing then Some (lit "already_queued") else None) (Some message_id) None None None.
Definition ignored (reason : str) (message_id room_id : option str) : BotAction :=
  mkBotAction (lit "ignored") (Some reason) message_id room_id None None.
Definition replied (message_id room_id : str) (reply_id : option str) (reply_chars : N) : BotAction :=
  mkBotAction (lit "replied") None (Some message_id) (Some room_id) reply_id (Some reply_chars).

Definition trigger_reason (t : TriggerDecision) : str :=
  match t with
  | Matched => lit "matched"
  | RoomDisabled => lit "room_disabled"
  | SenderNotAllowed => lit "sender_not_allowed"
  | MissingSelfPersonId => lit "missing_self_person_id"
  | NotMentioned => lit "not_mentioned"
  | PrefixNotMatched => lit "prefix_not_matched"
  end.

(** ** Authorization of the sidecar *)

(** [header] is the [Authorization] header, when it is visible ASCII. *)
Definition authorize (sidecar_token : option str) (header : option str) : result HttpError unit :=
  match sidecar_token with
  | None => Ok tt
  | Some token =>
      let expected := lit "Bearer " ++ token in
      if is_some_and header (fun value => str_eqb value expected) then Ok tt
      else Err (mkHttpError 401 (lit "unauthorized") None)
  end.

(** The token variable of the environment; [None] is the start-up error. *)
Definition sidecar_token (env : Env) (cfg : BotConfig) : option (option str) :=
  let token := match env_var env (sidecar_token_env (server cfg)) with
               | Some value => if is_empty (trim value) then None else Some value
               | None => None
               end in
  match token with
  | None => if allow_unauthenticated (server cfg) then Some None else None
  | Some _ => Some token
  end.

(** ** Paged listings *)

(** A page of a listing; [next] is the cursor of the following one. *)
Record Page (cursor : Type) : Type := mkPage {
  items : list Message;
  next : option cursor
}.
Arguments mkPage {cursor}.
Arguments items {cursor}.
Arguments next {cursor}.

Section listing.
(** The service: the answer to one request, [None] being the 30-second timeout. *)
Context {cursor : Type} (list_messages : option (result WebexError (Page cursor))).
Context (next_page : cursor -> option (result WebexError (Page cursor))).

(** The outcome of an operation and the number of requests it made. *)
Definition outcome (A : Type) : Type := result WebexCallError A * N.

Definition page_answer (answer : option (result WebexError (Page cursor))) : result WebexCallError (Page cursor) :=
  match answer with
  | Some (Ok page) => Ok page
  | Some (Err error) => Err (Client error)
  | None => Err TimedOut
  end.

(** The inner [for message in page.items]: stops with [true] once the limit is exceeded. *)
Fixpoint push_items (limit : N) (page messages : list Message) : list Message * bool :=
  match page with
  | [] => (messages, false)
  | m :: page' => if limit <=? len messages then (messages, true) else push_items limit page' (messages ++ [m])
  end.

(** The [loop]; [None] is running out of fuel. *)
Fixpoint list_loop (fuel : nat) (limit : N) (page : Page cursor) (messages : list Message) (requests : N)
  : option (outcome (list Message)) :=
  match fuel with
  | O => None
  | S fuel' =>
      let '(messages, full) := push_items limit (items page) messages in
      if full then Some (Ok messages, requests)
      else match next page with
      | None => Some (Ok messages, requests)
      | Some c =>
          match page_answer (next_page c) with
          | Err error => Some (Err error, requests + 1)
          | Ok page' => list_loop fuel' limit page' messages (requests + 1)
          end
      end
  end.

Definition list_thread_messages (fuel : nat) (parent_id : str) (limit : N) : option (outcome (list Message)) :=
  if limit =? 0 then Some (Ok [], 0)
  else match list_messages with
  | Some (Err error) =>
      if parent_message_listing_is_empty (Some parent_id) error then Some (Ok [], 1) else Some (Err (Client error), 1)
  | None => Some (Err TimedOut, 1)
  | Some (Ok page) => list_loop fuel limit page [] 1
  end.

Fixpoint find_loop (fuel : nat) (marker : str) (self_person_id : option str) (max_pages : option N)
  (page : Page cursor) (pages_read : N) : option (outcome (option Message)) :=
  match fuel with
  | O => None
  | S fuel' =>
      let pages_read := sat_add pages_read 1 in
      match List.find (fun reply => reply_matches_marker reply marker self_person_id) (items page) with
      | Some reply => Some (Ok (Some reply), pages_read)
      | None =>
          if is_some_and max_pages (fun limit => limit <=? pages_read) then Some (Ok None, pages_read)
          else match next page with
          | None => Some (Ok None, pages_read)
          | Some c =>
              match page_answer (next_page c) with
              | Err error => Some (Err error, pages_read + 1)
              | Ok page' => find_loop fuel' marker self_person_id max_pages page' pages_read
              end
          end
      end
  end.

Definition find_message_by_marker (fuel : nat) (parent_id : option str) (marker : str) (self_person_id : option str)
  (max_pages : option N) : option (outcome (option Message)) :=
  match list_messages with
  | Some (Err error) =>
      if parent_message_listing_is_empty parent_id error then Some (Ok None, 1) else Some (Err (Client error), 1)
  | None => Some (Err TimedOut, 1)
  | Some (Ok page) => find_loop fuel marker self_person_id max_pages page 0
  end.
End listing.

(** ** Lemmas: listings *)

Lemma push_items_spec limit (page messages : list Message) :
  len messages <= limit ->
  push_items limit page messages = (messages ++ take_N (limit - len messages) page, limit <? len messages + len page).
Proof.
  revert messages. induction page as [|m page IH]; intros messages Hl; cbn [push_items take_N].
  - rewrite app_nil_r, len_nil. f_equal. symmetry. by apply N.ltb_ge; lia.
  - rewrite len_cons. destruct (N.leb_spec limit (len messages)) as [Hle|Hlt].
    + assert (limit - len messages = 0) as -> by lia. cbn. rewrite app_nil_r. f_equal. symmetry. apply N.ltb_lt. lia.
    + rewrite IH by (autorewrite with len; lia). autorewrite with len. rewrite <-app_assoc.
      destruct (N.eqb_spec (limit - len messages) 0); [lia|]. cbn [app].
      replace (limit - (len messages + (0 + 1))) with (limit - len messages - 1) by lia. f_equal. lia.
Qed.

Section listing_lemmas.
Context {cursor : Type} (list_messages : option (result WebexError (Page cursor))).
Context (next_page : cursor -> option (result WebexError (Page cursor))).

Lemma find_loop_bound k marker self page pages_read fuel :
  pages_read < N.max k 1 -> k <= u64_max -> (N.to_nat (N.max k 1 - pages_read) <= fuel)%nat ->
  exists r n, find_loop next_page fuel marker self (Some k) page pages_read = Some (r, n)
    /\ n <= N.max k 1 /\ pages_read < n
    /\ (forall reply, r = Ok (Some reply) -> reply_matches_marker reply marker self = true).
Proof.
  intros Hr Hk. revert page pages_read Hr. induction fuel as [|fuel IH]; intros page pr Hr Hf; [lia|].
  cbn [find_loop]. assert (sat_add pr 1 = pr + 1) as ->.
  { apply sat_add_exact. unfold u64_max in *. lia. }
  destruct (List.find _ (items page)) as [m|] eqn:E.
  { apply List.find_some in E as [_ E]. eexists _, _. split_and!; [done|lia|lia|]. by intros reply [= <-]. }
  cbn [is_some_and]. destruct (N.leb_spec k (pr + 1)); [by eexists _, _; split_and!; [done|lia..|]|].
  destruct (next page) as [c|]; [|by eexists _, _; split_and!; [done|lia..|]].
  destruct (page_answer (next_page c)) as [page'|error]; [|by eexists _, _; split_and!; [done|lia..|]].
  destruct (IH page' (pr + 1)) as (r & n & Hl & Hn & Hp & Hm); [lia..|]. exists r, n. split_and!; [done|lia|lia|done].
Qed.

(** Every page that has a successor is full. *)
Definition full_pages : Prop :=
  (forall page, list_messages = Some (Ok page) -> next page <> None -> WEBEX_LIST_PAGE_SIZE <= len (items page))
  /\ (forall c page, next_page c = Some (Ok page) -> next page <> None -> WEBEX_LIST_PAGE_SIZE <= len (items page)).

Lemma page_answer_ok answer (page : Page cursor) : page_answer answer = Ok page -> answer = Some (Ok page).
Proof. destruct answer as [[p|e]|]; cbn; [by intros [= ->]|done..]. Qed.

Lemma list_loop_bound limit page messages requests fuel :
  full_pages -> (next page <> None -> WEBEX_LIST_PAGE_SIZE <= len (items page)) ->
  len messages <= limit -> 100 * (requests - 1) <= len messages -> 0 < requests ->
  (N.to_nat (limit / 100 + 2 - requests) <= fuel)%nat -> requests <= limit / 100 + 1 ->
  exists r n, list_loop next_page fuel limit page messages requests = Some (r, n)
    /\ n <= limit / 100 + 1 /\ (forall ms, r = Ok ms -> len ms <= limit).
Proof.
  intros [_ Hfull]. revert page messages requests. induction fuel as [|fuel IH];
    intros page messages requests Hp Hl Hm Hr Hf Hb; [lia|].
  cbn [list_loop]. rewrite push_items_spec by done.
  assert (len (messages ++ take_N (limit - len messages) (items page)) <= limit) as Hlen.
  { autorewrite with len. rewrite len_take_N. lia. }
  destruct (N.ltb_spec limit (len messages + len (items page))) as [Hlt|Hge].
  { eexists _, _. split_and!; [done|done|]. by intros ms [= <-]. }
  destruct (next page) as [c|]; [|eexists _, _; split_and!; [done|done|]; by intros ms [= <-]].
  specialize (Hp ltac:(done)). unfold WEBEX_LIST_PAGE_SIZE in Hp.
  assert (len (messages ++ take_N (limit - len messages) (items page)) = len messages + len (items page)) as Hlen'.
  { autorewrite with len. rewrite len_take_N. lia. }
  assert (requests + 1 <= limit / 100 + 1) as Hb' by lia.
  destruct (page_answer (next_page c)) as [page'|error] eqn:E.
  - apply page_answer_ok in E. apply IH; [by eapply Hfull|lia..].
  - eexists _, _. split_and!; [done|lia|done].
Qed.
End listing_lemmas.

(** ** Properties *)

(** a marker search with a page bound always ends, whatever the service answers: with
    fuel for the bound it returns, having made at least one and at most the allowed number
    of requests, and a message it returns does carry the marker (and, when the bot's own
    ID is known, was posted by the bot). *)
Theorem marker_search_bounded {cursor : Type} (list_messages : option (result WebexError (Page cursor)))
  (next_page : cursor -> option (result WebexError (Page cursor)))
  (parent_id : option str) (marker : str) (self : option str) (k : N) (fuel : nat) :
  k <= u64_max -> (N.to_nat (N.max k 1) <= fuel)%nat ->
  exists r n, find_message_by_marker list_messages next_page fuel parent_id marker self (Some k) = Some (r, n)
    /\ 1 <= n <= N.max k 1
    /\ (forall reply, r = Ok (Some reply) ->
        contains marker (reply_body reply) = true /\ (self <> None -> person_id reply = self)).
Proof.
  intros Hk Hf. unfold find_message_by_marker.
  destruct list_messages as [[page|error]|].
  - destruct (find_loop_bound next_page k marker self page 0 fuel) as (r & n & -> & Hn & Hp & Hm); [lia|done|lia|].
    exists r, n. split_and!; [done|lia|lia|]. intros reply Hr. specialize (Hm reply Hr).
    unfold reply_matches_marker in Hm. destruct self as [s|]; [|done].
    apply andb_true_iff in Hm as [Hs%bool_decide_eq_true Hc]. done.
  - destruct (parent_message_listing_is_empty parent_id error); eexists _, _; split_and!; try done; lia.
  - eexists _, _. split_and!; [done|lia|lia|done].
Qed.

Lemma marker_search_bounded_witness :
  exists r n, find_message_by_marker (Some (Ok (mkPage [] (Some tt)))) (fun _ => Some (Ok (mkPage [] (Some tt)))) 3
    None (lit "x") None (Some 3) = Some (r, n) /\ 1 <= n <= 3.
Proof.
  destruct (marker_search_bounded (Some (Ok (mkPage [] (Some tt)))) (fun _ => Some (Ok (mkPage [] (Some tt)))) None (lit "x")
    None 3 3) as (r & n & Hr & Hn & _); [by vm_compute|by vm_compute|].
  exists r, n. split; [exact Hr|exact Hn].
Defined.

(** listing a thread from a service that fills its pages always ends within one request
    more than the full pages the limit spans, and never returns more than the limit. *)
Theorem thread_listing_bounded {cursor : Type} (list_messages : option (result WebexError (Page cursor)))
  (next_page : cursor -> option (result WebexError (Page cursor))) (parent_id : str) (limit : N) (fuel : nat) :
  full_pages list_messages next_page -> (N.to_nat (limit / WEBEX_LIST_PAGE_SIZE + 1) <= fuel)%nat ->
  exists r n, list_thread_messages list_messages next_page fuel parent_id limit = Some (r, n)
    /\ n <= limit / WEBEX_LIST_PAGE_SIZE + 1
    /\ (forall ms, r = Ok ms -> len ms <= limit).
Proof.
  unfold WEBEX_LIST_PAGE_SIZE. intros Hfull Hf. unfold list_thread_messages.
  destruct (N.eqb_spec limit 0) as [->|Hl]; [eexists _, _; split_and!; [done|lia|]; by intros ms [= <-]|].
  destruct list_messages as [[page|error]|] eqn:E.
  - apply (list_loop_bound (Some (Ok page)) next_page limit page [] 1 fuel); [done|by apply Hfull|rewrite ?len_nil; lia..].
  - destruct (parent_message_listing_is_empty _ error); eexists _, _; split_and!; try done; try lia.
    intros ms [= <-]. rewrite len_nil. lia.
  - eexists _, _. split_and!; [done|lia|done].
Qed.

Lemma thread_listing_bounded_witness :
  exists r n, list_thread_messages (Some (Ok (mkPage [empty_message] (@None unit)))) (fun _ => None) 2 (lit "P") 100 = Some (r, n)
    /\ n <= 2.
Proof.
  destruct (thread_listing_bounded (Some (Ok (mkPage [empty_message] (@None unit)))) (fun _ => None) (lit "P") 100 2)
    as (r & n & Hr & Hn & _); [split; [by intros p [= <-]|done]|by vm_compute|].
  exists r, n. split; [exact Hr|exact Hn].
Defined.

(** the listing can take one request more than the lease budget counts for it: when the
    first page holds exactly the [limit] messages wanted and has a successor, a second
    request is made before the listing stops, while the budget has one request for up to
    100 messages. *)
Theorem thread_listing_exceeds_budget {cursor : Type} (page page' : Page cursor) (c : cursor)
  (next_page : cursor -> option (result WebexError (Page cursor))) (parent_id : str) (limit : N) :
  0 < limit <= WEBEX_LIST_PAGE_SIZE -> len (items page) = limit -> next page = Some c ->
  next_page c = Some (Ok page') -> items page' <> [] ->
  list_thread_messages (Some (Ok page)) next_page 2 parent_id limit = Some (Ok (items page), 2)
  /\ webex_page_requests limit = 1.
Proof.
  unfold WEBEX_LIST_PAGE_SIZE. intros Hl Hi Hn Hp Hne%len_pos. split.
  - unfold list_thread_messages. assert ((limit =? 0) = false) as -> by (apply N.eqb_neq; lia).
    cbn [list_loop]. rewrite push_items_spec by (rewrite len_nil; lia). rewrite len_nil.
    assert ((limit <? 0 + len (items page)) = false) as -> by (apply N.ltb_ge; lia).
    rewrite Hn, Hp. cbn [page_answer app]. rewrite take_N_all by lia. rewrite push_items_spec by lia.
    assert ((limit <? len (items page) + len (items page')) = true) as -> by (apply N.ltb_lt; lia).
    assert (limit - len (items page) = 0) as -> by lia.
    assert (forall l : list Message, take_N 0 l = []) as -> by by intros []. by rewrite app_nil_r.
  - unfold webex_page_requests, page_count, sat_add, WEBEX_LIST_PAGE_SIZE, u64_max. lia.
Qed.

Lemma thread_listing_exceeds_budget_witness :
  list_thread_messages (Some (Ok (mkPage (repeat empty_message 100) (Some tt))))
    (fun _ => Some (Ok (mkPage [empty_message] None))) 2 (lit "P") 100 = Some (Ok (repeat empty_message 100), 2)
  /\ webex_page_requests 100 = 1.
Proof.
  apply (thread_listing_exceeds_budget (mkPage (repeat empty_message 100) (Some tt)) (mkPage [empty_message] None) tt);
    try reflexivity; by vm_compute.
Defined.
