(* ===== verification/Programs.v ===== *)
(** * Effectful programs of [src/main.rs]

    The handlers of [BotApp] as trees of calls to what surrounds them: the attempt store,
    the Webex API, Codex, Jenkins prefetch, the configuration worker and the clock. A call
    may answer anything, errors included. *)

From S2P Require Import Prelude Effects Text Paths Config Webex Policy Jenkins WebexCalls.

Local Open Scope N_scope.

(** ** Calls *)

(** [webex_headless_messenger::JsonlStateStore]: the attempts it hands out are opaque. *)
Class StateStore : Type := { AttemptLease : Type }.

Inductive AttemptStart `{StateStore} : Type :=
| Started (attempt : AttemptLease)
| Processed
| Leased (retry_after : N).

Record ConfigActionStatusSnapshot : Type := mkConfigActionStatusSnapshot {
  ca_action_id : str;
  ca_state : str;
  ca_config_revision : option str
}.

Record ConfigStatusSnapshot : Type := mkConfigStatusSnapshot {
  cs_status : str;
  cs_config_revision : option str;
  cs_service : option str;
  cs_transaction_phase : option str;
  cs_config_action : option ConfigActionStatusSnapshot
}.

Record JenkinsPrefetchedContext : Type := mkJenkinsPrefetchedContext {
  jp_prompt : str;
  artifact_root : path;
  console_urls : list str;
  evidence_logs : gmap (list N) JenkinsEvidenceLog
}.

Inductive call `{StateStore} : Type :=
| BeginAttempt (message_id : str) (lease : N)
| MarkProcessed (attempt : AttemptLease)
| DeferAttempt (attempt : AttemptLease) (lease : N)
| GetEventMessage (message_id : str) (sidecar_hint : Message)
| Sleep (duration : N)
| GetMessage (message_id : str)
| ListThreadMessages (room_id parent_id : str) (limit : N)
| PostMessage (request : CreateMessage)
| FindMessageByMarker (room_id : str) (parent_id : option str) (marker : str) (self_person_id : option str)
    (max_pages : option N)
| ConfigStatus
| EnqueuePull (message_id : str)
| JenkinsContextPrompt (policy : RoomPolicy) (reply_format : ReplyFormat) (codex_config : CodexConfig)
    (context : MessageContext)
| RunWithWorkspace (codex_config : CodexConfig) (prompt message_id : str) (workspace_source : option path)
| EvidenceFiles
| CleanupArtifacts (artifact_root : path)
| Now.

(** What each call answers. [EvidenceFiles] is the state of the evidence logs when the
    reply is rendered; [Now] is the clock in milliseconds, if it is past the epoch. *)
Definition answer `{StateStore} (c : call) : Type :=
  match c with
  | BeginAttempt _ _ => result str AttemptStart
  | MarkProcessed _ | DeferAttempt _ _ => result str unit
  | GetEventMessage _ _ | GetMessage _ | PostMessage _ => result WebexCallError Message
  | Sleep _ => unit
  | ListThreadMessages _ _ _ => result WebexCallError (list Message)
  | FindMessageByMarker _ _ _ _ _ => result WebexCallError (option Message)
  | ConfigStatus => result str ConfigStatusSnapshot
  | EnqueuePull _ => result str str
  | JenkinsContextPrompt _ _ _ _ => result str (option JenkinsPrefetchedContext)
  | RunWithWorkspace _ _ _ _ => result str str
  | EvidenceFiles => EvidenceOps
  | CleanupArtifacts _ => result str unit
  | Now => option N
  end.

Abbreviation prog := (Effects.prog answer).
Abbreviation event := (Effects.event answer).
Abbreviation trace := (list event) (only parsing).
Abbreviation environment := (Effects.environment answer).
