(* ===== verification/BotApp.v ===== *)
(** * [BotApp] of [src/main.rs]: what the bot does with one event

    Each handler is a program over the calls of [Programs.v], with the handler's name, its
    guards and early returns in the order of the source. Log lines are left out. *)

From S2P Require Import Prelude Text Paths ConfigCommands Config Webex Policy Markers Jenkins Replies Threads WebexCalls Effects Programs.

Local Open Scope N_scope.

(** ** Configuration status *)

Definition action_status_markdown (s : ConfigActionStatusSnapshot) : str :=
  let revision := match ca_config_revision s with
                  | Some r => [10] ++ lit "- Prepared config revision: `" ++ r ++ lit "`"
                  | None => []
                  end in
  [10; 10] ++ lit "**Latest configuration action**" ++ [10; 10] ++ lit "- Action: `pull`" ++ [10]
  ++ lit "- State: `" ++ ca_state s ++ lit "`" ++ [10] ++ lit "- Action ID: `" ++ ca_action_id s ++ lit "`" ++ revision.

Definition revision_label (s : ConfigStatusSnapshot) : str :=
  let st := cs_status s in
  if str_eqb st (lit "failed_after_commit") || str_eqb st (lit "failed_after_commit_cleanup")
     || (str_eqb st (lit "recovery_required") && bool_decide (cs_transaction_phase s = Some (lit "committed_pending_metadata")))
  then lit "Committed config revision"
  else if starts_with (lit "failed_") st then lit "Attempted config revision"
  else if str_eqb st (lit "recovery_required") then lit "In-progress config revision"
  else lit "Config revision".

Definition status_markdown (s : ConfigStatusSnapshot) : str :=
  let phase := match cs_transaction_phase s with
               | Some p => [10] ++ lit "- Transaction phase: `" ++ p ++ lit "`"
               | None => []
               end in
  lit "**Config deployment status**" ++ [10; 10] ++ lit "- State: `" ++ cs_status s ++ lit "`" ++ [10]
  ++ lit "- " ++ revision_label s ++ lit ": `" ++ default (lit "unknown") (cs_config_revision s) ++ lit "`" ++ phase ++ [10]
  ++ lit "- Service: `" ++ default (lit "unknown") (cs_service s) ++ lit "`"
  ++ match cs_config_action s with Some a => action_status_markdown a | None => [] end.

(** ** Data *)

Record ReplyThread : Type := mkReplyThread {
  rt_room_id : str;
  rt_parent_id : str
}.

Record FollowupRun : Type := mkFollowupRun {
  reply_thread : ReplyThread;
  source_context : MessageContext;
  thread_context : str
}.

Record CodexReplyRequest : Type := mkCodexReplyRequest {
  cr_message_id : str;
  cr_reply_format : ReplyFormat;
  cr_reply_marker_search_max_pages : option N;
  cr_reply_thread : ReplyThread;
  cr_prompt : str
}.

Record ReplyCreateContext : Type := mkReplyCreateContext {
  rc_message_id : str;
  rc_room_id : str;
  rc_parent_id : str;
  rc_reply_marker : str;
  rc_marker_search_max_pages : option N;
  rc_reply_chars : N
}.

Record ForwardCreateContext : Type := mkForwardCreateContext {
  fc_message_id : str;
  fc_output_room_id : str;
  fc_source_marker : str;
  fc_marker_search_max_pages : option N
}.

Inductive ReplyThreadSetup : Type :=
| Ready (thread : ReplyThread)
| Finished (action : BotAction).

Definition CONFIG_ACTION_RETRY_AFTER : N := 5000.
Definition EVENT_HYDRATION_NOT_FOUND_RETRY : N := 1000 * EVENT_HYDRATION_NOT_FOUND_RETRY_SECS.

(** How errors of the libraries print, and how [serde_json] reads a message. *)
Class BotLibraries : Type := {
  show_webex_error : WebexError -> str;
  message_from_value : Json -> result str Message
}.

Section bot_app.
Context `{StateStore} `{BotLibraries} `{JsonText} `{DateTimeOps}.
(** The fields of [BotApp] the handlers read. *)
Context (config : BotConfig) (app_self_person_id : option str).

(** [self.config.server.attempt_lease()], in milliseconds. *)
Definition lease_millis : N := 1000 * attempt_lease (server config).

Definition show_call_error (e : WebexCallError) : str :=
  match e with
  | Client error => show_webex_error error
  | TimedOut => lit "request timed out after 30 seconds"
  | WriteBlocked room => lit "write blocked for read-only source room " ++ room
  end.

(** ** Calls with the bot's own checks *)

Definition begin_attempt (message_id : str) : prog (result HttpError AttemptStart) :=
  let* r := perform (BeginAttempt message_id lease_millis) in
  Ret (map_err state_error r).

Definition mark_processed (attempt : AttemptLease) : prog (result HttpError unit) :=
  let* r := perform (MarkProcessed attempt) in
  Ret (map_err state_error r).

Definition defer_attempt (attempt : AttemptLease) (lease : N) : prog (result HttpError unit) :=
  let* r := perform (DeferAttempt attempt lease) in
  Ret (map_err state_error r).

Definition create_message (request : CreateMessage) : prog (result WebexCallError Message) :=
  match cm_room_id request with
  | Some room =>
      if room_is_read_only_source config room then Ret (Err (WriteBlocked room)) else perform (PostMessage request)
  | None => perform (PostMessage request)
  end.

Definition find_existing_message_by_marker (room_id : str) (parent_id : option str) (marker : str) (max_pages : option N)
  : prog (result WebexCallError (option Message)) :=
  perform (FindMessageByMarker room_id parent_id marker app_self_person_id max_pages).

Definition get_event_message_with_not_found_retry (message_id : str) (hint : Message)
  : prog (result WebexCallError Message) :=
  let* first := perform (GetEventMessage message_id hint) in
  match first with
  | Err e =>
      if webex_call_is_not_found e then
        let* _ := perform (Sleep EVENT_HYDRATION_NOT_FOUND_RETRY) in
        perform (GetEventMessage message_id hint)
      else Ret first
  | Ok _ => Ret first
  end.

(** [source_marker_search_max_pages], which reads the clock. *)
Definition source_search_pages (m : Message) : prog (option N) :=
  let* now := perform Now in
  Ret (source_marker_search_max_pages now m lease_millis).

(** ** Failure handlers *)

(** Giving up: [mark_processed] and an [ignored] action. *)
Definition stop_attempt {A} (attempt : AttemptLease) (a : A) : prog (result HttpError A) :=
  let*? _ := mark_processed attempt in Ret (Ok a).

(** Deferring: [defer_attempt] and a [503] with the same delay. *)
Definition retry_attempt {A} (attempt : AttemptLease) (after : N) (m : str) : prog (result HttpError A) :=
  let*? _ := defer_attempt attempt after in Ret (Err (http_retry_after SERVICE_UNAVAILABLE m after)).

Definition handle_get_message_failure (attempt : AttemptLease) (message_id : str) (error : WebexCallError)
  : prog (result HttpError BotAction) :=
  match classify_webex_failure error lease_millis with
  | Stop => stop_attempt attempt (ignored (lit "message_unavailable") (Some message_id) None)
  | Retry after =>
      retry_attempt attempt after (lit "failed to hydrate message " ++ message_id ++ lit ": " ++ show_call_error error)
  end.

Definition handle_reconciliation_failure (attempt : AttemptLease) (message_id : str) (error : WebexCallError)
  : prog (result HttpError BotAction) :=
  match classify_webex_failure error lease_millis with
  | Stop => stop_attempt attempt (ignored (lit "reply_reconciliation_failed") (Some message_id) None)
  | Retry after =>
      retry_attempt attempt after
        (lit "failed to reconcile existing Webex reply for message " ++ message_id ++ lit ": " ++ show_call_error error)
  end.

Definition handle_forward_reconciliation_failure (attempt : AttemptLease) (message_id output_room_id : str)
  (error : WebexCallError) : prog (result HttpError ReplyThreadSetup) :=
  match classify_webex_failure error lease_millis with
  | Stop =>
      stop_attempt attempt
        (Finished (ignored (lit "source_forward_reconciliation_failed") (Some message_id) (Some output_room_id)))
  | Retry after =>
      retry_attempt attempt after
        (lit "failed to reconcile forwarded source message " ++ message_id ++ lit ": " ++ show_call_error error)
  end.

Definition handle_forward_create_failure (attempt : AttemptLease) (context : ForwardCreateContext) (error : WebexCallError)
  : prog (result HttpError ReplyThreadSetup) :=
  match classify_webex_create_failure error lease_millis with
  | Stop =>
      stop_attempt attempt
        (Finished (ignored (lit "source_forward_rejected") (Some (fc_message_id context)) (Some (fc_output_room_id context))))
  | Retry after =>
      let* found := find_existing_message_by_marker (fc_output_room_id context) None (fc_source_marker context)
                      (fc_marker_search_max_pages context) in
      let retry := retry_attempt attempt after
        (lit "failed to forward Webex source message " ++ fc_message_id context ++ lit ": " ++ show_call_error error) in
      match found with
      | Ok (Some forward) =>
          match id forward with
          | Some parent => Ret (Ok (Ready (mkReplyThread (fc_output_room_id context) parent)))
          | None => retry
          end
      | Ok None | Err _ => retry
      end
  end.

Definition handle_create_message_failure (attempt : AttemptLease) (context : ReplyCreateContext) (error : WebexCallError)
  : prog (result HttpError BotAction) :=
  match classify_webex_create_failure error lease_millis with
  | Stop => stop_attempt attempt (ignored (lit "reply_rejected") (Some (rc_message_id context)) (Some (rc_room_id context)))
  | Retry after =>
      let* found := find_existing_message_by_marker (rc_room_id context) (Some (rc_parent_id context))
                      (rc_reply_marker context) (rc_marker_search_max_pages context) in
      match found with
      | Ok (Some reply) =>
          stop_attempt attempt (replied (rc_message_id context) (rc_room_id context) (id reply) (rc_reply_chars context))
      | Ok None | Err _ =>
          retry_attempt attempt after
            (lit "failed to send Webex reply for message " ++ rc_message_id context ++ lit ": " ++ show_call_error error)
      end
  end.

(** ** Replies *)

(** Posting the reply: the last part of [send_fixed_reply] and [run_codex_reply]. A failing
    [mark_processed] after Webex accepted the reply is only logged. *)
Definition post_reply (attempt : AttemptLease) (message_id : str) (thread : ReplyThread) (text : str) (max_pages : option N)
  : prog (result HttpError BotAction) :=
  let marker := reply_marker message_id in
  let md := prepare_reply_markdown text marker in
  let* created := create_message (reply_markdown_message (rt_room_id thread) (rt_parent_id thread) md) in
  match created with
  | Err error =>
      handle_create_message_failure attempt
        (mkReplyCreateContext message_id (rt_room_id thread) (rt_parent_id thread) marker max_pages (byte_len md)) error
  | Ok reply =>
      let* _ := mark_processed attempt in
      Ret (Ok (replied message_id (rt_room_id thread) (id reply) (byte_len md)))
  end.

Definition send_fixed_reply (attempt : AttemptLease) (message_id room_id parent_id text : str)
  : prog (result HttpError BotAction) :=
  post_reply attempt message_id (mkReplyThread room_id parent_id) text (Some DIRECT_REPLY_MARKER_SEARCH_MAX_PAGES).

(** Looking for a reply that an earlier attempt already posted. *)
Definition reconcile_reply (attempt : AttemptLease) (message_id : str) (thread : ReplyThread) (max_pages : option N)
  : prog (result HttpError (option BotAction)) :=
  let* found := find_existing_message_by_marker (rt_room_id thread) (Some (rt_parent_id thread)) (reply_marker message_id)
                  max_pages in
  match found with
  | Ok (Some reply) =>
      let*? _ := mark_processed attempt in
      Ret (Ok (Some (replied message_id (rt_room_id thread) (id reply) (existing_reply_chars reply))))
  | Ok None => Ret (Ok None)
  | Err error =>
      let*? action := handle_reconciliation_failure attempt message_id error in
      Ret (Ok (Some action))
  end.

Definition reconcile_fixed_reply (attempt : AttemptLease) (message_id room_id parent_id : str)
  : prog (result HttpError (option BotAction)) :=
  reconcile_reply attempt message_id (mkReplyThread room_id parent_id) (Some DIRECT_REPLY_MARKER_SEARCH_MAX_PAGES).

(** What the prefetch leaves for the run: the prompt, the artifacts to hand over and clean
    up, the allowed logs, the evidence, and whether a required prefetch failed. *)
Record Prefetched : Type := mkPrefetched {
  pf_prompt : str;
  pf_cleanup : option path;
  pf_console_urls : list str;
  pf_evidence : gmap (list N) JenkinsEvidenceLog;
  pf_failed : bool
}.

Definition prefetch_required (format : ReplyFormat) : bool :=
  match format with
  | JenkinsDiagnosisJson | JenkinsFollowupJson => true
  | Markdown => false
  end.

Definition prefetch (policy : RoomPolicy) (request : CodexReplyRequest) (codex_config : CodexConfig)
  (jenkins : option MessageContext) : prog Prefetched :=
  let required := prefetch_required (cr_reply_format request) in
  let nothing := mkPrefetched (cr_prompt request) None [] ∅ required in
  match jenkins with
  | None => Ret nothing
  | Some context =>
      let* r := perform (JenkinsContextPrompt policy (cr_reply_format request) codex_config context) in
      match r with
      | Ok (Some bundle) =>
          if required && is_empty (console_urls bundle)
          then Ret (mkPrefetched (cr_prompt request) (Some (artifact_root bundle)) [] ∅ true)
          else Ret (mkPrefetched (append_prefetched_context (cr_prompt request) (jp_prompt bundle))
                      (Some (artifact_root bundle)) (console_urls bundle) (evidence_logs bundle) false)
      | Ok None | Err _ => Ret nothing
      end
  end.

Definition prefetch_failed_text : str :=
  lit "**Not enough evidence:** Jenkins diagnostics could not be fetched; check the bot service logs for details.".
Definition run_failed_text : str := lit "Codex run failed. Check the bot service logs for details.".

Definition cleanup_artifacts (root : option path) : prog unit :=
  match root with
  | Some root => let* _ := perform (CleanupArtifacts root) in Ret tt
  | None => Ret tt
  end.

(** The run itself and the text of the reply. *)
Definition run_and_render (request : CodexReplyRequest) (codex_config : CodexConfig) (pf : Prefetched) : prog str :=
  if pf_failed pf then
    let* _ := cleanup_artifacts (pf_cleanup pf) in Ret prefetch_failed_text
  else
    let* run := perform (RunWithWorkspace codex_config (pf_prompt pf) (cr_message_id request) (pf_cleanup pf)) in
    match run with
    | Ok final_message =>
        let* files := perform EvidenceFiles in
        let verified := @verified_jenkins_excerpt _ files (cr_reply_format request) final_message (pf_evidence pf) in
        let* _ := cleanup_artifacts (pf_cleanup pf) in
        Ret (render_reply_text_with_verified_excerpt (cr_reply_format request) final_message (pf_console_urls pf) verified)
    | Err _ =>
        let* _ := cleanup_artifacts (pf_cleanup pf) in Ret run_failed_text
    end.

Definition run_codex_reply (attempt : AttemptLease) (policy : RoomPolicy) (request : CodexReplyRequest)
  (jenkins : option MessageContext) : prog (result HttpError BotAction) :=
  let*? existing := reconcile_reply attempt (cr_message_id request) (cr_reply_thread request)
                      (cr_reply_marker_search_max_pages request) in
  match existing with
  | Some action => Ret (Ok action)
  | None =>
      let codex_config := codex_for_policy config policy in
      let* pf := prefetch policy request codex_config jenkins in
      let* reply_text := run_and_render request codex_config pf in
      post_reply attempt (cr_message_id request) (cr_reply_thread request) reply_text
        (cr_reply_marker_search_max_pages request)
  end.

(** ** Forwarding *)

Definition prepare_reply_thread (policy : RoomPolicy) (m : Message) (message_id source_room_id source_parent_id : str)
  (attempt : AttemptLease) : prog (result HttpError ReplyThreadSetup) :=
  match output_room_id policy with
  | None => Ret (Ok (Ready (mkReplyThread source_room_id source_parent_id)))
  | Some output_room =>
      let marker := source_marker message_id in
      let forward_message :=
        let request := top_level_markdown_message output_room (prepare_forward_markdown m source_room_id message_id marker) in
        let* created := create_message request in
        match created with
        | Ok forward =>
            match id forward with
            | Some parent => Ret (Ok (Ready (mkReplyThread output_room parent)))
            | None =>
                retry_attempt attempt lease_millis
                  (lit "forwarded Webex source message " ++ message_id ++ lit " had no message id")
            end
        | Err error =>
            handle_forward_create_failure attempt
              (mkForwardCreateContext message_id output_room marker (Some SOURCE_MARKER_SEARCH_MAX_PAGES)) error
        end in
      let* pages := source_search_pages m in
      let* found := find_existing_message_by_marker output_room None marker pages in
      match found with
      | Ok (Some forward) =>
          match id forward with
          | Some parent => Ret (Ok (Ready (mkReplyThread output_room parent)))
          | None => forward_message
          end
      | Ok None => forward_message
      | Err error => handle_forward_reconciliation_failure attempt message_id output_room error
      end
  end.

(** ** Follow-ups *)

(** The thread a follow-up is answered in: the forwarded copy for a read-only source room,
    the thread itself otherwise. *)
Definition followup_reply_thread (policy : RoomPolicy) (source_message : Message) (source : MessageContext)
  (event_room_id parent : str) : prog (result WebexCallError (option ReplyThread)) :=
  if str_eqb event_room_id (rp_room_id policy) && read_only_source policy then
    match output_room_id policy with
    | None => Ret (Ok None)
    | Some output_room =>
        let* pages := source_search_pages source_message in
        let*? forward := find_existing_message_by_marker output_room None (source_marker (mc_message_id source)) pages in
        Ret (Ok ((fun i => mkReplyThread output_room i) <$> (forward ≫= id)))
    end
  else Ret (Ok (Some (mkReplyThread event_room_id parent))).

(** [get_message] where a message that does not exist is no error. *)
Definition get_if_found (message_id : str) : prog (result WebexCallError (option Message)) :=
  let* r := perform (GetMessage message_id) in
  match r with
  | Ok m => Ret (Ok (Some m))
  | Err error => if webex_call_is_not_found error then Ret (Ok None) else Ret (Err error)
  end.

Definition resolve_followup (policy : RoomPolicy) (m : Message) (message_id event_room_id : str)
  : prog (result WebexCallError (option FollowupRun)) :=
  if negb (followup_candidate_matches policy m app_self_person_id) then Ret (Ok None)
  else match parent_id m with
  | None => Ret (Ok None)
  | Some parent =>
      let*? root := get_if_found parent in
      match root with
      | None => Ret (Ok None)
      | Some root_message =>
          let thread_fetch_limit := N.max (max_thread_messages (followup policy)) FOLLOWUP_MARKER_SEARCH_MAX_MESSAGES in
          let*? listed := perform (ListThreadMessages event_room_id parent thread_fetch_limit) in
          let thread_messages :=
            if any (fun t => bool_decide (id t = Some message_id)) listed then listed else listed ++ [m] in
          let thread_context_messages := take_N (max_thread_messages (followup policy)) thread_messages in
          let source_message_id :=
            if str_eqb event_room_id (rp_room_id policy) && read_only_source policy
               && bool_decide (is_Some (output_room_id policy))
            then Some parent
            else followup_source_message_id root_message thread_messages m app_self_person_id in
          match source_message_id with
          | None => Ret (Ok None)
          | Some source_id =>
              let*? source := (if bool_decide (id root_message = Some source_id) then Ret (Ok (Some root_message))
                               else get_if_found source_id) in
              match source with
              | None => Ret (Ok None)
              | Some source_message =>
                  match from_message source_message with
                  | None => Ret (Ok None)
                  | Some source_context =>
                      if negb (str_eqb (mc_room_id source_context) (rp_room_id policy)) then Ret (Ok None)
                      else
                        let*? thread := followup_reply_thread policy source_message source_context event_room_id parent in
                        match thread with
                        | None => Ret (Ok None)
                        | Some thread =>
                            Ret (Ok (Some (mkFollowupRun thread source_context
                              (render_thread_context root_message thread_context_messages message_id app_self_person_id
                                 (max_thread_context_chars (followup policy))))))
                        end
                  end
              end
          end
      end
  end.

(** ** Admin commands *)

Definition status_unavailable_text : str :=
  lit "**Config deployment status**" ++ [10; 10] ++ lit "State unavailable. Check the bot service logs.".

Definition pull_accepted_text (action_id : str) : str :=
  lit "**Configuration action accepted**" ++ [10; 10] ++ lit "- Action: `pull`" ++ [10] ++ lit "- State: `accepted`" ++ [10]
  ++ lit "- Action ID: `" ++ action_id ++ lit "`".

Definition process_config_command (attempt : AttemptLease) (commands : ConfigCommandsConfig) (m : Message)
  (message_id room : str) : prog (result HttpError BotAction) :=
  let ignore reason := stop_attempt attempt (ignored reason (Some message_id) (Some room)) in
  if bool_decide (is_Some (parent_id m)) then ignore (lit "config_command_must_be_top_level")
  else if negb (ConfigCommands.sender_allowed commands (person_id m) (person_email m))
  then ignore (lit "config_command_sender_not_allowed")
  else match parse_config_command (default [] (config_command_body m)) with
  | None => ignore (lit "unsupported_config_command")
  | Some command =>
      if negb (command_allowed commands command) then ignore (lit "config_command_not_allowed")
      else match command with
      | Status =>
          let*? existing := reconcile_fixed_reply attempt message_id room message_id in
          match existing with
          | Some action => Ret (Ok action)
          | None =>
              let* snapshot := perform ConfigStatus in
              send_fixed_reply attempt message_id room message_id
                (match snapshot with Ok s => status_markdown s | Err _ => status_unavailable_text end)
          end
      | Pull =>
          let* receipt := perform (EnqueuePull message_id) in
          match receipt with
          | Err _ => retry_attempt attempt CONFIG_ACTION_RETRY_AFTER (lit "config action worker unavailable")
          | Ok action_id =>
              let*? existing := reconcile_fixed_reply attempt message_id room message_id in
              match existing with
              | Some action => Ret (Ok action)
              | None => send_fixed_reply attempt message_id room message_id (pull_accepted_text action_id)
              end
          end
      | Reload | Sync => ignore (lit "config_command_not_implemented")
      end
  end.

(** ** One event *)

(** The [for policy in followup_policies] loop: [None] when no policy took the message. *)
Fixpoint try_followups (attempt : AttemptLease) (policies : list RoomPolicy) (m : Message) (message_id room : str)
  : prog (option (result HttpError BotAction)) :=
  match policies with
  | [] => Ret None
  | policy :: policies' =>
      let* resolved := resolve_followup policy m message_id room in
      match resolved with
      | Ok None => try_followups attempt policies' m message_id room
      | Err error =>
          let* r := handle_reconciliation_failure attempt message_id error in Ret (Some r)
      | Ok (Some run) =>
          match from_message m with
          | None =>
              let* r := stop_attempt attempt (ignored (lit "incomplete_message_context") (Some message_id) (Some room)) in
              Ret (Some r)
          | Some context =>
              let prompt := render_followup_prompt (fu_prompt_template (followup policy)) context (source_context run)
                              (thread_context run) in
              let* r := run_codex_reply attempt policy
                (mkCodexReplyRequest message_id (default (reply_format policy) (fu_reply_format (followup policy)))
                   (Some (followup_reply_marker_search_max_pages (max_thread_messages (followup policy))))
                   (reply_thread run) prompt) (Some (source_context run)) in
              Ret (Some r)
          end
      end
  end.

(** The end of [process_event]: a message that no follow-up policy took. *)
Definition process_direct (attempt : AttemptLease) (m : Message) (message_id room : str)
  : prog (result HttpError BotAction) :=
  let ignore reason := stop_attempt attempt (ignored reason (Some message_id) (Some room)) in
  if bool_decide (is_Some (parent_id m)) && room_is_read_only_source config room then ignore (lit "not_followup")
  else match policy_for_room config room with
  | None => ignore (lit "not_followup")
  | Some policy =>
      match should_trigger policy m app_self_person_id with
      | Matched =>
          let parent := default message_id (parent_id m) in
          let*? setup := prepare_reply_thread policy m message_id room parent attempt in
          match setup with
          | Finished action => Ret (Ok action)
          | Ready thread =>
              match from_message m with
              | None => ignore (lit "incomplete_message_context")
              | Some context =>
                  run_codex_reply attempt policy
                    (mkCodexReplyRequest message_id (reply_format policy) (Some DIRECT_REPLY_MARKER_SEARCH_MAX_PAGES) thread
                       (render_prompt (prompt_template policy) context)) (Some context)
              end
          end
      | t => ignore (trigger_reason t)
      end
  end.

(** A hydrated message in a known room. *)
Definition process_message (attempt : AttemptLease) (m : Message) (message_id room : str)
  : prog (result HttpError BotAction) :=
  let ignore reason := stop_attempt attempt (ignored reason (Some message_id) (Some room)) in
  let followup_policies := followup_policies_for_event_room config room in
  let is_command := is_some_and (config_command_body m) is_config_command_namespace in
  let command_room := match config_commands config with
                      | Some cc => if str_eqb (ConfigCommands.room_id cc) room then Some cc else None
                      | None => None
                      end in
  if bool_decide (is_Some (config_commands config)) && is_command && bool_decide (command_room = None)
  then ignore (lit "config_command_wrong_room")
  else if bool_decide (policy_for_room config room = None) && is_empty followup_policies && bool_decide (command_room = None)
  then ignore (lit "no_room_policy")
  else if is_some_and app_self_person_id (fun self => bool_decide (person_id m = Some self)) then ignore (lit "self_message")
  else match command_room with
  | Some cc => process_config_command attempt cc m message_id room
  | None =>
      let* taken := try_followups attempt followup_policies m message_id room in
      match taken with
      | Some r => Ret r
      | None => process_direct attempt m message_id room
      end
  end.

(** From the started attempt on. *)
Definition process_attempt (attempt : AttemptLease) (sidecar_message : Message) (message_id : str)
  : prog (result HttpError BotAction) :=
  let* hydrated := get_event_message_with_not_found_retry message_id sidecar_message in
  match hydrated with
  | Err error => handle_get_message_failure attempt message_id error
  | Ok m =>
      if negb (bool_decide (id m = Some message_id))
      then stop_attempt attempt (ignored (lit "hydrated_message_id_mismatch") (Some message_id) None)
      else match room_id m with
      | None => stop_attempt attempt (ignored (lit "missing_room_id") (Some message_id) None)
      | Some room => process_message attempt m message_id room
      end
  end.

Definition process_event (e : SidecarEvent) : prog (result HttpError BotAction) :=
  if negb (version e =? 1) then Ret (Ok (ignored (lit "unsupported_event_version") None None))
  else if negb (str_eqb (resource e) (lit "messages")) || negb (str_eqb (Webex.event e) (lit "created"))
  then Ret (Ok (ignored (lit "unsupported_event") (Some (resource e)) None))
  else match message_from_value (data e) with
  | Err error => Ret (Err (bad_request (lit "invalid message payload: " ++ error)))
  | Ok sidecar_message =>
      match id sidecar_message with
      | None => Ret (Ok (ignored (lit "missing_message_id") None None))
      | Some message_id =>
          let*? start := begin_attempt message_id in
          match start with
          | Started attempt => process_attempt attempt sidecar_message message_id
          | Processed => Ret (Ok (ignored (lit "duplicate_message") (Some message_id) None))
          | Leased after =>
              Ret (Err (http_retry_after SERVICE_UNAVAILABLE
                (lit "message " ++ message_id ++ lit " already has an active attempt lease") after))
          end
      end
  end.
End bot_app.
