(* ===== verification/BotRules.v ===== *)
(** * Rules every run of [BotApp] keeps

    What the handlers of [BotApp.v] may call and when: a guard on each call, given the
    trace so far, and the way an attempt ends. One lemma per handler proves that it keeps
    the rules; the properties read them off for whole events. *)

From S2P Require Import Prelude Text Paths ConfigCommands Config Webex Policy Markers Jenkins Replies Threads WebexCalls Effects Programs BotApp.

Local Open Scope N_scope.

Section rules.
Context `{StateStore} `{BotLibraries} `{JsonText} `{DateTimeOps}.
Context (config : BotConfig) (self : option str).

(** ** What a trace says *)

Definition closing_call (c : call) : bool :=
  match c with
  | MarkProcessed _ | DeferAttempt _ _ => true
  | _ => false
  end.

(** The events that end an attempt, the messages posted and the Codex runs. *)
Definition closers (h : list event) : list event := List.filter (fun e => closing_call (ev_call e)) h.
Definition posts (h : list event) : list CreateMessage :=
  omap (fun e => match ev_call e with PostMessage request => Some request | _ => None end) h.
Definition runs (h : list event) : list str :=
  omap (fun e => match ev_call e with RunWithWorkspace _ _ message_id _ => Some message_id | _ => None end) h.

(** The attempt an event hands out. *)
Definition started_by (e : event) : option AttemptLease :=
  match e with
  | Ev c ans =>
      match c return answer c -> option AttemptLease with
      | BeginAttempt _ _ => fun ans => match ans with Ok (Started attempt) => Some attempt | _ => None end
      | _ => fun _ => None
      end ans
  end.

(** The message an attempt is begun for. *)
Definition begun (h : list event) (message_id : str) : Prop :=
  exists e, e ∈ h /\ exists lease, ev_call e = BeginAttempt message_id lease.

Definition started (h : list event) (attempt : AttemptLease) : Prop := exists e, e ∈ h /\ started_by e = Some attempt.

(** The event's message as Webex returned it: the right one and not the bot's own. *)
Definition hydrated (h : list event) (message_id : str) (m : Message) : Prop :=
  (exists hint, Ev (GetEventMessage message_id hint) (Ok m) ∈ h)
  /\ begun h message_id /\ id m = Some message_id /\ (self <> None -> person_id m <> self).

(** A search that found no message to reuse. *)
Definition searched (h : list event) (room : str) (parent : option str) (marker : str) : Prop :=
  exists max_pages, Ev (FindMessageByMarker room parent marker self max_pages) (Ok None) ∈ h.

Definition searched_forward (h : list event) (room marker : str) : Prop :=
  exists max_pages (found : option Message), (Ev (FindMessageByMarker room None marker self max_pages) (Ok found) : event) ∈ h /\ found ≫= id = None.

(** Who may cause a Codex run: a sender the room's policy authorizes, in the way the room
    asks for, or a follow-up. *)
Definition may_run (policy : RoomPolicy) (m : Message) : Prop :=
  policy ∈ rooms config /\
  ((room_id m = Some (rp_room_id policy) /\ authorized policy m /\ addressed policy m self)
   \/ (fu_enabled (followup policy) = true /\ parent_id m <> None /\ followup_authorized policy m
       /\ exists t, t ∈ triggers (followup policy) /\ trigger_fires policy m self t)).

(** Who may give an admin command. *)
Definition may_command (m : Message) (command : ConfigCommand) : Prop :=
  exists cc, config_commands config = Some cc /\ room_id m = Some (ConfigCommands.room_id cc) /\ parent_id m = None
    /\ ConfigCommands.sender_allowed cc (person_id m) (person_email m) = true
    /\ parse_config_command (default [] (config_command_body m)) = Some command
    /\ command_allowed cc command = true.

Definition entitled (m : Message) : Prop := (exists policy, may_run policy m) \/ (exists command, may_command m command).

(** ** The guard *)

Definition reply_allowed (h : list event) (request : CreateMessage) : Prop :=
  exists message_id m room parent text,
    request = reply_markdown_message room parent (prepare_reply_markdown text (reply_marker message_id))
    /\ hydrated h message_id m /\ entitled m
    /\ searched h room (Some parent) (reply_marker message_id)
    /\ Forall (fun r => cm_parent_id r = None) (posts h).

Definition forward_allowed (h : list event) (request : CreateMessage) : Prop :=
  exists message_id m policy room source_room,
    request = top_level_markdown_message room (prepare_forward_markdown m source_room message_id (source_marker message_id))
    /\ hydrated h message_id m /\ may_run policy m /\ output_room_id policy = Some room
    /\ searched_forward h room (source_marker message_id)
    /\ posts h = [].

Definition allowed (h : list event) (c : call) : Prop :=
  match c with
  | BeginAttempt _ _ => h = []
  | MarkProcessed attempt | DeferAttempt attempt _ => started h attempt /\ closers h = []
  | PostMessage request =>
      (forall room, cm_room_id request = Some room -> room_is_read_only_source config room = false)
      /\ closers h = [] /\ (reply_allowed h request \/ forward_allowed h request)
  | RunWithWorkspace codex_config _ message_id _ =>
      (exists m policy, hydrated h message_id m /\ may_run policy m /\ codex_config = codex_for_policy config policy)
      /\ (exists room parent, searched h room (Some parent) (reply_marker message_id))
      /\ runs h = [] /\ closers h = []
  | EnqueuePull message_id => exists m, hydrated h message_id m /\ may_command m Pull
  | _ => True
  end.

(** ** How an attempt ends *)

Definition err_of {A} (r : result HttpError A) : option HttpError :=
  match r with
  | Ok _ => None
  | Err e => Some e
  end.

(** The one closing call and what the handler makes of its answer: [MarkProcessed] ends in
    success (or its own failure), [DeferAttempt] in an error that asks for the same delay. *)
Definition closing (attempt : AttemptLease) (e : event) (outcome : option HttpError) : Prop :=
  match e with
  | Ev c ans =>
      match c return answer c -> Prop with
      | MarkProcessed a => fun ans =>
          a = attempt /\ (outcome = None \/ exists s, ans = Err s /\ outcome = Some (state_error s))
      | DeferAttempt a lease => fun ans =>
          a = attempt /\ match ans with
                         | Ok _ => exists error, outcome = Some error /\ status error = 503 /\ retry_after error = Some lease
                         | Err s => outcome = Some (state_error s)
                         end
      | _ => fun _ => False
      end ans
  end.

Definition closed (attempt : AttemptLease) (h : list event) (outcome : option HttpError) : Prop :=
  exists e, closers h = [e] /\ closing attempt e outcome.

(** ** Facts carried along *)

Lemma begun_extends h h' i : begun h i -> extends h h' -> begun h' i.
Proof. intros (e & Hin & Hc) He. exists e. split; [by eapply extends_in|done]. Qed.

Lemma hydrated_extends h h' i m : hydrated h i m -> extends h h' -> hydrated h' i m.
Proof.
  intros [(hint & Hin) [Hb Hm]] He. split; [exists hint; by eapply extends_in|]. split; [by eapply begun_extends|done].
Qed.

Lemma started_extends h h' a : started h a -> extends h h' -> started h' a.
Proof. intros (e & Hin & Hs) He. exists e. split; [by eapply extends_in|done]. Qed.

Lemma searched_extends h h' room parent marker : searched h room parent marker -> extends h h' -> searched h' room parent marker.
Proof. intros (p & Hin) He. exists p. by eapply extends_in. Qed.

(** Nothing happened yet that a later guard looks at. *)
Definition open_at (attempt : AttemptLease) (h : list event) : Prop := started h attempt /\ closers h = [].

(** [h'] continues [h] without closing, posting or running. *)
Definition quiet (h h' : list event) : Prop :=
  extends h h' /\ closers h' = closers h /\ posts h' = posts h /\ runs h' = runs h.

Lemma quiet_refl h : quiet h h.
Proof. split_and!; auto with trace. Qed.

Lemma quiet_trans h1 h2 h3 : quiet h1 h2 -> quiet h2 h3 -> quiet h1 h3.
Proof. intros (? & ? & ? & ?) (? & ? & ? & ?). split_and!; [by eapply extends_trans|congruence..]. Qed.

Lemma open_quiet a h h' : open_at a h -> quiet h h' -> open_at a h'.
Proof. intros [Hs Hc] (He & Hc' & _). split; [by eapply started_extends|congruence]. Qed.

(** ** Closing calls *)

Definition ends {A} (attempt : AttemptLease) (h h' : list event) (r : result HttpError A) : Prop :=
  extends h h' /\ closed attempt h' (err_of r).

Lemma stop_attempt_rule {A} a (x : A) h :
  open_at a h -> wp allowed (stop_attempt a x) (fun h' r => ends a h h' r) h.
Proof.
  intros [Hs Hc]. split; [done|]. intros r. destruct r as [u|s]; cbn; (split; [auto with trace|]);
    (eexists; split; [unfold closers in *; cbn; by rewrite Hc|]); cbn; split; eauto.
Qed.

Lemma retry_attempt_rule {A} a after m h :
  open_at a h -> wp allowed (@retry_attempt _ A a after m) (fun h' r => ends a h h' r) h.
Proof.
  intros [Hs Hc]. split; [done|]. intros r. destruct r as [u|s]; cbn; (split; [auto with trace|]);
    (eexists; split; [unfold closers in *; cbn; by rewrite Hc|]); cbn; split; eauto.
Qed.

(** A closing [mark_processed] whose failure is only logged. *)
Lemma mark_ignored_rule {A} a (x : A) h :
  open_at a h ->
  wp allowed (let* _ := mark_processed a in Ret (Ok x)) (fun h' r => ends a h h' r) h.
Proof.
  intros [Hs Hc]. split; [done|]. intros r. cbn. split; [auto with trace|]. eexists. split; [unfold closers in *; cbn; by rewrite Hc|]. cbn. auto.
Qed.

Lemma ends_extends {A} a h1 h2 h3 (r : result HttpError A) : extends h1 h2 -> ends a h2 h3 r -> ends a h1 h3 r.
Proof. intros He [? ?]. split; [by eapply extends_trans|done]. Qed.

Lemma ends_after {A} a h1 h2 (p : prog (result HttpError A)) :
  extends h1 h2 -> wp allowed p (fun h' r => ends a h2 h' r) h2 -> wp allowed p (fun h' r => ends a h1 h' r) h2.
Proof. intros He Hw. eapply wp_consequence; [exact Hw|]. intros h' r. by apply ends_extends. Qed.

(** A search leaves the facts alone. *)
Lemma quiet_event c (r : answer c) h :
  match c with
  | MarkProcessed _ | DeferAttempt _ _ | PostMessage _ | RunWithWorkspace _ _ _ _ => False
  | _ => True
  end -> quiet h (Ev c r :: h).
Proof. intros Hc. split_and!; [auto with trace|by destruct c..]. Qed.

Lemma get_failure_rule a i error h :
  open_at a h -> wp allowed (handle_get_message_failure config a i error) (fun h' r => ends a h h' r) h.
Proof.
  intros Ho. unfold handle_get_message_failure.
  destruct (classify_webex_failure _ _); [by apply stop_attempt_rule|by apply retry_attempt_rule].
Qed.

Lemma reconciliation_failure_rule a i error h :
  open_at a h -> wp allowed (handle_reconciliation_failure config a i error) (fun h' r => ends a h h' r) h.
Proof.
  intros Ho. unfold handle_reconciliation_failure.
  destruct (classify_webex_failure _ _); [by apply stop_attempt_rule|by apply retry_attempt_rule].
Qed.

Lemma create_failure_rule a ctx error h :
  open_at a h -> wp allowed (handle_create_message_failure config self a ctx error) (fun h' r => ends a h h' r) h.
Proof.
  intros Ho. unfold handle_create_message_failure.
  destruct (classify_webex_create_failure _ _) as [|after]; [by apply stop_attempt_rule|].
  split; [done|]. intros found. cbn [wp bind].
  match goal with |- wp _ _ _ ?h2 => assert (quiet h h2) as Hq by by apply quiet_event end.
  pose proof (open_quiet _ _ _ Ho Hq) as Ho'.
  destruct found as [[reply|]|e]; (apply ends_after; [apply Hq|]);
    first [by apply stop_attempt_rule | by apply retry_attempt_rule].
Qed.

(** ** Posting *)

Lemma open_extends a h h' : open_at a h -> extends h h' -> closers h' = closers h -> open_at a h'.
Proof. intros [Hs Hc] He Hc'. split; [by eapply started_extends|congruence]. Qed.

Lemma create_message_rule h request room (Q : list event -> result WebexCallError Message -> Prop) :
  cm_room_id request = Some room -> closers h = [] -> (reply_allowed h request \/ forward_allowed h request) ->
  Q h (Err (WriteBlocked room)) -> (forall r, Q (Ev (PostMessage request) r :: h) r) ->
  wp allowed (create_message config request) Q h.
Proof.
  intros Hr Hc Ha Hq1 Hq2. unfold create_message. rewrite Hr.
  destruct (room_is_read_only_source config room) eqn:E; [done|]. split; [|exact Hq2].
  cbn. split_and!; [|done|done]. intros room'. rewrite Hr. by intros [= <-].
Qed.

Lemma post_reply_rule a i m thread txt pages h :
  open_at a h -> hydrated h i m -> entitled m ->
  searched h (rt_room_id thread) (Some (rt_parent_id thread)) (reply_marker i) ->
  Forall (fun r => cm_parent_id r = None) (posts h) ->
  wp allowed (post_reply config self a i thread txt pages) (fun h' r => ends a h h' r) h.
Proof.
  intros Ho Hh He Hs Hp. unfold post_reply. cbv zeta. apply wp_bind.
  eapply create_message_rule; [done|apply Ho| | |].
  - left. by exists i, m, (rt_room_id thread), (rt_parent_id thread), txt.
  - by apply create_failure_rule.
  - intros r. match goal with |- context [Ev ?c ?x :: h] => set (h1 := Ev c x :: h) end.
    assert (open_at a h1) as Ho1 by (eapply open_extends; [exact Ho|apply extends_cons, extends_refl|done]).
    apply ends_after; [apply extends_cons, extends_refl|].
    destruct r as [reply|error]; [by apply mark_ignored_rule|by apply create_failure_rule].
Qed.

Lemma reconcile_reply_rule a i thread pages h :
  open_at a h ->
  wp allowed (reconcile_reply config self a i thread pages)
    (fun h' r => match r with
       | Ok None => quiet h h' /\ searched h' (rt_room_id thread) (Some (rt_parent_id thread)) (reply_marker i)
       | Ok (Some action) => ends a h h' (Ok action)
       | Err e => ends a h h' (Err e : result HttpError BotAction)
       end) h.
Proof.
  intros Ho. split; [done|]. intros found. cbn [wp bind].
  match goal with |- wp _ _ _ ?h2 => set (h1 := h2); assert (quiet h h1) as Hq by by apply quiet_event end.
  pose proof (open_quiet _ _ _ Ho Hq) as Ho'.
  destruct found as [[reply|]|e].
  - pose proof (stop_attempt_rule a (replied i (rt_room_id thread) (id reply) (existing_reply_chars reply)) h1 Ho') as Hw.
    apply wp_bind_ok. apply wp_bind_ok in Hw. eapply wp_consequence; [exact Hw|].
    intros h' [u|e] Hends; by eapply ends_extends; [apply Hq|].
  - cbn. split; [done|]. exists pages. apply elem_of_cons. by left.
  - apply wp_bind_ok. eapply wp_consequence; [by apply reconciliation_failure_rule|].
    intros h' [act|e'] Hends; by eapply ends_extends; [apply Hq|].
Qed.

Lemma prefetch_rule policy request cx jk h :
  wp allowed (prefetch policy request cx jk) (fun h' _ => quiet h h') h.
Proof.
  unfold prefetch. destruct jk as [context|]; [|apply quiet_refl]. split; [done|]. intros r. cbn [wp bind].
  match goal with |- wp _ _ _ ?h2 => assert (quiet h h2) as Hq by by apply quiet_event end.
  destruct r as [[bundle|]|e]; [|done..]. by destruct (_ && _).
Qed.

Lemma cleanup_rule root h : wp allowed (cleanup_artifacts root) (fun h' _ => quiet h h') h.
Proof. destruct root; [|apply quiet_refl]. split; [done|]. intros r. by apply quiet_event. Qed.

Lemma run_and_render_rule policy m request pf h :
  closers h = [] -> runs h = [] -> hydrated h (cr_message_id request) m -> may_run policy m ->
  (exists room parent, searched h room (Some parent) (reply_marker (cr_message_id request))) ->
  wp allowed (run_and_render request (codex_for_policy config policy) pf)
    (fun h' _ => extends h h' /\ closers h' = closers h /\ posts h' = posts h) h.
Proof.
  intros Hc Hr Hh Hm Hs. unfold run_and_render. destruct (pf_failed pf).
  { apply wp_bind. eapply wp_consequence; [apply cleanup_rule|]. cbn. intros h' _ (? & ? & ? & _). done. }
  split; [cbn; split_and!; [by exists m, policy|done..]|]. intros r. cbn [wp bind].
  destruct r as [final|e].
  - split; [done|]. intros files. cbn [wp bind]. apply wp_bind.
    eapply wp_consequence; [apply cleanup_rule|]. cbn. intros h' _ (He & Hc' & Hp' & _).
    split_and!; [|done|done]. eapply extends_trans; [|exact He]. auto with trace.
  - apply wp_bind. eapply wp_consequence; [apply cleanup_rule|]. cbn. intros h' _ (He & Hc' & Hp' & _).
    split_and!; [|done|done]. eapply extends_trans; [|exact He]. auto with trace.
Qed.

Lemma run_codex_reply_rule a policy m request jk h :
  open_at a h -> runs h = [] -> hydrated h (cr_message_id request) m -> may_run policy m ->
  Forall (fun r => cm_parent_id r = None) (posts h) ->
  wp allowed (run_codex_reply config self a policy request jk) (fun h' r => ends a h h' r) h.
Proof.
  intros Ho Hr Hh Hm Hp. unfold run_codex_reply. apply wp_bind_ok.
  eapply wp_consequence; [by apply reconcile_reply_rule|]. intros h1 [[act|]|e]; [done| |done].
  intros [Hq Hs]. cbv zeta. apply wp_bind. eapply wp_consequence; [apply prefetch_rule|]. intros h2 pf Hq2. cbn beta.
  assert (quiet h h2) as Hq' by by eapply quiet_trans.
  destruct Hq' as (He & Hc' & Hp' & Hr').
  assert (searched h2 (rt_room_id (cr_reply_thread request)) (Some (rt_parent_id (cr_reply_thread request)))
    (reply_marker (cr_message_id request))) as Hs' by (eapply searched_extends; [exact Hs|apply Hq2]).
  apply wp_bind. eapply wp_consequence.
  { apply (run_and_render_rule policy m); [rewrite Hc'; apply Ho|by rewrite Hr'|by eapply hydrated_extends|done|eauto]. }
  intros h3 txt (He3 & Hc3 & Hp3). cbn beta. assert (extends h h3) as Hext by by eapply extends_trans.
  apply ends_after; [done|]. apply (post_reply_rule a _ m).
  - eapply open_extends; [exact Ho|done|congruence].
  - by eapply hydrated_extends.
  - left. by exists policy.
  - by eapply searched_extends.
  - by rewrite Hp3, Hp'.
Qed.

Lemma send_fixed_reply_rule a i m room parent txt h :
  open_at a h -> hydrated h i m -> entitled m -> searched h room (Some parent) (reply_marker i) -> posts h = [] ->
  wp allowed (send_fixed_reply config self a i room parent txt) (fun h' r => ends a h h' r) h.
Proof. intros Ho Hh He Hs Hp. apply (post_reply_rule a i m); [done..|]. rewrite Hp. constructor. Qed.

(** ** Forwarding and follow-ups *)

Definition forwarded (a : AttemptLease) (h h' : list event) (r : result HttpError ReplyThreadSetup) : Prop :=
  match r with
  | Ok (Ready _) =>
      extends h h' /\ closers h' = closers h /\ runs h' = runs h /\ Forall (fun p => cm_parent_id p = None) (posts h')
  | Ok (Finished action) => ends a h h' (Ok action)
  | Err e => ends a h h' (Err e : result HttpError BotAction)
  end.

Lemma ends_forwarded a h0 h (p : prog (result HttpError ReplyThreadSetup)) :
  extends h0 h ->
  wp allowed p (fun h' r => ends a h h' r /\ (forall th, r <> Ok (Ready th))) h ->
  wp allowed p (forwarded a h0) h.
Proof.
  intros He Hw. eapply wp_consequence; [exact Hw|]. intros h' [[th|act]|e] [Hends Hn]; [by destruct (Hn th)|..];
    by apply (ends_extends a h0 h h' (A := ReplyThreadSetup)) in Hends.
Qed.

Lemma stop_finished_rule a act h :
  open_at a h ->
  wp allowed (stop_attempt a (Finished act)) (fun h' r => ends a h h' r /\ (forall th, r <> Ok (Ready th))) h.
Proof.
  intros Ho. pose proof (stop_attempt_rule a (Finished act) h Ho) as Hw. apply wp_bind_ok in Hw. apply wp_bind_ok.
  eapply wp_consequence; [exact Hw|]. cbn. by intros h' [u|e] Hends.
Qed.

Lemma retry_finished_rule a after msg h :
  open_at a h ->
  wp allowed (@retry_attempt _ ReplyThreadSetup a after msg) (fun h' r => ends a h h' r /\ (forall th, r <> Ok (Ready th))) h.
Proof.
  intros Ho. pose proof (@retry_attempt_rule ReplyThreadSetup a after msg h Ho) as Hw. apply wp_bind_ok in Hw. apply wp_bind_ok.
  eapply wp_consequence; [exact Hw|]. cbn. by intros h' [u|e] Hends.
Qed.

Lemma forward_reconciliation_failure_rule a i room error h0 h :
  extends h0 h -> open_at a h ->
  wp allowed (handle_forward_reconciliation_failure config a i room error) (forwarded a h0) h.
Proof.
  intros He Ho. unfold handle_forward_reconciliation_failure. apply ends_forwarded; [done|].
  destruct (classify_webex_failure _ _); [by apply stop_finished_rule|by apply retry_finished_rule].
Qed.

Lemma forward_create_failure_rule a ctx error h0 h :
  extends h0 h -> closers h = closers h0 -> runs h = runs h0 -> Forall (fun p => cm_parent_id p = None) (posts h) ->
  open_at a h ->
  wp allowed (handle_forward_create_failure config self a ctx error) (forwarded a h0) h.
Proof.
  intros He Hc Hr Hp Ho. unfold handle_forward_create_failure.
  destruct (classify_webex_create_failure _ _) as [|after].
  { apply ends_forwarded; [done|]. by apply stop_finished_rule. }
  split; [done|]. intros found. cbn [wp bind].
  match goal with |- wp _ _ _ ?h2 => set (h1 := h2); assert (quiet h h1) as Hq by by apply quiet_event end.
  pose proof (open_quiet _ _ _ Ho Hq) as Ho'. destruct Hq as (He1 & Hc1 & Hp1 & Hr1).
  assert (extends h0 h1) as He' by by eapply extends_trans.
  destruct found as [[forward|]|e].
  - destruct (id forward) as [parent|].
    + cbn [wp]. unfold forwarded. split_and!; [done|congruence|congruence|by rewrite Hp1].
    + apply ends_forwarded; [done|]. by apply retry_finished_rule.
  - apply ends_forwarded; [done|]. by apply retry_finished_rule.
  - apply ends_forwarded; [done|]. by apply retry_finished_rule.
Qed.

(** Posting the forwarded copy once a search found none that can be answered. *)
Lemma forward_message_rule a i m policy room source_room h0 h :
  let request := top_level_markdown_message room (prepare_forward_markdown m source_room i (source_marker i)) in
  extends h0 h -> closers h = closers h0 -> runs h = runs h0 -> posts h = [] -> open_at a h ->
  hydrated h i m -> may_run policy m -> output_room_id policy = Some room -> searched_forward h room (source_marker i) ->
  forall msg, wp allowed
    (let* created := create_message config request in
     match created with
     | Ok forward =>
         match id forward with
         | Some parent => Ret (Ok (Ready (mkReplyThread room parent)))
         | None => retry_attempt a (lease_millis config) msg
         end
     | Err error =>
         handle_forward_create_failure config self a
           (mkForwardCreateContext i room (source_marker i) (Some SOURCE_MARKER_SEARCH_MAX_PAGES)) error
     end) (forwarded a h0) h.
Proof.
  intros request He Hc Hr Hp Ho Hh Hm Hout Hs msg. apply wp_bind.
  eapply create_message_rule; [done|apply Ho| | |].
  - right. by exists i, m, policy, room, source_room.
  - apply forward_create_failure_rule; [done..|by rewrite Hp|done].
  - intros r. set (h1 := Ev (PostMessage request) r :: h).
    assert (extends h0 h1) as He1 by by apply extends_cons.
    assert (open_at a h1) as Ho1 by (eapply open_extends; [exact Ho|apply extends_cons, extends_refl|done]).
    assert (Forall (fun p => cm_parent_id p = None) (posts h1)) as Hp1.
    { change (posts h1) with (request :: posts h). rewrite Hp. by repeat constructor. }
    destruct r as [forward|error].
    + destruct (id forward) as [parent|].
      * cbn [wp]. unfold forwarded. split_and!; done.
      * apply ends_forwarded; [done|]. by apply retry_finished_rule.
    + by apply forward_create_failure_rule.
Qed.

Lemma prepare_reply_thread_rule a i m policy source_room parent h :
  open_at a h -> posts h = [] -> hydrated h i m -> may_run policy m ->
  wp allowed (prepare_reply_thread config self policy m i source_room parent a) (forwarded a h) h.
Proof.
  intros Ho Hp Hh Hm. unfold prepare_reply_thread. destruct (output_room_id policy) as [room|] eqn:Eo.
  2: { cbn [wp]. unfold forwarded. rewrite Hp. split_and!; auto with trace. }
  cbv zeta. split; [done|]. intros now. cbn [wp bind]. split; [done|]. intros found. cbn [wp bind].
  match goal with |- wp _ _ _ ?h2 => set (h1 := h2) end.
  assert (quiet h h1) as Hq by (eapply quiet_trans; by apply quiet_event).
  pose proof (open_quiet _ _ _ Ho Hq) as Ho1. destruct Hq as (He & Hc & Hp1 & Hr).
  assert (forall f, found = Ok f -> f ≫= id = None -> searched_forward h1 room (source_marker i)) as Hsf.
  { intros f -> Hf. eexists _, f. split; [apply elem_of_cons; by left|done]. }
  assert (forall f, found = Ok f -> f ≫= id = None -> forall msg, wp allowed
    (let* created := create_message config (top_level_markdown_message room (prepare_forward_markdown m source_room i (source_marker i))) in
     match created with
     | Ok forward =>
         match id forward with
         | Some parent => Ret (Ok (Ready (mkReplyThread room parent)))
         | None => retry_attempt a (lease_millis config) msg
         end
     | Err error =>
         handle_forward_create_failure config self a
           (mkForwardCreateContext i room (source_marker i) (Some SOURCE_MARKER_SEARCH_MAX_PAGES)) error
     end) (forwarded a h) h1) as Hforward.
  { intros f Hf Hn msg. apply (forward_message_rule a i m policy); [done..|congruence|done|by eapply hydrated_extends|done|done|eauto]. }
  destruct found as [[forward|]|e].
  - destruct (id forward) as [p|] eqn:Ei; [|by eapply Hforward].
    cbn [wp]. unfold forwarded. rewrite Hp1, Hp. by split_and!.
  - by eapply Hforward.
  - by apply forward_reconciliation_failure_rule.
Qed.

Lemma get_if_found_rule i h : wp allowed (get_if_found i) (fun h' _ => quiet h h') h.
Proof.
  split; [done|]. intros r. cbn [wp bind].
  match goal with |- wp _ _ _ ?h2 => assert (quiet h h2) as Hq by by apply quiet_event end.
  destruct r as [m|e]; [done|]. by destruct (webex_call_is_not_found e).
Qed.

Lemma followup_reply_thread_rule policy m source room parent h :
  wp allowed (followup_reply_thread config self policy m source room parent) (fun h' _ => quiet h h') h.
Proof.
  unfold followup_reply_thread. destruct (_ && _); [|apply quiet_refl].
  destruct (output_room_id policy) as [out|]; [|apply quiet_refl].
  split; [done|]. intros now. cbn [wp bind]. split; [done|]. intros found.
  assert (forall x y, quiet h (Ev (FindMessageByMarker out None (source_marker (mc_message_id source)) self x) y :: Ev Now now :: h)) as Hq.
  { intros x y. eapply quiet_trans; by apply quiet_event. }
  destruct found as [f|e]; apply Hq.
Qed.

(** Steps that leave the facts alone compose. *)
Lemma quiet_bind_ok {E A B} (p : prog (result E A)) (f : A -> prog (result E B)) h :
  wp allowed p (fun h' _ => quiet h h') h ->
  (forall a h', wp allowed (f a) (fun h'' _ => quiet h' h'') h') ->
  wp allowed (bind_ok p f) (fun h'' _ => quiet h h'') h.
Proof.
  intros Hp Hf. apply wp_bind_ok. eapply wp_consequence; [exact Hp|]. intros h' [x|e] Hq; [|done].
  eapply wp_consequence; [apply Hf|]. intros h'' r. by apply quiet_trans.
Qed.

Lemma resolve_followup_quiet policy m i room h :
  wp allowed (resolve_followup config self policy m i room) (fun h' _ => quiet h h') h.
Proof.
  unfold resolve_followup. destruct (negb _); [apply quiet_refl|].
  destruct (parent_id m) as [parent|]; [|apply quiet_refl].
  apply quiet_bind_ok; [apply get_if_found_rule|]. intros [root|] h1; [|apply quiet_refl]. cbv zeta.
  apply quiet_bind_ok; [split; [done|]; intros r; by apply quiet_event|]. intros listed h2.
  case_match; [|apply quiet_refl].
  apply quiet_bind_ok; [destruct (bool_decide (id root = _)); [apply quiet_refl|apply get_if_found_rule]|].
  intros [source|] h3; [|apply quiet_refl]. destruct (from_message source) as [ctx|]; [|apply quiet_refl].
  destruct (negb _); [apply quiet_refl|].
  apply quiet_bind_ok; [apply followup_reply_thread_rule|]. intros [thread|] h4; apply quiet_refl.
Qed.

Lemma resolve_followup_rule policy m i room h :
  wp allowed (resolve_followup config self policy m i room)
    (fun h' r => quiet h h' /\ (forall run, r = Ok (Some run) -> followup_candidate_matches policy m self = true)) h.
Proof.
  destruct (followup_candidate_matches policy m self) eqn:E.
  - eapply wp_consequence; [apply resolve_followup_quiet|]. done.
  - unfold resolve_followup. rewrite E. split; [apply quiet_refl|done].
Qed.

(** ** Events *)

Lemma followup_may_run policy m room :
  policy ∈ followup_policies_for_event_room config room -> followup_candidate_matches policy m self = true -> may_run policy m.
Proof.
  unfold followup_policies_for_event_room. intros Hin%list_elem_of_In Hm. apply filter_In in Hin as [Hin Hf].
  apply list_elem_of_In in Hin. apply andb_true_iff in Hf as [Hf _].
  split; [done|]. right. split; [done|]. revert Hm. unfold followup_candidate_matches.
  case_bool_decide; [done|]. destruct (followup_sender_allowed policy m) eqn:Es; [|done]. cbn [negb orb].
  intros Ha%any_true. apply followup_sender_allowed_spec in Es. split; [done|]. split; [done|].
  destruct Ha as (t & Ht & Hf'). exists t. by rewrite <-trigger_fires_spec.
Qed.

Lemma try_followups_rule a policies m i room h :
  (forall p, p ∈ policies -> p ∈ followup_policies_for_event_room config room) ->
  open_at a h -> hydrated h i m -> posts h = [] -> runs h = [] ->
  wp allowed (try_followups config self a policies m i room)
    (fun h' r => match r with Some r => ends a h h' r | None => quiet h h' end) h.
Proof.
  intros Hin. revert h. induction policies as [|p policies IH]; intros h Ho Hh Hp Hr; [apply quiet_refl|].
  cbn [try_followups]. apply wp_bind. eapply wp_consequence; [apply resolve_followup_rule|]. cbn beta.
  intros h1 r [Hq Hm]. pose proof (open_quiet _ _ _ Ho Hq) as Ho1. pose proof Hq as (He & Hc & Hp1 & Hr1).
  assert (hydrated h1 i m) as Hh1 by by eapply hydrated_extends.
  destruct r as [[run|]|error].
  - specialize (Hm run eq_refl). assert (may_run p m) as Hmay.
    { eapply followup_may_run; [apply Hin, elem_of_cons; by left|done]. }
    destruct (from_message m) as [context|]; cbv zeta; apply wp_bind.
    + eapply wp_consequence; [apply (run_codex_reply_rule a p m); [done|congruence|done|done|by rewrite Hp1, Hp]|].
      intros h' r. by apply ends_extends.
    + eapply wp_consequence; [by apply stop_attempt_rule|]. intros h' r. by apply ends_extends.
  - eapply wp_consequence.
    { apply IH; [|done|done|congruence|congruence]. intros q Hq'. apply Hin, elem_of_cons. by right. }
    intros h' [r|]; [by apply ends_extends|]. by apply quiet_trans.
  - apply wp_bind. eapply wp_consequence; [by apply reconciliation_failure_rule|]. intros h' r. by apply ends_extends.
Qed.

Lemma process_direct_rule a m i room h :
  room_id m = Some room -> open_at a h -> hydrated h i m -> posts h = [] -> runs h = [] ->
  wp allowed (process_direct config self a m i room) (fun h' r => ends a h h' r) h.
Proof.
  intros Hroom Ho Hh Hp Hr. unfold process_direct. cbv zeta. destruct (_ && _); [by apply stop_attempt_rule|].
  destruct (policy_for_room config room) as [policy|] eqn:Ep; [|by apply stop_attempt_rule].
  destruct (should_trigger policy m self) eqn:Et; try by apply stop_attempt_rule.
  assert (may_run policy m) as Hmay.
  { apply policy_for_room_some in Ep as [Hin Hid]. split; [done|]. left. apply should_trigger_matched in Et as [? ?].
    split_and!; [congruence|done|done]. }
  apply wp_bind_ok. eapply wp_consequence; [by eapply prepare_reply_thread_rule|].
  intros h1 [[thread|act]|e]; cbn [forwarded]; [|done|done].
  intros (He & Hc & Hr1 & Hp1). assert (open_at a h1) as Ho1 by by eapply open_extends.
  apply ends_after; [done|]. destruct (from_message m) as [ctx|]; [|by apply stop_attempt_rule].
  apply (run_codex_reply_rule a policy m); [done|congruence|by eapply hydrated_extends|done|done].
Qed.

Lemma process_config_command_rule a cc m i room h :
  config_commands config = Some cc -> ConfigCommands.room_id cc = room -> room_id m = Some room ->
  open_at a h -> hydrated h i m -> posts h = [] ->
  wp allowed (process_config_command config self a cc m i room) (fun h' r => ends a h h' r) h.
Proof.
  intros Hcc Hccr Hroom Ho Hh Hp. unfold process_config_command. cbv zeta.
  case_bool_decide as Hpar; [by apply stop_attempt_rule|].
  destruct (ConfigCommands.sender_allowed _ _ _) eqn:Es; [|by apply stop_attempt_rule]. cbn [negb].
  destruct (parse_config_command _) as [command|] eqn:Ec; [|by apply stop_attempt_rule].
  destruct (command_allowed cc command) eqn:Ea; [|by apply stop_attempt_rule]. cbn [negb].
  assert (may_command m command) as Hmay.
  { exists cc. split_and!; try done; [congruence|]. destruct (parent_id m); [|done]. by destruct Hpar. }
  assert (entitled m) as He by (right; by exists command).
  destruct command; [| |by apply stop_attempt_rule|by apply stop_attempt_rule].
  - apply wp_bind_ok. eapply wp_consequence; [by apply reconcile_reply_rule|].
    intros h1 [[act|]|e]; [done| |done]. intros [Hq Hs]. split; [done|]. intros snap. cbn [bind].
    match goal with |- wp _ _ _ ?h2 => set (h2' := h2); assert (quiet h h2') as Hq2
      by (eapply quiet_trans; [exact Hq|by apply quiet_event]) end.
    apply ends_after; [apply Hq2|]. eapply (send_fixed_reply_rule a i m);
      [by eapply open_quiet|by eapply hydrated_extends; [|apply Hq2]|done| |].
    + eapply searched_extends; [exact Hs|]. apply extends_cons, extends_refl.
    + destruct Hq2 as (_ & _ & -> & _). done.
  - split; [exists m; done|]. intros receipt. cbn [wp bind].
    match goal with |- wp _ _ _ ?h2 => set (h1 := h2); assert (quiet h h1) as Hq1 by by apply quiet_event end.
    pose proof (open_quiet _ _ _ Ho Hq1) as Ho1. apply ends_after; [apply Hq1|].
    destruct receipt as [action_id|e]; [|by apply retry_attempt_rule].
    apply wp_bind_ok. eapply wp_consequence; [by apply reconcile_reply_rule|].
    intros h2 [[act|]|e]; [done| |done]. intros [Hq2 Hs].
    assert (quiet h h2) as Hq by by eapply quiet_trans.
    apply ends_after; [apply Hq2|].
    eapply (send_fixed_reply_rule a i m); [by eapply open_quiet|by eapply hydrated_extends; [|apply Hq]|done|done|].
    destruct Hq as (_ & _ & -> & _). done.
Qed.

Lemma process_message_rule a m i room h :
  room_id m = Some room -> open_at a h -> (exists hint, Ev (GetEventMessage i hint) (Ok m) ∈ h) -> begun h i -> id m = Some i ->
  posts h = [] -> runs h = [] ->
  wp allowed (process_message config self a m i room) (fun h' r => ends a h h' r) h.
Proof.
  intros Hroom Ho Hin Hb Hid Hp Hr. unfold process_message. cbv zeta.
  destruct (_ && _ && _); [by apply stop_attempt_rule|]. destruct (_ && _ && _); [by apply stop_attempt_rule|].
  destruct (is_some_and self _) eqn:Eself; [by apply stop_attempt_rule|].
  assert (hydrated h i m) as Hh.
  { split_and!; [done|done|done|]. intros Hs Heq. destruct self as [s|]; [|done]. cbn in Eself.
    by apply bool_decide_eq_false in Eself. }
  destruct (match config_commands config with Some cc => _ | None => None end) as [cc|] eqn:Ecc.
  - destruct (config_commands config) as [cc'|] eqn:Ec; [|done].
    destruct (str_eqb _ room) eqn:Er; [|done]. injection Ecc as ->. apply str_eqb_eq in Er.
    by apply process_config_command_rule.
  - apply wp_bind. eapply wp_consequence; [by eapply try_followups_rule|].
    intros h1 [r|]; [done|]. intros Hq. pose proof Hq as (He & Hc & Hp1 & Hr1). cbn beta.
    apply ends_after; [done|].
    apply process_direct_rule; [done|by eapply open_quiet|by eapply hydrated_extends|congruence|congruence].
Qed.

Lemma hydration_rule i hint h :
  wp allowed (get_event_message_with_not_found_retry i hint)
    (fun h' r => quiet h h' /\ forall m, r = Ok m -> Ev (GetEventMessage i hint) (Ok m) ∈ h') h.
Proof.
  split; [done|]. intros r. cbn [wp bind].
  match goal with |- wp _ _ _ ?h2 => assert (quiet h h2) as Hq by by apply quiet_event end.
  destruct r as [m|e].
  - split; [done|]. intros m' [= <-]. apply elem_of_cons. by left.
  - destruct (webex_call_is_not_found e); [|by split].
    split; [done|]. intros u. split; [done|]. intros r. cbn. split.
    + eapply quiet_trans; [exact Hq|]. eapply quiet_trans; by apply quiet_event.
    + intros m ->. apply elem_of_cons. by left.
Qed.

Lemma process_attempt_rule a sm i h :
  open_at a h -> begun h i -> posts h = [] -> runs h = [] ->
  wp allowed (process_attempt config self a sm i) (fun h' r => ends a h h' r) h.
Proof.
  intros Ho Hb Hp Hr. unfold process_attempt. apply wp_bind. eapply wp_consequence; [apply hydration_rule|]. cbn beta.
  intros h1 r [Hq Hin]. pose proof Hq as (He & Hc & Hp1 & Hr1). pose proof (open_quiet _ _ _ Ho Hq) as Ho1.
  apply ends_after; [done|]. destruct r as [m|e]; [|by apply get_failure_rule].
  case_bool_decide as Hid; [|by apply stop_attempt_rule]. cbn [negb].
  destruct (room_id m) as [room|] eqn:Er; [|by apply stop_attempt_rule].
  apply process_message_rule; [done|done|by eauto|by eapply begun_extends|done|congruence|congruence].
Qed.

(** A whole event: the guard holds throughout; an attempt that was started is closed the
    way the result says, and nothing is posted or run without one. *)
Lemma process_event_rule e :
  wp allowed (process_event config self e)
    (fun h' r => (exists a, started h' a /\ closed a h' (err_of r))
                 \/ (forall a, ~ started h' a) /\ closers h' = [] /\ posts h' = [] /\ runs h' = []) [].
Proof.
  assert (forall a : AttemptLease, ~ started [] a) as Hnone by (intros a (x & Hin & _); by apply not_elem_of_nil in Hin).
  unfold process_event. destruct (negb _); [by right|]. destruct (_ || _); [by right|].
  destruct (message_from_value _) as [sm|err]; [|by right]. destruct (id sm) as [i|]; [|by right].
  split; [done|]. intros start. cbn [wp bind].
  match goal with |- wp _ _ _ ?h2 => set (h1 := h2) end.
  assert (forall a, started h1 a -> start = Ok (Started a)) as Hst.
  { intros a (x & ->%list_elem_of_singleton & Hx). cbn in Hx. destruct start as [[]|]; by simplify_eq. }
  destruct start as [[a| |after]|s]; cbn [map_err wp].
  - assert (open_at a h1) as Ho by (split; [|done]; eexists; split; [apply elem_of_cons; by left|done]).
    assert (begun h1 i) as Hb by (eexists; split; [apply elem_of_cons; by left|by eexists]).
    eapply wp_consequence; [by apply process_attempt_rule|]. intros h' r [He Hc]. left. exists a.
    split; [|done]. eapply started_extends; [apply Ho|done].
  - right. split; [|done]. intros a Ha. by specialize (Hst a Ha).
  - right. split; [|done]. intros a Ha. by specialize (Hst a Ha).
  - right. split; [|done]. intros a Ha. by specialize (Hst a Ha).
Qed.

Definition handle (env : environment) (e : SidecarEvent) : list event * result HttpError BotAction :=
  exec env [] (process_event config self e).

Lemma handle_rules env e :
  guarded allowed (handle env e).1 /\
  ((exists a, started (handle env e).1 a /\ closed a (handle env e).1 (err_of (handle env e).2))
   \/ (forall a, ~ started (handle env e).1 a) /\ closers (handle env e).1 = [] /\ posts (handle env e).1 = []
      /\ runs (handle env e).1 = []).
Proof. by apply (wp_exec allowed _ _ env [] (process_event_rule e)). Qed.

Lemma handle_in env e ev :
  ev ∈ (handle env e).1 -> exists h, extends (ev :: h) (handle env e).1 /\ allowed h (ev_call ev).
Proof. apply guarded_in, handle_rules. Qed.

(** ** The messages of a thread *)

(** A message with the marker of the answer to [i] in one thread. *)
Definition carries (i room parent : str) (p : CreateMessage) : bool :=
  bool_decide (cm_room_id p = Some room) && bool_decide (cm_parent_id p = Some parent)
  && contains (reply_marker i) (default [] (cm_markdown p)).

Definition answers_in (i room parent : str) (w : list CreateMessage) : list CreateMessage :=
  List.filter (carries i room parent) w.

(** What an event does to the messages Webex holds. An accepted post is stored; a failed or
    timed-out one may or may not be; a search in a thread reports nothing only when no
    message of the thread carries the marker. *)
Definition event_world (w : list CreateMessage) (e : event) (w' : list CreateMessage) : Prop :=
  match e with
  | Ev c ans =>
      match c return answer c -> Prop with
      | PostMessage request => fun ans =>
          w' = w ++ [request] \/ (is_ok ans = false /\ w' = w)
      | FindMessageByMarker room (Some parent) marker _ _ => fun ans =>
          w' = w /\ (ans = Ok None ->
            Forall (fun p => cm_room_id p = Some room -> cm_parent_id p = Some parent ->
                             contains marker (default [] (cm_markdown p)) = false) w)
      | _ => fun _ => w' = w
      end ans
  end.

(** The messages after a trace of the attempt; in between others post what they like, but
    no message with the marker of [i]. *)
Inductive trace_world (i : str) : list CreateMessage -> list event -> list CreateMessage -> Prop :=
| world_start w : trace_world i w [] w
| world_event w h w1 others e w2 :
    trace_world i w h w1 ->
    (forall room parent, answers_in i room parent others = []) ->
    event_world (w1 ++ others) e w2 ->
    trace_world i w (e :: h) w2.

(** Attempts on message [i], one after another, each possibly cut short by a crash. *)
Inductive attempted (i : str) : list CreateMessage -> Prop :=
| attempted_none w : (forall room parent, answers_in i room parent w = []) -> attempted i w
| attempted_again w env e h w' :
    attempted i w -> extends h (handle env e).1 -> begun h i -> trace_world i w h w' -> attempted i w'.

Lemma begun_unique h i j : guarded allowed h -> begun h i -> begun h j -> i = j.
Proof.
  assert (forall k, guarded allowed h -> begun h k -> exists e t lease, h = t ++ [e] /\ ev_call e = BeginAttempt k lease) as Hl.
  { intros k Hg (e & Hin & lease & Hc). destruct (guarded_in _ _ _ Hg Hin) as (h' & (t & Ht) & Ha).
    rewrite Hc in Ha. cbn in Ha. subst h'. by exists e, t, lease. }
  intros Hg Hi Hj. destruct (Hl i Hg Hi) as (e & t & l & -> & He). destruct (Hl j Hg Hj) as (e' & t' & l' & Heq & He').
  apply app_inj_tail in Heq as [_ <-]. congruence.
Qed.

Lemma answers_app i room parent w w' : answers_in i room parent (w ++ w') = answers_in i room parent w ++ answers_in i room parent w'.
Proof. apply List.filter_app. Qed.

Lemma carries_forward i room parent p : cm_parent_id p = None -> carries i room parent p = false.
Proof. intros Hn. unfold carries. rewrite Hn. by rewrite andb_false_r. Qed.

(** The thread and marker of a search that found nothing. *)
Definition found_nothing (e : event) : option (str * option str * str) :=
  match e with
  | Ev c ans =>
      match c return answer c -> option (str * option str * str) with
      | FindMessageByMarker room parent marker _ _ => fun ans =>
          match ans with Ok None => Some (room, parent, marker) | _ => None end
      | _ => fun _ => None
      end ans
  end.

Lemma searched_cons e h room parent marker :
  searched (e :: h) room parent marker -> found_nothing e = Some (room, parent, marker) \/ searched h room parent marker.
Proof. intros (p & [Heq|Hin]%elem_of_cons); [left; by rewrite <-Heq|right; by exists p]. Qed.

(** What the induction over a trace carries for one thread. *)
Definition thread_state (i : str) (h : list event) (w : list CreateMessage) (room parent : str) : Prop :=
  (length (answers_in i room parent w) <= 1)%nat
  /\ (searched h room (Some parent) (reply_marker i) -> Forall (fun p => cm_parent_id p = None) (posts h) ->
      answers_in i room parent w = []).

(** An event that posts nothing into the thread. *)
Lemma thread_state_same i e h w w' room parent :
  thread_state i h w room parent -> answers_in i room parent w' = answers_in i room parent w ->
  (Forall (fun p => cm_parent_id p = None) (posts (e :: h)) -> Forall (fun p => cm_parent_id p = None) (posts h)) ->
  (found_nothing e = Some (room, Some parent, reply_marker i) -> answers_in i room parent w' = []) ->
  thread_state i (e :: h) w' room parent.
Proof.
  intros [Hl Hs] Hw Hp Hf. split; [by rewrite Hw|]. intros [He|Hh]%searched_cons Hposts; [by apply Hf|].
  rewrite Hw. auto.
Qed.

Lemma answers_snoc i room parent w p :
  answers_in i room parent (w ++ [p]) = answers_in i room parent w ++ (if carries i room parent p then [p] else []).
Proof. by rewrite answers_app. Qed.

Lemma post_thread_state i h w w' request (ans : answer (PostMessage request)) room parent :
  allowed h (PostMessage request) -> (forall j, begun h j -> i = j) ->
  (forall room parent, thread_state i h w room parent) ->
  event_world w (Ev (PostMessage request) ans) w' ->
  thread_state i (Ev (PostMessage request) ans :: h) w' room parent.
Proof.
  intros (_ & _ & [Hreply|Hforward]) Hb IH He.
  - destruct Hreply as (j & m & room0 & parent0 & txt & Hreq & (_ & Hj & _) & _ & Hs & Hp).
    apply Hb in Hj as <-. assert (cm_parent_id request = Some parent0) as Hpar by by rewrite Hreq.
    assert (cm_room_id request = Some room0) as Hroom by by rewrite Hreq.
    split.
    + assert (length (answers_in i room parent w') <= length (answers_in i room parent (w ++ [request])))%nat as Hle.
      { destruct He as [->|[_ ->]]; [done|]. rewrite answers_snoc, length_app. lia. }
      etransitivity; [exact Hle|]. rewrite answers_snoc, length_app.
      destruct (carries i room parent request) eqn:Ec; [|cbn; rewrite Nat.add_0_r; apply IH].
      unfold carries in Ec. rewrite Hpar, Hroom in Ec. apply andb_true_iff in Ec as [Ec _].
      apply andb_true_iff in Ec as [Er%bool_decide_eq_true Ep%bool_decide_eq_true].
      injection Er as ->. injection Ep as ->. destruct (IH room parent) as [_ IH2]. by rewrite IH2.
    + intros _ Hposts. exfalso. change (posts (Ev (PostMessage request) ans :: h)) with (request :: posts h) in Hposts.
      apply Forall_cons in Hposts as [Hn _]. congruence.
  - destruct Hforward as (j & m & policy & room0 & source & Hreq & _).
    assert (cm_parent_id request = None) as Hpar by by rewrite Hreq.
    apply (thread_state_same _ _ _ w); [done| | |done].
    + destruct He as [->|[_ ->]]; [|done]. by rewrite answers_snoc, carries_forward, app_nil_r.
    + by intros [_ ?]%Forall_cons.
Qed.

Lemma found_nothing_answers i w e w' room parent :
  event_world w e w' -> found_nothing e = Some (room, Some parent, reply_marker i) -> answers_in i room parent w' = [].
Proof.
  destruct e as [c ans]. destruct c as [| | | | | | | |room0 parent0 marker0 self0 pages| | | | | | |]; try done.
  destruct parent0 as [parent0|]; [|cbn; by destruct ans as [[]|]].
  intros [-> Hnone] Hf. cbn in Hf. destruct ans as [[m|]|]; [done| |done]. injection Hf as -> -> ->.
  specialize (Hnone eq_refl). unfold answers_in. clear -Hnone. induction Hnone as [|p w Hp _ IH]; [done|]. cbn.
  rewrite IH. unfold carries. repeat case_bool_decide; cbn; try done. by rewrite Hp.
Qed.

(** One attempt on [i]: at most one answer per thread. *)
Lemma trace_world_answers i w h w' :
  trace_world i w h w' -> guarded allowed h -> (forall j, begun h j -> i = j) ->
  (forall room parent, (length (answers_in i room parent w) <= 1)%nat) ->
  forall room parent, thread_state i h w' room parent.
Proof.
  induction 1 as [w|w h w1 others e w2 Hw IH Hothers He]; intros Hg Hb Hcount room parent.
  { split; [apply Hcount|]. intros (p & Hin). by apply not_elem_of_nil in Hin. }
  destruct Hg as [HG Hg].
  assert (forall j, begun h j -> i = j) as Hb' by (intros j Hj; apply Hb; eapply begun_extends; [exact Hj|apply extends_cons, extends_refl]).
  assert (forall room parent, answers_in i room parent (w1 ++ others) = answers_in i room parent w1) as Hsame.
  { intros r p. by rewrite answers_app, Hothers, app_nil_r. }
  assert (forall room parent, thread_state i h (w1 ++ others) room parent) as IH'.
  { intros r p. destruct (IH Hg Hb' Hcount r p) as [? ?]. split; by rewrite Hsame. }
  destruct (ev_call e) as [| | | | | |room0 parent0 limit0|request| | | | | | | |] eqn:Ec;
    lazymatch type of Ec with
    | _ = PostMessage _ => destruct e as [c ans]; cbn in Ec; subst c; by eapply post_thread_state
    | _ => idtac
    end;
    (apply (thread_state_same _ _ _ (w1 ++ others)); [done| | |by eapply found_nothing_answers];
      destruct e as [c ans]; cbn in Ec; subst c; [|done]).
  all: first [by rewrite He | destruct parent_id as [p|]; [by destruct He as [-> _]|by rewrite He]].
Qed.
End rules.
