(* ===== verification/BotProperties.v ===== *)
(** * What [BotApp] guarantees for one event and across attempts

    The properties of [process_event], read off the rules of [BotRules.v], for every
    environment: whatever the store, Webex, Codex and the other services answer. *)

From S2P Require Import Prelude Text Paths ConfigCommands Config Webex Policy Markers Jenkins Replies Threads WebexCalls Effects Programs BotApp BotRules.

Local Open Scope N_scope.

Section bot_properties.
Context `{StateStore} `{BotLibraries} `{JsonText} `{DateTimeOps}.
Context (config : BotConfig) (self : option str).

Lemma runs_bound h : guarded (allowed config self) h -> (length (runs h) <= 1)%nat.
Proof.
  induction h as [|[c ans] h IH]; cbn [guarded ev_call]; [cbn; lia|]. intros [Ha Hg].
  destruct c; try (by apply IH). destruct Ha as (_ & _ & Hr & _).
  change (runs _) with (message_id :: runs h). rewrite Hr. cbn. lia.
Qed.

Lemma replies_bound h :
  guarded (allowed config self) h -> (length (List.filter (fun p => bool_decide (is_Some (cm_parent_id p))) (posts h)) <= 1)%nat.
Proof.
  induction h as [|[c ans] h IH]; cbn [guarded ev_call]; [cbn; lia|]. intros [Ha Hg].
  destruct c as [| | | | | | |request| | | | | | | |]; try (by apply IH). destruct Ha as (_ & _ & Hr).
  change (posts _) with (request :: posts h). cbn [List.filter]. case_bool_decide as Hp; [|by apply IH].
  destruct Hr as [(i & m & room & parent & txt & _ & _ & _ & _ & Hr)|(i & m & p & room & s & -> & _)].
  - assert (List.filter (fun p => bool_decide (is_Some (cm_parent_id p))) (posts h) = []) as ->; [|done].
    clear IH. induction Hr as [|q l Hq _ IHl]; [done|]. cbn [List.filter]. by rewrite Hq, IHl.
  - by destruct Hp.
Qed.

(** C2: every attempt ends exactly once, in step with the answer to the sidecar: when an
    attempt was started, exactly one [mark_processed] or [defer_attempt] is called, on that
    attempt; a success (or a failure of the store itself) goes with [mark_processed], and a
    [503] with [defer_attempt] for the very delay the answer asks for. Without an attempt
    nothing is closed, posted or run. *)
Theorem attempt_closed_once (env : environment) (e : SidecarEvent) :
  let '(h, r) := handle config self env e in
  (exists a, started h a /\ closed a h (err_of r))
  \/ ((forall a, ~ started h a) /\ closers h = [] /\ posts h = [] /\ runs h = []).
Proof. pose proof (handle_rules config self env e) as [_ Hr]. by destruct (handle config self env e). Qed.

(** C3: no message is ever posted to a read-only source room, whatever the services
    answer and wherever the handler is interrupted. *)
Theorem read_only_rooms_untouched (env : environment) (e : SidecarEvent) (request : CreateMessage) (ans : answer (PostMessage request)) :
  Ev (PostMessage request) ans ∈ (handle config self env e).1 ->
  exists room, cm_room_id request = Some room /\ room_is_read_only_source config room = false.
Proof.
  intros (h & _ & Hro & _ & Ha)%handle_in.
  assert (exists room, cm_room_id request = Some room) as (room & Hroom).
  { destruct Ha as [(i & m & room & parent & txt & -> & _)|(i & m & p & room & s & -> & _)]; by eexists. }
  exists room. split; [done|]. by apply Hro.
Qed.

(** C4: Codex runs at most once per event, only for the message Webex returned for it,
    which is not the bot's own, with the Codex configuration of a configured room, and only
    when that room's policy authorizes the sender and the message addresses the bot the way
    the room asks for, or it is an authorized follow-up; and only after a search found no
    earlier reply. *)
Theorem codex_run_authorized (env : environment) (e : SidecarEvent) cx prompt i ws (ans : answer (RunWithWorkspace cx prompt i ws)) :
  let h := (handle config self env e).1 in
  Ev (RunWithWorkspace cx prompt i ws) ans ∈ h ->
  (length (runs h) <= 1)%nat
  /\ (exists m policy, hydrated self h i m /\ may_run config self policy m /\ cx = codex_for_policy config policy)
  /\ (exists room parent, searched self h room (Some parent) (reply_marker i)).
Proof.
  intros h Hin. split; [apply runs_bound, handle_rules|].
  destruct (handle_in config self env e _ Hin) as (h' & Hext & Ha).
  assert (extends h' h) as He by (eapply extends_trans; [apply extends_cons, extends_refl|exact Hext]).
  destruct Ha as ((m & policy & Hh & Hm & Hc) & (room & parent & Hs) & _). split.
  - exists m, policy. split_and!; [by eapply hydrated_extends|done|done].
  - exists room, parent. by eapply searched_extends.
Qed.

(** C5: every message the bot posts is accounted for: it is the marked answer to the event's
    message, in a thread where a search found no earlier answer, caused by someone entitled
    to a run or an admin command, or the marked copy of the message for the output room of
    its policy, when no copy that can be answered was found; and at most one answer is
    posted per event. *)
Theorem posts_accounted (env : environment) (e : SidecarEvent) (request : CreateMessage) (ans : answer (PostMessage request)) :
  let h := (handle config self env e).1 in
  Ev (PostMessage request) ans ∈ h ->
  (length (List.filter (fun p => bool_decide (is_Some (cm_parent_id p))) (posts h)) <= 1)%nat
  /\ exists before, extends (Ev (PostMessage request) ans :: before) h
       /\ (reply_allowed config self before request \/ forward_allowed config self before request).
Proof.
  intros h Hin. split; [apply replies_bound, handle_rules|].
  destruct (handle_in config self env e _ Hin) as (h' & Hext & _ & _ & Ha). by exists h'.
Qed.

(** a configuration pull is only enqueued for the admin room's [/config pull]: a
    top-level message there, not the bot's own, from an allowed sender, with that command
    allowed. *)
Theorem pull_only_for_admins (env : environment) (e : SidecarEvent) i (ans : answer (EnqueuePull i)) :
  let h := (handle config self env e).1 in
  Ev (EnqueuePull i) ans ∈ h -> exists m, hydrated self h i m /\ may_command config m Pull.
Proof.
  intros h Hin. destruct (handle_in config self env e _ Hin) as (h' & Hext & m & Hh & Hm).
  exists m. split; [|done]. eapply hydrated_extends; [exact Hh|].
  eapply extends_trans; [apply extends_cons, extends_refl|exact Hext].
Qed.

End bot_properties.

(** ** A concrete run *)

#[local] Instance sample_store : StateStore := {| AttemptLease := N |}.
#[local] Instance sample_libraries : BotLibraries := {|
  show_webex_error _ := lit "error";
  message_from_value v := match json_get (lit "id") v ≫= json_as_str with
                          | Some i => Ok (mkMessage (Some i) None None None None None None None [] None)
                          | None => Err (lit "no id")
                          end
|}.
#[local] Instance sample_json_text : JsonText := fun _ => None.
#[local] Existing Instance sample_clock.

Definition sample_event : SidecarEvent :=
  mkSidecarEvent 1 (lit "messages") (lit "created") None (JObject [(lit "id", JString (lit "M1"))]).

Definition sample_source_message : Message :=
  mkMessage (Some (lit "M1")) (Some (lit "source-room")) None (Some (lit "user")) None (Some (lit "build broke"))
    None None [] None.

Definition sample_bundle : JenkinsPrefetchedContext :=
  mkJenkinsPrefetchedContext (lit "data") (lit "/srv/a") [lit "https://host/job/a/1/console"] ∅.

(** A cooperative environment: the message exists, no reply does, every call succeeds. *)
Definition sample_environment (source : Message) : environment := fun _ c =>
  match c return answer c with
  | BeginAttempt _ _ => Ok (Started 7)
  | MarkProcessed _ => Ok tt
  | DeferAttempt _ _ => Ok tt
  | GetEventMessage _ _ => Ok source
  | Sleep _ => tt
  | GetMessage _ => Err TimedOut
  | ListThreadMessages _ _ _ => Ok []
  | PostMessage _ => Ok (mkMessage (Some (lit "posted")) None None None None None None None [] None)
  | FindMessageByMarker _ _ _ _ _ => Ok None
  | ConfigStatus => Err (lit "none")
  | EnqueuePull _ => Ok (lit "action-1")
  | JenkinsContextPrompt _ _ _ _ => Ok (Some sample_bundle)
  | RunWithWorkspace _ _ _ _ => Ok (lit "text")
  | EvidenceFiles => sample_evidence_ops
  | CleanupArtifacts _ => Ok tt
  | Now => None
  end.

Definition sample_run := handle sample_bot (Some (lit "bot-person")) (sample_environment sample_source_message) sample_event.

(** The first event of a trace that satisfies a test. *)
Lemma in_first {A} (f : A -> bool) (l : list A) x : List.find f l = Some x -> x ∈ l.
Proof. intros Hf. apply List.find_some in Hf as [Hin _]. by apply list_elem_of_In. Qed.

Definition is_post (e : event) : bool := match ev_call e with PostMessage _ => true | _ => false end.
Definition is_run (e : event) : bool := match ev_call e with RunWithWorkspace _ _ _ _ => true | _ => false end.
Definition is_pull (e : event) : bool := match ev_call e with EnqueuePull _ => true | _ => false end.

Definition sample_posted : CreateMessage := default (mkCreateMessage None None None) (head (posts sample_run.1)).

Lemma read_only_rooms_untouched_witness :
  exists room, cm_room_id sample_posted = Some room /\ room_is_read_only_source sample_bot room = false.
Proof.
  eapply (read_only_rooms_untouched sample_bot (Some (lit "bot-person")) (sample_environment sample_source_message) sample_event).
  apply (in_first is_post). vm_compute. reflexivity.
Defined.

Lemma codex_run_authorized_witness : (length (runs sample_run.1) <= 1)%nat /\ runs sample_run.1 = [lit "M1"].
Proof.
  split; [|by vm_compute].
  eapply (codex_run_authorized sample_bot (Some (lit "bot-person")) (sample_environment sample_source_message) sample_event).
  apply (in_first is_run). vm_compute. reflexivity.
Defined.

Lemma posts_accounted_witness :
  (length (List.filter (fun p => bool_decide (is_Some (cm_parent_id p))) (posts sample_run.1)) <= 1)%nat
  /\ length (posts sample_run.1) = 2%nat.
Proof.
  split; [|by vm_compute].
  eapply (posts_accounted sample_bot (Some (lit "bot-person")) (sample_environment sample_source_message) sample_event).
  apply (in_first is_post). vm_compute. reflexivity.
Defined.

Definition sample_pull_message : Message :=
  mkMessage (Some (lit "M1")) (Some (lit "admin-room")) None (Some (lit "person-1")) None (Some (lit "/config pull"))
    None None [] None.

Lemma pull_only_for_admins_witness : exists m, may_command sample_bot m Pull.
Proof.
  destruct (pull_only_for_admins sample_bot (Some (lit "bot-person")) (sample_environment sample_pull_message) sample_event
    (lit "M1") (Ok (lit "action-1"))) as (m & _ & Hm).
  - apply (in_first is_pull). vm_compute. reflexivity.
  - exists m. exact Hm.
Defined.

(** Webex when every post succeeds: the messages after a trace, if no search missed one. *)
Fixpoint replay (h : list event) : option (list CreateMessage) :=
  match h with
  | [] => Some []
  | Ev c _ :: h' =>
      w ← replay h';
      match c with
      | PostMessage request => Some (w ++ [request])
      | FindMessageByMarker room (Some parent) marker _ _ =>
          if all (fun p => negb (bool_decide (cm_room_id p = Some room) && bool_decide (cm_parent_id p = Some parent)
                                 && contains marker (default [] (cm_markdown p)))) w
          then Some w else None
      | _ => Some w
      end
  end.

Lemma replay_sound i h w : replay h = Some w -> trace_world i [] h w.
Proof.
  revert w. induction h as [|[c ans] h IH]; intros w; [intros [= <-]; constructor|].
  cbn [replay]. intros (w0 & Hw0%IH & Hw)%bind_Some.
  apply (world_event _ _ h w0 [] _ w); [done|done|]. rewrite app_nil_r.
  destruct c as [| | | | | | | |room [parent|] marker s pages| | | | | | |]; try (injection Hw as <-; first [done | by left]).
  destruct (all _ w0) eqn:E; [|done]. injection Hw as <-. split; [done|]. intros _.
  apply all_true in E. eapply Forall_impl; [exact E|]. intros p Hp Hr Hpar. cbv beta in Hp.
  rewrite !bool_decide_eq_true_2 in Hp by done. by apply negb_true_iff in Hp.
Qed.

(** The sample run as a history of Webex: a forwarded copy, then the answer in its thread. *)
Lemma sample_history : attempted sample_bot (Some (lit "bot-person")) (lit "M1") (reverse (posts sample_run.1)).
Proof.
  apply (attempted_again _ _ _ [] (sample_environment sample_source_message) sample_event sample_run.1).
  - by apply attempted_none.
  - apply extends_refl.
  - unfold begun. eexists. split; [apply (in_first (fun e => match ev_call e with BeginAttempt _ _ => true | _ => false end));
      vm_compute; reflexivity|]. by eexists.
  - apply replay_sound. vm_compute. reflexivity.
Qed.

