(* ===== verification/FileSystem.v ===== *)
(** * One private directory on a disk that can fail

    The directory the message queue lives in: its inodes, the names that point to them now,
    and the names as of the last directory sync. System calls follow POSIX; each may fail,
    the process may be stopped at each, and a power loss keeps for every name its last
    synced target or any target it has had since. Programs are functions on this state with
    Rust's [Result], and a weakest precondition calculus speaks about all their runs. *)

From S2P Require Import Prelude Text.

Local Open Scope N_scope.

(** ** The disk *)

(** [OsString] on Unix: bytes, not necessarily UTF-8. *)
Abbreviation os_name := (list N) (only parsing).

Inductive FileType : Type :=
| RegularFile
| DirectoryFile
| SymlinkFile (target_exists : bool)
| OtherFile.

#[export] Instance FileType_eq_dec : EqDecision FileType.
Proof. solve_decision. Defined.

(** [i_synced]: the content has reached the disk. *)
Record inode : Type := mkInode {
  i_type : FileType;
  i_uid : N;
  i_mode : N;
  i_content : list N;
  i_synced : bool
}.

Record directory : Type := mkDirectory { d_type : FileType; d_uid : N; d_mode : N }.

(** [root_synced]: the directory's own entry in its parent has reached the disk. [stamps]
    counts the changes of an inode, links included, and stands for its modification and
    change times. [unsynced] lists the targets names have had since the last sync of the
    directory. *)
Record disk : Type := mkDisk {
  root_dir : option directory;
  root_synced : bool;
  inodes : gmap N inode;
  stamps : gmap N N;
  entries : gmap os_name N;
  durable : gmap os_name N;
  unsynced : list (os_name * option N);
  next_ino : N
}.

(** [fs::Metadata]; all files are on one device. *)
Record Metadata : Type := mkMetadata {
  m_ino : N;
  m_type : FileType;
  m_uid : N;
  m_mode : N;
  m_nlink : N;
  m_len : N;
  m_stamp : N
}.

Definition nlink (d : disk) (i : N) : N :=
  N.of_nat (size (filter (fun kv : os_name * N => kv.2 = i) (entries d))).

Definition stamp_of (d : disk) (i : N) : N := default 0 (stamps d !! i).

Definition metadata_of (d : disk) (i : N) (f : inode) : Metadata :=
  mkMetadata i (i_type f) (i_uid f) (i_mode f) (nlink d i) (len (i_content f)) (stamp_of d i).

(** ** Changes of the disk *)

Definition set_root (r : option directory) (synced : bool) (d : disk) : disk :=
  mkDisk r synced (inodes d) (stamps d) (entries d) (durable d) (unsynced d) (next_ino d).

Definition set_inode (i : N) (f : inode) (d : disk) : disk :=
  mkDisk (root_dir d) (root_synced d) (<[i := f]> (inodes d)) (stamps d) (entries d) (durable d)
    (unsynced d) (next_ino d).

Definition touch (i : N) (d : disk) : disk :=
  mkDisk (root_dir d) (root_synced d) (inodes d) (<[i := stamp_of d i + 1]> (stamps d)) (entries d)
    (durable d) (unsynced d) (next_ino d).

Definition set_entry (n : os_name) (v : option N) (d : disk) : disk :=
  mkDisk (root_dir d) (root_synced d) (inodes d) (stamps d) (partial_alter (fun _ => v) n (entries d))
    (durable d) ((n, v) :: unsynced d) (next_ino d).

Definition take_ino (d : disk) : disk :=
  mkDisk (root_dir d) (root_synced d) (inodes d) (stamps d) (entries d) (durable d) (unsynced d)
    (next_ino d + 1).

Definition sync_entries (d : disk) : disk :=
  mkDisk (root_dir d) (root_synced d) (inodes d) (stamps d) (entries d) (entries d) [] (next_ino d).

(** ** System calls without faults *)

Inductive ErrorKind : Type :=
| NotFound
| AlreadyExists
| OtherError.

#[export] Instance ErrorKind_eq_dec : EqDecision ErrorKind.
Proof. solve_decision. Defined.

Definition sys_stat_root (d : disk) : result ErrorKind directory * disk :=
  (ok_or (root_dir d) NotFound, d).

Definition sys_mkdir (uid mode : N) (d : disk) : result ErrorKind unit * disk :=
  match root_dir d with
  | Some _ => (Err AlreadyExists, d)
  | None => (Ok tt, set_root (Some (mkDirectory DirectoryFile uid mode)) false d)
  end.

Definition sys_sync_parent (d : disk) : result ErrorKind unit * disk :=
  (Ok tt, set_root (root_dir d) true d).

Definition sys_lstat (n : os_name) (d : disk) : result ErrorKind Metadata * disk :=
  match entries d !! n with
  | Some i => (ok_or (metadata_of d i <$> inodes d !! i) OtherError, d)
  | None => (Err NotFound, d)
  end.

(** [Path::try_exists] follows a symbolic link. *)
Definition sys_exists (n : os_name) (d : disk) : result ErrorKind bool * disk :=
  match entries d !! n with
  | None => (Ok false, d)
  | Some i =>
      match i_type <$> inodes d !! i with
      | Some (SymlinkFile target_exists) => (Ok target_exists, d)
      | Some _ => (Ok true, d)
      | None => (Err OtherError, d)
      end
  end.

(** [O_RDONLY | O_NOFOLLOW]: the handle is the inode number. *)
Definition sys_open (n : os_name) (d : disk) : result ErrorKind N * disk :=
  match entries d !! n with
  | None => (Err NotFound, d)
  | Some i =>
      match i_type <$> inodes d !! i with
      | Some (SymlinkFile _) | None => (Err OtherError, d)
      | Some _ => (Ok i, d)
      end
  end.

Definition sys_fstat (i : N) (d : disk) : result ErrorKind Metadata * disk :=
  (ok_or (metadata_of d i <$> inodes d !! i) OtherError, d).

(** At most [limit] bytes. *)
Definition sys_read (limit i : N) (d : disk) : result ErrorKind (list N) * disk :=
  match inodes d !! i with
  | Some f =>
      match i_type f with
      | DirectoryFile => (Err OtherError, d)
      | _ => (Ok (take_N limit (i_content f)), d)
      end
  | None => (Err OtherError, d)
  end.

(** [O_WRONLY | O_CREAT | O_EXCL]. *)
Definition sys_create (uid mode : N) (n : os_name) (d : disk) : result ErrorKind N * disk :=
  match root_dir d, entries d !! n with
  | None, _ => (Err NotFound, d)
  | _, Some _ => (Err AlreadyExists, d)
  | Some _, None =>
      let i := next_ino d in
      (Ok i, touch i (set_entry n (Some i)
               (set_inode i (mkInode RegularFile uid mode [] false) (take_ino d))))
  end.

(** Appends to what the handle has written so far. *)
Definition append (bytes : list N) (i : N) (d : disk) : disk :=
  match inodes d !! i with
  | Some f =>
      touch i (set_inode i (mkInode (i_type f) (i_uid f) (i_mode f) (i_content f ++ bytes) false) d)
  | None => d
  end.

Definition sys_write (bytes : list N) (i : N) (d : disk) : result ErrorKind unit * disk :=
  (Ok tt, append bytes i d).

Definition sys_fsync (i : N) (d : disk) : result ErrorKind unit * disk :=
  match inodes d !! i with
  | Some f => (Ok tt, set_inode i (mkInode (i_type f) (i_uid f) (i_mode f) (i_content f) true) d)
  | None => (Err OtherError, d)
  end.

Definition sys_link (from to : os_name) (d : disk) : result ErrorKind unit * disk :=
  match entries d !! from, entries d !! to with
  | None, _ => (Err NotFound, d)
  | Some _, Some _ => (Err AlreadyExists, d)
  | Some i, None => (Ok tt, touch i (set_entry to (Some i) d))
  end.

Definition sys_unlink (n : os_name) (d : disk) : result ErrorKind unit * disk :=
  match entries d !! n with
  | None => (Err NotFound, d)
  | Some i => (Ok tt, touch i (set_entry n None d))
  end.

Definition sys_sync_dir (d : disk) : result ErrorKind unit * disk :=
  match root_dir d with
  | Some _ => (Ok tt, sync_entries d)
  | None => (Err NotFound, d)
  end.

(** ** What a power loss leaves *)

(** The targets a name may show after a power loss. *)
Definition possible (d : disk) (n : os_name) (v : option N) : Prop :=
  v = entries d !! n \/ v = durable d !! n \/ (n, v) ∈ unsynced d.

(** Files keep their owner and mode, and their content if it was synced. If the directory's
    own entry was not synced, all of it may be gone. *)
Definition content_survives (before after : option inode) : Prop :=
  match before, after with
  | Some f, Some g =>
      i_type g = i_type f /\ i_uid g = i_uid f /\ i_mode g = i_mode f /\
      i_synced g = true /\ (i_synced f = true -> i_content g = i_content f)
  | None, None => True
  | _, _ => False
  end.

Record power_loss (d d' : disk) : Prop := mkPowerLoss {
  pl_root : (root_dir d' = root_dir d /\ root_synced d' = true) \/
            (root_synced d = false /\ root_dir d' = None /\ entries d' = ∅);
  pl_names : root_dir d' <> None -> forall n, possible d n (entries d' !! n);
  pl_synced : durable d' = entries d' /\ unsynced d' = [];
  pl_inodes : forall i, content_survives (inodes d !! i) (inodes d' !! i);
  pl_fresh : next_ino d <= next_ino d'
}.

(** ** Processes *)

(** What happens to the next system call: it succeeds or fails by the state of the disk, it
    fails (a write after [written] bytes), or the process is stopped before it. *)
Inductive fault : Type :=
| Fine
| Fails (written : nat)
| Stop.

(** Errors of the queue: [std::io::Error], also under [with_context]; the full backlog,
    which callers tell apart; anything else. *)
Inductive JobError : Type :=
| IoError (kind : ErrorKind)
| BacklogFull (limit : N)
| Failed (reason : str).

(** The kernel's choices: the order of a directory listing and the clock, both varying with
    the number of system calls made; the user and the umask, which leaves the owner's bits. *)
Class Kernel : Type := {
  dir_order : nat -> gmap os_name N -> list os_name;
  dir_order_perm : forall t m, dir_order t m ≡ₚ (map_to_list m).*1;
  clock_nanos : nat -> N;
  euid : N;
  umask : N;
  umask_owner : N.land umask 448 = 0
}.

(** The disk, the faults to come, and the memory of the process: its candidate counter, the
    index of the queue and the latched failure. *)
Record machine : Type := mkMachine {
  on_disk : disk;
  plan : list fault;
  ticks : nat;
  process_id : N;
  next_candidate_id : N;
  index : gmap str N;
  runtime_unhealthy : bool
}.

Definition with_disk (d : disk) (s : machine) : machine :=
  mkMachine d (plan s) (S (ticks s)) (process_id s) (next_candidate_id s) (index s) (runtime_unhealthy s).
Definition with_plan (p : list fault) (s : machine) : machine :=
  mkMachine (on_disk s) p (ticks s) (process_id s) (next_candidate_id s) (index s) (runtime_unhealthy s).
Definition with_index (m : gmap str N) (s : machine) : machine :=
  mkMachine (on_disk s) (plan s) (ticks s) (process_id s) (next_candidate_id s) m (runtime_unhealthy s).
Definition with_candidate_id (n : N) (s : machine) : machine :=
  mkMachine (on_disk s) (plan s) (ticks s) (process_id s) n (index s) (runtime_unhealthy s).
Definition with_unhealthy (b : bool) (s : machine) : machine :=
  mkMachine (on_disk s) (plan s) (ticks s) (process_id s) (next_candidate_id s) (index s) b.

Definition io (A : Type) : Type := machine -> result JobError A * machine.

Definition ret {A} (a : A) : io A := fun s => (Ok a, s).
Definition throw {A} (e : JobError) : io A := fun s => (Err e, s).
Definition lift {A} (r : result JobError A) : io A := fun s => (r, s).
Definition io_bind {A B} (m : io A) (k : A -> io B) : io B := fun s =>
  match m s with
  | (Ok a, s') => k a s'
  | (Err e, s') => (Err e, s')
  end.
(** [match m { Ok(..) => .., Err(..) => .. }]. *)
Definition attempt {A} (m : io A) : io (result JobError A) := fun s =>
  let (r, s') := m s in (Ok r, s').

Declare Scope io_scope.
Delimit Scope io_scope with io.
Notation "'let!' x ':=' m 'in' k" := (io_bind m (fun x => k))
  (at level 10, x pattern, m at level 100, k at level 200) : io_scope.
Notation "m ;! k" := (io_bind m (fun _ => k))
  (at level 100, k at level 200, right associativity) : io_scope.
Open Scope io_scope.

(** One system call under the fault plan; [partial] is the effect of a failing one. *)
Definition syscall {A} (partial : nat -> disk -> disk) (call : disk -> result ErrorKind A * disk) : io A := fun s =>
  let go p :=
    let (r, d) := call (on_disk s) in
    (map_err IoError r, with_plan p (with_disk d s)) in
  match plan s with
  | [] => go []
  | Fine :: p => go p
  | Fails written :: p => (Err (IoError OtherError), with_plan p (with_disk (partial written (on_disk s)) s))
  | Stop :: _ => (Err (IoError OtherError), s)
  end.

Definition no_effect (written : nat) (d : disk) : disk := d.

Definition get : io machine := fun s => (Ok s, s).
Definition put_index (m : gmap str N) : io unit := fun s => (Ok tt, with_index m s).

(** ** Weakest preconditions *)

Definition wp_io {A} (m : io A) (Q : A -> machine -> Prop) (E : JobError -> machine -> Prop) (s : machine) : Prop :=
  match m s with
  | (Ok a, s') => Q a s'
  | (Err e, s') => E e s'
  end.

Lemma wp_ret {A} (a : A) Q E s : Q a s -> wp_io (ret a) Q E s.
Proof. done. Qed.

Lemma wp_throw {A} e (Q : A -> machine -> Prop) E s : E e s -> wp_io (throw e) Q E s.
Proof. done. Qed.

Lemma wp_lift {A} (r : result JobError A) Q E s :
  (forall a, r = Ok a -> Q a s) -> (forall e, r = Err e -> E e s) -> wp_io (lift r) Q E s.
Proof. unfold wp_io, lift. destruct r; eauto. Qed.

Lemma wp_get (Q : machine -> machine -> Prop) E s : Q s s -> wp_io get Q E s.
Proof. done. Qed.

Lemma wp_io_bind {A B} (m : io A) (k : A -> io B) Q E s :
  wp_io m (fun a => wp_io (k a) Q E) E s -> wp_io (io_bind m k) Q E s.
Proof. unfold wp_io, io_bind. destruct (m s) as [[a|e] s']; done. Qed.

Lemma wp_attempt {A} (m : io A) Q E s :
  wp_io m (fun a => Q (Ok a)) (fun e => Q (Err e)) s -> wp_io (attempt m) Q E s.
Proof. unfold wp_io, attempt. destruct (m s) as [[a|e] s']; done. Qed.

Lemma wp_io_mono {A} (m : io A) (Q Q' : A -> machine -> Prop) (E E' : JobError -> machine -> Prop) s :
  wp_io m Q E s -> (forall a s', Q a s' -> Q' a s') -> (forall e s', E e s' -> E' e s') -> wp_io m Q' E' s.
Proof. unfold wp_io. destruct (m s) as [[a|e] s']; eauto. Qed.

Lemma wp_io_and {A} (m : io A) (Q Q' : A -> machine -> Prop) (E E' : JobError -> machine -> Prop) s :
  wp_io m Q E s -> wp_io m Q' E' s ->
  wp_io m (fun a s' => Q a s' /\ Q' a s') (fun e s' => E e s' /\ E' e s') s.
Proof. unfold wp_io. destruct (m s) as [[a|e] s']; done. Qed.

(** Faults occur only while some are planned. *)
Lemma wp_syscall {A} partial (call : disk -> result ErrorKind A * disk) (Q : A -> machine -> Prop) E s :
  (plan s <> [] -> E (IoError OtherError) s) ->
  (plan s <> [] -> forall k p, E (IoError OtherError) (with_plan p (with_disk (partial k (on_disk s)) s))) ->
  (forall p, (plan s = [] -> p = []) ->
    match call (on_disk s) with
    | (Ok a, d) => Q a (with_plan p (with_disk d s))
    | (Err e, d) => E (IoError e) (with_plan p (with_disk d s))
    end) ->
  wp_io (syscall partial call) Q E s.
Proof.
  intros Hstop Hfail Hgo. unfold wp_io, syscall. destruct (plan s) as [|[|k|] p] eqn:Ep; cbn.
  - specialize (Hgo []). destruct (call (on_disk s)) as [[a|e] d]; cbn; auto.
  - specialize (Hgo p). destruct (call (on_disk s)) as [[a|e] d]; cbn; apply Hgo; done.
  - by apply Hfail.
  - by apply Hstop.
Qed.
