(* ===== verification/MessageJobs.v ===== *)
(** * [src/message_jobs.rs]: the durable queue of message jobs

    One canonical JSON file per queued message, published by writing a private candidate
    file, syncing it and linking it under the digest of the message ID. An index in memory
    guards against files that appear or vanish. SHA-256 and the JSON text of a record are
    the [ring] and [serde_json] crates' and are parameters with their laws. Every operation
    holds one lock for all its duration, so operations run one after the other; the lock's
    poisoning and panics of the blocking workers do not occur in these definitions. *)

From S2P Require Import Prelude Text Digest Webex FileSystem.

Local Open Scope N_scope.

(** ** Constants and data *)

Definition MESSAGE_JOB_RECORD_VERSION : N := 1.
Definition MAX_MESSAGE_ID_BYTES : N := 1024.
Definition MAX_MESSAGE_JOB_RECORD_BYTES : N := 512 * 1024.
Definition MESSAGE_JOB_FILE_SUFFIX : str := lit ".json".
Definition MESSAGE_JOB_CANDIDATE_PREFIX : str := lit ".pending-".
Definition MAX_PENDING_MESSAGE_JOBS : N := 4096.

Inductive MessageJobEnqueueStatus : Type :=
| Queued
| Existing.

#[export] Instance MessageJobEnqueueStatus_eq_dec : EqDecision MessageJobEnqueueStatus.
Proof. solve_decision. Defined.

Record MessageJobRecord : Type := mkMessageJobRecord {
  mj_version : N;
  mj_message_id : str;
  mj_enqueued_at_unix_nanos : N;
  mj_event : SidecarEvent
}.

#[export] Instance MessageJobRecord_eq_dec : EqDecision MessageJobRecord.
Proof. solve_decision. Defined.

(** ** Validation *)

Definition validate_message_id (message_id : str) : result JobError unit :=
  fail_if (is_empty message_id || (MAX_MESSAGE_ID_BYTES <? byte_len message_id))
    (Failed (lit "message ID must contain 1..=1024 bytes")) ;?
  fail_if (any is_control message_id)
    (Failed (lit "message ID must not contain control characters")).

Definition validate_message_event (message_id : str) (e : SidecarEvent) : result JobError unit :=
  fail_if (negb (version e =? 1) || negb (str_eqb (resource e) (lit "messages"))
           || negb (str_eqb (event e) (lit "created")))
    (Failed (lit "only version 1 message-created events may be queued")) ;?
  fail_if (negb (is_some_and (json_get (lit "id") (data e) ≫= json_as_str) (str_eqb message_id)))
    (Failed (lit "queued event message ID does not match the durable job ID")).

Definition persisted_message_event (message_id : str) : SidecarEvent :=
  mkSidecarEvent 1 (lit "messages") (lit "created") None (JObject [(lit "id", JString message_id)]).

Definition validate_record (record : MessageJobRecord) : result JobError unit :=
  fail_if (negb (mj_version record =? MESSAGE_JOB_RECORD_VERSION))
    (Failed (lit "unsupported message job record version")) ;?
  validate_message_id (mj_message_id record) ;?
  validate_message_event (mj_message_id record) (mj_event record) ;?
  fail_if (negb (bool_decide (mj_event record = persisted_message_event (mj_message_id record))))
    (Failed (lit "persisted message job must contain only its message ID envelope")).

(** ** Records as bytes *)

(** [serde_json] on records: what it writes it reads back, with white space after it; the
    text of a record that only holds its ID is short. *)
Class RecordJson : Type := {
  to_vec : MessageJobRecord -> list N;
  from_slice : list N -> option MessageJobRecord;
  from_slice_to_vec : forall r, is_ok (validate_record r) = true -> from_slice (to_vec r ++ [10]) = Some r;
  to_vec_length : forall r, is_ok (validate_record r) = true ->
    mj_enqueued_at_unix_nanos r <= u64_max -> len (to_vec r) <= 512 + 12 * byte_len (mj_message_id r)
}.

Definition encode_message_job_record `{RecordJson} (record : MessageJobRecord) : result JobError (list N) :=
  validate_record record ;?
  let bytes := to_vec record ++ [10] in
  fail_if (MAX_MESSAGE_JOB_RECORD_BYTES <? len bytes)
    (Failed (lit "message job record exceeds the byte limit")) ;?
  Ok bytes.

Definition decode_message_job_record `{RecordJson} (bytes : list N) : result JobError MessageJobRecord :=
  let? record := ok_or (from_slice bytes) (Failed (lit "invalid message job JSON")) in
  validate_record record ;?
  let? canonical := encode_message_job_record record in
  fail_if (negb (bool_decide (canonical = bytes))) (Failed (lit "message job record is not canonical JSON")) ;?
  Ok record.

Definition message_id_digest `{Sha256} (message_id : str) : str :=
  hex (sha256 (as_bytes message_id)).

(** [message_job_path]: the name in the root. *)
Definition message_job_path `{Sha256} (message_id : str) : list N :=
  as_bytes (message_id_digest message_id ++ MESSAGE_JOB_FILE_SUFFIX).

Definition is_job_filename (name : str) : bool :=
  match strip_suffix MESSAGE_JOB_FILE_SUFFIX name with
  | None => false
  | Some digest =>
      (byte_len digest =? 64) &&
      all (fun byte => is_ascii_digit byte || ((97 <=? byte) && (byte <=? 102))) (as_bytes digest)
  end.

(** ** The index *)

Definition register_index_record (m : gmap str N) (record : MessageJobRecord) : result JobError (gmap str N) :=
  match m !! mj_message_id record with
  | None => Ok (<[mj_message_id record := mj_enqueued_at_unix_nanos record]> m)
  | Some t =>
      if t =? mj_enqueued_at_unix_nanos record then Ok m
      else Err (Failed (lit "message job index contains conflicting records for message ID"))
  end.

Definition register (record : MessageJobRecord) : io unit :=
  let! s := get in
  let! m := lift (register_index_record (index s) record) in
  put_index m.

Section queue.
Context `{Kernel} `{RecordJson} `{Sha256}.

(** ** Files *)

Definition permission_bits (mode : N) : N := N.land mode 4095.

Definition unix_nanos_now : io N :=
  let! s := get in ret (N.min (clock_nanos (ticks s)) u64_max).

Definition symlink_metadata (n : list N) : io Metadata := syscall no_effect (sys_lstat n).

Definition validate_job_root_metadata (d : directory) : io unit :=
  lift (fail_if (negb (bool_decide (d_type d = DirectoryFile)))
          (Failed (lit "message job root must be a real directory")) ;?
        fail_if (negb (d_uid d =? euid))
          (Failed (lit "message job root must be owned by the current effective user")) ;?
        fail_if (negb (permission_bits (d_mode d) =? 448))
          (Failed (lit "message job root must have mode 0700"))).

Definition ensure_private_job_root : io unit :=
  let! found := attempt (syscall no_effect sys_stat_root) in
  match found with
  | Ok metadata => validate_job_root_metadata metadata
  | Err (IoError NotFound) =>
      let! created := attempt (syscall no_effect (sys_mkdir euid (N.ldiff 448 umask))) in
      match created with
      | Ok _ => syscall no_effect sys_sync_parent
      | Err (IoError AlreadyExists) => ret tt
      | Err e => throw e
      end ;!
      let! metadata := syscall no_effect sys_stat_root in
      validate_job_root_metadata metadata
  | Err e => throw e
  end.

Definition create_private_file (n : list N) : io N :=
  syscall no_effect (sys_create euid (N.ldiff 384 umask) n).

Definition write_all (bytes : list N) (file : N) : io unit :=
  syscall (fun written => append (take written bytes) file) (sys_write bytes file).

Definition sync_all (file : N) : io unit := syscall no_effect (sys_fsync file).
Definition hard_link (from to : list N) : io unit := syscall no_effect (sys_link from to).
Definition remove_file (n : list N) : io unit := syscall no_effect (sys_unlink n).
Definition open_job_file (n : list N) : io N := syscall no_effect (sys_open n).
Definition file_metadata (file : N) : io Metadata := syscall no_effect (sys_fstat file).

(** [File::open(path)?.sync_all()]. *)
Definition sync_directory : io unit :=
  syscall no_effect sys_stat_root ;! syscall no_effect sys_sync_dir.

Definition validate_job_file_metadata (metadata : Metadata) (links : N) : result JobError unit :=
  fail_if (negb (bool_decide (m_type metadata = RegularFile)))
    (Failed (lit "message job must be a real regular file")) ;?
  fail_if (negb (m_uid metadata =? euid) || negb (permission_bits (m_mode metadata) =? 384)
           || negb (m_nlink metadata =? links))
    (Failed (lit "message job must be current-user-owned mode 0600")).

Definition same_file_snapshot (before after : Metadata) : bool :=
  (m_ino before =? m_ino after) && (m_len before =? m_len after) && (m_stamp before =? m_stamp after).

Definition same_file_identity (left right : Metadata) : bool := m_ino left =? m_ino right.

(** The common body of [read_job_file] and [read_candidate_file], which differ in the
    texts of their errors only. *)
Definition read_record_file (n : list N) (links : N) : io MessageJobRecord :=
  let! file := open_job_file n in
  let! before := file_metadata file in
  lift (validate_job_file_metadata before links) ;!
  lift (fail_if (MAX_MESSAGE_JOB_RECORD_BYTES <? m_len before) (Failed (lit "message job is too large"))) ;!
  let! bytes := syscall no_effect (sys_read (MAX_MESSAGE_JOB_RECORD_BYTES + 1) file) in
  lift (fail_if (MAX_MESSAGE_JOB_RECORD_BYTES <? len bytes) (Failed (lit "message job is too large"))) ;!
  let! after := file_metadata file in
  lift (fail_if (negb (same_file_snapshot before after) || negb (m_len after =? len bytes))
          (Failed (lit "message job changed while it was read"))) ;!
  lift (decode_message_job_record bytes).

Definition read_job_file (n : list N) : io MessageJobRecord := read_record_file n 1.
Definition read_candidate_file (n : list N) (links : N) : io MessageJobRecord := read_record_file n links.

Definition remove_candidate (candidate : list N) : io unit :=
  let! removed := attempt (remove_file candidate) in
  match removed with
  | Ok _ => sync_directory
  | Err (IoError NotFound) => ret tt
  | Err e => throw e
  end.

(** ** Listing and recovery *)

(** [fs::read_dir]: all names at once; [next_entry] is one step of the iterator. *)
Definition read_dir : io (list (list N)) :=
  let! s := get in
  syscall no_effect (fun d =>
    (match root_dir d with Some _ => Ok (dir_order (ticks s) (entries d)) | None => Err NotFound end, d)).
Definition next_entry : io unit := syscall no_effect (fun d => (Ok tt, d)).

Fixpoint list_job_files_loop (max_pending : N) (names : list (list N)) (files : list (list N)) : io (list (list N)) :=
  match names with
  | [] => ret files
  | n :: names' =>
      next_entry ;!
      let! name := lift (ok_or (from_utf8 n) (Failed (lit "message job filename is not UTF-8"))) in
      if is_job_filename name then
        lift (fail_if (max_pending <=? len files)
                (Failed (lit "message job backlog exceeds the fixed limit"))) ;!
        let! metadata := symlink_metadata n in
        lift (validate_job_file_metadata metadata 1) ;!
        list_job_files_loop max_pending names' (files ++ [n])
      else if starts_with MESSAGE_JOB_CANDIDATE_PREFIX name
      then throw (Failed (lit "unrecovered message job candidate remains"))
      else throw (Failed (lit "unexpected entry in message job root"))
  end.

(** [files.sort()]: names in one directory compare by their bytes. *)
Definition list_job_files (max_pending : N) : io (list (list N)) :=
  let! names := read_dir in
  let! files := list_job_files_loop max_pending names [] in
  ret (stable_sort str_leb files).

Definition recover_candidate (n : list N) (published : list MessageJobRecord) : io (list MessageJobRecord) :=
  let! metadata := symlink_metadata n in
  let links := m_nlink metadata in
  let! published' :=
    (if links =? 1 then
       lift (validate_job_file_metadata metadata 1) ;! ret published
     else if links =? 2 then
       lift (validate_job_file_metadata metadata 2) ;!
       let! record := read_candidate_file n 2 in
       let! final_metadata := symlink_metadata (message_job_path (mj_message_id record)) in
       lift (fail_if (negb (same_file_identity metadata final_metadata))
               (Failed (lit "message job candidate has an unexpected second link"))) ;!
       ret (published ++ [record])
     else throw (Failed (lit "message job candidate has an unexpected link count"))) in
  remove_file n ;!
  ret published'.

Fixpoint recover_candidates_loop (max_pending : N) (names : list (list N)) (removed : bool)
    (published : list MessageJobRecord) (job_count candidate_count : N) : io (bool * list MessageJobRecord) :=
  match names with
  | [] => ret (removed, published)
  | n :: names' =>
      next_entry ;!
      let! name := lift (ok_or (from_utf8 n) (Failed (lit "message job candidate filename is not UTF-8"))) in
      if is_job_filename name then
        let job_count' := sat_add job_count 1 in
        lift (fail_if (max_pending <? job_count')
                (Failed (lit "message job backlog exceeds the fixed limit"))) ;!
        recover_candidates_loop max_pending names' removed published job_count' candidate_count
      else
        lift (fail_if (negb (starts_with MESSAGE_JOB_CANDIDATE_PREFIX name))
                (Failed (lit "unexpected entry in message job root"))) ;!
        let candidate_count' := sat_add candidate_count 1 in
        lift (fail_if (max_pending <? candidate_count')
                (Failed (lit "message job candidate backlog exceeds the fixed limit"))) ;!
        let! published' := recover_candidate n published in
        recover_candidates_loop max_pending names' true published' job_count candidate_count'
  end.

Definition recover_candidates (max_pending : N) : io (list MessageJobRecord) :=
  let! names := read_dir in
  let! (removed, published) := recover_candidates_loop max_pending names false [] 0 0 in
  (if removed then sync_directory else ret tt) ;!
  ret published.

Fixpoint load_index_loop (names : list (list N)) (m : gmap str N) : io (gmap str N) :=
  match names with
  | [] => ret m
  | n :: names' =>
      let! record := read_job_file n in
      lift (fail_if (negb (bool_decide (message_job_path (mj_message_id record) = n)))
              (Failed (lit "message job filename does not match its message ID"))) ;!
      let! m' := lift (register_index_record m record) in
      load_index_loop names' m'
  end.

Definition load_message_job_index (max_pending : N) : io (gmap str N) :=
  let! paths := list_job_files max_pending in
  load_index_loop paths ∅.

(** [DurableMessageJobs::open_with_limit]: the new process's index and cleared latch. *)
Definition open_with_limit (max_pending : N) : io unit :=
  ensure_private_job_root ;!
  recover_candidates max_pending ;!
  let! m := load_message_job_index max_pending in
  fun s => (Ok tt, with_unhealthy false (with_index m s)).

(** ** Operations *)

Definition mark_unhealthy : io unit := fun s => (Ok tt, with_unhealthy true s).

Definition candidate_path : io (list N) := fun s =>
  (Ok (as_bytes (MESSAGE_JOB_CANDIDATE_PREFIX ++ decimal (process_id s) ++ lit "-" ++ decimal (next_candidate_id s))),
   with_candidate_id ((next_candidate_id s + 1) mod 2 ^ 64) s).

Fixpoint register_all (records : list MessageJobRecord) : io unit :=
  match records with
  | [] => ret tt
  | record :: records' => register record ;! register_all records'
  end.

Variable max_pending : N.

Definition prepare_root_sync : io unit :=
  ensure_private_job_root ;!
  let! records := recover_candidates max_pending in
  register_all records.

Definition checked_job_files_sync : io (list (list N)) :=
  let! paths := list_job_files max_pending in
  let! s := get in
  let expected : gset (list N) := list_to_set (map message_job_path (map_to_list (index s)).*1) in
  lift (fail_if (negb (len paths =? N.of_nat (size expected)) || any (fun p => negb (bool_decide (p ∈ expected))) paths)
          (Failed (lit "message job directory does not match the in-memory startup index"))) ;!
  ret paths.

(** The branch for a job file that is already there. *)
Definition existing_job (message_id : str) (final_path : list N) : io MessageJobEnqueueStatus :=
  let! existing := read_job_file final_path in
  lift (fail_if (negb (str_eqb (mj_message_id existing) message_id))
          (Failed (lit "message job digest collision"))) ;!
  register existing ;!
  ret Existing.

(** After the candidate is written: link, make durable, clean up. *)
Definition publish_candidate (record : MessageJobRecord) (candidate final_path : list N) : io MessageJobEnqueueStatus :=
  let! linked := attempt (hard_link candidate final_path) in
  match linked with
  | Ok _ =>
      sync_directory ;!
      register record ;!
      remove_file candidate ;!
      sync_directory ;!
      let! published := read_job_file final_path in
      lift (fail_if (negb (bool_decide (published = record)))
              (Failed (lit "published message job changed"))) ;!
      ret Queued
  | Err (IoError AlreadyExists) =>
      remove_candidate candidate ;!
      existing_job (mj_message_id record) final_path
  | Err e =>
      let! cleanup := attempt (remove_candidate candidate) in
      match cleanup with
      | Err _ => throw (Failed (lit "failed to publish; failed to clean candidate"))
      | Ok _ => throw e
      end
  end.

Definition enqueue_sync (message_id : str) (e : SidecarEvent) : io MessageJobEnqueueStatus :=
  lift (validate_message_id message_id) ;!
  lift (validate_message_event message_id e) ;!
  prepare_root_sync ;!
  let final_path := message_job_path message_id in
  let! exists_already := syscall no_effect (sys_exists final_path) in
  if (exists_already : bool) then existing_job message_id final_path else
  let! paths := checked_job_files_sync in
  if max_pending <=? len paths then throw (BacklogFull max_pending) else
  let! now := unix_nanos_now in
  let record := mkMessageJobRecord MESSAGE_JOB_RECORD_VERSION message_id now (persisted_message_event message_id) in
  let! bytes := lift (encode_message_job_record record) in
  let! candidate := candidate_path in
  let! file := create_private_file candidate in
  write_all bytes file ;!
  sync_all file ;!
  publish_candidate record candidate final_path.

Definition load_sync (message_id : str) : io (option MessageJobRecord) :=
  lift (validate_message_id message_id) ;!
  prepare_root_sync ;!
  let! read := attempt (read_job_file (message_job_path message_id)) in
  match read with
  | Ok record =>
      lift (fail_if (negb (str_eqb (mj_message_id record) message_id))
              (Failed (lit "message job digest collision"))) ;!
      ret (Some record)
  | Err (IoError NotFound) =>
      let! s := get in
      match index s !! message_id with
      | Some _ => throw (Failed (lit "indexed message job disappeared before it could be loaded"))
      | None => ret None
      end
  | Err e => throw e
  end.

Definition remove_sync (message_id : str) : io bool :=
  lift (validate_message_id message_id) ;!
  prepare_root_sync ;!
  let path := message_job_path message_id in
  let! read := attempt (read_job_file path) in
  match read with
  | Ok record =>
      lift (fail_if (negb (str_eqb (mj_message_id record) message_id))
              (Failed (lit "message job digest collision"))) ;!
      remove_file path ;!
      (let! s := get in put_index (delete message_id (index s))) ;!
      sync_directory ;!
      ret true
  | Err (IoError NotFound) => ret false
  | Err e => throw e
  end.

(** The order of [Vec<(u64, String)>::sort]. *)
Definition pending_leb (a b : N * str) : bool :=
  (a.1 <? b.1) || ((a.1 =? b.1) && str_leb a.2 b.2).

Definition pending_of (m : gmap str N) (excluded : gset str) (limit : N) : list str :=
  map snd (take_N limit (stable_sort pending_leb
    (map (fun kv : str * N => (kv.2, kv.1))
       (List.filter (fun kv : str * N => negb (bool_decide (kv.1 ∈ excluded))) (map_to_list m))))).

Definition pending_message_ids_sync (excluded : gset str) (limit : N) : io (list str) :=
  prepare_root_sync ;!
  if limit =? 0 then ret [] else
  checked_job_files_sync ;!
  let! s := get in
  ret (pending_of (index s) excluded limit).

Definition pending_count_sync : io N :=
  prepare_root_sync ;!
  let! paths := checked_job_files_sync in
  ret (len paths).

(** ** The public operations and the failure latch *)

Definition is_backlog_full (e : JobError) : bool :=
  match e with
  | BacklogFull _ => true
  | _ => false
  end.

Definition run_blocking_operation {A} (capacity_error_is_healthy : bool) (operation : io A) : io A :=
  let! r := attempt operation in
  match r with
  | Err e =>
      (if negb capacity_error_is_healthy || negb (is_backlog_full e) then mark_unhealthy else ret tt) ;!
      throw e
  | Ok a => ret a
  end.

Definition latch_error {A} (operation : io A) : io A :=
  let! r := attempt operation in
  match r with
  | Err e => mark_unhealthy ;! throw e
  | Ok a => ret a
  end.

(** [enqueue_guarded]; the permit it carries bounds how many run and is not part of the
    queue. *)
Definition enqueue (message_id : str) (e : SidecarEvent) : io MessageJobEnqueueStatus :=
  let! r := attempt (run_blocking_operation true (enqueue_sync message_id e)) in
  match r with
  | Err err => (if is_backlog_full err then ret tt else mark_unhealthy) ;! throw err
  | Ok status => ret status
  end.

Definition load (message_id : str) : io (option MessageJobRecord) :=
  latch_error (run_blocking_operation false (load_sync message_id)).

Definition remove (message_id : str) : io bool :=
  latch_error (run_blocking_operation false (remove_sync message_id)).

Definition pending_message_ids (excluded : gset str) (limit : N) : io (list str) :=
  latch_error (run_blocking_operation false (pending_message_ids_sync excluded limit)).

Definition pending_count : io N :=
  latch_error (run_blocking_operation false pending_count_sync).

End queue.
