(* ===== verification/MessageJobRules.v ===== *)
(** * What keeps the queue's directory sound

    An invariant of the disk that every operation of [MessageJobs.v] keeps at each of its
    system calls, whatever fails: each target a name may have is a private file, either an
    unpublished candidate or a synced canonical record under the digest of its message ID.
    Rules for the system calls and the helpers, used by [QueueProperties.v]. *)

From S2P Require Import Prelude Text Digest Webex FileSystem MessageJobs.

Local Open Scope N_scope.

(** ** Names *)

Definition job_name (n : list N) : Prop :=
  exists name, from_utf8 n = Some name /\ is_job_filename name = true.

Definition candidate_name (n : list N) : Prop :=
  exists name, from_utf8 n = Some name /\ is_job_filename name = false /\
               starts_with MESSAGE_JOB_CANDIDATE_PREFIX name = true.

Lemma names_disjoint n : job_name n -> candidate_name n -> False.
Proof. intros (a & Ha & Hj) (b & Hb & Hn & _). congruence. Qed.

Section names.
Context `{Sha256}.

Lemma digest_lower id : Forall (fun c => lower_hex c = true) (message_id_digest id).
Proof. apply hex_bytes_lower, sha256_bytes. Qed.

Lemma digest_length id : length (message_id_digest id) = 64%nat.
Proof. unfold message_id_digest. by rewrite length_hex, sha256_length. Qed.

Lemma job_path_ascii id :
  Forall (fun c => is_ascii_char c = true) (message_id_digest id ++ MESSAGE_JOB_FILE_SUFFIX).
Proof.
  apply Forall_app_2.
  - eapply Forall_impl; [apply digest_lower|]. apply lower_hex_ascii.
  - by apply all_true.
Qed.

Lemma job_path_name id : job_name (message_job_path id).
Proof.
  exists (message_id_digest id ++ MESSAGE_JOB_FILE_SUFFIX). split.
  { apply from_utf8_as_bytes, ascii_scalar, job_path_ascii. }
  unfold is_job_filename. rewrite (proj2 (strip_suffix_spec _ _ _) eq_refl).
  assert (Forall (fun c => is_ascii_char c = true) (message_id_digest id)) as Ha.
  { eapply Forall_impl; [apply digest_lower|]. apply lower_hex_ascii. }
  rewrite byte_len_ascii, as_bytes_ascii_text by done.
  apply andb_true_iff. split; [|by apply all_true, digest_lower].
  unfold char_count, len. by rewrite digest_length.
Qed.

Lemma candidate_path_name (pid i : N) :
  candidate_name (as_bytes (MESSAGE_JOB_CANDIDATE_PREFIX ++ decimal pid ++ lit "-" ++ decimal i)).
Proof.
  set (rest := decimal pid ++ lit "-" ++ decimal i).
  exists (MESSAGE_JOB_CANDIDATE_PREFIX ++ rest). split_and!.
  - apply from_utf8_as_bytes, ascii_scalar. unfold rest.
    repeat apply Forall_app_2; try apply decimal_ascii; by apply all_true.
  - unfold is_job_filename. destruct (strip_suffix _ _) as [digest|] eqn:E; [|done].
    apply strip_suffix_spec in E. destruct digest as [|c digest]; [done|].
    assert (c = 46) as -> by (by injection E). cbn. by rewrite andb_false_r.
  - apply starts_with_app.
Qed.

End names.

(** ** Records *)

Section rules.
Context `{Kernel} `{RecordJson} `{Sha256}.

Lemma encode_ok r bytes :
  encode_message_job_record r = Ok bytes <->
  validate_record r = Ok tt /\ bytes = to_vec r ++ [10] /\ len bytes <= MAX_MESSAGE_JOB_RECORD_BYTES.
Proof.
  unfold encode_message_job_record. rewrite then_ok, seq_ok, N.ltb_ge. split.
  - by intros (? & ? & [= <-]).
  - by intros (? & -> & ?).
Qed.

Lemma decode_ok bytes r :
  decode_message_job_record bytes = Ok r <-> encode_message_job_record r = Ok bytes.
Proof.
  unfold decode_message_job_record. split.
  - intros (r' & _ & Hd)%rbind_ok. apply then_ok in Hd as [_ Hd].
    apply rbind_ok in Hd as (canonical & He & Hd). apply seq_ok in Hd as [Hc [= <-]].
    apply negb_false_iff, bool_decide_eq_true in Hc as <-. done.
  - intros He. pose proof He as (Hv & Hb & Hl)%encode_ok.
    subst bytes. rewrite from_slice_to_vec by (by rewrite Hv). cbn. rewrite Hv. cbn.
    rewrite He. cbn. by rewrite bool_decide_true.
Qed.

Lemma encode_inj r r' bytes :
  encode_message_job_record r = Ok bytes -> encode_message_job_record r' = Ok bytes -> r = r'.
Proof. intros H3%decode_ok H4%decode_ok. congruence. Qed.

(** ** The invariant *)

Definition private (f : inode) : Prop :=
  i_type f = RegularFile /\ i_uid f = euid /\ permission_bits (i_mode f) = 384.

Definition private_root (r : directory) : Prop :=
  d_type r = DirectoryFile /\ d_uid r = euid /\ permission_bits (d_mode r) = 448.

(** Inode [i] holds the synced canonical bytes of [r]. *)
Definition holds (d : disk) (i : N) (r : MessageJobRecord) : Prop :=
  exists f, inodes d !! i = Some f /\ i_synced f = true /\ encode_message_job_record r = Ok (i_content f).

Definition published (d : disk) (n : list N) (i : N) : Prop :=
  exists r, n = message_job_path (mj_message_id r) /\ holds d i r.

Record sound (d : disk) : Prop := mkSound {
  sound_root : exists r, root_dir d = Some r /\ private_root r;
  sound_root_synced : root_synced d = true;
  sound_files : forall n i, possible d n (Some i) -> exists f, inodes d !! i = Some f /\ private f;
  sound_names : forall n i, possible d n (Some i) -> candidate_name n \/ published d n i;
  sound_candidates : forall n m i, candidate_name n -> candidate_name m ->
    possible d n (Some i) -> possible d m (Some i) -> n = m;
  sound_fresh : forall i, is_Some (inodes d !! i) -> i < next_ino d
}.

(** The file of [r] is the only target its name can have, now and after a power loss. *)
Definition stored (d : disk) (r : MessageJobRecord) : Prop :=
  exists i, (forall v, possible d (message_job_path (mj_message_id r)) v -> v = Some i) /\ holds d i r.

(** Files survive the change from [d] to [d'], with their content once synced. *)
Record kept (d d' : disk) : Prop := mkKept {
  kept_root : root_dir d' = root_dir d;
  kept_root_synced : root_synced d = true -> root_synced d' = true;
  kept_inodes : forall i f, inodes d !! i = Some f -> exists f', inodes d' !! i = Some f' /\
    (private f -> private f') /\
    (i_synced f = true -> i_synced f' = true /\ i_content f' = i_content f);
  kept_fresh : next_ino d <= next_ino d';
  kept_new : forall i, is_Some (inodes d' !! i) -> is_Some (inodes d !! i) \/ i < next_ino d'
}.

Lemma kept_refl d : kept d d.
Proof. split; [done|done| |lia|auto]. intros i f Hf. by exists f. Qed.

Lemma kept_holds d d' i r : kept d d' -> holds d i r -> holds d' i r.
Proof.
  intros K (f & Hf & Hs & He). destruct (kept_inodes _ _ K i f Hf) as (f' & Hf' & _ & Hc).
  destruct (Hc Hs) as [Hs' Hc']. exists f'. by rewrite Hc'.
Qed.

Lemma kept_published d d' n i : kept d d' -> published d n i -> published d' n i.
Proof. intros K (r & -> & Hr). exists r. eauto using kept_holds. Qed.

(** One more target for one name. *)
Lemma sound_add d d' n i :
  sound d -> kept d d' ->
  (forall m j, possible d' m (Some j) -> possible d m (Some j) \/ (m = n /\ j = i)) ->
  (exists f, inodes d' !! i = Some f /\ private f) ->
  candidate_name n \/ published d' n i ->
  (forall m, candidate_name n -> candidate_name m -> possible d m (Some i) -> m = n) ->
  sound d'.
Proof.
  intros S K Hp Hi Hn Hc. split.
  - rewrite (kept_root _ _ K). apply S.
  - apply K, S.
  - intros m j [Hm|[-> ->]]%Hp; [|done].
    destruct (sound_files _ S m j Hm) as (f & Hf & Hpf).
    destruct (kept_inodes _ _ K j f Hf) as (f' & ? & ? & _). eauto.
  - intros m j [Hm|[-> ->]]%Hp; [|done].
    destruct (sound_names _ S m j Hm); eauto using kept_published.
  - intros m m' j Hm Hm' [H3|[-> ->]]%Hp [H4|[-> Hj]]%Hp; [|subst j| |done].
    + by eapply (sound_candidates _ S).
    + by apply Hc.
    + symmetry. by apply Hc.
  - intros j Hj. destruct (kept_new _ _ K j Hj) as [Hj'%(sound_fresh _ S)|]; [|done].
    pose proof (kept_fresh _ _ K). lia.
Qed.

(** No further target. *)
Lemma sound_kept d d' :
  sound d -> kept d d' -> (forall n i, possible d' n (Some i) -> possible d n (Some i)) -> sound d'.
Proof.
  intros S K Hp. split.
  - rewrite (kept_root _ _ K). apply S.
  - apply K, S.
  - intros n i Hn%Hp. destruct (sound_files _ S n i Hn) as (f & Hf & Hpf).
    destruct (kept_inodes _ _ K i f Hf) as (f' & ? & ? & _). eauto.
  - intros n i Hn%Hp. destruct (sound_names _ S n i Hn); eauto using kept_published.
  - intros n m i ? ? ?%Hp ?%Hp. by eapply (sound_candidates _ S).
  - intros j Hj. destruct (kept_new _ _ K j Hj) as [Hj'%(sound_fresh _ S)|]; [|done].
    pose proof (kept_fresh _ _ K). lia.
Qed.

Lemma stored_kept d d' r :
  stored d r -> kept d d' ->
  (forall v, possible d' (message_job_path (mj_message_id r)) v ->
             possible d (message_job_path (mj_message_id r)) v) ->
  stored d' r.
Proof. intros (i & Hi & Hr) K Hp. exists i. eauto using kept_holds. Qed.

Lemma stored_entry d r :
  stored d r -> exists i, entries d !! message_job_path (mj_message_id r) = Some i /\ holds d i r.
Proof. intros (i & Hi & Hr). exists i. split; [|done]. apply Hi. by left. Qed.

(** ** Changes of the disk keep files *)

Lemma possible_set_entry n v d m w :
  possible (set_entry n v d) m w -> possible d m w \/ (m = n /\ w = v).
Proof.
  unfold possible, set_entry. cbn. intros [Hw|[Hw|Hw]].
  - destruct (decide (m = n)) as [->|Hne].
    + rewrite lookup_partial_alter_eq in Hw. auto.
    + rewrite lookup_partial_alter_ne in Hw by done. auto.
  - auto.
  - apply elem_of_cons in Hw as [[= -> ->]|Hw]; auto.
Qed.

Lemma possible_sync d n v : possible (sync_entries d) n v <-> v = entries d !! n.
Proof.
  unfold possible, sync_entries. cbn. split; [|auto].
  intros [?|[?|Hn]]; [done|done|]. by apply elem_of_nil in Hn.
Qed.

Lemma kept_same_inodes d d' :
  root_dir d' = root_dir d -> root_synced d' = root_synced d -> inodes d' = inodes d ->
  next_ino d' = next_ino d -> kept d d'.
Proof.
  intros Hr Hs Hi Hn. split; rewrite ?Hr, ?Hs, ?Hi, ?Hn; [done|done| |done|auto].
  intros i f Hf. by exists f.
Qed.

Lemma kept_set_inode d i f f' :
  inodes d !! i = Some f -> (private f -> private f') ->
  (i_synced f = true -> i_synced f' = true /\ i_content f' = i_content f) ->
  kept d (set_inode i f' d).
Proof.
  intros Hf Hp Hs. split; cbn; [done|done| |lia|].
  - intros j g Hg. destruct (decide (j = i)) as [->|Hne].
    + rewrite lookup_insert_eq. exists f'. split; [done|]. by replace g with f by congruence.
    + rewrite lookup_insert_ne by done. by exists g.
  - intros j. destruct (decide (j = i)) as [->|Hne]; [eauto|]. rewrite lookup_insert_ne by done. auto.
Qed.

Lemma kept_new_inode d i f :
  i = next_ino d -> (forall j, is_Some (inodes d !! j) -> j < next_ino d) ->
  kept d (set_inode i f (take_ino d)).
Proof.
  intros -> Hfresh. split; cbn; [done|done| |lia|].
  - intros j g Hg. assert (j < next_ino d) by (apply Hfresh; eauto).
    rewrite lookup_insert_ne by lia. by exists g.
  - intros j. destruct (decide (j = next_ino d)) as [->|Hne]; [intros _; right; lia|].
    rewrite lookup_insert_ne by done. auto.
Qed.

Lemma kept_trans d1 d2 d3 : kept d1 d2 -> kept d2 d3 -> kept d1 d3.
Proof.
  intros K1 K2. split.
  - by rewrite (kept_root _ _ K2), (kept_root _ _ K1).
  - intros ?. by apply K2, K1.
  - intros i f Hf. destruct (kept_inodes _ _ K1 i f Hf) as (f' & Hf' & Hp & Hc).
    destruct (kept_inodes _ _ K2 i f' Hf') as (f'' & Hf'' & Hp' & Hc').
    exists f''. split; [done|]. split; [auto|]. intros Hs. destruct (Hc Hs) as [Hs' ?].
    destruct (Hc' Hs') as [? ?]. split; [done|congruence].
  - pose proof (kept_fresh _ _ K1). pose proof (kept_fresh _ _ K2). lia.
  - intros i Hi. pose proof (kept_fresh _ _ K2).
    destruct (kept_new _ _ K2 i Hi) as [Hi'|?]; [|auto].
    destruct (kept_new _ _ K1 i Hi') as [|]; [auto|right; lia].
Qed.

Lemma kept_touch d d' i : kept d d' -> kept d (touch i d').
Proof. intros K. eapply kept_trans; [exact K|by apply kept_same_inodes]. Qed.

Lemma sound_power_loss d d' : sound d -> power_loss d d' -> sound d' /\ forall r, stored d r -> stored d' r.
Proof.
  intros S L. pose proof (sound_root _ S) as (r0 & Hr0 & _).
  destruct (pl_root _ _ L) as [[Hr Hrs]|(Hf & _)]; [|by rewrite (sound_root_synced _ S) in Hf].
  assert (kept d d') as K.
  { split; [done|done| |apply L|].
    - intros i f Hf. pose proof (pl_inodes _ _ L i) as Hc. unfold content_survives in Hc.
      rewrite Hf in Hc. destruct (inodes d' !! i) as [g|]; [|done].
      destruct Hc as (Ht & Hu & Hm & Hs & Hc). exists g. split; [done|]. split; [|auto].
      unfold private. by rewrite Ht, Hu, Hm.
    - intros i Hi. left. pose proof (pl_inodes _ _ L i) as Hc. unfold content_survives in Hc.
      destruct (inodes d !! i); [eauto|]. destruct Hi as [g Hg]. by rewrite Hg in Hc. }
  assert (forall n v, possible d' n v -> possible d n v) as Hp.
  { intros n v Hv. pose proof (pl_synced _ _ L) as [Hd Hu]. unfold possible in Hv.
    rewrite Hd, Hu in Hv. assert (v = entries d' !! n) as ->.
    { destruct Hv as [?|[?|Hv]]; [done|done|]. by apply elem_of_nil in Hv. }
    apply (pl_names _ _ L). congruence. }
  split; [by eapply sound_kept; eauto|]. intros r Hr'. eapply stored_kept; eauto.
Qed.

End rules.

(** ** Specifications of the helpers *)

(** ** Reading leaves the machine as it is *)

Record same (s s' : machine) : Prop := mkSame {
  same_disk : on_disk s' = on_disk s;
  same_index : index s' = index s;
  same_healthy : runtime_unhealthy s' = runtime_unhealthy s;
  same_quiet : plan s = [] -> plan s' = []
}.

#[export] Instance same_preorder : PreOrder same.
Proof. split; [by split|]. intros a b c [] []. split; [congruence..|auto]. Qed.

Lemma wp_seq {A B} (m : io A) (k : A -> io B) Q1 E1 Q E s :
  wp_io m Q1 E1 s -> (forall a s', Q1 a s' -> wp_io (k a) Q E s') -> (forall e s', E1 e s' -> E e s') ->
  wp_io (io_bind m k) Q E s.
Proof. intros Hm Hk He. apply wp_io_bind. eapply wp_io_mono; eauto. Qed.

(** A system call that does not change the disk. *)
Lemma wp_read {A} (call : disk -> result ErrorKind A * disk) s :
  (forall d, (call d).2 = d) ->
  wp_io (syscall no_effect call)
    (fun a s' => same s s' /\ (call (on_disk s)).1 = Ok a)
    (fun e s' => same s s' /\ (plan s = [] -> exists k, (call (on_disk s)).1 = Err k) /\
                 (e = IoError NotFound -> (call (on_disk s)).1 = Err NotFound)) s.
Proof.
  intros Hro. apply wp_syscall.
  - intros Hp. split; [done|]. split; [done|by intros [=]].
  - intros Hp k p. split; [by split|]. split; [done|by intros [=]].
  - intros p Hp. pose proof (Hro (on_disk s)) as Hd. destruct (call (on_disk s)) as [[a|e] d].
    + cbn in Hd. subst d. split; [by split|done].
    + cbn in Hd. subst d. split; [by split|]. split; [eauto|]. by intros [= ->].
Qed.

Lemma wp_check (b : bool) reason s (Q : unit -> machine -> Prop) E :
  (b = false -> Q tt s) -> (b = true -> E (Failed reason) s) -> wp_io (lift (fail_if b (Failed reason))) Q E s.
Proof. destruct b; cbn; auto. Qed.

Section steps.
Context `{Kernel} `{RecordJson} `{Sha256}.

(** [n] names a private file with [links] links that reads as [r]. *)
Definition reads (d : disk) (n : list N) (links : N) (r : MessageJobRecord) : Prop :=
  exists i f, entries d !! n = Some i /\ inodes d !! i = Some f /\ private f /\ nlink d i = links /\
              encode_message_job_record r = Ok (i_content f).

Lemma validate_metadata_ok d i f links :
  validate_job_file_metadata (metadata_of d i f) links = Ok tt <-> private f /\ nlink d i = links.
Proof.
  unfold validate_job_file_metadata, private. rewrite seq_ok, fail_if_ok. cbn.
  rewrite negb_false_iff, bool_decide_eq_true, !orb_false_iff, !negb_false_iff, !N.eqb_eq. naive_solver.
Qed.

Lemma validate_metadata_failed md links e :
  validate_job_file_metadata md links = Err e -> e <> IoError NotFound.
Proof.
  unfold validate_job_file_metadata. intros Hv ->. apply rbind_err in Hv as [Hv|(? & _ & Hv)];
    by apply fail_if_err in Hv as [_ ?].
Qed.

Lemma decode_failed bytes e : decode_message_job_record bytes = Err e -> e <> IoError NotFound.
Proof.
  intros Hd ->. unfold decode_message_job_record, encode_message_job_record, validate_record,
    validate_message_id, validate_message_event in Hd.
  repeat match type of Hd with
  | rbind _ _ = Err _ => apply rbind_err in Hd as [Hd|(? & _ & Hd)]
  | fail_if _ _ = Err _ => by apply fail_if_err in Hd as [_ ?]
  | ok_or ?o _ = Err _ => by destruct o
  | Ok _ = Err _ => done
  end.
Qed.

Lemma sys_lstat_fixed n d : (sys_lstat n d).2 = d.
Proof. unfold sys_lstat. by destruct (entries d !! n). Qed.

Lemma sys_open_fixed n d : (sys_open n d).2 = d.
Proof. unfold sys_open. destruct (entries d !! n); [|done]. by destruct (i_type <$> _) as [[]|]. Qed.

Lemma sys_read_fixed k i d : (sys_read k i d).2 = d.
Proof. unfold sys_read. destruct (inodes d !! i) as [f|]; [|done]. by destruct (i_type f). Qed.

Lemma sys_exists_fixed n d : (sys_exists n d).2 = d.
Proof. unfold sys_exists. destruct (entries d !! n); [|done]. by destruct (i_type <$> _) as [[]|]. Qed.

Lemma fstat_spec i s :
  wp_io (file_metadata i)
    (fun md s' => same s s' /\ exists f, inodes (on_disk s) !! i = Some f /\ md = metadata_of (on_disk s) i f)
    (fun e s' => same s s' /\ (plan s = [] -> inodes (on_disk s) !! i = None) /\ e <> IoError NotFound) s.
Proof.
  eapply wp_io_mono; [apply wp_read; intros d; done|..].
  - intros md s' [Hs Hc]. split; [done|]. cbn in Hc. destruct (inodes _ !! i) as [f|]; [|done].
    injection Hc as <-. by exists f.
  - intros e s' (Hs & Hq & Hn). split; [done|]. cbn in *. split.
    + intros Hp. destruct (Hq Hp) as [k Hk]. by destruct (inodes _ !! i).
    + intros ->. specialize (Hn eq_refl). by destruct (inodes _ !! i).
Qed.

Lemma lstat_spec n s :
  wp_io (symlink_metadata n)
    (fun md s' => same s s' /\ exists i f, entries (on_disk s) !! n = Some i /\ inodes (on_disk s) !! i = Some f /\
                  md = metadata_of (on_disk s) i f)
    (fun e s' => same s s' /\
                 (plan s = [] -> forall i, entries (on_disk s) !! n = Some i -> inodes (on_disk s) !! i = None)) s.
Proof.
  eapply wp_io_mono; [apply wp_read, sys_lstat_fixed|..].
  - intros md s' [Hs Hc]. split; [done|]. unfold sys_lstat in Hc.
    destruct (entries _ !! n) as [i|]; [|done]. cbn in Hc. destruct (inodes _ !! i) as [f|] eqn:Ef; [|done].
    injection Hc as <-. eauto.
  - intros e s' (Hs & Hq & _). split; [done|]. intros Hp i Hi. destruct (Hq Hp) as [k Hk].
    unfold sys_lstat in Hk. rewrite Hi in Hk. cbn in Hk. by destruct (inodes _ !! i).
Qed.

Lemma open_spec n s :
  wp_io (open_job_file n)
    (fun i s' => same s s' /\ entries (on_disk s) !! n = Some i)
    (fun e s' => same s s' /\ (plan s = [] -> forall links r, ~ reads (on_disk s) n links r) /\
                 (e = IoError NotFound -> entries (on_disk s) !! n = None)) s.
Proof.
  eapply wp_io_mono; [apply wp_read, sys_open_fixed|..]; unfold sys_open.
  - intros i s' [Hs Hc]. split; [done|]. destruct (entries _ !! n) as [j|]; [|done].
    destruct (i_type <$> _) as [[]|]; naive_solver.
  - intros e s' (Hs & Hq & Hn). split; [done|]. split.
    + intros Hp links r (i & f & Hi & Hf & [Ht _] & _). destruct (Hq Hp) as [k Hk].
      rewrite Hi, Hf in Hk. cbn in Hk. by rewrite Ht in Hk.
    + intros ->. specialize (Hn eq_refl). destruct (entries _ !! n) as [j|]; [|done].
      by destruct (i_type <$> _) as [[]|].
Qed.

Lemma read_bytes_spec i s :
  wp_io (syscall no_effect (sys_read (MAX_MESSAGE_JOB_RECORD_BYTES + 1) i))
    (fun bytes s' => same s s' /\ exists f, inodes (on_disk s) !! i = Some f /\
                     bytes = take_N (MAX_MESSAGE_JOB_RECORD_BYTES + 1) (i_content f))
    (fun e s' => same s s' /\ (plan s = [] -> forall f, inodes (on_disk s) !! i = Some f -> i_type f <> RegularFile) /\
                 e <> IoError NotFound) s.
Proof.
  eapply wp_io_mono; [apply wp_read, sys_read_fixed|..]; unfold sys_read.
  - intros bytes s' [Hs Hc]. split; [done|]. destruct (inodes _ !! i) as [f|]; [|done].
    exists f. split; [done|]. by destruct (i_type f); inversion Hc.
  - intros e s' (Hs & Hq & Hn). split; [done|]. split.
    + intros Hp f Hf Ht. destruct (Hq Hp) as [k Hk]. rewrite Hf, Ht in Hk. done.
    + intros ->. specialize (Hn eq_refl). destruct (inodes _ !! i) as [f|]; [|done]. by destruct (i_type f).
Qed.

Lemma reads_unique d n links links' r r' : reads d n links r -> reads d n links' r' -> r' = r.
Proof.
  intros (i & f & Hi & Hf & _ & _ & He) (i' & f' & Hi' & Hf' & _ & _ & He').
  simplify_eq. by eapply encode_inj.
Qed.

Lemma metadata_same s s' i f :
  same s s' -> metadata_of (on_disk s') i f = metadata_of (on_disk s) i f.
Proof. intros Hs. by rewrite (same_disk _ _ Hs). Qed.

Lemma take_N_len {A} n (l : list A) : len (take_N n l) < n -> take_N n l = l.
Proof. rewrite len_take_N. intros Hl. apply take_N_all. lia. Qed.

Lemma snapshot_refl md : same_file_snapshot md md = true.
Proof. unfold same_file_snapshot. by rewrite !N.eqb_refl. Qed.

Lemma read_record_spec n links s :
  wp_io (read_record_file n links)
    (fun r s' => same s s' /\ reads (on_disk s) n links r)
    (fun e s' => same s s' /\ (plan s = [] -> forall r, ~ reads (on_disk s) n links r) /\
                 (e = IoError NotFound -> entries (on_disk s) !! n = None)) s.
Proof.
  eapply wp_seq; [apply open_spec| |naive_solver]. intros i s1 [S1 Hi].
  eapply wp_seq; [apply fstat_spec| |].
  2:{ rewrite (same_disk _ _ S1). intros e s2 (S2 & Hq & Hn). split; [by etrans|]. split; [|done].
      intros Hp r (j & f & ? & Hf & _). apply (same_quiet _ _ S1) in Hp. specialize (Hq Hp). by simplify_eq. }
  rewrite (same_disk _ _ S1). intros before s2 (S2 & f & Hf & ->).
  assert (same s s2) as S02 by by etrans.
  apply wp_io_bind, wp_lift.
  2:{ intros e He. split; [done|]. split; [|intros ->; by apply validate_metadata_failed in He].
      intros _ r (j & f' & Hj & Hf' & Hpr & Hl & _). simplify_eq.
      by rewrite (proj2 (validate_metadata_ok _ _ _ _)) in He. }
  intros [] [Hpr Hl]%validate_metadata_ok.
  assert (forall r, reads (on_disk s) n links r -> encode_message_job_record r = Ok (i_content f)) as Hread.
  { intros r (j & f' & Hj & Hf' & _ & _ & He). by simplify_eq. }
  apply wp_io_bind, wp_check.
  2:{ intros Hbig%N.ltb_lt. split; [done|]. split; [|done].
      intros _ r (_ & _ & Hlen)%Hread%encode_ok. cbn in Hbig. lia. }
  intros Hsmall%N.ltb_ge. cbn [m_len metadata_of] in Hsmall.
  eapply wp_seq; [apply read_bytes_spec| |].
  2:{ rewrite (same_disk _ _ S02). intros e s3 (S3 & Hq & Hn). split; [by etrans|]. split; [|done].
      intros Hp _ _. apply (same_quiet _ _ S02) in Hp. by apply (Hq Hp f Hf), Hpr. }
  rewrite (same_disk _ _ S02). intros bytes s3 (S3 & f' & Hf' & ->). simplify_eq.
  rewrite take_N_all by lia. assert (same s s3) as S03 by by etrans.
  apply wp_io_bind, wp_check; [intros _|intros Hbig%N.ltb_lt; lia].
  eapply wp_seq; [apply fstat_spec| |].
  2:{ rewrite (same_disk _ _ S03). intros e s4 (S4 & Hq & Hn). split; [by etrans|]. split; [|done].
      intros Hp. apply (same_quiet _ _ S03) in Hp. specialize (Hq Hp). by simplify_eq. }
  rewrite (same_disk _ _ S03). intros after s4 (S4 & f' & Hf'' & ->). simplify_eq.
  assert (same s s4) as S04 by by etrans.
  rewrite snapshot_refl. cbn [metadata_of m_len]. rewrite N.eqb_refl.
  apply wp_io_bind, wp_check; [intros _|done]. apply wp_lift.
  - intros r Hr%decode_ok. split; [done|]. exists i, f. auto.
  - intros e He. split; [done|]. split; [|intros ->; by apply decode_failed in He].
    intros _ r Hr%Hread%decode_ok. congruence.
Qed.

Lemma read_missing n links s :
  wp_io (read_record_file n links) (fun _ _ => True)
    (fun e s' => plan s = [] -> entries (on_disk s) !! n = None -> e = IoError NotFound) s.
Proof.
  unfold wp_io. destruct (read_record_file n links s) as [[r|e] s'] eqn:Er; [done|]. intros Hp Hn.
  unfold read_record_file, io_bind, open_job_file, syscall, sys_open in Er.
  rewrite Hp, Hn in Er. cbn in Er. congruence.
Qed.

(** ** Links *)

Definition names_of (d : disk) (i : N) : gset (list N) := dom (filter (fun kv : list N * N => kv.2 = i) (entries d)).

Lemma elem_of_names_of d i n : n ∈ names_of d i <-> entries d !! n = Some i.
Proof.
  unfold names_of. rewrite elem_of_dom. unfold is_Some. setoid_rewrite map_lookup_filter_Some.
  split; [by intros (j & ? & [= ->])|eauto].
Qed.

Lemma nlink_names d i : nlink d i = N.of_nat (size (names_of d i)).
Proof. unfold nlink, names_of. by rewrite size_dom. Qed.

Lemma nlink_one d n i :
  entries d !! n = Some i -> (forall m, entries d !! m = Some i -> m = n) -> nlink d i = 1.
Proof.
  intros Hn Hu. rewrite nlink_names. replace (names_of d i) with ({[n]} : gset (list N)).
  - by rewrite size_singleton.
  - apply set_eq. intros m. rewrite elem_of_singleton, elem_of_names_of. naive_solver.
Qed.

Lemma nlink_two d n m i :
  entries d !! n = Some i -> entries d !! m = Some i -> n <> m ->
  (forall k, entries d !! k = Some i -> k = n \/ k = m) -> nlink d i = 2.
Proof.
  intros Hn Hm Hne Hu. rewrite nlink_names. replace (names_of d i) with ({[n; m]} : gset (list N)).
  - rewrite size_union by set_solver. by rewrite !size_singleton.
  - apply set_eq. intros k. rewrite elem_of_union, !elem_of_singleton, elem_of_names_of. naive_solver.
Qed.

(** ** Directory listings *)

Lemma elem_of_dir_order t d n : n ∈ dir_order t (entries d) <-> is_Some (entries d !! n).
Proof.
  rewrite dir_order_perm, list_elem_of_fmap. split.
  - intros ([k i] & -> & Hk%elem_of_map_to_list). cbn. eauto.
  - intros [i Hi]. exists (n, i). by rewrite elem_of_map_to_list.
Qed.

Lemma dir_order_nodup t d : NoDup (dir_order t (entries d)).
Proof. rewrite dir_order_perm. apply NoDup_fst_map_to_list. Qed.

Lemma dir_order_length t d : len (dir_order t (entries d)) = N.of_nat (size (entries d)).
Proof. unfold len. rewrite dir_order_perm, length_fmap. by rewrite length_map_to_list. Qed.

Lemma read_dir_spec s :
  wp_io read_dir
    (fun names s' => same s s' /\ names = dir_order (ticks s) (entries (on_disk s)))
    (fun e s' => same s s' /\ (plan s = [] -> root_dir (on_disk s) = None)) s.
Proof.
  unfold read_dir. apply wp_io_bind, wp_get.
  eapply wp_io_mono; [apply wp_read; intros d; done|..]; cbn; destruct (root_dir _); naive_solver.
Qed.

Lemma next_entry_spec s :
  wp_io next_entry (fun _ s' => same s s') (fun e s' => same s s' /\ plan s <> []) s.
Proof.
  eapply wp_io_mono; [apply wp_read; intros d; done|naive_solver|].
  intros e s' (Hs & Hq & _). split; [done|]. intros Hp. by destruct (Hq Hp).
Qed.

Definition entry_ok (d : disk) (n : list N) : Prop :=
  job_name n /\ exists i f, entries d !! n = Some i /\ inodes d !! i = Some f /\ private f /\ nlink d i = 1.

Lemma from_utf8_job n name : from_utf8 n = Some name -> job_name n <-> is_job_filename name = true.
Proof. intros Hn. unfold job_name. naive_solver. Qed.

Lemma list_loop_spec max names files s :
  len files <= max ->
  wp_io (list_job_files_loop max names files)
    (fun r s' => same s s' /\ r = files ++ names /\ Forall (entry_ok (on_disk s)) names /\ len r <= max)
    (fun e s' => same s s' /\
       (plan s = [] -> ~ (Forall (entry_ok (on_disk s)) names /\ len files + len names <= max))) s.
Proof.
  revert files s. induction names as [|n names IH]; intros files s Hf.
  { apply wp_ret. rewrite app_nil_r. by repeat split. }
  cbn [list_job_files_loop].
  eapply wp_seq; [apply next_entry_spec| |naive_solver]. intros [] s1 S1.
  apply wp_io_bind, wp_lift.
  2:{ intros e He. split; [done|]. intros _ [Hok _]. apply Forall_cons in Hok as [[(name & Hn & _) _] _].
      by rewrite Hn in He. }
  intros name Hname%ok_or_ok. destruct (is_job_filename name) eqn:Ej.
  2:{ assert (~ job_name n) as Hnj by (rewrite from_utf8_job by done; by rewrite Ej).
      destruct (starts_with _ name); apply wp_throw;
        (split; [done|]); intros _ [[[? _] _]%Forall_cons _]; done. }
  apply wp_io_bind, wp_check.
  2:{ intros Hm%N.leb_le. split; [done|]. intros _ [_ Hl]. rewrite len_cons in Hl. lia. }
  intros Hm%N.leb_gt. eapply wp_seq; [apply lstat_spec| |].
  2:{ rewrite (same_disk _ _ S1). intros e s2 [S2 Hq]. split; [by etrans|].
      intros Hp [[[_ (i & f & Hi & Hf' & _)] _]%Forall_cons _]. apply (same_quiet _ _ S1) in Hp.
      by rewrite (Hq Hp i Hi) in Hf'. }
  rewrite (same_disk _ _ S1). intros md s2 (S2 & i & f & Hi & Hf' & ->).
  assert (same s s2) as S02 by by etrans.
  apply wp_io_bind, wp_lift.
  2:{ intros e He. split; [done|]. intros _ [[[_ (j & g & Hj & Hg & Hp & Hl)] _]%Forall_cons _].
      simplify_eq. by rewrite (proj2 (validate_metadata_ok _ _ _ _)) in He. }
  intros [] [Hp Hl]%validate_metadata_ok.
  eapply wp_io_mono; [apply IH; autorewrite with len; lia|..]; rewrite (same_disk _ _ S02).
  - intros r s3 (S3 & -> & Hall & Hlen). split; [by etrans|]. split; [by rewrite <-app_assoc|].
    split; [|done]. constructor; [|done]. split; [by apply (from_utf8_job n name)|]. eauto 10.
  - intros e s3 [S3 Hq]. split; [by etrans|]. intros Hp' [[_ Hall]%Forall_cons Hlen].
    apply Hq; [by apply (same_quiet _ _ S02)|]. split; [done|]. revert Hlen. autorewrite with len. lia.
Qed.

(** The directory holds only job files, and not too many. *)
Definition listable (d : disk) (max : N) : Prop :=
  (forall n i, entries d !! n = Some i -> entry_ok d n) /\ N.of_nat (size (entries d)) <= max.

Lemma list_job_files_spec max s :
  wp_io (list_job_files max)
    (fun files s' => same s s' /\ listable (on_disk s) max /\ NoDup files /\
       (forall n, n ∈ files <-> is_Some (entries (on_disk s) !! n)) /\
       len files = N.of_nat (size (entries (on_disk s))))
    (fun e s' => same s s' /\ (plan s = [] -> root_dir (on_disk s) <> None -> ~ listable (on_disk s) max)) s.
Proof.
  unfold list_job_files. eapply wp_seq; [apply read_dir_spec| |naive_solver].
  intros names s1 [S1 ->]. eapply wp_seq; [apply list_loop_spec; rewrite len_nil; lia| |].
  - rewrite (same_disk _ _ S1). intros files s2 (S2 & -> & Hall & Hlen). cbn [app] in *.
    rewrite dir_order_length in Hlen.
    apply wp_ret. split; [by etrans|]. split; [|split; [|split]].
    + split; [|done]. intros n i Hn. rewrite Forall_forall in Hall. apply Hall, elem_of_dir_order. eauto.
    + rewrite stable_sort_perm. apply dir_order_nodup.
    + intros n. rewrite stable_sort_perm. apply elem_of_dir_order.
    + unfold len. rewrite stable_sort_perm. apply dir_order_length.
  - rewrite (same_disk _ _ S1). intros e s2 [S2 Hq]. split; [by etrans|].
    intros Hp _ [Hok Hmax]. apply Hq; [by apply (same_quiet _ _ S1)|].
    rewrite len_nil, dir_order_length. split; [|lia].
    apply Forall_forall. intros n [i Hn]%elem_of_dir_order. eauto.
Qed.

End steps.
