(* ===== verification/MessageJobRecovery.v ===== *)
(** * Recovery of the queue

    What [recover_candidates], [load_message_job_index] and [open_with_limit] do on a sound
    disk: unpublished candidates disappear, published ones stay as jobs, and the index is
    exactly what the job files say. *)

From S2P Require Import Prelude Text Digest Webex FileSystem MessageJobs MessageJobRules.

Local Open Scope N_scope.

(** From [s] to [s'] only the disk changes, to [d]. *)
Record moves (s : machine) (d : disk) (s' : machine) : Prop := mkMoves {
  moves_disk : on_disk s' = d;
  moves_index : index s' = index s;
  moves_healthy : runtime_unhealthy s' = runtime_unhealthy s;
  moves_quiet : plan s = [] -> plan s' = []
}.

Lemma same_moves s s1 d s' : same s s1 -> moves s1 d s' -> moves s d s'.
Proof. intros [] []. split; [done|congruence..|auto]. Qed.

Lemma moves_same s d s1 s' : moves s d s1 -> same s1 s' -> moves s d s'.
Proof. intros [] []. split; [congruence..|auto]. Qed.

Lemma moves_trans s d s1 d' s' : moves s d s1 -> moves s1 d' s' -> moves s d' s'.
Proof. intros [] []. split; [done|congruence..|auto]. Qed.

Lemma same_is_moves s s' : same s s' <-> moves s (on_disk s) s'.
Proof. split; intros []; by split. Qed.

(** A system call that changes the disk if it succeeds and leaves it if it fails. *)
Lemma wp_change {A} (call : disk -> result ErrorKind A * disk) s :
  (forall d e, (call d).1 = Err e -> (call d).2 = d) ->
  wp_io (syscall no_effect call)
    (fun a s' => call (on_disk s) = (Ok a, on_disk s') /\ moves s (on_disk s') s')
    (fun e s' => same s s' /\ (plan s = [] -> exists k, (call (on_disk s)).1 = Err k) /\
                 (forall k, e = IoError k -> k <> OtherError -> (call (on_disk s)).1 = Err k)) s.
Proof.
  intros Hc. apply wp_syscall.
  - intros Hp. split; [done|]. split; [done|]. by intros k [= <-].
  - intros Hp k p. split; [by split|]. split; [done|]. by intros k' [= <-].
  - intros p Hp. pose proof (Hc (on_disk s)) as Hd. destruct (call (on_disk s)) as [[a|e] d]; cbn in *.
    + split; [done|]. by split.
    + rewrite (Hd e eq_refl). split; [by split|]. split; [eauto|]. by intros k [= ->].
Qed.

Section recovery.
Context `{Kernel} `{RecordJson} `{Sha256}.

(** Records whose files must not get lost. *)
Context (R : MessageJobRecord -> Prop).

Definition inv (d : disk) : Prop := sound d /\ forall r, R r -> stored d r.

Lemma inv_kept d d' :
  inv d -> kept d d' ->
  (forall n v, possible d' n v ->
     possible d n v \/ (v = None /\ forall r, R r -> message_job_path (mj_message_id r) <> n)) ->
  inv d'.
Proof.
  intros [S I] K Hp. split.
  - eapply sound_kept; [done..|]. intros n i Hn. destruct (Hp _ _ Hn) as [|[? _]]; done.
  - intros r Hr. eapply stored_kept; eauto. intros v Hv. destruct (Hp _ _ Hv) as [|[_ Hne]]; [done|].
    by destruct (Hne r Hr).
Qed.

Lemma inv_sync d : inv d -> inv (sync_entries d).
Proof.
  intros I. eapply inv_kept; [done|by apply kept_same_inodes|].
  intros n v ->%possible_sync. left. by left.
Qed.

Lemma inv_unlink d n i :
  inv d -> (forall r, R r -> message_job_path (mj_message_id r) <> n) -> inv (touch i (set_entry n None d)).
Proof.
  intros I Hn. eapply inv_kept; [done|by apply kept_same_inodes|].
  intros m v [?|[-> ->]]%(possible_set_entry n None d); auto.
Qed.

Lemma candidate_not_job n r : candidate_name n -> message_job_path (mj_message_id r) <> n.
Proof. intros Hc <-. eapply names_disjoint; [apply job_path_name|done]. Qed.

(** ** Rules *)

Lemma ensure_root_spec s :
  sound (on_disk s) ->
  wp_io ensure_private_job_root (fun _ s' => same s s') (fun _ s' => same s s' /\ plan s <> []) s.
Proof.
  intros S. destruct (sound_root _ S) as (r & Hr & Hp1 & Hp2 & Hp3).
  unfold ensure_private_job_root. apply wp_io_bind, wp_attempt.
  eapply wp_io_mono; [apply wp_read; intros d; done|..]; cbn; rewrite Hr; cbn.
  - intros r' s1 [S1 [= <-]]. unfold validate_job_root_metadata.
    by rewrite bool_decide_true, Hp2, Hp3, !N.eqb_refl by done.
  - intros e s1 (S1 & Hq & Hn). assert (plan s <> []) as Hp by (intros ?; by destruct Hq).
    destruct e as [[]| |]; try (by apply wp_throw). by specialize (Hn eq_refl).
Qed.

Lemma sync_directory_spec s :
  sound (on_disk s) ->
  wp_io sync_directory (fun _ s' => moves s (sync_entries (on_disk s)) s') (fun _ s' => same s s' /\ plan s <> []) s.
Proof.
  intros S. destruct (sound_root _ S) as (r & Hr & _). unfold sync_directory.
  eapply wp_seq; [apply wp_read; intros d; done|..]; cbn; rewrite Hr; cbn.
  2:{ intros e s1 (S1 & Hq & _). split; [done|]. intros ?. by destruct Hq. }
  intros _ s1 [S1 _]. eapply wp_io_mono; [apply wp_change|..].
  - intros d e. unfold sys_sync_dir. by destruct (root_dir d).
  - intros [] s2 [Hc M]. unfold sys_sync_dir in Hc. rewrite (same_disk _ _ S1), Hr in Hc.
    injection Hc as Hc. rewrite <-Hc in M. by eapply same_moves.
  - intros e s2 (S2 & Hq & _). split; [by etrans|]. intros Hp. apply (same_quiet _ _ S1) in Hp.
    destruct (Hq Hp) as [k Hk]. unfold sys_sync_dir in Hk. by rewrite (same_disk _ _ S1), Hr in Hk.
Qed.

Lemma remove_file_spec n s :
  wp_io (remove_file n)
    (fun _ s' => exists i, entries (on_disk s) !! n = Some i /\
                 moves s (touch i (set_entry n None (on_disk s))) s')
    (fun e s' => same s s' /\ (plan s = [] \/ e = IoError NotFound -> entries (on_disk s) !! n = None)) s.
Proof.
  eapply wp_io_mono; [apply wp_change|..]; unfold sys_unlink.
  - intros d e. by destruct (entries d !! n).
  - intros [] s' [Hc M]. destruct (entries _ !! n) as [i|]; [|done]. injection Hc as Hc.
    exists i. split; [done|]. by rewrite <-Hc in M.
  - intros e s' (S1 & Hq & Hk). split; [done|]. destruct (entries _ !! n) as [i|]; [|done].
    intros [Hp| ->]; cbn in *; [by destruct (Hq Hp)|]. by specialize (Hk NotFound eq_refl ltac:(done)).
Qed.

(** ** Candidates *)

Lemma candidate_links d n i :
  sound d -> candidate_name n -> entries d !! n = Some i ->
  nlink d i = 1 \/
  (nlink d i = 2 /\ exists r, entries d !! message_job_path (mj_message_id r) = Some i /\ holds d i r).
Proof.
  intros S Hc Hn.
  assert (forall m, entries d !! m = Some i -> m = n \/ published d m i) as Hm.
  { intros m Hm. destruct (sound_names _ S m i) as [Hcm|]; [by left| |auto].
    left. by apply (sound_candidates _ S m n i); auto; left. }
  destruct (decide (exists m, m ∈ names_of d i /\ m <> n)) as [(m & Hi%elem_of_names_of & Hne)|Hnone].
  - right. destruct (Hm m Hi) as [|(r & -> & Hr)]; [done|]. split; [|eauto].
    apply (nlink_two d n (message_job_path (mj_message_id r))); [done..|].
    intros k Hk. destruct (Hm k Hk) as [|(r' & -> & Hr')]; [auto|].
    destruct Hr as (f & Hf & _ & He), Hr' as (f' & Hf' & _ & He'). simplify_eq.
    right. by rewrite (encode_inj r' r _ He' He).
  - left. apply (nlink_one d n); [done|]. intros m Hi. apply dec_stable. intros Hne.
    apply Hnone. exists m. by rewrite elem_of_names_of.
Qed.

Lemma holds_encodes d i r f :
  holds d i r -> inodes d !! i = Some f -> encode_message_job_record r = Ok (i_content f).
Proof. intros (g & Hg & _ & He) Hf. by simplify_eq. Qed.

Lemma reads_holds d n links r :
  sound d -> reads d n links r -> job_name n \/ links = 2 ->
  exists i, entries d !! n = Some i /\ holds d i r /\ (job_name n -> message_job_path (mj_message_id r) = n).
Proof.
  intros S (i & f & Hi & Hf & Hp & Hl & He) Hj. exists i. split; [done|].
  assert (forall r', holds d i r' -> r' = r) as Hu.
  { intros r' Hr'. pose proof (holds_encodes _ _ _ _ Hr' Hf). by eapply encode_inj. }
  destruct (sound_names _ S n i) as [Hc|(r' & -> & Hr')]; [by left| |by rewrite <-(Hu r')].
  destruct Hj as [Hj|Hj]; [by destruct (names_disjoint n)|].
  destruct (candidate_links d n i S Hc Hi) as [Hl1|(_ & r' & _ & Hr')]; [lia|].
  rewrite <-(Hu r') by done. split; [done|]. intros Hj'. by destruct (names_disjoint n).
Qed.

Lemma recover_candidate_spec n published s :
  sound (on_disk s) -> candidate_name n -> is_Some (entries (on_disk s) !! n) ->
  wp_io (recover_candidate n published)
    (fun published' s' => exists i, moves s (touch i (set_entry n None (on_disk s))) s' /\
       (published' = published \/ exists r, published' = published ++ [r] /\
          entries (on_disk s) !! message_job_path (mj_message_id r) = Some i /\ holds (on_disk s) i r))
    (fun e s' => same s s' /\ plan s <> []) s.
Proof.
  intros S Hc [i Hi]. destruct (sound_files _ S n i) as (f & Hf & Hp); [by left|].
  unfold recover_candidate. eapply wp_seq; [apply lstat_spec| |].
  2:{ intros e s1 [S1 Hq]. split; [done|]. intros Hpl. specialize (Hq Hpl i Hi). by simplify_eq. }
  intros md s1 (S1 & i' & f' & Hi' & Hf' & ->). simplify_eq. cbn [metadata_of m_nlink].
  apply wp_io_bind.
  eapply (wp_io_mono _ (fun published' s2 => same s s2 /\ (published' = published \/
    exists r, published' = published ++ [r] /\
      entries (on_disk s) !! message_job_path (mj_message_id r) = Some i /\ holds (on_disk s) i r))
    _ (fun _ s2 => same s s2 /\ plan s <> [])); [| |done].
  - destruct (candidate_links (on_disk s) n i S Hc Hi) as [Hl|(Hl & r & Hr & Hh)]; rewrite Hl; cbn [N.eqb Pos.eqb].
    + rewrite (proj2 (validate_metadata_ok _ _ _ _)) by done. apply wp_io_bind, wp_ret, wp_ret. auto.
    + rewrite (proj2 (validate_metadata_ok _ _ _ _)) by done. apply wp_io_bind, wp_ret.
      assert (reads (on_disk s) n 2 r) as Hread by (exists i, f; split_and!; eauto using holds_encodes).
      eapply wp_seq; [apply read_record_spec| |]; rewrite ?(same_disk _ _ S1).
      2:{ intros e s2 (S2 & Hq & _). split; [by etrans|]. intros Hpl.
          apply (same_quiet _ _ S1) in Hpl. by eapply Hq. }
      intros r' s2 [S2 Hr'].
      rewrite (reads_unique _ _ _ _ _ _ Hread Hr'). assert (same s s2) as S02 by by etrans.
      eapply wp_seq; [apply lstat_spec| |]; rewrite (same_disk _ _ S02).
      2:{ intros e s3 [S3 Hq]. split; [by etrans|]. intros Hpl.
          apply (same_quiet _ _ S02) in Hpl. specialize (Hq Hpl _ Hr). by simplify_eq. }
      intros md s3 (S3 & j & g & Hj & Hg & ->). simplify_eq. cbn [metadata_of m_ino].
      unfold same_file_identity. cbn [metadata_of m_ino]. rewrite N.eqb_refl.
      apply wp_io_bind, wp_ret, wp_ret. split; [by etrans|]. eauto.
  - intros published' s2 [S2 Hpub]. eapply wp_seq; [apply remove_file_spec| |]; rewrite (same_disk _ _ S2).
    2:{ intros e s3 [S3 Hq]. split; [by etrans|]. intros Hpl. rewrite Hq in Hi; [done|].
        left. by apply (same_quiet _ _ S2). }
    intros [] s3 (j & Hj & M). simplify_eq. apply wp_ret. eexists. split; [by eapply same_moves|done].
Qed.

(** ** All candidates of a listing *)

Definition job_nameb (n : list N) : bool :=
  match from_utf8 n with
  | Some name => is_job_filename name
  | None => false
  end.

Lemma job_nameb_true n : job_nameb n = true <-> job_name n.
Proof. unfold job_nameb, job_name. destruct (from_utf8 n) as [name|]; naive_solver. Qed.

Lemma candidate_nameb n : candidate_name n -> job_nameb n = false.
Proof. intros (name & Hn & Hj & _). unfold job_nameb. by rewrite Hn. Qed.

Definition is_published (d : disk) (r : MessageJobRecord) : Prop :=
  exists i, entries d !! message_job_path (mj_message_id r) = Some i /\ holds d i r.

(** What recovering the candidates among [names] has changed. *)
Record recovering (s : machine) (names : list (list N)) (s' : machine) : Prop := mkRecovering {
  rec_inv : inv (on_disk s');
  rec_inodes : inodes (on_disk s') = inodes (on_disk s);
  rec_entries : forall m, entries (on_disk s') !! m =
    if bool_decide (m ∈ names) && negb (job_nameb m) then None else entries (on_disk s) !! m;
  rec_index : index s' = index s;
  rec_healthy : runtime_unhealthy s' = runtime_unhealthy s;
  rec_quiet : plan s = [] -> plan s' = []
}.

Lemma recovering_same s s' : inv (on_disk s) -> same s s' -> recovering s [] s'.
Proof.
  intros I [Hd Hi Hh Hq]. split; rewrite ?Hd; auto.
Qed.

Lemma recovering_jobs s n names s1 s' :
  same s s1 -> job_name n -> recovering s1 names s' -> recovering s (n :: names) s'.
Proof.
  intros [Hd Hi Hh Hq] Hj [I Hin He Hix Hhe Hqu]. rewrite Hd in *.
  split; [done|done| |congruence..|auto].
  intros m. rewrite He. destruct (decide (m = n)) as [->|Hne].
  - rewrite (proj2 (job_nameb_true n) Hj). by rewrite !andb_false_r.
  - rewrite (bool_decide_ext (m ∈ n :: names) (m ∈ names)); [done|]. rewrite elem_of_cons. naive_solver.
Qed.

Lemma recovering_candidate s n i names s1 s' :
  moves s (touch i (set_entry n None (on_disk s))) s1 -> candidate_name n -> n ∉ names ->
  recovering s1 names s' -> recovering s (n :: names) s'.
Proof.
  intros [Hd Hi Hh Hq] Hc Hn [I Hin He Hix Hhe Hqu]. rewrite Hd in *. cbn in Hin, He.
  split; [done|done| |congruence..|auto].
  intros m. rewrite He. destruct (decide (m = n)) as [->|Hne].
  - rewrite (candidate_nameb n Hc), (bool_decide_true (n ∈ n :: names)) by by left.
    rewrite lookup_partial_alter_eq. cbn. by destruct (bool_decide _ && true).
  - rewrite lookup_partial_alter_ne by done.
    rewrite (bool_decide_ext (m ∈ n :: names) (m ∈ names)); [done|]. rewrite elem_of_cons. naive_solver.
Qed.

Definition jobs_in (names : list (list N)) : N := len (List.filter job_nameb names).
Definition candidates_in (names : list (list N)) : N := len (List.filter (fun n => negb (job_nameb n)) names).

Lemma counts_cons n names :
  jobs_in (n :: names) = (if job_nameb n then 1 else 0) + jobs_in names /\
  candidates_in (n :: names) = (if job_nameb n then 0 else 1) + candidates_in names.
Proof.
  unfold jobs_in, candidates_in. cbn [List.filter]. destruct (job_nameb n); cbn [negb]; rewrite len_cons; lia.
Qed.

Lemma sound_entry d n i : sound d -> entries d !! n = Some i -> candidate_name n \/ job_name n.
Proof.
  intros S Hn. destruct (sound_names _ S n i) as [?|(r & -> & _)]; [by left|by left|].
  right. apply job_path_name.
Qed.

Lemma is_published_unlink d n i r :
  candidate_name n -> is_published (touch i (set_entry n None d)) r -> is_published d r.
Proof.
  intros Hc (j & Hj & Hr). exists j. cbn in Hj. rewrite lookup_partial_alter_ne in Hj; [done|].
  intros Hn. by apply (candidate_not_job n r).
Qed.

Lemma recover_loop_spec max names removed published jc cc s :
  inv (on_disk s) -> NoDup names -> (forall n, n ∈ names -> is_Some (entries (on_disk s) !! n)) ->
  wp_io (recover_candidates_loop max names removed published jc cc)
    (fun p s' => recovering s names s' /\
       (p.1 = false -> removed = false /\ on_disk s' = on_disk s) /\
       (candidates_in names = 0 -> p = (removed, published) /\ same s s') /\
       exists new, p.2 = published ++ new /\ Forall (is_published (on_disk s)) new)
    (fun e s' => inv (on_disk s') /\ index s' = index s /\
       (plan s = [] -> max < jc + jobs_in names \/ max < cc + candidates_in names)) s.
Proof.
  revert removed published jc cc s.
  induction names as [|n names IH]; intros removed published jc cc s I Hnd Hin.
  { apply wp_ret. split; [by apply recovering_same|]. split; [auto|]. split; [done|].
    exists []. by rewrite app_nil_r. }
  apply NoDup_cons in Hnd as [Hnn Hnd]. destruct (Hin n) as [i Hi]; [by left|].
  cbn [recover_candidates_loop]. eapply wp_seq; [apply next_entry_spec| |].
  2:{ intros e s1 [S1 Hp]. rewrite (same_disk _ _ S1). by split; [|split; [apply S1|]]. }
  intros [] s1 S1.
  assert (forall m, m ∈ names -> is_Some (entries (on_disk s) !! m)) as Hin'.
  { intros m Hm. apply Hin. by right. }
  destruct (counts_cons n names) as [-> ->].
  destruct (sound_entry _ n i (proj1 I) Hi) as [Hc|Hj].
  - rewrite (candidate_nameb n Hc). destruct Hc as (name & Hname & Hnj & Hpre).
    rewrite Hname. apply wp_io_bind, wp_ret. rewrite Hnj, Hpre. apply wp_io_bind, wp_ret.
    apply wp_io_bind, wp_check.
    2:{ intros Hmax%N.ltb_lt. rewrite (same_disk _ _ S1). split; [done|]. split; [apply S1|].
        intros _. right. unfold sat_add in Hmax. lia. }
    intros _. assert (candidate_name n) as Hc by (by exists name).
    eapply wp_seq; [apply recover_candidate_spec|..]; rewrite ?(same_disk _ _ S1);
      [apply I|done|by exists i| |].
    2:{ intros e s2 [S2 Hp]. rewrite (same_disk _ _ S2), (same_disk _ _ S1), (same_index _ _ S2).
        split; [done|]. split; [apply S1|]. intros Hq. destruct Hp. by apply (same_quiet _ _ S1). }
    intros published' s2 (j & M & Hpub). eapply same_moves in M; [|done].
    assert (inv (on_disk s2)) as I2.
    { rewrite (moves_disk _ _ _ M). apply inv_unlink; [done|]. intros r _. by apply candidate_not_job. }
    eapply wp_io_mono; [apply IH; [done..|]| |].
    + intros m Hm. rewrite (moves_disk _ _ _ M). cbn. rewrite lookup_partial_alter_ne by by intros ->. auto.
    + intros [removed' recs] s3 (Hr & H3 & _ & new & -> & Hnew). split; [by eapply recovering_candidate|].
      split; [|split; [lia|exists (drop (length published) (published' ++ new))]].
      { cbn [fst]. intros ->. by destruct (H3 eq_refl). }
      rewrite (moves_disk _ _ _ M) in Hnew.
      assert (Forall (is_published (on_disk s)) new) as Hnew'.
      { eapply Forall_impl; [exact Hnew|]. intros r. by apply is_published_unlink. }
      destruct Hpub as [->|(r & -> & Hpub)].
      * rewrite drop_app_length. by split.
      * rewrite <-app_assoc, drop_app_length. split; [done|]. constructor; [by exists j|done].
    + intros e s3 (I3 & Hix & Hq). split; [done|]. split; [by rewrite Hix, (moves_index _ _ _ M)|].
      intros Hp. destruct Hq as [Hq|Hq]; [by apply (moves_quiet _ _ _ M)|left; lia|right].
      unfold sat_add in Hq. lia.
  - rewrite (proj2 (job_nameb_true n) Hj). pose proof Hj as (name & Hname & Hjn).
    rewrite Hname. apply wp_io_bind, wp_ret. rewrite Hjn.
    apply wp_io_bind, wp_check.
    2:{ intros Hmax%N.ltb_lt. rewrite (same_disk _ _ S1). split; [done|]. split; [apply S1|].
        intros _. left. unfold sat_add in Hmax. lia. }
    intros _. eapply wp_io_mono; [apply IH; rewrite ?(same_disk _ _ S1); done|..]; rewrite ?(same_disk _ _ S1).
    + intros p s2 (Hr & Hd & Hno & Hnew). split; [by eapply recovering_jobs|]. split; [done|]. split; [|done].
      intros Hz. destruct Hno as [-> ?]; [lia|]. split; [done|]. by etrans.
    + intros e s2 (I2 & Hix & Hq). split; [done|]. split; [by rewrite Hix, (same_index _ _ S1)|].
      intros Hp. destruct Hq as [Hq|Hq]; [by apply (same_quiet _ _ S1)|left|right; lia].
      unfold sat_add in Hq. lia.
Qed.

(** ** The whole directory *)

Definition names_on (d : disk) : list (list N) := (map_to_list (entries d)).*1.

Lemma jobs_in_perm l l' : l ≡ₚ l' -> jobs_in l = jobs_in l' /\ candidates_in l = candidates_in l'.
Proof.
  intros Hl. induction Hl as [|n l l' _ [IH1 IH2]|n m l|l1 l2 l3 _ [] _ []]; rewrite ?(proj1 (counts_cons _ _)), ?(proj2 (counts_cons _ _)); lia.
Qed.

Definition jobs_only (d : disk) : Prop := forall n i, entries d !! n = Some i -> job_name n.

(** More jobs or more candidates than the code accepts. *)
Definition crowded (d : disk) (max : N) : Prop := max < jobs_in (names_on d) \/ max < candidates_in (names_on d).

Record recovered (s s' : machine) : Prop := mkRecovered {
  recd_inv : inv (on_disk s');
  recd_inodes : inodes (on_disk s') = inodes (on_disk s);
  recd_entries : forall m, entries (on_disk s') !! m =
    if job_nameb m then entries (on_disk s) !! m else None;
  recd_synced : on_disk s' = on_disk s \/
    (durable (on_disk s') = entries (on_disk s') /\ unsynced (on_disk s') = [])
}.

Lemma jobs_only_candidates d : jobs_only d -> candidates_in (names_on d) = 0.
Proof.
  intros J. unfold candidates_in. replace (List.filter _ _) with (@nil (list N)); [done|].
  assert (Forall (fun n => job_name n) (names_on d)) as Hall.
  { apply Forall_forall. unfold names_on. intros n Hn. apply list_elem_of_fmap in Hn as ([k i] & -> & Hk%elem_of_map_to_list).
    by eapply J. }
  induction Hall as [|n names Hn _ IH]; [done|]. cbn. by rewrite (proj2 (job_nameb_true n) Hn).
Qed.

Lemma recover_candidates_spec max s :
  inv (on_disk s) ->
  wp_io (recover_candidates max)
    (fun recs s' => recovered s s' /\ index s' = index s /\ runtime_unhealthy s' = runtime_unhealthy s /\
       (plan s = [] -> plan s' = []) /\ Forall (is_published (on_disk s)) recs /\
       (jobs_only (on_disk s) -> recs = [] /\ same s s'))
    (fun e s' => inv (on_disk s') /\ index s' = index s /\ (plan s = [] -> crowded (on_disk s) max)) s.
Proof.
  intros I. unfold recover_candidates. eapply wp_seq; [apply read_dir_spec|..].
  2:{ intros e s1 [S1 Hq]. rewrite (same_disk _ _ S1). split; [done|]. split; [apply S1|].
      intros Hp. destruct (sound_root _ (proj1 I)) as (r & Hr & _). rewrite Hq in Hr; done. }
  intros names s1 [S1 ->].
  destruct (jobs_in_perm _ _ (dir_order_perm (ticks s) (entries (on_disk s)))) as [Hjobs Hcands].
  eapply wp_seq; [apply recover_loop_spec; rewrite ?(same_disk _ _ S1)| |]; [done|apply dir_order_nodup| | |].
  { intros n. apply elem_of_dir_order. }
  2:{ intros e s2 (I2 & Hix & Hq). split; [done|]. split; [by rewrite Hix, (same_index _ _ S1)|].
      intros Hp. apply (same_quiet _ _ S1) in Hp. specialize (Hq Hp). rewrite Hjobs, Hcands in Hq.
      unfold crowded, names_on. destruct Hq; [left|right]; lia. }
  intros [removed recs] s2 (Hr & Hnone & Hidle & new & Hnew & Hpub).
  cbn [fst snd] in *. subst recs. cbn [app].
  rewrite (same_disk _ _ S1) in *.
  assert (forall m, entries (on_disk s2) !! m = if job_nameb m then entries (on_disk s) !! m else None) as He.
  { intros m. rewrite (rec_entries _ _ _ Hr), (same_disk _ _ S1). destruct (job_nameb m) eqn:Ej; cbn [negb].
    - by rewrite andb_false_r.
    - rewrite andb_true_r. case_bool_decide as Hm; [done|].
      rewrite elem_of_dir_order, <-eq_None_not_Some in Hm. done. }
  assert (index s2 = index s) as Hix by (by rewrite (rec_index _ _ _ Hr), (same_index _ _ S1)).
  assert (runtime_unhealthy s2 = runtime_unhealthy s) as Hh by (by rewrite (rec_healthy _ _ _ Hr), (same_healthy _ _ S1)).
  assert (plan s = [] -> plan s2 = []) as Hq by (intros Hp; by apply Hr, S1).
  destruct removed.
  - eapply wp_seq; [apply sync_directory_spec, Hr|..].
    2:{ intros e s3 [S3 Hp]. rewrite (same_disk _ _ S3), (same_index _ _ S3). split; [apply Hr|]. split; [done|].
        intros Hpl. by destruct Hp; auto. }
    intros [] s3 M. apply wp_ret. split_and!.
    + split; rewrite ?(moves_disk _ _ _ M).
      * apply inv_sync, Hr.
      * cbn. by rewrite (rec_inodes _ _ _ Hr), (same_disk _ _ S1).
      * done.
      * by right.
    + by rewrite (moves_index _ _ _ M).
    + by rewrite (moves_healthy _ _ _ M).
    + intros Hp. by apply M, Hq.
    + done.
    + intros Hc%jobs_only_candidates. destruct Hidle as [Hx _]; [by rewrite Hcands|done].
  - destruct (Hnone eq_refl) as [_ Hsame]. apply wp_io_bind, wp_ret, wp_ret. split_and!; try done.
    + split; [apply Hr| |done|by left]. by rewrite Hsame.
    + intros Hc%jobs_only_candidates. destruct Hidle as [Hx Hs]; [by rewrite Hcands|].
      split; [by injection Hx|]. by etrans.
Qed.

End recovery.

(** ** The index and the opening *)

Section index.
Context `{Kernel} `{RecordJson} `{Sha256}.
Context (R : MessageJobRecord -> Prop).

(** Every job file is in the index with its time, and nothing else is. *)
Definition represents (d : disk) (m : gmap str N) : Prop :=
  forall id t, m !! id = Some t <-> exists r, reads d (message_job_path id) 1 r /\
    mj_message_id r = id /\ mj_enqueued_at_unix_nanos r = t.

Definition represents_among (d : disk) (names : list (list N)) (m : gmap str N) : Prop :=
  forall id t, m !! id = Some t <-> message_job_path id ∈ names /\ exists r,
    reads d (message_job_path id) 1 r /\ mj_message_id r = id /\ mj_enqueued_at_unix_nanos r = t.

Lemma load_loop_spec names done_names m s :
  NoDup (done_names ++ names) -> represents_among (on_disk s) done_names m ->
  wp_io (load_index_loop names m)
    (fun m' s' => same s s' /\ represents_among (on_disk s) (done_names ++ names) m' /\
       Forall (fun n => exists r, reads (on_disk s) n 1 r /\ message_job_path (mj_message_id r) = n) names)
    (fun e s' => same s s' /\
       (plan s = [] -> ~ Forall (fun n => exists r, reads (on_disk s) n 1 r /\ message_job_path (mj_message_id r) = n) names)) s.
Proof.
  revert done_names m s. induction names as [|n names IH]; intros done_names m s Hnd Hm.
  { apply wp_ret. by rewrite app_nil_r. }
  cbn [load_index_loop]. eapply wp_seq; [apply read_record_spec|..].
  2:{ intros e s1 (S1 & Hq & _). split; [done|]. intros Hp [(r & Hr & _) _]%Forall_cons. by eapply Hq. }
  intros r s1 [S1 Hr]. apply wp_io_bind, wp_check.
  2:{ intros Hne%negb_true_iff%bool_decide_eq_false. split; [done|].
      intros _ [(r' & Hr' & Hn) _]%Forall_cons. by rewrite (reads_unique _ _ _ _ _ _ Hr Hr') in Hn. }
  intros Hn%negb_false_iff%bool_decide_eq_true.
  assert (n ∉ done_names) as Hnew.
  { apply NoDup_app in Hnd as (_ & Hnd & _). intros Hin. by apply (Hnd n Hin), list_elem_of_here. }
  assert (m !! mj_message_id r = None) as Hvac.
  { apply eq_None_not_Some. intros [t [Hin _]%Hm]. by rewrite Hn in Hin. }
  unfold register_index_record. rewrite Hvac. apply wp_io_bind, wp_ret.
  eapply wp_io_mono; [apply (IH (done_names ++ [n]))|..]; rewrite ?(same_disk _ _ S1).
  - by rewrite <-app_assoc.
  - intros id t. rewrite elem_of_app, list_elem_of_singleton.
    destruct (decide (id = mj_message_id r)) as [->|Hne].
    + rewrite lookup_insert_eq. split.
      * intros [= <-]. split; [by right|]. exists r. by rewrite Hn.
      * intros [_ (r' & Hr' & Hid & <-)]. rewrite Hn in Hr'. by rewrite (reads_unique _ _ _ _ _ _ Hr Hr').
    + rewrite lookup_insert_ne by done. rewrite (Hm id t). split; [naive_solver|].
      intros [[?|Hp] (r' & Hr' & Hid & Ht)]; [naive_solver|]. rewrite Hp in Hr'.
      rewrite (reads_unique _ _ _ _ _ _ Hr Hr') in Hid. congruence.
  - intros m' s2 (S2 & Hm' & Hall). split; [by etrans|]. rewrite <-app_assoc in Hm'. split; [done|].
    constructor; [by exists r|done].
  - intros e s2 [S2 Hq]. split; [by etrans|]. intros Hp [_ Hall]%Forall_cons.
    by apply Hq; [apply (same_quiet _ _ S1)|].
Qed.

(** Each file reads as the record its name is the digest of. *)
Definition consistent_names (d : disk) : Prop :=
  forall n i, entries d !! n = Some i -> exists r, reads d n 1 r /\ message_job_path (mj_message_id r) = n.

Lemma reads_present d n links r : reads d n links r -> is_Some (entries d !! n).
Proof. intros (i & _ & Hi & _). eauto. Qed.

Lemma load_index_spec max s :
  wp_io (load_message_job_index max)
    (fun m s' => same s s' /\ listable (on_disk s) max /\ consistent_names (on_disk s) /\ represents (on_disk s) m)
    (fun e s' => same s s' /\ (plan s = [] -> root_dir (on_disk s) <> None ->
                                ~ (listable (on_disk s) max /\ consistent_names (on_disk s)))) s.
Proof.
  unfold load_message_job_index. eapply wp_seq; [apply list_job_files_spec| |naive_solver].
  intros files s1 (S1 & Hl & Hnd & Hin & _).
  eapply wp_io_mono; [apply (load_loop_spec files [])|..]; rewrite ?(same_disk _ _ S1); [done| | |].
  - intros id t. rewrite lookup_empty. split; [done|]. intros [Hx _]. by apply elem_of_nil in Hx.
  - intros m s2 (S2 & Hm & Hall). split; [by etrans|]. split; [done|]. cbn [app] in Hm. split.
    + intros n i Hi. rewrite Forall_forall in Hall. apply Hall, Hin. eauto.
    + intros id t. rewrite (Hm id t). rewrite Hin. split; [naive_solver|].
      intros (r & Hr & ? & ?). split; [by eapply reads_present|eauto].
  - intros e s2 [S2 Hq]. split; [by etrans|]. intros Hp _ [_ Hc]. apply Hq; [by apply (same_quiet _ _ S1)|].
    apply Forall_forall. intros n [i Hi]%Hin. by eapply Hc.
Qed.

(** ** A recovered disk is loadable *)

Lemma jobs_only_reads d n i :
  sound d -> jobs_only d -> entries d !! n = Some i ->
  exists r, reads d n 1 r /\ message_job_path (mj_message_id r) = n /\ holds d i r.
Proof.
  intros S J Hi. destruct (sound_files _ S n i) as (f & Hf & Hp); [by left|].
  assert (forall m, entries d !! m = Some i -> published d m i) as Hpub.
  { intros m Hm. destruct (sound_names _ S m i) as [Hc|]; [by left| |done].
    destruct (names_disjoint m); [by eapply J|done]. }
  destruct (Hpub n Hi) as (r & -> & Hr). exists r. split; [|done]. exists i, f. split_and!; try done.
  - apply (nlink_one d (message_job_path (mj_message_id r))); [done|]. intros m Hm.
    destruct (Hpub m Hm) as (r' & -> & Hr'). pose proof (holds_encodes _ _ _ _ Hr Hf) as He.
    pose proof (holds_encodes _ _ _ _ Hr' Hf) as He'. by rewrite (encode_inj _ _ _ He He').
  - by eapply holds_encodes.
Qed.

Lemma jobs_only_consistent d :
  sound d -> jobs_only d -> consistent_names d /\ forall n i, entries d !! n = Some i -> entry_ok d n.
Proof.
  intros S J. split.
  - intros n i Hi. destruct (jobs_only_reads d n i S J Hi) as (r & Hr & Hn & _). by exists r.
  - intros n i Hi. destruct (jobs_only_reads d n i S J Hi) as (r & (j & f & ? & ? & ? & ? & _) & _).
    split; [by eapply J|]. by exists j, f.
Qed.

Lemma recovered_jobs_only s s' : recovered R s s' -> jobs_only (on_disk s').
Proof.
  intros Rc n i Hi. rewrite (recd_entries _ _ _ Rc) in Hi.
  apply job_nameb_true. by destruct (job_nameb n).
Qed.

Lemma names_size d : len (names_on d) = N.of_nat (size (entries d)).
Proof. unfold len, names_on. by rewrite length_fmap, length_map_to_list. Qed.

Lemma elem_of_names_on d n : n ∈ names_on d <-> is_Some (entries d !! n).
Proof.
  unfold names_on. rewrite list_elem_of_fmap. split.
  - intros ([k i] & -> & Hk%elem_of_map_to_list). cbn. eauto.
  - intros [i Hi]. exists (n, i). by rewrite elem_of_map_to_list.
Qed.

Lemma recovered_size s s' :
  recovered R s s' -> N.of_nat (size (entries (on_disk s'))) = jobs_in (names_on (on_disk s)).
Proof.
  intros Rc. rewrite <-names_size. unfold jobs_in, len. f_equal. apply Permutation_length.
  apply NoDup_Permutation.
  - apply NoDup_fst_map_to_list.
  - apply NoDup_ListNoDup, List.NoDup_filter, NoDup_ListNoDup, NoDup_fst_map_to_list.
  - intros n. rewrite elem_of_names_on, list_elem_of_In, filter_In, <-list_elem_of_In, elem_of_names_on.
    rewrite (recd_entries _ _ _ Rc). destruct (job_nameb n); [tauto|].
    split; [by intros []|by intros [_ ?]].
Qed.

(** ** [open_with_limit] *)

Lemma open_with_limit_spec max s :
  inv R (on_disk s) ->
  wp_io (open_with_limit max)
    (fun _ s' => recovered R s s' /\ listable (on_disk s') max /\ represents (on_disk s') (index s') /\
       runtime_unhealthy s' = false /\ (plan s = [] -> plan s' = []))
    (fun e s' => inv R (on_disk s') /\ (plan s = [] -> crowded (on_disk s) max)) s.
Proof.
  intros I. unfold open_with_limit. eapply wp_seq; [apply ensure_root_spec, I|..].
  2:{ intros e s1 [S1 Hp]. rewrite (same_disk _ _ S1). by split. }
  intros [] s1 S1. eapply wp_seq; [apply (recover_candidates_spec R)|..]; rewrite ?(same_disk _ _ S1); [done| |].
  2:{ intros e s2 (I2 & _ & Hq). split; [done|]. intros Hp. by apply Hq, S1. }
  intros recs s2 (Rc & Hix & Hh & Hq & _).
  assert (recovered R s s2) as Rc'.
  { destruct Rc as [Ia Ib Ic Id]. by rewrite (same_disk _ _ S1) in Ib, Ic, Id. }
  eapply wp_seq; [apply load_index_spec|..].
  - intros m s3 (S3 & Hl & _ & Hm). cbn. rewrite (same_disk _ _ S3). split_and!; try done.
    + destruct Rc' as [Ia Ib Ic Id]. by split; cbn; rewrite (same_disk _ _ S3).
    + intros Hp. by apply (same_quiet _ _ S3), Hq, S1.
  - intros e s3 [S3 Hbad]. rewrite (same_disk _ _ S3). split; [apply Rc'|]. intros Hp.
    pose proof (recd_inv _ _ _ Rc') as [S2 _].
    pose proof (jobs_only_consistent _ S2 (recovered_jobs_only _ _ Rc')) as [Hc Hok].
    destruct (sound_root _ S2) as (r & Hr & _).
    left. rewrite <-(recovered_size _ _ Rc'). apply N.lt_nge. intros Hle.
    apply Hbad; [by apply Hq, S1|by rewrite Hr|]. by split; [split|].
Qed.

(** ** Checks before an operation *)

Definition index_paths (m : gmap str N) : gset (list N) :=
  list_to_set (map message_job_path (map_to_list m).*1).

Lemma elem_of_index_paths m n : n ∈ index_paths m <-> exists id, is_Some (m !! id) /\ message_job_path id = n.
Proof.
  unfold index_paths. rewrite elem_of_list_to_set, elem_of_map. setoid_rewrite list_elem_of_fmap. split.
  - intros (id & -> & [k t] & -> & Hk%elem_of_map_to_list). cbn. eauto.
  - intros (id & [t Ht] & <-). exists id. split; [done|]. exists (id, t). by rewrite elem_of_map_to_list.
Qed.

Lemma represents_paths d m :
  consistent_names d -> represents d m -> index_paths m = dom (entries d).
Proof.
  intros C Hm. apply set_eq. intros n. rewrite elem_of_index_paths, elem_of_dom. split.
  - intros (id & [t (r & Hr & _)%Hm] & <-). by eapply reads_present.
  - intros [i Hi]. destruct (C n i Hi) as (r & Hr & Hn). exists (mj_message_id r). split; [|done].
    exists (mj_enqueued_at_unix_nanos r). apply Hm. exists r. by rewrite Hn.
Qed.

Lemma checked_job_files_spec max s :
  wp_io (checked_job_files_sync max)
    (fun paths s' => same s s' /\ len paths = N.of_nat (size (entries (on_disk s))))
    (fun e s' => same s s' /\ (plan s = [] -> root_dir (on_disk s) <> None ->
                                ~ (listable (on_disk s) max /\ index_paths (index s) = dom (entries (on_disk s))))) s.
Proof.
  unfold checked_job_files_sync. eapply wp_seq; [apply list_job_files_spec| |naive_solver].
  intros files s1 (S1 & Hl & Hnd & Hin & Hlen). apply wp_io_bind, wp_get.
  fold (index_paths (index s1)). rewrite (same_index _ _ S1). apply wp_io_bind, wp_check.
  - intros _. by apply wp_ret.
  - intros Hbad. split; [done|]. intros _ _ [_ Hix]. rewrite Hix, size_dom, Hlen, N.eqb_refl in Hbad.
    cbn [negb orb] in Hbad. apply any_true in Hbad as (n & Hn & Hb%negb_true_iff%bool_decide_eq_false).
    apply Hb, elem_of_dom, Hin, Hn.
Qed.

End index.
