(* ===== verification/MessageJobOperations.v ===== *)
(** * The operations of the queue

    Specifications of enqueueing, loading, removing and listing: what they do to disk and
    index, that they keep the invariant under every fault, and when they can fail without
    one. *)

From S2P Require Import Prelude Text Digest Webex FileSystem MessageJobs MessageJobRules MessageJobRecovery.

Local Open Scope N_scope.

(** A system call whose failure has an effect of its own. *)
Lemma wp_partial {A} partial (call : disk -> result ErrorKind A * disk) s :
  (forall d e, (call d).1 = Err e -> (call d).2 = d) ->
  wp_io (syscall partial call)
    (fun a s' => call (on_disk s) = (Ok a, on_disk s') /\ moves s (on_disk s') s')
    (fun e s' => (on_disk s' = on_disk s \/ exists k, on_disk s' = partial k (on_disk s)) /\
                 (plan s = [] -> exists k, (call (on_disk s)).1 = Err k)) s.
Proof.
  intros Hc. apply wp_syscall.
  - intros Hp. split; [by left|done].
  - intros Hp k p. split; [|done]. right. by exists k.
  - intros p Hp. pose proof (Hc (on_disk s)) as Hd. destruct (call (on_disk s)) as [[a|e] d]; cbn in *.
    + split; [done|]. by split.
    + split; [left; by apply (Hd e)|]. eauto.
Qed.

Section operations.
Context `{Kernel} `{RecordJson} `{Sha256}.
Context (R : MessageJobRecord -> Prop).

Lemma umask_bit n : (6 <= n < 9) -> N.testbit umask n = false.
Proof.
  intros Hn. pose proof umask_owner as Hu.
  assert (N.testbit (N.land umask 448) n = false) as Hb by (by rewrite Hu, N.bits_0).
  rewrite N.land_spec in Hb. apply andb_false_iff in Hb as [|Hb]; [done|]. exfalso.
  assert (n = 6 \/ n = 7 \/ n = 8) as [-> |[-> | ->]] by lia; done.
Qed.

Lemma private_mode : permission_bits (N.ldiff 384 umask) = 384.
Proof.
  unfold permission_bits. apply N.bits_inj. intros n.
  rewrite N.land_spec, N.ldiff_spec.
  destruct (N.lt_ge_cases n 12) as [Hn|Hn].
  - destruct (decide (n = 7 \/ n = 8)) as [Hm|Hm].
    + rewrite umask_bit by lia. by destruct Hm as [-> | ->].
    + assert (N.testbit 384 n = false) as ->; [|done].
      assert (n = 0 \/ n = 1 \/ n = 2 \/ n = 3 \/ n = 4 \/ n = 5 \/ n = 6 \/ n = 9 \/ n = 10 \/ n = 11)
        as Hc by lia.
      by repeat destruct Hc as [-> |Hc]; [..|subst n].
  - rewrite (N.bits_above_log2 384 n); [done|]. change (N.log2 384) with 8. lia.
Qed.

(** ** Writing the candidate *)

(** From [s0] on, inode [i] was created under the candidate name [c] alone. *)
Record draft (s0 : machine) (c : list N) (i : N) (bytes : list N) (synced : bool) (s : machine) : Prop := mkDraft {
  dr_inv : inv R (on_disk s);
  dr_kept : kept (on_disk s0) (on_disk s);
  dr_entries : entries (on_disk s) = <[c := i]> (entries (on_disk s0));
  dr_free : entries (on_disk s0) !! c = None;
  dr_only : forall n, possible (on_disk s) n (Some i) -> n = c;
  dr_file : exists f, inodes (on_disk s) !! i = Some f /\ private f /\ i_content f = bytes /\ i_synced f = synced;
  dr_index : index s = index s0;
  dr_quiet : plan s0 = [] -> plan s = []
}.

Lemma kept_new_candidate d c i f :
  sound d -> i = next_ino d -> kept d (touch i (set_entry c (Some i) (set_inode i f (take_ino d)))).
Proof.
  intros S ->. eapply kept_trans; [apply (kept_new_inode d (next_ino d) f eq_refl), S|].
  by apply kept_same_inodes.
Qed.

Lemma inv_new_candidate d c i f :
  inv R d -> candidate_name c -> i = next_ino d -> private f ->
  inv R (touch i (set_entry c (Some i) (set_inode i f (take_ino d)))).
Proof.
  intros [S I] Hc -> Hf.
  assert (kept d (touch (next_ino d) (set_entry c (Some (next_ino d)) (set_inode (next_ino d) f (take_ino d))))) as K by by apply kept_new_candidate.
  split.
  - eapply (sound_add d _ c (next_ino d)); [done|done| | |by left|].
    + intros m j [Hm|[-> [= ->]]]%possible_set_entry; auto.
    + exists f. cbn. by rewrite lookup_insert_eq.
    + intros m _ _ Hm. destruct (sound_files _ S m _ Hm) as (g & Hg & _).
      pose proof (sound_fresh _ S (next_ino d) (ex_intro _ g Hg)). lia.
  - intros r Hr. eapply stored_kept; eauto.
    intros v [Hv|[Hc' _]]%possible_set_entry; [done|]. by apply (candidate_not_job c r) in Hc.
Qed.

Lemma create_spec c s :
  inv R (on_disk s) -> candidate_name c ->
  wp_io (create_private_file c)
    (fun i s' => draft s c i [] false s')
    (fun e s' => inv R (on_disk s') /\ (plan s = [] -> entries (on_disk s) !! c <> None)) s.
Proof.
  intros I Hc. destruct (sound_root _ (proj1 I)) as (r0 & Hr0 & _).
  eapply wp_io_mono; [apply wp_change|..]; unfold sys_create; rewrite ?Hr0.
  - intros d e. destruct (root_dir d), (entries d !! c); done.
  - intros i s' [Hd M]. destruct (entries _ !! c) as [?|] eqn:Ec; [done|].
    assert (Ok (next_ino (on_disk s)) = @Ok ErrorKind N i) as [= Hi] by exact (f_equal fst Hd).
    apply (f_equal snd) in Hd. cbn [snd] in Hd.
    assert (private (mkInode RegularFile euid (N.ldiff 384 umask) [] false)) as Hp.
    { split_and!; [done|done|]. apply private_mode. }
    rewrite Hi in Hd. split; rewrite <-?Hd.
    + by apply inv_new_candidate.
    + by apply kept_new_candidate; [apply I|].
    + done.
    + done.
    + intros n Hn. apply (possible_set_entry c) in Hn as [Hn|[? _]]; [|done].
      destruct (sound_files _ (proj1 I) n i Hn) as (g & Hg & _).
      pose proof (sound_fresh _ (proj1 I) i (ex_intro _ g Hg)). lia.
    + eexists. cbn. by rewrite lookup_insert_eq.
    + apply M.
    + apply M.
  - intros e s' (S1 & Hq & _). rewrite (same_disk _ _ S1). split; [done|]. intros Hp He.
    destruct (Hq Hp) as [k Hk]. by rewrite He in Hk.
Qed.

(** Changing the inode of a draft, which nothing needs yet. *)
Lemma draft_inode s0 c i bytes synced s f' d' s' bytes' synced' :
  draft s0 c i bytes synced s -> private f' -> i_content f' = bytes' -> i_synced f' = synced' ->
  (forall f, inodes (on_disk s) !! i = Some f -> i_synced f = true -> i_synced f' = true /\ i_content f' = i_content f) ->
  d' = set_inode i f' (on_disk s) \/ d' = touch i (set_inode i f' (on_disk s)) ->
  moves s d' s' -> draft s0 c i bytes' synced' s'.
Proof.
  intros [I K E F O (f & Hf & Hp & Hb & Hs) Hix Hq] Hp' Hb' Hs' Hkeep Hd' M.
  assert (kept (on_disk s) (set_inode i f' (on_disk s))) as Kset by (eapply kept_set_inode; eauto).
  assert (kept (on_disk s) d') as K'.
  { destruct Hd' as [-> | ->]; [done|by apply kept_touch]. }
  assert (entries d' = entries (on_disk s) /\ (forall n v, possible d' n v -> possible (on_disk s) n v) /\
          inodes d' !! i = Some f') as (He & Hpos & Hi).
  { destruct Hd' as [-> | ->]; cbn; (split; [done|]); (split; [done|]); by rewrite lookup_insert_eq. }
  split; rewrite ?(moves_disk _ _ _ M).
  - eapply inv_kept; [done|done|]. intros n v Hv. left. by apply Hpos.
  - by eapply kept_trans.
  - by rewrite He.
  - done.
  - intros n Hn. by apply O, Hpos.
  - by exists f'.
  - by rewrite (moves_index _ _ _ M).
  - intros Hpl. by apply M, Hq.
Qed.

Lemma inv_append s0 c i bytes s k more :
  draft s0 c i bytes false s -> inv R (append (take k more) i (on_disk s)).
Proof.
  intros D. destruct D as [I K E F O (f & Hf & Hp & Hb & Hs) Hix Hq]. unfold append. rewrite Hf.
  eapply inv_kept; [done| |by auto].
  apply kept_touch. eapply kept_set_inode; [done|done|]. congruence.
Qed.

Lemma write_spec s0 c i bytes s :
  draft s0 c i [] false s ->
  wp_io (write_all bytes i)
    (fun _ s' => draft s0 c i bytes false s')
    (fun e s' => inv R (on_disk s') /\ plan s <> []) s.
Proof.
  intros D. pose proof (dr_file _ _ _ _ _ _ D) as (f & Hf & Hp & Hb & Hs).
  eapply wp_io_mono; [apply wp_partial; done|..].
  - intros [] s' [Hd M]. unfold sys_write, append in Hd. rewrite Hf in Hd. injection Hd as Hd.
    eapply draft_inode; [exact D| | | | |right; symmetry; exact Hd|exact M];
      [done|cbn; by rewrite Hb|done|]. intros g Hg Hgs. congruence.
  - intros e s' [[Hd|[k Hd]] Hq]; rewrite Hd; (split; [|intros Hpl; by destruct (Hq Hpl)]).
    + apply D.
    + by eapply inv_append.
Qed.

Lemma fsync_spec s0 c i bytes s :
  draft s0 c i bytes false s ->
  wp_io (sync_all i)
    (fun _ s' => draft s0 c i bytes true s')
    (fun e s' => inv R (on_disk s') /\ plan s <> []) s.
Proof.
  intros D. pose proof (dr_file _ _ _ _ _ _ D) as (f & Hf & Hp & Hb & Hs).
  eapply wp_io_mono; [apply wp_change|..]; unfold sys_fsync.
  - intros d e. by destruct (inodes d !! i).
  - intros [] s' [Hd M]. rewrite Hf in Hd. injection Hd as Hd.
    eapply draft_inode; [exact D| | | | |left; symmetry; exact Hd|exact M]; [done..|]. intros g Hg Hgs. congruence.
  - intros e s' (S1 & Hq & _). rewrite (same_disk _ _ S1). split; [apply D|].
    intros Hpl. destruct (Hq Hpl) as [k Hk]. by rewrite Hf in Hk.
Qed.

(** ** Publishing *)

Lemma register_spec r s :
  wp_io (register r)
    (fun _ s' => on_disk s' = on_disk s /\ register_index_record (index s) r = Ok (index s') /\ plan s' = plan s)
    (fun _ s' => on_disk s' = on_disk s /\ is_ok (register_index_record (index s) r) = false) s.
Proof.
  unfold register. apply wp_io_bind, wp_get, wp_io_bind, wp_lift.
  - intros m Hm. done.
  - intros e He. split; [done|]. by rewrite He.
Qed.

Lemma existing_job_spec id n s :
  wp_io (existing_job id n)
    (fun st s' => st = Existing /\ on_disk s' = on_disk s /\ (plan s = [] -> plan s' = []) /\
       exists r, reads (on_disk s) n 1 r /\ mj_message_id r = id /\ register_index_record (index s) r = Ok (index s'))
    (fun _ s' => on_disk s' = on_disk s /\
       (plan s = [] -> forall r, reads (on_disk s) n 1 r -> mj_message_id r = id ->
                         is_ok (register_index_record (index s) r) = false)) s.
Proof.
  unfold existing_job. eapply wp_seq; [apply read_record_spec|..].
  2:{ intros e s1 (S1 & Hq & _). split; [apply S1|]. intros Hp r Hr. by destruct (Hq Hp r). }
  intros r s1 [S1 Hr]. apply wp_io_bind, wp_check.
  2:{ intros Hne%negb_true_iff%str_eqb_neq. split; [apply S1|]. intros _ r' Hr' Hid.
      by rewrite (reads_unique _ _ _ _ _ _ Hr Hr') in Hid. }
  intros Hid%negb_false_iff%str_eqb_eq. eapply wp_seq; [apply register_spec|..]; rewrite (same_index _ _ S1).
  - intros [] s2 (Hd & Hix & Hpl). apply wp_ret. rewrite Hd, (same_disk _ _ S1). split; [done|]. split; [done|].
    split; [intros Hp; rewrite Hpl; by apply S1|]. by exists r.
  - intros e s2 (Hd & Hix). rewrite Hd, (same_disk _ _ S1). split; [done|]. intros _ r' Hr' _.
    by rewrite (reads_unique _ _ _ _ _ _ Hr Hr').
Qed.

Lemma remove_candidate_spec c s :
  inv R (on_disk s) -> candidate_name c ->
  wp_io (remove_candidate c) (fun _ s' => inv R (on_disk s')) (fun _ s' => inv R (on_disk s')) s.
Proof.
  intros I Hc. unfold remove_candidate. apply wp_io_bind, wp_attempt.
  eapply wp_io_mono; [apply remove_file_spec|..].
  - intros [] s1 (i & Hi & M).
    assert (inv R (on_disk s1)) as I1.
    { rewrite (moves_disk _ _ _ M). apply inv_unlink; [done|]. intros r _. by apply candidate_not_job. }
    eapply wp_io_mono; [apply sync_directory_spec, I1|..].
    + intros [] s2 M2. rewrite (moves_disk _ _ _ M2). by apply inv_sync.
    + intros e s2 [S2 _]. by rewrite (same_disk _ _ S2).
  - intros e s1 [S1 _]. rewrite <-(same_disk _ _ S1) in I. by destruct e as [[]| |].
Qed.

(** The state right after the link. *)
Record linked (s0 : machine) (c : list N) (i : N) (r : MessageJobRecord) (s : machine) : Prop := mkLinked {
  ln_inv : inv R (on_disk s);
  ln_kept : kept (on_disk s0) (on_disk s);
  ln_entries : entries (on_disk s) =
    <[message_job_path (mj_message_id r) := i]> (<[c := i]> (entries (on_disk s0)));
  ln_free : entries (on_disk s0) !! c = None /\ entries (on_disk s0) !! message_job_path (mj_message_id r) = None;
  ln_holds : holds (on_disk s) i r;
  ln_only : forall n, entries (on_disk s0) !! n <> Some i;
  ln_index : index s = index s0;
  ln_quiet : plan s0 = [] -> plan s = []
}.

Lemma link_spec s0 c i r bytes s :
  candidate_name c -> draft s0 c i bytes true s -> encode_message_job_record r = Ok bytes ->
  wp_io (hard_link c (message_job_path (mj_message_id r)))
    (fun _ s' => linked s0 c i r s')
    (fun e s' => same s s' /\
       (plan s = [] \/ e = IoError AlreadyExists ->
        is_Some (entries (on_disk s0) !! message_job_path (mj_message_id r)))) s.
Proof.
  intros Hc D He. destruct D as [I K E F O (f & Hf & Hp & Hb & Hs) Hix Hq].
  set (final := message_job_path (mj_message_id r)).
  assert (final <> c) as Hne by (by apply candidate_not_job).
  assert (entries (on_disk s) !! c = Some i) as Hci by (by rewrite E, lookup_insert_eq).
  assert (entries (on_disk s) !! final = entries (on_disk s0) !! final) as Hfe by (by rewrite E, lookup_insert_ne).
  eapply wp_io_mono; [apply wp_change|..]; unfold sys_link; rewrite ?Hci.
  - intros d e. destruct (entries d !! c), (entries d !! final); done.
  - intros [] s' [Hd M]. fold final in Hd. destruct (entries (on_disk s) !! final) as [?|] eqn:Ef; [done|].
    injection Hd as Hd.
    assert (kept (on_disk s) (touch i (set_entry final (Some i) (on_disk s)))) as K'
      by (by apply kept_same_inodes).
    assert (holds (on_disk s) i r) as Hh by (exists f; by rewrite Hb).
    split; rewrite <-?Hd.
    + split.
      * eapply (sound_add (on_disk s) _ final i); [apply I|done| | | |].
        -- intros m j [Hm|[-> [= ->]]]%(possible_set_entry final); auto.
        -- by exists f.
        -- right. by exists r.
        -- intros m Hcf _ _. by apply (candidate_not_job final r) in Hcf.
      * intros r' Hr'. pose proof (proj2 I r' Hr') as St. eapply stored_kept; eauto.
        intros v [Hv|[Hn _]]%(possible_set_entry final); [done|].
        apply stored_entry in St as (j & Hj & _). by rewrite Hn, Ef in Hj.
    + by eapply kept_trans.
    + cbn. by rewrite E.
    + done.
    + done.
    + intros n Hn. destruct (decide (n = c)) as [->|Hnc]; [congruence|].
      apply Hnc, O. left. by rewrite E, lookup_insert_ne.
    + by rewrite (moves_index _ _ _ M).
    + intros Hpl. by apply M, Hq.
  - intros e s' (S1 & Hpl & Hk). split; [done|]. fold final in Hpl, Hk. rewrite <-Hfe.
    destruct (entries (on_disk s) !! final) as [?|]; [by eauto|].
    intros [Hp'| ->]; [by destruct (Hpl Hp')|]. by specialize (Hk AlreadyExists eq_refl ltac:(done)).
Qed.

End operations.

Section publishing.
Context `{Kernel} `{RecordJson} `{Sha256}.
Context (R : MessageJobRecord -> Prop).

Definition also (r : MessageJobRecord) : MessageJobRecord -> Prop := fun r' => R r' \/ r' = r.

Lemma inv_also d r : inv (also r) d -> inv R d /\ stored d r.
Proof. intros [S I]. split; [|apply I; by right]. split; [done|]. intros r' Hr'. apply I. by left. Qed.

(** The queue has gained exactly [r]. *)
Record gained (s0 : machine) (r : MessageJobRecord) (s : machine) : Prop := mkGained {
  ga_inv : inv R (on_disk s);
  ga_stored : stored (on_disk s) r;
  ga_kept : kept (on_disk s0) (on_disk s);
  ga_entries : exists i, holds (on_disk s) i r /\
    entries (on_disk s) = <[message_job_path (mj_message_id r) := i]> (entries (on_disk s0));
  ga_index : register_index_record (index s0) r = Ok (index s);
  ga_quiet : plan s0 = [] -> plan s = []
}.

(** The steps after a successful link. *)
Lemma after_link_spec s0 c i r s :
  candidate_name c -> linked R s0 c i r s ->
  wp_io (sync_directory ;! register r ;! remove_file c ;! sync_directory ;!
         let! published := read_job_file (message_job_path (mj_message_id r)) in
         lift (fail_if (negb (bool_decide (published = r))) (Failed (lit "published message job changed"))) ;!
         ret Queued)
    (fun st s' => st = Queued /\ gained s0 r s')
    (fun e s' => inv R (on_disk s') /\ (plan s0 = [] -> is_ok (register_index_record (index s0) r) = false)) s.
Proof.
  intros Hc L. destruct L as [I K E [Fc Ff] Hh O Hix Hq]. set (final := message_job_path (mj_message_id r)) in *.
  assert (final <> c) as Hne by (by apply candidate_not_job).
  eapply wp_seq; [apply sync_directory_spec, I|..].
  2:{ intros e s1 [S1 Hp]. rewrite (same_disk _ _ S1). split; [done|]. intros Hpl. by destruct Hp; auto. }
  intros [] s1 M1.
  assert (inv (also r) (on_disk s1)) as I1.
  { rewrite (moves_disk _ _ _ M1). pose proof (inv_sync _ _ I) as [S2 I2]. split; [done|].
    intros r' [Hr' | ->]; [auto|]. exists i. split; [|done]. intros v ->%possible_sync.
    by rewrite E, lookup_insert_eq. }
  eapply wp_seq; [apply register_spec|..]; rewrite (moves_index _ _ _ M1), Hix.
  2:{ intros e s2 (Hd & Hno). rewrite Hd. split; [by eapply inv_also|done]. }
  intros [] s2 (Hd2 & Hix2 & Hpl2). rewrite <-Hd2 in I1.
  assert (plan s0 = [] -> plan s2 = []) as Hq2 by (intros Hpl; rewrite Hpl2; by apply M1, Hq).
  eapply wp_seq; [apply remove_file_spec|..].
  2:{ intros e s3 [S3 Hno]. rewrite (same_disk _ _ S3). split; [by eapply inv_also|]. intros Hpl.
      rewrite Hd2, (moves_disk _ _ _ M1) in Hno. cbn in Hno. rewrite E in Hno.
      rewrite lookup_insert_ne, lookup_insert_eq in Hno by done. by discriminate Hno; auto. }
  intros [] s3 (j & _ & M3).
  assert (inv (also r) (on_disk s3)) as I3.
  { rewrite (moves_disk _ _ _ M3). apply inv_unlink; [done|]. intros r' _. by apply candidate_not_job. }
  eapply wp_seq; [apply sync_directory_spec, I3|..].
  2:{ intros e s4 [S4 Hp]. rewrite (same_disk _ _ S4). split; [by eapply inv_also|]. intros Hpl.
      destruct Hp. by apply M3, Hq2. }
  intros [] s4 M4.
  assert (entries (on_disk s4) = <[final := i]> (entries (on_disk s0)) /\
          inodes (on_disk s4) = inodes (on_disk s) /\ next_ino (on_disk s4) = next_ino (on_disk s) /\
          root_dir (on_disk s4) = root_dir (on_disk s) /\ root_synced (on_disk s4) = root_synced (on_disk s))
    as (E4 & N4 & X4 & Rd4 & Rs4).
  { rewrite (moves_disk _ _ _ M4), (moves_disk _ _ _ M3), Hd2, (moves_disk _ _ _ M1). cbn.
    rewrite E. split; [|done]. apply map_eq. intros m. destruct (decide (m = c)) as [->|Hm].
    - by rewrite lookup_partial_alter_eq, lookup_insert_ne.
    - rewrite lookup_partial_alter_ne by done. destruct (decide (m = final)) as [->|Hf].
      + by rewrite !lookup_insert_eq.
      + by rewrite !lookup_insert_ne. }
  assert (inv (also r) (on_disk s4)) as [I4 St4]%inv_also.
  { rewrite (moves_disk _ _ _ M4). by apply inv_sync. }
  assert (holds (on_disk s4) i r) as Hh4.
  { destruct Hh as (f & Hf & Hr). exists f. by rewrite N4. }
  assert (reads (on_disk s4) final 1 r) as Hread.
  { assert (entries (on_disk s4) !! final = Some i) as Hfi by (by rewrite E4, lookup_insert_eq).
    destruct (sound_files _ (proj1 I4) final i) as (f & Hf & Hp); [by left|].
    exists i, f. split_and!; [done|done|done| |by eapply holds_encodes].
    apply (nlink_one _ final); [done|]. intros m Hm. apply dec_stable. intros Hnf.
    rewrite E4, lookup_insert_ne in Hm by done. by apply (O m). }
  assert (plan s0 = [] -> plan s4 = []) as Hq4 by (intros Hpl; by apply M4, M3, Hq2).
  eapply wp_seq; [apply read_record_spec|..].
  2:{ intros e s5 (S5 & Hno & _). rewrite (same_disk _ _ S5). split; [done|]. intros Hpl.
      by destruct (Hno (Hq4 Hpl) r). }
  intros r' s5 [S5 Hr']. rewrite (reads_unique _ _ _ _ _ _ Hread Hr').
  rewrite bool_decide_true by done. apply wp_io_bind, wp_ret, wp_ret. split; [done|].
  assert (index s5 = index s2) as Hix5.
  { by rewrite (same_index _ _ S5), (moves_index _ _ _ M4), (moves_index _ _ _ M3). }
  split; rewrite ?(same_disk _ _ S5); [done|done| | |by rewrite Hix5|intros Hpl; by apply S5, Hq4].
  - eapply kept_trans; [exact K|by apply kept_same_inodes].
  - by exists i.
Qed.

Lemma publish_spec s0 c i r bytes s :
  candidate_name c -> draft R s0 c i bytes true s -> encode_message_job_record r = Ok bytes ->
  wp_io (publish_candidate r c (message_job_path (mj_message_id r)))
    (fun st s' => (st = Queued /\ gained s0 r s') \/
       (st = Existing /\ inv R (on_disk s') /\ is_Some (entries (on_disk s0) !! message_job_path (mj_message_id r))))
    (fun e s' => inv R (on_disk s') /\
       (plan s0 = [] -> is_ok (register_index_record (index s0) r) = true ->
        is_Some (entries (on_disk s0) !! message_job_path (mj_message_id r)))) s.
Proof.
  intros Hc D He. unfold publish_candidate. apply wp_io_bind, wp_attempt.
  eapply wp_io_mono; [by eapply link_spec|..].
  - intros [] s1 L. eapply wp_io_mono; [by eapply after_link_spec|..].
    + intros st s2 Hg. by left.
    + intros e s2 [I2 Hno]. split; [done|]. intros Hpl Hok. rewrite Hno in Hok; done.
  - intros e s1 [S1 Hex].
    assert (inv R (on_disk s1)) as I1 by (rewrite (same_disk _ _ S1); apply D).
    assert (wp_io (remove_candidate c) (fun _ s' => inv R (on_disk s')) (fun _ s' => inv R (on_disk s')) s1)
      as Hrm by (by apply remove_candidate_spec).
    destruct e as [[]| |].
    2:{ assert (is_Some (entries (on_disk s0) !! message_job_path (mj_message_id r))) as Hsome by auto.
        eapply wp_seq; [exact Hrm| |].
        - intros [] s2 I2. eapply wp_io_mono; [apply existing_job_spec|..].
          + intros st s3 (-> & Hd & _). right. by rewrite Hd.
          + intros e s3 (Hd & _). by rewrite Hd.
        - intros e s2 I2. by split. }
    all: apply wp_io_bind, wp_attempt; eapply wp_io_mono; [exact Hrm|..];
      [intros [] s2 I2|intros e s2 I2]; apply wp_throw; (split; [done|]); intros Hpl _;
      apply Hex; left; by apply D.
Qed.

End publishing.
