(* ===== verification/MessageJobEffects.v ===== *)
(** * What an operation of the queue does as a whole

    One specification per operation of [MessageJobs.v]: under any faults the directory stays
    sound and no stored record is lost; without faults, on a directory the index represents,
    the operation fails only for the reasons of the interface. *)

From S2P Require Import Prelude Text Digest Webex FileSystem MessageJobs MessageJobRules MessageJobRecovery MessageJobOperations.

Local Open Scope N_scope.

Section effects.
Context `{Kernel} `{RecordJson} `{Sha256}.
Context (max : N).

(** Disk and memory of a queue at rest. *)
Record consistent (s : machine) : Prop := mkConsistent {
  cs_sound : sound (on_disk s);
  cs_jobs : jobs_only (on_disk s);
  cs_size : N.of_nat (size (entries (on_disk s))) <= max;
  cs_represents : represents (on_disk s) (index s)
}.

Lemma consistent_same s s' : consistent s -> same s s' -> consistent s'.
Proof. intros [] [Hd Hi _ _]. by split; rewrite ?Hd, ?Hi. Qed.

Lemma consistent_listable s : consistent s -> listable (on_disk s) max.
Proof. intros C. split; [|apply C]. apply jobs_only_consistent; apply C. Qed.

Lemma consistent_paths s : consistent s -> index_paths (index s) = dom (entries (on_disk s)).
Proof. intros C. apply represents_paths; [|apply C]. apply jobs_only_consistent; apply C. Qed.

Lemma represents_size d m :
  consistent_names d -> represents d m -> size m = size (entries d).
Proof.
  intros C Hm. rewrite <-(size_dom (D:=gset (list N)) (entries d)), <-(represents_paths d m C Hm).
  unfold index_paths. rewrite size_list_to_set.
  - change (map message_job_path ?l) with (message_job_path <$> l). by rewrite !length_fmap, length_map_to_list.
  - change (map message_job_path ?l) with (message_job_path <$> l). apply NoDup_fmap_2_strong; [|apply NoDup_fst_map_to_list].
    intros id1 id2 Ha Hb Heq.
    apply list_elem_of_fmap in Ha as ([k1 t1] & -> & Ha%elem_of_map_to_list).
    apply list_elem_of_fmap in Hb as ([k2 t2] & -> & Hb%elem_of_map_to_list). cbn in *.
    apply Hm in Ha as (r1 & Hr1 & Hid1 & _). apply Hm in Hb as (r2 & Hr2 & Hid2 & _).
    rewrite Heq in Hr1. by rewrite <-Hid1, <-Hid2, (reads_unique _ _ _ _ _ _ Hr1 Hr2).
Qed.

Lemma consistent_index_size s : consistent s -> N.of_nat (size (index s)) = N.of_nat (size (entries (on_disk s))).
Proof.
  intros C. f_equal. apply represents_size; [|apply C]. apply jobs_only_consistent; apply C.
Qed.

(** No other ID of the queue has the digest of [id]. *)
Definition no_collision (m : gmap str N) (id : str) : Prop :=
  forall id', is_Some (m !! id') -> message_job_path id' = message_job_path id -> id' = id.

Lemma consistent_lookup s id :
  consistent s -> no_collision (index s) id ->
  match entries (on_disk s) !! message_job_path id with
  | Some _ => exists r, reads (on_disk s) (message_job_path id) 1 r /\ mj_message_id r = id /\
                        index s !! id = Some (mj_enqueued_at_unix_nanos r)
  | None => index s !! id = None
  end.
Proof.
  intros C Hno. destruct (entries _ !! _) as [i|] eqn:Ei.
  - destruct (jobs_only_reads _ _ _ (cs_sound _ C) (cs_jobs _ C) Ei) as (r & Hr & Hp & _).
    assert (index s !! mj_message_id r = Some (mj_enqueued_at_unix_nanos r)) as Hix.
    { apply (cs_represents _ C). exists r. by rewrite Hp. }
    assert (mj_message_id r = id) as Hid by (apply Hno; eauto). exists r. by rewrite <-Hid at 3.
  - apply eq_None_not_Some. intros [t (r & Hr & _)%(cs_represents _ C)].
    apply reads_present in Hr as [i Hi]. congruence.
Qed.

Lemma consistent_own s s1 id r :
  consistent s -> no_collision (index s) id -> same s s1 -> reads (on_disk s1) (message_job_path id) 1 r ->
  mj_message_id r = id.
Proof.
  intros C Hno Hs Hr. rewrite (same_disk _ _ Hs) in Hr. pose proof (consistent_lookup s id C Hno) as Hl.
  destruct (reads_present _ _ _ _ Hr) as [i Hi]. rewrite Hi in Hl. destruct Hl as (r' & Hr' & Hid & _).
  by rewrite <-(reads_unique _ _ _ _ _ _ Hr Hr').
Qed.

(** Reading the file of [id] fails, without faults, only if [id] is not queued. *)
Lemma consistent_unread s s1 id (e : JobError) :
  consistent s -> no_collision (index s) id -> same s s1 -> plan s = [] ->
  (plan s1 = [] -> forall r, ~ reads (on_disk s1) (message_job_path id) 1 r) ->
  (plan s1 = [] -> entries (on_disk s1) !! message_job_path id = None -> e = IoError NotFound) ->
  e = IoError NotFound.
Proof.
  intros C Hno Hs Hp Hq Hmiss. pose proof (consistent_lookup s id C Hno) as Hl.
  rewrite <-(same_disk _ _ Hs) in Hl. apply (same_quiet _ _ Hs) in Hp.
  destruct (entries (on_disk s1) !! _) eqn:Ei; [|by apply Hmiss].
  destruct Hl as (r & Hr & _). by destruct (Hq Hp r).
Qed.

(** ** Consistency in terms of inodes *)

Lemma holds_unique d i r r' : holds d i r -> holds d i r' -> r' = r.
Proof. intros (f & Hf & _ & He) (f' & Hf' & _ & He'). simplify_eq. by eapply encode_inj. Qed.

Lemma reads_iff_holds d n r :
  sound d -> jobs_only d -> reads d n 1 r <-> exists i, entries d !! n = Some i /\ holds d i r.
Proof.
  intros S J. split.
  - intros Hr. pose proof Hr as (i & _ & Hi & _). destruct (jobs_only_reads d n i S J Hi) as (r' & Hr' & _ & Hh).
    rewrite (reads_unique _ _ _ _ _ _ Hr' Hr). eauto.
  - intros (i & Hi & Hh). destruct (jobs_only_reads d n i S J Hi) as (r' & Hr' & _ & Hh').
    by rewrite (holds_unique _ _ _ _ Hh' Hh).
Qed.

Lemma kept_reads d d' n n' i r :
  sound d -> jobs_only d -> sound d' -> jobs_only d' -> kept d d' ->
  entries d !! n = Some i -> entries d' !! n' = Some i -> reads d' n' 1 r <-> reads d n 1 r.
Proof.
  intros S J S' J' K Hi Hi'. rewrite !reads_iff_holds by done. split.
  - intros (j & Hj & Hh). simplify_eq. exists i. split; [done|].
    destruct (jobs_only_reads d n i S J Hi) as (r' & _ & _ & Hr').
    by rewrite (holds_unique _ _ _ _ (kept_holds _ _ _ _ K Hr') Hh).
  - intros (j & Hj & Hh). simplify_eq. exists i. eauto using kept_holds.
Qed.

Lemma consistent_removed s s' id :
  consistent s -> no_collision (index s) id -> sound (on_disk s') -> kept (on_disk s) (on_disk s') ->
  entries (on_disk s') = delete (message_job_path id) (entries (on_disk s)) ->
  index s' = delete id (index s) -> consistent s'.
Proof.
  intros C Hno S' K He Hix. pose proof C as [S J Hsz Hm].
  assert (jobs_only (on_disk s')) as J'.
  { intros n i Hi. rewrite He in Hi. apply lookup_delete_Some in Hi as [_ Hi]. by eapply J. }
  split; [done|done| |].
  - pose proof (map_subseteq_size _ _ (delete_subseteq (entries (on_disk s)) (message_job_path id))).
    rewrite He. lia.
  - intros id' t. rewrite Hix, lookup_delete_Some, (Hm id' t). split.
    + intros [Hne (r & Hr & Hid & Ht)]. exists r. split; [|done].
      pose proof Hr as (i & _ & Hi & _). apply (kept_reads (on_disk s) _ (message_job_path id') _ i); try done.
      rewrite He, lookup_delete_ne; [done|]. intros Hp. apply Hne. symmetry. apply Hno; [|done].
      exists t. apply Hm. eauto.
    + intros (r & Hr & Hid & Ht). pose proof Hr as (i & _ & Hi & _). pose proof Hi as Hi'.
      rewrite He in Hi. apply lookup_delete_Some in Hi as [Hne Hi].
      split; [by intros <-|]. exists r. split; [|done].
      by apply (kept_reads (on_disk s) (on_disk s') (message_job_path id') (message_job_path id') i).
Qed.

Lemma consistent_added s s' r :
  consistent s -> index s !! mj_message_id r = None ->
  entries (on_disk s) !! message_job_path (mj_message_id r) = None ->
  N.of_nat (size (entries (on_disk s))) < max ->
  sound (on_disk s') -> kept (on_disk s) (on_disk s') ->
  (exists i, holds (on_disk s') i r /\
    entries (on_disk s') = <[message_job_path (mj_message_id r) := i]> (entries (on_disk s))) ->
  index s' = <[mj_message_id r := mj_enqueued_at_unix_nanos r]> (index s) -> consistent s'.
Proof.
  intros C Hvac Hfree Hlt S' K (i & Hh & He) Hix. pose proof C as [S J Hsz Hm].
  assert (jobs_only (on_disk s')) as J'.
  { intros n j Hj. rewrite He in Hj. apply lookup_insert_Some in Hj as [[<- _]|[_ Hj]]; [apply job_path_name|].
    by eapply J. }
  assert (reads (on_disk s') (message_job_path (mj_message_id r)) 1 r) as Hread.
  { apply reads_iff_holds; [done..|]. exists i. by rewrite He, lookup_insert_eq. }
  split; [done|done| |].
  - rewrite He, map_size_insert_None by done. lia.
  - intros id t. rewrite Hix, lookup_insert_Some. rewrite (Hm id t). split.
    + intros [[<- <-]|[Hne (r' & Hr' & Hid & Ht)]]; [by exists r|]. exists r'. split; [|done].
      pose proof Hr' as (j & _ & Hj & _). apply (kept_reads (on_disk s) _ (message_job_path id) _ j); try done.
      rewrite He, lookup_insert_ne; [done|]. intros Hp. congruence.
    + intros (r' & Hr' & Hid & Ht). destruct (decide (message_job_path (mj_message_id r) = message_job_path id)) as [Hp|Hp].
      * rewrite <-Hp in Hr'. rewrite (reads_unique _ _ _ _ _ _ Hread Hr') in Hid, Ht. by left.
      * right. split; [by intros <-|]. exists r'. split; [|done].
        pose proof Hr' as (j & _ & Hj & _). pose proof Hj as Hj'. rewrite He, lookup_insert_ne in Hj by done.
        by apply (kept_reads (on_disk s) (on_disk s') (message_job_path id) (message_job_path id) j).
Qed.

Section faults.
Context (R : MessageJobRecord -> Prop).

Lemma register_all_spec rs s :
  wp_io (register_all rs) (fun _ s' => on_disk s' = on_disk s) (fun _ s' => on_disk s' = on_disk s) s.
Proof.
  revert s. induction rs as [|r rs IH]; intros s; [by apply wp_ret|]. cbn [register_all].
  eapply wp_seq; [apply register_spec|..].
  - intros [] s1 (Hd & _). rewrite <-Hd. apply IH.
  - by intros e s1 [Hd _].
Qed.

Lemma prepare_root_spec s :
  inv R (on_disk s) ->
  wp_io (prepare_root_sync max)
    (fun _ s' => inv R (on_disk s') /\ (jobs_only (on_disk s) -> same s s'))
    (fun _ s' => inv R (on_disk s') /\
       (plan s = [] -> jobs_only (on_disk s) -> max < N.of_nat (size (entries (on_disk s))))) s.
Proof.
  intros I. unfold prepare_root_sync. eapply wp_seq; [apply ensure_root_spec, I|..].
  2:{ intros e s1 [S1 Hp]. by rewrite (same_disk _ _ S1). }
  intros [] s1 S1. eapply wp_seq; [apply (recover_candidates_spec R)|..]; rewrite ?(same_disk _ _ S1); [done|..].
  2:{ intros e s2 (I2 & _ & Hq). split; [done|]. intros Hpl J. apply (same_quiet _ _ S1) in Hpl.
      destruct (Hq Hpl) as [Hc|Hc].
      - rewrite <-names_size. unfold jobs_in in Hc.
        assert (len (List.filter job_nameb (names_on (on_disk s))) <= len (names_on (on_disk s)));
          [|lia]. unfold len. pose proof (List.filter_length_le job_nameb (names_on (on_disk s))). lia.
      - rewrite jobs_only_candidates in Hc by done. lia. }
  intros recs s2 (Rc & _ & _ & _ & _ & Hidle).
  destruct recs as [|r recs].
  - apply wp_ret. split; [apply Rc|]. intros J. etrans; [done|]. by apply Hidle.
  - eapply wp_io_mono; [apply register_all_spec|..].
    + intros [] s3 Hd. rewrite Hd. split; [apply Rc|]. intros J. by destruct (Hidle J).
    + intros e s3 Hd. rewrite Hd. split; [apply Rc|]. intros _ J. by destruct (Hidle J).
Qed.

(** A chain that starts with the checks and the preparation every operation makes. *)
Lemma prepared {A} (k : io A) Q E s :
  inv R (on_disk s) ->
  (forall s', inv R (on_disk s') -> (jobs_only (on_disk s) -> same s s') -> wp_io k Q E s') ->
  (forall e s', inv R (on_disk s') -> (plan s = [] -> ~ consistent s) -> E e s') ->
  wp_io (prepare_root_sync max ;! k) Q E s.
Proof.
  intros I Hk He. eapply wp_seq; [by apply prepare_root_spec|..].
  - intros [] s1 [I1 Hs]. auto.
  - intros e s1 [I1 Hq]. apply He; [done|]. intros Hp C. pose proof (cs_size _ C). pose proof (Hq Hp (cs_jobs _ C)). lia.
Qed.

Lemma load_sync_spec id s :
  inv R (on_disk s) ->
  wp_io (load_sync max id)
    (fun o s' => inv R (on_disk s') /\ (forall r, R r -> mj_message_id r = id -> o = Some r) /\
       (consistent s -> no_collision (index s) id -> same s s' /\
          match o with
          | Some r => reads (on_disk s) (message_job_path id) 1 r /\ mj_message_id r = id
          | None => index s !! id = None
          end))
    (fun e s' => inv R (on_disk s') /\
       (plan s = [] -> consistent s -> no_collision (index s) id -> validate_message_id id = Err e /\ same s s')) s.
Proof.
  intros I. unfold load_sync. apply wp_io_bind, wp_lift; [|by intros e He].
  intros [] _. apply prepared; [done| |intros e s1 I1 Hno; split; [done|intros Hp C; by destruct (Hno Hp)]].
  intros s1 I1 Hs. apply wp_io_bind, wp_attempt.
  eapply wp_io_mono; [apply wp_io_and; [apply read_record_spec|apply read_missing]|..].
  - intros r s2 [[S2 Hr] _]. apply wp_io_bind, wp_check.
    2:{ intros Hne%negb_true_iff%str_eqb_neq. rewrite (same_disk _ _ S2). split; [done|]. intros _ C Hno.
        destruct Hne. eapply consistent_own; eauto using cs_jobs. }
    intros Hid%negb_false_iff%str_eqb_eq. apply wp_ret. rewrite (same_disk _ _ S2). split; [done|]. split.
    + intros r' Hr' Hid'. destruct (stored_entry _ _ (proj2 I1 r' Hr')) as (i & Hi & Hh).
      destruct Hr as (j & f & Hj & Hf & _ & _ & He). rewrite Hid' in Hi. simplify_eq.
      f_equal. eapply encode_inj; [exact He|]. by eapply holds_encodes.
    + intros C Hno. specialize (Hs (cs_jobs _ C)). split; [by etrans|].
      by rewrite <-(same_disk _ _ Hs).
  - intros e s2 [(S2 & Hq & Hnf) Hmiss]. rewrite <-(same_disk _ _ S2) in I1.
    assert (consistent s -> no_collision (index s) id -> plan s = [] -> e = IoError NotFound) as Hc.
    { intros C Hno Hp. eapply consistent_unread; eauto using cs_jobs. }
    destruct e as [[]| |]; try (apply wp_throw; split; [done|]; intros Hp C Hno; by specialize (Hc C Hno Hp)).
    apply wp_io_bind, wp_get. specialize (Hnf eq_refl). destruct (index s2 !! id) as [t|] eqn:Eix.
    + apply wp_throw. split; [done|]. intros Hp C Hno. specialize (Hs (cs_jobs _ C)).
      rewrite (same_index _ _ S2), (same_index _ _ Hs) in Eix.
      apply (cs_represents _ C) in Eix as (r & Hr & _). rewrite <-(same_disk _ _ Hs) in Hr.
      apply reads_present in Hr as [i Hi]. congruence.
    + apply wp_ret. split; [done|]. split.
      * intros r Hr Hid. destruct (stored_entry _ _ (proj2 I1 r Hr)) as (i & Hi & _).
        rewrite (same_disk _ _ S2), Hid in Hi. congruence.
      * intros C Hno. specialize (Hs (cs_jobs _ C)). split; [by etrans|].
        by rewrite <-(same_index _ _ Hs), <-(same_index _ _ S2).
Qed.

(** ** Removing *)

Lemma remove_found_spec id s0 s :
  inv R (on_disk s) -> (forall r, R r -> mj_message_id r <> id) -> reads (on_disk s) (message_job_path id) 1 s0 ->
  mj_message_id s0 = id ->
  wp_io (remove_file (message_job_path id) ;!
         (let! s := get in put_index (delete id (index s))) ;! sync_directory ;! ret true)
    (fun b s' => b = true /\ inv R (on_disk s') /\ kept (on_disk s) (on_disk s') /\
       entries (on_disk s') = delete (message_job_path id) (entries (on_disk s)) /\
       index s' = delete id (index s) /\ runtime_unhealthy s' = runtime_unhealthy s /\
       (plan s = [] -> plan s' = []) /\
       forall v, possible (on_disk s') (message_job_path id) v -> v = None)
    (fun _ s' => inv R (on_disk s') /\ plan s <> []) s.
Proof.
  intros I Hother Hread Hid. destruct (reads_present _ _ _ _ Hread) as [i0 Hi0].
  eapply wp_seq; [apply remove_file_spec|..].
  2:{ intros e s1 [S1 Hno]. rewrite (same_disk _ _ S1). split; [done|]. intros Hp.
      rewrite Hno in Hi0; [done|by left]. }
  intros [] s1 (i & Hi & M).
  assert (inv R (on_disk s1)) as I1.
  { rewrite (moves_disk _ _ _ M). apply inv_unlink; [done|]. intros r Hr Hp. apply (Hother r Hr).
    destruct (stored_entry _ _ (proj2 I r Hr)) as (j & Hj & f & Hf & _ & He). rewrite Hp in Hj.
    destruct Hread as (j' & f' & Hj' & Hf' & _ & _ & He'). simplify_eq. by rewrite (encode_inj _ _ _ He He'). }
  apply wp_io_bind, wp_io_bind, wp_get. cbn.
  eapply (wp_seq _ _ (fun _ s' => moves (with_index (delete id (index s1)) s1) (sync_entries (on_disk s1)) s')).
  - by apply (sync_directory_spec (with_index (delete id (index s1)) s1)), I1.
  - intros [] s2 M2. apply wp_ret. split; [done|].
    rewrite (moves_disk _ _ _ M2), (moves_index _ _ _ M2), (moves_healthy _ _ _ M2). cbn [index with_index runtime_unhealthy].
    rewrite (moves_index _ _ _ M), (moves_healthy _ _ _ M). split; [by apply inv_sync|]. rewrite (moves_disk _ _ _ M).
    split; [by apply kept_same_inodes|]. split; [done|]. split; [done|]. split; [done|]. split.
    + intros Hp. apply M2. cbn. by apply M.
    + intros v ->%possible_sync. cbn. by rewrite lookup_partial_alter_eq.
  - intros e s2 [S2 Hp]. rewrite (same_disk _ _ S2). split; [done|]. intros Hpl. apply Hp. cbn. by apply M.
Qed.

Lemma remove_sync_spec id s :
  inv R (on_disk s) -> (forall r, R r -> mj_message_id r <> id) ->
  wp_io (remove_sync max id)
    (fun b s' => inv R (on_disk s') /\
       (b = true -> forall v, possible (on_disk s') (message_job_path id) v -> v = None) /\
       (consistent s -> no_collision (index s) id -> plan s = [] ->
          consistent s' /\ plan s' = [] /\ index s' = delete id (index s) /\
          runtime_unhealthy s' = runtime_unhealthy s /\ b = bool_decide (is_Some (index s !! id))))
    (fun e s' => inv R (on_disk s') /\
       (plan s = [] -> consistent s -> no_collision (index s) id -> validate_message_id id = Err e /\ same s s')) s.
Proof.
  intros I Hother. unfold remove_sync. apply wp_io_bind, wp_lift; [|by intros e He].
  intros [] _. apply prepared; [done| |intros e s1 I1 Hno; split; [done|intros Hp C; by destruct (Hno Hp)]].
  intros s1 I1 Hs. apply wp_io_bind, wp_attempt.
  eapply wp_io_mono; [apply wp_io_and; [apply read_record_spec|apply read_missing]|..].
  - intros r s2 [[S2 Hr] _]. apply wp_io_bind, wp_check.
    2:{ intros Hne%negb_true_iff%str_eqb_neq. rewrite (same_disk _ _ S2). split; [done|]. intros _ C Hno.
        destruct Hne. eapply consistent_own; eauto using cs_jobs. }
    intros Hid%negb_false_iff%str_eqb_eq. rewrite <-(same_disk _ _ S2) in I1, Hr.
    eapply wp_io_mono; [by eapply remove_found_spec|..].
    + intros b s3 (-> & I3 & K & He & Hix & Hh & Hq & Hgone). split; [done|]. split; [done|].
      intros C Hno Hp. specialize (Hs (cs_jobs _ C)). assert (same s s2) as S02 by by etrans.
      rewrite (same_disk _ _ S02) in K, He, Hr. rewrite (same_index _ _ S02) in Hix.
      split; [eapply consistent_removed; eauto; apply I3|]. split; [by apply Hq, S02|]. split; [done|].
      split; [by rewrite Hh, (same_healthy _ _ S02)|]. rewrite bool_decide_true; [done|].
      exists (mj_enqueued_at_unix_nanos r). apply (cs_represents _ C). eauto.
    + intros e s3 [I3 Hpl]. split; [done|]. intros Hp C _. destruct Hpl. apply S2.
      by apply (same_quiet _ _ (Hs (cs_jobs _ C))).
  - intros e s2 [(S2 & Hq & Hnf) Hmiss]. rewrite <-(same_disk _ _ S2) in I1.
    assert (consistent s -> no_collision (index s) id -> plan s = [] -> e = IoError NotFound) as Hc.
    { intros C Hno Hp. eapply consistent_unread; eauto using cs_jobs. }
    destruct e as [[]| |]; try (apply wp_throw; split; [done|]; intros Hp C Hno; by specialize (Hc C Hno Hp)).
    apply wp_ret. split; [done|]. split; [done|]. intros C Hno Hp. specialize (Hs (cs_jobs _ C)).
    assert (same s s2) as S02 by by etrans. specialize (Hnf eq_refl).
    pose proof (consistent_lookup s id C Hno) as Hl. rewrite <-(same_disk _ _ Hs), Hnf in Hl.
    split; [by eapply consistent_same|]. split; [by apply S02|].
    rewrite (same_index _ _ S02), delete_id by done. split; [done|]. split; [apply S02|].
    by rewrite Hl, bool_decide_false by by intros [].
Qed.

(** ** Listing *)

Lemma pending_sync_spec excluded limit s :
  inv R (on_disk s) ->
  wp_io (pending_message_ids_sync max excluded limit)
    (fun ids s' => inv R (on_disk s') /\ (consistent s -> same s s' /\ ids = pending_of (index s) excluded limit))
    (fun _ s' => inv R (on_disk s') /\ (plan s = [] -> ~ consistent s)) s.
Proof.
  intros I. unfold pending_message_ids_sync. apply prepared; [done| |done].
  intros s1 I1 Hs. destruct (N.eqb_spec limit 0) as [->|Hl].
  { apply wp_ret. split; [done|]. intros C. split; [by apply Hs, C|].
    unfold pending_of. by destruct (stable_sort _ _). }
  eapply wp_seq; [apply checked_job_files_spec|..].
  - intros paths s2 [S2 _]. apply wp_io_bind, wp_get, wp_ret. rewrite (same_disk _ _ S2). split; [done|].
    intros C. specialize (Hs (cs_jobs _ C)). assert (same s s2) as S02 by by etrans.
    split; [done|]. by rewrite (same_index _ _ S02).
  - intros e s2 [S2 Hq]. rewrite (same_disk _ _ S2). split; [done|]. intros Hp C. specialize (Hs (cs_jobs _ C)).
    destruct (sound_root _ (cs_sound _ C)) as (r & Hr & _).
    apply Hq; rewrite ?(same_disk _ _ Hs), ?(same_index _ _ Hs); [by apply Hs|by rewrite Hr|].
    split; [by apply consistent_listable|by apply consistent_paths].
Qed.

Lemma pending_count_sync_spec s :
  inv R (on_disk s) ->
  wp_io (pending_count_sync max)
    (fun n s' => inv R (on_disk s') /\ (consistent s -> same s s' /\ n = N.of_nat (size (index s))))
    (fun _ s' => inv R (on_disk s') /\ (plan s = [] -> ~ consistent s)) s.
Proof.
  intros I. unfold pending_count_sync. apply prepared; [done| |done].
  intros s1 I1 Hs. eapply wp_seq; [apply checked_job_files_spec|..].
  - intros paths s2 [S2 Hlen]. apply wp_ret. rewrite (same_disk _ _ S2). split; [done|].
    intros C. specialize (Hs (cs_jobs _ C)). split; [by etrans|].
    by rewrite Hlen, (same_disk _ _ Hs), consistent_index_size.
  - intros e s2 [S2 Hq]. rewrite (same_disk _ _ S2). split; [done|]. intros Hp C. specialize (Hs (cs_jobs _ C)).
    destruct (sound_root _ (cs_sound _ C)) as (r & Hr & _).
    apply Hq; rewrite ?(same_disk _ _ Hs), ?(same_index _ _ Hs); [by apply Hs|by rewrite Hr|].
    split; [by apply consistent_listable|by apply consistent_paths].
Qed.

(** ** Enqueueing *)

Definition job_record (id : str) (t : N) : MessageJobRecord :=
  mkMessageJobRecord MESSAGE_JOB_RECORD_VERSION id t (persisted_message_event id).

Lemma persisted_event_valid id : validate_message_event id (persisted_message_event id) = Ok tt.
Proof.
  assert (json_get (lit "id") (JObject [(lit "id", JString id)]) = Some (JString id)) as Hj by done.
  unfold validate_message_event, persisted_message_event. cbn [version resource event data]. rewrite Hj. cbn [mbind option_bind json_as_str is_some_and].
  by rewrite !str_eqb_refl.
Qed.

Lemma job_record_valid id t : validate_message_id id = Ok tt -> validate_record (job_record id t) = Ok tt.
Proof.
  intros Hv. unfold validate_record, job_record. cbn [mj_version mj_message_id mj_event].
  rewrite Hv, persisted_event_valid. cbn. by rewrite bool_decide_true.
Qed.

Lemma message_id_length id : validate_message_id id = Ok tt -> byte_len id <= 1024.
Proof.
  intros Hv. unfold validate_message_id in Hv. apply then_ok in Hv as [Hv _]. apply fail_if_ok in Hv.
  apply orb_false_iff in Hv as [_ Hv%N.ltb_ge]. done.
Qed.

Lemma job_record_encodes id t :
  validate_message_id id = Ok tt -> t <= u64_max ->
  exists bytes, encode_message_job_record (job_record id t) = Ok bytes.
Proof.
  intros Hv Ht. exists (to_vec (job_record id t) ++ [10]). apply encode_ok.
  pose proof (job_record_valid id t Hv) as Hr. split; [done|]. split; [done|].
  assert (len (to_vec (job_record id t)) <= 512 + 12 * byte_len id) as Hl.
  { apply (to_vec_length (job_record id t)); [by rewrite Hr|done]. }
  apply message_id_length in Hv. rewrite len_app. unfold MAX_MESSAGE_JOB_RECORD_BYTES.
  rewrite len_cons, len_nil. lia.
Qed.

(** The steps once the queue is known to have room. *)
Lemma enqueue_new_spec id s :
  inv R (on_disk s) -> validate_message_id id = Ok tt ->
  wp_io (let! now := unix_nanos_now in
         let record := mkMessageJobRecord MESSAGE_JOB_RECORD_VERSION id now (persisted_message_event id) in
         let! bytes := lift (encode_message_job_record record) in
         let! candidate := candidate_path in
         let! file := create_private_file candidate in
         write_all bytes file ;!
         sync_all file ;!
         publish_candidate record candidate (message_job_path id))
    (fun st s' => (st = Queued /\ exists s0 t, t <= u64_max /\ same s s0 /\ gained R s0 (job_record id t) s') \/
       (st = Existing /\ inv R (on_disk s') /\ is_Some (entries (on_disk s) !! message_job_path id)))
    (fun e s' => inv R (on_disk s') /\
       (plan s = [] -> jobs_only (on_disk s) -> index s !! id = None ->
        is_Some (entries (on_disk s) !! message_job_path id))) s.
Proof.
  intros I Hv. unfold unix_nanos_now. apply wp_io_bind, wp_io_bind, wp_get, wp_ret.
  set (t := N.min (clock_nanos (ticks s)) u64_max).
  fold (job_record id t). assert (t <= u64_max) as Ht by lia.
  destruct (job_record_encodes id t Hv Ht) as [bytes Hb]. rewrite Hb. apply wp_io_bind, wp_ret.
  apply wp_io_bind. cbn [candidate_path].
  set (c := as_bytes (MESSAGE_JOB_CANDIDATE_PREFIX ++ decimal (process_id s) ++ lit "-" ++ decimal (next_candidate_id s))).
  set (s0 := with_candidate_id ((next_candidate_id s + 1) mod 2 ^ 64) s).
  change (wp_io (let! file := create_private_file c in
         write_all bytes file ;! sync_all file ;!
         publish_candidate (job_record id t) c (message_job_path id))
    (fun st s' => (st = Queued /\ exists s0 t, t <= u64_max /\ same s s0 /\ gained R s0 (job_record id t) s') \/
       (st = Existing /\ inv R (on_disk s') /\ is_Some (entries (on_disk s) !! message_job_path id)))
    (fun e s' => inv R (on_disk s') /\
       (plan s = [] -> jobs_only (on_disk s) -> index s !! id = None ->
        is_Some (entries (on_disk s) !! message_job_path id))) s0).
  assert (candidate_name c) as Hc by apply candidate_path_name.
  eapply wp_seq; [by apply (create_spec R c s0)|..].
  2:{ intros e s1 [I1 Hq]. split; [done|]. intros Hp J _. exfalso. apply (Hq Hp).
      apply eq_None_not_Some. intros [i Hi]. apply (names_disjoint c); [by eapply J|done]. }
  intros i s1 D1. eapply wp_seq; [by apply (write_spec R s0 c i bytes)|..].
  2:{ intros e s2 [I2 Hq]. split; [done|]. intros Hp. destruct Hq; by apply D1. }
  intros [] s2 D2. eapply wp_seq; [by eapply (fsync_spec R s0 c i bytes)|..].
  2:{ intros e s3 [I3 Hq]. split; [done|]. intros Hp. destruct Hq; by apply D2. }
  intros [] s3 D3. eapply wp_io_mono; [by apply (publish_spec R s0 c i (job_record id t) bytes)|..].
  - intros st s4 [[-> Hg]|(-> & I4 & Hsome)]; [left|by right]. split; [done|]. exists s0, t.
    split; [done|]. split; [by split|done].
  - intros e s4 [I4 Hq]. split; [done|]. intros Hp _ Hix. apply Hq; [done|].
    unfold register_index_record. change (index s0 !! mj_message_id (job_record id t)) with (index s !! id). by rewrite Hix.
Qed.

Lemma exists_spec n s :
  wp_io (syscall no_effect (sys_exists n))
    (fun b s' => same s s' /\ (entries (on_disk s) !! n = None -> b = false) /\
       (forall links r, reads (on_disk s) n links r -> b = true))
    (fun _ s' => same s s' /\ (plan s = [] -> exists i, entries (on_disk s) !! n = Some i /\ inodes (on_disk s) !! i = None)) s.
Proof.
  eapply wp_io_mono; [apply wp_read, sys_exists_fixed|..]; unfold sys_exists.
  - intros b s' [S1 Hb]. split; [done|]. split.
    + intros Hn. rewrite Hn in Hb. by injection Hb.
    + intros links r (i & f & Hi & Hf & [Ht _] & _). rewrite Hi, Hf in Hb. cbn in Hb. rewrite Ht in Hb. by injection Hb.
  - intros e s' (S1 & Hq & _). split; [done|]. intros Hp. destruct (Hq Hp) as [k Hk].
    destruct (entries _ !! n) as [i|]; [|done]. exists i. split; [done|].
    destruct (inodes _ !! i) as [f|]; [|done]. cbn in Hk. by destruct (i_type f).
Qed.

(** What [enqueue_sync] answers on a consistent queue, and the index it leaves. *)
Definition enqueued (m : gmap str N) (id : str) (st : MessageJobEnqueueStatus) (m' : gmap str N) : Prop :=
  match m !! id with
  | Some _ => st = Existing /\ m' = m
  | None => st = Queued /\ N.of_nat (size m) < max /\ exists t, t <= u64_max /\ m' = <[id := t]> m
  end.

Lemma existing_branch_spec id s s1 :
  inv R (on_disk s1) -> (jobs_only (on_disk s) -> same s s1) ->
  (consistent s -> is_Some (entries (on_disk s) !! message_job_path id)) ->
  wp_io (existing_job id (message_job_path id))
    (fun st s' => inv R (on_disk s') /\ st = Existing /\
       (consistent s -> no_collision (index s) id -> plan s = [] ->
          consistent s' /\ plan s' = [] /\ enqueued (index s) id st (index s')))
    (fun _ s' => inv R (on_disk s') /\ (plan s = [] -> consistent s -> no_collision (index s) id -> False)) s1.
Proof.
  intros I1 Hs Hsome. eapply wp_io_mono; [apply existing_job_spec|..].
  - intros st s2 (-> & Hd & Hq & r & Hr & Hid & Hreg). rewrite Hd. split; [done|]. split; [done|].
    intros C Hno Hp. specialize (Hs (cs_jobs _ C)). destruct (Hsome C) as [i Hi].
    pose proof (consistent_lookup s id C Hno) as Hl. rewrite Hi in Hl. destruct Hl as (r' & Hr' & _ & Hix).
    rewrite (same_disk _ _ Hs) in Hr. rewrite (reads_unique _ _ _ _ _ _ Hr' Hr) in Hreg, Hid.
    assert (index s2 = index s) as Hsame.
    { unfold register_index_record in Hreg. rewrite (same_index _ _ Hs), Hid, Hix, N.eqb_refl in Hreg.
      by injection Hreg. }
    split; [|split].
    + destruct C. split; rewrite ?Hd, ?(same_disk _ _ Hs), ?Hsame; done.
    + by apply Hq, Hs.
    + unfold enqueued. by rewrite Hix, Hsame.
  - intros e s2 (Hd & Hq). rewrite Hd. split; [done|]. intros Hp C Hno.
    specialize (Hs (cs_jobs _ C)). destruct (Hsome C) as [i Hi].
    pose proof (consistent_lookup s id C Hno) as Hl. rewrite Hi in Hl. destruct Hl as (r' & Hr' & Hid & Hix).
    rewrite <-(same_disk _ _ Hs) in Hr'.
    specialize (Hq (same_quiet _ _ Hs Hp) r' Hr' Hid). unfold register_index_record in Hq.
    by rewrite (same_index _ _ Hs), Hid, Hix, N.eqb_refl in Hq.
Qed.

Lemma gained_consistent s s0 s' id t :
  consistent s -> same s s0 -> index s !! id = None -> entries (on_disk s) !! message_job_path id = None ->
  N.of_nat (size (index s)) < max -> gained R s0 (job_record id t) s' ->
  consistent s' /\ index s' = <[id := t]> (index s).
Proof.
  intros C Hs Hix He Hlt [I St K En Hreg Hq].
  rewrite (same_disk _ _ Hs) in K, En. rewrite (same_index _ _ Hs) in Hreg.
  assert (index s' = <[id := t]> (index s)) as Hi.
  { unfold register_index_record in Hreg. change (mj_message_id (job_record id t)) with id in Hreg.
    rewrite Hix in Hreg. by injection Hreg. }
  split; [|done]. apply (consistent_added s s' (job_record id t)); try done.
  - by rewrite <-consistent_index_size.
  - apply I.
Qed.

Lemma enqueue_sync_spec id e s :
  inv R (on_disk s) ->
  wp_io (enqueue_sync max id e)
    (fun st s' => inv R (on_disk s') /\ (st = Queued -> exists t, stored (on_disk s') (job_record id t)) /\
       (consistent s -> no_collision (index s) id -> plan s = [] ->
          consistent s' /\ plan s' = [] /\ enqueued (index s) id st (index s')))
    (fun err s' => inv R (on_disk s') /\
       (plan s = [] -> consistent s -> no_collision (index s) id ->
          same s s' /\
          ((validate_message_id id ;? validate_message_event id e) = Err err \/
           (err = BacklogFull max /\ index s !! id = None /\ max <= N.of_nat (size (index s)))))) s.
Proof.
  intros I. unfold enqueue_sync. apply wp_io_bind, wp_lift.
  2:{ intros err He. split; [done|]. intros _ _ _. split; [done|]. left. by rewrite He. }
  intros [] Hv. apply wp_io_bind, wp_lift.
  2:{ intros err He. split; [done|]. intros _ _ _. split; [done|]. left. by rewrite Hv. }
  intros [] Hve. apply prepared; [done| |].
  2:{ intros err s1 I1 Hno. split; [done|]. intros Hp C. by destruct (Hno Hp). }
  intros s1 I1 Hs. eapply wp_seq; [apply exists_spec|..].
  2:{ intros err s2 [S2 Hq]. rewrite (same_disk _ _ S2). split; [done|]. intros Hp C Hno. exfalso.
      specialize (Hs (cs_jobs _ C)). destruct (Hq (same_quiet _ _ Hs Hp)) as (i & Hi & Hn).
      rewrite (same_disk _ _ Hs) in Hi, Hn. destruct (sound_files _ (cs_sound _ C) _ i (or_introl (eq_sym Hi))) as (f & Hf & _).
      congruence. }
  intros b s2 (S2 & Habsent & Hpresent). rewrite <-(same_disk _ _ S2) in I1.
  assert (jobs_only (on_disk s) -> same s s2) as Hs2 by (intros J; etrans; [by apply Hs|done]).
  destruct b.
  { eapply wp_io_mono; [apply (existing_branch_spec id s s2); [done|done|]|..].
    - intros C. apply not_eq_None_Some. intros Hn. specialize (Hs (cs_jobs _ C)).
      rewrite (same_disk _ _ Hs) in Habsent. by specialize (Habsent Hn).
    - intros st s3 (I3 & -> & Hc). by split.
    - intros err s3 [I3 Hc]. split; [done|]. intros Hp C Hno. by destruct (Hc Hp C Hno). }
  assert (consistent s -> no_collision (index s) id ->
          entries (on_disk s) !! message_job_path id = None /\ index s !! id = None) as Hfree.
  { intros C Hno. specialize (Hs (cs_jobs _ C)). pose proof (consistent_lookup s id C Hno) as Hl.
    destruct (entries (on_disk s) !! _) eqn:Ei; [|done]. destruct Hl as (r & Hr & _).
    rewrite <-(same_disk _ _ Hs) in Hr. by specialize (Hpresent _ _ Hr). }
  eapply wp_seq; [apply checked_job_files_spec|..].
  2:{ intros err s3 [S3 Hq]. rewrite (same_disk _ _ S3). split; [done|]. intros Hp C Hno. exfalso.
      specialize (Hs2 (cs_jobs _ C)). destruct (sound_root _ (cs_sound _ C)) as (r & Hr & _).
      apply (Hq (same_quiet _ _ Hs2 Hp)); rewrite ?(same_disk _ _ Hs2), ?(same_index _ _ Hs2); [by rewrite Hr|].
      split; [by apply consistent_listable|by apply consistent_paths]. }
  intros paths s3 [S3 Hlen]. rewrite <-(same_disk _ _ S3) in I1.
  assert (jobs_only (on_disk s) -> same s s3) as Hs3 by (intros J; etrans; [by apply Hs2|done]).
  assert (consistent s -> len paths = N.of_nat (size (index s))) as Hsize.
  { intros C. by rewrite Hlen, (same_disk _ _ (Hs2 (cs_jobs _ C))), consistent_index_size. }
  destruct (N.leb_spec max (len paths)) as [Hfull|Hroom].
  { apply wp_throw. split; [done|]. intros Hp C Hno. split; [by apply Hs3, C|]. right. split; [done|].
    split; [by apply Hfree|]. by rewrite <-Hsize. }
  eapply wp_io_mono; [by apply enqueue_new_spec|..].
  - intros st s4 [(-> & s0 & t & Ht & S0 & Hg)|(-> & I4 & [i Hi])].
    + split; [apply Hg|]. split; [intros _; exists t; by destruct Hg|]. intros C Hno Hp.
      specialize (Hs3 (cs_jobs _ C)). destruct (Hfree C Hno) as [He Hix]. assert (same s s0) as S00 by by etrans.
      rewrite Hsize in Hroom by done.
      destruct (gained_consistent s s0 s4 id t) as [C4 Hi4]; try done.
      split; [done|]. split; [by apply Hg, S00|]. unfold enqueued. rewrite Hix. eauto.
    + split; [done|]. split; [done|]. intros C Hno Hp. specialize (Hs3 (cs_jobs _ C)).
      destruct (Hfree C Hno) as [He _]. rewrite (same_disk _ _ Hs3), He in Hi. done.
  - intros err s4 [I4 Hq]. split; [done|]. intros Hp C Hno. exfalso. specialize (Hs3 (cs_jobs _ C)).
    destruct (Hfree C Hno) as [He Hix]. destruct Hq as [i Hi].
    + by apply Hs3.
    + rewrite (same_disk _ _ Hs3). apply C.
    + by rewrite (same_index _ _ Hs3).
    + by rewrite (same_disk _ _ Hs3), He in Hi.
Qed.

End faults.
End effects.
