(* ===== verification/QueueProperties.v ===== *)
(** * What the durable queue guarantees

    The public operations against an abstract queue, histories of operations, stops,
    restarts and power losses, and the properties that hold along all of them. *)

From S2P Require Import Prelude Text Digest Webex FileSystem MessageJobs MessageJobRules MessageJobRecovery MessageJobOperations MessageJobEffects.

Local Open Scope N_scope.

(** ** Requests and answers *)

Inductive request : Type :=
| Enqueue (id : str) (e : SidecarEvent)
| Load (id : str)
| Remove (id : str)
| PendingIds (excluded : gset str) (limit : N)
| PendingCount.

Inductive answer : Type :=
| Enqueued (status : MessageJobEnqueueStatus)
| Loaded (record : option MessageJobRecord)
| Removed (found : bool)
| Listed (ids : list str)
| Counted (n : N).

Definition io_map {A B} (f : A -> B) (m : io A) : io B := let! a := m in ret (f a).

(** The ID a request names. *)
Definition request_id (rq : request) : option str :=
  match rq with
  | Enqueue id _ | Load id | Remove id => Some id
  | _ => None
  end.

Section properties.
Context `{Kernel} `{RecordJson} `{Sha256}.
Context (max : N).

Definition serve (rq : request) : io answer :=
  match rq with
  | Enqueue id e => io_map Enqueued (enqueue max id e)
  | Load id => io_map Loaded (load max id)
  | Remove id => io_map Removed (remove max id)
  | PendingIds excluded limit => io_map Listed (pending_message_ids max excluded limit)
  | PendingCount => io_map Counted (pending_count max)
  end.

(** The same without the failure latch. *)
Definition serve_sync (rq : request) : io answer :=
  match rq with
  | Enqueue id e => io_map Enqueued (enqueue_sync max id e)
  | Load id => io_map Loaded (load_sync max id)
  | Remove id => io_map Removed (remove_sync max id)
  | PendingIds excluded limit => io_map Listed (pending_message_ids_sync max excluded limit)
  | PendingCount => io_map Counted (pending_count_sync max)
  end.

(** ** The abstract queue: a finite map from IDs to enqueue times *)

Definition abstract_queue (now : N) (m : gmap str N) (rq : request) : result JobError answer * gmap str N :=
  match rq with
  | Enqueue id e =>
      match validate_message_id id ;? validate_message_event id e with
      | Err err => (Err err, m)
      | Ok _ =>
          match m !! id with
          | Some _ => (Ok (Enqueued Existing), m)
          | None =>
              if max <=? N.of_nat (size m) then (Err (BacklogFull max), m)
              else (Ok (Enqueued Queued), <[id := now]> m)
          end
      end
  | Load id =>
      match validate_message_id id with
      | Err err => (Err err, m)
      | Ok _ => (Ok (Loaded (job_record id <$> m !! id)), m)
      end
  | Remove id =>
      match validate_message_id id with
      | Err err => (Err err, m)
      | Ok _ => (Ok (Removed (bool_decide (is_Some (m !! id)))), delete id m)
      end
  | PendingIds excluded limit => (Ok (Listed (pending_of m excluded limit)), m)
  | PendingCount => (Ok (Counted (N.of_nat (size m))), m)
  end.

(** ** The latch *)

Definition latched {A} (r : result JobError A) : bool :=
  match r with
  | Ok _ => false
  | Err e => negb (is_backlog_full e)
  end.

Definition keeps_health {A} (m : io A) : Prop := forall s, runtime_unhealthy (m s).2 = runtime_unhealthy s.

Lemma health_ret {A} (a : A) : keeps_health (ret a).
Proof. done. Qed.
Lemma health_throw {A} e : keeps_health (@throw A e).
Proof. done. Qed.
Lemma health_lift {A} (r : result JobError A) : keeps_health (lift r).
Proof. done. Qed.
Lemma health_get : keeps_health get.
Proof. done. Qed.
Lemma health_put m : keeps_health (put_index m).
Proof. done. Qed.
Lemma health_candidate : keeps_health candidate_path.
Proof. done. Qed.
Lemma health_bind {A B} (m : io A) (k : A -> io B) :
  keeps_health m -> (forall a, keeps_health (k a)) -> keeps_health (io_bind m k).
Proof.
  intros Hm Hk s. unfold io_bind. specialize (Hm s). destruct (m s) as [[a|e] s1]; cbn in *; [|done].
  by rewrite Hk.
Qed.
Lemma health_attempt {A} (m : io A) : keeps_health m -> keeps_health (attempt m).
Proof. intros Hm s. unfold attempt. specialize (Hm s). by destruct (m s). Qed.
Lemma health_syscall {A} partial (call : disk -> result ErrorKind A * disk) : keeps_health (syscall partial call).
Proof. intros s. unfold syscall. destruct (plan s) as [|[] ?]; cbn; try destruct (call _); done. Qed.

End properties.

Create HintDb health.
#[export] Hint Resolve health_ret health_throw health_lift health_get health_put health_candidate health_syscall : health.
#[export] Hint Resolve health_bind health_attempt : health.

(** Descend into a program. *)
Ltac keep_health :=
  repeat match goal with
  | |- forall _, _ => intro
  | |- keeps_health (io_bind _ _) => apply health_bind
  | |- keeps_health (attempt _) => apply health_attempt
  | |- keeps_health (if ?b then _ else _) => destruct b
  | |- keeps_health (match ?x with _ => _ end) => destruct x
  | |- keeps_health _ => solve [eauto with health]
  end.

Section health.
Context `{Kernel} `{RecordJson} `{Sha256}.
Context (max : N).

Lemma health_ensure_root : keeps_health ensure_private_job_root.
Proof. unfold ensure_private_job_root, validate_job_root_metadata. keep_health. Qed.
Lemma health_sync_directory : keeps_health sync_directory.
Proof. unfold sync_directory. keep_health. Qed.
Lemma health_read_record n links : keeps_health (read_record_file n links).
Proof. unfold read_record_file, open_job_file, file_metadata. keep_health. Qed.
#[local] Hint Resolve health_ensure_root health_sync_directory health_read_record : health.

Lemma health_list_loop names files : keeps_health (list_job_files_loop max names files).
Proof.
  revert files. induction names as [|n names IH]; intros files; cbn [list_job_files_loop];
    unfold next_entry, symlink_metadata; keep_health.
Qed.
#[local] Hint Resolve health_list_loop : health.
Lemma health_list : keeps_health (list_job_files max).
Proof. unfold list_job_files, read_dir. keep_health. Qed.
Lemma health_recover_candidate n published : keeps_health (recover_candidate n published).
Proof. unfold recover_candidate, read_candidate_file, symlink_metadata, remove_file. keep_health. Qed.
#[local] Hint Resolve health_list health_recover_candidate : health.

Lemma health_recover_loop names removed published jc cc :
  keeps_health (recover_candidates_loop max names removed published jc cc).
Proof.
  revert removed published jc cc. induction names as [|n names IH]; intros removed published jc cc;
    cbn [recover_candidates_loop]; unfold next_entry; keep_health.
Qed.
#[local] Hint Resolve health_recover_loop : health.
Lemma health_register r : keeps_health (register r).
Proof. unfold register. keep_health. Qed.
#[local] Hint Resolve health_register : health.
Lemma health_register_all rs : keeps_health (register_all rs).
Proof. induction rs; cbn [register_all]; keep_health. Qed.
#[local] Hint Resolve health_register_all : health.
Lemma health_prepare : keeps_health (prepare_root_sync max).
Proof. unfold prepare_root_sync, recover_candidates, read_dir. keep_health. Qed.
Lemma health_checked : keeps_health (checked_job_files_sync max).
Proof. unfold checked_job_files_sync. keep_health. Qed.
Lemma health_existing id n : keeps_health (existing_job id n).
Proof. unfold existing_job, read_job_file. keep_health. Qed.
Lemma health_remove_candidate c : keeps_health (remove_candidate c).
Proof. unfold remove_candidate, remove_file. keep_health. Qed.
#[local] Hint Resolve health_prepare health_checked health_existing health_remove_candidate : health.
Lemma health_publish r c n : keeps_health (publish_candidate r c n).
Proof. unfold publish_candidate, hard_link, remove_file, read_job_file. keep_health. Qed.
#[local] Hint Resolve health_publish : health.

Lemma health_serve_sync rq : keeps_health (serve_sync max rq).
Proof.
  destruct rq; unfold serve_sync, io_map, enqueue_sync, load_sync, remove_sync, pending_message_ids_sync,
    pending_count_sync, read_job_file, remove_file, unix_nanos_now, create_private_file, write_all, sync_all;
    keep_health.
Qed.

End health.

Section refinement.
Context `{Kernel} `{RecordJson} `{Sha256}.
Context (max : N).

(** The errors that mark the store unhealthy: a full backlog is none, for a delivery. *)
Definition latches {A} (rq : request) (r : result JobError A) : bool :=
  match r with
  | Ok _ => false
  | Err e => match rq with Enqueue _ _ => negb (is_backlog_full e) | _ => true end
  end.

Lemma with_unhealthy_same b s : b = runtime_unhealthy s -> with_unhealthy b s = s.
Proof. intros ->. by destruct s. Qed.

Lemma serve_latches rq s :
  serve max rq s =
    let (r, s1) := serve_sync max rq s in (r, with_unhealthy (runtime_unhealthy s || latches rq r) s1).
Proof.
  pose proof (health_serve_sync max rq s) as Hh. revert Hh.
  destruct rq; cbn [serve serve_sync]; unfold io_map, enqueue, load, remove, pending_message_ids, pending_count,
    latch_error, run_blocking_operation, io_bind, attempt, ret, throw, mark_unhealthy;
    match goal with |- context [let (_, _) := ?m s in _] => destruct (m s) as [[a|err] s1] end;
    cbn; intros Hh; rewrite ?orb_false_r, ?orb_true_r; try (by rewrite with_unhealthy_same); try done.
  destruct err; cbn; rewrite ?orb_false_r, ?orb_true_r; [done|by rewrite with_unhealthy_same|done].
Qed.

Lemma consistent_unhealthy b s : consistent max s -> consistent max (with_unhealthy b s).
Proof. intros []. by split. Qed.

Definition nothing (r : MessageJobRecord) : Prop := False.

Lemma consistent_inv s : consistent max s -> inv nothing (on_disk s).
Proof. intros C. split; [apply C|done]. Qed.

(** What the refinement promises of one request without faults. *)
Definition refines (rq : request) (s : machine) (p : result JobError answer * machine) : Prop :=
  exists now, now <= u64_max /\ p.1 = (abstract_queue max now (index s) rq).1 /\
    index p.2 = (abstract_queue max now (index s) rq).2 /\ consistent max p.2 /\ plan p.2 = [].

Lemma wp_run {A} (m : io A) Q E s : wp_io m Q E s ->
  (exists a s', m s = (Ok a, s') /\ Q a s') \/ (exists e s', m s = (Err e, s') /\ E e s').
Proof. unfold wp_io. destruct (m s) as [[a|e] s']; eauto 6. Qed.

Lemma io_map_run {A B} (f : A -> B) (m : io A) s :
  io_map f m s = match m s with (Ok a, s') => (Ok (f a), s') | (Err e, s') => (Err e, s') end.
Proof. unfold io_map, io_bind. by destruct (m s) as [[a|e] s']. Qed.

Lemma same_refined s s' : consistent max s -> plan s = [] -> same s s' -> consistent max s' /\ plan s' = [] /\ index s' = index s.
Proof. intros C Hp Hs. split; [by eapply consistent_same|]. split; apply Hs; done. Qed.

Lemma refines_same rq s r s' now :
  consistent max s -> plan s = [] -> same s s' -> now <= u64_max -> abstract_queue max now (index s) rq = (r, index s) ->
  refines rq s (r, s').
Proof.
  intros C Hp Hs Hn Ha. destruct (same_refined s s' C Hp Hs) as (C' & Hp' & Hi).
  exists now. by rewrite Ha.
Qed.

Lemma refines_invalid rq s err :
  consistent max s -> plan s = [] -> abstract_queue max 0 (index s) rq = (Err err, index s) -> refines rq s (Err err, s).
Proof. intros C Hp Ha. by apply (refines_same rq s (Err err) s 0). Qed.

Lemma enqueue_refines id e s :
  consistent max s -> plan s = [] -> no_collision (index s) id ->
  refines (Enqueue id e) s (io_map Enqueued (enqueue_sync max id e) s).
Proof.
  intros C Hp Hno. destruct (validate_message_id id ;? validate_message_event id e) as [[]|err] eqn:Ev.
  2:{ assert (io_map Enqueued (enqueue_sync max id e) s = (Err err, s)) as ->.
      { rewrite io_map_run. unfold enqueue_sync, io_bind, lift. destruct (validate_message_id id) as [[]|];
          cbn in Ev; [|by injection Ev as ->]. by rewrite Ev. }
      apply refines_invalid; [done..|]. unfold abstract_queue. by rewrite Ev. }
  rewrite io_map_run.
  destruct (wp_run _ _ _ _ (enqueue_sync_spec max nothing id e s (consistent_inv s C)))
    as [(st & s' & -> & _ & _ & Hq)|(err & s' & -> & _ & Hq)].
  - destruct (Hq C Hno Hp) as (C' & Hp' & He). unfold enqueued in He.
    destruct (index s !! id) as [t|] eqn:Eix.
    + destruct He as [-> He]. exists 0. unfold abstract_queue. rewrite Ev, Eix. cbn. by split_and!.
    + destruct He as (-> & Hlt & t & Ht & He). exists t. unfold abstract_queue. rewrite Ev, Eix.
      rewrite (proj2 (N.leb_gt max _)) by done. by split_and!.
  - destruct (Hq Hp C Hno) as [Hs [Hbad|(-> & Hix & Hfull)]]; [by rewrite Ev in Hbad|].
    apply (refines_same _ s _ s' 0); [done..|]. unfold abstract_queue.
    by rewrite Ev, Hix, (proj2 (N.leb_le max _)).
Qed.

Lemma reads_job_record d n links r : reads d n links r -> r = job_record (mj_message_id r) (mj_enqueued_at_unix_nanos r).
Proof.
  intros (i & f & _ & _ & _ & _ & (Hv & _)%encode_ok). unfold validate_record in Hv.
  apply seq_ok in Hv as [Hver Hv]. apply then_ok in Hv as [_ Hv]. apply then_ok in Hv as [_ Hv].
  apply fail_if_ok in Hv. bool_inv. apply N.eqb_eq in Hver. apply bool_decide_eq_true in Hv.
  destruct r as [v id t e]. cbn in *. by subst.
Qed.

Lemma load_refines id s :
  consistent max s -> plan s = [] -> no_collision (index s) id ->
  refines (Load id) s (io_map Loaded (load_sync max id) s).
Proof.
  intros C Hp Hno. destruct (validate_message_id id) as [[]|err] eqn:Ev.
  2:{ assert (io_map Loaded (load_sync max id) s = (Err err, s)) as ->.
      { rewrite io_map_run. unfold load_sync, io_bind, lift. by rewrite Ev. }
      apply refines_invalid; [done..|]. unfold abstract_queue. by rewrite Ev. }
  rewrite io_map_run.
  destruct (wp_run _ _ _ _ (load_sync_spec max nothing id s (consistent_inv s C)))
    as [(o & s' & -> & _ & _ & Hq)|(err & s' & -> & _ & Hq)].
  - destruct (Hq C Hno) as [Hs Ho]. apply (refines_same _ s _ s' 0); [done..|]. unfold abstract_queue.
    rewrite Ev. do 3 f_equal. destruct o as [r|]; [|by rewrite Ho].
    destruct Ho as [Hr Hid]. assert (index s !! id = Some (mj_enqueued_at_unix_nanos r)) as ->.
    { apply (cs_represents _ _ C). eauto. }
    cbn. f_equal. rewrite <-Hid. symmetry. by eapply reads_job_record.
  - destruct (Hq Hp C Hno) as [Hbad _]. congruence.
Qed.

Lemma remove_refines id s :
  consistent max s -> plan s = [] -> no_collision (index s) id ->
  refines (Remove id) s (io_map Removed (remove_sync max id) s).
Proof.
  intros C Hp Hno. destruct (validate_message_id id) as [[]|err] eqn:Ev.
  2:{ assert (io_map Removed (remove_sync max id) s = (Err err, s)) as ->.
      { rewrite io_map_run. unfold remove_sync, io_bind, lift. by rewrite Ev. }
      apply refines_invalid; [done..|]. unfold abstract_queue. by rewrite Ev. }
  rewrite io_map_run.
  destruct (wp_run _ _ _ _ (remove_sync_spec max nothing id s (consistent_inv s C) ltac:(done)))
    as [(b & s' & -> & _ & _ & Hq)|(err & s' & -> & _ & Hq)].
  - destruct (Hq C Hno Hp) as (C' & Hp' & Hix & _ & ->). exists 0. unfold abstract_queue. rewrite Ev. by split_and!.
  - destruct (Hq Hp C Hno) as [Hbad _]. congruence.
Qed.

Lemma list_refines s :
  consistent max s -> plan s = [] ->
  (forall excluded limit, refines (PendingIds excluded limit) s (io_map Listed (pending_message_ids_sync max excluded limit) s)) /\
  refines PendingCount s (io_map Counted (pending_count_sync max) s).
Proof.
  intros C Hp. split; [intros excluded limit|]; rewrite io_map_run.
  - destruct (wp_run _ _ _ _ (pending_sync_spec max nothing excluded limit s (consistent_inv s C)))
      as [(ids & s' & -> & _ & Hq)|(err & s' & -> & _ & Hq)]; [|by destruct (Hq Hp)].
    destruct (Hq C) as [Hs ->]. by apply (refines_same _ s _ s' 0).
  - destruct (wp_run _ _ _ _ (pending_count_sync_spec max nothing s (consistent_inv s C)))
      as [(n & s' & -> & _ & Hq)|(err & s' & -> & _ & Hq)]; [|by destruct (Hq Hp)].
    destruct (Hq C) as [Hs ->]. by apply (refines_same _ s _ s' 0).
Qed.

Lemma serve_sync_refines rq s :
  consistent max s -> plan s = [] -> (forall id, request_id rq = Some id -> no_collision (index s) id) ->
  refines rq s (serve_sync max rq s).
Proof.
  intros C Hp Hno. destruct rq; cbn [serve_sync].
  - apply enqueue_refines; auto.
  - apply load_refines; auto.
  - apply remove_refines; auto.
  - by apply list_refines.
  - by apply list_refines.
Qed.

(** C8: Without faults the durable queue is a finite map from message IDs to enqueue times:
    each request is answered as the map answers it (deliveries queue once and are refused
    at the limit, lookups return the stored envelope, listings are sorted), the index and
    the directory stay in step, and the failure latch is set exactly by errors other than
    a full backlog. Only SHA-256 collisions with queued IDs are excluded. *)
Theorem requests_refine_queue rq s :
  consistent max s -> plan s = [] -> (forall id, request_id rq = Some id -> no_collision (index s) id) ->
  exists now s', now <= u64_max /\
    let (r, m) := abstract_queue max now (index s) rq in
    serve max rq s = (r, s') /\ index s' = m /\ consistent max s' /\ plan s' = [] /\
    runtime_unhealthy s' = runtime_unhealthy s || latches rq r.
Proof.
  intros C Hp Hno. destruct (serve_sync_refines rq s C Hp Hno) as (now & Hnow & Hr & Hi & C' & Hp').
  rewrite serve_latches. destruct (serve_sync max rq s) as [r s1]. cbn in *.
  exists now, (with_unhealthy (runtime_unhealthy s || latches rq r) s1). split; [done|].
  destruct (abstract_queue max now (index s) rq) as [r' m]. cbn in *. subst r'.
  split_and!; try done. by apply consistent_unhealthy.
Qed.

End refinement.

(** ** Histories *)

(** A new process on the disk a former one left. *)
Definition fresh_process (pid : N) (p : list fault) (s : machine) : machine :=
  mkMachine (on_disk s) p (ticks s) pid 1 ∅ false.

Definition stopped (s : machine) : bool :=
  match plan s with
  | Stop :: _ => true
  | _ => false
  end.

Inductive event : Type :=
| Serves (rq : request) (p : list fault)
| Restarts (pid : N) (p : list fault)
| LosesPower.

Section histories.
Context `{Kernel} `{RecordJson} `{Sha256}.
Context (max : N).

(** One event, under any faults: the running process serves a request, possibly stopping in
    the middle; a process opens the queue (and runs if that succeeds); the power fails. *)
Inductive step : machine * bool -> event -> machine * bool -> Prop :=
| step_serve s rq p :
    let s' := (serve max rq (with_plan p s)).2 in
    step (s, true) (Serves rq p) (s', negb (stopped s'))
| step_restart s running pid p :
    let r := open_with_limit max (fresh_process pid p s) in
    step (s, running) (Restarts pid p) (r.2, is_ok r.1 && negb (stopped r.2))
| step_power s running d :
    power_loss (on_disk s) d ->
    step (s, running) LosesPower (with_disk d s, false).

Inductive history : machine * bool -> list event -> machine * bool -> Prop :=
| history_nil w : history w [] w
| history_cons w1 e w2 es w3 : step w1 e w2 -> history w2 es w3 -> history w1 (e :: es) w3.

Context (R : MessageJobRecord -> Prop).

(** The event keeps the records of [R]: it removes none of them. *)
Definition spares (e : event) : Prop :=
  match e with
  | Serves (Remove id) _ => forall r, R r -> mj_message_id r <> id
  | _ => True
  end.

Lemma inv_run {A} (m : io A) s (Q : A -> machine -> Prop) (E : JobError -> machine -> Prop) :
  wp_io m Q E s -> (forall a s', Q a s' -> inv R (on_disk s')) -> (forall e s', E e s' -> inv R (on_disk s')) ->
  inv R (on_disk (m s).2).
Proof. unfold wp_io. destruct (m s) as [[a|e] s']; eauto. Qed.

Lemma io_map_state {A B} (f : A -> B) (m : io A) s : (io_map f m s).2 = (m s).2.
Proof. rewrite io_map_run. by destruct (m s) as [[a|e] s']. Qed.

Lemma serve_inv rq p s :
  spares (Serves rq p) -> inv R (on_disk s) -> inv R (on_disk (serve max rq s).2).
Proof.
  intros Hsp I. rewrite serve_latches. destruct (serve_sync max rq s) as [r s1] eqn:Es. cbn [snd on_disk with_unhealthy].
  replace s1 with (serve_sync max rq s).2 by by rewrite Es. clear Es.
  destruct rq; cbn [serve_sync]; rewrite io_map_state.
  - by eapply inv_run; [apply (enqueue_sync_spec max R)|naive_solver..].
  - by eapply inv_run; [apply (load_sync_spec max R)|naive_solver..].
  - by eapply inv_run; [apply (remove_sync_spec max R)|naive_solver..].
  - by eapply inv_run; [apply (pending_sync_spec max R)|naive_solver..].
  - by eapply inv_run; [apply (pending_count_sync_spec max R)|naive_solver..].
Qed.

Lemma power_loss_inv d d' : inv R d -> power_loss d d' -> inv R d'.
Proof. intros [S I] L. destruct (sound_power_loss d d' S L). split; auto. Qed.

Lemma step_inv w e w' : spares e -> inv R (on_disk w.1) -> step w e w' -> inv R (on_disk w'.1).
Proof.
  intros Hsp I St. destruct St as [s rq p|s running pid p|s running d L]; cbn in *.
  - by apply (serve_inv rq p).
  - eapply inv_run; [by apply (open_with_limit_spec R)|..].
    + by intros a s' ([] & _).
    + by intros e s' [? _].
  - by eapply power_loss_inv.
Qed.

Lemma history_inv w es w' : Forall spares es -> inv R (on_disk w.1) -> history w es w' -> inv R (on_disk w'.1).
Proof.
  intros Hall I Hh. induction Hh as [|w1 e w2 es w3 St _ IH]; [done|].
  apply Forall_cons in Hall as [He Hall]. apply IH; [done|]. by eapply step_inv.
Qed.

End histories.

Section theorems.
Context `{Kernel} `{RecordJson} `{Sha256}.
Context (max : N).

(** No request of the history removes the job [id]. *)
Definition never_removes (id : str) (es : list event) : Prop :=
  Forall (fun e => match e with Serves (Remove id') _ => id' <> id | _ => True end) es.

Lemma opened_has R d pid p s s' r :
  inv R (on_disk s) -> R r -> on_disk s = d ->
  open_with_limit max (fresh_process pid p s) = (Ok tt, s') ->
  inv R (on_disk s') /\ index s' !! mj_message_id r = Some (mj_enqueued_at_unix_nanos r).
Proof.
  intros I Hr <- Ho. pose proof (open_with_limit_spec R max (fresh_process pid p s) I) as W.
  unfold wp_io in W. rewrite Ho in W. destruct W as (Rc & Hl & Hm & _). pose proof (recd_inv _ _ _ Rc) as I'.
  split; [done|]. apply Hm. exists r. split; [|done].
  apply reads_iff_holds; [apply I'|by eapply recovered_jobs_only|].
  by apply stored_entry, I'.
Qed.


(** C7: After any history of requests, faults, stops, restarts and power losses, opening
    the queue again without faults succeeds unless the directory holds more jobs or more
    candidates than the limit. The opened queue is consistent and healthy, and holds
    exactly the published jobs: unpublished candidates are gone. *)
Theorem reopening_recovers s es w pid :
  sound (on_disk s) -> history max (s, true) es w -> ~ crowded (on_disk w.1) max ->
  exists s', open_with_limit max (fresh_process pid [] w.1) = (Ok tt, s') /\
    consistent max s' /\ plan s' = [] /\ runtime_unhealthy s' = false /\
    forall id t, index s' !! id = Some t <-> exists i r,
      entries (on_disk w.1) !! message_job_path id = Some i /\ holds (on_disk w.1) i r /\
      mj_message_id r = id /\ mj_enqueued_at_unix_nanos r = t.
Proof.
  intros S Hh Hnc.
  assert (inv nothing (on_disk w.1)) as I.
  { apply (history_inv max nothing _ es w) in Hh; [done| |by split]. apply Forall_true.
    by intros [[]| |]; cbn; try intros r []. }
  destruct (wp_run _ _ _ _ (open_with_limit_spec nothing max (fresh_process pid [] w.1) I))
    as [([] & s' & Ho & Rc & Hl & Hm & Hh' & Hp)|(e & s' & Ho & _ & Hq)]; [|by destruct Hnc; apply Hq].
  exists s'. pose proof (recd_inv _ _ _ Rc) as [S' _]. pose proof (recovered_jobs_only _ _ _ Rc) as J'.
  split; [done|]. split; [split; [done|done|apply Hl|done]|]. split; [by apply Hp|]. split; [done|].
  intros id t. rewrite (Hm id t). split.
  - intros (r & Hr & Hid & Ht). apply reads_iff_holds in Hr as (i & Hi & Hr); [|done..].
    exists i, r. rewrite (recd_entries _ _ _ Rc) in Hi.
    destruct (job_nameb _); [|done]. split; [done|]. split; [|done].
    destruct Hr as (f & Hf & Hr). exists f. by rewrite (recd_inodes _ _ _ Rc) in Hf.
  - intros (i & r & Hi & Hr & Hid & Ht). exists r. split; [|done]. apply reads_iff_holds; [done..|].
    exists i. rewrite (recd_entries _ _ _ Rc), (proj2 (job_nameb_true _) (job_path_name id)). split; [done|].
    destruct Hr as (f & Hf & Hr). exists f. by rewrite (recd_inodes _ _ _ Rc).
Qed.

End theorems.

(** ** Records *)

(** The files of the queue are canonical: a byte string decodes to a record exactly if
    it is what encoding that record writes. Two records never share a file content, and
    whatever was published reads back as itself. *)
Theorem job_records_canonical `{RecordJson} bytes r :
  decode_message_job_record bytes = Ok r <-> encode_message_job_record r = Ok bytes.
Proof. apply decode_ok. Qed.

(** ** The order of listings *)

Lemma str_leb_total a b : str_leb a b = true \/ str_leb b a = true.
Proof.
  revert b. induction a as [|x a IH]; intros [|y b]; cbn; auto.
  destruct (IH b) as [-> | ->]; rewrite ?andb_true_r; lia.
Qed.

Lemma str_leb_trans a b c : str_leb a b = true -> str_leb b c = true -> str_leb a c = true.
Proof.
  revert b c. induction a as [|x a IH]; intros [|y b] [|z c]; cbn; try done.
  intros [Hxy|[Hxy Hab]%andb_true_iff]%orb_true_iff [Hyz|[Hyz Hbc]%andb_true_iff]%orb_true_iff;
    try (apply orb_true_iff; left; lia).
  rewrite (IH b c) by done. lia.
Qed.

Lemma pending_leb_total a b : pending_leb a b = true \/ pending_leb b a = true.
Proof. unfold pending_leb. destruct (str_leb_total a.2 b.2) as [-> | ->]; rewrite ?andb_true_r; lia. Qed.

Lemma pending_leb_trans a b c : pending_leb a b = true -> pending_leb b c = true -> pending_leb a c = true.
Proof.
  unfold pending_leb.
  intros [Hxy|[Hxy Hab]%andb_true_iff]%orb_true_iff [Hyz|[Hyz Hbc]%andb_true_iff]%orb_true_iff;
    try (apply orb_true_iff; left; lia).
  rewrite (str_leb_trans _ _ _ Hab Hbc). lia.
Qed.

(** Queued earlier, or at the same time with a smaller ID. *)
Definition queued_before (m : gmap str N) (a b : str) : Prop :=
  exists t u, m !! a = Some t /\ m !! b = Some u /\ (t < u \/ (t = u /\ str_leb a b = true)).

Definition eligible (m : gmap str N) (excluded : gset str) : list (N * str) :=
  stable_sort pending_leb (map (fun kv : str * N => (kv.2, kv.1))
    (List.filter (fun kv : str * N => negb (bool_decide (kv.1 ∈ excluded))) (map_to_list m))).

Lemma elem_of_eligible m excluded t id :
  (t, id) ∈ eligible m excluded <-> m !! id = Some t /\ id ∉ excluded.
Proof.
  unfold eligible. rewrite stable_sort_perm, elem_of_map. setoid_rewrite list_elem_of_In.
  setoid_rewrite filter_In. setoid_rewrite <-list_elem_of_In. split.
  - intros ([k v] & [= -> ->] & Hk%elem_of_map_to_list & Hx%negb_true_iff%bool_decide_eq_false). done.
  - intros [Hk Hx]. exists (id, t). split; [done|]. split; [by apply elem_of_map_to_list|].
    by apply negb_true_iff, bool_decide_eq_false.
Qed.

Lemma sorted_ids m l :
  (forall t id, (t, id) ∈ l -> m !! id = Some t) -> StronglySorted (fun a b => pending_leb a b = true) l ->
  StronglySorted (queued_before m) (map snd l).
Proof.
  intros Hm Hl. induction Hl as [|[t id] l Hl IH Hall]; cbn; constructor.
  - apply IH. intros t' id' Hin. apply Hm. by right.
  - apply Forall_forall. intros id' Hin. apply elem_of_map in Hin as ([u id''] & -> & Hin). cbn.
    rewrite Forall_forall in Hall. specialize (Hall _ Hin). unfold pending_leb in Hall. cbn in Hall.
    exists t, u. split; [apply Hm; by left|]. split; [apply Hm; by right|].
    apply orb_true_iff in Hall as [?|[? ?]%andb_true_iff]; [left; lia|right; split; [lia|done]].
Qed.

Lemma nodup_map_filter {A B} (f : A -> B) (p : A -> bool) l : NoDup (map f l) -> NoDup (map f (List.filter p l)).
Proof.
  induction l as [|x l IH]; cbn; [done|]. intros [Hx Hnd]%NoDup_cons. destruct (p x); cbn; [|auto].
  apply NoDup_cons. split; [|auto]. intros Hin. apply Hx. apply elem_of_map in Hin as (y & -> & Hy).
  apply elem_of_map. exists y. split; [done|]. apply list_elem_of_In, filter_In in Hy as [Hy _]. by apply list_elem_of_In.
Qed.

Lemma eligible_nodup m excluded : NoDup (map snd (eligible m excluded)).
Proof.
  unfold eligible. change (map snd ?l) with (l.*2). rewrite stable_sort_perm.
  change (?l.*2) with (map snd l). rewrite map_map. apply nodup_map_filter, NoDup_fst_map_to_list.
Qed.

(** A listing of pending jobs is a prefix, of the requested length if there are enough,
    of all jobs that are not excluded, oldest first and by ID among equals. *)
Theorem pending_oldest_first m excluded limit :
  exists rest, let all := pending_of m excluded limit ++ rest in
    NoDup all /\ (forall id, id ∈ all <-> is_Some (m !! id) /\ id ∉ excluded) /\
    StronglySorted (queued_before m) all /\ len (pending_of m excluded limit) = N.min limit (len all).
Proof.
  exists (map snd (drop_N limit (eligible m excluded))).
  assert (pending_of m excluded limit ++ map snd (drop_N limit (eligible m excluded)) = map snd (eligible m excluded)) as ->.
  { unfold pending_of. fold (eligible m excluded). by rewrite <-map_app, take_drop_N. }
  cbn zeta. split_and!.
  - apply eligible_nodup.
  - intros id. rewrite elem_of_map. split.
    + intros ([t id'] & -> & [Hm Hx]%elem_of_eligible). cbn. eauto.
    + intros [[t Hm] Hx]. exists (t, id). by rewrite elem_of_eligible.
  - apply sorted_ids; [by intros t id [Hm _]%elem_of_eligible|].
    apply stable_sort_sorted; [apply pending_leb_total|apply pending_leb_trans].
  - unfold pending_of. fold (eligible m excluded). unfold len. rewrite !length_map. apply len_take_N.
Qed.

(** ** A concrete queue *)

Section sample.

#[local] Instance sample_kernel : Kernel.
Proof.
  refine {| dir_order := fun _ m => (map_to_list m).*1; clock_nanos := fun t => 1000 + N.of_nat t;
            euid := 1000; umask := 18 |}; done.
Defined.

(** An envelope as its time and its ID. *)
#[local] Instance sample_json : RecordJson.
Proof.
  refine {| to_vec := fun r => mj_enqueued_at_unix_nanos r :: mj_message_id r;
            from_slice := fun bs => match bs with
                                    | t :: rest => Some (job_record (removelast rest) t)
                                    | [] => None
                                    end |}.
  - intros [v id t e] [[] Hv]%is_ok_spec. unfold validate_record in Hv.
    apply seq_ok in Hv as [Hver Hv]. apply then_ok in Hv as [_ Hv]. apply then_ok in Hv as [_ Hv].
    apply fail_if_ok in Hv. bool_inv. apply N.eqb_eq in Hver. apply bool_decide_eq_true in Hv.
    cbn in *. rewrite removelast_last. by subst.
  - intros r _ _. rewrite len_cons. pose proof (byte_len_bounds (mj_message_id r)). unfold char_count in *. lia.
Defined.

#[local] Instance sample_sha256 : Sha256.
Proof.
  refine {| sha256 := fun bs => take 32 (map (fun b => b mod 256) bs ++ replicate 32 0) |}.
  - intros bs. rewrite length_take, length_app, length_replicate. lia.
  - intros bs. apply Forall_take, Forall_app_2.
    + apply Forall_map, Forall_true. intros b. lia.
    + by apply Forall_replicate.
Defined.

Definition empty_queue : machine :=
  mkMachine (mkDisk (Some (mkDirectory DirectoryFile 1000 448)) true ∅ ∅ ∅ ∅ [] 0) [] 0 7 1 ∅ false.

Lemma empty_possible n v : possible (on_disk empty_queue) n v -> v = None.
Proof. intros [-> |[-> |Hn]]; [done|done|]. by apply elem_of_nil in Hn. Qed.

Lemma empty_queue_consistent max : consistent max empty_queue.
Proof.
  split.
  - split; cbn; try done; try (by intros n i Hn%empty_possible); try (by intros n m i _ _ Hn%empty_possible).
    + by eexists.
    + intros i [f Hf]. by rewrite lookup_empty in Hf.
  - intros n i. cbn. by rewrite lookup_empty.
  - change (N.of_nat (size (∅ : gmap (list N) N)) <= max). rewrite map_size_empty. lia.
  - intros id t. cbn. rewrite lookup_empty. split; [done|].
    intros (r & (i & _ & Hi & _) & _). cbn in Hi. by rewrite lookup_empty in Hi.
Qed.

Definition sample_id : str := lit "Y2lzY29z".
Definition sample_delivery : request := Enqueue sample_id (persisted_message_event sample_id).

Lemma requests_refine_queue_witness :
  exists now s', now <= u64_max /\
    serve 4 sample_delivery empty_queue = (Ok (Enqueued Queued), s') /\ index s' = {[sample_id := now]} /\
    consistent 4 s'.
Proof.
  destruct (requests_refine_queue 4 sample_delivery empty_queue) as (now & s' & Hn & Hs).
  - apply empty_queue_consistent.
  - done.
  - intros id _ id' [t Ht]. cbn in Ht. by rewrite lookup_empty in Ht.
  - exists now, s'. cbn in Hs. destruct Hs as (Hr & Hi & C & _). by split_and!.
Defined.

(** A stop right after the link, the restart, and an opening. *)
Definition sample_stop : machine * bool :=
  let s := (serve 4 PendingCount (with_plan [Fine; Stop] (serve 4 sample_delivery empty_queue).2)).2 in
  (s, negb (stopped s)).


(** The candidate is linked and the process stops before the directory is synced. *)
Definition half_published : machine :=
  (serve 4 sample_delivery (with_plan (replicate 8 Fine ++ [Stop]) empty_queue)).2.

Lemma reopening_recovers_witness :
  exists s', open_with_limit 4 (fresh_process 9 [] half_published) = (Ok tt, s') /\ consistent 4 s' /\
    size (entries (on_disk half_published)) = 2%nat /\ size (entries (on_disk s')) = 1%nat.
Proof.
  destruct (reopening_recovers 4 empty_queue [Serves sample_delivery (replicate 8 Fine ++ [Stop])]
              (half_published, negb (stopped half_published)) 9) as (s' & Ho & C & _).
  - apply empty_queue_consistent with (max := 4).
  - eapply history_cons; [|apply history_nil].
    apply (step_serve 4 empty_queue sample_delivery (replicate 8 Fine ++ [Stop])).
  - intros [Hc|Hc]; vm_compute in Hc; discriminate Hc.
  - exists s'. split; [exact Ho|]. split; [exact C|]. split; [vm_compute; reflexivity|].
    assert (s' = (open_with_limit 4 (fresh_process 9 [] half_published)).2) as -> by (cbn [fst] in Ho; by rewrite Ho).
    vm_compute. reflexivity.
Defined.

(** ** A deviation *)

Definition after_failed_sync : machine :=
  (serve 4 sample_delivery (with_plan (replicate 8 Fine ++ [Fails 0]) empty_queue)).2.
Definition after_failed_recovery : machine :=
  (serve 4 sample_delivery (with_plan (replicate 11 Fine ++ [Fails 0]) after_failed_sync)).2.
Definition acknowledged : machine := (serve 4 sample_delivery (with_plan [] after_failed_recovery)).2.

(** A power loss that takes every name that was never synced. *)
Definition lose_names (d : disk) : disk :=
  mkDisk (root_dir d) true (inodes d) (stamps d) ∅ ∅ [] (next_ino d).

Lemma lose_names_possible d :
  durable d = ∅ -> map_Forall (fun _ f => i_synced f = true) (inodes d) -> power_loss d (lose_names d).
Proof.
  intros Hd Hs. split; cbn.
  - by left.
  - intros _ n. right. left. by rewrite Hd, !lookup_empty.
  - done.
  - intros i. destruct (inodes d !! i) as [f|] eqn:Ef; [|done]. cbn. pose proof (Hs i f Ef). by split_and!.
  - lia.
Qed.

(** C22: A delivery is acknowledged as existing although nothing made it durable: after the
    directory sync of the first delivery fails, and the sync of the recovery in the second
    fails as well, the third finds the file, syncs nothing and answers that the job exists;
    a power loss then loses it. *)
Theorem existing_job_lost :
  is_ok (serve 4 sample_delivery (with_plan (replicate 8 Fine ++ [Fails 0]) empty_queue)).1 = false /\
  is_ok (serve 4 sample_delivery (with_plan (replicate 11 Fine ++ [Fails 0]) after_failed_sync)).1 = false /\
  (serve 4 sample_delivery (with_plan [] after_failed_recovery)).1 = Ok (Enqueued Existing) /\
  power_loss (on_disk acknowledged) (lose_names (on_disk acknowledged)) /\
  exists s', open_with_limit 4 (fresh_process 9 [] (with_disk (lose_names (on_disk acknowledged)) acknowledged)) = (Ok tt, s') /\
    index s' !! sample_id = None.
Proof.
  split; [vm_compute; reflexivity|]. split; [vm_compute; reflexivity|]. split; [vm_compute; reflexivity|].
  split.
  - apply lose_names_possible; [vm_compute; reflexivity|].
    refine (proj1 (bool_decide_eq_true _) _). vm_compute. reflexivity.
  - eexists. split; [vm_compute; reflexivity|]. vm_compute. reflexivity.
Qed.

End sample.
