(* ===== verification/Scheduler.v ===== *)
(** * The message-job scheduler of [src/main.rs]

    Admission, the active set and the deferral map, running a persisted job, and the HTTP
    handlers in front of them. Each critical section of the source is one function on the
    shared state; tasks are program points between sections and awaits, and a step relation
    interleaves them arbitrarily. The durable queue appears through its abstract
    specification of [QueueProperties.v], which may also fail at any call. *)

From S2P Require Import Prelude Text Digest Webex WebexCalls FileSystem MessageJobs QueueProperties BotApp.

Local Open Scope N_scope.

(** Milliseconds. *)
Definition MESSAGE_JOB_MAX_RETRY_DELAY : N := 24 * 60 * 60 * 1000.

(** ** Admission *)

Inductive MessageJobAdmission : Type :=
| Ignore (a : BotAction)
| Queue (message_id : str).

Definition job_error_text (e : JobError) : str :=
  match e with
  | IoError _ => lit "I/O error"
  | BacklogFull _ => lit "message job backlog reached the fixed limit"
  | Failed reason => reason
  end.

Definition admit_message_job `{BotLibraries} (e : SidecarEvent) : result HttpError MessageJobAdmission :=
  if negb (version e =? 1) then Ok (Ignore (ignored (lit "unsupported_event_version") None None))
  else if negb (str_eqb (resource e) (lit "messages")) || negb (str_eqb (Webex.event e) (lit "created"))
  then Ok (Ignore (ignored (lit "unsupported_event") (Some (resource e)) None))
  else match message_from_value (data e) with
  | Err error => Err (bad_request (lit "invalid message payload: " ++ error))
  | Ok m =>
      match id m with
      | None => Ok (Ignore (ignored (lit "missing_message_id") None None))
      | Some message_id =>
          match validate_message_id message_id with
          | Err error => Err (bad_request (lit "invalid message ID: " ++ job_error_text error))
          | Ok _ => Ok (Queue message_id)
          end
      end
  end.

(** ** Shared state *)

(** [AppState], as far as scheduling uses it: the two locked sets with the poisoning of
    their locks, the free request slots, and the durable queue with its latch. *)
Record AppState : Type := mkAppState {
  active_message_jobs : gset str;
  active_poisoned : bool;
  deferred_message_jobs : gmap str N;
  deferred_poisoned : bool;
  request_slots : N;
  slots_closed : bool;
  message_jobs : gmap str N;
  jobs_unhealthy : bool
}.

Definition set_active (a : gset str) (st : AppState) : AppState :=
  mkAppState a (active_poisoned st) (deferred_message_jobs st) (deferred_poisoned st) (request_slots st)
    (slots_closed st) (message_jobs st) (jobs_unhealthy st).
Definition set_deferred (d : gmap str N) (st : AppState) : AppState :=
  mkAppState (active_message_jobs st) (active_poisoned st) d (deferred_poisoned st) (request_slots st)
    (slots_closed st) (message_jobs st) (jobs_unhealthy st).
Definition set_slots (n : N) (st : AppState) : AppState :=
  mkAppState (active_message_jobs st) (active_poisoned st) (deferred_message_jobs st) (deferred_poisoned st) n
    (slots_closed st) (message_jobs st) (jobs_unhealthy st).
Definition set_jobs (m : gmap str N) (st : AppState) : AppState :=
  mkAppState (active_message_jobs st) (active_poisoned st) (deferred_message_jobs st) (deferred_poisoned st)
    (request_slots st) (slots_closed st) m (jobs_unhealthy st).
Definition mark_jobs_unhealthy (st : AppState) : AppState :=
  mkAppState (active_message_jobs st) (active_poisoned st) (deferred_message_jobs st) (deferred_poisoned st)
    (request_slots st) (slots_closed st) (message_jobs st) true.

Inductive MessageJobRunOutcome : Type :=
| Complete
| RetryAfter (delay : N)
| Stopped.

Section scheduler.
Context (max_active_message_jobs : N).

(** The last [Instant] the platform represents. *)
Context (instant_max : N).

(** ** Critical sections *)

Definition active_lock_error : str := lit "active message job set is poisoned".
Definition deferred_lock_error : str := lit "deferred message job map is poisoned".

(** The first block of [schedule_pending_message_jobs]. *)
Definition snapshot_active (st : AppState) : result str (gset str * N) :=
  if active_poisoned st then Err active_lock_error
  else Ok (active_message_jobs st, sat_sub max_active_message_jobs (N.of_nat (size (active_message_jobs st)))).

(** [deferred.retain(|_, retry_at| *retry_at > now)] and the keys that stay. *)
Definition retain_deferred (now : N) (st : AppState) : result str (gset str) * AppState :=
  if deferred_poisoned st then (Err deferred_lock_error, st)
  else
    let deferred := filter (fun kv : str * N => now < kv.2) (deferred_message_jobs st) in
    (Ok (dom deferred), set_deferred deferred st).

(** The first block of [schedule_message_job]: may the job run now? *)
Definition pass_deferral (now : N) (message_id : str) (st : AppState) : result str bool * AppState :=
  if deferred_poisoned st then (Err deferred_lock_error, st)
  else if is_some_and (deferred_message_jobs st !! message_id) (fun retry_at => now <? retry_at) then (Ok false, st)
  else (Ok true, set_deferred (delete message_id (deferred_message_jobs st)) st).

(** The second block: reserve a place in the active set. *)
Definition reserve_active (message_id : str) (st : AppState) : result str bool * AppState :=
  if active_poisoned st then (Err active_lock_error, st)
  else if bool_decide (message_id ∈ active_message_jobs st)
          || (max_active_message_jobs <=? N.of_nat (size (active_message_jobs st)))
  then (Ok false, st)
  else (Ok true, set_active ({[message_id]} ∪ active_message_jobs st) st).

(** [ActiveMessageJobGuard::drop]. *)
Definition drop_guard (message_id : str) (st : AppState) : AppState :=
  if active_poisoned st then mark_jobs_unhealthy st
  else set_active (active_message_jobs st ∖ {[message_id]}) st.

Definition retry_deadline (now delay : N) : option N :=
  let deadline := now + N.min (N.max delay 10) MESSAGE_JOB_MAX_RETRY_DELAY in
  if deadline <=? instant_max then Some deadline else None.

Definition record_message_job_outcome (now : N) (message_id : str) (outcome : MessageJobRunOutcome) (st : AppState) :
    result str unit * AppState :=
  let retry_at := match outcome with
                  | RetryAfter delay =>
                      let? t := ok_or (retry_deadline now delay)
                                  (lit "message job retry deadline exceeds Instant range") in
                      Ok (Some t)
                  | Complete | Stopped => Ok None
                  end in
  match retry_at with
  | Err e => (Err e, mark_jobs_unhealthy st)
  | Ok retry_at =>
      if deferred_poisoned st then (Err deferred_lock_error, mark_jobs_unhealthy st)
      else (Ok tt, set_deferred (match retry_at with
                                 | Some t => <[message_id := t]> (deferred_message_jobs st)
                                 | None => delete message_id (deferred_message_jobs st)
                                 end) st)
  end.

(** ** Tasks *)

(** Where a task stands. The first three are [schedule_pending_message_jobs], at its two
    locks and at its query; the next two are [schedule_message_job] with the IDs its caller
    still has to schedule; the others are the spawned task with its guard. *)
Inductive task : Type :=
| Snapshotting
| Retaining (active : gset str) (available : N)
| Querying (excluded : gset str) (available : N)
| CheckingDeferral (message_id : str) (rest : list str)
| Reserving (message_id : str) (rest : list str)
| AwaitingSlot (message_id : str)
| LoadingJob (message_id : str)
| Processing (message_id : str) (e : SidecarEvent)
| RemovingJob (message_id : str) (a : BotAction)
| RecordingOutcome (message_id : str) (outcome : MessageJobRunOutcome)
| DroppingGuard (message_id : str) (reschedule : bool).

(** The message ID whose guard the task holds. *)
Definition guard_of (t : task) : option str :=
  match t with
  | AwaitingSlot i | LoadingJob i | Processing i _ | RemovingJob i _ | RecordingOutcome i _ | DroppingGuard i _ => Some i
  | _ => None
  end.

Definition schedule_next (ids : list str) : list task :=
  match ids with
  | [] => []
  | i :: rest => [CheckingDeferral i rest]
  end.

(** What the durable queue may do with a request: what its specification says, or fail
    with or without having done it. *)
Definition queue_answers (limit : N) (m : gmap str N) (rq : request) (r : result JobError answer) (m' : gmap str N) : Prop :=
  (exists now, abstract_queue limit now m rq = (r, m')) \/
  (exists e now, r = Err e /\ (m' = m \/ m' = (abstract_queue limit now m rq).2)).

(** After the load in [run_persisted_message_job]. *)
Definition after_load (message_id : str) (r : result JobError (option MessageJobRecord)) : task :=
  match r with
  | Ok (Some record) => Processing message_id (mj_event record)
  | Ok None => RecordingOutcome message_id Complete
  | Err _ => RecordingOutcome message_id (RetryAfter MESSAGE_JOB_RETRY_FALLBACK)
  end.

Definition load_failed (r : result JobError (option MessageJobRecord)) : bool := negb (is_ok r).

(** After [process_event]. *)
Definition after_process (message_id : str) (r : result HttpError BotAction) : task :=
  match r with
  | Ok a => RemovingJob message_id a
  | Err e => RecordingOutcome message_id (RetryAfter (default MESSAGE_JOB_RETRY_FALLBACK (retry_after e)))
  end.

(** After the removal of a completed job. *)
Definition after_remove (message_id : str) (r : result JobError bool) : task :=
  RecordingOutcome message_id
    match r with
    | Ok _ => Complete
    | Err _ => RetryAfter MESSAGE_JOB_RETRY_FALLBACK
    end.

(** A job that was gone, or whose removal failed, latches the store. *)
Definition remove_latches (r : result JobError bool) : bool :=
  match r with
  | Ok true => false
  | _ => true
  end.

Definition latch (b : bool) (st : AppState) : AppState := if b then mark_jobs_unhealthy st else st.

(** After the outcome is recorded: the guard is dropped, and the next jobs are scheduled
    unless recording failed or the task was stopped. *)
Definition after_record (message_id : str) (outcome : MessageJobRunOutcome) (r : result str unit) : task :=
  DroppingGuard message_id (is_ok r && match outcome with Stopped => false | _ => true end).

(** What an outside observer sees of a step. *)
Inductive observation : Type :=
| Silent
| Started (message_id : str)
| Processed (message_id : str) (r : result HttpError BotAction)
| RemovalTried (message_id : str).

(** One step of a task at time [now]: the state, the tasks that replace it. Errors of a lock
    make every caller of [schedule_message_job] and [schedule_pending_message_jobs] latch
    the store and give up. *)
Inductive task_step (limit now : N) : AppState -> task -> observation -> AppState -> list task -> Prop :=
| step_snapshot st :
    task_step limit now st Snapshotting Silent
      (latch (negb (is_ok (snapshot_active st))) st)
      match snapshot_active st with
      | Ok (active, available) => if available =? 0 then [] else [Retaining active available]
      | Err _ => []
      end
| step_retain st active available :
    task_step limit now st (Retaining active available) Silent
      (latch (negb (is_ok (retain_deferred now st).1)) (retain_deferred now st).2)
      match (retain_deferred now st).1 with
      | Ok deferred => [Querying (active ∪ deferred) available]
      | Err _ => []
      end
| step_query st excluded available r m :
    queue_answers limit (message_jobs st) (PendingIds excluded available) r m ->
    task_step limit now st (Querying excluded available) Silent
      (latch (negb (is_ok r)) (set_jobs m st))
      match r with
      | Ok (Listed ids) => schedule_next ids
      | _ => []
      end
| step_deferral st i rest :
    task_step limit now st (CheckingDeferral i rest) Silent
      (latch (negb (is_ok (pass_deferral now i st).1)) (pass_deferral now i st).2)
      match (pass_deferral now i st).1 with
      | Ok true => [Reserving i rest]
      | Ok false => schedule_next rest
      | Err _ => []
      end
| step_reserve st i rest :
    task_step limit now st (Reserving i rest)
      (match (reserve_active i st).1 with Ok true => Started i | _ => Silent end)
      (latch (negb (is_ok (reserve_active i st).1)) (reserve_active i st).2)
      match (reserve_active i st).1 with
      | Ok true => AwaitingSlot i :: schedule_next rest
      | Ok false => schedule_next rest
      | Err _ => []
      end
| step_no_slot st i :
    slots_closed st = true ->
    task_step limit now st (AwaitingSlot i) Silent st [RecordingOutcome i Stopped]
| step_slot st i :
    slots_closed st = false -> 0 < request_slots st ->
    task_step limit now st (AwaitingSlot i) Silent (set_slots (request_slots st - 1) st) [LoadingJob i]
| step_load st i r m :
    queue_answers limit (message_jobs st) (Load i) (let? o := r in Ok (Loaded o)) m ->
    task_step limit now st (LoadingJob i) Silent
      (latch (load_failed r)
         (set_slots (match after_load i r with Processing _ _ => request_slots st | _ => request_slots st + 1 end)
            (set_jobs m st)))
      [after_load i r]
| step_process st i e r :
    task_step limit now st (Processing i e) (Processed i r) (set_slots (request_slots st + 1) st) [after_process i r]
| step_remove st i a r m :
    queue_answers limit (message_jobs st) (Remove i) (let? b := r in Ok (Removed b)) m ->
    task_step limit now st (RemovingJob i a) (RemovalTried i)
      (latch (remove_latches r) (set_jobs m st)) [after_remove i r]
| step_record st i outcome :
    task_step limit now st (RecordingOutcome i outcome) Silent
      (record_message_job_outcome now i outcome st).2
      [after_record i outcome (record_message_job_outcome now i outcome st).1]
| step_drop st i reschedule :
    task_step limit now st (DroppingGuard i reschedule) Silent
      (drop_guard i st) (if reschedule then [Snapshotting] else []).

(** ** The whole program *)

Record program : Type := mkProgram { clock : N; shared : AppState; tasks : list task }.

(** Besides the steps of tasks: time passes; the periodic rescan and the start-up schedule;
    a delivery is queued ([handle_event] then schedules it); a holder of a lock panics. *)
Inductive program_step (limit : N) : program -> observation -> program -> Prop :=
| program_task now st before t after o st' ts :
    task_step limit now st t o st' ts ->
    program_step limit (mkProgram now st (before ++ t :: after)) o (mkProgram now st' (before ++ ts ++ after))
| program_time now now' st ts :
    now <= now' -> program_step limit (mkProgram now st ts) Silent (mkProgram now' st ts)
| program_rescan now st ts :
    program_step limit (mkProgram now st ts) Silent (mkProgram now st (ts ++ [Snapshotting]))
| program_delivery now st ts i e r m :
    queue_answers limit (message_jobs st) (Enqueue i e) r m ->
    program_step limit (mkProgram now st ts) Silent
      (mkProgram now (latch (latches (Enqueue i e) r) (set_jobs m st))
         (ts ++ match r with Ok _ => [CheckingDeferral i []] | Err _ => [] end))
| program_poison now st ts (active_lock deferred_lock : bool) :
    program_step limit (mkProgram now st ts) Silent
      (mkProgram now
         (mkAppState (active_message_jobs st) (active_poisoned st || active_lock) (deferred_message_jobs st)
            (deferred_poisoned st || deferred_lock) (request_slots st) (slots_closed st) (message_jobs st)
            (jobs_unhealthy st)) ts).

Inductive runs (limit : N) : program -> list observation -> program -> Prop :=
| runs_nil p : runs limit p [] p
| runs_snoc p os p' o p'' : runs limit p os p' -> program_step limit p' o p'' -> runs limit p (os ++ [o]) p''.

(** Start-up: nothing active or deferred, whatever is queued. *)
Definition initial (slots : N) (m : gmap str N) : program :=
  mkProgram 0 (mkAppState ∅ false ∅ false slots false m false) [Snapshotting].

(** ** HTTP handlers *)

(** What [handle_event] reads: the [Authorization] header, whether an ingest slot is free,
    the body if it could be read, and the event if the body parses. *)
Record EventRequest : Type := mkEventRequest {
  rq_authorization : option str;
  rq_ingest_slot : bool;
  rq_body : result str (list N);
  rq_event : result str SidecarEvent
}.

Inductive Response : Type :=
| Accepted (a : BotAction)
| Refused (e : HttpError).

(** [handle_event] up to the queue: the event to queue, or the response. *)
Definition handle_event_admission `{BotLibraries} (sidecar_token : option str) (request : EventRequest) :
    (Response + (str * SidecarEvent)) :=
  match
    (let? _ := authorize sidecar_token (rq_authorization request) in
     fail_if (negb (rq_ingest_slot request)) (http_retry_after SERVICE_UNAVAILABLE (lit "server busy") 5000) ;?
     let? _ := map_err (fun error => bad_request (lit "failed to read sidecar event body: " ++ error)) (rq_body request) in
     let? e := map_err (fun error => bad_request (lit "invalid sidecar event payload: " ++ error)) (rq_event request) in
     let? admission := admit_message_job e in
     Ok (e, admission))
  with
  | Err error => inl (Refused error)
  | Ok (_, Ignore a) => inl (Accepted a)
  | Ok (e, Queue message_id) => inr (message_id, e)
  end.

(** Its response once the queue has answered; a failure to schedule only latches the store. *)
Definition handle_event_response (message_id : str) (r : result JobError MessageJobEnqueueStatus) : Response :=
  match r with
  | Err _ => Refused message_job_error
  | Ok status => Accepted (queued message_id (bool_decide (status = Existing)))
  end.

(** [message_job_counts]: [scan_free] says no other scan is running; the latch is read
    before and after the count. *)
Definition message_job_counts (scan_free healthy_before healthy_after : bool) (pending : result JobError N)
    (st : AppState) : result str (N * N) :=
  fail_if (negb scan_free) (lit "message job health scan is already in progress") ;?
  fail_if (negb healthy_before) (lit "durable message job state has a latched runtime failure") ;?
  let? pending := map_err job_error_text pending in
  fail_if (negb healthy_after) (lit "durable message job state has a latched runtime failure") ;?
  fail_if (active_poisoned st) active_lock_error ;?
  Ok (pending, N.of_nat (size (active_message_jobs st))).

(** [handle_health]: the counts of a healthy bot, or the error status. *)
Definition handle_health (sidecar_token header : option str) (counts : result str (N * N)) :
    result HttpError (N * N) :=
  let? _ := authorize sidecar_token header in
  match counts with
  | Ok c => Ok c
  | Err _ => Err (mkHttpError SERVICE_UNAVAILABLE (lit "message job state unavailable") None)
  end.

End scheduler.

(** ** Guards *)

Definition guards (ts : list task) : list str := omap guard_of ts.

Definition holds_slot (t : task) : bool :=
  match t with
  | LoadingJob _ | Processing _ _ => true
  | _ => false
  end.

Definition slots_held (ts : list task) : N := len (List.filter holds_slot ts).

Lemma guards_app ts ts' : guards (ts ++ ts') = guards ts ++ guards ts'.
Proof. unfold guards. apply omap_app. Qed.

Lemma guards_cons t ts : guards (t :: ts) = option_list (guard_of t) ++ guards ts.
Proof. unfold guards. cbn. by destruct (guard_of t). Qed.

Lemma slots_app ts ts' : slots_held (ts ++ ts') = slots_held ts + slots_held ts'.
Proof. unfold slots_held. by rewrite List.filter_app, len_app. Qed.

Lemma slots_cons t ts : slots_held (t :: ts) = (if holds_slot t then 1 else 0) + slots_held ts.
Proof. unfold slots_held. cbn. destruct (holds_slot t); rewrite ?len_cons; lia. Qed.

Lemma schedule_next_plain ids : guards (schedule_next ids) = [] /\ slots_held (schedule_next ids) = 0.
Proof. by destruct ids. Qed.

Lemma latch_fields b st :
  active_message_jobs (latch b st) = active_message_jobs st /\ active_poisoned (latch b st) = active_poisoned st /\
  request_slots (latch b st) = request_slots st /\ message_jobs (latch b st) = message_jobs st.
Proof. by destruct b. Qed.

(** The slots of a concrete list of tasks. *)
Ltac count_slots := unfold slots_held, len; cbn; lia.

Section invariant.
Context (max_active instant_max limit slots : N).

(** What a task step does to guards, slots and the queue. *)
Record step_effect (st : AppState) (t : task) (st' : AppState) (ts : list task) : Prop := mkStepEffect {
  se_slots : request_slots st' + slots_held ts = request_slots st + (if holds_slot t then 1 else 0);
  se_poisoned : active_poisoned st' = active_poisoned st;
  se_active :
    (guards ts = option_list (guard_of t) /\ active_message_jobs st' = active_message_jobs st) \/
    (exists i, guard_of t = None /\ guards ts = [i] /\ (i ∉ active_message_jobs st) /\
       N.of_nat (size (active_message_jobs st)) < max_active /\
       active_message_jobs st' = {[i]} ∪ active_message_jobs st) \/
    (exists i, guard_of t = Some i /\ guards ts = [] /\
       (active_poisoned st = true /\ active_message_jobs st' = active_message_jobs st \/
        active_poisoned st = false /\ active_message_jobs st' = active_message_jobs st ∖ {[i]}))
}.

Lemma task_step_effect now st t o st' ts :
  task_step max_active instant_max limit now st t o st' ts -> step_effect st t st' ts.
Proof.
  destruct 1 as [st|st active available|st excluded available r m Hq|st i rest|st i rest|st i Hc|st i Hc Hs
                |st i r m Hq|st i e r|st i a r m Hq|st i outcome|st i reschedule].
  - destruct (latch_fields (negb (is_ok (snapshot_active max_active st))) st) as (Ha & Hp & Hsl & _).
    split; rewrite ?Ha, ?Hp, ?Hsl; [|done|left];
      destruct (snapshot_active max_active st) as [[? available]|]; try done; by destruct (available =? 0).
  - unfold retain_deferred. destruct (deferred_poisoned st); cbn; (split; [|done|by left]); count_slots.
  - destruct (latch_fields (negb (is_ok r)) (set_jobs m st)) as (Ha & Hp & Hsl & _).
    split; rewrite ?Ha, ?Hp, ?Hsl; [|done|left];
      destruct r as [[]|]; cbn; rewrite ?(proj1 (schedule_next_plain _)), ?(proj2 (schedule_next_plain _)); try done; count_slots.
  - unfold pass_deferral. destruct (deferred_poisoned st); [split; [count_slots|done|by left]|].
    destruct (is_some_and _ _); cbn; (split; [|done|left]); cbn;
      rewrite ?(proj1 (schedule_next_plain _)), ?(proj2 (schedule_next_plain _)); try done; count_slots.
  - unfold reserve_active. destruct (active_poisoned st) eqn:Ep; [split; [count_slots|done|by left]|].
    destruct (bool_decide _ || _) eqn:Eb; cbn [fst snd is_ok negb latch].
    + split; [|done|left]; cbn; rewrite ?(proj1 (schedule_next_plain _)), ?(proj2 (schedule_next_plain _)); try done; count_slots.
    + apply orb_false_iff in Eb as [Hni%bool_decide_eq_false Hlt%N.leb_gt].
      split; [|done|right; left].
      * rewrite slots_cons, (proj2 (schedule_next_plain _)). cbn. lia.
      * exists i. by rewrite guards_cons, (proj1 (schedule_next_plain _)).
  - split; [count_slots|done|by left].
  - split; [count_slots|done|by left].
  - destruct (latch_fields (load_failed r) (set_slots (match after_load i r with Processing _ _ => request_slots st | _ => request_slots st + 1 end) (set_jobs m st))) as (Ha & Hp & Hsl & _).
    split; rewrite ?Ha, ?Hp, ?Hsl; [|done|left; split; [|done]]; destruct r as [[]|]; cbn; try done; count_slots.
  - split; [|done|left; split; [|done]]; destruct r; cbn; try done; count_slots.
  - destruct (latch_fields (remove_latches r) (set_jobs m st)) as (Ha & Hp & Hsl & _).
    split; rewrite ?Ha, ?Hp, ?Hsl; [count_slots|done|by left].
  - unfold record_message_job_outcome. destruct outcome as [|delay|]; [|destruct (retry_deadline _ _ _)|];
      cbn; try destruct (deferred_poisoned st); (split; [|done|by left]); count_slots.
  - unfold drop_guard. destruct (active_poisoned st) eqn:Ep; (split; [|done|right; right]);
      try (destruct reschedule; count_slots); exists i; (split; [done|]); (split; [by destruct reschedule|]); auto.
Qed.

(** The active set is the set of guards, as long as its lock works; nobody holds two guards
    for one job; the limits hold. *)
Record scheduled (p : program) : Prop := mkScheduled {
  sc_nodup : NoDup (guards (tasks p));
  sc_guards : forall i, i ∈ guards (tasks p) -> i ∈ active_message_jobs (shared p);
  sc_active : active_poisoned (shared p) = false ->
    forall i, i ∈ active_message_jobs (shared p) -> i ∈ guards (tasks p);
  sc_size : N.of_nat (size (active_message_jobs (shared p))) <= max_active;
  sc_slots : request_slots (shared p) + slots_held (tasks p) = slots
}.

Lemma guards_middle b t a : guards (b ++ t :: a) ≡ₚ option_list (guard_of t) ++ guards (b ++ a).
Proof. rewrite !guards_app, guards_cons. solve_Permutation. Qed.

Lemma scheduled_same_guards now st ts now' st' ts' :
  scheduled (mkProgram now st ts) -> guards ts' ≡ₚ guards ts ->
  active_message_jobs st' = active_message_jobs st ->
  (active_poisoned st' = false -> active_poisoned st = false) ->
  request_slots st' + slots_held ts' = request_slots st + slots_held ts -> scheduled (mkProgram now' st' ts').
Proof.
  intros [Hnd Hg Ha Hs Hsl] Hp Hact Hpo Hslots. cbn in *. split; cbn.
  - by rewrite Hp.
  - intros i. rewrite Hp, Hact. apply Hg.
  - intros Hf i. rewrite Hp, Hact. apply Ha. auto.
  - by rewrite Hact.
  - lia.
Qed.

Lemma scheduled_task_step now st b t a o st' ts :
  scheduled (mkProgram now st (b ++ t :: a)) -> task_step max_active instant_max limit now st t o st' ts ->
  scheduled (mkProgram now st' (b ++ ts ++ a)).
Proof.
  intros Sc Hstep. pose proof (task_step_effect _ _ _ _ _ _ Hstep) as [Hsl Hpo Hact].
  assert (guards (b ++ ts ++ a) ≡ₚ guards ts ++ guards (b ++ a)) as Hts by (rewrite !guards_app; solve_Permutation).
  pose proof (guards_middle b t a) as Ht.
  assert (request_slots st' + slots_held (b ++ ts ++ a) = request_slots st + slots_held (b ++ t :: a)) as Hslots.
  { rewrite !slots_app, slots_cons. lia. }
  destruct Hact as [[Hg Ha]|[(i & Ht0 & Hg & Hni & Hlt & Ha)|(i & Ht0 & Hg & Ha)]].
  - eapply scheduled_same_guards; [exact Sc| |done|by rewrite Hpo|done]. by rewrite Hts, Ht, Hg.
  - destruct Sc as [Cnd Cg Ca Cs Csl]. cbn in *. rewrite Hg in Hts. rewrite Ht0 in Ht. cbn in Hts, Ht.
    split; cbn; rewrite ?Hts, ?Ha.
    + apply NoDup_cons. rewrite <-Ht. auto.
    + intros j. rewrite Hts, elem_of_cons, <-Ht. set_solver.
    + intros Hf j. rewrite Hts, elem_of_cons, <-Ht. rewrite Hpo in Hf. set_solver.
    + rewrite size_union by set_solver. rewrite size_singleton. lia.
    + lia.
  - destruct Sc as [Cnd Cg Ca Cs Csl]. cbn in *. rewrite Hg in Hts. rewrite Ht0 in Ht. cbn in Hts, Ht.
    rewrite Ht in Cnd. apply NoDup_cons in Cnd as [Hni Cnd].
    assert (forall j, j ∈ guards (b ++ a) -> j ∈ active_message_jobs st /\ j <> i) as Hin.
    { intros j Hj. split; [apply Cg; rewrite Ht; by right|]. by intros ->. }
    split; cbn; rewrite ?Hts.
    + done.
    + intros j Hj. rewrite Hts in Hj. destruct (Hin j Hj). destruct Ha as [[_ ->]|[_ ->]]; set_solver.
    + intros Hf j. rewrite Hpo in Hf. destruct Ha as [[Hf' _]|[_ ->]]; [congruence|]. rewrite Hts.
      intros [Hj Hne]%elem_of_difference. apply Ca in Hj; [|done]. rewrite Ht in Hj.
      apply elem_of_cons in Hj as [->|]; set_solver.
    + destruct Ha as [[_ ->]|[_ ->]]; [done|].
      pose proof (subseteq_size (active_message_jobs st ∖ {[i]}) (active_message_jobs st)). set_solver by lia.
    + lia.
Qed.

Lemma scheduled_step p o p' : scheduled p -> program_step max_active instant_max limit p o p' -> scheduled p'.
Proof.
  intros Sc Hstep.
  destruct Hstep as [now st b t a o st' ts Ht|now now' st ts _|now st ts|now st ts i e r m Hq|now st ts al dl].
  - by eapply scheduled_task_step.
  - by eapply scheduled_same_guards.
  - eapply scheduled_same_guards; [exact Sc| |done..|].
    + by rewrite guards_app, app_nil_r.
    + rewrite slots_app. count_slots.
  - destruct (latch_fields (latches (Enqueue i e) r) (set_jobs m st)) as (Ha & Hp & Hsl & _).
    eapply scheduled_same_guards; [exact Sc| |done|by rewrite Hp|].
    + destruct r; by rewrite guards_app, app_nil_r.
    + rewrite Hsl, slots_app. destruct r; count_slots.
  - eapply scheduled_same_guards; [exact Sc|done|done| |done]. cbn. by destruct (active_poisoned st).
Qed.

Lemma scheduled_runs p os p' : scheduled p -> runs max_active instant_max limit p os p' -> scheduled p'.
Proof. intros Sc Hr. induction Hr; eauto using scheduled_step. Qed.

Lemma scheduled_initial m : scheduled (initial slots m).
Proof.
  split; cbn.
  - constructor.
  - intros i Hi. by apply elem_of_nil in Hi.
  - intros _ i Hi. set_solver.
  - change (size (∅ : gset str)) with 0%nat. lia.
  - count_slots.
Qed.

End invariant.

(** ** Properties *)

(** The tasks that have started on job [i]. *)
Definition working_on (i : str) (t : task) : bool := bool_decide (guard_of t = Some i).

Lemma working_on_absent i ts : i ∉ guards ts -> List.filter (working_on i) ts = [].
Proof.
  induction ts as [|t ts IH]; cbn [List.filter]; [done|]. rewrite guards_cons, elem_of_app. intros Hn.
  unfold working_on at 1. rewrite bool_decide_false; [apply IH; tauto|]. intros Ht. apply Hn. left.
  rewrite Ht. by left.
Qed.

Lemma working_on_once i ts : NoDup (guards ts) -> len (List.filter (working_on i) ts) <= 1.
Proof.
  induction ts as [|t ts IH]; cbn [List.filter]; [done|]. rewrite guards_cons. intros (_ & Hd & Hnd)%NoDup_app.
  destruct (working_on i t) eqn:Ew; [|auto]. apply bool_decide_eq_true in Ew. rewrite Ew in Hd.
  rewrite working_on_absent by (apply Hd; by left). done.
Qed.

(** ** Removals follow successes *)

Definition is_removal (i : str) (o : observation) : bool :=
  match o with
  | RemovalTried j => bool_decide (j = i)
  | _ => false
  end.

(** [process_event] answered without an error. *)
Definition is_success (i : str) (o : observation) : bool :=
  match o with
  | Processed j (Ok _) => bool_decide (j = i)
  | _ => false
  end.

Definition is_removing (i : str) (t : task) : bool :=
  match t with
  | RemovingJob j _ => bool_decide (j = i)
  | _ => false
  end.

Definition count {A} (f : A -> bool) (l : list A) : N := len (List.filter f l).

Lemma count_app {A} (f : A -> bool) l l' : count f (l ++ l') = count f l + count f l'.
Proof. unfold count. by rewrite List.filter_app, len_app. Qed.

Lemma count_cons {A} (f : A -> bool) x l : count f (x :: l) = (if f x then 1 else 0) + count f l.
Proof. unfold count. cbn. destruct (f x); rewrite ?len_cons; lia. Qed.

Lemma count_nil {A} (f : A -> bool) : count f [] = 0.
Proof. done. Qed.

Lemma removing_next i ids : count (is_removing i) (schedule_next ids) = 0.
Proof. by destruct ids. Qed.

Section removals.
Context (max_active instant_max limit : N).

Lemma task_step_counts now st t o st' ts i :
  task_step max_active instant_max limit now st t o st' ts ->
  (if is_removal i o then 1 else 0) + count (is_removing i) ts =
  (if is_success i o then 1 else 0) + (if is_removing i t then 1 else 0).
Proof.
  destruct 1 as [st|st active available|st excluded available r m Hq|st j rest|st j rest|st j Hc|st j Hc Hs
                |st j r m Hq|st j e r|st j a r m Hq|st j outcome|st j reschedule]; cbn [is_removal is_success is_removing].
  - destruct (snapshot_active _ _) as [[? available]|]; [by destruct (available =? 0)|done].
  - by destruct (retain_deferred _ _).1.
  - destruct r as [[]|]; by rewrite ?removing_next.
  - destruct (pass_deferral _ _ _).1 as [[]|]; by rewrite ?removing_next.
  - destruct (reserve_active _ _ _).1 as [[]|]; cbn; by rewrite ?count_cons, ?removing_next.
  - done.
  - done.
  - by destruct r as [[]|].
  - rewrite count_cons, count_nil. destruct r; cbn [is_removing after_process]; lia.
  - rewrite count_cons, count_nil. cbn [is_removing after_remove]. lia.
  - done.
  - by destruct reschedule.
Qed.

Lemma queue_keeps m rq r m' i :
  queue_answers limit m rq r m' -> is_Some (m !! i) -> rq <> Remove i -> is_Some (m' !! i).
Proof.
  intros Hq Hi Hne.
  assert (forall now, is_Some ((abstract_queue limit now m rq).2 !! i)) as Ha.
  { intros now. destruct rq as [j e|j|j|excluded lim|]; cbn; [|by destruct (validate_message_id j)| |done|done].
    - destruct (validate_message_id j ;? validate_message_event j e); [|done].
      destruct (m !! j) eqn:Ej; [done|]. destruct (_ <=? _); [done|]. cbn.
      destruct (decide (i = j)) as [->|Hij]; [by rewrite lookup_insert_eq|by rewrite lookup_insert_ne].
    - destruct (validate_message_id j); [|done]. cbn. rewrite lookup_delete_ne; [done|]. congruence. }
  destruct Hq as [[now Hq]|(e & now & _ & [->| ->])]; [|done|done].
  specialize (Ha now). by rewrite Hq in Ha.
Qed.

Lemma task_step_keeps now st t o st' ts i :
  task_step max_active instant_max limit now st t o st' ts ->
  is_Some (message_jobs st !! i) -> is_removal i o = false -> is_Some (message_jobs st' !! i).
Proof.
  destruct 1 as [st|st active available|st excluded available r m Hq|st j rest|st j rest|st j Hc|st j Hc Hs
                |st j r m Hq|st j e r|st j a r m Hq|st j outcome|st j reschedule]; intros Hi Ho;
    rewrite ?(proj2 (proj2 (proj2 (latch_fields _ _)))); try done.
  - unfold retain_deferred. by destruct (deferred_poisoned st).
  - by eapply queue_keeps.
  - unfold pass_deferral. destruct (deferred_poisoned st); [done|]. by destruct (is_some_and _ _).
  - unfold reserve_active. destruct (active_poisoned st); [done|]. by destruct (bool_decide _ || _).
  - by eapply queue_keeps.
  - eapply queue_keeps; [done|done|]. intros [= ->]. cbn in Ho. by rewrite bool_decide_true in Ho.
  - unfold record_message_job_outcome. destruct outcome as [|delay|]; [|destruct (retry_deadline _ _ _)|];
      cbn; try destruct (deferred_poisoned st); done.
  - unfold drop_guard. by destruct (active_poisoned st).
Qed.

Lemma run_counts p os p' i :
  runs max_active instant_max limit p os p' ->
  count (is_removal i) os + count (is_removing i) (tasks p') =
  count (is_success i) os + count (is_removing i) (tasks p).
Proof.
  induction 1 as [p|p os p' o p'' Hr IH Hs]; [by rewrite !count_nil|].
  rewrite !count_app, !count_cons, !count_nil.
  destruct Hs as [now st b t a o st' ts Ht|now now' st ts _|now st ts|now st ts j e r m Hq|now st ts al dl]; cbn in *;
    rewrite ?count_app, ?count_cons, ?count_nil in *; cbn; try lia.
  - pose proof (task_step_counts _ _ _ _ _ _ i Ht). lia.
  - destruct r; rewrite ?count_cons, ?count_nil; cbn; lia.
Qed.

Lemma run_keeps p os p' i :
  runs max_active instant_max limit p os p' -> is_Some (message_jobs (shared p) !! i) -> count (is_removal i) os = 0 ->
  is_Some (message_jobs (shared p') !! i).
Proof.
  induction 1 as [p|p os p' o p'' Hr IH Hs]; [done|]. rewrite count_app, count_cons, count_nil. intros Hi Hz.
  destruct (is_removal i o) eqn:Eo; [lia|]. specialize (IH Hi ltac:(lia)).
  destruct Hs as [now st b t a o st' ts Ht|now now' st ts _|now st ts|now st ts j e r m Hq|now st ts al dl]; cbn in *; try done.
  - by eapply task_step_keeps.
  - rewrite (proj2 (proj2 (proj2 (latch_fields _ _)))). by eapply queue_keeps.
Qed.

Lemma runs_app p os p' os' p'' :
  runs max_active instant_max limit p os p' -> runs max_active instant_max limit p' os' p'' ->
  runs max_active instant_max limit p (os ++ os') p''.
Proof.
  intros Ha Hb. induction Hb; [by rewrite app_nil_r|]. rewrite app_assoc. eapply runs_snoc; eauto.
Qed.

End removals.

Section properties.
Context (max_active instant_max limit slots : N).


(** C10: A queued job leaves the queue only after its event was processed without an error:
    at any moment the removals tried for a job number at most its successful processings,
    each of which pays for one, and a job that was queued at some point and is not any more
    had a removal in between. Failures only defer it. *)
Theorem jobs_leave_after_success m os p os' p' i :
  runs max_active instant_max limit (initial slots m) os p ->
  runs max_active instant_max limit p os' p' ->
  count (is_removal i) (os ++ os') <= count (is_success i) (os ++ os') /\
  (is_Some (message_jobs (shared p) !! i) -> message_jobs (shared p') !! i = None ->
   0 < count (is_removal i) os').
Proof.
  intros Ha Hb. split.
  - pose proof (run_counts _ _ _ _ _ _ i (runs_app _ _ _ _ _ _ _ _ Ha Hb)) as Hc.
    cbn [initial tasks] in Hc. rewrite count_cons, count_nil in Hc. cbn in Hc. lia.
  - intros Hi Hn. destruct (N.eq_0_gt_0_cases (count (is_removal i) os')) as [Hz|]; [|done].
    destruct (run_keeps _ _ _ _ _ _ i Hb Hi Hz) as [t Ht]. congruence.
Qed.

End properties.

(** ** A concrete run *)

Definition sample_job : str := lit "job".
Definition sample_jobs : gmap str N := {[sample_job := 5]}.
Definition sample_event : SidecarEvent := persisted_message_event sample_job.

(** One place, one slot, at most four queued jobs. *)
Definition sample_start : program := initial 1 sample_jobs.

Lemma advance max_active instant_max limit p0 os now st b t a o st' ts :
  runs max_active instant_max limit p0 os (mkProgram now st (b ++ t :: a)) ->
  task_step max_active instant_max limit now st t o st' ts ->
  runs max_active instant_max limit p0 (os ++ [o]) (mkProgram now st' (b ++ ts ++ a)).
Proof. intros Hr Hs. eapply runs_snoc; [exact Hr|]. by apply program_task. Qed.

(** Advance the run [R] by the step [s] of the task between [b] and [a]. *)
Tactic Notation "advance" ident(R) "by" uconstr(s) "between" uconstr(b) "and" uconstr(a) :=
  let R' := fresh in
  unshelve epose proof (advance _ _ _ _ _ _ _ b _ a _ _ _ R s) as R';
  [first [reflexivity|left; exists 0; vm_compute; reflexivity]..|vm_compute in R'; clear R; rename R' into R].

(** A call the queue answers as specified. *)
Abbreviation as_specified := (or_introl (ex_intro _ 0 eq_refl)) (only parsing).

(** Run until the job is being loaded. *)
Ltac load_sample R :=
  pose proof (runs_nil 1 u64_max 4 sample_start) as R;
  advance R by (step_snapshot _ _ _ _ _) between [] and [];
  advance R by (step_retain _ _ _ _ _ _ _) between [] and [];
  advance R by (step_query _ _ _ _ _ _ _ _ _ as_specified) between [] and [];
  advance R by (step_deferral _ _ _ _ _ _ _) between [] and [];
  advance R by (step_reserve _ _ _ _ _ _ _) between [] and [];
  advance R by (step_slot _ _ _ _ _ _ _ _) between [] and [].


(** The run goes on to process the job and to remove it. *)
Lemma jobs_leave_after_success_witness :
  exists os p os' p', runs 1 u64_max 4 sample_start os p /\ runs 1 u64_max 4 p os' p' /\
    is_Some (message_jobs (shared p) !! sample_job) /\ message_jobs (shared p') !! sample_job = None /\
    0 < count (is_removal sample_job) os'.
Proof.
  load_sample R.
  match type of R with runs _ _ _ _ ?os ?p => exists os, p; pose proof (runs_nil 1 u64_max 4 p) as Q end.
  advance Q by (step_load _ _ _ _ _ _ (Ok (Some (mkMessageJobRecord 1 sample_job 5 sample_event))) sample_jobs _) between [] and [].
  advance Q by (step_process _ _ _ _ _ _ _ (Ok (ignored (lit "not_mentioned") None None))) between [] and [].
  advance Q by (step_remove _ _ _ _ _ _ _ (Ok true) ∅ _) between [] and [].
  eexists _, _. split; [exact R|]. split; [exact Q|].
  destruct (jobs_leave_after_success 1 u64_max 4 1 sample_jobs _ _ _ _ sample_job R Q) as [_ Hl].
  split; [eexists; reflexivity|]. split; [reflexivity|].
  apply Hl; [eexists; reflexivity|reflexivity].
Defined.

(** ** A deviation *)

(** A retry delay is not always waited for: a second delivery of a running job passes the
    deferral check, the job then fails and is deferred, and the delivery's task, which only
    reserves the place afterwards, starts the job at once, before its deadline. *)
Theorem deferred_job_restarted_early :
  exists os p p' deadline, runs 1 u64_max 4 sample_start os p /\
    program_step 1 u64_max 4 p (Started sample_job) p' /\
    deferred_message_jobs (shared p) !! sample_job = Some deadline /\ clock p < deadline.
Proof.
  load_sample R.
  eapply runs_snoc in R; [|eapply (program_delivery 1 u64_max 4 _ _ _ sample_job sample_event (Ok (Enqueued Existing)));
                           left; exists 0; vm_compute; reflexivity].
  vm_compute in R.
  advance R by (step_deferral _ _ _ _ _ _ _) between [LoadingJob sample_job] and [].
  advance R by (step_load _ _ _ _ _ _ (Ok (Some (mkMessageJobRecord 1 sample_job 5 sample_event))) sample_jobs _) between [] and [Reserving sample_job []].
  advance R by (step_process _ _ _ _ _ _ _ (Err (http_retry_after SERVICE_UNAVAILABLE (lit "busy") 60000)))
    between [] and [Reserving sample_job []].
  advance R by (step_record _ _ _ _ _ _ _) between [] and [Reserving sample_job []].
  advance R by (step_drop _ _ _ _ _ _ _) between [] and [Reserving sample_job []].
  eexists _, _, _, 60000. split; [exact R|]. split.
  - apply (program_task 1 u64_max 4 _ _ [Snapshotting] (Reserving sample_job []) []). apply (step_reserve 1 u64_max 4).
  - vm_compute. split; reflexivity.
Qed.
