(* ===== verification/JsonCompact.v ===== *)
(** * A compact JSON text

    A concrete printer and reader of one-line JSON, with the laws the interface of [Serde]
    asks for: the development's examples and witnesses run on it. *)

From S2P Require Import Prelude Text Digest Webex Serde.

Local Open Scope N_scope.

(** ** Printing *)

Definition escape_json_char (c : char) : str :=
  if (c =? 34) || (c =? 92) then [92; c]
  else if c <? 32 then lit "\u00" ++ hex_byte c
  else [c].

Definition print_string (s : str) : str := [34] ++ concat (map escape_json_char s) ++ [34].

Fixpoint print_compact (v : Json) : str :=
  match v with
  | JNull => lit "null"
  | JBool true => lit "true"
  | JBool false => lit "false"
  | JNumber s => s
  | JString s => print_string s
  | JArray es => lit "[" ++ join (lit ",") (map print_compact es) ++ lit "]"
  | JObject fields =>
      lit "{" ++ join (lit ",") (map (fun kv => print_string (fst kv) ++ lit ":" ++ print_compact (snd kv)) fields) ++ lit "}"
  end.

Definition print_field (kv : str * Json) : str := print_string (fst kv) ++ lit ":" ++ print_compact (snd kv).

(** ** Reading *)

Definition unescape_simple (c : char) : option char :=
  if (c =? 34) || (c =? 92) || (c =? ch "/") then Some c
  else if c =? ch "n" then Some 10
  else if c =? ch "r" then Some 13
  else if c =? ch "t" then Some 9
  else None.

Fixpoint read_string (s : str) : option (str * str) :=
  match s with
  | [] => None
  | c :: r =>
      if c =? 34 then Some ([], r)
      else if c =? 92 then
        match r with
        | [] => None
        | e :: r =>
            if e =? ch "u" then
              match r with
              | z :: w :: a :: b :: r =>
                  x ← hex_value a; y ← hex_value b;
                  if (z =? 48) && (w =? 48)
                  then (fun tr => (16 * x + y :: fst tr, snd tr)) <$> read_string r else None
              | _ => None
              end
            else x ← unescape_simple e; (fun tr => (x :: fst tr, snd tr)) <$> read_string r
        end
      else if c <? 32 then None
      else (fun tr => (c :: fst tr, snd tr)) <$> read_string r
  end.

Definition read_literal (s : str) : option (Json * str) :=
  match strip_prefix (lit "null") s, strip_prefix (lit "true") s, strip_prefix (lit "false") s with
  | Some r, _, _ => Some (JNull, r)
  | _, Some r, _ => Some (JBool true, r)
  | _, _, Some r => Some (JBool false, r)
  | _, _, _ => None
  end.

(** A comma goes on with the list and the closing bracket ends it. *)
Definition read_next {A} (close : char) (x : A) (more : str -> option (list A * str)) (s : str)
  : option (list A * str) :=
  match s with
  | c :: r =>
      if c =? ch "," then (fun tr => (x :: fst tr, snd tr)) <$> more r
      else if c =? close then Some ([x], r)
      else None
  | [] => None
  end.

Fixpoint read_value (fuel : nat) (s : str) : option (Json * str) :=
  match fuel with
  | O => None
  | S k =>
      match s with
      | [] => None
      | c :: r =>
          if c =? 34 then '(t, r) ← read_string r; Some (JString t, r)
          else if c =? ch "[" then
            if starts_with (lit "]") r then Some (JArray [], drop 1 r)
            else '(es, r) ← read_elements k r; Some (JArray es, r)
          else if c =? ch "{" then
            if starts_with (lit "}") r then Some (JObject [], drop 1 r)
            else '(fs, r) ← read_fields k r; Some (JObject fs, r)
          else if is_ascii_digit c then
            Some (JNumber (take_while is_ascii_digit s), drop_while is_ascii_digit s)
          else read_literal s
      end
  end
with read_elements (fuel : nat) (s : str) : option (list Json * str) :=
  match fuel with
  | O => None
  | S k => '(v, r) ← read_value k s; read_next (ch "]") v (read_elements k) r
  end
with read_fields (fuel : nat) (s : str) : option (list (str * Json) * str) :=
  match fuel with
  | O => None
  | S k =>
      match s with
      | c :: r =>
          if c =? 34 then
            '(name, r) ← read_string r;
            r ← strip_prefix (lit ":") r;
            '(v, r) ← read_value k r;
            read_next (ch "}") (name, v) (read_fields k) r
          else None
      | [] => None
      end
  end.

Definition read_compact (s : str) : option Json :=
  match read_value (S (length s)) s with
  | Some (v, []) => Some v
  | _ => None
  end.

(** ** What is printed is read back *)

Lemma read_escaped c (s : str) :
  read_string (escape_json_char c ++ s) = (fun tr => (c :: fst tr, snd tr)) <$> read_string s.
Proof.
  unfold escape_json_char. destruct (N.eqb_spec c 34) as [->|H34]; [done|].
  destruct (N.eqb_spec c 92) as [->|H92]; [done|]. cbn [orb].
  destruct (N.ltb_spec c 32) as [Hc|Hc].
  - cbn. rewrite !hex_value_digit by lia. cbn.
    replace (16 * (c / 16) + c mod 16) with c by lia. done.
  - cbn [app read_string]. by decide_N.
Qed.

Lemma read_print_string s r : read_string (concat (map escape_json_char s) ++ 34 :: r) = Some (s, r).
Proof.
  induction s as [|c s IH]; [done|]. cbn [map concat]. rewrite <-app_assoc, read_escaped.
  by rewrite IH.
Qed.

Definition no_digit (r : str) : Prop := match r with [] => True | c :: _ => is_ascii_digit c = false end.

Lemma take_digits s r :
  Forall (fun c => is_ascii_digit c = true) s -> no_digit r -> take_while is_ascii_digit (s ++ r) = s.
Proof.
  intros Hs Hr. destruct r as [|c r]; [|by apply take_while_app_stop].
  rewrite app_nil_r. induction Hs as [|c s Hc _ IH]; cbn; [done|]. by rewrite Hc, IH.
Qed.

Lemma drop_digits s r :
  Forall (fun c => is_ascii_digit c = true) s -> no_digit r -> drop_while is_ascii_digit (s ++ r) = r.
Proof.
  intros Hs Hr. induction Hs as [|c s Hc _ IH]; cbn; [|by rewrite Hc].
  destruct r as [|c r]; [done|]. by apply drop_while_id.
Qed.

Lemma join_cons_app (sep w : str) ws r :
  join sep (w :: ws) ++ r = w ++ (match ws with [] => [] | _ => sep ++ join sep ws end) ++ r.
Proof. destruct ws; cbn [join]; [done|]. by rewrite <-!app_assoc. Qed.

Definition value_read (k : nat) : Prop := forall v r,
  json_ok v = true -> (length (print_compact v) < k)%nat -> no_digit r ->
  read_value k (print_compact v ++ r) = Some (v, r).

Definition elements_read (k : nat) : Prop := forall e es r,
  all json_ok (e :: es) = true -> (S (length (join (lit ",") (map print_compact (e :: es)))) < k)%nat ->
  read_elements k (join (lit ",") (map print_compact (e :: es)) ++ ch "]" :: r) = Some (e :: es, r).

Definition field_ok (kv : str * Json) : bool := all is_scalar (fst kv) && json_ok (snd kv).

Definition fields_read (k : nat) : Prop := forall f fs r,
  all field_ok (f :: fs) = true -> (S (length (join (lit ",") (map print_field (f :: fs)))) < k)%nat ->
  read_fields k (join (lit ",") (map print_field (f :: fs)) ++ ch "}" :: r) = Some (f :: fs, r).

Lemma print_object fs :
  print_compact (JObject fs) = lit "{" ++ join (lit ",") (map print_field fs) ++ lit "}".
Proof. done. Qed.

Lemma print_starts v : json_ok v = true ->
  exists c s, print_compact v = c :: s /\ c <> ch "]" /\ c <> ch "}".
Proof.
  destruct v as [|[]|s|s|es|fs]; cbn; intros Hv; try by repeat econstructor.
  unfold unsigned_text, all_digits in Hv. destruct s as [|c s]; [done|].
  exists c, s. split; [done|]. cbn in Hv. destruct (is_ascii_digit c) eqn:E; [|done].
  unfold is_ascii_digit, ch in *. cbn. lia.
Qed.

Lemma number_digits s : json_ok (JNumber s) = true ->
  s <> [] /\ Forall (fun c => is_ascii_digit c = true) s.
Proof.
  cbn [json_ok]. unfold unsigned_text, all_digits. intros H.
  destruct (is_empty s) eqn:E; cbn [negb andb] in H; [done|]. apply is_empty_false in E.
  split; [done|]. apply all_true. by destruct (all is_ascii_digit s).
Qed.

Lemma read_value_number k s r :
  json_ok (JNumber s) = true -> no_digit r -> read_value (S k) (s ++ r) = Some (JNumber s, r).
Proof.
  intros [Hn Hs]%number_digits Hr. destruct s as [|c s]; [done|]. cbn [app read_value].
  change (c :: s ++ r) with ((c :: s) ++ r). rewrite take_digits, drop_digits by done.
  inversion Hs as [|? ? Hc _]; subst. rewrite Hc. unfold is_ascii_digit in Hc.
  change (ch "[") with 91. change (ch "{") with 123. by decide_N.
Qed.

Lemma read_value_step k : elements_read k -> fields_read k -> value_read (S k).
Proof.
  intros He Hf v r Hv Hl Hr. destruct v as [|[]|s|s|es|fs]; try done.
  - by apply read_value_number.
  - cbn [print_compact]. unfold print_string. rewrite <-!app_assoc. cbn [app read_value]. by rewrite (read_print_string s r).
  - cbn [print_compact] in *. rewrite <-!app_assoc. destruct es as [|e es]; [done|].
    assert (json_ok e = true) as (c & t & Ht & Hc & _)%print_starts by (cbn in Hv; by destruct (json_ok e)).
    specialize (He e es r Hv ltac:(rewrite !length_app in Hl; cbn [length lit] in *; lia)).
    change (lit "]" ++ r) with (ch "]" :: r). change (lit "[") with [91]. cbn [app read_value].
    change (91 =? 34) with false. change (91 =? ch "[") with true. cbn iota.
    assert (starts_with (lit "]") (join (lit ",") (map print_compact (e :: es)) ++ ch "]" :: r) = false) as ->.
    { apply not_true_iff_false. intros (u & Hu)%starts_with_spec. cbn [map] in Hu.
      rewrite join_cons_app, Ht in Hu. by injection Hu as ->. }
    by rewrite He.
  - rewrite print_object in *. rewrite <-!app_assoc. destruct fs as [|f fs]; [done|].
    specialize (Hf f fs r Hv ltac:(rewrite !length_app in Hl; cbn [length lit] in *; lia)).
    change (lit "}" ++ r) with (ch "}" :: r). change (lit "{") with [123]. cbn [app read_value].
    change (123 =? 34) with false. change (123 =? ch "[") with false.
    change (123 =? ch "{") with true. cbn iota.
    assert (starts_with (lit "}") (join (lit ",") (map print_field (f :: fs)) ++ ch "}" :: r) = false) as ->.
    { apply not_true_iff_false. intros (u & Hu)%starts_with_spec. cbn [map] in Hu.
      rewrite join_cons_app in Hu. done. }
    by rewrite Hf.
Qed.

Lemma read_next_more {A} close (x : A) more s :
  read_next close x more (lit "," ++ s) = (fun tr => (x :: fst tr, snd tr)) <$> more s.
Proof. done. Qed.

Lemma elements_read_step k : value_read k -> elements_read k -> elements_read (S k).
Proof.
  intros Hval He e es r [Hv Hvs]%andb_true_iff Hl. cbn [map] in *.
  rewrite join_cons_app. cbn [read_elements].
  destruct es as [|e' es]; cbn [map].
  - rewrite Hval; [done|done| |done]. cbn in Hl. lia.
  - rewrite <-app_assoc, Hval; [|done| |done].
    + cbn [mbind option_bind]. pose proof (He e' es r) as Hn. cbn [map] in Hn. rewrite read_next_more, Hn; [done|done|].
      cbn [join map] in *. rewrite !length_app in Hl. cbn [length lit] in *. lia.
    + cbn [join map] in *. rewrite !length_app in Hl. lia.
Qed.

Lemma fields_read_step k : value_read k -> fields_read k -> fields_read (S k).
Proof.
  intros Hval Hf [name v] fs r [Hv Hvs]%andb_true_iff Hl. apply andb_true_iff in Hv as [_ Hv]. cbn [fst snd] in Hv.
  cbn [map] in *. rewrite join_cons_app. cbn [read_fields].
  unfold print_field at 1. cbn [fst snd]. unfold print_string. rewrite <-!app_assoc.
  cbn [app]. change (34 =? 34) with true. cbn iota.
  rewrite (read_print_string name (lit ":" ++ _)).
  cbn [mbind option_bind]. rewrite (proj2 (strip_prefix_spec _ _ _) eq_refl). cbn [mbind option_bind].
  assert (length (print_compact v) < k)%nat as Hlv.
  { destruct (map print_field fs); cbn [join] in Hl; unfold print_field in Hl; cbn [fst snd] in Hl;
      rewrite ?length_app in Hl; lia. }
  destruct fs as [|f fs]; cbn [map].
  - by rewrite Hval.
  - rewrite <-app_assoc, Hval by done. cbn [mbind option_bind].
    pose proof (Hf f fs r) as Hn. cbn [map] in Hn. rewrite read_next_more, Hn; [done|done|].
    cbn [join map] in *. rewrite !length_app in Hl. cbn [length lit] in *. lia.
Qed.

Lemma reads k : value_read k /\ elements_read k /\ fields_read k.
Proof.
  induction k as [|k (Hv & He & Hf)].
  - repeat split; intros ? **; lia.
  - repeat split; [by apply read_value_step|by apply elements_read_step|by apply fields_read_step].
Qed.

Lemma read_print_compact v : json_ok v = true -> read_compact (print_compact v) = Some v.
Proof.
  intros Hv. unfold read_compact. pose proof (proj1 (reads (S (length (print_compact v)))) v [] Hv) as H.
  rewrite app_nil_r in H. rewrite H; [done|lia|done].
Qed.

(** ** The text is one line of scalar values *)

Definition line_char (c : char) : Prop := is_scalar c = true /\ 32 <= c.

Lemma ascii_line (s : str) : all (fun c => (32 <=? c) && (c <=? 126)) s = true -> Forall line_char s.
Proof.
  intros H%all_true. eapply Forall_impl; [exact H|]. intros c Hc. cbn beta in Hc. unfold line_char, is_scalar. lia.
Qed.

Lemma hex_digit_line n : n < 16 -> line_char (hex_digit n).
Proof. intros H. unfold line_char, is_scalar, hex_digit. destruct (N.ltb_spec n 10); lia. Qed.

Lemma print_string_line (s : str) : all is_scalar s = true -> Forall line_char (print_string s).
Proof.
  intros Hs%all_true. unfold print_string. apply Forall_app_2; [by apply ascii_line|].
  apply Forall_app_2; [|by apply ascii_line]. induction Hs as [|c s Hc _ IH]; [constructor|].
  cbn [map concat]. apply Forall_app_2; [|done]. unfold escape_json_char.
  destruct (_ || _) eqn:E.
  - constructor; [by split|]. constructor; [|constructor]. unfold line_char, is_scalar. lia.
  - destruct (N.ltb_spec c 32); [|by repeat constructor].
    apply Forall_app_2; [by apply ascii_line|]. unfold hex_byte.
    repeat constructor; apply hex_digit_line; lia.
Qed.

Lemma print_compact_line v : json_ok v = true -> Forall line_char (print_compact v).
Proof.
  induction v as [|b|s|s|es IH|fs IH] using json_induction; intros Hv.
  - by apply ascii_line.
  - destruct b; by apply ascii_line.
  - apply number_digits in Hv as [_ Hs]. cbn. eapply Forall_impl; [exact Hs|].
    intros c Hc. unfold line_char, is_ascii_digit, is_scalar in *. lia.
  - by apply print_string_line.
  - cbn [print_compact]. apply Forall_app_2; [by apply ascii_line|].
    apply Forall_app_2; [|by apply ascii_line]. apply join_Forall; [by apply ascii_line|].
    change (all json_ok es = true) in Hv. apply all_true in Hv. apply Forall_map.
    by eapply Forall_impl; [apply Forall_and; split; [exact IH|exact Hv]|intros e [? ?]; auto].
  - rewrite print_object. apply Forall_app_2; [by apply ascii_line|].
    apply Forall_app_2; [|by apply ascii_line]. apply join_Forall; [by apply ascii_line|].
    change (all field_ok fs = true) in Hv. apply all_true in Hv. apply Forall_map.
    eapply Forall_impl; [apply Forall_and; split; [exact IH|exact Hv]|].
    intros kv [Hkv [Hn Hok]%andb_true_iff]. unfold print_field.
    apply Forall_app_2; [by apply print_string_line|]. apply Forall_app_2; [by apply ascii_line|auto].
Qed.

Definition compact_text : JsonText := read_compact.
Definition compact_print : JsonPrint := print_compact.

Lemma compact_laws : @JsonLaws compact_text compact_print.
Proof.
  split.
  - intros v Hv _. by apply read_print_compact.
  - intros v Hv. eapply Forall_impl; [by apply print_compact_line|]. by intros c [? ?].
  - intros v Hv. eapply Forall_impl; [by apply print_compact_line|]. by intros c [? ?].
Qed.

Example compact_example :
  read_compact (lit "{'a':[1,true,null],'b':'x\n\u0009'}") = None /\
  read_compact [123; 34; 97; 34; 58; 91; 49; 44; 110; 117; 108; 108; 93; 125]
  = Some (JObject [(lit "a", JArray [JNumber (lit "1"); JNull])]).
Proof. by vm_compute. Qed.
