(* ===== verification/CanaryProtocol.v ===== *)
(** * Runtime canary protocol

    [src/canary_protocol.rs]: the fixed contract of a canary report, the evidence the host
    and the runtime collect around it, the binding of a run's fixtures to its nonce, and the
    fixture paths. *)

From S2P Require Import Prelude Text Digest Net Webex Serde.

Local Open Scope N_scope.

(** ** Constants *)

Definition RUNTIME_CANARY_SCHEMA_VERSION : N := 1.
Definition RUNTIME_CANARY_SUITE : str := lit "runtime-boundary-v1".
Definition RUNTIME_CANARY_REPORT_MAX_BYTES : N := 16 * 1024.
Definition RUNTIME_CANARY_RUNTIME_EVIDENCE_MAX_BYTES : N := 32 * 1024.
Definition RUNTIME_CANARY_FINAL_PREFIX : str := lit "WEBEX_CODEX_CANARY_OK".
Definition RUNTIME_CANARY_HOST_UNIX_FIXTURE_ROOT : str := lit "/run/webex-codex-canary".
Definition RUNTIME_CANARY_HOST_PROTECTED_FIXTURE_ROOT : str :=
  lit "/var/lib/webex-generic-account-bot/canary-fixtures".
Definition RUNTIME_CANARY_WORKSPACE_FIXTURE_ROOT : str := lit "/workspace/.webex-codex-canary".

Definition RUNTIME_CANARY_CHECKS : list str :=
  [lit "bot_socket_denied";
   lit "capability_sets_empty";
   lit "config_worker_socket_denied";
   lit "credential_path_denied";
   lit "final_output_denied";
   lit "forbidden_network_denied";
   lit "host_protected_path_denied";
   lit "host_unix_socket_denied";
   lit "launcher_socket_denied";
   lit "main_home_denied";
   lit "main_process_inspection_denied";
   lit "no_new_privileges";
   lit "privilege_escalation_denied";
   lit "sensitive_descriptors_denied";
   lit "setid_and_file_capabilities_absent";
   lit "tool_home_writable";
   lit "workspace_read_only"].

(** ** Records *)

Record RuntimeCanaryFixtureInputs : Type := mkFixtureInputs {
  fi_main_pid : N;
  fi_fd_secret_sha256 : str;
  fi_forbidden_tcp : str;
  fi_bot_tcp : str;
  fi_host_unix : str;
  fi_host_protected_path : str
}.

Record RuntimeCanaryHostEvidence : Type := mkHostEvidence {
  he_nonce : str;
  he_fixture_binding : str;
  he_protected_path_regular_file_before : bool;
  he_protected_path_regular_file_after : bool;
  he_protected_path_identity_unchanged : bool;
  he_protected_path_contents_unchanged : bool;
  he_credential_path_regular_file_before : bool;
  he_credential_path_regular_file_after : bool;
  he_credential_path_identity_unchanged : bool;
  he_credential_path_contents_unchanged : bool;
  he_main_home_fixture_regular_file_before : bool;
  he_main_home_fixture_regular_file_after : bool;
  he_main_home_fixture_identity_unchanged : bool;
  he_main_home_fixture_contents_unchanged : bool;
  he_codex_home_fixture_regular_file_before : bool;
  he_codex_home_fixture_regular_file_after : bool;
  he_codex_home_fixture_identity_unchanged : bool;
  he_codex_home_fixture_contents_unchanged : bool;
  he_final_output_fixture_regular_file_before : bool;
  he_final_output_fixture_regular_file_after : bool;
  he_final_output_fixture_identity_unchanged : bool;
  he_final_output_fixture_contents_unchanged : bool;
  he_workspace_fixture_regular_file_before : bool;
  he_workspace_fixture_regular_file_after : bool;
  he_workspace_fixture_identity_unchanged : bool;
  he_workspace_fixture_contents_unchanged : bool;
  he_host_unix_listener_live_before : bool;
  he_host_unix_listener_live_after : bool;
  he_host_unix_accept_count : N;
  he_forbidden_tcp_listener_live_before : bool;
  he_forbidden_tcp_listener_live_after : bool;
  he_forbidden_tcp_accept_count : N;
  he_bot_tcp_listener_live_before : bool;
  he_bot_tcp_listener_live_after : bool;
  he_bot_tcp_accept_count : N;
  he_config_worker_socket_live_before : bool;
  he_config_worker_socket_live_after : bool;
  he_launcher_socket_live_before : bool;
  he_launcher_socket_live_after : bool
}.

(** [checks] is a [BTreeMap]: its entries in the order of their names are [btree_entries]. *)
Record RuntimeCanaryReport : Type := mkReport {
  rr_schema_version : N;
  rr_suite : str;
  rr_nonce : str;
  rr_fixture_binding : str;
  rr_checks : gmap str bool;
  rr_final_line : str
}.

Record RuntimeCanaryRuntimeEvidence : Type := mkRuntimeEvidence {
  re_nonce : str;
  re_fixture_binding : str;
  re_report : RuntimeCanaryReport;
  re_main_pid : N;
  re_fd_secret_sha256 : str;
  re_credential_path_regular_file_before : bool;
  re_credential_path_regular_file_after : bool;
  re_credential_path_identity_unchanged : bool;
  re_credential_path_contents_unchanged : bool;
  re_main_home_fixture_regular_file_before : bool;
  re_main_home_fixture_regular_file_after : bool;
  re_main_home_fixture_identity_unchanged : bool;
  re_main_home_fixture_contents_unchanged : bool;
  re_codex_home_fixture_regular_file_before : bool;
  re_codex_home_fixture_regular_file_after : bool;
  re_codex_home_fixture_identity_unchanged : bool;
  re_codex_home_fixture_contents_unchanged : bool;
  re_final_output_fixture_regular_file_before : bool;
  re_final_output_fixture_regular_file_after : bool;
  re_final_output_fixture_identity_unchanged : bool;
  re_final_output_fixture_contents_unchanged : bool;
  re_workspace_fixture_regular_file_before : bool;
  re_workspace_fixture_regular_file_after : bool;
  re_workspace_fixture_identity_unchanged : bool;
  re_workspace_fixture_contents_unchanged : bool
}.

(** [anyhow] messages, and [serde_json]'s errors. *)
Inductive CanaryError : Type :=
| Invalid (message : str)
| InvalidJson.

Definition btree_entries (m : gmap str bool) : list (str * bool) :=
  stable_sort (fun a b => str_leb (fst a) (fst b)) (map_to_list m).

(** ** Validation of the dynamic texts *)

Definition is_lower_hex (byte : N) : bool := is_ascii_hexdigit byte && negb (is_ascii_uppercase byte).

Definition validate_runtime_canary_nonce (value : str) : result CanaryError unit :=
  fail_if (negb (byte_len value =? 64) || negb (all is_lower_hex (as_bytes value)))
    (Invalid (lit "runtime canary nonce must be 32 lowercase hexadecimal bytes")).

Definition validate_runtime_canary_fixture_binding (value : str) : result CanaryError unit :=
  map_err (fun _ => Invalid (lit "runtime canary fixture binding must be a SHA-256 digest"))
    (validate_runtime_canary_nonce value).

Definition expected_runtime_canary_final_line (nonce fixture_binding : str) : str :=
  RUNTIME_CANARY_FINAL_PREFIX ++ lit " " ++ nonce ++ lit " " ++ fixture_binding.

Definition runtime_canary_forbidden_ip_allowed (a : IpAddr) : bool :=
  negb (is_loopback a) && negb (is_unspecified a) && negb (is_multicast a)
  && negb (match a with V4 x y z w => is_broadcast x y z w | V6 _ => false end)
  && negb (match a with V6 groups => is_some_and (to_ipv4 groups) (fun _ => true) | V4 _ _ _ _ => false end).

(** ** The binding of the fixtures *)

Section digests.
Context `{Sha256} `{JsonPrint}.

Definition fixture_inputs_json (inputs : RuntimeCanaryFixtureInputs) : Json :=
  struct_json
    [lit "main_pid"; lit "fd_secret_sha256"; lit "forbidden_tcp"; lit "bot_tcp"; lit "host_unix"; lit "host_protected_path"]
    [JNumber (decimal (fi_main_pid inputs)); JString (fi_fd_secret_sha256 inputs); JString (fi_forbidden_tcp inputs);
     JString (fi_bot_tcp inputs); JString (fi_host_unix inputs); JString (fi_host_protected_path inputs)].

Definition canonical_fixture_binding (nonce : str) (inputs : RuntimeCanaryFixtureInputs) : Json :=
  struct_json
    [lit "schema_version"; lit "suite"; lit "nonce"; lit "inputs"]
    [JNumber (decimal RUNTIME_CANARY_SCHEMA_VERSION); JString RUNTIME_CANARY_SUITE; JString nonce;
     fixture_inputs_json inputs].

Definition expected_host_unix (nonce : str) : str :=
  RUNTIME_CANARY_HOST_UNIX_FIXTURE_ROOT ++ lit "/" ++ nonce ++ lit ".sock".

Definition expected_host_protected (nonce : str) : str :=
  RUNTIME_CANARY_HOST_PROTECTED_FIXTURE_ROOT ++ lit "/" ++ nonce.

Definition runtime_canary_fixture_binding (nonce : str) (inputs : RuntimeCanaryFixtureInputs)
  : result CanaryError str :=
  validate_runtime_canary_nonce nonce ;?
  validate_runtime_canary_nonce (fi_fd_secret_sha256 inputs) ;?
  let? forbidden_tcp := ok_or (parse_socket_addr (fi_forbidden_tcp inputs))
    (Invalid (lit "runtime canary forbidden TCP endpoint is invalid")) in
  let? bot_tcp := ok_or (parse_socket_addr (fi_bot_tcp inputs))
    (Invalid (lit "runtime canary bot TCP endpoint is invalid")) in
  fail_if (negb ((2 <=? fi_main_pid inputs) && (fi_main_pid inputs <=? 2147483647))
      || negb (runtime_canary_forbidden_ip_allowed (ip forbidden_tcp))
      || (port forbidden_tcp =? 0)
      || negb (str_eqb (fi_forbidden_tcp inputs) (socket_addr_to_string forbidden_tcp))
      || negb (is_loopback (ip bot_tcp))
      || (port bot_tcp =? 0)
      || negb (str_eqb (fi_bot_tcp inputs) (socket_addr_to_string bot_tcp))
      || bool_decide (forbidden_tcp = bot_tcp)
      || negb (str_eqb (fi_host_unix inputs) (expected_host_unix nonce))
      || negb (str_eqb (fi_host_protected_path inputs) (expected_host_protected nonce)))
    (Invalid (lit "runtime canary fixture inputs are invalid")) ;?
  Ok (hex (sha256 (json_to_vec (canonical_fixture_binding nonce inputs)))).

(** ** Fixture paths *)

Definition runtime_canary_credential_path (nonce : str) : result CanaryError str :=
  validate_runtime_canary_nonce nonce ;?
  let unit_digest := hex (sha256 (as_bytes nonce)) in
  Ok (lit "/run/credentials/webex-codex-run-" ++ take 24 unit_digest ++ lit ".service/codex-auth.json").

Definition runtime_canary_workspace_fixture_path (nonce : str) : result CanaryError str :=
  validate_runtime_canary_nonce nonce ;?
  Ok (RUNTIME_CANARY_WORKSPACE_FIXTURE_ROOT ++ lit "/" ++ nonce ++ lit "/probe.txt").

Definition runtime_canary_private_home_fixture_path (root nonce : str) : result CanaryError str :=
  validate_runtime_canary_nonce nonce ;?
  Ok (root ++ lit "/.webex-codex-canary-" ++ nonce).

Definition runtime_canary_main_home_fixture_path (nonce : str) : result CanaryError str :=
  runtime_canary_private_home_fixture_path (lit "/tmp/webex-codex-main-home") nonce.

Definition runtime_canary_codex_home_fixture_path (nonce : str) : result CanaryError str :=
  runtime_canary_private_home_fixture_path (lit "/tmp/webex-codex-main") nonce.

Definition runtime_canary_final_output_fixture_path (nonce : str) : result CanaryError str :=
  validate_runtime_canary_nonce nonce ;?
  Ok (lit "/tmp/webex-codex-main/.webex-codex-final-output-canary-" ++ nonce).
End digests.

(** ** Validation of evidence and reports *)

Definition validate_host_evidence (e : RuntimeCanaryHostEvidence) (expected_nonce expected_fixture_binding : str)
  : result CanaryError unit :=
  validate_runtime_canary_nonce expected_nonce ;?
  validate_runtime_canary_fixture_binding expected_fixture_binding ;?
  fail_if (negb (str_eqb (he_nonce e) expected_nonce)
    || negb (str_eqb (he_fixture_binding e) expected_fixture_binding)
    || negb (he_protected_path_regular_file_before e)
    || negb (he_protected_path_regular_file_after e)
    || negb (he_protected_path_identity_unchanged e)
    || negb (he_protected_path_contents_unchanged e)
    || negb (he_credential_path_regular_file_before e)
    || negb (he_credential_path_regular_file_after e)
    || negb (he_credential_path_identity_unchanged e)
    || negb (he_credential_path_contents_unchanged e)
    || negb (he_main_home_fixture_regular_file_before e)
    || negb (he_main_home_fixture_regular_file_after e)
    || negb (he_main_home_fixture_identity_unchanged e)
    || negb (he_main_home_fixture_contents_unchanged e)
    || negb (he_codex_home_fixture_regular_file_before e)
    || negb (he_codex_home_fixture_regular_file_after e)
    || negb (he_codex_home_fixture_identity_unchanged e)
    || negb (he_codex_home_fixture_contents_unchanged e)
    || negb (he_final_output_fixture_regular_file_before e)
    || negb (he_final_output_fixture_regular_file_after e)
    || negb (he_final_output_fixture_identity_unchanged e)
    || negb (he_final_output_fixture_contents_unchanged e)
    || negb (he_workspace_fixture_regular_file_before e)
    || negb (he_workspace_fixture_regular_file_after e)
    || negb (he_workspace_fixture_identity_unchanged e)
    || negb (he_workspace_fixture_contents_unchanged e)
    || negb (he_host_unix_listener_live_before e)
    || negb (he_host_unix_listener_live_after e)
    || negb (he_host_unix_accept_count e =? 0)
    || negb (he_forbidden_tcp_listener_live_before e)
    || negb (he_forbidden_tcp_listener_live_after e)
    || negb (he_forbidden_tcp_accept_count e =? 0)
    || negb (he_bot_tcp_listener_live_before e)
    || negb (he_bot_tcp_listener_live_after e)
    || negb (he_bot_tcp_accept_count e =? 0)
    || negb (he_config_worker_socket_live_before e)
    || negb (he_config_worker_socket_live_after e)
    || negb (he_launcher_socket_live_before e)
    || negb (he_launcher_socket_live_after e))
    (Invalid (lit "runtime canary host evidence is incomplete or reports fixture access")).

Definition validate_shape (r : RuntimeCanaryReport) (expected_nonce expected_fixture_binding : str)
  : result CanaryError unit :=
  validate_runtime_canary_nonce expected_nonce ;?
  validate_runtime_canary_fixture_binding expected_fixture_binding ;?
  fail_if (negb (rr_schema_version r =? RUNTIME_CANARY_SCHEMA_VERSION)
    || negb (str_eqb (rr_suite r) RUNTIME_CANARY_SUITE)
    || negb (str_eqb (rr_nonce r) expected_nonce)
    || negb (str_eqb (rr_fixture_binding r) expected_fixture_binding)
    || negb (str_eqb (rr_final_line r) (expected_runtime_canary_final_line expected_nonce expected_fixture_binding))
    || negb (len (btree_entries (rr_checks r)) =? len RUNTIME_CANARY_CHECKS)
    || any (fun name => negb (any (str_eqb name) RUNTIME_CANARY_CHECKS)) (map fst (btree_entries (rr_checks r)))
    || any (fun name => negb (bool_decide (is_Some (rr_checks r !! name)))) RUNTIME_CANARY_CHECKS)
    (Invalid (lit "runtime canary report does not match its fixed contract")).

(** [checks.values().any(|passed| !passed)]. *)
Definition any_failed (r : RuntimeCanaryReport) : bool := any negb (map snd (btree_entries (rr_checks r))).

(** [RuntimeCanaryReport::new]. *)
Definition new_report (nonce fixture_binding : str) (checks : gmap str bool) : result CanaryError RuntimeCanaryReport :=
  let report := mkReport RUNTIME_CANARY_SCHEMA_VERSION RUNTIME_CANARY_SUITE nonce fixture_binding checks
                  (expected_runtime_canary_final_line nonce fixture_binding) in
  validate_shape report (rr_nonce report) (rr_fixture_binding report) ;?
  Ok report.

Definition ensure_success (r : RuntimeCanaryReport) (expected_nonce expected_fixture_binding : str)
    (host_evidence : RuntimeCanaryHostEvidence) : result CanaryError unit :=
  validate_host_evidence host_evidence expected_nonce expected_fixture_binding ;?
  validate_shape r expected_nonce expected_fixture_binding ;?
  fail_if (any_failed r) (Invalid (lit "runtime canary report contains a failed check")).

Definition validate_runtime_evidence `{Sha256} `{JsonPrint} (e : RuntimeCanaryRuntimeEvidence)
    (expected_nonce expected_fixture_binding : str) (expected_inputs : RuntimeCanaryFixtureInputs)
  : result CanaryError unit :=
  validate_runtime_canary_nonce expected_nonce ;?
  validate_runtime_canary_fixture_binding expected_fixture_binding ;?
  let? derived_binding := runtime_canary_fixture_binding expected_nonce expected_inputs in
  validate_shape (re_report e) expected_nonce expected_fixture_binding ;?
  fail_if (negb (str_eqb derived_binding expected_fixture_binding)
    || negb (str_eqb (re_nonce e) expected_nonce)
    || negb (str_eqb (re_fixture_binding e) expected_fixture_binding)
    || negb (re_main_pid e =? fi_main_pid expected_inputs)
    || negb (str_eqb (re_fd_secret_sha256 e) (fi_fd_secret_sha256 expected_inputs))
    || any_failed (re_report e)
    || negb (re_credential_path_regular_file_before e)
    || negb (re_credential_path_regular_file_after e)
    || negb (re_credential_path_identity_unchanged e)
    || negb (re_credential_path_contents_unchanged e)
    || negb (re_main_home_fixture_regular_file_before e)
    || negb (re_main_home_fixture_regular_file_after e)
    || negb (re_main_home_fixture_identity_unchanged e)
    || negb (re_main_home_fixture_contents_unchanged e)
    || negb (re_codex_home_fixture_regular_file_before e)
    || negb (re_codex_home_fixture_regular_file_after e)
    || negb (re_codex_home_fixture_identity_unchanged e)
    || negb (re_codex_home_fixture_contents_unchanged e)
    || negb (re_final_output_fixture_regular_file_before e)
    || negb (re_final_output_fixture_regular_file_after e)
    || negb (re_final_output_fixture_identity_unchanged e)
    || negb (re_final_output_fixture_contents_unchanged e)
    || negb (re_workspace_fixture_regular_file_before e)
    || negb (re_workspace_fixture_regular_file_after e)
    || negb (re_workspace_fixture_identity_unchanged e)
    || negb (re_workspace_fixture_contents_unchanged e))
    (Invalid (lit "runtime canary runtime evidence does not match its fixed contract")).

(** ** JSON lines *)

Definition report_names : list str :=
  [lit "schema_version"; lit "suite"; lit "nonce"; lit "fixture_binding"; lit "checks"; lit "final_line"].

Definition checks_json (m : gmap str bool) : Json :=
  JObject (map (fun kv => (fst kv, JBool (snd kv))) (btree_entries m)).

Definition report_json (r : RuntimeCanaryReport) : Json :=
  struct_json report_names
    [JNumber (decimal (rr_schema_version r)); JString (rr_suite r); JString (rr_nonce r);
     JString (rr_fixture_binding r); checks_json (rr_checks r); JString (rr_final_line r)].

(** [RuntimeCanaryChecksVisitor::visit_map]: a repeated name is an error. *)
Fixpoint visit_checks (checks : gmap str bool) (fields : list (str * Json)) : option (gmap str bool) :=
  match fields with
  | [] => Some checks
  | (name, v) :: fields' =>
      passed ← json_bool v;
      match checks !! name with
      | Some _ => None
      | None => visit_checks (<[name := passed]> checks) fields'
      end
  end.

Definition deserialize_runtime_canary_checks (v : Json) : option (gmap str bool) :=
  match v with
  | JObject fields => visit_checks ∅ fields
  | _ => None
  end.

Definition decode_report (v : Json) : option RuntimeCanaryReport :=
  fields ← struct_fields report_names v;
  match fields with
  | [version; suite; nonce; binding; checks; final_line] =>
      version ← json_unsigned 65535 version; suite ← json_string suite; nonce ← json_string nonce;
      binding ← json_string binding; checks ← deserialize_runtime_canary_checks checks;
      final_line ← json_string final_line;
      Some (mkReport version suite nonce binding checks final_line)
  | _ => None
  end.

Definition evidence_names : list str :=
  [lit "nonce";
   lit "fixture_binding";
   lit "report";
   lit "main_pid";
   lit "fd_secret_sha256";
   lit "credential_path_regular_file_before";
   lit "credential_path_regular_file_after";
   lit "credential_path_identity_unchanged";
   lit "credential_path_contents_unchanged";
   lit "main_home_fixture_regular_file_before";
   lit "main_home_fixture_regular_file_after";
   lit "main_home_fixture_identity_unchanged";
   lit "main_home_fixture_contents_unchanged";
   lit "codex_home_fixture_regular_file_before";
   lit "codex_home_fixture_regular_file_after";
   lit "codex_home_fixture_identity_unchanged";
   lit "codex_home_fixture_contents_unchanged";
   lit "final_output_fixture_regular_file_before";
   lit "final_output_fixture_regular_file_after";
   lit "final_output_fixture_identity_unchanged";
   lit "final_output_fixture_contents_unchanged";
   lit "workspace_fixture_regular_file_before";
   lit "workspace_fixture_regular_file_after";
   lit "workspace_fixture_identity_unchanged";
   lit "workspace_fixture_contents_unchanged"].

Definition evidence_flags (e : RuntimeCanaryRuntimeEvidence) : list bool :=
  [re_credential_path_regular_file_before e;
   re_credential_path_regular_file_after e;
   re_credential_path_identity_unchanged e;
   re_credential_path_contents_unchanged e;
   re_main_home_fixture_regular_file_before e;
   re_main_home_fixture_regular_file_after e;
   re_main_home_fixture_identity_unchanged e;
   re_main_home_fixture_contents_unchanged e;
   re_codex_home_fixture_regular_file_before e;
   re_codex_home_fixture_regular_file_after e;
   re_codex_home_fixture_identity_unchanged e;
   re_codex_home_fixture_contents_unchanged e;
   re_final_output_fixture_regular_file_before e;
   re_final_output_fixture_regular_file_after e;
   re_final_output_fixture_identity_unchanged e;
   re_final_output_fixture_contents_unchanged e;
   re_workspace_fixture_regular_file_before e;
   re_workspace_fixture_regular_file_after e;
   re_workspace_fixture_identity_unchanged e;
   re_workspace_fixture_contents_unchanged e].

Definition evidence_json (e : RuntimeCanaryRuntimeEvidence) : Json :=
  struct_json evidence_names
    ([JString (re_nonce e); JString (re_fixture_binding e); report_json (re_report e);
     JNumber (decimal (re_main_pid e)); JString (re_fd_secret_sha256 e)]
    ++ map JBool (evidence_flags e)).

Definition decode_evidence (v : Json) : option RuntimeCanaryRuntimeEvidence :=
  fields ← struct_fields evidence_names v;
  match fields with
  | nonce :: binding :: report :: pid :: secret :: flags =>
      nonce ← json_string nonce; binding ← json_string binding;
      report ← decode_report report; pid ← json_unsigned u32_max pid; secret ← json_string secret;
      flags ← mapM json_bool flags;
      match flags with
      | [b0; b1; b2; b3; b4; b5; b6; b7; b8; b9; b10; b11; b12; b13; b14; b15; b16; b17; b18; b19] =>
          Some (mkRuntimeEvidence nonce binding report pid secret
            b0 b1 b2 b3 b4 b5 b6 b7 b8 b9 b10 b11 b12 b13 b14 b15 b16 b17 b18 b19)
      | _ => None
      end
  | _ => None
  end.

(** One JSON value, a line feed, and a limit on both. *)
Definition json_line `{JsonPrint} (v : Json) (max : N) (too_long : str) : result CanaryError (list N) :=
  let output := json_to_vec v ++ [10] in
  fail_if (max <? len output) (Invalid too_long) ;?
  Ok output.

Definition report_to_json_line `{JsonPrint} (r : RuntimeCanaryReport) : result CanaryError (list N) :=
  json_line (report_json r) RUNTIME_CANARY_REPORT_MAX_BYTES (lit "runtime canary report exceeds its byte limit").

Definition evidence_to_json_line `{JsonPrint} (e : RuntimeCanaryRuntimeEvidence) : result CanaryError (list N) :=
  json_line (evidence_json e) RUNTIME_CANARY_RUNTIME_EVIDENCE_MAX_BYTES
    (lit "runtime canary runtime evidence exceeds its byte limit").

(** [&input[..input.len() - 1]]. *)
Definition without_last (input : list N) : list N := take (length input - 1) input.

Definition framing_invalid (input : list N) (max : N) : bool :=
  is_empty input || (max <? len input) || negb (ends_with [10] input)
  || any (N.eqb 10) (without_last input) || any (N.eqb 13) input.

Definition parse_runtime_canary_report `{JsonText} (input : list N) (expected_nonce expected_fixture_binding : str)
  : result CanaryError RuntimeCanaryReport :=
  fail_if (framing_invalid input RUNTIME_CANARY_REPORT_MAX_BYTES)
    (Invalid (lit "runtime canary report framing is invalid")) ;?
  let? report := ok_or (json_from_slice (without_last input) ≫= decode_report) InvalidJson in
  validate_shape report expected_nonce expected_fixture_binding ;?
  Ok report.

Definition parse_runtime_canary_runtime_evidence `{Sha256} `{JsonText} `{JsonPrint} (input : list N)
    (expected_nonce expected_fixture_binding : str) (expected_inputs : RuntimeCanaryFixtureInputs)
  : result CanaryError RuntimeCanaryRuntimeEvidence :=
  fail_if (framing_invalid input RUNTIME_CANARY_RUNTIME_EVIDENCE_MAX_BYTES)
    (Invalid (lit "runtime canary runtime evidence framing is invalid")) ;?
  let? evidence := ok_or (json_from_slice (without_last input) ≫= decode_evidence) InvalidJson in
  validate_runtime_evidence evidence expected_nonce expected_fixture_binding expected_inputs ;?
  Ok evidence.
