(* ===== verification/CanaryRules.v ===== *)
(** * What the runtime canary protocol guarantees

    Only one report and one set of evidence pass validation for a run; a binding stands for
    one nonce and one set of fixtures; the JSON lines are read back as they were written. *)

From S2P Require Import Prelude Text Digest Net Webex Serde JsonCompact CanaryProtocol.

Local Open Scope N_scope.

(** ** Nonces *)

(** 32 bytes in lowercase hexadecimal. *)
Definition hex64 (s : str) : Prop := length s = 64%nat /\ Forall (fun c => lower_hex c = true) s.

Lemma is_lower_hex_eq c : is_lower_hex c = lower_hex c.
Proof. unfold is_lower_hex, lower_hex, is_ascii_hexdigit, is_ascii_digit, is_ascii_uppercase. lia. Qed.

Lemma as_bytes_lower (s : str) : all is_lower_hex (as_bytes s) = true <-> Forall (fun c => lower_hex c = true) s.
Proof.
  rewrite all_true. setoid_rewrite is_lower_hex_eq. split.
  - intros H. induction s as [|c s IH]; [constructor|].
    change (as_bytes (c :: s)) with (utf8_char c ++ as_bytes s) in H. apply Forall_app in H as [Hc Hs].
    constructor; [|auto]. unfold utf8_char in Hc. destruct (c <? 128); [by inversion Hc|].
    exfalso. destruct (c <? 2048); [|destruct (c <? 65536)]; inversion Hc as [|h t Hh]; subst;
      clear - Hh; unfold lower_hex, is_ascii_digit in Hh; lia.
  - intros H. rewrite as_bytes_ascii_text; [done|]. eapply Forall_impl; [exact H|]. apply lower_hex_ascii.
Qed.

Lemma lower_hex_byte_len (s : str) : Forall (fun c => lower_hex c = true) s -> byte_len s = len s.
Proof.
  intros H. rewrite <-len_as_bytes, as_bytes_ascii_text; [done|].
  eapply Forall_impl; [exact H|]. apply lower_hex_ascii.
Qed.

Lemma validate_nonce_ok (s : str) u : validate_runtime_canary_nonce s = Ok u <-> hex64 s.
Proof.
  destruct u. unfold validate_runtime_canary_nonce, hex64. rewrite fail_if_ok, orb_false_iff, !negb_false_iff, as_bytes_lower.
  split; intros [Hl Hh]; rewrite lower_hex_byte_len in * by done; unfold len in *; (split; [lia|done]).
Qed.

Lemma validate_binding_ok (s : str) u : validate_runtime_canary_fixture_binding s = Ok u <-> hex64 s.
Proof. unfold validate_runtime_canary_fixture_binding. by rewrite map_err_ok, validate_nonce_ok. Qed.

Lemma hex64_scalar (s : str) : hex64 s -> all is_scalar s = true.
Proof.
  intros [_ H]. apply all_true, ascii_scalar. eapply Forall_impl; [exact H|]. apply lower_hex_ascii.
Qed.

Lemma digest_hex64 `{Sha256} bytes : hex64 (hex (sha256 bytes)).
Proof. split; [by rewrite length_hex, sha256_length|apply hex_bytes_lower, sha256_bytes]. Qed.

(** ** Maps as sorted entries *)

Lemma btree_entries_perm m : btree_entries m ≡ₚ map_to_list m.
Proof. apply stable_sort_perm. Qed.

Lemma elem_of_btree m name passed : (name, passed) ∈ btree_entries m <-> m !! name = Some passed.
Proof. by rewrite btree_entries_perm, elem_of_map_to_list. Qed.

Lemma btree_keys_nodup m : NoDup (map fst (btree_entries m)).
Proof. rewrite btree_entries_perm. apply NoDup_fst_map_to_list. Qed.

Lemma visit_checks_entries m entries :
  NoDup (map fst entries) -> (forall k, k ∈ map fst entries -> m !! k = None) ->
  visit_checks m (map (fun kv => (fst kv, JBool (snd kv))) entries) = Some (list_to_map entries ∪ m).
Proof.
  revert m. induction entries as [|[k b] entries IH]; intros m Hnd Hm; cbn.
  { by rewrite map_empty_union. }
  cbn in Hnd. apply NoDup_cons in Hnd as [Hk Hnd]. rewrite Hm by (by left).
  rewrite IH; [|done|].
  - f_equal. rewrite <-insert_union_r; [by rewrite insert_union_l|].
    by apply not_elem_of_list_to_map_1.
  - intros k' Hk'. rewrite lookup_insert_ne by (by intros ->). apply Hm. by right.
Qed.

Lemma checks_round_trip m : deserialize_runtime_canary_checks (checks_json m) = Some m.
Proof.
  unfold deserialize_runtime_canary_checks, checks_json.
  rewrite visit_checks_entries; [|apply btree_keys_nodup|intros; apply lookup_empty].
  f_equal. rewrite map_union_empty, (list_to_map_proper _ (map_to_list m)); [apply list_to_map_to_list|..].
  - apply btree_keys_nodup.
  - apply btree_entries_perm.
Qed.

(** ** The report that passes *)

Definition all_passed : gmap str bool := list_to_map (map (fun name => (name, true)) RUNTIME_CANARY_CHECKS).

Definition successful_report (nonce binding : str) : RuntimeCanaryReport :=
  mkReport 1 (lit "runtime-boundary-v1") nonce binding all_passed
    (lit "WEBEX_CODEX_CANARY_OK " ++ nonce ++ lit " " ++ binding).

(** The host evidence of an untouched run. *)
Definition untouched_host (nonce binding : str) : RuntimeCanaryHostEvidence :=
  mkHostEvidence nonce binding true true true true true true true true true true true true true true true true true true true true true true true true true true 0 true true 0 true true 0 true true true true.

Definition successful_evidence (nonce binding : str) (inputs : RuntimeCanaryFixtureInputs) : RuntimeCanaryRuntimeEvidence :=
  mkRuntimeEvidence nonce binding (successful_report nonce binding) (fi_main_pid inputs) (fi_fd_secret_sha256 inputs) true true true true true true true true true true true true true true true true true true true true.

Lemma host_evidence_ok e nonce binding u :
  validate_host_evidence e nonce binding = Ok u <->
  hex64 nonce /\ hex64 binding /\ e = untouched_host nonce binding.
Proof.
  destruct u. unfold validate_host_evidence. rewrite !then_ok, validate_nonce_ok, validate_binding_ok, fail_if_ok.
  do 2 apply and_iff_compat_l. split.
  - intros Hc. repeat (apply orb_false_iff in Hc as [Hc ?]). destruct e. cbn in *.
    repeat match goal with
    | Hx : negb _ = false |- _ => apply negb_false_iff in Hx
    | Hx : str_eqb _ _ = true |- _ => apply str_eqb_eq in Hx
    | Hx : (_ =? _) = true |- _ => apply N.eqb_eq in Hx
    end. by subst.
  - intros ->. cbn. by rewrite !str_eqb_refl.
Qed.

Definition checks_named (m : gmap str bool) : Prop := forall name, is_Some (m !! name) <-> name ∈ RUNTIME_CANARY_CHECKS.

Lemma elem_of_any_N c l : any (N.eqb c) l = true <-> c ∈ l.
Proof.
  rewrite any_true. split.
  - by intros (x & Hx & ->%N.eqb_eq).
  - intros Hc. exists c. by rewrite N.eqb_refl.
Qed.

Lemma elem_of_any_eqb (name : str) l : any (str_eqb name) l = true <-> name ∈ l.
Proof.
  rewrite any_true. split.
  - by intros (x & Hx & ->%str_eqb_eq).
  - intros Hn. exists name. split; [done|apply str_eqb_refl].
Qed.

Lemma entry_key m (name : str) : name ∈ map fst (btree_entries m) <-> is_Some (m !! name).
Proof.
  rewrite elem_of_map. split.
  - intros ([k b] & -> & Hk%elem_of_btree). by exists b.
  - intros (b & Hb). exists (name, b). by rewrite elem_of_btree.
Qed.

Lemma checks_nodup : NoDup RUNTIME_CANARY_CHECKS.
Proof. by apply (bool_decide_unpack _); vm_compute. Qed.

Lemma shape_ok r nonce binding u :
  validate_shape r nonce binding = Ok u <->
  hex64 nonce /\ hex64 binding /\ checks_named (rr_checks r)
  /\ r = mkReport 1 (lit "runtime-boundary-v1") nonce binding (rr_checks r)
           (lit "WEBEX_CODEX_CANARY_OK " ++ nonce ++ lit " " ++ binding).
Proof.
  destruct u. unfold validate_shape. rewrite !then_ok, validate_nonce_ok, validate_binding_ok, fail_if_ok.
  do 2 apply and_iff_compat_l. rewrite !orb_false_iff, !negb_false_iff, !str_eqb_eq, !N.eqb_eq, !any_false.
  setoid_rewrite negb_false_iff. setoid_rewrite elem_of_any_eqb. setoid_rewrite bool_decide_eq_true.
  setoid_rewrite entry_key. split.
  - intros (((((((Hv & Hs) & Hn) & Hb) & Hf) & _) & Hk) & Hc). split; [|by destruct r; cbn in *; subst].
    intros name. split; auto.
  - intros (Hk & ->). cbn. repeat split; auto; [|by intros ? ?; apply Hk..].
    unfold len. f_equal. rewrite <-(length_map fst (btree_entries _)). apply Permutation_length.
    apply NoDup_Permutation; [apply btree_keys_nodup|apply checks_nodup|].
    intros x. by rewrite entry_key.
Qed.

Lemma any_failed_false r : any_failed r = false <-> forall name passed, rr_checks r !! name = Some passed -> passed = true.
Proof.
  unfold any_failed. rewrite any_false. setoid_rewrite elem_of_map. setoid_rewrite negb_false_iff. split.
  - intros H name passed Hp%elem_of_btree. apply H. by exists (name, passed).
  - intros H passed ([name b] & -> & Hb%elem_of_btree). eauto.
Qed.

Lemma all_passed_lookup name passed : all_passed !! name = Some passed <-> name ∈ RUNTIME_CANARY_CHECKS /\ passed = true.
Proof.
  unfold all_passed. rewrite <-elem_of_list_to_map.
  - change (map (fun n : list N => (n, true)) RUNTIME_CANARY_CHECKS) with ((fun n : list N => (n, true)) <$> RUNTIME_CANARY_CHECKS).
    rewrite list_elem_of_fmap. split; [by intros (n & [= -> ->] & ?)|intros [? ->]; eauto].
  - change (NoDup ((fun p : list N * bool => p.1) <$> ((fun n : list N => (n, true)) <$> RUNTIME_CANARY_CHECKS))).
    assert (((fun p : list N * bool => p.1) <$> ((fun n : list N => (n, true)) <$> RUNTIME_CANARY_CHECKS))
            = RUNTIME_CANARY_CHECKS) as -> by reflexivity. apply checks_nodup.
Qed.

Lemma passing_checks m :
  checks_named m /\ (forall name passed, m !! name = Some passed -> passed = true) <-> m = all_passed.
Proof.
  split.
  - intros [Hn Ht]. apply map_eq. intros name. apply option_eq. intros passed.
    rewrite all_passed_lookup. split.
    + intros Hp. split; [apply Hn; by eexists|by eapply Ht].
    + intros [Hc ->]. apply Hn in Hc as (b & Hb). by rewrite Hb, (Ht _ _ Hb).
  - intros ->. split.
    + intros name. split; [by intros (b & [? _]%all_passed_lookup)|].
      intros Hc. exists true. by apply all_passed_lookup.
    + by intros name passed [_ ?]%all_passed_lookup.
Qed.

Lemma shape_and_passed r nonce binding :
  validate_shape r nonce binding = Ok tt /\ any_failed r = false <->
  hex64 nonce /\ hex64 binding /\ r = successful_report nonce binding.
Proof.
  rewrite shape_ok, any_failed_false. split.
  - intros ((Hn & Hb & Hc & ->) & Hp). cbn [rr_checks] in Hp. split; [done|]. split; [done|].
    unfold successful_report. f_equal. by apply (proj1 (passing_checks _)).
  - intros (Hn & Hb & ->). destruct (proj2 (passing_checks all_passed) eq_refl) as [? ?]. done.
Qed.

(** ** Bindings *)

(** The characters of printed socket addresses. *)
Definition addr_char (c : char) : bool := lower_hex c || one_of (lit ":.[]%") c.
Definition addr_text (s : str) : Prop := Forall (fun c => addr_char c = true) s.

Lemma addr_lit (s : str) : all addr_char s = true -> addr_text s.
Proof. by intros H%all_true. Qed.

Lemma addr_hex_radix fuel n acc : addr_text acc -> addr_text (hex_radix_go fuel n acc).
Proof.
  revert n acc. induction fuel as [|fuel IH]; intros n acc Ha; cbn; [done|].
  assert (addr_text (hex_digit (n mod 16) :: acc)) as Hd.
  { constructor; [|done]. unfold addr_char, lower_hex. by rewrite hex_digit_lower by lia. }
  destruct (n <? 16); [done|]. by apply IH.
Qed.

Lemma addr_decimal n : addr_text (decimal n).
Proof.
  unfold addr_text. pose proof (decimal_all_digits n) as [_ Hd%all_true]%andb_true_iff.
  eapply Forall_impl; [exact Hd|]. intros c Hc. unfold addr_char, lower_hex. cbn beta in Hc. by rewrite Hc.
Qed.

Lemma addr_app (a b : str) : addr_text a -> addr_text b -> addr_text (a ++ b).
Proof. apply Forall_app_2. Qed.

Lemma addr_subslice groups : addr_text (fmt_subslice groups).
Proof.
  apply join_Forall; [by apply addr_lit|]. apply Forall_map, Forall_true. intros g.
  apply addr_hex_radix. constructor.
Qed.

Lemma addr_ipv4 a b c d : addr_text (ipv4_to_string a b c d).
Proof. apply join_Forall; [by apply addr_lit|]. repeat constructor; apply addr_decimal. Qed.

Create HintDb addr.
#[local] Hint Resolve addr_decimal addr_subslice addr_ipv4 addr_app : addr.
#[local] Hint Extern 1 (addr_text (lit _)) => by apply addr_lit : addr.

Lemma addr_ipv6 groups : addr_text (ipv6_to_string groups).
Proof.
  assert (forall g, addr_text (let '(start, count) := longest_zero_run 0 (0, 0)%nat (0, 0)%nat g in
      if (1 <? count)%nat then fmt_subslice (take start g) ++ lit "::" ++ fmt_subslice (drop (start + count) g)
      else fmt_subslice g)) as Hg.
  { intros g. destruct (longest_zero_run _ _ _ _) as [start count]. destruct (1 <? count)%nat; auto with addr. }
  unfold ipv6_to_string. repeat case_match; try apply Hg; auto with addr.
Qed.

Lemma socket_addr_chars a : addr_text (socket_addr_to_string a).
Proof.
  unfold socket_addr_to_string. pose proof addr_ipv6.
  destruct (ip a); [auto 10 with addr|]. destruct (scope_id a =? 0); [|auto 10 with addr].
  cbn [app]. auto 10 with addr.
Qed.

(** The fixtures the protocol accepts: canonical texts of a reachable foreign address and of a
    loopback one, and the paths that carry the nonce. *)
Record valid_fixtures (nonce : str) (inputs : RuntimeCanaryFixtureInputs) : Prop := mkValidFixtures {
  vf_nonce : hex64 nonce;
  vf_secret : hex64 (fi_fd_secret_sha256 inputs);
  vf_pid : 2 <= fi_main_pid inputs <= 2147483647;
  vf_forbidden : exists a, parse_socket_addr (fi_forbidden_tcp inputs) = Some a /\
    fi_forbidden_tcp inputs = socket_addr_to_string a /\ runtime_canary_forbidden_ip_allowed (ip a) = true /\ port a <> 0;
  vf_bot : exists a, parse_socket_addr (fi_bot_tcp inputs) = Some a /\
    fi_bot_tcp inputs = socket_addr_to_string a /\ is_loopback (ip a) = true /\ port a <> 0;
  vf_host_unix : fi_host_unix inputs = lit "/run/webex-codex-canary/" ++ nonce ++ lit ".sock";
  vf_host_protected : fi_host_protected_path inputs
    = lit "/var/lib/webex-generic-account-bot/canary-fixtures/" ++ nonce
}.

Section bindings.
Context `{Sha256} `{JsonPrint}.

Lemma binding_ok nonce inputs binding :
  runtime_canary_fixture_binding nonce inputs = Ok binding <->
  valid_fixtures nonce inputs /\ binding = hex (sha256 (json_to_vec (canonical_fixture_binding nonce inputs))).
Proof.
  unfold runtime_canary_fixture_binding. split.
  - intros Hb. ok_inv. repeat match goal with Hx : _ || _ = false |- _ => apply orb_false_iff in Hx as [? ?] end.
    bool_inv. repeat match goal with
    | Hx : str_eqb _ _ = true |- _ => apply str_eqb_eq in Hx
    | Hx : validate_runtime_canary_nonce _ = Ok _ |- _ => apply validate_nonce_ok in Hx
    end. split; [|done]. split; try done; eauto; lia || (eexists; split_and!; [done..|lia]).
  - intros [[Hn Hs Hp (a & Ha & Hat & Hai & Hap) (c & Hc & Hct & Hci & Hcp) Hu Hh] ->].
    rewrite (proj2 (validate_nonce_ok nonce tt) Hn), (proj2 (validate_nonce_ok _ tt) Hs). cbn [rbind].
    rewrite Ha, Hc. cbn [rbind ok_or]. rewrite <-Hat, <-Hct, !str_eqb_refl, Hai, Hci, Hu, Hh.
    unfold expected_host_unix, expected_host_protected. rewrite !str_eqb_refl.
    rewrite (bool_decide_eq_false_2 (a = c)).
    + destruct Hp as [Hp1 Hp2]. decide_N. done.
    + intros ->. unfold runtime_canary_forbidden_ip_allowed in Hai. by rewrite Hci in Hai.
Qed.

Lemma addr_scalar (s : str) : addr_text s -> all is_scalar s = true.
Proof.
  intros Hs. apply all_true. eapply Forall_impl; [exact Hs|]. intros c Hc. cbn beta in Hc.
  unfold addr_char, lower_hex, is_ascii_digit in Hc. unfold is_scalar.
  destruct (one_of _ c) eqn:E; [|lia]. unfold one_of in E. apply elem_of_any_N in E.
  revert E. unfold lit. cbn. rewrite !elem_of_cons, elem_of_nil. lia.
Qed.

Lemma scalar_app (a b : str) : all is_scalar a = true -> all is_scalar b = true -> all is_scalar (a ++ b) = true.
Proof. unfold all. intros Ha Hb. by rewrite forallb_app, Ha, Hb. Qed.

Lemma canonical_binding_json nonce inputs : valid_fixtures nonce inputs ->
  json_ok (canonical_fixture_binding nonce inputs) = true.
Proof.
  intros [Hn Hs Hp (a & _ & Hat & _) (c & _ & Hct & _) Hu Hh].
  apply hex64_scalar in Hn. apply hex64_scalar in Hs.
  pose proof (addr_scalar _ (socket_addr_chars a)) as Haa. pose proof (addr_scalar _ (socket_addr_chars c)) as Hcc.
  assert (json_ok (fixture_inputs_json inputs) = true) as Hi.
  { apply struct_json_ok; [done|]. rewrite Hat, Hct, Hu, Hh. unfold all. cbn [forallb].
    rewrite json_ok_decimal by (unfold u64_max; lia).
    rewrite !string_json_ok; try done; repeat apply scalar_app; done. }
  apply struct_json_ok; [done|]. unfold all. cbn [forallb].
  by rewrite Hi, json_ok_decimal, !string_json_ok.
Qed.

Lemma canonical_depth nonce inputs : (json_depth (canonical_fixture_binding nonce inputs) < 128)%nat.
Proof. cbn -[decimal]. lia. Qed.

Lemma json_text_injective `{JsonText} `{!JsonLaws} v w :
  json_ok v = true -> json_ok w = true -> (json_depth v < 128)%nat -> (json_depth w < 128)%nat ->
  json_to_vec v = json_to_vec w -> v = w.
Proof.
  intros Hv Hw Hdv Hdw Heq. apply (f_equal json_from_slice) in Heq.
  rewrite !json_slice_round_trip in Heq by done. by injection Heq.
Qed.

Lemma canonical_binding_injective n1 i1 n2 i2 :
  canonical_fixture_binding n1 i1 = canonical_fixture_binding n2 i2 -> n1 = n2 /\ i1 = i2.
Proof.
  unfold canonical_fixture_binding, fixture_inputs_json, struct_json. cbn [zip zip_with].
  intros [= Hn Hp Hs Hf Hb Hu Hh]. split; [done|]. apply (f_equal digits_value) in Hp.
  rewrite !decimal_value in Hp. destruct i1, i2. cbn in *. by subst.
Qed.
End bindings.

(** ** Lines *)

Lemma json_line_ok `{JsonLaws} v max message line :
  json_ok v = true -> json_line v max message = Ok line ->
  framing_invalid line max = false /\ without_last line = json_to_vec v.
Proof.
  intros Hv. unfold json_line. rewrite seq_ok. intros [Hl [= <-]].
  assert (without_last (json_to_vec v ++ [10]) = json_to_vec v) as Hw.
  { unfold without_last. rewrite length_app, Nat.add_sub. by rewrite take_app_length. }
  pose proof (json_to_vec_one_line v Hv) as Hline. rewrite Forall_forall in Hline.
  split; [|done]. unfold framing_invalid. rewrite Hw, !orb_false_iff. repeat split.
  - apply is_empty_false. by destruct (json_to_vec v).
  - done.
  - apply negb_false_iff, ends_with_spec. eauto.
  - apply any_false. intros b Hb. specialize (Hline b Hb). cbn beta in Hline. lia.
  - apply any_false. intros b [Hb| ->%list_elem_of_singleton]%elem_of_app; [|done].
    specialize (Hline b Hb). cbn beta in Hline. lia.
Qed.

Lemma checks_depth m : (json_depth (checks_json m) <= 1)%nat.
Proof.
  unfold checks_json. cbn [json_depth]. apply le_n_S. induction (btree_entries m) as [|kv l IH]; cbn; lia.
Qed.

Lemma checks_json_ok m : checks_named m -> json_ok (checks_json m) = true.
Proof.
  intros Hc. apply all_true, Forall_map, Forall_forall. intros [name b] Hb%elem_of_btree.
  cbn [fst snd json_ok]. rewrite andb_true_r.
  assert (name ∈ RUNTIME_CANARY_CHECKS) as Hn by (apply Hc; by eexists).
  assert (Forall (fun n => all is_scalar n = true) RUNTIME_CANARY_CHECKS) as Ha by (repeat constructor; by vm_compute).
  rewrite Forall_forall in Ha. by apply Ha.
Qed.

Lemma report_json_ok r nonce binding : validate_shape r nonce binding = Ok tt ->
  json_ok (report_json r) = true /\ (json_depth (report_json r) < 100)%nat /\ decode_report (report_json r) = Some r.
Proof.
  intros (Hn%hex64_scalar & Hb%hex64_scalar & Hc & ->)%shape_ok. split_and!.
  - apply struct_json_ok; [done|]. unfold all. cbn [forallb rr_schema_version rr_suite rr_nonce rr_fixture_binding rr_checks rr_final_line].
    rewrite json_ok_decimal by done. rewrite checks_json_ok by done.
    rewrite !string_json_ok; try done; repeat apply scalar_app; done.
  - unfold report_json, struct_json, report_names.
    cbn -[checks_json]. pose proof (checks_depth (rr_checks r)). lia.
  - unfold decode_report, report_json. rewrite struct_fields_json by (done || apply (bool_decide_unpack _); by vm_compute).
    cbn -[checks_json deserialize_runtime_canary_checks]. by rewrite checks_round_trip.
Qed.

Lemma evidence_json_ok `{Sha256} `{JsonPrint} e nonce binding inputs :
  runtime_canary_fixture_binding nonce inputs = Ok binding -> e = successful_evidence nonce binding inputs ->
  json_ok (evidence_json e) = true /\ (json_depth (evidence_json e) < 128)%nat /\ decode_evidence (evidence_json e) = Some e.
Proof.
  intros [Hvf Hb]%binding_ok ->. assert (hex64 binding) as Hbh by (subst; apply digest_hex64).
  destruct Hvf as [Hn Hs Hp _ _ _ _].
  assert (validate_shape (successful_report nonce binding) nonce binding = Ok tt) as Hshape.
  { by apply shape_and_passed. }
  destruct (report_json_ok _ _ _ Hshape) as (Hok & Hd & Hdec). split_and!.
  - apply struct_json_ok; [by vm_compute|]. unfold all. cbn [app forallb map evidence_flags successful_evidence].
    change (re_report _) with (successful_report nonce binding).
    change (re_main_pid _) with (fi_main_pid inputs).
    apply hex64_scalar in Hn, Hbh, Hs. rewrite Hok, json_ok_decimal by (unfold u64_max; lia).
    by rewrite !string_json_ok.
  - unfold evidence_json, struct_json, evidence_names. cbn -[report_json successful_report]. lia.
  - unfold decode_evidence, evidence_json. rewrite struct_fields_json; [|apply (bool_decide_unpack _); by vm_compute|done].
    cbn -[report_json successful_report decode_report json_unsigned decimal]. rewrite Hdec.
    cbn -[report_json successful_report json_unsigned decimal]. rewrite json_unsigned_decimal by (unfold u32_max; lia).
    done.
Qed.

Lemma runtime_evidence_valid `{Sha256} `{JsonPrint} e nonce binding inputs :
  validate_runtime_evidence e nonce binding inputs = Ok tt <->
  runtime_canary_fixture_binding nonce inputs = Ok binding /\ e = successful_evidence nonce binding inputs.
Proof.
  unfold validate_runtime_evidence. rewrite !then_ok, validate_nonce_ok, validate_binding_ok. split.
  - intros (Hn & Hb & (derived & Hd & (Hsh & Hc)%then_ok)%rbind_ok). rewrite fail_if_ok in Hc.
    repeat (apply orb_false_iff in Hc as [Hc ?]). apply negb_false_iff, str_eqb_eq in Hc as ->.
    split; [done|].
    assert (re_report e = successful_report nonce binding) as Hr by (by apply (shape_and_passed (re_report e))).
    destruct e. cbn in *. subst. repeat match goal with
    | Hx : negb _ = false |- _ => apply negb_false_iff in Hx
    | Hx : str_eqb _ _ = true |- _ => apply str_eqb_eq in Hx
    | Hx : (_ =? _) = true |- _ => apply N.eqb_eq in Hx
    end. by subst.
  - intros [Hd ->]. pose proof Hd as [[Hn _ _ _ _ _ _] Hb]%binding_ok.
    assert (hex64 binding) as Hbh by (subst; apply digest_hex64). split; [done|]. split; [done|].
    rewrite Hd. cbn [rbind]. rewrite then_ok. destruct (proj2 (shape_and_passed (successful_report nonce binding) nonce binding)) as [Hs Hf]; [done|].
    split; [done|]. cbn -[any_failed validate_shape successful_report]. by rewrite !str_eqb_refl, N.eqb_refl, Hf.
Qed.

(** ** Properties *)

(** A fixture binding stands for one nonce and one set of fixtures: two runs with the same
    binding have the same nonce and the same fixture inputs, unless their canonical JSON
    texts are different and collide under SHA-256. *)
Theorem binding_identifies_fixtures `{Sha256} `{JsonLaws} n1 i1 n2 i2 binding
  (Hb1 : runtime_canary_fixture_binding n1 i1 = Ok binding)
  (Hb2 : runtime_canary_fixture_binding n2 i2 = Ok binding) :
  n1 = n2 /\ i1 = i2 \/
  (let t1 := json_to_vec (canonical_fixture_binding n1 i1) in
   let t2 := json_to_vec (canonical_fixture_binding n2 i2) in
   t1 <> t2 /\ sha256 t1 = sha256 t2).
Proof.
  apply binding_ok in Hb1 as [Hv1 ->]. apply binding_ok in Hb2 as [Hv2 Heq].
  apply hex_bytes_inj in Heq; [|apply sha256_bytes..].
  destruct (decide (json_to_vec (canonical_fixture_binding n1 i1) = json_to_vec (canonical_fixture_binding n2 i2))) as [Ht|Hne];
    [left|right; exact (conj Hne Heq)].
  apply canonical_binding_injective.
  apply json_text_injective;
    [by apply canonical_binding_json|by apply canonical_binding_json|apply canonical_depth|apply canonical_depth|exact Ht].
Qed.

(** Exactly one report passes for a run, and only when the host saw nothing touched: the
    report with the fixed schema, suite and final line in which every one of the seventeen
    checks is present, no other is, and all passed. *)
Theorem only_successful_report_accepted r nonce binding e u :
  ensure_success r nonce binding e = Ok u <->
  hex64 nonce /\ hex64 binding /\ r = successful_report nonce binding /\ e = untouched_host nonce binding.
Proof.
  destruct u. unfold ensure_success. rewrite !then_ok, fail_if_ok, host_evidence_ok.
  pose proof (shape_and_passed r nonce binding). tauto.
Qed.

(** A report that satisfies the contract is read back from its own JSON line. *)
Theorem report_line_round_trip `{JsonLaws} r nonce binding line
  (Hr : validate_shape r nonce binding = Ok tt) (Hl : report_to_json_line r = Ok line) :
  parse_runtime_canary_report line nonce binding = Ok r.
Proof.
  destruct (report_json_ok _ _ _ Hr) as (Hok & Hd & Hdec).
  apply json_line_ok in Hl as [Hf Hw]; [|done]. unfold parse_runtime_canary_report.
  rewrite Hf. cbn [rbind fail_if]. rewrite Hw, json_slice_round_trip by (done || lia).
  cbn [mbind option_bind]. rewrite Hdec. cbn [ok_or rbind]. by rewrite Hr.
Qed.

(** The runtime evidence accepted for a run is the one value its nonce, binding and
    fixtures determine, and that value is accepted from its own JSON line. *)
Theorem evidence_line_accepted `{Sha256} `{JsonLaws} nonce inputs binding line e :
  runtime_canary_fixture_binding nonce inputs = Ok binding ->
  evidence_to_json_line (successful_evidence nonce binding inputs) = Ok line ->
  parse_runtime_canary_runtime_evidence line nonce binding inputs = Ok e <-> e = successful_evidence nonce binding inputs.
Proof.
  intros Hb Hl. destruct (evidence_json_ok _ _ _ _ Hb eq_refl) as (Hok & Hd & Hdec).
  apply json_line_ok in Hl as [Hf Hw]; [|done]. unfold parse_runtime_canary_runtime_evidence.
  rewrite Hf. cbn [rbind fail_if]. rewrite Hw, json_slice_round_trip by done.
  cbn [mbind option_bind]. rewrite Hdec. cbn [ok_or rbind]. rewrite then_ok, runtime_evidence_valid. split.
  - intros [_ He]. congruence.
  - intros ->. split; [split; [exact Hb|reflexivity]|reflexivity].
Qed.

(** ** Witnesses *)

Definition sample_nonce : str := hex (replicate 32 171).
Definition sample_inputs (pid : N) : RuntimeCanaryFixtureInputs :=
  mkFixtureInputs pid (hex (replicate 32 205)) (lit "192.0.2.10:443") (lit "127.0.0.1:8787")
    (lit "/run/webex-codex-canary/" ++ sample_nonce ++ lit ".sock")
    (lit "/var/lib/webex-generic-account-bot/canary-fixtures/" ++ sample_nonce).

Definition ok_value {E A} (default : A) (r : result E A) : A := match r with Ok a => a | Err _ => default end.

Definition sample_binding : str :=
  ok_value [] (@runtime_canary_fixture_binding checksum_sha256 compact_print sample_nonce (sample_inputs 77)).

Lemma binding_identifies_fixtures_witness :
  let b1 := @runtime_canary_fixture_binding checksum_sha256 compact_print sample_nonce (sample_inputs 77) in
  b1 = Ok sample_binding /\ sample_binding <> [] /\
  (sample_nonce = sample_nonce /\ sample_inputs 77 = sample_inputs 77 \/
   (let t := @json_to_vec compact_print (canonical_fixture_binding sample_nonce (sample_inputs 77)) in
    t <> t /\ checksum_digest t = checksum_digest t)).
Proof.
  split; [by vm_compute|]. split; [by vm_compute|].
  exact (@binding_identifies_fixtures checksum_sha256 compact_text compact_print compact_laws
    sample_nonce (sample_inputs 77) sample_nonce (sample_inputs 77) sample_binding
    ltac:(by vm_compute) ltac:(by vm_compute)).
Defined.

Definition sample_report : RuntimeCanaryReport := successful_report sample_nonce sample_binding.

Definition sample_line : list N := ok_value [] (@report_to_json_line compact_print sample_report).

Lemma report_line_round_trip_witness :
  validate_shape sample_report sample_nonce sample_binding = Ok tt /\
  @report_to_json_line compact_print sample_report = Ok sample_line /\
  @parse_runtime_canary_report compact_text sample_line sample_nonce sample_binding = Ok sample_report.
Proof.
  assert (validate_shape sample_report sample_nonce sample_binding = Ok tt) as Hs by (by vm_compute).
  assert (@report_to_json_line compact_print sample_report = Ok sample_line) as Hl by (by vm_compute).
  split; [exact Hs|]. split; [exact Hl|].
  exact (@report_line_round_trip compact_text compact_print compact_laws _ _ _ _ Hs Hl).
Defined.

Definition sample_evidence : RuntimeCanaryRuntimeEvidence :=
  successful_evidence sample_nonce sample_binding (sample_inputs 77).

Definition sample_evidence_line : list N := ok_value [] (@evidence_to_json_line compact_print sample_evidence).

Lemma evidence_line_accepted_witness :
  @parse_runtime_canary_runtime_evidence checksum_sha256 compact_text compact_print
    sample_evidence_line sample_nonce sample_binding (sample_inputs 77) = Ok sample_evidence.
Proof.
  refine (proj2 (@evidence_line_accepted checksum_sha256 compact_text compact_print compact_laws
    sample_nonce (sample_inputs 77) sample_binding sample_evidence_line sample_evidence _ _) _).
  - by vm_compute.
  - by vm_compute.
  - reflexivity.
Defined.

(** A failed check, a missing one and a renamed one are refused. *)
Example reports_refused :
  let bad f := is_ok (new_report sample_nonce sample_binding (f all_passed)) in
  bad (fun m => m) = true /\
  bad (delete (lit "no_new_privileges")) = false /\
  bad (fun m => <[lit "other" := true]> (delete (lit "no_new_privileges") m)) = false /\
  is_ok (ensure_success (mkReport 1 RUNTIME_CANARY_SUITE sample_nonce sample_binding
           (<[lit "no_new_privileges" := false]> all_passed)
           (expected_runtime_canary_final_line sample_nonce sample_binding))
         sample_nonce sample_binding (untouched_host sample_nonce sample_binding)) = false.
Proof. by vm_compute. Qed.
