(* ===== verification/CanaryExec.v ===== *)
(** * The canary's Codex event stream

    [src/canary_exec.rs]: the command a canary run must execute, and the state machine that
    accepts the JSON-lines events of that run. *)

From S2P Require Import Prelude Text Digest Net Webex Serde CanaryProtocol.

Local Open Scope N_scope.

Definition CODEX_EXEC_CANARY_JSONL_MAX_BYTES : N := 256 * 1024.
Definition CODEX_EXEC_CANARY_JSONL_LINE_MAX_BYTES : N := 64 * 1024.
Definition RUNTIME_CANARY_PROBE_PATH : str := lit "/bin/webex-codex-canary-probe".
Definition RUNTIME_CANARY_SHELL_PATH : str := lit "/bin/sh".

(** ** The command *)

Record RuntimeCanaryExecRender : Type := mkRender {
  fixture_binding : str;
  probe_argv : list str;
  shell_script : str;
  event_command : str;
  prompt : str
}.

(** A double-quoted argument. *)
Definition quote_argument (argument : str) : str := [34] ++ argument ++ [34].

Definition shell_unsafe (byte : N) : bool := one_of [34; 36; 96; 92; 13; 10] byte.

Definition render_probe_argv (nonce : str) (inputs : RuntimeCanaryFixtureInputs) : list str :=
  [RUNTIME_CANARY_PROBE_PATH; RUNTIME_CANARY_SUITE;
   lit "--nonce"; nonce;
   lit "--main-pid"; decimal (fi_main_pid inputs);
   lit "--fd-secret-sha256"; fi_fd_secret_sha256 inputs;
   lit "--forbidden-tcp"; fi_forbidden_tcp inputs;
   lit "--bot-tcp"; fi_bot_tcp inputs;
   lit "--host-unix"; fi_host_unix inputs;
   lit "--host-protected-path"; fi_host_protected_path inputs].

Definition render_runtime_canary_exec `{Sha256} `{JsonPrint} (nonce : str) (inputs : RuntimeCanaryFixtureInputs)
  : result CanaryError RuntimeCanaryExecRender :=
  let? fixture_binding := runtime_canary_fixture_binding nonce inputs in
  let probe_argv := render_probe_argv nonce inputs in
  fail_if (any (fun argument => any shell_unsafe (as_bytes argument)) probe_argv)
    (Invalid (lit "runtime canary probe argument is not shell-safe")) ;?
  let shell_script := lit "exec " ++ join (lit " ") (map quote_argument probe_argv) in
  let event_command := RUNTIME_CANARY_SHELL_PATH ++ lit " -c '" ++ shell_script ++ lit "'" in
  let final_line := expected_runtime_canary_final_line nonce fixture_binding in
  let prompt := lit "Run this exact POSIX shell script once and run no other command:" ++ [10]
    ++ shell_script ++ [10]
    ++ lit "Then reply with exactly this line and nothing else:" ++ [10]
    ++ final_line in
  Ok (mkRender fixture_binding probe_argv shell_script event_command prompt).

(** ** Events *)

Inductive EventState : Type :=
| ThreadStarted
| TurnStarted
| CommandStarted
| CommandCompleted
| AgentMessage
| TurnCompleted
| Finished.

#[export] Instance EventState_eq_dec : EqDecision EventState.
Proof. solve_decision. Defined.

Record ThreadStartedEvent : Type := mkThreadStarted { ts_type : str; ts_thread_id : str }.
Record TurnStartedEvent : Type := mkTurnStarted { us_type : str }.
Record CommandStartedItem : Type := mkStartedItem { si_id : str; si_type : str; si_command : str; si_status : str }.
Record CommandStartedEvent : Type := mkCommandStarted { cs_type : str; cs_item : CommandStartedItem }.
Record CommandCompletedItem : Type := mkCompletedItem {
  ci_id : str;
  ci_type : str;
  ci_command : str;
  ci_aggregated_output : str;
  ci_exit_code : Z;
  ci_status : str
}.
Record CommandCompletedEvent : Type := mkCommandCompleted { cc_type : str; cc_item : CommandCompletedItem }.
(** [ReasoningCompletedItem] and [AgentMessageCompletedItem] have the same fields. *)
Record TextItem : Type := mkTextItem { ti_id : str; ti_type : str; ti_text : str }.
Record TextEvent : Type := mkTextEvent { te_type : str; te_item : TextItem }.
Record TurnCompletedEvent : Type := mkTurnCompleted { tc_type : str; tc_usage : list (str * Json) }.

Definition decode_thread_started (v : Json) : option ThreadStartedEvent :=
  fields ← struct_fields [lit "type"; lit "thread_id"] v;
  match fields with
  | [t; i] => t ← json_string t; i ← json_string i; Some (mkThreadStarted t i)
  | _ => None
  end.

Definition decode_turn_started (v : Json) : option TurnStartedEvent :=
  fields ← struct_fields [lit "type"] v;
  match fields with
  | [t] => t ← json_string t; Some (mkTurnStarted t)
  | _ => None
  end.

(** [type] and [item], the item by its own decoder. *)
Definition decode_item_event {A} (item : Json -> option A) (v : Json) : option (str * A) :=
  fields ← struct_fields [lit "type"; lit "item"] v;
  match fields with
  | [t; i] => t ← json_string t; i ← item i; Some (t, i)
  | _ => None
  end.

Definition decode_started_item (v : Json) : option CommandStartedItem :=
  fields ← struct_fields [lit "id"; lit "type"; lit "command"; lit "status"] v;
  match fields with
  | [i; t; c; s] =>
      i ← json_string i; t ← json_string t; c ← json_string c; s ← json_string s;
      Some (mkStartedItem i t c s)
  | _ => None
  end.

Definition decode_command_started (v : Json) : option CommandStartedEvent :=
  (fun ti => mkCommandStarted (fst ti) (snd ti)) <$> decode_item_event decode_started_item v.

Definition decode_completed_item (v : Json) : option CommandCompletedItem :=
  fields ← struct_fields [lit "id"; lit "type"; lit "command"; lit "aggregated_output"; lit "exit_code"; lit "status"] v;
  match fields with
  | [i; t; c; o; e; s] =>
      i ← json_string i; t ← json_string t; c ← json_string c; o ← json_string o;
      e ← json_i32 e; s ← json_string s;
      Some (mkCompletedItem i t c o e s)
  | _ => None
  end.

Definition decode_command_completed (v : Json) : option CommandCompletedEvent :=
  (fun ti => mkCommandCompleted (fst ti) (snd ti)) <$> decode_item_event decode_completed_item v.

Definition decode_text_item (v : Json) : option TextItem :=
  fields ← struct_fields [lit "id"; lit "type"; lit "text"] v;
  match fields with
  | [i; t; x] => i ← json_string i; t ← json_string t; x ← json_string x; Some (mkTextItem i t x)
  | _ => None
  end.

Definition decode_text_event (v : Json) : option TextEvent :=
  (fun ti => mkTextEvent (fst ti) (snd ti)) <$> decode_item_event decode_text_item v.

(** [usage: BTreeMap<String, Value>]: any object. *)
Definition decode_turn_completed (v : Json) : option TurnCompletedEvent :=
  fields ← struct_fields [lit "type"; lit "usage"] v;
  match fields with
  | [t; JObject usage] => t ← json_string t; Some (mkTurnCompleted t usage)
  | _ => None
  end.

(** ** Checks *)

Definition message (s : str) : CanaryError := Invalid s.

Definition require_state (actual expected : EventState) (event : str) : result CanaryError unit :=
  fail_if (negb (bool_decide (actual = expected)))
    (message (lit "Codex canary event `" ++ event ++ lit "` is out of sequence")).

Definition require_kind (actual expected : str) : result CanaryError unit :=
  fail_if (negb (str_eqb actual expected)) (message (lit "Codex canary event kind changed during decoding")).

Definition validate_protocol_id (value name : str) : result CanaryError unit :=
  fail_if (is_empty value || (128 <? byte_len value)
      || negb (all (fun byte => is_ascii_alphanumeric byte || one_of (lit "-_") byte) (as_bytes value)))
    (message (lit "Codex canary " ++ name ++ lit " id is invalid")).

(** [seen.insert(id)] behind its validation; the set after it. *)
Definition insert_item_id (seen : gset str) (id : str) : result CanaryError (gset str) :=
  fail_if (bool_decide (id ∈ seen)) (message (lit "Codex canary item id is duplicated")) ;?
  Ok ({[id]} ∪ seen).

Definition record_completed_item_id (seen : gset str) (id : str) : result CanaryError (gset str) :=
  validate_protocol_id id (lit "item") ;?
  insert_item_id seen id.

Definition object_string_field (value : Json) (field name : str) : result CanaryError str :=
  ok_or (json_get field value ≫= json_as_str)
    (message (name ++ lit " has no string `" ++ field ++ lit "` field")).

Definition nested_item_type (value : Json) : result CanaryError str :=
  let? item := ok_or (json_get (lit "item") value) (message (lit "Codex canary item event has no item")) in
  object_string_field item (lit "type") (lit "Codex canary item").

Definition decode_event {A} (decoder : Json -> option A) (value : Json) : result CanaryError A :=
  ok_or (decoder value) InvalidJson.

(** [NoDuplicateJson]: no object of the value, at any depth, repeats a key. *)
Fixpoint no_duplicate_keys (v : Json) : bool :=
  match v with
  | JArray elements => all no_duplicate_keys elements
  | JObject fields =>
      negb (is_some_and (first_duplicate str_eqb [] (map fst fields)) (fun _ => true))
      && all (fun kv => no_duplicate_keys (snd kv)) fields
  | _ => true
  end.

Definition reject_duplicate_json_keys `{JsonText} (input : list N) : result CanaryError unit :=
  let? v := ok_or (json_from_slice input) InvalidJson in
  fail_if (negb (no_duplicate_keys v)) InvalidJson.

(** ** The stream *)

(** The variables of the loop. *)
Record ExecState : Type := mkExecState {
  state : EventState;
  command_id : option str;
  seen_item_ids : gset str;
  report : option RuntimeCanaryReport
}.

Definition initial_exec_state : ExecState := mkExecState ThreadStarted None ∅ None.

Section stream.
Context `{JsonText}.
Variables (nonce : str) (rendered : RuntimeCanaryExecRender) (expected_final_line : str).

Definition thread_started (st : ExecState) (event_type : str) (value : Json) : result CanaryError ExecState :=
  require_state (state st) ThreadStarted event_type ;?
  let? event := decode_event decode_thread_started value in
  require_kind (ts_type event) event_type ;?
  validate_protocol_id (ts_thread_id event) (lit "thread") ;?
  Ok (mkExecState TurnStarted (command_id st) (seen_item_ids st) (report st)).

Definition turn_started (st : ExecState) (event_type : str) (value : Json) : result CanaryError ExecState :=
  require_state (state st) TurnStarted event_type ;?
  let? event := decode_event decode_turn_started value in
  require_kind (us_type event) event_type ;?
  Ok (mkExecState CommandStarted (command_id st) (seen_item_ids st) (report st)).

Definition item_started (st : ExecState) (event_type : str) (value : Json) : result CanaryError ExecState :=
  require_state (state st) CommandStarted event_type ;?
  let? item_type := nested_item_type value in
  fail_if (negb (str_eqb item_type (lit "command_execution")))
    (message (lit "Codex canary item.started variant `" ++ item_type ++ lit "` is not allowed")) ;?
  let? event := decode_event decode_command_started value in
  require_kind (cs_type event) event_type ;?
  require_kind (si_type (cs_item event)) item_type ;?
  validate_protocol_id (si_id (cs_item event)) (lit "item") ;?
  let? seen := insert_item_id (seen_item_ids st) (si_id (cs_item event)) in
  fail_if (negb (str_eqb (si_command (cs_item event)) (event_command rendered))
      || negb (str_eqb (si_status (cs_item event)) (lit "in_progress")))
    (message (lit "Codex canary command start does not match the fixed command")) ;?
  Ok (mkExecState CommandCompleted (Some (si_id (cs_item event))) seen (report st)).

Definition command_completed (st : ExecState) (event_type item_type : str) (value : Json) : result CanaryError ExecState :=
  require_state (state st) CommandCompleted item_type ;?
  let? event := decode_event decode_command_completed value in
  require_kind (cc_type event) event_type ;?
  require_kind (ci_type (cc_item event)) item_type ;?
  let? expected_id := ok_or (command_id st) (message (lit "Codex canary command completion has no start")) in
  fail_if (negb (str_eqb (ci_id (cc_item event)) expected_id)
      || negb (str_eqb (ci_command (cc_item event)) (event_command rendered))
      || negb (str_eqb (ci_status (cc_item event)) (lit "completed"))
      || negb (ci_exit_code (cc_item event) =? 0)%Z)
    (message (lit "Codex canary command completion does not match its start")) ;?
  let? r := parse_runtime_canary_report (as_bytes (ci_aggregated_output (cc_item event))) nonce (fixture_binding rendered) in
  Ok (mkExecState AgentMessage (command_id st) (seen_item_ids st) (Some r)).

Definition reasoning_completed (st : ExecState) (event_type item_type : str) (value : Json) : result CanaryError ExecState :=
  fail_if (negb (bool_decide (state st = CommandStarted) || bool_decide (state st = AgentMessage)))
    (message (lit "Codex canary reasoning item is outside its allowed state")) ;?
  let? event := decode_event decode_text_event value in
  require_kind (te_type event) event_type ;?
  require_kind (ti_type (te_item event)) item_type ;?
  let? seen := record_completed_item_id (seen_item_ids st) (ti_id (te_item event)) in
  Ok (mkExecState (state st) (command_id st) seen (report st)).

Definition agent_message (st : ExecState) (event_type item_type : str) (value : Json) : result CanaryError ExecState :=
  require_state (state st) AgentMessage item_type ;?
  let? event := decode_event decode_text_event value in
  require_kind (te_type event) event_type ;?
  require_kind (ti_type (te_item event)) item_type ;?
  let? seen := record_completed_item_id (seen_item_ids st) (ti_id (te_item event)) in
  fail_if (negb (str_eqb (ti_text (te_item event)) expected_final_line))
    (message (lit "Codex canary final agent message does not match its binding")) ;?
  Ok (mkExecState TurnCompleted (command_id st) seen (report st)).

Definition item_completed (st : ExecState) (event_type : str) (value : Json) : result CanaryError ExecState :=
  let? item_type := nested_item_type value in
  if str_eqb item_type (lit "command_execution") then command_completed st event_type item_type value
  else if str_eqb item_type (lit "reasoning") then reasoning_completed st event_type item_type value
  else if str_eqb item_type (lit "agent_message") then agent_message st event_type item_type value
  else Err (message (lit "Codex canary item.completed variant `" ++ item_type ++ lit "` is not allowed")).

Definition turn_completed (st : ExecState) (event_type : str) (value : Json) : result CanaryError ExecState :=
  require_state (state st) TurnCompleted event_type ;?
  let? event := decode_event decode_turn_completed value in
  require_kind (tc_type event) event_type ;?
  fail_if (is_empty (tc_usage event)) (message (lit "Codex canary turn usage is empty")) ;?
  Ok (mkExecState Finished (command_id st) (seen_item_ids st) (report st)).

(** The body of the loop: one line. *)
Definition exec_line (st : ExecState) (line : list N) : result CanaryError ExecState :=
  fail_if (is_empty line || (CODEX_EXEC_CANARY_JSONL_LINE_MAX_BYTES <? len line))
    (message (lit "Codex canary JSONL line framing is invalid")) ;?
  reject_duplicate_json_keys line ;?
  let? value := ok_or (json_from_slice line) InvalidJson in
  let? event_type := object_string_field value (lit "type") (lit "Codex canary event") in
  if str_eqb event_type (lit "thread.started") then thread_started st event_type value
  else if str_eqb event_type (lit "turn.started") then turn_started st event_type value
  else if str_eqb event_type (lit "item.started") then item_started st event_type value
  else if str_eqb event_type (lit "item.completed") then item_completed st event_type value
  else if str_eqb event_type (lit "turn.completed") then turn_completed st event_type value
  else if str_eqb event_type (lit "turn.failed") || str_eqb event_type (lit "error") then
    Err (message (lit "Codex canary emitted failure event `" ++ event_type ++ lit "`"))
  else Err (message (lit "unknown Codex canary event variant `" ++ event_type ++ lit "`")).

Fixpoint exec_lines (st : ExecState) (ls : list (list N)) : result CanaryError ExecState :=
  match ls with
  | [] => Ok st
  | line :: ls' => let? st' := exec_line st line in exec_lines st' ls'
  end.
End stream.

Definition parse_runtime_canary_exec_jsonl `{Sha256} `{JsonText} `{JsonPrint} (input : list N) (nonce : str)
    (inputs : RuntimeCanaryFixtureInputs) : result CanaryError RuntimeCanaryReport :=
  fail_if (is_empty input || (CODEX_EXEC_CANARY_JSONL_MAX_BYTES <? len input))
    (message (lit "Codex canary JSONL has an invalid total size")) ;?
  fail_if (negb (ends_with [10] input) || any (N.eqb 13) input)
    (message (lit "Codex canary JSONL framing is invalid")) ;?
  let? rendered := render_runtime_canary_exec nonce inputs in
  let expected_final_line := expected_runtime_canary_final_line nonce (fixture_binding rendered) in
  let? st := exec_lines nonce rendered expected_final_line initial_exec_state
               (split_by (N.eqb 10) (without_last input)) in
  fail_if (negb (bool_decide (state st = Finished))) (message (lit "Codex canary event stream is incomplete")) ;?
  ok_or (report st) (message (lit "Codex canary command report is missing")).
