(* ===== verification/CanaryExecRules.v ===== *)
(** * What the canary's event stream must be

    The event loop of [CanaryExec] accepts exactly the transcripts of one command: a regular
    language of events, with distinct item IDs, in which the fixed command ran once, exited
    with 0 and printed the report. The rendered command is always safe to quote. *)

From S2P Require Import Prelude Text Digest Net Webex Serde JsonCompact CanaryProtocol CanaryRules CanaryExec.

Local Open Scope N_scope.

(** ** Events of lines *)

Inductive CanaryEvent : Type :=
| EvThread (thread_id : str)
| EvTurn
| EvStart (id command status : str)
| EvComplete (id command output : str) (exit_code : Z) (status : str)
| EvReasoning (id text : str)
| EvMessage (id text : str)
| EvDone (usage : list (str * Json)).

Definition text_event (mk : str -> str -> CanaryEvent) (v : Json) : option CanaryEvent :=
  e ← decode_text_event v; Some (mk (ti_id (te_item e)) (ti_text (te_item e))).

Definition json_type (v : Json) : option str := json_get (lit "type") v ≫= json_as_str.

(** The shape of an event, by the types it names; its fields are still to be checked. *)
Definition json_event (v : Json) : option CanaryEvent :=
  event_type ← json_type v;
  if str_eqb event_type (lit "thread.started") then
    e ← decode_thread_started v; Some (EvThread (ts_thread_id e))
  else if str_eqb event_type (lit "turn.started") then
    _ ← decode_turn_started v; Some EvTurn
  else if str_eqb event_type (lit "item.started") then
    item_type ← json_get (lit "item") v ≫= json_type;
    if str_eqb item_type (lit "command_execution") then
      e ← decode_command_started v;
      Some (EvStart (si_id (cs_item e)) (si_command (cs_item e)) (si_status (cs_item e)))
    else None
  else if str_eqb event_type (lit "item.completed") then
    item_type ← json_get (lit "item") v ≫= json_type;
    if str_eqb item_type (lit "command_execution") then
      e ← decode_command_completed v;
      Some (EvComplete (ci_id (cc_item e)) (ci_command (cc_item e)) (ci_aggregated_output (cc_item e))
              (ci_exit_code (cc_item e)) (ci_status (cc_item e)))
    else if str_eqb item_type (lit "reasoning") then text_event EvReasoning v
    else if str_eqb item_type (lit "agent_message") then text_event EvMessage v
    else None
  else if str_eqb event_type (lit "turn.completed") then
    e ← decode_turn_completed v; Some (EvDone (tc_usage e))
  else None.

Definition line_event `{JsonText} (line : list N) : option CanaryEvent :=
  if is_empty line || (CODEX_EXEC_CANARY_JSONL_LINE_MAX_BYTES <? len line) then None
  else
    v ← json_from_slice line;
    if no_duplicate_keys v then json_event v else None.

(** ** Decoded types are the types looked up *)

Lemma required_field_get fields name v : required_field fields name = Some v -> json_get name (JObject fields) = Some v.
Proof.
  unfold required_field, unique_field, json_get. induction fields as [|[k w] fields IH]; [done|].
  cbn [List.filter List.find fst]. rewrite any_single. destruct (str_eqb k name); [|exact IH].
  destruct (List.filter _ fields); cbn; [by intros [= ->]|done].
Qed.

Lemma struct_fields_get names v fields name i :
  struct_fields names v = Some fields -> json_get name v <> None -> names !! i = Some name ->
  json_get name v = fields !! i.
Proof.
  unfold struct_fields. intros Hs Hg Hi. destruct v as [| | | | |kvs]; try done.
  destruct (known_fields names kvs); [|done]. apply mapM_Some_1 in Hs.
  eapply Forall2_lookup_l in Hs as (v & Hv & Hr); [|exact Hi].
  rewrite Hv. by apply required_field_get.
Qed.

Ltac struct_inv :=
  repeat match goal with
  | H : (_ ← _; _) = Some _ |- _ => apply bind_Some in H as (? & ? & H)
  | H : fmap _ _ = Some _ |- _ => apply fmap_Some in H as (? & ? & H)
  | H : match ?l with [] => _ | _ :: _ => _ end = Some _ |- _ => destruct l; [try done|]; try done
  end.

Lemma type_field names v fields i x t t' :
  struct_fields names v = Some fields -> names !! i = Some (lit "type") -> fields !! i = Some x ->
  json_string x = Some t' -> json_type v = Some t -> t' = t.
Proof.
  intros Hs Hi Hx Ht' Ht. unfold json_type in Ht. apply bind_Some in Ht as (w & Hw & Ht).
  erewrite struct_fields_get in Hw; [|exact Hs|by rewrite Hw|exact Hi].
  rewrite Hx in Hw. injection Hw as ->. unfold json_string in Ht'. congruence.
Qed.

Lemma thread_type v e t : decode_thread_started v = Some e -> json_type v = Some t -> ts_type e = t.
Proof.
  unfold decode_thread_started. intros H Ht. struct_inv. simplify_eq/=. by eapply (type_field _ v _ 0).
Qed.

Lemma turn_type v e t : decode_turn_started v = Some e -> json_type v = Some t -> us_type e = t.
Proof.
  unfold decode_turn_started. intros H Ht. struct_inv. simplify_eq/=. by eapply (type_field _ v _ 0).
Qed.

Lemma done_type v e t : decode_turn_completed v = Some e -> json_type v = Some t -> tc_type e = t.
Proof.
  unfold decode_turn_completed. intros H Ht. apply bind_Some in H as (fields & Hf & H).
  destruct fields as [|x [|[| | | | |u] [|]]]; try done. struct_inv. simplify_eq/=. by eapply (type_field _ v _ 0).
Qed.

Lemma item_event_types {A} (item : Json -> option A) (kind : A -> str) v e t it :
  (forall w a, item w = Some a -> json_type w = Some it -> kind a = it) ->
  decode_item_event item v = Some e -> json_type v = Some t -> json_get (lit "item") v ≫= json_type = Some it ->
  fst e = t /\ kind (snd e) = it.
Proof.
  intros Hitem H Ht (w & Hw & Hit)%bind_Some. unfold decode_item_event in H.
  apply bind_Some in H as (fields & Hf & H). destruct fields as [|x [|y [|]]]; try done. struct_inv.
  simplify_eq/=. split; [by eapply (type_field _ v _ 0)|].
  erewrite (struct_fields_get _ _ _ _ 1) in Hw; [|exact Hf|by rewrite Hw|done].
  injection Hw as ->. eauto.
Qed.

Lemma started_item_type w a it : decode_started_item w = Some a -> json_type w = Some it -> si_type a = it.
Proof.
  unfold decode_started_item. intros H Ht. struct_inv. simplify_eq/=. by eapply (type_field _ w _ 1).
Qed.

Lemma completed_item_type w a it : decode_completed_item w = Some a -> json_type w = Some it -> ci_type a = it.
Proof.
  unfold decode_completed_item. intros H Ht. struct_inv. simplify_eq/=. by eapply (type_field _ w _ 1).
Qed.

Lemma text_item_type w a it : decode_text_item w = Some a -> json_type w = Some it -> ti_type a = it.
Proof.
  unfold decode_text_item. intros H Ht. struct_inv. simplify_eq/=. by eapply (type_field _ w _ 1).
Qed.

Lemma start_types v e t it :
  decode_command_started v = Some e -> json_type v = Some t -> json_get (lit "item") v ≫= json_type = Some it ->
  cs_type e = t /\ si_type (cs_item e) = it.
Proof.
  intros (x & Hx & ->)%fmap_Some Ht Hit.
  eapply (item_event_types decode_started_item si_type); [by intros w a; apply started_item_type|done..].
Qed.

Lemma complete_types v e t it :
  decode_command_completed v = Some e -> json_type v = Some t -> json_get (lit "item") v ≫= json_type = Some it ->
  cc_type e = t /\ ci_type (cc_item e) = it.
Proof.
  intros (x & Hx & ->)%fmap_Some Ht Hit.
  eapply (item_event_types decode_completed_item ci_type); [by intros w a; apply completed_item_type|done..].
Qed.

Lemma text_types v e t it :
  decode_text_event v = Some e -> json_type v = Some t -> json_get (lit "item") v ≫= json_type = Some it ->
  te_type e = t /\ ti_type (te_item e) = it.
Proof.
  intros (x & Hx & ->)%fmap_Some Ht Hit.
  eapply (item_event_types decode_text_item ti_type); [by intros w a; apply text_item_type|done..].
Qed.

(** ** Transitions *)

Definition valid_id (value : str) : Prop :=
  value <> [] /\ byte_len value <= 128
  /\ Forall (fun byte => is_ascii_alphanumeric byte || one_of (lit "-_") byte = true) (as_bytes value).

Lemma protocol_id_ok value name u : validate_protocol_id value name = Ok u <-> valid_id value.
Proof.
  destruct u. unfold validate_protocol_id, valid_id.
  rewrite fail_if_ok, !orb_false_iff, is_empty_false, negb_false_iff, all_true, N.ltb_ge. tauto.
Qed.

Lemma require_state_ok a b e u : require_state a b e = Ok u <-> a = b.
Proof. destruct u. unfold require_state. by rewrite fail_if_ok, negb_false_iff, bool_decide_eq_true. Qed.

Lemma require_kind_ok a b u : require_kind a b = Ok u <-> a = b.
Proof. destruct u. unfold require_kind. by rewrite fail_if_ok, negb_false_iff, str_eqb_eq. Qed.

Lemma insert_item_ok seen id s : insert_item_id seen id = Ok s <-> (id ∉ seen) /\ s = ({[id]} ∪ seen).
Proof. unfold insert_item_id. rewrite seq_ok, bool_decide_eq_false. naive_solver. Qed.

Lemma record_item_ok seen id s :
  record_completed_item_id seen id = Ok s <-> valid_id id /\ (id ∉ seen) /\ s = ({[id]} ∪ seen).
Proof. unfold record_completed_item_id. by rewrite then_ok, protocol_id_ok, insert_item_ok. Qed.

Section transitions.
Context `{JsonText}.
Variables (nonce : str) (rendered : RuntimeCanaryExecRender) (final_line : str).

Inductive transition : ExecState -> CanaryEvent -> ExecState -> Prop :=
| tr_thread cid seen r id :
    valid_id id ->
    transition (mkExecState ThreadStarted cid seen r) (EvThread id) (mkExecState TurnStarted cid seen r)
| tr_turn cid seen r :
    transition (mkExecState TurnStarted cid seen r) EvTurn (mkExecState CommandStarted cid seen r)
| tr_start cid seen r id :
    valid_id id -> id ∉ seen ->
    transition (mkExecState CommandStarted cid seen r)
      (EvStart id (event_command rendered) (lit "in_progress"))
      (mkExecState CommandCompleted (Some id) ({[id]} ∪ seen) r)
| tr_complete seen r id output r' :
    parse_runtime_canary_report (as_bytes output) nonce (fixture_binding rendered) = Ok r' ->
    transition (mkExecState CommandCompleted (Some id) seen r)
      (EvComplete id (event_command rendered) output 0 (lit "completed"))
      (mkExecState AgentMessage (Some id) seen (Some r'))
| tr_reasoning q cid seen r id text :
    q = CommandStarted \/ q = AgentMessage -> valid_id id -> id ∉ seen ->
    transition (mkExecState q cid seen r) (EvReasoning id text) (mkExecState q cid ({[id]} ∪ seen) r)
| tr_message cid seen r id :
    valid_id id -> id ∉ seen ->
    transition (mkExecState AgentMessage cid seen r) (EvMessage id final_line)
      (mkExecState TurnCompleted cid ({[id]} ∪ seen) r)
| tr_done cid seen r usage :
    usage <> [] ->
    transition (mkExecState TurnCompleted cid seen r) (EvDone usage) (mkExecState Finished cid seen r).

Lemma thread_started_ok st t v st' :
  json_type v = Some t ->
  thread_started st t v = Ok st' <->
  exists ev, (e ← decode_thread_started v; Some (EvThread (ts_thread_id e))) = Some ev /\ transition st ev st'.
Proof.
  intros Ht. unfold thread_started, decode_event. destruct st as [q c s r]. cbn [state command_id seen_item_ids report].
  rewrite then_ok, require_state_ok. destruct (decode_thread_started v) as [e|] eqn:E; cbn.
  - rewrite !then_ok, require_kind_ok, protocol_id_ok. split.
    + intros (-> & _ & Hid & [= <-]). eexists. split; [done|]. by constructor.
    + intros (ev & [= <-] & Htr). inversion Htr; subst. by rewrite (thread_type _ _ _ E Ht).
  - split; [naive_solver|]. by intros (? & ? & ?).
Qed.

Lemma turn_started_ok st t v st' :
  json_type v = Some t ->
  turn_started st t v = Ok st' <->
  exists ev, (_ ← decode_turn_started v; Some EvTurn) = Some ev /\ transition st ev st'.
Proof.
  intros Ht. unfold turn_started, decode_event. destruct st as [q c s r]. cbn [state command_id seen_item_ids report].
  rewrite then_ok, require_state_ok. destruct (decode_turn_started v) as [e|] eqn:E; cbn.
  - rewrite !then_ok, require_kind_ok. split.
    + intros (-> & _ & [= <-]). eexists. split; [done|]. by constructor.
    + intros (ev & [= <-] & Htr). inversion Htr; subst. by rewrite (turn_type _ _ _ E Ht).
  - split; [naive_solver|]. by intros (? & ? & ?).
Qed.

Lemma turn_completed_ok st t v st' :
  json_type v = Some t ->
  turn_completed st t v = Ok st' <->
  exists ev, (e ← decode_turn_completed v; Some (EvDone (tc_usage e))) = Some ev /\ transition st ev st'.
Proof.
  intros Ht. unfold turn_completed, decode_event. destruct st as [q c s r]. cbn [state command_id seen_item_ids report].
  rewrite then_ok, require_state_ok. destruct (decode_turn_completed v) as [e|] eqn:E; cbn.
  - rewrite then_ok, require_kind_ok, seq_ok, is_empty_false. split.
    + intros (-> & _ & Hu & [= <-]). eexists. split; [done|]. by constructor.
    + intros (ev & [= <-] & Htr). inversion Htr; subst. by rewrite (done_type _ _ _ E Ht).
  - split; [naive_solver|]. by intros (? & ? & ?).
Qed.

Lemma object_type_ok v name t : object_string_field v (lit "type") name = Ok t <-> json_type v = Some t.
Proof. unfold object_string_field, json_type. by rewrite ok_or_ok. Qed.

Lemma nested_type_ok v t : nested_item_type v = Ok t <-> json_get (lit "item") v ≫= json_type = Some t.
Proof.
  unfold nested_item_type. destruct (json_get (lit "item") v) as [item|]; cbn [ok_or rbind mbind option_bind].
  - apply object_type_ok.
  - done.
Qed.

(** Undo and redo the checks of a handler. *)
Ltac checks_inv :=
  ok_inv; repeat match goal with
  | Hx : require_state _ _ _ = Ok _ |- _ => apply require_state_ok in Hx
  | Hx : require_kind _ _ = Ok _ |- _ => apply require_kind_ok in Hx
  | Hx : validate_protocol_id _ _ = Ok _ |- _ => apply protocol_id_ok in Hx
  | Hx : insert_item_id _ _ = Ok _ |- _ => apply insert_item_ok in Hx as [? ->]
  | Hx : record_completed_item_id _ _ = Ok _ |- _ => apply record_item_ok in Hx as (? & ? & ->)
  | Hx : _ || _ = false |- _ => apply orb_false_iff in Hx as [? ?]
  | Hx : negb _ = false |- _ => apply negb_false_iff in Hx
  | Hx : str_eqb _ _ = true |- _ => apply str_eqb_eq in Hx
  | Hx : (_ =? _)%Z = true |- _ => apply Z.eqb_eq in Hx
  end; try subst.

Ltac checks_ok :=
  repeat first
    [ rewrite (proj2 (require_state_ok _ _ _ tt)) by done
    | rewrite (proj2 (require_kind_ok _ _ tt)) by done
    | rewrite (proj2 (protocol_id_ok _ _ tt)) by done
    | rewrite (proj2 (insert_item_ok _ _ _)) by (split; [eassumption|reflexivity])
    | rewrite (proj2 (record_item_ok _ _ _)) by (split; [eassumption|split; [eassumption|reflexivity]])
    | progress rewrite ?str_eqb_refl
    | progress cbn [rbind fail_if negb orb ok_or state command_id seen_item_ids report] ].

Lemma item_started_ok st t v st' :
  json_type v = Some t ->
  item_started rendered st t v = Ok st' <->
  exists ev, (item_type ← json_get (lit "item") v ≫= json_type;
     if str_eqb item_type (lit "command_execution") then
       e ← decode_command_started v;
       Some (EvStart (si_id (cs_item e)) (si_command (cs_item e)) (si_status (cs_item e)))
     else None) = Some ev /\ transition st ev st'.
Proof.
  intros Ht. unfold item_started, decode_event. destruct st as [q c s r]. cbn [state command_id seen_item_ids report].
  destruct (nested_item_type v) as [it|] eqn:Ei.
  2: { split; [intros Hx; by checks_inv|]. intros (ev & (it & Hit%nested_type_ok & _)%bind_Some & _). congruence. }
  pose proof (proj1 (nested_type_ok _ _) Ei) as Hit. rewrite Hit. cbn [mbind option_bind rbind].
  destruct (str_eqb it _) eqn:Eit; cbn [negb fail_if rbind];
    [|split; [intros Hx; by checks_inv|by intros (? & ? & ?)]].
  destruct (decode_command_started v) as [e|] eqn:E; cbn [ok_or rbind mbind option_bind];
    [|split; [intros Hx; by checks_inv|by intros (? & ? & ?)]].
  destruct (start_types _ _ _ _ E Ht Hit) as [Hk1 Hk2]. split.
  - intros Hx. checks_inv. eexists. split; [done|].
    match goal with H1 : si_command _ = _, H2 : si_status _ = _ |- _ => rewrite H1, H2 end. by constructor.
  - intros (ev & [= <-] & Htr). inversion Htr; subst. by checks_ok.
Qed.

Lemma command_completed_ok st t v st' :
  json_type v = Some t -> json_get (lit "item") v ≫= json_type = Some (lit "command_execution") ->
  command_completed nonce rendered st t (lit "command_execution") v = Ok st' <->
  exists ev, (e ← decode_command_completed v;
      Some (EvComplete (ci_id (cc_item e)) (ci_command (cc_item e)) (ci_aggregated_output (cc_item e))
              (ci_exit_code (cc_item e)) (ci_status (cc_item e)))) = Some ev /\ transition st ev st'.
Proof.
  intros Ht Hit. unfold command_completed, decode_event. destruct st as [q c s r]. cbn [state command_id seen_item_ids report].
  destruct (decode_command_completed v) as [e|] eqn:E; cbn [ok_or rbind mbind option_bind];
    [|split; [intros Hx; by checks_inv|by intros (? & ? & ?)]].
  destruct (complete_types _ _ _ _ E Ht Hit) as [Hk1 Hk2]. split.
  - intros Hx. checks_inv. eexists. split; [done|].
    repeat match goal with Hx : _ (cc_item _) = _ |- _ => rewrite Hx end. by constructor.
  - intros (ev & [= <-] & Htr). inversion Htr; subst. checks_ok.
    repeat match goal with Hx : _ = ci_status _ |- _ => rewrite <-Hx | Hx : _ = ci_exit_code _ |- _ => rewrite <-Hx end.
    checks_ok. change (0 =? 0)%Z with true. checks_ok.
    match goal with Hx : parse_runtime_canary_report _ _ _ = _ |- _ => rewrite Hx end. done.
Qed.

Lemma reasoning_ok st t v st' :
  json_type v = Some t -> json_get (lit "item") v ≫= json_type = Some (lit "reasoning") ->
  reasoning_completed st t (lit "reasoning") v = Ok st' <->
  exists ev, text_event EvReasoning v = Some ev /\ transition st ev st'.
Proof.
  intros Ht Hit. unfold reasoning_completed, text_event, decode_event. destruct st as [q c s r]. cbn [state command_id seen_item_ids report].
  destruct (decode_text_event v) as [e|] eqn:E; cbn [ok_or rbind mbind option_bind];
    [|split; [intros Hx; by checks_inv|by intros (? & ? & ?)]].
  destruct (text_types _ _ _ _ E Ht Hit) as [Hk1 Hk2]. split.
  - intros Hx. checks_inv. eexists. split; [done|]. constructor; [|done..].
    match goal with Hx : _ || _ = true |- _ => by apply orb_true_iff in Hx as [?%bool_decide_eq_true|?%bool_decide_eq_true]; auto end.
  - intros (ev & [= <-] & Htr). inversion Htr as [| | | |? ? ? ? ? ? Hq| |]; subst.
    assert (bool_decide (q = CommandStarted) || bool_decide (q = AgentMessage) = true) as -> by (by destruct Hq; subst).
    by checks_ok.
Qed.

Lemma agent_message_ok st t v st' :
  json_type v = Some t -> json_get (lit "item") v ≫= json_type = Some (lit "agent_message") ->
  agent_message final_line st t (lit "agent_message") v = Ok st' <->
  exists ev, text_event EvMessage v = Some ev /\ transition st ev st'.
Proof.
  intros Ht Hit. unfold agent_message, text_event, decode_event. destruct st as [q c s r]. cbn [state command_id seen_item_ids report].
  destruct (decode_text_event v) as [e|] eqn:E; cbn [ok_or rbind mbind option_bind];
    [|split; [intros Hx; by checks_inv|by intros (? & ? & ?)]].
  destruct (text_types _ _ _ _ E Ht Hit) as [Hk1 Hk2]. split.
  - intros Hx. checks_inv. eexists. split; [done|].
    match goal with Hx : ti_text _ = _ |- _ => rewrite Hx end. by constructor.
  - intros (ev & [= <-] & Htr). inversion Htr; subst. by checks_ok.
Qed.

Lemma item_completed_ok st t v st' :
  json_type v = Some t ->
  item_completed nonce rendered final_line st t v = Ok st' <->
  exists ev, (item_type ← json_get (lit "item") v ≫= json_type;
    if str_eqb item_type (lit "command_execution") then
      e ← decode_command_completed v;
      Some (EvComplete (ci_id (cc_item e)) (ci_command (cc_item e)) (ci_aggregated_output (cc_item e))
              (ci_exit_code (cc_item e)) (ci_status (cc_item e)))
    else if str_eqb item_type (lit "reasoning") then text_event EvReasoning v
    else if str_eqb item_type (lit "agent_message") then text_event EvMessage v
    else None) = Some ev /\ transition st ev st'.
Proof.
  intros Ht. unfold item_completed.
  destruct (nested_item_type v) as [it|] eqn:Ei.
  2: { split; [intros Hx; by checks_inv|]. intros (ev & (it & Hit%nested_type_ok & _)%bind_Some & _). congruence. }
  pose proof (proj1 (nested_type_ok _ _) Ei) as Hit. rewrite Hit. cbn [mbind option_bind rbind].
  destruct (str_eqb it (lit "command_execution")) eqn:E1.
  { apply str_eqb_eq in E1 as ->. by apply command_completed_ok. }
  destruct (str_eqb it (lit "reasoning")) eqn:E2.
  { apply str_eqb_eq in E2 as ->. by apply reasoning_ok. }
  destruct (str_eqb it (lit "agent_message")) eqn:E3.
  { apply str_eqb_eq in E3 as ->. by apply agent_message_ok. }
  split; [done|by intros (? & ? & ?)].
Qed.

(** One line of the loop is one event and one transition. *)
Lemma exec_line_ok st line st' :
  exec_line nonce rendered final_line st line = Ok st' <->
  exists ev, line_event line = Some ev /\ transition st ev st'.
Proof.
  unfold exec_line, line_event, reject_duplicate_json_keys. rewrite seq_ok.
  destruct (_ || _); [split; [by intros []|by intros (? & ? & ?)]|].
  destruct (json_from_slice line) as [v|]; cbn [ok_or rbind mbind option_bind];
    [|split; [by intros []|by intros (? & ? & ?)]].
  rewrite seq_ok, negb_false_iff.
  destruct (no_duplicate_keys v); [|split; [by intros (_ & ? & _)|by intros (? & ? & ?)]].
  unfold json_event. destruct (json_type v) as [t|] eqn:Ht.
  2: { split; [|by intros (? & ? & ?)]. intros (_ & _ & Hx). apply rbind_ok in Hx as (t & Hy & _).
       apply object_type_ok in Hy. congruence. }
  rewrite (proj2 (object_type_ok v _ t) Ht). cbn [rbind mbind option_bind].
  assert (forall P : Prop, (false = false /\ true = true /\ P) <-> P) as -> by tauto.
  destruct (str_eqb t (lit "thread.started")); [by apply thread_started_ok|].
  destruct (str_eqb t (lit "turn.started")); [by apply turn_started_ok|].
  destruct (str_eqb t (lit "item.started")); [by apply item_started_ok|].
  destruct (str_eqb t (lit "item.completed")); [by apply item_completed_ok|].
  destruct (str_eqb t (lit "turn.completed")); [by apply turn_completed_ok|].
  destruct (_ || _); (split; [done|by intros (? & ? & ?)]).
Qed.

(** ** Runs *)

(** From [st], the events lead to the end of the turn with report [r]. *)
Inductive finishes : ExecState -> list CanaryEvent -> RuntimeCanaryReport -> Prop :=
| fin_done st r : state st = Finished -> report st = Some r -> finishes st [] r
| fin_step st ev st' evs r : transition st ev st' -> finishes st' evs r -> finishes st (ev :: evs) r.

Lemma exec_lines_finish st ls r :
  (exists st', exec_lines nonce rendered final_line st ls = Ok st' /\ state st' = Finished /\ report st' = Some r) <->
  exists evs, mapM line_event ls = Some evs /\ finishes st evs r.
Proof.
  revert st. induction ls as [|line ls IH]; intros st; cbn [exec_lines].
  - split.
    + intros (st' & [= <-] & Hf & Hr). exists []. split; [done|]. by constructor.
    + intros (evs & [= <-] & Hf). inversion Hf; subst. eauto.
  - split.
    + intros (st' & Hx & Hf & Hr). apply rbind_ok in Hx as (st1 & Hline & Hx).
      apply exec_line_ok in Hline as (ev & Hev & Htr).
      destruct (proj1 (IH st1)) as (evs & Hm & Hfin); [eauto|].
      exists (ev :: evs). rewrite mapM_Some in *. split; [by constructor|by econstructor].
    + intros (evs & Hm & Hfin). rewrite mapM_Some in Hm. inversion Hm as [|? ev ? evs' Hev Hm']; subst.
      inversion Hfin as [|? ? st1 ? ? Htr Hfin']; subst.
      destruct (proj2 (IH st1)) as (st' & Hx & Hf); [exists evs'; by rewrite mapM_Some|].
      exists st'. rewrite (proj2 (exec_line_ok _ _ _)) by eauto. done.
Qed.

(** IDs that are valid, new and pairwise distinct, recorded one after the other. *)
Fixpoint fresh (seen : gset str) (ids : list str) : Prop :=
  match ids with
  | [] => True
  | id :: ids' => valid_id id /\ (id ∉ seen) /\ fresh ({[id]} ∪ seen) ids'
  end.

Lemma fresh_spec seen ids : fresh seen ids <-> Forall valid_id ids /\ NoDup ids /\ (forall id, id ∈ ids -> id ∉ seen).
Proof.
  revert seen. induction ids as [|id ids IH]; intros seen; cbn.
  { split; [|done]. intros _. split; [constructor|]. split; [constructor|]. by intros ? ?%not_elem_of_nil. }
  rewrite IH, Forall_cons, NoDup_cons. split.
  - intros (Hv & Hn & Hvs & Hnd & Hs). split_and!; try done.
    + intros Hid. apply (Hs id Hid). set_solver.
    + intros x [->|Hx]%elem_of_cons; [done|]. specialize (Hs x Hx). set_solver.
  - intros ([Hv Hvs] & [Hn Hnd] & Hs). split_and!; try done.
    + apply Hs. by left.
    + intros x Hx. rewrite not_elem_of_union, not_elem_of_singleton. split; [by intros ->|].
      apply Hs. by right.
Qed.

Definition reasoning (items : list (str * str)) : list CanaryEvent := map (fun it => EvReasoning (fst it) (snd it)) items.

Lemma finishes_finished c seen ro evs r :
  finishes (mkExecState Finished c seen ro) evs r <-> evs = [] /\ ro = Some r.
Proof.
  split.
  - intros Hf. inversion Hf as [|? ? ? ? ? Htr]; subst; [done|]. inversion Htr; subst. naive_solver.
  - intros [-> ->]. by constructor.
Qed.

Lemma finishes_completed c seen ro evs r :
  finishes (mkExecState TurnCompleted c seen ro) evs r <->
  exists usage, usage <> [] /\ evs = [EvDone usage] /\ ro = Some r.
Proof.
  split.
  - intros Hf. inversion Hf as [|? ev ? evs' ? Htr Hf']; subst; [done|]. inversion Htr; subst; [naive_solver|].
    apply finishes_finished in Hf' as [-> ->]. eauto.
  - intros (usage & Hu & -> & ->). eapply fin_step; [by constructor|]. by apply finishes_finished.
Qed.

Lemma finishes_message c seen ro evs r :
  finishes (mkExecState AgentMessage c seen ro) evs r <->
  exists items id usage, evs = reasoning items ++ [EvMessage id final_line; EvDone usage]
    /\ fresh seen (map fst items ++ [id]) /\ usage <> [] /\ ro = Some r.
Proof.
  revert seen. induction evs as [|ev evs IH]; intros seen.
  - split; [intros Hf; by inversion Hf|]. intros ([|] & ? & ? & [=] & _).
  - split.
    + intros Hf. inversion Hf as [|? ? ? ? ? Htr Hf']; subst. inversion Htr; subst.
      * apply IH in Hf' as (items & id' & usage & -> & Hfr & Hu & ->).
        exists ((id, text) :: items), id', usage. done.
      * apply finishes_completed in Hf' as (usage & Hu & -> & ->). exists [], id, usage. done.
    + intros ([|[i t] items] & id & usage & [= -> ->] & Hfr & Hu & ->).
      * cbn in Hfr. eapply fin_step; [by constructor; naive_solver|]. apply finishes_completed. eauto.
      * destruct Hfr as (Hv & Hn & Hfr). eapply fin_step; [by constructor; auto|]. apply IH. eauto 10.
Qed.

Lemma finishes_command c seen ro evs r :
  finishes (mkExecState CommandCompleted (Some c) seen ro) evs r <->
  exists output rest, evs = EvComplete c (event_command rendered) output 0 (lit "completed") :: rest
    /\ exists r', parse_runtime_canary_report (as_bytes output) nonce (fixture_binding rendered) = Ok r'
    /\ finishes (mkExecState AgentMessage (Some c) seen (Some r')) rest r.
Proof.
  split.
  - intros Hf. inversion Hf as [|? ? ? ? ? Htr Hf']; subst; [done|]. inversion Htr; subst; [|naive_solver]. eauto 10.
  - intros (output & rest & -> & r' & Hp & Hf). eapply fin_step; [by constructor|done].
Qed.

Lemma union_shuffle (id : str) (a b : gset str) : {[id]} ∪ a ∪ b = a ∪ ({[id]} ∪ b).
Proof. set_solver. Qed.

Lemma finishes_start c seen ro evs r :
  finishes (mkExecState CommandStarted c seen ro) evs r <->
  exists items id rest, evs = reasoning items ++ EvStart id (event_command rendered) (lit "in_progress") :: rest
    /\ fresh seen (map fst items ++ [id])
    /\ finishes (mkExecState CommandCompleted (Some id) (list_to_set (map fst items ++ [id]) ∪ seen) ro) rest r.
Proof.
  revert seen. induction evs as [|ev evs IH]; intros seen.
  - split; [intros Hf; by inversion Hf|]. intros ([|] & ? & ? & [=] & _).
  - split.
    + intros Hf. inversion Hf as [|? ? ? ? ? Htr Hf']; subst. inversion Htr; subst.
      * exists [], id, evs. cbn. split_and!; try done. by rewrite union_empty_r_L.
      * apply IH in Hf' as (items & id' & rest & -> & Hfr & Hf').
        exists ((id, text) :: items), id', rest. split_and!; try done. cbn [map app fst list_to_set].
        by rewrite union_shuffle.
    + intros ([|[i t] items] & id & rest & [= -> ->] & Hfr & Hf).
      * cbn in Hfr, Hf. rewrite union_empty_r_L in Hf. eapply fin_step; [by constructor; naive_solver|done].
      * destruct Hfr as (Hv & Hn & Hfr). eapply fin_step; [by constructor; auto|]. apply IH.
        exists items, id, rest. split_and!; try done. cbn [map app fst list_to_set] in Hf.
        by rewrite union_shuffle in Hf.
Qed.

(** The transcript of a successful canary run. *)
Definition transcript (evs : list CanaryEvent) (r : RuntimeCanaryReport) : Prop :=
  exists thread before command output after last usage,
    evs = EvThread thread :: EvTurn :: reasoning before
          ++ EvStart command (event_command rendered) (lit "in_progress")
          :: EvComplete command (event_command rendered) output 0 (lit "completed")
          :: reasoning after ++ [EvMessage last final_line; EvDone usage]
    /\ parse_runtime_canary_report (as_bytes output) nonce (fixture_binding rendered) = Ok r
    /\ valid_id thread /\ usage <> []
    /\ (let ids := map fst before ++ [command] ++ map fst after ++ [last] in Forall valid_id ids /\ NoDup ids).

Lemma fresh_app seen a b : fresh seen (a ++ b) <-> fresh seen a /\ fresh (list_to_set a ∪ seen) b.
Proof.
  revert seen. induction a as [|x a IH]; intros seen; cbn [app fresh list_to_set].
  - rewrite union_empty_l_L. tauto.
  - rewrite IH, union_shuffle. tauto.
Qed.

Lemma finishes_transcript evs r : finishes initial_exec_state evs r <-> transcript evs r.
Proof.
  unfold initial_exec_state, transcript. split.
  - intros Hf. inversion Hf as [|? ? ? ? ? Htr Hf']; subst; [done|]. inversion Htr; subst; [|naive_solver].
    inversion Hf' as [|? ? ? ? ? Htr' Hf'']; subst; [done|]. inversion Htr'; subst; [|naive_solver].
    apply finishes_start in Hf'' as (before & cid & rest & -> & Hfr & Hf'').
    apply finishes_command in Hf'' as (output & rest' & -> & r' & Hp & Hf'').
    apply finishes_message in Hf'' as (after & last & usage & -> & Hfr' & Hu & [= ->]).
    pose proof (proj2 (fresh_app _ _ _) (conj Hfr Hfr')) as Hall. rewrite <-app_assoc in Hall.
    apply fresh_spec in Hall as (? & ? & _).
    exists id, before, cid, output, after, last, usage. by split_and!.
  - intros (thread & before & cid & output & after & last & usage & -> & Hp & Ht & Hu & Hv & Hnd).
    assert (fresh ∅ ((map fst before ++ [cid]) ++ map fst after ++ [last])) as [Hf1 Hf2]%fresh_app.
    { rewrite <-app_assoc. apply fresh_spec. by split_and!. }
    eapply fin_step; [by constructor|]. eapply fin_step; [by constructor|]. apply finishes_start.
    exists before, cid. eexists. split_and!; [done|done|]. apply finishes_command.
    exists output. eexists. split; [done|]. exists r. split; [done|]. apply finishes_message.
    exists after, last, usage. done.
Qed.
End transitions.

(** ** The command as a shell reads it *)

(** Words of a POSIX shell command of plain characters, double quotes without expansions and
    single quotes; [quote] is the open quotation mark, 0 outside. Other syntax has no words. *)
Definition plain_char (c : char) : bool := is_ascii_alphanumeric c || one_of (lit "-_./:[]%") c.

Fixpoint shell_words (quote : char) (word : option str) (s : str) : option (list str) :=
  match s with
  | [] => if quote =? 0 then Some (match word with Some w => [w] | None => [] end) else None
  | c :: s' =>
      let current := default [] word in
      if quote =? 34 then
        if c =? 34 then shell_words 0 word s'
        else if one_of [36; 96; 92] c then None
        else shell_words 34 (Some (current ++ [c])) s'
      else if quote =? 39 then
        if c =? 39 then shell_words 0 word s' else shell_words 39 (Some (current ++ [c])) s'
      else if c =? 32 then
        match word with
        | Some w => cons w <$> shell_words 0 None s'
        | None => shell_words 0 None s'
        end
      else if (c =? 34) || (c =? 39) then shell_words c (Some current) s'
      else if plain_char c then shell_words 0 (Some (current ++ [c])) s'
      else None
  end.

Definition plain_text (s : str) : Prop := Forall (fun c => plain_char c = true) s.

Lemma plain_char_cases c : plain_char c = true -> (c =? 34) = false /\ (c =? 39) = false /\ (c =? 32) = false
  /\ one_of [36; 96; 92] c = false /\ shell_unsafe c = false /\ is_ascii_char c = true.
Proof.
  intros Hc. assert (c <> 34 /\ c <> 39 /\ c <> 32 /\ c <> 36 /\ c <> 96 /\ c <> 92 /\ c <> 13 /\ c <> 10 /\ c <= 127) as Hn.
  { unfold plain_char, is_ascii_alphanumeric, is_ascii_digit, is_ascii_uppercase, is_ascii_lowercase in Hc.
    apply orb_true_iff in Hc as [Hc|Hc]; [lia|]. unfold one_of in Hc. apply elem_of_any_N in Hc.
    revert Hc. unfold lit. cbn. rewrite !elem_of_cons, elem_of_nil. lia. }
  unfold shell_unsafe, one_of, any, is_ascii_char. cbn [existsb].
  repeat match goal with |- context [N.eqb ?a ?b] => rewrite (proj2 (N.eqb_neq a b)) by lia end.
  repeat split. lia.
Qed.

Lemma words_plain w (a s : str) : plain_text a ->
  shell_words 0 (Some w) (a ++ s) = shell_words 0 (Some (w ++ a)) s.
Proof.
  intros Ha. revert w. induction Ha as [|c a Hc _ IH]; intros w; [by rewrite app_nil_r|].
  destruct (plain_char_cases c Hc) as (H34 & H39 & H32 & _). cbn [app shell_words].
  rewrite H34, H39, H32, Hc. change (0 =? 34) with false. change (0 =? 39) with false.
  cbn [orb default]. by rewrite IH, <-app_assoc.
Qed.

Lemma words_start (a s : str) : a <> [] -> plain_text a -> shell_words 0 None (a ++ s) = shell_words 0 (Some a) s.
Proof.
  intros Hn Ha. rewrite <-(app_nil_l a) at 2. rewrite <-words_plain by done.
  destruct Ha as [|c a Hc _]; [done|]. destruct (plain_char_cases c Hc) as (H34 & H39 & H32 & _).
  cbn [app shell_words]. by rewrite H32.
Qed.

Lemma words_space w (s : str) : shell_words 0 (Some w) (32 :: s) = cons w <$> shell_words 0 None s.
Proof. done. Qed.

Lemma words_double_quoted w (a s : str) : plain_text a ->
  shell_words 34 (Some w) (a ++ 34 :: s) = shell_words 0 (Some (w ++ a)) s.
Proof.
  intros Ha. revert w. induction Ha as [|c a Hc _ IH]; intros w; [by rewrite app_nil_r|].
  destruct (plain_char_cases c Hc) as (H34 & _ & _ & Hu & _). cbn [app shell_words].
  rewrite H34, Hu. change (34 =? 34) with true. cbn [default]. by rewrite IH, <-app_assoc.
Qed.

Lemma words_single_quoted w (a s : str) : Forall (fun c => c <> 39) a ->
  shell_words 39 (Some w) (a ++ 39 :: s) = shell_words 0 (Some (w ++ a)) s.
Proof.
  intros Ha. revert w. induction Ha as [|c a Hc _ IH]; intros w; [by rewrite app_nil_r|].
  cbn [app shell_words]. rewrite (proj2 (N.eqb_neq c 39) Hc).
  change (39 =? 34) with false. change (39 =? 39) with true. cbn [default]. by rewrite IH, <-app_assoc.
Qed.

Lemma words_quoted_arguments args : args <> [] -> Forall plain_text args ->
  shell_words 0 None (join (lit " ") (map quote_argument args)) = Some args.
Proof.
  intros Hn Ha. induction Ha as [|a args Ha Has IH]; [done|].
  assert (forall s, shell_words 0 None (quote_argument a ++ s) = shell_words 0 (Some a) s) as Hq.
  { intros s. unfold quote_argument. rewrite <-!app_assoc. cbn [app shell_words].
    change (0 =? 34) with false. change (0 =? 39) with false. change (34 =? 32) with false.
    change (34 =? 34) with true. cbn [orb default]. by rewrite words_double_quoted. }
  destruct args as [|a' args].
  - cbn [map join]. rewrite <-(app_nil_r (quote_argument a)), Hq. done.
  - cbn [map join] in *. rewrite Hq. change (lit " " ++ ?s) with (32 :: s).
    cbn [shell_words]. change (0 =? 34) with false. change (0 =? 39) with false. change (32 =? 32) with true.
    by rewrite IH.
Qed.

Lemma plain_lit (s : str) : all plain_char s = true -> plain_text s.
Proof. by intros H%all_true. Qed.

Lemma plain_app (a b : str) : plain_text a -> plain_text b -> plain_text (a ++ b).
Proof. apply Forall_app_2. Qed.

Lemma addr_plain (s : str) : addr_text s -> plain_text s.
Proof.
  intros H. eapply Forall_impl; [exact H|]. intros c Hc. cbn beta in Hc. unfold addr_char in Hc.
  unfold plain_char. apply orb_true_iff in Hc as [Hc|Hc].
  - unfold lower_hex, is_ascii_digit in Hc. unfold is_ascii_alphanumeric, is_ascii_digit, is_ascii_lowercase. lia.
  - apply orb_true_iff. right. unfold one_of in *. rewrite elem_of_any_N in *.
    revert Hc. unfold lit. cbn. rewrite !elem_of_cons. tauto.
Qed.

Lemma hex_plain (s : str) : hex64 s -> plain_text s.
Proof.
  intros [_ H]. apply addr_plain. eapply Forall_impl; [exact H|]. intros c Hc. cbn beta in Hc.
  unfold addr_char. by rewrite Hc.
Qed.

Lemma probe_argv_plain nonce inputs : valid_fixtures nonce inputs -> Forall plain_text (render_probe_argv nonce inputs).
Proof.
  intros [Hn Hs Hp (a & _ & Hat & _) (c & _ & Hct & _) Hu Hh]. unfold render_probe_argv.
  pose proof (addr_plain _ (socket_addr_chars a)). pose proof (addr_plain _ (socket_addr_chars c)).
  pose proof (addr_plain _ (addr_decimal (fi_main_pid inputs))).
  rewrite Hat, Hct, Hu, Hh. apply hex_plain in Hn, Hs.
  repeat (apply Forall_cons_2; [try (by apply plain_lit)|]); repeat apply plain_app; done || by apply plain_lit.
Qed.

Lemma plain_not_unsafe (s : str) : plain_text s -> any shell_unsafe (as_bytes s) = false.
Proof.
  unfold plain_text. intros H. rewrite as_bytes_ascii_text.
  - apply any_false. intros c Hc. rewrite Forall_forall in H. by apply plain_char_cases, H.
  - eapply Forall_impl; [exact H|]. intros c Hc. by apply plain_char_cases in Hc as (_ & _ & _ & _ & _ & ?).
Qed.

(** ** Properties *)

(** Rendering fails only when the fixtures do: the guard against characters the shell
    expands never fires. The event command is one invocation of [/bin/sh -c], and the words
    of its script are [exec] and the probe's arguments, unchanged. *)
Theorem rendered_command_is_safe `{Sha256} `{JsonPrint} nonce inputs :
  match runtime_canary_fixture_binding nonce inputs with
  | Err e => render_runtime_canary_exec nonce inputs = Err e
  | Ok binding =>
      exists r, render_runtime_canary_exec nonce inputs = Ok r
        /\ fixture_binding r = binding
        /\ shell_words 0 None (event_command r) = Some [lit "/bin/sh"; lit "-c"; shell_script r]
        /\ shell_words 0 None (shell_script r) = Some (lit "exec" :: render_probe_argv nonce inputs)
  end.
Proof.
  destruct (runtime_canary_fixture_binding nonce inputs) as [binding|e] eqn:Hb;
    unfold render_runtime_canary_exec; rewrite Hb; [|done].
  apply binding_ok in Hb as [Hvf _]. pose proof (probe_argv_plain _ _ Hvf) as Hp. cbn [rbind].
  assert (any (fun argument => any shell_unsafe (as_bytes argument)) (render_probe_argv nonce inputs) = false) as ->.
  { apply any_false. intros a Ha. rewrite Forall_forall in Hp. by apply plain_not_unsafe, Hp. }
  cbn [fail_if rbind]. eexists. split; [done|]. cbn [fixture_binding event_command shell_script]. split; [done|].
  set (args := render_probe_argv nonce inputs) in *. assert (args <> []) as Hn by done.
  pose proof (words_quoted_arguments args Hn Hp) as Hw.
  split.
  - assert (Forall (fun c => c <> 39) (lit "exec " ++ join (lit " ") (map quote_argument args))) as Hq.
    { apply Forall_app_2; [by repeat constructor|]. apply join_Forall; [by repeat constructor|].
      apply Forall_map. eapply Forall_impl; [exact Hp|]. intros a Ha. unfold quote_argument.
      repeat apply Forall_app_2; [by repeat constructor| |by repeat constructor].
      eapply Forall_impl; [exact Ha|]. intros c Hc. apply plain_char_cases in Hc as (_ & H39 & _). by apply N.eqb_neq. }
    change (RUNTIME_CANARY_SHELL_PATH ++ lit " -c '" ++ ?s) with (lit "/bin/sh" ++ 32 :: lit "-c" ++ 32 :: 39 :: s).
    rewrite words_start, words_space by (done || by apply plain_lit).
    rewrite words_start, words_space by (done || by apply plain_lit).
    change (shell_words 0 None (39 :: ?s)) with (shell_words 39 (Some []) s).
    change (lit "'") with [39]. by rewrite words_single_quoted.
  - change (lit "exec " ++ ?s) with (lit "exec" ++ 32 :: s).
    rewrite words_start, words_space by (done || by apply plain_lit). by rewrite Hw.
Qed.

(** C39: A canary event stream is accepted with report [r] exactly when its lines are the
    transcript of one run of the rendered command: a thread and a turn begin, reasoning may
    come before the command and after it, the command starts once and completes under the
    same ID with exit status 0 and output that is the JSON line of [r], the last message is
    the bound final line and the turn reports usage, all item IDs valid and distinct. *)
Theorem exec_stream_is_transcript `{Sha256} `{JsonText} `{JsonPrint} input nonce inputs r :
  parse_runtime_canary_exec_jsonl input nonce inputs = Ok r <->
  (1 <= len input <= 262144 /\ ends_with [10] input = true /\ (13 ∉ input)) /\
  exists rendered evs,
    render_runtime_canary_exec nonce inputs = Ok rendered /\
    mapM line_event (split_by (N.eqb 10) (without_last input)) = Some evs /\
    transcript nonce rendered (lit "WEBEX_CODEX_CANARY_OK " ++ nonce ++ lit " " ++ fixture_binding rendered) evs r.
Proof.
  unfold parse_runtime_canary_exec_jsonl. rewrite !seq_ok, !orb_false_iff, is_empty_false, len_pos.
  rewrite negb_false_iff, rbind_ok. unfold CODEX_EXEC_CANARY_JSONL_MAX_BYTES.
  assert (any (N.eqb 13) input = false <-> (13 ∉ input)) as ->.
  { rewrite <-not_true_iff_false. by rewrite elem_of_any_N. }
  rewrite N.ltb_ge. setoid_rewrite <-finishes_transcript. split.
  - intros ([Hl Hmax] & [He Hr] & rendered & Hren & Hx). split; [split; [lia|done]|].
    apply rbind_ok in Hx as (st & Hst & (Hf & Hrep)%seq_ok).
    apply negb_false_iff, bool_decide_eq_true in Hf. apply ok_or_ok in Hrep.
    destruct (proj1 (exec_lines_finish nonce rendered _ _ _ r) (ex_intro _ st (conj Hst (conj Hf Hrep)))) as (evs & Hm & Hfin).
    by exists rendered, evs.
  - intros (([Hl Hmax] & He & Hr) & rendered & evs & Hren & Hm & Hfin).
    split; [split; lia|]. split; [done|]. exists rendered. split; [done|]. apply rbind_ok.
    destruct (proj2 (exec_lines_finish nonce rendered _ _ _ r) (ex_intro _ evs (conj Hm Hfin))) as (st & Hst & Hf & Hrep).
    exists st. split; [exact Hst|]. rewrite Hf, Hrep. done.
Qed.

(** ** Examples *)

Definition sample_render : RuntimeCanaryExecRender :=
  ok_value (mkRender [] [] [] [] [])
    (@render_runtime_canary_exec checksum_sha256 compact_print sample_nonce (sample_inputs 77)).

Definition event_json (kind : str) (fields : list (str * Json)) : Json := JObject ((lit "type", JString kind) :: fields).

Definition command_json (exit_code : Json) : Json :=
  event_json (lit "item.completed") [(lit "item", event_json (lit "command_execution")
    [(lit "id", JString (lit "item_1")); (lit "command", JString (event_command sample_render));
     (lit "aggregated_output", JString sample_line); (lit "exit_code", exit_code); (lit "status", JString (lit "completed"))])].

Definition text_json (kind id text : str) : Json :=
  event_json (lit "item.completed") [(lit "item", event_json kind [(lit "id", JString id); (lit "text", JString text)])].

Definition sample_stream (exit_code : Json) (second_id : str) : list Json :=
  [event_json (lit "thread.started") [(lit "thread_id", JString (lit "t-1"))];
   event_json (lit "turn.started") [];
   text_json (lit "reasoning") (lit "item_0") (lit "thinking");
   event_json (lit "item.started") [(lit "item", event_json (lit "command_execution")
     [(lit "id", JString (lit "item_1")); (lit "command", JString (event_command sample_render)); (lit "status", JString (lit "in_progress"))])];
   command_json exit_code;
   text_json (lit "agent_message") second_id (expected_runtime_canary_final_line sample_nonce sample_binding);
   event_json (lit "turn.completed") [(lit "usage", JObject [(lit "tokens", JNumber (lit "5"))])]].

Definition stream_bytes (events : list Json) : list N := concat (map (fun v => as_bytes (print_compact v) ++ [10]) events).

Definition run_sample (events : list Json) : result CanaryError RuntimeCanaryReport :=
  @parse_runtime_canary_exec_jsonl checksum_sha256 compact_text compact_print (stream_bytes events) sample_nonce (sample_inputs 77).

(** A stream is accepted; a failing command, a reused item ID, a missing end, an event twice
    and a repeated key are not. *)
Example sample_streams :
  let good := sample_stream (JNumber (lit "0")) (lit "item_2") in
  map (fun s => is_ok (run_sample s))
    [good; sample_stream (JNumber (lit "1")) (lit "item_2"); sample_stream (JNumber (lit "0")) (lit "item_1");
     take 6 good; good ++ drop 6 good;
     JObject [(lit "type", JString (lit "thread.started")); (lit "thread_id", JString (lit "a")); (lit "thread_id", JString (lit "a"))]
       :: drop 1 good]
  = [true; false; false; false; false; false].
Proof. vm_compute. reflexivity. Qed.
