(* ===== verification/ConfigStatus.v ===== *)
(** * Configuration status files

    [src/config_status.rs]: reading the deployment status, the deployment transaction and the
    public configuration-action status, and what the provider answers from them. *)

From S2P Require Import Prelude Text Paths Config Webex Policy Jenkins WebexCalls Effects Programs Serde.

Local Open Scope N_scope.

(** ** Constants *)

Definition DEPLOY_STATUS_FILE : path := lit "/var/lib/webex-generic-account-bot/rendered/deploy-status.json".
Definition DEPLOY_TRANSACTION_FILE : path :=
  lit "/var/lib/webex-generic-account-bot/rendered/production.toml.transaction".
Definition DEPLOY_TRANSACTION_OWNER_UID : N := 0.
Definition DEPLOY_TRANSACTION_MODE : N := 420.
Definition CONFIG_ACTION_STATUS_FILE : path :=
  lit "/var/lib/webex-generic-account-bot/config-actions/public-status.json".
Definition STATUS_FILE_MAX_BYTES : N := 64 * 1024.
Definition TRANSACTION_FILE_MAX_BYTES : N := 16 * 1024.
Definition CONFIG_ACTION_STATUS_MAX_BYTES : N := 16 * 1024.

Definition DEPLOYMENT_STATUSES : list str :=
  [lit "deployed"; lit "installed_without_restart"; lit "failed_apply"; lit "failed_restart_rollback_failed";
   lit "failed_restart_rollback_restart_failed"; lit "failed_restart_rolled_back"; lit "failed_after_commit";
   lit "failed_after_commit_cleanup"; lit "failed_cleanup"].

Definition TRANSACTION_V1_PHASES : list str :=
  [lit "prepared"; lit "service_transition_started"; lit "committed_pending_metadata"].

Definition TRANSACTION_V2_PHASES : list str :=
  [lit "prepared"; lit "activation_renewal_started"; lit "activation_renewed"; lit "activation_files_installing";
   lit "activation_files_installed"; lit "service_transition_started"; lit "committed_pending_metadata"].

Definition TRANSACTION_V1_KEYS : list str :=
  [lit "bot_code_dir"; lit "committed_at"; lit "config_ref"; lit "config_repo"; lit "config_revision";
   lit "had_previous"; lit "metadata_file"; lit "phase"; lit "rendered_config"; lit "service";
   lit "service_restart_required"; lit "started_at"; lit "version"].

Definition RUNNER_ACTIVATION_KEYS : list str :=
  [lit "activation_receipt"; lit "activation_receipt_backup"; lit "bot_service_drop_in";
   lit "bot_service_drop_in_backup"; lit "permission_had_previous"; lit "receipt_had_previous"].

Definition SERVICE_NAME : str := lit "webex-generic-account-bot".

(** ** JSON values

    [serde_json::Value]: of a repeated key the last value stays. *)

Abbreviation fields := (list (str * Json)) (only parsing).

Definition as_object (v : Json) : option (list (str * Json)) :=
  match v with
  | JObject kvs => Some kvs
  | _ => None
  end.

Definition get (object : list (str * Json)) (key : str) : option Json :=
  snd <$> List.find (fun kv => str_eqb (fst kv) key) (reverse object).

Definition object_len (object : list (str * Json)) : N := N.of_nat (size (list_to_set (map fst object) : gset str)).

Definition contains_key (object : list (str * Json)) (key : str) : bool := is_some_and (get object key) (fun _ => true).

Definition get_str (object : list (str * Json)) (key : str) : option str := get object key ≫= json_as_str.
Definition get_bool (object : list (str * Json)) (key : str) : option bool := get object key ≫= json_bool.
Definition get_u64 (object : list (str * Json)) (key : str) : option N := get object key ≫= json_unsigned u64_max.

Definition is_one_of (names : list str) (s : str) : bool := any (str_eqb s) names.

(** [Option::filter]. *)
Definition opt_filter {A} (f : A -> bool) (o : option A) : option A :=
  match o with
  | Some a => if f a then Some a else None
  | None => None
  end.

(** ** Validators *)

Definition is_lower_hex_byte (byte : N) : bool := is_ascii_digit byte || ((97 <=? byte) && (byte <=? 102)).

Definition valid_revision (revision : str) : bool :=
  ((byte_len revision =? 40) || (byte_len revision =? 64)) && all is_lower_hex_byte (as_bytes revision).

Definition is_normal_absolute_path (value : path) : bool :=
  match split_by (N.eqb separator) value with
  | first :: rest =>
      is_absolute value && is_empty first
      && all (fun component => negb (is_empty component)
                && negb (str_eqb component (lit ".") || str_eqb component (lit ".."))) rest
  | [] => false
  end.

Definition is_repo_character (byte : N) : bool := is_ascii_alphanumeric byte || one_of (lit "_.-") byte.

Definition valid_config_repo (value : str) : bool :=
  let remainder := opt_or (strip_prefix (lit "git@github.com:") value) (strip_prefix (lit "https://github.com/") value) in
  match remainder ≫= strip_suffix (lit ".git") with
  | None => false
  | Some p =>
      match split_once (lit "/") p with
      | None => false
      | Some (owner, repository) =>
          negb (is_empty owner) && negb (is_empty repository) && negb (contains_char (ch "/") repository)
          && all (fun part => all is_repo_character (as_bytes part)) [owner; repository]
      end
  end.

Definition valid_config_ref (value : str) : bool :=
  negb (is_empty value) && negb (contains (lit "..") value)
  && negb (is_some_and (head value) (one_of (lit "/-")))
  && all (fun byte => is_ascii_alphanumeric byte || one_of (lit "._/-") byte) (as_bytes value).

Definition required_nonempty_string (object : list (str * Json)) (field : str) : result str str :=
  ok_or (opt_filter (fun v => negb (is_empty v)) (get_str object field))
    (lit "deployment status contains an invalid " ++ field).

(** [DateTime::parse_from_rfc3339(text).is_ok()], from [chrono]. *)
Class Rfc3339 : Type := is_rfc3339 : str -> bool.

(** ** The deployment status *)

Definition parse_deployment_status `{JsonText} (contents : list N) : result str ConfigStatusSnapshot :=
  let? value := ok_or (json_from_slice contents) (lit "invalid deployment status JSON") in
  let? object := ok_or (as_object value) (lit "deployment status must be a JSON object") in
  let? status := ok_or (opt_filter (is_one_of DEPLOYMENT_STATUSES) (get_str object (lit "status")))
    (lit "deployment status contains an invalid state") in
  let? config_revision :=
    match get object (lit "config_revision") with
    | Some JNull => Ok None
    | Some (JString revision) =>
        if valid_revision revision then Ok (Some revision)
        else Err (lit "deployment status contains an invalid revision")
    | _ => Err (lit "deployment status contains an invalid revision")
    end in
  try_each (fun field => required_nonempty_string object field ;? Ok tt)
    [lit "config_repo"; lit "config_ref"; lit "bot_code_dir"; lit "rendered_config"; lit "deployed_at"] ;?
  let? service := required_nonempty_string object (lit "service") in
  fail_if (negb (str_eqb service SERVICE_NAME)) (lit "deployment status contains an invalid service") ;?
  let? restart_skipped := ok_or (get_bool object (lit "service_restart_skipped"))
    (lit "deployment status contains an invalid service_restart_skipped") in
  let valid_service_action :=
    match restart_skipped, get object (lit "service_action") with
    | true, Some JNull => true
    | false, Some (JString action) => str_eqb action (lit "restart")
    | _, _ => false
    end in
  fail_if (negb valid_service_action) (lit "deployment status contains an invalid service_action") ;?
  let no_revision := negb (is_some_and config_revision (fun _ => true)) in
  fail_if (str_eqb status (lit "deployed") && (restart_skipped || no_revision))
    (lit "deployed status metadata is inconsistent") ;?
  fail_if (str_eqb status (lit "installed_without_restart") && (negb restart_skipped || no_revision))
    (lit "installed_without_restart status metadata is inconsistent") ;?
  fail_if (is_one_of [lit "failed_after_commit"; lit "failed_after_commit_cleanup"] status && no_revision)
    (lit "post-commit failure status metadata requires a revision") ;?
  fail_if (starts_with (lit "failed_") status && negb (is_some_and (get_str object (lit "reason")) (fun _ => true)))
    (lit "failed deployment status must contain a reason") ;?
  Ok (mkConfigStatusSnapshot status config_revision (Some service) None None).

(** ** The deployment transaction *)

Definition validate_runner_activation_transaction (value : Json) : result str unit :=
  let? object := ok_or (as_object value) (lit "deployment transaction has an invalid runner_activation") in
  fail_if (negb (object_len object =? len RUNNER_ACTIVATION_KEYS)
      || negb (all (contains_key object) RUNNER_ACTIVATION_KEYS))
    (lit "deployment transaction runner_activation contains unexpected fields") ;?
  try_each (fun field =>
      let invalid := lit "deployment transaction has an invalid runner_activation." ++ field in
      let? p := ok_or (opt_filter (fun p => negb (is_empty p)) (get_str object field)) invalid in
      fail_if (negb (is_normal_absolute_path (as_bytes p))) invalid)
    [lit "activation_receipt"; lit "activation_receipt_backup"; lit "bot_service_drop_in"; lit "bot_service_drop_in_backup"] ;?
  try_each (fun field =>
      fail_if (negb (is_some_and (get_bool object field) (fun _ => true)))
        (lit "deployment transaction has an invalid runner_activation." ++ field))
    [lit "permission_had_previous"; lit "receipt_had_previous"].

Definition parse_deployment_transaction `{JsonText} `{Rfc3339} (contents : list N) : result str ConfigStatusSnapshot :=
  let? value := ok_or (json_from_slice contents) (lit "invalid deployment transaction JSON") in
  let? object := ok_or (as_object value) (lit "deployment transaction must be a JSON object") in
  let? version := ok_or (opt_filter (fun v => (v =? 1) || (v =? 2)) (get_u64 object (lit "version")))
    (lit "deployment transaction has an invalid version") in
  let expected_key_count := len TRANSACTION_V1_KEYS + (if version =? 2 then 1 else 0) in
  fail_if (negb (object_len object =? expected_key_count)
      || negb (all (contains_key object) TRANSACTION_V1_KEYS)
      || negb (Bool.eqb (version =? 2) (contains_key object (lit "runner_activation"))))
    (lit "deployment transaction contains unexpected fields") ;?
  let? phase := required_nonempty_string object (lit "phase") in
  let allowed_phases := if version =? 2 then TRANSACTION_V2_PHASES else TRANSACTION_V1_PHASES in
  fail_if (negb (is_one_of allowed_phases phase)) (lit "deployment transaction has an invalid phase") ;?
  let? revision := required_nonempty_string object (lit "config_revision") in
  fail_if (negb (byte_len revision =? 40) || negb (all is_ascii_hexdigit (as_bytes revision)))
    (lit "deployment transaction has an invalid revision") ;?
  let? service := required_nonempty_string object (lit "service") in
  fail_if (negb (str_eqb service SERVICE_NAME)) (lit "deployment transaction has an invalid service") ;?
  let? restart_required := ok_or (get_bool object (lit "service_restart_required"))
    (lit "deployment transaction has an invalid restart requirement") in
  fail_if (str_eqb phase (lit "service_transition_started") && negb restart_required)
    (lit "deployment transaction phase is inconsistent") ;?
  (if version =? 2 then
     fail_if (negb restart_required) (lit "runner activation transaction must require a service restart") ;?
     match get object (lit "runner_activation") with
     | Some activation => validate_runner_activation_transaction activation
     | None => Ok tt (* excluded by the key set *)
     end
   else Ok tt) ;?
  fail_if (negb (is_some_and (get_bool object (lit "had_previous")) (fun _ => true)))
    (lit "deployment transaction has an invalid backup state") ;?
  let? config_repo := required_nonempty_string object (lit "config_repo") in
  fail_if (negb (valid_config_repo config_repo)) (lit "deployment transaction has an invalid config_repo") ;?
  let? config_ref := required_nonempty_string object (lit "config_ref") in
  fail_if (negb (valid_config_ref config_ref)) (lit "deployment transaction has an invalid config_ref") ;?
  try_each (fun field =>
      let? p := required_nonempty_string object field in
      fail_if (negb (is_normal_absolute_path (as_bytes p))) (lit "deployment transaction has an invalid " ++ field))
    [lit "bot_code_dir"; lit "rendered_config"; lit "metadata_file"] ;?
  let? started_at := required_nonempty_string object (lit "started_at") in
  fail_if (negb (is_rfc3339 started_at)) (lit "deployment transaction has an invalid start time") ;?
  (if str_eqb phase (lit "committed_pending_metadata") then
     match get object (lit "committed_at") with
     | Some (JString value) =>
         fail_if (negb (is_rfc3339 value)) (lit "deployment transaction has an invalid commit time")
     | _ => Err (lit "deployment transaction has an invalid commit time")
     end
   else
     match get object (lit "committed_at") with
     | Some JNull => Ok tt
     | _ => Err (lit "deployment transaction has an unexpected commit time")
     end) ;?
  Ok (mkConfigStatusSnapshot (lit "recovery_required") (Some (to_ascii_lowercase revision)) (Some service) (Some phase) None).

(** ** The configuration action *)

Definition parse_config_action_status `{JsonText} `{Rfc3339} (contents : list N) : result str ConfigActionStatusSnapshot :=
  let? value := ok_or (json_from_slice contents) (lit "invalid config action status JSON") in
  let? object := ok_or (as_object value) (lit "config action status must be a JSON object") in
  let expected := [lit "action"; lit "action_id"; lit "config_revision"; lit "state"; lit "updated_at"; lit "version"] in
  fail_if (negb (object_len object =? len expected) || negb (all (contains_key object) expected))
    (lit "config action status contains unexpected fields") ;?
  fail_if (negb (bool_decide (get_u64 object (lit "version") = Some 1))
      || negb (bool_decide (get_str object (lit "action") = Some (lit "pull"))))
    (lit "config action status identity is invalid") ;?
  let? action_id := ok_or (opt_filter (fun v => (byte_len v =? 64) && all is_lower_hex_byte (as_bytes v))
                             (get_str object (lit "action_id")))
    (lit "config action status action ID is invalid") in
  let? state := ok_or (opt_filter (is_one_of [lit "queued"; lit "running"; lit "succeeded"; lit "failed"])
                         (get_str object (lit "state")))
    (lit "config action status state is invalid") in
  let? config_revision :=
    match get object (lit "config_revision") with
    | Some JNull => Ok None
    | Some (JString revision) =>
        if (byte_len revision =? 40) && valid_revision revision then Ok (Some revision)
        else Err (lit "config action status revision is invalid")
    | _ => Err (lit "config action status revision is invalid")
    end in
  fail_if (negb (Bool.eqb (str_eqb state (lit "succeeded")) (is_some_and config_revision (fun _ => true))))
    (lit "config action status revision is inconsistent") ;?
  let? updated_at := ok_or (get_str object (lit "updated_at")) (lit "config action status timestamp is invalid") in
  fail_if (negb (is_rfc3339 updated_at)) (lit "config action status timestamp is invalid") ;?
  Ok (mkConfigActionStatusSnapshot action_id state config_revision).

(** ** Reading files *)

(** [uid] and [mode] of an open file, and whether it is a regular file. *)
Record StatusMetadata : Type := mkStatusMetadata { sm_is_file : bool; sm_uid : N; sm_mode : N; sm_len : N }.

Definition file_metadata_matches_policy (owner_uid mode : N) (required_mode expected_owner_uid : option N) : bool :=
  match required_mode with Some required => N.land mode 4095 =? required | None => true end
  && match expected_owner_uid with Some expected => owner_uid =? expected | None => true end.

(** [openat] relative to an open directory, without following a symbolic link; the last
    component is opened as a file. *)
Inductive OpenAt (Fd : Type) : Type :=
| Opened (fd : Fd)
| NotFound
| OpenFailed.

Arguments Opened {Fd} fd.
Arguments NotFound {Fd}.
Arguments OpenFailed {Fd}.

(** The kernel as the reader sees it; every wait may fail or exceed [STATUS_READ_TIMEOUT]. *)
Class StatusKernel : Type := {
  Fd : Type;
  open_root : option Fd;
  openat : Fd -> list N -> bool -> OpenAt Fd;
  fstat : Fd -> option StatusMetadata;
  read_to_end : Fd -> N -> option (list N)
}.

(** The names of an absolute path that has only normal components. *)
Fixpoint normal_names (cs : list Component) : option (list (list N)) :=
  match cs with
  | [] => Some []
  | RootDir :: cs' => normal_names cs'
  | Normal name :: cs' => cons name <$> normal_names cs'
  | _ => None
  end.

Section reading.
Context `{StatusKernel}.

(** The loop over the components: [None] inside [Ok] when one of them does not exist. *)
Fixpoint open_components (directory : Fd) (names : list (list N)) : result str (option Fd) :=
  match names with
  | [] => Ok None (* the list of names is not empty *)
  | name :: rest =>
      fail_if (any (N.eqb 0) name) (lit "status input contains a NUL byte") ;?
      match openat directory name (negb (is_empty rest)) with
      | NotFound => Ok None
      | OpenFailed => Err (lit "open failed")
      | Opened fd => if is_empty rest then Ok (Some fd) else open_components fd rest
      end
  end.

Definition open_no_symlink_components (p : path) : result str (option Fd) :=
  fail_if (negb (is_absolute p)) (lit "status input path must be absolute") ;?
  let? names := ok_or (normal_names (components p)) (lit "status input path must contain only normal components") in
  fail_if (is_empty names) (lit "status input path must name a file") ;?
  let? root := ok_or open_root (lit "open failed") in
  open_components root names.

Definition read_optional_bounded_file (p : path) (max_bytes : N) (required_mode expected_owner_uid : option N)
  : result str (option (list N)) :=
  let? opened := open_no_symlink_components p in
  match opened with
  | None => Ok None
  | Some file =>
      let? metadata := ok_or (fstat file) (lit "failed to stat") in
      fail_if (negb (sm_is_file metadata)) (lit "status input must be a regular file") ;?
      fail_if (negb (file_metadata_matches_policy (sm_uid metadata) (sm_mode metadata) required_mode expected_owner_uid))
        (lit "status input ownership or mode is not trusted") ;?
      fail_if ((sm_len metadata =? 0) || (max_bytes <? sm_len metadata)) (lit "status input size is invalid") ;?
      let? contents := ok_or (read_to_end file (max_bytes + 1)) (lit "failed to read") in
      fail_if (max_bytes <? len contents) (lit "status input exceeded the size limit") ;?
      Ok (Some contents)
  end.
End reading.

(** ** The provider *)

Record FileConfigStatusProvider : Type := mkProvider {
  status_file : path;
  transaction_file : path;
  transaction_owner_uid : N;
  action_status_file : path
}.

Definition default_provider : FileConfigStatusProvider :=
  mkProvider DEPLOY_STATUS_FILE DEPLOY_TRANSACTION_FILE DEPLOY_TRANSACTION_OWNER_UID CONFIG_ACTION_STATUS_FILE.

Definition unknown_snapshot : ConfigStatusSnapshot := mkConfigStatusSnapshot (lit "unknown") None None None None.

Definition recovery_required_snapshot : ConfigStatusSnapshot :=
  mkConfigStatusSnapshot (lit "recovery_required") None (Some SERVICE_NAME) None None.

Definition with_config_action (s : ConfigStatusSnapshot) (a : option ConfigActionStatusSnapshot) : ConfigStatusSnapshot :=
  mkConfigStatusSnapshot (cs_status s) (cs_config_revision s) (cs_service s) (cs_transaction_phase s) a.

Definition status `{StatusKernel} `{JsonText} `{Rfc3339} (provider : FileConfigStatusProvider) : result str ConfigStatusSnapshot :=
  let? snapshot :=
    match read_optional_bounded_file (transaction_file provider) TRANSACTION_FILE_MAX_BYTES
            (Some DEPLOY_TRANSACTION_MODE) (Some (transaction_owner_uid provider)) with
    | Ok (Some contents) =>
        match parse_deployment_transaction contents with
        | Ok snapshot => Ok snapshot
        | Err _ => Ok recovery_required_snapshot
        end
    | Err _ => Ok recovery_required_snapshot
    | Ok None =>
        let? found := read_optional_bounded_file (status_file provider) STATUS_FILE_MAX_BYTES None None in
        match found with
        | Some contents => parse_deployment_status contents
        | None => Ok unknown_snapshot
        end
    end in
  let config_action :=
    match read_optional_bounded_file (action_status_file provider) CONFIG_ACTION_STATUS_MAX_BYTES (Some 420) None with
    | Ok (Some contents) =>
        match parse_config_action_status contents with
        | Ok action => Some action
        | Err _ => None
        end
    | Ok None | Err _ => None
    end in
  Ok (with_config_action snapshot config_action).
