(* ===== verification/ConfigStatusRules.v ===== *)
(** * What the status provider answers

    A transaction file masks the deployment status, only trusted files are read, and every
    field of an answer is of a fixed vocabulary or a hexadecimal digest. *)

From S2P Require Import Prelude Text Paths Digest Config Webex Policy Jenkins WebexCalls Effects Programs Serde JsonCompact ConfigStatus.

Local Open Scope N_scope.

(** ** Options and lookups *)

Lemma opt_filter_some {A} (f : A -> bool) o a : opt_filter f o = Some a <-> o = Some a /\ f a = true.
Proof.
  destruct o as [x|]; cbn; [|by split; [|intros []]]. destruct (f x) eqn:E; split.
  - by intros [= <-].
  - by intros [? _].
  - done.
  - intros [[= <-] ?]. congruence.
Qed.

Lemma is_one_of_elem names (s : str) : is_one_of names s = true <-> s ∈ names.
Proof.
  unfold is_one_of. rewrite any_true. split.
  - by intros (x & Hx & ->%str_eqb_eq).
  - intros Hs. exists s. split; [done|apply str_eqb_refl].
Qed.

Lemma nonempty_string_ok object field s :
  required_nonempty_string object field = Ok s <-> get_str object field = Some s /\ s <> [].
Proof.
  unfold required_nonempty_string. by rewrite ok_or_ok, opt_filter_some, negb_true_iff, is_empty_false.
Qed.

(** ** Texts *)

Definition hex_text (s : str) : Prop := Forall (fun c => lower_hex c = true) s.

Lemma lower_hex_small b : is_lower_hex_byte b = true -> b < 128.
Proof. unfold is_lower_hex_byte, is_ascii_digit. lia. Qed.

(** [n] lowercase hexadecimal digits. *)
Definition hex_of_length (n : N) (s : str) : Prop := len s = n /\ hex_text s.

Lemma hex_length_ok n (s : str) :
  (byte_len s =? n) && all is_lower_hex_byte (as_bytes s) = true <-> hex_of_length n s.
Proof.
  unfold hex_of_length. rewrite andb_true_iff, (bytes_test is_lower_hex_byte) by apply lower_hex_small. split.
  - intros [Hl Hh]. rewrite (test_byte_len is_lower_hex_byte) in Hl by (apply lower_hex_small || done).
    split; [lia|exact Hh].
  - intros [Hl Hh]. split; [|exact Hh]. rewrite (test_byte_len is_lower_hex_byte) by (apply lower_hex_small || done). lia.
Qed.

Definition revision_text (s : str) : Prop := hex_of_length 40 s \/ hex_of_length 64 s.

Lemma valid_revision_ok (s : str) : valid_revision s = true <-> revision_text s.
Proof.
  unfold valid_revision, revision_text. rewrite <-!hex_length_ok.
  destruct (all _ _), (byte_len s =? 40), (byte_len s =? 64); cbn; intuition congruence.
Qed.

Lemma lowered_hex (s : str) :
  byte_len s = 40 -> all is_ascii_hexdigit (as_bytes s) = true -> hex_of_length 40 (to_ascii_lowercase s).
Proof.
  assert (forall b, is_ascii_hexdigit b = true -> b < 128) as Hsmall by (unfold is_ascii_hexdigit, is_ascii_digit; lia).
  intros Hl Hh%(bytes_test is_ascii_hexdigit); [|done].
  rewrite (test_byte_len is_ascii_hexdigit) in Hl by done. split.
  - unfold to_ascii_lowercase, len in *. by rewrite length_map.
  - apply Forall_map. eapply Forall_impl; [exact Hh|]. intros c Hc. cbn beta in *.
    unfold to_ascii_lowercase_char, lower_hex, is_ascii_hexdigit, is_ascii_uppercase, is_ascii_digit in *.
    destruct ((65 <=? c) && (c <=? 90)) eqn:E; lia.
Qed.

(** ** What the parsers accept *)

(** The answer for an action is consistent: only success has a revision. *)
Record sound_action (a : ConfigActionStatusSnapshot) : Prop := mkSoundAction {
  sa_id : hex_of_length 64 (ca_action_id a);
  sa_state : ca_state a ∈ [lit "queued"; lit "running"; lit "succeeded"; lit "failed"];
  sa_revision : forall r, ca_config_revision a = Some r -> hex_of_length 40 r;
  sa_succeeded : ca_state a = lit "succeeded" <-> is_Some (ca_config_revision a)
}.

Record sound_snapshot (s : ConfigStatusSnapshot) : Prop := mkSoundSnapshot {
  so_status : cs_status s ∈ lit "unknown" :: lit "recovery_required" :: DEPLOYMENT_STATUSES;
  so_revision : forall r, cs_config_revision s = Some r -> revision_text r;
  so_service : forall v, cs_service s = Some v -> v = lit "webex-generic-account-bot";
  so_phase : forall p, cs_transaction_phase s = Some p ->
    cs_status s = lit "recovery_required" /\ p ∈ TRANSACTION_V2_PHASES;
  so_deployed : cs_status s ∈ [lit "deployed"; lit "installed_without_restart"; lit "failed_after_commit"; lit "failed_after_commit_cleanup"] ->
    is_Some (cs_config_revision s);
  so_action : forall a, cs_config_action s = Some a -> sound_action a
}.

Lemma is_some_and_true {A} (o : option A) : is_some_and o (fun _ => true) = true <-> is_Some o.
Proof. destruct o; cbn; split; try done; by intros []. Qed.

Section parsers.
Context `{JsonText} `{Rfc3339}.

Lemma config_action_sound contents a : parse_config_action_status contents = Ok a -> sound_action a.
Proof.
  unfold parse_config_action_status. intros Ha. ok_inv.
  repeat match goal with Hx : opt_filter _ _ = Some _ |- _ => apply opt_filter_some in Hx as [? Hx] end.
  match goal with Hx : match get _ _ with _ => _ end = Ok ?r |- _ => rename Hx into Hrev; rename r into rev end.
  match goal with Hx : negb (Bool.eqb _ _) = false |- _ => apply negb_false_iff, eqb_prop in Hx; rename Hx into Hs end.
  split; cbn.
  - by apply hex_length_ok.
  - by apply is_one_of_elem.
  - intros r ->. destruct (get _ _) as [[| | |t| |]|]; try done.
    destruct ((byte_len t =? 40) && valid_revision t) eqn:E; [|done]. injection Hrev as ->. apply andb_true_iff in E as [El Er].
    apply valid_revision_ok in Er as [|[Hl Hx]]; [done|]. apply N.eqb_eq in El. split; [|done].
    rewrite (test_byte_len is_lower_hex_byte) in El by (apply lower_hex_small || done). done.
  - rewrite <-str_eqb_eq, <-is_some_and_true, <-Hs. done.
Qed.

Lemma deployment_status_sound contents s : parse_deployment_status contents = Ok s -> sound_snapshot s /\ cs_status s ∈ DEPLOYMENT_STATUSES.
Proof.
  unfold parse_deployment_status. intros Ha. ok_inv.
  repeat match goal with Hx : opt_filter _ _ = Some _ |- _ => apply opt_filter_some in Hx as [? Hx] end.
  match goal with Hx : is_one_of DEPLOYMENT_STATUSES ?t = true |- _ => apply is_one_of_elem in Hx; rename Hx into Hst; rename t into st end.
  match goal with Hx : match get _ _ with _ => _ end = Ok ?r |- _ => rename Hx into Hrev; rename r into rev end.
  split; [|exact Hst]. split; cbn.
  - by do 2 right.
  - intros r ->. destruct (get _ _) as [[| | |t| |]|]; try done.
    destruct (valid_revision t) eqn:E; [|done]. injection Hrev as ->. by apply valid_revision_ok.
  - intros v [= <-]. match goal with Hx : negb (str_eqb _ SERVICE_NAME) = false |- _ => apply negb_false_iff, str_eqb_eq in Hx end. done.
  - done.
  - intros Hin. apply is_some_and_true. apply not_false_iff_true. intros Hnone. rewrite Hnone in *. cbn [negb] in *.
    rewrite !orb_true_r, !andb_true_r in *.
    repeat (apply elem_of_cons in Hin as [->|Hin]; [try done|]). by apply not_elem_of_nil in Hin.
  - done.
Qed.

Lemma transaction_sound contents s : parse_deployment_transaction contents = Ok s ->
  sound_snapshot s /\ cs_status s = lit "recovery_required" /\ is_Some (cs_transaction_phase s).
Proof.
  unfold parse_deployment_transaction. intros Ha. ok_inv.
  repeat match goal with
  | Hx : required_nonempty_string _ _ = Ok _ |- _ => apply nonempty_string_ok in Hx as [? ?]
  | Hx : _ || _ = false |- _ => apply orb_false_iff in Hx as [? ?]
  | Hx : negb _ = false |- _ => apply negb_false_iff in Hx
  end.
  match goal with Hx : is_one_of _ ?p = true |- _ => rename Hx into Hphase; rename p into phase end.
  split; [|done]. split; cbn.
  - by right; left.
  - intros r [= <-]. left. apply lowered_hex; [by apply N.eqb_eq|done].
  - intros v [= <-]. by apply str_eqb_eq.
  - intros p [= <-]. split; [done|]. apply is_one_of_elem in Hphase. destruct (_ =? 2); [done|].
    unfold TRANSACTION_V1_PHASES, TRANSACTION_V2_PHASES in *. rewrite !elem_of_cons in *. tauto.
  - intros Hin. repeat (apply elem_of_cons in Hin as [Hin|Hin]; [done|]). by apply not_elem_of_nil in Hin.
  - done.
Qed.
End parsers.

(** ** Trusted files *)

Section files.
Context `{StatusKernel}.

(** The file at the end of a walk through directories from the root, no link followed. *)
Inductive reached : Fd -> list (list N) -> Fd -> Prop :=
| reached_file d name fd :
    openat d name false = Opened fd -> reached d [name] fd
| reached_dir d name d' names fd :
    openat d name true = Opened d' -> reached d' names fd -> reached d (name :: names) fd.

Lemma open_components_reached d names fd : open_components d names = Ok (Some fd) -> reached d names fd.
Proof.
  revert d. induction names as [|name names IH]; intros d; cbn [open_components]; [done|].
  rewrite seq_ok. intros [_ Ho]. destruct (openat d name _) as [d'| |] eqn:E; try done.
  destruct names as [|n names]; cbn [is_empty negb] in *.
  - injection Ho as ->. by constructor.
  - econstructor; [exact E|]. by apply IH.
Qed.

(** What a successful read of [p] guarantees about the file it came from. *)
Definition trusted_read (p : path) (max_bytes : N) (required_mode owner : option N) (contents : list N) : Prop :=
  exists root file names metadata,
    components p = RootDir :: map Normal names /\
    open_root = Some root /\ reached root names file /\
    fstat file = Some metadata /\
    sm_is_file metadata = true /\
    (forall m, required_mode = Some m -> N.land (sm_mode metadata) 4095 = m) /\
    (forall o, owner = Some o -> sm_uid metadata = o) /\
    1 <= sm_len metadata <= max_bytes /\ len contents <= max_bytes.

Lemma components_tail_no_root pieces : RootDir ∉ concat (map component_of pieces).
Proof.
  induction pieces as [|p pieces IH]; cbn; [apply not_elem_of_nil|]. rewrite not_elem_of_app. split; [|done].
  unfold component_of. destruct (_ || _); [apply not_elem_of_nil|]. destruct (str_eqb _ _); by rewrite list_elem_of_singleton.
Qed.

Lemma normal_names_map cs names : RootDir ∉ cs -> normal_names cs = Some names -> cs = map Normal names.
Proof.
  revert names. induction cs as [|c cs IH]; intros names Hr; cbn; [by intros [= <-]|].
  apply not_elem_of_cons in Hr as [Hc Hr]. destruct c; try done.
  intros (ns & Hn & ->)%fmap_Some. cbn. f_equal. by apply IH.
Qed.

Lemma absolute_names p names : is_absolute p = true -> normal_names (components p) = Some names ->
  components p = RootDir :: map Normal names.
Proof.
  unfold is_absolute, components. intros -> Hn. cbn [app normal_names] in *. f_equal.
  apply normal_names_map; [apply components_tail_no_root|done].
Qed.

Lemma read_trusted p max_bytes mode owner contents :
  read_optional_bounded_file p max_bytes mode owner = Ok (Some contents) -> trusted_read p max_bytes mode owner contents.
Proof.
  unfold read_optional_bounded_file, open_no_symlink_components. intros Hr. ok_inv.
  match goal with Hx : open_components ?r ?ns = Ok ?o |- _ => destruct o as [fd|]; [|done]; rename Hx into Hopen; rename ns into names end.
  ok_inv. repeat match goal with
  | Hx : _ || _ = false |- _ => apply orb_false_iff in Hx as [? ?]
  | Hx : negb _ = false |- _ => apply negb_false_iff in Hx
  end.
  match goal with Hx : file_metadata_matches_policy _ _ _ _ = true |- _ => apply andb_true_iff in Hx as [Hm Ho] end.
  eexists _, fd, names, _. split_and!; try done.
  - by apply absolute_names.
  - by apply open_components_reached.
  - intros m ->. by apply N.eqb_eq.
  - intros o ->. by apply N.eqb_eq.
  - lia.
  - lia.
  - lia.
Qed.
End files.

Lemma with_action_sound s a :
  sound_snapshot s -> (forall x, a = Some x -> sound_action x) -> sound_snapshot (with_config_action s a).
Proof. intros [] Ha. by split. Qed.

Lemma status_not_recovery (s : str) : s ∈ DEPLOYMENT_STATUSES -> s <> lit "recovery_required" /\ s <> lit "unknown".
Proof.
  intros Hin. repeat (apply elem_of_cons in Hin as [->|Hin]; [by split|]). by apply not_elem_of_nil in Hin.
Qed.

(** ** Properties *)

(** C40: Every answer of the provider is made of fixed words and hexadecimal digits: the state
    is one of the deployment states, [unknown] or [recovery_required]; a revision is 40 or 64
    lowercase digits and present after a deployment; the service is the bot's; a phase is a
    transaction phase of a recovery; and an action has a 64-digit ID and a revision exactly
    when it succeeded. *)
Theorem status_answers_sound `{StatusKernel} `{JsonText} `{Rfc3339} provider s
  (Hs : status provider = Ok s) : sound_snapshot s.
Proof.
  unfold status in Hs. apply rbind_ok in Hs as (snapshot & Hsn & [= <-]). apply with_action_sound.
  - assert (sound_snapshot recovery_required_snapshot) as Hrec.
    { split; cbn; try done; [by right; left|by intros v [= <-]|].
      intros Hin. repeat (apply elem_of_cons in Hin as [Hin|Hin]; [done|]). by apply not_elem_of_nil in Hin. }
    destruct (read_optional_bounded_file (transaction_file provider) _ _ _) as [[contents|]|].
    + destruct (parse_deployment_transaction contents) eqn:E; injection Hsn as <-; [|done].
      by apply transaction_sound in E as [? _].
    + apply rbind_ok in Hsn as ([contents|] & _ & Hp); [by apply deployment_status_sound in Hp as [? _]|].
      injection Hp as <-. split; cbn; try done; [by left|].
      intros Hin. repeat (apply elem_of_cons in Hin as [Hin|Hin]; [done|]). by apply not_elem_of_nil in Hin.
    + by injection Hsn as <-.
  - intros x Hx. destruct (read_optional_bounded_file (action_status_file provider) _ _ _) as [[contents|]|]; try done.
    destruct (parse_config_action_status contents) eqn:E; [|done]. injection Hx as <-. by eapply config_action_sound.
Qed.

(** A deployment transaction masks the deployment status. While its file exists, or cannot
    be read, the provider answers [recovery_required], whatever the status files hold, and
    shows a phase only from a regular file that the deployment owner wrote with mode 0644 and
    that was reached without following a symbolic link. Only when it is absent is another
    state shown, and [unknown] only when there is no status file either. *)
Theorem transaction_masks_status `{StatusKernel} `{JsonText} `{Rfc3339} provider :
  let transaction := read_optional_bounded_file (transaction_file provider) 16384
                       (Some 420) (Some (transaction_owner_uid provider)) in
  (transaction <> Ok None ->
     exists s, status provider = Ok s /\ cs_status s = lit "recovery_required" /\
       (is_Some (cs_transaction_phase s) -> exists contents,
          trusted_read (transaction_file provider) 16384 (Some 420) (Some (transaction_owner_uid provider)) contents)) /\
  (transaction = Ok None -> forall s, status provider = Ok s ->
     cs_status s <> lit "recovery_required" /\ cs_transaction_phase s = None /\
     (cs_status s = lit "unknown" <-> read_optional_bounded_file (status_file provider) 65536 None None = Ok None)).
Proof.
  cbv zeta. unfold status. change TRANSACTION_FILE_MAX_BYTES with 16384. change DEPLOY_TRANSACTION_MODE with 420.
  change STATUS_FILE_MAX_BYTES with 65536.
  destruct (read_optional_bounded_file (transaction_file provider) _ _ _) as [[contents|]|] eqn:Er.
  - split; [intros _|done]. apply read_trusted in Er.
    destruct (parse_deployment_transaction contents) as [s|] eqn:E; cbn [rbind]; eexists; (split; [done|]); [|split; [done|by intros []]].
    apply transaction_sound in E as (_ & Hst & _). split; [exact Hst|]. eauto.
  - split; [done|]. intros _ s Hs. apply rbind_ok in Hs as (snapshot & Hsn & [= <-]). cbn.
    apply rbind_ok in Hsn as (found & Hf & Hp). rewrite Hf. destruct found as [contents|].
    + pose proof Hp as [_ Hst]%deployment_status_sound.
      destruct (status_not_recovery _ Hst) as [Hn Hu]. split; [done|].
      unfold parse_deployment_status in Hp. ok_inv. by split.
    + injection Hp as <-. done.
  - split; [intros _|done]. eexists. split; [done|]. split; [done|]. by intros [].
Qed.

(** ** Repositories and paths *)

Definition repo_part (s : str) : Prop := s <> [] /\ Forall (fun c => is_repo_character c = true) s.

Lemma split_once_spec c (s a b : str) : split_once [c] s = Some (a, b) <-> s = a ++ c :: b /\ (c ∉ a).
Proof.
  unfold split_once. revert a. induction s as [|x s IH]; intros a; cbn [find_str].
  - cbn. split; [done|]. intros [H _]. by destruct a.
  - unfold starts_with. cbn [strip_prefix]. destruct (N.eqb_spec c x) as [->|Hne]; cbn.
    + split.
      * intros [= <- <-]. split; [done|apply not_elem_of_nil].
      * intros [H Hn]. destruct a as [|y a]; injection H as <-; [by subst|]. by apply not_elem_of_cons in Hn as [].
    + destruct (find_str [c] s) as [[a' b']|] eqn:E; cbn in *.
      * split.
        -- intros [= <- <-]. destruct (proj1 (IH a') eq_refl) as [-> Hn]. split; [done|].
           by apply not_elem_of_cons.
        -- intros [H Hn]. destruct a as [|y a]; injection H as -> H; [done|].
           apply not_elem_of_cons in Hn as [_ Hn]. pose proof (proj2 (IH a) (conj H Hn)) as [= -> ->]. done.
      * split; [done|]. intros [H Hn]. destruct a as [|y a]; injection H as -> H; [done|].
        apply not_elem_of_cons in Hn as [_ Hn]. by pose proof (proj2 (IH a) (conj H Hn)).
Qed.

Lemma repo_character_small b : is_repo_character b = true -> b < 128.
Proof.
  intros Hb. unfold is_repo_character in Hb. apply orb_true_iff in Hb as [Hb|Hb].
  - unfold is_ascii_alphanumeric, is_ascii_digit, is_ascii_uppercase, is_ascii_lowercase in Hb. lia.
  - unfold one_of in Hb. apply any_true in Hb as (x & Hx & ->%N.eqb_eq). revert Hx. unfold lit. cbn.
    rewrite !elem_of_cons, elem_of_nil. lia.
Qed.

Lemma repo_part_bytes (s : str) : all is_repo_character (as_bytes s) = true <-> Forall (fun c => is_repo_character c = true) s.
Proof. apply bytes_test, repo_character_small. Qed.

Lemma repo_part_no_slash (s : str) : Forall (fun c => is_repo_character c = true) s -> ch "/" ∉ s.
Proof. intros Hs Hin. rewrite Forall_forall in Hs. by specialize (Hs _ Hin). Qed.

Lemma contains_char_false c (s : str) : contains_char c s = false <-> c ∉ s.
Proof.
  unfold contains_char. rewrite any_false. split.
  - intros Hx Hc. specialize (Hx c Hc). by rewrite N.eqb_refl in Hx.
  - intros Hc x Hx. apply N.eqb_neq. by intros <-.
Qed.

(** The repositories a transaction may name: an owner and a repository on GitHub. *)
Theorem config_repo_grammar value :
  valid_config_repo value = true <->
  exists prefix owner repository,
    prefix ∈ [lit "git@github.com:"; lit "https://github.com/"] /\ repo_part owner /\ repo_part repository /\
    value = prefix ++ owner ++ lit "/" ++ repository ++ lit ".git".
Proof.
  unfold valid_config_repo. split.
  - set (r := opt_or _ _). destruct (r ≫= strip_suffix (lit ".git")) as [p|] eqn:Ep; [|done].
    destruct (split_once (lit "/") p) as [[o rp]|] eqn:Es; [|done]. intros Hc.
    repeat (apply andb_true_iff in Hc as [Hc ?]).
    match goal with Hx : all _ [_; _] = true |- _ => unfold all in Hx at 1; cbn [forallb] in Hx end.
    repeat match goal with Hx : _ && _ = true |- _ => apply andb_true_iff in Hx as [? Hx] end.
    rewrite repo_part_bytes in *. rewrite !negb_true_iff, !is_empty_false in *.
    apply bind_Some in Ep as (rest & Hr & ->%strip_suffix_spec). apply split_once_spec in Es as [-> _].
    assert (exists prefix, prefix ∈ [lit "git@github.com:"; lit "https://github.com/"] /\ strip_prefix prefix value = Some (o ++ ch "/" :: rp ++ lit ".git")) as (prefix & Hp & Hs).
    { subst r. rewrite <-app_assoc in Hr. revert Hr.
      destruct (strip_prefix (lit "git@github.com:") value) as [x|] eqn:E; cbn [opt_or]; intros Hr.
      - injection Hr as ->. eexists. split; [by left|exact E].
      - eexists. split; [by right; left|exact Hr]. }
    exists prefix, o, rp. apply strip_prefix_spec in Hs as ->. done.
  - intros (prefix & o & rp & Hp & [Ho Hof] & [Hr Hrf] & ->).
    assert (opt_or (strip_prefix (lit "git@github.com:") (prefix ++ o ++ lit "/" ++ rp ++ lit ".git"))
                   (strip_prefix (lit "https://github.com/") (prefix ++ o ++ lit "/" ++ rp ++ lit ".git"))
            = Some ((o ++ lit "/" ++ rp) ++ lit ".git")) as ->.
    { rewrite <-!app_assoc.
      apply elem_of_cons in Hp as [->|[->|Hn%not_elem_of_nil]%elem_of_cons]; [..|done].
      - by rewrite (proj2 (strip_prefix_spec _ _ _) eq_refl).
      - cbn [opt_or lit app strip_prefix]. cbn. done. }
    cbn [mbind option_bind]. rewrite (proj2 (strip_suffix_spec _ _ _) eq_refl).
    change (lit "/") with [ch "/"] at 1. rewrite (proj2 (split_once_spec (ch "/") (o ++ lit "/" ++ rp) o rp)).
    + rewrite (proj2 (contains_char_false _ _)) by (by apply repo_part_no_slash).
      unfold all. cbn [forallb]. change (forallb is_repo_character) with (all is_repo_character).
      rewrite !(proj2 (repo_part_bytes _)) by done. by destruct o, rp.
    + split; [done|]. by apply repo_part_no_slash.
Qed.

(** ** Witness *)

(** Files by their full names; every directory exists. *)
Definition sample_kernel (files : list (list (list N) * (StatusMetadata * list N))) : StatusKernel := {|
  Fd := list (list N);
  open_root := Some [];
  openat d name directory :=
    let p := d ++ [name] in
    if directory then Opened p
    else if any (fun f => bool_decide (fst f = p)) files then Opened p else NotFound;
  fstat p := (fun f => fst (snd f)) <$> List.find (fun f => bool_decide (fst f = p)) files;
  read_to_end p max := (fun f => take_N max (snd (snd f))) <$> List.find (fun f => bool_decide (fst f = p)) files
|}.

Definition sample_status : list N := as_bytes (print_compact (JObject
  [(lit "status", JString (lit "deployed")); (lit "config_revision", JString (hex (replicate 20 171)));
   (lit "config_repo", JString (lit "git@github.com:org/config.git")); (lit "config_ref", JString (lit "main"));
   (lit "bot_code_dir", JString (lit "/srv/bot")); (lit "rendered_config", JString (lit "/srv/config"));
   (lit "deployed_at", JString (lit "2026-01-01T00:00:00Z")); (lit "service", JString SERVICE_NAME);
   (lit "service_restart_skipped", JBool false); (lit "service_action", JString (lit "restart"))])).

Definition sample_provider : FileConfigStatusProvider := mkProvider (lit "/var/status") (lit "/var/transaction") 0 (lit "/var/action").

Definition sample_files : list (list (list N) * (StatusMetadata * list N)) :=
  [([lit "var"; lit "status"], (mkStatusMetadata true 0 420 (len sample_status), sample_status))].

Definition sample_answer : ConfigStatusSnapshot :=
  mkConfigStatusSnapshot (lit "deployed") (Some (hex (replicate 20 171))) (Some SERVICE_NAME) None None.

Definition any_time : Rfc3339 := fun _ => true.

Lemma status_answers_sound_witness :
  @status (sample_kernel sample_files) compact_text any_time sample_provider = Ok sample_answer /\
  sound_snapshot sample_answer.
Proof.
  assert (@status (sample_kernel sample_files) compact_text any_time sample_provider = Ok sample_answer) as Hs
    by (vm_compute; reflexivity).
  split; [exact Hs|]. exact (@status_answers_sound (sample_kernel sample_files) compact_text any_time _ _ Hs).
Defined.

(** An unreadable transaction, one with the wrong mode and one that is not JSON mask the status. *)
Example masked_statuses :
  let with_transaction m c := @status (sample_kernel (([lit "var"; lit "transaction"], (m, c)) :: sample_files)) compact_text any_time sample_provider in
  map (fun r => match r with Ok s => cs_status s | Err e => e end)
    [with_transaction (mkStatusMetadata true 0 420 2) (lit "{}"); with_transaction (mkStatusMetadata true 7 420 2) (lit "{}");
     with_transaction (mkStatusMetadata false 0 420 2) (lit "{}"); with_transaction (mkStatusMetadata true 0 420 0) []]
  = replicate 4 (lit "recovery_required").
Proof. vm_compute. reflexivity. Qed.
