(* ===== verification/HostFiles.v ===== *)
(** * Files of the host

    What the program sees of files it does not keep itself: the metadata of a name without
    following a final symbolic link, and the user and group data base. *)

From S2P Require Import Prelude Text Paths.

Local Open Scope N_scope.

Inductive NodeKind : Type := RegularFile | Directory | SymbolicLink | Socket | OtherNode.

#[export] Instance NodeKind_eq_dec : EqDecision NodeKind.
Proof. solve_decision. Defined.

Definition is_kind (a b : NodeKind) : bool := bool_decide (a = b).

Record NodeMetadata : Type := mkNodeMetadata {
  nm_kind : NodeKind;
  nm_uid : N;
  nm_gid : N;
  nm_mode : N;
  nm_nlink : N;
  nm_size : N;
  nm_dev : N;
  nm_ino : N
}.

#[export] Instance NodeMetadata_eq_dec : EqDecision NodeMetadata.
Proof. solve_decision. Defined.

(** [mode & 0o7777]. *)
Definition permissions (m : NodeMetadata) : N := N.land (nm_mode m) 4095.

(** [symlink_metadata], [getpwnam_r] and [getgrnam_r]; [None] is a failed call. *)
Class HostFiles : Type := {
  symlink_metadata : list Component -> option NodeMetadata;
  lookup_user_uid : str -> option N;
  lookup_group_gid : str -> option N
}.

(** [path.parent()], on components. *)
Definition parent (cs : list Component) : option (list Component) :=
  match reverse cs with
  | [] | RootDir :: _ => None
  | _ :: r => Some (reverse r)
  end.

(** The paths above a path, nearest first. *)
Fixpoint ancestors_of (reversed : list Component) : list (list Component) :=
  match reversed with
  | [] | RootDir :: _ => []
  | _ :: r => reverse r :: ancestors_of r
  end.

Definition ancestors (cs : list Component) : list (list Component) := ancestors_of (reverse cs).

(** What a check of kind, owner, group and permissions accepts. *)
Definition node_matches (kind : NodeKind) (uid gid mode : N) (m : NodeMetadata) : bool :=
  is_kind (nm_kind m) kind && (nm_uid m =? uid) && (nm_gid m =? gid) && (permissions m =? mode).

Lemma parent_snoc cs c : c <> RootDir -> parent (cs ++ [c]) = Some cs.
Proof.
  intros Hc. unfold parent. rewrite reverse_snoc. destruct c; try done; by rewrite reverse_involutive.
Qed.

(** The loop [while let Some(path) = ancestor { .. ancestor = path.parent() }]. *)
Lemma ancestors_parent cs : ancestors cs = match parent cs with None => [] | Some p => p :: ancestors p end.
Proof.
  unfold ancestors, parent. destruct (reverse cs) as [|[] r]; cbn [ancestors_of]; rewrite ?reverse_involutive; done.
Qed.
