(* ===== verification/ConfigActions.v ===== *)
(** * The configuration-action client

    [src/config_actions.rs]: one request line to the pull worker's socket, and the checks of
    its answer and of the socket. *)

From S2P Require Import Prelude Text Digest Paths HostFiles Webex Serde JsonCompact.

Local Open Scope N_scope.

Definition CONFIG_ACTION_SOCKET : path := lit "/run/webex-config-pull/config-pull.sock".
Definition CONFIG_ACTION_WORKER_USER : str := lit "webex-config-deploy".
Definition CONFIG_ACTION_SHARED_GROUP : str := lit "webex-config-pull".
Definition CONFIG_ACTION_RESPONSE_MAX_BYTES : N := 4 * 1024.
Definition CONFIG_ACTION_MESSAGE_ID_MAX_BYTES : N := 256.

Inductive ConfigAction : Type := Pull.

#[export] Instance ConfigAction_eq_dec : EqDecision ConfigAction.
Proof. solve_decision. Defined.

Inductive ConfigActionEnqueueStatus : Type := Queued | Existing.

Record ConfigActionReceipt : Type := mkReceipt {
  action_id : str;
  receipt_status : ConfigActionEnqueueStatus
}.

Record EnqueueResponse : Type := mkEnqueueResponse {
  er_version : N;
  er_status : ConfigActionEnqueueStatus;
  er_action : ConfigAction;
  er_action_id : str
}.

(** [#[serde(rename_all = "lowercase")]]: a unit variant is its name, or an object with the
    name and [null]. *)
Definition unit_variant (v : Json) : option str :=
  match v with
  | JString s => Some s
  | JObject [(s, JNull)] => Some s
  | _ => None
  end.

Definition config_action_json (a : ConfigAction) : Json := match a with Pull => JString (lit "pull") end.

Definition decode_config_action (v : Json) : option ConfigAction :=
  s ← unit_variant v; if str_eqb s (lit "pull") then Some Pull else None.

Definition decode_enqueue_status (v : Json) : option ConfigActionEnqueueStatus :=
  s ← unit_variant v;
  if str_eqb s (lit "queued") then Some Queued
  else if str_eqb s (lit "existing") then Some Existing
  else None.

Definition decode_enqueue_response (v : Json) : option EnqueueResponse :=
  fields ← struct_fields [lit "version"; lit "status"; lit "action"; lit "action_id"] v;
  match fields with
  | [ver; st; ac; i] =>
      ver ← json_unsigned 255 ver; st ← decode_enqueue_status st; ac ← decode_config_action ac; i ← json_string i;
      Some (mkEnqueueResponse ver st ac i)
  | _ => None
  end.

Definition validate_message_id (message_id : str) : result str unit :=
  fail_if (is_empty message_id || (CONFIG_ACTION_MESSAGE_ID_MAX_BYTES <? byte_len message_id)
      || any (fun byte => is_ascii_control byte || negb (is_ascii_char byte)) (as_bytes message_id))
    (lit "config action message ID is invalid").

Definition encode_request `{JsonPrint} (message_id : str) (action : ConfigAction) : result str (list N) :=
  validate_message_id message_id ;?
  Ok (json_to_vec (struct_json [lit "version"; lit "message_id"; lit "action"]
        [JNumber (decimal 1); JString message_id; config_action_json action]) ++ [10]).

Definition is_lower_hex_byte (byte : N) : bool := is_ascii_digit byte || ((97 <=? byte) && (byte <=? 102)).

Definition decode_response `{JsonText} (response : list N) (action : ConfigAction) (max_response_bytes : N)
  : result str ConfigActionReceipt :=
  fail_if (is_empty response || (max_response_bytes <? len response))
    (lit "config action worker response size is invalid") ;?
  let? r := ok_or (json_from_slice response ≫= decode_enqueue_response)
    (lit "config action worker returned an invalid response") in
  fail_if (negb (er_version r =? 1) || negb (bool_decide (er_action r = action))
      || negb (byte_len (er_action_id r) =? 64)
      || negb (all is_lower_hex_byte (as_bytes (er_action_id r))))
    (lit "config action worker response failed validation") ;?
  Ok (mkReceipt (er_action_id r) (er_status r)).

Definition validate_socket_path `{HostFiles} (p : path) : result str unit :=
  fail_if (negb (is_absolute p)) (lit "config action socket path must be absolute") ;?
  let? socket := ok_or (symlink_metadata (components p)) (lit "config action worker socket is unavailable") in
  let? expected_uid := ok_or (lookup_user_uid CONFIG_ACTION_WORKER_USER) (lit "config action worker user is unavailable") in
  let? expected_gid := ok_or (lookup_group_gid CONFIG_ACTION_SHARED_GROUP) (lit "config action worker group is unavailable") in
  fail_if (negb (is_kind (nm_kind socket) Socket) || negb (nm_uid socket =? expected_uid)
      || negb (nm_gid socket =? expected_gid) || negb (permissions socket =? 432))
    (lit "config action worker socket metadata is invalid") ;?
  let? parent := ok_or (parent (components p)) (lit "config action socket path has no parent") in
  let? parent_metadata := ok_or (symlink_metadata parent) (lit "config action worker socket parent is unavailable") in
  fail_if (negb (is_kind (nm_kind parent_metadata) Directory) || is_kind (nm_kind parent_metadata) SymbolicLink
      || negb (nm_uid parent_metadata =? expected_uid) || negb (nm_gid parent_metadata =? expected_gid)
      || negb (permissions parent_metadata =? 488))
    (lit "config action worker socket parent is not trusted").

(** One exchange within the time limit: the request is written and at most the given number
    of bytes of the answer are read; [None] is an I/O error or the end of the time. *)
Class ActionWorker : Type := exchange_line : path -> list N -> N -> option (list N).

Definition enqueue `{HostFiles} `{JsonText} `{JsonPrint} `{ActionWorker} (socket_path : path) (max_response_bytes : N)
    (message_id : str) (action : ConfigAction) : result str ConfigActionReceipt :=
  validate_message_id message_id ;?
  validate_socket_path socket_path ;?
  let? encoded := encode_request message_id action in
  let? response := ok_or (exchange_line socket_path encoded (max_response_bytes + 1))
    (lit "config action worker request failed") in
  decode_response response action max_response_bytes.

(** ** Lemmas *)

(** What the checks of the socket establish. *)
Definition trusted_socket `{HostFiles} (p : path) : Prop :=
  exists uid gid socket directory,
    lookup_user_uid CONFIG_ACTION_WORKER_USER = Some uid /\ lookup_group_gid CONFIG_ACTION_SHARED_GROUP = Some gid /\
    symlink_metadata (components p) = Some socket /\ node_matches Socket uid gid 432 socket = true /\
    (exists d, parent (components p) = Some d /\ symlink_metadata d = Some directory) /\
    node_matches Directory uid gid 488 directory = true.

Ltac or_inv :=
  repeat match goal with
  | Hx : _ || _ = false |- _ => apply orb_false_iff in Hx as [? ?]
  | Hx : negb _ = false |- _ => apply negb_false_iff in Hx
  end.

Lemma socket_trusted `{HostFiles} p u : validate_socket_path p = Ok u -> trusted_socket p.
Proof.
  unfold validate_socket_path. intros Hv. ok_inv. or_inv.
  eexists _, _, _, _. unfold node_matches. split_and!; try done; [by rewrite !andb_true_iff| |by rewrite !andb_true_iff].
  eexists. by split.
Qed.

Lemma message_id_ascii m u : validate_message_id m = Ok u -> m <> [] /\ len m <= 256 /\ Forall (fun c => is_ascii_char c = true) m.
Proof.
  unfold validate_message_id. intros Hv. ok_inv. or_inv.
  match goal with Hx : any _ (as_bytes m) = false |- _ => rename Hx into Hb end.
  apply any_negb, (bytes_test (fun b => negb (is_ascii_control b || negb (is_ascii_char b)))) in Hb;
    [|unfold is_ascii_char; lia].
  assert (Forall (fun c => is_ascii_char c = true) m) as Ha.
  { eapply Forall_impl; [exact Hb|]. intros c Hc. cbn beta in Hc. unfold is_ascii_char in *. lia. }
  split; [by apply is_empty_false|]. split; [|done].
  rewrite <-len_as_bytes, as_bytes_ascii_text in * by done. unfold CONFIG_ACTION_MESSAGE_ID_MAX_BYTES in *. lia.
Qed.

(** ** Properties *)

(** A receipt names an action by 64 lowercase hexadecimal digits. *)
Definition receipt_id (s : str) : Prop := len s = 64 /\ Forall (fun c => lower_hex c = true) s.

(** What the worker reads: one line that holds the request and nothing else. *)
Definition request_value (message_id : str) : Json :=
  struct_json [lit "version"; lit "message_id"; lit "action"] [JNumber (lit "1"); JString message_id; JString (lit "pull")].

(** A receipt is only returned for a valid message ID, from a socket and a directory that
    belong to the worker's user and the shared group with modes 0660 and 0750, in answer to
    one line that decodes to the request; its action ID is 64 lowercase hexadecimal digits,
    and the answer was at most as long as the limit. *)
Theorem enqueue_trusted `{HostFiles} `{JsonLaws} `{ActionWorker} socket max message_id r
  (Hr : enqueue socket max message_id Pull = Ok r) :
  trusted_socket socket /\ receipt_id (action_id r) /\
  exists line answer,
    exchange_line socket (line ++ [10]) (max + 1) = Some answer /\ 1 <= len answer <= max /\
    Forall (fun b => 32 <= b) line /\ json_from_slice line = Some (request_value message_id).
Proof.
  unfold enqueue in Hr. apply then_ok in Hr as [Hm Hr]. apply then_ok in Hr as [Hs Hr].
  apply rbind_ok in Hr as (encoded & He & Hr). apply rbind_ok in Hr as (answer & Ha & Hr).
  apply ok_or_ok in Ha. unfold encode_request in He. apply then_ok in He as [_ [= <-]].
  split; [by eapply socket_trusted|]. unfold decode_response in Hr. ok_inv. or_inv. split.
  - assert (forall b, is_lower_hex_byte b = true -> b < 128) as Hsmall by (unfold is_lower_hex_byte, is_ascii_digit; lia).
    match goal with Hx : all is_lower_hex_byte _ = true |- _ => apply (bytes_test is_lower_hex_byte _ Hsmall) in Hx; rename Hx into Hall end.
    split; cbn; [|exact Hall]. rewrite (test_byte_len is_lower_hex_byte) in * by done. lia.
  - assert (json_ok (request_value message_id) = true) as Hok.
    { apply struct_json_ok; [done|]. unfold all. cbn [forallb]. change (JNumber (lit "1")) with (JNumber (decimal 1)).
      rewrite json_ok_decimal by done. rewrite (string_json_ok message_id); [done|].
      apply all_true, ascii_scalar. by eapply message_id_ascii. }
    exists (json_to_vec (request_value message_id)), answer.
    match goal with Hx : is_empty answer = false |- _ => apply is_empty_false, len_pos in Hx end.
    split; [exact Ha|]. split; [lia|].
    split; [by apply json_to_vec_one_line|apply json_slice_round_trip; [done|cbn; lia]].
Qed.

(** ** Witness *)

Definition sample_host : HostFiles := {|
  symlink_metadata cs :=
    if bool_decide (cs = components (lit "/run/w/s")) then Some (mkNodeMetadata Socket 7 8 432 1 0 1 1)
    else if bool_decide (cs = components (lit "/run/w")) then Some (mkNodeMetadata Directory 7 8 488 1 0 1 2)
    else None;
  lookup_user_uid _ := Some 7;
  lookup_group_gid _ := Some 8
|}.

Definition sample_answer (id : str) : list N :=
  as_bytes (print_compact (struct_json [lit "version"; lit "status"; lit "action"; lit "action_id"]
    [JNumber (lit "1"); JString (lit "queued"); JString (lit "pull"); JString id])).

Definition sample_worker (id : str) : ActionWorker := fun _ _ _ => Some (sample_answer id).

Definition sample_id : str := hex (replicate 32 171).

Definition sample_enqueue (id : str) : result str ConfigActionReceipt :=
  @enqueue sample_host compact_text compact_print (sample_worker id) (lit "/run/w/s") 4096 (lit "m1") Pull.

Lemma enqueue_trusted_witness :
  sample_enqueue sample_id = Ok (mkReceipt sample_id Queued) /\ receipt_id sample_id /\
  is_ok (sample_enqueue (lit "a")) = false.
Proof.
  assert (sample_enqueue sample_id = Ok (mkReceipt sample_id Queued)) as Hs by (vm_compute; reflexivity).
  split; [exact Hs|]. split; [|vm_compute; reflexivity].
  exact (proj1 (proj2 (@enqueue_trusted sample_host compact_text compact_print compact_laws (sample_worker sample_id)
    _ _ _ _ Hs))).
Defined.
