(* ===== verification/LauncherClient.v ===== *)
(** * The launcher's client

    [src/launcher_client.rs]: one packet to the launcher's socket and one back, each step
    under its time limit, and the checks of the answer. *)

From S2P Require Import Prelude Text Paths HostFiles LauncherProtocol.

Local Open Scope N_scope.

(** ** Durations in nanoseconds *)

Definition duration_max : N := u64_max * 1000000000 + 999999999.
Definition from_secs (seconds : N) : N := seconds * 1000000000.
Definition saturating_add (a b : N) : N := N.min (a + b) duration_max.

Definition LAUNCHER_IO_TIMEOUT : N := from_secs LAUNCHER_IO_TIMEOUT_SECONDS.
Definition PREFLIGHT_RESPONSE_TIMEOUT : N := from_secs LAUNCHER_PREFLIGHT_RESPONSE_TIMEOUT_SECONDS.

Definition execute_response_timeout (timeout_seconds io_timeout : N) : N :=
  saturating_add (saturating_add (from_secs timeout_seconds) (from_secs LAUNCHER_EXECUTE_RESPONSE_OVERHEAD_SECONDS))
    (io_timeout - LAUNCHER_IO_TIMEOUT).

(** ** Errors *)

Inductive LauncherClientError : Type :=
| InvalidRequest (e : ProtocolError)
| ConnectionTimeout
| ConnectionFailed
| WriteTimeout
| WriteFailed
| ReadTimeout
| ReadFailed
| TruncatedResponse
| OversizedResponse
| InvalidResponse (e : ProtocolError)
| ExecutionUnavailable
| UnexpectedPreflightResponse
| UnexpectedExecuteResponse
| RunIdMismatch
| ClientRejected (code : RejectionCode) (message : str)
| TrustPolicyUnavailable
| SocketParentMissing
| SocketDirectoryUnavailable
| SocketUnavailable
| InvalidSocketDirectoryMetadata
| InvalidSocketMetadata.

(** ** Answers *)

Definition ensure_run_id (expected actual : str) : result LauncherClientError unit :=
  fail_if (negb (str_eqb actual expected)) RunIdMismatch.

Definition rejection_error (r : RejectedResponse) : LauncherClientError :=
  ClientRejected (code r) (bound_error_message (message r)).

Definition validate_preflight_response (r : LauncherResponse) : result LauncherClientError unit :=
  match response r with
  | Ready true => Ok tt
  | Ready false => Err ExecutionUnavailable
  | Rejected rejected => Err (rejection_error rejected)
  | Completed _ => Err UnexpectedPreflightResponse
  end.

Definition validate_execute_response (r : LauncherResponse) (expected_run_id : str)
  : result LauncherClientError CompletedResponse :=
  match response r with
  | Completed c => ensure_run_id expected_run_id (comp_run_id c) ;? Ok c
  | Rejected rejected =>
      match rej_run_id rejected with
      | Some run_id => ensure_run_id expected_run_id run_id
      | None => Ok tt
      end ;?
      Err (rejection_error rejected)
  | Ready _ => Err UnexpectedExecuteResponse
  end.

(** ** The socket's metadata *)

Definition verify_socket_metadata `{HostFiles} (socket_path : path) (expected_uid expected_gid : N)
  : result LauncherClientError unit :=
  let? parent := ok_or (parent (components socket_path)) SocketParentMissing in
  let? parent_metadata := ok_or (symlink_metadata parent) SocketDirectoryUnavailable in
  let? socket_metadata := ok_or (symlink_metadata (components socket_path)) SocketUnavailable in
  fail_if (negb (is_kind (nm_kind parent_metadata) Directory) || is_kind (nm_kind parent_metadata) SymbolicLink
      || negb (nm_uid parent_metadata =? expected_uid) || negb (nm_gid parent_metadata =? expected_gid)
      || negb (permissions parent_metadata =? 488))
    InvalidSocketDirectoryMetadata ;?
  fail_if (negb (is_kind (nm_kind socket_metadata) Socket) || is_kind (nm_kind socket_metadata) SymbolicLink
      || negb (nm_uid socket_metadata =? expected_uid) || negb (nm_gid socket_metadata =? expected_gid)
      || negb (permissions socket_metadata =? 432))
    InvalidSocketMetadata.

(** [socket_address]: the bytes copied into [sun_path], which has 108. *)
Definition SUN_PATH_LEN : N := 108.

Definition socket_address (p : path) : option (list N) :=
  if negb (is_absolute p) then None
  else if is_empty p || any (N.eqb 0) p || (SUN_PATH_LEN <=? len p) then None
  else Some p.

(** ** Packets *)

Definition RESPONSE_FRAME_MAX_BYTES : N := FRAME_HEADER_BYTES + RESPONSE_MAX_BYTES.

Record ReceivedPacket : Type := mkReceivedPacket { frame : list N; packet_truncated : bool }.

(** What the system calls answer, in the order of the attempts; a list that ends without a
    decision is a step that is still waiting when its time is over. *)
Inductive ConnectAttempt : Type :=
| Connected
| TryAgain
| InProgress (socket_error : option bool)
| ConnectError.

Inductive SendAttempt : Type := Sent (bytes : N) | SendBlocked | SendError.

(** [recvmsg] takes one packet off the socket, with the flag for control data that did not fit. *)
Inductive ReceiveAttempt : Type := Received (packet : list N) (ctrunc : bool) | ReceiveBlocked | ReceiveError.

(** The loop of [connect]; [socket_error] is [SO_ERROR] once the socket is writable: nothing,
    an error to wait on ([true]) or another one. *)
Fixpoint connect (attempts : list ConnectAttempt) : option (result unit unit) :=
  match attempts with
  | [] => None
  | Connected :: _ => Some (Ok tt)
  | TryAgain :: rest => connect rest
  | InProgress None :: _ => Some (Ok tt)
  | InProgress (Some true) :: rest => connect rest
  | InProgress (Some false) :: _ => Some (Err tt)
  | ConnectError :: _ => Some (Err tt)
  end.

Fixpoint send_packet (packet : list N) (attempts : list SendAttempt) : option (result unit unit) :=
  match attempts with
  | [] => None
  | SendBlocked :: rest => send_packet packet rest
  | SendError :: _ => Some (Err tt)
  | Sent n :: _ => Some (fail_if (negb (n =? len packet)) tt)
  end.

(** [receive_packet_now]: the buffer holds one byte more than the largest frame. *)
Definition receive_packet_now (max_frame_bytes : N) (packet : list N) (ctrunc : bool) : ReceivedPacket :=
  mkReceivedPacket (take_N (max_frame_bytes + 1) packet) ((max_frame_bytes + 1 <? len packet) || ctrunc).

Fixpoint receive_packet (max_frame_bytes : N) (attempts : list ReceiveAttempt) : option (result unit ReceivedPacket) :=
  match attempts with
  | [] => None
  | ReceiveBlocked :: rest => receive_packet max_frame_bytes rest
  | ReceiveError :: _ => Some (Err tt)
  | Received packet ctrunc :: _ => Some (Ok (receive_packet_now max_frame_bytes packet ctrunc))
  end.

(** [timeout(limit, step).await.map_err(..)?.map_err(..)]. *)
Definition within {A} (step : option (result unit A)) (late failed : LauncherClientError) : result LauncherClientError A :=
  let? outcome := ok_or step late in
  map_err (fun _ => failed) outcome.

(** The attempts that fit in the time limit of each step. *)
Record Transport : Type := mkTransport {
  connect_attempts : list ConnectAttempt;
  send_attempts : list SendAttempt;
  receive_attempts : N -> list ReceiveAttempt
}.

Section client.
Context `{!JsonCodec LauncherRequest} `{!JsonCodec LauncherResponse}.

Definition decode_received_response (packet : ReceivedPacket) : result LauncherClientError LauncherResponse :=
  fail_if (packet_truncated packet) TruncatedResponse ;?
  fail_if (RESPONSE_FRAME_MAX_BYTES <? len (frame packet)) OversizedResponse ;?
  map_err InvalidResponse (decode_response_frame (frame packet)).

Definition exchange_packets (socket_path : path) (response_timeout : N) (request_frame : list N) (t : Transport)
  : result LauncherClientError LauncherResponse :=
  let? _ := ok_or (socket_address socket_path) ConnectionFailed in
  within (connect (connect_attempts t)) ConnectionTimeout ConnectionFailed ;?
  within (send_packet request_frame (send_attempts t)) WriteTimeout WriteFailed ;?
  let? packet := within (receive_packet RESPONSE_FRAME_MAX_BYTES (receive_attempts t response_timeout)) ReadTimeout ReadFailed in
  decode_received_response packet.

(** [LauncherClient]. *)
Record LauncherClient : Type := mkLauncherClient {
  lc_socket_path : path;
  lc_io_timeout : N;
  lc_preflight_response_timeout : N
}.

Definition exchange (client : LauncherClient) (request : LauncherRequest) (response_timeout : N) (t : Transport)
  : result LauncherClientError LauncherResponse :=
  let? request_frame := map_err InvalidRequest (encode_request_frame request) in
  exchange_packets (lc_socket_path client) response_timeout request_frame t.

Definition client_preflight (client : LauncherClient) (t : Transport) : result LauncherClientError unit :=
  let? r := exchange client preflight (lc_preflight_response_timeout client) t in
  validate_preflight_response r.

Definition client_execute (client : LauncherClient) (request : ExecuteRequest) (t : Transport)
  : result LauncherClientError CompletedResponse :=
  let response_timeout := execute_response_timeout (timeout_seconds request) (lc_io_timeout client) in
  let? r := exchange client (execute request) response_timeout t in
  validate_execute_response r (run_id request).
End client.

Definition LAUNCHER_SOCKET_PATH : path := lit "/run/webex-codex-launcher/launcher.sock".

Definition fixed_client : LauncherClient :=
  mkLauncherClient LAUNCHER_SOCKET_PATH LAUNCHER_IO_TIMEOUT PREFLIGHT_RESPONSE_TIMEOUT.

(** ** Lemmas *)

Lemma ensure_run_id_ok a b u : ensure_run_id a b = Ok u <-> b = a.
Proof. destruct u. unfold ensure_run_id. by rewrite fail_if_ok, negb_false_iff, str_eqb_eq. Qed.

Lemma within_ok {A} (step : option (result unit A)) late failed a :
  within step late failed = Ok a <-> step = Some (Ok a).
Proof. unfold within. destruct step as [[x|[]]|]; cbn; naive_solver. Qed.

Section lemmas.
Context `{!JsonCodec LauncherRequest} `{!JsonCodec LauncherResponse}.

(** An answer is one whole packet that decodes to a valid response. *)
Lemma exchange_ok client request response_timeout t r :
  exchange client request response_timeout t = Ok r ->
  validate_request request = Ok tt /\
  exists packet, len packet <= RESPONSE_FRAME_MAX_BYTES /\ decode_response_frame packet = Ok r /\
    receive_packet RESPONSE_FRAME_MAX_BYTES (receive_attempts t response_timeout) = Some (Ok (mkReceivedPacket packet false)).
Proof.
  unfold exchange, exchange_packets, decode_received_response. intros Hx. ok_inv.
  match goal with Hx : encode_request_frame _ = Ok _ |- _ => unfold encode_request_frame in Hx; apply then_ok in Hx as [? _] end.
  split; [done|]. repeat match goal with Hx : within _ _ _ = Ok _ |- _ => apply within_ok in Hx end.
  match goal with Hx : receive_packet _ _ = Some (Ok ?p) |- _ => destruct p as [packet tr]; exists packet end.
  cbn in *. subst. split; [lia|]. done.
Qed.

Lemma validate_execute_response_ok r expected c :
  validate_execute_response r expected = Ok c <-> response r = Completed c /\ comp_run_id c = expected.
Proof.
  unfold validate_execute_response. destruct (response r) as [|c'|j]; [by split; [|intros []]| |].
  - rewrite then_ok, ensure_run_id_ok. naive_solver.
  - split; [|by intros []]. rewrite then_ok. by intros [_ ?].
Qed.
End lemmas.

(** The server's packet arrives: every system call succeeds at its last attempt in time. *)
Definition delivers (t : Transport) (response_timeout : N) (request_frame packet : list N) : Prop :=
  connect (connect_attempts t) = Some (Ok tt) /\ send_packet request_frame (send_attempts t) = Some (Ok tt) /\
  receive_packet RESPONSE_FRAME_MAX_BYTES (receive_attempts t response_timeout)
    = Some (Ok (receive_packet_now RESPONSE_FRAME_MAX_BYTES packet false)).

(** ** Properties *)

(** The client only reports a completed run for a valid request, from one whole packet of
    at most the protocol's size that decodes to a valid response, and only when the response
    names the run of the request; its output has at most 100,000 characters. *)
Theorem completed_run_is_answered `{!JsonCodec LauncherRequest} `{!JsonCodec LauncherResponse} client request t c
  (Hc : client_execute client request t = Ok c) :
  validate_execute request = Ok tt /\ comp_run_id c = run_id request /\ char_count (output c) <= 100000 /\
  exists packet r, len packet <= 4 + RESPONSE_MAX_BYTES /\ decode_response_frame packet = Ok r /\ response r = Completed c.
Proof.
  unfold client_execute in Hc. apply rbind_ok in Hc as (r & Hx & Hr).
  apply exchange_ok in Hx as (Hv & packet & Hl & Hd & _). apply validate_execute_response_ok in Hr as [Hresp Hid].
  unfold validate_request, execute in Hv. apply then_ok in Hv as [_ Hv]. split; [exact Hv|]. split; [exact Hid|].
  split; [|exists packet, r; split; [exact Hl|done]].
  unfold decode_response_frame in Hd. ok_inv.
  match goal with Hx : validate_response _ = Ok _ |- _ => unfold validate_response in Hx; rewrite Hresp in Hx; apply then_ok in Hx as [_ Hx];
    unfold validate_completed in Hx; apply then_ok in Hx as [_ Hx]; apply fail_if_ok in Hx end.
  unfold OUTPUT_CHAR_LIMIT_MAX in *. lia.
Qed.

(** Every answer the server can frame comes back to the caller unchanged: if the packet is
    delivered, a completed response for the run is the result of the call, and a rejection is
    its error with the code and the bounded message of the server. *)
Theorem server_answer_returned `{!JsonCodec LauncherRequest} `{!JsonCodec LauncherResponse} `{!JsonRoundTrip LauncherResponse}
    request t request_frame packet answer
  (Hreq : encode_request_frame (execute request) = Ok request_frame)
  (Hresp : encode_response_frame (mkLauncherResponse PROTOCOL_VERSION answer) = Ok packet)
  (Hd : delivers t (execute_response_timeout (timeout_seconds request) LAUNCHER_IO_TIMEOUT) request_frame packet) :
  client_execute fixed_client request t =
    match answer with
    | Completed c => if str_eqb (comp_run_id c) (run_id request) then Ok c else Err RunIdMismatch
    | Rejected j =>
        if is_some_and (rej_run_id j) (fun i => negb (str_eqb i (run_id request))) then Err RunIdMismatch
        else Err (ClientRejected (code j) (bound_error_message (message j)))
    | Ready _ => Err UnexpectedExecuteResponse
    end.
Proof.
  unfold client_execute, exchange, exchange_packets, lc_io_timeout, fixed_client. rewrite Hreq. cbn [map_err rbind lc_socket_path].
  change (socket_address LAUNCHER_SOCKET_PATH) with (Some LAUNCHER_SOCKET_PATH). cbn [ok_or rbind].
  destruct Hd as (Hc & Hs & Hr). rewrite Hc, Hs. cbn [within ok_or rbind map_err]. rewrite Hr. cbn [within ok_or rbind map_err].
  unfold encode_response_frame in Hresp. apply then_ok in Hresp as [Hv He].
  pose proof He as (payload & Hp & Hlen & Hpk)%(encode_frame_ok _ _ _ response_max_u32).
  assert (len packet <= RESPONSE_FRAME_MAX_BYTES) as Hle.
  { rewrite Hpk, len_app. unfold RESPONSE_FRAME_MAX_BYTES, FRAME_HEADER_BYTES.
    change (len (to_be_bytes (len payload))) with 4. lia. }
  apply (frame_roundtrip _ _ _ response_max_u32) in He.
  unfold decode_received_response, receive_packet_now. cbn [frame packet_truncated].
  rewrite take_N_all by lia. rewrite (proj2 (N.ltb_ge _ _)) by lia. cbn [orb fail_if rbind].
  rewrite (proj2 (N.ltb_ge _ _)) by lia. cbn [fail_if rbind]. unfold decode_response_frame. rewrite He. cbn [rbind].
  rewrite Hv. cbn [rbind map_err]. unfold validate_execute_response, ensure_run_id. cbn [response].
  destruct answer as [|c|j]; [done| |].
  - by destruct (str_eqb _ _).
  - destruct (rej_run_id j) as [i|]; cbn [is_some_and]; [|done]. by destruct (str_eqb i _).
Qed.

(** ** Witnesses *)

Definition client_sample_execute : ExecuteRequest :=
  mkExecuteRequest (lit "run-1") (lit "message-1") (lit "Inspect.") (lit "/srv/work") None None 600 6000 true.
Definition client_sample_completed : CompletedResponse := mkCompletedResponse (lit "run-1") (lit "done") false.

Definition is_sample (c : CompletedResponse) : bool :=
  str_eqb (comp_run_id c) (lit "run-1") && str_eqb (output c) (lit "done") && negb (truncated c).

Definition sample_request_codec : JsonCodec LauncherRequest := {|
  to_vec r := if bool_decide (r = execute client_sample_execute) then Some (lit "{}") else None;
  from_slice b := Some (execute client_sample_execute)
|}.

Definition sample_response_codec : JsonCodec LauncherResponse := {|
  to_vec r := match r with
              | mkLauncherResponse 1 (Completed c) => if is_sample c then Some (lit "{1}") else None
              | _ => None
              end;
  from_slice b := if bool_decide (b = lit "{1}") then Some (completed client_sample_completed) else None
|}.

Lemma sample_response_round_trip : @JsonRoundTrip LauncherResponse sample_response_codec.
Proof.
  intros [v r] payload. cbn. destruct v as [|[]]; try done. destruct r as [|[i o t]|]; try done.
  destruct (is_sample _) eqn:E; [|done]. intros [= <-]. unfold is_sample in E. cbn in E.
  apply andb_true_iff in E as [[->%str_eqb_eq ->%str_eqb_eq]%andb_true_iff Ht]. destruct t; [done|].
  by rewrite bool_decide_eq_true_2.
Qed.

Definition sample_transport : Transport :=
  mkTransport [TryAgain; InProgress (Some true); InProgress None] [SendBlocked; Sent 6]
    (fun _ => [ReceiveBlocked; Received ([0; 0; 0; 3] ++ lit "{1}") false]).

Definition sample_call : result LauncherClientError CompletedResponse :=
  @client_execute sample_request_codec sample_response_codec fixed_client client_sample_execute sample_transport.

Lemma completed_run_is_answered_witness :
  sample_call = Ok client_sample_completed /\ validate_execute client_sample_execute = Ok tt.
Proof.
  assert (sample_call = Ok client_sample_completed) as Hc by (vm_compute; reflexivity).
  split; [exact Hc|].
  exact (proj1 (@completed_run_is_answered sample_request_codec sample_response_codec _ _ _ _ Hc)).
Defined.

Lemma server_answer_returned_witness : sample_call = Ok client_sample_completed.
Proof.
  refine (@server_answer_returned sample_request_codec sample_response_codec sample_response_round_trip
    client_sample_execute sample_transport ([0; 0; 0; 2] ++ lit "{}") ([0; 0; 0; 3] ++ lit "{1}")
    (Completed client_sample_completed) _ _ _).
  - vm_compute. reflexivity.
  - vm_compute. reflexivity.
  - split; [vm_compute; reflexivity|]. split; vm_compute; reflexivity.
Defined.

(** The time the client waits for an answer to an execute request. *)
Example response_wait : execute_response_timeout 600 LAUNCHER_IO_TIMEOUT = from_secs 1315.
Proof. vm_compute. reflexivity. Qed.
