(* ===== verification/CodexLauncher.v ===== *)
(** * Authorising the launcher's caller

    [src/codex_launcher.rs]: the launcher runs as root behind a socket and serves only the
    main process of the bot's service. Its checks are programs over the system calls it
    makes; a call answers [None] when it fails. *)

From S2P Require Import Prelude Effects Text Paths HostFiles LauncherProtocol.

Local Open Scope N_scope.

(** ** Constants *)

Definition BOT_SERVICE_UNIT : str := lit "webex-generic-account-bot.service".
Definition BOT_EXECUTABLE_PATH : path := lit "/opt/webex-generic-account-bot/bin/webex-generic-account-bot".
Definition LAUNCHER_EXECUTABLE_PATH : path := lit "/opt/webex-generic-account-bot/bin/webex-codex-launcher".
Definition SYSTEMCTL_PATH : path := lit "/usr/bin/systemctl".
Definition CAP_SYS_PTRACE_NUMBER : N := 19.
Definition CAP_SETPCAP_NUMBER : N := 8.

(** ** Data *)

Record PeerCredentials : Type := mkPeerCredentials { pid : N; uid : N; gid : N }.

#[export] Instance PeerCredentials_eq_dec : EqDecision PeerCredentials.
Proof. solve_decision. Defined.

(** Paths are compared by their components. *)
Record ProcessSnapshot : Type := mkProcessSnapshot {
  start_time_ticks : N;
  executable : list Component;
  cgroup : str
}.

#[export] Instance ProcessSnapshot_eq_dec : EqDecision ProcessSnapshot.
Proof. solve_decision. Defined.

Record ExecutableMetadata : Type := mkExecutableMetadata {
  is_file : bool;
  is_symlink : bool;
  em_uid : N;
  em_mode : N
}.

Record LinuxCapabilityData : Type := mkCapabilityData { effective : N; permitted : N; inheritable : N }.

Record DescriptorMetadata : Type := mkDescriptorMetadata { device : N; inode : N; file_type : NodeKind }.

#[export] Instance DescriptorMetadata_eq_dec : EqDecision DescriptorMetadata.
Proof. solve_decision. Defined.

(** What the launcher's execution backend answers. *)
Inductive IsolatedRunResult : Type :=
| RunCompleted (output : str) (truncated : bool)
| RunTimedOut
| RunFailed.

Inductive IsolatedExecutionError : Type :=
| Unavailable (error : str)
| ExecutionFailedError (error : str)
| Cancelled.

(** ** System calls *)

Inductive SocketOption : Type := SO_TYPE | SO_PASSCRED.

(** [SCM_CREDENTIALS] as the kernel fills it; other control messages are [None]. *)
Definition ControlMessage : Type := option (bool * (Z * N * N)).

(** A packet as [recvmsg] delivers it, with the flags [MSG_TRUNC] or [MSG_CTRUNC]. *)
Record Packet : Type := mkPacket { pk_bytes : list N; pk_control : list ControlMessage; pk_truncated : bool }.

(** [recvmsg] with [MSG_PEEK]: nothing to read, an error, or a packet's length with the
    presence of control data and the flag [MSG_CTRUNC]. *)
Inductive Peek : Type :=
| PeekWouldBlock
| PeekError
| Peeked (received : N) (has_control ctrunc : bool).

(** [poll] of the connection: the call's failure, or the bits of the events. *)
Record PollBits : Type := mkPollBits { pollnval : bool; pollhup : bool; pollrdhup : bool; pollerr : bool }.

(** How a run ends that races with the disconnection of the client: it finishes first, or
    the wait for the disconnection ends first, with or without an I/O error, and the
    cancelled run drains within its limit or not. *)
Inductive Race (A : Type) : Type :=
| RunFirst (result : A)
| DisconnectFirst (io_error : bool) (drained : option A).
Arguments RunFirst {A} result.
Arguments DisconnectFirst {A} io_error drained.

Inductive host_call : Type :=
| Geteuid
| ReadLink (p : path)
| ReadFile (p : path)
| SymlinkMetadata (cs : list Component)
| Fstat (fd : N)
| GetSocketOption (fd : N) (option : SocketOption)
| DuplicateSocket (fd : N)
| PeerCred (fd : N)
| PeerPidfd (fd : N)
| ProtectPidfd (pidfd : N)
| PollPidfd (pidfd : N)
| SystemctlMainPid
| Capget
| Capset (data : list LinuxCapabilityData)
| CapBsetRead (capability : N)
| CapBsetDrop (capability : N)
| ReceiveRequest
| PeekSocket
| PollSocket
| RunPreflight
| RunExecute (request : ExecuteRequest)
| SendResponse (frame : list N).

(** [SystemctlMainPid]: whether the command succeeded and its standard output, within its
    time limit. [CapBsetRead]: [Some None] is [EINVAL]. [GetSocketOption], [PeerCred] and
    [PeerPidfd]: with the test that the kernel wrote a value of the expected size.
    [ReceiveRequest] and [SendResponse]: within the time limit. *)
Definition host_answer (c : host_call) : Type :=
  match c with
  | Geteuid => N
  | ReadLink _ => option path
  | ReadFile _ => option (list N)
  | SymlinkMetadata _ => option NodeMetadata
  | Fstat _ => option DescriptorMetadata
  | GetSocketOption _ _ => option (bool * Z)
  | DuplicateSocket _ => bool
  | PeerCred _ => option (bool * (Z * N * N))
  | PeerPidfd _ => option (bool * Z)
  | ProtectPidfd _ => bool
  | PollPidfd _ => option (Z * bool)
  | SystemctlMainPid => option (bool * list N)
  | Capget => option (list LinuxCapabilityData)
  | Capset _ => bool
  | CapBsetRead _ => option (option bool)
  | CapBsetDrop _ => bool
  | ReceiveRequest => option Packet
  | PeekSocket => Peek
  | PollSocket => option PollBits
  | RunPreflight => Race bool
  | RunExecute _ => Race (result IsolatedExecutionError IsolatedRunResult)
  | SendResponse _ => bool
  end.

Abbreviation hprog := (prog host_answer).

(** A program of the host that can fail with a message. *)
Definition fails {A} (message : str) : hprog (result str A) := Ret (Err message).

Definition or_fail {A} (p : hprog (option A)) (message : str) : hprog (result str A) :=
  bind p (fun o => Ret (ok_or o message)).

Definition require (b : bool) (message : str) : hprog (result str unit) := Ret (fail_if (negb b) message).

Definition lift {A} (r : result str A) : hprog (result str A) := Ret r.

(** ** Executables only root can change *)

Definition node_executable_metadata (m : NodeMetadata) : ExecutableMetadata :=
  mkExecutableMetadata (is_kind (nm_kind m) RegularFile) (is_kind (nm_kind m) SymbolicLink) (nm_uid m) (nm_mode m).

Definition executable_metadata (cs : list Component) : hprog (result str ExecutableMetadata) :=
  let*? m := or_fail (perform (SymlinkMetadata cs)) (lit "executable metadata is unavailable") in
  Ret (Ok (node_executable_metadata m)).

Definition metadata_is_trusted (m : ExecutableMetadata) : bool :=
  is_file m && negb (is_symlink m) && (em_uid m =? 0) && (N.land (em_mode m) 18 =? 0)
  && negb (N.land (em_mode m) 73 =? 0).

(** The loop over the directories above an executable. *)
Fixpoint trusted_ancestors (above : list (list Component)) : hprog (result str unit) :=
  match above with
  | [] => Ret (Ok tt)
  | directory :: rest =>
      let*? m := or_fail (perform (SymlinkMetadata directory)) (lit "ancestor metadata is unavailable") in
      if negb (is_kind (nm_kind m) Directory) || is_kind (nm_kind m) SymbolicLink || negb (nm_uid m =? 0)
         || negb (N.land (nm_mode m) 18 =? 0)
      then fails (lit "trusted launcher dependency ancestor is invalid")
      else trusted_ancestors rest
  end.

Definition trusted_root_executable (p : path) : hprog (result str unit) :=
  if negb (is_absolute p) then fails (lit "trusted launcher dependency is invalid")
  else
    let*? m := executable_metadata (components p) in
    if negb (metadata_is_trusted m) then fails (lit "trusted launcher dependency is invalid")
    else trusted_ancestors (ancestors (components p)).

(** ** Parsing what the system reports *)

Definition parse_main_pid (output : list N) : result str N :=
  let? text := ok_or (from_utf8 output) (lit "bot service MainPID is not UTF-8") in
  let value := trim text in
  fail_if (is_empty value || negb (all is_ascii_digit value)) (lit "bot service MainPID is invalid") ;?
  let? pid := ok_or (parse_unsigned u32_max value) (lit "number too large to fit in target type") in
  fail_if (pid <=? 1) (lit "bot service MainPID is not running") ;?
  Ok pid.

Definition parse_proc_start_time (stat : list N) : result str N :=
  let? text := ok_or (from_utf8 stat) (lit "process stat is not UTF-8") in
  let? (_, fields) := ok_or (rfind_str (lit ") ") text) (lit "process stat is invalid") in
  let? start_time := ok_or (split_ascii_whitespace fields !! 19%nat) (lit "process stat has no start time") in
  ok_or (parse_unsigned u64_max start_time) (lit "invalid digit found in string").

Definition bot_service_cgroup : str := lit "/system.slice/" ++ BOT_SERVICE_UNIT.

Definition cgroup_contains_bot_service (cgroup : str) : bool :=
  any (fun line => match split_once (lit "::") line with
                   | Some (hierarchy, p) => str_eqb hierarchy (lit "0") && str_eqb p bot_service_cgroup
                   | None => false
                   end) (lines cgroup).

Definition proc_file (pid : N) (name : str) : path := lit "/proc/" ++ decimal pid ++ lit "/" ++ name.

Definition process_snapshot (pid : N) : hprog (result str ProcessSnapshot) :=
  let*? stat := or_fail (perform (ReadFile (proc_file pid (lit "stat")))) (lit "process stat is unavailable") in
  let*? bytes := or_fail (perform (ReadFile (proc_file pid (lit "cgroup")))) (lit "process cgroup is unavailable") in
  let*? cgroup := lift (ok_or (from_utf8 bytes) (lit "process cgroup is not UTF-8")) in
  let*? exe := or_fail (perform (ReadLink (proc_file pid (lit "exe")))) (lit "process executable is unavailable") in
  let*? start := lift (parse_proc_start_time stat) in
  Ret (Ok (mkProcessSnapshot start (components exe) cgroup)).

Definition bot_main_pid : hprog (result str N) :=
  let*? _ := trusted_root_executable SYSTEMCTL_PATH in
  let*? (success, stdout) := or_fail (perform SystemctlMainPid) (lit "timed out while resolving the bot service MainPID") in
  if negb success || (32 <? len stdout) then fails (lit "failed to resolve the bot service MainPID")
  else lift (parse_main_pid stdout).

(** ** The peer of the connection *)

Definition credentials_of (c : Z * N * N) : PeerCredentials :=
  let '(p, u, g) := c in mkPeerCredentials (Z.to_N p) u g.

Definition socket_peer_credentials (fd : N) : hprog (result str PeerCredentials) :=
  let*? (sized, c) := or_fail (perform (PeerCred fd)) (lit "launcher connection peer credentials are unavailable") in
  if negb sized then fails (lit "launcher connection peer credentials are unavailable")
  else if (c.1.1 <=? 1)%Z then fails (lit "launcher connection peer process is invalid")
  else Ret (Ok (credentials_of c)).

Definition pid_line (line : str) : option str := strip_prefix (lit "Pid:") line.

Definition find_map {A B} (f : A -> option B) (l : list A) : option B := head (omap f l).

Definition pidfd_process_id (pidfd : N) : hprog (result str N) :=
  let*? bytes := or_fail (perform (ReadFile (lit "/proc/self/fdinfo/" ++ decimal pidfd))) (lit "fdinfo is unavailable") in
  let*? fdinfo := lift (ok_or (from_utf8 bytes) (lit "fdinfo is not UTF-8")) in
  let*? line := lift (ok_or (find_map pid_line (lines fdinfo)) (lit "launcher peer pidfd identity is unavailable")) in
  let*? pid := lift (ok_or (parse_i64 (trim line)) (lit "invalid digit found in string")) in
  if (pid <=? 1)%Z || (Z.of_N u32_max <? pid)%Z then fails (lit "launcher peer pidfd identity is invalid")
  else Ret (Ok (Z.to_N pid)).

Definition socket_peer_pidfd (fd expected_pid : N) : hprog (result str N) :=
  let*? (sized, raw) := or_fail (perform (PeerPidfd fd)) (lit "launcher peer pidfd is unavailable") in
  if negb sized || (raw <? 0)%Z then fails (lit "launcher peer pidfd is unavailable")
  else
    let pidfd := Z.to_N raw in
    let* protected := perform (ProtectPidfd pidfd) in
    if negb protected then fails (lit "failed to protect launcher peer pidfd")
    else
      let*? actual := pidfd_process_id pidfd in
      if negb (actual =? expected_pid) then fails (lit "launcher peer pidfd identity does not match")
      else Ret (Ok pidfd).

Definition pidfd_is_alive (pidfd : N) : hprog (result str unit) :=
  let*? (status, revents) := or_fail (perform (PollPidfd pidfd)) (lit "poll failed") in
  if negb (status =? 0)%Z || revents then fails (lit "launcher caller exited during request")
  else Ret (Ok tt).

Record AuthorisedPeer : Type := mkAuthorisedPeer { credentials : PeerCredentials; ap_pidfd : N }.

Definition ensure_alive (peer : AuthorisedPeer) : hprog (result str unit) := pidfd_is_alive (ap_pidfd peer).

(** [.map_err(|_| anyhow!("launcher caller is not authorised"))]. *)
Definition not_authorised : str := lit "launcher caller is not authorised".

Definition or_unauthorised {A} (p : hprog (result str A)) : hprog (result str A) :=
  bind p (fun r => Ret (map_err (fun _ => not_authorised) r)).

Definition authorise_bot_peer_with (peer : PeerCredentials) (pidfd : N) : hprog (result str AuthorisedPeer) :=
  if (pid peer <=? 1) || (uid peer =? 0) then fails not_authorised
  else
    let*? _ := or_unauthorised (pidfd_is_alive pidfd) in
    let*? before := or_unauthorised (process_snapshot (pid peer)) in
    let*? main_pid := or_unauthorised bot_main_pid in
    if negb (main_pid =? pid peer)
       || negb (bool_decide (executable before = components BOT_EXECUTABLE_PATH))
       || negb (cgroup_contains_bot_service (cgroup before))
    then fails not_authorised
    else
      let*? metadata := or_unauthorised
        (let*? _ := trusted_root_executable BOT_EXECUTABLE_PATH in executable_metadata (components BOT_EXECUTABLE_PATH)) in
      if negb (metadata_is_trusted metadata) then fails not_authorised
      else
        let*? after := or_unauthorised (process_snapshot (pid peer)) in
        if negb (bool_decide (before = after)) then fails not_authorised
        else
          let*? _ := or_unauthorised (pidfd_is_alive pidfd) in
          Ret (Ok (mkAuthorisedPeer peer pidfd)).

Definition authorise_bot_peer (socket_fd : N) (peer : PeerCredentials) : hprog (result str AuthorisedPeer) :=
  let*? pidfd := or_unauthorised (socket_peer_pidfd socket_fd (pid peer)) in
  authorise_bot_peer_with peer pidfd.

(** ** Capabilities *)

Definition capability_word (capability : N) : nat := N.to_nat (capability / 32).

(** [1_u32 << (capability % 32)] and its complement. *)
Definition capability_bit (capability : N) : N := N.shiftl 1 (capability mod 32).
Definition u32_not (a : N) : N := N.lxor a u32_max.

Definition clear_set (mask : N) (d : LinuxCapabilityData) : LinuxCapabilityData :=
  mkCapabilityData (N.land (effective d) mask) (N.land (permitted d) mask) (N.land (inheritable d) mask).

Definition clear_capability (data : list LinuxCapabilityData) (capability : N) : list LinuxCapabilityData :=
  alter (clear_set (u32_not (capability_bit capability))) (capability_word capability) data.

Definition allowed_mask (index : nat) (allowed : list N) : N :=
  fold_left (fun mask capability =>
    if (capability_word capability =? index)%nat then N.lor mask (capability_bit capability) else mask) allowed 0.

Definition set_within (mask : N) (d : LinuxCapabilityData) : bool :=
  (N.land (effective d) (u32_not mask) =? 0) && (N.land (permitted d) (u32_not mask) =? 0)
  && (N.land (inheritable d) (u32_not mask) =? 0).

Definition capability_sets_only_allow (data : list LinuxCapabilityData) (allowed : list N) : bool :=
  all (fun p => set_within (allowed_mask p.1 allowed) p.2) (imap (fun i d => (i, d)) data).

Definition capability_is_effective (data : list LinuxCapabilityData) (capability : N) : bool :=
  is_some_and (data !! capability_word capability)
    (fun d => negb (N.land (effective d) (capability_bit capability) =? 0)).

Definition capability_sets_are_empty (data : list LinuxCapabilityData) : bool :=
  all (fun d => (effective d =? 0) && (permitted d =? 0) && (inheritable d =? 0)) data.

(** The loop over [0..64], which ends at the first number the kernel does not know. *)
Fixpoint read_bounding_set (fuel : nat) (capability : N) (capabilities : list N) : hprog (result str (list N)) :=
  match fuel with
  | O => fails (lit "launcher kernel capability range is unsupported")
  | S fuel =>
      let* status := (perform (CapBsetRead capability) : hprog (option (option bool))) in
      match status with
      | None => fails (lit "failed to read launcher capability bounding set")
      | Some None => Ret (Ok capabilities)
      | Some (Some present) =>
          read_bounding_set fuel (capability + 1) (if present then capabilities ++ [capability] else capabilities)
      end
  end.

Definition capability_bounding_set : hprog (result str (list N)) := read_bounding_set 64 0 [].

Definition drop_bounding_capability (capability : N) : hprog (result str unit) :=
  let* dropped := perform (CapBsetDrop capability) in
  if negb dropped then fails (lit "failed to clear launcher capability bounding set") else Ret (Ok tt).

Definition inspection_capabilities : list N := [CAP_SYS_PTRACE_NUMBER; CAP_SETPCAP_NUMBER].

(** The loop that drops both capabilities and clears them in [data]. *)
Fixpoint drop_each (capabilities bounding : list N) (data : list LinuxCapabilityData)
  : hprog (result str (list LinuxCapabilityData)) :=
  match capabilities with
  | [] => Ret (Ok data)
  | capability :: rest =>
      let*? _ := if any (N.eqb capability) bounding then drop_bounding_capability capability else Ret (Ok tt) in
      drop_each rest bounding (clear_capability data capability)
  end.

(** The capabilities are read back and must be gone. *)
Definition confirm_dropped : hprog (result str unit) :=
  let*? verify := or_fail (perform Capget) (lit "failed to verify launcher capabilities") in
  if negb (capability_sets_are_empty verify) then fails (lit "launcher capability set remained populated after drop")
  else
    let*? bounding := capability_bounding_set in
    if negb (is_empty bounding) then fails (lit "launcher capability bounding set remained populated after drop")
    else Ret (Ok tt).

Definition set_capabilities (data : list LinuxCapabilityData) : hprog (result str unit) :=
  let* set := (perform (Capset data) : hprog bool) in
  if set then Ret (Ok tt) else fails (lit "failed to drop launcher peer-inspection capability").

Definition drop_peer_inspection_capability : hprog (result str unit) :=
  let*? data := or_fail (perform Capget) (lit "failed to read launcher capabilities") in
  let allowed := inspection_capabilities in
  if negb (capability_sets_only_allow data allowed) then fails (lit "launcher has an unexpected capability")
  else
    let*? bounding := capability_bounding_set in
    if any (fun capability => negb (any (N.eqb capability) allowed)) bounding
    then fails (lit "launcher capability bounding set contains an unexpected capability")
    else if negb (is_empty bounding) && negb (capability_is_effective data CAP_SETPCAP_NUMBER)
    then fails (lit "launcher cannot clear its capability bounding set")
    else
      let*? cleared := drop_each inspection_capabilities bounding data in
      let*? _ := set_capabilities cleared in
      confirm_dropped.

(** ** The launcher's own process and socket *)

Definition validate_launcher_process : hprog (result str unit) :=
  let* euid := perform Geteuid in
  if negb (euid =? 0) then fails (lit "Codex launcher must run as root")
  else
    let*? exe := or_fail (perform (ReadLink (lit "/proc/self/exe"))) (lit "executable is unavailable") in
    if negb (bool_decide (components exe = components LAUNCHER_EXECUTABLE_PATH))
    then fails (lit "Codex launcher executable path is invalid")
    else trusted_root_executable LAUNCHER_EXECUTABLE_PATH.

Definition descriptor_metadata (fd : N) : hprog (result str DescriptorMetadata) :=
  or_fail (perform (Fstat fd)) (lit "fstat failed").

Definition socket_option (fd : N) (name : SocketOption) : hprog (result str Z) :=
  let*? (sized, value) := or_fail (perform (GetSocketOption fd name)) (lit "failed to inspect launcher socket") in
  if negb sized then fails (lit "launcher socket option is invalid") else Ret (Ok value).

Definition SOCK_SEQPACKET : Z := 5.

Definition invalid_stdio : str :=
  lit "Codex launcher stdin and stdout must be the same credentialled sequential-packet socket".

(** The operands of [||] are evaluated from left to right and only while they are false. *)
Definition validate_socket_stdio (stdin_fd stdout_fd : N) : hprog (result str unit) :=
  let*? stdin := descriptor_metadata stdin_fd in
  let*? stdout := descriptor_metadata stdout_fd in
  if negb (bool_decide (stdin = stdout)) || negb (is_kind (file_type stdin) Socket) then fails invalid_stdio
  else
    let*? kind := socket_option stdin_fd SO_TYPE in
    if negb (kind =? SOCK_SEQPACKET)%Z then fails invalid_stdio
    else
      let*? credentialled := socket_option stdin_fd SO_PASSCRED in
      if negb (credentialled =? 1)%Z then fails invalid_stdio else Ret (Ok tt).
