(* ===== verification/CodexLauncherRules.v ===== *)
(** * What the launcher's checks establish

    Who the authorised peer is, by the kernel's promises about process identifiers and
    descriptors; what dropping the capabilities leaves; that a process cannot disguise its
    start time. *)

From S2P Require Import Prelude Effects Text Paths HostFiles LauncherProtocol CodexLauncher.

Local Open Scope N_scope.

(** ** Start times *)

Lemma rfind_none p (s : str) : p <> [] -> contains p s = false -> rfind_str p s = None.
Proof.
  intros Hp. induction s as [|c s IH]; intros Hc; cbn [rfind_str].
  - by destruct p.
  - rewrite IH.
    + destruct (strip_prefix p (c :: s)) as [r|] eqn:E; [|done]. apply strip_prefix_spec in E.
      rewrite (proj2 (contains_spec p (c :: s))) in Hc; [done|]. exists [], r. exact E.
    + destruct (contains p s) eqn:E; [|done]. pose proof (contains_app_r p [c] s E) as Hx. cbn [app] in Hx. congruence.
Qed.

(** The last occurrence of a text of two characters. *)
Lemma rfind_last (x y : char) (a b : str) :
  x <> y -> contains [x; y] b = false -> rfind_str [x; y] (a ++ [x; y] ++ b) = Some (a, b).
Proof.
  intros Hxy Hb. induction a as [|c a IH]; cbn [app rfind_str].
  - assert (contains [x; y] (y :: b) = false) as Hyb.
    { apply not_true_iff_false. intros ([|z a'] & r & Hs)%contains_spec; cbn in Hs; [congruence|].
      injection Hs as _ Hs. apply not_true_iff_false in Hb. apply Hb, contains_spec. by exists a', r. }
    pose proof (rfind_none [x; y] (y :: b) ltac:(done) Hyb) as Hn. cbn [rfind_str] in Hn. rewrite Hn.
    cbn [strip_prefix]. by rewrite !N.eqb_refl.
  - cbn [app] in IH. by rewrite IH.
Qed.

(** A word of the fields after the command: no white space, no closing parenthesis. *)
Definition stat_word (w : str) : Prop :=
  w <> [] /\ Forall (fun c => is_ascii_whitespace c = false) w /\ (ch ")" ∉ w).

Definition stat_line (before comm : str) (fields : list str) : str :=
  before ++ lit "(" ++ comm ++ lit ") " ++ join (lit " ") fields ++ [10].

(** A process cannot disguise its start time: whatever it calls itself, parentheses and
    spaces included, the start time read from its line is the twentieth field after the
    command, as the kernel wrote it. *)
Theorem start_time_genuine before comm fields start :
  Forall (fun c => is_scalar c = true) (stat_line before comm fields) -> Forall stat_word fields ->
  fields !! 19%nat = Some (decimal start) -> start <= u64_max ->
  parse_proc_start_time (as_bytes (stat_line before comm fields)) = Ok start.
Proof.
  intros Hs Hw Hf Hm. unfold parse_proc_start_time. rewrite from_utf8_as_bytes by done. cbn [ok_or rbind].
  assert (stat_line before comm fields = (before ++ lit "(" ++ comm) ++ lit ") " ++ (join (lit " ") fields ++ [10])) as ->.
  { unfold stat_line. by rewrite <-!app_assoc. }
  change (lit ") ") with [ch ")"; 32]. rewrite rfind_last; [|done|].
  - cbn [ok_or rbind]. rewrite split_ascii_whitespace_line.
    + rewrite Hf. cbn [ok_or rbind]. unfold parse_unsigned.
      destruct (strip_prefix (lit "+") (decimal start)) as [r|] eqn:E; cbn [default].
      * apply strip_prefix_spec in E. pose proof (decimal_all_digits start) as Hd. rewrite E in Hd. done.
      * unfold default. by rewrite unsigned_text_decimal.
    + intros ->. done.
    + eapply Forall_impl; [exact Hw|]. intros w (H1 & H2 & _). done.
  - apply contains_absent. rewrite elem_of_app. intros [Hi|Hi].
    + revert Hi. apply join_not_in; [by intros [|?%not_elem_of_nil]%elem_of_cons|].
      eapply Forall_impl; [exact Hw|]. by intros w (_ & _ & H3).
    + by apply elem_of_cons in Hi as [|?%not_elem_of_nil].
Qed.

Definition sample_fields : list str :=
  [lit "S"; lit "1"] ++ replicate 17 (lit "0") ++ [decimal 4242; lit "0"].

Lemma start_time_genuine_witness :
  parse_proc_start_time (as_bytes (stat_line (lit "77 ") (lit "bot) S 1 0 0 0 0 0 0 0 0 0 0 0 0 0 0 0 0 0 9 (x") sample_fields)) = Ok 4242.
Proof.
  apply (start_time_genuine (lit "77 ") (lit "bot) S 1 0 0 0 0 0 0 0 0 0 0 0 0 0 0 0 0 0 9 (x") sample_fields).
  - apply all_true. vm_compute. reflexivity.
  - repeat constructor; try discriminate; intros Hc; repeat (apply elem_of_cons in Hc as [Hc|Hc]; [discriminate Hc|]);
      exact (not_elem_of_nil _ Hc).
  - reflexivity.
  - vm_compute. discriminate.
Defined.

(** ** Capabilities

    Linux's capability calls as a machine: [capget], [capset] and the two [prctl] calls on
    the bounding set. Other calls answer anything and leave it alone. *)

Record CapState : Type := mkCapState {
  cap_data : list LinuxCapabilityData;
  cap_bounding : gset N;
  last_capability : N
}.

(** A set contains capability [n]. *)
Definition holds (set : LinuxCapabilityData -> N) (s : CapState) (n : N) : bool :=
  is_some_and (cap_data s !! capability_word n) (fun d => N.testbit (set d) (n mod 32)).

(** The kernel's rule for [capset], one word of each set at a time. *)
Definition capset_permits (old new : LinuxCapabilityData) : bool :=
  (N.land (permitted new) (u32_not (permitted old)) =? 0)
  && (N.land (effective new) (u32_not (permitted new)) =? 0)
  && (N.land (inheritable new) (u32_not (N.lor (inheritable old) (permitted old))) =? 0).

Definition capset_allowed (s : CapState) (new : list LinuxCapabilityData) : bool :=
  (length new =? length (cap_data s))%nat && all (fun p => capset_permits p.1 p.2) (zip (cap_data s) new).

Definition capability_machine (other : forall c, host_answer c) (c : host_call) (s : CapState)
  : CapState * host_answer c :=
  match c return CapState * host_answer c with
  | Capget => (s, Some (cap_data s))
  | Capset new =>
      if capset_allowed s new then (mkCapState new (cap_bounding s) (last_capability s), true) else (s, false)
  | CapBsetRead n =>
      (s, Some (if n <=? last_capability s then Some (bool_decide (n ∈ cap_bounding s)) else None))
  | CapBsetDrop n =>
      if holds effective s CAP_SETPCAP_NUMBER && (n <=? last_capability s)
      then (mkCapState (cap_data s) (cap_bounding s ∖ {[n]}) (last_capability s), true)
      else (s, false)
  | c => (s, other c)
  end.

(** Two words of 32 bits, a kernel that knows fewer than 63 capabilities. *)
Definition capability_state (s : CapState) : Prop :=
  (exists d0 d1, cap_data s = [d0; d1]
    /\ Forall (fun d => effective d < 2 ^ 32 /\ permitted d < 2 ^ 32 /\ inheritable d < 2 ^ 32) [d0; d1])
  /\ CAP_SYS_PTRACE_NUMBER <= last_capability s < 63 /\ (forall n, n ∈ cap_bounding s -> n <= last_capability s).

(** Nothing beyond the two capabilities that inspecting the peer takes. *)
Definition only_inspection (s : CapState) : Prop :=
  (forall n, n < 64 -> holds effective s n || holds permitted s n || holds inheritable s n = true -> n ∈ inspection_capabilities)
  /\ (forall n, n ∈ cap_bounding s -> n ∈ inspection_capabilities)
  /\ (cap_bounding s = ∅ \/ holds effective s CAP_SETPCAP_NUMBER = true).

Definition powerless (s : CapState) : Prop :=
  (forall n, holds effective s n || holds permitted s n || holds inheritable s n = false) /\ cap_bounding s = ∅.

Lemma u32_not_bits a n : a < 2 ^ 32 -> N.testbit (u32_not a) n = (n <? 32) && negb (N.testbit a n).
Proof.
  intros Ha. unfold u32_not. change u32_max with (N.ones 32). rewrite N.lxor_spec.
  destruct (N.ltb_spec n 32).
  - rewrite N.ones_spec_low by done. by destruct (N.testbit a n).
  - rewrite N.ones_spec_high, xorb_false_r by done. cbn [andb].
    destruct (N.eq_dec a 0) as [->|Hz]; [apply N.bits_0|]. apply N.bits_above_log2.
    eapply N.lt_le_trans; [|exact H]. apply N.log2_lt_pow2; lia.
Qed.

Lemma high_bit a n : a < 2 ^ 32 -> 32 <= n -> N.testbit a n = false.
Proof.
  intros Ha Hn. destruct (N.eq_dec a 0) as [->|Hz]; [apply N.bits_0|]. apply N.bits_above_log2.
  eapply N.lt_le_trans; [|exact Hn]. apply N.log2_lt_pow2; lia.
Qed.

(** [a & !mask == 0] says that [mask] has every bit of [a]. *)
Lemma within_bits a mask : a < 2 ^ 32 -> mask < 2 ^ 32 ->
  N.land a (u32_not mask) = 0 <-> forall n, n < 32 -> N.testbit a n = true -> N.testbit mask n = true.
Proof.
  intros Ha Hm. split.
  - intros H n Hn Hb. assert (N.testbit (N.land a (u32_not mask)) n = false) as Hz by (rewrite H; apply N.bits_0).
    rewrite N.land_spec, u32_not_bits, Hb in Hz by done. destruct (N.testbit mask n); [done|].
    by rewrite (proj2 (N.ltb_lt n 32) Hn) in Hz.
  - intros H. apply N.bits_inj. intros n. rewrite N.bits_0, N.land_spec, u32_not_bits by done.
    destruct (N.ltb_spec n 32); [|by rewrite andb_false_r]. destruct (N.testbit a n) eqn:E; [|done].
    by rewrite (H n).
Qed.

Lemma inspection_mask n : N.testbit 524544 n = true <-> n = CAP_SYS_PTRACE_NUMBER \/ n = CAP_SETPCAP_NUMBER.
Proof.
  change 524544 with (N.lor (2 ^ 19) (2 ^ 8)). rewrite N.lor_spec, !N.pow2_bits_eqb, orb_true_iff, !N.eqb_eq.
  unfold CAP_SYS_PTRACE_NUMBER, CAP_SETPCAP_NUMBER. intuition lia.
Qed.

(** Clearing both capabilities leaves nothing of a set that has no others. *)
Lemma cleared_word a : a < 2 ^ 32 -> N.land a (u32_not 524544) = 0 ->
  N.land (N.land a (u32_not (capability_bit CAP_SYS_PTRACE_NUMBER))) (u32_not (capability_bit CAP_SETPCAP_NUMBER)) = 0.
Proof.
  intros Ha Hw. apply N.bits_inj. intros n. rewrite N.bits_0, !N.land_spec.
  destruct (N.testbit a n) eqn:E; [|done]. destruct (N.ltb_spec n 32) as [Hn|Hn]; [|by rewrite high_bit in E].
  rewrite within_bits in Hw by done. specialize (Hw n Hn E). by apply inspection_mask in Hw as [->| ->].
Qed.

(** The walk over the bounding set. *)
Lemma read_bounding_set_interp other s fuel c acc :
  c <= last_capability s + 1 -> last_capability s + 1 - c < N.of_nat fuel ->
  exists l, interp (capability_machine other) s (read_bounding_set fuel c acc) = (s, Ok (acc ++ l))
    /\ forall n, n ∈ l <-> (n ∈ cap_bounding s) /\ c <= n <= last_capability s.
Proof.
  revert c acc. induction fuel as [|fuel IH]; intros c acc Hc Hf; [lia|]. cbn [read_bounding_set].
  rewrite interp_bind. cbn [perform interp capability_machine fst snd].
  destruct (N.leb_spec c (last_capability s)) as [Hl|Hl].
  - destruct (IH (c + 1) (if bool_decide (c ∈ cap_bounding s) then acc ++ [c] else acc)) as (l & -> & Hin); [lia..|].
    destruct (bool_decide_reflect (c ∈ cap_bounding s)) as [Hb|Hb].
    + exists (c :: l). split; [by rewrite <-app_assoc|]. intros n. rewrite elem_of_cons, Hin. split.
      * intros [->|?]; [split; [done|lia]|]. split; [tauto|lia].
      * intros [? ?]. destruct (N.eq_dec n c); [by left|right]. split; [done|lia].
    + exists l. split; [done|]. intros n. rewrite Hin. split; [intros [? ?]; split; [done|lia]|].
      intros [Hn ?]. split; [done|]. destruct (N.eq_dec n c); [congruence|lia].
  - exists []. rewrite app_nil_r. split; [done|]. intros n. split; [by intros ?%not_elem_of_nil|]. lia.
Qed.

Lemma bounding_set_interp other s : capability_state s ->
  exists l, interp (capability_machine other) s capability_bounding_set = (s, Ok l)
    /\ forall n, n ∈ l <-> n ∈ cap_bounding s.
Proof.
  intros (_ & Hl & Hb). destruct (read_bounding_set_interp other s 64 0 []) as (l & Hi & Hin); [lia..|].
  exists l. split; [exact Hi|]. intros n. rewrite Hin. split; [by intros []|]. intros Hn. split; [done|].
  split; [lia|by apply Hb].
Qed.

Lemma drop_bounding_interp other s n :
  holds effective s CAP_SETPCAP_NUMBER = true -> n <= last_capability s ->
  interp (capability_machine other) s (drop_bounding_capability n)
  = (mkCapState (cap_data s) (cap_bounding s ∖ {[n]}) (last_capability s), Ok tt).
Proof.
  intros He Hn. unfold drop_bounding_capability. rewrite interp_bind. cbn [perform interp capability_machine fst snd].
  by rewrite He, (proj2 (N.leb_le _ _) Hn).
Qed.

Lemma elem_of_inspection n : n ∈ inspection_capabilities <-> n = CAP_SYS_PTRACE_NUMBER \/ n = CAP_SETPCAP_NUMBER.
Proof. unfold inspection_capabilities. rewrite !elem_of_cons. split; [intros [?|[?|?%not_elem_of_nil]]; auto; done|]. tauto. Qed.

Lemma holds_low set s d0 d1 n : cap_data s = [d0; d1] -> n < 32 -> holds set s n = N.testbit (set d0) n.
Proof.
  intros Hd Hn. unfold holds, capability_word. rewrite Hd. replace (n / 32) with 0 by (symmetry; by apply N.div_small).
  cbn. by rewrite N.mod_small.
Qed.

Lemma holds_high set s d0 d1 n : cap_data s = [d0; d1] -> n < 32 -> holds set s (n + 32) = N.testbit (set d1) n.
Proof.
  intros Hd Hn. unfold holds, capability_word. rewrite Hd.
  replace ((n + 32) / 32) with 1 by (apply (N.div_unique _ _ _ n); lia).
  replace ((n + 32) mod 32) with n by (apply (N.mod_unique _ _ 1); lia). done.
Qed.

Lemma holds_bound set s d0 d1 n : cap_data s = [d0; d1] -> 64 <= n -> holds set s n = false.
Proof.
  intros Hd Hn. unfold holds, capability_word. rewrite Hd. assert (2 <= n / 32) by (apply N.div_le_lower_bound; lia).
  destruct (N.to_nat (n / 32)) as [|[|k]] eqn:E; [lia..|]. done.
Qed.

Lemma set_within_spec mask d :
  mask < 2 ^ 32 -> effective d < 2 ^ 32 /\ permitted d < 2 ^ 32 /\ inheritable d < 2 ^ 32 ->
  set_within mask d = true <->
  forall n, n < 32 -> N.testbit (effective d) n || N.testbit (permitted d) n || N.testbit (inheritable d) n = true ->
            N.testbit mask n = true.
Proof.
  intros Hm (He & Hp & Hi). unfold set_within. rewrite !andb_true_iff, !N.eqb_eq, !within_bits by done. split.
  - intros [[H1 H2] H3] n Hn. rewrite !orb_true_iff. intros [[?|?]|?]; auto.
  - intros H. split_and!; intros n Hn Hb; apply H; try done; by rewrite Hb, ?orb_true_r.
Qed.

Lemma only_allow_spec s d0 d1 : cap_data s = [d0; d1] ->
  Forall (fun d => effective d < 2 ^ 32 /\ permitted d < 2 ^ 32 /\ inheritable d < 2 ^ 32) [d0; d1] ->
  capability_sets_only_allow (cap_data s) inspection_capabilities = true <->
  forall n, n < 64 -> holds effective s n || holds permitted s n || holds inheritable s n = true -> n ∈ inspection_capabilities.
Proof.
  intros Hd [H0 [H1 _]%Forall_cons]%Forall_cons. rewrite Hd.
  change (capability_sets_only_allow [d0; d1] inspection_capabilities) with (set_within 524544 d0 && (set_within 0 d1 && true)).
  rewrite andb_true_r, andb_true_iff, !set_within_spec by done. split.
  - intros [Hl Hh] n Hn Hb. destruct (N.ltb_spec n 32) as [Hs|Hs].
    + rewrite !(holds_low _ s d0 d1) in Hb by done. apply elem_of_inspection, inspection_mask. auto.
    + replace n with (n - 32 + 32) in Hb by lia. rewrite !(holds_high _ s d0 d1) in Hb by (done || lia).
      apply Hh in Hb; [|lia]. by rewrite N.bits_0 in Hb.
  - intros H. split; intros n Hn Hb.
    + apply inspection_mask, elem_of_inspection, H; [lia|]. by rewrite !(holds_low _ s d0 d1).
    + assert (n + 32 ∈ inspection_capabilities) as Hx by (apply H; [lia|]; by rewrite !(holds_high _ s d0 d1)).
      apply elem_of_inspection in Hx. unfold CAP_SYS_PTRACE_NUMBER, CAP_SETPCAP_NUMBER in Hx. lia.
Qed.

Lemma effective_spec s d0 d1 : cap_data s = [d0; d1] ->
  capability_is_effective (cap_data s) CAP_SETPCAP_NUMBER = holds effective s CAP_SETPCAP_NUMBER.
Proof.
  intros Hd. rewrite (holds_low _ s d0 d1) by done. unfold capability_is_effective. rewrite Hd. cbn [lookup list_lookup is_some_and].
  change (capability_word CAP_SETPCAP_NUMBER) with 0%nat. cbn [lookup list_lookup is_some_and].
  change (capability_bit CAP_SETPCAP_NUMBER) with (2 ^ CAP_SETPCAP_NUMBER).
  destruct (N.testbit (effective d0) CAP_SETPCAP_NUMBER) eqn:E.
  - apply negb_true_iff, N.eqb_neq. intros Hz.
    assert (N.testbit (N.land (effective d0) (2 ^ CAP_SETPCAP_NUMBER)) CAP_SETPCAP_NUMBER = false) as Hb by (rewrite Hz; apply N.bits_0).
    by rewrite N.land_spec, E, N.pow2_bits_true in Hb.
  - apply negb_false_iff, N.eqb_eq, N.bits_inj. intros n. rewrite N.bits_0, N.land_spec, N.pow2_bits_eqb.
    destruct (N.eqb_spec CAP_SETPCAP_NUMBER n) as [<-|]; [by rewrite E|apply andb_false_r].
Qed.

Definition no_capabilities : LinuxCapabilityData := mkCapabilityData 0 0 0.

(** What is written once both capabilities are cleared. *)
Lemma cleared_data d0 d1 :
  Forall (fun d => effective d < 2 ^ 32 /\ permitted d < 2 ^ 32 /\ inheritable d < 2 ^ 32) [d0; d1] ->
  capability_sets_only_allow [d0; d1] inspection_capabilities = true ->
  clear_capability (clear_capability [d0; d1] CAP_SYS_PTRACE_NUMBER) CAP_SETPCAP_NUMBER = [no_capabilities; no_capabilities].
Proof.
  intros [(He0 & Hp0 & Hi0) [(He1 & Hp1 & Hi1) _]%Forall_cons]%Forall_cons.
  change (capability_sets_only_allow [d0; d1] inspection_capabilities) with (set_within 524544 d0 && (set_within 0 d1 && true)).
  unfold set_within. rewrite !andb_true_iff, !N.eqb_eq. intros [[[E0 P0] I0] [[[E1 P1] I1] _]].
  unfold clear_capability. change (capability_word CAP_SYS_PTRACE_NUMBER) with 0%nat.
  change (capability_word CAP_SETPCAP_NUMBER) with 0%nat.
  assert (forall f (a b : LinuxCapabilityData), alter f 0%nat [a; b] = [f a; b]) as Halter by done.
  rewrite !Halter. unfold clear_set. cbn [effective permitted inheritable].
  rewrite !cleared_word by done. f_equal.
  assert (forall a, a < 2 ^ 32 -> N.land a (u32_not 0) = 0 -> a = 0) as Hz.
  { intros a Ha H. apply N.bits_inj. intros n. rewrite N.bits_0. destruct (N.testbit a n) eqn:E; [|done].
    destruct (N.ltb_spec n 32) as [Hn|Hn]; [|by rewrite high_bit in E].
    rewrite within_bits in H by done. specialize (H n Hn E). by rewrite N.bits_0 in H. }
  destruct d1 as [e1 p1 i1]; cbn in *. by rewrite (Hz e1), (Hz p1), (Hz i1).
Qed.

Lemma any_eqb n l : any (N.eqb n) l = true <-> n ∈ l.
Proof. rewrite any_true. split; [by intros (x & Hx & ->%N.eqb_eq)|]. intros Hn. exists n. by rewrite N.eqb_refl. Qed.

Lemma zero_words_permitted s d0 d1 : cap_data s = [d0; d1] -> capset_allowed s [no_capabilities; no_capabilities] = true.
Proof. intros Hd. unfold capset_allowed. by rewrite Hd. Qed.

Lemma zero_words_powerless s : cap_data s = [no_capabilities; no_capabilities] -> forall n,
  holds effective s n || holds permitted s n || holds inheritable s n = false.
Proof.
  intros Hd n. unfold holds. rewrite Hd. destruct (capability_word n) as [|[|k]]; cbn [lookup list_lookup is_some_and no_capabilities effective permitted inheritable].
  all: by rewrite ?N.bits_0.
Qed.

(** The loop over both capabilities empties the bounding set. *)
Lemma drop_each_interp other s bounding :
  capability_state s -> (forall n, n ∈ bounding <-> n ∈ cap_bounding s) ->
  (forall n, n ∈ cap_bounding s -> n ∈ inspection_capabilities) ->
  cap_bounding s = ∅ \/ holds effective s CAP_SETPCAP_NUMBER = true ->
  interp (capability_machine other) s (drop_each inspection_capabilities bounding (cap_data s))
  = (mkCapState (cap_data s) ∅ (last_capability s),
     Ok (clear_capability (clear_capability (cap_data s) CAP_SYS_PTRACE_NUMBER) CAP_SETPCAP_NUMBER)).
Proof.
  intros (_ & Hl & _) Hb Ho He. unfold inspection_capabilities. cbn [drop_each]. rewrite interp_bind_ok.
  set (one := fun (s : CapState) n => if any (N.eqb n) bounding
     then mkCapState (cap_data s) (cap_bounding s ∖ {[n]}) (last_capability s) else s).
  assert (forall t n, n ∈ inspection_capabilities -> last_capability t = last_capability s ->
    (any (N.eqb n) bounding = true -> holds effective t CAP_SETPCAP_NUMBER = true) ->
    interp (capability_machine other) t (if any (N.eqb n) bounding then drop_bounding_capability n else Ret (Ok tt))
    = (one t n, Ok tt)) as Hone.
  { intros t n Hn Ht Hh. unfold one. destruct (any (N.eqb n) bounding) eqn:E; [|done].
    apply drop_bounding_interp; [by apply Hh|]. rewrite Ht. apply elem_of_inspection in Hn.
    unfold CAP_SYS_PTRACE_NUMBER, CAP_SETPCAP_NUMBER in *. lia. }
  assert (forall n, any (N.eqb n) bounding = true -> holds effective s CAP_SETPCAP_NUMBER = true) as Heff.
  { intros n Hn%any_eqb%Hb. destruct He as [Hz|He]; [|done]. rewrite Hz in Hn. by apply not_elem_of_empty in Hn. }
  rewrite Hone; [|by apply elem_of_inspection; left|done|apply Heff]. cbn [drop_each]. rewrite interp_bind_ok.
  rewrite Hone; [| |by unfold one; destruct (any _ _)|].
  - cbn [interp]. f_equal. unfold one.
    assert (forall n, any (N.eqb n) bounding = bool_decide (n ∈ cap_bounding s)) as Hd.
    { intros n. apply eq_bool_prop_intro. rewrite !Is_true_true, any_eqb, Hb. by rewrite bool_decide_eq_true. }
    assert (cap_bounding s ∖ {[CAP_SYS_PTRACE_NUMBER]} ∖ {[CAP_SETPCAP_NUMBER]} = ∅) as Hempty.
    { apply set_eq. intros n. rewrite elem_of_empty, !elem_of_difference, !elem_of_singleton. split; [|done].
      intros [[Hn ?] ?]. apply Ho, elem_of_inspection in Hn. tauto. }
    rewrite !Hd. destruct s as [d b l]; cbn [cap_data cap_bounding last_capability] in *.
    destruct (bool_decide_reflect (CAP_SYS_PTRACE_NUMBER ∈ b)), (bool_decide_reflect (CAP_SETPCAP_NUMBER ∈ b));
      cbn [cap_data cap_bounding last_capability]; f_equal; rewrite <-Hempty; set_solver.
  - apply elem_of_inspection. by right.
  - intros Hn. unfold one. destruct (any (N.eqb CAP_SYS_PTRACE_NUMBER) bounding); [|by apply (Heff _ Hn)].
    unfold holds. cbn [cap_data]. by apply (Heff _ Hn).
Qed.

Lemma capget_interp other s m : interp (capability_machine other) s (or_fail (perform Capget) m) = (s, Ok (cap_data s)).
Proof. done. Qed.

Lemma set_capabilities_interp other s data : capset_allowed s data = true ->
  interp (capability_machine other) s (set_capabilities data)
  = (mkCapState data (cap_bounding s) (last_capability s), Ok tt).
Proof.
  intros Ha. unfold set_capabilities. rewrite interp_bind. cbn [perform interp capability_machine fst snd].
  by rewrite Ha.
Qed.

Lemma confirm_dropped_interp other s :
  capability_state s -> cap_data s = [no_capabilities; no_capabilities] -> cap_bounding s = ∅ ->
  interp (capability_machine other) s confirm_dropped = (s, Ok tt).
Proof.
  intros Hs Hd Hb. unfold confirm_dropped. rewrite interp_bind_ok, capget_interp. cbv beta iota. rewrite Hd.
  change (negb (capability_sets_are_empty [no_capabilities; no_capabilities])) with false. cbv iota.
  rewrite interp_bind_ok. destruct (bounding_set_interp other s Hs) as (l & -> & Hin). cbv beta iota.
  destruct l as [|n l]; [done|]. assert (n ∈ cap_bounding s) as Hn by (apply Hin; by left).
  rewrite Hb in Hn. by apply not_elem_of_empty in Hn.
Qed.

(** The launcher gives up every capability before it reads a request, or stops. From any
    state of the kernel the drop succeeds exactly when the process holds nothing beyond the
    two capabilities that inspecting the peer takes and can empty its bounding set; then no
    set contains anything any more. When it fails, nothing has changed. *)
Theorem capabilities_dropped other s : capability_state s ->
  let '(s', r) := interp (capability_machine other) s drop_peer_inspection_capability in
  (r = Ok tt <-> only_inspection s) /\ (r = Ok tt -> powerless s') /\ (r <> Ok tt -> s' = s).
Proof.
  intros Hs. pose proof Hs as ((d0 & d1 & Hd & Hw) & Hl & Hb). unfold drop_peer_inspection_capability.
  rewrite interp_bind_ok, capget_interp. cbv beta iota zeta. pose proof (only_allow_spec s d0 d1 Hd Hw) as Hallow.
  destruct (capability_sets_only_allow (cap_data s) inspection_capabilities) eqn:Ea; cbn [negb].
  2:{ cbn [interp fails]. split_and!; [|done..]. split; [done|]. intros (Ho & _). by apply Hallow in Ho. }
  rewrite interp_bind_ok. destruct (bounding_set_interp other s Hs) as (l & -> & Hin). cbv beta iota.
  destruct (any (fun capability => negb (any (N.eqb capability) inspection_capabilities)) l) eqn:Eb.
  { cbn [interp fails]. split_and!; [|done..]. split; [done|]. intros (_ & Ho & _).
    apply any_true in Eb as (n & Hn%Hin%Ho & Hx%negb_true_iff). by apply any_eqb in Hn; rewrite Hn in Hx. }
  assert (forall n, n ∈ cap_bounding s -> n ∈ inspection_capabilities) as Ho.
  { intros n Hn%Hin. rewrite any_false in Eb. apply Eb, negb_false_iff, any_eqb in Hn. done. }
  rewrite (effective_spec s d0 d1 Hd).
  destruct (negb (is_empty l) && negb (holds effective s CAP_SETPCAP_NUMBER)) eqn:Ec.
  { cbn [interp fails]. split_and!; [|done..]. split; [done|]. intros (_ & _ & He).
    apply andb_true_iff in Ec as [Hne%negb_true_iff%is_empty_false Hh%negb_true_iff].
    destruct He as [He|He]; [|congruence]. destruct l as [|n l]; [done|].
    assert (n ∈ cap_bounding s) as Hn by (apply Hin; by left). rewrite He in Hn. by apply not_elem_of_empty in Hn. }
  assert (cap_bounding s = ∅ \/ holds effective s CAP_SETPCAP_NUMBER = true) as He.
  { apply andb_false_iff in Ec as [Hne%negb_false_iff%is_empty_true|Hh%negb_false_iff]; [left|by right].
    apply set_eq. intros n. rewrite <-Hin, Hne. split; [by intros ?%not_elem_of_nil|by intros ?%not_elem_of_empty]. }
  rewrite interp_bind_ok, (drop_each_interp other s l Hs Hin Ho He). cbv beta iota.
  rewrite Hd in Ea |- *. rewrite (cleared_data d0 d1 Hw Ea), interp_bind_ok.
  rewrite set_capabilities_interp by (by apply (zero_words_permitted _ d0 d1)). cbv beta iota.
  rewrite confirm_dropped_interp; [..|done|done].
  - split_and!; [split; [|done]|..|done].
    + intros _. split; [|by split]. apply Hallow. by rewrite ?Hd.
    + intros _. split; [|done]. by apply zero_words_powerless.
  - split; [|split; [exact Hl|by intros n ?%not_elem_of_empty]].
    exists no_capabilities, no_capabilities. split; [done|]. by repeat constructor.
Qed.

(** Calls that fail. *)
Definition failing (c : host_call) : host_answer c :=
  match c return host_answer c with
  | Geteuid => 1
  | DuplicateSocket _ | ProtectPidfd _ | Capset _ | CapBsetDrop _ | SendResponse _ => false
  | PeekSocket => PeekError
  | RunPreflight => DisconnectFirst true None
  | RunExecute _ => DisconnectFirst true None
  | _ => None
  end.

Definition sample_caps : CapState :=
  mkCapState [mkCapabilityData 524544 524544 0; no_capabilities] {[CAP_SYS_PTRACE_NUMBER; CAP_SETPCAP_NUMBER]} 40.

Lemma sample_caps_state : capability_state sample_caps.
Proof.
  split; [|split; [cbn; unfold CAP_SYS_PTRACE_NUMBER; lia|]].
  - eexists _, _. split; [reflexivity|]. by repeat constructor.
  - intros n. cbn. rewrite elem_of_union, !elem_of_singleton. unfold CAP_SYS_PTRACE_NUMBER, CAP_SETPCAP_NUMBER. lia.
Qed.

Lemma capabilities_dropped_witness :
  capability_state sample_caps /\ powerless (interp (capability_machine failing) sample_caps drop_peer_inspection_capability).1.
Proof.
  split; [exact sample_caps_state|].
  pose proof (capabilities_dropped failing sample_caps sample_caps_state) as H.
  assert ((interp (capability_machine failing) sample_caps drop_peer_inspection_capability).2 = Ok tt) as E by (vm_compute; reflexivity).
  destruct (interp (capability_machine failing) sample_caps drop_peer_inspection_capability) as [s' r]. exact (proj1 (proj2 H) E).
Defined.

(** A launcher that was given more refuses to start. *)
Example extra_capability_refused :
  (interp (capability_machine failing) (mkCapState [mkCapabilityData 524545 524545 0; no_capabilities] ∅ 40)
     drop_peer_inspection_capability).2 = Err (lit "launcher has an unexpected capability").
Proof. vm_compute. reflexivity. Qed.

(** ** Who the peer is

    The instant of a call is the number of calls before it. Process identifiers are reused:
    [table] tells which process has an identifier at an instant, [service_main] which
    process systemd counts as the service's main one. *)

Record Process : Type := mkProcess { identity : N; p_cgroup : list N; p_exe : path }.

Section peer.
Context (env : environment host_answer) (table : nat -> N -> option Process) (service_main : nat -> option N).

(** At an instant the identifier belongs to the process. *)
Definition runs_as (t : nat) (pid process : N) : Prop := exists p, table t pid = Some p /\ identity p = process.

Record kernel_promises (pidfd peer_pid process : N) : Prop := mkKernelPromises {
  (** A descriptor that does not poll readable belongs to a living process. *)
  alive_promise : forall h, env h (PollPidfd pidfd) = Some (0%Z, false) -> runs_as (length h) peer_pid process;
  (** An identifier is not reused while its process lives. *)
  pid_promise : forall t1 t t2, (t1 <= t <= t2)%nat -> runs_as t1 peer_pid process -> runs_as t2 peer_pid process ->
    runs_as t peer_pid process;
  (** The files of a process identifier are those of its process. *)
  cgroup_promise : forall h bytes p, env h (ReadFile (proc_file peer_pid (lit "cgroup"))) = Some bytes ->
    table (length h) peer_pid = Some p -> p_cgroup p = bytes;
  exe_promise : forall h target p, env h (ReadLink (proc_file peer_pid (lit "exe"))) = Some target ->
    table (length h) peer_pid = Some p -> p_exe p = target;
  (** [systemctl show --property=MainPID] prints the identifier of the main process. *)
  systemctl_promise : forall h out pid, env h SystemctlMainPid = Some (true, out) -> parse_main_pid out = Ok pid ->
    service_main (length h) = Some pid
}.

(** The process was the service's main process, ran the bot's executable and was in the
    service's control group, at instants between two when it was alive. *)
Definition is_bot (peer_pid process : N) (from until : nat) : Prop :=
  runs_as from peer_pid process /\ runs_as until peer_pid process
  /\ (exists t, (from <= t <= until)%nat /\ runs_as t peer_pid process /\ service_main t = Some peer_pid)
  /\ (exists t p, (from <= t <= until)%nat /\ table t peer_pid = Some p /\ identity p = process
        /\ components (p_exe p) = components BOT_EXECUTABLE_PATH)
  /\ (exists t p text, (from <= t <= until)%nat /\ table t peer_pid = Some p /\ identity p = process
        /\ from_utf8 (p_cgroup p) = Some text /\ cgroup_contains_bot_service text = true).

Lemma exec_or_unauthorised {A} h h' (p : hprog (result str A)) a :
  exec env h (or_unauthorised p) = (h', Ok a) -> exec env h p = (h', Ok a).
Proof.
  unfold or_unauthorised. rewrite exec_bind. cbn. destruct (exec env h p) as [h1 [b|e]]; cbn; [|done].
  by intros [= <- <-].
Qed.

Lemma exec_or_fail {A} h h' (c : host_call) (f : host_answer c -> option A) m a :
  exec env h (or_fail (bind (perform c) (fun r => Ret (f r))) m) = (h', Ok a) -> f (env h c) = Some a.
Proof. cbn. destruct (f (env h c)); cbn; [by intros [= _ ->]|done]. Qed.

Lemma exec_later {A} h h' (p : hprog A) a : exec env h p = (h', a) -> (length h <= length h')%nat.
Proof. intros He. pose proof (exec_extends env h p) as Hx. rewrite He in Hx. by apply extends_length. Qed.

Lemma exec_alive h h' pidfd : exec env h (pidfd_is_alive pidfd) = (h', Ok tt) ->
  env h (PollPidfd pidfd) = Some (0%Z, false) /\ length h' = S (length h).
Proof.
  unfold pidfd_is_alive. cbn. destruct (env h (PollPidfd pidfd)) as [[z b]|]; cbn; [|done].
  destruct (Z.eqb_spec z 0) as [->|]; cbn; [|done]. destruct b; cbn; [done|]. by intros [= <-].
Qed.

(** A snapshot reads three files one after the other. *)
Lemma exec_snapshot h h' pid s : exec env h (process_snapshot pid) = (h', Ok s) ->
  exists h1 h2 bytes target,
    (length h <= length h1)%nat /\ (length h1 <= length h2)%nat /\ (length h2 <= length h')%nat
    /\ env h1 (ReadFile (proc_file pid (lit "cgroup"))) = Some bytes /\ from_utf8 bytes = Some (cgroup s)
    /\ env h2 (ReadLink (proc_file pid (lit "exe"))) = Some target /\ executable s = components target.
Proof.
  unfold process_snapshot. intros (h1 & stat & H1 & Hk)%exec_bind_ok. apply exec_bind_ok in Hk as (h2 & bytes & H2 & Hk).
  apply exec_bind_ok in Hk as (h3 & cg & H3 & Hk). apply exec_bind_ok in Hk as (h4 & target & H4 & Hk).
  apply exec_bind_ok in Hk as (h5 & start & H5 & Hk). injection Hk as <- <-. cbn [cgroup executable].
  injection H3 as <- H3. injection H5 as <- _.
  exists h1, h2, bytes, target. pose proof (exec_later _ _ _ _ H1). pose proof (exec_later _ _ _ _ H2).
  pose proof (exec_later _ _ _ _ H4). split_and!; try done.
  - cbn in H2. destruct (env h1 _); cbn in H2; [by injection H2 as _ ->|done].
  - by apply ok_or_ok in H3.
  - cbn in H4. destruct (env h2 (ReadLink _)); cbn in H4; [by injection H4 as _ ->|done].
Qed.

Lemma exec_main_pid h h' pid : exec env h bot_main_pid = (h', Ok pid) ->
  exists h1 out, (length h <= length h1)%nat /\ (length h1 <= length h')%nat
    /\ env h1 SystemctlMainPid = Some (true, out) /\ parse_main_pid out = Ok pid.
Proof.
  unfold bot_main_pid. intros (h1 & [] & H1 & Hk)%exec_bind_ok. apply exec_bind_ok in Hk as (h2 & [success out] & H2 & Hk).
  destruct success; cbn [negb orb] in Hk; [|done]. destruct (32 <? len out); [done|]. injection Hk as <- Hk.
  exists h1, out. pose proof (exec_later _ _ _ _ H1). pose proof (exec_later _ _ _ _ H2). split_and!; try done.
  cbn in H2. destruct (env h1 SystemctlMainPid) as [[]|]; cbn in H2; [by injection H2 as _ -> ->|done].
Qed.

End peer.

(** A host on which the bot runs as process 77. *)
Definition sample_stat : list N := as_bytes (stat_line (lit "77 ") (lit "bot") sample_fields).
Definition sample_cgroup : list N := lit "0::" ++ bot_service_cgroup ++ [10].

Definition sample_node (cs : list Component) : NodeMetadata :=
  if bool_decide (cs ∈ [components BOT_EXECUTABLE_PATH; components SYSTEMCTL_PATH; components LAUNCHER_EXECUTABLE_PATH])
  then mkNodeMetadata RegularFile 0 0 493 1 100 0 0 else mkNodeMetadata Directory 0 0 493 1 0 0 0.

Definition sample_answer (c : host_call) : host_answer c :=
  match c return host_answer c with
  | PollPidfd _ => Some (0%Z, false)
  | ReadFile p => if str_eqb p (proc_file 77 (lit "stat")) then Some sample_stat
                  else if str_eqb p (proc_file 77 (lit "cgroup")) then Some sample_cgroup else None
  | ReadLink _ => Some BOT_EXECUTABLE_PATH
  | SystemctlMainPid => Some (true, lit "77" ++ [10])
  | SymlinkMetadata cs => Some (sample_node cs)
  | c => failing c
  end.

Definition sample_host_env : environment host_answer := fun _ => sample_answer.
Definition sample_peer : PeerCredentials := mkPeerCredentials 77 1000 1000.
Definition sample_table (t : nat) (pid : N) : option Process :=
  if pid =? 77 then Some (mkProcess 5 sample_cgroup BOT_EXECUTABLE_PATH) else None.

Lemma sample_promises : kernel_promises sample_host_env sample_table (fun _ => Some 77) 4 77 5.
Proof.
  split.
  - intros h _. by eexists.
  - intros t1 t t2 _ _ _. by eexists.
  - intros h bytes p [= <-] [= <-]. reflexivity.
  - intros h target p [= <-] [= <-]. reflexivity.
  - intros h out pid [= <-] Hp. vm_compute in Hp. congruence.
Qed.

