(* ===== verification/IsolatedPlan.v ===== *)
(** * Plans of isolated runs

    The pure part of [src/isolated_execution.rs]: the policy of execute requests, the
    manifest of the runtime image, the units and the argument vector of [systemd-run], the
    group data base and the file policies. *)

From S2P Require Import Prelude Text Digest Paths Net HostFiles Webex Serde LauncherProtocol CanaryProtocol.

Local Open Scope N_scope.

(** ** Constants *)

Definition RUNTIME_ROOT : path := lit "/opt/webex-generic-account-bot/runtime".
Definition CODEX_AUTH_CREDENTIAL_PATH : str := lit "/etc/webex-generic-account-bot/codex-auth.json".
Definition CODEX_INPUT_ROOT : path := lit "/var/lib/webex-codex-runtime-inputs/ready".
Definition RUNTIME_EXECUTABLE_PATH : str := lit "/usr/libexec/webex-codex-runtime".
Definition SYSTEMD_RUN_PATH : str := lit "/usr/bin/systemd-run".
Definition CODEX_INPUT_GROUP : str := lit "webex-codex-input".
Definition CODEX_LAUNCH_GROUP : str := lit "webex-codex-launch".
Definition ACTIVATION_BOOT_ID_CREDENTIAL_NAME : str := lit "activation-boot-id".
Definition SYSTEMD_CREDENTIAL_ROOT : path := lit "/run/credentials".
Definition RUNTIME_IMAGE_MAX_BYTES : N := 1024 * 1024 * 1024.
Definition RUNTIME_CANARY_CAPTURE_BYTES : N := 64 * 1024.
Definition RUNTIME_CANARY_TIMEOUT_SECONDS : N := 600.
Definition ACTIVATION_RENEWAL_UNIT : str := lit "webex-codex-activation-renew.service".
Definition CLEANUP_MARGIN_SECONDS : N := LAUNCHER_CLEANUP_STEP_SECONDS.
Definition SQUASHFS_MAGIC : list N := lit "hsqs".
Definition SUPPORTED_CODEX_VERSION : str := lit "0.142.3".
Definition SUPPORTED_CODEX_TARGET : str := lit "x86_64-unknown-linux-musl".
Definition SUPPORTED_CODEX_LAYOUT_VERSION : N := 1.
Definition SUPPORTED_MODEL : str := lit "gpt-5.5".
Definition EXPECTED_MKSQUASHFS_ARGV_SHA256 : str :=
  lit "700c3e735fb100cddedd05dec3e8a45866e330522b74d2f96389ea2300564bd5".

(** ** Data *)

Record VerifiedRuntime : Type := mkVerifiedRuntime { image : path; vr_codex_version : str; vr_input_gid : N }.

Record TransientRunPlan : Type := mkPlan { unit_name : str; plan_executable : str; args : list str; plan_workspace : path }.

Record RuntimeCanaryLaunchRequest : Type := mkCanaryLaunch {
  lr_nonce : str;
  lr_forbidden_tcp : str;
  lr_bot_tcp : str;
  lr_host_unix : str;
  lr_host_protected_path : str
}.

Record CodexGroupIds : Type := mkGroupIds { launch : N; input : N }.

(** [activation::VerifiedActivation]. *)
Record VerifiedActivation : Type := mkVerifiedActivation {
  va_schema_version : N;
  va_boot_id : str;
  va_active_manifest_sha256 : str;
  va_runtime_image_sha256 : str;
  va_bot_executable_sha256 : str;
  va_launcher_executable_sha256 : str;
  va_runtime_executable_sha256 : str;
  va_codex_version : str;
  va_model : str;
  va_canaries : list str
}.

Record ActiveRuntimeManifest : Type := mkManifest {
  mf_version : N;
  builder_version : N;
  codex_version : str;
  codex_target : str;
  codex_layout_version : N;
  mf_image : str;
  image_sha256 : str;
  image_size : N;
  source_manifest_sha256 : str;
  mksquashfs_sha256 : str;
  mksquashfs_argv_sha256 : str
}.

Definition manifest_names : list str :=
  [lit "version"; lit "builder_version"; lit "codex_version"; lit "codex_target"; lit "codex_layout_version";
   lit "image"; lit "image_sha256"; lit "image_size"; lit "source_manifest_sha256"; lit "mksquashfs_sha256";
   lit "mksquashfs_argv_sha256"].

Definition decode_manifest (v : Json) : option ActiveRuntimeManifest :=
  fields ← struct_fields manifest_names v;
  match fields with
  | [f1; f2; f3; f4; f5; f6; f7; f8; f9; f10; f11] =>
      f1 ← json_unsigned 65535 f1; f2 ← json_unsigned 65535 f2; f3 ← json_string f3; f4 ← json_string f4;
      f5 ← json_unsigned 65535 f5; f6 ← json_string f6; f7 ← json_string f7; f8 ← json_unsigned u64_max f8;
      f9 ← json_string f9; f10 ← json_string f10; f11 ← json_string f11;
      Some (mkManifest f1 f2 f3 f4 f5 f6 f7 f8 f9 f10 f11)
  | _ => None
  end.

(** ** Requests *)

Definition validate_execution_policy (r : ExecuteRequest) : result ProtocolError unit :=
  validate_execute r ;?
  fail_if (negb (bool_decide (model r = Some SUPPORTED_MODEL))) InvalidModel ;?
  fail_if (negb (bool_decide (components (workspace r) = components (path_join CODEX_INPUT_ROOT (as_bytes (run_id r))))))
    InvalidWorkspace ;?
  fail_if (negb (skip_git_repo_check r)) InvalidRequestJson.

Definition validate_launch_request (r : RuntimeCanaryLaunchRequest) : result str unit :=
  map_err (fun _ => lit "runtime canary nonce is invalid") (validate_runtime_canary_nonce (lr_nonce r)) ;?
  let? forbidden := ok_or (parse_socket_addr (lr_forbidden_tcp r)) (lit "runtime canary forbidden TCP endpoint is invalid") in
  let? bot := ok_or (parse_socket_addr (lr_bot_tcp r)) (lit "runtime canary bot TCP endpoint is invalid") in
  let expected_unix := expected_host_unix (lr_nonce r) in
  let expected_protected := expected_host_protected (lr_nonce r) in
  fail_if ((port forbidden =? 0) || negb (runtime_canary_forbidden_ip_allowed (ip forbidden))
      || negb (str_eqb (lr_forbidden_tcp r) (socket_addr_to_string forbidden))
      || (port bot =? 0) || negb (is_loopback (ip bot)) || negb (str_eqb (lr_bot_tcp r) (socket_addr_to_string bot))
      || bool_decide (forbidden = bot) || negb (str_eqb (lr_host_unix r) expected_unix)
      || negb (str_eqb (lr_host_protected_path r) expected_protected))
    (lit "runtime canary launch request is invalid").

(** [&nonce[..16]]: the nonce is 64 ASCII characters. *)
Definition nonce_prefix (nonce : str) : str := take 16 nonce.

Definition runtime_canary_execute_request (r : RuntimeCanaryLaunchRequest) : ExecuteRequest :=
  mkExecuteRequest (lr_nonce r) (lit "runtime-canary-" ++ nonce_prefix (lr_nonce r))
    (lit "runtime canary is generated by the fixed runtime wrapper")
    (path_join CODEX_INPUT_ROOT (as_bytes (lr_nonce r))) (Some SUPPORTED_MODEL) (Some Xhigh)
    RUNTIME_CANARY_TIMEOUT_SECONDS RUNTIME_CANARY_CAPTURE_BYTES true.

(** ** The active manifest *)

Definition valid_digest (value : str) : bool :=
  (byte_len value =? 64) && all (fun byte => is_ascii_hexdigit byte && negb (is_ascii_uppercase byte)) (as_bytes value).

Definition validate_active_manifest (m : ActiveRuntimeManifest) : result str unit :=
  fail_if (negb (mf_version m =? 1) || negb (builder_version m =? 1))
    (lit "runtime active manifest version is unsupported") ;?
  fail_if (negb (str_eqb (codex_version m) SUPPORTED_CODEX_VERSION) || negb (str_eqb (codex_target m) SUPPORTED_CODEX_TARGET)
      || negb (codex_layout_version m =? SUPPORTED_CODEX_LAYOUT_VERSION) || negb (valid_digest (image_sha256 m))
      || negb (valid_digest (source_manifest_sha256 m)) || negb (valid_digest (mksquashfs_sha256 m))
      || negb (str_eqb (mksquashfs_argv_sha256 m) EXPECTED_MKSQUASHFS_ARGV_SHA256)
      || (image_size m <=? len SQUASHFS_MAGIC) || (RUNTIME_IMAGE_MAX_BYTES <? image_size m))
    (lit "runtime active manifest fields are invalid") ;?
  fail_if (negb (str_eqb (mf_image m) (lit "images/" ++ image_sha256 m ++ lit ".squashfs")))
    (lit "runtime active manifest image is not content-addressed").

Definition validate_active_manifest_binding `{Sha256} (activation : VerifiedActivation) (manifest_bytes : list N)
    (m : ActiveRuntimeManifest) : result str unit :=
  fail_if (negb (str_eqb (hex (sha256 manifest_bytes)) (va_active_manifest_sha256 activation))
      || negb (str_eqb (codex_version m) (va_codex_version activation)))
    (lit "runtime active manifest does not match the verified activation").

Definition validate_runtime_image_binding (activation : VerifiedActivation) (image_sha256 : str) : result str unit :=
  fail_if (negb (str_eqb image_sha256 (va_runtime_image_sha256 activation)))
    (lit "runtime image does not match the verified activation").

(** ** Credentials and units *)

Definition rooted_or_normal (c : Component) : bool :=
  match c with
  | RootDir | Normal _ => true
  | _ => false
  end.

Definition boot_id_credential_path (directory : path) : result str path :=
  fail_if (negb (is_absolute directory) || bool_decide (components directory = components SYSTEMD_CREDENTIAL_ROOT)
      || negb (path_starts_with (components directory) (components SYSTEMD_CREDENTIAL_ROOT))
      || any (fun c => negb (rooted_or_normal c)) (components directory))
    (lit "launcher credential directory is invalid") ;?
  Ok (path_join directory ACTIVATION_BOOT_ID_CREDENTIAL_NAME).

Definition is_unit_byte (byte : N) : bool := is_ascii_alphanumeric byte || one_of (lit "-_.@\") byte.

Definition validate_launcher_unit (owner : str) : result str unit :=
  fail_if ((255 <? byte_len owner) || negb (starts_with (lit "webex-codex-launcher@") owner)
      || negb (ends_with (lit ".service") owner) || any (fun byte => negb (is_unit_byte byte)) (as_bytes owner))
    (lit "launcher systemd unit is invalid").

Definition validate_transient_owner_unit (owner : str) : result str unit :=
  if str_eqb owner ACTIVATION_RENEWAL_UNIT then Ok tt else validate_launcher_unit owner.

Definition cgroup_unit (line : str) : option str :=
  '(hierarchy, value) ← split_once (lit "::") line;
  if negb (str_eqb hierarchy (lit "0")) then None else strip_prefix (lit "/system.slice/") value.

Definition parse_launcher_unit (cgroup : str) : result str str :=
  fail_if (4096 <? byte_len cgroup) (lit "launcher cgroup metadata is oversized") ;?
  let? owner := ok_or (head (omap cgroup_unit (lines cgroup))) (lit "launcher systemd unit is unavailable") in
  validate_launcher_unit owner ;?
  Ok owner.

Definition transient_unit_name `{Sha256} (run_id : str) : str :=
  lit "webex-codex-run-" ++ take 24 (hex (sha256 (as_bytes run_id))) ++ lit ".service".

Definition bot_peer_exit_canary_unit_name (nonce : str) : result CanaryError str :=
  validate_runtime_canary_nonce nonce ;?
  Ok (lit "webex-codex-canary-bot-peer-" ++ nonce_prefix nonce ++ lit ".service").

(** A descriptor of this process below [/proc]. *)
Definition validate_workspace_bind_source (source : str) : result str unit :=
  match strip_prefix (lit "/proc/") source with
  | None => Err (lit "runtime workspace bind source is invalid")
  | Some rest =>
      match split_by (N.eqb (ch "/")) rest with
      | [pid; middle; fd] =>
          fail_if (negb (str_eqb middle (lit "fd")) || is_empty pid || is_empty fd
              || negb (all is_ascii_digit pid) || negb (all is_ascii_digit fd))
            (lit "runtime workspace bind source is invalid")
      | _ => Err (lit "runtime workspace bind source is invalid")
      end
  end.

Definition reasoning_effort_text (e : ReasoningEffort) : result str str :=
  match e with
  | Minimal => Ok (lit "minimal")
  | Low => Ok (lit "low")
  | Medium => Ok (lit "medium")
  | High => Ok (lit "high")
  | Xhigh => Ok (lit "xhigh")
  | Unknown => Err (lit "runtime reasoning effort is invalid")
  end.

(** ** The argument vector *)

Definition hardening_properties (image bind_source timeout : str) : list str :=
  [lit "DynamicUser=yes";
   lit "RootImage=" ++ image;
   lit "RootImageOptions=root:ro,nosuid,nodev";
   lit "MountAPIVFS=yes";
   lit "BindReadOnlyPaths=" ++ bind_source ++ lit ":/workspace";
   lit "LoadCredential=codex-auth.json:" ++ CODEX_AUTH_CREDENTIAL_PATH;
   lit "NoNewPrivileges=yes";
   lit "CapabilityBoundingSet=";
   lit "AmbientCapabilities=";
   lit "SupplementaryGroups=" ++ CODEX_INPUT_GROUP;
   lit "ProtectSystem=strict";
   lit "ProtectHome=yes";
   lit "PrivateTmp=yes";
   lit "PrivateDevices=yes";
   lit "PrivateIPC=yes";
   lit "ProtectClock=yes";
   lit "ProtectControlGroups=yes";
   lit "ProtectHostname=yes";
   lit "ProtectKernelLogs=yes";
   lit "ProtectKernelModules=yes";
   lit "ProtectKernelTunables=yes";
   lit "ProtectProc=invisible";
   lit "ProcSubset=pid";
   lit "RestrictAddressFamilies=AF_UNIX AF_INET AF_INET6";
   lit "RestrictSUIDSGID=yes";
   lit "RestrictRealtime=yes";
   lit "LockPersonality=yes";
   lit "MemoryDenyWriteExecute=yes";
   lit "SystemCallFilter=~@debug process_vm_readv process_vm_writev process_madvise kcmp";
   lit "SystemCallErrorNumber=EPERM";
   lit "SystemCallArchitectures=native";
   lit "DevicePolicy=closed";
   lit "KeyringMode=private";
   lit "UMask=0077";
   lit "KillMode=control-group";
   lit "SendSIGKILL=yes";
   lit "OOMPolicy=kill";
   lit "TasksMax=128";
   lit "CPUQuota=200%";
   lit "MemoryMax=2G";
   lit "MemorySwapMax=0";
   lit "LimitNOFILE=256";
   lit "LimitNPROC=128";
   lit "LimitFSIZE=256M";
   lit "LimitCORE=0";
   lit "RuntimeMaxSec=" ++ timeout;
   lit "TimeoutStopSec=10s";
   lit "TemporaryFileSystem=/tmp:rw,nosuid,nodev,size=512M,mode=1777";
   lit "TemporaryFileSystem=/var/tmp:rw,nosuid,nodev,size=64M,mode=1777";
   lit "InaccessiblePaths=-/run/systemd -/run/dbus -/run/webex-codex-activation -/run/webex-codex-launcher -/run/webex-config-pull";
   lit "BindReadOnlyPaths=/etc/resolv.conf";
   lit "BindReadOnlyPaths=/etc/hosts";
   lit "BindReadOnlyPaths=/etc/nsswitch.conf"].

Definition transient_properties (launcher_unit image bind_source timeout : str) : list str :=
  [lit "BindsTo=" ++ launcher_unit]
  ++ (if str_eqb launcher_unit ACTIVATION_RENEWAL_UNIT then [] else [lit "After=" ++ launcher_unit])
  ++ hardening_properties image bind_source timeout.

Definition property_args (properties : list str) : list str := concat (map (fun p => [lit "--property"; p]) properties).

Definition build_transient_run_plan `{Sha256} (r : ExecuteRequest) (runtime : VerifiedRuntime) (workspace : path)
    (bind_source launcher_unit : str) : result str TransientRunPlan :=
  map_err (fun _ => lit "launcher execute request failed policy validation") (validate_execution_policy r) ;?
  validate_transient_owner_unit launcher_unit ;?
  validate_workspace_bind_source bind_source ;?
  let unit_name := transient_unit_name (run_id r) in
  let runtime_timeout := sat_add (timeout_seconds r) CLEANUP_MARGIN_SECONDS in
  let timeout := decimal runtime_timeout ++ lit "s" in
  let? image := ok_or (from_utf8 (image runtime)) (lit "runtime image path is not UTF-8") in
  let? effort := match reasoning_effort r with
                 | Some e => let? text := reasoning_effort_text e in Ok [lit "--reasoning-effort"; text]
                 | None => Ok []
                 end in
  Ok (mkPlan unit_name SYSTEMD_RUN_PATH
    ([lit "--quiet"; lit "--wait"; lit "--pipe"; lit "--collect"; lit "--service-type=exec"; lit "--unit=" ++ unit_name;
      lit "--working-directory=/workspace"]
     ++ property_args (transient_properties launcher_unit image bind_source timeout)
     ++ [RUNTIME_EXECUTABLE_PATH; lit "--workspace"; lit "/workspace"; lit "--model"; SUPPORTED_MODEL] ++ effort)
    workspace).

(** [args.iter().position(..)] and what lies before it. *)
Fixpoint split_at_argument (argument : str) (l : list str) : option (list str * list str) :=
  match l with
  | [] => None
  | a :: l' => if str_eqb a argument then Some ([], l) else '(b, c) ← split_at_argument argument l'; Some (a :: b, c)
  end.

Definition canary_properties (r : RuntimeCanaryLaunchRequest) : list str :=
  [lit "TemporaryFileSystem=" ++ RUNTIME_CANARY_HOST_UNIX_FIXTURE_ROOT ++ lit ":rw,nosuid,nodev,noexec,size=1M,mode=0755";
   lit "BindReadOnlyPaths=" ++ RUNTIME_CANARY_HOST_PROTECTED_FIXTURE_ROOT ++ lit ":" ++ RUNTIME_CANARY_HOST_PROTECTED_FIXTURE_ROOT;
   lit "BindReadOnlyPaths=" ++ lr_host_unix r ++ lit ":" ++ lr_host_unix r].

Definition build_runtime_canary_plan `{Sha256} (r : RuntimeCanaryLaunchRequest) (execute_request : ExecuteRequest)
    (runtime : VerifiedRuntime) (workspace : path) (bind_source : str) : result str TransientRunPlan :=
  validate_launch_request r ;?
  let? plan := build_transient_run_plan execute_request runtime workspace bind_source ACTIVATION_RENEWAL_UNIT in
  let? (options, _) := ok_or (split_at_argument RUNTIME_EXECUTABLE_PATH (args plan))
    (lit "runtime canary plan has no fixed runtime executable") in
  Ok (mkPlan (unit_name plan) (plan_executable plan)
    (options ++ property_args (canary_properties r) ++ [RUNTIME_EXECUTABLE_PATH]
     ++ [lit "--runtime-canary"; lit "--nonce"; lr_nonce r; lit "--forbidden-tcp"; lr_forbidden_tcp r;
         lit "--bot-tcp"; lr_bot_tcp r; lit "--host-unix"; lr_host_unix r; lit "--host-protected-path";
         lr_host_protected_path r])
    (plan_workspace plan)).

Definition build_bot_peer_exit_canary_plan (nonce : str) : result CanaryError TransientRunPlan :=
  let? unit_name := bot_peer_exit_canary_unit_name nonce in
  Ok (mkPlan unit_name SYSTEMD_RUN_PATH
    [lit "--quiet"; lit "--wait"; lit "--pipe"; lit "--service-type=exec"; lit "--unit=" ++ unit_name;
     lit "--property=BindsTo=" ++ ACTIVATION_RENEWAL_UNIT; lit "--property=KillMode=control-group";
     lit "--property=TimeoutStopSec=5s"; lit "/bin/sh"; lit "-c"; lit "exec sleep 30"]
    (lit "/")).

(** ** Groups and file policies *)

Definition group_fields (line : str) : list str := split_by (N.eqb (ch ":")) line.

Fixpoint find_group (expected_name : str) (ls : list str) (found : option N) : result str (option N) :=
  match ls with
  | [] => Ok found
  | line :: rest =>
      match group_fields line with
      | name :: fields =>
          if negb (str_eqb name expected_name) then find_group expected_name rest found
          else match fields with
          | [_; gid; members] =>
              fail_if (negb (is_empty members) || is_some_and found (fun _ => true))
                (lit "Codex group database entry is invalid") ;?
              let? gid := ok_or (parse_unsigned u32_max gid) (lit "Codex group identifier is invalid") in
              fail_if (gid =? 0) (lit "Codex group must not be root") ;?
              find_group expected_name rest (Some gid)
          | _ => Err (lit "Codex group database entry is invalid")
          end
      | [] => find_group expected_name rest found
      end
  end.

Definition is_alias (expected_name : str) (gid : N) (line : str) : bool :=
  match group_fields line with
  | [name; _; value; _] => negb (str_eqb name expected_name) && bool_decide (parse_unsigned u32_max value = Some gid)
  | _ => false
  end.

Definition parse_group_gid (contents expected_name : str) : result str N :=
  let? found := find_group expected_name (lines contents) None in
  let? gid := ok_or found (lit "Codex group is unavailable") in
  fail_if (any (is_alias expected_name gid) (lines contents)) (lit "Codex group identifier is aliased") ;?
  Ok gid.

Definition has_primary_gid (gid : N) (line : str) : bool :=
  match group_fields line with
  | _ :: _ :: _ :: value :: _ => bool_decide (parse_unsigned u32_max value = Some gid)
  | _ => false
  end.

(** [reject_primary_gid_users], on the contents of the file. *)
Definition reject_primary_gid_users (passwd : str) (gid : N) : result str unit :=
  fail_if (any (has_primary_gid gid) (lines passwd)) (lit "Codex input group is used as a static primary group").

(** [resolve_codex_group_ids], on the contents of the files. *)
Definition resolve_codex_group_ids (group passwd : list N) : result str CodexGroupIds :=
  let? contents := ok_or (from_utf8 group) (lit "host group database is not UTF-8") in
  let? launch := parse_group_gid contents CODEX_LAUNCH_GROUP in
  let? input := parse_group_gid contents CODEX_INPUT_GROUP in
  fail_if (launch =? input) (lit "Codex launch and input groups must be distinct") ;?
  let? users := ok_or (from_utf8 passwd) (lit "host passwd database is not UTF-8") in
  reject_primary_gid_users users launch ;?
  reject_primary_gid_users users input ;?
  Ok (mkGroupIds launch input).

Inductive FilePolicy : Type := Executable | ReadOnlyData | PrivateCredential | HostData.

Definition file_policy_mode_valid (policy : FilePolicy) (mode : N) : bool :=
  match policy with
  | Executable => negb (N.land mode 73 =? 0) && (N.land mode 18 =? 0)
  | ReadOnlyData => N.land mode 511 =? 292
  | PrivateCredential => (N.land mode 511 =? 256) || (N.land mode 511 =? 384)
  | HostData => (N.land mode 18 =? 0) && negb (N.land mode 256 =? 0)
  end.

Definition input_root_mode_valid (mode : N) : bool := N.land mode 4095 =? 984.

(** ** Outcomes *)

Inductive RunError : Type :=
| CancelledWork (message : str)
| OtherError (message : str).

Definition is_cancellation_error (e : RunError) : bool :=
  match e with
  | CancelledWork _ => true
  | OtherError _ => false
  end.
