(* ===== verification/IsolatedPlanRules.v ===== *)
(** * What the plans of isolated runs guarantee

    How [systemd-run] reads the argument vector of a plan, and what therefore holds of the
    unit it starts; the exclusive groups of the sandbox. *)

From S2P Require Import Prelude Text Digest Paths Net HostFiles Webex Serde LauncherProtocol CanaryProtocol IsolatedPlan.

Local Open Scope N_scope.

(** ** Reading an argument vector *)

(** Text before and after the first equals sign. *)
Definition assignment (s : str) : str * str := default (s, []) (split_once (lit "=") s).

Record RunCommand : Type := mkRunCommand {
  options : list (str * str);
  properties : list (str * str);
  command : list str
}.

Definition add_option (o : str * str) (r : RunCommand) : RunCommand := mkRunCommand (o :: options r) (properties r) (command r).
Definition add_property (p : str * str) (r : RunCommand) : RunCommand := mkRunCommand (options r) (p :: properties r) (command r).

(** Options up to the first argument that is none; [--property] takes the next argument. *)
Fixpoint read_systemd_run (arguments : list str) : option RunCommand :=
  match arguments with
  | [] => None
  | a :: rest =>
      if str_eqb a (lit "--property") then
        match rest with
        | p :: rest => add_property (assignment p) <$> read_systemd_run rest
        | [] => None
        end
      else if starts_with (lit "--property=") a
      then add_property (assignment (drop 11 a)) <$> read_systemd_run rest
      else if starts_with (lit "-") a then add_option (assignment a) <$> read_systemd_run rest
      else Some (mkRunCommand [] [] (a :: rest))
  end.

Definition values (name : str) (ps : list (str * str)) : list str :=
  map snd (List.filter (fun p => str_eqb (fst p) name) ps).

Definition add_properties (ps : list (str * str)) (r : RunCommand) : RunCommand :=
  mkRunCommand (options r) (ps ++ properties r) (command r).

Lemma read_property_args ps rest :
  read_systemd_run (property_args ps ++ rest) = add_properties (map assignment ps) <$> read_systemd_run rest.
Proof.
  induction ps as [|p ps IH]; cbn [property_args map concat app].
  - destruct (read_systemd_run rest) as [[]|]; done.
  - change (concat (map (fun p => [lit "--property"; p]) ps)) with (property_args ps).
    cbn [read_systemd_run]. rewrite str_eqb_refl, IH. destruct (read_systemd_run rest); done.
Qed.

(** An argument that is an option and names no property. *)
Definition plain_option (a : str) : bool :=
  negb (str_eqb a (lit "--property")) && negb (starts_with (lit "--property=") a) && starts_with (lit "-") a.

Lemma read_plain_options os rest ps c :
  all plain_option os = true -> read_systemd_run rest = Some (mkRunCommand [] ps c) ->
  read_systemd_run (os ++ rest) = Some (mkRunCommand (map assignment os) ps c).
Proof.
  intros Ho Hr. apply all_true in Ho. induction Ho as [|a os Ha _ IH]; [done|]. unfold plain_option in Ha.
  rewrite !andb_true_iff, !negb_true_iff in Ha. destruct Ha as [[Hp Hq] Hd]. cbn [app read_systemd_run].
  by rewrite Hp, Hq, Hd, IH.
Qed.

Lemma forall_of_map {A B} (f g : A -> B) l : map f l = map g l -> Forall (fun x => f x = g x) l.
Proof. induction l as [|x l IH]; cbn; [constructor|]. intros [= Hx Hl]. constructor; auto. Qed.

(** ** The sandbox every run gets *)

Definition sandbox : list (str * str) :=
  [(lit "DynamicUser", lit "yes"); (lit "RootImageOptions", lit "root:ro,nosuid,nodev");
   (lit "NoNewPrivileges", lit "yes"); (lit "CapabilityBoundingSet", []); (lit "AmbientCapabilities", []);
   (lit "SupplementaryGroups", CODEX_INPUT_GROUP); (lit "ProtectSystem", lit "strict"); (lit "ProtectHome", lit "yes");
   (lit "PrivateTmp", lit "yes"); (lit "PrivateDevices", lit "yes"); (lit "PrivateIPC", lit "yes");
   (lit "ProtectControlGroups", lit "yes"); (lit "ProtectKernelModules", lit "yes");
   (lit "ProtectKernelTunables", lit "yes"); (lit "ProtectProc", lit "invisible"); (lit "ProcSubset", lit "pid");
   (lit "RestrictSUIDSGID", lit "yes"); (lit "MemoryDenyWriteExecute", lit "yes"); (lit "DevicePolicy", lit "closed");
   (lit "KillMode", lit "control-group"); (lit "SendSIGKILL", lit "yes"); (lit "OOMPolicy", lit "kill");
   (lit "TasksMax", lit "128"); (lit "MemoryMax", lit "2G"); (lit "MemorySwapMax", lit "0"); (lit "LimitCORE", lit "0");
   (lit "LoadCredential", lit "codex-auth.json:" ++ CODEX_AUTH_CREDENTIAL_PATH)].

(** Settings that would widen the sandbox. *)
Definition widening : list str :=
  [lit "User"; lit "Group"; lit "RootDirectory"; lit "BindPaths"; lit "ReadWritePaths"; lit "Environment";
   lit "EnvironmentFile"; lit "PassEnvironment"; lit "ExecStartPre"; lit "ExecStartPost"; lit "StateDirectory";
   lit "Delegate"; lit "DeviceAllow"; lit "LoadCredentialEncrypted"; lit "SetCredential"].

Lemma hardening_sandboxed image source timeout :
  let ps := map assignment (hardening_properties image source timeout) in
  map (fun p => values p.1 ps) sandbox = map (fun p => [p.2]) sandbox
  /\ map (fun name => values name ps) widening = map (fun _ => []) widening.
Proof. split; vm_compute; reflexivity. Qed.

Lemma hardening_values image source timeout :
  let ps := map assignment (hardening_properties image source timeout) in
  values (lit "RootImage") ps = [image]
  /\ values (lit "BindReadOnlyPaths") ps
     = [source ++ lit ":/workspace"; lit "/etc/resolv.conf"; lit "/etc/hosts"; lit "/etc/nsswitch.conf"]
  /\ values (lit "RuntimeMaxSec") ps = [timeout]
  /\ values (lit "BindsTo") ps = [].
Proof. repeat split; vm_compute; reflexivity. Qed.

(** ** Plans *)

Lemma unfold_plan `{Sha256} r runtime workspace source owner plan :
  build_transient_run_plan r runtime workspace source owner = Ok plan ->
  exists image_text effort,
    validate_execution_policy r = Ok tt /\ validate_transient_owner_unit owner = Ok tt
    /\ validate_workspace_bind_source source = Ok tt
    /\ from_utf8 (image runtime) = Some image_text
    /\ (effort = [] \/ exists text, effort = [lit "--reasoning-effort"; text])
    /\ unit_name plan = transient_unit_name (run_id r)
    /\ plan_executable plan = SYSTEMD_RUN_PATH
    /\ args plan = [lit "--quiet"; lit "--wait"; lit "--pipe"; lit "--collect"; lit "--service-type=exec";
                    lit "--unit=" ++ transient_unit_name (run_id r); lit "--working-directory=/workspace"]
         ++ property_args (transient_properties owner image_text source
              (decimal (sat_add (timeout_seconds r) CLEANUP_MARGIN_SECONDS) ++ lit "s"))
         ++ [RUNTIME_EXECUTABLE_PATH; lit "--workspace"; lit "/workspace"; lit "--model"; SUPPORTED_MODEL] ++ effort.
Proof.
  unfold build_transient_run_plan. rewrite then_ok. intros [Hp%map_err_ok Hk]. rewrite then_ok in Hk.
  destruct Hk as [Ho Hk]. rewrite then_ok in Hk. destruct Hk as [Hs Hk].
  apply rbind_ok in Hk as (text & Ht%ok_or_ok & Hk). apply rbind_ok in Hk as (effort & He & [= <-]).
  exists text, effort. repeat split; try done.
  destruct (reasoning_effort r) as [e|]; [|injection He as <-; by left].
  apply rbind_ok in He as (t & _ & [= <-]). right. by exists t.
Qed.

Lemma transient_read owner image_text source timeout rest c :
  read_systemd_run rest = Some (mkRunCommand [] [] c) ->
  read_systemd_run (property_args (transient_properties owner image_text source timeout) ++ rest)
  = Some (mkRunCommand [] (map assignment (transient_properties owner image_text source timeout)) c).
Proof. intros Hr. rewrite read_property_args, Hr. cbn [fmap option_fmap option_map]. unfold add_properties. cbn. by rewrite app_nil_r. Qed.

Lemma values_app name a b : values name (a ++ b) = values name a ++ values name b.
Proof. unfold values. by rewrite List.filter_app, map_app. Qed.

(** The properties that name the owner come first and have names of their own. *)
Definition owner_properties (owner : str) : list (str * str) :=
  (lit "BindsTo", owner) :: (if str_eqb owner ACTIVATION_RENEWAL_UNIT then [] else [(lit "After", owner)]).

Lemma transient_assignments owner image_text source timeout :
  map assignment (transient_properties owner image_text source timeout)
  = owner_properties owner ++ map assignment (hardening_properties image_text source timeout).
Proof.
  unfold transient_properties, owner_properties. rewrite !map_app. rewrite app_assoc. f_equal.
  destruct (str_eqb owner ACTIVATION_RENEWAL_UNIT); vm_compute; reflexivity.
Qed.

Lemma values_other name owner image_text source timeout :
  str_eqb (lit "BindsTo") name = false -> str_eqb (lit "After") name = false ->
  values name (map assignment (transient_properties owner image_text source timeout))
  = values name (map assignment (hardening_properties image_text source timeout)).
Proof.
  intros Hb Ha. rewrite transient_assignments, values_app.
  replace (values name (owner_properties owner)) with (@nil str); [done|].
  unfold values, owner_properties. destruct (str_eqb owner ACTIVATION_RENEWAL_UNIT); cbn [List.filter fst]; by rewrite Hb, ?Ha.
Qed.

(** What a start source of a plan must look like. *)
Definition descriptor_path (source : str) : Prop :=
  exists pid fd, all_digits pid = true /\ all_digits fd = true /\ source = lit "/proc/" ++ pid ++ lit "/fd/" ++ fd.

Lemma bind_source_descriptor source : validate_workspace_bind_source source = Ok tt -> descriptor_path source.
Proof.
  unfold validate_workspace_bind_source. destruct (strip_prefix (lit "/proc/") source) as [rest|] eqn:E; [|done].
  apply strip_prefix_spec in E as ->. pose proof (join_split (ch "/") rest) as Hj.
  destruct (split_by (N.eqb (ch "/")) rest) as [|p [|m [|f [|]]]]; try done.
  rewrite fail_if_ok, !orb_false_iff, !negb_false_iff. intros [[[[->%str_eqb_eq Hp] Hf] Hpd] Hfd].
  exists p, f. unfold all_digits. rewrite Hp, Hf, Hpd, Hfd. repeat split; [done..|].
  rewrite <-Hj. cbn. by rewrite <-?app_assoc.
Qed.

Lemma timeout_exact `{Sha256} r : validate_execution_policy r = Ok tt ->
  sat_add (timeout_seconds r) CLEANUP_MARGIN_SECONDS = timeout_seconds r + CLEANUP_MARGIN_SECONDS.
Proof.
  unfold validate_execution_policy. rewrite then_ok. intros [Hv _]. apply sat_add_exact.
  unfold validate_execute in Hv. repeat (rewrite then_ok in Hv; destruct Hv as [? Hv]).
  match goal with Ht : validate_timeout_seconds _ = Ok _ |- _ =>
    unfold validate_timeout_seconds in Ht; apply fail_if_ok in Ht; apply negb_false_iff, andb_true_iff in Ht as [_ Ht%N.leb_le] end.
  unfold TIMEOUT_SECONDS_MAX, CLEANUP_MARGIN_SECONDS, LAUNCHER_CLEANUP_STEP_SECONDS, u64_max in *. lia.
Qed.


(** ** Groups *)

(** The first field of a line. *)
Definition names_group (name line : str) : bool := bool_decide (head (group_fields line) = Some name).

(** A well-formed line of a group without members. *)
Definition group_line (name : str) (gid : N) (line : str) : Prop :=
  exists password value, group_fields line = [name; password; value; []] /\ parse_unsigned u32_max value = Some gid
                         /\ gid <> 0.

Lemma find_group_found name ls gid r :
  find_group name ls (Some gid) = Ok r -> r = Some gid /\ List.filter (names_group name) ls = [].
Proof.
  induction ls as [|line ls IH]; cbn [find_group List.filter]; [by intros [= <-]|]. unfold names_group at 1.
  destruct (group_fields line) as [|n fields]; cbn [head]; [by rewrite bool_decide_eq_false_2|].
  destruct (str_eqb n name) eqn:E; cbn [negb].
  - destruct fields as [|? [|? [|? [|]]]]; try done. cbn [is_some_and]. by rewrite orb_true_r.
  - intros Hr. apply str_eqb_neq in E. rewrite bool_decide_eq_false_2 by congruence. auto.
Qed.

Lemma find_group_new name ls gid :
  find_group name ls None = Ok (Some gid) -> exists line, List.filter (names_group name) ls = [line] /\ group_line name gid line.
Proof.
  induction ls as [|line ls IH]; cbn [find_group List.filter]; [done|]. unfold names_group at 1.
  destruct (group_fields line) as [|n fields] eqn:Ef; cbn [head]; [rewrite bool_decide_eq_false_2 by done; auto|].
  destruct (str_eqb n name) eqn:E; cbn [negb].
  - apply str_eqb_eq in E as ->. rewrite bool_decide_eq_true_2 by done.
    destruct fields as [|pw [|value [|members [|]]]]; try done. cbn [is_some_and]. rewrite orb_false_r, seq_ok.
    intros [Hm Hk]. apply rbind_ok in Hk as (g & Hg%ok_or_ok & Hk). rewrite seq_ok in Hk. destruct Hk as [Hz Hk].
    apply find_group_found in Hk as [[= <-] Hn]. apply negb_false_iff, is_empty_true in Hm as ->. apply N.eqb_neq in Hz.
    exists line. rewrite Hn. split; [done|]. exists pw, value. done.
  - intros Hr. apply str_eqb_neq in E. rewrite bool_decide_eq_false_2 by congruence. auto.
Qed.

(** The group data base gives [name] one line, the identifier to no other group. *)
Definition owns_group (contents name : str) (gid : N) : Prop :=
  (exists line, List.filter (names_group name) (lines contents) = [line] /\ group_line name gid line)
  /\ forall line other password value members, line ∈ lines contents -> group_fields line = [other; password; value; members] ->
       parse_unsigned u32_max value = Some gid -> other = name.

Lemma parse_group_owned contents name gid : parse_group_gid contents name = Ok gid -> owns_group contents name gid.
Proof.
  unfold parse_group_gid. intros (found & Hf & Hk)%rbind_ok. apply rbind_ok in Hk as (g & ->%ok_or_ok & Hk).
  rewrite seq_ok in Hk. destruct Hk as [Ha [= <-]]. split; [by apply find_group_new|].
  intros line other pw value members Hin Hl Hp. rewrite any_false in Ha. apply Ha in Hin.
  unfold is_alias in Hin. rewrite Hl, (bool_decide_eq_true_2 _ Hp), andb_true_r in Hin.
  by apply negb_false_iff, str_eqb_eq in Hin.
Qed.

(** The identifiers of the two groups that guard run inputs are only accepted when they
    belong to nobody else: they differ, neither is root's, each group has exactly one line,
    without members, no other group shares the identifier and no user has it as primary group. *)
Theorem group_ids_exclusive group passwd ids :
  resolve_codex_group_ids group passwd = Ok ids ->
  exists contents users, from_utf8 group = Some contents /\ from_utf8 passwd = Some users
    /\ launch ids <> input ids
    /\ owns_group contents CODEX_LAUNCH_GROUP (launch ids) /\ owns_group contents CODEX_INPUT_GROUP (input ids)
    /\ forall line user password uid value rest, line ∈ lines users ->
         group_fields line = user :: password :: uid :: value :: rest ->
         parse_unsigned u32_max value <> Some (launch ids) /\ parse_unsigned u32_max value <> Some (input ids).
Proof.
  unfold resolve_codex_group_ids. intros (contents & Hc%ok_or_ok & Hk)%rbind_ok.
  apply rbind_ok in Hk as (l & Hl & Hk). apply rbind_ok in Hk as (i & Hi & Hk). rewrite seq_ok in Hk.
  destruct Hk as [Hn Hk]. apply rbind_ok in Hk as (users & Hu%ok_or_ok & Hk). rewrite then_ok in Hk.
  destruct Hk as [Hrl Hk]. rewrite then_ok in Hk. destruct Hk as [Hri [= <-]]. cbn [launch input].
  exists contents, users. apply N.eqb_neq in Hn. split_and!; [done..|by apply parse_group_owned|by apply parse_group_owned|].
  unfold reject_primary_gid_users in *. rewrite fail_if_ok, any_false in *.
  intros line user pw uid value rest Hin Hf. apply Hrl in Hin as Hx. apply Hri in Hin as Hy.
  unfold has_primary_gid in *. rewrite Hf in *. rewrite bool_decide_eq_false in *. done.
Qed.

(** ** Witnesses *)

Definition sample_group : list N :=
  lit "root:x:0:" ++ [10] ++ lit "webex-codex-launch:x:990:" ++ [10] ++ lit "webex-codex-input:x:991:" ++ [10] ++ lit "users:x:100:joe" ++ [10].
Definition sample_passwd : list N := lit "root:x:0:0:root:/root:/bin/sh" ++ [10] ++ lit "joe:x:1000:100::/home/joe:/bin/sh" ++ [10].

Lemma group_ids_exclusive_witness :
  resolve_codex_group_ids sample_group sample_passwd = Ok (mkGroupIds 990 991)
  /\ launch (mkGroupIds 990 991) <> input (mkGroupIds 990 991).
Proof.
  assert (resolve_codex_group_ids sample_group sample_passwd = Ok (mkGroupIds 990 991)) as E by (vm_compute; reflexivity).
  split; [exact E|]. destruct (group_ids_exclusive _ _ _ E) as (contents & users & _ & _ & Hn & _). exact Hn.
Defined.

(** Two groups with one identifier are refused. *)
Example aliased_group_refused :
  resolve_codex_group_ids (sample_group ++ lit "wheel:x:991:" ++ [10]) sample_passwd = Err (lit "Codex group identifier is aliased").
Proof. vm_compute. reflexivity. Qed.

Definition sample_run_request : ExecuteRequest :=
  mkExecuteRequest (lit "run-1") (lit "msg") (lit "diagnose") (lit "/var/lib/webex-codex-runtime-inputs/ready/run-1")
    (Some SUPPORTED_MODEL) (Some High) 60 1000 true.

Definition sample_runtime : VerifiedRuntime := mkVerifiedRuntime (lit "/opt/r/images/a.squashfs") SUPPORTED_CODEX_VERSION 991.

Definition sample_plan : result str TransientRunPlan :=
  @build_transient_run_plan checksum_sha256 sample_run_request sample_runtime (lit "/w") (lit "/proc/12/fd/7")
    (lit "webex-codex-launcher@1-2.service").

