(* ===== verification/IsolatedRun.v ===== *)
(** * Supervising an isolated run

    The asynchronous part of [src/isolated_execution.rs]: starting the transient unit,
    feeding the prompt, polling the peer, the cancellation and the deadline, stopping the
    unit, collecting its output, and cleaning the workspace up. Times are in milliseconds.

    The loops around [select!] end when the clock passes the deadline; here they have fuel,
    one unit per tick of [PEER_POLL_INTERVAL], and the rules show how much is enough. *)

From S2P Require Import Prelude Effects Text Capture LauncherProtocol CodexLauncher IsolatedPlan.

Local Open Scope N_scope.

Definition OUTPUT_CAPTURE_BYTES : N := OUTPUT_MAX_BYTES + 1024.
Definition STDERR_CAPTURE_BYTES : N := 64 * 1024.
Definition PEER_POLL_INTERVAL : N := 250.
Definition CLEANUP_MARGIN : N := CLEANUP_MARGIN_SECONDS * 1000.

(** ** Calls *)

(** The process of [systemd-run] and that of [systemctl stop]. *)
Inductive child : Type := RunChild | StopChild.
Inductive stream : Type := Stdout | Stderr.
Inductive signal : Type := SIGTERM | SIGKILL.

(** One round of [select!] between an operation and the poll interval. *)
Inductive select (A : Type) : Type :=
| Ready (a : A)
| Tick.
Arguments Ready {A} a.
Arguments Tick {A}.

Inductive run_call : Type :=
| CancelRequested
| PeerAlive
| Now
| Spawn (plan : TransientRunPlan)
| WritePrompt (prompt : str)
| WaitChild
| SpawnStop (unit_name : str)
| WaitStop (limit : N)
| ChildHasId (c : child)
| KillGroup (c : child) (s : signal)
| WaitFor (c : child) (limit : option N)
| DiscardCaptures
| JoinCapture (s : stream) (limit : N)
| Prepare
| Cleanup.

(** The errors of [prepare_execution]. *)
Inductive PreparationError : Type :=
| PreparationUnavailable (error : RunError)
| PreparationFailed (error : RunError)
| PreparationCancelled.

(** [WritePrompt]: whether the prompt was written and the pipe closed. [WaitChild]: whether
    the child succeeded, or a failed wait. [WaitStop]: [None] is the end of the time,
    [Some None] a failed wait. [JoinCapture]: [None] is the end of the time, [Some None] a
    capture task that did not finish. *)
Definition run_answer (c : run_call) : Type :=
  match c with
  | CancelRequested | PeerAlive => bool
  | Now => N
  | Spawn _ | SpawnStop _ => bool
  | WritePrompt _ => select bool
  | WaitChild => select (option bool)
  | WaitStop _ => option (option bool)
  | ChildHasId _ => bool
  | KillGroup _ _ => unit
  | WaitFor _ _ => bool
  | DiscardCaptures => unit
  | JoinCapture _ _ => option (option (list (option (list N))))
  | Prepare => result RunError (result PreparationError TransientRunPlan)
  | Cleanup => result RunError unit
  end.

Abbreviation rprog := (prog run_answer).

(** ** Errors

    What a supervised run can end with besides an answer; [OutOfFuel] is not an outcome of
    the code. *)
Inductive TransientError : Type :=
| TransientCancelled (operation : str)
| AuthorisedPeerExited (phase : str)
| TransientFailed (message : str)
| OutOfFuel.

Definition fail_run {A} (e : TransientError) : rprog (result TransientError A) := Ret (Err e).

(** ** Stopping *)

Definition terminate_systemd_run (c : child) : rprog unit :=
  let* has_id := (perform (ChildHasId c) : rprog bool) in
  if has_id then
    let* _ := perform (KillGroup c SIGTERM) in
    let* ended := (perform (WaitFor c (Some CLEANUP_MARGIN)) : rprog bool) in
    if ended then Ret tt
    else
      let* _ := perform (KillGroup c SIGKILL) in
      let* _ := perform (WaitFor c (Some CLEANUP_MARGIN)) in
      Ret tt
  else
    let* _ := perform (WaitFor c None) in
    Ret tt.

Definition stop_unit (unit_name : str) : rprog (result TransientError unit) :=
  let* started := (perform (SpawnStop unit_name) : rprog bool) in
  if negb started then fail_run (TransientFailed (lit "failed to start fixed transient-unit cleanup"))
  else
    let* waited := (perform (WaitStop CLEANUP_MARGIN) : rprog (option (option bool))) in
    match waited with
    | None =>
        let* _ := terminate_systemd_run StopChild in
        fail_run (TransientFailed (lit "transient-unit cleanup timed out"))
    | Some None => fail_run (TransientFailed (lit "failed while waiting for transient-unit cleanup"))
    | Some (Some false) => fail_run (TransientFailed (lit "transient-unit cleanup failed"))
    | Some (Some true) => Ret (Ok tt)
    end.

Definition terminate_transient_unit (unit_name : str) : rprog (result TransientError unit) :=
  let* stop_result := stop_unit unit_name in
  let* _ := terminate_systemd_run RunChild in
  Ret stop_result.

Definition discard_captures : rprog unit :=
  let* _ := perform DiscardCaptures in Ret tt.

Definition terminate_and_discard_captures (unit_name : str) : rprog (result TransientError unit) :=
  let* r := terminate_transient_unit unit_name in
  let* _ := discard_captures in
  Ret r.

(** [terminate_and_discard_captures(..).await?; return r]. *)
Definition stop_with {A} (unit_name : str) (r : result TransientError A) : rprog (result TransientError A) :=
  let*? _ := terminate_and_discard_captures unit_name in Ret r.

(** ** Waiting *)

(** What a tick of the loops finds: the order of the checks is that of the source. *)
Inductive verdict : Type := GoOn | CancelSeen | PeerGone | DeadlinePassed.

Definition poll (deadline : N) : rprog verdict :=
  let* cancelled := (perform CancelRequested : rprog bool) in
  if cancelled then Ret CancelSeen
  else
    let* alive := (perform PeerAlive : rprog bool) in
    if negb alive then Ret PeerGone
    else
      let* now := (perform Now : rprog N) in
      Ret (if deadline <=? now then DeadlinePassed else GoOn).

Inductive PromptWriteOutcome : Type :=
| PromptCompleted (written : bool)
| PromptCancelled
| PromptPeerExited
| PromptTimedOut.

Fixpoint write_prompt (fuel : nat) (prompt : str) (deadline : N) : rprog (option PromptWriteOutcome) :=
  match fuel with
  | O => Ret None
  | S fuel =>
      let* round := (perform (WritePrompt prompt) : rprog (select bool)) in
      match round with
      | Ready written => Ret (Some (PromptCompleted written))
      | Tick =>
          let* v := poll deadline in
          match v with
          | GoOn => write_prompt fuel prompt deadline
          | CancelSeen => Ret (Some PromptCancelled)
          | PeerGone => Ret (Some PromptPeerExited)
          | DeadlinePassed => Ret (Some PromptTimedOut)
          end
      end
  end.

(** The loop that waits for the child's exit status; it may return from the whole run. *)
Fixpoint wait_status (fuel : nat) (unit_name : str) (deadline : N)
  : rprog (result TransientError (bool + IsolatedRunResult)) :=
  match fuel with
  | O => fail_run OutOfFuel
  | S fuel =>
      let* round := (perform WaitChild : rprog (select (option bool))) in
      match round with
      | Ready (Some success) => Ret (Ok (inl success))
      | Ready None => stop_with unit_name (Err (TransientFailed (lit "failed while waiting for transient Codex unit")))
      | Tick =>
          let* v := poll deadline in
          match v with
          | GoOn => wait_status fuel unit_name deadline
          | CancelSeen => stop_with unit_name (Err (TransientCancelled (lit "isolated Codex execution")))
          | PeerGone => stop_with unit_name (Err (AuthorisedPeerExited (lit "during Codex execution")))
          | DeadlinePassed => stop_with unit_name (Ok (inr RunTimedOut))
          end
      end
  end.

(** ** Output *)

Definition capture_limit (s : stream) : N := match s with Stdout => OUTPUT_CAPTURE_BYTES | Stderr => STDERR_CAPTURE_BYTES end.

Definition collect_capture_of (limit : N) (s : stream) : rprog (result TransientError (str * bool)) :=
  let* joined := (perform (JoinCapture s CLEANUP_MARGIN) : rprog (option (option (list (option (list N)))))) in
  Ret (match joined with
       | None => Err (TransientFailed (lit "Codex capture did not close"))
       | Some None => Err (TransientFailed (lit "failed to join Codex capture"))
       | Some (Some chunks) => ok_or (read_limited limit chunks) (TransientFailed (lit "capture failed"))
       end).

Definition collect_capture (s : stream) : rprog (result TransientError (str * bool)) := collect_capture_of (capture_limit s) s.

(** The output of a run that succeeded. *)
Definition bounded_output (stdout : str) (stdout_truncated : bool) (output_char_limit : N) : IsolatedRunResult :=
  let output := trim stdout in
  if is_empty output then RunFailed
  else
    let character_truncated := output_char_limit <? char_count output in
    RunCompleted (if character_truncated then take_N output_char_limit output else output)
      (stdout_truncated || character_truncated).

(** Both captures are joined before the first error is returned. *)
Definition collect_output (deadline output_char_limit : N) (success : bool)
  : rprog (result TransientError IsolatedRunResult) :=
  let* stdout_result := collect_capture Stdout in
  let* stderr_result := collect_capture Stderr in
  let*? (stdout, stdout_truncated) := Ret stdout_result in
  let*? _ := Ret stderr_result in
  if negb success then
    let* now := (perform Now : rprog N) in
    Ret (Ok (if deadline <=? now then RunTimedOut else RunFailed))
  else Ret (Ok (bounded_output stdout stdout_truncated output_char_limit)).

(** ** The run *)

Definition run_transient_with_peer (fuel : nat) (plan : TransientRunPlan) (prompt : str)
    (timeout_seconds output_char_limit : N) : rprog (result TransientError IsolatedRunResult) :=
  let* cancelled := (perform CancelRequested : rprog bool) in
  if cancelled then fail_run (TransientCancelled (lit "isolated Codex execution before start"))
  else
    let* alive := (perform PeerAlive : rprog bool) in
    if negb alive then fail_run (TransientFailed (lit "authorised bot caller exited before Codex execution"))
    else
      let* now := (perform Now : rprog N) in
      let deadline := now + timeout_seconds * 1000 in
      let* started := (perform (Spawn plan) : rprog bool) in
      if negb started then fail_run (TransientFailed (lit "failed to start the fixed transient Codex unit"))
      else
        let* outcome := write_prompt fuel prompt deadline in
        match outcome with
        | None => fail_run OutOfFuel
        | Some (PromptCompleted false) =>
            stop_with (unit_name plan) (Err (TransientFailed (lit "failed to write the bounded Codex prompt")))
        | Some PromptPeerExited =>
            stop_with (unit_name plan) (Err (AuthorisedPeerExited (lit "during Codex prompt delivery")))
        | Some PromptCancelled =>
            stop_with (unit_name plan) (Err (TransientCancelled (lit "isolated Codex prompt delivery")))
        | Some PromptTimedOut => stop_with (unit_name plan) (Ok RunTimedOut)
        | Some (PromptCompleted true) =>
            let*? status := wait_status fuel (unit_name plan) deadline in
            match status with
            | inr r => Ret (Ok r)
            | inl success =>
                let* now := (perform Now : rprog N) in
                if deadline <=? now then
                  let* _ := discard_captures in Ret (Ok RunTimedOut)
                else collect_output deadline output_char_limit success
            end
        end.

(** ** The canary of the runtime

    The run of a canary plan: nothing is written to it, and nobody is at the other end. *)

Definition canary_capture_limit (s : stream) : N := match s with Stdout => RUNTIME_CANARY_CAPTURE_BYTES | Stderr => STDERR_CAPTURE_BYTES end.

Fixpoint wait_canary (fuel : nat) (unit_name : str) (deadline : N) : rprog (result TransientError bool) :=
  match fuel with
  | O => fail_run OutOfFuel
  | S fuel =>
      let* round := (perform WaitChild : rprog (select (option bool))) in
      match round with
      | Ready (Some success) => Ret (Ok success)
      | Ready None => stop_with unit_name (Err (TransientFailed (lit "failed while waiting for runtime canary unit")))
      | Tick =>
          let* cancelled := (perform CancelRequested : rprog bool) in
          if cancelled then stop_with unit_name (Err (TransientCancelled (lit "runtime canary execution")))
          else
            let* now := (perform Now : rprog N) in
            if deadline <=? now then stop_with unit_name (Err (TransientFailed (lit "runtime canary execution timed out")))
            else wait_canary fuel unit_name deadline
      end
  end.

Definition run_runtime_canary_transient (fuel : nat) (plan : TransientRunPlan) : rprog (result TransientError str) :=
  let* cancelled := (perform CancelRequested : rprog bool) in
  if cancelled then fail_run (TransientCancelled (lit "runtime canary before start"))
  else
    let* now := (perform Now : rprog N) in
    let deadline := now + RUNTIME_CANARY_TIMEOUT_SECONDS * 1000 in
    let* started := (perform (Spawn plan) : rprog bool) in
    if negb started then fail_run (TransientFailed (lit "failed to start the fixed runtime canary unit"))
    else
      let*? success := wait_canary fuel (unit_name plan) deadline in
      let* now := (perform Now : rprog N) in
      if deadline <=? now then
        let* _ := discard_captures in fail_run (TransientFailed (lit "runtime canary execution reached its deadline"))
      else
        let* stdout_result := collect_capture_of (canary_capture_limit Stdout) Stdout in
        let* stderr_result := collect_capture_of (canary_capture_limit Stderr) Stderr in
        let*? (stdout, stdout_truncated) := Ret stdout_result in
        let*? (_, stderr_truncated) := Ret stderr_result in
        if negb success || stdout_truncated || stderr_truncated || is_empty (trim stdout)
        then fail_run (TransientFailed (lit "runtime canary unit failed or produced incomplete bounded output"))
        else Ret (Ok stdout).

(** ** Preparation, run and clean-up *)

Definition run_error (e : TransientError) : RunError :=
  match e with
  | TransientCancelled operation => CancelledWork operation
  | AuthorisedPeerExited phase => OtherError (lit "authorised bot caller exited " ++ phase)
  | TransientFailed message => OtherError message
  | OutOfFuel => OtherError []
  end.

Definition error_text (e : RunError) : str := match e with CancelledWork m | OtherError m => m end.

Definition finalise_execution (execution : result TransientError IsolatedRunResult) (cleanup : result RunError unit)
  : result IsolatedExecutionError IsolatedRunResult :=
  match execution, cleanup with
  | Ok r, Ok _ => Ok r
  | Err e, Ok _ => if is_cancellation_error (run_error e) then Err Cancelled else Err (ExecutionFailedError (error_text (run_error e)))
  | Ok _, Err e => Err (ExecutionFailedError (lit "failed to clean consumed runtime workspace: " ++ error_text e))
  | Err e, Err c =>
      Err (ExecutionFailedError (error_text (run_error e) ++ lit "; failed to clean consumed runtime workspace: " ++ error_text c))
  end.

(** [prepare_execution] and the clean-up run under the watchdog, whose failures are those of
    the call. [None]: the run is still in one of its loops. *)
Definition execute (fuel : nat) (request : ExecuteRequest)
  : rprog (option (result IsolatedExecutionError IsolatedRunResult)) :=
  let* prepared := (perform Prepare : rprog (result RunError (result PreparationError TransientRunPlan))) in
  match prepared with
  | Err e => Ret (Some (Err (ExecutionFailedError (error_text e))))
  | Ok (Err (PreparationFailed e)) =>
      Ret (Some (Err (if is_cancellation_error e then Cancelled else ExecutionFailedError (error_text e))))
  | Ok (Err (PreparationUnavailable e)) => Ret (Some (Err (Unavailable (error_text e))))
  | Ok (Err PreparationCancelled) => Ret (Some (Err Cancelled))
  | Ok (Ok plan) =>
      let* execution := run_transient_with_peer fuel plan (prompt request) (timeout_seconds request) (output_char_limit request) in
      match execution with
      | Err OutOfFuel => Ret None
      | _ =>
          let* cleanup := (perform Cleanup : rprog (result RunError unit)) in
          Ret (Some (finalise_execution execution cleanup))
      end
  end.
