(* ===== verification/IsolatedRunRules.v ===== *)
(** * What supervision guarantees

    No transient unit is left behind, the workspace is cleaned once and only after the run
    is over, an answer is the bounded output of a run that succeeded in time under a living
    peer; and the loops end. *)

From S2P Require Import Prelude Effects Text Capture LauncherProtocol CodexLauncher IsolatedPlan IsolatedRun.

Local Open Scope N_scope.

Abbreviation ev := (event run_answer) (only parsing).

(** ** Events *)

(** The unit was told to stop and [systemd-run] was waited for. *)
Definition stopped (unit_name : str) (h : list ev) : Prop :=
  (exists started, (Ev (SpawnStop unit_name) started : ev) ∈ h) /\ exists limit ended, (Ev (WaitFor RunChild limit) ended : ev) ∈ h.

Definition exited (h : list ev) (success : bool) : Prop := (Ev WaitChild (Ready (Some success)) : ev) ∈ h.

(** Nobody asked to cancel, and the peer was alive whenever it was looked at. *)
Definition disturbing (e : ev) : bool :=
  match e with
  | Ev c a => match c return run_answer c -> bool with
              | CancelRequested => fun cancelled => cancelled
              | PeerAlive => fun alive => negb alive
              | _ => fun _ => false
              end a
  end.

Definition undisturbed (h : list ev) : Prop := any disturbing h = false.

(** The unit an event starts. *)
Definition starts (e : ev) : option TransientRunPlan :=
  match e with
  | Ev c a => match c return run_answer c -> option TransientRunPlan with
              | Spawn plan => fun started => if started then Some plan else None
              | _ => fun _ => None
              end a
  end.

Definition spawned (h : list ev) (plan : TransientRunPlan) : Prop := plan ∈ omap starts h.

(** No unit runs any more, as far as the supervisor can tell. *)
Definition settled (h : list ev) : Prop :=
  forall plan, spawned h plan -> stopped (unit_name plan) h \/ exists success, exited h success.

(** Calls below a started run. *)
Definition inner (c : run_call) : bool :=
  match c with
  | Prepare | Cleanup | Spawn _ => false
  | _ => true
  end.

Definition outer (h : list ev) : list ev := List.filter (fun e => negb (inner (ev_call e))) h.

Definition supervised (h : list ev) (c : run_call) : Prop :=
  match c with
  | Prepare => h = []
  | Spawn plan => outer h = [Ev Prepare (Ok (Ok plan))] /\ undisturbed h
  | SpawnStop u => exists plan, spawned h plan /\ unit_name plan = u
  | Cleanup => settled h /\ exists plan,
      outer h = [Ev Prepare (Ok (Ok plan))] \/ exists started, outer h = [Ev (Spawn plan) started; Ev Prepare (Ok (Ok plan))]
  | _ => True
  end.

Lemma undisturbed_cons e h : undisturbed h -> disturbing e = false -> undisturbed (e :: h).
Proof. unfold undisturbed. intros Hh He. cbn. by rewrite He. Qed.

Lemma stopped_extends u h h' : stopped u h -> extends h h' -> stopped u h'.
Proof.
  intros [(s & H1) (l & e & H2)] Hx. split; [exists s|exists l, e]; by eapply extends_in.
Qed.

Lemma spawned_extends h h' plan : spawned h plan -> extends h h' -> spawned h' plan.
Proof. unfold spawned. intros Hs (t & ->). rewrite omap_app. apply elem_of_app. by right. Qed.

Lemma starts_outer h : omap starts h = omap starts (outer h).
Proof.
  induction h as [|[c a] h IH]; [done|]. unfold outer in *. cbn [List.filter ev_call].
  destruct c; cbn [inner negb]; cbn; by rewrite IH.
Qed.

(** ** Stopping *)

Lemma terminate_systemd_run_rule c h :
  wp supervised (terminate_systemd_run c)
    (fun h' _ => extends h h' /\ exists limit ended, (Ev (WaitFor c limit) ended : ev) ∈ h') h.
Proof.
  unfold terminate_systemd_run. rewrite wp_bind. cbn. split; [done|]. intros [|].
  - cbn. split; [done|]. intros []. split; [done|]. intros [|]; cbn.
    + split; [auto with trace|]. eexists _, _. by left.
    + split; [done|]. intros []. split; [done|]. intros ended. split; [auto 10 with trace|]. eexists _, ended. by left.
  - cbn. split; [done|]. intros ended. split; [auto with trace|]. eexists _, ended. by left.
Qed.

Lemma stop_unit_rule u h plan : spawned h plan -> unit_name plan = u ->
  wp supervised (stop_unit u) (fun h' r => extends h h' /\ r <> Err OutOfFuel /\ exists started, (Ev (SpawnStop u) started : ev) ∈ h') h.
Proof.
  intros Hs Hu. unfold stop_unit, fail_run. rewrite wp_bind. cbn [perform wp]. split; [by exists plan|].
  intros started. destruct started; cbn [negb].
  2:{ cbn. split; [auto with trace|]. split; [done|]. eexists. by left. }
  rewrite wp_bind. cbn [perform wp]. split; [done|]. intros [[[|]|]|]; cbn [wp].
  1-3: split; [auto with trace|]; split; [done|]; eexists; right; by left.
  rewrite wp_bind. eapply wp_consequence; [apply terminate_systemd_run_rule|]. intros h' [] [Hx _]. cbn.
  split; [eauto with trace|]. split; [done|]. exists true. eapply extends_in; [exact Hx|]. right. by left.
Qed.

Lemma terminate_rule u h plan : spawned h plan -> unit_name plan = u ->
  wp supervised (terminate_and_discard_captures u) (fun h' r => extends h h' /\ r <> Err OutOfFuel /\ stopped u h') h.
Proof.
  intros Hs Hu. unfold terminate_and_discard_captures, terminate_transient_unit. rewrite !wp_bind.
  eapply wp_consequence; [by eapply stop_unit_rule|]. intros h1 r (Hx1 & Hr & Hstop). rewrite wp_bind.
  eapply wp_consequence; [apply terminate_systemd_run_rule|]. intros h2 [] [Hx2 Hwait]. cbn.
  split; [done|]. intros []. split; [eauto with trace|]. split; [done|]. split.
  - destruct Hstop as (s & Hstop). exists s. eapply extends_in; [|exact Hstop]. auto with trace.
  - destruct Hwait as (l & e & Hw). exists l, e. by right.
Qed.

Lemma stop_with_rule {A} u h plan (r : result TransientError A) :
  spawned h plan -> unit_name plan = u -> r <> Err OutOfFuel ->
  wp supervised (stop_with u r)
    (fun h' r' => extends h h' /\ stopped u h' /\ r' <> Err OutOfFuel /\ forall a, r' = Ok a -> r = Ok a) h.
Proof.
  intros Hs Hu Hr. unfold stop_with. rewrite wp_bind_ok. eapply wp_consequence; [by eapply terminate_rule|].
  intros h' [[]|e] (Hx & He & Hst); cbn [wp]; split_and!; try done; congruence.
Qed.

(** ** Waiting *)

Lemma poll_rule deadline h : undisturbed h ->
  wp supervised (poll deadline) (fun h' v => extends h h' /\ (v = GoOn \/ v = DeadlinePassed -> undisturbed h')) h.
Proof.
  intros Hu. unfold poll. rewrite wp_bind. cbn [perform wp]. split; [done|]. intros [|]; cbn [wp].
  { split; [auto with trace|]. by intros [|]. }
  rewrite wp_bind. cbn [perform wp]. split; [done|]. intros [|]; cbn [negb wp].
  - rewrite wp_bind. cbn [perform wp]. split; [done|]. intros now. split; [auto with trace|]. intros _.
    by repeat (apply undisturbed_cons; [|done..]).
  - split; [auto with trace|]. by intros [|].
Qed.

Lemma write_prompt_rule fuel prompt deadline h : undisturbed h ->
  wp supervised (write_prompt fuel prompt deadline)
    (fun h' r => extends h h' /\ (r = Some (PromptCompleted true) -> undisturbed h')) h.
Proof.
  revert h. induction fuel as [|fuel IH]; intros h Hu; cbn [write_prompt]; [by cbn|].
  rewrite wp_bind. cbn [perform wp]. split; [done|]. intros [written|]; cbn [wp].
  - split; [auto with trace|]. intros _. by apply undisturbed_cons.
  - rewrite wp_bind. eapply wp_consequence; [by apply poll_rule, undisturbed_cons|].
    intros h1 v [Hx Hv]. destruct v; cbn [wp]; try (split; [eauto with trace|done]).
    eapply wp_consequence; [apply IH, Hv; by left|]. intros h2 r [Hx2 Hr]. split; [eauto with trace|done].
Qed.

(** What the wait for the exit status ends with. *)
Definition waited (plan : TransientRunPlan) (h : list ev) (r : result TransientError (bool + IsolatedRunResult)) : Prop :=
  match r with
  | Ok (inl success) => exited h success /\ undisturbed h
  | Ok (inr r) => stopped (unit_name plan) h /\ r = RunTimedOut
  | Err OutOfFuel => True
  | Err _ => stopped (unit_name plan) h
  end.

Lemma wait_status_rule fuel plan deadline h : undisturbed h -> spawned h plan ->
  wp supervised (wait_status fuel (unit_name plan) deadline) (fun h' r => extends h h' /\ waited plan h' r) h.
Proof.
  revert h. induction fuel as [|fuel IH]; intros h Hu Hs; cbn [wait_status]; [by cbn|].
  assert (forall h1 (r : result TransientError (bool + IsolatedRunResult)), extends h h1 ->
    (r = Ok (inr RunTimedOut) \/ exists e, r = Err e /\ e <> OutOfFuel) ->
    wp supervised (stop_with (unit_name plan) r) (fun h' r => extends h h' /\ waited plan h' r) h1) as Hstop.
  { intros h1 r Hx Hr. eapply wp_consequence.
    - apply (stop_with_rule _ _ plan); [by eapply spawned_extends|done|]. destruct Hr as [->|(e & -> & He)]; congruence.
    - intros h2 r' (Hx2 & Hst & Hne & Ha). split; [eauto with trace|].
      destruct r' as [a|[]]; cbn; try done. specialize (Ha a eq_refl).
      destruct Hr as [->|(e & -> & _)]; [|done]. by injection Ha as <-. }
  rewrite wp_bind. cbn [perform wp]. split; [done|]. intros [[success|]|]; cbn [wp].
  - split; [auto with trace|]. split; [by left|]. by apply undisturbed_cons.
  - apply Hstop; [auto with trace|]. right. by eexists.
  - rewrite wp_bind. eapply wp_consequence; [by apply poll_rule, undisturbed_cons|].
    intros h1 v [Hx Hv]. assert (extends h h1) as Hx1 by eauto with trace. destruct v; cbn [wp].
    + eapply wp_consequence; [apply IH; [apply Hv; by left|by eapply spawned_extends]|].
      intros h2 r [Hx2 Hr]. split; [eauto with trace|done].
    + apply Hstop; [done|]. right. by eexists.
    + apply Hstop; [done|]. right. by eexists.
    + apply Hstop; [done|]. by left.
Qed.

(** ** Output *)

(** The bytes of standard output, read to their end. *)
Definition captured (h : list ev) (bytes : list (list N)) : Prop :=
  exists limit, (Ev (JoinCapture Stdout limit) (Some (Some (map Some bytes))) : ev) ∈ h.

(** An answer is what the captured bytes say, cut at the limits and marked when it is cut. *)
Definition faithful (h : list ev) (limit : N) (out : str) (cut : bool) : Prop :=
  exists bytes, captured h bytes
    /\ let text := trim (from_utf8_lossy (take_N OUTPUT_CAPTURE_BYTES (concat bytes))) in
       out = take_N limit text /\ out <> []
       /\ cut = (OUTPUT_CAPTURE_BYTES <? len (concat bytes)) || (limit <? char_count text).

Lemma bounded_output_completed stdout t limit out cut : 0 < limit ->
  bounded_output stdout t limit = RunCompleted out cut ->
  out = take_N limit (trim stdout) /\ out <> [] /\ cut = t || (limit <? char_count (trim stdout)).
Proof.
  intros Hl. unfold bounded_output. destruct (is_empty (trim stdout)) eqn:E; [done|]. apply is_empty_false in E.
  intros [= <- <-]. destruct (N.ltb_spec limit (char_count (trim stdout))) as [Hc|Hc].
  - split_and!; [done| |done]. destruct (trim stdout) as [|c s]; [done|]. cbn. by destruct (N.eqb_spec limit 0); [lia|].
  - rewrite take_N_all by done. done.
Qed.

Lemma collect_capture_rule s h :
  wp supervised (collect_capture s) (fun h' r => extends h h' /\ (undisturbed h -> undisturbed h') /\ r <> Err OutOfFuel
    /\ forall text t, r = Ok (text, t) -> exists bytes limit, (Ev (JoinCapture s limit) (Some (Some (map Some bytes))) : ev) ∈ h'
         /\ text = from_utf8_lossy (take_N (capture_limit s) (concat bytes)) /\ t = (capture_limit s <? len (concat bytes))) h.
Proof.
  unfold collect_capture, collect_capture_of. rewrite wp_bind. cbn [perform wp]. split; [done|]. intros joined.
  split; [auto with trace|]. split; [intros Hu; by apply undisturbed_cons|].
  destruct joined as [[chunks|]|]; cbn; [|done..]. destruct (read_limited (capture_limit s) chunks) as [r|] eqn:E; cbn; [|done].
  split; [done|]. intros text t [= ->]. apply read_limited_ok in E as (bytes & -> & [= -> ->]).
  eexists bytes, _. split; [by left|done].
Qed.

(** How a started run ends. *)
Definition run_outcome (plan : TransientRunPlan) (limit : N) (h : list ev) (r : result TransientError IsolatedRunResult) : Prop :=
  (r = Err OutOfFuel \/ stopped (unit_name plan) h \/ exists success, exited h success)
  /\ forall out cut, r = Ok (RunCompleted out cut) -> exited h true /\ undisturbed h /\ faithful h limit out cut.

Lemma collect_output_rule deadline limit success plan h : 0 < limit -> undisturbed h -> exited h success ->
  wp supervised (collect_output deadline limit success) (fun h' r => extends h h' /\ run_outcome plan limit h' r) h.
Proof.
  intros Hl Hu He. unfold collect_output. rewrite wp_bind. eapply wp_consequence; [apply collect_capture_rule|].
  intros h1 r1 (Hx1 & Hu1 & _ & Hr1). rewrite wp_bind. eapply wp_consequence; [apply collect_capture_rule|].
  intros h2 r2 (Hx2 & Hu2 & _ & _).
  assert (extends h h2) as Hx by eauto with trace.
  assert (forall r, (forall out cut, r = Ok (RunCompleted out cut) -> exited h2 true /\ undisturbed h2 /\ faithful h2 limit out cut) ->
    extends h h2 /\ run_outcome plan limit h2 r) as Hend.
  { intros r Hr. split; [done|]. split; [|done]. right. right. exists success. by eapply extends_in. }
  rewrite wp_bind_ok. destruct r1 as [[text t]|e]; cbn [wp]; [|by apply Hend].
  rewrite wp_bind_ok. destruct r2 as [[? ?]|e]; cbn [wp]; [|by apply Hend].
  destruct success; cbn [negb].
  - cbn [wp]. apply Hend. intros out cut [= Hb]. destruct (Hr1 text t eq_refl) as (bytes & lim & Hin & -> & ->).
    apply bounded_output_completed in Hb as (Ho & Hn & Hc); [|done].
    split; [by eapply extends_in|]. split; [auto|]. exists bytes. split; [|done]. exists lim. eapply extends_in; [exact Hx2|exact Hin].
  - rewrite wp_bind. cbn [perform wp]. split; [done|]. intros now. split; [auto with trace|].
    split; [|destruct (deadline <=? now); intros ? ? [=]]. right. right. exists false. right. by eapply extends_in.
Qed.

(** ** The run *)

(** Calls below a run keep the outer events. *)
Lemma terminate_systemd_run_inner c : calls_only inner (terminate_systemd_run c).
Proof. unfold terminate_systemd_run. calls_only. Qed.
#[local] Hint Resolve terminate_systemd_run_inner : calls_only.

Lemma stop_unit_inner u : calls_only inner (stop_unit u).
Proof. unfold stop_unit, fail_run. calls_only. Qed.
#[local] Hint Resolve stop_unit_inner : calls_only.

Lemma stop_with_inner {A} u (r : result TransientError A) : calls_only inner (stop_with u r).
Proof. unfold stop_with, terminate_and_discard_captures, terminate_transient_unit, discard_captures. calls_only. Qed.
#[local] Hint Resolve stop_with_inner : calls_only.

Lemma poll_inner d : calls_only inner (poll d).
Proof. unfold poll. calls_only. Qed.

Lemma write_prompt_inner fuel text d : calls_only inner (write_prompt fuel text d).
Proof.
  induction fuel as [|fuel IH]; cbn [write_prompt]; [apply calls_only_ret|]. apply calls_only_bind; [calls_only_call|].
  intros [w|]; [apply calls_only_ret|]. apply calls_only_bind; [apply poll_inner|]. by intros [].
Qed.

Lemma wait_status_inner fuel u d : calls_only inner (wait_status fuel u d).
Proof.
  induction fuel as [|fuel IH]; cbn [wait_status]; [apply calls_only_ret|]. apply calls_only_bind; [calls_only_call|].
  intros [[b|]|]; [apply calls_only_ret|apply stop_with_inner|]. apply calls_only_bind; [apply poll_inner|].
  intros []; first [exact IH|apply stop_with_inner].
Qed.

Lemma collect_output_inner d limit s : calls_only inner (collect_output d limit s).
Proof. unfold collect_output, collect_capture, collect_capture_of. calls_only. Qed.

(** A rule with the outer events kept. *)
Lemma with_outer {A} (p : rprog A) Q h : calls_only inner p -> wp supervised p Q h ->
  wp supervised p (fun h' r => Q h' r /\ extends h h' /\ outer h' = outer h) h.
Proof.
  intros Hp Hw. eapply wp_mono; [apply (wp_and _ _ _ _ _ _ Hw (wp_calls_only inner p h Hp))|..].
  - by intros h' c [].
  - intros h' a [Ha [Hx Ho]]. done.
Qed.

(** What is proved of a run. *)
Definition run_end (plan : TransientRunPlan) (limit : N) (h : list ev) (r : result TransientError IsolatedRunResult) : Prop :=
  (outer h = [Ev Prepare (Ok (Ok plan))] \/ exists started, outer h = [Ev (Spawn plan) started; Ev Prepare (Ok (Ok plan))])
  /\ (r = Err OutOfFuel \/ settled h)
  /\ forall out cut, r = Ok (RunCompleted out cut) -> exited h true /\ undisturbed h /\ faithful h limit out cut.

(** Nothing was started. *)
Lemma not_started plan limit h r :
  omap starts (outer h) = [] ->
  outer h = [Ev Prepare (Ok (Ok plan))] \/ (exists started, outer h = [Ev (Spawn plan) started; Ev Prepare (Ok (Ok plan))]) ->
  (forall out cut, r <> Ok (RunCompleted out cut)) -> run_end plan limit h r.
Proof.
  intros Hs Ho Hr. split; [done|]. split; [|by intros out cut ?%Hr]. right. intros p Hp.
  unfold spawned in Hp. rewrite starts_outer, Hs in Hp. by apply not_elem_of_nil in Hp.
Qed.

(** The started unit is stopped or has exited. *)
Lemma run_outcome_end plan limit h r :
  outer h = [Ev (Spawn plan) true; Ev Prepare (Ok (Ok plan))] -> run_outcome plan limit h r -> run_end plan limit h r.
Proof.
  intros Ho [Hs Hr]. split; [right; by exists true|]. split; [|done]. destruct Hs as [->|Hs]; [by left|right].
  intros p Hp. unfold spawned in Hp. rewrite starts_outer, Ho in Hp. cbn in Hp. by apply list_elem_of_singleton in Hp as ->.
Qed.

Lemma run_rule fuel plan text timeout limit h : 0 < limit ->
  outer h = [Ev Prepare (Ok (Ok plan))] -> undisturbed h ->
  wp supervised (run_transient_with_peer fuel plan text timeout limit) (run_end plan limit) h.
Proof.
  intros Hl Ho Hu. unfold run_transient_with_peer, fail_run.
  assert (forall h' e, outer h' = outer h -> run_end plan limit h' (Err e)) as Hearly.
  { intros h' e He. rewrite Ho in He. apply not_started; [by rewrite He|by left|done]. }
  rewrite wp_bind. cbn [perform wp]. split; [done|]. intros [|]; cbn [wp]; [by apply Hearly|].
  rewrite wp_bind. cbn [perform wp]. split; [done|]. intros [|]; cbn [negb wp]; [|by apply Hearly].
  rewrite wp_bind. cbn [perform wp]. split; [done|]. intros now. rewrite wp_bind. cbn [perform wp]. split.
  { split; [done|]. by repeat (apply undisturbed_cons; [|done]). }
  intros started. set (h1 := Ev (Spawn plan) started :: _).
  assert (outer h1 = [Ev (Spawn plan) started; Ev Prepare (Ok (Ok plan))]) as Ho1 by (unfold outer in *; cbn; by rewrite Ho).
  assert (undisturbed h1) as Hu1 by (by repeat (apply undisturbed_cons; [|done])).
  destruct started; cbn [negb wp].
  2:{ apply not_started; [by rewrite Ho1|right; by exists false|done]. }
  assert (spawned h1 plan) as Hs1 by (by left).
  assert (forall h2 r, extends h1 h2 -> outer h2 = outer h1 -> r <> Err OutOfFuel -> (forall out cut, r <> Ok (RunCompleted out cut)) ->
    wp supervised (stop_with (unit_name plan) r) (run_end plan limit) h2) as Hstop.
  { intros h2 r Hx Ho2 Hf Hr. eapply wp_consequence.
    - apply with_outer; [apply stop_with_inner|]. by apply (stop_with_rule _ _ plan); [eapply spawned_extends|..].
    - intros h3 r' ((Hx3 & Hst & Hne & Ha) & _ & Ho3). apply run_outcome_end; [by rewrite Ho3, Ho2|].
      split; [by right; left|]. intros out cut ->. destruct (Hr out cut). by apply Ha. }
  rewrite wp_bind. eapply wp_consequence; [by apply with_outer; [apply write_prompt_inner|apply write_prompt_rule]|].
  intros h2 outcome ((_ & Hp) & Hx2 & Ho2). cbn beta in *.
  destruct outcome as [[[|]| | |]|]; cbn [wp]; try by apply Hstop.
  2:{ apply run_outcome_end; [by rewrite Ho2|]. split; [by left|done]. }
  specialize (Hp eq_refl). rewrite wp_bind_ok.
  eapply wp_consequence; [by apply with_outer; [apply wait_status_inner|apply wait_status_rule; [|eapply spawned_extends]]|].
  intros h3 status ((_ & Hw) & Hx3 & Ho3). cbn beta in *.
  assert (outer h3 = [Ev (Spawn plan) true; Ev Prepare (Ok (Ok plan))]) as Ho13 by (by rewrite Ho3, Ho2).
  destruct status as [[success|r]|e]; cbn [waited wp] in *.
  - destruct Hw as [He Hu3]. rewrite wp_bind. cbn [perform wp]. split; [done|]. intros now2.
    destruct (_ <=? now2); cbn [wp].
    + rewrite wp_bind. unfold discard_captures. rewrite wp_bind. cbn [perform wp]. split; [done|]. intros [].
      apply run_outcome_end; [done|]. split; [|done]. right. right. exists success. right. by right.
    + eapply wp_consequence; [apply with_outer; [apply collect_output_inner|]|].
      * apply (collect_output_rule _ _ success plan); [done|by apply undisturbed_cons|by right].
      * intros h4 r ((_ & Hr) & _ & Ho4). cbn beta in *. apply run_outcome_end; [by rewrite Ho4|done].
  - destruct Hw as [Hst ->]. apply run_outcome_end; [done|]. split; [by right; left|done].
  - apply run_outcome_end; [done|]. split; [|done]. destruct e; [by right; left..|by left].
Qed.

(** What is proved of an execution that returned. *)
Definition execution_end (limit : N) (h : list ev) (r : option (result IsolatedExecutionError IsolatedRunResult)) : Prop :=
  (r <> None -> settled h)
  /\ (r <> None -> forall plan, (Ev Prepare (Ok (Ok plan)) : ev) ∈ h -> exists cleaned rest, h = Ev Cleanup cleaned :: rest)
  /\ forall out cut, r = Some (Ok (RunCompleted out cut)) ->
       exited h true /\ undisturbed h /\ faithful h limit out cut /\ (Ev Cleanup (Ok tt) : ev) ∈ h.

Lemma settled_cons e h : settled h -> starts e = None -> settled (e :: h).
Proof.
  intros Hs He plan Hp. unfold spawned in Hp. cbn in Hp. rewrite He in Hp.
  destruct (Hs plan Hp) as [Hst|(b & Hb)]; [left|right; exists b; by right].
  eapply stopped_extends; [exact Hst|]. auto with trace.
Qed.

Lemma execute_rule fuel request : 0 < output_char_limit request ->
  wp supervised (execute fuel request) (execution_end (output_char_limit request)) [].
Proof.
  intros Hl. unfold execute. rewrite wp_bind. cbn [perform wp]. split; [done|]. intros prepared.
  set (h := [Ev Prepare prepared] : list ev).
  assert (forall x, (forall plan, prepared <> Ok (Ok plan)) -> (forall r, x <> Ok r) ->
    execution_end (output_char_limit request) h (Some x)) as Hearly.
  { intros x Hp Hx. split; [|split].
    - intros _ plan Hs. by apply not_elem_of_nil in Hs.
    - intros _ plan Hin. exfalso. apply list_elem_of_singleton in Hin.
      assert (forall e e' : ev, e = e' -> forall q, (match e with Ev c a => match c return run_answer c -> Prop with Prepare => fun a => a = Ok (Ok q) | _ => fun _ => False end a end) ->
               match e' with Ev c a => match c return run_answer c -> Prop with Prepare => fun a => a = Ok (Ok q) | _ => fun _ => False end a end) as Htr by (by intros ? ? ->).
      exact (Hp plan (Htr _ _ Hin plan eq_refl)).
    - by intros out cut [= ?%Hx]. }
  destruct prepared as [[plan|[e|e|]]|e]; cbn [wp]; try by apply Hearly.
  rewrite wp_bind. eapply wp_consequence; [by apply run_rule|]. intros h1 execution (Ho & Hs & Hc).
  assert (execution = Err OutOfFuel \/ execution <> Err OutOfFuel) as [->|Hne] by (destruct execution as [|[]]; (by left) || by right).
  { cbn. split; [done|]. split; [done|]. done. }
  destruct Hs as [|Hs]; [done|].
  assert (wp supervised (let* cleanup := (perform Cleanup : rprog (result RunError unit)) in Ret (Some (finalise_execution execution cleanup)))
    (execution_end (output_char_limit request)) h1) as Hfinal.
  { rewrite wp_bind. cbn [perform wp]. split; [split; [done|by exists plan]|]. intros cleaned. split; [|split].
    - intros _. by apply settled_cons.
    - intros _ _ _. by eexists _, _.
    - intros out cut [= Hf]. destruct execution as [r|e], cleaned as [[]|e']; cbn in Hf; try done; [|by destruct (is_cancellation_error _)].
      injection Hf as ->. destruct (Hc out cut eq_refl) as (He & Hu & (bytes & (lim & Hb) & Hrest)). split; [by right|].
      split; [by apply undisturbed_cons|]. split; [|by left]. exists bytes. split; [|done]. exists lim. by right. }
  destruct execution as [r|[]]; first [exact Hfinal|done].
Qed.


(** ** The loops end *)

(** Ticks seen so far. *)
Definition is_tick (e : ev) : bool :=
  match e with
  | Ev c a => match c return run_answer c -> bool with
              | WritePrompt _ => fun r => match r with Tick => true | Ready _ => false end
              | WaitChild => fun r => match r with Tick => true | Ready _ => false end
              | _ => fun _ => false
              end a
  end.

Definition ticks (h : list ev) : N := len (List.filter is_tick h).

(** [sleep] waits at least as long as it is told to and the clock does not go back: between
    two readings lie the ticks in between. *)
Definition clock_law (env : environment run_answer) : Prop :=
  forall h h', extends h h' -> env h Now + PEER_POLL_INTERVAL * (ticks h' - ticks h) <= env h' Now.

Lemma ticks_cons e h : ticks (e :: h) = (if is_tick e then 1 else 0) + ticks h.
Proof. unfold ticks. cbn. destruct (is_tick e); [rewrite len_cons; lia|lia]. Qed.

Lemma ticks_extends h h' : extends h h' -> ticks h <= ticks h'.
Proof. intros (t & ->). unfold ticks. rewrite List.filter_app, len_app. lia. Qed.

Lemma poll_ticks env deadline h h' : exec env h (poll deadline) = (h', GoOn) ->
  extends h h' /\ ticks h' = ticks h /\ exists hn, extends h hn /\ ticks hn = ticks h /\ env hn Now < deadline.
Proof.
  intros He. split; [pose proof (exec_extends env h (poll deadline)) as Hx; by rewrite He in Hx|].
  unfold poll in He. rewrite exec_bind in He. cbn in He. destruct (env h CancelRequested) eqn:Ec; cbn in He; [done|].
  destruct (env _ PeerAlive) eqn:Ep; cbn in He; [|done]. set (hn := _ :: _ :: h) in He.
  assert (ticks hn = ticks h) as Ht by (unfold hn; by rewrite !ticks_cons).
  destruct (N.leb_spec deadline (env hn Now)) as [|Hl]; [done|]. injection He as <-.
  split; [by rewrite ticks_cons|]. exists hn. split; [unfold hn; auto with trace|done].
Qed.

Section clock.
Context (env : environment run_answer) (start : list ev) (timeout_seconds : N).
Hypothesis Hclock : clock_law env.
Abbreviation deadline := (env start Now + timeout_seconds * 1000).

(** The fuel that is left covers the ticks that fit before the deadline. *)
Definition enough (fuel : nat) (h : list ev) : Prop :=
  extends start h /\ (fuel <> 0)%nat /\ 4 * timeout_seconds <= ticks h - ticks start + N.of_nat fuel.

(** A tick that does not pass the deadline leaves fuel for another one. *)
Lemma enough_step fuel h h' round : is_tick round = true -> enough (S fuel) h ->
  exec env (round :: h) (poll deadline) = (h', GoOn) -> enough fuel h'.
Proof.
  intros Hr (Hx & _ & Hf) He. apply poll_ticks in He as (Hx' & Ht & hn & Hxn & Htn & Hn).
  assert (extends start hn) as Hsn by (eapply extends_trans; [exact Hx|]; eapply extends_trans; [|exact Hxn]; auto with trace).
  pose proof (Hclock start hn Hsn) as Hc. pose proof (ticks_extends _ _ Hx).
  rewrite ticks_cons, Hr in Ht, Htn. rewrite Htn in Hc. unfold PEER_POLL_INTERVAL in Hc.
  assert (extends start h') as Hs' by (eapply extends_trans; [exact Hx|]; eapply extends_trans; [|exact Hx']; auto with trace).
  split; [done|]. split; [|rewrite Ht; lia]. intros ->. lia.
Qed.

Lemma write_prompt_ends fuel text h : enough fuel h -> (exec env h (write_prompt fuel text deadline)).2 <> None.
Proof.
  revert h. induction fuel as [|fuel IH]; intros h He; [by destruct He as (_ & [] & _)|]. cbn [write_prompt].
  rewrite exec_bind. cbn [perform exec fst snd]. destruct (env h (WritePrompt text)) as [w|] eqn:Er; [done|].
  rewrite exec_bind. destruct (exec env (Ev (WritePrompt text) Tick :: h) (poll deadline)) as [h' v] eqn:Ep. cbn [fst snd].
  destruct v; [|done..]. apply IH. by apply (enough_step _ _ _ (Ev (WritePrompt text) Tick) eq_refl He Ep).
Qed.

Lemma stop_with_not_fuel {A} u h (r : result TransientError A) : r <> Err OutOfFuel -> (exec env h (stop_with u r)).2 <> Err OutOfFuel.
Proof.
  intros Hr. assert (wp (fun _ _ => True) (stop_with u r) (fun _ r' => r' <> Err OutOfFuel) h) as Hw.
  { unfold stop_with, terminate_and_discard_captures, terminate_transient_unit, discard_captures. rewrite wp_bind_ok, !wp_bind.
    assert (wp (fun _ _ => True) (stop_unit u) (fun _ r => r <> Err OutOfFuel) h) as Hs.
    { unfold stop_unit, fail_run. rewrite wp_bind. cbn [perform wp]. split; [done|]. intros [|]; [|done]. cbn [negb].
      rewrite wp_bind. cbn [perform wp]. split; [done|]. intros [[[|]|]|]; [done..|]. cbn [wp].
      rewrite wp_bind. eapply wp_consequence; [apply wp_any|]. done. }
    eapply wp_consequence; [exact Hs|]. intros h1 r1 Hr1. rewrite wp_bind. eapply wp_consequence; [apply wp_any|].
    intros h2 [] _. cbn. split; [done|]. intros _. destruct r1 as [|e]; [done|]. congruence. }
  assert (guarded (fun (_ : list ev) (_ : run_call) => True) h) as Hg by (clear; by induction h).
  by apply (wp_exec _ _ _ env h Hw Hg).
Qed.

Lemma wait_status_ends fuel u h : enough fuel h -> (exec env h (wait_status fuel u deadline)).2 <> Err OutOfFuel.
Proof.
  revert h. induction fuel as [|fuel IH]; intros h He; [by destruct He as (_ & [] & _)|]. cbn [wait_status].
  rewrite exec_bind. cbn [perform exec fst snd]. destruct (env h WaitChild) as [[s|]|] eqn:Er; [done|by apply stop_with_not_fuel|].
  rewrite exec_bind. destruct (exec env (Ev WaitChild Tick :: h) (poll deadline)) as [h' v] eqn:Ep. cbn [fst snd].
  destruct v; [|by apply stop_with_not_fuel..]. apply IH. by apply (enough_step _ _ _ (Ev WaitChild Tick) eq_refl He Ep).
Qed.
End clock.

Lemma collect_capture_not_fuel env h s e : (exec env h (collect_capture s)).2 = Err e -> e <> OutOfFuel.
Proof.
  unfold collect_capture, collect_capture_of. rewrite exec_bind. cbn [perform exec fst snd].
  destruct (env h _) as [[chunks|]|]; cbn; [destruct (read_limited _ chunks); cbn|..]; congruence.
Qed.

Lemma collect_output_not_fuel env h d limit success : (exec env h (collect_output d limit success)).2 <> Err OutOfFuel.
Proof.
  unfold collect_output. rewrite exec_bind. pose proof (collect_capture_not_fuel env h Stdout) as H1.
  destruct (exec env h (collect_capture Stdout)) as [h1 r1]. cbn [fst snd] in *. rewrite exec_bind.
  pose proof (collect_capture_not_fuel env h1 Stderr) as H2. destruct (exec env h1 (collect_capture Stderr)) as [h2 r2]. cbn [fst snd] in *.
  destruct r1 as [[out cut]|e]; cbn; [|intros [= ->]; by eapply H1]. destruct r2 as [err|e]; cbn; [|intros [= ->]; by eapply H2].
  by destruct success.
Qed.

(** C35: Supervision ends. Under a clock that counts the waits, a run with a limit of [n]
    seconds is decided within [4 n] ticks of a quarter of a second in each loop, whatever the
    unit, the peer and the host do. *)
Theorem isolated_run_ends env fuel request : clock_law env ->
  (4 * N.to_nat (timeout_seconds request) < fuel)%nat -> (exec env [] (execute fuel request)).2 <> None.
Proof.
  intros Hc Hf. unfold execute. rewrite exec_bind. cbn [perform exec fst snd].
  destruct (env [] Prepare) as [[plan|[e|e|]]|e] eqn:Ep; [|done..]. rewrite exec_bind. set (h := [Ev Prepare (Ok (Ok plan))] : list ev).
  assert ((exec env h (run_transient_with_peer fuel plan (prompt request) (timeout_seconds request) (output_char_limit request))).2
          <> Err OutOfFuel) as Hr.
  { unfold run_transient_with_peer. rewrite exec_bind. cbn [perform exec fst snd]. destruct (env h CancelRequested); [done|].
    rewrite exec_bind. cbn [perform exec fst snd]. destruct (env _ PeerAlive); cbn [negb]; [|done].
    rewrite exec_bind. cbn [perform exec fst snd]. set (start := (_ :: _ :: h)). rewrite exec_bind. cbn [perform exec fst snd].
    set (started := env _ (Spawn plan)). destruct started eqn:Es; cbn [negb]; [|done].
    set (h1 := _ :: _ :: start). rewrite exec_bind.
    assert (enough start (timeout_seconds request) fuel h1) as He.
    { split; [unfold h1; auto with trace|]. split; [lia|]. unfold h1. rewrite !ticks_cons. cbn [is_tick]. lia. }
    pose proof (write_prompt_ends env start (timeout_seconds request) Hc fuel (prompt request) h1 He) as Hw.
    destruct (exec env h1 (write_prompt _ _ _)) as [h2 outcome] eqn:Ew. cbn [fst snd] in *.
    destruct outcome as [[[|]| | |]|]; try done; try by apply stop_with_not_fuel.
    unfold bind_ok. rewrite exec_bind.
    assert (extends h1 h2) as Hx by (pose proof (exec_extends env h1 (write_prompt fuel (prompt request) (env start Now + timeout_seconds request * 1000))) as Hx; by rewrite Ew in Hx).
    assert (enough start (timeout_seconds request) fuel h2) as He2.
    { destruct He as (Hx1 & Hz & Hn). split; [eauto with trace|]. split; [done|]. pose proof (ticks_extends _ _ Hx). lia. }
    pose proof (wait_status_ends env start (timeout_seconds request) Hc fuel (unit_name plan) h2 He2) as Hs.
    destruct (exec env h2 (wait_status _ _ _)) as [h3 status] eqn:Est. cbn [fst snd] in *.
    destruct status as [[success|r]|e]; [|done|by destruct e].
    rewrite exec_bind. cbn [perform exec fst snd]. destruct (_ <=? _); [done|apply collect_output_not_fuel]. }
  destruct (exec env h (run_transient_with_peer _ _ _ _ _)) as [h1 execution] eqn:Ex. cbn [fst snd] in *.
  destruct execution as [r|[]]; done.
Qed.

(** ** Witnesses *)

Definition sample_request : ExecuteRequest :=
  mkExecuteRequest (lit "run-1") (lit "msg") (lit "diagnose") (lit "/w") None None 2 4 true.

Definition sample_plan : TransientRunPlan := mkPlan (lit "webex-codex-run-1.service") (lit "/usr/bin/systemd-run") [] (lit "/w").

(** The host: the unit's rounds and the clock are given, everything else goes well. *)
Definition sample_env (child : select (option bool)) (cancelled : list ev -> bool) : environment run_answer :=
  fun h c =>
    match c return run_answer c with
    | CancelRequested => cancelled h
    | PeerAlive => true
    | Now => 250 * ticks h
    | Spawn _ | SpawnStop _ => true
    | WritePrompt _ => Ready true
    | WaitChild => child
    | WaitStop _ => Some (Some true)
    | ChildHasId _ => false
    | KillGroup _ _ => tt
    | WaitFor _ _ => true
    | DiscardCaptures => tt
    | JoinCapture Stdout _ => Some (Some [Some (lit "  answer"); Some [10]])
    | JoinCapture Stderr _ => Some (Some [])
    | Prepare => Ok (Ok sample_plan)
    | Cleanup => Ok tt
    end.

Lemma sample_clock child cancelled : clock_law (sample_env child cancelled).
Proof. intros h h' Hx%ticks_extends. cbn. unfold PEER_POLL_INTERVAL. lia. Qed.


(** A unit that never ends: the deadline of two seconds stops it. *)
Lemma isolated_run_ends_witness :
  clock_law (sample_env Tick (fun _ => false))
  /\ (exec (sample_env Tick (fun _ => false)) [] (execute 9 sample_request)).2 <> None
  /\ (exec (sample_env Tick (fun _ => false)) [] (execute 9 sample_request)).2 = Some (Ok RunTimedOut).
Proof.
  split; [apply sample_clock|]. split; [|vm_compute; reflexivity].
  apply (isolated_run_ends (sample_env Tick (fun _ => false)) 9 sample_request); [apply sample_clock|].
  vm_compute; lia.
Defined.

(** A cancellation in the fourth round stops the unit and wins over its result. *)
Example cancelled_run :
  let (h, r) := exec (sample_env Tick (fun h => 4 <=? ticks h)) [] (execute 9 sample_request) in
  r = Some (Err Cancelled) /\ (Ev Cleanup (Ok tt) : ev) ∈ h /\ stopped (unit_name sample_plan) h.
Proof.
  vm_compute exec. split; [done|]. split; [by left|]. split; [eexists|eexists _, _]; repeat first [by apply list_elem_of_here | apply list_elem_of_further].
Qed.
