(* ===== verification/WorkBudget.v ===== *)
(** * Work budgets

    [src/work_budget.rs]: deadlines and cancellation of blocking work, and the watchdog that
    ends the process when such work does not come back. Times are in milliseconds. *)

From S2P Require Import Prelude Text.

Local Open Scope N_scope.

Definition STUCK_WORK_EXIT_CODE : N := 70.

Inductive WorkBudgetError : Type :=
| BudgetCancelled (operation : str)
| BudgetDeadline (operation : str).

#[export] Instance WorkBudgetError_eq_dec : EqDecision WorkBudgetError.
Proof. solve_decision. Defined.

(** [WorkBudget], whose cancellation flag is read when it is checked. *)
Record WorkBudget : Type := mkBudget { budget_deadline : N }.

Definition with_cancellation (now duration : N) : WorkBudget := mkBudget (now + duration).

(** [WorkBudget::check] at the time [now]; the flag is looked at first. *)
Definition check (b : WorkBudget) (cancelled : bool) (now : N) (operation : str) : result WorkBudgetError unit :=
  fail_if cancelled (BudgetCancelled operation) ;?
  fail_if (budget_deadline b <=? now) (BudgetDeadline operation).

(** ** The watchdog *)

(** What the blocking work does: it returns at some time, or panics, which drops the sender. *)
Inductive work (T : Type) : Type :=
| Finishes (at_ : N) (value : T)
| Panics.
Arguments Finishes {T} at_ value.
Arguments Panics {T}.

(** What the watchdog thread receives: a message in time or at the latest moment, nothing
    until the end of its wait, or the end of the channel. *)
Inductive received : Type :=
| Message (completed_at : N)
| Timeout
| Disconnected.

Inductive watched (T : Type) : Type :=
| NotStarted
| Returned (value : T)
| TaskFailed
| Exited (code : N).
Arguments NotStarted {T}.
Arguments Returned {T} value.
Arguments TaskFailed {T}.
Arguments Exited {T} code.

(** The watchdog thread: [None] leaves the process alone without a confirmation. *)
Definition watchdog (deadline : N) (r : received) : option (option N) :=
  match r with
  | Message completed_at => if completed_at <=? deadline then Some None else Some (Some STUCK_WORK_EXIT_CODE)
  | Timeout => Some (Some STUCK_WORK_EXIT_CODE)
  | Disconnected => None
  end.

(** What [recv_timeout] can return for a piece of work; a message that arrives around the end
    of the wait may still be taken. *)
Definition delivers {T} (deadline : N) (w : work T) (r : received) : Prop :=
  match w, r with
  | Finishes at_ _, Message completed_at => completed_at = at_
  | Finishes at_ _, Timeout => deadline <= at_
  | Panics, Disconnected => True
  | _, _ => False
  end.

(** [started] is whether the watchdog thread could be started; the work is not begun without it. *)
Definition run_blocking_with_process_watchdog {T} (now hard_timeout : N) (started : bool) (w : work T) (r : received) : watched T :=
  if negb started then NotStarted
  else
  match watchdog (now + hard_timeout) r, w with
  | Some (Some code), _ => Exited code
  | Some None, Finishes _ value => Returned value
  | _, _ => TaskFailed
  end.

(** ** Lemmas *)

Lemma check_ok b cancelled now operation :
  check b cancelled now operation = Ok tt <-> cancelled = false /\ now < budget_deadline b.
Proof. unfold check. rewrite then_ok, !fail_if_ok, N.leb_gt. done. Qed.

(** Bounded work ends or the process does. Whatever the watchdog receives, a value is
    only returned for work that finished by the deadline, work that finishes later takes the
    process down with the fixed code, and a panic is reported as a failed task. *)
Theorem watchdog_bounds_work {T} (now hard_timeout : N) (started : bool) (w : work T) (r : received) :
  delivers (now + hard_timeout) w r ->
  match run_blocking_with_process_watchdog now hard_timeout started w r with
  | NotStarted => started = false
  | Returned value => exists at_, w = Finishes at_ value /\ at_ <= now + hard_timeout
  | Exited code => code = STUCK_WORK_EXIT_CODE /\ exists at_ value, w = Finishes at_ value /\ now + hard_timeout <= at_
  | TaskFailed => w = Panics
  end.
Proof.
  unfold run_blocking_with_process_watchdog. destruct started; [|done]. destruct w as [at_ value|], r as [completed_at| |]; cbn; try done.
  - intros ->. destruct (N.leb_spec at_ (now + hard_timeout)); [by exists at_|]. split; [done|]. exists at_, value. split; [done|lia].
  - intros Ha. split; [done|]. by exists at_, value.
Qed.

Lemma watchdog_bounds_work_witness :
  delivers (10 + 5) (Finishes 16 true) (Message 16) /\ run_blocking_with_process_watchdog 10 5 true (Finishes 16 true) (Message 16) = Exited 70
  /\ run_blocking_with_process_watchdog 10 5 true (Finishes 15 true) (Message 15) = Returned true.
Proof.
  pose proof (watchdog_bounds_work 10 5 true (Finishes 16 true) (Message 16) eq_refl) as [_ _]. repeat split.
Defined.
