(* ===== verification/Descriptors.v ===== *)
(** * Descriptors and directories

    The system calls through which [src/runner_input.rs], [src/input_sealer.rs] and
    [src/isolated_execution.rs] walk directory trees: every directory and file is opened
    relative to a held descriptor, without following symbolic links. The host may answer
    anything and change between any two calls.

    Closing is left out, so no descriptor number is ever used again; a listing of a directory
    is one call that answers with the whole stream, and so is [read_to_end]. The calls by
    path, of [src/activation.rs] and [src/isolated_execution.rs], take the components of the
    path. *)

From S2P Require Import Prelude Effects Text Paths WorkBudget.

Local Open Scope N_scope.

Abbreviation fd := N (only parsing).
Abbreviation bytes := (list N) (only parsing).

(** ** Metadata *)

Definition S_IFMT : N := 61440.
Definition S_IFDIR : N := 16384.
Definition S_IFREG : N := 32768.
Definition S_IFLNK : N := 40960.

Record StatSnapshot : Type := mkStat {
  st_device : N;
  st_inode : N;
  st_mode : N;
  st_links : N;
  st_uid : N;
  st_gid : N;
  st_size : Z;
  st_modified_seconds : Z;
  st_modified_nanoseconds : Z;
  st_changed_seconds : Z;
  st_changed_nanoseconds : Z
}.

#[export] Instance StatSnapshot_eq_dec : EqDecision StatSnapshot.
Proof. solve_decision. Defined.

Definition file_type (m : StatSnapshot) : N := N.land (st_mode m) S_IFMT.
Definition st_permissions (m : StatSnapshot) : N := N.land (st_mode m) 4095.

Record ObjectIdentity : Type := mkIdentity { id_device : N; id_inode : N }.

#[export] Instance ObjectIdentity_eq_dec : EqDecision ObjectIdentity.
Proof. solve_decision. Defined.

Definition identity (m : StatSnapshot) : ObjectIdentity := mkIdentity (st_device m) (st_inode m).

(** ** Errors *)

Definition ENOENT : N := 2.
Definition EPERM : N := 1.
Definition EEXIST : N := 17.
Definition ENODATA : N := 61.
Definition ENOTSUP : N := 95.

(** An [anyhow] error: an operating system error below any context, a message, an exceeded
    budget, or the texts of an error and of the failed clean-ups after it. [Exhausted] is not
    an outcome of the code: a recursion deeper than the stack that was allowed. *)
Inductive FsError : Type :=
| Os (errno : N)
| Bail (message : str)
| Budget (error : WorkBudgetError)
| AlsoFailed (error : FsError) (clean_ups : list FsError)
| Exhausted.

(** [error.downcast_ref::<io::Error>().and_then(raw_os_error)]. *)
Definition raw_os_error (e : FsError) : option N :=
  match e with
  | Os errno => Some errno
  | _ => None
  end.

(** ** Calls *)

Inductive access : Type := PathOnly | Readable | SourceFile.
Inductive acl : Type := AclAccess | AclDefault.

(** How a file or directory is opened by its path: for reading, a final symbolic link
    refused or followed; a directory for reading or as a mere reference. *)
Inductive path_access : Type := FileNoFollow | FileFollow | DirectoryNoFollow | DirectoryReference.

(** What a directory stream yields: names in order, then an error or the end, and what
    closing it answers. *)
Record Listing : Type := mkListing { ls_names : list bytes; ls_error : option N; ls_close : option N }.

Inductive fs_call : Type :=
| WorkCancelled
| Now
| OpenAnchor (anchor : bytes) (how : access)
| OpenAt (dir : fd) (name : bytes) (how : access)
| CreateAt (dir : fd) (name : bytes) (readable : bool) (mode : N)
| Fstat (f : fd)
| FstatAt (dir : fd) (name : bytes)
| ListDirectory (dir : fd)
| MkdirAt (dir : fd) (name : bytes) (mode : N)
| UnlinkAt (dir : fd) (name : bytes) (directory : bool)
| RenameNoReplace (old_dir : fd) (old_name : bytes) (new_dir : fd) (new_name : bytes)
| Fchmod (f : fd) (mode : N)
| Fchown (f : fd) (uid gid : N)
| ReadFd (f : fd) (limit : N)
| WriteAll (f : fd) (chunk : bytes)
| Rewind (f : fd)
| Fsync (f : fd)
| Syncfs (f : fd)
| Fgetxattr (f : fd) (attribute : acl)
| RandomBytes
| EffectiveUid
| NextSequence
| ProcessId
| Duplicate (f : fd)
| Getxattr (f : fd) (name : bytes)
| ReadToEnd (f : fd)
| Lstat (p : list Component)
| StatPath (p : list Component)
| OpenPath (p : list Component) (how : path_access)
| CreatePath (p : list Component) (mode : N)
| ReadDir (p : list Component)
| Canonicalize (p : list Component)
| ReadLink (p : list Component)
| RemoveFile (p : list Component)
| RenamePath (old new : list Component).

Definition fs_answer (c : fs_call) : Type :=
  match c with
  | WorkCancelled => bool
  | Now | EffectiveUid | NextSequence | ProcessId => N
  | OpenAnchor _ _ | OpenAt _ _ _ | CreateAt _ _ _ _ | Duplicate _ | OpenPath _ _ | CreatePath _ _ => result N fd
  | Fstat _ | FstatAt _ _ | Lstat _ | StatPath _ => result N StatSnapshot
  | ListDirectory _ | ReadDir _ => result N Listing
  | ReadFd _ _ | ReadToEnd _ => result N bytes
  | RandomBytes => option bytes
  | Fgetxattr _ _ | Getxattr _ _ => result N N
  | Canonicalize _ | ReadLink _ => result N path
  | _ => result N unit
  end.

Abbreviation fsprog A := (prog fs_answer (result FsError A)).

Definition os {A} (p : prog fs_answer (result N A)) : fsprog A := let* r := p in Ret (map_err Os r).

Definition fail {A} (e : FsError) : fsprog A := Ret (Err e).
Definition bail {A} (message : str) : fsprog A := fail (Bail message).

(** [if b { bail!(message) }]. *)
Definition bail_if (b : bool) (message : str) : fsprog unit := Ret (fail_if b (Bail message)).

Definition check_deadline (deadline : option WorkBudget) (operation : str) : fsprog unit :=
  match deadline with
  | None => Ret (Ok tt)
  | Some b =>
      let* cancelled := (perform WorkCancelled : prog fs_answer bool) in
      if cancelled then fail (Budget (BudgetCancelled operation))
      else
        let* now := (perform Now : prog fs_answer N) in
        Ret (map_err Budget (check b false now operation))
  end.

Definition stat_fd (f : fd) : fsprog StatSnapshot := os (perform (Fstat f)).
Definition stat_at (dir : fd) (name : bytes) : fsprog StatSnapshot := os (perform (FstatAt dir name)).
Definition open_directory_at (dir : fd) (name : bytes) (readable : bool) : fsprog fd :=
  os (perform (OpenAt dir name (if readable then Readable else PathOnly))).
Definition open_source_file (dir : fd) (name : bytes) : fsprog fd := os (perform (OpenAt dir name SourceFile)).
Definition mkdir_at (dir : fd) (name : bytes) (mode : N) : fsprog unit := os (perform (MkdirAt dir name mode)).
Definition unlink_at (dir : fd) (name : bytes) (directory : bool) : fsprog unit := os (perform (UnlinkAt dir name directory)).
Definition set_mode (f : fd) (mode : N) : fsprog unit := os (perform (Fchmod f mode)).
Definition sync_checked (f : fd) : fsprog unit := os (perform (Fsync f)).

Definition set_owner_and_mode (f : fd) (uid gid mode : N) : fsprog unit :=
  let*? _ := os (perform (Fchown f uid gid)) in os (perform (Fchmod f mode)).

(** ** Names *)

Definition forbidden_names : list bytes :=
  [lit ".git"; lit ".codex"; lit ".agents"; lit "AGENTS.md"; lit "hooks.json"].

Definition forbidden_name (name : bytes) : bool := bool_decide (name ∈ forbidden_names).

Definition c_string (name : bytes) : fsprog bytes :=
  Ret (if any (N.eqb 0) name then Err (Bail (lit "path component contains a NUL byte")) else Ok name).

(** ** Listing *)

Definition dot_name (name : bytes) : bool := str_eqb name (lit ".") || str_eqb name (lit "..").

(** The loop over [readdir] and what follows it. *)
Fixpoint list_names (subject : str) (max_entries : N) (end_ : option N) (names : list bytes) (seen entries : list bytes)
  : result FsError (list bytes) :=
  match names with
  | [] => match end_ with Some errno => Err (Os errno) | None => Ok entries end
  | name :: names =>
      if dot_name name then list_names subject max_entries end_ names seen entries
      else if bool_decide (name ∈ seen) then Err (Bail (subject ++ lit " contains a duplicate directory entry"))
      else if max_entries <=? len entries then Err (Bail (subject ++ lit " has too many entries"))
      else list_names subject max_entries end_ names (seen ++ [name]) (entries ++ [name])
  end.

Definition listed (subject : str) (max_entries : N) (l : Listing) : result FsError (list bytes) :=
  let? entries := list_names subject max_entries (ls_error l) (ls_names l) [] [] in
  match ls_close l with
  | Some errno => Err (Os errno)
  | None => Ok (stable_sort str_leb entries)
  end.

Definition list_directory (subject : str) (dir : fd) (max_entries : N) : fsprog (list bytes) :=
  let*? l := os (perform (ListDirectory dir)) in Ret (listed subject max_entries l).

(** ** Access control lists *)

Definition ensure_acl_absent (f : fd) (attribute : acl) (description : str) : fsprog unit :=
  let* size := (perform (Fgetxattr f attribute) : prog fs_answer (result N N)) in
  Ret (match size with
       | Ok _ => Err (Bail (description ++ lit " has an unexpected POSIX ACL"))
       | Err errno => if (errno =? ENODATA) || (errno =? ENOTSUP) then Ok tt else Err (Os errno)
       end).

Definition ensure_posix_acl_absent (f : fd) (description : str) : fsprog unit :=
  let*? _ := ensure_acl_absent f AclAccess description in ensure_acl_absent f AclDefault description.
