(* ===== verification/DescriptorRules.v ===== *)
(** * What traces of descriptor calls say

    Which descriptors a trace opened, what was done with each of them, and a discipline for
    programs that only touch descriptors they were given or opened themselves: it keeps what
    is known of every other descriptor. *)

From S2P Require Import Prelude Effects Text Descriptors.

Local Open Scope N_scope.

Abbreviation ev := (event fs_answer) (only parsing).

(** The guard of a program that may make any call. *)
Abbreviation anything := (fun (_ : list ev) (_ : fs_call) => True) (only parsing).

(** ** Reading a trace *)

(** The descriptor an event opened. *)
Definition opens (e : ev) : option fd :=
  match e with
  | Ev c a => match c return fs_answer c -> option fd with
              | OpenAnchor _ _ | OpenAt _ _ _ | CreateAt _ _ _ _ | Duplicate _ | OpenPath _ _ | CreatePath _ _ =>
                  fun r => match r with Ok f => Some f | Err _ => None end
              | _ => fun _ => None
              end a
  end.

Definition opened (h : list ev) : list fd := omap opens h.

(** Every open gave a new descriptor: nothing is closed, and no number is given twice. *)
Definition sound (h : list ev) : Prop := NoDup (opened h).

(** The descriptor whose contents, position, mode, owner or durability a call is about. *)
Definition subject_fd (c : fs_call) : option fd :=
  match c with
  | ReadFd f _ | WriteAll f _ | Rewind f | Fchmod f _ | Fchown f _ _ | Fsync f => Some f
  | _ => None
  end.

(** The events about a descriptor since it was opened. *)
Fixpoint about (f : fd) (h : list ev) : list ev :=
  match h with
  | [] => []
  | e :: h =>
      if bool_decide (opens e = Some f) then []
      else if bool_decide (subject_fd (ev_call e) = Some f) then e :: about f h
      else about f h
  end.

(** What an event wrote to its descriptor, and what it read from it. *)
Definition writes (e : ev) : bytes :=
  match e with
  | Ev c a => match c return fs_answer c -> bytes with
              | WriteAll _ chunk => fun r => match r with Ok _ => chunk | Err _ => [] end
              | _ => fun _ => []
              end a
  end.

Definition reads (e : ev) : bytes :=
  match e with
  | Ev c a => match c return fs_answer c -> bytes with
              | ReadFd _ limit => fun r => match r with Ok answer => take_N limit answer | Err _ => [] end
              | _ => fun _ => []
              end a
  end.

(** Oldest first. *)
Definition gathered (what : ev -> bytes) (h : list ev) : bytes := concat (map what (reverse h)).

Definition contents (f : fd) (h : list ev) : bytes := gathered writes (about f h).
Definition received (f : fd) (h : list ev) : bytes := gathered reads (about f h).

(** What the calls of a trace cost, whatever they answered. *)
Definition spent (cost : fs_call -> N) (h : list ev) : N := foldr (fun e n => cost (ev_call e) + n) 0 h.

(** ** Lemmas *)

Lemma opened_cons e h : opened (e :: h) = match opens e with Some f => f :: opened h | None => opened h end.
Proof. done. Qed.

Lemma opened_app t h : opened (t ++ h) = opened t ++ opened h.
Proof. apply omap_app. Qed.

Lemma gathered_app what t h : gathered what (t ++ h) = gathered what h ++ gathered what t.
Proof. unfold gathered. by rewrite reverse_app, map_app, concat_app. Qed.

Lemma gathered_cons what e h : gathered what (e :: h) = gathered what h ++ what e.
Proof. unfold gathered. rewrite reverse_cons, map_app, concat_app. cbn. by rewrite app_nil_r. Qed.

Lemma spent_app cost t h : spent cost (t ++ h) = spent cost t + spent cost h.
Proof. induction t as [|e t IH]; cbn; [done|]. unfold spent in *. rewrite IH. lia. Qed.

Lemma opened_extends h h' f : extends h h' -> f ∈ opened h -> f ∈ opened h'.
Proof. intros (t & ->) Hf. rewrite opened_app. apply elem_of_app. by right. Qed.

Lemma sound_extends h h' : extends h h' -> sound h' -> sound h.
Proof. intros (t & ->). unfold sound. rewrite opened_app. intros Hs%NoDup_app. tauto. Qed.

Lemma about_app_none f t h :
  ~ f ∈ opened t -> (forall e, e ∈ t -> subject_fd (ev_call e) <> Some f) -> about f (t ++ h) = about f h.
Proof.
  intros Ho Hs. induction t as [|e t IH]; [done|]. cbn. rewrite !bool_decide_eq_false_2.
  - apply IH; [|intros e' He; apply Hs; by right]. intros Hf. apply Ho. cbn. destruct (opens e); [by right|done].
  - apply Hs. by left.
  - intros He. apply Ho. cbn. rewrite He. by left.
Qed.

Lemma about_touch f e h : opens e = None -> subject_fd (ev_call e) = Some f -> about f (e :: h) = e :: about f h.
Proof. intros Ho Hs. cbn. by rewrite Ho, Hs, bool_decide_eq_false_2, bool_decide_eq_true_2. Qed.

Lemma contents_cons f e h :
  contents f (e :: h) =
    if bool_decide (opens e = Some f) then []
    else contents f h ++ (if bool_decide (subject_fd (ev_call e) = Some f) then writes e else []).
Proof.
  unfold contents. cbn [about]. case_bool_decide; [done|]. case_bool_decide; [by rewrite gathered_cons|]. by rewrite app_nil_r.
Qed.

Lemma received_cons f e h :
  received f (e :: h) =
    if bool_decide (opens e = Some f) then []
    else received f h ++ (if bool_decide (subject_fd (ev_call e) = Some f) then reads e else []).
Proof.
  unfold received. cbn [about]. case_bool_decide; [done|]. case_bool_decide; [by rewrite gathered_cons|]. by rewrite app_nil_r.
Qed.

(** ** Programs that stay with their descriptors *)

Section confined.
(** What a call is about: its descriptor, or the directory it alters. *)
Context (sub : fs_call -> option fd).

(** The events after [h] are about descriptors of [fs], or about ones opened after [h]. *)
Definition confined (fs : list fd) (h h' : list ev) : Prop :=
  exists t, h' = t ++ h /\ forall e f, e ∈ t -> sub (ev_call e) = Some f -> f ∈ fs ++ opened t.

Definition stays (fs : list fd) {A} (p : prog fs_answer A) : Prop :=
  forall h, wp (fun _ _ => True) p (fun h' _ => confined fs h h') h.

Lemma confined_refl fs h : confined fs h h.
Proof. exists []. split; [done|]. intros e f He. by apply not_elem_of_nil in He. Qed.

Lemma confined_extends fs h h' : confined fs h h' -> extends h h'.
Proof. intros (t & -> & _). by exists t. Qed.

Lemma confined_trans fs gs h1 h2 h3 :
  confined fs h1 h2 -> confined gs h2 h3 -> (forall f, f ∈ gs -> f ∈ fs \/ (f ∈ opened h2 /\ ~ f ∈ opened h1)) -> confined fs h1 h3.
Proof.
  intros (t1 & -> & H1) (t2 & -> & H2) Hg. exists (t2 ++ t1). split; [by rewrite app_assoc|].
  intros e f He Hs. rewrite opened_app, !elem_of_app. apply elem_of_app in He as [He|He].
  - specialize (H2 e f He Hs). apply elem_of_app in H2 as [H2|H2]; [|tauto].
    apply Hg in H2 as [H2|[H2 Hn]]; [tauto|]. rewrite opened_app, elem_of_app in H2. tauto.
  - specialize (H1 e f He Hs). apply elem_of_app in H1. tauto.
Qed.

Lemma confined_mono fs gs h h' : confined fs h h' -> (forall f, f ∈ fs -> f ∈ gs) -> confined gs h h'.
Proof.
  intros (t & -> & Ht) Hfg. exists t. split; [done|]. intros e f He Hs. specialize (Ht e f He Hs).
  rewrite elem_of_app in *. destruct Ht; auto.
Qed.

Lemma stays_ret fs {A} (a : A) : stays fs (Ret a).
Proof. intros h. apply confined_refl. Qed.

Lemma stays_mono fs gs {A} (p : prog fs_answer A) : stays fs p -> (forall f, f ∈ fs -> f ∈ gs) -> stays gs p.
Proof. intros Hp Hfg h. eapply wp_consequence; [apply Hp|]. intros h' a Hc. exact (confined_mono _ _ _ _ Hc Hfg). Qed.

Lemma stays_bind fs {A B} (p : prog fs_answer A) (k : A -> prog fs_answer B) :
  stays fs p -> (forall a, stays fs (k a)) -> stays fs (bind p k).
Proof.
  intros Hp Hk h. rewrite wp_bind. eapply wp_consequence; [apply Hp|]. intros h1 a H1.
  eapply wp_consequence; [apply Hk|]. intros h2 b H2. eapply confined_trans; [exact H1|exact H2|]. auto.
Qed.

Lemma stays_bind_ok fs {E A B} (p : prog fs_answer (result E A)) (k : A -> prog fs_answer (result E B)) :
  stays fs p -> (forall a, stays fs (k a)) -> stays fs (bind_ok p k).
Proof. intros Hp Hk. apply stays_bind; [done|]. intros [a|e]; [apply Hk|apply stays_ret]. Qed.

Lemma stays_perform fs c : match sub c with Some f => f ∈ fs | None => True end -> stays fs (perform c).
Proof.
  intros Hc h. cbn. split; [done|]. intros r. exists [Ev c r]. split; [done|]. intros e f ->%list_elem_of_singleton. cbn.
  intros Hs. rewrite Hs in Hc. apply elem_of_app. by left.
Qed.

Lemma stays_os fs {A} (p : prog fs_answer (result N A)) : stays fs p -> stays fs (os p).
Proof. intros Hp. unfold os. apply stays_bind; [done|]. intros r. apply stays_ret. Qed.

(** A program whose result, when it succeeds, is a descriptor it opened. *)
Definition opens_result {A} (result_fd : A -> fd) (h h' : list ev) (r : result FsError A) : Prop :=
  match r with Ok a => exists t, h' = t ++ h /\ result_fd a ∈ opened t | Err _ => True end.

Definition stays_open fs {A} (result_fd : A -> fd) (p : fsprog A) : Prop :=
  forall h, wp (fun _ _ => True) p (fun h' r => confined fs h h' /\ opens_result result_fd h h' r) h.

(** The continuation may also touch what was opened. *)
Lemma stays_bind_open fs {A B} (result_fd : A -> fd) (p : fsprog A) (k : A -> fsprog B) :
  stays_open fs result_fd p -> (forall a, stays (result_fd a :: fs) (k a)) -> stays fs (bind_ok p k).
Proof.
  intros Hp Hk h. rewrite wp_bind_ok. eapply wp_consequence; [apply Hp|]. intros h1 [a|e] [Hc Ho]; [|done].
  eapply wp_consequence; [apply Hk|]. intros h2 b (t2 & -> & H2). destruct Ho as (t1 & -> & Ho).
  destruct Hc as (t1' & Ht & H1). apply app_inv_tail in Ht as <-. exists (t2 ++ t1). split; [by rewrite app_assoc|].
  intros e f He Hs. rewrite opened_app, !elem_of_app. apply elem_of_app in He as [He|He].
  - specialize (H2 e f He Hs). rewrite elem_of_app, elem_of_cons in H2. destruct H2 as [[->|?]|?]; tauto.
  - specialize (H1 e f He Hs). apply elem_of_app in H1. tauto.
Qed.

Lemma stays_bind_fd fs {B} (p : fsprog fd) (k : fd -> fsprog B) :
  stays_open fs (fun f => f) p -> (forall f, stays (f :: fs) (k f)) -> stays fs (bind_ok p k).
Proof. apply (stays_bind_open fs (fun f => f)). Qed.

End confined.

(** What is known of other descriptors is kept. *)
Lemma confined_about fs h h' f : confined subject_fd fs h h' -> sound h' -> f ∈ opened h -> ~ f ∈ fs -> about f h' = about f h.
Proof.
  intros (t & -> & Ht) Hs Hf Hn. unfold sound in Hs. rewrite opened_app in Hs. apply NoDup_app in Hs as (_ & Hd & _).
  apply about_app_none; [intros Ho; by apply (Hd f)|]. intros e He Hsub.
  specialize (Ht e f He Hsub). apply elem_of_app in Ht as [|Ht]; [done|]. by apply (Hd f).
Qed.

Ltac stays_open_call :=
  let h := fresh "h" in let r := fresh "r" in let f := fresh "f" in let e := fresh "e" in
  intros Hsub h; unfold os; rewrite wp_bind; cbn [perform wp]; split; [done|]; intros r;
  split; [|destruct r as [f|e]; cbn; [|done]];
  [ eexists [_]; split; [reflexivity|]; intros ? ? ->%list_elem_of_singleton; cbn [ev_call]; intros Hs; rewrite Hs in Hsub;
    try discriminate; apply elem_of_app; by left
  | eexists [_]; split; [reflexivity|]; cbn; by left ].

Lemma stays_open_at sub fs dir name how : sub (OpenAt dir name how) = None -> stays_open sub fs (fun f => f) (os (perform (OpenAt dir name how))).
Proof. stays_open_call. Qed.

Lemma stays_open_anchor sub fs anchor how : sub (OpenAnchor anchor how) = None -> stays_open sub fs (fun f => f) (os (perform (OpenAnchor anchor how))).
Proof. stays_open_call. Qed.

Lemma stays_create_at sub fs dir name readable mode :
  match sub (CreateAt dir name readable mode) with Some f => f ∈ fs | None => True end ->
  stays_open sub fs (fun f => f) (os (perform (CreateAt dir name readable mode))).
Proof. stays_open_call. Qed.

(** A descriptor starts empty. *)
Lemma opened_empty f e h : opens e = Some f -> contents f (e :: h) = [] /\ received f (e :: h) = [].
Proof. intros He. by rewrite contents_cons, received_cons, bool_decide_eq_true_2. Qed.

(** Opening another one changes nothing. *)
Lemma opened_other f g e h :
  opens e = Some g -> g <> f -> subject_fd (ev_call e) = None ->
  contents f (e :: h) = contents f h /\ received f (e :: h) = received f h.
Proof.
  intros He Hn Hs. rewrite contents_cons, received_cons, He, Hs, (bool_decide_eq_false_2 (Some g = Some f)) by congruence.
  rewrite bool_decide_eq_false_2 by done. by rewrite !app_nil_r.
Qed.

(** A descriptor among those in view. *)
Ltac in_view := repeat first [apply list_elem_of_here | apply list_elem_of_further].

Create HintDb stays.
#[export] Hint Extern 3 (stays_open _ _ _ (os (perform (OpenAt _ _ _)))) => apply stays_open_at; reflexivity : stays.
#[export] Hint Extern 3 (stays_open _ _ _ (os (perform (OpenAnchor _ _)))) => apply stays_open_anchor; reflexivity : stays.
#[export] Hint Extern 3 (stays_open _ _ _ (os (perform (CreateAt _ _ _ _)))) =>
  apply stays_create_at; cbn; first [exact I | in_view] : stays.

(** [stays] of a program written with the notations; the lemmas of what it calls are hints. *)
Ltac stays :=
  repeat first
    [ progress intros
    | apply stays_ret
    | apply stays_os
    | solve [apply stays_perform; cbn; first [exact I | in_view]]
    | solve [eauto with stays nocore]
    | eapply stays_bind_fd; [solve [eauto with stays nocore]|]
    | apply stays_bind_ok
    | apply stays_bind
    | case_match ].

(** ** Running them *)

Lemma exec_stays sub fs {A} (p : prog fs_answer A) env h h' a : stays sub fs p -> exec env h p = (h', a) -> confined sub fs h h'.
Proof.
  intros Hp He. assert (guarded (fun (_ : list ev) (_ : fs_call) => True) h) as Hg by (clear; by induction h).
  pose proof (wp_exec _ p _ env h (Hp h) Hg) as [_ Hc]. by rewrite He in Hc.
Qed.

Lemma exec_os_ok {A} (p : prog fs_answer (result N A)) env h h' a :
  exec env h (os p) = (h', Ok a) -> exec env h p = (h', Ok a).
Proof. unfold os. rewrite exec_bind. destruct (exec env h p) as [h1 [x|e]]; cbn; congruence. Qed.

Lemma exec_bail_if env h h' b message : exec env h (bail_if b message) = (h', Ok tt) -> h' = h /\ b = false.
Proof. unfold bail_if. cbn. intros [= -> Hb]. split; [done|]. by destruct b. Qed.

(** Calls that neither open, create, list nor touch a descriptor. *)
Definition looks (c : fs_call) : bool :=
  match c with
  | WorkCancelled | Now | Fstat _ | FstatAt _ _ | Fgetxattr _ _ => true
  | Lstat _ | StatPath _ | ReadLink _ | Canonicalize _ | Getxattr _ _ => true
  | _ => false
  end.

(** They may also set the mode and owner of one descriptor and sync it. *)
Definition tends (f : fd) (c : fs_call) : bool :=
  looks c || match c with Fchmod g _ | Fchown g _ _ | Fsync g => g =? f | _ => false end.

Lemma looks_tends f c : looks c = true -> tends f c = true.
Proof. unfold tends. by intros ->. Qed.

Lemma calls_only_stays sub kind fs {A} (p : prog fs_answer A) :
  calls_only kind p -> (forall c f, kind c = true -> sub c = Some f -> f ∈ fs) -> stays sub fs p.
Proof.
  intros Hp Hf h. specialize (Hp h). revert h Hp.
  induction p as [a|c k IH]; intros h; cbn; [intros _; apply confined_refl|]. intros [Hc Hk]. split; [done|]. intros r.
  eapply wp_consequence; [apply IH, Hk|]. intros h' a Hc'. eapply confined_trans; [|exact Hc'|auto].
  exists [Ev c r]. split; [done|]. intros e g ->%list_elem_of_singleton. cbn. intros Hs. apply elem_of_app. left. by eapply Hf.
Qed.

Lemma tends_stays f fs {A} (p : prog fs_answer A) : calls_only (tends f) p -> f ∈ fs -> stays subject_fd fs p.
Proof.
  intros Hp Hf. eapply calls_only_stays; [exact Hp|]. intros c g Hc Hs.
  destruct c; try done; cbn in Hc, Hs; injection Hs as <-; apply N.eqb_eq in Hc as ->; done.
Qed.

Lemma looks_stays fs {A} (p : prog fs_answer A) : calls_only looks p -> stays subject_fd fs p.
Proof. intros Hp. eapply calls_only_stays; [exact Hp|]. by intros [] g. Qed.

(** What a piece of a trace adds to the contents and the readings of descriptors. *)
Definition adds (put got : fd -> bytes) (h h' : list ev) : Prop :=
  opened h' = opened h /\ forall f, contents f h' = contents f h ++ put f /\ received f h' = received f h ++ got f.

Definition nothing : fd -> bytes := fun _ => [].
Definition only (g : fd) (data : bytes) : fd -> bytes := fun f => if bool_decide (g = f) then data else [].

Definition same_data (h h' : list ev) : Prop := adds nothing nothing h h'.

Lemma adds_ext put got put' got' h h' :
  adds put got h h' -> (forall f, put f = put' f /\ got f = got' f) -> adds put' got' h h'.
Proof. intros [Ho Ha] He. split; [done|]. intros f. destruct (He f) as [<- <-]. apply Ha. Qed.

Lemma adds_trans put got put' got' h1 h2 h3 :
  adds put got h1 h2 -> adds put' got' h2 h3 -> adds (fun f => put f ++ put' f) (fun f => got f ++ got' f) h1 h3.
Proof.
  intros [Ho1 H1] [Ho2 H2]. split; [congruence|]. intros f. destruct (H1 f) as [E1 E2], (H2 f) as [-> ->].
  by rewrite E1, E2, !app_assoc.
Qed.

Lemma same_data_refl h : same_data h h.
Proof. split; [done|]. intros f. by rewrite !app_nil_r. Qed.

Lemma same_data_trans h1 h2 h3 : same_data h1 h2 -> same_data h2 h3 -> same_data h1 h3.
Proof. intros H1 H2. eapply adds_ext; [eapply adds_trans; [exact H1|exact H2]|done]. Qed.

Lemma event_adds (e : ev) h put got :
  opens e = None ->
  (forall f, put f = (if bool_decide (subject_fd (ev_call e) = Some f) then writes e else [])
          /\ got f = (if bool_decide (subject_fd (ev_call e) = Some f) then reads e else [])) ->
  adds put got h (e :: h).
Proof.
  intros Ho He. split; [by rewrite opened_cons, Ho|]. intros f. destruct (He f) as [-> ->].
  by rewrite contents_cons, received_cons, Ho, bool_decide_eq_false_2.
Qed.

Lemma only_subject g f (data : bytes) : only g data f = (if bool_decide (Some g = Some f) then data else []).
Proof. unfold only. apply (f_equal (fun b : bool => if b then data else [])). apply bool_decide_ext. split; congruence. Qed.

Lemma read_adds f limit answer h : adds nothing (only f (take_N limit answer)) h (Ev (ReadFd f limit) (Ok answer) :: h).
Proof. apply event_adds; [done|]. intros g. cbn. rewrite only_subject. by case_bool_decide. Qed.

Lemma write_adds f chunk h : adds (only f chunk) nothing h (Ev (WriteAll f chunk) (Ok tt) :: h).
Proof. apply event_adds; [done|]. intros g. cbn. rewrite only_subject. by case_bool_decide. Qed.

Lemma tends_event f (c : fs_call) (r : fs_answer c) h : tends f c = true -> same_data h (Ev c r :: h).
Proof.
  intros Hc. apply event_adds; [by destruct c|]. intros g. unfold nothing.
  assert (writes (Ev c r) = [] /\ reads (Ev c r) = []) as [-> ->] by (by destruct c). by case_bool_decide.
Qed.

Lemma look_same f (e : ev) h : looks (ev_call e) = true -> contents f (e :: h) = contents f h /\ received f (e :: h) = received f h.
Proof.
  destruct e as [c r]. intros Hc. destruct (tends_event f c r h (looks_tends f c Hc)) as [_ Ha].
  destruct (Ha f) as [-> ->]. by rewrite !app_nil_r.
Qed.

Lemma look_adds (e : ev) h : looks (ev_call e) = true -> same_data h (e :: h).
Proof. destruct e as [c r]. intros Hc. apply (tends_event 0), looks_tends, Hc. Qed.

Lemma exec_tends f {A} (p : prog fs_answer A) env h h' a :
  calls_only (tends f) p -> exec env h p = (h', a) -> same_data h h'.
Proof.
  intros Hp He. destruct (exec_calls_only _ _ _ _ _ _ Hp He) as (t & -> & Ht). clear Hp He.
  induction t as [|[c r] t IH]; [apply same_data_refl|]. eapply same_data_trans; [apply IH; intros e He; apply Ht; by right|].
  apply (tends_event f). apply (Ht (Ev c r)). by left.
Qed.

Lemma exec_looks {A} (p : prog fs_answer A) env h h' a : calls_only looks p -> exec env h p = (h', a) -> same_data h h'.
Proof. intros Hp. apply (exec_tends 0). eapply calls_only_mono; [exact Hp|apply looks_tends]. Qed.

Lemma exec_looks_about f {A} (p : prog fs_answer A) env h h' a :
  calls_only looks p -> exec env h p = (h', a) -> about f h' = about f h.
Proof.
  intros Hp He. destruct (exec_calls_only _ _ _ _ _ _ Hp He) as (t & -> & Ht). clear Hp He.
  induction t as [|[c r] t IH]; [done|]. cbn.
  assert (looks c = true) as Hc by (apply (Ht (Ev c r)); by left).
  rewrite !bool_decide_eq_false_2 by (by destruct c). apply IH. intros e He. apply Ht. by right.
Qed.

Lemma check_deadline_looks deadline operation : calls_only looks (check_deadline deadline operation).
Proof. unfold check_deadline, fail. calls_only. Qed.

Lemma ensure_posix_acl_absent_looks f description : calls_only looks (ensure_posix_acl_absent f description).
Proof. unfold ensure_posix_acl_absent, ensure_acl_absent. calls_only. Qed.

Lemma stat_fd_looks f : calls_only looks (stat_fd f).
Proof. unfold stat_fd, os. calls_only. Qed.

Lemma bail_if_looks b message : calls_only looks (bail_if b message).
Proof. apply calls_only_ret. Qed.

#[export] Hint Resolve check_deadline_looks ensure_posix_acl_absent_looks stat_fd_looks bail_if_looks : calls_only.
#[export] Hint Resolve check_deadline_looks ensure_posix_acl_absent_looks stat_fd_looks bail_if_looks looks_stays : stays.

Lemma set_mode_tends f mode : calls_only (tends f) (set_mode f mode).
Proof. unfold set_mode, os. apply calls_only_bind; [exact (calls_only_perform (tends f) (Fchmod f mode) (N.eqb_refl f))|]. intros. apply calls_only_ret. Qed.

Lemma sync_checked_tends f : calls_only (tends f) (sync_checked f).
Proof. unfold sync_checked, os. apply calls_only_bind; [exact (calls_only_perform (tends f) (Fsync f) (N.eqb_refl f))|]. intros. apply calls_only_ret. Qed.

Lemma looks_calls_tend f {A} (p : prog fs_answer A) : calls_only looks p -> calls_only (tends f) p.
Proof. intros Hp. eapply calls_only_mono; [exact Hp|apply looks_tends]. Qed.

Lemma set_owner_and_mode_tends f uid gid mode : calls_only (tends f) (set_owner_and_mode f uid gid mode).
Proof.
  unfold set_owner_and_mode. apply calls_only_bind_ok; [|intros _; apply set_mode_tends].
  apply calls_only_bind; [exact (calls_only_perform (tends f) (Fchown f uid gid) (N.eqb_refl f))|]. intros. apply calls_only_ret.
Qed.

#[export] Hint Resolve set_mode_tends sync_checked_tends set_owner_and_mode_tends : calls_only.

(** No access control list was found on a descriptor. *)
Definition no_acl (h : list ev) (f : fd) : Prop :=
  forall a, exists errno, (Ev (Fgetxattr f a) (Err errno) : ev) ∈ h /\ (errno = ENODATA \/ errno = ENOTSUP).

Lemma ensure_acl_absent_ok env h h' f a description :
  exec env h (ensure_acl_absent f a description) = (h', Ok tt) ->
  exists errno, h' = Ev (Fgetxattr f a) (Err errno) :: h /\ (errno = ENODATA \/ errno = ENOTSUP).
Proof.
  unfold ensure_acl_absent. rewrite exec_bind. cbn. destruct (env h (Fgetxattr f a)) as [n|errno] eqn:E; [done|]. cbn.
  destruct (_ || _) eqn:Ee; [|done]. intros [= <-]. exists errno. split; [done|].
  apply orb_true_iff in Ee as [?%N.eqb_eq|?%N.eqb_eq]; auto.
Qed.

Lemma ensure_posix_acl_absent_ok env h h' f description :
  exec env h (ensure_posix_acl_absent f description) = (h', Ok tt) -> no_acl h' f.
Proof.
  unfold ensure_posix_acl_absent. intros (h1 & [] & H1 & H2)%exec_bind_ok.
  apply ensure_acl_absent_ok in H1 as (e1 & -> & He1). apply ensure_acl_absent_ok in H2 as (e2 & -> & He2).
  intros []; [exists e1|exists e2]; (split; [|done]); [by right; left|by left].
Qed.

(** A single call that succeeded: [H : exec env h (os (perform c)) = (h', Ok a)]. *)
Ltac prim_ok H :=
  apply exec_os_ok in H; cbn in H; injection H as <- H;
  lazymatch type of H with
  | ?answer = _ =>
      repeat match goal with
      | H' : context [answer] |- _ => lazymatch H' with H => fail | _ => rewrite H in H' end
      end
  end; rewrite ?H.

(** ** What is left in a directory *)

(** The directory that gets a new subdirectory: made there, or renamed into it. *)
Definition gains (c : fs_call) : option fd :=
  match c with
  | MkdirAt d _ _ | RenameNoReplace _ _ d _ => Some d
  | _ => None
  end.

Definition succeeded (e : ev) : bool :=
  match e with
  | Ev c a => match c return fs_answer c -> bool with
              | MkdirAt _ _ _ | UnlinkAt _ _ _ | RenameNoReplace _ _ _ _ => fun r => is_ok r
              | _ => fun _ => false
              end a
  end.

Definition without (n : bytes) (names : list bytes) : list bytes := List.filter (fun m => negb (str_eqb m n)) names.

(** The directories a trace put below [d] and did not remove or move away. *)
Fixpoint standing (d : fd) (h : list ev) : list bytes :=
  match h with
  | [] => []
  | e :: h =>
      if succeeded e then
        match ev_call e with
        | MkdirAt d' n _ => if d' =? d then n :: standing d h else standing d h
        | UnlinkAt d' n _ => if d' =? d then without n (standing d h) else standing d h
        | RenameNoReplace d1 n1 d2 n2 =>
            let rest := if d1 =? d then without n1 (standing d h) else standing d h in
            if d2 =? d then n2 :: rest else rest
        | _ => standing d h
        end
      else standing d h
  end.

Lemma elem_of_without n m names : n ∈ without m names <-> n <> m /\ n ∈ names.
Proof. unfold without. rewrite !list_elem_of_In, List.filter_In, negb_true_iff, str_eqb_neq. tauto. Qed.

(** Nothing new stands in [d]. *)
Definition standing_in (d : fd) (h h' : list ev) : Prop := forall n, n ∈ standing d h' -> n ∈ standing d h.

Lemma standing_in_refl d h : standing_in d h h.
Proof. by intros n. Qed.

Lemma standing_in_trans d h1 h2 h3 : standing_in d h1 h2 -> standing_in d h2 h3 -> standing_in d h1 h3.
Proof. unfold standing_in. auto. Qed.

Lemma standing_in_cons d e h : gains (ev_call e) <> Some d -> standing_in d h (e :: h).
Proof.
  intros Hn n. cbn. destruct (succeeded e); [|done]. destruct (ev_call e) as [| | | | | | | |d' m mode|d' m b|d1 n1 d2 n2| | | | | | | | | | | | | | | | | | | | | | | |]; try done; cbn in Hn.
  - by rewrite (proj2 (N.eqb_neq d' d)) by congruence.
  - destruct (d' =? d); [|done]. by intros [_ ?]%elem_of_without.
  - rewrite (proj2 (N.eqb_neq d2 d)) by congruence. destruct (d1 =? d); [|done]. by intros [_ ?]%elem_of_without.
Qed.

Lemma standing_in_app d t h : (forall e, e ∈ t -> gains (ev_call e) <> Some d) -> standing_in d h (t ++ h).
Proof.
  induction t as [|e t IH]; intros Ht; [apply standing_in_refl|]. cbn [app].
  eapply standing_in_trans; [apply IH; intros e' He; apply Ht; by right|]. apply standing_in_cons, Ht. by left.
Qed.

Lemma confined_standing_in fs h h' d : confined gains fs h h' -> sound h' -> d ∈ opened h -> ~ d ∈ fs -> standing_in d h h'.
Proof.
  intros (t & -> & Ht) Hs Hd Hn. apply standing_in_app. intros e He Hsub. specialize (Ht e d He Hsub).
  apply elem_of_app in Ht as [|Ht]; [done|]. unfold sound in Hs. rewrite opened_app in Hs.
  apply NoDup_app in Hs as (_ & Hd' & _). by apply (Hd' d).
Qed.

(** Programs that put nothing anywhere. *)
Definition no_gain (c : fs_call) : bool := match gains c with None => true | Some _ => false end.

Lemma exec_no_gain {A} (p : prog fs_answer A) env h h' a d : calls_only no_gain p -> exec env h p = (h', a) -> standing_in d h h'.
Proof.
  intros Hp He. destruct (exec_calls_only _ _ _ _ _ _ Hp He) as (t & -> & Ht). apply standing_in_app. intros e Hin Hg.
  specialize (Ht e Hin). unfold no_gain in Ht. by rewrite Hg in Ht.
Qed.

Lemma looks_gains fs {A} (p : prog fs_answer A) : calls_only looks p -> stays gains fs p.
Proof. intros Hp. eapply calls_only_stays; [exact Hp|]. by intros [] g. Qed.

Lemma tends_gains f fs {A} (p : prog fs_answer A) : calls_only (tends f) p -> stays gains fs p.
Proof. intros Hp. eapply calls_only_stays; [exact Hp|]. by intros [] g. Qed.

Lemma standing_made d name mode h n :
  n ∈ standing d (Ev (MkdirAt d name mode) (Ok tt) :: h) -> n = name \/ n ∈ standing d h.
Proof. cbn. rewrite N.eqb_refl. apply elem_of_cons. Qed.

Lemma standing_removed d name directory h n :
  n ∈ standing d (Ev (UnlinkAt d name directory) (Ok tt) :: h) -> n <> name /\ n ∈ standing d h.
Proof. cbn. rewrite N.eqb_refl. apply elem_of_without. Qed.

(** The failure is not the report of a failed clean-up. *)
Definition cleaned (e : FsError) : Prop := match e with AlsoFailed _ _ => False | _ => True end.

(** [name] has gone from [d], and nothing has come. *)
Definition gone (d : fd) (name : bytes) (h h' : list ev) : Prop := forall n, n ∈ standing d h' -> n <> name /\ n ∈ standing d h.

Lemma gone_between d name h1 h2 h3 h4 : standing_in d h1 h2 -> gone d name h2 h3 -> standing_in d h3 h4 -> gone d name h1 h4.
Proof. intros H1 H2 H3 n Hn. destruct (H2 n (H3 n Hn)) as [? ?]. auto. Qed.

(** A program that puts nothing anywhere and at some point removed a name. *)
Lemma removed_name env {A} (p : prog fs_answer A) h h8 h' a root name b :
  calls_only no_gain p -> exec env h p = (h', a) -> extends (Ev (UnlinkAt root name b) (Ok tt) :: h8) h' -> extends h h8 ->
  gone root name h h'.
Proof.
  intros Hp He (t & ->) (t8 & ->). destruct (exec_calls_only _ _ _ _ _ _ Hp He) as (t' & Et & Ht).
  change (t ++ Ev (UnlinkAt root name b) (Ok tt) :: t8 ++ h) with (t ++ (Ev (UnlinkAt root name b) (Ok tt) :: t8) ++ h) in Et.
  rewrite app_assoc in Et. apply app_inv_tail in Et as <-.
  assert (forall e, e ∈ t ++ Ev (UnlinkAt root name b) (Ok tt) :: t8 -> gains (ev_call e) <> Some root) as Hg.
  { intros e Hin Hg. specialize (Ht e Hin). unfold no_gain in Ht. by rewrite Hg in Ht. }
  apply (gone_between _ _ _ (t8 ++ h) (Ev (UnlinkAt root name b) (Ok tt) :: t8 ++ h)); [|intros n Hn; by apply standing_removed in Hn|].
  - apply standing_in_app. intros e Hin. apply Hg. rewrite elem_of_app, elem_of_cons. auto.
  - apply standing_in_app. intros e Hin. apply Hg. rewrite elem_of_app. auto.
Qed.

(** Programs that create no file. *)
Definition no_file (c : fs_call) : bool := match c with CreateAt _ _ _ _ => false | _ => true end.

Lemma looks_no_file {A} (p : prog fs_answer A) : calls_only looks p -> calls_only no_file p.
Proof. intros Hp. eapply calls_only_mono; [exact Hp|]. by intros []. Qed.

Lemma exec_no_file {A} (p : prog fs_answer A) env h h' a td name readable mode target :
  calls_only no_file p -> exec env h p = (h', a) -> (Ev (CreateAt td name readable mode) (Ok target) : ev) ∈ h' ->
  (Ev (CreateAt td name readable mode) (Ok target) : ev) ∈ h.
Proof.
  intros Hp He Hin. destruct (exec_calls_only _ _ _ _ _ _ Hp He) as (t & -> & Ht). apply elem_of_app in Hin as [Hin|Hin]; [|done].
  by specialize (Ht _ Hin).
Qed.

(** A host that refuses everything. *)
Definition refused (c : fs_call) : fs_answer c :=
  match c return fs_answer c with
  | WorkCancelled => false
  | Now | EffectiveUid | NextSequence | ProcessId => 0
  | RandomBytes => None
  | _ => Err ENOENT
  end.
