(* ===== verification/HostPaths.v ===== *)
(** * Files by their paths

    What [src/activation.rs] and [src/isolated_execution.rs] do with [std::fs]: metadata,
    files opened by path and read to their end or to a limit, as programs of the calls of
    [Descriptors]. A program takes a path as its components. *)

From S2P Require Import Prelude Effects Text Paths HostFiles WorkBudget Descriptors.

Local Open Scope N_scope.

(** ** Metadata *)

(** [metadata.len()]: the [i64] of the system as a [u64]. *)
Definition file_len (m : StatSnapshot) : N := Z.to_N (st_size m mod 18446744073709551616)%Z.

Definition is_directory (m : StatSnapshot) : bool := file_type m =? S_IFDIR.
Definition is_regular (m : StatSnapshot) : bool := file_type m =? S_IFREG.
Definition is_link (m : StatSnapshot) : bool := file_type m =? S_IFLNK.

(** [metadata.mode() & 0o022 != 0]. *)
Definition shared_write (m : StatSnapshot) : bool := negb (N.land (st_mode m) 18 =? 0).

Definition lstat (p : list Component) : fsprog StatSnapshot := os (perform (Lstat p)).
Definition open_path (p : list Component) (how : path_access) : fsprog fd := os (perform (OpenPath p how)).
Definition read_link (p : list Component) : fsprog path := os (perform (ReadLink p)).
Definition remove_file (p : list Component) : fsprog unit := os (perform (RemoveFile p)).

(** [match fs::symlink_metadata(path) { Err(error) if error.kind() == NotFound => .. }]. *)
Definition lstat_existing (p : list Component) : fsprog (option StatSnapshot) :=
  let* r := (perform (Lstat p) : prog fs_answer (result N StatSnapshot)) in
  Ret (match r with
       | Ok m => Ok (Some m)
       | Err errno => if errno =? ENOENT then Ok None else Err (Os errno)
       end).

(** An absolute path whose only components are the root and names. *)
Definition absolute_normal (p : list Component) : bool :=
  bool_decide (head p = Some RootDir) && all (fun c => match c with RootDir | Normal _ => true | _ => false end) p.

(** The name of a file in a directory: [directory.join(name)]. *)
Definition child (directory : list Component) (name : bytes) : list Component := directory ++ [Normal name].

(** [path.join(more)], as components. *)
Definition join_path (base : path) (more : str) : list Component := components (path_join base (as_bytes more)).

(** ** Reading *)

Definition read_chunk (f : fd) (limit : N) : fsprog bytes :=
  let*? answer := os (perform (ReadFd f limit)) in Ret (Ok (take_N limit answer)).

(** [file.read_exact(&mut buffer)] for a short buffer; every read makes [remaining] smaller. *)
Fixpoint read_exactly (fuel : nat) (f : fd) (remaining : N) (data : bytes) : fsprog bytes :=
  if remaining =? 0 then Ret (Ok data)
  else
    match fuel with
    | O => fail Exhausted
    | S fuel =>
        let*? chunk := read_chunk f remaining in
        if is_empty chunk then bail (lit "failed to fill whole buffer")
        else read_exactly fuel f (remaining - len chunk) (data ++ chunk)
    end.

(** The first rounds of a loop, at most [n] of them: a round goes on with a new state or
    leaves the loop. *)
Fixpoint rounds {S A} (n : positive) (body : S -> fsprog (S + A)) (s : S) : fsprog (S + A) :=
  let again (r : S + A) (p : S -> fsprog (S + A)) : fsprog (S + A) := match r with inl s => p s | inr a => Ret (Ok (inr a)) end in
  match n with
  | xH => body s
  | xO n => let*? r := rounds n body s in again r (rounds n body)
  | xI n => let*? r := body s in again r (fun s => let*? r := rounds n body s in again r (rounds n body))
  end.

Definition loop {S A} (n : positive) (body : S -> fsprog (S + A)) (s : S) : fsprog A :=
  let*? r := rounds n body s in
  match r with
  | inl _ => fail Exhausted
  | inr a => Ret (Ok a)
  end.

(** What the loops that read a file up to a limit say. *)
Record ReadPolicy : Type := mkReadPolicy {
  rd_operation : str;
  rd_buffer : N;
  rd_max : N;
  rd_overflowed : str;
  rd_oversized : str
}.

(** A round: the deadline, a read, the count, the limit. The state is what was read. *)
Definition read_round (pol : ReadPolicy) (deadline : option WorkBudget) (f : fd) (data : bytes) : fsprog (bytes + bytes) :=
  let*? _ := check_deadline deadline (rd_operation pol) in
  let*? chunk := read_chunk f (rd_buffer pol) in
  if is_empty chunk then Ret (Ok (inr data))
  else
    let total := len data + len chunk in
    let*? _ := bail_if (u64_max <? total) (rd_overflowed pol) in
    let*? _ := bail_if (rd_max pol <? total) (rd_oversized pol) in
    Ret (Ok (inl (data ++ chunk))).

(** Every round adds a byte, so [rd_max + 1] rounds are enough. *)
Definition read_to_limit (pol : ReadPolicy) (deadline : option WorkBudget) (f : fd) (data : bytes) : fsprog bytes :=
  loop (N.succ_pos (rd_max pol)) (read_round pol deadline f) data.
