(* ===== verification/HostPathRules.v ===== *)
(** * What reading files by path does

    The loops end within their rounds, what they return is what was received from the
    descriptor, and a program that only looks, opens and reads changes nothing. *)

From S2P Require Import Prelude Effects Text Paths HostFiles WorkBudget Descriptors DescriptorRules HostPaths.

Local Open Scope N_scope.

(** ** Rounds *)

Section rounds.
Context {S A : Type} (body : S -> fsprog (S + A)).

(** What every round keeps holds of where the loop stops. *)
Lemma exec_rounds env (I : list ev -> S -> Prop) (Q : list ev -> A -> Prop) :
  (forall h h' s r, I h s -> exec env h (body s) = (h', Ok r) -> match r with inl s' => I h' s' | inr a => Q h' a end) ->
  forall n h h' s r, I h s -> exec env h (rounds n body s) = (h', Ok r) -> match r with inl s' => I h' s' | inr a => Q h' a end.
Proof.
  intros Hb n. induction n as [n IH|n IH|]; intros h h' s r HI; cbn [rounds]; [| |by apply Hb].
  - intros (h1 & r1 & H1 & Hk)%exec_bind_ok. apply Hb in H1; [|done]. destruct r1 as [s1|a]; [|by injection Hk as <- <-].
    apply exec_bind_ok in Hk as (h2 & r2 & H2 & Hk). apply IH in H2; [|done]. destruct r2 as [s2|a]; [|by injection Hk as <- <-].
    by apply IH in Hk.
  - intros (h1 & r1 & H1 & Hk)%exec_bind_ok. apply IH in H1; [|done]. destruct r1 as [s1|a]; [|by injection Hk as <- <-].
    by apply IH in Hk.
Qed.

Lemma exec_loop env (I : list ev -> S -> Prop) (Q : list ev -> A -> Prop) n h h' s a :
  (forall h h' s r, I h s -> exec env h (body s) = (h', Ok r) -> match r with inl s' => I h' s' | inr a => Q h' a end) ->
  I h s -> exec env h (loop n body s) = (h', Ok a) -> Q h' a.
Proof.
  intros Hb HI (h1 & r & H1 & Hk)%exec_bind_ok. apply (exec_rounds env I Q Hb) in H1; [|done].
  destruct r as [s1|a1]; [done|]. by injection Hk as <- <-.
Qed.

Lemma rounds_stays sub fs n s : (forall s, stays sub fs (body s)) -> stays sub fs (rounds n body s).
Proof.
  intros Hb. revert s. induction n as [n IH|n IH|]; intros s; cbn [rounds]; [| |apply Hb].
  - apply stays_bind_ok; [apply Hb|]. intros [s1|a]; [|apply stays_ret]. apply stays_bind_ok; [apply IH|].
    intros [s2|a]; [apply IH|apply stays_ret].
  - apply stays_bind_ok; [apply IH|]. intros [s1|a]; [apply IH|apply stays_ret].
Qed.

Lemma loop_stays sub fs n s : (forall s, stays sub fs (body s)) -> stays sub fs (loop n body s).
Proof. intros Hb. apply stays_bind_ok; [by apply rounds_stays|]. intros [|]; apply stays_ret. Qed.

Lemma rounds_calls_only kind n s : (forall s, calls_only kind (body s)) -> calls_only kind (rounds n body s).
Proof.
  intros Hb. revert s. induction n as [n IH|n IH|]; intros s; cbn [rounds]; [| |apply Hb].
  - apply calls_only_bind_ok; [apply Hb|]. intros [s1|a]; [|apply calls_only_ret]. apply calls_only_bind_ok; [apply IH|].
    intros [s2|a]; [apply IH|apply calls_only_ret].
  - apply calls_only_bind_ok; [apply IH|]. intros [s1|a]; [apply IH|apply calls_only_ret].
Qed.

Lemma loop_calls_only kind n s : (forall s, calls_only kind (body s)) -> calls_only kind (loop n body s).
Proof. intros Hb. apply calls_only_bind_ok; [by apply rounds_calls_only|]. intros [|]; apply calls_only_ret. Qed.
End rounds.

(** ** Programs that come to a result of the code *)

(** Whatever the host answers, the program does not run out of fuel. *)
Definition finishes {A} (p : fsprog A) : Prop := forall h, wp anything p (fun _ r => r <> Err Exhausted) h.

Lemma finishes_ret {A} (r : result FsError A) : r <> Err Exhausted -> finishes (Ret r).
Proof. by intros H h. Qed.

Lemma finishes_ok {A} (a : A) : finishes (Ret (Ok a)).
Proof. done. Qed.

Lemma finishes_bind_ok {A B} (p : fsprog A) (k : A -> fsprog B) : finishes p -> (forall a, finishes (k a)) -> finishes (bind_ok p k).
Proof.
  intros Hp Hk h. rewrite wp_bind_ok. eapply wp_consequence; [apply Hp|]. intros h' [a|e]; [intros _; apply Hk|].
  intros He Hx. apply He. congruence.
Qed.

Lemma finishes_bind {A B} (p : prog fs_answer A) (k : A -> fsprog B) : (forall a, finishes (k a)) -> finishes (bind p k).
Proof. intros Hk h. rewrite wp_bind. eapply wp_consequence; [apply wp_any|]. intros h' a _. apply Hk. Qed.

Lemma finishes_os {A} (p : prog fs_answer (result N A)) : finishes (os p).
Proof. unfold os. apply finishes_bind. intros [a|e]; by apply finishes_ret. Qed.

Lemma finishes_bail_if b message : finishes (bail_if b message).
Proof. apply finishes_ret. by destruct b. Qed.

Lemma finishes_bail {A} message : finishes (bail message : fsprog A).
Proof. by apply finishes_ret. Qed.

Lemma finishes_check_deadline deadline operation : finishes (check_deadline deadline operation).
Proof.
  unfold check_deadline. destruct deadline as [b|]; [|done]. apply finishes_bind. intros []; [by apply finishes_ret|].
  apply finishes_bind. intros now. apply finishes_ret. unfold check. by destruct (fail_if _ _), (fail_if _ _).
Qed.

Lemma finishes_exec {A} (p : fsprog A) env h : finishes p -> (exec env h p).2 <> Err Exhausted.
Proof.
  intros Hp. assert (guarded anything h) as Hg by (clear; by induction h).
  exact (proj2 (wp_exec _ p _ env h (Hp h) Hg)).
Qed.

Lemma finishes_ok_or {A} (o : option A) message : finishes (Ret (ok_or o (Bail message))).
Proof. by destruct o. Qed.

Create HintDb finishes.
#[export] Hint Resolve finishes_ok finishes_os finishes_bail_if finishes_bail finishes_check_deadline finishes_ok_or : finishes.

(** [finishes] of a program written with the notations; the lemmas of what it calls are hints. *)
Ltac finishes :=
  repeat first
    [ progress intros
    | solve [eauto with finishes nocore]
    | apply finishes_bind_ok
    | apply finishes_bind
    | case_match ].

Lemma rounds_measure {S A} (body : S -> fsprog (S + A)) (measure : S -> N) :
  (forall s h, wp anything (body s) (fun _ r => match r with
     | Ok (inl s') => measure s' + 1 <= measure s | Ok (inr _) => True | Err e => e <> Exhausted end) h) ->
  forall n s h, wp anything (rounds n body s) (fun _ r => match r with
     | Ok (inl s') => measure s' + Npos n <= measure s | Ok (inr _) => True | Err e => e <> Exhausted end) h.
Proof.
  intros Hb n. induction n as [n IH|n IH|]; intros s h; cbn [rounds]; [| |by apply Hb].
  - rewrite wp_bind_ok. eapply wp_consequence; [apply Hb|]. intros h1 [[s1|a]|e]; [|done..]. intros H1.
    rewrite wp_bind_ok. eapply wp_consequence; [apply IH|]. intros h2 [[s2|a]|e]; [|done..]. intros H2.
    eapply wp_consequence; [apply IH|]. intros h3 [[s3|a]|e]; [|done..]. intros H3. lia.
  - rewrite wp_bind_ok. eapply wp_consequence; [apply IH|]. intros h1 [[s1|a]|e]; [|done..]. intros H1.
    eapply wp_consequence; [apply IH|]. intros h2 [[s2|a]|e]; [|done..]. intros H2. lia.
Qed.

(** A loop whose rounds make a measure smaller ends, given more rounds than the measure. *)
Lemma loop_finishes {S A} (body : S -> fsprog (S + A)) (measure : S -> N) n s :
  (forall s h, wp anything (body s) (fun _ r => match r with
     | Ok (inl s') => measure s' + 1 <= measure s | Ok (inr _) => True | Err e => e <> Exhausted end) h) ->
  measure s < Npos n -> finishes (loop n body s).
Proof.
  intros Hb Hn h. unfold loop. rewrite wp_bind_ok. eapply wp_consequence; [by apply (rounds_measure body measure)|].
  intros h1 [[s1|a]|e]; [intros H1; lia|done|]. intros He Hx. congruence.
Qed.

(** ** Reading *)

(** What [take(m + 1)] gave was everything when it is within the limit. *)
Lemma take_short (m : N) (data : bytes) : len (take_N (m + 1) data) <= m -> take_N (m + 1) data = data.
Proof. rewrite len_take_N. intros Hl. apply take_N_all. lia. Qed.

Lemma read_chunk_ok env h h' f limit chunk :
  exec env h (read_chunk f limit) = (h', Ok chunk) -> adds nothing (only f chunk) h h'.
Proof.
  unfold read_chunk. intros (h1 & answer & H1 & Hk)%exec_bind_ok. prim_ok H1. injection Hk as <- <-. apply read_adds.
Qed.

Lemma read_nothing f h h' : adds nothing (only f []) h h' -> same_data h h'.
Proof. intros Ha. eapply adds_ext; [exact Ha|]. intros g. split; [done|]. unfold only. by case_bool_decide. Qed.

Lemma read_exactly_ok env fuel f remaining data h h' a :
  exec env h (read_exactly fuel f remaining data) = (h', Ok a) ->
  exists more, a = data ++ more /\ adds nothing (only f more) h h'.
Proof.
  revert remaining data h. induction fuel as [|fuel IH]; intros remaining data h; cbn [read_exactly]; destruct (remaining =? 0).
  1, 3: intros [= <- <-]; exists []; split; [by rewrite app_nil_r|]; eapply adds_ext; [apply same_data_refl|];
    intros g; split; [done|]; unfold only; by case_bool_decide.
  - done.
  - intros (h1 & chunk & H1%read_chunk_ok & Hk)%exec_bind_ok. destruct (is_empty chunk); [done|].
    apply IH in Hk as (more & -> & Hm). exists (chunk ++ more). split; [by rewrite app_assoc|].
    eapply adds_ext; [eapply adds_trans; [exact H1|exact Hm]|]. intros g. split; [done|]. unfold only. by case_bool_decide.
Qed.

Lemma read_round_ok pol deadline env f data h h' r :
  exec env h (read_round pol deadline f data) = (h', Ok r) ->
  exists more, adds nothing (only f more) h h' /\
    match r with inl data' => data' = data ++ more | inr a => a = data /\ more = [] end.
Proof.
  unfold read_round. intros (h1 & [] & H1 & Hk)%exec_bind_ok. apply exec_looks in H1; [|apply check_deadline_looks].
  apply exec_bind_ok in Hk as (h2 & chunk & H2%read_chunk_ok & Hk).
  assert (adds nothing (only f chunk) h h2) as Ha by (eapply adds_ext; [eapply adds_trans; [exact H1|exact H2]|done]).
  destruct (is_empty chunk) eqn:Ec.
  - injection Hk as <- <-. apply is_empty_true in Ec as ->. by exists [].
  - apply exec_bind_ok in Hk as (h3 & [] & [-> _]%exec_bail_if & Hk). apply exec_bind_ok in Hk as (h4 & [] & [-> _]%exec_bail_if & Hk).
    injection Hk as <- <-. by exists chunk.
Qed.

(** What a reading loop returns is what it was given and what the descriptor yielded. *)
Lemma read_to_limit_ok pol deadline env f data h h' a :
  exec env h (read_to_limit pol deadline f data) = (h', Ok a) ->
  exists more, a = data ++ more /\ adds nothing (only f more) h h'.
Proof.
  intros He.
  apply (exec_loop _ env (fun h1 d => exists more, d = data ++ more /\ adds nothing (only f more) h h1)
           (fun h1 d => exists more, d = data ++ more /\ adds nothing (only f more) h h1)) in He; [exact He| |].
  - intros h1 h2 d r (more & -> & Ha) (more' & Hb & Hr)%read_round_ok.
    assert (adds nothing (only f (more ++ more')) h h2) as Hab.
    { eapply adds_ext; [eapply adds_trans; [exact Ha|exact Hb]|]. intros g. split; [done|]. unfold only. by case_bool_decide. }
    destruct r as [d'|a']; [subst d'|destruct Hr as [-> ->]]; [exists (more ++ more'); by rewrite app_assoc|].
    exists more. split; [done|]. by rewrite app_nil_r in Hab.
  - exists []. split; [by rewrite app_nil_r|]. eapply adds_ext; [apply same_data_refl|]. intros g. split; [done|].
    unfold only. by case_bool_decide.
Qed.

Lemma read_chunk_finishes f limit : finishes (read_chunk f limit).
Proof. unfold read_chunk. finishes. Qed.

Lemma read_to_limit_finishes pol deadline f data : finishes (read_to_limit pol deadline f data).
Proof.
  unfold read_to_limit. apply (loop_finishes _ (fun d => rd_max pol - len d)); [|rewrite N.succ_pos_spec; lia].
  intros d h. unfold read_round. rewrite wp_bind_ok. eapply wp_consequence; [apply finishes_check_deadline|].
  intros h1 [[]|e]; [intros _|intros He Hx; congruence].
  rewrite wp_bind_ok. eapply wp_consequence; [apply read_chunk_finishes|].
  intros h2 [chunk|e]; [intros _|intros He Hx; congruence]. destruct (is_empty chunk) eqn:Ec; [done|].
  apply is_empty_false in Ec. apply len_pos in Ec. unfold bail_if. cbn [bind_ok bind].
  destruct (u64_max <? len d + len chunk); [done|]. cbn [fail_if bind wp].
  destruct (N.ltb_spec (rd_max pol) (len d + len chunk)); cbn [fail_if bind wp]; [done|]. rewrite len_app. lia.
Qed.

Lemma read_exactly_finishes fuel f remaining data : (N.to_nat remaining <= fuel)%nat -> finishes (read_exactly fuel f remaining data).
Proof.
  revert remaining data. induction fuel as [|fuel IH]; intros remaining data Hf; cbn [read_exactly];
    (destruct (N.eqb_spec remaining 0); [apply finishes_ok|]); [lia|].
  apply finishes_bind_ok; [apply read_chunk_finishes|]. intros chunk. destruct (is_empty chunk) eqn:Ec; [apply finishes_bail|].
  apply is_empty_false in Ec. apply len_pos in Ec. apply IH. lia.
Qed.

#[export] Hint Resolve read_to_limit_finishes read_chunk_finishes : finishes.

(** ** Programs that open a file and return it *)

Section opening.
Context (sub : fs_call -> option fd).

Lemma stays_open_bind fs {A B} (result_fd : B -> fd) (p : fsprog A) (k : A -> fsprog B) :
  stays sub fs p -> (forall a, stays_open sub fs result_fd (k a)) -> stays_open sub fs result_fd (bind_ok p k).
Proof.
  intros Hp Hk h. rewrite wp_bind_ok. eapply wp_consequence; [apply Hp|]. intros h1 [a|e] H1; [|by split].
  eapply wp_consequence; [apply Hk|]. intros h2 r [H2 Ho]. split; [eapply confined_trans; [exact H1|exact H2|auto]|].
  destruct r as [b|e]; [|done]. destruct Ho as (t2 & -> & Ho). destruct H1 as (t1 & -> & _).
  exists (t2 ++ t1). split; [by rewrite app_assoc|]. rewrite opened_app. apply elem_of_app. by left.
Qed.

(** The program is opened here, and what follows returns it. *)
Lemma stays_open_here fs {B} (result_fd : B -> fd) (p : fsprog fd) (k : fd -> fsprog B) :
  stays_open sub fs (fun f => f) p -> (forall f, stays sub (f :: fs) (k f)) ->
  (forall f h, wp anything (k f) (fun _ r => match r with Ok b => result_fd b = f | Err _ => True end) h) ->
  stays_open sub fs result_fd (bind_ok p k).
Proof.
  intros Hp Hk Hr h. rewrite wp_bind_ok. eapply wp_consequence; [apply Hp|]. intros h1 [f|e] [H1 Ho]; [|by split].
  pose proof (wp_and _ _ _ _ _ _ (Hk f h1) (Hr f h1)) as Hw.
  eapply wp_mono; [exact Hw|done|]. intros h2 r [H2 Hb]. destruct Ho as (t1 & -> & Ho). destruct H1 as (t1' & Et & H1).
  apply app_inv_tail in Et as <-. destruct H2 as (t2 & -> & H2). split.
  - exists (t2 ++ t1). split; [by rewrite app_assoc|]. intros e g He Hs. rewrite opened_app, !elem_of_app.
    apply elem_of_app in He as [He|He].
    + specialize (H2 e g He Hs). rewrite elem_of_app, elem_of_cons in H2. destruct H2 as [[->|?]|?]; tauto.
    + specialize (H1 e g He Hs). apply elem_of_app in H1. tauto.
  - destruct r as [b|e]; [|done]. cbn. exists (t2 ++ t1). split; [by rewrite app_assoc|]. rewrite Hb, opened_app. apply elem_of_app. by right.
Qed.

Lemma open_path_stays fs p how : sub (OpenPath p how) = None -> stays_open sub fs (fun f => f) (open_path p how).
Proof. unfold open_path. stays_open_call. Qed.
End opening.

Lemma read_chunk_stays fs f limit : f ∈ fs -> stays subject_fd fs (read_chunk f limit).
Proof.
  intros Hf. unfold read_chunk. apply stays_bind_ok; [apply stays_os, stays_perform, Hf|]. intros. apply stays_ret.
Qed.

Lemma read_to_limit_stays fs pol deadline f data : f ∈ fs -> stays subject_fd fs (read_to_limit pol deadline f data).
Proof.
  intros Hf. apply loop_stays. intros s. unfold read_round. apply stays_bind_ok; [eauto with stays|]. intros _.
  apply stays_bind_ok; [by apply read_chunk_stays|]. intros chunk. stays.
Qed.

Lemma read_exactly_stays fs fuel f remaining data : f ∈ fs -> stays subject_fd fs (read_exactly fuel f remaining data).
Proof.
  intros Hf. revert remaining data. induction fuel as [|fuel IH]; intros remaining data; cbn [read_exactly]; (destruct (remaining =? 0);
    [apply stays_ret|]); [apply stays_ret|]. apply stays_bind_ok; [by apply read_chunk_stays|].
  intros chunk. destruct (is_empty chunk); [apply stays_ret|apply IH].
Qed.

(** A path that may be absent. *)
Lemma lstat_existing_ok env p h h' o :
  exec env h (lstat_existing p) = (h', Ok o) ->
  match o with
  | Some m => h' = Ev (Lstat p) (Ok m) :: h
  | None => h' = Ev (Lstat p) (Err ENOENT) :: h
  end.
Proof.
  unfold lstat_existing. rewrite exec_bind. cbn. destruct (env h (Lstat p)) as [m|errno] eqn:E; cbn; [by intros [= <- <-]|].
  destruct (N.eqb_spec errno ENOENT) as [->|]; [|done]. by intros [= <- <-].
Qed.
