(* ===== verification/Activation.v ===== *)
(** * Activation receipts

    [src/activation.rs], as built for Linux: a receipt says that the production canaries
    passed on this boot for exactly these artifacts. It is verified against the files it
    names, written by the renewal, and taken away again when a renewal fails. *)

From S2P Require Import Prelude Effects Text Digest Paths HostFiles WorkBudget Descriptors HostPaths Webex Serde.
From S2P Require Import LauncherProtocol CanaryProtocol IsolatedPlan.

Local Open Scope N_scope.

(** ** Constants *)

Definition ACTIVATION_RECEIPT_PATH : path := lit "/run/webex-codex-activation/receipt.json".
Definition BOOT_ID_PATH : path := lit "/proc/sys/kernel/random/boot_id".
Definition ACTIVE_RUNTIME_MANIFEST_PATH : path := lit "/opt/webex-generic-account-bot/runtime/active.json".
Definition ACTIVATION_BOT_EXECUTABLE_PATH : path := lit "/opt/webex-generic-account-bot/bin/webex-generic-account-bot".
Definition ACTIVATION_LAUNCHER_EXECUTABLE_PATH : path := lit "/opt/webex-generic-account-bot/bin/webex-codex-launcher".
Definition ACTIVATION_RUNTIME_EXECUTABLE_PATH : path := lit "/opt/webex-generic-account-bot/bin/webex-codex-runtime".
Definition CANARY_PROBE_EXECUTABLE_PATH : path := lit "/opt/webex-generic-account-bot/bin/webex-codex-canary-probe".
Definition RUNTIME_SOURCE_MANIFEST_PATH : path := lit "/etc/webex-generic-account-bot/codex-runtime-sources.json".
Definition ACTIVATION_SCHEMA_VERSION : N := 1.

Definition REQUIRED_CANARIES : list str :=
  [lit "bot_crash_cleanup";
   lit "bot_socket_denied";
   lit "codex_model_auth_access";
   lit "config_worker_socket_denied";
   lit "credential_channel_reuse_denied";
   lit "forbidden_network_denied";
   lit "host_reboot_cleanup";
   lit "launcher_crash_cleanup";
   lit "launcher_socket_denied";
   lit "main_process_inspection_denied";
   lit "timeout_cleanup";
   lit "tool_inherited_descriptors_denied"].

Definition RECEIPT_MAX_BYTES : N := 64 * 1024.
Definition BOOT_ID_MAX_BYTES : N := 128.
Definition ACTIVE_MANIFEST_MAX_BYTES : N := 64 * 1024.
Definition RUNTIME_SOURCE_MANIFEST_MAX_BYTES : N := 1024 * 1024.
Definition EXECUTABLE_MAX_BYTES : N := 256 * 1024 * 1024.

(** ** Data *)

Record ActivationReceipt : Type := mkReceipt {
  ar_schema_version : N;
  ar_boot_id : str;
  ar_active_manifest_sha256 : str;
  ar_runtime_image_sha256 : str;
  ar_bot_executable_sha256 : str;
  ar_launcher_executable_sha256 : str;
  ar_runtime_executable_sha256 : str;
  ar_codex_version : str;
  ar_model : str;
  ar_canaries : gmap str bool
}.

Inductive ProcessExecutableRole : Type := Bot | Launcher.

Record ActivationPaths : Type := mkActivationPaths {
  ap_receipt : path;
  ap_boot_id : path;
  ap_active_manifest : path;
  ap_bot_executable : path;
  ap_launcher_executable : path;
  ap_runtime_executable : path;
  ap_canary_probe_executable : path;
  ap_runtime_source_manifest : path;
  ap_trusted_root : path;
  ap_expected_uid : N;
  ap_expected_gid : N;
  ap_current_process : option (path * ProcessExecutableRole)
}.

Definition production_with_boot_id (boot_id : path) : ActivationPaths :=
  mkActivationPaths ACTIVATION_RECEIPT_PATH boot_id ACTIVE_RUNTIME_MANIFEST_PATH ACTIVATION_BOT_EXECUTABLE_PATH
    ACTIVATION_LAUNCHER_EXECUTABLE_PATH ACTIVATION_RUNTIME_EXECUTABLE_PATH CANARY_PROBE_EXECUTABLE_PATH
    RUNTIME_SOURCE_MANIFEST_PATH (lit "/") 0 0 None.

Definition production_paths : ActivationPaths := production_with_boot_id BOOT_ID_PATH.

Definition with_current_process (p : ActivationPaths) (proc_path : path) (role : ProcessExecutableRole) : ActivationPaths :=
  mkActivationPaths (ap_receipt p) (ap_boot_id p) (ap_active_manifest p) (ap_bot_executable p) (ap_launcher_executable p)
    (ap_runtime_executable p) (ap_canary_probe_executable p) (ap_runtime_source_manifest p) (ap_trusted_root p)
    (ap_expected_uid p) (ap_expected_gid p) (Some (proc_path, role)).

Definition production_for_bot : ActivationPaths := with_current_process production_paths (lit "/proc/self/exe") Bot.

Definition production_for_launcher_with_boot_id (boot_id : path) : ActivationPaths :=
  with_current_process (production_with_boot_id boot_id) (lit "/proc/self/exe") Launcher.

Record RuntimeSourceFile : Type := mkSourceFile {
  sf_source : str;
  sf_destination : str;
  sf_size : N;
  sf_sha256 : str;
  sf_mode : str
}.

Record RuntimeSourceSymlink : Type := mkSourceSymlink { sl_destination : str; sl_target : str }.

Record RuntimeSourceManifest : Type := mkSourceManifest {
  sm_version : N;
  sm_codex_version : str;
  sm_codex_target : str;
  sm_codex_layout_version : N;
  sm_files : list RuntimeSourceFile;
  sm_symlinks : list RuntimeSourceSymlink
}.

Definition CANARY_PROBE_DESTINATION : str := lit "/bin/webex-codex-canary-probe".
Definition RUNTIME_WRAPPER_DESTINATION : str := lit "/usr/libexec/webex-codex-runtime".

(** Destination, source and mode. *)
Definition EXPECTED_RUNTIME_SOURCE_FILES : list (str * str * str) :=
  [(lit "/bin/busybox", lit "/opt/webex-generic-account-bot/runtime-sources/busybox", lit "0555");
   (CANARY_PROBE_DESTINATION, lit "/opt/webex-generic-account-bot/bin/webex-codex-canary-probe", lit "0555");
   (lit "/etc/ssl/certs/ca-certificates.crt", lit "/etc/ssl/certs/ca-certificates.crt", lit "0444");
   (lit "/opt/codex/bin/codex", lit "/opt/webex-generic-account-bot/runtime-sources/codex/bin/codex", lit "0555");
   (lit "/opt/codex/codex-path/rg", lit "/opt/webex-generic-account-bot/runtime-sources/codex/codex-path/rg", lit "0555");
   (lit "/opt/codex/codex-resources/bwrap", lit "/opt/webex-generic-account-bot/runtime-sources/codex/codex-resources/bwrap",
    lit "0555")].

Definition EXPECTED_RUNTIME_SOURCE_SYMLINKS : list (str * str) :=
  [(lit "/bin/sh", lit "busybox");
   (lit "/bin/cat", lit "busybox");
   (lit "/bin/find", lit "busybox");
   (lit "/bin/ls", lit "busybox");
   (lit "/bin/sed", lit "busybox");
   (lit "/bin/wc", lit "busybox")].

(** [FileIdentity]: the metadata a file had, and whether its times may change. *)
Record FileIdentity : Type := mkFileIdentity { fid_metadata : StatSnapshot; volatile_timestamps : bool }.

Record ActivationBinding : Type := mkBinding {
  ab_boot_id : str;
  ab_active_manifest_sha256 : str;
  ab_runtime_image_sha256 : str;
  ab_bot_executable_sha256 : str;
  ab_launcher_executable_sha256 : str;
  ab_runtime_executable_sha256 : str;
  ab_identities : list (list Component * FileIdentity)
}.

Inductive TrustedFileKind : Type := BootId | ReadOnlyFile | ExecutableFile.

Definition from_file_metadata (m : StatSnapshot) (kind : TrustedFileKind) : FileIdentity :=
  mkFileIdentity m (match kind with BootId => true | _ => false end).

Definition identity_length (i : FileIdentity) : N := file_len (fid_metadata i).

(** [expected.matches(&actual)]. *)
Definition identity_matches (expected : FileIdentity) (actual : StatSnapshot) : bool :=
  let e := fid_metadata expected in
  (st_device e =? st_device actual) && (st_inode e =? st_inode actual) && (st_mode e =? st_mode actual)
  && (st_uid e =? st_uid actual) && (st_gid e =? st_gid actual) && (st_links e =? st_links actual)
  && (file_len e =? file_len actual)
  && (volatile_timestamps expected
      || ((st_modified_seconds e =? st_modified_seconds actual)%Z && (st_modified_nanoseconds e =? st_modified_nanoseconds actual)%Z
          && (st_changed_seconds e =? st_changed_seconds actual)%Z && (st_changed_nanoseconds e =? st_changed_nanoseconds actual)%Z)).

(** ** JSON *)

Definition receipt_names : list str :=
  [lit "schema_version"; lit "boot_id"; lit "active_manifest_sha256"; lit "runtime_image_sha256"; lit "bot_executable_sha256";
   lit "launcher_executable_sha256"; lit "runtime_executable_sha256"; lit "codex_version"; lit "model"; lit "canaries"].

(** The deserialiser of a [BTreeMap<String, bool>]: a later entry of a name replaces an
    earlier one. *)
Fixpoint insert_flags (flags : gmap str bool) (fields : list (str * Json)) : option (gmap str bool) :=
  match fields with
  | [] => Some flags
  | (name, v) :: fields => flag ← json_bool v; insert_flags (<[name := flag]> flags) fields
  end.

Definition json_flags (v : Json) : option (gmap str bool) :=
  match v with
  | JObject fields => insert_flags ∅ fields
  | _ => None
  end.

Definition decode_receipt (v : Json) : option ActivationReceipt :=
  fields ← struct_fields receipt_names v;
  match fields with
  | [f1; f2; f3; f4; f5; f6; f7; f8; f9; f10] =>
      f1 ← json_unsigned 65535 f1; f2 ← json_string f2; f3 ← json_string f3; f4 ← json_string f4; f5 ← json_string f5;
      f6 ← json_string f6; f7 ← json_string f7; f8 ← json_string f8; f9 ← json_string f9; f10 ← json_flags f10;
      Some (mkReceipt f1 f2 f3 f4 f5 f6 f7 f8 f9 f10)
  | _ => None
  end.

Definition receipt_json (r : ActivationReceipt) : Json :=
  struct_json receipt_names
    [JNumber (decimal (ar_schema_version r)); JString (ar_boot_id r); JString (ar_active_manifest_sha256 r);
     JString (ar_runtime_image_sha256 r); JString (ar_bot_executable_sha256 r); JString (ar_launcher_executable_sha256 r);
     JString (ar_runtime_executable_sha256 r); JString (ar_codex_version r); JString (ar_model r); checks_json (ar_canaries r)].

Definition json_list {A} (decode : Json -> option A) (v : Json) : option (list A) :=
  match v with
  | JArray elements => mapM decode elements
  | _ => None
  end.

Definition decode_source_file (v : Json) : option RuntimeSourceFile :=
  fields ← struct_fields [lit "source"; lit "destination"; lit "size"; lit "sha256"; lit "mode"] v;
  match fields with
  | [f1; f2; f3; f4; f5] =>
      f1 ← json_string f1; f2 ← json_string f2; f3 ← json_unsigned u64_max f3; f4 ← json_string f4; f5 ← json_string f5;
      Some (mkSourceFile f1 f2 f3 f4 f5)
  | _ => None
  end.

Definition decode_source_symlink (v : Json) : option RuntimeSourceSymlink :=
  fields ← struct_fields [lit "destination"; lit "target"] v;
  match fields with
  | [f1; f2] => f1 ← json_string f1; f2 ← json_string f2; Some (mkSourceSymlink f1 f2)
  | _ => None
  end.

Definition decode_source_manifest (v : Json) : option RuntimeSourceManifest :=
  fields ← struct_fields
    [lit "version"; lit "codex_version"; lit "codex_target"; lit "codex_layout_version"; lit "files"; lit "symlinks"] v;
  match fields with
  | [f1; f2; f3; f4; f5; f6] =>
      f1 ← json_unsigned 65535 f1; f2 ← json_string f2; f3 ← json_string f3; f4 ← json_unsigned 65535 f4;
      f5 ← json_list decode_source_file f5; f6 ← json_list decode_source_symlink f6;
      Some (mkSourceManifest f1 f2 f3 f4 f5 f6)
  | _ => None
  end.

(** [serde_json::to_vec_pretty]. *)
Class JsonPretty : Type := print_pretty : Json -> str.

(** It writes what [from_slice] reads back; white space may follow. *)
Class JsonPrettyLaws `{JsonText} `{JsonPretty} : Prop := {
  parse_pretty : forall v, json_ok v = true -> (json_depth v < 128)%nat -> parse_json (print_pretty v ++ [10]) = Some v;
  pretty_scalar : forall v, json_ok v = true -> Forall (fun c => is_scalar c = true) (print_pretty v)
}.

(** ** Checks of values *)

Definition validate_canaries (canaries : gmap str bool) : result FsError unit :=
  fail_if (negb (size canaries =? length REQUIRED_CANARIES)%nat) (Bail (lit "activation receipt has an incomplete canary set")) ;?
  fail_if (any (fun kv => negb (bool_decide (fst kv ∈ REQUIRED_CANARIES))) (btree_entries canaries))
    (Bail (lit "activation receipt has an unknown canary")) ;?
  fail_if (any (fun name => negb (bool_decide (canaries !! name = Some true))) REQUIRED_CANARIES)
    (Bail (lit "activation receipt has a failed or missing canary")).

Definition validate_activation_manifest (m : ActiveRuntimeManifest) : result FsError unit :=
  fail_if (negb (mf_version m =? 1) || negb (builder_version m =? 1)
      || negb (str_eqb (codex_version m) SUPPORTED_CODEX_VERSION) || negb (str_eqb (codex_target m) SUPPORTED_CODEX_TARGET)
      || negb (codex_layout_version m =? SUPPORTED_CODEX_LAYOUT_VERSION) || negb (valid_digest (image_sha256 m))
      || negb (valid_digest (source_manifest_sha256 m)) || negb (valid_digest (mksquashfs_sha256 m))
      || negb (str_eqb (mksquashfs_argv_sha256 m) EXPECTED_MKSQUASHFS_ARGV_SHA256)
      || (image_size m <=? 4) || (RUNTIME_IMAGE_MAX_BYTES <? image_size m))
    (Bail (lit "runtime active manifest fields are invalid")) ;?
  fail_if (negb (str_eqb (mf_image m) (lit "images/" ++ image_sha256 m ++ lit ".squashfs")))
    (Bail (lit "runtime active manifest image is not content-addressed")).

Definition boot_id_byte (index byte : N) : bool :=
  if one_of [8; 13; 18; 23] index then byte =? ch "-" else is_ascii_hexdigit byte && negb (is_ascii_uppercase byte).

Fixpoint all_indexed (f : N -> N -> bool) (index : N) (l : list N) : bool :=
  match l with
  | [] => true
  | byte :: l => f index byte && all_indexed f (index + 1) l
  end.

Definition parse_boot_id (bytes : list N) : result FsError str :=
  let? value := ok_or (from_utf8 bytes) (Bail (lit "kernel boot identifier is not UTF-8")) in
  let value := default value (strip_suffix [10] value) in
  fail_if (negb (byte_len value =? 36) || negb (all_indexed boot_id_byte 0 (as_bytes value)))
    (Bail (lit "kernel boot identifier is invalid")) ;?
  Ok value.

Definition validate_receipt (receipt : ActivationReceipt) (binding : ActivationBinding) : result FsError VerifiedActivation :=
  fail_if (negb (ar_schema_version receipt =? ACTIVATION_SCHEMA_VERSION))
    (Bail (lit "activation receipt schema version is unsupported")) ;?
  fail_if (negb (str_eqb (ar_codex_version receipt) SUPPORTED_CODEX_VERSION) || negb (str_eqb (ar_model receipt) SUPPORTED_MODEL))
    (Bail (lit "activation receipt runtime policy is unsupported")) ;?
  try_each (fun digest => fail_if (negb (valid_digest digest)) (Bail (lit "activation receipt contains an invalid digest")))
    [ar_active_manifest_sha256 receipt; ar_runtime_image_sha256 receipt; ar_bot_executable_sha256 receipt;
     ar_launcher_executable_sha256 receipt; ar_runtime_executable_sha256 receipt] ;?
  validate_canaries (ar_canaries receipt) ;?
  fail_if (negb (str_eqb (ar_boot_id receipt) (ab_boot_id binding))) (Bail (lit "activation receipt is from a different boot")) ;?
  fail_if (negb (str_eqb (ar_active_manifest_sha256 receipt) (ab_active_manifest_sha256 binding))
      || negb (str_eqb (ar_runtime_image_sha256 receipt) (ab_runtime_image_sha256 binding))
      || negb (str_eqb (ar_bot_executable_sha256 receipt) (ab_bot_executable_sha256 binding))
      || negb (str_eqb (ar_launcher_executable_sha256 receipt) (ab_launcher_executable_sha256 binding))
      || negb (str_eqb (ar_runtime_executable_sha256 receipt) (ab_runtime_executable_sha256 binding)))
    (Bail (lit "activation receipt does not match the active runtime")) ;?
  Ok (mkVerifiedActivation (ar_schema_version receipt) (ar_boot_id receipt) (ar_active_manifest_sha256 receipt)
    (ar_runtime_image_sha256 receipt) (ar_bot_executable_sha256 receipt) (ar_launcher_executable_sha256 receipt)
    (ar_runtime_executable_sha256 receipt) (ar_codex_version receipt) (ar_model receipt)
    (map fst (btree_entries (ar_canaries receipt)))).

Definition ensure_same_activation_binding (expected actual : VerifiedActivation) : result FsError unit :=
  fail_if (negb (va_schema_version expected =? va_schema_version actual) || negb (str_eqb (va_boot_id expected) (va_boot_id actual))
      || negb (str_eqb (va_active_manifest_sha256 expected) (va_active_manifest_sha256 actual))
      || negb (str_eqb (va_runtime_image_sha256 expected) (va_runtime_image_sha256 actual))
      || negb (str_eqb (va_bot_executable_sha256 expected) (va_bot_executable_sha256 actual))
      || negb (str_eqb (va_launcher_executable_sha256 expected) (va_launcher_executable_sha256 actual))
      || negb (str_eqb (va_runtime_executable_sha256 expected) (va_runtime_executable_sha256 actual))
      || negb (str_eqb (va_codex_version expected) (va_codex_version actual)) || negb (str_eqb (va_model expected) (va_model actual)))
    (Bail (lit "activation artifacts changed while production canaries were running")).

(** ** Trusted files *)

Record TrustedRead : Type := mkTrustedRead { tr_bytes : bytes; tr_identity : FileIdentity }.
Record TrustedDigest : Type := mkTrustedDigest { td_digest : str; td_identity : FileIdentity }.

Definition trusted_mode (kind : TrustedFileKind) (permissions : N) : bool :=
  match kind with
  | BootId => (permissions =? 256) || (permissions =? 292)
  | ReadOnlyFile => permissions =? 292
  | ExecutableFile => (permissions =? 365) || (permissions =? 493)
  end.

Definition is_boot_id (kind : TrustedFileKind) : bool := match kind with BootId => true | _ => false end.
Definition is_executable (kind : TrustedFileKind) : bool := match kind with ExecutableFile => true | _ => false end.

Section files.
Context (paths : ActivationPaths).

Definition validate_file_metadata (m : StatSnapshot) (kind : TrustedFileKind) (max_bytes : N) : result FsError unit :=
  fail_if (negb (is_regular m) || is_link m || negb (st_uid m =? ap_expected_uid paths) || negb (st_gid m =? ap_expected_gid paths)
      || negb (st_links m =? 1) || negb (trusted_mode kind (st_permissions m)) || (max_bytes <? file_len m)
      || (negb (is_boot_id kind) && (file_len m =? 0)))
    (Bail (lit "trusted activation file metadata is invalid")).

Definition validate_absolute_normal_path (p : list Component) : result FsError unit :=
  fail_if (negb (absolute_normal p)) (Bail (lit "trusted activation path is not absolute and normalized")).

Definition trusted_directory_metadata (m : StatSnapshot) : bool :=
  is_directory m && negb (is_link m) && (st_uid m =? ap_expected_uid paths) && negb (shared_write m).

(** The loop from the parent up to the trusted root. *)
Fixpoint check_ancestors (above : list (list Component)) : fsprog unit :=
  match above with
  | [] => bail (lit "trusted activation path escaped its trust root")
  | current :: above =>
      let*? m := lstat current in
      let*? _ := bail_if (negb (trusted_directory_metadata m)) (lit "trusted activation directory metadata is invalid") in
      if bool_decide (current = components (ap_trusted_root paths)) then Ret (Ok tt) else check_ancestors above
  end.

Definition validate_trusted_ancestors (p : list Component) : fsprog unit :=
  let*? _ := Ret (validate_absolute_normal_path (components (ap_trusted_root paths))) in
  let*? _ := Ret (validate_absolute_normal_path p) in
  let*? _ := bail_if (negb (path_starts_with p (components (ap_trusted_root paths))) || bool_decide (p = components (ap_trusted_root paths)))
               (lit "trusted activation path is outside its trust root") in
  match ancestors p with
  | [] => bail (lit "trusted activation path has no parent")
  | above => check_ancestors above
  end.

Definition ensure_open_file_identity (f : fd) (expected : FileIdentity) : fsprog unit :=
  let*? m := stat_fd f in
  bail_if (negb (identity_matches expected m)) (lit "trusted activation file changed while open").

Definition ensure_path_identity (p : list Component) (expected : FileIdentity) : fsprog unit :=
  let*? _ := validate_trusted_ancestors p in
  let*? m := lstat p in
  bail_if (negb (identity_matches expected m)) (lit "trusted activation path changed during verification").

Fixpoint ensure_path_identities (identities : list (list Component * FileIdentity)) : fsprog unit :=
  match identities with
  | [] => Ret (Ok tt)
  | (p, expected) :: identities =>
      let*? _ := ensure_path_identity p expected in
      ensure_path_identities identities
  end.

Definition FILE_CAPABILITY : bytes := lit "security.capability".

(** The names in the source are literals that end in their only NUL byte. *)
Definition ensure_xattr_absent (f : fd) (name : bytes) (description : str) : fsprog unit :=
  let* size := (perform (Getxattr f name) : prog fs_answer (result N N)) in
  Ret (match size with
       | Ok _ => Err (Bail (lit "trusted executable has an unexpected " ++ description))
       | Err errno => if (errno =? ENODATA) || (errno =? ENOTSUP) then Ok tt else Err (Os errno)
       end).

Definition open_trusted_file (p : list Component) (kind : TrustedFileKind) (max_bytes : N) : fsprog (fd * FileIdentity) :=
  let*? _ := validate_trusted_ancestors p in
  let*? m := lstat p in
  let*? _ := Ret (validate_file_metadata m kind max_bytes) in
  let expected := from_file_metadata m kind in
  let*? f := open_path p FileNoFollow in
  let*? _ := ensure_open_file_identity f expected in
  let*? _ := (if is_executable kind then ensure_xattr_absent f FILE_CAPABILITY (lit "file capability") else Ret (Ok tt)) in
  Ret (Ok (f, expected)).

(** ** Contents *)

Definition bounded_policy (max_bytes : N) : ReadPolicy :=
  mkReadPolicy [] 8192 max_bytes (lit "trusted activation file size overflowed") (lit "trusted activation file is oversized").

Definition read_bounded (f : fd) (max_bytes : N) : fsprog bytes := read_to_limit (bounded_policy max_bytes) None f [].

Definition read_trusted_file (p : list Component) (kind : TrustedFileKind) (max_bytes : N) : fsprog TrustedRead :=
  let*? (f, id) := open_trusted_file p kind max_bytes in
  let*? data := read_bounded f max_bytes in
  let*? _ := bail_if (is_empty data) (lit "trusted activation file is empty") in
  let*? _ := ensure_open_file_identity f id in
  let*? _ := ensure_path_identity p id in
  Ret (Ok (mkTrustedRead data id)).

Context `{Sha256}.

Definition hash_text (data : bytes) : str := hex (sha256 data).

Definition executable_policy : ReadPolicy :=
  mkReadPolicy (lit "activation executable hashing") (1024 * 1024) EXECUTABLE_MAX_BYTES (lit "trusted executable size overflowed")
    (lit "trusted executable is oversized").

Definition hash_open_executable (f : fd) (deadline : option WorkBudget) : fsprog str :=
  let*? data := read_to_limit executable_policy deadline f [] in
  let*? _ := bail_if (is_empty data) (lit "trusted executable is empty") in
  Ret (Ok (hash_text data)).

Definition hash_trusted_file (p : list Component) (deadline : option WorkBudget) : fsprog TrustedDigest :=
  let*? (f, id) := open_trusted_file p ExecutableFile EXECUTABLE_MAX_BYTES in
  let*? digest := hash_open_executable f deadline in
  let*? _ := ensure_open_file_identity f id in
  let*? _ := ensure_path_identity p id in
  Ret (Ok (mkTrustedDigest digest id)).

Definition image_policy : ReadPolicy :=
  mkReadPolicy (lit "activation runtime image hashing") (1024 * 1024) RUNTIME_IMAGE_MAX_BYTES (lit "runtime image size overflowed")
    (lit "runtime image is oversized").

Definition hash_runtime_image (p : list Component) (expected_size : N) (expected_digest : str) (deadline : option WorkBudget)
  : fsprog TrustedDigest :=
  let*? (f, id) := open_trusted_file p ReadOnlyFile RUNTIME_IMAGE_MAX_BYTES in
  let*? _ := bail_if (negb (identity_length id =? expected_size)) (lit "runtime image size does not match its manifest") in
  let*? magic := read_exactly 4 f (len SQUASHFS_MAGIC) [] in
  let*? _ := bail_if (negb (str_eqb magic SQUASHFS_MAGIC)) (lit "runtime image is not SquashFS") in
  let*? data := read_to_limit image_policy deadline f magic in
  let*? _ := bail_if (negb (len data =? expected_size)) (lit "runtime image size changed while hashing") in
  let digest := hash_text data in
  let*? _ := bail_if (negb (str_eqb digest expected_digest)) (lit "runtime image digest does not match its manifest") in
  let*? _ := ensure_open_file_identity f id in
  let*? _ := ensure_path_identity p id in
  Ret (Ok (mkTrustedDigest digest id)).

(** ** The binding *)

Definition source_file_ok (entry : RuntimeSourceFile) : bool :=
  negb ((sf_size entry =? 0) || (RUNTIME_IMAGE_MAX_BYTES <? sf_size entry) || negb (valid_digest (sf_sha256 entry))).

(** The loop that fills the map of files; a repeated destination is an error. *)
Fixpoint source_files (found : gmap str RuntimeSourceFile) (entries : list RuntimeSourceFile) : result FsError (gmap str RuntimeSourceFile) :=
  match entries with
  | [] => Ok found
  | entry :: entries =>
      fail_if (negb (source_file_ok entry) || is_some_and (found !! sf_destination entry) (fun _ => true))
        (Bail (lit "runtime source manifest file entry is invalid")) ;?
      source_files (<[sf_destination entry := entry]> found) entries
  end.

Fixpoint source_symlinks (found : gmap str str) (entries : list RuntimeSourceSymlink) : result FsError (gmap str str) :=
  match entries with
  | [] => Ok found
  | entry :: entries =>
      fail_if (is_some_and (found !! sl_destination entry) (fun _ => true))
        (Bail (lit "runtime source manifest symlink is duplicated")) ;?
      source_symlinks (<[sl_destination entry := sl_target entry]> found) entries
  end.

Definition expected_source_file (files : gmap str RuntimeSourceFile) (expected : str * str * str) : result FsError unit :=
  let '(destination, expected_source, expected_mode) := expected in
  let? entry := ok_or (files !! destination) (Bail (lit "runtime source manifest is missing a required file")) in
  fail_if (negb (str_eqb (sf_mode entry) expected_mode)
      || (negb (str_eqb destination CANARY_PROBE_DESTINATION) && negb (str_eqb (sf_source entry) expected_source)))
    (Bail (lit "runtime source manifest file policy is invalid")).

(** An entry of the source manifest describes a hashed executable. *)
Definition bound_source (entry : RuntimeSourceFile) (source : str) (hashed : TrustedDigest) : bool :=
  str_eqb (sf_source entry) source && str_eqb (sf_mode entry) (lit "0555") && str_eqb (sf_sha256 entry) (td_digest hashed)
  && (sf_size entry =? identity_length (td_identity hashed)).

Definition validate_runtime_source_binding `{JsonText} (active : ActiveRuntimeManifest) (source_bytes : bytes)
    (runtime canary_probe : TrustedDigest) : result FsError unit :=
  fail_if (negb (str_eqb (hash_text source_bytes) (source_manifest_sha256 active)))
    (Bail (lit "runtime source manifest digest does not match the active image")) ;?
  let? source := ok_or (json_from_slice source_bytes ≫= decode_source_manifest) (Bail (lit "runtime source manifest is invalid JSON")) in
  let? runtime_source := ok_or (from_utf8 (ap_runtime_executable paths)) (Bail (lit "runtime executable path is not UTF-8")) in
  let? canary_probe_source := ok_or (from_utf8 (ap_canary_probe_executable paths))
    (Bail (lit "canary probe executable path is not UTF-8")) in
  fail_if (negb (sm_version source =? 1) || negb (str_eqb (sm_codex_version source) (codex_version active))
      || negb (str_eqb (sm_codex_target source) (codex_target active))
      || negb (sm_codex_layout_version source =? codex_layout_version active)
      || negb (length (sm_files source) =? length EXPECTED_RUNTIME_SOURCE_FILES + 1)%nat
      || negb (length (sm_symlinks source) =? length EXPECTED_RUNTIME_SOURCE_SYMLINKS)%nat)
    (Bail (lit "runtime source manifest policy does not match the active image")) ;?
  let? files := source_files ∅ (sm_files source) in
  try_each (expected_source_file files) EXPECTED_RUNTIME_SOURCE_FILES ;?
  let? runtime_entry := ok_or (files !! RUNTIME_WRAPPER_DESTINATION)
    (Bail (lit "runtime source manifest is missing the runtime wrapper")) in
  fail_if (negb (bound_source runtime_entry runtime_source runtime)) (Bail (lit "runtime source manifest wrapper binding is invalid")) ;?
  let? canary_probe_entry := ok_or (files !! CANARY_PROBE_DESTINATION)
    (Bail (lit "runtime source manifest is missing the canary probe")) in
  fail_if (negb (bound_source canary_probe_entry canary_probe_source canary_probe))
    (Bail (lit "runtime source manifest canary probe binding is invalid")) ;?
  let? symlinks := source_symlinks ∅ (sm_symlinks source) in
  try_each (fun '(destination, expected_target) =>
      fail_if (negb (bool_decide (symlinks !! destination = Some expected_target)))
        (Bail (lit "runtime source manifest symlink policy is invalid")))
    EXPECTED_RUNTIME_SOURCE_SYMLINKS.

Context `{JsonText}.

(** [active_manifest.parent()]. *)
Definition runtime_image_path (m : ActiveRuntimeManifest) : result FsError (list Component) :=
  let? runtime_root := ok_or (parent (components (ap_active_manifest paths)))
    (Bail (lit "runtime active manifest path has no parent")) in
  Ok (runtime_root ++ components (as_bytes (mf_image m))).

Definition load_activation_binding_with_deadline (deadline : option WorkBudget) : fsprog ActivationBinding :=
  let*? _ := check_deadline deadline (lit "activation verification") in
  let*? boot_id_file := read_trusted_file (components (ap_boot_id paths)) BootId BOOT_ID_MAX_BYTES in
  let*? boot_id := Ret (parse_boot_id (tr_bytes boot_id_file)) in
  let*? manifest_file := read_trusted_file (components (ap_active_manifest paths)) ReadOnlyFile ACTIVE_MANIFEST_MAX_BYTES in
  let*? m := Ret (ok_or (json_from_slice (tr_bytes manifest_file) ≫= decode_manifest)
                    (Bail (lit "runtime active manifest is invalid JSON"))) in
  let*? _ := Ret (validate_activation_manifest m) in
  let*? image_path := Ret (runtime_image_path m) in
  let*? runtime_image := hash_runtime_image image_path (image_size m) (image_sha256 m) deadline in
  let*? bot := hash_trusted_file (components (ap_bot_executable paths)) deadline in
  let*? launcher := hash_trusted_file (components (ap_launcher_executable paths)) deadline in
  let*? runtime := hash_trusted_file (components (ap_runtime_executable paths)) deadline in
  let*? canary_probe := hash_trusted_file (components (ap_canary_probe_executable paths)) deadline in
  let*? source_manifest := read_trusted_file (components (ap_runtime_source_manifest paths)) ReadOnlyFile RUNTIME_SOURCE_MANIFEST_MAX_BYTES in
  let*? _ := Ret (validate_runtime_source_binding m (tr_bytes source_manifest) runtime canary_probe) in
  let*? _ := check_deadline deadline (lit "activation source manifest verification") in
  Ret (Ok (mkBinding boot_id (hash_text (tr_bytes manifest_file)) (td_digest runtime_image) (td_digest bot) (td_digest launcher)
    (td_digest runtime)
    [(components (ap_boot_id paths), tr_identity boot_id_file);
     (components (ap_active_manifest paths), tr_identity manifest_file);
     (image_path, td_identity runtime_image);
     (components (ap_bot_executable paths), td_identity bot);
     (components (ap_launcher_executable paths), td_identity launcher);
     (components (ap_runtime_executable paths), td_identity runtime);
     (components (ap_canary_probe_executable paths), td_identity canary_probe);
     (components (ap_runtime_source_manifest paths), tr_identity source_manifest)])).

Definition load_activation_binding : fsprog ActivationBinding := load_activation_binding_with_deadline None.

(** ** Verification *)

Definition expected_executable (role : ProcessExecutableRole) (receipt : ActivationReceipt) : list Component * str :=
  match role with
  | Bot => (components (ap_bot_executable paths), ar_bot_executable_sha256 receipt)
  | Launcher => (components (ap_launcher_executable paths), ar_launcher_executable_sha256 receipt)
  end.

Definition bound_identity (identities : list (list Component * FileIdentity)) (p : list Component) : option FileIdentity :=
  snd <$> find (fun entry => bool_decide (fst entry = p)) identities.

Definition verify_current_process_executable (receipt : ActivationReceipt) (binding : ActivationBinding) (deadline : option WorkBudget)
  : fsprog unit :=
  match ap_current_process paths with
  | None => Ret (Ok tt)
  | Some (proc_path, role) =>
      let '(expected_path, expected_digest) := expected_executable role receipt in
      let*? expected_identity := Ret (ok_or (bound_identity (ab_identities binding) expected_path)
                                        (Bail (lit "activation binding omitted the current executable"))) in
      let*? target := read_link (components proc_path) in
      let*? _ := bail_if (negb (bool_decide (components target = expected_path))) (lit "current process executable path is invalid") in
      let*? f := open_path (components proc_path) FileFollow in
      let*? m := stat_fd f in
      let*? _ := Ret (validate_file_metadata m ExecutableFile EXECUTABLE_MAX_BYTES) in
      let*? _ := bail_if (negb (identity_matches expected_identity m)) (lit "current process executable does not match the active path") in
      let*? _ := ensure_xattr_absent f FILE_CAPABILITY (lit "file capability") in
      let*? digest := hash_open_executable f deadline in
      let*? _ := bail_if (negb (str_eqb digest expected_digest))
                   (lit "current process executable does not match the activation receipt") in
      let*? _ := ensure_open_file_identity f (mkFileIdentity m false) in
      let*? again := read_link (components proc_path) in
      let*? _ := bail_if (negb (bool_decide (components again = expected_path)))
                   (lit "current process executable changed during verification") in
      ensure_path_identity expected_path expected_identity
  end.

Definition verify_activation_with_deadline (deadline : option WorkBudget) : fsprog VerifiedActivation :=
  let*? receipt_file := read_trusted_file (components (ap_receipt paths)) ReadOnlyFile RECEIPT_MAX_BYTES in
  let*? receipt := Ret (ok_or (json_from_slice (tr_bytes receipt_file) ≫= decode_receipt)
                          (Bail (lit "activation receipt is invalid JSON"))) in
  let*? binding := load_activation_binding_with_deadline deadline in
  let*? verified := Ret (validate_receipt receipt binding) in
  let*? _ := verify_current_process_executable receipt binding deadline in
  let*? _ := ensure_path_identity (components (ap_receipt paths)) (tr_identity receipt_file) in
  let*? _ := ensure_path_identities (ab_identities binding) in
  Ret (Ok verified).

Definition verify_activation_with : fsprog VerifiedActivation := verify_activation_with_deadline None.

Definition verify_activation_candidate_with : fsprog VerifiedActivation :=
  let*? binding := load_activation_binding in
  let*? _ := ensure_path_identities (ab_identities binding) in
  Ret (Ok (mkVerifiedActivation ACTIVATION_SCHEMA_VERSION (ab_boot_id binding) (ab_active_manifest_sha256 binding)
    (ab_runtime_image_sha256 binding) (ab_bot_executable_sha256 binding) (ab_launcher_executable_sha256 binding)
    (ab_runtime_executable_sha256 binding) SUPPORTED_CODEX_VERSION SUPPORTED_MODEL [])).

(** ** The receipt file *)

Definition receipt_parent : result FsError (list Component) :=
  ok_or (parent (components (ap_receipt paths))) (Bail (lit "activation receipt path has no parent")).

Definition directory_unchanged (expected actual : StatSnapshot) : bool :=
  identity_matches (mkFileIdentity actual false) expected && (st_uid actual =? ap_expected_uid paths)
  && negb (shared_write actual) && is_directory actual.

Definition sync_directory (directory : list Component) : fsprog unit :=
  let*? expected := lstat directory in
  let*? f := open_path directory DirectoryNoFollow in
  let*? actual := stat_fd f in
  let*? _ := bail_if (negb (directory_unchanged expected actual)) (lit "activation receipt directory changed") in
  sync_checked f.

Definition invalidate_activation_receipt_with : fsprog unit :=
  let receipt := components (ap_receipt paths) in
  let*? _ := validate_trusted_ancestors receipt in
  let*? existing := lstat_existing receipt in
  let*? _ := match existing with
             | Some m =>
                 let*? _ := Ret (validate_file_metadata m ReadOnlyFile RECEIPT_MAX_BYTES) in
                 remove_file receipt
             | None => Ret (Ok tt)
             end in
  let*? parent := Ret receipt_parent in
  sync_directory parent.

Definition build_activation_receipt_with (canaries : gmap str bool) : fsprog ActivationReceipt :=
  let*? _ := Ret (validate_canaries canaries) in
  let*? binding := load_activation_binding in
  let receipt := mkReceipt ACTIVATION_SCHEMA_VERSION (ab_boot_id binding) (ab_active_manifest_sha256 binding)
    (ab_runtime_image_sha256 binding) (ab_bot_executable_sha256 binding) (ab_launcher_executable_sha256 binding)
    (ab_runtime_executable_sha256 binding) SUPPORTED_CODEX_VERSION SUPPORTED_MODEL canaries in
  let*? _ := Ret (validate_receipt receipt binding) in
  let*? _ := ensure_path_identities (ab_identities binding) in
  Ret (Ok receipt).

Definition set_file_owner_if_needed (f : fd) : fsprog unit :=
  let*? m := stat_fd f in
  if (st_uid m =? ap_expected_uid paths) && (st_gid m =? ap_expected_gid paths) then Ret (Ok tt)
  else os (perform (Fchown f (ap_expected_uid paths) (ap_expected_gid paths))).

Definition temporary_name (base_name : str) (pid sequence : N) : bytes :=
  as_bytes (lit "." ++ base_name ++ lit "." ++ decimal pid ++ lit "." ++ decimal sequence ++ lit ".tmp").

Fixpoint create_temporary_attempts (attempts : nat) (parent : list Component) (base_name : str) : fsprog (list Component * fd) :=
  match attempts with
  | O => bail (lit "failed to allocate a temporary activation receipt")
  | S attempts =>
      let* sequence := (perform NextSequence : prog fs_answer N) in
      let* pid := (perform ProcessId : prog fs_answer N) in
      let p := child parent (temporary_name base_name pid sequence) in
      let* created := (perform (CreatePath p 384) : prog fs_answer (result N fd)) in
      match created with
      | Ok f =>
          let* owned := set_file_owner_if_needed f in
          match owned with
          | Ok _ => Ret (Ok (p, f))
          | Err error =>
              let* _ := (perform (RemoveFile p) : prog fs_answer (result N unit)) in
              fail error
          end
      | Err errno => if errno =? EEXIST then create_temporary_attempts attempts parent base_name else fail (Os errno)
      end
  end.

Definition create_temporary_file (parent : list Component) (base_name : str) : fsprog (list Component * fd) :=
  create_temporary_attempts 32 parent base_name.

(** The closure of [write_activation_receipt_with]. *)
Definition install_receipt (parent temporary_path : list Component) (temporary : fd) (payload : bytes) : fsprog unit :=
  let receipt := components (ap_receipt paths) in
  let*? _ := os (perform (WriteAll temporary payload)) in
  let*? _ := os (perform (Fchmod temporary 292)) in
  let*? _ := set_file_owner_if_needed temporary in
  let*? _ := sync_checked temporary in
  let*? m := stat_fd temporary in
  let*? _ := Ret (validate_file_metadata m ReadOnlyFile RECEIPT_MAX_BYTES) in
  let*? _ := os (perform (RenamePath temporary_path receipt)) in
  let*? _ := sync_directory parent in
  let*? installed := lstat receipt in
  Ret (validate_file_metadata installed ReadOnlyFile RECEIPT_MAX_BYTES).

(** [if temporary_path.exists() { let _ = fs::remove_file(..); }]. *)
Definition discard_temporary (temporary_path : list Component) : prog fs_answer unit :=
  let* exists_ := (perform (StatPath temporary_path) : prog fs_answer (result N StatSnapshot)) in
  if is_ok exists_ then let* _ := (perform (RemoveFile temporary_path) : prog fs_answer (result N unit)) in Ret tt else Ret tt.

Context `{JsonPretty}.

Definition receipt_payload (r : ActivationReceipt) : bytes := as_bytes (print_pretty (receipt_json r)) ++ [10].

Definition write_activation_receipt_with (receipt : ActivationReceipt) : fsprog unit :=
  let*? binding := load_activation_binding in
  let*? _ := Ret (validate_receipt receipt binding) in
  let payload := receipt_payload receipt in
  let*? _ := bail_if (RECEIPT_MAX_BYTES <? len payload) (lit "activation receipt is oversized") in
  let*? _ := validate_trusted_ancestors (components (ap_receipt paths)) in
  let*? existing := lstat_existing (components (ap_receipt paths)) in
  let*? _ := Ret (match existing with
                  | Some m => validate_file_metadata m ReadOnlyFile RECEIPT_MAX_BYTES
                  | None => Ok tt
                  end) in
  let*? parent := Ret receipt_parent in
  let*? base_name := Ret (ok_or (file_name (ap_receipt paths)) (Bail (lit "activation receipt path has no file name"))) in
  let*? (temporary_path, temporary) := create_temporary_file parent (from_utf8_lossy base_name) in
  let* result := install_receipt parent temporary_path temporary payload in
  let* _ := discard_temporary temporary_path in
  Ret result.

(** ** The renewal *)

Definition ensure_root : fsprog unit :=
  let* uid := (perform EffectiveUid : prog fs_answer N) in
  bail_if (negb (uid =? 0)) (lit "activation receipt writer must run as root").

Definition begin_activation_renewal_with : fsprog VerifiedActivation :=
  let*? _ := invalidate_activation_receipt_with in
  verify_activation_candidate_with.

Definition verify_preactivation_candidate_with : fsprog VerifiedActivation :=
  let receipt := components (ap_receipt paths) in
  let*? _ := validate_trusted_ancestors receipt in
  let*? existing := lstat_existing receipt in
  let*? _ := bail_if (is_some_and existing (fun _ => true)) (lit "activation receipt must be absent before first activation") in
  verify_activation_candidate_with.

(** The closure of [commit_activation_receipt_with]. *)
Definition mint_receipt (expected : VerifiedActivation) (canaries : gmap str bool) : fsprog VerifiedActivation :=
  let*? current := verify_activation_candidate_with in
  let*? _ := Ret (ensure_same_activation_binding expected current) in
  let*? receipt := build_activation_receipt_with canaries in
  let*? _ := write_activation_receipt_with receipt in
  let*? verified := verify_activation_with in
  let*? _ := Ret (ensure_same_activation_binding expected verified) in
  Ret (Ok verified).

Definition commit_activation_receipt_with (expected : VerifiedActivation) (canaries : gmap str bool) : fsprog VerifiedActivation :=
  let* result := mint_receipt expected canaries in
  match result with
  | Ok verified => Ret (Ok verified)
  | Err error =>
      let* invalidated := invalidate_activation_receipt_with in
      match invalidated with
      | Ok _ => fail error
      | Err invalidation_error => fail (AlsoFailed error [invalidation_error])
      end
  end.
End files.

(** ** Entry points *)

Section entry_points.
Context `{Sha256} `{JsonText} `{JsonPretty}.

Definition verify_activation : fsprog VerifiedActivation := verify_activation_with production_for_bot.

Definition begin_activation_renewal : fsprog VerifiedActivation :=
  let*? _ := ensure_root in begin_activation_renewal_with production_paths.

Definition verify_preactivation_candidate : fsprog VerifiedActivation :=
  let*? _ := ensure_root in verify_preactivation_candidate_with production_paths.

Definition abort_activation_renewal : fsprog unit :=
  let*? _ := ensure_root in invalidate_activation_receipt_with production_paths.

Definition commit_activation_receipt (expected : VerifiedActivation) (canaries : gmap str bool) : fsprog VerifiedActivation :=
  let*? _ := ensure_root in commit_activation_receipt_with production_paths expected canaries.

(** The blocking part of [verify_activation_bounded]. *)
Definition verify_activation_within (deadline : WorkBudget) : fsprog VerifiedActivation :=
  verify_activation_with_deadline production_for_bot (Some deadline).
End entry_points.
