(* ===== verification/ActivationRules.v ===== *)
(** * What a verified activation vouches for

    A verified receipt names exactly the artifacts whose bytes were read from trusted files
    during the verification, all its canaries passed, and the running process is one of the
    artifacts; verification changes nothing; a renewal that fails leaves no receipt. *)

From S2P Require Import Prelude Effects Text Digest Paths HostFiles WorkBudget Descriptors DescriptorRules HostPaths.
From S2P Require Import HostPathRules Webex Serde JsonCompact LauncherProtocol CanaryProtocol CanaryRules IsolatedPlan Activation.

Local Open Scope N_scope.

(** ** Values *)

Definition all_canaries : gmap str bool := list_to_map (map (fun name => (name, true)) REQUIRED_CANARIES).

Lemma required_nodup : NoDup REQUIRED_CANARIES.
Proof. by apply (bool_decide_unpack _); vm_compute. Qed.

Lemma all_canaries_lookup name : all_canaries !! name = if bool_decide (name ∈ REQUIRED_CANARIES) then Some true else None.
Proof.
  unfold all_canaries. case_bool_decide as Hn.
  - apply elem_of_list_to_map_1; [rewrite map_map, map_id; apply required_nodup|]. apply elem_of_map. by exists name.
  - apply not_elem_of_list_to_map_1. by rewrite map_map, map_id.
Qed.

(** The only canaries that pass are the required ones, all of them, all true. *)
Lemma canaries_ok m u : validate_canaries m = Ok u <-> m = all_canaries.
Proof.
  destruct u. unfold validate_canaries. rewrite !then_ok, !fail_if_ok, negb_false_iff, Nat.eqb_eq, !any_false.
  setoid_rewrite negb_false_iff. setoid_rewrite bool_decide_eq_true. split.
  - intros (_ & Hk & Ht). apply map_eq. intros name. rewrite all_canaries_lookup. case_bool_decide as Hn; [auto|].
    destruct (m !! name) as [b|] eqn:E; [|done]. exfalso. apply Hn, (Hk (name, b)). by apply elem_of_btree.
  - intros ->. split; [by vm_compute|]. split.
    + intros [name b] Hb%elem_of_btree. rewrite all_canaries_lookup in Hb. by case_bool_decide.
    + intros name Hn. by rewrite all_canaries_lookup, bool_decide_eq_true_2.
Qed.

(** What a receipt that was accepted says of a binding. *)
Definition accepts (binding : ActivationBinding) (r : ActivationReceipt) : Prop :=
  ar_schema_version r = 1 /\ ar_codex_version r = SUPPORTED_CODEX_VERSION /\ ar_model r = SUPPORTED_MODEL
  /\ ar_canaries r = all_canaries /\ ar_boot_id r = ab_boot_id binding
  /\ ar_active_manifest_sha256 r = ab_active_manifest_sha256 binding /\ ar_runtime_image_sha256 r = ab_runtime_image_sha256 binding
  /\ ar_bot_executable_sha256 r = ab_bot_executable_sha256 binding
  /\ ar_launcher_executable_sha256 r = ab_launcher_executable_sha256 binding
  /\ ar_runtime_executable_sha256 r = ab_runtime_executable_sha256 binding.

Definition digests_valid (r : ActivationReceipt) : Prop :=
  Forall (fun d => valid_digest d = true)
    [ar_active_manifest_sha256 r; ar_runtime_image_sha256 r; ar_bot_executable_sha256 r; ar_launcher_executable_sha256 r;
     ar_runtime_executable_sha256 r].

Definition activation_of (r : ActivationReceipt) : VerifiedActivation :=
  mkVerifiedActivation (ar_schema_version r) (ar_boot_id r) (ar_active_manifest_sha256 r) (ar_runtime_image_sha256 r)
    (ar_bot_executable_sha256 r) (ar_launcher_executable_sha256 r) (ar_runtime_executable_sha256 r) (ar_codex_version r)
    (ar_model r) (map fst (btree_entries (ar_canaries r))).

Lemma receipt_ok r binding v :
  validate_receipt r binding = Ok v <-> accepts binding r /\ digests_valid r /\ v = activation_of r.
Proof.
  unfold validate_receipt, accepts, digests_valid.
  rewrite !then_ok, !fail_if_ok, try_each_ok, canaries_ok, !orb_false_iff, !negb_false_iff, !str_eqb_eq, !N.eqb_eq.
  assert (forall l, Forall (fun d => fail_if (negb (valid_digest d)) (Bail (lit "activation receipt contains an invalid digest")) = Ok tt) l
    <-> Forall (fun d => valid_digest d = true) l) as ->.
  { intros l. apply Forall_proper; [|done]. intros d. by rewrite fail_if_ok, negb_false_iff. }
  assert (forall (a b : VerifiedActivation), Ok (E := FsError) a = Ok b <-> b = a) as -> by (split; congruence).
  unfold ACTIVATION_SCHEMA_VERSION, activation_of. tauto.
Qed.

(** The text of a boot identifier. *)
Definition boot_id_text (s : str) : Prop := byte_len s = 36 /\ all_indexed boot_id_byte 0 (as_bytes s) = true.

Lemma boot_id_ok data value :
  parse_boot_id data = Ok value <->
  boot_id_text value /\ exists text, from_utf8 data = Some text /\ value = default text (strip_suffix [10] text).
Proof.
  unfold parse_boot_id, boot_id_text. rewrite rbind_ok. setoid_rewrite then_ok. setoid_rewrite fail_if_ok.
  setoid_rewrite orb_false_iff. setoid_rewrite negb_false_iff. setoid_rewrite N.eqb_eq. split.
  - intros (text & Ht & (Hl & Ha) & [= <-]). split; [done|]. exists text. by destruct (from_utf8 data); [injection Ht as ->|].
  - intros ((Hl & Ha) & text & -> & ->). by exists text.
Qed.

(** ** Verification only looks, opens and reads *)

Definition inspects (c : fs_call) : bool := looks c || match c with OpenPath _ _ | ReadFd _ _ => true | _ => false end.

Lemma looks_inspects {A} (p : prog fs_answer A) : calls_only looks p -> calls_only inspects p.
Proof. intros Hp. eapply calls_only_mono; [exact Hp|]. intros c Hc. unfold inspects. by rewrite Hc. Qed.

#[local] Hint Extern 2 (calls_only inspects (check_deadline _ _)) => apply looks_inspects, check_deadline_looks : calls_only.
#[local] Hint Extern 2 (calls_only inspects (stat_fd _)) => apply looks_inspects, stat_fd_looks : calls_only.
#[local] Hint Extern 2 (calls_only inspects (bail_if _ _)) => apply calls_only_ret : calls_only.

Section inspection.
Context (paths : ActivationPaths) `{Sha256} `{JsonText}.

Lemma check_ancestors_looks above : calls_only looks (check_ancestors paths above).
Proof. induction above as [|current above IH]; cbn [check_ancestors]; unfold lstat, os, bail_if, bail, fail; calls_only. Qed.

Lemma validate_trusted_ancestors_looks p : calls_only looks (validate_trusted_ancestors paths p).
Proof.
  unfold validate_trusted_ancestors. do 3 (apply calls_only_bind_ok; [apply calls_only_ret|]; intros _).
  destruct (ancestors p); [apply calls_only_ret|apply check_ancestors_looks].
Qed.

Lemma ensure_open_file_identity_looks f expected : calls_only looks (ensure_open_file_identity f expected).
Proof. unfold ensure_open_file_identity. calls_only. Qed.

Lemma ensure_path_identity_looks p expected : calls_only looks (ensure_path_identity paths p expected).
Proof.
  unfold ensure_path_identity. apply calls_only_bind_ok; [apply validate_trusted_ancestors_looks|]. unfold lstat, os. calls_only.
Qed.

Lemma ensure_path_identities_looks l : calls_only looks (ensure_path_identities paths l).
Proof.
  induction l as [|[p i] l IH]; cbn [ensure_path_identities]; [apply calls_only_ret|].
  apply calls_only_bind_ok; [apply ensure_path_identity_looks|]. done.
Qed.

Lemma ensure_xattr_absent_looks f name description : calls_only looks (ensure_xattr_absent f name description).
Proof. unfold ensure_xattr_absent. calls_only. Qed.

#[local] Hint Resolve validate_trusted_ancestors_looks ensure_open_file_identity_looks ensure_path_identity_looks
  ensure_path_identities_looks ensure_xattr_absent_looks : calls_only.
#[local] Hint Resolve looks_inspects | 5 : calls_only.

Lemma open_trusted_file_inspects p kind max : calls_only inspects (open_trusted_file paths p kind max).
Proof.
  unfold open_trusted_file. apply calls_only_bind_ok; [auto with calls_only|]. intros _. unfold lstat, open_path, os.
  apply calls_only_bind_ok; [calls_only|]. intros m. apply calls_only_bind_ok; [calls_only|]. intros _.
  apply calls_only_bind_ok; [calls_only|]. intros f. apply calls_only_bind_ok; [auto with calls_only|]. intros _.
  apply calls_only_bind_ok; [destruct (is_executable kind); auto with calls_only|]. intros _. calls_only.
Qed.

Lemma read_chunk_inspects f limit : calls_only inspects (read_chunk f limit).
Proof. unfold read_chunk, os. calls_only. Qed.

Lemma read_to_limit_inspects pol deadline f data : calls_only inspects (read_to_limit pol deadline f data).
Proof.
  apply loop_calls_only. intros s. unfold read_round. apply calls_only_bind_ok; [auto with calls_only|]. intros _.
  apply calls_only_bind_ok; [apply read_chunk_inspects|]. intros chunk. calls_only.
Qed.

Lemma read_exactly_inspects fuel f remaining data : calls_only inspects (read_exactly fuel f remaining data).
Proof.
  revert remaining data. induction fuel as [|fuel IH]; intros remaining data; cbn [read_exactly]; (destruct (remaining =? 0);
    [apply calls_only_ret|]); [apply calls_only_ret|]. apply calls_only_bind_ok; [apply read_chunk_inspects|].
  intros chunk. destruct (is_empty chunk); [apply calls_only_ret|apply IH].
Qed.

#[local] Hint Resolve open_trusted_file_inspects read_to_limit_inspects read_exactly_inspects : calls_only.

Lemma read_trusted_file_inspects p kind max : calls_only inspects (read_trusted_file paths p kind max).
Proof.
  unfold read_trusted_file, read_bounded. apply calls_only_bind_ok; [auto with calls_only|]. intros [f i].
  apply calls_only_bind_ok; [auto with calls_only|]. intros data. do 3 (apply calls_only_bind_ok; [auto with calls_only|]; intros _).
  apply calls_only_ret.
Qed.

Lemma hash_open_executable_inspects f deadline : calls_only inspects (hash_open_executable f deadline).
Proof.
  unfold hash_open_executable. apply calls_only_bind_ok; [auto with calls_only|]. intros data.
  apply calls_only_bind_ok; [auto with calls_only|]. intros _. apply calls_only_ret.
Qed.

#[local] Hint Resolve hash_open_executable_inspects : calls_only.

Lemma hash_trusted_file_inspects p deadline : calls_only inspects (hash_trusted_file paths p deadline).
Proof.
  unfold hash_trusted_file. apply calls_only_bind_ok; [auto with calls_only|]. intros [f i].
  do 3 (apply calls_only_bind_ok; [auto with calls_only|]; intros ?). apply calls_only_ret.
Qed.

Lemma hash_runtime_image_inspects p expected_size expected_digest deadline :
  calls_only inspects (hash_runtime_image paths p expected_size expected_digest deadline).
Proof.
  unfold hash_runtime_image. apply calls_only_bind_ok; [auto with calls_only|]. intros [f i].
  do 8 (apply calls_only_bind_ok; [auto with calls_only|]; intros ?). apply calls_only_ret.
Qed.

#[local] Hint Resolve read_trusted_file_inspects hash_trusted_file_inspects hash_runtime_image_inspects : calls_only.

Lemma load_activation_binding_inspects deadline : calls_only inspects (load_activation_binding_with_deadline paths deadline).
Proof.
  unfold load_activation_binding_with_deadline.
  repeat (apply calls_only_bind_ok; [auto with calls_only|]; intros ?). apply calls_only_ret.
Qed.

Lemma verify_current_process_inspects r binding deadline : calls_only inspects (verify_current_process_executable paths r binding deadline).
Proof.
  unfold verify_current_process_executable. destruct (ap_current_process paths) as [[proc_path role]|]; [|apply calls_only_ret].
  destruct (expected_executable paths role r) as [expected_path expected_digest]. apply calls_only_bind_ok; [apply calls_only_ret|].
  intros i. unfold read_link, open_path, os.
  repeat (apply calls_only_bind_ok; [first [solve [auto with calls_only]|solve [calls_only]]|]; intros ?). auto with calls_only.
Qed.

#[local] Hint Resolve load_activation_binding_inspects verify_current_process_inspects : calls_only.

(** Verifying an activation changes nothing on the host. *)
Lemma verify_activation_inspects deadline : calls_only inspects (verify_activation_with_deadline paths deadline).
Proof.
  unfold verify_activation_with_deadline.
  repeat (apply calls_only_bind_ok; [auto with calls_only|]; intros ?). apply calls_only_ret.
Qed.

Lemma verify_candidate_inspects : calls_only inspects (verify_activation_candidate_with paths).
Proof.
  unfold verify_activation_candidate_with, load_activation_binding.
  repeat (apply calls_only_bind_ok; [auto with calls_only|]; intros ?). apply calls_only_ret.
Qed.
End inspection.

(** ** What was read stays known *)

Section reading.
Context (paths : ActivationPaths) `{Sha256} `{JsonText}.

#[local] Hint Extern 1 (stays _ _ (validate_trusted_ancestors _ _)) => apply looks_stays, validate_trusted_ancestors_looks : stays.
#[local] Hint Extern 1 (stays _ _ (ensure_open_file_identity _ _)) => apply looks_stays, ensure_open_file_identity_looks : stays.
#[local] Hint Extern 1 (stays _ _ (ensure_path_identity _ _ _)) => apply looks_stays, ensure_path_identity_looks : stays.
#[local] Hint Extern 1 (stays _ _ (ensure_path_identities _ _)) => apply looks_stays, ensure_path_identities_looks : stays.
#[local] Hint Extern 1 (stays _ _ (ensure_xattr_absent _ _ _)) => apply looks_stays, ensure_xattr_absent_looks : stays.
#[local] Hint Extern 1 (stays _ _ (Ret _)) => apply stays_ret : stays.

Lemma lstat_looks p : calls_only looks (lstat p).
Proof. unfold lstat, os. calls_only. Qed.

Lemma read_link_looks p : calls_only looks (read_link p).
Proof. unfold read_link, os. calls_only. Qed.

#[local] Hint Extern 1 (stays _ _ (lstat _)) => apply looks_stays, lstat_looks : stays.
#[local] Hint Extern 1 (stays _ _ (read_link _)) => apply looks_stays, read_link_looks : stays.

Lemma open_trusted_file_stays p kind max : stays_open subject_fd [] fst (open_trusted_file paths p kind max).
Proof.
  unfold open_trusted_file. apply stays_open_bind; [auto with stays|]. intros _. apply stays_open_bind; [auto with stays|]. intros m.
  apply stays_open_bind; [auto with stays|]. intros _. apply stays_open_here; [by apply open_path_stays|..]; intros f.
  - apply stays_bind_ok; [auto with stays|]. intros _. apply stays_bind_ok; [destruct (is_executable kind); auto with stays|]. auto with stays.
  - intros h. rewrite wp_bind_ok. eapply wp_consequence; [apply wp_any|]. intros h1 [[]|e] _; [|done].
    rewrite wp_bind_ok. eapply wp_consequence; [apply wp_any|]. by intros h2 [[]|e] _.
Qed.

(** A program that opens a trusted file and goes on with it. *)
Lemma trusted_stays {B} p kind max (k : fd * FileIdentity -> fsprog B) :
  (forall f i, stays subject_fd [f] (k (f, i))) -> stays subject_fd [] (bind_ok (open_trusted_file paths p kind max) k).
Proof.
  intros Hk. apply (stays_bind_open subject_fd [] fst); [apply open_trusted_file_stays|]. intros [f i]. apply Hk.
Qed.

Lemma read_trusted_file_stays p kind max : stays subject_fd [] (read_trusted_file paths p kind max).
Proof.
  apply trusted_stays. intros f i. apply stays_bind_ok; [apply read_to_limit_stays; in_view|]. intros data.
  do 3 (apply stays_bind_ok; [auto with stays|]; intros _). apply stays_ret.
Qed.

Lemma hash_open_executable_stays fs f deadline : f ∈ fs -> stays subject_fd fs (hash_open_executable f deadline).
Proof.
  intros Hf. unfold hash_open_executable. apply stays_bind_ok; [by apply read_to_limit_stays|]. intros data.
  apply stays_bind_ok; auto with stays.
Qed.

Lemma hash_trusted_file_stays p deadline : stays subject_fd [] (hash_trusted_file paths p deadline).
Proof.
  apply trusted_stays. intros f i. apply stays_bind_ok; [apply hash_open_executable_stays; in_view|]. intros digest.
  do 2 (apply stays_bind_ok; [auto with stays|]; intros _). apply stays_ret.
Qed.

Lemma hash_runtime_image_stays p expected_size expected_digest deadline :
  stays subject_fd [] (hash_runtime_image paths p expected_size expected_digest deadline).
Proof.
  apply trusted_stays. intros f i. apply stays_bind_ok; [auto with stays|]. intros _.
  apply stays_bind_ok; [apply read_exactly_stays; in_view|]. intros magic. apply stays_bind_ok; [auto with stays|]. intros _.
  apply stays_bind_ok; [apply read_to_limit_stays; in_view|]. intros data.
  do 4 (apply stays_bind_ok; [auto with stays|]; intros _). apply stays_ret.
Qed.

Lemma verify_current_process_stays r binding deadline : stays subject_fd [] (verify_current_process_executable paths r binding deadline).
Proof.
  unfold verify_current_process_executable. destruct (ap_current_process paths) as [[proc_path role]|]; [|apply stays_ret].
  destruct (expected_executable paths role r) as [expected_path expected_digest]. apply stays_bind_ok; [apply stays_ret|]. intros i.
  do 2 (apply stays_bind_ok; [auto with stays|]; intros ?).
  eapply stays_bind_fd; [by apply open_path_stays|]. intros f. do 4 (apply stays_bind_ok; [auto with stays|]; intros ?).
  apply stays_bind_ok; [apply hash_open_executable_stays; in_view|]. intros digest.
  do 4 (apply stays_bind_ok; [auto with stays|]; intros ?). auto with stays.
Qed.

(** The directories from the parent of a path up to the trusted root belonged to the expected
    user and nobody else could write to them. *)
Definition ancestors_trusted (p : list Component) (h : list ev) : Prop :=
  exists below above, ancestors p = below ++ components (ap_trusted_root paths) :: above /\
    forall a, a ∈ below ++ [components (ap_trusted_root paths)] ->
      exists m, (Ev (Lstat a) (Ok m) : ev) ∈ h /\ trusted_directory_metadata paths m = true.

(** [data] is what was read from a trusted file at [p], whose identity was [i]; once it had
    been read, the path still named that file. *)
Definition file_vouched (h : list ev) (p : list Component) (kind : TrustedFileKind) (max : N) (data : bytes) (i : FileIdentity) : Prop :=
  exists f m h1 m', i = from_file_metadata m kind /\ (Ev (Lstat p) (Ok m) : ev) ∈ h /\ validate_file_metadata paths m kind max = Ok tt
    /\ ancestors_trusted p h /\ (Ev (OpenPath p FileNoFollow) (Ok f) : ev) ∈ h
    /\ (kind = ExecutableFile -> exists errno, (Ev (Getxattr f FILE_CAPABILITY) (Err errno) : ev) ∈ h /\ (errno = ENODATA \/ errno = ENOTSUP))
    /\ received f h = data
    /\ extends (Ev (Lstat p) (Ok m') :: h1) h /\ received f h1 = data /\ identity_matches i m' = true.

(** Later the path still named the file. *)
Definition still_named (h0 h : list ev) (p : list Component) (i : FileIdentity) : Prop :=
  exists h1 m, extends h0 h1 /\ extends (Ev (Lstat p) (Ok m) :: h1) h /\ identity_matches i m = true.

Lemma ancestors_trusted_extends p h h' : ancestors_trusted p h -> extends h h' -> ancestors_trusted p h'.
Proof.
  intros (below & above & He & Ha) Hx. exists below, above. split; [done|]. intros a Hin. destruct (Ha a Hin) as (m & Hm & ?).
  exists m. split; [|done]. by eapply extends_in.
Qed.

Lemma opened_in h (c : fs_call) (a : fs_answer c) f : opens (Ev c a) = Some f -> (Ev c a : ev) ∈ h -> f ∈ opened h.
Proof. intros Ho Hin. apply list_elem_of_omap. by exists (Ev c a). Qed.

Lemma file_vouched_kept h h' p kind max data i :
  file_vouched h p kind max data i -> confined subject_fd [] h h' -> sound h' -> file_vouched h' p kind max data i.
Proof.
  intros (f & m & h1 & m' & Hi & H1 & H2 & H3 & H4 & H5 & H6 & H7 & H8) Hc Hs. pose proof (confined_extends _ _ _ _ Hc) as Hx.
  exists f, m, h1, m'. split_and!; [done|by eapply extends_in|done|by eapply ancestors_trusted_extends|by eapply extends_in| | |by eapply extends_trans|
    tauto|tauto].
  - intros Hk. destruct (H5 Hk) as (errno & He & ?). exists errno. split; [|done]. by eapply extends_in.
  - unfold received in *. rewrite (confined_about _ _ _ f Hc Hs); [done|exact (opened_in h (OpenPath p FileNoFollow) (Ok f) f eq_refl H4)|].
    by apply not_elem_of_nil.
Qed.

(** *** One step at a time *)

Lemma check_ancestors_ok env above h h' :
  exec env h (check_ancestors paths above) = (h', Ok tt) ->
  exists below rest, above = below ++ components (ap_trusted_root paths) :: rest /\
    forall a, a ∈ below ++ [components (ap_trusted_root paths)] ->
      exists m, (Ev (Lstat a) (Ok m) : ev) ∈ h' /\ trusted_directory_metadata paths m = true.
Proof.
  revert h. induction above as [|current above IH]; intros h; cbn [check_ancestors]; [done|].
  intros (h1 & m & H1 & Hk)%exec_bind_ok. unfold lstat in H1. prim_ok H1.
  apply exec_bind_ok in Hk as (h2 & [] & [-> Hm%negb_false_iff]%exec_bail_if & Hk). case_bool_decide as Hr.
  - injection Hk as <-. exists [], above. split; [by rewrite Hr|]. intros a ->%list_elem_of_singleton. exists m.
    rewrite <-Hr. split; [left|done].
  - pose proof (exec_extends_to _ _ _ _ _ Hk) as Hx. apply IH in Hk as (below & rest & -> & Ha). exists (current :: below), rest.
    split; [done|]. intros a [->|Hin]%elem_of_cons; [|by apply Ha]. exists m. split; [|done].
    eapply extends_in; [exact Hx|left].
Qed.

Lemma validate_trusted_ancestors_ok env p h h' :
  exec env h (validate_trusted_ancestors paths p) = (h', Ok tt) -> ancestors_trusted p h'.
Proof.
  unfold validate_trusted_ancestors. intros (h1 & [] & [= <- _] & Hk)%exec_bind_ok.
  apply exec_bind_ok in Hk as (h2 & [] & [= <- _] & Hk). apply exec_bind_ok in Hk as (h3 & [] & [-> _]%exec_bail_if & Hk).
  destruct (ancestors p) as [|a above] eqn:E; [done|]. apply check_ancestors_ok in Hk as (below & rest & He & Ha).
  exists below, rest. by rewrite E.
Qed.

Lemma ensure_open_file_identity_ok env f expected h h' :
  exec env h (ensure_open_file_identity f expected) = (h', Ok tt) ->
  exists m, h' = Ev (Fstat f) (Ok m) :: h /\ identity_matches expected m = true.
Proof.
  unfold ensure_open_file_identity. intros (h1 & m & H1 & Hk)%exec_bind_ok. unfold stat_fd in H1. prim_ok H1.
  apply exec_bail_if in Hk as [-> Hm%negb_false_iff]. by exists m.
Qed.

Lemma ensure_path_identity_ok env p expected h h' :
  exec env h (ensure_path_identity paths p expected) = (h', Ok tt) ->
  exists h1 m, extends h h1 /\ h' = Ev (Lstat p) (Ok m) :: h1 /\ identity_matches expected m = true.
Proof.
  unfold ensure_path_identity. intros (h1 & [] & H1 & Hk)%exec_bind_ok. pose proof (exec_extends_to _ _ _ _ _ H1) as Hx.
  apply exec_bind_ok in Hk as (h2 & m & H2 & Hk). unfold lstat in H2. prim_ok H2.
  apply exec_bail_if in Hk as [-> Hm%negb_false_iff]. by exists h1, m.
Qed.

Lemma ensure_path_identities_ok env l h h' p i :
  exec env h (ensure_path_identities paths l) = (h', Ok tt) -> (p, i) ∈ l -> still_named h h' p i.
Proof.
  revert h. induction l as [|[q j] l IH]; intros h; cbn [ensure_path_identities]; [by intros _ ?%not_elem_of_nil|].
  intros (h1 & [] & H1 & Hk)%exec_bind_ok. intros [[= -> ->]|Hin]%elem_of_cons.
  - apply ensure_path_identity_ok in H1 as (h2 & m & Hx & -> & Hm). exists h2, m. split; [done|]. split; [|done].
    by eapply exec_extends_to.
  - apply (IH h1) in Hk as (h2 & m & Hx & ?); [|done]. exists h2, m. split; [|done].
    eapply extends_trans; [by eapply exec_extends_to|done].
Qed.

Lemma ensure_xattr_absent_ok env f name description h h' :
  exec env h (ensure_xattr_absent f name description) = (h', Ok tt) ->
  exists errno, h' = Ev (Getxattr f name) (Err errno) :: h /\ (errno = ENODATA \/ errno = ENOTSUP).
Proof.
  unfold ensure_xattr_absent. rewrite exec_bind. cbn. destruct (env h (Getxattr f name)) as [n|errno] eqn:E; [done|]. cbn.
  destruct (_ || _) eqn:Ee; [|done]. intros [= <-]. exists errno. split; [done|].
  apply orb_true_iff in Ee as [?%N.eqb_eq|?%N.eqb_eq]; auto.
Qed.

(** What opening a trusted file establishes. *)
Record opened_trusted (p : list Component) (kind : TrustedFileKind) (max : N) (h h' : list ev) (f : fd) (i : FileIdentity) : Prop := {
  ot_metadata : exists m, i = from_file_metadata m kind /\ (Ev (Lstat p) (Ok m) : ev) ∈ h'
                  /\ validate_file_metadata paths m kind max = Ok tt;
  ot_ancestors : ancestors_trusted p h';
  ot_open : (Ev (OpenPath p FileNoFollow) (Ok f) : ev) ∈ h';
  ot_capability : kind = ExecutableFile ->
    exists errno, (Ev (Getxattr f FILE_CAPABILITY) (Err errno) : ev) ∈ h' /\ (errno = ENODATA \/ errno = ENOTSUP);
  ot_empty : received f h' = []
}.

Lemma open_trusted_file_ok env p kind max h h' f i :
  exec env h (open_trusted_file paths p kind max) = (h', Ok (f, i)) -> opened_trusted p kind max h h' f i.
Proof.
  unfold open_trusted_file. intros (h1 & [] & H1%validate_trusted_ancestors_ok & Hk)%exec_bind_ok.
  apply exec_bind_ok in Hk as (h2 & m & H2 & Hk). unfold lstat in H2. prim_ok H2.
  apply exec_bind_ok in Hk as (h3 & [] & [= <- Hm] & Hk). apply exec_bind_ok in Hk as (h4 & g & H4 & Hk).
  unfold open_path in H4. prim_ok H4.
  apply exec_bind_ok in Hk as (h5 & [] & (m2 & -> & _)%ensure_open_file_identity_ok & Hk).
  apply exec_bind_ok in Hk as (h6 & [] & H6 & Hk). injection Hk as <- <- <-.
  match type of H6 with exec _ ?b _ = _ => set (base := b) in * end.
  assert (extends base h6 /\ (kind = ExecutableFile -> exists errno, (Ev (Getxattr g FILE_CAPABILITY) (Err errno) : ev) ∈ h6
    /\ (errno = ENODATA \/ errno = ENOTSUP)) /\ received g h6 = []) as (Hx & Hcap & Hr).
  { assert (received g base = []) as Hb.
    { unfold base. rewrite (proj2 (look_same g (Ev (Fstat g) (Ok m2)) _ eq_refl)).
      exact (proj2 (opened_empty g (Ev (OpenPath p FileNoFollow) (Ok g)) _ eq_refl)). }
    destruct (is_executable kind) eqn:Ek.
    - apply ensure_xattr_absent_ok in H6 as (errno & -> & He). split; [by apply extends_cons, extends_refl|].
      split; [intros _; exists errno; split; [left|done]|]. exact Hb.
    - injection H6 as <-. split; [apply extends_refl|]. split; [by destruct kind|done]. }
  split.
  - exists m. split; [done|]. split; [|done]. eapply extends_in; [exact Hx|]. unfold base. do 2 right. left.
  - eapply ancestors_trusted_extends; [exact H1|]. eapply extends_trans; [|exact Hx]. unfold base.
    by do 3 apply extends_cons; apply extends_refl.
  - eapply extends_in; [exact Hx|]. unfold base. right. left.
  - exact Hcap.
  - exact Hr.
Qed.

(** The end of every function that reads a trusted file. *)
Lemma vouch env p kind max h h1 h2 h3 h' f i data :
  opened_trusted p kind max h h1 f i -> extends h1 h2 -> adds nothing (only f data) h1 h2 ->
  exec env h2 (ensure_open_file_identity f i) = (h3, Ok tt) -> exec env h3 (ensure_path_identity paths p i) = (h', Ok tt) ->
  file_vouched h' p kind max data i.
Proof.
  intros [(m & Hi & Hm & Hv) Ha Ho Hc He] Hx1 [_ Hd] H3 H4. pose proof (exec_looks _ _ _ _ _ (ensure_path_identity_looks paths p i) H4) as [_ Hs].
  apply ensure_open_file_identity_ok in H3 as (m3 & -> & _). pose proof (exec_extends_to _ _ _ _ _ H4) as Hx2.
  assert (extends h1 h') as Hx by (eapply extends_trans; [exact Hx1|]; eapply extends_trans; [|exact Hx2]; apply extends_cons, extends_refl).
  assert (received f h' = data) as Hr.
  { rewrite (proj2 (Hs f)). rewrite (proj2 (look_same f (Ev (Fstat f) (Ok m3)) h2 eq_refl)), (proj2 (Hd f)), He.
    unfold only, nothing. rewrite bool_decide_eq_true_2 by done. by rewrite app_nil_r. }
  apply ensure_path_identity_ok in H4 as (h4 & m4 & Hx4 & -> & Hm4). exists f, m, h4, m4.
  split_and!; [done|exact (extends_in _ _ _ Hx Hm)|done|exact (ancestors_trusted_extends _ _ _ Ha Hx)|exact (extends_in _ _ _ Hx Ho)| |done|
    apply extends_refl| |done].
  - intros Hk. destruct (Hc Hk) as (errno & Hin & ?). exists errno. split; [exact (extends_in _ _ _ Hx Hin)|done].
  - by rewrite <-(proj2 (look_same f (Ev (Lstat p) (Ok m4)) h4 eq_refl)).
Qed.

Lemma read_trusted_file_ok env p kind max h h' r :
  exec env h (read_trusted_file paths p kind max) = (h', Ok r) -> file_vouched h' p kind max (tr_bytes r) (tr_identity r).
Proof.
  unfold read_trusted_file. intros (h1 & [f i] & H1%open_trusted_file_ok & Hk)%exec_bind_ok.
  apply exec_bind_ok in Hk as (h2 & data & H2 & Hk). pose proof (exec_extends_to _ _ _ _ _ H2) as Hx.
  apply read_to_limit_ok in H2 as (more & -> & Ha). apply exec_bind_ok in Hk as (h3 & [] & [-> _]%exec_bail_if & Hk).
  apply exec_bind_ok in Hk as (h4 & [] & H4 & Hk). apply exec_bind_ok in Hk as (h5 & [] & H5 & Hk). injection Hk as <- <-.
  by eapply vouch.
Qed.

Lemma hash_open_executable_ok env f deadline h h' digest :
  exec env h (hash_open_executable f deadline) = (h', Ok digest) ->
  exists data, digest = hash_text data /\ adds nothing (only f data) h h'.
Proof.
  unfold hash_open_executable. intros (h1 & data & (more & -> & Ha)%read_to_limit_ok & Hk)%exec_bind_ok.
  apply exec_bind_ok in Hk as (h3 & [] & [-> _]%exec_bail_if & Hk). injection Hk as <- <-. by exists more.
Qed.

Lemma hash_trusted_file_ok env p deadline h h' d :
  exec env h (hash_trusted_file paths p deadline) = (h', Ok d) ->
  exists data, td_digest d = hash_text data /\ file_vouched h' p ExecutableFile EXECUTABLE_MAX_BYTES data (td_identity d).
Proof.
  unfold hash_trusted_file. intros (h1 & [f i] & H1%open_trusted_file_ok & Hk)%exec_bind_ok.
  apply exec_bind_ok in Hk as (h2 & digest & H2 & Hk). pose proof (exec_extends_to _ _ _ _ _ H2) as Hx.
  apply hash_open_executable_ok in H2 as (data & -> & Ha).
  apply exec_bind_ok in Hk as (h4 & [] & H4 & Hk). apply exec_bind_ok in Hk as (h5 & [] & H5 & Hk). injection Hk as <- <-.
  exists data. split; [done|]. by eapply vouch.
Qed.

Lemma hash_runtime_image_ok env p expected_size expected_digest deadline h h' d :
  exec env h (hash_runtime_image paths p expected_size expected_digest deadline) = (h', Ok d) ->
  exists data, td_digest d = hash_text data /\ hash_text data = expected_digest /\ len data = expected_size
    /\ take 4 data = SQUASHFS_MAGIC /\ file_vouched h' p ReadOnlyFile RUNTIME_IMAGE_MAX_BYTES data (td_identity d).
Proof.
  unfold hash_runtime_image. intros (h1 & [f i] & H1%open_trusted_file_ok & Hk)%exec_bind_ok.
  apply exec_bind_ok in Hk as (h2 & [] & [-> _]%exec_bail_if & Hk). apply exec_bind_ok in Hk as (h3 & magic & H3 & Hk).
  pose proof (exec_extends_to _ _ _ _ _ H3) as Hx3. apply read_exactly_ok in H3 as (more & -> & Ha3).
  apply exec_bind_ok in Hk as (h4 & [] & [-> Hm%negb_false_iff%str_eqb_eq]%exec_bail_if & Hk). cbn [app] in Hm. subst more.
  apply exec_bind_ok in Hk as (h5 & data & H5 & Hk). pose proof (exec_extends_to _ _ _ _ _ H5) as Hx5.
  apply read_to_limit_ok in H5 as (rest & -> & Ha5).
  apply exec_bind_ok in Hk as (h6 & [] & [-> Hl%negb_false_iff%N.eqb_eq]%exec_bail_if & Hk).
  apply exec_bind_ok in Hk as (h7 & [] & [-> Hd%negb_false_iff%str_eqb_eq]%exec_bail_if & Hk).
  apply exec_bind_ok in Hk as (h8 & [] & H8 & Hk). apply exec_bind_ok in Hk as (h9 & [] & H9 & Hk). injection Hk as <- <-.
  exists (SQUASHFS_MAGIC ++ rest). split_and!; [done..|].
  eapply vouch; [exact H1|exact (extends_trans _ _ _ Hx3 Hx5)| |exact H8|exact H9]. eapply adds_ext; [eapply adds_trans; [exact Ha3|exact Ha5]|].
  intros g. split; [done|]. unfold only. by case_bool_decide.
Qed.

(** ** The artifacts of a binding *)

Record Artifacts : Type := mkArtifacts {
  boot_data : bytes;
  manifest_data : bytes;
  manifest : ActiveRuntimeManifest;
  image_path : list Component;
  image_data : bytes;
  bot_data : bytes;
  launcher_data : bytes;
  runtime_data : bytes;
  probe_data : bytes;
  source_data : bytes
}.

(** Where each was read, as what, up to which size. *)
Definition artifact_files (a : Artifacts) : list (list Component * TrustedFileKind * N * bytes) :=
  [(components (ap_boot_id paths), BootId, BOOT_ID_MAX_BYTES, boot_data a);
   (components (ap_active_manifest paths), ReadOnlyFile, ACTIVE_MANIFEST_MAX_BYTES, manifest_data a);
   (image_path a, ReadOnlyFile, RUNTIME_IMAGE_MAX_BYTES, image_data a);
   (components (ap_bot_executable paths), ExecutableFile, EXECUTABLE_MAX_BYTES, bot_data a);
   (components (ap_launcher_executable paths), ExecutableFile, EXECUTABLE_MAX_BYTES, launcher_data a);
   (components (ap_runtime_executable paths), ExecutableFile, EXECUTABLE_MAX_BYTES, runtime_data a);
   (components (ap_canary_probe_executable paths), ExecutableFile, EXECUTABLE_MAX_BYTES, probe_data a);
   (components (ap_runtime_source_manifest paths), ReadOnlyFile, RUNTIME_SOURCE_MANIFEST_MAX_BYTES, source_data a)].

Definition vouched_as (h : list ev) (file : list Component * TrustedFileKind * N * bytes) (named : list Component * FileIdentity) : Prop :=
  let '(p, kind, max, data) := file in fst named = p /\ file_vouched h p kind max data (snd named).

(** The artifacts belong together: a valid manifest, the image it names, with the sources it
    was built from. *)
Record consistent (a : Artifacts) : Prop := {
  manifest_decoded : json_from_slice (manifest_data a) ≫= decode_manifest = Some (manifest a);
  manifest_valid : validate_activation_manifest (manifest a) = Ok tt;
  image_located : runtime_image_path paths (manifest a) = Ok (image_path a);
  image_digest : hash_text (image_data a) = image_sha256 (manifest a);
  image_exact : len (image_data a) = image_size (manifest a);
  image_magic : take 4 (image_data a) = SQUASHFS_MAGIC;
  sources_bound : exists runtime probe, td_digest runtime = hash_text (runtime_data a) /\ td_digest probe = hash_text (probe_data a)
    /\ validate_runtime_source_binding paths (manifest a) (source_data a) runtime probe = Ok tt
}.

(** What a binding says of the artifacts. *)
Definition binds (b : ActivationBinding) (a : Artifacts) : Prop :=
  parse_boot_id (boot_data a) = Ok (ab_boot_id b) /\ ab_active_manifest_sha256 b = hash_text (manifest_data a)
  /\ ab_runtime_image_sha256 b = hash_text (image_data a) /\ ab_bot_executable_sha256 b = hash_text (bot_data a)
  /\ ab_launcher_executable_sha256 b = hash_text (launcher_data a) /\ ab_runtime_executable_sha256 b = hash_text (runtime_data a).

Lemma confined_trans_nil h1 h2 h3 : confined subject_fd [] h1 h2 -> confined subject_fd [] h2 h3 -> confined subject_fd [] h1 h3.
Proof. intros H1 H2. eapply confined_trans; [exact H1|exact H2|]. by intros f ?%not_elem_of_nil. Qed.

Lemma load_activation_binding_ok env deadline h h' b :
  exec env h (load_activation_binding_with_deadline paths deadline) = (h', Ok b) -> sound h' ->
  exists a, binds b a /\ consistent a /\ Forall2 (vouched_as h') (artifact_files a) (ab_identities b).
Proof.
  unfold load_activation_binding_with_deadline. intros (h0 & [] & _ & Hk)%exec_bind_ok Hs.
  apply exec_bind_ok in Hk as (h1 & boot & H1 & Hk). apply read_trusted_file_ok in H1 as V1.
  apply exec_bind_ok in Hk as (? & boot_id & [= <- Hboot] & Hk).
  apply exec_bind_ok in Hk as (h2 & man & H2 & Hk). apply read_trusted_file_ok in H2 as V2.
  apply exec_bind_ok in Hk as (? & m & [= <- Hm] & Hk). apply exec_bind_ok in Hk as (? & [] & [= <- Hv] & Hk).
  apply exec_bind_ok in Hk as (? & p & [= <- Hp] & Hk).
  apply exec_bind_ok in Hk as (h3 & img & H3 & Hk). destruct (hash_runtime_image_ok _ _ _ _ _ _ _ _ H3) as (idata & Hi1 & Hi2 & Hi3 & Hi4 & V3).
  apply exec_bind_ok in Hk as (h4 & bot & H4 & Hk). destruct (hash_trusted_file_ok _ _ _ _ _ _ H4) as (bdata & Hb & V4).
  apply exec_bind_ok in Hk as (h5 & lau & H5 & Hk). destruct (hash_trusted_file_ok _ _ _ _ _ _ H5) as (ldata & Hl & V5).
  apply exec_bind_ok in Hk as (h6 & run & H6 & Hk). destruct (hash_trusted_file_ok _ _ _ _ _ _ H6) as (rdata & Hr & V6).
  apply exec_bind_ok in Hk as (h7 & cp & H7 & Hk). destruct (hash_trusted_file_ok _ _ _ _ _ _ H7) as (cdata & Hc & V7).
  apply exec_bind_ok in Hk as (h8 & src & H8 & Hk). apply read_trusted_file_ok in H8 as V8.
  apply exec_bind_ok in Hk as (? & [] & [= <- Hsrc] & Hk). apply exec_bind_ok in Hk as (h9 & [] & H9 & Hk). injection Hk as <- <-.
  apply (exec_stays subject_fd [] _ env _ _ _ (read_trusted_file_stays _ _ _)) in H2.
  apply (exec_stays subject_fd [] _ env _ _ _ (hash_runtime_image_stays _ _ _ _)) in H3.
  apply (exec_stays subject_fd [] _ env _ _ _ (hash_trusted_file_stays _ _)) in H4.
  apply (exec_stays subject_fd [] _ env _ _ _ (hash_trusted_file_stays _ _)) in H5.
  apply (exec_stays subject_fd [] _ env _ _ _ (hash_trusted_file_stays _ _)) in H6.
  apply (exec_stays subject_fd [] _ env _ _ _ (hash_trusted_file_stays _ _)) in H7.
  apply (exec_stays subject_fd [] _ env _ _ _ (read_trusted_file_stays _ _ _)) in H8.
  apply (exec_stays subject_fd [] _ env _ _ _ (looks_stays _ _ (check_deadline_looks _ _))) in H9.
  pose proof (confined_trans_nil _ _ _ H8 H9) as D7. pose proof (confined_trans_nil _ _ _ H7 D7) as D6.
  pose proof (confined_trans_nil _ _ _ H6 D6) as D5. pose proof (confined_trans_nil _ _ _ H5 D5) as D4.
  pose proof (confined_trans_nil _ _ _ H4 D4) as D3. pose proof (confined_trans_nil _ _ _ H3 D3) as D2.
  pose proof (confined_trans_nil _ _ _ H2 D2) as D1.
  exists (mkArtifacts (tr_bytes boot) (tr_bytes man) m p idata bdata ldata rdata cdata (tr_bytes src)). split; [|split].
  - unfold binds. cbn. by rewrite Hi1, Hb, Hl, Hr.
  - split; cbn; try done; [by destruct (_ ≫= _); [injection Hm as ->|]|]. exists run, cp. by destruct (validate_runtime_source_binding _ _ _ _ _) as [[]|].
  - repeat constructor; cbn; eauto using file_vouched_kept.
Qed.

(** The running process was started from the artifact at its expected path. *)
Definition running_executable (r : ActivationReceipt) (ids : list (list Component * FileIdentity)) (h : list ev) : Prop :=
  match ap_current_process paths with
  | None => True
  | Some (proc_path, role) =>
      exists f m i, (Ev (OpenPath (components proc_path) FileFollow) (Ok f) : ev) ∈ h /\ (Ev (Fstat f) (Ok m) : ev) ∈ h
        /\ validate_file_metadata paths m ExecutableFile EXECUTABLE_MAX_BYTES = Ok tt
        /\ (fst (expected_executable paths role r), i) ∈ ids /\ identity_matches i m = true
        /\ hash_text (received f h) = snd (expected_executable paths role r)
        /\ exists target again, components target = fst (expected_executable paths role r) /\ components again = components target
             /\ (exists h1, extends (Ev (ReadLink (components proc_path)) (Ok again) :: h1) h
                   /\ (Ev (ReadLink (components proc_path)) (Ok target) : ev) ∈ h1 /\ f ∈ opened h1)
  end.

Lemma bound_identity_in ids p i : bound_identity ids p = Some i -> (p, i) ∈ ids.
Proof.
  unfold bound_identity. destruct (find _ ids) as [[q j]|] eqn:E; [|done]. intros [= <-]. apply find_some in E as [Hin Hq].
  apply bool_decide_eq_true in Hq. cbn in Hq. subst q. by apply list_elem_of_In.
Qed.

Lemma verify_current_process_ok env r b deadline h h' :
  exec env h (verify_current_process_executable paths r b deadline) = (h', Ok tt) -> running_executable r (ab_identities b) h'.
Proof.
  unfold verify_current_process_executable, running_executable. destruct (ap_current_process paths) as [[proc_path role]|]; [|done].
  destruct (expected_executable paths role r) as [p expected]. cbn [fst snd].
  intros (? & i & [= <- Hi] & Hk)%exec_bind_ok. apply exec_bind_ok in Hk as (h1 & target & H1 & Hk). unfold read_link in H1. prim_ok H1.
  apply exec_bind_ok in Hk as (? & [] & [-> Ht%negb_false_iff%bool_decide_eq_true]%exec_bail_if & Hk).
  apply exec_bind_ok in Hk as (h2 & f & H2 & Hk). unfold open_path in H2. prim_ok H2.
  apply exec_bind_ok in Hk as (h3 & m & H3 & Hk). unfold stat_fd in H3. prim_ok H3.
  apply exec_bind_ok in Hk as (? & [] & [= <- Hm] & Hk). apply exec_bind_ok in Hk as (? & [] & [-> Hmi%negb_false_iff]%exec_bail_if & Hk).
  apply exec_bind_ok in Hk as (h4 & [] & (errno & -> & He)%ensure_xattr_absent_ok & Hk).
  match type of Hk with exec _ ?b _ = _ => set (base := b) in * end.
  apply exec_bind_ok in Hk as (h5 & digest & H5 & Hk). pose proof (exec_extends_to _ _ _ _ _ H5) as X5.
  apply hash_open_executable_ok in H5 as (data & -> & [_ Hd]).
  apply exec_bind_ok in Hk as (? & [] & [-> Hdig%negb_false_iff%str_eqb_eq]%exec_bail_if & Hk).
  apply exec_bind_ok in Hk as (h6 & [] & (m2 & -> & _)%ensure_open_file_identity_ok & Hk).
  apply exec_bind_ok in Hk as (h7 & again & H7 & Hk). unfold read_link in H7. prim_ok H7.
  apply exec_bind_ok in Hk as (? & [] & [-> Ha%negb_false_iff%bool_decide_eq_true]%exec_bail_if & Hk).
  pose proof (exec_looks _ _ _ _ _ (ensure_path_identity_looks paths p i) Hk) as [_ Hs]. apply exec_extends_to in Hk as X8.
  match type of X8 with extends (?e :: ?e2 :: h5) _ => assert (extends base (e2 :: h5)) as X by by apply extends_cons end.
  assert (extends base h') as Xb by (eapply extends_trans; [exact X|]; eapply extends_trans; [|exact X8]; apply extends_cons, extends_refl).
  exists f, m, i. split_and!.
  - eapply extends_in; [exact Xb|]. unfold base. do 2 right. left.
  - eapply extends_in; [exact Xb|]. unfold base. right. left.
  - by destruct (validate_file_metadata _ _ _ _) as [[]|].
  - apply bound_identity_in. by destruct (bound_identity _ _); [injection Hi as ->|].
  - done.
  - rewrite (proj2 (Hs f)). rewrite (proj2 (look_same f (Ev (ReadLink (components proc_path)) (Ok again)) _ eq_refl)).
    rewrite (proj2 (look_same f (Ev (Fstat f) (Ok m2)) _ eq_refl)), (proj2 (Hd f)).
    assert (received f base = []) as ->.
    { unfold base. rewrite (proj2 (look_same f (Ev (Getxattr f FILE_CAPABILITY) (Err errno)) _ eq_refl)).
      rewrite (proj2 (look_same f (Ev (Fstat f) (Ok m)) _ eq_refl)).
      exact (proj2 (opened_empty f (Ev (OpenPath (components proc_path) FileFollow) (Ok f)) _ eq_refl)). }
    unfold only, nothing. rewrite bool_decide_eq_true_2, app_nil_r by done. exact Hdig.
  - exists target, again. split; [done|]. split; [congruence|]. exists (Ev (Fstat f) (Ok m2) :: h5). split; [exact X8|].
    split; [eapply extends_in; [exact X|]; unfold base; do 3 right; left|].
    eapply opened_extends; [exact X|]. apply (opened_in base (OpenPath (components proc_path) FileFollow) (Ok f)); [done|].
    unfold base. do 2 right. left.
Qed.

(** What a verification that succeeds established: at some moment the receipt and all
    artifacts had been read from trusted files and belonged together; afterwards every path
    still named the file that had been read; the running process is the artifact. *)
Record vouches_for (h : list ev) (v : VerifiedActivation) : Prop := {
  vf_receipt : exists moment receipt_data receipt_identity r b a,
    extends moment h
    /\ file_vouched moment (components (ap_receipt paths)) ReadOnlyFile RECEIPT_MAX_BYTES receipt_data receipt_identity
    /\ Forall2 (vouched_as moment) (artifact_files a) (ab_identities b)
    /\ consistent a /\ binds b a
    /\ json_from_slice receipt_data ≫= decode_receipt = Some r /\ accepts b r /\ v = activation_of r
    /\ running_executable r (ab_identities b) h
    /\ still_named moment h (components (ap_receipt paths)) receipt_identity
    /\ forall p i, (p, i) ∈ ab_identities b -> still_named moment h p i
}.

Lemma still_named_later h0 h h' p i : still_named h0 h p i -> extends h h' -> still_named h0 h' p i.
Proof. intros (h1 & m & X1 & X2 & Hm) X. exists h1, m. split; [done|]. split; [by eapply extends_trans|done]. Qed.

Lemma still_named_from h0 h0' h p i : still_named h0' h p i -> extends h0 h0' -> still_named h0 h p i.
Proof. intros (h1 & m & X1 & X2 & Hm) X. exists h1, m. split; [by eapply extends_trans|done]. Qed.

Lemma load_activation_binding_stays deadline : stays subject_fd [] (load_activation_binding_with_deadline paths deadline).
Proof.
  unfold load_activation_binding_with_deadline.
  repeat first
    [ apply stays_bind_ok; [first [apply stays_ret | apply read_trusted_file_stays | apply hash_trusted_file_stays
                                  | apply hash_runtime_image_stays | apply looks_stays, check_deadline_looks]|]; intros ?
    | apply stays_ret ].
Qed.

Lemma verify_activation_stays deadline : stays subject_fd [] (verify_activation_with_deadline paths deadline).
Proof.
  unfold verify_activation_with_deadline.
  repeat first
    [ apply stays_bind_ok; [first [apply stays_ret | apply read_trusted_file_stays | apply load_activation_binding_stays
                                  | apply verify_current_process_stays | apply looks_stays, ensure_path_identity_looks
                                  | apply looks_stays, ensure_path_identities_looks]|]; intros ?
    | apply stays_ret ].
Qed.

(** What a successful verification establishes, on any trace whose descriptors are fresh. *)
Lemma verify_activation_ok env deadline h h' v :
  exec env h (verify_activation_with_deadline paths deadline) = (h', Ok v) -> sound h' -> vouches_for h' v.
Proof.
  unfold verify_activation_with_deadline. intros (h1 & rf & H1 & Hk)%exec_bind_ok Hs.
  apply read_trusted_file_ok in H1 as V1. apply exec_bind_ok in Hk as (? & r & [= <- Hr%ok_or_ok] & Hk).
  apply exec_bind_ok in Hk as (h2 & b & H2 & Hk). pose proof (exec_extends_to _ _ _ _ _ Hk) as X2.
  pose proof (sound_extends _ _ X2 Hs) as Hs2. destruct (load_activation_binding_ok _ _ _ _ _ H2 Hs2) as (a & Hb & Hc & Hf).
  apply (exec_stays subject_fd [] _ env _ _ _ (load_activation_binding_stays deadline)) in H2.
  apply (file_vouched_kept _ _ _ _ _ _ _ V1) in H2; [|done].
  apply exec_bind_ok in Hk as (? & w & [= <- (Ha & _ & ->)%receipt_ok] & Hk).
  apply exec_bind_ok in Hk as (h3 & [] & H3 & Hk). pose proof (exec_extends_to _ _ _ _ _ H3) as X3.
  apply exec_bind_ok in Hk as (h4 & [] & H4 & Hk). pose proof (exec_extends_to _ _ _ _ _ H4) as X4.
  apply exec_bind_ok in Hk as (h5 & [] & H5 & Hk). injection Hk as <- <-. pose proof (exec_extends_to _ _ _ _ _ H5) as X5.
  split. exists h2, (tr_bytes rf), (tr_identity rf), r, b, a. split_and!; try done.
  - apply verify_current_process_ok in H3. unfold running_executable in *. destruct (ap_current_process paths) as [[proc_path role]|]; [|done].
    destruct H3 as (f & m & i & G1 & G2 & G3 & G4 & G5 & G6 & target & again & G7 & G8 & h1' & G9 & G10).
    assert (extends h3 h5) as X by (eapply extends_trans; [exact X4|exact X5]).
    exists f, m, i. split_and!; [exact (extends_in _ _ _ X G1)|exact (extends_in _ _ _ X G2)|done..| |].
    + pose proof (exec_looks _ _ _ _ _ (ensure_path_identity_looks paths _ _) H4) as [_ L4].
      pose proof (exec_looks _ _ _ _ _ (ensure_path_identities_looks paths _) H5) as [_ L5].
      rewrite (proj2 (L5 f)), (proj2 (L4 f)). unfold nothing. by rewrite !app_nil_r.
    + exists target, again. split; [done|]. split; [done|]. exists h1'. split; [by eapply extends_trans|done].
  - apply ensure_path_identity_ok in H4 as (h4' & m & X & -> & Hm). exists h4', m. split; [by eapply extends_trans|]. done.
  - intros p i Hin. eapply still_named_from; [by eapply ensure_path_identities_ok|]. by eapply extends_trans.
Qed.
End reading.

(** C27: A verified activation vouches for what is installed. When verification succeeds, at
    some moment the receipt and every artifact it names had been read completely from files
    that only root could have written (single regular files below directories nobody else can
    write to, executables without file capabilities); the receipt is for this boot, its
    digests are those of the bytes that were read, all twelve canaries and no others are
    recorded as passed; the image is the one the manifest names, built from the source
    manifest that was read; afterwards every path still named the file that had been read;
    the running process is the artifact at its expected path; and the verification changed
    nothing. *)
Theorem verified_activation_sound (paths : ActivationPaths) `{Sha256} `{JsonText} env deadline h v :
  exec env [] (verify_activation_with_deadline paths deadline) = (h, Ok v) -> sound h ->
  vouches_for paths h v /\ forall e, e ∈ h -> inspects (ev_call e) = true.
Proof.
  intros He Hs. split; [exact (verify_activation_ok paths env deadline [] h v He Hs)|].
  destruct (exec_calls_only _ _ _ _ _ _ (verify_activation_inspects paths deadline) He) as (t & -> & Ht).
  rewrite app_nil_r. exact Ht.
Qed.

(** ** Ends *)

Section ends.
Context (paths : ActivationPaths) `{Sha256} `{JsonText} `{JsonPretty}.

(** A check in the middle of a program never reports exhaustion. *)
Definition plain_result {A} (r : result FsError A) : Prop := r <> Err Exhausted.

Lemma plain_fail_if b message : plain_result (fail_if b (Bail message)).
Proof. by destruct b. Qed.

Lemma plain_then {A B} (r : result FsError A) (k : A -> result FsError B) : plain_result r -> (forall a, plain_result (k a)) -> plain_result (rbind r k).
Proof. destruct r as [a|e]; cbn; [auto|]. intros He _ Hx. apply He. congruence. Qed.

Lemma plain_ok_or {A} (o : option A) message : plain_result (ok_or o (Bail message)).
Proof. by destruct o. Qed.

Lemma plain_try_each {A} (f : A -> result FsError unit) l : (forall a, plain_result (f a)) -> plain_result (try_each f l).
Proof. intros Hf. induction l as [|a l IH]; [done|]. by apply plain_then. Qed.

Lemma plain_ok {A} (a : A) : plain_result (Ok a).
Proof. done. Qed.

Lemma plain_source_files found entries : plain_result (source_files found entries).
Proof. revert found. induction entries as [|e l IH]; intros found; [done|]. apply plain_then; [apply plain_fail_if|]. auto. Qed.

Lemma plain_source_symlinks found entries : plain_result (source_symlinks found entries).
Proof. revert found. induction entries as [|e l IH]; intros found; [done|]. apply plain_then; [apply plain_fail_if|]. auto. Qed.

Lemma plain_expected_file files expected : plain_result (expected_source_file files expected).
Proof. destruct expected as [[destination source] mode]. apply plain_then; [apply plain_ok_or|]. intros. apply plain_fail_if. Qed.

(** A sequence of checks, one after the other. *)
Ltac plain :=
  repeat first
    [ apply plain_fail_if | apply plain_ok_or | apply plain_ok | apply plain_source_files | apply plain_source_symlinks
    | apply plain_try_each; intros | apply plain_expected_file | apply plain_then; [|intros] ].

Lemma plain_source_binding m data runtime probe : plain_result (validate_runtime_source_binding paths m data runtime probe).
Proof. unfold validate_runtime_source_binding. plain. case_match. apply plain_fail_if. Qed.

Lemma plain_receipt r b : plain_result (validate_receipt r b).
Proof. unfold validate_receipt, validate_canaries. plain. Qed.

Lemma finishes_plain {A} (r : result FsError A) : plain_result r -> finishes (Ret r).
Proof. apply finishes_ret. Qed.

Lemma check_ancestors_finishes above : finishes (check_ancestors paths above).
Proof. induction above as [|current above IH]; cbn [check_ancestors]; unfold lstat; finishes. Qed.

Lemma validate_trusted_ancestors_finishes p : finishes (validate_trusted_ancestors paths p).
Proof.
  unfold validate_trusted_ancestors. do 2 (apply finishes_bind_ok; [apply finishes_plain, plain_fail_if|]; intros _).
  apply finishes_bind_ok; [apply finishes_bail_if|]. intros _. destruct (ancestors p); [apply finishes_bail|apply check_ancestors_finishes].
Qed.

Lemma ensure_xattr_absent_finishes f name description : finishes (ensure_xattr_absent f name description).
Proof. unfold ensure_xattr_absent. apply finishes_bind. intros [n|errno]; [|destruct (_ || _)]; by apply finishes_ret. Qed.

Lemma ensure_open_file_identity_finishes f expected : finishes (ensure_open_file_identity f expected).
Proof. unfold ensure_open_file_identity, stat_fd. finishes. Qed.

Lemma ensure_path_identity_finishes p expected : finishes (ensure_path_identity paths p expected).
Proof.
  unfold ensure_path_identity, lstat. apply finishes_bind_ok; [apply validate_trusted_ancestors_finishes|]. intros _. finishes.
Qed.

Lemma ensure_path_identities_finishes l : finishes (ensure_path_identities paths l).
Proof.
  induction l as [|[p i] l IH]; cbn [ensure_path_identities]; [apply finishes_ok|].
  apply finishes_bind_ok; [apply ensure_path_identity_finishes|done].
Qed.

#[local] Hint Resolve validate_trusted_ancestors_finishes ensure_xattr_absent_finishes ensure_open_file_identity_finishes
  ensure_path_identity_finishes ensure_path_identities_finishes : finishes.

(** A step of a program: a call, a check, or a part that is known to finish. *)
Ltac finish_steps :=
  repeat first
    [ progress intros
    | solve [eauto with finishes nocore]
    | solve [apply finishes_plain; plain]
    | apply finishes_bind_ok
    | apply finishes_bind
    | case_match ].

Lemma open_trusted_file_finishes p kind max : finishes (open_trusted_file paths p kind max).
Proof. unfold open_trusted_file, lstat, open_path, validate_file_metadata. finish_steps. Qed.

#[local] Hint Resolve open_trusted_file_finishes : finishes.

Lemma read_trusted_file_finishes p kind max : finishes (read_trusted_file paths p kind max).
Proof. unfold read_trusted_file, read_bounded. finish_steps. Qed.

Lemma hash_open_executable_finishes f deadline : finishes (hash_open_executable f deadline).
Proof. unfold hash_open_executable. finish_steps. Qed.

#[local] Hint Resolve read_trusted_file_finishes hash_open_executable_finishes : finishes.

Lemma hash_trusted_file_finishes p deadline : finishes (hash_trusted_file paths p deadline).
Proof. unfold hash_trusted_file. finish_steps. Qed.

Lemma hash_runtime_image_finishes p expected_size expected_digest deadline :
  finishes (hash_runtime_image paths p expected_size expected_digest deadline).
Proof.
  unfold hash_runtime_image. apply finishes_bind_ok; [auto with finishes|]. intros [f i].
  apply finishes_bind_ok; [auto with finishes|]. intros _. apply finishes_bind_ok; [by apply read_exactly_finishes|]. finish_steps.
Qed.

#[local] Hint Resolve hash_trusted_file_finishes hash_runtime_image_finishes : finishes.

Lemma plain_manifest m : plain_result (validate_activation_manifest m).
Proof. unfold validate_activation_manifest. plain. Qed.

Lemma plain_boot_id data : plain_result (parse_boot_id data).
Proof. unfold parse_boot_id. plain. Qed.

Lemma plain_image_path m : plain_result (runtime_image_path paths m).
Proof. unfold runtime_image_path. plain. Qed.

Lemma load_activation_binding_finishes deadline : finishes (load_activation_binding_with_deadline paths deadline).
Proof.
  unfold load_activation_binding_with_deadline.
  repeat first
    [ apply finishes_bind_ok;
        [first [solve [auto with finishes nocore] | apply finishes_plain;
           first [apply plain_manifest | apply plain_boot_id | apply plain_image_path | apply plain_source_binding | plain]]|]; intros ?
    | apply finishes_ok ].
Qed.

Lemma verify_current_process_finishes r b deadline : finishes (verify_current_process_executable paths r b deadline).
Proof.
  unfold verify_current_process_executable, read_link, open_path, stat_fd, validate_file_metadata.
  destruct (ap_current_process paths) as [[proc_path role]|]; [|apply finishes_ok].
  destruct (expected_executable paths role r) as [p expected]. finish_steps.
Qed.

#[local] Hint Resolve load_activation_binding_finishes verify_current_process_finishes : finishes.

Lemma verify_activation_finishes deadline : finishes (verify_activation_with_deadline paths deadline).
Proof.
  unfold verify_activation_with_deadline.
  repeat first
    [ apply finishes_bind_ok;
        [first [solve [auto with finishes nocore] | apply finishes_plain; first [apply plain_receipt | plain]]|]; intros ?
    | apply finishes_ok ].
Qed.

Lemma verify_candidate_finishes : finishes (verify_activation_candidate_with paths).
Proof. unfold verify_activation_candidate_with, load_activation_binding. finish_steps. Qed.

Lemma lstat_existing_finishes p : finishes (lstat_existing p).
Proof. unfold lstat_existing. apply finishes_bind. intros [m|errno]; [|destruct (_ =? _)]; by apply finishes_ret. Qed.

Lemma sync_directory_finishes p : finishes (sync_directory paths p).
Proof. unfold sync_directory, lstat, open_path, stat_fd, sync_checked. finish_steps. Qed.

#[local] Hint Resolve lstat_existing_finishes sync_directory_finishes : finishes.

Lemma invalidate_finishes : finishes (invalidate_activation_receipt_with paths).
Proof. unfold invalidate_activation_receipt_with, remove_file, validate_file_metadata, receipt_parent. finish_steps. Qed.

Lemma set_file_owner_finishes f : finishes (set_file_owner_if_needed paths f).
Proof. unfold set_file_owner_if_needed, stat_fd. finish_steps. Qed.

#[local] Hint Resolve set_file_owner_finishes : finishes.

Lemma set_file_owner_plain f h : wp anything (set_file_owner_if_needed paths f) (fun _ r => r <> Err Exhausted) h.
Proof. apply set_file_owner_finishes. Qed.

Lemma create_temporary_finishes attempts directory base_name : finishes (create_temporary_attempts paths attempts directory base_name).
Proof.
  induction attempts as [|attempts IH]; cbn [create_temporary_attempts]; [apply finishes_bail|].
  do 3 (apply finishes_bind; intros ?). destruct a1 as [f|errno]; [|destruct (_ =? _); [apply IH|by apply finishes_ret]].
  intros h. rewrite wp_bind. eapply wp_consequence; [apply set_file_owner_plain|]. intros h1 [[]|e] He; [done|].
  rewrite wp_bind. eapply wp_consequence; [apply wp_any|]. intros h2 r _. cbn. congruence.
Qed.

Lemma install_receipt_finishes directory temporary_path f data : finishes (install_receipt paths directory temporary_path f data).
Proof. unfold install_receipt, sync_checked, stat_fd, lstat, validate_file_metadata. finish_steps. Qed.

Lemma write_activation_receipt_finishes r : finishes (write_activation_receipt_with paths r).
Proof.
  unfold write_activation_receipt_with, load_activation_binding, receipt_parent, create_temporary_file, validate_file_metadata.
  repeat first
    [ apply finishes_bind_ok;
        [first [solve [auto with finishes nocore] | apply create_temporary_finishes
               | apply finishes_plain; first [apply plain_receipt | case_match; plain | plain]]|]; intros ?
    | case_match ].
  intros h. rewrite wp_bind. eapply wp_consequence; [apply install_receipt_finishes|]. intros h1 r1 Hr.
  rewrite wp_bind. eapply wp_consequence; [apply wp_any|]. by intros h2 r2 _.
Qed.

Lemma plain_same_binding x y : plain_result (ensure_same_activation_binding x y).
Proof. unfold ensure_same_activation_binding. plain. Qed.

Lemma build_activation_receipt_finishes canaries : finishes (build_activation_receipt_with paths canaries).
Proof.
  unfold build_activation_receipt_with, load_activation_binding, validate_canaries.
  repeat first
    [ apply finishes_bind_ok;
        [first [solve [auto with finishes nocore] | apply finishes_plain; first [apply plain_receipt | plain]]|]; intros ?
    | apply finishes_ok ].
Qed.

Lemma mint_receipt_finishes expected canaries : finishes (mint_receipt paths expected canaries).
Proof.
  unfold mint_receipt, verify_activation_with.
  repeat first
    [ apply finishes_bind_ok;
        [first [apply verify_candidate_finishes | apply build_activation_receipt_finishes | apply write_activation_receipt_finishes
               | apply verify_activation_finishes | apply finishes_plain, plain_same_binding]|]; intros ?
    | apply finishes_ok ].
Qed.

Lemma commit_finishes expected canaries : finishes (commit_activation_receipt_with paths expected canaries).
Proof.
  intros h. unfold commit_activation_receipt_with. rewrite wp_bind. eapply wp_consequence; [apply mint_receipt_finishes|].
  intros h1 [v|e] He; [done|]. rewrite wp_bind. eapply wp_consequence; [apply invalidate_finishes|].
  intros h2 [[]|e2] _; cbn; congruence.
Qed.
End ends.

(** ** The receipt file *)

(** Whether a trace ends with a path known to name nothing: it was removed, or found absent,
    and nothing was put there since. *)
Fixpoint known_absent (p : list Component) (h : list ev) : bool :=
  match h with
  | [] => false
  | Ev c a :: h =>
      match c return fs_answer c -> bool with
      | RemoveFile q => fun r => (bool_decide (q = p) && is_ok r) || known_absent p h
      | Lstat q => fun r =>
          if bool_decide (q = p) then match r with Ok _ => false | Err errno => (errno =? ENOENT) || known_absent p h end
          else known_absent p h
      | RenamePath _ q | CreatePath q _ => fun r => negb (bool_decide (q = p) && is_ok r) && known_absent p h
      | _ => fun _ => known_absent p h
      end a
  end.

Section receipt.
Context (paths : ActivationPaths) {sha : Sha256} {text : JsonText} {pretty : JsonPretty}.

#[local] Abbreviation receipt := (components (ap_receipt paths)).

(** The receipt is gone, and its directory was made to remember that. *)
Definition receipt_taken_away (h : list ev) : Prop :=
  exists directory f m0 m h1, parent receipt = Some directory /\ known_absent receipt h1 = true
    /\ h = Ev (Fsync f) (Ok tt) :: Ev (Fstat f) (Ok m) :: Ev (OpenPath directory DirectoryNoFollow) (Ok f)
           :: Ev (Lstat directory) (Ok m0) :: h1
    /\ directory_unchanged paths m0 m = true.

Lemma sync_directory_ok env p h h' :
  exec env h (sync_directory paths p) = (h', Ok tt) ->
  exists f m0 m, h' = Ev (Fsync f) (Ok tt) :: Ev (Fstat f) (Ok m) :: Ev (OpenPath p DirectoryNoFollow) (Ok f) :: Ev (Lstat p) (Ok m0) :: h
    /\ directory_unchanged paths m0 m = true.
Proof.
  unfold sync_directory. intros (h1 & m0 & H1 & Hk)%exec_bind_ok. unfold lstat in H1. prim_ok H1.
  apply exec_bind_ok in Hk as (h2 & f & H2 & Hk). unfold open_path in H2. prim_ok H2.
  apply exec_bind_ok in Hk as (h3 & m & H3 & Hk). unfold stat_fd in H3. prim_ok H3.
  apply exec_bind_ok in Hk as (? & [] & [-> Hu%negb_false_iff]%exec_bail_if & Hk). unfold sync_checked in Hk. prim_ok Hk.
  by exists f, m0, m.
Qed.

Lemma invalidate_ok env h h' : exec env h (invalidate_activation_receipt_with paths) = (h', Ok tt) -> receipt_taken_away h'.
Proof.
  unfold invalidate_activation_receipt_with. intros (h1 & [] & _ & Hk)%exec_bind_ok.
  apply exec_bind_ok in Hk as (h2 & o & H2%lstat_existing_ok & Hk). apply exec_bind_ok in Hk as (h3 & [] & H3 & Hk).
  apply exec_bind_ok in Hk as (? & directory & [= <- Hd%ok_or_ok] & Hk). apply sync_directory_ok in Hk as (f & m0 & m & -> & Hu).
  exists directory, f, m0, m, h3. split_and!; [done| |done..]. destruct o as [m1|]; subst h2.
  - apply exec_bind_ok in H3 as (? & [] & [= <- _] & H3). unfold remove_file in H3. prim_ok H3.
    cbn. by rewrite bool_decide_eq_true_2.
  - injection H3 as <-. cbn. by rewrite bool_decide_eq_true_2.
Qed.

(** What was written before the receipt was installed under its name. *)
Definition receipt_installed (r : ActivationReceipt) (h : list ev) : Prop :=
  exists f temporary, (Ev (WriteAll f (receipt_payload r)) (Ok tt) : ev) ∈ h
    /\ (Ev (Fsync f) (Ok tt) : ev) ∈ h /\ (Ev (RenamePath temporary receipt) (Ok tt) : ev) ∈ h.

Lemma set_file_owner_extends env f h h' r : exec env h (set_file_owner_if_needed paths f) = (h', r) -> extends h h'.
Proof. apply exec_extends_to. Qed.

Lemma install_receipt_ok env directory temporary f r h h' :
  exec env h (install_receipt paths directory temporary f (receipt_payload r)) = (h', Ok tt) -> receipt_installed r h'.
Proof.
  unfold install_receipt. intros (h1 & [] & H1 & Hk)%exec_bind_ok. prim_ok H1.
  apply exec_bind_ok in Hk as (h2 & [] & H2 & Hk). prim_ok H2.
  apply exec_bind_ok in Hk as (h3 & [] & X3%exec_extends_to & Hk).
  apply exec_bind_ok in Hk as (h4 & [] & H4 & Hk). unfold sync_checked in H4. prim_ok H4.
  apply exec_bind_ok in Hk as (h5 & m & H5 & Hk). unfold stat_fd in H5. prim_ok H5.
  apply exec_bind_ok in Hk as (? & [] & [= <- _] & Hk). apply exec_bind_ok in Hk as (h6 & [] & H6 & Hk). prim_ok H6.
  apply exec_extends_to in Hk as X. exists f, temporary. split_and!.
  - eapply extends_in; [exact X|]. do 3 right. eapply extends_in; [exact X3|]. right. left.
  - eapply extends_in; [exact X|]. do 2 right. left.
  - eapply extends_in; [exact X|]. left.
Qed.

Lemma write_activation_receipt_ok env r h h' :
  exec env h (write_activation_receipt_with paths r) = (h', Ok tt) -> receipt_installed r h'.
Proof.
  unfold write_activation_receipt_with.
  do 6 (intros (? & ? & _ & Hk)%exec_bind_ok; revert Hk). do 2 (intros (? & ? & _ & Hk)%exec_bind_ok; revert Hk).
  intros (h1 & [temporary f] & _ & Hk)%exec_bind_ok. rewrite exec_bind in Hk.
  destruct (exec env h1 (install_receipt _ _ _ _ _)) as [h2 res] eqn:E. cbn [fst snd] in Hk. rewrite exec_bind in Hk.
  destruct (exec env h2 (discard_temporary temporary)) as [h3 []] eqn:E2. cbn in Hk. injection Hk as <- ->.
  apply install_receipt_ok in E as (f' & t' & G1 & G2 & G3). apply exec_extends_to in E2 as X.
  exists f', t'. split_and!; by eapply extends_in.
Qed.

(** Same binding, apart from the canaries. *)
Definition same_binding (x y : VerifiedActivation) : Prop :=
  va_schema_version x = va_schema_version y /\ va_boot_id x = va_boot_id y
  /\ va_active_manifest_sha256 x = va_active_manifest_sha256 y /\ va_runtime_image_sha256 x = va_runtime_image_sha256 y
  /\ va_bot_executable_sha256 x = va_bot_executable_sha256 y /\ va_launcher_executable_sha256 x = va_launcher_executable_sha256 y
  /\ va_runtime_executable_sha256 x = va_runtime_executable_sha256 y /\ va_codex_version x = va_codex_version y
  /\ va_model x = va_model y.

Lemma same_binding_ok x y u : ensure_same_activation_binding x y = Ok u <-> same_binding x y.
Proof.
  unfold ensure_same_activation_binding, same_binding. rewrite fail_if_ok, !orb_false_iff, !negb_false_iff, !str_eqb_eq, N.eqb_eq. tauto.
Qed.

Lemma build_activation_receipt_ok env canaries h h' r :
  exec env h (build_activation_receipt_with paths canaries) = (h', Ok r) -> ar_canaries r = all_canaries /\ canaries = all_canaries.
Proof.
  unfold build_activation_receipt_with. intros (h1 & [] & [= <- Hc%canaries_ok] & Hk)%exec_bind_ok.
  apply exec_bind_ok in Hk as (h2 & b & _ & Hk). apply exec_bind_ok in Hk as (? & v & [= <- _] & Hk).
  apply exec_bind_ok in Hk as (h3 & [] & _ & Hk). by injection Hk as <- <-.
Qed.

Lemma mint_receipt_ok env expected canaries h h' v :
  exec env h (mint_receipt paths expected canaries) = (h', Ok v) -> sound h' ->
  canaries = all_canaries /\ same_binding expected v /\ vouches_for paths h' v
  /\ exists r, ar_canaries r = all_canaries /\ receipt_installed r h'.
Proof.
  unfold mint_receipt. intros (h1 & current & _ & Hk)%exec_bind_ok Hs.
  apply exec_bind_ok in Hk as (? & [] & [= <- _] & Hk).
  apply exec_bind_ok in Hk as (h2 & r & (Hr & Hc)%build_activation_receipt_ok & Hk).
  apply exec_bind_ok in Hk as (h3 & [] & H3%write_activation_receipt_ok & Hk).
  apply exec_bind_ok in Hk as (h4 & w & H4 & Hk). apply exec_bind_ok in Hk as (? & [] & [= <- Hb%same_binding_ok] & Hk).
  injection Hk as <- <-. split; [done|]. split; [done|]. apply exec_extends_to in H4 as X.
  split; [by eapply verify_activation_ok|]. exists r. split; [done|].
  destruct H3 as (f & t & G1 & G2 & G3). exists f, t. split_and!; by eapply extends_in.
Qed.
End receipt.

(** C28: A renewal ends with a receipt that vouches for the expected artifacts, or with none.
    Whatever the host answers, committing comes to a result. When it succeeds, the canaries
    were all and only the required ones, all passed; a receipt that says so was written to
    disk and installed under its name; and a verification that read it back vouches for the
    artifacts the renewal began with. When it fails, the receipt has been removed or was
    found absent, nothing was installed since, and its directory has been synced; otherwise
    the error says that this clean-up failed too. *)
Theorem renewal_commits_or_clears (paths : ActivationPaths) `{Sha256} `{JsonText} `{JsonPretty} env expected canaries h h' r :
  exec env h (commit_activation_receipt_with paths expected canaries) = (h', r) -> sound h' ->
  match r with
  | Ok v => canaries = all_canaries /\ same_binding expected v /\ vouches_for paths h' v
            /\ exists receipt, ar_canaries receipt = all_canaries /\ receipt_installed paths receipt h'
  | Err e => e <> Exhausted /\ (cleaned e -> receipt_taken_away paths h')
  end.
Proof.
  intros He Hs. pose proof (finishes_exec _ env h (commit_finishes paths expected canaries)) as Hf. rewrite He in Hf.
  revert He. unfold commit_activation_receipt_with. rewrite exec_bind.
  destruct (exec env h (mint_receipt paths expected canaries)) as [h1 [v|e]] eqn:E; cbn [fst snd].
  - intros [= -> <-]. by eapply mint_receipt_ok.
  - rewrite exec_bind. destruct (exec env h1 (invalidate_activation_receipt_with paths)) as [h2 [[]|e2]] eqn:E2; cbn;
      intros [= <- <-]; (split; [intros Hx; apply Hf; cbn; congruence|]); [|done].
    intros _. by eapply invalidate_ok.
Qed.

(** ** The receipt as text *)

Definition receipt_text_ok (r : ActivationReceipt) : Prop :=
  ar_schema_version r <= 65535
  /\ Forall (fun s => all is_scalar s = true)
       [ar_boot_id r; ar_active_manifest_sha256 r; ar_runtime_image_sha256 r; ar_bot_executable_sha256 r; ar_launcher_executable_sha256 r;
        ar_runtime_executable_sha256 r; ar_codex_version r; ar_model r]
  /\ forall name b, ar_canaries r !! name = Some b -> all is_scalar name = true.

Lemma visited_inserted m fields r : visit_checks m fields = Some r -> insert_flags m fields = Some r.
Proof.
  revert m. induction fields as [|[name v] fields IH]; intros m; cbn; [done|].
  destruct (json_bool v) as [b|]; cbn; [|done]. destruct (m !! name); [done|]. apply IH.
Qed.

Lemma flags_round_trip m : json_flags (checks_json m) = Some m.
Proof.
  pose proof (checks_round_trip m) as Hr. unfold deserialize_runtime_canary_checks, json_flags in *.
  destruct (checks_json m); try done. by apply visited_inserted.
Qed.

Lemma flags_json_ok m : (forall name b, m !! name = Some b -> all is_scalar name = true) -> json_ok (checks_json m) = true.
Proof.
  intros Hm. apply all_true, Forall_map, Forall_forall. intros [name b] Hb%elem_of_btree. cbn [fst snd json_ok].
  rewrite andb_true_r. by eapply Hm.
Qed.

Lemma as_bytes_newline (s : str) : as_bytes s ++ [10] = as_bytes (s ++ [10]).
Proof. unfold as_bytes. by rewrite map_app, concat_app. Qed.

Lemma decode_receipt_json r : receipt_text_ok r -> decode_receipt (receipt_json r) = Some r.
Proof.
  intros (Hv & _ & _). unfold decode_receipt, receipt_json.
  rewrite struct_fields_json by first [done | by apply (bool_decide_unpack _); vm_compute].
  cbn [mbind option_bind]. rewrite json_unsigned_decimal by done. cbn [mbind option_bind json_string json_as_str].
  rewrite flags_round_trip. cbn. by destruct r.
Qed.

(** A receipt survives its file. What the writer puts into the file, pretty-printed JSON
    and a line feed, is decoded by the verifier to the same receipt. *)
Theorem receipt_round_trip `{JsonPrettyLaws} r :
  receipt_text_ok r -> json_from_slice (receipt_payload r) ≫= decode_receipt = Some r.
Proof.
  intros Hr. assert (json_ok (receipt_json r) = true) as Hok.
  { destruct Hr as (Hv & Hs & Hc). rewrite !Forall_cons in Hs. destruct Hs as (? & ? & ? & ? & ? & ? & ? & ? & _).
    assert (ar_schema_version r <= u64_max) by (unfold u64_max; lia).
    apply struct_json_ok; [done|]. unfold all. cbn [forallb]. rewrite json_ok_decimal by done. rewrite (flags_json_ok _ Hc).
    by rewrite !string_json_ok by done. }
  unfold json_from_slice, receipt_payload. rewrite as_bytes_newline, from_utf8_as_bytes.
  - cbn [mbind option_bind]. rewrite parse_pretty; [by apply decode_receipt_json|done|].
    pose proof (checks_depth (ar_canaries r)). unfold receipt_json, struct_json, receipt_names.
    cbn [json_depth zip zip_with foldr snd]. lia.
  - apply Forall_app_2; [by apply pretty_scalar|]. by repeat constructor.
Qed.

(** ** Examples *)

(** The compact text of [JsonCompact], with a line feed allowed after it. *)
Definition line_text : JsonText := fun s => read_compact (default s (strip_suffix [10] s)).
Definition line_pretty : JsonPretty := print_compact.

Lemma strip_newline (s : str) : strip_suffix [10] (s ++ [10]) = Some s.
Proof. by apply strip_suffix_spec. Qed.

Lemma line_laws : @JsonPrettyLaws line_text line_pretty.
Proof.
  split.
  - intros v Hv _. unfold parse_json, line_text, print_pretty, line_pretty. rewrite strip_newline. by apply read_print_compact.
  - intros v Hv. eapply Forall_impl; [by apply print_compact_line|]. by intros c [? ?].
Qed.

Definition sample_boot : str := lit "01234567-89ab-cdef-0123-456789abcdef".
Definition sample_bytes (name : str) : bytes := name ++ lit "!".
Definition sample_hash (data : bytes) : str := hex (checksum_digest data).
Definition sample_image : bytes := lit "hsqs!".
Definition sample_size (data : bytes) : Json := JNumber (decimal (len data)).

Definition sample_source (destination source mode : str) (data : bytes) : Json :=
  struct_json [lit "source"; lit "destination"; lit "size"; lit "sha256"; lit "mode"]
    [JString source; JString destination; sample_size data; JString (sample_hash data); JString mode].

Definition sample_source_manifest : bytes := Eval vm_compute in
  print_compact (struct_json
    [lit "version"; lit "codex_version"; lit "codex_target"; lit "codex_layout_version"; lit "files"; lit "symlinks"]
    [JNumber (lit "1"); JString SUPPORTED_CODEX_VERSION; JString SUPPORTED_CODEX_TARGET; JNumber (lit "1");
     JArray (map (fun '(destination, source, mode) => sample_source destination source mode (sample_bytes (lit "probe")))
               EXPECTED_RUNTIME_SOURCE_FILES
             ++ [sample_source RUNTIME_WRAPPER_DESTINATION ACTIVATION_RUNTIME_EXECUTABLE_PATH (lit "0555") (sample_bytes (lit "runtime"))]);
     JArray (map (fun '(destination, target) =>
               struct_json [lit "destination"; lit "target"] [JString destination; JString target]) EXPECTED_RUNTIME_SOURCE_SYMLINKS)]).

Definition sample_manifest : bytes := Eval vm_compute in
  print_compact (struct_json manifest_names
    [JNumber (lit "1"); JNumber (lit "1"); JString SUPPORTED_CODEX_VERSION; JString SUPPORTED_CODEX_TARGET; JNumber (lit "1");
     JString (lit "images/" ++ sample_hash sample_image ++ lit ".squashfs"); JString (sample_hash sample_image);
     sample_size sample_image; JString (sample_hash sample_source_manifest); JString (sample_hash []);
     JString EXPECTED_MKSQUASHFS_ARGV_SHA256]).

Definition sample_receipt : ActivationReceipt :=
  mkReceipt 1 sample_boot (sample_hash sample_manifest) (sample_hash sample_image) (sample_hash (sample_bytes (lit "bot")))
    (sample_hash (sample_bytes (lit "launcher"))) (sample_hash (sample_bytes (lit "runtime"))) SUPPORTED_CODEX_VERSION SUPPORTED_MODEL
    all_canaries.

Lemma receipt_round_trip_witness :
  receipt_text_ok sample_receipt
  /\ @json_from_slice line_text (@receipt_payload line_pretty sample_receipt) ≫= decode_receipt = Some sample_receipt.
Proof.
  assert (receipt_text_ok sample_receipt) as Hr.
  { split; [by vm_compute|]. split; [apply Forall_forall; intros s Hs; revert s Hs; apply Forall_forall; repeat constructor; by vm_compute|].
    intros name b Hb. cbn in Hb. rewrite all_canaries_lookup in Hb. case_bool_decide as Hn; [|done].
    assert (Forall (fun n => all is_scalar n = true) REQUIRED_CANARIES) as Ha by (repeat constructor; by vm_compute).
    rewrite Forall_forall in Ha. by apply Ha. }
  split; [exact Hr|]. exact (@receipt_round_trip line_text line_pretty line_laws sample_receipt Hr).
Defined.

(** A host with the artifacts, whose receipt is the one given until it is removed or another
    is installed. *)
Definition sample_files : list (list Component * bytes * N) := Eval vm_compute in
  [(components BOOT_ID_PATH, sample_boot ++ [10], 292);
   (components ACTIVE_RUNTIME_MANIFEST_PATH, sample_manifest, 292);
   (components (lit "/opt/webex-generic-account-bot/runtime/images/" ++ sample_hash sample_image ++ lit ".squashfs"), sample_image, 292);
   (components ACTIVATION_BOT_EXECUTABLE_PATH, sample_bytes (lit "bot"), 493);
   (components ACTIVATION_LAUNCHER_EXECUTABLE_PATH, sample_bytes (lit "launcher"), 493);
   (components ACTIVATION_RUNTIME_EXECUTABLE_PATH, sample_bytes (lit "runtime"), 493);
   (components CANARY_PROBE_EXECUTABLE_PATH, sample_bytes (lit "probe"), 365);
   (components RUNTIME_SOURCE_MANIFEST_PATH, sample_source_manifest, 292)].

(** The link of the running bot. *)
Definition resolve_sample (p : list Component) : list Component :=
  if bool_decide (p = components (lit "/proc/self/exe")) then components ACTIVATION_BOT_EXECUTABLE_PATH else p.

Fixpoint written_last (h : list ev) : bytes :=
  match h with
  | [] => []
  | Ev c _ :: h => match c with WriteAll _ chunk => chunk | _ => written_last h end
  end.

Fixpoint receipt_of (initial : option bytes) (h : list ev) : option bytes :=
  match h with
  | [] => initial
  | Ev c _ :: h =>
      match c with
      | RemoveFile p => if bool_decide (p = components ACTIVATION_RECEIPT_PATH) then None else receipt_of initial h
      | RenamePath _ _ => Some (written_last h)
      | _ => receipt_of initial h
      end
  end.

Definition sample_file (initial : option bytes) (h : list ev) (p : list Component) : option (bytes * N) :=
  if bool_decide (p = components ACTIVATION_RECEIPT_PATH) then (fun data => (data, 292)) <$> receipt_of initial h
  else (fun f => (snd (fst f), snd f)) <$> find (fun f => bool_decide (fst (fst f) = resolve_sample p)) sample_files.

Definition sample_stat (data : bytes) (mode : N) : StatSnapshot :=
  mkStat 1 (len data) (S_IFREG + mode) 1 0 0 (Z.of_N (len data)) 0 0 0 0.

Definition sample_directory : StatSnapshot := mkStat 1 2 (S_IFDIR + 493) 2 0 0 0 0 0 0 0.

Fixpoint opened_path (h : list ev) (f : fd) : list Component :=
  match h with
  | [] => []
  | e :: h =>
      if bool_decide (opens e = Some f) then match ev_call e with OpenPath p _ | CreatePath p _ => p | _ => [] end
      else opened_path h f
  end.

Definition is_directory_path (p : list Component) : bool :=
  bool_decide (p = [RootDir]) || any (fun f => components_prefix p (fst (fst f))) sample_files
  || components_prefix p (components (lit "/run/webex-codex-activation")).

Definition sample_lstat (initial : option bytes) (h : list ev) (p : list Component) : result N StatSnapshot :=
  match sample_file initial h p with
  | Some (data, mode) => Ok (sample_stat data mode)
  | None => if is_directory_path p then Ok sample_directory else Err ENOENT
  end.

(** A created file has the mode it was given, once something was written to it. *)
Definition sample_fstat (initial : option bytes) (h : list ev) (f : fd) : result N StatSnapshot :=
  match contents f h with
  | [] => match sample_lstat initial h (opened_path h f) with Ok m => Ok m | Err _ => Ok (sample_stat [] 384) end
  | data => Ok (sample_stat data 292)
  end.

Definition activation_host (initial : option bytes) : environment fs_answer :=
  fun h c =>
    match c return fs_answer c with
    | Lstat p => sample_lstat initial h p
    | StatPath p => Err ENOENT
    | OpenPath _ _ | CreatePath _ _ => Ok (len h)
    | Fstat f => sample_fstat initial h f
    | ReadFd f limit =>
        match sample_file initial h (opened_path h f) with
        | Some (data, _) => Ok (take_N limit (drop_N (len (received f h)) data))
        | None => Err ENOENT
        end
    | Getxattr _ _ => Err ENODATA
    | ReadLink _ => Ok ACTIVATION_BOT_EXECUTABLE_PATH
    | WriteAll _ _ | Fchmod _ _ | Fchown _ _ _ | Fsync _ | RemoveFile _ | RenamePath _ _ => Ok tt
    | c => refused c
    end.

Definition sample_receipt_bytes : bytes := Eval vm_compute in @receipt_payload line_pretty sample_receipt.

#[local] Abbreviation sample_verification initial :=
  (exec (activation_host initial) [] (@verify_activation_with_deadline production_for_bot checksum_sha256 line_text None)).

#[local] Abbreviation sample_commit canaries :=
  (exec (activation_host None) []
    (@commit_activation_receipt_with production_for_bot checksum_sha256 line_text line_pretty (activation_of sample_receipt) canaries)).

Example sample_verified : (sample_verification (Some sample_receipt_bytes)).2 = Ok (activation_of sample_receipt).
Proof. vm_compute. reflexivity. Qed.

Example sample_committed : (sample_commit all_canaries).2 = Ok (activation_of sample_receipt).
Proof. vm_compute. reflexivity. Qed.

Example sample_refused : (sample_commit ∅).2 = Err (Bail (lit "activation receipt has an incomplete canary set")).
Proof. vm_compute. reflexivity. Qed.

Lemma verified_activation_sound_witness :
  (sample_verification (Some sample_receipt_bytes)).2 = Ok (activation_of sample_receipt)
  /\ @vouches_for production_for_bot checksum_sha256 line_text (sample_verification (Some sample_receipt_bytes)).1 (activation_of sample_receipt)
  /\ forall e, e ∈ (sample_verification (Some sample_receipt_bytes)).1 -> inspects (ev_call e) = true.
Proof.
  split; [exact sample_verified|].
  assert (bool_decide (sound (sample_verification (Some sample_receipt_bytes)).1) = true) as Hs by (vm_compute; reflexivity).
  pose proof (surjective_pairing (sample_verification (Some sample_receipt_bytes))) as He. rewrite sample_verified in He.
  exact (@verified_activation_sound production_for_bot checksum_sha256 line_text (activation_host (Some sample_receipt_bytes)) None
    _ _ He (proj1 (bool_decide_eq_true _) Hs)).
Defined.

Lemma renewal_commits_or_clears_witness :
  (sample_commit all_canaries).2 = Ok (activation_of sample_receipt)
  /\ same_binding (activation_of sample_receipt) (activation_of sample_receipt)
  /\ receipt_taken_away production_for_bot (sample_commit ∅).1.
Proof.
  assert (forall canaries, bool_decide (sound (sample_commit canaries).1) = true -> sound (sample_commit canaries).1) as Hs
    by (intros c; apply bool_decide_eq_true).
  assert (sound (sample_commit all_canaries).1) as H1 by (apply Hs; vm_compute; reflexivity).
  assert (sound (sample_commit ∅).1) as H2 by (apply Hs; vm_compute; reflexivity).
  pose proof (fun c => @renewal_commits_or_clears production_for_bot checksum_sha256 line_text line_pretty (activation_host None)
    (activation_of sample_receipt) c [] _ _ (surjective_pairing (sample_commit c))) as T.
  pose proof (T _ H1) as T1. rewrite sample_committed in T1. pose proof (T _ H2) as T2. rewrite sample_refused in T2.
  split; [exact sample_committed|]. split; [exact (proj1 (proj2 T1))|exact (proj2 T2 I)].
Defined.
