(* ===== verification/RebootChallenge.v ===== *)
(** * The reboot challenge

    The part of [src/activation_canary.rs] that makes an activation wait for a real reboot:
    a challenge on disk names the boot it was written in, the activated artifacts and a
    marker on a file system that does not survive a boot. Private files and their atomic
    replacement are here too. *)

From S2P Require Import Prelude Effects Text Digest Paths HostFiles WorkBudget Descriptors HostPaths Webex Serde.
From S2P Require Import CanaryProtocol IsolatedPlan Activation.

Local Open Scope N_scope.

Definition REBOOT_CHALLENGE_PATH : path := lit "/var/lib/webex-generic-account-bot/canary-fixtures/reboot-challenge.json".
Definition CHALLENGE_MAX_BYTES : N := 4 * 1024.
Definition REBOOT_CHALLENGE_VERSION : N := 2.
Definition REBOOT_MARKER_CONTENTS : bytes := lit "webex-runtime-reboot-canary-v1" ++ [10].

(** ** Private files *)

Record PrivateFileOwner : Type := mkOwner { owner_uid : N; owner_gid : N }.

Definition ROOT_FILE_OWNER : PrivateFileOwner := mkOwner 0 0.

Definition private_file_ok (m : StatSnapshot) (owner : PrivateFileOwner) : bool :=
  is_regular m && negb (is_link m) && (st_uid m =? owner_uid owner) && (st_gid m =? owner_gid owner) && (st_links m =? 1)
  && (st_permissions m =? 384).

Definition validate_private_file (m : StatSnapshot) (description : str) (owner : PrivateFileOwner) : result FsError unit :=
  fail_if (negb (private_file_ok m owner)) (Bail (description ++ lit " metadata is invalid")).

Definition private_directory_ok (m : StatSnapshot) (mode : N) (owner : PrivateFileOwner) : bool :=
  is_directory m && negb (is_link m) && (st_uid m =? owner_uid owner) && (st_gid m =? owner_gid owner) && (st_permissions m =? mode).

Definition validate_directory_owner (p : list Component) (mode : N) (description : str) (owner : PrivateFileOwner) : fsprog unit :=
  let*? m := lstat p in
  bail_if (negb (private_directory_ok m mode owner)) (description ++ lit " metadata is invalid").

Definition validate_root_directory (p : list Component) (mode : N) (description : str) : fsprog unit :=
  validate_directory_owner p mode description ROOT_FILE_OWNER.

Record PrivateFileIdentity : Type := mkPrivateIdentity {
  pi_device : N;
  pi_inode : N;
  pi_mode : N;
  pi_links : N;
  pi_uid : N;
  pi_gid : N;
  pi_size : N
}.

#[export] Instance PrivateFileIdentity_eq_dec : EqDecision PrivateFileIdentity.
Proof. solve_decision. Defined.

(** [PrivateFileIdentity::capture]. *)
Definition capture_private (m : StatSnapshot) (max_bytes : N) (description : str) (owner : PrivateFileOwner)
  : result FsError PrivateFileIdentity :=
  validate_private_file m description owner ;?
  fail_if (max_bytes <? file_len m) (Bail (description ++ lit " exceeds its size limit")) ;?
  Ok (mkPrivateIdentity (st_device m) (st_inode m) (st_mode m) (st_links m) (st_uid m) (st_gid m) (file_len m)).

(** [ensure!(PrivateFileIdentity::capture(..)? == expected)]. *)
Definition recapture (m : StatSnapshot) (max_bytes : N) (description : str) (owner : PrivateFileOwner) (expected : PrivateFileIdentity)
    (changed : str) : result FsError unit :=
  let? actual := capture_private m max_bytes description owner in
  fail_if (negb (bool_decide (actual = expected))) (Bail (description ++ changed)).

Definition read_private_file (p : list Component) (max_bytes : N) (description : str) (owner : PrivateFileOwner) : fsprog bytes :=
  let*? m := lstat p in
  let*? expected := Ret (capture_private m max_bytes description owner) in
  let*? f := open_path p FileNoFollow in
  let*? m := stat_fd f in
  let*? _ := Ret (recapture m max_bytes description owner expected (lit " identity changed while opening")) in
  let*? data := os (perform (ReadToEnd f)) in
  let payload := take_N (max_bytes + 1) data in
  let*? _ := bail_if (max_bytes <? len payload) (lit "Condition failed: `payload.len() as u64 <= max_bytes`") in
  let*? _ := bail_if (negb (len payload =? pi_size expected)) (description ++ lit " size changed while reading") in
  let*? m := stat_fd f in
  let*? _ := Ret (recapture m max_bytes description owner expected (lit " identity changed while reading")) in
  let*? m := lstat p in
  let*? _ := Ret (recapture m max_bytes description owner expected (lit " path changed while reading")) in
  Ret (Ok payload).

Definition remove_private_file (p : list Component) (description : str) (owner : PrivateFileOwner) : fsprog unit :=
  let*? m := lstat p in
  let*? _ := Ret (validate_private_file m description owner) in
  remove_file p.

Definition path_is_absent (p : list Component) : fsprog bool :=
  let*? found := lstat_existing p in
  Ret (Ok (negb (is_some_and found (fun _ => true)))).

(** [failed_creation_error] for a file. *)
Definition failed_file_creation {A} (p : list Component) (error : FsError) : fsprog A :=
  let* removed := (perform (RemoveFile p) : prog fs_answer (result N unit)) in
  match removed with
  | Ok _ => fail error
  | Err errno => fail (AlsoFailed error [Os errno])
  end.

Definition create_private_fixture_with_owner (p : list Component) (contents : bytes) (owner : PrivateFileOwner) : fsprog unit :=
  let*? f := os (perform (CreatePath p 384)) in
  let* written :=
    (let*? _ := os (perform (WriteAll f contents)) in
     let*? _ := sync_checked f in
     let*? m := stat_fd f in
     Ret (validate_private_file m (lit "canary fixture") owner)) in
  match written with
  | Ok _ => Ret (Ok tt)
  | Err error => failed_file_creation p error
  end.

Definition create_private_fixture (p : list Component) (contents : bytes) : fsprog unit :=
  create_private_fixture_with_owner p contents ROOT_FILE_OWNER.

(** [SystemRandom::fill] on 32 bytes, in hexadecimal. *)
Definition random_nonce : fsprog str :=
  let* random := (perform RandomBytes : prog fs_answer (option bytes)) in
  Ret (match random with
       | Some data => Ok (hex data)
       | None => Err (Bail (lit "failed to obtain runtime canary nonce"))
       end).

(** The closure of [atomic_write_private]. *)
Definition install_private (p parent temporary : list Component) (f : fd) (payload : bytes) (owner : PrivateFileOwner) : fsprog unit :=
  let*? _ := os (perform (WriteAll f payload)) in
  let*? _ := sync_checked f in
  let*? m := stat_fd f in
  let*? _ := Ret (validate_private_file m (lit "temporary private file") owner) in
  let*? _ := os (perform (RenamePath temporary p)) in
  let*? written := read_private_file p (len payload) (lit "written private file") owner in
  let*? _ := bail_if (negb (str_eqb written payload)) (lit "written private file contents are invalid") in
  let*? _ := validate_directory_owner parent 448 (lit "private file parent") owner in
  let*? directory := open_path parent FileFollow in
  sync_checked directory.

(** [path.file_name().unwrap()]: the path of the challenge has a name. *)
Definition temporary_path (p : path) (parent : list Component) : fsprog (list Component) :=
  let*? name := Ret (ok_or (file_name p) (Bail (lit "private file has no name"))) in
  let*? nonce := random_nonce in
  Ret (Ok (child parent (as_bytes (lit "." ++ from_utf8_lossy name ++ lit "." ++ nonce ++ lit ".tmp")))).

Definition atomic_write_private (p : path) (payload : bytes) (owner : PrivateFileOwner) : fsprog unit :=
  let*? parent := Ret (ok_or (parent (components p)) (Bail (lit "private file has no parent"))) in
  let*? _ := validate_directory_owner parent 448 (lit "private file parent") owner in
  let*? absent := path_is_absent (components p) in
  let*? _ := (if absent then Ret (Ok tt)
              else
                let*? m := lstat (components p) in
                Ret (validate_private_file m (lit "existing private file") owner)) in
  let*? temporary := temporary_path p parent in
  let*? f := os (perform (CreatePath temporary 384)) in
  let* installed := install_private (components p) parent temporary f payload owner in
  let* _ := discard_temporary temporary in
  Ret installed.

(** ** The challenge *)

Record ActivationBindingReport : Type := mkBindingReport {
  br_active_manifest_sha256 : str;
  br_runtime_image_sha256 : str;
  br_bot_executable_sha256 : str;
  br_launcher_executable_sha256 : str;
  br_runtime_executable_sha256 : str;
  br_codex_version : str;
  br_model : str
}.

#[export] Instance ActivationBindingReport_eq_dec : EqDecision ActivationBindingReport.
Proof. solve_decision. Defined.

(** [ActivationBindingReport::from]. *)
Definition binding_report (v : VerifiedActivation) : ActivationBindingReport :=
  mkBindingReport (va_active_manifest_sha256 v) (va_runtime_image_sha256 v) (va_bot_executable_sha256 v)
    (va_launcher_executable_sha256 v) (va_runtime_executable_sha256 v) (va_codex_version v) (va_model v).

Record RebootChallenge : Type := mkChallenge {
  rc_version : N;
  rc_challenge_boot_id : str;
  rc_marker_nonce : str;
  rc_validated_boot_id : option str;
  rc_activation_binding : ActivationBindingReport
}.

Record RebootChallengePaths : Type := mkChallengePaths {
  cp_challenge : path;
  cp_boot_id : path;
  cp_marker_root : path;
  cp_owner : PrivateFileOwner
}.

Definition challenge_paths : RebootChallengePaths :=
  mkChallengePaths REBOOT_CHALLENGE_PATH BOOT_ID_PATH RUNTIME_CANARY_HOST_UNIX_FIXTURE_ROOT ROOT_FILE_OWNER.

Record LegacyRebootChallengeV1 : Type := mkLegacyChallenge {
  lc_version : N;
  lc_challenge_boot_id : str;
  lc_marker_nonce : str;
  lc_validated_boot_id : option str
}.

Inductive RebootChallengeState : Type := Absent | PendingCurrentBoot | ValidatedCurrentBoot | CrossedBootBoundary.

#[export] Instance RebootChallengeState_eq_dec : EqDecision RebootChallengeState.
Proof. solve_decision. Defined.

(** *** JSON *)

(** A field of type [Option] may be missing from an object. *)
Definition field_or_null (optional : str) (fields : list (str * Json)) (name : str) : option Json :=
  found ← unique_field [name] fields;
  match found with
  | Some v => Some v
  | None => if str_eqb name optional then Some JNull else None
  end.

Definition struct_fields_with (optional : str) (names : list str) (v : Json) : option (list Json) :=
  match v with
  | JObject fields => if known_fields names fields then mapM (field_or_null optional fields) names else None
  | _ => struct_fields names v
  end.

Definition json_opt_string (v : Json) : option (option str) :=
  match v with
  | JNull => Some None
  | _ => Some <$> json_string v
  end.

Definition opt_string_json (o : option str) : Json := match o with Some s => JString s | None => JNull end.

Definition binding_names : list str :=
  [lit "active_manifest_sha256"; lit "runtime_image_sha256"; lit "bot_executable_sha256"; lit "launcher_executable_sha256";
   lit "runtime_executable_sha256"; lit "codex_version"; lit "model"].

Definition decode_binding (v : Json) : option ActivationBindingReport :=
  fields ← struct_fields binding_names v;
  match fields with
  | [f1; f2; f3; f4; f5; f6; f7] =>
      f1 ← json_string f1; f2 ← json_string f2; f3 ← json_string f3; f4 ← json_string f4; f5 ← json_string f5;
      f6 ← json_string f6; f7 ← json_string f7; Some (mkBindingReport f1 f2 f3 f4 f5 f6 f7)
  | _ => None
  end.

Definition binding_json (b : ActivationBindingReport) : Json :=
  struct_json binding_names
    [JString (br_active_manifest_sha256 b); JString (br_runtime_image_sha256 b); JString (br_bot_executable_sha256 b);
     JString (br_launcher_executable_sha256 b); JString (br_runtime_executable_sha256 b); JString (br_codex_version b);
     JString (br_model b)].

Definition challenge_names : list str :=
  [lit "version"; lit "challenge_boot_id"; lit "marker_nonce"; lit "validated_boot_id"; lit "activation_binding"].

Definition decode_challenge (v : Json) : option RebootChallenge :=
  fields ← struct_fields_with (lit "validated_boot_id") challenge_names v;
  match fields with
  | [f1; f2; f3; f4; f5] =>
      f1 ← json_unsigned 65535 f1; f2 ← json_string f2; f3 ← json_string f3; f4 ← json_opt_string f4; f5 ← decode_binding f5;
      Some (mkChallenge f1 f2 f3 f4 f5)
  | _ => None
  end.

Definition challenge_json (c : RebootChallenge) : Json :=
  struct_json challenge_names
    [JNumber (decimal (rc_version c)); JString (rc_challenge_boot_id c); JString (rc_marker_nonce c);
     opt_string_json (rc_validated_boot_id c); binding_json (rc_activation_binding c)].

Definition decode_legacy_challenge (v : Json) : option LegacyRebootChallengeV1 :=
  fields ← struct_fields_with (lit "validated_boot_id")
    [lit "version"; lit "challenge_boot_id"; lit "marker_nonce"; lit "validated_boot_id"] v;
  match fields with
  | [f1; f2; f3; f4] =>
      f1 ← json_unsigned 65535 f1; f2 ← json_string f2; f3 ← json_string f3; f4 ← json_opt_string f4;
      Some (mkLegacyChallenge f1 f2 f3 f4)
  | _ => None
  end.

(** *** Reading and writing *)

Section challenge.
Context `{Sha256} `{JsonText} `{JsonPrint} (paths : RebootChallengePaths).

Definition reboot_marker_path_with (nonce : str) : result FsError (list Component) :=
  map_err (fun _ => Bail (lit "runtime canary nonce must be 32 lowercase hexadecimal bytes")) (validate_runtime_canary_nonce nonce) ;?
  Ok (join_path (cp_marker_root paths) (lit "reboot-" ++ nonce ++ lit ".marker")).

Definition validate_reboot_marker_with (nonce : str) : fsprog unit :=
  let*? marker := Ret (reboot_marker_path_with nonce) in
  let*? payload := read_private_file marker (len REBOOT_MARKER_CONTENTS) (lit "current-boot reboot marker") (cp_owner paths) in
  bail_if (negb (str_eqb payload REBOOT_MARKER_CONTENTS)) (lit "current-boot reboot marker contents are invalid").

Definition validate_reboot_marker_root : fsprog unit :=
  validate_directory_owner (components (cp_marker_root paths)) 448 (lit "reboot marker root") (cp_owner paths).

Definition read_boot_id_with : fsprog str :=
  let*? f := open_path (components (cp_boot_id paths)) FileFollow in
  let*? data := os (perform (ReadToEnd f)) in
  let*? text := Ret (ok_or (from_utf8 data) (Bail (lit "stream did not contain valid UTF-8"))) in
  let value := trim text in
  let*? _ := bail_if (negb (byte_len value =? 36) || negb (all_indexed boot_id_byte 0 (as_bytes value))) (lit "kernel boot ID is invalid") in
  Ret (Ok value).

Definition is_legacy_reboot_challenge_v1 (payload : bytes) : bool :=
  match json_from_slice payload ≫= decode_legacy_challenge with
  | Some c =>
      (lc_version c =? 1) && negb (is_empty (trim (lc_challenge_boot_id c))) && is_ok (validate_runtime_canary_nonce (lc_marker_nonce c))
      && match lc_validated_boot_id c with Some boot_id => negb (is_empty (trim boot_id)) | None => true end
  | None => false
  end.

(** [parse_boot_id(value).is_ok_and(|boot_id| boot_id == value)]. *)
Definition canonical_boot_id (value : str) : bool :=
  match parse_boot_id (as_bytes value) with
  | Ok boot_id => str_eqb boot_id value
  | Err _ => false
  end.

Definition challenge_valid (c : RebootChallenge) : bool :=
  (rc_version c =? REBOOT_CHALLENGE_VERSION) && canonical_boot_id (rc_challenge_boot_id c)
  && match rc_validated_boot_id c with
     | Some validated => canonical_boot_id validated && str_eqb validated (rc_challenge_boot_id c)
     | None => true
     end
  && is_ok (validate_runtime_canary_nonce (rc_marker_nonce c)).

Definition parse_challenge (payload : bytes) : result FsError RebootChallenge :=
  match json_from_slice payload ≫= decode_challenge with
  | Some c => fail_if (negb (challenge_valid c)) (Bail (lit "reboot challenge is invalid")) ;? Ok c
  | None =>
      if is_legacy_reboot_challenge_v1 payload
      then Err (Bail (lit "legacy reboot challenge schema version 1 requires operator recovery"))
      else Err (Bail (lit "reboot challenge is invalid JSON"))
  end.

Definition read_reboot_challenge_with : fsprog (option RebootChallenge) :=
  let*? absent := path_is_absent (components (cp_challenge paths)) in
  if absent then Ret (Ok None)
  else
    let*? payload := read_private_file (components (cp_challenge paths)) CHALLENGE_MAX_BYTES (lit "reboot challenge") (cp_owner paths) in
    let*? c := Ret (parse_challenge payload) in
    Ret (Ok (Some c)).

Definition challenge_payload (c : RebootChallenge) : bytes := json_to_vec (challenge_json c) ++ [10].

Definition write_new_reboot_challenge_with (boot_id : str) (validated_boot_id : option str) (binding : ActivationBindingReport)
  : fsprog unit :=
  let*? marker_nonce := random_nonce in
  let*? marker := Ret (reboot_marker_path_with marker_nonce) in
  let*? _ := create_private_fixture_with_owner marker REBOOT_MARKER_CONTENTS (cp_owner paths) in
  let payload := challenge_payload (mkChallenge REBOOT_CHALLENGE_VERSION boot_id marker_nonce validated_boot_id binding) in
  let*? _ := bail_if (CHALLENGE_MAX_BYTES <? len payload) (lit "Condition failed: `payload.len() as u64 <= CHALLENGE_MAX_BYTES`") in
  let* written := atomic_write_private (cp_challenge paths) payload (cp_owner paths) in
  match written with
  | Ok _ => Ret (Ok tt)
  | Err error =>
      let* _ := remove_private_file marker (lit "reboot marker") (cp_owner paths) in
      fail error
  end.

(** *** Preparing and verifying *)

Definition classify_reboot_challenge (current_boot : str) (challenge : option RebootChallenge) (expected_binding : ActivationBindingReport)
  : result FsError RebootChallengeState :=
  match challenge with
  | None => Ok Absent
  | Some c =>
      fail_if (negb (bool_decide (rc_activation_binding c = expected_binding)))
        (Bail (lit "reboot challenge does not match the active runtime binding")) ;?
      fail_if (is_some_and (rc_validated_boot_id c) (fun validated => negb (str_eqb validated (rc_challenge_boot_id c))))
        (Bail (lit "reboot challenge validated boot ID is invalid")) ;?
      if negb (str_eqb (rc_challenge_boot_id c) current_boot) then Ok CrossedBootBoundary
      else Ok (match rc_validated_boot_id c with Some _ => ValidatedCurrentBoot | None => PendingCurrentBoot end)
  end.

Record RebootChallengeReport : Type := mkChallengeReport {
  cr_state : str;
  cr_current_boot_matches : bool;
  cr_validated : bool;
  cr_marker_valid : bool
}.

Definition pending_reboot_challenge_report : RebootChallengeReport := mkChallengeReport (lit "pending_current_boot") true false true.
Definition absent_reboot_challenge_report : RebootChallengeReport := mkChallengeReport (lit "absent") false false false.

(** The branch that writes a challenge and reads it back. *)
Definition arm_reboot_challenge (current_boot : str) (expected_binding : ActivationBindingReport)
  : fsprog (str * N * RebootChallengeReport) :=
  let*? _ := write_new_reboot_challenge_with current_boot None expected_binding in
  let*? found := read_reboot_challenge_with in
  let*? c := Ret (ok_or found (Bail (lit "prepared reboot challenge is missing"))) in
  let*? state := Ret (classify_reboot_challenge current_boot (Some c) expected_binding) in
  let*? _ := bail_if (negb (bool_decide (state = PendingCurrentBoot)))
               (lit "prepared reboot challenge is not pending for the current boot") in
  let*? _ := validate_reboot_marker_with (rc_marker_nonce c) in
  Ret (Ok (lit "reboot_required", 2, pending_reboot_challenge_report)).

(** Without a challenge the state is [Absent], and only then. *)
Definition prepare_reboot_cleanup_challenge_with (apply_ : bool) (expected_binding : ActivationBindingReport)
  : fsprog (str * N * RebootChallengeReport) :=
  let*? _ := validate_reboot_marker_root in
  let*? current_boot := read_boot_id_with in
  let*? existing := read_reboot_challenge_with in
  let*? state := Ret (classify_reboot_challenge current_boot existing expected_binding) in
  match existing with
  | None =>
      if negb apply_ then Ret (Ok (lit "ready", 0, absent_reboot_challenge_report))
      else arm_reboot_challenge current_boot expected_binding
  | Some c =>
      match state with
      | Absent => bail (lit "classified challenge must exist")
      | PendingCurrentBoot =>
          let*? _ := validate_reboot_marker_with (rc_marker_nonce c) in
          Ret (Ok (lit "reboot_required", 0, pending_reboot_challenge_report))
      | ValidatedCurrentBoot => bail (lit "runtime activation reboot challenge is already validated for this boot")
      | CrossedBootBoundary =>
          let*? marker := Ret (reboot_marker_path_with (rc_marker_nonce c)) in
          let*? absent := path_is_absent marker in
          let*? _ := bail_if (negb absent) (lit "pre-reboot runtime marker survived the boot boundary") in
          bail (lit "runtime activation reboot challenge has crossed a real boot; continue activation instead")
      end
  end.

Definition same_binding_or_fail (c : RebootChallenge) (expected_binding : ActivationBindingReport) : fsprog unit :=
  bail_if (negb (bool_decide (rc_activation_binding c = expected_binding)))
    (lit "reboot challenge does not match the active runtime binding").

Definition verify_reboot_cleanup_challenge_with (binding : VerifiedActivation) : fsprog unit :=
  let*? _ := validate_reboot_marker_root in
  let*? current_boot := read_boot_id_with in
  let*? challenge := read_reboot_challenge_with in
  let expected_binding := binding_report binding in
  match challenge with
  | None =>
      let*? _ := write_new_reboot_challenge_with current_boot None expected_binding in
      bail (lit "runtime activation requires one real reboot to validate cleanup")
  | Some c =>
      if str_eqb (rc_challenge_boot_id c) current_boot then
        let*? _ := same_binding_or_fail c expected_binding in
        let*? _ := bail_if (negb (bool_decide (rc_validated_boot_id c = Some current_boot)))
                     (lit "runtime activation reboot challenge has not crossed a real boot") in
        validate_reboot_marker_with (rc_marker_nonce c)
      else
        let*? _ := same_binding_or_fail c expected_binding in
        let*? marker := Ret (reboot_marker_path_with (rc_marker_nonce c)) in
        let*? absent := path_is_absent marker in
        let*? _ := bail_if (negb absent) (lit "pre-reboot runtime marker survived the boot boundary") in
        write_new_reboot_challenge_with current_boot (Some current_boot) expected_binding
  end.
End challenge.

Definition prepare_reboot_cleanup_challenge `{Sha256} `{JsonText} `{JsonPrint} (apply_ : bool) (expected_binding : ActivationBindingReport)
  : fsprog (str * N * RebootChallengeReport) :=
  prepare_reboot_cleanup_challenge_with challenge_paths apply_ expected_binding.

Definition verify_reboot_cleanup_challenge `{Sha256} `{JsonText} `{JsonPrint} (binding : VerifiedActivation) : fsprog unit :=
  verify_reboot_cleanup_challenge_with challenge_paths binding.
