(* ===== verification/RebootChallengeRules.v ===== *)
(** * What a passed reboot challenge shows

    A challenge only counts as validated in a boot when a run in that boot read a challenge
    of another boot for the same artifacts and did not find its marker: over any history of
    runs, cut short or not, an activation that passes the challenge has seen a reboot. *)

From S2P Require Import Prelude Effects Text Digest Paths HostFiles WorkBudget Descriptors DescriptorRules HostPaths.
From S2P Require Import HostPathRules Webex Serde JsonCompact CanaryProtocol CanaryRules IsolatedPlan Activation ActivationRules.
From S2P Require Import RebootChallenge.

Local Open Scope N_scope.

(** ** Reading and writing *)

Definition no_write (c : fs_call) : bool := match c with WriteAll _ _ => false | _ => true end.

(** [serde_json] reads back what it wrote, a line feed after it or not. *)
Class JsonLineLaws `{JsonText} `{JsonPrint} : Prop := {
  parse_line : forall v, json_ok v = true -> (json_depth v < 128)%nat -> parse_json (print_json v ++ [10]) = Some v;
  line_scalar : forall v, json_ok v = true -> Forall (fun c => is_scalar c = true) (print_json v)
}.

Lemma looks_no_write {A} (p : prog fs_answer A) : calls_only looks p -> calls_only no_write p.
Proof. intros Hp. eapply calls_only_mono; [exact Hp|]. by intros []. Qed.

#[local] Hint Extern 3 (calls_only no_write (stat_fd _)) => apply looks_no_write, stat_fd_looks : calls_only.
#[local] Hint Extern 3 (calls_only no_write (bail_if _ _)) => apply calls_only_ret : calls_only.

Lemma validate_directory_quiet p mode d owner : calls_only no_write (validate_directory_owner p mode d owner).
Proof. unfold validate_directory_owner, lstat, os. calls_only. Qed.

Lemma path_is_absent_quiet p : calls_only no_write (path_is_absent p).
Proof. unfold path_is_absent, lstat_existing. calls_only. Qed.

Lemma read_private_quiet p max d owner : calls_only no_write (read_private_file p max d owner).
Proof. unfold read_private_file, lstat, open_path, os. calls_only. Qed.

Lemma remove_private_quiet p d owner : calls_only no_write (remove_private_file p d owner).
Proof. unfold remove_private_file, lstat, remove_file, os. calls_only. Qed.

Lemma random_nonce_quiet : calls_only no_write random_nonce.
Proof. unfold random_nonce. calls_only. Qed.

Lemma discard_temporary_quiet p : calls_only no_write (discard_temporary p).
Proof. unfold discard_temporary. calls_only. Qed.

#[export] Hint Resolve validate_directory_quiet path_is_absent_quiet read_private_quiet remove_private_quiet random_nonce_quiet
  discard_temporary_quiet : calls_only.

Definition on_ok {A} (R : list ev -> A -> Prop) (h : list ev) (r : result FsError A) : Prop := match r with Ok a => R h a | Err _ => True end.

(** The file at the path was opened and read to its end. *)
Definition file_read (p : list Component) (how : path_access) (h : list ev) (data : bytes) : Prop :=
  exists f, (Ev (OpenPath p how) (Ok f) : ev) ∈ h /\ (Ev (ReadToEnd f) (Ok data) : ev) ∈ h.

Section guarded_writes.
Context (G : list ev -> fs_call -> Prop) (Hquiet : forall h c, no_write c = true -> G h c).

Lemma wp_quiet {A} (p : prog fs_answer A) h : calls_only no_write p -> wp G p (fun h' _ => extends h h') h.
Proof.
  intros Hp. eapply wp_mono; [exact (wp_and _ _ p _ _ h (wp_calls_only no_write p h Hp) (wp_any p h))| |].
  - intros h' c [Hc _]. by apply Hquiet.
  - by intros h' a [_ ?].
Qed.

(** A part that writes nothing, then the rest from any later trace. *)
Lemma wp_quiet_then {A B} (p : fsprog A) (k : A -> fsprog B) Q h :
  calls_only no_write p -> (forall h' a, extends h h' -> wp G (k a) Q h') -> (forall h' e, extends h h' -> Q h' (Err e)) ->
  wp G (bind_ok p k) Q h.
Proof.
  intros Hp Hk He. rewrite wp_bind_ok. eapply wp_consequence; [by apply wp_quiet|]. intros h' [a|e] Hx; auto.
Qed.

(** A part with a known result, then the rest. *)
Lemma wp_then {A B} (p : fsprog A) (k : A -> fsprog B) (R : list ev -> A -> Prop) Q h :
  wp G p (on_ok R) h -> (forall h' a, extends h h' -> R h' a -> wp G (k a) Q h') -> (forall h' e, extends h h' -> Q h' (Err e)) ->
  wp G (bind_ok p k) Q h.
Proof.
  intros Hp Hk He. rewrite wp_bind_ok. eapply wp_consequence; [exact (wp_extends _ p _ h Hp)|]. intros h' [a|e] [Hx Hr]; auto.
Qed.

Lemma open_wp p how h : wp G (open_path p how) (on_ok (fun h' f => (Ev (OpenPath p how) (Ok f) : ev) ∈ h')) h.
Proof. cbn. split; [by apply Hquiet|]. intros [f|e]; cbn; [left|done]. Qed.

Lemma read_wp f h : wp G (os (perform (ReadToEnd f))) (on_ok (fun h' data => (Ev (ReadToEnd f) (Ok data) : ev) ∈ h')) h.
Proof. cbn. split; [by apply Hquiet|]. intros [data|e]; cbn; [left|done]. Qed.

Lemma absent_wp p h : wp G (path_is_absent p) (on_ok (fun h' absent => absent = true -> (Ev (Lstat p) (Err ENOENT) : ev) ∈ h')) h.
Proof.
  cbn. split; [by apply Hquiet|]. intros [m|errno]; cbn; [done|]. destruct (N.eqb_spec errno ENOENT) as [->|]; cbn; [left|done].
Qed.

(** What [read_private_file] returned was read from the file at the path, to its end. *)
Lemma read_private_wp p max d owner h : wp G (read_private_file p max d owner) (on_ok (file_read p FileNoFollow)) h.
Proof.
  unfold read_private_file. do 2 (apply wp_quiet_then; [unfold lstat, os; calls_only|intros ? ? ?|done]).
  eapply wp_then; [apply open_wp| |done]. intros h1 f _ Hf.
  do 2 (apply wp_quiet_then; [unfold os; calls_only|intros ? ? ?|done]).
  eapply wp_then; [apply read_wp| |done]. intros h2 data X2 Hd.
  rewrite wp_bind_ok. unfold bail_if at 1. cbn [wp]. destruct (max <? len (take_N (max + 1) data)) eqn:El; [done|]. apply N.ltb_ge in El.
  rewrite (take_short _ _ El) in *. cbn [fail_if]. do 5 (apply wp_quiet_then; [unfold lstat, os; calls_only|intros ? ? ?|done]).
  cbn. exists f. split; [|by eapply extends_in; [|exact Hd]; eauto 10 with trace]. eapply extends_in; [|exact Hf]. eauto 20 with trace.
Qed.
End guarded_writes.

(** ** Evidence *)

Section evidence.
Context {sha : Sha256} {text : JsonText} {print : JsonPrint} (paths : RebootChallengePaths).

(** The boot identifier that was read. *)
Definition boot_read (h : list ev) (boot : str) : Prop :=
  boot_id_text boot
  /\ exists data s, file_read (components (cp_boot_id paths)) FileFollow h data /\ from_utf8 data = Some s /\ boot = trim s.

Definition challenge_read (h : list ev) (c : RebootChallenge) : Prop :=
  exists data, file_read (components (cp_challenge paths)) FileNoFollow h data /\ parse_challenge data = Ok c.

Definition marker_gone (h : list ev) (nonce : str) : Prop :=
  exists marker, reboot_marker_path_with paths nonce = Ok marker /\ (Ev (Lstat marker) (Err ENOENT) : ev) ∈ h.

Definition marker_there (h : list ev) (nonce : str) : Prop :=
  exists marker, reboot_marker_path_with paths nonce = Ok marker /\ file_read marker FileNoFollow h REBOOT_MARKER_CONTENTS.

(** A challenge of another boot for the same artifacts, whose marker is gone. *)
Definition crossed (h : list ev) (binding : ActivationBindingReport) (boot : str) : Prop :=
  exists c, challenge_read h c /\ rc_activation_binding c = binding /\ rc_challenge_boot_id c <> boot /\ marker_gone h (rc_marker_nonce c).

(** When a challenge may be written: it names the boot that was read; a validated one only
    after a crossing. *)
Definition justified (h : list ev) (c : RebootChallenge) : Prop :=
  boot_read h (rc_challenge_boot_id c)
  /\ (rc_validated_boot_id c = None
      \/ rc_validated_boot_id c = Some (rc_challenge_boot_id c) /\ crossed h (rc_activation_binding c) (rc_challenge_boot_id c)).

(** The fields of a binding are text. *)
Definition binding_text (b : ActivationBindingReport) : Prop :=
  Forall (fun s => all is_scalar s = true)
    [br_active_manifest_sha256 b; br_runtime_image_sha256 b; br_bot_executable_sha256 b; br_launcher_executable_sha256 b;
     br_runtime_executable_sha256 b; br_codex_version b; br_model b].

Definition challenge_sound (c : RebootChallenge) : Prop :=
  rc_version c = REBOOT_CHALLENGE_VERSION /\ hex64 (rc_marker_nonce c) /\ binding_text (rc_activation_binding c).

(** What is written: the contents of a marker, or a challenge when it is justified. *)
Definition careful (h : list ev) (c : fs_call) : Prop :=
  match c with
  | WriteAll _ data => data = REBOOT_MARKER_CONTENTS \/ exists c, data = challenge_payload c /\ challenge_sound c /\ justified h c
  | _ => True
  end.

Lemma careful_quiet h c : no_write c = true -> careful h c.
Proof. by destruct c. Qed.

Lemma file_read_later p how h h' data : extends h h' -> file_read p how h data -> file_read p how h' data.
Proof. intros Hx (f & H1 & H2). exists f. split; by eapply extends_in. Qed.

Lemma boot_read_later h h' boot : extends h h' -> boot_read h boot -> boot_read h' boot.
Proof. intros Hx (Hb & data & s & Hf & Hr). split; [done|]. exists data, s. split; [by eapply file_read_later|done]. Qed.

Lemma challenge_read_later h h' c : extends h h' -> challenge_read h c -> challenge_read h' c.
Proof. intros Hx (data & Hf & Hr). exists data. split; [by eapply file_read_later|done]. Qed.

Lemma marker_gone_later h h' nonce : extends h h' -> marker_gone h nonce -> marker_gone h' nonce.
Proof. intros Hx (m & Hm & Hr). exists m. split; [done|by eapply extends_in]. Qed.

Lemma marker_there_later h h' nonce : extends h h' -> marker_there h nonce -> marker_there h' nonce.
Proof. intros Hx (m & Hm & Hr). exists m. split; [done|by eapply file_read_later]. Qed.

Lemma crossed_later h h' binding boot : extends h h' -> crossed h binding boot -> crossed h' binding boot.
Proof.
  intros Hx (c & Hc & Hb & Hd & Hm). exists c. split; [by eapply challenge_read_later|]. split; [done|]. split; [done|]. by eapply marker_gone_later.
Qed.

Lemma justified_later h h' c : extends h h' -> justified h c -> justified h' c.
Proof.
  intros Hx [Hb Hv]. split; [by eapply boot_read_later|]. destruct Hv as [?|[? ?]]; [by left|right]. split; [done|]. by eapply crossed_later.
Qed.

#[local] Hint Resolve careful_quiet : core.

Lemma marker_path_ok nonce marker : reboot_marker_path_with paths nonce = Ok marker -> hex64 nonce.
Proof. unfold reboot_marker_path_with. intros [Hn _]%then_ok. apply map_err_ok in Hn. by apply validate_nonce_ok in Hn. Qed.

Lemma read_boot_wp h : wp careful (read_boot_id_with paths) (on_ok boot_read) h.
Proof.
  unfold read_boot_id_with. eapply wp_then; [apply open_wp, careful_quiet| |done]. intros h1 f _ Hf.
  eapply wp_then; [apply read_wp, careful_quiet| |done]. intros h2 data X2 Hd. rewrite wp_bind_ok. cbn [wp].
  destruct (from_utf8 data) as [s|] eqn:Es; cbn [ok_or]; [|done]. rewrite wp_bind_ok. unfold bail_if. cbn [wp].
  destruct (_ || _) eqn:Eb; cbn; [done|]. apply orb_false_iff in Eb as [Hl%negb_false_iff%N.eqb_eq Ha%negb_false_iff].
  split; [done|]. exists data, s. split; [|done]. exists f. split; [by eapply extends_in|done].
Qed.

Lemma read_challenge_wp h :
  wp careful (read_reboot_challenge_with paths) (on_ok (fun h' o => match o with Some c => challenge_read h' c | None => True end)) h.
Proof.
  unfold read_reboot_challenge_with. apply wp_quiet_then; [apply careful_quiet|auto with calls_only| |done]. intros h1 [|] X1; [done|].
  eapply wp_then; [apply read_private_wp, careful_quiet| |done]. intros h2 data X2 Hd. rewrite wp_bind_ok. cbn [wp].
  destruct (parse_challenge data) as [c|e] eqn:Ec; [|done]. cbn. by exists data.
Qed.

Lemma validate_marker_wp nonce h : wp careful (validate_reboot_marker_with paths nonce) (on_ok (fun h' _ => marker_there h' nonce)) h.
Proof.
  unfold validate_reboot_marker_with. rewrite wp_bind_ok. cbn [wp]. destruct (reboot_marker_path_with paths nonce) as [m|e] eqn:Em; [|done].
  eapply wp_then; [apply read_private_wp, careful_quiet| |done]. intros h2 data X2 Hd. cbn. destruct (negb (str_eqb data _)) eqn:E; [done|].
  cbn. apply negb_false_iff, str_eqb_eq in E as ->. by exists m.
Qed.

Lemma write_wp f data h : careful h (WriteAll f data) -> wp careful (os (perform (WriteAll f data))) (fun h' _ => extends h h') h.
Proof. intros Hw. cbn. split; [done|]. intros [[]|]; cbn; eauto with trace. Qed.

Lemma failed_creation_wp {A} p e h : wp careful (failed_file_creation p e : fsprog A) (fun h' _ => extends h h') h.
Proof. cbn. split; [done|]. intros [[]|]; cbn; eauto with trace. Qed.

Lemma create_fixture_wp p data owner h :
  data = REBOOT_MARKER_CONTENTS -> wp careful (create_private_fixture_with_owner p data owner) (fun h' _ => extends h h') h.
Proof.
  intros ->. unfold create_private_fixture_with_owner. rewrite wp_bind_ok. cbn [wp os bind perform]. split; [done|].
  intros [f|e]; cbn [map_err]; [|eauto with trace]. rewrite wp_bind. apply (wp_consequence _ _ (fun h' _ => extends h h')).
  - rewrite wp_bind_ok. eapply wp_consequence; [apply write_wp; by left|]. intros h1 [[]|e] X1; cbn beta in X1; [|by eapply extends_trans; [|exact X1]; apply extends_cons, extends_refl].
    eapply wp_consequence.
    + apply wp_quiet; [apply careful_quiet|]. unfold os, sync_checked, stat_fd. calls_only.
    + intros h2 r X2. cbn beta in *. by eapply extends_trans; [|exact X2]; eapply extends_trans; [|exact X1]; apply extends_cons, extends_refl.
  - intros h1 [[]|e] X1; [done|]. eapply wp_consequence; [apply failed_creation_wp|]. intros h2 ? X2. by eapply extends_trans.
Qed.

Lemma install_wp p parent temporary f c owner h :
  challenge_sound c -> justified h c -> wp careful (install_private p parent temporary f (challenge_payload c) owner) (fun h' _ => extends h h') h.
Proof.
  intros Hc Hj. unfold install_private. rewrite wp_bind_ok. eapply wp_consequence; [apply write_wp; right; by exists c|].
  intros h1 [[]|e] X1; [|done]. eapply wp_consequence; [|intros h2 r X2; eapply extends_trans; [exact X1|exact X2]].
  apply wp_quiet; [apply careful_quiet|]. unfold os, sync_checked, stat_fd, open_path. calls_only.
Qed.

Lemma atomic_write_wp p c owner h :
  challenge_sound c -> justified h c -> wp careful (atomic_write_private p (challenge_payload c) owner) (fun h' _ => extends h h') h.
Proof.
  intros Hc Hj. unfold atomic_write_private. rewrite wp_bind_ok. cbn [wp]. destruct (parent (components p)) as [d|]; cbn [ok_or]; [|apply extends_refl].
  apply wp_quiet_then; [apply careful_quiet|auto with calls_only| |done]. intros h1 [] X1.
  apply wp_quiet_then; [apply careful_quiet|auto with calls_only| |by eauto with trace]. intros h2 absent X2.
  apply wp_quiet_then; [apply careful_quiet|destruct absent; unfold lstat, os; calls_only| |by eauto with trace]. intros h3 [] X3.
  apply wp_quiet_then; [apply careful_quiet|unfold temporary_path; calls_only| |by eauto with trace]. intros h4 t X4.
  rewrite wp_bind_ok. cbn [wp os bind perform]. split; [done|]. assert (extends h h4) as X04 by eauto with trace.
  intros [f|e]; cbn [map_err]; [|eauto with trace]. rewrite wp_bind. eapply wp_consequence.
  - apply install_wp; [done|]. eapply justified_later; [|exact Hj]. by apply extends_cons.
  - intros h5 r5 X5. cbn beta in X5. rewrite wp_bind. eapply wp_consequence; [apply wp_quiet; [apply careful_quiet|auto with calls_only]|].
    intros h6 r6 X6. cbn. eapply extends_trans; [|exact X6]. eapply extends_trans; [|exact X5]. by apply extends_cons.
Qed.

Lemma write_challenge_wp boot validated binding h :
  binding_text binding -> (forall nonce, justified h (mkChallenge REBOOT_CHALLENGE_VERSION boot nonce validated binding)) ->
  wp careful (write_new_reboot_challenge_with paths boot validated binding) (fun h' _ => extends h h') h.
Proof.
  intros Ht Hj. unfold write_new_reboot_challenge_with. apply wp_quiet_then; [apply careful_quiet|auto with calls_only| |done].
  intros h1 nonce X1. rewrite wp_bind_ok. cbn [wp]. destruct (reboot_marker_path_with paths nonce) as [m|e] eqn:Em; [|done].
  apply marker_path_ok in Em. rewrite wp_bind_ok. eapply wp_consequence; [by apply create_fixture_wp|]. intros h2 [[]|e] X2; [|by eauto with trace].
  rewrite wp_bind_ok. unfold bail_if. cbn [wp]. destruct (_ <? _); cbn [fail_if]; [by eauto with trace|]. rewrite wp_bind. eapply wp_consequence.
  - apply atomic_write_wp; [done|]. eapply justified_later; [|apply Hj]. by eauto with trace.
  - intros h3 [[]|e] X3; cbn beta in X3; [by cbn; eauto with trace|]. rewrite wp_bind.
    eapply wp_consequence; [apply wp_quiet; [apply careful_quiet|auto with calls_only]|]. intros h4 r X4. cbn. eauto with trace.
Qed.

(** ** One run *)

(** What a passed verification has seen. *)
Definition verified (binding : VerifiedActivation) (h : list ev) : Prop :=
  exists boot, boot_read h boot
    /\ ((exists c, challenge_read h c /\ rc_activation_binding c = binding_report binding /\ rc_challenge_boot_id c = boot
           /\ rc_validated_boot_id c = Some boot /\ marker_there h (rc_marker_nonce c))
        \/ crossed h (binding_report binding) boot).

Lemma verify_wp binding h :
  binding_text (binding_report binding) -> wp careful (verify_reboot_cleanup_challenge_with paths binding) (on_ok (fun h' _ => verified binding h')) h.
Proof.
  intros Ht. unfold verify_reboot_cleanup_challenge_with. apply wp_quiet_then; [apply careful_quiet|unfold validate_reboot_marker_root; auto with calls_only| |done].
  intros h1 [] X1. eapply wp_then; [apply read_boot_wp| |done]. intros h2 boot X2 Hb.
  eapply wp_then; [apply read_challenge_wp| |done]. intros h3 [c|] X3 Hc.
  - destruct (str_eqb (rc_challenge_boot_id c) boot) eqn:Eb.
    + apply str_eqb_eq in Eb. unfold same_binding_or_fail, bail_if. rewrite wp_bind_ok. cbn [wp].
      destruct (bool_decide _) eqn:Ed; [|done]. apply bool_decide_eq_true in Ed. cbn [negb fail_if]. rewrite wp_bind_ok. cbn [wp].
      destruct (bool_decide (rc_validated_boot_id c = Some boot)) eqn:Ev; [|done]. apply bool_decide_eq_true in Ev. cbn [negb fail_if].
      eapply wp_consequence; [apply wp_extends, validate_marker_wp|]. intros h4 [[]|e] [X4 Hm]; [|done].
      exists boot. split; [eapply boot_read_later; [|exact Hb]; by eauto with trace|]. left. exists c. split_and!; try done.
      by eapply challenge_read_later.
    + apply str_eqb_neq in Eb. unfold same_binding_or_fail, bail_if. rewrite wp_bind_ok. cbn [wp].
      destruct (bool_decide _) eqn:Ed; [|done]. apply bool_decide_eq_true in Ed. cbn [negb fail_if]. rewrite wp_bind_ok. cbn [wp].
      destruct (reboot_marker_path_with paths (rc_marker_nonce c)) as [m|e] eqn:Em; [|done].
      eapply wp_then; [apply absent_wp, careful_quiet| |done]. intros h4 [|] X4 Ha; [|done]. cbn [negb fail_if]. rewrite wp_bind_ok. cbn [wp].
      assert (crossed h4 (binding_report binding) boot) as Hx.
      { exists c. split; [by eapply challenge_read_later|]. split; [done|]. split; [done|]. exists m. split; [done|by apply Ha]. }
      assert (boot_read h4 boot) as Hb4 by (eapply boot_read_later; [|exact Hb]; by eauto with trace).
      eapply wp_consequence; [apply write_challenge_wp; [exact Ht|]; intros nonce; split; [done|by right]|]. intros h5 [[]|e] X5; [|done].
      exists boot. split; [by eapply boot_read_later|]. right. by eapply crossed_later.
  - rewrite wp_bind_ok. eapply wp_consequence; [apply write_challenge_wp; [exact Ht|]; intros nonce; split; [by eapply boot_read_later|by left]|].
    by intros h4 [[]|e] X4.
Qed.

Lemma prepare_wp apply_ binding h :
  binding_text binding -> wp careful (prepare_reboot_cleanup_challenge_with paths apply_ binding) (fun _ _ => True) h.
Proof.
  intros Ht. assert (forall {A} (p : fsprog A) h, calls_only no_write p -> wp careful p (fun _ _ => True) h) as Hq.
  { intros A p h' Hp. eapply wp_consequence; [apply wp_quiet; [apply careful_quiet|exact Hp]|]. done. }
  unfold prepare_reboot_cleanup_challenge_with. apply wp_quiet_then; [apply careful_quiet|unfold validate_reboot_marker_root; auto with calls_only| |done].
  intros h1 [] X1. eapply wp_then; [apply read_boot_wp| |done]. intros h2 boot X2 Hb.
  eapply wp_then; [apply read_challenge_wp| |done]. intros h3 existing X3 Hc. rewrite wp_bind_ok. cbn [wp].
  destruct (classify_reboot_challenge _ _ _) as [state|e]; [|done]. destruct existing as [c|].
  - destruct state; apply Hq; unfold validate_reboot_marker_with; calls_only.
  - destruct apply_; [|done]. unfold arm_reboot_challenge. cbn [negb]. rewrite wp_bind_ok.
    eapply wp_consequence; [apply write_challenge_wp; [exact Ht|]; intros nonce; split; [by eapply boot_read_later|by left]|]. intros h4 [[]|e] X4; [|done].
    apply Hq. unfold read_reboot_challenge_with, validate_reboot_marker_with. calls_only.
Qed.

(** ** Histories *)

(** A run of the verification or of the preparation, which may stop at any call. *)
Inductive challenge_run (h : list ev) : Prop :=
| run_verify binding env : binding_text (binding_report binding) ->
    extends h (exec env [] (verify_reboot_cleanup_challenge_with paths binding)).1 -> challenge_run h
| run_prepare apply_ binding env : binding_text binding ->
    extends h (exec env [] (prepare_reboot_cleanup_challenge_with paths apply_ binding)).1 -> challenge_run h.

(** Something other than a marker was written. *)
Definition wrote_challenge (h : list ev) (data : bytes) : Prop :=
  data <> REBOOT_MARKER_CONTENTS /\ exists f r, (Ev (WriteAll f data) r : ev) ∈ h.

(** Runs that only find challenges at the path which one of them wrote. *)
Definition closed_history (runs : list (list ev)) : Prop :=
  Forall challenge_run runs
  /\ forall h data, h ∈ runs -> file_read (components (cp_challenge paths)) FileNoFollow h data -> exists h', h' ∈ runs /\ wrote_challenge h' data.

Lemma run_careful h : challenge_run h -> guarded careful h.
Proof.
  intros [binding env Ht Hx|apply_ binding env Ht Hx]; (eapply guarded_extends; [exact Hx|]).
  - by apply (wp_exec _ _ _ env [] (verify_wp binding [] Ht)).
  - by apply (wp_exec _ _ _ env [] (prepare_wp apply_ binding [] Ht)).
Qed.

(** *** A challenge is read back as it was written *)

Lemma utf8_char_ascii c : Forall (fun b => b < 128) (utf8_char c) -> c < 128.
Proof.
  unfold utf8_char. destruct (N.ltb_spec c 128); [done|]. destruct (c <? 2048); [|destruct (c <? 65536)]; intros [? _]%Forall_cons; lia.
Qed.

Lemma indexed_ascii index l : all_indexed boot_id_byte index l = true -> Forall (fun b => b < 128) l.
Proof.
  revert index. induction l as [|b l IH]; intros index; cbn; [done|]. intros [Hb Hl]%andb_true_iff. constructor; [|by eapply IH].
  unfold boot_id_byte, is_ascii_hexdigit, is_ascii_digit in Hb. change (ch "-") with 45 in Hb. destruct (one_of _ _); lia.
Qed.

Lemma boot_id_scalar s : boot_id_text s -> all is_scalar s = true.
Proof.
  intros [_ Hi%indexed_ascii]. apply all_true. unfold as_bytes in Hi. induction s as [|c s IH]; [constructor|].
  cbn [map concat] in Hi. apply Forall_app in Hi as [Hc%utf8_char_ascii Hs]. constructor; [unfold is_scalar; lia|auto].
Qed.

Lemma struct_fields_with_json optional names values :
  NoDup names -> length names = length values -> struct_fields_with optional names (struct_json names values) = Some values.
Proof.
  intros Hn Hl. pose proof (struct_fields_json names values Hn Hl) as Hs. unfold struct_fields, struct_fields_with, struct_json in *.
  destruct (known_fields _ _); [|done]. revert Hs. generalize (zip names values) as fields. intros fields. clear Hn Hl. revert values.
  induction names as [|name names IH]; intros values; cbn; [done|].
  destruct (required_field fields name) as [v|] eqn:Ev; cbn; [|done]. destruct (mapM _ names) as [vs|] eqn:Em; cbn; [|done].
  intros [= <-]. rewrite (IH vs) by done. unfold field_or_null. unfold required_field in Ev. destruct (unique_field _ _) as [[?|]|]; by inversion Ev.
Qed.

Lemma decode_challenge_json c : rc_version c <= 65535 -> decode_challenge (challenge_json c) = Some c.
Proof.
  intros Hv. unfold decode_challenge, challenge_json.
  rewrite struct_fields_with_json by first [done | by apply (bool_decide_unpack _); vm_compute].
  cbn [mbind option_bind]. rewrite json_unsigned_decimal by done. cbn [mbind option_bind json_string json_as_str].
  assert (json_opt_string (opt_string_json (rc_validated_boot_id c)) = Some (rc_validated_boot_id c)) as -> by by destruct (rc_validated_boot_id c).
  cbn [mbind option_bind]. unfold decode_binding, binding_json.
  rewrite struct_fields_json by first [done | by apply (bool_decide_unpack _); vm_compute]. cbn. destruct c as [v b n o [x1 x2 x3 x4 x5 x6 x7]]. done.
Qed.

Lemma lower_hex_text (s : str) : hex64 s -> all is_scalar s = true.
Proof. intros [_ Hs]. apply all_true, ascii_scalar. eapply Forall_impl; [exact Hs|]. apply lower_hex_ascii. Qed.

Lemma challenge_json_ok c h : challenge_sound c -> justified h c -> json_ok (challenge_json c) = true.
Proof.
  intros (Hv & Hn & Hb) [[Hboot _] Hj]. apply boot_id_scalar in Hboot. apply lower_hex_text in Hn.
  unfold binding_text in Hb. rewrite !Forall_cons in Hb. destruct Hb as (? & ? & ? & ? & ? & ? & ? & _).
  apply struct_json_ok; [done|]. unfold all. cbn [forallb]. rewrite json_ok_decimal by (rewrite Hv; unfold u64_max; vm_compute; congruence).
  rewrite !string_json_ok by done. assert (json_ok (opt_string_json (rc_validated_boot_id c)) = true) as -> by (by destruct Hj as [->|[-> _]]).
  rewrite andb_true_r. cbn [andb]. apply struct_json_ok; [done|]. unfold all. cbn [forallb]. by rewrite !string_json_ok by done.
Qed.

Lemma challenge_depth c : (json_depth (challenge_json c) < 128)%nat.
Proof. unfold challenge_json, binding_json, struct_json. destruct (rc_validated_boot_id c); cbn [json_depth zip zip_with foldr snd opt_string_json]; vm_compute; lia. Qed.

Lemma payload_parsed `{!JsonLineLaws} c h c' :
  challenge_sound c -> justified h c -> parse_challenge (challenge_payload c) = Ok c' -> c' = c.
Proof.
  intros Hc Hj. unfold parse_challenge, challenge_payload, json_to_vec, json_from_slice.
  pose proof (challenge_json_ok c h Hc Hj) as Hok. rewrite as_bytes_newline, from_utf8_as_bytes.
  - cbn [mbind option_bind]. rewrite parse_line by (done || apply challenge_depth). cbn [mbind option_bind].
    rewrite decode_challenge_json by (rewrite (proj1 Hc); vm_compute; congruence). by intros [_ [= ->]]%then_ok.
  - apply Forall_app_2; [by apply line_scalar|by repeat constructor].
Qed.

(** A challenge found at the path was justified in the run that wrote it. *)
Lemma found_justified `{!JsonLineLaws} runs h c :
  closed_history runs -> h ∈ runs -> challenge_read h c -> exists h', h' ∈ runs /\ justified h' c.
Proof.
  intros [Hruns Hclosed] Hh (data & Hf & Hp). destruct (Hclosed _ _ Hh Hf) as (h' & Hh' & Hn & f & r & Hw).
  exists h'. split; [done|]. rewrite Forall_forall in Hruns. pose proof (run_careful h' (Hruns h' Hh')) as Hg.
  destruct (guarded_in _ _ _ Hg Hw) as (h0 & Hx & [?|(c' & -> & Hc & Hj)]); [done|].
  rewrite (payload_parsed c' h0 c Hc Hj Hp). eapply justified_later; [|exact Hj]. eapply extends_trans; [|exact Hx]. apply extends_cons, extends_refl.
Qed.

(** A challenge of another boot than the one just read was seen, for the artifacts, with its
    marker gone; the run that wrote it had read that other boot. *)
Definition reboot_seen (runs : list (list ev)) (binding : ActivationBindingReport) (boot : str) : Prop :=
  exists before after c, before ∈ runs /\ after ∈ runs /\ rc_activation_binding c = binding /\ rc_challenge_boot_id c <> boot
    /\ boot_read before (rc_challenge_boot_id c) /\ boot_read after boot
    /\ challenge_read after c /\ marker_gone after (rc_marker_nonce c).

Lemma crossed_seen `{!JsonLineLaws} runs h binding boot :
  closed_history runs -> h ∈ runs -> boot_read h boot -> crossed h binding boot -> reboot_seen runs binding boot.
Proof.
  intros Hr Hh Hb (c & Hc & Hbi & Hd & Hm). destruct (found_justified runs h c Hr Hh Hc) as (h' & Hh' & Hj).
  exists h', h, c. split_and!; try done. by apply Hj.
Qed.

End evidence.

(** ** Example *)

(** A host with a boot identifier and perhaps a challenge; markers are there when the run made
    them. *)
Fixpoint installed (initial : option bytes) (h : list ev) : option bytes :=
  match h with
  | [] => initial
  | Ev c _ :: h => match c with RenamePath _ _ => Some (written_last h) | _ => installed initial h end
  end.

Fixpoint created_as (h : list ev) (p : list Component) : option fd :=
  match h with
  | [] => None
  | e :: h => match ev_call e with CreatePath p' _ => if bool_decide (p' = p) then opens e else created_as h p | _ => created_as h p end
  end.

Definition boot_file (boot : str) (initial : option bytes) (h : list ev) (p : list Component) : option bytes :=
  if bool_decide (p = components BOOT_ID_PATH) then Some (boot ++ [10])
  else if bool_decide (p = components REBOOT_CHALLENGE_PATH) then installed initial h
  else (fun f => contents f h) <$> created_as h p.

Definition private_directory : StatSnapshot := mkStat 1 2 (S_IFDIR + 448) 2 0 0 0 0 0 0 0.

Definition boot_host (boot : str) (initial : option bytes) : environment fs_answer :=
  fun h c =>
    match c return fs_answer c with
    | Lstat p =>
        if bool_decide (Some p = parent (components REBOOT_CHALLENGE_PATH) \/ p = components RUNTIME_CANARY_HOST_UNIX_FIXTURE_ROOT)
        then Ok private_directory
        else match boot_file boot initial h p with Some data => Ok (sample_stat data 384) | None => Err ENOENT end
    | OpenPath _ _ | CreatePath _ _ => Ok (len h)
    | Fstat f => Ok (sample_stat (default [] (boot_file boot initial h (opened_path h f))) 384)
    | ReadToEnd f => Ok (default [] (boot_file boot initial h (opened_path h f)))
    | WriteAll _ _ | Fsync _ | RemoveFile _ | RenamePath _ _ => Ok tt
    | RandomBytes => Some (repeat 171 32)
    | c => refused c
    end.

Definition line_print : JsonPrint := print_compact.

Definition next_boot : str := lit "fedcba98-89ab-cdef-0123-456789abcdef".

#[local] Abbreviation sample_challenge_run boot initial :=
  (exec (boot_host boot initial) [] (@verify_reboot_cleanup_challenge_with line_text line_print challenge_paths (activation_of sample_receipt))).

Definition sample_challenge : bytes := Eval vm_compute in default [] (installed None (sample_challenge_run sample_boot None).1).

Example first_boot_refused :
  (sample_challenge_run sample_boot None).2 = Err (Bail (lit "runtime activation requires one real reboot to validate cleanup")).
Proof. vm_compute. reflexivity. Qed.

Example same_boot_refused : exists e, (sample_challenge_run sample_boot (Some sample_challenge)).2 = Err e.
Proof. eexists. vm_compute. reflexivity. Qed.

Example next_boot_passes : (sample_challenge_run next_boot (Some sample_challenge)).2 = Ok tt.
Proof. vm_compute. reflexivity. Qed.

Definition ends_read (f : fd) (e : ev) : option bytes :=
  match e with Ev c a => match c return fs_answer c -> option bytes with
    | ReadToEnd f' => fun a => match a with Ok data => if f' =? f then Some data else None | Err _ => None end
    | _ => fun _ => None
    end a end.

#[local] Instance path_access_eq_dec : EqDecision path_access.
Proof. solve_decision. Defined.

Definition opens_at (p : list Component) (how : path_access) (e : ev) : option fd :=
  match e with Ev c a => match c return fs_answer c -> option fd with
    | OpenPath p' how' => fun a => if bool_decide (p' = p /\ how' = how) then match a with Ok f => Some f | Err _ => None end else None
    | _ => fun _ => None
    end a end.

Definition files_read (p : list Component) (how : path_access) (h : list ev) : list bytes :=
  f ← omap (opens_at p how) h; omap (ends_read f) h.

Definition writes (h : list ev) : list bytes := omap (fun e => match ev_call e with WriteAll _ data => Some data | _ => None end) h.

Lemma file_read_listed p how h data : file_read p how h data -> data ∈ files_read p how h.
Proof.
  intros (f & Ho & Hr). apply list_elem_of_bind. exists f. split; apply list_elem_of_omap.
  - exists (Ev (ReadToEnd f) (Ok data) : ev). split; [done|]. cbn. by rewrite N.eqb_refl.
  - exists (Ev (OpenPath p how) (Ok f) : ev). split; [done|]. cbn. by rewrite bool_decide_eq_true_2.
Qed.

Lemma writes_listed h data : data ∈ writes h -> data <> REBOOT_MARKER_CONTENTS -> wrote_challenge h data.
Proof.
  intros ([c a] & He & Hd)%list_elem_of_omap Hn. split; [done|]. destruct c; try done. injection Hd as ->. eauto.
Qed.

Lemma history_closed `{JsonText} `{JsonPrint} paths runs :
  Forall (challenge_run paths) runs ->
  bool_decide (Forall (fun h => Forall (fun data => Exists (fun h' => data ∈ writes h' /\ data <> REBOOT_MARKER_CONTENTS) runs)
    (files_read (components (cp_challenge paths)) FileNoFollow h)) runs) = true ->
  closed_history paths runs.
Proof.
  intros Hruns Hc%bool_decide_eq_true. split; [done|]. intros h data Hh Hf%file_read_listed.
  rewrite Forall_forall in Hc. specialize (Hc h Hh). rewrite Forall_forall in Hc.
  destruct (proj1 (Exists_exists _ _) (Hc data Hf)) as (h' & Hh' & Hw & Hn). exists h'. split; [done|]. by apply writes_listed.
Qed.

Lemma line_line_laws : @JsonLineLaws line_text line_print.
Proof. split; [apply line_laws|]. intros v Hv. by apply (@pretty_scalar line_text line_pretty line_laws). Qed.


(** When the directory cannot be synced the challenge is already installed, yet its marker is
    removed: the next boot takes the missing marker for a cleaned one. *)
Definition failing_sync_host (boot : str) (initial : option bytes) : environment fs_answer :=
  fun h c =>
    match c return fs_answer c with
    | Fsync f => if bool_decide (Some (opened_path h f) = parent (components REBOOT_CHALLENGE_PATH)) then Err 5 else Ok tt
    | c => boot_host boot initial h c
    end.

Definition removed_marker (h : list ev) : bool :=
  match h with e :: _ => match ev_call e with RemoveFile p => bool_decide (is_Some (created_as h p)) | _ => false end | [] => false end.

Example marker_lost_with_failed_sync :
  let r := exec (failing_sync_host sample_boot None) []
             (@verify_reboot_cleanup_challenge_with line_text line_print challenge_paths (activation_of sample_receipt)) in
  r.2 = Err (Os 5) /\ installed None r.1 = Some sample_challenge /\ removed_marker r.1 = true.
Proof. split_and!; vm_compute; reflexivity. Qed.
