(* ===== verification/TreeCopy.v ===== *)
(** * Copying a directory tree between descriptors

    [copy_directory], [copy_file] and the two loops over a file's contents appear twice in
    the program, in [src/runner_input.rs] and [src/input_sealer.rs], with the same structure
    and different checks. The structure is here; a [CopyPolicy] holds what differs. *)

From S2P Require Import Prelude Effects Text Paths WorkBudget Digest Descriptors.

Local Open Scope N_scope.

Definition WORKSPACE_ENTRY_MAX : N := 8192.
Definition WORKSPACE_DEPTH_MAX : N := 32.
Definition WORKSPACE_TOTAL_BYTES_MAX : N := 2112 * 1024 * 1024.
Definition COPY_BUFFER_BYTES : N := 1024 * 1024.

Record Limits : Type := mkLimits { lim_entries : N; lim_depth : N; lim_bytes : N; lim_deadline : option WorkBudget }.

Definition default_limits (deadline : option WorkBudget) : Limits :=
  mkLimits WORKSPACE_ENTRY_MAX WORKSPACE_DEPTH_MAX WORKSPACE_TOTAL_BYTES_MAX deadline.

(** The counters of [CopyState]; the rest of it does not change during a copy. *)
Record CopyState : Type := mkCopyState { cs_entries : N; cs_bytes : N }.

(** What the two copies check and set. [check_directory] sees the opened source directory and
    its metadata, [check_child] and [check_file] the metadata of an entry before it is opened,
    [check_source] the opened source file; the other programs prepare and finish what was
    created in the target, [finish_directory] and [finish_file] given the metadata of the
    source entry. *)
Record CopyPolicy : Type := mkCopyPolicy {
  subject : str;
  work_operation : str;
  copy_operation : str;
  verify_operation : str;
  invalid_size : str;
  private_directory_mode : N;
  target_readable : bool;
  check_directory : fd -> StatSnapshot -> fsprog unit;
  check_child : StatSnapshot -> result FsError unit;
  check_file : StatSnapshot -> result FsError unit;
  check_source : fd -> fsprog unit;
  prepare_directory : fd -> fsprog unit;
  finish_directory : fd -> fd -> StatSnapshot -> fsprog unit;
  prepare_file : fd -> fsprog unit;
  finish_file : fd -> StatSnapshot -> fsprog unit
}.

Section copy.
Context `{Sha256} (pol : CopyPolicy) (limits : Limits).

#[local] Abbreviation says message := (subject pol ++ lit message).

(** ** File contents *)

Definition reject_source_growth (source : fd) : fsprog unit :=
  let*? probe := os (perform (ReadFd source 1)) in
  bail_if (negb (is_empty probe)) (says " file size changed during copy").

(** The loop of [copy_exact_with_digest] and [hash_exact_source]: [write] is what is done with
    a chunk. A read returns at most what was asked for; every chunk makes [remaining]
    smaller, so [fuel > remaining] is enough. *)
Fixpoint read_exact (fuel : nat) (operation changed : str) (source : fd) (write : bytes -> fsprog unit)
    (remaining : N) (contents : bytes) : fsprog bytes :=
  if remaining =? 0 then Ret (Ok contents)
  else
    match fuel with
    | O => fail Exhausted
    | S fuel =>
        let*? _ := check_deadline (lim_deadline limits) operation in
        let limit := N.min remaining COPY_BUFFER_BYTES in
        let*? answer := os (perform (ReadFd source limit)) in
        let chunk := take_N limit answer in
        if is_empty chunk then bail changed
        else
          let*? _ := write chunk in
          read_exact fuel operation changed source write (remaining - len chunk) (contents ++ chunk)
    end.

Definition read_fuel (size : N) : nat := S (N.to_nat size).

Definition copy_exact_with_digest (source target : fd) (size : N) : fsprog bytes :=
  let*? contents := read_exact (read_fuel size) (copy_operation pol) (says " file size changed during copy") source
                      (fun chunk => os (perform (WriteAll target chunk))) size [] in
  let*? _ := reject_source_growth source in
  Ret (Ok (sha256 contents)).

Definition hash_exact_source (source : fd) (size : N) : fsprog bytes :=
  let*? contents := read_exact (read_fuel size) (verify_operation pol) (says " file size changed during verification") source
                      (fun _ => Ret (Ok tt)) size [] in
  let*? _ := reject_source_growth source in
  Ret (Ok (sha256 contents)).

(** ** Files *)

(** [u64::try_from(size)], [checked_add] and the limit. *)
Definition count_bytes (size : Z) (state : CopyState) : result FsError (N * CopyState) :=
  fail_if (size <? 0)%Z (Bail (says " file" ++ invalid_size pol)) ;?
  let size := Z.to_N size in
  let total := cs_bytes state + size in
  fail_if (u64_max <? total) (Bail (says " size overflowed")) ;?
  fail_if (lim_bytes limits <? total) (Bail (says " exceeds its size limit")) ;?
  Ok (size, mkCopyState (cs_entries state) total).

Definition PRIVATE_FILE_MODE : N := 384.

Definition copy_file (source_directory target_directory : fd) (name : bytes) (entry : StatSnapshot) (state : CopyState)
  : fsprog CopyState :=
  let*? _ := check_deadline (lim_deadline limits) (work_operation pol) in
  let*? _ := Ret (check_file pol entry) in
  let*? source := open_source_file source_directory name in
  let*? opened := stat_fd source in
  let*? _ := bail_if (negb (bool_decide (opened = entry))) (says " file changed before copy") in
  let*? _ := check_source pol source in
  let*? (size, state) := Ret (count_bytes (st_size entry) state) in
  let*? target := os (perform (CreateAt target_directory name (target_readable pol) PRIVATE_FILE_MODE)) in
  let*? _ := prepare_file pol target in
  let*? first_digest := copy_exact_with_digest source target size in
  let*? _ := os (perform (Rewind source)) in
  let*? second_digest := hash_exact_source source size in
  let*? _ := bail_if (negb (bool_decide (first_digest = second_digest))) (says " file contents changed during copy") in
  let*? again := stat_fd source in
  let*? _ := bail_if (negb (bool_decide (again = entry))) (says " file metadata changed during copy") in
  let*? named := stat_at source_directory name in
  let*? _ := bail_if (negb (bool_decide (named = entry))) (says " file metadata changed during copy") in
  let*? _ := finish_file pol target entry in
  Ret (Ok state).

(** ** Directories *)

Definition count_entry (state : CopyState) : result FsError CopyState :=
  let entries := cs_entries state + 1 in
  fail_if (u64_max <? entries) (Bail (says " entry count overflowed")) ;?
  fail_if (lim_entries limits <? entries) (Bail (says " has too many entries")) ;?
  Ok (mkCopyState entries (cs_bytes state)).

(** One entry, with the copy of a subdirectory as an argument. *)
Definition copy_entry (copy_child : fd -> fd -> CopyState -> fsprog CopyState) (source target : fd) (name : bytes)
    (state : CopyState) : fsprog CopyState :=
  let*? _ := check_deadline (lim_deadline limits) (work_operation pol) in
  let*? state := Ret (count_entry state) in
  let*? _ := bail_if (forbidden_name name) (says " contains a forbidden control name") in
  let*? name := c_string name in
  let*? entry := stat_at source name in
  if file_type entry =? S_IFDIR then
    let*? _ := Ret (check_child pol entry) in
    let*? source_child := open_directory_at source name true in
    let*? opened := stat_fd source_child in
    let*? _ := bail_if (negb (bool_decide (opened = entry))) (says " directory changed before copy") in
    let*? _ := mkdir_at target name (private_directory_mode pol) in
    let*? target_child := open_directory_at target name true in
    let*? _ := prepare_directory pol target_child in
    let*? state := copy_child source_child target_child state in
    let*? _ := finish_directory pol source_child target_child entry in
    Ret (Ok state)
  else if file_type entry =? S_IFREG then copy_file source target name entry state
  else if file_type entry =? S_IFLNK then bail (says " contains a symbolic link")
  else bail (says " contains a special file").

Fixpoint copy_entries (copy_child : fd -> fd -> CopyState -> fsprog CopyState) (source target : fd) (names : list bytes)
    (state : CopyState) : fsprog CopyState :=
  match names with
  | [] => Ret (Ok state)
  | name :: names =>
      let*? state := copy_entry copy_child source target name state in
      copy_entries copy_child source target names state
  end.

(** [copy_directory] at the depth [limits.depth + 1 - levels]: no levels are left exactly when
    the depth is beyond its limit. *)
Fixpoint copy_directory (levels : nat) (source target : fd) (state : CopyState) : fsprog CopyState :=
  let*? _ := check_deadline (lim_deadline limits) (work_operation pol) in
  match levels with
  | O => bail (says " nesting exceeds its limit")
  | S levels =>
      let*? before := stat_fd source in
      let*? _ := check_directory pol source before in
      let*? names := list_directory (subject pol) source (lim_entries limits - cs_entries state) in
      let*? state := copy_entries (copy_directory levels) source target names state in
      let*? after := stat_fd source in
      let*? _ := bail_if (negb (bool_decide (after = before))) (says " directory metadata changed during copy") in
      Ret (Ok state)
  end.

Definition root_levels : nat := S (N.to_nat (lim_depth limits)).
End copy.

(** The re-check of a copied source directory, which both policies make. *)
Definition recheck_directory (pol_subject : str) (source_child : fd) (entry : StatSnapshot) : fsprog unit :=
  let*? opened := stat_fd source_child in
  bail_if (negb (bool_decide (opened = entry))) (pol_subject ++ lit " directory changed during copy").
