(* ===== verification/TreeCopyRules.v ===== *)
(** * What a copied tree is

    For any host, on success: every name that was listed has been copied under the same name,
    every file holds what was read from the file it was opened for, read twice with one
    digest while its metadata stayed the same, and every file and directory was finished as
    the policy demands. *)

From S2P Require Import Prelude Effects Text Digest Paths WorkBudget Descriptors DescriptorRules TreeCopy.

Local Open Scope N_scope.

Abbreviation ev := (event fs_answer) (only parsing).

(** ** Laws of a policy *)

(** A descriptor whose last calls set a mode and synced it, seen with metadata that fit and
    without access control lists. *)
Definition finished (mode : N) (fits : StatSnapshot -> bool) (h : list ev) (f : fd) : Prop :=
  (exists rest, about f h = Ev (Fsync f) (Ok tt) :: Ev (Fchmod f mode) (Ok tt) :: rest)
  /\ (exists m, (Ev (Fstat f) (Ok m) : ev) ∈ h /\ fits m = true)
  /\ no_acl h f.

Class CopyLaws (pol : CopyPolicy) : Type := {
  final_file_mode : N;
  final_directory_mode : N;
  fits_file : StatSnapshot -> StatSnapshot -> bool;
  fits_directory : StatSnapshot -> bool;
  check_directory_looks : forall s m, calls_only looks (check_directory pol s m);
  check_source_looks : forall s, calls_only looks (check_source pol s);
  prepare_directory_tends : forall d, calls_only (tends d) (prepare_directory pol d);
  finish_directory_tends : forall s d m, calls_only (tends d) (finish_directory pol s d m);
  prepare_file_tends : forall f, calls_only (tends f) (prepare_file pol f);
  finish_file_tends : forall f m, calls_only (tends f) (finish_file pol f m);
  finish_directory_ok : forall env h h' s d m,
    exec env h (finish_directory pol s d m) = (h', Ok tt) -> finished final_directory_mode fits_directory h' d;
  finish_file_ok : forall env h h' f m,
    exec env h (finish_file pol f m) = (h', Ok tt) -> finished final_file_mode (fits_file m) h' f
}.

Section rules.
Context `{Sha256} (pol : CopyPolicy) `{CopyLaws pol} (limits : Limits).

(** ** Copied files and directories

    [old] are descriptors the copy did not open: it says nothing about them. *)

(** The file [target] of directory [td] is a finished copy of the file of that name in [sd]. *)
Definition copied_file (old : list fd) (h : list ev) (sd td : fd) (name : bytes) (target : fd) : Prop :=
  exists source entry data again,
    (Ev (OpenAt sd name SourceFile) (Ok source) : ev) ∈ h
    /\ (Ev (CreateAt td name (target_readable pol) PRIVATE_FILE_MODE) (Ok target) : ev) ∈ h
    /\ (Ev (Fstat source) (Ok entry) : ev) ∈ h
    /\ file_type entry = S_IFREG /\ check_file pol entry = Ok tt
    /\ contents target h = data /\ received source h = data ++ again
    /\ Z.of_N (len data) = st_size entry /\ len again = len data /\ sha256 again = sha256 data
    /\ finished final_file_mode (fits_file entry) h target
    /\ (source ∈ opened h /\ ~ source ∈ old) /\ (target ∈ opened h /\ ~ target ∈ old).

Definition listed_names (h : list ev) (sd : fd) (names : list bytes) : Prop :=
  exists l limit, (Ev (ListDirectory sd) (Ok l) : ev) ∈ h /\ listed (subject pol) limit l = Ok names.

(** A finished directory [name] of [td], to which one of [sd] was copied as [tree] says. *)
Definition copied_directory (tree : fd -> fd -> Prop) (old : list fd) (h : list ev) (sd td : fd) (name : bytes) : Prop :=
  exists source_child target_child,
    (Ev (OpenAt sd name Readable) (Ok source_child) : ev) ∈ h
    /\ (Ev (MkdirAt td name (private_directory_mode pol)) (Ok tt) : ev) ∈ h
    /\ (Ev (OpenAt td name Readable) (Ok target_child) : ev) ∈ h
    /\ finished final_directory_mode fits_directory h target_child
    /\ (target_child ∈ opened h /\ ~ target_child ∈ old)
    /\ tree source_child target_child.

Fixpoint copied_tree (levels : nat) (old : list fd) (h : list ev) (sd td : fd) : Prop :=
  match levels with
  | O => False
  | S levels =>
      exists names, listed_names h sd names
      /\ forall name, name ∈ names -> forbidden_name name = false /\
           ((exists target, copied_file old h sd td name target)
            \/ copied_directory (copied_tree levels old h) old h sd td name)
  end.

(** Nothing else was created between [h] and [h']. *)
Definition all_copied (h h' : list ev) : Prop :=
  exists t, h' = t ++ h
  /\ (forall td name readable mode target, (Ev (CreateAt td name readable mode) (Ok target) : ev) ∈ t ->
        forbidden_name name = false /\ exists sd, copied_file (opened h) h' sd td name target)
  /\ (forall td name mode, (Ev (MkdirAt td name mode) (Ok tt) : ev) ∈ t ->
        forbidden_name name = false /\ exists sd levels, copied_directory (copied_tree levels (opened h) h') (opened h) h' sd td name).

(** ** What is known stays known *)

Lemma finished_stable mode fits fs h h' f :
  finished mode fits h f -> confined subject_fd fs h h' -> sound h' -> f ∈ opened h -> ~ f ∈ fs -> finished mode fits h' f.
Proof.
  intros (Ha & (m & Hm & Hf) & Hn) Hc Hs Ho Hfs. pose proof (confined_extends _ _ _ _ Hc) as Hx. split; [|split].
  - by rewrite (confined_about fs h h' f).
  - exists m. split; [by eapply extends_in|done].
  - intros a. destruct (Hn a) as (errno & He & ?). exists errno. split; [by eapply extends_in|done].
Qed.

Section stable.
Context (fs old old' : list fd) (h h' : list ev).
Hypothesis Hc : confined subject_fd fs h h'.
Hypothesis Hs : sound h'.
Hypothesis Hfs : forall f, f ∈ fs -> f ∈ old.
Hypothesis Hold : forall f, f ∈ old' -> f ∈ old.

Lemma stable_new f : f ∈ opened h /\ ~ f ∈ old -> f ∈ opened h' /\ ~ f ∈ old'.
Proof. intros [Ho Hn]. split; [eapply opened_extends; [by eapply confined_extends|done]|]. intros Hf. by apply Hn, Hold. Qed.

Lemma copied_file_stable sd td name target : copied_file old h sd td name target -> copied_file old' h' sd td name target.
Proof.
  intros (source & entry & data & again & H1 & H2 & H3 & H4 & H5 & H6 & H7 & H8 & H9 & H10 & H11 & H12 & H13).
  pose proof (confined_extends _ _ _ _ Hc) as Hx. exists source, entry, data, again.
  assert (forall f, f ∈ opened h /\ ~ f ∈ old -> about f h' = about f h) as Ha.
  { intros f [Ho Hn]. apply (confined_about fs); [done..|]. intros Hf. by apply Hn, Hfs. }
  unfold contents, received in *. rewrite !Ha by done. destruct (stable_new source H12) as [? ?], (stable_new target H13) as [? ?].
  split_and!; eauto using extends_in. destruct H13 as [Ho Hn]. eapply finished_stable; [done..|]. intros Hf. by apply Hn, Hfs.
Qed.

Lemma copied_directory_stable (tree tree' : fd -> fd -> Prop) sd td name :
  (forall a b, tree a b -> tree' a b) -> copied_directory tree old h sd td name -> copied_directory tree' old' h' sd td name.
Proof.
  intros Ht (sc & tc & H1 & H2 & H3 & H4 & H5 & H6). pose proof (confined_extends _ _ _ _ Hc) as Hx. exists sc, tc.
  destruct (stable_new tc H5) as [? ?]. split_and!; eauto using extends_in.
  destruct H5 as [Ho Hn]. eapply finished_stable; [done..|]. intros Hf. by apply Hn, Hfs.
Qed.

Lemma copied_tree_stable levels sd td : copied_tree levels old h sd td -> copied_tree levels old' h' sd td.
Proof.
  revert sd td. induction levels as [|levels IH]; intros sd td; [done|]. cbn. intros (names & (l & limit & Hl & ?) & Hn).
  pose proof (confined_extends _ _ _ _ Hc) as Hx. exists names. split; [exists l, limit; split; [by eapply extends_in|done]|].
  intros name Hin. destruct (Hn name Hin) as [Hf [(target & Ht)|Hd]]; (split; [done|]).
  - left. exists target. by apply copied_file_stable.
  - right. by eapply copied_directory_stable.
Qed.
End stable.

Lemma all_copied_trans fs h1 h2 h3 :
  all_copied h1 h2 -> all_copied h2 h3 -> confined subject_fd fs h2 h3 -> sound h3 -> (forall f, f ∈ fs -> f ∈ opened h1) -> all_copied h1 h3.
Proof.
  intros (t1 & E1 & Hf1 & Hd1) (t2 & E2 & Hf2 & Hd2) Hc Hs Hfs.
  assert (forall f, f ∈ opened h1 -> f ∈ opened h2) as H12 by (intros f; apply opened_extends; by exists t1).
  exists (t2 ++ t1). split; [by rewrite E2, E1, app_assoc|]. split.
  - intros td name readable mode target [He|He]%elem_of_app.
    + destruct (Hf2 _ _ _ _ _ He) as (? & sd & Hcf). split; [done|]. exists sd.
      by eapply (copied_file_stable [] (opened h2)); [apply confined_refl|done|intros ? ?%not_elem_of_nil| |].
    + destruct (Hf1 _ _ _ _ _ He) as (? & sd & Hcf). split; [done|]. exists sd. by eapply copied_file_stable.
  - intros td name mode [He|He]%elem_of_app.
    + destruct (Hd2 _ _ _ He) as (? & sd & levels & Hcd). split; [done|]. exists sd, levels.
      eapply (copied_directory_stable [] (opened h2)); [apply confined_refl|done|by intros ? ?%not_elem_of_nil|done| |exact Hcd].
      intros a b. apply (copied_tree_stable []); [apply confined_refl|done|by intros ? ?%not_elem_of_nil|done].
    + destruct (Hd1 _ _ _ He) as (? & sd & levels & Hcd). split; [done|]. exists sd, levels.
      eapply copied_directory_stable; [done..| |exact Hcd]. intros a b. by eapply copied_tree_stable.
Qed.

(** A piece of a trace that creates nothing. *)
Definition creates (c : fs_call) : bool := match c with CreateAt _ _ _ _ | MkdirAt _ _ _ => true | _ => false end.

Lemma all_copied_none t h : (forall e, e ∈ t -> creates (ev_call e) = false) -> all_copied h (t ++ h).
Proof.
  intros Hn. exists t. split; [done|]. split; intros; exfalso.
  - by match goal with Hin : _ ∈ t |- _ => specialize (Hn _ Hin) end.
  - by match goal with Hin : _ ∈ t |- _ => specialize (Hn _ Hin) end.
Qed.

(** ** The copy only touches what it opened *)

#[local] Hint Resolve check_directory_looks check_source_looks : stays.

Lemma read_exact_stays fs fuel operation changed source write remaining acc :
  source ∈ fs -> (forall chunk, stays subject_fd fs (write chunk)) ->
  stays subject_fd fs (read_exact limits fuel operation changed source write remaining acc).
Proof.
  intros Hs Hw. revert remaining acc. induction fuel as [|fuel IH]; intros remaining acc; cbn [read_exact];
    (destruct (remaining =? 0); [apply stays_ret|]); [apply stays_ret|].
  apply stays_bind_ok; [eauto with stays|]. intros _. apply stays_bind_ok; [by apply stays_os, stays_perform|]. intros answer.
  destruct (is_empty _); [apply stays_ret|]. apply stays_bind_ok; [done|]. intros _. apply IH.
Qed.

Lemma reject_source_growth_stays fs source : source ∈ fs -> stays subject_fd fs (reject_source_growth pol source).
Proof.
  intros Hs. unfold reject_source_growth. apply stays_bind_ok; [by apply stays_os, stays_perform|]. intros. eauto with stays.
Qed.

Lemma copy_file_stays sd td name entry st : stays subject_fd [] (copy_file pol limits sd td name entry st).
Proof.
  unfold copy_file. apply stays_bind_ok; [eauto with stays|]. intros _. apply stays_bind_ok; [apply stays_ret|]. intros _.
  eapply stays_bind_fd; [unfold open_source_file; eauto with stays|]. intros source.
  do 3 (apply stays_bind_ok; [eauto with stays|]; intros ?). apply stays_bind_ok; [apply stays_ret|]. intros [size st'].
  eapply stays_bind_fd; [eauto with stays|]. intros target.
  apply stays_bind_ok; [eapply tends_stays; [apply prepare_file_tends|in_view]|]. intros _.
  apply stays_bind_ok.
  { unfold copy_exact_with_digest. apply stays_bind_ok; [apply read_exact_stays; [in_view|]; intros; stays|]. intros.
    apply stays_bind_ok; [apply reject_source_growth_stays; in_view|]. intros. apply stays_ret. }
  intros first. apply stays_bind_ok; [stays|]. intros _. apply stays_bind_ok.
  { unfold hash_exact_source. apply stays_bind_ok; [apply read_exact_stays; [in_view|]; intros; stays|]. intros.
    apply stays_bind_ok; [apply reject_source_growth_stays; in_view|]. intros. apply stays_ret. }
  intros second. do 3 (apply stays_bind_ok; [eauto with stays|]; intros ?).
  apply stays_bind_ok; [unfold stat_at; stays|]. intros named. apply stays_bind_ok; [eauto with stays|]. intros _.
  apply stays_bind_ok; [eapply tends_stays; [apply finish_file_tends|in_view]|]. intros _. apply stays_ret.
Qed.

Lemma copy_entry_stays copy_child sd td name st :
  (forall a b s, stays subject_fd [] (copy_child a b s)) -> stays subject_fd [] (copy_entry pol limits copy_child sd td name st).
Proof.
  intros Hc. unfold copy_entry. apply stays_bind_ok; [eauto with stays|]. intros _. apply stays_bind_ok; [apply stays_ret|]. intros st'.
  apply stays_bind_ok; [apply stays_ret|]. intros _. apply stays_bind_ok; [apply stays_ret|]. intros name'.
  apply stays_bind_ok; [unfold stat_at; stays|]. intros entry.
  destruct (_ =? S_IFDIR); [|destruct (_ =? S_IFREG); [apply copy_file_stays|destruct (_ =? S_IFLNK); apply stays_ret]].
  apply stays_bind_ok; [apply stays_ret|]. intros _. eapply stays_bind_fd; [unfold open_directory_at; eauto with stays|]. intros sc.
  do 2 (apply stays_bind_ok; [eauto with stays|]; intros ?). apply stays_bind_ok; [unfold mkdir_at; stays|]. intros _.
  eapply stays_bind_fd; [unfold open_directory_at; eauto with stays|]. intros tc.
  apply stays_bind_ok; [eapply tends_stays; [apply prepare_directory_tends|in_view]|]. intros _.
  apply stays_bind_ok; [eapply stays_mono; [apply Hc|]; by intros ? ?%not_elem_of_nil|]. intros st''.
  apply stays_bind_ok; [eapply tends_stays; [apply finish_directory_tends|in_view]|]. intros _. apply stays_ret.
Qed.

Lemma copy_entries_stays copy_child sd td names st :
  (forall a b s, stays subject_fd [] (copy_child a b s)) -> stays subject_fd [] (copy_entries pol limits copy_child sd td names st).
Proof.
  intros Hc. revert st. induction names as [|name names IH]; intros st; cbn [copy_entries]; [apply stays_ret|].
  apply stays_bind_ok; [by apply copy_entry_stays|]. intros. apply IH.
Qed.

Lemma copy_directory_stays levels sd td st : stays subject_fd [] (copy_directory pol limits levels sd td st).
Proof.
  revert sd td st. induction levels as [|levels IH]; intros sd td st; cbn [copy_directory];
    (apply stays_bind_ok; [eauto with stays|]; intros _); [apply stays_ret|].
  do 2 (apply stays_bind_ok; [eauto with stays|]; intros ?).
  apply stays_bind_ok; [unfold list_directory; stays|]. intros names.
  apply stays_bind_ok; [by apply copy_entries_stays|]. intros st'.
  do 2 (apply stays_bind_ok; [eauto with stays|]; intros ?). apply stays_ret.
Qed.

(** ** Contents *)

Lemma len_nonempty {A} (l : list A) : is_empty l = false -> 0 < len l.
Proof. intros Hl%is_empty_false. by apply len_pos. Qed.

Lemma reject_source_growth_ok env h h' source :
  exec env h (reject_source_growth pol source) = (h', Ok tt) -> same_data h h'.
Proof.
  unfold reject_source_growth. intros (h1 & probe & H1%exec_os_ok & H2)%exec_bind_ok.
  cbn in H1. injection H1 as <- Hr. rewrite Hr in H2. apply exec_bail_if in H2 as [-> Hp].
  apply negb_false_iff, is_empty_true in Hp as ->. eapply adds_ext; [apply (read_adds source 1 [])|]. intros f. split; [done|].
  unfold only. by case_bool_decide.
Qed.

Lemma read_exact_ok env fuel operation changed source write (put : bytes -> fd -> bytes) remaining acc h h' c :
  (forall f, put [] f = []) -> (forall a b f, put (a ++ b) f = put a f ++ put b f) ->
  (forall h h' chunk, exec env h (write chunk) = (h', Ok tt) -> adds (put chunk) nothing h h') ->
  exec env h (read_exact limits fuel operation changed source write remaining acc) = (h', Ok c) ->
  exists data, c = acc ++ data /\ len data = remaining /\ adds (put data) (only source data) h h'.
Proof.
  intros Hn Happ Hw. revert remaining acc h. induction fuel as [|fuel IH]; intros remaining acc h; cbn [read_exact];
    destruct (N.eqb_spec remaining 0) as [->|Hr].
  1, 3: intros [= <- <-]; exists []; split; [by rewrite app_nil_r|]; split; [done|];
    eapply adds_ext; [apply same_data_refl|]; intros f; rewrite Hn; unfold only; by case_bool_decide.
  - done.
  - intros (h1 & [] & H1 & Hk)%exec_bind_ok. apply exec_looks in H1; [|apply check_deadline_looks].
    apply exec_bind_ok in Hk as (h2 & answer & H2%exec_os_ok & Hk). cbn in H2. injection H2 as <- Ha. rewrite Ha in Hk.
    set (limit := N.min remaining COPY_BUFFER_BYTES) in *. set (chunk := take_N limit answer) in *.
    destruct (is_empty chunk) eqn:Ec; [done|]. apply exec_bind_ok in Hk as (h3 & [] & H3 & Hk). apply Hw in H3.
    apply IH in Hk as (data & -> & Hl & Hd). apply len_nonempty in Ec.
    assert (len chunk <= remaining) by (unfold chunk; rewrite len_take_N; lia).
    exists (chunk ++ data). split; [by rewrite app_assoc|]. split; [rewrite len_app; lia|].
    eapply adds_ext; [eapply adds_trans; [eapply adds_trans; [exact H1|apply (read_adds source limit answer)]|eapply adds_trans; [exact H3|exact Hd]]|].
    intros f. rewrite Happ. split; [done|]. fold limit chunk. unfold only, nothing. by case_bool_decide.
Qed.

Lemma only_nil g f : only g [] f = [].
Proof. unfold only. by case_bool_decide. Qed.

Lemma only_app g a b f : only g (a ++ b) f = only g a f ++ only g b f.
Proof. unfold only. by case_bool_decide. Qed.

Lemma copy_exact_ok env source target size h h' d :
  exec env h (copy_exact_with_digest pol limits source target size) = (h', Ok d) ->
  exists data, len data = size /\ d = sha256 data /\ adds (only target data) (only source data) h h'.
Proof.
  unfold copy_exact_with_digest. intros (h1 & c & H1 & Hk)%exec_bind_ok.
  apply (read_exact_ok env _ _ _ _ _ (only target)) in H1 as (data & -> & Hl & Ha);
    [|apply only_nil|apply only_app|].
  - apply exec_bind_ok in Hk as (h2 & [] & H2%reject_source_growth_ok & Hk). injection Hk as <- <-.
    exists data. split; [done|]. split; [done|]. eapply adds_ext; [eapply adds_trans; [exact Ha|exact H2]|].
    intros f. unfold nothing. by rewrite !app_nil_r.
  - intros h2 h3 chunk Hc%exec_os_ok. cbn in Hc. injection Hc as <- Hr. rewrite Hr. apply (write_adds target chunk).
Qed.

Lemma hash_exact_ok env source size h h' d :
  exec env h (hash_exact_source pol limits source size) = (h', Ok d) ->
  exists data, len data = size /\ d = sha256 data /\ adds nothing (only source data) h h'.
Proof.
  unfold hash_exact_source. intros (h1 & c & H1 & Hk)%exec_bind_ok.
  apply (read_exact_ok env _ _ _ _ _ (fun _ => nothing)) in H1 as (data & -> & Hl & Ha); [|done|done|].
  - apply exec_bind_ok in Hk as (h2 & [] & H2%reject_source_growth_ok & Hk). injection Hk as <- <-.
    exists data. split; [done|]. split; [done|]. eapply adds_ext; [eapply adds_trans; [exact Ha|exact H2]|].
    intros f. unfold nothing. by rewrite !app_nil_r.
  - intros h2 h3 chunk [= <-]. apply same_data_refl.
Qed.

(** ** Traces without creations *)

Definition no_create (c : fs_call) : bool := negb (creates c).

Definition quiet (h h' : list ev) : Prop := exists t, h' = t ++ h /\ forall e, e ∈ t -> creates (ev_call e) = false.

Lemma no_creation_refl h : quiet h h.
Proof. exists []. split; [done|]. by intros e ?%not_elem_of_nil. Qed.

Lemma no_creation_trans h1 h2 h3 : quiet h1 h2 -> quiet h2 h3 -> quiet h1 h3.
Proof.
  intros (t1 & -> & H1) (t2 & -> & H2). exists (t2 ++ t1). split; [by rewrite app_assoc|]. intros e [?|?]%elem_of_app; auto.
Qed.

Lemma quiet_cons h h' e : quiet h h' -> creates (ev_call e) = false -> quiet h (e :: h').
Proof.
  intros (t & -> & Ht) He. exists (e :: t). split; [done|]. intros e' [->|?]%elem_of_cons; auto.
Qed.

Lemma quiet_calls {A} (p : prog fs_answer A) env h h' a : calls_only no_create p -> exec env h p = (h', a) -> quiet h h'.
Proof.
  intros Hp He. destruct (exec_calls_only _ _ _ _ _ _ Hp He) as (t & -> & Ht). exists t. split; [done|].
  intros e Hin. specialize (Ht e Hin). by apply negb_true_iff in Ht.
Qed.

Lemma looks_quiet {A} (p : prog fs_answer A) env h h' a : calls_only looks p -> exec env h p = (h', a) -> quiet h h'.
Proof. intros Hp. apply quiet_calls. eapply calls_only_mono; [exact Hp|]. by intros []. Qed.

Lemma tends_quiet f {A} (p : prog fs_answer A) env h h' a : calls_only (tends f) p -> exec env h p = (h', a) -> quiet h h'.
Proof. intros Hp. apply quiet_calls. eapply calls_only_mono; [exact Hp|]. by intros []. Qed.

Lemma check_deadline_no_create operation : calls_only no_create (check_deadline (lim_deadline limits) operation).
Proof. eapply calls_only_mono; [apply check_deadline_looks|]. by intros []. Qed.

Lemma read_exact_no_create fuel operation changed source write remaining acc :
  (forall chunk, calls_only no_create (write chunk)) ->
  calls_only no_create (read_exact limits fuel operation changed source write remaining acc).
Proof.
  intros Hw. revert remaining acc. induction fuel as [|fuel IH]; intros remaining acc; cbn [read_exact];
    (destruct (remaining =? 0); [apply calls_only_ret|]); [apply calls_only_ret|].
  apply calls_only_bind_ok; [apply check_deadline_no_create|]. intros _. apply calls_only_bind_ok; [unfold os; calls_only|].
  intros answer. destruct (is_empty _); [apply calls_only_ret|]. apply calls_only_bind_ok; auto.
Qed.

Lemma copy_exact_no_create source target size : calls_only no_create (copy_exact_with_digest pol limits source target size).
Proof.
  unfold copy_exact_with_digest, reject_source_growth. apply calls_only_bind_ok; [apply read_exact_no_create; intros; unfold os; calls_only|].
  intros c. unfold os, bail_if. calls_only.
Qed.

Lemma hash_exact_no_create source size : calls_only no_create (hash_exact_source pol limits source size).
Proof.
  unfold hash_exact_source, reject_source_growth. apply calls_only_bind_ok; [apply read_exact_no_create; intros; calls_only|].
  intros c. unfold os, bail_if. calls_only.
Qed.

Lemma all_copied_quiet h h' : quiet h h' -> all_copied h h'.
Proof. intros (t & -> & Ht). by apply all_copied_none. Qed.

Lemma one_file_copied h h4 h' sd td name target :
  quiet h h4 -> quiet (Ev (CreateAt td name (target_readable pol) PRIVATE_FILE_MODE) (Ok target) :: h4) h' ->
  forbidden_name name = false -> copied_file (opened h) h' sd td name target -> all_copied h h'.
Proof.
  intros (t1 & -> & H1) (t2 & -> & H2) Hf Hc. exists (t2 ++ Ev (CreateAt td name (target_readable pol) PRIVATE_FILE_MODE) (Ok target) :: t1).
  split; [by rewrite <-app_assoc|]. split.
  - intros td' name' readable mode target'. rewrite elem_of_app, elem_of_cons. intros [He|[Heq|He]].
    + by specialize (H2 _ He).
    + pose proof (f_equal opens Heq) as Ho. injection Ho as ->. injection Heq as -> -> _ _. split; [done|]. by exists sd.
    + by specialize (H1 _ He).
  - intros td' name' mode. rewrite elem_of_app, elem_of_cons. intros [He|[[=]|He]]; [by specialize (H2 _ He)|by specialize (H1 _ He)].
Qed.

(** Something before: the directory [name] was made, and nothing else. *)
Lemma one_directory_copied h h2 h5 h' sd td name levels :
  quiet h h2 -> quiet (Ev (MkdirAt td name (private_directory_mode pol)) (Ok tt) :: h2) h5 -> all_copied h5 h' -> sound h' ->
  forbidden_name name = false -> copied_directory (copied_tree levels (opened h) h') (opened h) h' sd td name -> all_copied h h'.
Proof.
  intros (t1 & -> & H1) (t2 & -> & H2) (t3 & -> & Hf3 & Hd3) Hs Hf Hcd.
  set (e := Ev (MkdirAt td name (private_directory_mode pol)) (Ok tt) : ev) in *.
  assert (forall f, f ∈ opened h -> f ∈ opened (t2 ++ e :: t1 ++ h)) as Hold.
  { intros f. apply opened_extends. exists (t2 ++ e :: t1). by rewrite <-app_assoc. }
  exists (t3 ++ t2 ++ e :: t1). split; [by rewrite <-!app_assoc|]. split.
  - intros td' name' readable mode target. rewrite !elem_of_app, elem_of_cons. intros [He|[He|[He|He]]].
    + destruct (Hf3 _ _ _ _ _ He) as (? & sd' & Hcf). split; [done|]. exists sd'.
      eapply (copied_file_stable []); [apply confined_refl|done|by intros ? ?%not_elem_of_nil|exact Hold|exact Hcf].
    + by specialize (H2 _ He).
    + done.
    + by specialize (H1 _ He).
  - intros td' name' mode. rewrite !elem_of_app, elem_of_cons. intros [He|[He|[He|He]]].
    + destruct (Hd3 _ _ _ He) as (? & sd' & levels' & Hcd'). split; [done|]. exists sd', levels'.
      eapply (copied_directory_stable []); [apply confined_refl|done|by intros ? ?%not_elem_of_nil|exact Hold| |exact Hcd'].
      intros a b. apply (copied_tree_stable []); [apply confined_refl|done|by intros ? ?%not_elem_of_nil|exact Hold].
    + by specialize (H2 _ He).
    + injection He as -> -> ->. split; [done|]. by exists sd, levels.
    + by specialize (H1 _ He).
Qed.

(** ** A copied file *)

Lemma count_bytes_ok size st n st' : count_bytes pol limits size st = Ok (n, st') -> Z.of_N n = size /\ cs_bytes st' = cs_bytes st + n.
Proof.
  unfold count_bytes. rewrite then_ok, fail_if_ok. intros [Hz Hk]. rewrite then_ok in Hk. destruct Hk as [_ Hk].
  rewrite then_ok in Hk. destruct Hk as [_ [= <- <-]]. split; [lia|done].
Qed.

Lemma exec_ret_ok {A} env h h' (r : result FsError A) a : exec env h (Ret r : fsprog A) = (h', Ok a) -> h' = h /\ r = Ok a.
Proof. by intros [= -> ->]. Qed.

Lemma rewind_same f r h : same_data h (Ev (Rewind f) r :: h).
Proof. apply event_adds; [done|]. intros g. cbn. by case_bool_decide. Qed.

(** The pieces of a successful run. *)
Definition file_run (h h' : list ev) (sd td : fd) (name : bytes) (entry : StatSnapshot) (source target : fd) (data again : bytes) : Prop :=
  exists h4, let pre := Ev (CreateAt td name (target_readable pol) PRIVATE_FILE_MODE) (Ok target) :: h4 in
    quiet h h4 /\ (Ev (OpenAt sd name SourceFile) (Ok source) : ev) ∈ h4 /\ (Ev (Fstat source) (Ok entry) : ev) ∈ h4
    /\ check_file pol entry = Ok tt /\ received source h4 = []
    /\ (exists h1, extends h h1 /\ extends (Ev (OpenAt sd name SourceFile) (Ok source) :: h1) h4)
    /\ quiet pre h' /\ adds (only target data) (fun f => only source data f ++ only source again f) pre h'
    /\ Z.of_N (len data) = st_size entry /\ len again = len data /\ sha256 again = sha256 data
    /\ finished final_file_mode (fits_file entry) h' target.

Lemma copy_file_run env h h' sd td name entry st st' :
  exec env h (copy_file pol limits sd td name entry st) = (h', Ok st') ->
  exists source target data again, file_run h h' sd td name entry source target data again.
Proof.
  intros He. unfold copy_file in He.
  apply exec_bind_ok in He as (h1 & [] & H1 & He). apply looks_quiet in H1; [|apply check_deadline_looks].
  apply exec_bind_ok in He as (h1' & [] & [-> Hcheck]%exec_ret_ok & He).
  apply exec_bind_ok in He as (h2 & source & H2 & He). unfold open_source_file in H2. prim_ok H2.
  apply exec_bind_ok in He as (h3 & opened_stat & H3 & He). unfold stat_fd in H3. prim_ok H3.
  apply exec_bind_ok in He as (h3' & [] & [-> Hsame]%exec_bail_if & He). apply negb_false_iff, bool_decide_eq_true in Hsame as ->.
  apply exec_bind_ok in He as (h4 & [] & H4 & He).
  pose proof (looks_quiet _ _ _ _ _ (check_source_looks source) H4) as Q4. pose proof (exec_extends_to _ _ _ _ _ H4) as X4. apply exec_looks in H4; [|apply check_source_looks].
  apply exec_bind_ok in He as (h4' & [size st1] & [-> Hcount]%exec_ret_ok & He). apply count_bytes_ok in Hcount as [Hsize _].
  apply exec_bind_ok in He as (h5 & target & H5 & He). prim_ok H5.
  set (pre := Ev (CreateAt td name (target_readable pol) PRIVATE_FILE_MODE) (Ok target) :: h4) in *.
  apply exec_bind_ok in He as (h6 & [] & H6 & He).
  pose proof (tends_quiet _ _ _ _ _ _ (prepare_file_tends target) H6) as Q6. pose proof (exec_tends _ _ _ _ _ _ (prepare_file_tends target) H6) as A6.
  apply exec_bind_ok in He as (h7 & d1 & H7 & He).
  pose proof (quiet_calls _ _ _ _ _ (copy_exact_no_create _ _ _) H7) as Q7. apply copy_exact_ok in H7 as (data & Hl1 & -> & A7).
  apply exec_bind_ok in He as (h8 & [] & H8 & He). prim_ok H8.
  apply exec_bind_ok in He as (h9 & d2 & H9 & He).
  pose proof (quiet_calls _ _ _ _ _ (hash_exact_no_create _ _) H9) as Q9. apply hash_exact_ok in H9 as (again & Hl2 & -> & A9).
  apply exec_bind_ok in He as (h9' & [] & [-> Hd]%exec_bail_if & He). apply negb_false_iff, bool_decide_eq_true in Hd.
  apply exec_bind_ok in He as (h10 & again_stat & H10 & He). unfold stat_fd in H10. prim_ok H10.
  apply exec_bind_ok in He as (h10' & [] & [-> _]%exec_bail_if & He).
  apply exec_bind_ok in He as (h11 & named & H11 & He). unfold stat_at in H11. prim_ok H11.
  apply exec_bind_ok in He as (h11' & [] & [-> _]%exec_bail_if & He).
  apply exec_bind_ok in He as (h12 & [] & H12 & [-> _]%exec_ret_ok).
  pose proof (tends_quiet _ _ _ _ _ _ (finish_file_tends target entry) H12) as Q12.
  pose proof (exec_tends _ _ _ _ _ _ (finish_file_tends target entry) H12) as A12. apply finish_file_ok in H12.
  exists source, target, data, again, h4. split_and!.
  - eapply no_creation_trans; [|exact Q4]. do 2 (apply quiet_cons; [|done]). exact H1.
  - eapply extends_in; [exact X4|]. by right; left.
  - eapply extends_in; [exact X4|]. by left.
  - done.
  - destruct H4 as [_ A4]. destruct (A4 source) as [_ ->].
    rewrite (proj2 (look_same source (Ev (Fstat source) (Ok entry) : ev) _ eq_refl)).
    by rewrite (proj2 (opened_empty source (Ev (OpenAt sd name SourceFile) (Ok source) : ev) h1 eq_refl)).
  - exists h1. split; [by destruct H1 as (t & -> & _); exists t|]. eapply extends_trans; [|exact X4]. auto with trace.
  - eapply no_creation_trans; [|exact Q12]. do 2 (apply quiet_cons; [|done]). eapply no_creation_trans; [|exact Q9]. apply quiet_cons; [|done].
    by eapply no_creation_trans.
  - eapply adds_ext.
    + eapply adds_trans; [exact A6|]. eapply adds_trans; [exact A7|]. eapply adds_trans; [apply rewind_same|].
      eapply adds_trans; [exact A9|]. eapply adds_trans; [exact (look_adds (Ev (Fstat source) (Ok again_stat) : ev) h9 eq_refl)|].
      eapply adds_trans; [exact (look_adds (Ev (FstatAt sd name) (Ok named) : ev) _ eq_refl)|exact A12].
    + intros f. unfold nothing. by rewrite !app_nil_r.
  - by rewrite Hl1.
  - by rewrite Hl1.
  - done.
  - done.
Qed.

Lemma copy_file_ok env h h' sd td name entry st st' :
  exec env h (copy_file pol limits sd td name entry st) = (h', Ok st') -> sound h' ->
  file_type entry = S_IFREG -> forbidden_name name = false ->
  all_copied h h' /\ exists target, copied_file (opened h) h' sd td name target.
Proof.
  intros He Hs Ht Hf.
  apply copy_file_run in He as (source & target & data & again & h4 & Q1 & Ho & Hst & Hc & Hr & (h1 & X1 & X4) & Q2 & [Hopen Ha] & Hl & Hl2 & Hd & Hfin).
  set (e := Ev (CreateAt td name (target_readable pol) PRIVATE_FILE_MODE) (Ok target) : ev) in *. cbn zeta in *.
  assert (extends (e :: h4) h') as X2 by (destruct Q2 as (t & -> & _); by exists t).
  assert (opened h' = target :: opened h4) as Hopen' by exact Hopen.
  assert (source ∈ opened h4) as Hso by (eapply opened_extends; [exact X4|by left]).
  assert (~ target ∈ opened h4 /\ sound h4) as [Hnt Hs4] by (unfold sound in *; rewrite Hopen' in Hs; by apply NoDup_cons).
  assert (~ source ∈ opened h1) as Hns by (pose proof (sound_extends _ _ X4 Hs4) as Hs1; by apply NoDup_cons in Hs1 as [? _]).
  assert (source <> target) as Hne by (by intros ->).
  assert (copied_file (opened h) h' sd td name target) as Hcopy.
  { exists source, entry, data, again. destruct (Ha target) as [-> _], (Ha source) as [_ ->].
    rewrite (proj1 (opened_empty target e h4 eq_refl)), (proj2 (opened_other source target e h4 eq_refl (not_eq_sym Hne) eq_refl)), Hr.
    cbn. unfold only. rewrite !bool_decide_eq_true_2 by done. rewrite Hopen'. split_and!; try done.
    - eapply extends_in; [exact X2|]. by right.
    - eapply extends_in; [exact X2|]. by left.
    - eapply extends_in; [exact X2|]. by right.
    - by right.
    - intros Hin. by apply Hns, (opened_extends h).
    - by left.
    - intros Hin. apply Hnt. eapply opened_extends; [|exact Hin]. by destruct Q1 as (t & -> & _); exists t. }
  split; [by eapply one_file_copied|]. by exists target.
Qed.

(** ** A copied directory *)

Lemma c_string_ok env h h' name n : exec env h (c_string name) = (h', Ok n) -> h' = h /\ n = name.
Proof. unfold c_string. destruct (any _ name); cbn; [done|]. by intros [= -> ->]. Qed.

Lemma listed_sound env h h' sd max names :
  exec env h (list_directory (subject pol) sd max) = (h', Ok names) ->
  listed_names h' sd names /\ quiet h h'.
Proof.
  unfold list_directory. intros (h1 & l & H1 & [-> Hl]%exec_ret_ok)%exec_bind_ok. prim_ok H1.
  split; [exists l, max; split; [by left|done]|]. apply quiet_cons; [apply no_creation_refl|done].
Qed.

Definition copies (levels : nat) (copy_child : fd -> fd -> CopyState -> fsprog CopyState) : Prop :=
  (forall sd td st, stays subject_fd [] (copy_child sd td st))
  /\ forall env h h' sd td st st', exec env h (copy_child sd td st) = (h', Ok st') -> sound h' ->
       copied_tree levels (opened h) h' sd td /\ all_copied h h'.

Lemma copy_subdirectory_ok levels copy_child env h h' sd td name entry st st' :
  copies levels copy_child ->
  exec env h (let*? source_child := open_directory_at sd name true in
              let*? opened := stat_fd source_child in
              let*? _ := bail_if (negb (bool_decide (opened = entry))) (subject pol ++ lit " directory changed before copy") in
              let*? _ := mkdir_at td name (private_directory_mode pol) in
              let*? target_child := open_directory_at td name true in
              let*? _ := prepare_directory pol target_child in
              let*? state := copy_child source_child target_child st in
              let*? _ := finish_directory pol source_child target_child entry in
              Ret (Ok state)) = (h', Ok st') -> sound h' -> forbidden_name name = false ->
  all_copied h h' /\ copied_directory (copied_tree levels (opened h) h') (opened h) h' sd td name.
Proof.
  intros [Hst Hcopy] He Hs Hf.
  apply exec_bind_ok in He as (h1 & sc & H1 & He). unfold open_directory_at in H1. prim_ok H1.
  apply exec_bind_ok in He as (h2 & o & H2 & He). unfold stat_fd in H2. prim_ok H2.
  apply exec_bind_ok in He as (h2' & [] & [-> _]%exec_bail_if & He).
  apply exec_bind_ok in He as (h3 & [] & H3 & He). unfold mkdir_at in H3. prim_ok H3.
  apply exec_bind_ok in He as (h4 & tc & H4 & He). unfold open_directory_at in H4. prim_ok H4.
  apply exec_bind_ok in He as (h5 & [] & H5 & He).
  apply exec_bind_ok in He as (h6 & st1 & H6 & He).
  apply exec_bind_ok in He as (h7 & [] & H7 & [Hend _]%exec_ret_ok). subst h7.
  pose proof (tends_quiet _ _ _ _ _ _ (prepare_directory_tends tc) H5) as Q5. pose proof (exec_extends_to _ _ _ _ _ H5) as X5.
  pose proof (tends_quiet _ _ _ _ _ _ (finish_directory_tends sc tc entry) H7) as Q7.
  pose proof (exec_stays subject_fd [tc] _ _ _ _ _ (tends_stays tc [tc] _ (finish_directory_tends sc tc entry) (list_elem_of_here tc [])) H7) as C7.
  pose proof (confined_extends _ _ _ _ C7) as X7. apply finish_directory_ok in H7.
  pose proof (exec_extends_to _ _ _ _ _ H6) as X6. apply Hcopy in H6 as [Htree Hall]; [|by eapply sound_extends].
  set (e4 := Ev (OpenAt td name Readable) (Ok tc) : ev) in *. set (e3 := Ev (MkdirAt td name (private_directory_mode pol)) (Ok tt) : ev) in *.
  set (e2 := Ev (Fstat sc) (Ok o) : ev) in *. set (e1 := Ev (OpenAt sd name Readable) (Ok sc) : ev) in *.
  assert (tc ∈ opened h5) as Htc by (eapply opened_extends; [exact X5|by left]).
  assert (extends (e4 :: e3 :: e2 :: e1 :: h) h') as Xall by eauto with trace.
  assert (~ tc ∈ opened h) as Hn.
  { pose proof (sound_extends _ _ Xall Hs) as Hs4. apply NoDup_cons in Hs4 as [Hn _]. intros Hin. apply Hn. by right. }
  assert (forall f, f ∈ [tc] -> f ∈ opened h5) as Hfs by (by intros f ->%list_elem_of_singleton).
  assert (copied_directory (copied_tree levels (opened h) h') (opened h) h' sd td name) as Hcd.
  { exists sc, tc. split_and!; try done.
    - eapply extends_in; [exact Xall|]. do 3 right. by left.
    - eapply extends_in; [exact Xall|]. right. by left.
    - eapply extends_in; [exact Xall|]. by left.
    - eapply opened_extends; [|exact Htc]. eauto with trace.
    - eapply (copied_tree_stable [tc] (opened h5)); [exact C7|exact Hs|exact Hfs| |exact Htree].
      intros f. apply opened_extends. eapply extends_trans; [|exact X5]. auto with trace. }
  split; [|exact Hcd]. eapply (one_directory_copied h (e2 :: e1 :: h) h5); [| |eapply (all_copied_trans [tc] h5 h6); [exact Hall|by apply all_copied_quiet|exact C7|exact Hs|exact Hfs]|done|done|exact Hcd].
  - do 2 (apply quiet_cons; [|done]). apply no_creation_refl.
  - eapply no_creation_trans; [|exact Q5]. apply quiet_cons; [|done]. apply no_creation_refl.
Qed.

(** What is said of one name. *)
Definition entry_copied (levels : nat) (old : list fd) (h : list ev) (sd td : fd) (name : bytes) : Prop :=
  forbidden_name name = false
  /\ ((exists target, copied_file old h sd td name target) \/ copied_directory (copied_tree levels old h) old h sd td name).

Lemma entry_copied_stable levels old old' h h' sd td name :
  entry_copied levels old h sd td name -> confined subject_fd [] h h' -> sound h' -> (forall f, f ∈ old' -> f ∈ old) ->
  entry_copied levels old' h' sd td name.
Proof.
  intros [Hf Hc] Hx Hs Hold. assert (forall f : fd, f ∈ [] -> f ∈ old) as Hnil by (by intros f ?%not_elem_of_nil).
  split; [done|]. destruct Hc as [(target & Hc)|Hc].
  - left. exists target. by eapply copied_file_stable.
  - right. eapply copied_directory_stable; [done..| |exact Hc]. intros a b. by eapply copied_tree_stable.
Qed.

(** Quiet steps before and new descriptors among the old ones say less. *)
Lemma all_copied_after h h1 h' : quiet h h1 -> sound h' -> all_copied h1 h' -> all_copied h h'.
Proof.
  intros (t1 & -> & H1) Hs (t & -> & Hf & Hd).
  assert (forall f, f ∈ opened h -> f ∈ opened (t1 ++ h)) as Hold by (intros f; apply opened_extends; by exists t1).
  assert (forall f : fd, f ∈ [] -> f ∈ opened (t1 ++ h)) as Hnil by (by intros f ?%not_elem_of_nil).
  exists (t ++ t1). split; [by rewrite app_assoc|]. split.
  - intros td' name' readable mode target [He'|He']%elem_of_app; [|by specialize (H1 _ He')].
    destruct (Hf _ _ _ _ _ He') as (? & sd' & Hcf). split; [done|]. exists sd'.
    eapply copied_file_stable; [apply confined_refl|exact Hs|exact Hnil|exact Hold|exact Hcf].
  - intros td' name' mode [He'|He']%elem_of_app; [|by specialize (H1 _ He')].
    destruct (Hd _ _ _ He') as (? & sd' & levels' & Hcd). split; [done|]. exists sd', levels'.
    eapply copied_directory_stable; [apply confined_refl|exact Hs|exact Hnil|exact Hold| |exact Hcd].
    intros a b. apply (copied_tree_stable []); [apply confined_refl|exact Hs|exact Hnil|exact Hold].
Qed.

Lemma entry_copied_after levels h h1 h' sd td name :
  quiet h h1 -> sound h' -> entry_copied levels (opened h1) h' sd td name -> entry_copied levels (opened h) h' sd td name.
Proof.
  intros (t1 & -> & _) Hs He. eapply entry_copied_stable; [exact He|apply confined_refl|done|].
  intros f. apply opened_extends. by exists t1.
Qed.

Lemma copy_entry_ok levels copy_child env h h' sd td name st st' :
  copies levels copy_child -> exec env h (copy_entry pol limits copy_child sd td name st) = (h', Ok st') -> sound h' ->
  all_copied h h' /\ entry_copied levels (opened h) h' sd td name.
Proof.
  intros Hc He Hs. unfold copy_entry in He.
  apply exec_bind_ok in He as (h1 & [] & H1 & He). apply looks_quiet in H1; [|apply check_deadline_looks].
  apply exec_bind_ok in He as (h1' & st1 & [-> _]%exec_ret_ok & He).
  apply exec_bind_ok in He as (h1' & [] & [-> Hf]%exec_bail_if & He).
  apply exec_bind_ok in He as (h1' & n & [-> ->]%c_string_ok & He).
  apply exec_bind_ok in He as (h2 & entry & H2 & He). unfold stat_at in H2. prim_ok H2.
  set (e := Ev (FstatAt sd name) (Ok entry) : ev) in *.
  assert (quiet h (e :: h1)) as Q by (by apply quiet_cons).
  cut (all_copied (e :: h1) h' /\ entry_copied levels (opened (e :: h1)) h' sd td name).
  { intros [Ha Hn]. split; [by eapply all_copied_after|by eapply entry_copied_after]. }
  destruct (N.eqb_spec (file_type entry) S_IFDIR).
  { apply exec_bind_ok in He as (h3 & [] & [-> _]%exec_ret_ok & He).
    destruct (copy_subdirectory_ok _ _ _ _ _ _ _ _ _ _ _ Hc He Hs Hf) as [Hall Hcd]. split; [done|]. split; [done|]. by right. }
  destruct (N.eqb_spec (file_type entry) S_IFREG) as [Ht|]; [|destruct (_ =? S_IFLNK); discriminate].
  destruct (copy_file_ok _ _ _ _ _ _ _ _ _ He Hs Ht Hf) as [Hall Hcf]. split; [done|]. split; [done|]. by left.
Qed.

Lemma copy_entries_ok levels copy_child env h h' sd td names st st' :
  copies levels copy_child -> exec env h (copy_entries pol limits copy_child sd td names st) = (h', Ok st') -> sound h' ->
  all_copied h h' /\ forall name, name ∈ names -> entry_copied levels (opened h) h' sd td name.
Proof.
  intros Hc. revert h st. induction names as [|name names IH]; intros h st; cbn [copy_entries].
  - intros [= <- <-] _. split; [apply all_copied_quiet, no_creation_refl|]. by intros name ?%not_elem_of_nil.
  - intros (h1 & st1 & H1 & He)%exec_bind_ok Hs. pose proof (exec_extends_to _ _ _ _ _ He) as X1.
    pose proof (exec_stays subject_fd [] _ _ _ _ _ (copy_entries_stays copy_child sd td names st1 (proj1 Hc)) He) as C1.
    pose proof (exec_extends_to _ _ _ _ _ H1) as X0.
    apply (copy_entry_ok levels) in H1 as [Ha1 He1]; [|done|by eapply sound_extends].
    destruct (IH _ _ He Hs) as [Ha2 He2]. split.
    + eapply all_copied_trans; [exact Ha1|exact Ha2|exact C1|exact Hs|]. by intros f ?%not_elem_of_nil.
    + intros n [->|Hn]%elem_of_cons; [eapply entry_copied_stable; eauto|].
      eapply entry_copied_stable; [by apply He2|apply confined_refl|done|]. intros f. by apply opened_extends.
Qed.

(** The whole of a directory. *)
Lemma copy_directory_copies levels : copies levels (copy_directory pol limits levels).
Proof.
  induction levels as [|levels IH]; (split; [apply copy_directory_stays|]); intros env h h' sd td st st' He Hs; cbn [copy_directory] in He;
    apply exec_bind_ok in He as (h1 & [] & H1 & He); [done|]. apply looks_quiet in H1; [|apply check_deadline_looks].
  apply exec_bind_ok in He as (h2 & before & H2 & He). unfold stat_fd in H2. prim_ok H2.
  apply exec_bind_ok in He as (h3 & [] & H3 & He). apply looks_quiet in H3; [|apply check_directory_looks].
  apply exec_bind_ok in He as (h4 & names & H4 & He). apply listed_sound in H4 as [Hl Q4].
  apply exec_bind_ok in He as (h5 & st5 & H5 & He).
  apply exec_bind_ok in He as (h6 & after & H6 & He). unfold stat_fd in H6. prim_ok H6.
  apply exec_bind_ok in He as (h6 & [] & [-> _]%exec_bail_if & [Hend _]%exec_ret_ok). subst h'.
  pose proof (exec_extends_to _ _ _ _ _ H5) as X5. set (e := Ev (Fstat sd) (Ok after) : ev) in *.
  assert (extends h5 (e :: h5)) as X6 by auto with trace.
  apply (copy_entries_ok levels) in H5 as [Ha He]; [|done|by eapply sound_extends].
  assert (quiet h h4) as Q by (eapply no_creation_trans; [|exact Q4]; eapply no_creation_trans; [|exact H3]; apply quiet_cons; [exact H1|done]).
  assert (confined subject_fd [] h5 (e :: h5)) as C6.
  { exists [e]. split; [done|]. by intros e' f ->%list_elem_of_singleton. }
  assert (forall f, f ∈ opened h -> f ∈ opened h4) as Hold by (intros f; apply opened_extends; by destruct Q as (t & -> & _); exists t).
  assert (all_copied h4 (e :: h5)) as Ha'.
  { eapply all_copied_trans; [exact Ha|apply all_copied_quiet, quiet_cons; [apply no_creation_refl|done]|exact C6|exact Hs|]. by intros f ?%not_elem_of_nil. }
  split.
  - cbn. exists names. split; [|intros name Hn; apply (entry_copied_stable levels (opened h4) _ h5); auto].
    destruct Hl as (l & max & Hin & Hl). exists l, max. split; [|done]. eapply extends_in; [exact X6|]. by eapply extends_in.
  - by eapply all_copied_after.
Qed.

(** ** What a copy costs *)

Definition entry_cost (c : fs_call) : N := match c with MkdirAt _ _ _ | CreateAt _ _ _ _ => 1 | _ => 0 end.
Definition byte_cost (c : fs_call) : N := match c with WriteAll _ chunk => len chunk | _ => 0 end.

Definition costs (entries bytes : N) (h h' : list ev) : Prop :=
  spent entry_cost h' = entries + spent entry_cost h /\ spent byte_cost h' = bytes + spent byte_cost h.

Lemma costs_free e b h1 h2 h3 : costs e b h1 h2 -> costs 0 0 h2 h3 -> costs e b h1 h3.
Proof. unfold costs. lia. Qed.

Definition cost_free (c : fs_call) : bool := (entry_cost c =? 0) && (byte_cost c =? 0).

Lemma costs_refl h : costs 0 0 h h.
Proof. by split. Qed.

Lemma costs_trans e b e' b' h1 h2 h3 : costs e b h1 h2 -> costs e' b' h2 h3 -> costs (e + e') (b + b') h1 h3.
Proof. unfold costs. lia. Qed.

Lemma wp_free {A} (p : prog fs_answer A) h : calls_only cost_free p -> wp anything p (fun h' _ => costs 0 0 h h') h.
Proof.
  intros Hp. specialize (Hp h). revert Hp.
  assert (forall h1, costs 0 0 h h1 -> wp (fun _ c => cost_free c = true) p (fun _ _ => True) h1 ->
            wp anything p (fun h' _ => costs 0 0 h h') h1) as Hw; [|apply Hw, costs_refl].
  induction p as [a|c k IH]; intros h1 Hh; cbn; [done|]. intros [Hc Hk]. split; [done|]. intros r. apply IH; [|apply Hk].
  unfold cost_free in Hc. apply andb_true_iff in Hc as [He%N.eqb_eq Hb%N.eqb_eq]. destruct Hh as [H1 H2].
  unfold costs, spent in *. cbn. rewrite He, Hb. lia.
Qed.

Lemma free_looks {A} (p : prog fs_answer A) h : calls_only looks p -> wp anything p (fun h' _ => costs 0 0 h h') h.
Proof. intros Hp. apply wp_free. eapply calls_only_mono; [exact Hp|]. by intros []. Qed.

Lemma free_tends f {A} (p : prog fs_answer A) h : calls_only (tends f) p -> wp anything p (fun h' _ => costs 0 0 h h') h.
Proof. intros Hp. apply wp_free. eapply calls_only_mono; [exact Hp|]. by intros []. Qed.

Lemma free_call {A} (p : fsprog A) h : calls_only cost_free p -> wp anything p (fun h' _ => costs 0 0 h h') h.
Proof. apply wp_free. Qed.

(** A step that costs nothing comes first. *)
Lemma wp_after_free {A B} (p : fsprog A) (k : A -> fsprog B) (Q : list ev -> result FsError B -> Prop) h :
  wp anything p (fun h' _ => costs 0 0 h h') h ->
  (forall h' e, costs 0 0 h h' -> Q h' (Err e)) -> (forall a h', costs 0 0 h h' -> wp anything (k a) Q h') ->
  wp anything (bind_ok p k) Q h.
Proof. intros Hp He Hk. rewrite wp_bind_ok. eapply wp_consequence; [exact Hp|]. intros h' [a|e] Hc; auto. Qed.

Definition spends {A} (most : N) (h h' : list ev) (r : result FsError A) : Prop :=
  exists n, costs 0 n h h' /\ n <= most /\ (is_ok r = true -> n = most).

Lemma read_exact_spends fuel operation changed source write remaining acc h (paid : bool) :
  (forall chunk h, wp anything (write chunk) (fun h' _ => costs 0 (if paid then len chunk else 0) h h') h) ->
  wp anything (read_exact limits fuel operation changed source write remaining acc)
    (fun h' r => spends (if paid then remaining else 0) h h' r) h.
Proof.
  intros Hw. revert remaining acc h. induction fuel as [|fuel IH]; intros remaining acc h; cbn [read_exact];
    destruct (N.eqb_spec remaining 0) as [->|Hr].
  1, 3: exists 0; split; [apply costs_refl|]; split; [lia|by destruct paid].
  - exists 0. split; [apply costs_refl|]. split; [lia|done].
  - assert (forall h' (e : FsError), costs 0 0 h h' -> spends (if paid then remaining else 0) h h' (@Err FsError bytes e)) as Hsp.
    { intros h' e Hc. exists 0. split; [done|]. split; [lia|done]. }
    apply wp_after_free; [apply free_looks, check_deadline_looks|exact Hsp|]. intros _ h1 Hc1.
    apply wp_after_free; [apply wp_free; unfold os; calls_only|intros h' e Hc; apply Hsp; by eapply (costs_trans 0 0 0 0)|].
    intros answer h2 Hc2. set (limit := N.min remaining COPY_BUFFER_BYTES). set (chunk := take_N limit answer).
    pose proof (costs_trans _ _ _ _ _ _ _ Hc1 Hc2) as Hc. destruct (is_empty chunk); [by apply Hsp|].
    assert (len chunk <= remaining) as Hl by (unfold chunk; rewrite len_take_N; lia).
    rewrite wp_bind_ok. eapply wp_consequence; [apply Hw|]. intros h3 [[]|e] Hc3; pose proof (costs_trans _ _ _ _ _ _ _ Hc Hc3) as Hc'.
    + eapply wp_consequence; [apply IH|]. intros h4 r (n & Hn & Hle & Hok). exists ((if paid then len chunk else 0) + n).
      split; [|split; [destruct paid; lia|intros Hk; specialize (Hok Hk); destruct paid; lia]]. eapply (costs_trans 0 _ 0 n); [exact Hc'|exact Hn].
    + eexists. split; [exact Hc'|]. split; [destruct paid; lia|done].
Qed.

(** At most so many entries and bytes; a success ends in the state [final] says. *)
Definition bounded_by (most_entries most_bytes : N) (final : N -> N -> CopyState) (h h' : list ev) (r : result FsError CopyState) : Prop :=
  exists e b, costs e b h h' /\ e <= most_entries /\ b <= most_bytes /\ forall st', r = Ok st' -> st' = final e b.

Lemma bounded_failure me mb final h h' x e b : costs e b h h' -> e <= me -> b <= mb -> bounded_by me mb final h h' (Err x).
Proof. intros Hc He Hb. by exists e, b. Qed.

Definition file_bounded (st : CopyState) : list ev -> list ev -> result FsError CopyState -> Prop :=
  bounded_by 1 (lim_bytes limits - cs_bytes st) (fun e b => mkCopyState (cs_entries st + e - 1) (cs_bytes st + b)).

Definition tree_bounded (st : CopyState) : list ev -> list ev -> result FsError CopyState -> Prop :=
  bounded_by (lim_entries limits - cs_entries st) (lim_bytes limits - cs_bytes st)
    (fun e b => mkCopyState (cs_entries st + e) (cs_bytes st + b)).

(** A free step in front of a bounded rest. *)
Lemma bounded_free {A} (p : fsprog A) (k : A -> fsprog CopyState) me mb final h0 h e b :
  costs e b h0 h -> e <= me -> b <= mb -> wp anything p (fun h' _ => costs 0 0 h h') h ->
  (forall a h', costs e b h0 h' -> wp anything (k a) (bounded_by me mb final h0) h') ->
  wp anything (bind_ok p k) (bounded_by me mb final h0) h.
Proof.
  intros Hc He Hb Hp Hk. assert (forall h', costs 0 0 h h' -> costs e b h0 h') as Hn.
  { intros h'. by apply costs_free. }
  apply wp_after_free; [done| |auto]. intros h' x Hf. by eapply bounded_failure; [apply Hn| |].
Qed.

Lemma copy_exact_spends source target size h :
  wp anything (copy_exact_with_digest pol limits source target size) (fun h' r => spends size h h' r) h.
Proof.
  unfold copy_exact_with_digest. rewrite wp_bind_ok.
  eapply wp_consequence; [apply (read_exact_spends _ _ _ _ _ _ _ _ true)|].
  - intros chunk h1. unfold os. rewrite wp_bind. cbn [perform wp]. split; [done|]. intros r. unfold costs, spent. cbn. split; lia.
  - intros h1 [c|e] (n & Hc & Hle & Hok); [|exists n; split; [done|]; split; [done|done]]. specialize (Hok eq_refl) as ->.
    apply wp_after_free; [apply free_call; unfold reject_source_growth, os, bail_if; calls_only| |].
    + intros h2 e Hf. exists size. split; [by eapply costs_free|done].
    + intros [] h2 Hf. cbn. exists size. split; [by eapply costs_free|done].
Qed.

Lemma hash_exact_free source size h : wp anything (hash_exact_source pol limits source size) (fun h' _ => costs 0 0 h h') h.
Proof.
  apply wp_free. unfold hash_exact_source, reject_source_growth. apply calls_only_bind_ok; [|intros c; unfold os, bail_if; calls_only].
  generalize (read_fuel size) as fuel. intros fuel. generalize (@nil N) as acc. revert size.
  induction fuel as [|fuel IH]; intros size acc; cbn [read_exact]; (destruct (size =? 0); [apply calls_only_ret|]); [apply calls_only_ret|].
  apply calls_only_bind_ok; [eapply calls_only_mono; [apply check_deadline_looks|by intros []]|]. intros _.
  apply calls_only_bind_ok; [unfold os; calls_only|]. intros answer. destruct (is_empty _); [apply calls_only_ret|].
  apply calls_only_bind_ok; [apply calls_only_ret|]. intros _. apply IH.
Qed.

Lemma count_bytes_bounded size st n st' : count_bytes pol limits size st = Ok (n, st') ->
  n <= lim_bytes limits - cs_bytes st /\ st' = mkCopyState (cs_entries st) (cs_bytes st + n).
Proof.
  unfold count_bytes. rewrite then_ok, fail_if_ok. intros [Hz Hk]. rewrite then_ok in Hk. destruct Hk as [_ Hk].
  rewrite then_ok, fail_if_ok, N.ltb_ge in Hk. destruct Hk as [Hl [= <- <-]]. split; [lia|done].
Qed.

Lemma free_ret {A} (r : result FsError A) h : wp anything (Ret r : fsprog A) (fun h' _ => costs 0 0 h h') h.
Proof. apply costs_refl. Qed.

Lemma free_open dir name how h : wp anything (os (perform (OpenAt dir name how))) (fun h' _ => costs 0 0 h h') h.
Proof. apply wp_free. unfold os. calls_only. Qed.

(** The next call costs nothing. *)
Ltac bounded_step :=
  eapply bounded_free; [eassumption|lia|lia|
    first [ apply free_ret | apply free_open
          | apply free_looks; first [apply check_deadline_looks | apply check_directory_looks | apply check_source_looks | apply stat_fd_looks]
          | eapply free_tends; first [apply prepare_file_tends | apply finish_file_tends | apply prepare_directory_tends | apply finish_directory_tends]
          | apply hash_exact_free | apply wp_free; unfold stat_at, os; calls_only ] |];
  match goal with Hc : costs _ _ _ _ |- _ => clear Hc end.

Lemma create_costs dir name readable mode h : wp anything (os (perform (CreateAt dir name readable mode))) (fun h' _ => costs 1 0 h h') h.
Proof. unfold os. rewrite wp_bind. cbn [perform wp]. split; [done|]. intros r. unfold costs, spent. cbn. split; lia. Qed.

Lemma copy_file_bounded sd td name entry st h :
  wp anything (copy_file pol limits sd td name entry st) (file_bounded st h) h.
Proof.
  unfold copy_file, file_bounded. pose proof (costs_refl h) as H1.
  bounded_step. intros [] h2 H2. bounded_step. intros [] h3 H3. bounded_step. intros source h4 H4. bounded_step. intros o h5 H5.
  bounded_step. intros [] h6 H6. bounded_step. intros [] h7 H7.
  rewrite wp_bind_ok. cbn [wp]. destruct (count_bytes pol limits (st_size entry) st) as [[size st1]|x] eqn:Ec;
    [|eapply bounded_failure; [exact H7|lia|lia]]. apply count_bytes_bounded in Ec as [Hn ->].
  rewrite wp_bind_ok. eapply wp_consequence; [apply create_costs|]. intros h8 [target|x] Hc8; pose proof (costs_trans _ _ _ _ _ _ _ H7 Hc8) as H8;
    cbn in H8; [|eapply bounded_failure; [exact H8|lia|lia]]. clear H7 Hc8.
  bounded_step. intros [] h9 H9. rewrite wp_bind_ok. eapply wp_consequence; [apply copy_exact_spends|].
  intros h10 d (n & Hc10 & Hle & Hok). pose proof (costs_trans _ _ _ _ _ _ _ H9 Hc10) as H10. cbn in H10. clear H9 Hc10.
  destruct d as [d1|x]; [|eapply bounded_failure; [exact H10|lia|lia]]. specialize (Hok eq_refl) as ->.
  bounded_step. intros [] h11 H11. bounded_step. intros d2 h12 H12. bounded_step. intros [] h13 H13. bounded_step. intros o2 h14 H14.
  bounded_step. intros [] h15 H15. bounded_step. intros o3 h16 H16. bounded_step. intros [] h17 H17. bounded_step. intros [] h18 H18.
  cbn. exists 1, size. split; [done|]. split; [lia|]. split; [lia|]. intros st' [= <-]. f_equal; lia.
Qed.

Definition in_limits (st : CopyState) : Prop := cs_entries st <= lim_entries limits /\ cs_bytes st <= lim_bytes limits.

Lemma count_entry_bounded st st1 : count_entry pol limits st = Ok st1 ->
  st1 = mkCopyState (cs_entries st + 1) (cs_bytes st) /\ cs_entries st + 1 <= lim_entries limits.
Proof.
  unfold count_entry. rewrite then_ok. intros [_ Hk]. rewrite then_ok, fail_if_ok, N.ltb_ge in Hk. by destruct Hk as [Hl [= <-]].
Qed.

(** A part of the tree is bounded by what was left for it. *)
Lemma tree_bounded_step st e b h h1 h' r :
  costs e b h h1 -> in_limits st -> cs_entries st + e <= lim_entries limits -> cs_bytes st + b <= lim_bytes limits ->
  tree_bounded (mkCopyState (cs_entries st + e) (cs_bytes st + b)) h1 h' r -> tree_bounded st h h' r.
Proof.
  intros Hc _ He Hb (e' & b' & Hc' & He' & Hb' & Hf). exists (e + e'), (b + b'). cbn in *.
  split; [by eapply costs_trans|]. split; [lia|]. split; [lia|]. intros st' Hr. rewrite (Hf _ Hr). f_equal; lia.
Qed.

Definition bounds_child (copy_child : fd -> fd -> CopyState -> fsprog CopyState) : Prop :=
  forall sd td st h, in_limits st -> wp anything (copy_child sd td st) (tree_bounded st h) h.

Lemma mkdir_costs dir name mode h : wp anything (mkdir_at dir name mode) (fun h' _ => costs 1 0 h h') h.
Proof. unfold mkdir_at, os. rewrite wp_bind. cbn [perform wp]. split; [done|]. intros r. unfold costs, spent. cbn. split; lia. Qed.

Lemma copy_entry_bounded copy_child sd td name st h : bounds_child copy_child -> in_limits st ->
  wp anything (copy_entry pol limits copy_child sd td name st) (tree_bounded st h) h.
Proof.
  intros Hchild Hst. unfold copy_entry, tree_bounded. pose proof (costs_refl h) as H1. destruct Hst as [Hse Hsb].
  bounded_step. intros [] h2 H2. rewrite wp_bind_ok. cbn [wp].
  destruct (count_entry pol limits st) as [st1|x] eqn:Ec; [|eapply bounded_failure; [exact H2|lia|lia]].
  apply count_entry_bounded in Ec as [-> He].
  bounded_step. intros [] h3 H3. bounded_step. intros n h4 H4. bounded_step. intros entry h5 H5.
  destruct (_ =? S_IFDIR).
  - bounded_step. intros [] h6 H6. bounded_step. intros sc h7 H7. bounded_step. intros o h8 H8. bounded_step. intros [] h9 H9.
    rewrite wp_bind_ok. eapply wp_consequence; [apply mkdir_costs|]. intros h10 [[]|x] Hc10;
      pose proof (costs_trans _ _ _ _ _ _ _ H9 Hc10) as H10; cbn in H10; [|eapply bounded_failure; [exact H10|lia|lia]]. clear H9 Hc10.
    bounded_step. intros tc h11 H11. bounded_step. intros [] h12 H12.
    rewrite wp_bind_ok. eapply wp_consequence; [apply Hchild; cbn; split; cbn; lia|]. intros h13 r (e & b & Hc13 & He13 & Hb13 & Hf).
    cbn in He13, Hb13. pose proof (costs_trans _ _ _ _ _ _ _ H12 Hc13) as H13. cbn in H13. clear H12 Hc13.
    destruct r as [st2|x]; [|eapply bounded_failure; [exact H13|lia|lia]]. rewrite (Hf _ eq_refl).
    bounded_step. intros [] h14 H14. cbn. exists (1 + e), b. split; [done|]. split; [lia|]. split; [lia|].
    intros st' [= <-]. f_equal; cbn; lia.
  - destruct (_ =? S_IFREG); [|destruct (_ =? S_IFLNK); eapply bounded_failure; [exact H5|lia|lia|exact H5|lia|lia]].
    eapply wp_consequence; [apply copy_file_bounded|]. intros h6 r (e & b & Hc & He1 & Hb & Hf). cbn in Hb.
    exists e, b. split; [by apply (costs_trans 0 0 e b h h5)|]. split; [lia|]. split; [lia|].
    intros st' Hr. rewrite (Hf _ Hr). cbn. f_equal; lia.
Qed.

Lemma copy_entries_bounded copy_child sd td names st h : bounds_child copy_child -> in_limits st ->
  wp anything (copy_entries pol limits copy_child sd td names st) (tree_bounded st h) h.
Proof.
  intros Hchild. revert st h. induction names as [|name names IH]; intros st h Hst; cbn [copy_entries].
  - exists 0, 0. split; [apply costs_refl|]. split; [lia|]. split; [lia|]. intros st' [= <-]. rewrite !N.add_0_r. by destruct st.
  - rewrite wp_bind_ok. eapply wp_consequence; [by apply copy_entry_bounded|]. intros h1 r (e & b & Hc & He & Hb & Hf).
    destruct Hst as [Hse Hsb]. destruct r as [st1|x]; [|by exists e, b]. rewrite (Hf _ eq_refl).
    eapply wp_consequence; [apply IH; split; cbn; lia|]. intros h2 r Hr. eapply tree_bounded_step; [exact Hc|done|lia|lia|exact Hr].
Qed.

Lemma copy_directory_bounded levels : bounds_child (copy_directory pol limits levels).
Proof.
  induction levels as [|levels IH]; intros sd td st h Hst; cbn [copy_directory]; unfold tree_bounded; pose proof (costs_refl h) as H1;
    destruct Hst as [Hse Hsb]; bounded_step; intros [] h2 H2; [eapply bounded_failure; [exact H2|lia|lia]|].
  bounded_step. intros before h3 H3. bounded_step. intros [] h4 H4.
  eapply bounded_free; [exact H4|lia|lia|apply wp_free; unfold list_directory, os; calls_only|]. intros names h5 H5. clear H4.
  rewrite wp_bind_ok. eapply wp_consequence; [by apply copy_entries_bounded|]. intros h6 r (e & b & Hc & He & Hb & Hf).
  pose proof (costs_trans _ _ _ _ _ _ _ H5 Hc) as H6. cbn in H6. clear H5 Hc.
  destruct r as [st1|x]; [|eapply bounded_failure; [exact H6|lia|lia]].
  bounded_step. intros after h7 H7. bounded_step. intros [] h8 H8. cbn. exists e, b. split; [done|]. split; [done|]. split; [done|].
  intros st' [= <-]. by apply Hf.
Qed.
End rules.

(** ** Only the target is altered *)

Section gains.
Context `{Sha256} (pol : CopyPolicy) `{CopyLaws pol} (limits : Limits).

Lemma read_exact_gains fs fuel operation changed source write remaining acc :
  (forall chunk, stays gains fs (write chunk)) -> stays gains fs (read_exact limits fuel operation changed source write remaining acc).
Proof.
  intros Hw. revert remaining acc. induction fuel as [|fuel IH]; intros remaining acc; cbn [read_exact];
    (destruct (remaining =? 0); [apply stays_ret|]); [apply stays_ret|].
  apply stays_bind_ok; [apply looks_gains, check_deadline_looks|]. intros _. apply stays_bind_ok; [by apply stays_os, stays_perform|].
  intros answer. destruct (is_empty _); [apply stays_ret|]. apply stays_bind_ok; auto.
Qed.

Lemma digests_gain fs source target size :
  stays gains fs (copy_exact_with_digest pol limits source target size) /\ stays gains fs (hash_exact_source pol limits source size).
Proof.
  unfold copy_exact_with_digest, hash_exact_source, reject_source_growth, bail_if.
  split; (apply stays_bind_ok; [apply read_exact_gains; intros; stays|intros; stays]).
Qed.

#[local] Hint Extern 4 (stays gains _ _) =>
  first [ apply looks_gains; first [ apply check_deadline_looks | apply stat_fd_looks | apply bail_if_looks
                                    | apply check_directory_looks | apply check_source_looks ]
        | eapply tends_gains; first [ apply prepare_file_tends | apply finish_file_tends | apply prepare_directory_tends | apply finish_directory_tends ]
        | apply digests_gain ] : stays.

(** Steps through a program; what is made is made in a directory in view. *)
Ltac gain_steps :=
  repeat first
    [ progress intros
    | apply stays_ret
    | solve [eauto with stays nocore]
    | eapply stays_bind_fd; [first [solve [eauto with stays nocore] | by apply stays_create_at]|]
    | apply stays_bind_ok; [first [apply stays_ret | solve [eauto with stays nocore] | solve [stays] | by apply stays_os, stays_perform]|]
    | case_match ].

Lemma copy_file_gains fs sd td name entry st : td ∈ fs -> stays gains fs (copy_file pol limits sd td name entry st).
Proof.
  intros Hd. unfold copy_file, open_source_file, stat_at, c_string. gain_steps.
Qed.

Lemma copy_entry_gains copy_child sd td name st :
  (forall fs a b s, b ∈ fs -> stays gains fs (copy_child a b s)) -> stays gains [td] (copy_entry pol limits copy_child sd td name st).
Proof.
  intros Hc. unfold copy_entry, open_directory_at, mkdir_at, stat_at, c_string, bail.
  apply stays_bind_ok; [solve [eauto with stays nocore]|]. intros _. apply stays_bind_ok; [apply stays_ret|]. intros st'.
  apply stays_bind_ok; [apply stays_ret|]. intros _. apply stays_bind_ok; [apply stays_ret|]. intros name'.
  apply stays_bind_ok; [stays|]. intros entry.
  destruct (_ =? S_IFDIR); [|destruct (_ =? S_IFREG); [apply copy_file_gains; in_view|destruct (_ =? S_IFLNK); apply stays_ret]].
  apply stays_bind_ok; [apply stays_ret|]. intros _. eapply stays_bind_fd; [eauto with stays nocore|]. intros sc.
  do 2 (apply stays_bind_ok; [eauto with stays nocore|]; intros ?).
  apply stays_bind_ok; [apply stays_os, stays_perform; cbn; in_view|]. intros _.
  eapply stays_bind_fd; [eauto with stays nocore|]. intros tc.
  apply stays_bind_ok; [eauto with stays nocore|]. intros _. apply stays_bind_ok; [apply Hc; in_view|]. intros st''.
  apply stays_bind_ok; [eauto with stays nocore|]. intros _. apply stays_ret.
Qed.

Lemma copy_directory_gains levels fs sd td st : td ∈ fs -> stays gains fs (copy_directory pol limits levels sd td st).
Proof.
  revert fs sd td st. induction levels as [|levels IH]; intros fs sd td st Htd; cbn [copy_directory];
    (apply stays_bind_ok; [eauto with stays nocore|]; intros _); [apply stays_ret|].
  do 2 (apply stays_bind_ok; [eauto with stays nocore|]; intros ?).
  apply stays_bind_ok; [unfold list_directory; stays|]. intros names. apply stays_bind_ok.
  - generalize st. induction names as [|name names IHn]; intros st'; cbn [copy_entries]; [apply stays_ret|].
    apply stays_bind_ok; [|intros; apply IHn]. eapply stays_mono; [by apply copy_entry_gains|]. by intros f ->%list_elem_of_singleton.
  - intros st'. do 2 (apply stays_bind_ok; [eauto with stays nocore|]; intros ?). apply stays_ret.
Qed.
End gains.
