(* ===== verification/RunnerInput.v ===== *)
(** * Staging the input of a run

    [src/runner_input.rs]: a fresh, named directory below the pending root, filled with a copy
    of the evidence tree, published by its modes, and removed again when anything fails. *)

From S2P Require Import Prelude Effects Text Digest Paths WorkBudget Descriptors TreeCopy LauncherProtocol CanaryProtocol IsolatedPlan.

Local Open Scope N_scope.

Definition PENDING_ROOT_MODE : N := 1496.
Definition PRIVATE_DIRECTORY_MODE : N := 1472.
Definition SOURCE_DIRECTORY_MODE : N := 1528.
Definition SOURCE_FILE_MODE : N := 416.
Definition RUN_ID_PREFIX : str := lit "run-".
Definition RUN_ID_DIGEST_BYTES : N := 30.
Definition RUN_ID_ATTEMPTS : nat := 128.
Definition CODEX_PENDING_INPUT_ROOT : path := lit "/var/lib/webex-generic-account-bot/codex-input-staging/pending".

Definition evidence : str := lit "evidence workspace".
Definition staging : str := lit "pending workspace staging".

(** ** Opening paths *)

(** [open_path_directory]: the components below the anchor, which may not escape. *)
Fixpoint normal_components (cs : list Component) : option (list bytes) :=
  match cs with
  | [] => Some []
  | RootDir :: cs | CurDir :: cs => normal_components cs
  | Normal n :: cs => ns ← normal_components cs; Some (n :: ns)
  | ParentDir :: _ => None
  end.

Fixpoint open_below (dir : fd) (names : list bytes) (readable : bool) : fsprog fd :=
  match names with
  | [] => Ret (Ok dir)
  | name :: names =>
      let*? name := c_string name in
      let*? dir := open_directory_at dir name (readable && is_empty names) in
      open_below dir names readable
  end.

Definition open_path_directory (p : path) (readable : bool) : fsprog fd :=
  match normal_components (components p) with
  | None => bail (lit "directory path contains a path escape")
  | Some names =>
      let anchor := if is_absolute p then lit "/" else lit "." in
      let access := if readable && is_empty names then Readable else PathOnly in
      let*? dir := os (perform (OpenAnchor anchor access)) in
      open_below dir names readable
  end.

(** ** Checks *)

Definition directory_matches (m : StatSnapshot) (uid gid mode : N) : bool :=
  (file_type m =? S_IFDIR) && (st_uid m =? uid) && (st_gid m =? gid) && (st_permissions m =? mode).

Definition validate_pending_root (root : fd) (expected_uid launch_gid : N) (description : str) : fsprog unit :=
  let*? m := stat_fd root in
  bail_if (negb (directory_matches m expected_uid launch_gid PENDING_ROOT_MODE)) (description ++ lit " metadata is invalid").

Definition validate_destination_directory_metadata (m : StatSnapshot) (source_uid launch_gid mode : N) : fsprog unit :=
  bail_if (negb (directory_matches m source_uid launch_gid mode))
    (lit "pending workspace directory owner, group, or mode is invalid").

Definition validate_destination_directory (directory : fd) (source_uid launch_gid mode : N) : fsprog unit :=
  let*? m := stat_fd directory in
  let*? _ := validate_destination_directory_metadata m source_uid launch_gid mode in
  ensure_posix_acl_absent directory (lit "pending workspace directory").

Definition file_matches (m : StatSnapshot) (uid gid mode : N) (size : Z) : bool :=
  (file_type m =? S_IFREG) && (st_uid m =? uid) && (st_gid m =? gid) && (st_permissions m =? mode)
  && (st_links m =? 1) && (st_size m =? size)%Z.

Definition validate_destination_file (file : fd) (source_uid launch_gid mode : N) (size : Z) : fsprog unit :=
  let*? m := stat_fd file in
  let*? _ := bail_if (negb (file_matches m source_uid launch_gid mode size))
               (lit "pending workspace file owner, group, mode, or size is invalid") in
  ensure_posix_acl_absent file (lit "pending workspace file").

(** ** The copy *)

Section copy.
Context `{Sha256} (source_uid launch_gid : N).

Definition finish_staged_directory (source_child target_child : fd) (entry : StatSnapshot) : fsprog unit :=
  let*? _ := recheck_directory evidence source_child entry in
  let*? _ := set_mode target_child SOURCE_DIRECTORY_MODE in
  let*? _ := validate_destination_directory target_child source_uid launch_gid SOURCE_DIRECTORY_MODE in
  sync_checked target_child.

Definition finish_staged_file (target : fd) (entry : StatSnapshot) : fsprog unit :=
  let*? _ := set_mode target SOURCE_FILE_MODE in
  let*? _ := sync_checked target in
  validate_destination_file target source_uid launch_gid SOURCE_FILE_MODE (st_size entry).

Definition prepare_staged_directory (target_child : fd) : fsprog unit :=
  let*? _ := set_mode target_child PRIVATE_DIRECTORY_MODE in
  validate_destination_directory target_child source_uid launch_gid PRIVATE_DIRECTORY_MODE.

Definition staging_policy : CopyPolicy := {|
  subject := evidence;
  work_operation := staging;
  copy_operation := lit "pending workspace copy";
  verify_operation := lit "pending workspace verification";
  invalid_size := lit " size is invalid";
  private_directory_mode := PRIVATE_DIRECTORY_MODE;
  target_readable := true;
  check_directory _ before := bail_if (negb (file_type before =? S_IFDIR)) (evidence ++ lit " entry is not a directory");
  check_child _ := Ok tt;
  check_file entry := fail_if (negb (st_links entry =? 1)) (Bail (evidence ++ lit " contains a hard-linked file"));
  check_source _ := Ret (Ok tt);
  prepare_directory := prepare_staged_directory;
  finish_directory := finish_staged_directory;
  prepare_file target := validate_destination_file target source_uid launch_gid PRIVATE_FILE_MODE 0;
  finish_file := finish_staged_file
|}.

(** ** Run directories *)

Definition u64_be_bytes (n : N) : bytes := to_be_bytes (n / 2 ^ 32) ++ to_be_bytes (n mod 2 ^ 32).

Definition run_id_of (message_id : str) (nonce : bytes) : str :=
  RUN_ID_PREFIX
  ++ hex (take_N RUN_ID_DIGEST_BYTES
            (sha256 (lit "webex-codex-pending-run-v1" ++ [0] ++ u64_be_bytes (byte_len message_id) ++ as_bytes message_id ++ nonce))).

Definition generate_run_id (message_id : str) : fsprog str :=
  let* nonce := (perform RandomBytes : prog fs_answer (option bytes)) in
  Ret (match nonce with
       | None => Err (Bail (lit "failed to obtain run identifier randomness"))
       | Some nonce => Ok (run_id_of message_id nonce)
       end).

Record RunDirectory : Type := mkRunDirectory { rd_run_id : str; rd_name : bytes; rd_workspace : fd; rd_identity : ObjectIdentity }.

Definition setup_run_directory (pending_root : fd) (name : bytes) : fsprog (fd * ObjectIdentity) :=
  let*? workspace := open_directory_at pending_root name true in
  let*? _ := set_mode workspace PRIVATE_DIRECTORY_MODE in
  let*? _ := validate_destination_directory workspace source_uid launch_gid PRIVATE_DIRECTORY_MODE in
  let*? m := stat_fd workspace in
  Ret (Ok (workspace, identity m)).

Definition create_named_run_directory (pending_root : fd) (run_id : str) : fsprog RunDirectory :=
  if any (N.eqb 0) (as_bytes run_id) then bail (lit "run id contains NUL")
  else
    let name := as_bytes run_id in
    let*? _ := mkdir_at pending_root name PRIVATE_DIRECTORY_MODE in
    let* setup := setup_run_directory pending_root name in
    match setup with
    | Ok (workspace, id) => Ret (Ok (mkRunDirectory run_id name workspace id))
    | Err error =>
        let* cleanup := unlink_at pending_root name true in
        match cleanup with
        | Ok _ => fail error
        | Err cleanup_error => fail (AlsoFailed error [cleanup_error])
        end
    end.

Fixpoint create_run_directory_attempts (attempts : nat) (pending_root : fd) (message_id : str) : fsprog RunDirectory :=
  match attempts with
  | O => bail (lit "failed to allocate a unique pending workspace")
  | S attempts =>
      let*? run_id := generate_run_id message_id in
      let* created := create_named_run_directory pending_root run_id in
      match created with
      | Ok created => Ret (Ok created)
      | Err error =>
          if bool_decide (raw_os_error error = Some EEXIST)
          then create_run_directory_attempts attempts pending_root message_id
          else fail error
      end
  end.

Definition create_run_directory (pending_root : fd) (message_id : str) (requested_run_id : option str) : fsprog RunDirectory :=
  match requested_run_id with
  | Some run_id =>
      if is_ok (validate_runtime_canary_nonce run_id) then create_named_run_directory pending_root run_id
      else bail (lit "runtime canary nonce must be 32 lowercase hexadecimal bytes")
  | None => create_run_directory_attempts RUN_ID_ATTEMPTS pending_root message_id
  end.
End copy.

(** ** Removal *)

Definition cleaning : str := lit "pending workspace cleanup".

(** [remove_tree_at] calls itself for every directory below; [stack] bounds that depth. *)
Fixpoint remove_tree_at (stack : nat) (deadline : option WorkBudget) (parent : fd) (name : bytes) : fsprog unit :=
  match stack with
  | O => fail Exhausted
  | S stack =>
      let*? _ := check_deadline deadline cleaning in
      let*? m := stat_at parent name in
      if file_type m =? S_IFDIR then
        let*? directory := open_directory_at parent name true in
        let*? opened := stat_fd directory in
        let*? _ := bail_if (negb (bool_decide (identity opened = identity m))) (lit "cleanup directory changed before removal") in
        let*? children := list_directory evidence directory WORKSPACE_ENTRY_MAX in
        let*? _ := (fix remove_children (children : list bytes) : fsprog unit :=
                      match children with
                      | [] => Ret (Ok tt)
                      | child :: children =>
                          let*? child := c_string child in
                          let*? _ := remove_tree_at stack deadline directory child in
                          remove_children children
                      end) children in
        let*? _ := sync_checked directory in
        unlink_at parent name true
      else unlink_at parent name false
  end.

Definition sync_filesystem (file : fd) : fsprog unit := os (perform (Syncfs file)).

Definition remove_owned_workspace (stack : nat) (pending_root workspace : fd) (name : bytes) (expected : ObjectIdentity)
    (missing_ok : bool) (deadline : option WorkBudget) : fsprog unit :=
  let*? _ := check_deadline deadline cleaning in
  let* current := stat_at pending_root name in
  match current with
  | Err error => if missing_ok && bool_decide (raw_os_error error = Some ENOENT) then Ret (Ok tt) else fail error
  | Ok current =>
      let*? _ := bail_if (negb (bool_decide (identity current = expected))) (lit "refusing to clean a replaced pending workspace") in
      let*? _ := remove_tree_at stack deadline pending_root name in
      sync_filesystem workspace
  end.

(** ** Pending workspaces *)

Record PendingWorkspace : Type := mkPending {
  pw_run_id : str;
  pw_pending_root : fd;
  pw_workspace : fd;
  pw_workspace_name : bytes;
  pw_workspace_identity : ObjectIdentity;
  pw_cleanup_armed : bool
}.

(** The clean-up gives the workspace back with its armed flag. *)
Definition cleanup_with_deadline (stack : nat) (w : PendingWorkspace) (deadline : option WorkBudget) : fsprog PendingWorkspace :=
  if negb (pw_cleanup_armed w) then Ret (Ok w)
  else
    let*? held := stat_fd (pw_workspace w) in
    let*? _ := bail_if (negb (bool_decide (identity held = pw_workspace_identity w)))
                 (lit "refusing to clean a pending workspace whose held identity changed") in
    let*? _ := remove_owned_workspace stack (pw_pending_root w) (pw_workspace w) (pw_workspace_name w) (pw_workspace_identity w) true deadline in
    Ret (Ok (mkPending (pw_run_id w) (pw_pending_root w) (pw_workspace w) (pw_workspace_name w) (pw_workspace_identity w) false)).

Section stage.
Context `{Sha256}.

(** The source of the copy, which may not be the pending root itself. *)
Definition open_evidence (pending_root : fd) (evidence_root : option path) : fsprog (option fd) :=
  match evidence_root with
  | None => Ret (Ok None)
  | Some p =>
      let*? source := open_path_directory p true in
      let*? source_metadata := stat_fd source in
      let*? pending_metadata := stat_fd pending_root in
      let*? _ := bail_if (bool_decide (identity source_metadata = identity pending_metadata))
                   (lit "evidence root must not be the pending input root") in
      Ret (Ok (Some source))
  end.

Definition fill_workspace (source_uid launch_gid : N) (limits : Limits) (source : option fd) (workspace : fd) : fsprog unit :=
  match source with
  | None => Ret (Ok tt)
  | Some source =>
      let*? _ := copy_directory (staging_policy source_uid launch_gid) limits (root_levels limits) source workspace (mkCopyState 0 0) in
      Ret (Ok tt)
  end.

(** The pending root is still where it was, and the workspace in it. *)
Definition check_published (pending_root_path : path) (expected_root_uid source_uid launch_gid : N) (pending_root : fd) (run : RunDirectory)
  : fsprog unit :=
  let*? reopened := open_path_directory pending_root_path false in
  let*? _ := validate_pending_root reopened expected_root_uid launch_gid (lit "pending input root") in
  let*? there := stat_fd reopened in
  let*? held := stat_fd pending_root in
  let*? _ := bail_if (negb (bool_decide (identity there = identity held)))
               (lit "pending input root path changed during workspace staging") in
  let*? published := stat_at pending_root (rd_name run) in
  let*? _ := bail_if (negb (bool_decide (identity published = rd_identity run)))
               (lit "pending workspace identity changed during staging") in
  let*? _ := validate_destination_directory_metadata published source_uid launch_gid SOURCE_DIRECTORY_MODE in
  sync_filesystem (rd_workspace run).

Definition publish_workspace (pending_root_path : path) (expected_root_uid source_uid launch_gid : N) (limits : Limits)
    (pending_root : fd) (run : RunDirectory) : fsprog unit :=
  let workspace := rd_workspace run in
  let*? _ := check_deadline (lim_deadline limits) (lit "pending workspace publication") in
  let*? _ := set_mode workspace SOURCE_DIRECTORY_MODE in
  let*? _ := validate_destination_directory workspace source_uid launch_gid SOURCE_DIRECTORY_MODE in
  let*? _ := sync_checked workspace in
  check_published pending_root_path expected_root_uid source_uid launch_gid pending_root run.

(** From the creation of the run directory on. *)
Definition stage_in (stack : nat) (pending_root_path : path) (expected_root_uid source_uid launch_gid : N) (message_id : str)
    (requested_run_id : option str) (limits : Limits) (pending_root : fd) (source : option fd) : fsprog PendingWorkspace :=
  let*? run := create_run_directory source_uid launch_gid pending_root message_id requested_run_id in
  let* staged :=
    (let*? _ := fill_workspace source_uid launch_gid limits source (rd_workspace run) in
     publish_workspace pending_root_path expected_root_uid source_uid launch_gid limits pending_root run) in
  match staged with
  | Ok _ => Ret (Ok (mkPending (rd_run_id run) pending_root (rd_workspace run) (rd_name run) (rd_identity run) true))
  | Err error =>
      let* cleanup := remove_owned_workspace stack pending_root (rd_workspace run) (rd_name run) (rd_identity run) false None in
      match cleanup with
      | Ok _ => fail error
      | Err cleanup_error => fail (AlsoFailed error [cleanup_error])
      end
  end.

Definition stage_workspace_at (stack : nat) (pending_root_path : path) (expected_root_uid source_uid launch_gid : N) (message_id : str)
    (requested_run_id : option str) (evidence_root : option path) (limits : Limits) : fsprog PendingWorkspace :=
  let*? _ := check_deadline (lim_deadline limits) staging in
  let*? pending_root := open_path_directory pending_root_path false in
  let*? _ := validate_pending_root pending_root expected_root_uid launch_gid (lit "pending input root") in
  let*? source := open_evidence pending_root evidence_root in
  stage_in stack pending_root_path expected_root_uid source_uid launch_gid message_id requested_run_id limits pending_root source.

(** [production_codex_group_ids]: its answer is an argument. *)
Definition stage_workspace (stack : nat) (groups : result FsError CodexGroupIds) (message_id : str) (evidence_root : option path)
  : fsprog PendingWorkspace :=
  let* now := (perform Now : prog fs_answer N) in
  let deadline := with_cancellation now (INPUT_STAGING_WORK_TIMEOUT_SECONDS * 1000) in
  let*? groups := Ret groups in
  let* uid := (perform EffectiveUid : prog fs_answer N) in
  stage_workspace_at stack CODEX_PENDING_INPUT_ROOT 0 uid (launch groups) message_id None evidence_root (default_limits (Some deadline)).

Definition stage_runtime_canary_workspace (stack : nat) (groups : result FsError CodexGroupIds) (run_id : str) (evidence_root : path)
  : fsprog PendingWorkspace :=
  if is_ok (validate_runtime_canary_nonce run_id) then
    let* now := (perform Now : prog fs_answer N) in
    let deadline := with_cancellation now (INPUT_STAGING_WORK_TIMEOUT_SECONDS * 1000) in
    let*? groups := Ret groups in
    let* uid := (perform EffectiveUid : prog fs_answer N) in
    stage_workspace_at stack CODEX_PENDING_INPUT_ROOT 0 uid (launch groups) (lit "runtime-canary") (Some run_id) (Some evidence_root)
      (default_limits (Some deadline))
  else bail (lit "runtime canary nonce must be 32 lowercase hexadecimal bytes").
End stage.

(** [PendingWorkspace::cleanup]. *)
Definition cleanup (stack : nat) (w : PendingWorkspace) : fsprog PendingWorkspace :=
  let* now := (perform Now : prog fs_answer N) in
  cleanup_with_deadline stack w (Some (with_cancellation now (PENDING_WORKSPACE_CLEANUP_WORK_TIMEOUT_SECONDS * 1000))).
