(* ===== verification/RunnerInputRules.v ===== *)
(** * What staging promises

    The laws of the staging policy, and what holds of a staged workspace: it is a faithful
    and bounded copy, and a failure takes it away again. *)

From S2P Require Import Prelude Effects Text Digest Paths WorkBudget Descriptors DescriptorRules TreeCopy TreeCopyRules RunnerInput LauncherProtocol CanaryProtocol IsolatedPlan.

Local Open Scope N_scope.

Abbreviation ev := (event fs_answer) (only parsing).

(** ** Checks *)

Lemma validate_destination_directory_looks d uid gid mode : calls_only looks (validate_destination_directory d uid gid mode).
Proof. unfold validate_destination_directory, validate_destination_directory_metadata. calls_only. Qed.

Lemma validate_destination_file_looks f uid gid mode size : calls_only looks (validate_destination_file f uid gid mode size).
Proof. unfold validate_destination_file. calls_only. Qed.

#[export] Hint Resolve validate_destination_directory_looks validate_destination_file_looks : calls_only.

Lemma validate_destination_directory_ok env h h' d uid gid mode :
  exec env h (validate_destination_directory d uid gid mode) = (h', Ok tt) ->
  (exists m, (Ev (Fstat d) (Ok m) : ev) ∈ h' /\ directory_matches m uid gid mode = true) /\ no_acl h' d.
Proof.
  unfold validate_destination_directory. intros (h1 & m & H1 & Hk)%exec_bind_ok. unfold stat_fd in H1. prim_ok H1.
  apply exec_bind_ok in Hk as (h2 & [] & [-> Hm]%exec_bail_if & Hk). pose proof (exec_extends_to _ _ _ _ _ Hk) as Hx.
  apply ensure_posix_acl_absent_ok in Hk. split; [|done]. exists m. apply negb_false_iff in Hm. split; [|done].
  eapply extends_in; [exact Hx|by left].
Qed.

Lemma validate_destination_file_ok env h h' f uid gid mode size :
  exec env h (validate_destination_file f uid gid mode size) = (h', Ok tt) ->
  (exists m, (Ev (Fstat f) (Ok m) : ev) ∈ h' /\ file_matches m uid gid mode size = true) /\ no_acl h' f.
Proof.
  unfold validate_destination_file. intros (h1 & m & H1 & Hk)%exec_bind_ok. unfold stat_fd in H1. prim_ok H1.
  apply exec_bind_ok in Hk as (h2 & [] & [-> Hm]%exec_bail_if & Hk). pose proof (exec_extends_to _ _ _ _ _ Hk) as Hx.
  apply ensure_posix_acl_absent_ok in Hk. split; [|done]. exists m. apply negb_false_iff in Hm. split; [|done].
  eapply extends_in; [exact Hx|by left].
Qed.

(** ** The laws *)

Section laws.
Context (source_uid launch_gid : N).

Lemma finish_staged_directory_ok env h h' s d m :
  exec env h (finish_staged_directory source_uid launch_gid s d m) = (h', Ok tt) ->
  finished SOURCE_DIRECTORY_MODE (fun m => directory_matches m source_uid launch_gid SOURCE_DIRECTORY_MODE) h' d.
Proof.
  unfold finish_staged_directory. intros (h1 & [] & _ & Hk)%exec_bind_ok.
  apply exec_bind_ok in Hk as (h2 & [] & H2 & Hk). unfold set_mode in H2. prim_ok H2.
  apply exec_bind_ok in Hk as (h3 & [] & H3 & H4). unfold sync_checked in H4. prim_ok H4.
  pose proof (exec_looks_about d _ _ _ _ _ (validate_destination_directory_looks _ _ _ _) H3) as Ha.
  apply validate_destination_directory_ok in H3 as [(m' & Hin & Hm) Hn]. split; [|split].
  - exists (about d h1). by rewrite about_touch, Ha, about_touch.
  - exists m'. split; [by right|done].
  - intros a. destruct (Hn a) as (errno & He & ?). exists errno. split; [by right|done].
Qed.

Lemma finish_staged_file_ok env h h' f m :
  exec env h (finish_staged_file source_uid launch_gid f m) = (h', Ok tt) ->
  finished SOURCE_FILE_MODE (fun m' => file_matches m' source_uid launch_gid SOURCE_FILE_MODE (st_size m)) h' f.
Proof.
  unfold finish_staged_file. intros (h1 & [] & H1 & Hk)%exec_bind_ok. unfold set_mode in H1. prim_ok H1.
  apply exec_bind_ok in Hk as (h2 & [] & H2 & Hk). unfold sync_checked in H2. prim_ok H2.
  pose proof (exec_looks_about f _ _ _ _ _ (validate_destination_file_looks _ _ _ _ _) Hk) as Ha.
  apply validate_destination_file_ok in Hk as [Hm Hn]. split; [|done]. exists (about f h). by rewrite Ha, !about_touch.
Qed.

End laws.

#[export] Program Instance staging_laws `{Sha256} source_uid launch_gid : CopyLaws (staging_policy source_uid launch_gid) := {|
  final_file_mode := SOURCE_FILE_MODE;
  final_directory_mode := SOURCE_DIRECTORY_MODE;
  fits_file m m' := file_matches m' source_uid launch_gid SOURCE_FILE_MODE (st_size m);
  fits_directory m := directory_matches m source_uid launch_gid SOURCE_DIRECTORY_MODE;
  finish_directory_ok := finish_staged_directory_ok source_uid launch_gid;
  finish_file_ok := finish_staged_file_ok source_uid launch_gid
|}.
Next Obligation. intros. apply calls_only_ret. Qed.
Next Obligation. intros. apply calls_only_ret. Qed.
Next Obligation.
  intros. apply calls_only_bind_ok; [auto with calls_only|]. intros. apply looks_calls_tend. auto with calls_only.
Qed.
Next Obligation.
  intros. apply calls_only_bind_ok; [apply looks_calls_tend; unfold recheck_directory; calls_only|]. intros _.
  apply calls_only_bind_ok; [auto with calls_only|]. intros _. apply calls_only_bind_ok; [apply looks_calls_tend; auto with calls_only|].
  intros _. auto with calls_only.
Qed.
Next Obligation. intros. apply looks_calls_tend, validate_destination_file_looks. Qed.
Next Obligation.
  intros. apply calls_only_bind_ok; [auto with calls_only|]. intros _. apply calls_only_bind_ok; [auto with calls_only|]. intros _.
  apply looks_calls_tend. auto with calls_only.
Qed.

(** ** Opening *)

Lemma open_below_stays sub fs dir names readable :
  (forall d n how, sub (OpenAt d n how) = None) -> stays sub fs (open_below dir names readable).
Proof.
  intros Ho. revert dir. induction names as [|name names IH]; intros dir; cbn [open_below]; [apply stays_ret|].
  apply stays_bind_ok; [apply stays_ret|]. intros n. apply stays_bind_ok; [|intros; apply IH].
  unfold open_directory_at. apply stays_os, stays_perform. by rewrite Ho.
Qed.

Lemma open_path_directory_stays sub fs p readable :
  (forall d n how, sub (OpenAt d n how) = None) -> (forall a how, sub (OpenAnchor a how) = None) ->
  stays sub fs (open_path_directory p readable).
Proof.
  intros Ho Ha. unfold open_path_directory. destruct (normal_components _) as [names|]; [|apply stays_ret].
  apply stays_bind_ok; [apply stays_os, stays_perform; by rewrite Ha|]. intros. by apply open_below_stays.
Qed.

Lemma validate_pending_root_looks root uid gid d : calls_only looks (validate_pending_root root uid gid d).
Proof. unfold validate_pending_root. calls_only. Qed.

Section publish.
Context (sub : fs_call -> option fd) (p : path) (root_uid source_uid gid : N) (limits : Limits) (pending_root : fd) (run : RunDirectory).
Hypothesis Hlooks : forall c, looks c = true -> sub c = None.
Hypothesis Hopen : forall d n how, sub (OpenAt d n how) = None.
Hypothesis Hanchor : forall a how, sub (OpenAnchor a how) = None.
Hypothesis Hsyncfs : forall f, sub (Syncfs f) = None.

Lemma looks_none fs {A} (q : prog fs_answer A) : calls_only looks q -> stays sub fs q.
Proof. intros Hq. eapply calls_only_stays; [exact Hq|]. intros c f Hc Hsub. by rewrite Hlooks in Hsub. Qed.

Lemma check_published_stays fs : stays sub fs (check_published p root_uid source_uid gid pending_root run).
Proof.
  unfold check_published, sync_filesystem, stat_at.
  apply stays_bind_ok; [by apply open_path_directory_stays|]. intros reopened.
  apply stays_bind_ok; [apply looks_none, validate_pending_root_looks|]. intros _.
  do 3 (apply stays_bind_ok; [apply looks_none; auto with calls_only|]; intros ?).
  apply stays_bind_ok; [apply stays_os, stays_perform; by rewrite Hlooks|]. intros published.
  apply stays_bind_ok; [apply looks_none; auto with calls_only|]. intros _.
  apply stays_bind_ok; [apply looks_none; unfold validate_destination_directory_metadata; auto with calls_only|]. intros _.
  apply stays_os, stays_perform. by rewrite Hsyncfs.
Qed.

Lemma publish_stays fs :
  (forall f mode, f ∈ fs -> match sub (Fchmod f mode) with Some g => g ∈ fs | None => True end) ->
  (forall f, f ∈ fs -> match sub (Fsync f) with Some g => g ∈ fs | None => True end) -> rd_workspace run ∈ fs ->
  stays sub fs (publish_workspace p root_uid source_uid gid limits pending_root run).
Proof.
  intros Hm Hf Hw. unfold publish_workspace, set_mode, sync_checked.
  apply stays_bind_ok; [apply looks_none; auto with calls_only|]. intros _. apply stays_bind_ok; [by apply stays_os, stays_perform, Hm|]. intros _.
  apply stays_bind_ok; [apply looks_none; auto with calls_only|]. intros _. apply stays_bind_ok; [by apply stays_os, stays_perform, Hf|]. intros _.
  apply check_published_stays.
Qed.
End publish.

(** ** Run directories *)

Lemma open_path_directory_no_file p readable : calls_only no_file (open_path_directory p readable).
Proof.
  unfold open_path_directory. destruct (normal_components _) as [names|]; [|apply calls_only_ret].
  apply calls_only_bind_ok; [unfold os; calls_only|]. intros dir. revert dir. induction names as [|name names IH]; intros dir; cbn [open_below]; [apply calls_only_ret|].
  apply calls_only_bind_ok; [apply calls_only_ret|]. intros n. apply calls_only_bind_ok; [unfold open_directory_at, os; calls_only|]. intros. apply IH.
Qed.

#[local] Hint Extern 3 (calls_only no_file _) =>
  apply looks_no_file; first [ apply check_deadline_looks | apply stat_fd_looks | apply bail_if_looks | apply validate_pending_root_looks
                             | apply validate_destination_directory_looks ] : calls_only.
#[local] Hint Resolve open_path_directory_no_file : calls_only.

Lemma open_evidence_no_file root p : calls_only no_file (open_evidence root p).
Proof. unfold open_evidence. calls_only. Qed.

Lemma create_run_directory_no_file `{Sha256} uid gid root mid rid : calls_only no_file (create_run_directory uid gid root mid rid).
Proof.
  assert (forall id, calls_only no_file (create_named_run_directory uid gid root id)) as Hn.
  { intros id. unfold create_named_run_directory, setup_run_directory, mkdir_at, open_directory_at, unlink_at, set_mode, os, bail, fail. calls_only. }
  unfold create_run_directory. destruct rid; [destruct (is_ok _); [apply Hn|apply calls_only_ret]|].
  induction RUN_ID_ATTEMPTS as [|n IH]; cbn [create_run_directory_attempts]; [apply calls_only_ret|].
  apply calls_only_bind_ok; [unfold generate_run_id; calls_only|]. intros id. apply calls_only_bind; [apply Hn|].
  intros [d|e]; [apply calls_only_ret|]. destruct (bool_decide _); [exact IH|apply calls_only_ret].
Qed.

Lemma publish_no_file p root_uid uid gid limits root run : calls_only no_file (publish_workspace p root_uid uid gid limits root run).
Proof. unfold publish_workspace, check_published, set_mode, sync_checked, sync_filesystem, stat_at, validate_destination_directory_metadata, os. calls_only. Qed.

Lemma create_named_ok env h h' uid gid root id d :
  exec env h (create_named_run_directory uid gid root id) = (h', Ok d) -> rd_workspace d ∈ opened h'.
Proof.
  unfold create_named_run_directory. destruct (any _ _); [done|]. intros (h1 & [] & H1 & Hk)%exec_bind_ok.
  rewrite exec_bind in Hk. destruct (exec env h1 (setup_run_directory uid gid root _)) as [h2 [[w i]|e]] eqn:E; cbn [fst snd] in Hk.
  - injection Hk as <- <-. cbn. unfold setup_run_directory in E. apply exec_bind_ok in E as (h3 & w' & H3 & E).
    unfold open_directory_at in H3. prim_ok H3. pose proof (exec_extends_to _ _ _ _ _ E) as Hx.
    apply exec_bind_ok in E as (? & ? & _ & E). apply exec_bind_ok in E as (? & ? & _ & E). apply exec_bind_ok in E as (? & ? & _ & E).
    injection E as _ <- _. eapply opened_extends; [exact Hx|by left].
  - rewrite exec_bind in Hk. destruct (exec env h2 (unlink_at root _ true)) as [? []]; discriminate.
Qed.

Lemma create_run_directory_ok `{Sha256} env h h' uid gid root mid rid d :
  exec env h (create_run_directory uid gid root mid rid) = (h', Ok d) -> rd_workspace d ∈ opened h'.
Proof.
  unfold create_run_directory. destruct rid as [id|]; [destruct (is_ok _); [apply create_named_ok|done]|].
  revert h. induction RUN_ID_ATTEMPTS as [|n IH]; intros h; cbn [create_run_directory_attempts]; [done|].
  intros (h1 & id & _ & Hk)%exec_bind_ok. rewrite exec_bind in Hk.
  destruct (exec env h1 (create_named_run_directory uid gid root id)) as [h2 [d'|e]] eqn:E; cbn [fst snd] in Hk.
  - injection Hk as <- <-. by eapply create_named_ok.
  - destruct (bool_decide _); [by eapply IH|discriminate].
Qed.

(** ** Publication *)

Lemma publish_ok env h h' p root_uid uid gid limits root run :
  exec env h (publish_workspace p root_uid uid gid limits root run) = (h', Ok tt) -> sound h' -> rd_workspace run ∈ opened h ->
  finished SOURCE_DIRECTORY_MODE (fun m => directory_matches m uid gid SOURCE_DIRECTORY_MODE) h' (rd_workspace run)
  /\ exists m, (Ev (FstatAt root (rd_name run)) (Ok m) : ev) ∈ h' /\ identity m = rd_identity run /\ directory_matches m uid gid SOURCE_DIRECTORY_MODE = true.
Proof.
  unfold publish_workspace. intros (h1 & [] & H1 & Hk)%exec_bind_ok Hs Hw. apply exec_extends_to in H1 as X1.
  apply exec_bind_ok in Hk as (h2 & [] & H2 & Hk). unfold set_mode in H2. prim_ok H2.
  apply exec_bind_ok in Hk as (h3 & [] & H3 & Hk). pose proof (exec_extends_to _ _ _ _ _ H3) as X3.
  pose proof (exec_looks_about (rd_workspace run) _ _ _ _ _ (validate_destination_directory_looks _ _ _ _) H3) as Ha.
  apply validate_destination_directory_ok in H3 as [(m & Hm & Hf) Hn].
  apply exec_bind_ok in Hk as (h4 & [] & H4 & Hk). unfold sync_checked in H4. prim_ok H4.
  set (e := Ev (Fsync (rd_workspace run)) (Ok tt) : ev) in *.
  pose proof (exec_stays subject_fd [] _ _ _ _ _ (check_published_stays subject_fd p root_uid uid gid root run
    ltac:(by intros []) ltac:(done) ltac:(done) ltac:(done) []) Hk) as C.
  split.
  - eapply finished_stable; [|exact C|exact Hs| |by apply not_elem_of_nil].
    + split; [|split].
      * exists (about (rd_workspace run) h1). unfold e. by rewrite about_touch, Ha, about_touch.
      * exists m. split; [by right|done].
      * intros a. destruct (Hn a) as (errno & He & ?). exists errno. split; [by right|done].
    + eapply opened_extends; [|exact Hw]. eauto with trace.
  - unfold check_published in Hk. do 5 (apply exec_bind_ok in Hk as (? & ? & _ & Hk)).
    apply exec_bind_ok in Hk as (h5 & m' & H5 & Hk). unfold stat_at in H5. prim_ok H5. pose proof (exec_extends_to _ _ _ _ _ Hk) as X5.
    apply exec_bind_ok in Hk as (h6 & [] & [-> Hid]%exec_bail_if & Hk). apply negb_false_iff, bool_decide_eq_true in Hid.
    apply exec_bind_ok in Hk as (h7 & [] & [_ Hd]%exec_bail_if & Hk). apply negb_false_iff in Hd.
    exists m'. split; [eapply extends_in; [exact X5|by left]|done].
Qed.

(** ** Staged workspaces *)

(** What a staged workspace is: [copied] is about the root of the copy. *)
Record staged (source_uid launch_gid : N) (copied : fd -> Prop) (files : fd -> bytes -> fd -> Prop) (h : list ev) (w : PendingWorkspace) : Prop := {
  staged_finished : finished SOURCE_DIRECTORY_MODE (fun m => directory_matches m source_uid launch_gid SOURCE_DIRECTORY_MODE) h (pw_workspace w);
  staged_published : exists m, (Ev (FstatAt (pw_pending_root w) (pw_workspace_name w)) (Ok m) : ev) ∈ h /\ identity m = pw_workspace_identity w;
  staged_copied : copied (pw_workspace w);
  staged_nothing_else : forall td name readable mode target,
    (Ev (CreateAt td name readable mode) (Ok target) : ev) ∈ h -> forbidden_name name = false /\ files td name target
}.

Lemma fill_ok `{Sha256} env h h' uid gid limits source ws :
  exec env h (fill_workspace uid gid limits source ws) = (h', Ok tt) -> sound h' ->
  (match source with
   | None => h' = h
   | Some src => copied_tree (staging_policy uid gid) (root_levels limits) (opened h) h' src ws
   end) /\ all_copied (staging_policy uid gid) h h'.
Proof.
  unfold fill_workspace. destruct source as [src|].
  - intros (h1 & st & H1 & [Hend _]%exec_ret_ok)%exec_bind_ok Hs. subst h'.
    by apply (copy_directory_copies (staging_policy uid gid) limits (root_levels limits)) in H1.
  - intros [= <-] _. split; [done|]. by apply all_copied_quiet, no_creation_refl.
Qed.

Lemma stage_in_ok `{Sha256} env h0 h w stack p root_uid uid gid mid rid limits root source :
  exec env h0 (stage_in stack p root_uid uid gid mid rid limits root source) = (h, Ok w) -> sound h ->
  (forall td name readable mode target, ~ (Ev (CreateAt td name readable mode) (Ok target) : ev) ∈ h0) ->
  staged uid gid
    (fun ws => match source with None => True | Some src => copied_tree (staging_policy uid gid) (root_levels limits) [] h src ws end)
    (fun td name target => exists sd, copied_file (staging_policy uid gid) [] h sd td name target) h w.
Proof.
  unfold stage_in. intros (h1 & run & H1 & Hk)%exec_bind_ok Hs Hnone.
  pose proof (exec_calls_only _ _ _ _ _ _ (create_run_directory_no_file _ _ _ _ _) H1) as (t1 & E1 & N1).
  apply create_run_directory_ok in H1 as Hw. rewrite exec_bind in Hk.
  destruct (exec env h1 _) as [h2 [[]|e]] eqn:E; cbn [fst snd] in Hk;
    [|rewrite exec_bind in Hk; destruct (exec env h2 _) as [? []]; discriminate].
  injection Hk as <- <-. apply exec_bind_ok in E as (h3 & [] & H3 & H4).
  pose proof (exec_calls_only _ _ _ _ _ _ (publish_no_file _ _ _ _ _ _ _) H4) as (t4 & E4 & N4).
  pose proof (exec_stays subject_fd [rd_workspace run] _ _ _ _ _ (publish_stays subject_fd p root_uid uid gid limits root run
    ltac:(by intros []) ltac:(done) ltac:(done) ltac:(done) [rd_workspace run] ltac:(by intros) ltac:(by intros) ltac:(in_view)) H4) as C4.
  pose proof (exec_extends_to _ _ _ _ _ H3) as X3.
  apply fill_ok in H3 as [Hcopy Hall]; [|eapply sound_extends; [exists t4; exact E4|exact Hs]].
  destruct (publish_ok _ _ _ _ _ _ _ _ _ _ H4 Hs) as [Hf (m & Hm & Hid & _)]; [by eapply opened_extends|].
  assert (forall f, f ∈ [rd_workspace run] -> f ∈ opened h1) as Hfs by (by intros f ->%list_elem_of_singleton).
  split; cbn [pw_workspace pw_pending_root pw_workspace_name pw_workspace_identity]; [done|by exists m| |].
  - destruct source as [src|]; [|done]. eapply copied_tree_stable; [exact C4|exact Hs|exact Hfs| |exact Hcopy]. by intros f ?%not_elem_of_nil.
  - intros td name readable mode target Hin. rewrite E4 in Hin. apply elem_of_app in Hin as [Hin|Hin]; [by specialize (N4 _ Hin)|].
    destruct Hall as (t3 & E3 & Hfiles & _). rewrite E3 in Hin. apply elem_of_app in Hin as [Hin|Hin].
    + destruct (Hfiles _ _ _ _ _ Hin) as [Hforb (sd & Hcf)]. split; [done|]. exists sd.
      eapply copied_file_stable; [exact C4|exact Hs|exact Hfs| |exact Hcf]. by intros f ?%not_elem_of_nil.
    + rewrite E1 in Hin. apply elem_of_app in Hin as [Hin|Hin]; [by specialize (N1 _ Hin)|]. by apply Hnone in Hin.
Qed.


(** ** Bounds *)

(** Removing costs nothing and puts nothing anywhere. *)
Definition removing (c : fs_call) : bool := cost_free c && no_gain c.

Lemma looks_removing {A} (p : prog fs_answer A) : calls_only looks p -> calls_only removing p.
Proof. intros Hp. eapply calls_only_mono; [exact Hp|]. by intros []. Qed.

Lemma removing_free {A} (p : prog fs_answer A) : calls_only removing p -> calls_only cost_free p.
Proof. intros Hp. eapply calls_only_mono; [exact Hp|]. intros c Hc. by apply andb_true_iff in Hc as [? _]. Qed.

Lemma removing_no_gain {A} (p : prog fs_answer A) : calls_only removing p -> calls_only no_gain p.
Proof. intros Hp. eapply calls_only_mono; [exact Hp|]. intros c Hc. by apply andb_true_iff in Hc as [_ ?]. Qed.

Lemma remove_tree_removing stack deadline parent name : calls_only removing (remove_tree_at stack deadline parent name).
Proof.
  revert parent name. induction stack as [|stack IH]; intros parent name; cbn [remove_tree_at]; [apply calls_only_ret|].
  apply calls_only_bind_ok; [apply looks_removing; auto with calls_only|]. intros _.
  apply calls_only_bind_ok; [unfold stat_at, os; calls_only|]. intros m.
  destruct (_ =? S_IFDIR); [|unfold unlink_at, os; calls_only].
  apply calls_only_bind_ok; [unfold open_directory_at, os; calls_only|]. intros directory.
  do 2 (apply calls_only_bind_ok; [apply looks_removing; auto with calls_only|]; intros ?).
  apply calls_only_bind_ok; [unfold list_directory, os; calls_only|]. intros children.
  apply calls_only_bind_ok; [|intros _; unfold sync_checked, unlink_at, os; calls_only].
  induction children as [|child children IHc]; [apply calls_only_ret|].
  apply calls_only_bind_ok; [apply calls_only_ret|]. intros n. apply calls_only_bind_ok; [apply IH|]. intros _. exact IHc.
Qed.

Lemma remove_owned_free stack root ws name expected missing_ok deadline :
  calls_only cost_free (remove_owned_workspace stack root ws name expected missing_ok deadline).
Proof.
  unfold remove_owned_workspace. apply calls_only_bind_ok; [eapply calls_only_mono; [apply check_deadline_looks|by intros []]|]. intros _.
  apply calls_only_bind; [unfold stat_at, os; calls_only|]. intros [m|e]; [|destruct (_ && _); apply calls_only_ret].
  apply calls_only_bind_ok; [apply calls_only_ret|]. intros _. apply calls_only_bind_ok; [apply removing_free, remove_tree_removing|].
  intros _. unfold sync_filesystem, os. calls_only.
Qed.

(** At most [n] entries and no bytes. *)
Definition entries_at_most (n : N) (h h' : list ev) : Prop := exists e, costs e 0 h h' /\ e <= n.

Lemma create_named_costs uid gid root id h :
  wp anything (create_named_run_directory uid gid root id) (fun h' _ => entries_at_most 1 h h') h.
Proof.
  unfold create_named_run_directory. destruct (any _ _); [exists 0; split; [apply costs_refl|lia]|].
  rewrite wp_bind_ok. eapply wp_consequence; [apply mkdir_costs|]. intros h1 [[]|e] Hc1; [|by exists 1].
  rewrite wp_bind. eapply wp_consequence; [apply wp_free|].
  { unfold setup_run_directory, open_directory_at, set_mode, os, validate_destination_directory, validate_destination_directory_metadata.
    unfold ensure_posix_acl_absent, ensure_acl_absent. calls_only. }
  intros h2 r Hc2. pose proof (costs_free _ _ _ _ _ Hc1 Hc2) as Hc. destruct r as [[w i]|e]; [by exists 1|].
  rewrite wp_bind. eapply wp_consequence; [apply wp_free; unfold unlink_at, os; calls_only|]. intros h3 r Hc3.
  pose proof (costs_free _ _ _ _ _ Hc Hc3). destruct r; by exists 1.
Qed.

Lemma create_run_directory_costs `{Sha256} uid gid root mid rid h :
  wp anything (create_run_directory uid gid root mid rid) (fun h' _ => entries_at_most (N.of_nat RUN_ID_ATTEMPTS) h h') h.
Proof.
  unfold create_run_directory. destruct rid as [id|].
  { destruct (is_ok _); [|exists 0; split; [apply costs_refl|lia]].
    eapply wp_consequence; [apply create_named_costs|]. intros h' r (e & Hc & He). exists e. split; [done|unfold RUN_ID_ATTEMPTS; lia]. }
  generalize RUN_ID_ATTEMPTS as n. intros n. revert h. induction n as [|n IH]; intros h; cbn [create_run_directory_attempts].
  { exists 0. split; [apply costs_refl|lia]. }
  rewrite wp_bind_ok. eapply wp_consequence; [apply wp_free; unfold generate_run_id; calls_only|].
  intros h1 [id|e] Hc1; [|exists 0; split; [done|lia]].
  rewrite wp_bind. eapply wp_consequence; [apply create_named_costs|]. intros h2 r (e & Hc2 & He).
  pose proof (costs_trans _ _ _ _ _ _ _ Hc1 Hc2) as Hc. cbn in Hc. destruct r as [d|x]; [exists e; split; [done|lia]|].
  destruct (bool_decide _); [|exists e; split; [done|lia]].
  eapply wp_consequence; [apply IH|]. intros h3 r (e' & Hc3 & He'). exists (e + e'). split; [by apply (costs_trans e 0 e' 0 h h2)|lia].
Qed.

Lemma open_path_directory_free p readable : calls_only cost_free (open_path_directory p readable).
Proof.
  unfold open_path_directory. destruct (normal_components _) as [names|]; [|apply calls_only_ret].
  apply calls_only_bind_ok; [unfold os; calls_only|]. intros dir. revert dir. induction names as [|name names IH]; intros dir; cbn [open_below]; [apply calls_only_ret|].
  apply calls_only_bind_ok; [apply calls_only_ret|]. intros n. apply calls_only_bind_ok; [unfold open_directory_at, os; calls_only|]. intros. apply IH.
Qed.

Lemma looks_cost_free {A} (p : prog fs_answer A) : calls_only looks p -> calls_only cost_free p.
Proof. intros Hp. eapply calls_only_mono; [exact Hp|]. by intros []. Qed.

#[local] Hint Extern 3 (calls_only cost_free _) =>
  apply looks_cost_free; first [ apply check_deadline_looks | apply stat_fd_looks | apply bail_if_looks | apply validate_pending_root_looks
                               | apply validate_destination_directory_looks ] : calls_only.
#[local] Hint Resolve open_path_directory_free remove_owned_free : calls_only.

(** Everything a staging writes fits [limits]. *)
Definition affordable (limits : Limits) (h h' : list ev) : Prop :=
  exists e b, costs e b h h' /\ e <= N.of_nat RUN_ID_ATTEMPTS + lim_entries limits /\ b <= lim_bytes limits.

Lemma affordable_free limits h h1 h' : costs 0 0 h h1 -> affordable limits h1 h' -> affordable limits h h'.
Proof. intros Hc (e & b & Hc' & He & Hb). exists e, b. split; [by apply (costs_trans 0 0 e b h h1)|done]. Qed.

Lemma affordable_start limits h h' : costs 0 0 h h' -> affordable limits h h'.
Proof. intros Hc. exists 0, 0. split; [done|]. lia. Qed.

Lemma fill_bounded `{Sha256} uid gid limits source ws h :
  wp anything (fill_workspace uid gid limits source ws)
    (fun h' _ => exists e b, costs e b h h' /\ e <= lim_entries limits /\ b <= lim_bytes limits) h.
Proof.
  unfold fill_workspace. destruct source as [src|]; [|exists 0, 0; split; [apply costs_refl|lia]].
  rewrite wp_bind_ok. eapply wp_consequence; [apply (copy_directory_bounded (staging_policy uid gid) limits); split; cbn; lia|].
  intros h1 r (e & b & Hc & He & Hb & _). cbn in He, Hb. rewrite N.sub_0_r in He, Hb. destruct r; by exists e, b.
Qed.

Lemma stage_in_bounded `{Sha256} stack p root_uid uid gid mid rid limits root source h :
  wp anything (stage_in stack p root_uid uid gid mid rid limits root source) (fun h' _ => affordable limits h h') h.
Proof.
  unfold stage_in. rewrite wp_bind_ok. eapply wp_consequence; [apply create_run_directory_costs|].
  intros h1 [run|x] (e & Hc1 & He); [|exists e, 0; split; [done|]; lia].
  rewrite wp_bind. eapply (wp_consequence _ _ (fun h2 _ => affordable limits h h2)).
  - rewrite wp_bind_ok. eapply wp_consequence; [apply fill_bounded|]. intros h2 r (e2 & b2 & Hc2 & He2 & Hb2).
    pose proof (costs_trans _ _ _ _ _ _ _ Hc1 Hc2) as Hc. cbn in Hc.
    destruct r as [[]|x]; [|exists (e + e2), b2; split; [done|]; lia].
    eapply wp_consequence; [apply wp_free|].
    { unfold publish_workspace, check_published, set_mode, sync_checked, sync_filesystem, stat_at, validate_destination_directory_metadata, os. calls_only. }
    intros h3 r Hc3. exists (e + e2), b2. split; [by eapply costs_free|]. lia.
  - intros h2 r (e2 & b2 & Hc2 & He2 & Hb2). destruct r as [[]|x]; [by exists e2, b2|].
    rewrite wp_bind. eapply wp_consequence; [apply wp_free, remove_owned_free|]. intros h3 r Hc3.
    assert (affordable limits h h3) by (exists e2, b2; split; [by eapply costs_free|done]). by destruct r.
Qed.

(** Staging is bounded whatever the evidence tree looks like and however it ends: it makes
    at most as many files and directories as the limits allow, besides the 128 attempts at a
    run directory, and writes at most as many bytes. *)
Theorem staging_bounded `{Sha256} env stack p root_uid uid gid mid rid evidence_root limits :
  let h := (exec env [] (stage_workspace_at stack p root_uid uid gid mid rid evidence_root limits)).1 in
  spent entry_cost h <= 128 + lim_entries limits /\ spent byte_cost h <= lim_bytes limits.
Proof.
  cbn zeta. assert (wp anything (stage_workspace_at stack p root_uid uid gid mid rid evidence_root limits)
    (fun h' _ => affordable limits [] h') []) as Hw.
  { unfold stage_workspace_at. pose proof (affordable_start limits []) as Hf.
    apply wp_after_free; [apply wp_free; auto with calls_only|auto|]. intros _ h1 H1.
    apply wp_after_free; [apply wp_free; auto with calls_only| |]; [intros h2 e H2|intros root h2 H2]; pose proof (costs_free _ _ _ _ _ H1 H2) as F2; [auto|].
    apply wp_after_free; [apply wp_free; auto with calls_only| |]; [intros h3 e H3|intros _ h3 H3]; pose proof (costs_free _ _ _ _ _ F2 H3) as F3; [auto|].
    apply wp_after_free; [apply wp_free; unfold open_evidence; calls_only| |]; [intros h4 e H4|intros source h4 H4];
      pose proof (costs_free _ _ _ _ _ F3 H4) as F4; [auto|].
    eapply wp_consequence; [apply stage_in_bounded|]. intros h5 r. by apply affordable_free. }
  destruct (wp_exec _ _ _ env [] Hw I) as [_ (e & b & [He Hb] & Hle & Hlb)]. cbn in He, Hb.
  unfold RUN_ID_ATTEMPTS in Hle. rewrite He, Hb, !N.add_0_r. split; [lia|done].
Qed.

(** ** Failures *)

(** The last call of a removal that succeeded removed the name. *)
Lemma remove_tree_last env stack deadline h h' root name :
  exec env h (remove_tree_at stack deadline root name) = (h', Ok tt) ->
  exists h8 b, h' = Ev (UnlinkAt root name b) (Ok tt) :: h8 /\ extends h h8.
Proof.
  destruct stack as [|stack]; [done|]. cbn [remove_tree_at]. intros (h1 & [] & H1%exec_extends_to & He)%exec_bind_ok.
  apply exec_bind_ok in He as (h2 & m & H2%exec_extends_to & He). destruct (_ =? S_IFDIR).
  - apply exec_bind_ok in He as (h3 & d & H3%exec_extends_to & He). apply exec_bind_ok in He as (h4 & o & H4%exec_extends_to & He).
    apply exec_bind_ok in He as (h5 & [] & H5%exec_extends_to & He). apply exec_bind_ok in He as (h6 & children & H6%exec_extends_to & He).
    apply exec_bind_ok in He as (h7 & [] & H7%exec_extends_to & He). apply exec_bind_ok in He as (h8 & [] & H8%exec_extends_to & He).
    unfold unlink_at in He. prim_ok He. exists h8, true. split; [done|]. eauto 10 with trace.
  - unfold unlink_at in He. prim_ok He. exists h2, false. split; [done|]. eauto with trace.
Qed.

Lemma remove_tree_ok env stack deadline h h' root name :
  exec env h (remove_tree_at stack deadline root name) = (h', Ok tt) ->
  forall n, n ∈ standing root h' -> n <> name /\ n ∈ standing root h.
Proof.
  intros He. destruct (remove_tree_last _ _ _ _ _ _ _ He) as (h8 & b & Hh & Hx).
  eapply removed_name; [apply removing_no_gain, remove_tree_removing|exact He|rewrite Hh; apply extends_refl|exact Hx].
Qed.

Lemma remove_owned_ok env stack h h' root ws name expected :
  exec env h (remove_owned_workspace stack root ws name expected false None) = (h', Ok tt) ->
  forall n, n ∈ standing root h' -> n <> name /\ n ∈ standing root h.
Proof.
  unfold remove_owned_workspace. intros (h1 & [] & [-> _]%exec_ret_ok & He)%exec_bind_ok.
  unfold stat_at, os in He. rewrite !exec_bind in He. cbn [perform exec fst snd] in He.
  destruct (env h (FstatAt root name)) as [m|errno] eqn:Em; cbn [exec map_err andb] in He; [|discriminate].
  apply exec_bind_ok in He as (h2 & [] & [-> _]%exec_bail_if & He). apply exec_bind_ok in He as (h3 & [] & H3 & He).
  unfold sync_filesystem in He. prim_ok He. exact (remove_tree_ok _ _ _ _ _ _ _ H3).
Qed.

Lemma create_named_standing env h h' uid gid root id r :
  exec env h (create_named_run_directory uid gid root id) = (h', r) -> sound h' -> root ∈ opened h ->
  match r with
  | Ok d => (forall n, n ∈ standing root h' -> n = rd_name d \/ n ∈ standing root h) /\ ~ rd_workspace d ∈ opened h
  | Err e => cleaned e -> standing_in root h h'
  end.
Proof.
  unfold create_named_run_directory. destruct (any _ _); [by intros [= <- <-] _ _ _ n|]. unfold bind_ok. rewrite exec_bind.
  set (name := as_bytes id). destruct (exec env h (mkdir_at root name PRIVATE_DIRECTORY_MODE)) as [h1 made] eqn:Em. cbn [fst snd].
  unfold mkdir_at, os in Em. rewrite exec_bind in Em. cbn in Em.
  destruct (env h (MkdirAt root name PRIVATE_DIRECTORY_MODE)) as [[]|errno]; injection Em as <- <-; [|by intros [= <- <-] _ _ _ n].
  set (e1 := Ev (MkdirAt root name PRIVATE_DIRECTORY_MODE) (Ok tt) : ev). rewrite exec_bind.
  assert (stays gains [] (setup_run_directory uid gid root name)) as Ssetup.
  { unfold setup_run_directory, open_directory_at, set_mode. eapply stays_bind_fd; [eauto with stays nocore|]. intros w.
    apply stays_bind_ok; [stays|]. intros _. apply stays_bind_ok; [apply looks_gains; auto with calls_only|]. intros _. 
    apply stays_bind_ok; [apply looks_gains; auto with calls_only|]. intros m. apply stays_ret. }
  destruct (exec env (e1 :: h) (setup_run_directory uid gid root name)) as [h2 setup] eqn:E.
  pose proof (exec_stays gains [] _ _ _ _ _ Ssetup E) as C2. cbn [fst snd]. destruct setup as [[w i]|x]; cbn [exec].
  - intros [= <- <-] Hs Hr. cbn. split.
    + intros n Hin. eapply confined_standing_in in Hin; [|exact C2|done|exact Hr|by apply not_elem_of_nil]. by apply standing_made in Hin.
    + intros Hin. unfold setup_run_directory in E. apply exec_bind_ok in E as (h3 & w' & H3 & E). unfold open_directory_at in H3. prim_ok H3.
      pose proof (sound_extends _ _ (exec_extends_to _ _ _ _ _ E) Hs) as Hs3.
      apply exec_bind_ok in E as (? & ? & _ & E). apply exec_bind_ok in E as (? & ? & _ & E). apply exec_bind_ok in E as (? & ? & _ & E).
      injection E as _ <- _. by apply NoDup_cons in Hs3 as [? _].
  - rewrite exec_bind. unfold unlink_at, os. rewrite exec_bind. cbn [perform exec fst snd].
    destruct (env h2 (UnlinkAt root name true)) as [[]|errno]; cbn; intros [= <- <-] Hs Hr; [|done].
    intros _ n Hin. apply standing_removed in Hin as [Hn Hin].
    eapply confined_standing_in in Hin; [|exact C2|exact Hs|exact Hr|by apply not_elem_of_nil]. apply standing_made in Hin. tauto.
Qed.

Lemma create_run_directory_standing `{Sha256} env h h' uid gid root mid rid r :
  exec env h (create_run_directory uid gid root mid rid) = (h', r) -> sound h' -> root ∈ opened h ->
  match r with
  | Ok d => (forall n, n ∈ standing root h' -> n = rd_name d \/ n ∈ standing root h) /\ ~ rd_workspace d ∈ opened h
  | Err e => cleaned e -> standing_in root h h'
  end.
Proof.
  unfold create_run_directory. destruct rid as [id|].
  { destruct (is_ok _); [apply create_named_standing|]. by intros [= <- <-] _ _ _ n. }
  revert h. induction RUN_ID_ATTEMPTS as [|k IH]; intros h; cbn [create_run_directory_attempts]; [by intros [= <- <-] _ _ _ n|].
  unfold bind_ok. rewrite exec_bind. destruct (exec env h (generate_run_id mid)) as [h1 id] eqn:E1. cbn [fst snd].
  assert (stays gains [] (generate_run_id mid)) as S1 by (unfold generate_run_id; stays).
  pose proof (exec_stays gains [] _ _ _ _ _ S1 E1) as C1. pose proof (confined_extends _ _ _ _ C1) as X1.
  destruct id as [id|x]; cbn [exec].
  2: { intros [= <- <-] Hs Hr _. eapply confined_standing_in; [exact C1|done|done|by apply not_elem_of_nil]. }
  rewrite exec_bind. destruct (exec env h1 (create_named_run_directory uid gid root id)) as [h2 d] eqn:E2. cbn [fst snd].
  intros Hk Hs Hr. assert (root ∈ opened h1) as Hr1 by (by eapply opened_extends).
  assert (extends h2 h') as X2.
  { destruct d as [d|e]; [by injection Hk as <- <-; apply extends_refl|].
    destruct (bool_decide _); [by eapply exec_extends_to|by injection Hk as <- <-; apply extends_refl]. }
  assert (sound h2) as Hs2 by (by eapply sound_extends).
  pose proof (create_named_standing _ _ _ _ _ _ _ _ E2 Hs2 Hr1) as Hc.
  assert (standing_in root h h1) as H01.
  { eapply confined_standing_in; [exact C1| |done|by apply not_elem_of_nil]. eapply sound_extends; [|exact Hs2]. by eapply exec_extends_to. }
  destruct d as [d|e].
  - injection Hk as <- <-. destruct Hc as [Hc Hn]. split; [|intros Hin; by apply Hn; eapply opened_extends].
    intros n Hin. apply Hc in Hin as [?|Hin]; auto.
  - destruct (bool_decide _) eqn:Eb.
    + assert (cleaned e) as Hclean by (apply bool_decide_eq_true in Eb; by destruct e).
      pose proof (exec_extends_to _ _ _ _ _ E2) as X12.
      specialize (IH _ Hk Hs (opened_extends _ _ _ X12 Hr1)). assert (standing_in root h h2) as H02 by (eapply standing_in_trans; eauto).
      destruct r as [d|e']; [|intros He; eapply standing_in_trans; eauto]. destruct IH as [Hi Hn].
      split; [intros n Hin; apply Hi in Hin as [?|?]; auto|]. intros Hin. apply Hn. eapply opened_extends; [|exact Hin]. eauto with trace.
    + injection Hk as <- <-. intros He. eapply standing_in_trans; eauto.
Qed.

(** A staging that fails leaves nothing behind. Whatever goes wrong after the pending root
    was opened, every directory staging made in it has been removed again when the error is
    reported, unless the error itself says that the clean-up failed. *)
Theorem failed_staging_removed `{Sha256} env h0 stack p root_uid uid gid mid rid limits root source e :
  let (h, r) := exec env h0 (stage_in stack p root_uid uid gid mid rid limits root source) in
  root ∈ opened h0 -> sound h -> r = Err e -> cleaned e -> forall n, n ∈ standing root h -> n ∈ standing root h0.
Proof.
  destruct (exec env h0 _) as [h r] eqn:E. intros Hr Hs -> Hc. unfold stage_in, bind_ok at 1 in E. rewrite exec_bind in E.
  destruct (exec env h0 (create_run_directory uid gid root mid rid)) as [h1 run] eqn:E1. cbn [fst snd] in E.
  pose proof (exec_extends_to _ _ _ _ _ E) as X1. pose proof (exec_extends_to _ _ _ _ _ E1) as X0.
  pose proof (create_run_directory_standing _ _ _ _ _ _ _ _ _ E1 (sound_extends _ _ X1 Hs) Hr) as Hrun.
  destruct run as [run|x]; [|injection E as <- <-; by apply Hrun]. destruct Hrun as [Hrun Hnew].
  rewrite exec_bind in E. destruct (exec env h1 _) as [h2 staged] eqn:E2 in E. cbn [fst snd] in E.
  destruct staged as [[]|x]; [discriminate|]. pose proof (exec_extends_to _ _ _ _ _ E) as X2.
  assert (stays gains [rd_workspace run]
    (let*? _ := fill_workspace uid gid limits source (rd_workspace run) in
     publish_workspace p root_uid uid gid limits root run)) as S2.
  { apply stays_bind_ok.
    - unfold fill_workspace. destruct source as [src|]; [|apply stays_ret].
      apply stays_bind_ok; [apply (copy_directory_gains (staging_policy uid gid)); in_view|]. intros st. apply stays_ret.
    - intros _. apply publish_stays; [by intros []|done..|in_view]. }
  pose proof (exec_stays gains _ _ _ _ _ _ S2 E2) as C2.
  rewrite exec_bind in E. destruct (exec env h2 (remove_owned_workspace _ _ _ _ _ _ _)) as [h3 cleanup] eqn:E3. cbn [fst snd] in E.
  destruct cleanup as [[]|c]; injection E as <- <-; [|done]. intros n Hin.
  eapply remove_owned_ok in Hin as [Hn Hin]; [|exact E3]. eapply (confined_standing_in _ _ _ root C2) in Hin.
  - apply Hrun in Hin. tauto.
  - by eapply sound_extends.
  - by eapply opened_extends.
  - by intros ->%list_elem_of_singleton.
Qed.

(** ** A host

    An evidence directory [/e] with the file [a], and the pending root [/p]. *)

Definition opened_name (e : ev) : option (fd * bytes) :=
  match opens e, ev_call e with
  | Some f, OpenAt _ n _ | Some f, CreateAt _ n _ _ => Some (f, n)
  | Some f, _ => Some (f, [])
  | None, _ => None
  end.

Definition name_of (h : list ev) (f : fd) : bytes :=
  match List.find (fun x => fst x =? f) (omap opened_name h) with Some (_, n) => n | None => [] end.

Definition fd_of (h : list ev) (name : bytes) : fd :=
  match List.find (fun x => str_eqb (snd x) name) (omap opened_name h) with Some (f, _) => f | None => 0 end.

(** The newest descriptor opened for a name of a directory. *)
Definition fd_at (h : list ev) (dir : fd) (name : bytes) : fd :=
  match omap (fun e => match ev_call e with
                       | OpenAt d n _ | CreateAt d n _ _ => if (d =? dir) && str_eqb n name then opens e else None
                       | _ => None
                       end) h with
  | f :: _ => f
  | [] => 0
  end.

Definition is_created (h : list ev) (f : fd) : bool :=
  any (fun e => match ev_call e with CreateAt _ _ _ _ => bool_decide (opens e = Some f) | _ => false end) h.

Definition last_mode (h : list ev) (f : fd) (initial : N) : N :=
  match omap (fun e => match ev_call e with Fchmod _ m => Some m | _ => None end) (about f h) with m :: _ => m | [] => initial end.

Definition sample_data : bytes := lit "hello".

Definition sample_node (h : list ev) (f : fd) (name : bytes) : StatSnapshot :=
  let node mode uid gid size := mkStat 1 (foldr N.add 1 name) mode 1 uid gid size 0 0 0 0 in
  if is_created h f then node (S_IFREG + last_mode h f PRIVATE_FILE_MODE) 1000 7 (Z.of_N (len (contents f h)))
  else if str_eqb name (lit "p") then node (S_IFDIR + PENDING_ROOT_MODE) 0 7 0%Z
  else if str_eqb name (lit "e") then node (S_IFDIR + 493) 5 5 0%Z
  else if str_eqb name (lit "a") then node (S_IFREG + 420) 5 5 (Z.of_N (len sample_data))
  else node (S_IFDIR + last_mode h f PRIVATE_DIRECTORY_MODE) 1000 7 0%Z.

(** What was read since the last rewind. *)
Fixpoint position (h : list ev) : N :=
  match h with
  | [] => 0
  | e :: h => match ev_call e with Rewind _ => 0 | _ => len (reads e) + position h end
  end.

Definition sample_host (full : bool) : environment fs_answer :=
  fun h c =>
    match c return fs_answer c with
    | WorkCancelled => false
    | Now | EffectiveUid | NextSequence | ProcessId => 0
    | OpenAnchor _ _ | OpenAt _ _ _ | CreateAt _ _ _ _ => Ok (len h)
    | Fstat f => Ok (sample_node h f (name_of h f))
    | FstatAt d n => Ok (sample_node h (fd_at h d n) n)
    | ListDirectory d => Ok (mkListing (if str_eqb (name_of h d) (lit "e") then [lit "."; lit ".."; lit "a"] else []) None None)
    | ReadFd f limit => Ok (take_N limit (drop_N (position (about f h)) sample_data))
    | RandomBytes => Some (replicate 32 0)
    | Fgetxattr _ _ => Err ENODATA
    | WriteAll _ _ => if full then Err 28 else Ok tt
    | MkdirAt _ _ _ | UnlinkAt _ _ _ | RenameNoReplace _ _ _ _ | Fchmod _ _ | Fchown _ _ _ | Rewind _ | Fsync _ | Syncfs _ => Ok tt
    | c => refused c
    end.

Definition sample_staging (full : bool) : list ev * result FsError PendingWorkspace :=
  exec (sample_host full) []
    (@stage_workspace_at checksum_sha256 8 (lit "/p") 0 1000 7 (lit "message") None (Some (lit "/e")) (default_limits None)).


(** The pending root and the evidence are open. *)
Definition sample_opened : list ev :=
  [Ev (OpenAt 0 (lit "e") Readable) (Ok 2); Ev (OpenAt 0 (lit "p") PathOnly) (Ok 1); Ev (OpenAnchor (lit "/") PathOnly) (Ok 0)].

(** The disk is full: the copy fails, and the run directory is taken away. *)
Definition sample_failure : list ev * result FsError PendingWorkspace :=
  exec (sample_host true) sample_opened
    (@stage_in checksum_sha256 8 (lit "/p") 0 1000 7 (lit "message") None (default_limits None) 1 (Some 2)).

Definition is_os (errno : N) {A} (r : result FsError A) : bool :=
  match r with Err (Os n) => n =? errno | _ => false end.

Lemma failed_staging_removed_witness :
  is_os 28 sample_failure.2 = true /\ (forall n, n ∈ standing 1 sample_failure.1 -> n ∈ standing 1 sample_opened)
  /\ any (fun e => match ev_call e with MkdirAt d _ _ => d =? 1 | _ => false end) sample_failure.1 = true.
Proof.
  pose proof (fun e => @failed_staging_removed checksum_sha256 (sample_host true) sample_opened 8 (lit "/p") 0 1000 7 (lit "message") None
    (default_limits None) 1 (Some 2) e) as T.
  change (exec _ sample_opened _) with sample_failure in T.
  assert (is_os 28 sample_failure.2 = true) as Hr by (vm_compute; reflexivity).
  assert (bool_decide (sound sample_failure.1) = true) as Hs by (vm_compute; reflexivity).
  assert (any (fun e => match ev_call e with MkdirAt d _ _ => d =? 1 | _ => false end) sample_failure.1 = true) as Hm by (vm_compute; reflexivity).
  split; [exact Hr|]. split; [|exact Hm]. clear Hm. apply bool_decide_eq_true in Hs. destruct sample_failure as [h r]. cbn [fst snd] in *.
  destruct r as [w|e]; [discriminate Hr|]. apply (T e); [right; left|exact Hs|reflexivity|].
  destruct e; try discriminate Hr. exact I.
Defined.
