(* ===== verification/InputSealer.v ===== *)
(** * Sealing the input of a run

    [src/input_sealer.rs]: a pending workspace is moved away from its writer, copied to fresh
    files that the run may only read, and the copy is published under the run's name; every
    failure takes both away again. *)

From S2P Require Import Prelude Effects Text Digest Paths WorkBudget Descriptors TreeCopy LauncherProtocol IsolatedPlan RunnerInput.

Local Open Scope N_scope.

Definition CODEX_SOURCE_CONSUMED_INPUT_ROOT : path := lit "/var/lib/webex-generic-account-bot/codex-input-staging/consumed".
Definition STAGING_PREFIX : str := lit ".seal-".
Definition SEALED_DIRECTORY_MODE : N := 320.
Definition SEALED_FILE_MODE : N := 256.
Definition SHARED_ROOT_MODE : N := 984.
Definition PRIVATE_ROOT_MODE : N := 448.

Definition pending : str := lit "pending workspace".
Definition sealing : str := lit "fresh-inode input sealing".

Record SealPaths : Type := mkSealPaths { sp_pending_root : path; sp_source_consumed_root : path; sp_input_root : path }.

Definition production : SealPaths := mkSealPaths CODEX_PENDING_INPUT_ROOT CODEX_SOURCE_CONSUMED_INPUT_ROOT CODEX_INPUT_ROOT.

(** ** Names and paths *)

Definition run_id_bytes_valid (run_id : str) : bool :=
  match as_bytes run_id with
  | [] => false
  | first :: rest => is_ascii_alphanumeric first && all is_run_id_byte rest
  end.

Definition validate_run_id (run_id : str) : fsprog unit :=
  let single := match components (as_bytes run_id) with [Normal component] => str_eqb component (as_bytes run_id) | _ => false end in
  let*? _ := bail_if (is_empty run_id || (64 <? byte_len run_id) || negb (run_id_bytes_valid run_id) || negb single
                      || any (N.eqb 0) (as_bytes run_id)) (lit "run identifier is not a single path component") in
  bail_if (forbidden_name (as_bytes run_id)) (lit "run identifier uses a forbidden control name").

Definition validate_absolute_normal_path (p : path) : fsprog unit :=
  let*? _ := bail_if (negb (is_absolute p) || bool_decide (components p = components (lit "/")))
               (lit "input sealer root must be a non-root absolute path") in
  bail_if (any (fun c => match c with RootDir | Normal _ => false | _ => true end) (components p))
    (lit "input sealer root contains a path escape").

Definition overlap (left right : path) : bool :=
  path_starts_with (components left) (components right) || path_starts_with (components right) (components left).

Definition validate_root_layout (paths : SealPaths) : fsprog unit :=
  let '(mkSealPaths pending consumed input) := paths in
  let*? _ := validate_absolute_normal_path pending in
  let*? _ := validate_absolute_normal_path consumed in
  let*? _ := validate_absolute_normal_path input in
  bail_if (overlap pending consumed || overlap pending input || overlap consumed input) (lit "input sealer roots must not overlap").

(** ** Opening and checking the roots *)

Fixpoint open_each (dir : fd) (cs : list Component) : fsprog fd :=
  match cs with
  | [] => Ret (Ok dir)
  | Normal component :: cs =>
      let*? name := c_string component in
      let*? dir := open_directory_at dir name true in
      open_each dir cs
  | _ :: cs => open_each dir cs
  end.

Definition open_absolute_directory (p : path) : fsprog fd :=
  let*? _ := validate_absolute_normal_path p in
  let*? slash := os (perform (OpenAnchor (lit "/") Readable)) in
  open_each slash (components p).

Definition root_matches (m : StatSnapshot) (uid : N) (gid : option N) (mode : N) : bool :=
  (file_type m =? S_IFDIR) && (st_uid m =? uid) && match gid with Some gid => st_gid m =? gid | None => true end
  && (st_permissions m =? mode).

Definition validate_root (directory : fd) (uid : N) (gid : option N) (mode : N) (description : str) : fsprog unit :=
  let*? m := stat_fd directory in
  let*? _ := bail_if (negb (root_matches m uid gid mode)) (description ++ lit " metadata is invalid") in
  ensure_posix_acl_absent directory description.

Definition same_object (left right : StatSnapshot) : bool := bool_decide (identity left = identity right).

Definition reject_same_root (left right : fd) : fsprog unit :=
  let*? left := stat_fd left in
  let*? right := stat_fd right in
  bail_if (same_object left right) (lit "input sealer roots resolve to the same directory").

Definition ensure_root_path_unchanged (p : path) (held : fd) : fsprog unit :=
  let*? reopened := open_absolute_directory p in
  let*? held := stat_fd held in
  let*? reopened := stat_fd reopened in
  bail_if (negb (same_object held reopened)) (lit "sealed input root path changed during publication").

Definition required_sealer_uid : fsprog N :=
  let* uid := (perform EffectiveUid : prog fs_answer N) in
  if uid =? 0 then Ret (Ok uid) else bail (lit "input sealer must run as root").

(** ** Removing *)

Definition list_pending_directory (dir : fd) (max_entries : N) : fsprog (list bytes) := list_directory pending dir max_entries.

(** The mode of a directory is set so that its entries can be removed; a directory of the
    source keeps its mode when that is not permitted. *)
Definition open_up (directory : fd) (m : StatSnapshot) : fsprog unit :=
  let* r := (perform (Fchmod directory PRIVATE_ROOT_MODE) : prog fs_answer (result N unit)) in
  match r with
  | Ok _ => Ret (Ok tt)
  | Err errno =>
      if negb (errno =? EPERM) || negb (st_permissions m =? SOURCE_DIRECTORY_MODE) then fail (Os errno) else Ret (Ok tt)
  end.

Fixpoint remove_sealed_tree_at (stack : nat) (parent : fd) (name : bytes) : fsprog unit :=
  match stack with
  | O => fail Exhausted
  | S stack =>
      let*? m := stat_at parent name in
      let*? _ :=
        (if file_type m =? S_IFDIR then
           let*? directory := open_directory_at parent name true in
           let*? _ := open_up directory m in
           let*? children := list_pending_directory directory WORKSPACE_ENTRY_MAX in
           let*? _ :=
             (fix remove_children (children : list bytes) : fsprog unit :=
                match children with
                | [] => Ret (Ok tt)
                | child :: children =>
                    let*? child := c_string child in
                    let*? _ := remove_sealed_tree_at stack directory child in
                    remove_children children
                end) children in
           let*? _ := sync_checked directory in
           unlink_at parent name true
         else unlink_at parent name false) in
      sync_checked parent
  end.

Definition remove_owned_tree_at (stack : nat) (parent : fd) (name : bytes) (expected : ObjectIdentity) : fsprog unit :=
  let*? current := stat_at parent name in
  let*? _ := bail_if (negb (bool_decide (identity current = expected))) (lit "refusing to clean a replaced workspace") in
  remove_sealed_tree_at stack parent name.

(** ** The copy *)

Section seal.
Context `{Sha256} (source_uid source_gid sealer_uid target_gid : N).

Definition validate_source_directory (m : StatSnapshot) : result FsError unit :=
  fail_if (negb (directory_matches m source_uid source_gid SOURCE_DIRECTORY_MODE)) (Bail (pending ++ lit " directory owner or mode is invalid")).

Definition validate_source_file (m : StatSnapshot) : result FsError unit :=
  fail_if (negb ((file_type m =? S_IFREG) && (st_uid m =? source_uid) && (st_gid m =? source_gid) && (st_permissions m =? SOURCE_FILE_MODE)))
    (Bail (pending ++ lit " file owner or mode is invalid")) ;?
  fail_if (negb (st_links m =? 1)) (Bail (pending ++ lit " contains a hard-linked file")).

Definition validate_sealed_directory (m : StatSnapshot) : fsprog unit :=
  bail_if (negb (directory_matches m sealer_uid target_gid SEALED_DIRECTORY_MODE)) (lit "sealed workspace directory metadata is invalid").

Definition check_source_directory (source : fd) (before : StatSnapshot) : fsprog unit :=
  let*? _ := Ret (validate_source_directory before) in
  ensure_posix_acl_absent source (lit "pending workspace directory").

Definition finish_sealed_directory (source_child target_child : fd) (entry : StatSnapshot) : fsprog unit :=
  let*? _ := set_owner_and_mode target_child sealer_uid target_gid SEALED_DIRECTORY_MODE in
  let*? _ := sync_checked target_child in
  let*? m := stat_fd target_child in
  let*? _ := validate_sealed_directory m in
  let*? _ := ensure_posix_acl_absent target_child (lit "sealed workspace directory") in
  recheck_directory pending source_child entry.

Definition finish_sealed_file (target : fd) (entry : StatSnapshot) : fsprog unit :=
  let*? _ := set_owner_and_mode target sealer_uid target_gid SEALED_FILE_MODE in
  let*? _ := sync_checked target in
  let*? sealed := stat_fd target in
  let*? _ := bail_if (negb (file_matches sealed sealer_uid target_gid SEALED_FILE_MODE (st_size entry)))
               (lit "sealed workspace file metadata is invalid") in
  ensure_posix_acl_absent target (lit "sealed workspace file").

Definition sealing_policy : CopyPolicy := {|
  subject := pending;
  work_operation := sealing;
  copy_operation := lit "fresh-inode workspace copy";
  verify_operation := lit "fresh-inode workspace verification";
  invalid_size := lit " is invalid";
  private_directory_mode := PRIVATE_ROOT_MODE;
  target_readable := false;
  check_directory := check_source_directory;
  check_child := validate_source_directory;
  check_file := validate_source_file;
  check_source source := ensure_posix_acl_absent source (lit "pending workspace file");
  prepare_directory target_child := set_owner_and_mode target_child sealer_uid target_gid PRIVATE_ROOT_MODE;
  finish_directory := finish_sealed_directory;
  prepare_file target := set_owner_and_mode target sealer_uid target_gid SOURCE_FILE_MODE;
  finish_file := finish_sealed_file
|}.

(** The functions of the file that are instances of the common copy, [copy_directory] from
    the root on. *)
Definition seal_reject_growth : fd -> fsprog unit := reject_source_growth sealing_policy.
Definition seal_copy_exact (limits : Limits) : fd -> fd -> N -> fsprog bytes := copy_exact_with_digest sealing_policy limits.
Definition seal_hash_exact (limits : Limits) : fd -> N -> fsprog bytes := hash_exact_source sealing_policy limits.
Definition seal_file (limits : Limits) : fd -> fd -> bytes -> StatSnapshot -> CopyState -> fsprog CopyState := copy_file sealing_policy limits.
Definition seal_directory (limits : Limits) (source target : fd) : fsprog CopyState :=
  copy_directory sealing_policy limits (root_levels limits) source target (mkCopyState 0 0).

(** ** The staging directory *)

Definition staging_name (pid sequence : N) : bytes := STAGING_PREFIX ++ decimal pid ++ lit "-" ++ decimal sequence.

Definition open_staging (staging : fd) (name : bytes) : fsprog bytes :=
  let*? directory := open_directory_at staging name true in
  let*? _ := set_owner_and_mode directory sealer_uid target_gid PRIVATE_ROOT_MODE in
  Ret (Ok name).

Fixpoint create_staging_attempts (attempts : nat) (stack : nat) (staging : fd) : fsprog bytes :=
  match attempts with
  | O => bail (lit "failed to allocate a unique workspace staging directory")
  | S attempts =>
      let* sequence := (perform NextSequence : prog fs_answer N) in
      let* pid := (perform ProcessId : prog fs_answer N) in
      let name := staging_name pid sequence in
      let* made := (perform (MkdirAt staging name PRIVATE_ROOT_MODE) : prog fs_answer (result N unit)) in
      match made with
      | Ok _ =>
          let* result := open_staging staging name in
          match result with
          | Ok name => Ret (Ok name)
          | Err error =>
              let* cleanup := remove_sealed_tree_at stack staging name in
              match cleanup with
              | Ok _ => fail error
              | Err cleanup_error => fail (AlsoFailed error [cleanup_error])
              end
          end
      | Err errno =>
          if negb (errno =? EEXIST) then fail (Os errno) else create_staging_attempts attempts stack staging
      end
  end.

Definition create_staging_directory (stack : nat) (staging : fd) : fsprog bytes := create_staging_attempts 128 stack staging.
End seal.

(** ** Sealing *)

Record Roots : Type := mkRoots { pending_root : fd; source_consumed_root : fd; input_root : fd }.

Definition reject_same_roots (r : Roots) : fsprog unit :=
  let*? _ := reject_same_root (pending_root r) (source_consumed_root r) in
  let*? _ := reject_same_root (pending_root r) (input_root r) in
  reject_same_root (source_consumed_root r) (input_root r).

Definition ensure_roots_unchanged (paths : SealPaths) (r : Roots) : fsprog unit :=
  let*? _ := ensure_root_path_unchanged (sp_pending_root paths) (pending_root r) in
  let*? _ := ensure_root_path_unchanged (sp_source_consumed_root paths) (source_consumed_root r) in
  ensure_root_path_unchanged (sp_input_root paths) (input_root r).

(** What [preflight_at] and [seal_workspace_with_limits] both do first: the three roots are
    opened, checked and compared. *)
Definition open_roots (paths : SealPaths) (sealer_uid source_gid target_gid : N) : fsprog Roots :=
  let*? pending_root := open_absolute_directory (sp_pending_root paths) in
  let*? source_consumed_root := open_absolute_directory (sp_source_consumed_root paths) in
  let*? input_root := open_absolute_directory (sp_input_root paths) in
  let roots := mkRoots pending_root source_consumed_root input_root in
  let*? _ := validate_root pending_root sealer_uid (Some source_gid) PENDING_ROOT_MODE (lit "pending input root") in
  let*? _ := validate_root source_consumed_root sealer_uid None PRIVATE_ROOT_MODE (lit "source-consumed input root") in
  let*? _ := validate_root input_root sealer_uid (Some target_gid) SHARED_ROOT_MODE (lit "sealed input root") in
  let*? _ := reject_same_roots roots in
  let*? _ := ensure_roots_unchanged paths roots in
  Ret (Ok roots).

Definition preflight_at (paths : SealPaths) (source_gid target_gid : N) : fsprog unit :=
  let*? _ := validate_root_layout paths in
  let*? sealer_uid := required_sealer_uid in
  let*? _ := open_roots paths sealer_uid source_gid target_gid in
  Ret (Ok tt).

Definition rename_noreplace (old_directory : fd) (old_name : bytes) (new_directory : fd) (new_name : bytes) : fsprog unit :=
  os (perform (RenameNoReplace old_directory old_name new_directory new_name)).

(** The variables that the clean-up of the target looks at. *)
Record SealState : Type := mkSealState {
  staged_name : option bytes;
  published_by_us : bool;
  published_identity : option ObjectIdentity
}.

Definition unstaged : SealState := mkSealState None false None.

(** A step of the closure: a failure leaves it with the variables as they are. *)
Definition attempt {A} (st : SealState) (p : fsprog A) (k : A -> prog fs_answer (SealState * result FsError unit))
  : prog fs_answer (SealState * result FsError unit) :=
  let* r := p in match r with Ok a => k a | Err e => Ret (st, Err e) end.

Section publish.
Context `{Sha256} (stack : nat) (paths : SealPaths) (run_name : bytes) (source_uid source_gid sealer_uid target_gid : N) (limits : Limits)
  (roots : Roots).

(** The quarantined workspace, opened and recognised. *)
Definition open_quarantined (source_identity : ObjectIdentity) : fsprog fd :=
  let*? _ := check_deadline (lim_deadline limits) sealing in
  let*? _ := sync_checked (source_consumed_root roots) in
  let*? _ := sync_checked (pending_root roots) in
  let*? source := open_directory_at (source_consumed_root roots) run_name true in
  let*? opened_source := stat_fd source in
  let*? _ := bail_if (negb (bool_decide (identity opened_source = source_identity))) (lit "quarantined workspace identity changed") in
  let*? _ := Ret (validate_source_directory source_uid source_gid opened_source) in
  Ret (Ok source).

(** The copy in the staging directory, sealed and synced. *)
Definition fill_staging (source : fd) (name : bytes) : fsprog ObjectIdentity :=
  let*? target := open_directory_at (input_root roots) name true in
  let*? _ := seal_directory source_uid source_gid sealer_uid target_gid limits source target in
  let*? _ := check_deadline (lim_deadline limits) (lit "sealed workspace publication") in
  let*? _ := validate_root target sealer_uid (Some target_gid) PRIVATE_ROOT_MODE (lit "workspace staging directory") in
  let*? _ := set_owner_and_mode target sealer_uid target_gid SEALED_DIRECTORY_MODE in
  let*? m := stat_fd target in
  let*? _ := validate_sealed_directory sealer_uid target_gid m in
  let*? _ := sync_checked target in
  let*? _ := sync_checked (input_root roots) in
  let*? staged_identity := stat_fd target in
  Ret (Ok (identity staged_identity)).

Definition publish_staging (name : bytes) : fsprog unit :=
  let*? _ := ensure_root_path_unchanged (sp_input_root paths) (input_root roots) in
  rename_noreplace (input_root roots) name (input_root roots) run_name.

Definition confirm_published (staged_identity : ObjectIdentity) : fsprog unit :=
  let*? _ := sync_checked (input_root roots) in
  let*? published := stat_at (input_root roots) run_name in
  let*? _ := bail_if (negb (bool_decide (identity published = staged_identity))) (lit "published workspace identity changed during publication") in
  let*? _ := validate_sealed_directory sealer_uid target_gid published in
  ensure_root_path_unchanged (sp_input_root paths) (input_root roots).

(** The closure whose result decides what is cleaned up. *)
Definition seal_quarantined (source_identity : ObjectIdentity) : prog fs_answer (SealState * result FsError unit) :=
  attempt unstaged (open_quarantined source_identity) (fun source =>
  attempt unstaged (create_staging_directory sealer_uid target_gid stack (input_root roots)) (fun name =>
  attempt (mkSealState (Some name) false None) (fill_staging source name) (fun staged_identity =>
  attempt (mkSealState (Some name) false (Some staged_identity)) (publish_staging name) (fun _ =>
  let* confirmed := confirm_published staged_identity in
  Ret (mkSealState (Some name) true (Some staged_identity), confirmed))))).

Definition cleanup_source (source_identity : ObjectIdentity) : fsprog unit :=
  let*? _ := remove_owned_tree_at stack (source_consumed_root roots) run_name source_identity in
  sync_checked (source_consumed_root roots).

Definition cleanup_target (st : SealState) : fsprog unit :=
  if published_by_us st then
    let*? expected := Ret (ok_or (published_identity st) (Bail (lit "published workspace identity is unavailable"))) in
    let*? _ := remove_owned_tree_at stack (input_root roots) run_name expected in
    sync_checked (input_root roots)
  else
    match staged_name st with
    | Some name =>
        let*? _ := remove_sealed_tree_at stack (input_root roots) name in
        sync_checked (input_root roots)
    | None => Ret (Ok tt)
    end.

Definition error_of (r : result FsError unit) : list FsError := match r with Ok _ => [] | Err e => [e] end.

(** What follows the closure: on success the source goes, on failure both. The identity that
    is expected on success is always there, as [confirm_published] comes after it is set. *)
Definition conclude (source_identity : ObjectIdentity) (st : SealState) (result : result FsError unit) : fsprog ObjectIdentity :=
  match result with
  | Ok _ =>
      let* source := cleanup_source source_identity in
      match source with
      | Ok _ => Ret (ok_or (published_identity st) (Bail (lit "successful publication records its identity")))
      | Err source_error =>
          let* target := cleanup_target st in
          match target with
          | Ok _ => fail source_error
          | Err target_error => fail (AlsoFailed source_error [target_error])
          end
      end
  | Err error =>
      let* target := cleanup_target st in
      let* source := cleanup_source source_identity in
      match error_of target ++ error_of source with
      | [] => fail error
      | errors => fail (AlsoFailed error errors)
      end
  end.
End publish.

(** ** Published workspaces *)

Record PublishedWorkspace : Type := mkPublished {
  pub_path : path;
  pub_input_root : fd;
  pub_run_name : bytes;
  pub_identity : ObjectIdentity;
  pub_armed : bool
}.

Definition disarm (w : PublishedWorkspace) : PublishedWorkspace :=
  mkPublished (pub_path w) (pub_input_root w) (pub_run_name w) (pub_identity w) false.

(** [PublishedWorkspace::cleanup], with the workspace as it is left. *)
Definition published_cleanup (stack : nat) (w : PublishedWorkspace) : prog fs_answer (PublishedWorkspace * result FsError unit) :=
  if negb (pub_armed w) then Ret (w, Ok tt)
  else
    let* removed := remove_owned_tree_at stack (pub_input_root w) (pub_run_name w) (pub_identity w) in
    match removed with
    | Err e => Ret (w, Err e)
    | Ok _ => let* synced := sync_checked (pub_input_root w) in Ret (disarm w, synced)
    end.

(** [drop]: a failure is only logged. *)
Definition drop_published (stack : nat) (w : PublishedWorkspace) : prog fs_answer unit :=
  let* _ := published_cleanup stack w in Ret tt.

(** From the quarantine on. *)
Definition seal_in `{Sha256} (stack : nat) (paths : SealPaths) (run_name : bytes) (source_uid source_gid sealer_uid target_gid : N)
    (limits : Limits) (roots : Roots) : fsprog ObjectIdentity :=
  let*? source := stat_at (pending_root roots) run_name in
  let*? _ := rename_noreplace (pending_root roots) run_name (source_consumed_root roots) run_name in
  let* sealed := seal_quarantined stack paths run_name source_uid source_gid sealer_uid target_gid limits roots (identity source) in
  conclude stack run_name roots (identity source) (fst sealed) (snd sealed).

Definition seal_workspace_with_limits `{Sha256} (stack : nat) (paths : SealPaths) (run_id : str) (source_uid source_gid target_gid : N)
    (limits : Limits) : fsprog PublishedWorkspace :=
  let*? _ := check_deadline (lim_deadline limits) sealing in
  let*? _ := validate_run_id run_id in
  let*? _ := validate_root_layout paths in
  let*? sealer_uid := required_sealer_uid in
  let*? roots := open_roots paths sealer_uid source_gid target_gid in
  let*? run_name := c_string (as_bytes run_id) in
  let*? published := seal_in stack paths run_name source_uid source_gid sealer_uid target_gid limits roots in
  Ret (Ok (mkPublished (path_join (sp_input_root paths) run_name) (input_root roots) run_name published true)).

(** The two entry points; [production_codex_group_ids] is an argument. *)
Definition seal_workspace `{Sha256} (stack : nat) (groups : result FsError CodexGroupIds) (run_id : str) (source_uid : N) : fsprog path :=
  let*? groups := Ret groups in
  let*? published := seal_workspace_with_limits stack production run_id source_uid (launch groups) (input groups) (default_limits None) in
  Ret (Ok (pub_path (disarm published))).

Definition seal_workspace_with_deadline `{Sha256} (stack : nat) (groups : result FsError CodexGroupIds) (run_id : str) (source_uid : N)
    (deadline : option WorkBudget) : fsprog PublishedWorkspace :=
  let*? groups := Ret groups in
  seal_workspace_with_limits stack production run_id source_uid (launch groups) (input groups) (default_limits deadline).

Definition preflight (groups : result FsError CodexGroupIds) : fsprog unit :=
  let*? groups := Ret groups in preflight_at production (launch groups) (input groups).
