(* ===== verification/InputSealerRules.v ===== *)
(** * What sealing promises

    The laws of the sealing policy; a sealed workspace is published only when the whole copy
    is finished, and a failure leaves nothing in the roots. *)

From S2P Require Import Prelude Effects Text Digest Paths WorkBudget Descriptors DescriptorRules TreeCopy TreeCopyRules LauncherProtocol IsolatedPlan RunnerInput InputSealer.

Local Open Scope N_scope.

Abbreviation ev := (event fs_answer) (only parsing).

(** ** The laws *)

Section laws.
Context (source_uid source_gid sealer_uid target_gid : N).

Lemma set_owner_and_mode_ok env h h' f uid gid mode :
  exec env h (set_owner_and_mode f uid gid mode) = (h', Ok tt) ->
  h' = Ev (Fchmod f mode) (Ok tt) :: Ev (Fchown f uid gid) (Ok tt) :: h.
Proof.
  unfold set_owner_and_mode. intros (h1 & [] & H1 & H2)%exec_bind_ok. prim_ok H1. prim_ok H2. done.
Qed.

(** After [set_owner_and_mode] and a sync, with calls that only look in between. *)
Lemma sealed_about env h h1 h2 h' f uid gid mode {A} (p : prog fs_answer A) a :
  exec env h (set_owner_and_mode f uid gid mode) = (h1, Ok tt) ->
  exec env h1 (sync_checked f) = (h2, Ok tt) -> calls_only looks p -> exec env h2 p = (h', a) ->
  exists rest, about f h' = Ev (Fsync f) (Ok tt) :: Ev (Fchmod f mode) (Ok tt) :: rest.
Proof.
  intros ->%set_owner_and_mode_ok H2 Hp He. unfold sync_checked in H2. prim_ok H2.
  rewrite (exec_looks_about f _ _ _ _ _ Hp He). eexists. by rewrite !about_touch.
Qed.

Lemma finish_sealed_directory_ok env h h' s d m :
  exec env h (finish_sealed_directory sealer_uid target_gid s d m) = (h', Ok tt) ->
  finished SEALED_DIRECTORY_MODE (fun m => directory_matches m sealer_uid target_gid SEALED_DIRECTORY_MODE) h' d.
Proof.
  unfold finish_sealed_directory. intros (h1 & [] & H1 & Hk)%exec_bind_ok.
  apply exec_bind_ok in Hk as (h2 & [] & H2 & Hk). split.
  { eapply sealed_about; [exact H1|exact H2| |exact Hk]. unfold validate_sealed_directory, recheck_directory. calls_only. }
  apply exec_bind_ok in Hk as (h3 & m' & H3 & Hk). unfold stat_fd in H3. prim_ok H3.
  apply exec_bind_ok in Hk as (h4 & [] & [-> Hm]%exec_bail_if & Hk). apply negb_false_iff in Hm.
  apply exec_bind_ok in Hk as (h5 & [] & H5 & H6). pose proof (exec_extends_to _ _ _ _ _ H5) as X5. pose proof (exec_extends_to _ _ _ _ _ H6) as X6.
  apply ensure_posix_acl_absent_ok in H5. split.
  - exists m'. split; [|done]. eapply extends_in; [eapply extends_trans; [exact X5|exact X6]|by left].
  - intros a. destruct (H5 a) as (errno & He & ?). exists errno. split; [by eapply extends_in|done].
Qed.

Lemma finish_sealed_file_ok env h h' f m :
  exec env h (finish_sealed_file sealer_uid target_gid f m) = (h', Ok tt) ->
  finished SEALED_FILE_MODE (fun m' => file_matches m' sealer_uid target_gid SEALED_FILE_MODE (st_size m)) h' f.
Proof.
  unfold finish_sealed_file. intros (h1 & [] & H1 & Hk)%exec_bind_ok.
  apply exec_bind_ok in Hk as (h2 & [] & H2 & Hk). split.
  { eapply sealed_about; [exact H1|exact H2| |exact Hk]. calls_only. }
  apply exec_bind_ok in Hk as (h3 & m' & H3 & Hk). unfold stat_fd in H3. prim_ok H3.
  apply exec_bind_ok in Hk as (h4 & [] & [-> Hm]%exec_bail_if & Hk). apply negb_false_iff in Hm.
  pose proof (exec_extends_to _ _ _ _ _ Hk) as X. apply ensure_posix_acl_absent_ok in Hk. split; [|done].
  exists m'. split; [|done]. eapply extends_in; [exact X|by left].
Qed.
End laws.

Lemma recheck_directory_looks s source_child m : calls_only looks (recheck_directory s source_child m).
Proof. unfold recheck_directory. calls_only. Qed.

Lemma validate_sealed_directory_looks uid gid m : calls_only looks (validate_sealed_directory uid gid m).
Proof. apply calls_only_ret. Qed.

#[export] Hint Resolve recheck_directory_looks validate_sealed_directory_looks : calls_only.

#[export] Program Instance sealing_laws `{Sha256} source_uid source_gid sealer_uid target_gid :
  CopyLaws (sealing_policy source_uid source_gid sealer_uid target_gid) := {|
  final_file_mode := SEALED_FILE_MODE;
  final_directory_mode := SEALED_DIRECTORY_MODE;
  fits_file m m' := file_matches m' sealer_uid target_gid SEALED_FILE_MODE (st_size m);
  fits_directory m := directory_matches m sealer_uid target_gid SEALED_DIRECTORY_MODE;
  finish_directory_ok := finish_sealed_directory_ok sealer_uid target_gid;
  finish_file_ok := finish_sealed_file_ok sealer_uid target_gid
|}.
Next Obligation. intros. apply calls_only_bind_ok; [apply calls_only_ret|]. intros. auto with calls_only. Qed.
Next Obligation. intros. apply ensure_posix_acl_absent_looks. Qed.
Next Obligation. intros. apply set_owner_and_mode_tends. Qed.
Next Obligation.
  intros. apply calls_only_bind_ok; [auto with calls_only|]. intros _. apply calls_only_bind_ok; [auto with calls_only|]. intros _.
  apply looks_calls_tend. calls_only.
Qed.
Next Obligation. intros. apply set_owner_and_mode_tends. Qed.
Next Obligation.
  intros. apply calls_only_bind_ok; [auto with calls_only|]. intros _. apply calls_only_bind_ok; [auto with calls_only|]. intros _.
  apply looks_calls_tend. calls_only.
Qed.

(** ** Calls that put nothing into a directory *)

Lemma looks_no_gain {A} (p : prog fs_answer A) : calls_only looks p -> calls_only no_gain p.
Proof. intros Hp. eapply calls_only_mono; [exact Hp|]. by intros []. Qed.

#[local] Hint Extern 3 (calls_only no_gain _) =>
  apply looks_no_gain; first [ apply check_deadline_looks | apply stat_fd_looks | apply bail_if_looks | apply ensure_posix_acl_absent_looks
                             | apply validate_sealed_directory_looks ] : calls_only.

Lemma validate_absolute_looks p : calls_only looks (validate_absolute_normal_path p).
Proof. unfold validate_absolute_normal_path. calls_only. Qed.

Lemma open_absolute_no_gain p : calls_only no_gain (open_absolute_directory p).
Proof.
  unfold open_absolute_directory. apply calls_only_bind_ok; [apply looks_no_gain, validate_absolute_looks|]. intros _.
  apply calls_only_bind_ok; [unfold os; calls_only|]. intros dir. generalize (components p) as cs. intros cs. revert dir.
  induction cs as [|c cs IH]; intros dir; cbn [open_each]; [apply calls_only_ret|]. destruct c; auto.
  apply calls_only_bind_ok; [apply calls_only_ret|]. intros n. apply calls_only_bind_ok; [unfold open_directory_at, os; calls_only|]. auto.
Qed.

#[local] Hint Resolve open_absolute_no_gain : calls_only.

Lemma ensure_root_no_gain p held : calls_only no_gain (ensure_root_path_unchanged p held).
Proof. unfold ensure_root_path_unchanged. calls_only. Qed.

#[local] Hint Resolve ensure_root_no_gain : calls_only.

Lemma remove_sealed_no_gain stack parent name : calls_only no_gain (remove_sealed_tree_at stack parent name).
Proof.
  revert parent name. induction stack as [|stack IH]; intros parent name; cbn [remove_sealed_tree_at]; [apply calls_only_ret|].
  apply calls_only_bind_ok; [unfold stat_at, os; calls_only|]. intros m.
  apply calls_only_bind_ok; [|intros _; unfold sync_checked, os; calls_only].
  destruct (_ =? S_IFDIR); [|unfold unlink_at, os; calls_only].
  apply calls_only_bind_ok; [unfold open_directory_at, os; calls_only|]. intros directory.
  apply calls_only_bind_ok; [unfold open_up; calls_only|]. intros _.
  apply calls_only_bind_ok; [unfold list_pending_directory, list_directory, os; calls_only|]. intros children.
  apply calls_only_bind_ok; [|intros _; unfold sync_checked, unlink_at, os; calls_only].
  induction children as [|child children IHc]; [apply calls_only_ret|].
  apply calls_only_bind_ok; [apply calls_only_ret|]. intros n. apply calls_only_bind_ok; [apply IH|]. intros _. exact IHc.
Qed.

#[local] Hint Resolve remove_sealed_no_gain : calls_only.

(** At some point after [h] the name was removed. *)
Definition unlinked (d : fd) (name : bytes) (h h' : list ev) : Prop :=
  exists h8 b, extends h h8 /\ extends (Ev (UnlinkAt d name b) (Ok tt) :: h8) h'.

Lemma remove_sealed_unlinks env stack h h' d name :
  exec env h (remove_sealed_tree_at stack d name) = (h', Ok tt) -> unlinked d name h h'.
Proof.
  intros He. destruct stack as [|stack]; [done|]. cbn [remove_sealed_tree_at] in He.
  apply exec_bind_ok in He as (h1 & m & H1%exec_extends_to & He). apply exec_bind_ok in He as (h2 & [] & He & H2%exec_extends_to).
  destruct (_ =? S_IFDIR).
  - do 4 (apply exec_bind_ok in He as (? & ? & ?%exec_extends_to & He)). apply exec_bind_ok in He as (h7 & [] & H7%exec_extends_to & He).
    unfold unlink_at in He. prim_ok He. exists h7, true. split; [|done]. eauto 10 with trace.
  - unfold unlink_at in He. prim_ok He. by exists h1, false.
Qed.

(** A removal that succeeded removed the name, and nothing came. *)
Lemma remove_sealed_gone env stack h h' d name :
  exec env h (remove_sealed_tree_at stack d name) = (h', Ok tt) -> gone d name h h'.
Proof.
  intros He. destruct (remove_sealed_unlinks _ _ _ _ _ _ He) as (h8 & b & H8 & Hx).
  eapply removed_name; [apply remove_sealed_no_gain|exact He|exact Hx|exact H8].
Qed.

(** What was removed is what was expected under the name. *)
Definition removed_owned (d : fd) (name : bytes) (expected : ObjectIdentity) (h h' : list ev) : Prop :=
  exists m, identity m = expected /\ unlinked d name (Ev (FstatAt d name) (Ok m) :: h) h'.

Lemma remove_owned_unlinks env stack h h' d name expected :
  exec env h (remove_owned_tree_at stack d name expected) = (h', Ok tt) -> removed_owned d name expected h h'.
Proof.
  unfold remove_owned_tree_at. intros (h1 & m & H1 & He)%exec_bind_ok. unfold stat_at in H1. prim_ok H1.
  apply exec_bind_ok in He as (h2 & [] & [-> Hi%negb_false_iff%bool_decide_eq_true]%exec_bail_if & He).
  exists m. split; [done|]. by eapply remove_sealed_unlinks.
Qed.

Lemma remove_owned_gone env stack h h' d name expected :
  exec env h (remove_owned_tree_at stack d name expected) = (h', Ok tt) -> gone d name h h'.
Proof.
  unfold remove_owned_tree_at. intros (h1 & m & H1 & He)%exec_bind_ok. unfold stat_at in H1. prim_ok H1.
  apply exec_bind_ok in He as (h2 & [] & [-> _]%exec_bail_if & He). apply remove_sealed_gone in He.
  eapply gone_between; [|exact He|apply standing_in_refl]. by apply standing_in_cons.
Qed.

Section roots.
Context `{Sha256} (stack : nat) (paths : SealPaths) (run_name : bytes) (source_uid source_gid sealer_uid target_gid : N) (limits : Limits)
  (roots : Roots).

#[local] Abbreviation consumed := (source_consumed_root roots).
#[local] Abbreviation sealed := (input_root roots).

Lemma open_quarantined_no_gain id : calls_only no_gain (open_quarantined run_name source_uid source_gid limits roots id).
Proof. unfold open_quarantined, sync_checked, open_directory_at, os. calls_only. Qed.

Lemma confirm_no_gain id : calls_only no_gain (confirm_published paths run_name sealer_uid target_gid roots id).
Proof. unfold confirm_published, sync_checked, stat_at, os. calls_only. Qed.

Lemma cleanup_source_no_gain id : calls_only no_gain (cleanup_source stack run_name roots id).
Proof. unfold cleanup_source, remove_owned_tree_at, sync_checked, stat_at, os. calls_only. Qed.

Lemma cleanup_target_no_gain st : calls_only no_gain (cleanup_target stack run_name roots st).
Proof. unfold cleanup_target, remove_owned_tree_at, sync_checked, stat_at, os. calls_only. Qed.

Lemma fill_staging_gains source name :
  stays gains [] (fill_staging source_uid source_gid sealer_uid target_gid limits roots source name).
Proof.
  unfold fill_staging, open_directory_at. eapply stays_bind_fd; [eauto with stays nocore|]. intros target.
  apply stays_bind_ok; [apply (copy_directory_gains (sealing_policy source_uid source_gid sealer_uid target_gid)); in_view|]. intros _.
  apply stays_bind_ok; [apply looks_gains; auto with calls_only|]. intros _.
  apply stays_bind_ok; [apply looks_gains; unfold validate_root; calls_only|]. intros _.
  apply stays_bind_ok; [eapply tends_gains, set_owner_and_mode_tends|]. intros _.
  apply stays_bind_ok; [apply looks_gains; auto with calls_only|]. intros m.
  apply stays_bind_ok; [apply looks_gains; auto with calls_only|]. intros _.
  do 2 (apply stays_bind_ok; [eapply tends_gains, sync_checked_tends|]; intros _).
  apply stays_bind_ok; [apply looks_gains; auto with calls_only|]. intros st. apply stays_ret.
Qed.

Lemma create_staging_standing env h h' d r :
  exec env h (create_staging_directory sealer_uid target_gid stack d) = (h', r) ->
  (forall d', d' <> d -> standing_in d' h h') /\
  match r with
  | Ok name => forall n, n ∈ standing d h' -> n = name \/ n ∈ standing d h
  | Err e => cleaned e -> standing_in d h h'
  end.
Proof.
  unfold create_staging_directory. generalize 128%nat as attempts. intros attempts. revert h.
  induction attempts as [|attempts IH]; intros h; cbn [create_staging_attempts].
  { intros [= <- <-]. split; [intros d' _|intros _]; apply standing_in_refl. }
  rewrite exec_bind. cbn [perform exec fst snd]. rewrite exec_bind. cbn [perform exec fst snd].
  set (name := staging_name _ _). set (h1 := _ :: _ :: h). rewrite exec_bind. cbn [perform exec fst snd].
  assert (forall d', standing_in d' h h1) as S1.
  { intros d'. eapply standing_in_trans; [|by apply standing_in_cons]. by apply standing_in_cons. }
  set (made := env h1 (MkdirAt d name PRIVATE_ROOT_MODE)). set (h2 := Ev (MkdirAt d name PRIVATE_ROOT_MODE) made :: h1).
  assert (forall d', d' <> d -> standing_in d' h h2) as S2.
  { intros d' Hd. eapply standing_in_trans; [apply S1|]. apply standing_in_cons. cbn. congruence. }
  assert (if is_ok made then forall n, n ∈ standing d h2 -> n = name \/ n ∈ standing d h else standing_in d h h2) as Sd.
  { unfold h2. destruct made as [[]|errno]; cbn [is_ok]; [|eapply standing_in_trans; [apply S1|]; by intros n].
    intros n [?|Hn]%standing_made; [by left|]. right. by apply S1. }
  clearbody h2. destruct made as [[]|errno]; cbn [is_ok] in Sd.
  2: {
       destruct (negb _); [intros [= <- <-]; by split; [|intros _]|]. intros [Hd Hr]%IH.
       split; [intros d' Hne; eapply standing_in_trans; [by apply S2|by apply Hd]|].
       destruct r as [n|e]; [|intros He; eapply standing_in_trans; [exact Sd|by apply Hr]]. intros m Hm. apply Hr in Hm as [?|Hm]; auto. }
  rewrite exec_bind. destruct (exec env h2 (open_staging sealer_uid target_gid d name)) as [h3 opened] eqn:E3. cbn [fst snd].
  assert (calls_only no_gain (open_staging sealer_uid target_gid d name)) as N3.
  { unfold open_staging, open_directory_at, set_owner_and_mode, os. calls_only. }
  assert (opened = Ok name \/ is_ok opened = false) as Hopened.
  { destruct opened as [n|e]; [left|by right]. unfold open_staging in E3.
    apply exec_bind_ok in E3 as (? & ? & _ & E3). apply exec_bind_ok in E3 as (? & ? & _ & E3). by injection E3 as _ <-. }
  assert (forall d', standing_in d' h2 h3) as S3 by (intros d'; exact (exec_no_gain _ _ _ _ _ d' N3 E3)).
  destruct opened as [n|e]; cbn [exec].
  - destruct Hopened as [[= ->]|]; [|done]. intros [= <- <-]. split; [intros d' Hd; eapply standing_in_trans; [by apply S2|apply S3]|].
    intros m Hm. by apply Sd, S3.
  - rewrite exec_bind. destruct (exec env h3 (remove_sealed_tree_at stack d name)) as [h4 cleanup] eqn:E4. cbn [fst snd].
    assert (forall d', standing_in d' h3 h4) as S4.
    { intros d'. exact (exec_no_gain _ _ _ _ _ d' (remove_sealed_no_gain stack d name) E4). }
    assert (forall d', d' <> d -> standing_in d' h h4) as S24.
    { intros d' Hd. eapply standing_in_trans; [by apply S2|]. eapply standing_in_trans; [apply S3|apply S4]. }
    destruct cleanup as [[]|c]; cbn [exec]; intros [= <- <-]; (split; [done|]); [|done].
    intros _ n Hn. apply (remove_sealed_gone _ _ _ _ _ _ E4) in Hn as [Hne Hn]. apply S3, Sd in Hn. tauto.
Qed.

Lemma publish_standing env h h' name r :
  exec env h (publish_staging paths run_name roots name) = (h', r) -> consumed <> sealed ->
  standing_in consumed h h' /\
  match r with
  | Ok _ => (forall n, n ∈ standing sealed h' -> n = run_name \/ (n <> name /\ n ∈ standing sealed h)) /\ (Ev (RenameNoReplace sealed name sealed run_name) (Ok tt) : ev) ∈ h'
  | Err _ => standing_in sealed h h'
  end.
Proof.
  unfold publish_staging. intros He Hne. unfold bind_ok in He. rewrite exec_bind in He.
  destruct (exec env h (ensure_root_path_unchanged _ _)) as [h1 [[]|e]] eqn:E1; cbn [fst snd] in He;
    pose proof (fun d => exec_no_gain _ _ _ _ _ d (ensure_root_no_gain _ _) E1) as S1; [|by injection He as <- <-].
  unfold rename_noreplace, os in He. rewrite exec_bind in He. cbn [perform exec fst snd] in He.
  set (r' := env h1 (RenameNoReplace sealed name sealed run_name)) in *. injection He as <- <-. split.
  - eapply standing_in_trans; [apply S1|]. apply standing_in_cons. cbn. congruence.
  - destruct r' as [[]|errno]; cbn [map_err].
    + split; [|by left]. intros n. cbn. rewrite !N.eqb_refl. rewrite elem_of_cons, elem_of_without. intros [?|[? ?]]; [by left|right].
      split; [done|]. by apply S1.
    + intros n Hn. by apply S1.
Qed.

(** What the closure leaves in the root of sealed inputs, as its variables say it. *)
Definition sealed_left (h h' : list ev) (st : SealState) (r : result FsError unit) : Prop :=
  if published_by_us st then
    (forall n, n ∈ standing sealed h' -> n = run_name \/ n ∈ standing sealed h)
    /\ is_Some (published_identity st)
    /\ exists name, (Ev (RenameNoReplace sealed name sealed run_name) (Ok tt) : ev) ∈ h'
  else
    is_ok r = false /\
    match staged_name st with
    | Some name => forall n, n ∈ standing sealed h' -> n = name \/ n ∈ standing sealed h
    | None => forall e, r = Err e -> cleaned e -> standing_in sealed h h'
    end.

Lemma sealed_left_between h0 h1 h2 h3 st r :
  standing_in sealed h0 h1 -> sealed_left h1 h2 st r -> standing_in sealed h2 h3 -> extends h2 h3 -> sealed_left h0 h3 st r.
Proof.
  intros H1 Hl H3 Hx. unfold sealed_left in *. destruct (published_by_us st).
  - destruct Hl as (Hl & Hi & (name & Hn)). split_and!; [|done|exists name; by eapply extends_in].
    intros n Hin. apply H3, Hl in Hin as [?|?]; auto.
  - destruct Hl as [Hr Hl]. split; [done|]. destruct (staged_name st).
    + intros n Hin. apply H3, Hl in Hin as [?|?]; auto.
    + intros e He Hc n Hin. eapply H1, Hl; eauto.
Qed.

Definition left_by (h h' : list ev) (st : SealState) (r : result FsError unit) : Prop :=
  standing_in consumed h h' /\ sealed_left h h' st r.

Lemma seal_quarantined_standing env h h' id st r :
  exec env h (seal_quarantined stack paths run_name source_uid source_gid sealer_uid target_gid limits roots id) = (h', (st, r)) ->
  sound h' -> consumed ∈ opened h -> sealed ∈ opened h -> consumed <> sealed -> left_by h h' st r.
Proof.
  intros He Hs Hc Hi Hne. unfold seal_quarantined in He. unfold attempt at 1 in He. rewrite exec_bind in He.
  destruct (exec env h (open_quarantined _ _ _ _ _ id)) as [h1 [source|e]] eqn:E1; cbn [fst snd] in He;
    pose proof (fun d => exec_no_gain _ _ _ _ _ d (open_quarantined_no_gain id) E1) as S1; pose proof (exec_extends_to _ _ _ _ _ E1) as X1.
  2: { injection He as <- <- <-. split; [apply S1|]. split; [done|]. intros e' _ _. apply S1. }
  unfold attempt at 1 in He. rewrite exec_bind in He.
  destruct (exec env h1 (create_staging_directory _ _ _ _)) as [h2 r2] eqn:E2; cbn [fst snd] in He.
  pose proof (exec_extends_to _ _ _ _ _ E2) as X2. apply create_staging_standing in E2 as [S2 C2].
  assert (standing_in consumed h h2) as S02 by (eapply standing_in_trans; [apply S1|by apply S2]).
  destruct r2 as [name|e].
  2: { injection He as <- <- <-. split; [done|]. split; [done|]. intros e' [= <-] Hcl. eapply standing_in_trans; [apply S1|by apply C2]. }
  unfold attempt at 1 in He. rewrite exec_bind in He.
  destruct (exec env h2 (fill_staging _ _ _ _ _ _ source name)) as [h3 r3] eqn:E3; cbn [fst snd] in He.
  pose proof (exec_stays gains [] _ _ _ _ _ (fill_staging_gains source name) E3) as G3. pose proof (confined_extends _ _ _ _ G3) as X3.
  assert (extends h3 h') as X3'.
  { destruct r3; [by eapply exec_extends_to|injection He as <- _ _; apply extends_refl]. }
  assert (sound h3) as Hs3 by (by eapply sound_extends).
  assert (forall d, d ∈ opened h -> standing_in d h2 h3) as S3.
  { intros d Hd. eapply confined_standing_in; [exact G3|done| |by apply not_elem_of_nil]. eapply opened_extends; [|exact Hd]. eauto with trace. }
  assert (standing_in consumed h h3) as S03 by (eapply standing_in_trans; [exact S02|by apply S3]).
  assert (forall n, n ∈ standing sealed h3 -> n = name \/ n ∈ standing sealed h) as T3.
  { intros n Hn. apply S3, C2 in Hn as [?|Hn]; [by left|right; by apply S1|done]. }
  destruct r3 as [identity|e]; [|injection He as <- <- <-; split; [done|]; by split].
  unfold attempt at 1 in He. rewrite exec_bind in He.
  destruct (exec env h3 (publish_staging _ _ _ name)) as [h4 r4] eqn:E4; cbn [fst snd] in He.
  apply publish_standing in E4 as [S4 T4]; [|done]. assert (standing_in consumed h h4) as S04 by (eapply standing_in_trans; eauto).
  destruct r4 as [[]|e].
  2: { injection He as <- <- <-. split; [done|]. split; [done|]. intros n Hn. by apply T3, T4. }
  destruct T4 as [T4 P4]. rewrite exec_bind in He.
  destruct (exec env h4 (confirm_published _ _ _ _ _ _)) as [h5 r5] eqn:E5; cbn [fst snd] in He. injection He as <- <- <-.
  pose proof (fun d => exec_no_gain _ _ _ _ _ d (confirm_no_gain identity) E5) as S5. pose proof (exec_extends_to _ _ _ _ _ E5) as X5.
  split; [eapply standing_in_trans; eauto|]. cbn. split_and!; [|done|exists name; by eapply extends_in].
  intros n Hn. apply S5, T4 in Hn as [?|[Hn1 Hn]]; [by left|]. apply T3 in Hn as [?|?]; [done|by right].
Qed.

(** A clean-up that succeeded. *)
Lemma cleanup_source_gone env h h' id : exec env h (cleanup_source stack run_name roots id) = (h', Ok tt) -> gone consumed run_name h h'.
Proof.
  unfold cleanup_source. intros (h1 & [] & H1 & H2)%exec_bind_ok. unfold sync_checked in H2. prim_ok H2. apply remove_owned_gone in H1.
  eapply gone_between; [apply standing_in_refl|exact H1|by apply standing_in_cons].
Qed.

Lemma cleanup_target_clean env h0 h h' st r :
  sealed_left h0 h st r -> (forall e, r = Err e -> cleaned e) ->
  exec env h (cleanup_target stack run_name roots st) = (h', Ok tt) -> standing_in sealed h0 h'.
Proof.
  intros Hl Hcl He. unfold sealed_left in Hl. unfold cleanup_target in He. destruct (published_by_us st).
  - destruct Hl as (Hl & _). apply exec_bind_ok in He as (h1 & id & [-> _]%exec_ret_ok & He).
    apply exec_bind_ok in He as (h2 & [] & H2 & H3). unfold sync_checked in H3. prim_ok H3. apply remove_owned_gone in H2.
    intros n Hn. assert (n ∈ standing sealed h2) as Hn2 by exact Hn. apply H2 in Hn2 as [? Hn2]. apply Hl in Hn2 as [|]; done.
  - destruct Hl as [Hr Hl]. destruct (staged_name st) as [name|].
    + apply exec_bind_ok in He as (h2 & [] & H2 & H3). unfold sync_checked in H3. prim_ok H3. apply remove_sealed_gone in H2.
      intros n Hn. assert (n ∈ standing sealed h2) as Hn2 by exact Hn. apply H2 in Hn2 as [? Hn2]. apply Hl in Hn2 as [|]; done.
    + injection He as <-. destruct r as [|e]; [done|]. eauto.
Qed.
End roots.

Section sealing.
Context `{Sha256} (stack : nat) (paths : SealPaths) (run_name : bytes) (source_uid source_gid sealer_uid target_gid : N) (limits : Limits)
  (roots : Roots).

#[local] Abbreviation consumed := (source_consumed_root roots).
#[local] Abbreviation sealed := (input_root roots).

Definition published_in (h : list ev) : Prop := exists name, (Ev (RenameNoReplace sealed name sealed run_name) (Ok tt) : ev) ∈ h.

(** What the roots hold at the end, however it ends. *)
Definition roots_after (h0 h : list ev) (r : result FsError ObjectIdentity) : Prop :=
  match r with
  | Ok _ => (forall n, n ∈ standing sealed h -> n = run_name \/ n ∈ standing sealed h0) /\ published_in h
            /\ forall n, n ∈ standing consumed h -> n <> run_name /\ n ∈ standing consumed h0
  | Err e => cleaned e -> standing_in sealed h0 h /\ (standing_in consumed h0 h \/ published_in h)
  end.

Lemma conclude_standing env h0 h h' id st r0 r :
  sealed_left run_name roots h0 h st r0 -> (forall n, n ∈ standing consumed h -> n = run_name \/ n ∈ standing consumed h0) ->
  exec env h (conclude stack run_name roots id st r0) = (h', r) -> roots_after h0 h' r.
Proof.
  intros Hl Hc He. unfold conclude in He. destruct r0 as [[]|e0].
  - rewrite exec_bind in He. destruct (exec env h (cleanup_source _ _ _ _)) as [h1 r1] eqn:E1. cbn [fst snd] in He.
    pose proof (fun d => exec_no_gain _ _ _ _ _ d (cleanup_source_no_gain stack run_name roots id) E1) as S1.
    apply (sealed_left_between _ _ h0 h0 h h1) in Hl; [|apply standing_in_refl|apply S1|by eapply exec_extends_to].
    pose proof Hl as Hp. unfold sealed_left in Hp. destruct (published_by_us st); [|by destruct Hp]. destruct Hp as (Hs & (i & Hi) & Hn).
    destruct r1 as [[]|e1].
    + rewrite Hi in He. injection He as <- <-. split; [done|]. split; [done|].
      intros n Hin. apply (cleanup_source_gone _ _ _ _ _ _ _ E1) in Hin as [Hne Hin]. split; [done|]. by apply Hc in Hin as [|].
    + rewrite exec_bind in He. destruct (exec env h1 (cleanup_target _ _ _ _)) as [h2 r2] eqn:E2. cbn [fst snd] in He.
      pose proof (exec_extends_to _ _ _ _ _ E2) as X2. destruct r2 as [[]|e2]; injection He as <- <-; [|done]. intros _. split.
      * eapply cleanup_target_clean; [exact Hl|by intros|exact E2].
      * right. destruct Hn as (name & Hn). exists name. by eapply extends_in.
  - rewrite exec_bind in He. destruct (exec env h (cleanup_target _ _ _ _)) as [h1 r1] eqn:E1. cbn [fst snd] in He.
    pose proof (fun d => exec_no_gain _ _ _ _ _ d (cleanup_target_no_gain stack run_name roots st) E1) as S1.
    rewrite exec_bind in He. destruct (exec env h1 (cleanup_source _ _ _ _)) as [h2 r2] eqn:E2. cbn [fst snd] in He.
    pose proof (fun d => exec_no_gain _ _ _ _ _ d (cleanup_source_no_gain stack run_name roots id) E2) as S2.
    destruct r1 as [[]|e1], r2 as [[]|e2]; injection He as <- <-; try done. intros Hcl. split.
    + eapply standing_in_trans; [|apply S2]. eapply cleanup_target_clean; [exact Hl| |exact E1]. by intros e [= <-].
    + left. intros n Hin. apply (cleanup_source_gone _ _ _ _ _ _ _ E2) in Hin as [Hne Hin]. by apply S1, Hc in Hin as [|].
Qed.

Lemma seal_in_standing env h0 h r :
  exec env h0 (seal_in stack paths run_name source_uid source_gid sealer_uid target_gid limits roots) = (h, r) ->
  sound h -> consumed ∈ opened h0 -> sealed ∈ opened h0 -> consumed <> sealed -> roots_after h0 h r.
Proof.
  intros He Hs Hc Hi Hne. unfold seal_in, bind_ok at 1 in He. rewrite exec_bind in He.
  unfold stat_at, os in He. rewrite exec_bind in He. cbn [perform exec fst snd] in He.
  set (h1 := Ev (FstatAt (pending_root roots) run_name) _ :: h0) in *.
  assert (forall d, standing_in d h0 h1) as S1 by (intros d; by apply standing_in_cons).
  destruct (env h0 (FstatAt _ run_name)) as [m|errno]; cbn [map_err] in He; [|injection He as <- <-; intros _; split; [|left]; apply S1].
  unfold bind_ok, rename_noreplace, os in He. rewrite !exec_bind in He. cbn [perform exec fst snd] in He.
  set (r2 := env h1 (RenameNoReplace _ run_name _ run_name)) in *.
  set (h2 := Ev (RenameNoReplace (pending_root roots) run_name consumed run_name) r2 :: h1) in *.
  assert (standing_in sealed h0 h2) as S2.
  { eapply standing_in_trans; [apply S1|]. apply standing_in_cons. cbn. congruence. }
  assert (if is_ok r2 then forall n, n ∈ standing consumed h2 -> n = run_name \/ n ∈ standing consumed h0 else standing_in consumed h0 h2) as C2.
  { unfold h2. destruct r2 as [[]|errno]; cbn [is_ok]; [|by intros n]. intros n. cbn. rewrite N.eqb_refl, elem_of_cons.
    intros [?|Hn]; [by left|right]. destruct (_ =? _); [by apply elem_of_without in Hn as [_ ?]|done]. }
  assert (extends h0 h2) as X2 by (unfold h2, h1; eauto with trace). clearbody h2.
  destruct r2 as [[]|errno]; cbn [map_err is_ok] in *; [|injection He as <- <-; intros _; by split; [|left]].
  rewrite exec_bind in He. destruct (exec env h2 (seal_quarantined _ _ _ _ _ _ _ _ _ _)) as [h3 [st r3]] eqn:E3. cbn [fst snd] in He.
  assert (left_by run_name roots h2 h3 st r3) as [Hl1 Hl2].
  { eapply seal_quarantined_standing; [exact E3| |by eapply opened_extends..|done]. eapply sound_extends; [|exact Hs]. by eapply exec_extends_to. }
  eapply conclude_standing; [| |exact He].
  - eapply sealed_left_between; [exact S2|exact Hl2|apply standing_in_refl|apply extends_refl].
  - intros n Hn. by apply Hl1, C2 in Hn.
Qed.
End sealing.

(** ** The copy is finished before it is published *)

Section faithful.
Context `{Sha256} (stack : nat) (paths : SealPaths) (run_name : bytes) (source_uid source_gid sealer_uid target_gid : N) (limits : Limits)
  (roots : Roots).

#[local] Abbreviation consumed := (source_consumed_root roots).
#[local] Abbreviation sealed := (input_root roots).
#[local] Abbreviation pol := (sealing_policy source_uid source_gid sealer_uid target_gid).

(** A complete copy below the name [name], at some moment. *)
Record complete (h0 h : list ev) (source : fd) (name : bytes) (id : ObjectIdentity) : Prop := {
  complete_copy : exists target,
    (Ev (OpenAt sealed name Readable) (Ok target) : ev) ∈ h
    /\ copied_tree pol (root_levels limits) [] h source target
    /\ finished SEALED_DIRECTORY_MODE (fun m => directory_matches m sealer_uid target_gid SEALED_DIRECTORY_MODE) h target
    /\ exists m, (Ev (Fstat target) (Ok m) : ev) ∈ h /\ identity m = id;
  complete_only : forall td n readable mode f, (Ev (CreateAt td n readable mode) (Ok f) : ev) ∈ h ->
    (Ev (CreateAt td n readable mode) (Ok f) : ev) ∈ h0
    \/ (forbidden_name n = false /\ exists sd, copied_file pol [] h sd td n f)
}.

Lemma validate_root_looks d uid gid mode description : calls_only looks (validate_root d uid gid mode description).
Proof. unfold validate_root. calls_only. Qed.

Lemma validate_root_no_acl env h h' d uid gid mode description :
  exec env h (validate_root d uid gid mode description) = (h', Ok tt) -> no_acl h' d.
Proof.
  unfold validate_root. intros (h1 & m & H1 & Hk)%exec_bind_ok. apply exec_bind_ok in Hk as (h2 & [] & _ & Hk).
  by apply ensure_posix_acl_absent_ok in Hk.
Qed.

(** From the end of the copy to the recorded identity. *)
Definition finish_staging (target : fd) : fsprog ObjectIdentity :=
  let*? _ := check_deadline (lim_deadline limits) (lit "sealed workspace publication") in
  let*? _ := validate_root target sealer_uid (Some target_gid) PRIVATE_ROOT_MODE (lit "workspace staging directory") in
  let*? _ := set_owner_and_mode target sealer_uid target_gid SEALED_DIRECTORY_MODE in
  let*? m := stat_fd target in
  let*? _ := validate_sealed_directory sealer_uid target_gid m in
  let*? _ := sync_checked target in
  let*? _ := sync_checked sealed in
  let*? staged_identity := stat_fd target in
  Ret (Ok (identity staged_identity)).

Lemma finish_staging_stays target : stays subject_fd [target; sealed] (finish_staging target).
Proof.
  unfold finish_staging. apply stays_bind_ok; [eauto with stays|]. intros _.
  apply stays_bind_ok; [apply looks_stays, validate_root_looks|]. intros _.
  apply stays_bind_ok; [eapply tends_stays; [apply set_owner_and_mode_tends|in_view]|]. intros _.
  apply stays_bind_ok; [eauto with stays|]. intros m. apply stays_bind_ok; [apply looks_stays, validate_sealed_directory_looks|]. intros _.
  do 2 (apply stays_bind_ok; [eapply tends_stays; [apply sync_checked_tends|in_view]|]; intros _).
  apply stays_bind_ok; [eauto with stays|]. intros s. apply stays_ret.
Qed.

Lemma finish_staging_no_file target : calls_only no_file (finish_staging target).
Proof.
  unfold finish_staging, validate_root, ensure_posix_acl_absent, ensure_acl_absent, validate_sealed_directory, bail_if, set_owner_and_mode,
    sync_checked, stat_fd, check_deadline, fail, os. calls_only.
Qed.

Lemma finish_staging_ok env h h' target id :
  exec env h (finish_staging target) = (h', Ok id) -> target <> sealed ->
  finished SEALED_DIRECTORY_MODE (fun m => directory_matches m sealer_uid target_gid SEALED_DIRECTORY_MODE) h' target
  /\ exists m, (Ev (Fstat target) (Ok m) : ev) ∈ h' /\ identity m = id.
Proof.
  unfold finish_staging. intros (h1 & [] & H1 & Hk)%exec_bind_ok Hne.
  apply exec_bind_ok in Hk as (h2 & [] & H2%validate_root_no_acl & Hk).
  apply exec_bind_ok in Hk as (h3 & [] & ->%set_owner_and_mode_ok & Hk).
  apply exec_bind_ok in Hk as (h4 & m & H4 & Hk). unfold stat_fd in H4. prim_ok H4.
  apply exec_bind_ok in Hk as (h5 & [] & [-> Hm]%exec_bail_if & Hk). apply negb_false_iff in Hm.
  apply exec_bind_ok in Hk as (h6 & [] & H6 & Hk). unfold sync_checked in H6. prim_ok H6.
  apply exec_bind_ok in Hk as (h7 & [] & H7 & Hk). unfold sync_checked in H7. prim_ok H7.
  apply exec_bind_ok in Hk as (h8 & m' & H8 & [-> [= <-]]%exec_ret_ok). unfold stat_fd in H8. prim_ok H8.
  split; [split; [|split]|].
  - exists (Ev (Fchown target sealer_uid target_gid) (Ok tt) :: about target h2).
    cbn [about opens subject_fd ev_call]. rewrite !(bool_decide_eq_false_2 (None = Some target)) by done.
    rewrite (bool_decide_eq_false_2 (Some sealed = Some target)) by congruence. by rewrite !bool_decide_eq_true_2.
  - exists m. split; [|done]. do 3 right. by left.
  - intros a. destruct (H2 a) as (errno & He & ?). exists errno. split; [|done]. by do 6 right.
  - exists m'. split; [by left|done].
Qed.

Lemma fill_staging_ok env h h' source name id :
  exec env h (fill_staging source_uid source_gid sealer_uid target_gid limits roots source name) = (h', Ok id) ->
  sound h' -> sealed ∈ opened h -> complete h h' source name id.
Proof.
  unfold fill_staging. intros (h1 & target & H1 & Hk)%exec_bind_ok Hs Hi. unfold open_directory_at in H1. prim_ok H1.
  set (e1 := Ev (OpenAt sealed name Readable) (Ok target) : ev) in *.
  apply exec_bind_ok in Hk as (h2 & st & H2 & Hk). change (exec env h2 (finish_staging target) = (h', Ok id)) in Hk.
  pose proof (exec_extends_to _ _ _ _ _ Hk) as X3. pose proof (exec_extends_to _ _ _ _ _ H2) as X2.
  assert (sound (e1 :: h)) as Hs1 by (eapply sound_extends; [|exact Hs]; eauto with trace).
  assert (target <> sealed) as Hne by (intros ->; by apply NoDup_cons in Hs1 as [? _]).
  pose proof (exec_stays _ _ _ _ _ _ _ (finish_staging_stays target) Hk) as C3.
  pose proof (fun td n r m f => exec_no_file _ _ _ _ _ td n r m f (finish_staging_no_file target) Hk) as N3.
  destruct (finish_staging_ok _ _ _ _ _ Hk Hne) as [Hf Hid].
  unfold seal_directory in H2. apply (copy_directory_copies pol limits (root_levels limits)) in H2 as [Hcopy (t & Et & Hfiles & _)];
    [|by eapply sound_extends].
  assert (forall f, f ∈ [target; sealed] -> f ∈ opened (e1 :: h)) as Hfs.
  { intros f [->|Hin]%elem_of_cons; [by left|]. apply list_elem_of_singleton in Hin as ->. by right. }
  split.
  - exists target. split_and!; [|eapply copied_tree_stable; [exact C3|exact Hs|exact Hfs| |exact Hcopy]; by intros f ?%not_elem_of_nil|done|done].
    eapply extends_in; [|by left]. eapply extends_trans; [exact X2|exact X3].
  - intros td n readable mode f Hin%N3. rewrite Et in Hin. apply elem_of_app in Hin as [Hin|[[=]|Hin]%elem_of_cons]; [right|by left].
    destruct (Hfiles _ _ _ _ _ Hin) as [Hforb (sd & Hcf)]. split; [done|]. exists sd.
    eapply copied_file_stable; [exact C3|exact Hs|exact Hfs| |exact Hcf]. by intros x ?%not_elem_of_nil.
Qed.

(** ** After the publication *)

Lemma open_absolute_stays fs p : stays subject_fd fs (open_absolute_directory p).
Proof.
  unfold open_absolute_directory. apply stays_bind_ok; [apply looks_stays, validate_absolute_looks|]. intros _.
  apply stays_bind_ok; [by apply stays_os, stays_perform|]. intros dir. generalize (components p) as cs. intros cs. revert dir.
  induction cs as [|c cs IH]; intros dir; cbn [open_each]; [apply stays_ret|]. destruct c; auto.
  apply stays_bind_ok; [apply stays_ret|]. intros n. apply stays_bind_ok; [unfold open_directory_at; by apply stays_os, stays_perform|]. auto.
Qed.

Lemma ensure_root_stays fs p held : stays subject_fd fs (ensure_root_path_unchanged p held).
Proof.
  unfold ensure_root_path_unchanged. apply stays_bind_ok; [apply open_absolute_stays|]. intros reopened.
  do 2 (apply stays_bind_ok; [eauto with stays|]; intros ?). eauto with stays.
Qed.

Lemma remove_sealed_stays fs k parent name : parent ∈ fs -> stays subject_fd fs (remove_sealed_tree_at k parent name).
Proof.
  revert fs parent name. induction k as [|k IH]; intros fs parent name Hp; cbn [remove_sealed_tree_at]; [apply stays_ret|].
  apply stays_bind_ok; [unfold stat_at; by apply stays_os, stays_perform|]. intros m.
  apply stays_bind_ok; [|intros _; eapply tends_stays; [apply sync_checked_tends|done]].
  destruct (_ =? S_IFDIR); [|unfold unlink_at; by apply stays_os, stays_perform].
  eapply stays_bind_fd; [unfold open_directory_at; eauto with stays|]. intros directory.
  apply stays_bind_ok; [unfold open_up; stays|]. intros _.
  apply stays_bind_ok; [unfold list_pending_directory, list_directory; stays|]. intros children.
  apply stays_bind_ok; [|intros _; apply stays_bind_ok; [eapply tends_stays; [apply sync_checked_tends|in_view]|]; intros _; unfold unlink_at; by apply stays_os, stays_perform].
  induction children as [|child children IHc]; [apply stays_ret|].
  apply stays_bind_ok; [apply stays_ret|]. intros n. apply stays_bind_ok; [apply IH; in_view|]. intros _. exact IHc.
Qed.

Lemma cleanup_source_stays id : stays subject_fd [sealed; consumed] (cleanup_source stack run_name roots id).
Proof.
  unfold cleanup_source, remove_owned_tree_at. apply stays_bind_ok; [|intros _; eapply tends_stays; [apply sync_checked_tends|in_view]].
  apply stays_bind_ok; [unfold stat_at; by apply stays_os, stays_perform|]. intros m. apply stays_bind_ok; [eauto with stays|]. intros _.
  apply remove_sealed_stays. in_view.
Qed.

Lemma confirm_stays id : stays subject_fd [sealed; consumed] (confirm_published paths run_name sealer_uid target_gid roots id).
Proof.
  unfold confirm_published. apply stays_bind_ok; [eapply tends_stays; [apply sync_checked_tends|in_view]|]. intros _.
  apply stays_bind_ok; [unfold stat_at; by apply stays_os, stays_perform|]. intros m. apply stays_bind_ok; [eauto with stays|]. intros _.
  apply stays_bind_ok; [apply looks_stays, validate_sealed_directory_looks|]. intros _. apply ensure_root_stays.
Qed.

Lemma confined_event fs (e : ev) h : subject_fd (ev_call e) = None -> confined subject_fd fs h (e :: h).
Proof. intros Hn. exists [e]. split; [done|]. intros x f ->%list_elem_of_singleton. congruence. Qed.

(** The parts of a successful sealing, in their order: the quarantine, the opening of the
    source, the complete copy and its publication. *)
Definition sealed_in_order (h0 h : list ev) (id : ObjectIdentity) : Prop :=
  exists hq source hc name hp,
    (Ev (RenameNoReplace (pending_root roots) run_name consumed run_name) (Ok tt) : ev) ∈ hq
    /\ extends (Ev (OpenAt consumed run_name Readable) (Ok source) :: hq) hc
    /\ complete h0 hc source name id
    /\ extends hc hp /\ extends (Ev (RenameNoReplace sealed name sealed run_name) (Ok tt) :: hp) h
    /\ forall f, f ∈ opened hc -> f <> sealed -> f <> consumed -> about f h = about f hc.

Lemma open_quarantined_ok env h h' id source :
  exec env h (open_quarantined run_name source_uid source_gid limits roots id) = (h', Ok source) ->
  exists hq, extends h hq /\ extends (Ev (OpenAt consumed run_name Readable) (Ok source) :: hq) h'.
Proof.
  unfold open_quarantined. intros (h1 & [] & H1%exec_extends_to & Hk)%exec_bind_ok.
  apply exec_bind_ok in Hk as (h2 & [] & H2%exec_extends_to & Hk). apply exec_bind_ok in Hk as (h3 & [] & H3%exec_extends_to & Hk).
  apply exec_bind_ok in Hk as (h4 & s & H4 & Hk). unfold open_directory_at in H4. prim_ok H4. pose proof (exec_extends_to _ _ _ _ _ Hk) as X5.
  apply exec_bind_ok in Hk as (? & ? & _ & Hk). apply exec_bind_ok in Hk as (? & ? & _ & Hk). apply exec_bind_ok in Hk as (? & ? & _ & Hk).
  injection Hk as _ ->. exists h3. split; [eauto with trace|exact X5].
Qed.

Lemma remove_sealed_no_file k parent name : calls_only no_file (remove_sealed_tree_at k parent name).
Proof.
  revert parent name. induction k as [|k IH]; intros parent name; cbn [remove_sealed_tree_at]; [apply calls_only_ret|].
  apply calls_only_bind_ok; [unfold stat_at, os; calls_only|]. intros m.
  apply calls_only_bind_ok; [|intros _; unfold sync_checked, os; calls_only].
  destruct (_ =? S_IFDIR); [|unfold unlink_at, os; calls_only].
  apply calls_only_bind_ok; [unfold open_directory_at, os; calls_only|]. intros directory.
  apply calls_only_bind_ok; [unfold open_up; calls_only|]. intros _.
  apply calls_only_bind_ok; [unfold list_pending_directory, list_directory, os; calls_only|]. intros children.
  apply calls_only_bind_ok; [|intros _; unfold sync_checked, unlink_at, os; calls_only].
  induction children as [|child children IHc]; [apply calls_only_ret|].
  apply calls_only_bind_ok; [apply calls_only_ret|]. intros n. apply calls_only_bind_ok; [apply IH|]. intros _. exact IHc.
Qed.

Lemma open_quarantined_no_file id : calls_only no_file (open_quarantined run_name source_uid source_gid limits roots id).
Proof.
  unfold open_quarantined, check_deadline, sync_checked, open_directory_at, stat_fd, bail_if, fail, os. calls_only.
Qed.

Lemma create_staging_no_file : calls_only no_file (create_staging_directory sealer_uid target_gid stack sealed).
Proof.
  unfold create_staging_directory. generalize 128%nat as attempts. intros attempts. induction attempts as [|n IH]; cbn [create_staging_attempts]; [apply calls_only_ret|].
  apply calls_only_bind; [by apply calls_only_perform|]. intros sequence. apply calls_only_bind; [by apply calls_only_perform|]. intros pid.
  apply calls_only_bind; [exact (calls_only_perform (answer := fs_answer) no_file (MkdirAt sealed (staging_name pid sequence) PRIVATE_ROOT_MODE) eq_refl)|].
  intros [[]|errno]; [|destruct (negb _); [apply calls_only_ret|exact IH]].
  apply calls_only_bind; [unfold open_staging, open_directory_at, set_owner_and_mode, os; calls_only|]. intros [m|e]; [apply calls_only_ret|].
  apply calls_only_bind; [apply remove_sealed_no_file|]. intros []; apply calls_only_ret.
Qed.

(** A step of the closure that succeeded. *)
Lemma exec_attempt_ok {A} env h h' st (p : fsprog A) k st' :
  exec env h (attempt st p k) = (h', (st', Ok tt)) -> exists h1 a, exec env h p = (h1, Ok a) /\ exec env h1 (k a) = (h', (st', Ok tt)).
Proof.
  unfold attempt. rewrite exec_bind. destruct (exec env h p) as [h1 [a|e]]; cbn [fst snd]; [eauto|discriminate].
Qed.

Lemma publish_staging_ok env h h' name :
  exec env h (publish_staging paths run_name roots name) = (h', Ok tt) ->
  exists hp, extends h hp /\ h' = Ev (RenameNoReplace sealed name sealed run_name) (Ok tt) :: hp /\ confined subject_fd [sealed; consumed] h h'.
Proof.
  unfold publish_staging. intros (h1 & [] & H1 & H2)%exec_bind_ok. unfold rename_noreplace in H2. prim_ok H2.
  exists h1. split; [by eapply exec_extends_to|]. split; [done|].
  eapply confined_trans; [exact (exec_stays _ _ _ _ _ _ _ (ensure_root_stays _ _ _) H1)|by apply (confined_event [])|by intros f ?%not_elem_of_nil].
Qed.

Lemma seal_quarantined_ok env h0 h h' id st :
  exec env h (seal_quarantined stack paths run_name source_uid source_gid sealer_uid target_gid limits roots id) = (h', (st, Ok tt)) ->
  sound h' -> sealed ∈ opened h -> (forall td n readable mode f, (Ev (CreateAt td n readable mode) (Ok f) : ev) ∈ h -> (Ev (CreateAt td n readable mode) (Ok f) : ev) ∈ h0) ->
  exists hq source hc name hp published,
    published_identity st = Some published /\ extends h hq
    /\ extends (Ev (OpenAt consumed run_name Readable) (Ok source) :: hq) hc
    /\ complete h0 hc source name published
    /\ extends hc hp /\ extends (Ev (RenameNoReplace sealed name sealed run_name) (Ok tt) :: hp) h'
    /\ confined subject_fd [sealed; consumed] hc h'.
Proof.
  intros He Hs Hi Hn. unfold seal_quarantined in He.
  apply exec_attempt_ok in He as (h1 & source & H1 & He). pose proof (fun td n r m f => exec_no_file _ _ _ _ _ td n r m f (open_quarantined_no_file id) H1) as N1.
  pose proof (exec_extends_to _ _ _ _ _ H1) as X1. apply open_quarantined_ok in H1 as (hq & X1q & Xq1).
  apply exec_attempt_ok in He as (h2 & name & H2 & He). pose proof (fun td n r m f => exec_no_file _ _ _ _ _ td n r m f create_staging_no_file H2) as N2.
  apply exec_extends_to in H2 as X2.
  apply exec_attempt_ok in He as (hc & published & H3 & He). pose proof (exec_extends_to _ _ _ _ _ He) as X4. apply exec_extends_to in H3 as X3.
  apply exec_attempt_ok in He as (h4 & [] & H4 & He). apply publish_staging_ok in H4 as (hp & X4p & -> & C4).
  rewrite exec_bind in He. destruct (exec env _ (confirm_published _ _ _ _ _ _)) as [h5 r5] eqn:E5 in He. cbn [fst snd] in He.
  injection He as <- <- ->. apply fill_staging_ok in H3; [|by eapply sound_extends|eapply opened_extends; [|exact Hi]; eauto with trace].
  exists hq, source, hc, name, hp, published. split_and!; [done|done| | |done|by eapply exec_extends_to|].
  - eapply extends_trans; [exact Xq1|]. eauto with trace.
  - destruct H3 as [Hc Ho]. split; [exact Hc|]. intros td n readable mode f Hin. destruct (Ho _ _ _ _ _ Hin) as [Hin'|?]; [left|by right].
    by apply Hn, N1, N2.
  - eapply confined_trans; [exact C4|exact (exec_stays _ _ _ _ _ _ _ (confirm_stays published) E5)|auto].
Qed.

Lemma conclude_ok env h h' id st r0 published :
  exec env h (conclude stack run_name roots id st r0) = (h', Ok published) ->
  r0 = Ok tt /\ (forall i, published_identity st = Some i -> i = published) /\ extends h h' /\ confined subject_fd [sealed; consumed] h h'.
Proof.
  unfold conclude. destruct r0 as [[]|e].
  - rewrite exec_bind. destruct (exec env h (cleanup_source _ _ _ _)) as [h1 [[]|e1]] eqn:E1; cbn [fst snd].
    + intros [= <- Hp]. split_and!; [done| |by eapply exec_extends_to|exact (exec_stays _ _ _ _ _ _ _ (cleanup_source_stays id) E1)].
      intros i Hi. rewrite Hi in Hp. by injection Hp.
    + rewrite exec_bind. destruct (exec env h1 _) as [h2 []]; discriminate.
  - rewrite exec_bind. destruct (exec env h _) as [h1 r1]. cbn [fst snd]. rewrite exec_bind. destruct (exec env h1 _) as [h2 r2]. cbn [fst snd].
    destruct (_ ++ _); discriminate.
Qed.

Lemma seal_in_ok env h0 h id :
  exec env h0 (seal_in stack paths run_name source_uid source_gid sealer_uid target_gid limits roots) = (h, Ok id) ->
  sound h -> sealed ∈ opened h0 -> sealed_in_order h0 h id.
Proof.
  intros He Hs Hi. unfold seal_in in He. apply exec_bind_ok in He as (h1 & m & H1 & He). unfold stat_at in H1. prim_ok H1.
  apply exec_bind_ok in He as (h2 & [] & H2 & He). unfold rename_noreplace in H2. prim_ok H2. set (e2 := Ev (RenameNoReplace _ _ _ _) _ : ev) in *.
  set (e1 := Ev (FstatAt _ _) _ : ev) in *.
  rewrite exec_bind in He. destruct (exec env (e2 :: e1 :: h0) _) as [h3 [st r3]] eqn:E3 in He. cbn [fst snd] in He.
  apply conclude_ok in He as (-> & Hid & X4 & C4). pose proof (sound_extends _ _ X4 Hs) as Hs3.
  apply (seal_quarantined_ok env h0) in E3 as (hq & source & hc & name & hp & published & Hp & Xq & Xc & Hc & Xp & X3 & C3);
    [|done|exact Hi|by intros td n r md f [[=]|[[=]|Hin]%elem_of_cons]%elem_of_cons].
  rewrite (Hid _ Hp) in Hc. exists hq, source, hc, name, hp. split_and!; try done.
  - eapply extends_in; [exact Xq|by left].
  - eapply extends_trans; [exact X3|exact X4].
  - intros f Hf Hn1 Hn2. eapply confined_about; [|exact Hs|exact Hf|].
    + eapply confined_trans; [exact C3|exact C4|auto].
    + intros [->|Hin]%elem_of_cons; [done|]. by apply list_elem_of_singleton in Hin.
Qed.
End faithful.

(** C25: A sealed input is a faithful copy, and it appears all at once. When sealing succeeds,
    the pending workspace had been moved out of its writer's reach before the copy began; the
    tree was complete, every file twice read to the same digest, sealed for the run's group
    without write permission or access control list and synced, before the one rename that
    gives it the name of the run; nothing touches a file of it afterwards; and in the end
    nothing else that was made stands in the root of sealed inputs, and the quarantined
    source is gone. *)
Theorem sealed_input_faithful `{Sha256} env h0 stack paths run_name source_uid source_gid sealer_uid target_gid limits roots id :
  let (h, r) := exec env h0 (seal_in stack paths run_name source_uid source_gid sealer_uid target_gid limits roots) in
  sound h -> source_consumed_root roots ∈ opened h0 -> input_root roots ∈ opened h0 -> source_consumed_root roots <> input_root roots ->
  r = Ok id ->
  sealed_in_order run_name source_uid source_gid sealer_uid target_gid limits roots h0 h id /\ roots_after run_name roots h0 h (Ok id).
Proof.
  destruct (exec env h0 _) as [h r] eqn:E. intros Hs Hc Hi Hne ->. split; [by eapply seal_in_ok|]. by eapply seal_in_standing.
Qed.

(** C26: A sealing that fails is rolled back. Unless its error says that a clean-up failed, no
    directory it made or published stands in the root of sealed inputs; and the quarantined
    source is gone as well, except when only its removal failed after the copy had been
    published, and the published copy was taken away instead. *)
Theorem failed_sealing_rolled_back `{Sha256} env h0 stack paths run_name source_uid source_gid sealer_uid target_gid limits roots e :
  let (h, r) := exec env h0 (seal_in stack paths run_name source_uid source_gid sealer_uid target_gid limits roots) in
  sound h -> source_consumed_root roots ∈ opened h0 -> input_root roots ∈ opened h0 -> source_consumed_root roots <> input_root roots ->
  r = Err e -> cleaned e ->
  standing_in (input_root roots) h0 h /\ (standing_in (source_consumed_root roots) h0 h \/ published_in run_name roots h).
Proof.
  destruct (exec env h0 _) as [h r] eqn:E. intros Hs Hc Hi Hne ->. exact (seal_in_standing _ _ _ _ _ _ _ _ _ _ _ _ _ E Hs Hc Hi Hne).
Qed.

(** ** A host

    The three roots are open as 1, 2 and 3; the workspace [r] holds the file [a]. The newest
    descriptor of a name is the one asked about. *)

Definition seal_roots : Roots := mkRoots 1 2 3.

Definition seal_opened : list ev :=
  [Ev (OpenAt 0 (lit "input") Readable) (Ok 3); Ev (OpenAt 0 (lit "consumed") Readable) (Ok 2);
   Ev (OpenAt 0 (lit "pending") Readable) (Ok 1); Ev (OpenAnchor (lit "/") Readable) (Ok 0)].

(** The directory and name a descriptor was opened by. *)
Fixpoint opened_by (h : list ev) (f : fd) : fd * bytes :=
  match h with
  | [] => (0, [])
  | e :: h =>
      if bool_decide (opens e = Some f) then
        match ev_call e with OpenAt d n _ | CreateAt d n _ _ => (d, n) | _ => (0, []) end
      else opened_by h f
  end.

Definition seal_made (h : list ev) (f : fd) : bool :=
  any (fun e => match ev_call e with CreateAt _ _ _ _ => bool_decide (opens e = Some f) | _ => false end) h.

Fixpoint seal_last_mode (t : list ev) (initial : N) : N :=
  match t with
  | [] => initial
  | e :: t => match ev_call e with Fchmod _ m => m | _ => seal_last_mode t initial end
  end.

Definition seal_data : bytes := lit "hello".

Definition seal_node (h : list ev) (f : fd) : StatSnapshot :=
  let node inode mode uid gid size := mkStat 1 inode mode 1 uid gid size 0 0 0 0 in
  let (dir, name) := opened_by h f in
  if seal_made h f then node (100 + f) (S_IFREG + seal_last_mode (about f h) 384) 0 8 (Z.of_N (len (contents f h)))
  else if str_eqb name (lit "a") then node 10 (S_IFREG + SOURCE_FILE_MODE) 1000 7 (Z.of_N (len seal_data))
  else if str_eqb name (lit "r") && (dir <=? 2) then node 11 (S_IFDIR + SOURCE_DIRECTORY_MODE) 1000 7 0%Z
  else if str_eqb name (lit "input") then node 12 (S_IFDIR + SHARED_ROOT_MODE) 0 8 0%Z
  else node 13 (S_IFDIR + seal_last_mode (about f h) PRIVATE_ROOT_MODE) 0 8 0%Z.

Definition seal_node_at (h : list ev) (dir : fd) (name : bytes) : StatSnapshot :=
  if str_eqb name (lit "a") then mkStat 1 10 (S_IFREG + SOURCE_FILE_MODE) 1 1000 7 (Z.of_N (len seal_data)) 0 0 0 0
  else if dir =? 3 then mkStat 1 13 (S_IFDIR + SEALED_DIRECTORY_MODE) 1 0 8 0 0 0 0 0
  else mkStat 1 11 (S_IFDIR + SOURCE_DIRECTORY_MODE) 1 1000 7 0 0 0 0 0.

Fixpoint seal_position (t : list ev) : N :=
  match t with
  | [] => 0
  | e :: t => match ev_call e with Rewind _ => 0 | _ => len (reads e) + seal_position t end
  end.

Definition seal_listing (h : list ev) (f : fd) : list bytes :=
  if str_eqb (snd (opened_by h f)) (lit "r") then [lit "."; lit ".."; lit "a"] else [].

Definition seal_host (full : bool) : environment fs_answer :=
  fun h c =>
    match c return fs_answer c with
    | WorkCancelled => false
    | Now | EffectiveUid | NextSequence | ProcessId => 0
    | OpenAnchor _ _ | OpenAt _ _ _ | CreateAt _ _ _ _ => Ok (len h)
    | Fstat f => Ok (seal_node h f)
    | FstatAt d n => Ok (seal_node_at h d n)
    | ListDirectory d => Ok (mkListing (seal_listing h d) None None)
    | ReadFd f limit => Ok (take_N limit (drop_N (seal_position (about f h)) seal_data))
    | RandomBytes => Some []
    | Fgetxattr _ _ => Err ENODATA
    | WriteAll _ _ => if full then Err 28 else Ok tt
    | MkdirAt _ _ _ | UnlinkAt _ _ _ | RenameNoReplace _ _ _ _ | Fchmod _ _ | Fchown _ _ _ | Rewind _ | Fsync _ | Syncfs _ => Ok tt
    | c => refused c
    end.

Definition seal_paths : SealPaths := mkSealPaths (lit "/pending") (lit "/consumed") (lit "/input").

Definition sample_seal (full : bool) : list ev * result FsError ObjectIdentity :=
  exec (seal_host full) seal_opened
    (@seal_in checksum_sha256 8 seal_paths (lit "r") 1000 7 0 8 (default_limits None) seal_roots).

Example sample_sealed : (sample_seal false).2 = Ok (mkIdentity 1 13).
Proof. vm_compute. reflexivity. Qed.

Example sample_seal_failed : (sample_seal true).2 = Err (Os 28).
Proof. vm_compute. reflexivity. Qed.

Lemma sealed_input_faithful_witness :
  (sample_seal false).2 = Ok (mkIdentity 1 13)
  /\ standing 2 (sample_seal false).1 = []
  /\ exists hc source name, @complete checksum_sha256 1000 7 0 8 (default_limits None) seal_roots seal_opened hc source name (mkIdentity 1 13).
Proof.
  pose proof (@sealed_input_faithful checksum_sha256 (seal_host false) seal_opened 8 seal_paths (lit "r") 1000 7 0 8
    (default_limits None) seal_roots (mkIdentity 1 13)) as T.
  change (exec _ seal_opened _) with (sample_seal false) in T.
  assert (bool_decide (sound (sample_seal false).1) = true) as Hs by (vm_compute; reflexivity).
  assert ((sample_seal false).2 = Ok (mkIdentity 1 13)) as Hok by (vm_compute; reflexivity).
  assert (standing 2 (sample_seal false).1 = []) as Hst by (vm_compute; reflexivity).
  split; [exact Hok|]. split; [exact Hst|]. clear Hst. apply bool_decide_eq_true in Hs.
  destruct (sample_seal false) as [h r]. cbn [fst snd] in *.
  destruct T as [(hq & source & hc & name & hp & _ & _ & Hc & _) _];
    [exact Hs|by right; left|by left|discriminate|exact Hok|].
  exists hc, source, name. exact Hc.
Defined.

Lemma failed_sealing_rolled_back_witness :
  (sample_seal true).2 = Err (Os 28)
  /\ (forall n, n ∈ standing 3 (sample_seal true).1 -> n ∈ standing 3 seal_opened)
  /\ any (fun e => match ev_call e with MkdirAt d _ _ => d =? 3 | _ => false end) (sample_seal true).1 = true.
Proof.
  pose proof (@failed_sealing_rolled_back checksum_sha256 (seal_host true) seal_opened 8 seal_paths (lit "r") 1000 7 0 8
    (default_limits None) seal_roots (Os 28)) as T.
  change (exec _ seal_opened _) with (sample_seal true) in T.
  assert (bool_decide (sound (sample_seal true).1) = true) as Hs by (vm_compute; reflexivity).
  assert ((sample_seal true).2 = Err (Os 28)) as Hok by (vm_compute; reflexivity).
  assert (any (fun e => match ev_call e with MkdirAt d _ _ => d =? 3 | _ => false end) (sample_seal true).1 = true) as Hm by (vm_compute; reflexivity).
  split; [exact Hok|]. split; [|exact Hm]. clear Hm. apply bool_decide_eq_true in Hs.
  destruct (sample_seal true) as [h r]. cbn [fst snd] in *.
  refine (proj1 (T Hs _ _ _ Hok I)); [by right; left|by left|discriminate].
Defined.
