(* ===== verification/IsolatedWorkspace.v ===== *)
(** * The workspace of an isolated run

    The part of [src/isolated_execution.rs] that takes a sealed workspace over: it is checked
    while only root can read it, moved to the consumed root, opened to the group of the run,
    checked again, and removed when anything fails or when the run is over. *)

From S2P Require Import Prelude Effects Text Digest Paths HostFiles WorkBudget Descriptors HostPaths TreeCopy LauncherProtocol.
From S2P Require Import IsolatedPlan RunnerInput InputSealer.

Local Open Scope N_scope.

Definition CODEX_CONSUMED_INPUT_ROOT : path := lit "/var/lib/webex-codex-runtime-inputs/consumed".

(** [WORKSPACE_ENTRY_MAX] and [WORKSPACE_DEPTH_MAX] are those of the copy. *)
Definition RUN_WORKSPACE_TOTAL_BYTES_MAX : N := 2 * 1024 * 1024 * 1024 + 64 * 1024 * 1024.

(** ** Metadata *)

Inductive WorkspaceAccess : Type := Private | GroupReadable.

Record WorkspaceMetadataPolicy : Type := mkWorkspacePolicy { wp_uid : N; wp_gid : N; wp_access : WorkspaceAccess }.

Definition workspace_directory_mode_valid (mode : N) (a : WorkspaceAccess) : bool :=
  N.land mode 4095 =? match a with Private => 320 | GroupReadable => 360 end.

Definition workspace_file_mode_valid (mode : N) (a : WorkspaceAccess) : bool :=
  N.land mode 4095 =? match a with Private => 256 | GroupReadable => 288 end.

Definition same_file_identity (left right : StatSnapshot) : bool :=
  (st_device left =? st_device right) && (st_inode left =? st_inode right) && (st_mode left =? st_mode right)
  && (st_uid left =? st_uid right) && (st_gid left =? st_gid right) && (file_len left =? file_len right)
  && (st_modified_seconds left =? st_modified_seconds right)%Z && (st_modified_nanoseconds left =? st_modified_nanoseconds right)%Z
  && (st_changed_seconds left =? st_changed_seconds right)%Z && (st_changed_nanoseconds left =? st_changed_nanoseconds right)%Z.

(** [format!("/proc/{}/fd/{}", std::process::id(), file.as_raw_fd())]. *)
Definition descriptor_path (f : fd) : prog fs_answer str :=
  let* pid := (perform ProcessId : prog fs_answer N) in
  Ret (lit "/proc/" ++ decimal pid ++ lit "/fd/" ++ decimal f).

(** [fs::read_dir]: the dots are skipped; an error ends the stream after its names. *)
Definition read_dir (p : list Component) : fsprog Listing :=
  let*? l := os (perform (ReadDir p)) in
  Ret (Ok (mkListing (List.filter (fun n => negb (dot_name n)) (ls_names l)) (ls_error l) None)).

(** ** Walking a workspace

    [validate_workspace_directory] and [grant_workspace_directory_group_read] walk the tree
    alike; what they do with a directory and with a file differs. *)

Record WalkCounts : Type := mkCounts { wc_entries : N; wc_bytes : N }.

Section walk.
Context (deadline : option WorkBudget) (operation : str).
Context (entry_invalid mode_invalid changed file_invalid special : str) (policy : WorkspaceMetadataPolicy).

Definition count_workspace_entry (c : WalkCounts) : result FsError WalkCounts :=
  let entries := wc_entries c + 1 in
  fail_if (u64_max <? entries) (Bail (lit "runtime workspace entry count overflowed")) ;?
  fail_if (WORKSPACE_ENTRY_MAX <? entries) (Bail (lit "runtime workspace has too many entries")) ;?
  Ok (mkCounts entries (wc_bytes c)).

Definition owned_entry (m : StatSnapshot) : bool := negb (is_link m) && (st_uid m =? wp_uid policy) && (st_gid m =? wp_gid policy).

(** One entry: [visit_child] is the walk of a subdirectory, [visit_file] what is done with a
    file and its metadata. *)
Definition visit_entry (visit_child : fd -> WalkCounts -> fsprog WalkCounts)
    (visit_file : list Component -> StatSnapshot -> WalkCounts -> fsprog WalkCounts) (directory_path : list Component) (name : bytes)
    (c : WalkCounts) : fsprog WalkCounts :=
  let*? _ := check_deadline deadline operation in
  let*? c := Ret (count_workspace_entry c) in
  let p := child directory_path name in
  let*? m := lstat p in
  let*? _ := bail_if (negb (owned_entry m)) entry_invalid in
  if is_directory m then
    let*? _ := bail_if (negb (workspace_directory_mode_valid (st_mode m) (wp_access policy))) mode_invalid in
    let*? dir := open_path p DirectoryNoFollow in
    let*? opened := stat_fd dir in
    let*? _ := bail_if (negb (same_file_identity m opened)) changed in
    visit_child dir c
  else if is_regular m then
    let*? _ := bail_if (negb (workspace_file_mode_valid (st_mode m) (wp_access policy)) || negb (st_links m =? 1)) file_invalid in
    visit_file p m c
  else bail special.

Fixpoint visit_entries (visit_child : fd -> WalkCounts -> fsprog WalkCounts)
    (visit_file : list Component -> StatSnapshot -> WalkCounts -> fsprog WalkCounts) (directory_path : list Component) (names : list bytes)
    (c : WalkCounts) : fsprog WalkCounts :=
  match names with
  | [] => Ret (Ok c)
  | name :: names =>
      let*? c := visit_entry visit_child visit_file directory_path name c in
      visit_entries visit_child visit_file directory_path names c
  end.

(** The loop over [read_dir], with the error that may end the stream. *)
Definition visit_listing (visit_child : fd -> WalkCounts -> fsprog WalkCounts)
    (visit_file : list Component -> StatSnapshot -> WalkCounts -> fsprog WalkCounts) (dir : fd) (c : WalkCounts) : fsprog WalkCounts :=
  let* directory_path := descriptor_path dir in
  let*? l := read_dir (components (as_bytes directory_path)) in
  let*? c := visit_entries visit_child visit_file (components (as_bytes directory_path)) (ls_names l) c in
  match ls_error l with
  | Some errno =>
      let*? _ := check_deadline deadline operation in
      fail (Os errno)
  | None => Ret (Ok c)
  end.

(** A directory at the depth [WORKSPACE_DEPTH_MAX + 1 - levels]: no levels are left exactly
    when the depth is beyond its limit. *)
Fixpoint walk_directory (enter leave : fd -> fsprog unit) (visit_file : list Component -> StatSnapshot -> WalkCounts -> fsprog WalkCounts)
    (levels : nat) (dir : fd) (c : WalkCounts) : fsprog WalkCounts :=
  let*? _ := check_deadline deadline operation in
  match levels with
  | O => bail (lit "runtime workspace nesting exceeds its limit")
  | S levels =>
      let*? _ := enter dir in
      let*? c := visit_listing (walk_directory enter leave visit_file levels) visit_file dir c in
      let*? _ := leave dir in
      Ret (Ok c)
  end.
End walk.

Definition workspace_levels : nat := S (N.to_nat WORKSPACE_DEPTH_MAX).

(** ** Validation *)

Definition count_workspace_bytes (size : N) (c : WalkCounts) : result FsError WalkCounts :=
  let total := wc_bytes c + size in
  fail_if (u64_max <? total) (Bail (lit "runtime workspace size overflowed")) ;?
  fail_if (RUN_WORKSPACE_TOTAL_BYTES_MAX <? total) (Bail (lit "runtime workspace exceeds its size limit")) ;?
  Ok (mkCounts (wc_entries c) total).

Definition validate_workspace_file (p : list Component) (m : StatSnapshot) (c : WalkCounts) : fsprog WalkCounts :=
  let*? f := open_path p FileNoFollow in
  let*? opened := stat_fd f in
  let*? _ := bail_if (negb (same_file_identity m opened)) (lit "runtime workspace file changed") in
  let*? _ := ensure_posix_acl_absent f (lit "runtime workspace file") in
  Ret (count_workspace_bytes (file_len opened) c).

Definition validate_workspace_directory (deadline : option WorkBudget) (policy : WorkspaceMetadataPolicy) (levels : nat) (dir : fd)
    (c : WalkCounts) : fsprog WalkCounts :=
  walk_directory deadline (lit "sealed workspace tree verification") (lit "runtime workspace entry metadata is invalid")
    (lit "runtime workspace directory mode is invalid") (lit "runtime workspace directory changed")
    (lit "runtime workspace file metadata is invalid") (lit "runtime workspace contains a special file") policy
    (fun dir => ensure_posix_acl_absent dir (lit "runtime workspace directory")) (fun _ => Ret (Ok tt)) validate_workspace_file
    levels dir c.

Definition validate_workspace_tree_with_deadline (root : fd) (expected_uid input_gid : N) (a : WorkspaceAccess) (deadline : option WorkBudget)
  : fsprog unit :=
  let*? _ := validate_workspace_directory deadline (mkWorkspacePolicy expected_uid input_gid a) workspace_levels root (mkCounts 0 0) in
  Ret (Ok tt).

(** ** Access for the group *)

Section grant.
Context (policy : WorkspaceMetadataPolicy).

Definition private_directory (m : StatSnapshot) : bool :=
  is_directory m && (st_uid m =? wp_uid policy) && (st_gid m =? wp_gid policy)
  && workspace_directory_mode_valid (st_mode m) Private.

Definition enter_private_directory (dir : fd) : fsprog unit :=
  let*? m := stat_fd dir in
  let*? _ := bail_if (negb (private_directory m)) (lit "private runtime workspace directory is invalid") in
  ensure_posix_acl_absent dir (lit "private runtime workspace directory").

Definition grant_file (p : list Component) (m : StatSnapshot) (c : WalkCounts) : fsprog WalkCounts :=
  let*? f := open_path p FileNoFollow in
  let*? opened := stat_fd f in
  let*? _ := bail_if (negb (same_file_identity m opened)) (lit "private runtime workspace file changed") in
  let*? _ := ensure_posix_acl_absent f (lit "private runtime workspace file") in
  let*? _ := set_mode f 288 in
  let*? _ := sync_checked f in
  Ret (Ok c).

Definition leave_granted_directory (dir : fd) : fsprog unit :=
  let*? _ := set_mode dir 360 in sync_checked dir.

Definition grant_workspace_directory_group_read (deadline : option WorkBudget) (levels : nat) (dir : fd) (c : WalkCounts) : fsprog WalkCounts :=
  walk_directory deadline (lit "consumed workspace access grant") (lit "private runtime workspace entry is invalid")
    (lit "private runtime workspace directory mode is invalid") (lit "private runtime workspace directory changed")
    (lit "private runtime workspace file is invalid") (lit "private runtime workspace contains a special file") policy
    enter_private_directory leave_granted_directory grant_file levels dir c.
End grant.

Definition grant_workspace_group_read (root : fd) (expected_uid input_gid : N) (deadline : option WorkBudget) : fsprog unit :=
  let*? _ := grant_workspace_directory_group_read (mkWorkspacePolicy expected_uid input_gid Private) deadline workspace_levels root (mkCounts 0 0) in
  Ret (Ok tt).

(** ** The trusted input root *)

Definition trusted_root_directory (m : StatSnapshot) (expected_uid : N) : bool :=
  is_directory m && negb (is_link m) && (st_uid m =? expected_uid) && negb (shared_write m).

(** The loop of [trusted_directory], over the directory and, with its ancestors, the paths
    above it. *)
Fixpoint trusted_directories (expected_uid : N) (directories : list (list Component)) : fsprog unit :=
  match directories with
  | [] => Ret (Ok tt)
  | directory :: directories =>
      let*? m := lstat directory in
      let*? _ := bail_if (negb (trusted_root_directory m expected_uid)) (lit "trusted runtime directory metadata is invalid") in
      trusted_directories expected_uid directories
  end.

Definition trusted_directory (p : list Component) (expected_uid : N) (include_ancestors : bool) : fsprog unit :=
  trusted_directories expected_uid (p :: if include_ancestors then ancestors p else []).

Definition input_root_metadata (m : StatSnapshot) (input_gid : N) : bool :=
  is_directory m && negb (is_link m) && (st_uid m =? 0) && (st_gid m =? input_gid) && input_root_mode_valid (st_mode m).

Definition trusted_input_root (p : list Component) (input_gid : N) : fsprog unit :=
  let*? above := Ret (ok_or (parent p) (Bail (lit "runtime input root has no parent"))) in
  let*? _ := trusted_directory above 0 true in
  let*? m := lstat p in
  let*? _ := bail_if (negb (input_root_metadata m input_gid)) (lit "runtime input root metadata is invalid") in
  let*? dir := open_path p DirectoryNoFollow in
  ensure_posix_acl_absent dir (lit "runtime input root").

(** ** Consuming the workspace *)

(** [VerifiedWorkspace]; its guard is held open as long as the value lives. *)
Record VerifiedWorkspace : Type := mkVerifiedWorkspace {
  vw_path : path;
  vw_bind_source : str;
  vw_consumed_root : fd;
  vw_consumed_name : bytes;
  vw_expected : ObjectIdentity;
  vw_cleanup_armed : bool;
  vw_guard : fd
}.

Definition disarm_workspace (w : VerifiedWorkspace) : VerifiedWorkspace :=
  mkVerifiedWorkspace (vw_path w) (vw_bind_source w) (vw_consumed_root w) (vw_consumed_name w) (vw_expected w) false (vw_guard w).

(** [VerifiedWorkspace::cleanup], with the workspace as it is left. *)
Definition workspace_cleanup (stack : nat) (w : VerifiedWorkspace) : prog fs_answer (VerifiedWorkspace * result FsError unit) :=
  if negb (vw_cleanup_armed w) then Ret (w, Ok tt)
  else
    let* removed := remove_owned_tree_at stack (vw_consumed_root w) (vw_consumed_name w) (vw_expected w) in
    match removed with
    | Err e => Ret (w, Err e)
    | Ok _ => let* synced := sync_checked (vw_consumed_root w) in Ret (disarm_workspace w, synced)
    end.

(** [drop]: a failure is only logged. *)
Definition drop_workspace (stack : nat) (w : VerifiedWorkspace) : prog fs_answer unit :=
  let* _ := workspace_cleanup stack w in Ret tt.

(** The values that a function owns are dropped when it returns. *)
Definition finalise_workspace_preparation (stack : nat) (w : VerifiedWorkspace) (validation : result FsError unit)
  : fsprog VerifiedWorkspace :=
  match validation with
  | Ok _ => Ret (Ok w)
  | Err validation_error =>
      let* cleaned_up := workspace_cleanup stack w in
      let* _ := drop_workspace stack (fst cleaned_up) in
      match snd cleaned_up with
      | Ok _ => fail validation_error
      | Err cleanup_error => fail (AlsoFailed validation_error [cleanup_error])
      end
  end.

Definition control_names : list str := [lit ".codex"; lit ".agents"; lit ".git"; lit "AGENTS.md"; lit "hooks.json"].

Fixpoint reject_control_files (bind_source : str) (names : list str) : fsprog unit :=
  match names with
  | [] => Ret (Ok tt)
  | name :: names =>
      let*? found := lstat_existing (join_path (as_bytes bind_source) name) in
      let*? _ := bail_if (is_some_and found (fun _ => true)) (lit "runtime workspace contains forbidden control files") in
      reject_control_files bind_source names
  end.

Section consume.
Context `{Sha256} (stack : nat) (input_root consumed_input_root : path) (request : ExecuteRequest) (input_gid : N)
  (deadline : option WorkBudget).

#[local] Abbreviation workspace_path := (components (workspace request)).

Definition private_workspace (m : StatSnapshot) : bool :=
  is_directory m && (st_uid m =? 0) && (st_gid m =? input_gid) && workspace_directory_mode_valid (st_mode m) Private.

(** What is held open while the workspace is checked. *)
Record Held : Type := mkHeld { held_input_root : fd; held_consumed_root : fd; held_guard : fd; held_metadata : StatSnapshot; held_validation : fd }.

(** Up to the point where the tree has been opened for validation. *)
Definition hold_workspace : fsprog Held :=
  let*? _ := check_deadline deadline (lit "sealed workspace verification") in
  let*? _ := trusted_input_root (components input_root) input_gid in
  let*? input_root_directory := open_path (components input_root) DirectoryNoFollow in
  let*? consumed_root_directory := open_path (components consumed_input_root) DirectoryNoFollow in
  let*? _ := bail_if (negb (bool_decide (workspace_path = join_path input_root (run_id request))))
               (lit "runtime workspace does not match the run identifier") in
  let*? guard := open_path workspace_path DirectoryReference in
  let*? m := stat_fd guard in
  let*? _ := bail_if (negb (private_workspace m)) (lit "runtime workspace metadata is invalid") in
  let*? validation := open_path workspace_path DirectoryNoFollow in
  let*? opened := stat_fd validation in
  let*? _ := bail_if (negb (same_file_identity m opened)) (lit "runtime workspace changed before validation") in
  Ret (Ok (mkHeld input_root_directory consumed_root_directory guard m validation)).

(** The checks of the private workspace; the result is the source of the bind mount. *)
Definition check_private_workspace (h : Held) : fsprog str :=
  let*? _ := validate_workspace_tree_with_deadline (held_validation h) 0 input_gid Private deadline in
  let*? canonical := os (perform (Canonicalize workspace_path)) in
  let*? _ := bail_if (negb (bool_decide (components canonical = workspace_path))) (lit "runtime workspace path is not canonical") in
  let* bind_source := descriptor_path (held_guard h) in
  let*? _ := reject_control_files bind_source control_names in
  let*? current := lstat workspace_path in
  let*? _ := bail_if (negb (bool_decide (identity current = identity (held_metadata h)))) (lit "runtime workspace changed during verification") in
  Ret (Ok bind_source).

(** [CString::new]: the name of the unit has no NUL byte, as its run identifier has none. *)
Definition rename_workspace (h : Held) : fsprog (fd * bytes) :=
  let*? source_name := Ret (if any (N.eqb 0) (as_bytes (run_id request)) then Err (Bail (lit "runtime run identifier contains a NUL byte"))
                            else Ok (as_bytes (run_id request))) in
  let consumed_name := as_bytes (transient_unit_name (run_id request)) in
  let*? cleanup_root := os (perform (Duplicate (held_consumed_root h))) in
  let*? _ := os (perform (RenameNoReplace (held_input_root h) source_name (held_consumed_root h) consumed_name)) in
  Ret (Ok (cleanup_root, consumed_name)).

Definition consumed_path (consumed_name : bytes) : path := path_join consumed_input_root (as_bytes (from_utf8_lossy consumed_name)).

(** The closure that runs once the workspace has been moved. *)
Definition open_to_group (h : Held) (consumed_name : bytes) : fsprog unit :=
  let*? _ := sync_checked (held_consumed_root h) in
  let*? _ := sync_checked (held_input_root h) in
  let*? _ := grant_workspace_group_read (held_validation h) 0 input_gid deadline in
  let*? _ := validate_workspace_tree_with_deadline (held_validation h) 0 input_gid GroupReadable deadline in
  let*? consumed := lstat (components (consumed_path consumed_name)) in
  bail_if (negb (bool_decide (identity consumed = identity (held_metadata h)))) (lit "consumed runtime workspace identity changed").

(** Everything before the rename; a failure leaves the published workspace to its owner. *)
Definition consume_workspace : fsprog (Held * str * fd * bytes) :=
  let*? held := hold_workspace in
  let*? bind_source := check_private_workspace held in
  let*? (cleanup_root, consumed_name) := rename_workspace held in
  Ret (Ok (held, bind_source, cleanup_root, consumed_name)).

(** [verify_workspace]: the published workspace is dropped by every return before the
    rename, and disarmed by it. *)
Definition verify_workspace (published : PublishedWorkspace) : fsprog VerifiedWorkspace :=
  let* consumed := consume_workspace in
  match consumed with
  | Err e =>
      let* _ := drop_published stack published in
      fail e
  | Ok (held, bind_source, cleanup_root, consumed_name) =>
      let w := mkVerifiedWorkspace (consumed_path consumed_name) bind_source cleanup_root consumed_name (identity (held_metadata held))
                 true (held_guard held) in
      let* validation := open_to_group held consumed_name in
      let* r := finalise_workspace_preparation stack w validation in
      let* _ := drop_published stack (disarm published) in
      Ret r
  end.
End consume.
