(* ===== verification/IsolatedWorkspaceRules.v ===== *)
(** * What taking a workspace over guarantees

    A walk that succeeds has looked at every entry below its root and found what it asks
    for; a workspace is opened to the group of the run only after it was checked and moved
    away from where it was published; a failure takes it away. *)

From S2P Require Import Prelude Effects Text Digest Paths HostFiles WorkBudget Descriptors DescriptorRules HostPaths HostPathRules TreeCopy.
From S2P Require Import LauncherProtocol IsolatedPlan RunnerInput InputSealer InputSealerRules IsolatedWorkspace.

Local Open Scope N_scope.

(** ** Walks *)

Section walks.
Context (deadline : option WorkBudget) (operation : str).
Context (entry_invalid mode_invalid changed file_invalid special : str) (policy : WorkspaceMetadataPolicy).
Context (enter leave : fd -> fsprog unit) (visit_file : list Component -> StatSnapshot -> WalkCounts -> fsprog WalkCounts).

(** What entering and leaving a directory and visiting a file establish, for good. *)
Context (entered left : list ev -> fd -> Prop) (visited : list ev -> list Component -> StatSnapshot -> Prop).
Hypothesis entered_ok : forall env h h' d, exec env h (enter d) = (h', Ok tt) -> entered h' d.
Hypothesis left_ok : forall env h h' d, exec env h (leave d) = (h', Ok tt) -> left h' d.
Hypothesis visited_ok : forall env h h' p m c c', exec env h (visit_file p m c) = (h', Ok c') -> visited h' p m /\ wc_entries c' = wc_entries c.
Hypothesis entered_later : forall h h' d, extends h h' -> entered h d -> entered h' d.
Hypothesis left_later : forall h h' d, extends h h' -> left h d -> left h' d.
Hypothesis visited_later : forall h h' p m, extends h h' -> visited h p m -> visited h' p m.

#[local] Abbreviation walk := (walk_directory deadline operation entry_invalid mode_invalid changed file_invalid special policy enter leave visit_file).

(** An entry that was accepted: a directory of the expected owner and mode, opened as the one
    that was looked at and walked in turn, or a file with a single link that was visited. *)
Definition walked_entry (walked_child : fd -> Prop) (h : list ev) (p : list Component) : Prop :=
  exists m, (Ev (Lstat p) (Ok m) : ev) ∈ h /\ owned_entry policy m = true /\
    ((is_directory m = true /\ workspace_directory_mode_valid (st_mode m) (wp_access policy) = true
      /\ exists f m', (Ev (OpenPath p DirectoryNoFollow) (Ok f) : ev) ∈ h /\ (Ev (Fstat f) (Ok m') : ev) ∈ h
           /\ same_file_identity m m' = true /\ walked_child f)
     \/ (is_directory m = false /\ is_regular m = true /\ workspace_file_mode_valid (st_mode m) (wp_access policy) = true
         /\ st_links m = 1 /\ visited h p m)).

Definition descriptor_components (pid : N) (d : fd) : list Component :=
  components (as_bytes (lit "/proc/" ++ decimal pid ++ lit "/fd/" ++ decimal d)).

(** A directory whose whole listing was accepted. *)
Fixpoint walked (levels : nat) (h : list ev) (d : fd) : Prop :=
  match levels with
  | O => False
  | S levels =>
      entered h d /\ left h d /\ exists pid l, (Ev (ReadDir (descriptor_components pid d)) (Ok l) : ev) ∈ h /\ ls_error l = None
        /\ forall name, name ∈ ls_names l -> dot_name name = false ->
             walked_entry (walked levels h) h (child (descriptor_components pid d) name)
  end.

Lemma walked_entry_later (Q Q' : fd -> Prop) h h' p :
  extends h h' -> (forall f, Q f -> Q' f) -> walked_entry Q h p -> walked_entry Q' h' p.
Proof.
  intros Hx HQ (m & Hm & Ho & Hc). exists m. split; [by eapply extends_in|]. split; [done|].
  destruct Hc as [(Hd & Hmode & f & m' & H1 & H2 & Hs & Hw)|(Hd & Hr & Hmode & Hl & Hv)]; [left|right].
  - split; [done|]. split; [done|]. exists f, m'. split_and!; [by eapply extends_in|by eapply extends_in|done|by apply HQ].
  - split_and!; try done. by eapply visited_later.
Qed.

Lemma walked_later levels h h' d : extends h h' -> walked levels h d -> walked levels h' d.
Proof.
  revert d. induction levels as [|levels IH]; intros d Hx; [done|]. cbn. intros (He & Hl & pid & l & Hin & Hn & Ha).
  split; [by eapply entered_later|]. split; [by eapply left_later|]. exists pid, l. split; [by eapply extends_in|]. split; [done|].
  intros name Hname Hdot. eapply walked_entry_later; [exact Hx| |by apply Ha]. intros f. by apply IH.
Qed.

(** Counting: what a walk keeps of its counter. *)
Definition counted (c c' : WalkCounts) : Prop := wc_entries c <= wc_entries c' /\ (wc_entries c <= WORKSPACE_ENTRY_MAX -> wc_entries c' <= WORKSPACE_ENTRY_MAX).

Lemma counted_refl c : counted c c.
Proof. by split. Qed.

Lemma counted_trans c1 c2 c3 : counted c1 c2 -> counted c2 c3 -> counted c1 c3.
Proof. unfold counted. intros [? ?] [? ?]. split; [lia|auto]. Qed.

Lemma count_entry_ok c c' : count_workspace_entry c = Ok c' -> counted c c' /\ wc_entries c' = wc_entries c + 1.
Proof.
  unfold count_workspace_entry. intros (_ & (Hmax & [= <-])%seq_ok)%seq_ok. apply N.ltb_ge in Hmax.
  unfold counted. cbn. split; [split; [lia|done]|done].
Qed.

Lemma visit_entry_ok env (visit_child : fd -> WalkCounts -> fsprog WalkCounts) (Q : list ev -> fd -> Prop) directory_path name h h' c c' :
  (forall h h' d c c', exec env h (visit_child d c) = (h', Ok c') -> Q h' d /\ counted c c') ->
  exec env h (visit_entry deadline operation entry_invalid mode_invalid changed file_invalid special policy visit_child visit_file
                directory_path name c) = (h', Ok c') ->
  walked_entry (Q h') h' (child directory_path name) /\ counted c c'.
Proof.
  intros HQ. unfold visit_entry. intros (h1 & [] & _ & Hk)%exec_bind_ok. apply exec_bind_ok in Hk as (? & c1 & [= <- Hc1] & Hk).
  apply count_entry_ok in Hc1 as [Hc1 _]. apply exec_bind_ok in Hk as (h2 & m & H2 & Hk). unfold lstat in H2. prim_ok H2.
  apply exec_bind_ok in Hk as (? & [] & [-> Ho%negb_false_iff]%exec_bail_if & Hk).
  destruct (is_directory m) eqn:Ed; [|destruct (is_regular m) eqn:Er; [|done]].
  - apply exec_bind_ok in Hk as (? & [] & [-> Hmode%negb_false_iff]%exec_bail_if & Hk).
    apply exec_bind_ok in Hk as (h3 & f & H3 & Hk). unfold open_path in H3. prim_ok H3.
    apply exec_bind_ok in Hk as (h4 & m' & H4 & Hk). unfold stat_fd in H4. prim_ok H4.
    apply exec_bind_ok in Hk as (? & [] & [-> Hs%negb_false_iff]%exec_bail_if & Hk).
    apply exec_extends_to in Hk as Hx. apply HQ in Hk as [Hw Hc2]. split; [|by eapply counted_trans].
    exists m. split; [eapply extends_in; [exact Hx|]; do 2 right; left|]. split; [done|]. left. split; [done|]. split; [done|].
    exists f, m'. split_and!; [eapply extends_in; [exact Hx|]; right; left|eapply extends_in; [exact Hx|]; left|done..].
  - apply exec_bind_ok in Hk as (? & [] & [-> [Hmode%negb_false_iff Hl%negb_false_iff%N.eqb_eq]%orb_false_iff]%exec_bail_if & Hk).
    apply exec_extends_to in Hk as Hx. apply visited_ok in Hk as [Hv Hc2]. split.
    + exists m. split; [eapply extends_in; [exact Hx|]; left|]. split; [done|]. right. by split_and!.
    + eapply counted_trans; [exact Hc1|]. unfold counted. rewrite Hc2. by split.
Qed.

Lemma visit_entries_ok env (visit_child : fd -> WalkCounts -> fsprog WalkCounts) (Q : list ev -> fd -> Prop) directory_path names h h' c c' :
  (forall h h' d c c', exec env h (visit_child d c) = (h', Ok c') -> Q h' d /\ counted c c') ->
  (forall h h' d, extends h h' -> Q h d -> Q h' d) ->
  exec env h (visit_entries deadline operation entry_invalid mode_invalid changed file_invalid special policy visit_child visit_file
                directory_path names c) = (h', Ok c') ->
  (forall name, name ∈ names -> walked_entry (Q h') h' (child directory_path name)) /\ counted c c'.
Proof.
  intros HQ Hlater. revert h c. induction names as [|name names IH]; intros h c; cbn [visit_entries].
  - intros [= <- <-]. split; [by intros ? ?%not_elem_of_nil|apply counted_refl].
  - intros (h1 & c1 & H1 & Hk)%exec_bind_ok. apply (visit_entry_ok _ _ Q) in H1 as [Hw Hc1]; [|done].
    apply exec_extends_to in Hk as Hx. apply IH in Hk as [Hws Hc2]. split; [|by eapply counted_trans].
    intros n [->|Hn]%elem_of_cons; [|by apply Hws]. eapply walked_entry_later; [exact Hx| |exact Hw]. intros f. by apply Hlater.
Qed.

(** A walk that succeeds has accepted everything below its directory. *)
Lemma walk_ok env levels h h' d c c' : exec env h (walk levels d c) = (h', Ok c') -> walked levels h' d /\ counted c c'.
Proof.
  revert h h' d c c'. induction levels as [|levels IH]; intros h h' d c c'; cbn [walk_directory];
    intros (h1 & [] & _ & Hk)%exec_bind_ok; [done|].
  apply exec_bind_ok in Hk as (h2 & [] & H2 & Hk). apply entered_ok in H2.
  apply exec_bind_ok in Hk as (h3 & c3 & H3 & Hk). apply exec_bind_ok in Hk as (h4 & [] & H4 & Hk). injection Hk as <- <-.
  apply exec_extends_to in H4 as X4. apply left_ok in H4. apply exec_extends_to in H3 as X3.
  unfold visit_listing in H3. rewrite exec_bind in H3. unfold descriptor_path in H3. rewrite exec_bind in H3. cbn [exec perform fst snd] in H3.
  set (pid := env h2 ProcessId) in *. apply exec_bind_ok in H3 as (h5 & l & H5 & Hk). unfold read_dir in H5.
  apply exec_bind_ok in H5 as (h6 & l0 & H6 & H5). prim_ok H6. injection H5 as <- <-. cbn [ls_names ls_error] in Hk.
  apply exec_bind_ok in Hk as (h7 & c7 & H7 & Hk). apply exec_extends_to in H7 as X7.
  apply (visit_entries_ok _ _ (walked levels)) in H7 as [Hw Hc]; [|done|intros; by eapply walked_later].
  destruct (ls_error l0) as [errno|] eqn:El; [by apply exec_bind_ok in Hk as (? & ? & _ & ?)|]. injection Hk as <- <-.
  split; [|done]. cbn [walked]. split; [eapply entered_later; [exact X4|]; exact (entered_later _ _ _ X3 H2)|]. split; [done|].
  exists pid, l0. split; [eapply extends_in; [exact X4|]; eapply extends_in; [exact X7|]; left|]. split; [done|].
  intros name Hn Hd. eapply walked_entry_later; [exact X4|intros f; by apply walked_later|]. apply Hw.
  apply list_elem_of_In, List.filter_In. split; [by apply list_elem_of_In|]. by rewrite Hd.
Qed.
End walks.

(** ** The two walks *)

Lemma no_acl_later h h' f : extends h h' -> no_acl h f -> no_acl h' f.
Proof. intros Hx Ha a. destruct (Ha a) as (errno & He & ?). exists errno. split; [by eapply extends_in|done]. Qed.

(** The file that was looked at, opened as the same file and free of access control lists. *)
Definition file_checked (h : list ev) (p : list Component) (m : StatSnapshot) (f : fd) : Prop :=
  exists m', (Ev (OpenPath p FileNoFollow) (Ok f) : ev) ∈ h /\ (Ev (Fstat f) (Ok m') : ev) ∈ h /\ same_file_identity m m' = true /\ no_acl h f.

Lemma file_checked_later h h' p m f : extends h h' -> file_checked h p m f -> file_checked h' p m f.
Proof.
  intros Hx (m' & H1 & H2 & Hs & Ha). exists m'. split_and!; [by eapply extends_in|by eapply extends_in|done|by eapply no_acl_later].
Qed.

(** A tree whose every entry belongs to [uid] and [gid] with the modes of the access [a], is
    a directory or a file with one link, and has no access control list. *)
Definition checked_tree (uid gid : N) (a : WorkspaceAccess) : list ev -> fd -> Prop :=
  walked (mkWorkspacePolicy uid gid a) no_acl (fun _ _ => True) (fun h p m => exists f, file_checked h p m f) workspace_levels.

Definition set_and_synced (h : list ev) (f : fd) (mode : N) : Prop :=
  (Ev (Fchmod f mode) (Ok tt) : ev) ∈ h /\ (Ev (Fsync f) (Ok tt) : ev) ∈ h.

(** A private tree whose every file was made 0440 and every directory 0550, on disk. *)
Definition granted_tree (uid gid : N) : list ev -> fd -> Prop :=
  let policy := mkWorkspacePolicy uid gid Private in
  walked policy (fun h d => (exists m, (Ev (Fstat d) (Ok m) : ev) ∈ h /\ private_directory policy m = true) /\ no_acl h d)
    (fun h d => set_and_synced h d 360) (fun h p m => exists f, file_checked h p m f /\ set_and_synced h f 288) workspace_levels.

Lemma set_and_synced_later h h' f mode : extends h h' -> set_and_synced h f mode -> set_and_synced h' f mode.
Proof. intros Hx [H1 H2]. split; by eapply extends_in. Qed.

Lemma exec_set_and_sync env h h' f mode : exec env h (let*? _ := set_mode f mode in sync_checked f) = (h', Ok tt) -> set_and_synced h' f mode.
Proof.
  intros (h1 & [] & H1 & H2)%exec_bind_ok. unfold set_mode in H1. prim_ok H1. unfold sync_checked in H2. prim_ok H2.
  split; [right; left|left].
Qed.

Lemma validate_file_ok env h h' p m c c' :
  exec env h (validate_workspace_file p m c) = (h', Ok c') -> (exists f, file_checked h' p m f) /\ wc_entries c' = wc_entries c.
Proof.
  unfold validate_workspace_file. intros (h1 & f & H1 & Hk)%exec_bind_ok. unfold open_path in H1. prim_ok H1.
  apply exec_bind_ok in Hk as (h2 & m' & H2 & Hk). unfold stat_fd in H2. prim_ok H2.
  apply exec_bind_ok in Hk as (? & [] & [-> Hs%negb_false_iff]%exec_bail_if & Hk).
  apply exec_bind_ok in Hk as (h3 & [] & H3 & Hk). apply exec_extends_to in H3 as X3. apply ensure_posix_acl_absent_ok in H3.
  injection Hk as <- Hc. split.
  - exists f, m'. split_and!; [eapply extends_in; [exact X3|]; right; left|eapply extends_in; [exact X3|]; left|done..].
  - unfold count_workspace_bytes in Hc. apply seq_ok in Hc as [_ [_ [= <-]]%seq_ok]. done.
Qed.

Lemma grant_file_ok env h h' p m c c' :
  exec env h (grant_file p m c) = (h', Ok c') -> (exists f, file_checked h' p m f /\ set_and_synced h' f 288) /\ wc_entries c' = wc_entries c.
Proof.
  unfold grant_file. intros (h1 & f & H1 & Hk)%exec_bind_ok. unfold open_path in H1. prim_ok H1.
  apply exec_bind_ok in Hk as (h2 & m' & H2 & Hk). unfold stat_fd in H2. prim_ok H2.
  apply exec_bind_ok in Hk as (? & [] & [-> Hs%negb_false_iff]%exec_bail_if & Hk).
  apply exec_bind_ok in Hk as (h3 & [] & H3 & Hk). apply exec_extends_to in H3 as X3. apply ensure_posix_acl_absent_ok in H3.
  apply exec_bind_ok in Hk as (h4 & [] & H4 & Hk). apply exec_bind_ok in Hk as (h5 & [] & H5 & Hk). injection Hk as <- <-.
  assert (exec env h3 (let*? _ := set_mode f 288 in sync_checked f) = (h5, Ok tt)) as Hset
    by (unfold bind_ok; rewrite exec_bind, H4; exact H5).
  split; [|done]. exists f. split; [|by eapply exec_set_and_sync]. apply (file_checked_later h3); [by eapply exec_extends_to|].
  exists m'. split_and!; [eapply extends_in; [exact X3|]; right; left|eapply extends_in; [exact X3|]; left|done..].
Qed.

Lemma validate_tree_ok env h h' d uid gid a deadline :
  exec env h (validate_workspace_tree_with_deadline d uid gid a deadline) = (h', Ok tt) -> checked_tree uid gid a h' d.
Proof.
  unfold validate_workspace_tree_with_deadline, validate_workspace_directory. intros (h1 & c & H1 & [= <-])%exec_bind_ok.
  eapply walk_ok in H1 as [Hw _]; [exact Hw|..]; cbn beta.
  - intros. by eapply ensure_posix_acl_absent_ok.
  - done.
  - intros. by eapply validate_file_ok.
  - intros. by eapply no_acl_later.
  - done.
  - intros h2 h3 p m Hx (f & Hf). exists f. by eapply file_checked_later.
Qed.

Lemma enter_private_ok env h h' policy d :
  exec env h (enter_private_directory policy d) = (h', Ok tt) ->
  (exists m, (Ev (Fstat d) (Ok m) : ev) ∈ h' /\ private_directory policy m = true) /\ no_acl h' d.
Proof.
  unfold enter_private_directory. intros (h1 & m & H1 & Hk)%exec_bind_ok. unfold stat_fd in H1. prim_ok H1.
  apply exec_bind_ok in Hk as (? & [] & [-> Hp%negb_false_iff]%exec_bail_if & Hk). apply exec_extends_to in Hk as Hx.
  apply ensure_posix_acl_absent_ok in Hk. split; [|done]. exists m. split; [|done]. eapply extends_in; [exact Hx|left].
Qed.

Lemma grant_tree_ok env h h' d uid gid deadline :
  exec env h (grant_workspace_group_read d uid gid deadline) = (h', Ok tt) -> granted_tree uid gid h' d.
Proof.
  unfold grant_workspace_group_read, grant_workspace_directory_group_read. intros (h1 & c & H1 & [= <-])%exec_bind_ok.
  eapply walk_ok in H1 as [Hw _]; [exact Hw|..]; cbn beta.
  - intros. by eapply enter_private_ok.
  - intros. by eapply exec_set_and_sync.
  - intros. by eapply grant_file_ok.
  - intros h2 h3 d' Hx [(m & Hm & ?) Ha]. split; [|by eapply no_acl_later]. exists m. split; [by eapply extends_in|done].
  - intros. by eapply set_and_synced_later.
  - intros h2 h3 p m Hx (f & Hf & Hs). exists f. split; [by eapply file_checked_later|by eapply set_and_synced_later].
Qed.

(** ** Before the workspace is moved *)

(** Calls that only observe. *)
Definition observes (c : fs_call) : bool :=
  looks c || match c with OpenPath _ _ | ReadDir _ | ProcessId | Duplicate _ => true | _ => false end.

Lemma looks_observe {A} (p : prog fs_answer A) : calls_only looks p -> calls_only observes p.
Proof. intros Hp. eapply calls_only_mono; [exact Hp|]. intros c Hc. unfold observes. by rewrite Hc. Qed.

#[local] Hint Extern 2 (calls_only observes (check_deadline _ _)) => apply looks_observe, check_deadline_looks : calls_only.
#[local] Hint Extern 2 (calls_only observes (stat_fd _)) => apply looks_observe, stat_fd_looks : calls_only.
#[local] Hint Extern 2 (calls_only observes (ensure_posix_acl_absent _ _)) => apply looks_observe, ensure_posix_acl_absent_looks : calls_only.

Lemma lstat_observes p : calls_only observes (lstat p).
Proof. unfold lstat, os. calls_only. Qed.

Lemma open_path_observes p how : calls_only observes (open_path p how).
Proof. unfold open_path, os. calls_only. Qed.

Lemma lstat_existing_observes p : calls_only observes (lstat_existing p).
Proof. unfold lstat_existing. calls_only. Qed.

#[local] Hint Resolve lstat_observes open_path_observes lstat_existing_observes : calls_only.
#[local] Hint Extern 1 (calls_only observes (bail_if _ _)) => apply calls_only_ret : calls_only.
#[local] Hint Extern 1 (calls_only observes (bail _)) => apply calls_only_ret : calls_only.

Lemma trusted_directories_observes uid l : calls_only observes (trusted_directories uid l).
Proof. induction l as [|d l IH]; cbn [trusted_directories]; calls_only. Qed.

Lemma trusted_input_root_observes p gid : calls_only observes (trusted_input_root p gid).
Proof. unfold trusted_input_root, trusted_directory. pose proof trusted_directories_observes. calls_only. Qed.

Lemma walk_observes deadline operation e1 e2 e3 e4 e5 policy enter leave visit_file levels d c :
  (forall d, calls_only observes (enter d)) -> (forall d, calls_only observes (leave d)) ->
  (forall p m c, calls_only observes (visit_file p m c)) ->
  calls_only observes (walk_directory deadline operation e1 e2 e3 e4 e5 policy enter leave visit_file levels d c).
Proof.
  intros He Hl Hv. revert d c. induction levels as [|levels IH]; intros d c; cbn [walk_directory].
  - calls_only.
  - apply calls_only_bind_ok; [auto with calls_only|]. intros _. apply calls_only_bind_ok; [apply He|]. intros _.
    apply calls_only_bind_ok; [|intros c'; apply calls_only_bind_ok; [apply Hl|calls_only]].
    unfold visit_listing, descriptor_path. apply calls_only_bind; [calls_only|]. intros p.
    apply calls_only_bind_ok; [unfold read_dir, os; calls_only|]. intros l. apply calls_only_bind_ok.
    + generalize (ls_names l) as names. intros names. revert c. induction names as [|name names IHn]; intros c; cbn [visit_entries]; [calls_only|].
      apply calls_only_bind_ok; [|intros; apply IHn]. unfold visit_entry. calls_only.
    + intros c'. destruct (ls_error l); unfold fail; calls_only.
Qed.

Lemma validate_tree_observes d uid gid a deadline : calls_only observes (validate_workspace_tree_with_deadline d uid gid a deadline).
Proof.
  unfold validate_workspace_tree_with_deadline, validate_workspace_directory. apply calls_only_bind_ok; [|calls_only].
  apply walk_observes; intros; [auto with calls_only|calls_only|]. unfold validate_workspace_file. calls_only.
Qed.

Lemma reject_control_files_observes source names : calls_only observes (reject_control_files source names).
Proof. induction names as [|name names IH]; cbn [reject_control_files]; calls_only. Qed.

Section takeover.
Context `{Sha256} (stack : nat) (input_root consumed_input_root : path) (request : ExecuteRequest) (input_gid : N)
  (deadline : option WorkBudget).

#[local] Abbreviation run_bytes := (as_bytes (run_id request)).
#[local] Abbreviation unit_bytes := (as_bytes (transient_unit_name (run_id request))).

(** What is known of a workspace before it is moved: the directory under its name is private
    to root, the tree below it was checked, and it holds no control files. *)
Record privately_checked (h : list ev) (held : Held) (bind_source : str) : Prop := {
  pc_path : components (workspace request) = join_path input_root (run_id request);
  pc_guard : (Ev (OpenPath (components (workspace request)) DirectoryReference) (Ok (held_guard held)) : ev) ∈ h;
  pc_private : (Ev (Fstat (held_guard held)) (Ok (held_metadata held)) : ev) ∈ h /\ private_workspace input_gid (held_metadata held) = true;
  pc_opened : exists m, (Ev (OpenPath (components (workspace request)) DirectoryNoFollow) (Ok (held_validation held)) : ev) ∈ h
                /\ (Ev (Fstat (held_validation held)) (Ok m) : ev) ∈ h /\ same_file_identity (held_metadata held) m = true;
  pc_tree : checked_tree 0 input_gid Private h (held_validation held);
  pc_source : exists pid, bind_source = lit "/proc/" ++ decimal pid ++ lit "/fd/" ++ decimal (held_guard held);
  pc_control : forall name, name ∈ control_names -> (Ev (Lstat (join_path (as_bytes bind_source) name)) (Err ENOENT) : ev) ∈ h;
  pc_unchanged : exists m, (Ev (Lstat (components (workspace request))) (Ok m) : ev) ∈ h /\ identity m = identity (held_metadata held)
}.

Lemma reject_control_files_ok env source names h h' :
  exec env h (reject_control_files source names) = (h', Ok tt) ->
  forall name, name ∈ names -> (Ev (Lstat (join_path (as_bytes source) name)) (Err ENOENT) : ev) ∈ h'.
Proof.
  revert h. induction names as [|n names IH]; intros h; cbn [reject_control_files]; [by intros _ ? ?%not_elem_of_nil|].
  intros (h1 & o & H1 & Hk)%exec_bind_ok. apply exec_bind_ok in Hk as (? & [] & [-> Ho]%exec_bail_if & Hk).
  apply lstat_existing_ok in H1. destruct o; [done|]. subst h1.
  apply exec_extends_to in Hk as Hx. intros name [->|Hn]%elem_of_cons; [|by eapply IH]. eapply extends_in; [exact Hx|left].
Qed.

Lemma hold_workspace_observes : calls_only observes (hold_workspace input_root consumed_input_root request input_gid deadline).
Proof.
  unfold hold_workspace. pose proof trusted_input_root_observes.
  repeat (apply calls_only_bind_ok; [auto with calls_only|]; intros ?). apply calls_only_ret.
Qed.

Lemma check_private_observes held : calls_only observes (check_private_workspace request input_gid deadline held).
Proof.
  unfold check_private_workspace, descriptor_path. apply calls_only_bind_ok; [apply validate_tree_observes|]. intros _.
  apply calls_only_bind_ok; [unfold os; calls_only|]. intros canonical. apply calls_only_bind_ok; [apply calls_only_ret|]. intros _.
  apply calls_only_bind; [calls_only|]. intros source. apply calls_only_bind_ok; [apply reject_control_files_observes|]. calls_only.
Qed.

(** The two parts before the move: nothing is changed, and what they check holds. *)
Lemma hold_and_check_ok env h h' held bind_source :
  exec env h (let*? held := hold_workspace input_root consumed_input_root request input_gid deadline in
              let*? source := check_private_workspace request input_gid deadline held in Ret (Ok (held, source)))
    = (h', Ok (held, bind_source)) ->
  privately_checked h' held bind_source.
Proof.
  intros (h0 & g & Hh & Hk)%exec_bind_ok. apply exec_bind_ok in Hk as (h9 & source & Hc & [= <- -> ->]).
  unfold hold_workspace in Hh. apply exec_bind_ok in Hh as (? & [] & _ & Hk). apply exec_bind_ok in Hk as (? & [] & _ & Hk).
  apply exec_bind_ok in Hk as (? & ir & _ & Hk). apply exec_bind_ok in Hk as (h1 & cr & _ & Hk).
  apply exec_bind_ok in Hk as (? & [] & [-> Hp%negb_false_iff%bool_decide_eq_true]%exec_bail_if & Hk).
  apply exec_bind_ok in Hk as (h2 & guard & H2 & Hk). unfold open_path in H2. prim_ok H2.
  apply exec_bind_ok in Hk as (h3 & m & H3 & Hk). unfold stat_fd in H3. prim_ok H3.
  apply exec_bind_ok in Hk as (? & [] & [-> Hm%negb_false_iff]%exec_bail_if & Hk).
  apply exec_bind_ok in Hk as (h4 & v & H4 & Hk). unfold open_path in H4. prim_ok H4.
  apply exec_bind_ok in Hk as (h5 & mv & H5 & Hk). unfold stat_fd in H5. prim_ok H5.
  apply exec_bind_ok in Hk as (? & [] & [-> Hs%negb_false_iff]%exec_bail_if & Hk). injection Hk as <- <-.
  cbn [held_guard held_metadata held_validation] in *. apply exec_extends_to in Hc as Xc. unfold check_private_workspace in Hc.
  apply exec_bind_ok in Hc as (h6 & [] & H6 & Hk). apply exec_extends_to in Hk as X6. apply validate_tree_ok in H6.
  apply exec_bind_ok in Hk as (h7 & canonical & _ & Hk). apply exec_bind_ok in Hk as (? & [] & [-> _]%exec_bail_if & Hk).
  rewrite exec_bind in Hk. unfold descriptor_path in Hk. rewrite exec_bind in Hk. cbn [exec perform fst snd held_guard] in Hk.
  set (pid := env h7 ProcessId) in *. apply exec_bind_ok in Hk as (h8 & [] & H8 & Hk). apply exec_extends_to in Hk as X8.
  pose proof (reject_control_files_ok _ _ _ _ _ H8) as Hctl.
  apply exec_bind_ok in Hk as (h10 & cur & H10 & Hk). unfold lstat in H10. prim_ok H10.
  apply exec_bind_ok in Hk as (? & [] & [-> Hcur%negb_false_iff%bool_decide_eq_true]%exec_bail_if & Hk). injection Hk as <- <-.
  split; cbn [held_guard held_metadata held_validation].
  - done.
  - eapply extends_in; [exact Xc|]. do 3 right. left.
  - split; [|done]. eapply extends_in; [exact Xc|]. do 2 right. left.
  - exists mv. split_and!; [eapply extends_in; [exact Xc|]; right; left|eapply extends_in; [exact Xc|]; left|done].
  - unfold checked_tree in *. eapply walked_later; [| | |exact X6|exact H6].
    + intros. by eapply no_acl_later.
    + done.
    + intros h1' h2' p m' Hx (f & Hf). exists f. by eapply file_checked_later.
  - by exists pid.
  - intros name Hn. eapply extends_in; [exact X8|]. by apply Hctl.
  - exists cur. split; [left|done].
Qed.

Lemma rename_workspace_ok env h h' held root name :
  exec env h (rename_workspace request held) = (h', Ok (root, name)) ->
  name = unit_bytes /\
  h' = Ev (RenameNoReplace (held_input_root held) run_bytes (held_consumed_root held) unit_bytes) (Ok tt)
       :: Ev (Duplicate (held_consumed_root held)) (Ok root) :: h.
Proof.
  unfold rename_workspace. intros (? & n & [= <- Hn] & Hk)%exec_bind_ok. destruct (any _ _); [done|]. injection Hn as <-.
  apply exec_bind_ok in Hk as (h1 & r & H1 & Hk). prim_ok H1. apply exec_bind_ok in Hk as (h2 & [] & H2 & Hk). prim_ok H2.
  by injection Hk as <- <- <-.
Qed.

(** The workspace as it is handed to the run. *)
Definition taken_over (held : Held) (bind_source : str) (root : fd) : VerifiedWorkspace :=
  mkVerifiedWorkspace (consumed_path consumed_input_root unit_bytes) bind_source root unit_bytes (identity (held_metadata held)) true
    (held_guard held).

(** The trace up to the move: only observations since [h], then the move itself. *)
Definition moved_after (h before moved : list ev) (held : Held) (root : fd) : Prop :=
  (exists t, before = t ++ h /\ forall e, e ∈ t -> observes (ev_call e) = true)
  /\ moved = Ev (RenameNoReplace (held_input_root held) run_bytes (held_consumed_root held) unit_bytes) (Ok tt)
             :: Ev (Duplicate (held_consumed_root held)) (Ok root) :: before.

Lemma consume_workspace_ok env h h' held bind_source root name :
  exec env h (consume_workspace input_root consumed_input_root request input_gid deadline) = (h', Ok (held, bind_source, root, name)) ->
  name = unit_bytes /\ exists before, privately_checked before held bind_source /\ moved_after h before h' held root.
Proof.
  unfold consume_workspace. intros (h1 & g & H1 & Hk)%exec_bind_ok. apply exec_bind_ok in Hk as (h2 & source & H2 & Hk).
  apply exec_bind_ok in Hk as (h3 & [r n] & H3 & [= <- <- <- <- <-]). apply rename_workspace_ok in H3 as [-> ->].
  split; [done|]. exists h2. split.
  - apply (hold_and_check_ok env h). unfold bind_ok at 1. rewrite exec_bind, H1. cbn [fst snd]. unfold bind_ok. rewrite exec_bind, H2. done.
  - split; [|done]. destruct (exec_calls_only _ _ _ _ _ _ hold_workspace_observes H1) as (t1 & -> & G1).
    destruct (exec_calls_only _ _ _ _ _ _ (check_private_observes g) H2) as (t2 & -> & G2).
    exists (t2 ++ t1). split; [by rewrite app_assoc|]. intros e [?|?]%elem_of_app; auto.
Qed.

(** The workspace was opened to the group, on disk, and checked again as the group sees it. *)
Definition opened_to_group (h : list ev) (held : Held) : Prop :=
  granted_tree 0 input_gid h (held_validation held) /\ checked_tree 0 input_gid GroupReadable h (held_validation held)
  /\ (Ev (Fsync (held_consumed_root held)) (Ok tt) : ev) ∈ h /\ (Ev (Fsync (held_input_root held)) (Ok tt) : ev) ∈ h
  /\ exists m, (Ev (Lstat (components (consumed_path consumed_input_root unit_bytes))) (Ok m) : ev) ∈ h
       /\ identity m = identity (held_metadata held).

Lemma open_to_group_ok env h h' held :
  exec env h (open_to_group consumed_input_root input_gid deadline held unit_bytes) = (h', Ok tt) -> opened_to_group h' held.
Proof.
  unfold open_to_group. intros (h1 & [] & H1 & Hk)%exec_bind_ok. unfold sync_checked in H1. prim_ok H1.
  apply exec_bind_ok in Hk as (h2 & [] & H2 & Hk). unfold sync_checked in H2. prim_ok H2. apply exec_extends_to in Hk as X2.
  apply exec_bind_ok in Hk as (h3 & [] & H3 & Hk). apply exec_extends_to in Hk as X3. apply grant_tree_ok in H3.
  apply exec_bind_ok in Hk as (h4 & [] & H4 & Hk). apply validate_tree_ok in H4.
  apply exec_bind_ok in Hk as (h5 & m & H5 & Hk). unfold lstat in H5. prim_ok H5.
  apply exec_bail_if in Hk as [-> Hi%negb_false_iff%bool_decide_eq_true]. split_and!.
  - unfold granted_tree in *. eapply walked_later; [| | |exact X3|exact H3].
    + intros h6 h7 d Hx [(m' & Hm & ?) Ha]. split; [|by eapply no_acl_later]. exists m'. split; [by eapply extends_in|done].
    + intros. by eapply set_and_synced_later.
    + intros h6 h7 p m' Hx (f & Hf & Hs). exists f. split; [by eapply file_checked_later|by eapply set_and_synced_later].
  - unfold checked_tree in *. eapply walked_later; [| | |apply extends_cons, extends_refl|exact H4].
    + intros. by eapply no_acl_later.
    + done.
    + intros h6 h7 p m' Hx (f & Hf). exists f. by eapply file_checked_later.
  - eapply extends_in; [exact X2|]. right. left.
  - eapply extends_in; [exact X2|]. left.
  - exists m. split; [left|done].
Qed.

(** The clean-up of a workspace that is still armed. *)
Lemma workspace_cleanup_ok env h h' w w' :
  vw_cleanup_armed w = true -> exec env h (workspace_cleanup stack w) = (h', (w', Ok tt)) ->
  w' = disarm_workspace w /\ removed_owned (vw_consumed_root w) (vw_consumed_name w) (vw_expected w) h h'.
Proof.
  intros Ha. unfold workspace_cleanup. rewrite Ha. cbn [negb]. rewrite exec_bind.
  destruct (exec env h (remove_owned_tree_at _ _ _ _)) as [h1 [[]|e]] eqn:E; cbn [fst snd]; [|done]. rewrite exec_bind.
  destruct (exec env h1 (sync_checked _)) as [h2 r] eqn:E2. cbn. intros [= <- <- ->]. split; [done|].
  apply remove_owned_unlinks in E as (m & Hm & h8 & b & X1 & X2). exists m. split; [done|]. exists h8, b. split; [done|].
  eapply extends_trans; [exact X2|by eapply exec_extends_to].
Qed.

Lemma published_cleanup_ok env h h' w w' :
  pub_armed w = true -> exec env h (published_cleanup stack w) = (h', (w', Ok tt)) ->
  removed_owned (pub_input_root w) (pub_run_name w) (pub_identity w) h h'.
Proof.
  intros Ha. unfold published_cleanup. rewrite Ha. cbn [negb]. rewrite exec_bind.
  destruct (exec env h (remove_owned_tree_at _ _ _ _)) as [h1 [[]|e]] eqn:E; cbn [fst snd]; [|done]. rewrite exec_bind.
  destruct (exec env h1 (sync_checked _)) as [h2 r] eqn:E2. cbn. intros [= <- _ ->].
  apply remove_owned_unlinks in E as (m & Hm & h8 & b & X1 & X2). exists m. split; [done|]. exists h8, b. split; [done|].
  eapply extends_trans; [exact X2|by eapply exec_extends_to].
Qed.

Lemma drop_disarmed env h w : exec env h (drop_published stack (disarm w)) = (h, tt).
Proof. done. Qed.

(** What finalising makes of the validation. *)
Lemma finalise_result env h h' w validation r :
  exec env h (finalise_workspace_preparation stack w validation) = (h', r) ->
  match validation with
  | Ok _ => h' = h /\ r = Ok w
  | Err _ => exists e, r = Err e /\
      (vw_cleanup_armed w = true -> cleaned e -> removed_owned (vw_consumed_root w) (vw_consumed_name w) (vw_expected w) h h')
  end.
Proof.
  unfold finalise_workspace_preparation. destruct validation as [[]|e]; [by intros [= <- <-]|]. rewrite exec_bind.
  destruct (exec env h (workspace_cleanup stack w)) as [h3 [w3 r3]] eqn:E3. cbn [fst snd]. rewrite exec_bind.
  destruct (exec env h3 (drop_workspace stack w3)) as [h4 []] eqn:E4. cbn [fst snd].
  destruct r3 as [[]|e3]; cbn; intros [= <- <-]; eexists; (split; [done|]); [|done].
  intros Ha _. apply workspace_cleanup_ok in E3 as [-> Hr]; [|done]. unfold drop_workspace in E4. cbn in E4. by injection E4 as <-.
Qed.

(** How a failed take-over leaves the workspace: if it had been moved, it was removed from
    where it was moved to, or the error says that this failed too; if not, the clean-up of
    the published workspace was run, and removed it unless that failed. *)
Definition taken_away (published : PublishedWorkspace) (h h' : list ev) (e : FsError) : Prop :=
  (exists held bind_source root before moved checked,
     privately_checked before held bind_source /\ moved_after h before moved held root /\ extends moved checked
     /\ (cleaned e -> removed_owned root unit_bytes (identity (held_metadata held)) checked h'))
  \/ exists env h1 w r, extends h h1 /\ exec env h1 (published_cleanup stack published) = (h', (w, r))
     /\ (pub_armed published = true -> r = Ok tt -> removed_owned (pub_input_root published) (pub_run_name published) (pub_identity published) h1 h').

Lemma verify_workspace_result env h h' published r :
  exec env h (verify_workspace stack input_root consumed_input_root request input_gid deadline published) = (h', r) ->
  match r with
  | Ok w => exists held bind_source root before moved,
      privately_checked before held bind_source /\ moved_after h before moved held root /\ extends moved h'
      /\ opened_to_group h' held /\ w = taken_over held bind_source root
  | Err e => taken_away published h h' e
  end.
Proof.
  unfold verify_workspace. rewrite exec_bind.
  destruct (exec env h (consume_workspace _ _ _ _ _)) as [h1 [[[[held bind_source] root] name]|e]] eqn:E; cbn [fst snd].
  - apply consume_workspace_ok in E as (-> & before & Hp & Hm). rewrite exec_bind.
    destruct (exec env h1 (open_to_group _ _ _ _ _)) as [h2 v] eqn:E2. cbn [fst snd]. apply exec_extends_to in E2 as X2. rewrite exec_bind.
    set (w := mkVerifiedWorkspace _ _ _ _ _ _ _). destruct (exec env h2 (finalise_workspace_preparation stack w v)) as [h3 r3] eqn:E3.
    cbn [fst snd]. rewrite exec_bind, drop_disarmed. cbn. intros [= <- <-]. apply finalise_result in E3. destruct v as [[]|e].
    + destruct E3 as [-> ->]. apply open_to_group_ok in E2. by exists held, bind_source, root, before, h1.
    + destruct E3 as (e' & -> & Hc). left. exists held, bind_source, root, before, h1, h2.
      split; [done|]. split; [done|]. split; [done|]. by apply Hc.
  - rewrite exec_bind. unfold drop_published. rewrite exec_bind.
    destruct (exec env h1 (published_cleanup stack published)) as [h2 [w r2]] eqn:E2. cbn. intros [= <- <-]. right.
    exists env, h1, w, r2. split; [by eapply exec_extends_to|]. split; [done|]. intros Ha ->. by eapply published_cleanup_ok.
Qed.
End takeover.

(** A workspace is handed over checked, or it is taken away. When the take-over succeeds,
    the workspace was checked while it was private to root, nothing but observations happened
    before the one rename that moves it, and then it was opened to the group, synced, and the
    whole tree checked again as the group sees it. When it fails, a workspace that had been
    moved is removed from the consumed root unless the error reports that failure, and one
    that had not is handed to the clean-up of the published root. *)
Theorem workspace_handed_over `{Sha256} stack input_root consumed_input_root request input_gid deadline published env h :
  let (h', r) := exec env h (verify_workspace stack input_root consumed_input_root request input_gid deadline published) in
  match r with
  | Ok w => exists held bind_source root before moved,
      privately_checked input_root request input_gid before held bind_source /\ moved_after request h before moved held root
      /\ extends moved h' /\ opened_to_group consumed_input_root request input_gid h' held
      /\ w = taken_over consumed_input_root request held bind_source root
  | Err e => taken_away stack input_root request input_gid published h h' e
  end.
Proof. destruct (exec env h _) as [h' r] eqn:E. by apply verify_workspace_result in E. Qed.
