(* ===== verification/IsolatedPrepare.v ===== *)
(** * Preparing an isolated run

    The part of [src/isolated_execution.rs] between a request and its plan: the activation is
    verified, the runtime checked against it, the workspace sealed and consumed. What
    [IsolatedRun] calls [Prepare] and [Cleanup] is here. *)

From S2P Require Import Prelude Effects Text Digest Paths HostFiles WorkBudget Descriptors HostPaths TreeCopy Webex Serde.
From S2P Require Import LauncherProtocol IsolatedPlan Activation RunnerInput InputSealer IsolatedWorkspace.

Local Open Scope N_scope.

(** ** Paths *)

Record RuntimePaths : Type := mkRuntimePaths {
  rtp_root : path;
  rtp_active_manifest : path;
  rtp_credential : path;
  rtp_systemd_run : path;
  rtp_systemctl : path;
  rtp_input_root : path;
  rtp_consumed_input_root : path;
  rtp_group_file : path;
  rtp_passwd_file : path
}.

Definition default_runtime_paths : RuntimePaths :=
  mkRuntimePaths RUNTIME_ROOT (lit "/opt/webex-generic-account-bot/runtime/active.json") CODEX_AUTH_CREDENTIAL_PATH SYSTEMD_RUN_PATH
    (lit "/usr/bin/systemctl") CODEX_INPUT_ROOT CODEX_CONSUMED_INPUT_ROOT (lit "/etc/group") (lit "/etc/passwd").

Definition CODEX_AUTH_MAX_BYTES : N := 1024 * 1024.
Definition HOST_DATA_MAX_BYTES : N := 1024 * 1024.

(** ** Trusted files *)

Definition trusted_file_metadata (m : StatSnapshot) (expected_uid : N) (policy : FilePolicy) : bool :=
  is_regular m && negb (is_link m) && (st_uid m =? expected_uid) && file_policy_mode_valid policy (st_mode m).

Definition trusted_file (p : list Component) (expected_uid : N) (policy : FilePolicy) : fsprog unit :=
  let*? _ := bail_if (negb (bool_decide (head p = Some RootDir))) (lit "trusted runtime path is not absolute") in
  let*? above := Ret (ok_or (parent p) (Bail (lit "trusted runtime path has no parent"))) in
  let*? _ := trusted_directory above expected_uid true in
  let*? m := lstat p in
  bail_if (negb (trusted_file_metadata m expected_uid policy)) (lit "trusted runtime file metadata is invalid").

Definition read_bounded_file (p : list Component) (max_bytes : N) : fsprog bytes :=
  let*? f := open_path p FileNoFollow in
  let*? m := stat_fd f in
  let*? _ := bail_if (negb (is_regular m) || (file_len m =? 0) || (max_bytes <? file_len m))
               (lit "trusted runtime file is outside its size limit") in
  os (perform (ReadToEnd f)).

(** An error of the pure functions of [IsolatedPlan]. *)
Definition plan_result {A} (r : result str A) : fsprog A := Ret (map_err Bail r).

(** Each rejection reads the data base of users again. *)
Definition reject_primary_gid_file (passwd_file : list Component) (gid : N) : fsprog unit :=
  let*? data := read_bounded_file passwd_file HOST_DATA_MAX_BYTES in
  let*? contents := Ret (ok_or (from_utf8 data) (Bail (lit "host passwd database is not UTF-8"))) in
  plan_result (reject_primary_gid_users contents gid).

Definition resolve_codex_group_files (group_file passwd_file : list Component) : fsprog CodexGroupIds :=
  let*? data := read_bounded_file group_file HOST_DATA_MAX_BYTES in
  let*? contents := Ret (ok_or (from_utf8 data) (Bail (lit "host group database is not UTF-8"))) in
  let*? launch := plan_result (parse_group_gid contents CODEX_LAUNCH_GROUP) in
  let*? input := plan_result (parse_group_gid contents CODEX_INPUT_GROUP) in
  let*? _ := bail_if (launch =? input) (lit "Codex launch and input groups must be distinct") in
  let*? _ := reject_primary_gid_file passwd_file launch in
  let*? _ := reject_primary_gid_file passwd_file input in
  Ret (Ok (mkGroupIds launch input)).

Definition production_codex_group_ids : fsprog CodexGroupIds :=
  let p := default_runtime_paths in
  let*? _ := trusted_file (components (rtp_group_file p)) 0 HostData in
  let*? _ := trusted_file (components (rtp_passwd_file p)) 0 HostData in
  resolve_codex_group_files (components (rtp_group_file p)) (components (rtp_passwd_file p)).

(** ** The runtime *)

Section runtime.
Context `{Sha256} `{JsonText}.

(** [hash_reader] reads to the end of the file, without a limit of its own: it needs as many
    rounds as the file has parts. *)
Definition hash_round (deadline : option WorkBudget) (f : fd) (data : bytes) : fsprog (bytes + bytes) :=
  let*? _ := check_deadline deadline (lit "isolated runtime image hashing") in
  let*? chunk := read_chunk f (1024 * 1024) in
  Ret (Ok (if is_empty chunk then inr data else inl (data ++ chunk))).

Definition hash_reader (fuel : positive) (f : fd) (prefix : bytes) (deadline : option WorkBudget) : fsprog str :=
  let*? data := loop fuel (hash_round deadline f) prefix in Ret (Ok (hash_text data)).

Definition is_json_object (data : bytes) : bool :=
  match json_from_slice data with Some (JObject _) => true | _ => false end.

(** The files of the host and the manifest, bound to the activation. *)
Definition verify_manifest (paths : RuntimePaths) (expected_uid : N) (activation : VerifiedActivation) : fsprog ActiveRuntimeManifest :=
  let*? _ := trusted_file (components (rtp_active_manifest paths)) expected_uid ReadOnlyData in
  let*? _ := trusted_file (components (rtp_credential paths)) expected_uid PrivateCredential in
  let*? _ := trusted_file (components (rtp_systemd_run paths)) expected_uid Executable in
  let*? _ := trusted_file (components (rtp_systemctl paths)) expected_uid Executable in
  let*? _ := trusted_file (components (rtp_group_file paths)) expected_uid HostData in
  let*? _ := trusted_file (components (rtp_passwd_file paths)) expected_uid HostData in
  let*? manifest_bytes := read_bounded_file (components (rtp_active_manifest paths)) ACTIVE_MANIFEST_MAX_BYTES in
  let*? m := Ret (ok_or (json_from_slice manifest_bytes ≫= decode_manifest) (Bail (lit "runtime active manifest is invalid"))) in
  let*? _ := plan_result (validate_active_manifest m) in
  let*? _ := plan_result (validate_active_manifest_binding activation manifest_bytes m) in
  Ret (Ok m).

Definition run_image_path (paths : RuntimePaths) (m : ActiveRuntimeManifest) : path := path_join (rtp_root paths) (as_bytes (mf_image m)).

(** The image the manifest names, hashed and bound to the activation. *)
Definition verify_image (fuel : positive) (paths : RuntimePaths) (expected_uid : N) (activation : VerifiedActivation)
    (deadline : option WorkBudget) (m : ActiveRuntimeManifest) : fsprog path :=
  let image := run_image_path paths m in
  let*? _ := bail_if (negb (path_starts_with (components image) (components (path_join (rtp_root paths) (lit "images")))))
               (lit "runtime image path is outside the content store") in
  let*? _ := trusted_file (components image) expected_uid ReadOnlyData in
  let*? meta := os (perform (StatPath (components image))) in
  let*? _ := bail_if (negb (file_len meta =? image_size m) || (RUNTIME_IMAGE_MAX_BYTES <? file_len meta))
               (lit "runtime image size does not match its manifest") in
  let*? f := open_path (components image) FileNoFollow in
  let*? magic := read_exactly 4 f (len SQUASHFS_MAGIC) [] in
  let*? _ := bail_if (negb (str_eqb magic SQUASHFS_MAGIC)) (lit "runtime image is not SquashFS") in
  let*? digest := hash_reader fuel f magic deadline in
  let*? _ := bail_if (negb (str_eqb digest (image_sha256 m))) (lit "runtime image digest does not match its manifest") in
  let*? _ := plan_result (validate_runtime_image_binding activation digest) in
  Ret (Ok image).

(** The credential, the groups and the input roots. *)
Definition verify_run_inputs (paths : RuntimePaths) : fsprog N :=
  let*? credential := read_bounded_file (components (rtp_credential paths)) CODEX_AUTH_MAX_BYTES in
  let*? _ := bail_if (negb (is_json_object credential)) (lit "Codex credential is not a JSON object") in
  let*? groups := resolve_codex_group_files (components (rtp_group_file paths)) (components (rtp_passwd_file paths)) in
  let*? _ := trusted_input_root (components (rtp_input_root paths)) (input groups) in
  let*? _ := trusted_directory (components (rtp_consumed_input_root paths)) 0 true in
  let*? consumed := lstat (components (rtp_consumed_input_root paths)) in
  let*? _ := bail_if (negb (N.land (st_mode consumed) 511 =? 448)) (lit "consumed runtime input root metadata is invalid") in
  Ret (Ok (input groups)).

Definition verify_runtime_with_deadline (fuel : positive) (paths : RuntimePaths) (expected_uid : N) (activation : VerifiedActivation)
    (deadline : option WorkBudget) : fsprog VerifiedRuntime :=
  let*? _ := check_deadline deadline (lit "isolated runtime verification") in
  let*? m := verify_manifest paths expected_uid activation in
  let*? image := verify_image fuel paths expected_uid activation deadline m in
  let*? input_gid := verify_run_inputs paths in
  Ret (Ok (mkVerifiedRuntime image (codex_version m) input_gid)).

(** [credentials_directory] is the variable [CREDENTIALS_DIRECTORY] of the environment. *)
Definition ensure_activation_enabled_with_deadline (credentials_directory : option path) (deadline : option WorkBudget)
  : fsprog VerifiedActivation :=
  let*? directory := Ret (ok_or credentials_directory (Bail (lit "launcher credential directory is unavailable"))) in
  let*? boot_id := plan_result (boot_id_credential_path directory) in
  verify_activation_with_deadline (production_for_launcher_with_boot_id boot_id) deadline.

Definition preflight_with_deadline (fuel : positive) (credentials_directory : option path) (deadline : option WorkBudget)
  : fsprog VerifiedRuntime :=
  let*? activation := ensure_activation_enabled_with_deadline credentials_directory deadline in
  let* groups := production_codex_group_ids in
  let*? _ := preflight groups in
  verify_runtime_with_deadline fuel default_runtime_paths 0 activation deadline.

Definition current_launcher_unit : fsprog str :=
  let*? f := open_path (components (lit "/proc/self/cgroup")) FileFollow in
  let*? data := os (perform (ReadToEnd f)) in
  let*? cgroup := Ret (ok_or (from_utf8 data) (Bail (lit "stream did not contain valid UTF-8"))) in
  plan_result (parse_launcher_unit cgroup).

(** ** Preparation *)

Inductive PrepareError : Type :=
| PrepareUnavailable (error : FsError)
| PrepareFailed (error : FsError).

Record PreparedExecution : Type := mkPrepared { prepared_plan : TransientRunPlan; prepared_workspace : VerifiedWorkspace }.

Abbreviation prepare A := (prog fs_answer (result PrepareError A)) (only parsing).

(** [.map_err(IsolatedExecutionError::Unavailable)] and [.. ::Failed]. *)
Definition or_unavailable {A} (p : fsprog A) : prepare A := let* r := p in Ret (map_err PrepareUnavailable r).
Definition or_failed {A} (p : fsprog A) : prepare A := let* r := p in Ret (map_err PrepareFailed r).

(** The value [w] is dropped when the next step fails. *)
Definition or_dropped {A} (stack : nat) (w : VerifiedWorkspace) (r : result str A) : prepare A :=
  match r with
  | Ok a => Ret (Ok a)
  | Err message =>
      let* _ := drop_workspace stack w in
      Ret (Err (PrepareFailed (Bail message)))
  end.

Definition sealed_by (stack : nat) (run_id : str) (source_uid : N) (deadline : WorkBudget) : fsprog PublishedWorkspace :=
  let* groups := production_codex_group_ids in
  seal_workspace_with_deadline stack groups run_id source_uid (Some deadline).

Definition prepare_execution (fuel : positive) (stack : nat) (credentials_directory : option path) (request : ExecuteRequest)
    (source_uid : N) (deadline : WorkBudget) : prepare PreparedExecution :=
  let*? _ := or_failed (check_deadline (Some deadline) (lit "isolated Codex preparation")) in
  let*? _ := or_failed (Ret (map_err (fun _ => Bail (lit "isolated request policy is invalid")) (validate_execution_policy request))) in
  let*? activation := or_unavailable (ensure_activation_enabled_with_deadline credentials_directory (Some deadline)) in
  let paths := default_runtime_paths in
  let expected_workspace := path_join (rtp_input_root paths) (as_bytes (run_id request)) in
  let*? _ := or_failed (bail_if (negb (bool_decide (components (workspace request) = components expected_workspace)))
                          (lit "runtime workspace does not match the run identifier")) in
  let*? runtime := or_unavailable (verify_runtime_with_deadline fuel paths 0 activation (Some deadline)) in
  let*? launcher_unit := or_failed current_launcher_unit in
  let*? sealed_workspace := or_failed (sealed_by stack (run_id request) source_uid deadline) in
  if negb (bool_decide (components (pub_path sealed_workspace) = components expected_workspace)) then
    let* _ := drop_published stack sealed_workspace in
    Ret (Err (PrepareFailed (Bail (lit "sealed workspace path does not match the launcher request"))))
  else
    let*? w := or_failed (verify_workspace stack (rtp_input_root paths) (rtp_consumed_input_root paths) request (vr_input_gid runtime)
                            (Some deadline) sealed_workspace) in
    let*? plan := or_dropped stack w (build_transient_run_plan request runtime (vw_path w) (vw_bind_source w) launcher_unit) in
    Ret (Ok (mkPrepared plan w)).

(** The canary of the runtime, prepared for the candidate of a renewal. *)
Definition prepare_runtime_canary (fuel : positive) (stack : nat) (request : RuntimeCanaryLaunchRequest) (candidate : VerifiedActivation)
    (deadline : WorkBudget) : fsprog (TransientRunPlan * VerifiedWorkspace) :=
  let*? _ := check_deadline (Some deadline) (lit "runtime canary preparation") in
  let*? _ := plan_result (validate_launch_request request) in
  let paths := default_runtime_paths in
  let*? runtime := verify_runtime_with_deadline fuel paths 0 candidate (Some deadline) in
  let execute_request := runtime_canary_execute_request request in
  let*? sealed_workspace := sealed_by stack (lr_nonce request) 0 deadline in
  let*? w := verify_workspace stack (rtp_input_root paths) (rtp_consumed_input_root paths) execute_request (vr_input_gid runtime)
               (Some deadline) sealed_workspace in
  match build_runtime_canary_plan request execute_request runtime (vw_path w) (vw_bind_source w) with
  | Ok plan => Ret (Ok (plan, w))
  | Err message =>
      let* _ := drop_workspace stack w in
      bail message
  end.
End runtime.
