(* ===== verification/IsolatedPrepareRules.v ===== *)
(** * What a prepared run rests on

    A request only becomes a plan after the activation of this boot was verified, the
    runtime was read and found to be what the activation names, and its workspace was
    sealed, checked, moved away and opened to the group; a failure leaves no workspace. *)

From S2P Require Import Prelude Effects Text Digest Paths HostFiles WorkBudget Descriptors DescriptorRules HostPaths HostPathRules TreeCopy.
From S2P Require Import Webex Serde LauncherProtocol IsolatedPlan Activation ActivationRules RunnerInput InputSealer InputSealerRules IsolatedWorkspace.
From S2P Require Import IsolatedWorkspaceRules IsolatedPrepare.

Local Open Scope N_scope.

(** ** The runtime *)

Section runtime.
Context {sha : Sha256} {text : JsonText}.

Lemma read_bounded_file_ok env h h' p max data :
  exec env h (read_bounded_file p max) = (h', Ok data) ->
  exists f m, (Ev (OpenPath p FileNoFollow) (Ok f) : ev) ∈ h' /\ (Ev (Fstat f) (Ok m) : ev) ∈ h' /\ is_regular m = true
    /\ 0 < file_len m <= max /\ (Ev (ReadToEnd f) (Ok data) : ev) ∈ h'.
Proof.
  unfold read_bounded_file. intros (h1 & f & H1 & Hk)%exec_bind_ok. unfold open_path in H1. prim_ok H1.
  apply exec_bind_ok in Hk as (h2 & m & H2 & Hk). unfold stat_fd in H2. prim_ok H2.
  apply exec_bind_ok in Hk as (? & [] & [-> Hc]%exec_bail_if & Hk). prim_ok Hk.
  apply orb_false_iff in Hc as [[Hr%negb_false_iff Hz%N.eqb_neq]%orb_false_iff Hm%N.ltb_ge].
  exists f, m. split_and!; [do 2 right; left|right; left|done|lia|done|left].
Qed.

Lemma hash_reader_ok env fuel f prefix deadline h h' digest :
  exec env h (hash_reader fuel f prefix deadline) = (h', Ok digest) ->
  exists more, digest = hash_text (prefix ++ more) /\ adds nothing (only f more) h h'.
Proof.
  unfold hash_reader. intros (h1 & data & H1 & [= <- <-])%exec_bind_ok.
  apply (exec_loop _ env (fun h1 d => exists more, d = prefix ++ more /\ adds nothing (only f more) h h1)
           (fun h1 d => exists more, d = prefix ++ more /\ adds nothing (only f more) h h1)) in H1.
  - destruct H1 as (more & -> & Ha). by exists more.
  - intros h2 h3 d r (more & -> & Ha). unfold hash_round. intros (h4 & [] & H4 & Hk)%exec_bind_ok.
    apply exec_looks in H4; [|apply check_deadline_looks]. apply exec_bind_ok in Hk as (h5 & chunk & H5%read_chunk_ok & [= <- <-]).
    assert (adds nothing (only f (more ++ chunk)) h h5) as Hadd.
    { eapply adds_ext; [eapply adds_trans; [exact Ha|eapply adds_trans; [exact H4|exact H5]]|]. intros g. split; [done|].
      unfold only, nothing. by case_bool_decide. }
    destruct (is_empty chunk) eqn:Ec.
    + apply is_empty_true in Ec as ->. exists more. by rewrite app_nil_r in Hadd.
    + exists (more ++ chunk). by rewrite app_assoc.
  - exists []. split; [by rewrite app_nil_r|]. eapply adds_ext; [apply same_data_refl|]. intros g. split; [done|].
    unfold only. by case_bool_decide.
Qed.

Lemma plan_result_ok {A} env h h' (r : result str A) a : exec env h (plan_result r) = (h', Ok a) -> h' = h /\ r = Ok a.
Proof. unfold plan_result. cbn. intros [= <- Hr]. split; [done|]. by destruct r; [injection Hr as ->|]. Qed.

Section paths.
Context (paths : RuntimePaths) (activation : VerifiedActivation).

(** The manifest that was read is the one of the activation. *)
Definition manifest_vouched (h : list ev) (m : ActiveRuntimeManifest) : Prop :=
  exists f data, (Ev (OpenPath (components (rtp_active_manifest paths)) FileNoFollow) (Ok f) : ev) ∈ h
    /\ (Ev (ReadToEnd f) (Ok data) : ev) ∈ h /\ json_from_slice data ≫= decode_manifest = Some m
    /\ validate_active_manifest m = Ok tt /\ hash_text data = va_active_manifest_sha256 activation
    /\ codex_version m = va_codex_version activation.

(** The image at [p] was read to its end; it is the one of the manifest and the activation. *)
Definition image_vouched (h : list ev) (m : ActiveRuntimeManifest) (p : path) : Prop :=
  p = run_image_path paths m
  /\ exists f data h1, (Ev (OpenPath (components p) FileNoFollow) (Ok f) : ev) ∈ h /\ extends h1 h /\ received f h1 = data
       /\ hash_text data = image_sha256 m /\ hash_text data = va_runtime_image_sha256 activation.

Definition runtime_vouched (h : list ev) (r : VerifiedRuntime) : Prop :=
  exists m, manifest_vouched h m /\ image_vouched h m (image r) /\ vr_codex_version r = codex_version m.

Lemma verify_manifest_ok env uid h h' m :
  exec env h (verify_manifest paths uid activation) = (h', Ok m) -> manifest_vouched h' m.
Proof.
  unfold verify_manifest. do 6 (intros (? & [] & _ & Hk)%exec_bind_ok; revert Hk).
  intros (h1 & data & (f & meta & H1 & _ & _ & _ & H2)%read_bounded_file_ok & Hk)%exec_bind_ok.
  apply exec_bind_ok in Hk as (? & m' & [= <- Hm%ok_or_ok] & Hk).
  apply exec_bind_ok in Hk as (? & [] & [-> Hv]%plan_result_ok & Hk).
  apply exec_bind_ok in Hk as (? & [] & [-> Hb]%plan_result_ok & [= <- <-]).
  unfold validate_active_manifest_binding in Hb.
  apply fail_if_ok, orb_false_iff in Hb as [Hd%negb_false_iff%str_eqb_eq Hc%negb_false_iff%str_eqb_eq].
  by exists f, data.
Qed.

Lemma verify_image_ok env fuel uid deadline m h h' p :
  exec env h (verify_image fuel paths uid activation deadline m) = (h', Ok p) -> image_vouched h' m p.
Proof.
  unfold verify_image. intros (? & [] & [-> _]%exec_bail_if & Hk)%exec_bind_ok.
  apply exec_bind_ok in Hk as (? & [] & _ & Hk). apply exec_bind_ok in Hk as (? & meta & _ & Hk).
  apply exec_bind_ok in Hk as (? & [] & [-> _]%exec_bail_if & Hk).
  apply exec_bind_ok in Hk as (h1 & f & H1 & Hk). unfold open_path in H1. prim_ok H1.
  apply exec_bind_ok in Hk as (h2 & magic & H2 & Hk). apply exec_extends_to in H2 as X2. apply read_exactly_ok in H2 as (m1 & -> & [_ A2]).
  apply exec_bind_ok in Hk as (? & [] & [-> _]%exec_bail_if & Hk).
  apply exec_bind_ok in Hk as (h3 & digest & H3 & Hk). apply exec_extends_to in H3 as X3. apply hash_reader_ok in H3 as (m2 & -> & [_ A3]).
  apply exec_bind_ok in Hk as (? & [] & [-> Hd%negb_false_iff%str_eqb_eq]%exec_bail_if & Hk).
  apply exec_bind_ok in Hk as (? & [] & [-> Hi]%plan_result_ok & [= <- <-]).
  unfold validate_runtime_image_binding in Hi. apply fail_if_ok, negb_false_iff, str_eqb_eq in Hi.
  split; [done|]. exists f, (m1 ++ m2), h3. split_and!; [| apply extends_refl | |done..].
  - eapply extends_in; [exact X3|]. eapply extends_in; [exact X2|]. left.
  - rewrite (proj2 (A3 f)), (proj2 (A2 f)).
    rewrite (proj2 (opened_empty f (Ev (OpenPath (components (run_image_path paths m)) FileNoFollow) (Ok f)) _ eq_refl)).
    unfold only. by rewrite !bool_decide_eq_true_2.
Qed.

Lemma manifest_vouched_later h h' m : extends h h' -> manifest_vouched h m -> manifest_vouched h' m.
Proof. intros Hx (f & data & H1 & H2 & Hr). exists f, data. split; [by eapply extends_in|]. split; [by eapply extends_in|done]. Qed.

Lemma image_vouched_later h h' m p : extends h h' -> image_vouched h m p -> image_vouched h' m p.
Proof.
  intros Hx (Hp & f & data & h1 & H1 & X1 & Hr). split; [done|]. exists f, data, h1. split; [by eapply extends_in|].
  split; [by eapply extends_trans|done].
Qed.

Lemma verify_runtime_ok env fuel uid deadline h h' r :
  exec env h (verify_runtime_with_deadline fuel paths uid activation deadline) = (h', Ok r) -> runtime_vouched h' r.
Proof.
  unfold verify_runtime_with_deadline. intros (h1 & [] & _ & Hk)%exec_bind_ok.
  apply exec_bind_ok in Hk as (h2 & m & H2%verify_manifest_ok & Hk). apply exec_bind_ok in Hk as (h3 & p & H3 & Hk).
  apply exec_extends_to in H3 as X3. apply verify_image_ok in H3.
  apply exec_bind_ok in Hk as (h4 & gid & X4%exec_extends_to & [= <- <-]). exists m. cbn [image vr_codex_version].
  split; [eapply manifest_vouched_later; [|exact H2]; by eapply extends_trans|]. split; [by eapply image_vouched_later|done].
Qed.
End paths.
End runtime.

(** ** Preparation *)

Lemma or_failed_ok {A} env h h' (p : fsprog A) a : exec env h (or_failed p) = (h', Ok a) -> exec env h p = (h', Ok a).
Proof. unfold or_failed. rewrite exec_bind. destruct (exec env h p) as [h1 [x|e]]; cbn; congruence. Qed.

Lemma or_unavailable_ok {A} env h h' (p : fsprog A) a : exec env h (or_unavailable p) = (h', Ok a) -> exec env h p = (h', Ok a).
Proof. unfold or_unavailable. rewrite exec_bind. destruct (exec env h p) as [h1 [x|e]]; cbn; congruence. Qed.

Section prepared.
Context {sha : Sha256} {text : JsonText}.

(** A workspace that was taken over at some point after [h]. *)
Definition workspace_ready (request : ExecuteRequest) (gid : N) (h h' : list ev) (w : VerifiedWorkspace) : Prop :=
  exists start held source root before moved,
    extends h start /\ privately_checked CODEX_INPUT_ROOT request gid before held source
    /\ moved_after request start before moved held root /\ extends moved h'
    /\ opened_to_group CODEX_CONSUMED_INPUT_ROOT request gid h' held /\ w = taken_over CODEX_CONSUMED_INPUT_ROOT request held source root.

(** What a plan and its workspace rest on: the activation, then the runtime, then the
    workspace. *)
Definition rests_on (request : ExecuteRequest) (credentials_directory : option path) (h : list ev) (p : PreparedExecution) : Prop :=
  exists directory boot_id activation h1 runtime h2 launcher_unit,
    credentials_directory = Some directory /\ boot_id_credential_path directory = Ok boot_id
    /\ vouches_for (production_for_launcher_with_boot_id boot_id) h1 activation
    /\ extends h1 h2 /\ runtime_vouched default_runtime_paths activation h2 runtime
    /\ validate_launcher_unit launcher_unit = Ok tt
    /\ workspace_ready request (vr_input_gid runtime) h2 h (prepared_workspace p)
    /\ build_transient_run_plan request runtime (vw_path (prepared_workspace p)) (vw_bind_source (prepared_workspace p)) launcher_unit
       = Ok (prepared_plan p).

Lemma current_launcher_unit_ok env h h' u : exec env h current_launcher_unit = (h', Ok u) -> validate_launcher_unit u = Ok tt.
Proof.
  unfold current_launcher_unit. intros (? & f & _ & Hk)%exec_bind_ok. apply exec_bind_ok in Hk as (? & data & _ & Hk).
  apply exec_bind_ok in Hk as (? & cgroup & _ & [_ Hu]%plan_result_ok). unfold parse_launcher_unit in Hu.
  apply seq_ok in Hu as [_ Hu]. apply rbind_ok in Hu as (o & _ & [Hv [= <-]]%then_ok). exact Hv.
Qed.

Lemma ensure_activation_ok env h h' credentials deadline v :
  exec env h (ensure_activation_enabled_with_deadline credentials deadline) = (h', Ok v) -> sound h' ->
  exists directory boot_id, credentials = Some directory /\ boot_id_credential_path directory = Ok boot_id
    /\ vouches_for (production_for_launcher_with_boot_id boot_id) h' v.
Proof.
  unfold ensure_activation_enabled_with_deadline. intros (? & d & [= <- Hd%ok_or_ok] & Hk)%exec_bind_ok Hs.
  apply exec_bind_ok in Hk as (? & b & [-> Hb]%plan_result_ok & Hk). exists d, b. split; [done|]. split; [done|].
  by eapply verify_activation_ok.
Qed.

Lemma or_dropped_ok {A} env h h' stack w (r : result str A) a : exec env h (or_dropped stack w r) = (h', Ok a) -> h' = h /\ r = Ok a.
Proof.
  unfold or_dropped. destruct r as [x|m]; [by intros [= <- <-]|]. rewrite exec_bind. by destruct (exec env h _).
Qed.

(** C29: A run is only planned on verified ground. When a request is prepared, then in this
    order: the activation of the current boot was verified (with the boot identifier the
    service was given as a credential); the active manifest and the image that were read
    have exactly the digests of that activation; the sealed workspace of the run was checked
    while it was private to root, moved out of the published root, opened to the run's group
    file by file and checked again; and the plan was built from that image, that workspace
    and the service's own unit, for a request that satisfies the execution policy. *)
Theorem prepared_run_vouched env fuel stack credentials_directory request source_uid deadline h p :
  exec env [] (prepare_execution fuel stack credentials_directory request source_uid deadline) = (h, Ok p) -> sound h ->
  validate_execution_policy request = Ok tt /\ rests_on request credentials_directory h p.
Proof.
  unfold prepare_execution. intros (h0 & [] & _ & Hk)%exec_bind_ok Hs.
  apply exec_bind_ok in Hk as (h0' & [] & [= <- Hpol]%or_failed_ok & Hk).
  apply exec_bind_ok in Hk as (h1 & activation & H1%or_unavailable_ok & Hk). apply exec_extends_to in Hk as X1.
  apply ensure_activation_ok in H1 as (directory & boot_id & Hc & Hb & Hv); [|by eapply sound_extends].
  apply exec_bind_ok in Hk as (? & [] & [-> _]%or_failed_ok%exec_bail_if & Hk).
  apply exec_bind_ok in Hk as (h2 & runtime & H2%or_unavailable_ok & Hk). apply exec_extends_to in H2 as X2.
  apply verify_runtime_ok in H2. apply exec_bind_ok in Hk as (h3 & u & H3%or_failed_ok & Hk). apply exec_extends_to in H3 as X3.
  apply current_launcher_unit_ok in H3. apply exec_bind_ok in Hk as (h4 & published & H4%or_failed_ok%exec_extends_to & Hk).
  destruct (negb _); [by rewrite exec_bind in Hk|].
  apply exec_bind_ok in Hk as (h5 & w & H5%or_failed_ok & Hk). apply verify_workspace_result in H5 as (held & source & root & before & moved & G1 & G2 & G3 & G4 & ->).
  apply exec_bind_ok in Hk as (h6 & plan & [-> Hp]%or_dropped_ok & [= <- <-]).
  split; [by destruct (validate_execution_policy request) as [[]|]|].
  exists directory, boot_id, activation, h1, runtime, h2, u. split_and!; try done.
  exists h4, held, source, root, before, moved. split_and!; try done. by eapply extends_trans.
Qed.
End prepared.

(** ** A host

    The artifacts of the sample activation, a workspace [r] that holds the file [a], and the
    files and roots of the host. What a path is does not depend on the renames: the pending
    and the quarantined workspace are one object, the published and the consumed one
    another, whose mode is the one that was last set. *)

Inductive place : Type :=
| Above
| Root (inode uid gid mode : N)
| SourceTree
| SourceEvidence
| SealedTree
| SealedEvidence
| Artifact (data : bytes) (mode : N)
| Nowhere.

#[local] Instance place_eq_dec : EqDecision place.
Proof. solve_decision. Defined.

Definition launch_gid_of_sample : N := 7.
Definition input_gid_of_sample : N := 8.

Definition sample_unit : str := lit "webex-codex-launcher@1.service".
Definition sample_credentials : path := lit "/run/credentials/" ++ sample_unit.

Definition sample_host_files : list (list Component * bytes * N) := Eval vm_compute in
  sample_files
  ++ [(components (sample_credentials ++ lit "/activation-boot-id"), sample_boot ++ [10], 256);
      (components ACTIVATION_RECEIPT_PATH, sample_receipt_bytes, 292);
      (components CODEX_AUTH_CREDENTIAL_PATH, lit "{}", 256);
      (components SYSTEMD_RUN_PATH, lit "!", 493);
      (components (lit "/usr/bin/systemctl"), lit "!", 493);
      (components (lit "/etc/group"), lit "webex-codex-launch:x:7:" ++ [10] ++ lit "webex-codex-input:x:8:" ++ [10], 420);
      (components (lit "/etc/passwd"), lit "root:x:0:0:root:/root:/bin/sh" ++ [10], 420);
      (components (lit "/proc/self/cgroup"), lit "0::/system.slice/" ++ sample_unit ++ [10], 292);
      (components (lit "/proc/self/exe"), sample_bytes (lit "launcher"), 493)].

(** The roots of workspaces, with what is below them. *)
Definition sample_roots : list (list Component * place * place * place) := Eval vm_compute in
  [(components CODEX_PENDING_INPUT_ROOT, Root 3 0 launch_gid_of_sample PENDING_ROOT_MODE, SourceTree, SourceEvidence);
   (components CODEX_SOURCE_CONSUMED_INPUT_ROOT, Root 4 0 0 PRIVATE_ROOT_MODE, SourceTree, SourceEvidence);
   (components CODEX_INPUT_ROOT, Root 5 0 input_gid_of_sample SHARED_ROOT_MODE, SealedTree, SealedEvidence);
   (components CODEX_CONSUMED_INPUT_ROOT, Root 6 0 0 PRIVATE_ROOT_MODE, SealedTree, SealedEvidence)].

Definition below_root (root : list Component) (here tree evidence : place) (p : list Component) : place :=
  match drop (length root) p with
  | [] => here
  | [_] => tree
  | [_; Normal name] => if str_eqb name (lit "a") then evidence else Nowhere
  | _ => Nowhere
  end.

Definition place_of (p : list Component) : place :=
  match find (fun r => path_starts_with p (fst (fst (fst r)))) sample_roots with
  | Some (root, here, tree, evidence) => below_root root here tree evidence p
  | None =>
      match find (fun f => bool_decide (fst (fst f) = p)) sample_host_files with
      | Some (_, data, mode) => Artifact data mode
      | None =>
          if any (fun f => path_starts_with (fst (fst f)) p) sample_host_files
             || any (fun r => path_starts_with (fst (fst (fst r))) p) sample_roots
          then Above else Nowhere
      end
  end.

(** The path behind a link of this process to a descriptor. *)
Definition through_proc (at_fd : fd -> list Component) (p : list Component) : list Component :=
  match p with
  | RootDir :: Normal proc :: Normal _ :: Normal held :: Normal f :: rest =>
      if str_eqb proc (lit "proc") && str_eqb held (lit "fd") then
        match parse_unsigned u32_max f with Some f => at_fd f ++ rest | None => p end
      else p
  | _ => p
  end.

Fixpoint path_of (h : list ev) (f : fd) : list Component :=
  match h with
  | [] => []
  | e :: h =>
      if bool_decide (opens e = Some f) then
        match ev_call e with
        | OpenAnchor _ _ => [RootDir]
        | OpenAt d n _ | CreateAt d n _ _ => path_of h d ++ [Normal n]
        | OpenPath p _ => through_proc (path_of h) p
        | Duplicate g => path_of h g
        | _ => []
        end
      else path_of h f
  end.

Fixpoint mode_of_place (h : list ev) (pl : place) (initial : N) : N :=
  match h with
  | [] => initial
  | e :: h =>
      match ev_call e with
      | Fchmod f m => if bool_decide (place_of (path_of h f) = pl) then m else mode_of_place h pl initial
      | _ => mode_of_place h pl initial
      end
  end.

Definition evidence_data : bytes := lit "hello".

Definition stat_place (h : list ev) (p : list Component) : result N StatSnapshot :=
  let node inode mode uid gid size := Ok (mkStat 1 inode mode 1 uid gid size 0 0 0 0) in
  let size := Z.of_N (len evidence_data) in
  match place_of p with
  | Above => node 2 (S_IFDIR + 493) 0 0 0%Z
  | Root inode uid gid mode => node inode (S_IFDIR + mode) uid gid 0%Z
  | SourceTree => node 10 (S_IFDIR + SOURCE_DIRECTORY_MODE) 1000 launch_gid_of_sample 0%Z
  | SourceEvidence => node 11 (S_IFREG + SOURCE_FILE_MODE) 1000 launch_gid_of_sample size
  | SealedTree => node 12 (S_IFDIR + mode_of_place h SealedTree 448) 0 input_gid_of_sample 0%Z
  | SealedEvidence => node 13 (S_IFREG + mode_of_place h SealedEvidence 384) 0 input_gid_of_sample size
  | Artifact data mode => node (100 + len data) (S_IFREG + mode) 0 0 (Z.of_N (len data))
  | Nowhere => Err ENOENT
  end.

Definition data_at (p : list Component) : result N bytes :=
  match place_of p with
  | Artifact data _ => Ok data
  | SourceEvidence | SealedEvidence => Ok evidence_data
  | _ => Err ENOENT
  end.

Definition listing_at (p : list Component) : result N Listing :=
  Ok (mkListing (match place_of p with SourceTree | SealedTree => [lit "."; lit ".."; lit "a"] | _ => [] end) None None).

Definition prepare_host : environment fs_answer :=
  fun h c =>
    match c return fs_answer c with
    | OpenAnchor _ _ | OpenAt _ _ _ | CreateAt _ _ _ _ | OpenPath _ _ | Duplicate _ => Ok (len h)
    | Fstat f => stat_place h (path_of h f)
    | FstatAt d n => stat_place h (path_of h d ++ [Normal n])
    | Lstat p | StatPath p => stat_place h (through_proc (path_of h) p)
    | ListDirectory d => listing_at (path_of h d)
    | ReadDir p => listing_at (through_proc (path_of h) p)
    | ReadFd f limit =>
        match data_at (path_of h f) with
        | Ok data => Ok (take_N limit (drop_N (seal_position (about f h)) data))
        | Err errno => Err errno
        end
    | ReadToEnd f => data_at (path_of h f)
    | Canonicalize _ => Ok (lit "/var/lib/webex-codex-runtime-inputs/ready/r")
    | ReadLink _ => Ok ACTIVATION_LAUNCHER_EXECUTABLE_PATH
    | RandomBytes => Some []
    | Fgetxattr _ _ | Getxattr _ _ => Err ENODATA
    | MkdirAt _ _ _ | UnlinkAt _ _ _ | RenameNoReplace _ _ _ _ | Fchmod _ _ | Fchown _ _ _ | Rewind _ | WriteAll _ _ | Fsync _ | Syncfs _ => Ok tt
    | c => refused c
    end.

Definition sample_request : ExecuteRequest :=
  mkExecuteRequest (lit "r") (lit "m") (lit "p") (lit "/var/lib/webex-codex-runtime-inputs/ready/r") (Some SUPPORTED_MODEL) (Some Xhigh)
    600 4000 true.

#[local] Abbreviation sample_preparation :=
  (exec prepare_host [] (@prepare_execution checksum_sha256 line_text 4 8 (Some sample_credentials) sample_request 1000 (with_cancellation 0 1))).

Lemma prepared_run_vouched_witness :
  match sample_preparation with
  | (h, Ok p) => validate_execution_policy sample_request = Ok tt
      /\ @rests_on checksum_sha256 line_text sample_request (Some sample_credentials) h p
  | (_, Err _) => False
  end.
Proof.
  pose proof (fun h p => @prepared_run_vouched checksum_sha256 line_text prepare_host 4 8 (Some sample_credentials) sample_request 1000
    (with_cancellation 0 1) h p) as T.
  assert (is_ok sample_preparation.2 = true) as Hok by (vm_compute; reflexivity).
  assert (bool_decide (sound sample_preparation.1) = true) as Hs by (vm_compute; reflexivity).
  apply bool_decide_eq_true in Hs. destruct sample_preparation as [h [p|e]]; [|discriminate].
  exact (T h p eq_refl Hs).
Defined.
