(* ===== verification/Runner.v ===== *)
(** * Running Codex

    [src/runner.rs]: the two backends and their dispatcher. The backend of the current user
    starts a child, feeds it the prompt under a time limit and reads its output; the isolated
    backend stages an input, asks the launcher to run, and cleans up. *)

From S2P Require Import Prelude Effects Text Capture Paths Config Policy Descriptors LauncherProtocol LauncherClient IsolatedPlan RunnerInput.

Local Open Scope N_scope.

Record CodexRunOutput : Type := mkRunOutput { final_message : str; run_stdout : str; run_stderr : str }.

Record CodexInvocation : Type := mkInvocation {
  inv_config : CodexConfig;
  inv_prompt : str;
  inv_message_id : str;
  inv_workspace_source : option path
}.

Inductive exit_status : Type := Code (n : Z) | Signal (n : Z).

#[export] Instance exit_status_eq_dec : EqDecision exit_status.
Proof. solve_decision. Defined.

Definition status_success (s : exit_status) : bool := bool_decide (s = Code 0).

Inductive RunnerError : Type :=
| ConfigInvalid (e : CodexError)
| OutputFileFailed
| SpawnFailed
| PromptFailed
| WaitFailed
| RunTimedOut (seconds : N)
| ReaderJoinFailed
| ReaderFailed
| RunExited (status : exit_status) (stderr : str)
| EmptyFinalMessage
| EffortInvalid
| RequestInvalid (e : ProtocolError)
| PreflightFailed (e : LauncherClientError)
| StagingFailed (e : FsError)
| LaunchFailed (e : LauncherClientError)
| CleanupFailed (e : FsError)
| FailedWithCleanup (e : RunnerError) (cleanup : FsError).

(** ** Calls *)

Inductive pipe : Type := ChildStdout | ChildStderr.

(** A step below the time limit of the run: it ends, or the limit comes first. *)
Inductive timed (A : Type) : Type := Done (a : A) | Elapsed.
Arguments Done {A} a.
Arguments Elapsed {A}.

(** What a spawned child gets. *)
Record command : Type := mkCommand { program : str; cmd_args : list bytes; cmd_env : gmap str str }.

Inductive runner_call : Type :=
| TempDir
| SystemNanos
| OwnPid
| CreateDirAll (p : path)
| SetPermissions (p : path) (mode : N)
| CreateNew (p : path)
| RemoveFile (p : path)
| ReadFile (p : path)
| SpawnChild (c : command)
| WritePrompt (data : bytes)
| ShutdownStdin
| WaitInTime
| ChildId
| Kill (target signal : Z)
| WaitBriefly
| KillChild
| WaitChild
| JoinReader (p : pipe)
| Preflight
| StageWorkspace (message_id : str) (source : option path)
| LaunchRun (r : ExecuteRequest)
| CleanupWorkspace.

(** [ReadFile] opens a file and reads it to the end; [JoinReader] waits for the task that read
    a pipe. [StageWorkspace] answers with the run ID. *)
Definition runner_answer (c : runner_call) : Type :=
  match c with
  | TempDir => path
  | SystemNanos | OwnPid => N
  | CreateDirAll _ | SetPermissions _ _ | CreateNew _ | RemoveFile _ | SpawnChild _ => bool
  | ReadFile _ | JoinReader _ => option reads
  | WritePrompt _ => timed bool
  | WaitInTime => timed (option exit_status)
  | ChildId => option N
  | WaitBriefly => bool
  | ShutdownStdin | Kill _ _ | KillChild | WaitChild => unit
  | Preflight => result LauncherClientError unit
  | StageWorkspace _ _ => result FsError str
  | LaunchRun _ => result LauncherClientError CompletedResponse
  | CleanupWorkspace => result FsError unit
  end.

Abbreviation runprog A := (prog runner_answer (result RunnerError A)) (only parsing).

Definition or_else {A} (p : prog runner_answer bool) (e : RunnerError) (k : runprog A) : runprog A :=
  let* ok := p in if ok then k else Ret (Err e).

(** ** The output file *)

Definition is_fragment_char (c : N) : bool := is_ascii_alphanumeric c || (c =? ch "-") || (c =? ch "_").

Definition sanitize_path_fragment (value : str) : str :=
  let sanitized := map (fun c => if is_fragment_char c then c else ch "-") value in
  take_N 80 (trim_matches (N.eqb (ch "-")) sanitized).

Definition output_file_name (pid : N) (message_id : str) (timestamp : N) : str :=
  lit "codex-output-" ++ decimal pid ++ lit "-" ++ sanitize_path_fragment message_id ++ lit "-" ++ decimal timestamp ++ lit ".txt".

Definition output_path (message_id : str) : runprog path :=
  let* temp := (perform TempDir : prog runner_answer path) in
  let dir := path_join temp (lit "webex-generic-account-bot") in
  or_else (perform (CreateDirAll dir)) OutputFileFailed (
  or_else (perform (SetPermissions dir 448)) OutputFileFailed (
  let* timestamp := (perform SystemNanos : prog runner_answer N) in
  let* pid := (perform OwnPid : prog runner_answer N) in
  let p := path_join dir (as_bytes (output_file_name pid message_id timestamp)) in
  or_else (perform (CreateNew p)) OutputFileFailed (
  or_else (perform (SetPermissions p 384)) OutputFileFailed (
  Ret (Ok p))))).

(** ** The child's arguments and environment *)

Definition flag (b : bool) (name : str) : list bytes := if b then [as_bytes name] else [].
Definition valued (name : str) (value : option str) : list bytes :=
  match value with Some v => [as_bytes name; as_bytes v] | None => [] end.

Definition codex_exec_args (config : CodexConfig) (output_path : path) : list bytes :=
  [lit "--ask-for-approval"; as_bytes (approval_policy config); lit "exec"; lit "--color"; lit "never"; lit "--ignore-user-config";
   lit "--ignore-rules"; lit "--sandbox"; as_bytes (sandbox config); lit "--cd"; cwd config; lit "--output-last-message"; output_path]
  ++ flag (cx_skip_git_repo_check config) (lit "--skip-git-repo-check")
  ++ flag (ephemeral config) (lit "--ephemeral")
  ++ valued (lit "--profile") (profile config)
  ++ valued (lit "--model") (cx_model config)
  ++ valued (lit "-c") ((fun effort => lit "model_reasoning_effort=" ++ [34] ++ effort ++ [34]) <$> model_reasoning_effort config)
  ++ [lit "-"].

Definition PASSTHROUGH : list str :=
  [lit "PATH"; lit "HOME"; lit "USER"; lit "LOGNAME"; lit "SHELL"; lit "TMPDIR"; lit "XDG_CACHE_HOME"; lit "XDG_CONFIG_HOME";
   lit "XDG_DATA_HOME"; lit "LANG"; lit "LC_ALL"; lit "SSL_CERT_FILE"; lit "SSL_CERT_DIR"].

(** [vars] is [env::var]. *)
Definition scrubbed_env (vars : str -> option str) : gmap str str :=
  list_to_map (omap (fun key => pair key <$> vars key) PASSTHROUGH).

Definition runner_env (vars : str -> option str) (config : CodexConfig) : gmap str str :=
  <[lit "CODEX_HOME" := from_utf8_lossy (codex_home config)]> (scrubbed_env vars).

(** ** Text of a run *)

Definition capture_limit_bytes (output_limit_chars : N) : N := sat_add (sat_mul (N.max output_limit_chars 1) 4) 1024.

Definition limited_string (value : str) (truncated : bool) : str := if truncated then value ++ truncation_suffix else value.

Definition read_limited_text (max_bytes : N) (chunks : reads) : option str :=
  (fun r => limited_string r.1 r.2) <$> read_limited max_bytes chunks.

Definition normalize_final_message (value : str) (max_chars : N) : result RunnerError str :=
  let trimmed := trim_to_chars (trim value) max_chars in
  fail_if (is_empty (trim trimmed)) EmptyFinalMessage ;? Ok trimmed.

Definition normalize_launcher_message (value : str) (truncated : bool) (max_chars : N) : result RunnerError str :=
  if is_empty (trim value) || negb truncated || (max_chars <=? char_count truncation_suffix)
  then normalize_final_message value max_chars
  else
    let body := take_N (max_chars - char_count truncation_suffix) (trim value) in
    normalize_final_message (body ++ truncation_suffix) max_chars.

(** ** The backend of the current user *)

Definition SIGTERM : Z := 15.
Definition SIGKILL : Z := 9.

(** [-(pid as i32)]. *)
Definition process_group (pid : N) : Z := if pid <? 2 ^ 31 then (- Z.of_N pid)%Z else (2 ^ 32 - Z.of_N pid)%Z.

Definition terminate_child_group : prog runner_answer unit :=
  let finish :=
    let* _ := (perform KillChild : prog runner_answer unit) in
    let* _ := (perform WaitChild : prog runner_answer unit) in
    Ret tt in
  let* id := (perform ChildId : prog runner_answer (option N)) in
  match id with
  | Some pid =>
      let* _ := (perform (Kill (process_group pid) SIGTERM) : prog runner_answer unit) in
      let* ended := (perform WaitBriefly : prog runner_answer bool) in
      if ended then Ret tt
      else
        let* _ := (perform (Kill (process_group pid) SIGKILL) : prog runner_answer unit) in
        finish
  | None => finish
  end.

(** Within the time limit. *)
Definition write_prompt_and_wait (prompt : str) : prog runner_answer (timed (result RunnerError exit_status)) :=
  let* written := (perform (WritePrompt (as_bytes prompt)) : prog runner_answer (timed bool)) in
  match written with
  | Elapsed => Ret Elapsed
  | Done false => Ret (Done (Err PromptFailed))
  | Done true =>
      let* _ := (perform ShutdownStdin : prog runner_answer unit) in
      let* status := (perform WaitInTime : prog runner_answer (timed (option exit_status))) in
      Ret (match status with
           | Elapsed => Elapsed
           | Done status => Done (ok_or status WaitFailed)
           end)
  end.

(** The child is stopped, the readers are awaited and the output file goes. *)
Definition abandon (output : path) : prog runner_answer unit :=
  let* _ := terminate_child_group in
  let* _ := (perform (JoinReader ChildStdout) : prog runner_answer (option reads)) in
  let* _ := (perform (JoinReader ChildStderr) : prog runner_answer (option reads)) in
  let* _ := (perform (RemoveFile output) : prog runner_answer bool) in
  Ret tt.

Definition join_reader (p : pipe) (limit : N) : runprog str :=
  let* joined := (perform (JoinReader p) : prog runner_answer (option reads)) in
  Ret (match joined with
       | None => Err ReaderJoinFailed
       | Some chunks => ok_or (read_limited_text limit chunks) ReaderFailed
       end).

(** After the child ended in time. *)
Definition collect (config : CodexConfig) (output : path) (status : exit_status) : runprog CodexRunOutput :=
  let limit := capture_limit_bytes (cx_output_limit_chars config) in
  let*? stdout := join_reader ChildStdout limit in
  let*? stderr := join_reader ChildStderr limit in
  if negb (status_success status) then
    let* _ := (perform (RemoveFile output) : prog runner_answer bool) in
    Ret (Err (RunExited status (trim_to_chars stderr 2000)))
  else
    let* file := (perform (ReadFile output) : prog runner_answer (option reads)) in
    let text := default stdout (chunks ← file; read_limited_text limit chunks) in
    let* _ := (perform (RemoveFile output) : prog runner_answer bool) in
    let*? text := Ret (normalize_final_message text (cx_output_limit_chars config)) in
    Ret (Ok (mkRunOutput text stdout stderr)).

Definition execute_as_current_user (vars : str -> option str) (inv : CodexInvocation) : runprog CodexRunOutput :=
  let config := inv_config inv in
  let*? output := output_path (inv_message_id inv) in
  or_else (perform (SpawnChild (mkCommand (bin config) (codex_exec_args config output) (runner_env vars config)))) SpawnFailed (
  let* outcome := write_prompt_and_wait (inv_prompt inv) in
  match outcome with
  | Done (Ok status) => collect config output status
  | Done (Err error) => let* _ := abandon output in Ret (Err error)
  | Elapsed => let* _ := abandon output in Ret (Err (RunTimedOut (N.max (cx_timeout_secs config) 1)))
  end).

(** ** The isolated backend *)

Definition parse_reasoning_effort (value : str) : result RunnerError ReasoningEffort :=
  if str_eqb value (lit "minimal") then Ok Minimal
  else if str_eqb value (lit "low") then Ok Low
  else if str_eqb value (lit "medium") then Ok Medium
  else if str_eqb value (lit "high") then Ok High
  else if str_eqb value (lit "xhigh") then Ok Xhigh
  else Err EffortInvalid.

Definition parse_effort_option (effort : option str) : result RunnerError (option ReasoningEffort) :=
  match effort with
  | None => Ok None
  | Some value => let? e := parse_reasoning_effort value in Ok (Some e)
  end.

Definition ephemeral_execute_request (config : CodexConfig) (prompt message_id run_id : str) : result RunnerError ExecuteRequest :=
  let? reasoning_effort := parse_effort_option (model_reasoning_effort config) in
  let request := mkExecuteRequest run_id message_id prompt (path_join CODEX_INPUT_ROOT (as_bytes run_id)) (cx_model config) reasoning_effort
                   (cx_timeout_secs config) (cx_output_limit_chars config) (cx_skip_git_repo_check config) in
  map_err RequestInvalid (validate_execute request) ;?
  Ok request.

Definition finalise_ephemeral_execution {A} (execution : result RunnerError A) (cleanup : result FsError unit) : result RunnerError A :=
  match execution, cleanup with
  | Ok output, Ok _ => Ok output
  | Err error, Ok _ => Err error
  | Ok _, Err cleanup_error => Err (CleanupFailed cleanup_error)
  | Err error, Err cleanup_error => Err (FailedWithCleanup error cleanup_error)
  end.

(** The run below the staged workspace. *)
Definition launch_run (inv : CodexInvocation) (run_id : str) : runprog str :=
  let*? request := Ret (ephemeral_execute_request (inv_config inv) (inv_prompt inv) (inv_message_id inv) run_id) in
  let* completed := (perform (LaunchRun request) : prog runner_answer (result LauncherClientError CompletedResponse)) in
  match completed with
  | Err e => Ret (Err (LaunchFailed e))
  | Ok completed => Ret (normalize_launcher_message (output completed) (truncated completed) (cx_output_limit_chars (inv_config inv)))
  end.

Definition execute_isolated (inv : CodexInvocation) : runprog CodexRunOutput :=
  let* ready := (perform Preflight : prog runner_answer (result LauncherClientError unit)) in
  match ready with
  | Err e => Ret (Err (PreflightFailed e))
  | Ok _ =>
      let* pending := (perform (StageWorkspace (inv_message_id inv) (inv_workspace_source inv)) : prog runner_answer (result FsError str)) in
      match pending with
      | Err e => Ret (Err (StagingFailed e))
      | Ok run_id =>
          let* execution := launch_run inv run_id in
          let* cleanup := (perform CleanupWorkspace : prog runner_answer (result FsError unit)) in
          let*? text := Ret (finalise_ephemeral_execution execution cleanup) in
          Ret (Ok (mkRunOutput text [] []))
      end
  end.

(** ** The dispatcher *)

Definition run_with_workspace (vars : str -> option str) (config : CodexConfig) (prompt message_id : str) (workspace_source : option path)
  : runprog CodexRunOutput :=
  let*? _ := Ret (map_err ConfigInvalid (validate_codex config)) in
  let inv := mkInvocation config prompt message_id workspace_source in
  match mode (isolation config) with
  | CurrentUser => execute_as_current_user vars inv
  | EphemeralLinuxUser => execute_isolated inv
  end.

Definition run (vars : str -> option str) (config : CodexConfig) (prompt message_id : str) : runprog CodexRunOutput :=
  run_with_workspace vars config prompt message_id None.
