(* ===== verification/RunnerRules.v ===== *)
(** * What running Codex guarantees

    Each backend makes only its own calls; a child gets a scrubbed environment, read-only
    sandbox arguments and the prompt on its standard input, and is reaped; a staged input is
    always cleaned up. *)

From S2P Require Import Prelude Effects Text Capture Paths Config Policy Descriptors LauncherProtocol LauncherClient IsolatedPlan RunnerInput Runner.

Local Open Scope N_scope.

Abbreviation ev := (event runner_answer) (only parsing).

(** ** Text *)

Lemma normalize_final_ok value max_chars text :
  normalize_final_message value max_chars = Ok text ->
  trim text <> [] /\ text = trim_to_chars (trim value) max_chars.
Proof.
  unfold normalize_final_message. rewrite then_ok, fail_if_ok, is_empty_false. by intros [? [= <-]].
Qed.

Lemma normalize_final_bounded value max_chars text :
  normalize_final_message value max_chars = Ok text -> char_count text <= N.max max_chars 1 + char_count truncation_suffix.
Proof. intros [_ ->]%normalize_final_ok. apply trim_to_chars_count. Qed.

(** What a launcher's answer becomes: blank never passes, and the limit holds up to the mark. *)
Lemma normalize_launcher_bounded value cut max_chars text :
  normalize_launcher_message value cut max_chars = Ok text ->
  trim text <> [] /\ char_count text <= N.max max_chars 1 + char_count truncation_suffix.
Proof.
  unfold normalize_launcher_message. destruct (_ || _); intros H;
    (split; [by eapply normalize_final_ok|by eapply normalize_final_bounded]).
Qed.

(** ** The child's environment *)

Lemma scrubbed_env_spec vars key value :
  scrubbed_env vars !! key = Some value <-> key ∈ PASSTHROUGH /\ vars key = Some value.
Proof.
  unfold scrubbed_env. assert (NoDup (fst <$> omap (fun k => pair k <$> vars k) PASSTHROUGH)) as Hn.
  { assert (NoDup PASSTHROUGH) as Hp by (apply (bool_decide_unpack _); vm_compute; exact I).
    revert Hp. generalize PASSTHROUGH as keys. induction keys as [|k keys IH]; cbn; intros Hp; [constructor|].
    apply NoDup_cons in Hp as [Hk Hp]. specialize (IH Hp). destruct (vars k) eqn:E; cbn; [|done]. constructor; [|done].
    intros (x & Hx & Hin)%list_elem_of_fmap. apply list_elem_of_omap in Hin as (k' & Hk' & Ho).
    destruct (vars k') eqn:E'; cbn in Ho; [|done]. injection Ho as <-. cbn in Hx. by subst. }
  rewrite <-(elem_of_list_to_map _ _ _ Hn), list_elem_of_omap. split.
  - intros (k & Hk & Ho). destruct (vars k) eqn:E; cbn in Ho; [|done]. injection Ho as <- <-. done.
  - intros [Hk Hv]. exists key. split; [done|]. by rewrite Hv.
Qed.

Definition allowed_variable (vars : str -> option str) (config : CodexConfig) (key value : str) : Prop :=
  (key = lit "CODEX_HOME" /\ value = from_utf8_lossy (codex_home config)) \/ (key ∈ PASSTHROUGH /\ vars key = Some value).

Lemma runner_env_spec vars config key value :
  runner_env vars config !! key = Some value <-> allowed_variable vars config key value.
Proof.
  unfold runner_env, allowed_variable. rewrite lookup_insert_Some, scrubbed_env_spec. split.
  - intros [[<- <-]|[_ ?]]; [by left|by right].
  - intros [[-> ->]|[Hk Hv]]; [by left|]. right. split; [|done]. intros <-. revert Hk. apply (bool_decide_unpack _). vm_compute. exact I.
Qed.

(** ** The backend of the current user *)

Section local_run.
Context (vars : str -> option str) (inv : CodexInvocation).

#[local] Abbreviation config := (inv_config inv).

(** A private file this run made. *)
Definition own_file (h : list ev) (p : path) : Prop :=
  (Ev (CreateNew p) true : ev) ∈ h.

Definition private_file (h : list ev) (p : path) : Prop :=
  own_file h p /\ (Ev (SetPermissions p 384) true : ev) ∈ h.

(** The child that is started: without asking, without user configuration or rules, in the
    configured sandbox, with the prompt on its standard input and nothing of it among the
    arguments, and with allowed variables only. *)
Definition confined_command (h : list ev) (c : command) : Prop :=
  program c = bin config
  /\ (exists output rest, private_file h output /\
        cmd_args c = [lit "--ask-for-approval"; as_bytes (approval_policy config); lit "exec"; lit "--color"; lit "never";
                      lit "--ignore-user-config"; lit "--ignore-rules"; lit "--sandbox"; as_bytes (sandbox config); lit "--cd"; cwd config;
                      lit "--output-last-message"; output] ++ rest ++ [lit "-"])
  /\ forall key value, cmd_env c !! key = Some value -> allowed_variable vars config key value.

Definition is_spawn (c : runner_call) : bool := match c with SpawnChild _ => true | _ => false end.

Definition is_kill (c : runner_call) : bool := match c with Kill _ _ => true | _ => false end.

Definition spawns (h : list ev) : bool := any (fun e => is_spawn (ev_call e)) h.

Definition kills (h : list ev) : bool := any (fun e => is_kill (ev_call e)) h.

Definition child_started (h : list ev) : Prop := exists c, (Ev (SpawnChild c) true : ev) ∈ h.

(** An event that started a child. *)
Definition started_event (e : ev) : bool :=
  match e with
  | Ev c a => match c return runner_answer c -> bool with SpawnChild _ => fun b => b | _ => fun _ => false end a
  end.

Definition local_calls (h : list ev) (c : runner_call) : Prop :=
  match c with
  | SpawnChild cmd => spawns h = false /\ confined_command h cmd
  | WritePrompt data => data = as_bytes (inv_prompt inv) /\ child_started h
  | Kill target _ => child_started h /\ exists pid, (Ev ChildId (Some pid) : ev) ∈ h /\ target = process_group pid
  | RemoveFile p | ReadFile p => own_file h p
  | Preflight | StageWorkspace _ _ | LaunchRun _ | CleanupWorkspace => False
  | _ => True
  end.

(** The child was waited for. *)
Definition reaped (h : list ev) : Prop :=
  (exists status, (Ev WaitInTime (Done (Some status)) : ev) ∈ h) \/ (Ev WaitBriefly true : ev) ∈ h \/ (Ev WaitChild tt : ev) ∈ h.

Definition removed (h : list ev) : Prop := exists p b, private_file h p /\ (Ev (RemoveFile p) b : ev) ∈ h.

Definition local_end (h : list ev) (r : result RunnerError CodexRunOutput) : Prop :=
  (child_started h -> reaped h /\ (r <> Err ReaderJoinFailed -> r <> Err ReaderFailed -> removed h))
  /\ forall out, r = Ok out ->
       (Ev WaitInTime (Done (Some (Code 0))) : ev) ∈ h /\ kills h = false
       /\ trim (final_message out) <> [] /\ char_count (final_message out) <= N.max (cx_output_limit_chars config) 1 + char_count truncation_suffix.

Lemma codex_exec_args_shape output :
  exists rest, codex_exec_args config output =
    [lit "--ask-for-approval"; as_bytes (approval_policy config); lit "exec"; lit "--color"; lit "never"; lit "--ignore-user-config";
     lit "--ignore-rules"; lit "--sandbox"; as_bytes (sandbox config); lit "--cd"; cwd config; lit "--output-last-message"; output]
    ++ rest ++ [lit "-"].
Proof.
  eexists. unfold codex_exec_args. f_equal. rewrite !app_assoc. f_equal.
Qed.

(** Calls before the child: nothing is started, and no signal sent. *)
Definition quiet_call (c : runner_call) : bool :=
  match c with SpawnChild _ | Kill _ _ | WaitInTime | WaitBriefly | WaitChild | RemoveFile _ => false | _ => true end.

Definition preparing (h : list ev) : Prop := forall e, e ∈ h -> quiet_call (ev_call e) = true.

Lemma preparing_cons e h : preparing h -> quiet_call (ev_call e) = true -> preparing (e :: h).
Proof. intros Hh He x [->|Hx]%elem_of_cons; auto. Qed.

Lemma preparing_none kind h : preparing h -> (forall c, quiet_call c = true -> kind c = false) -> any (fun e : ev => kind (ev_call e)) h = false.
Proof.
  intros Hh Hk. apply not_true_iff_false. intros Hs. apply any_true in Hs as (e & Hin & He). apply Hh, Hk in Hin. congruence.
Qed.

Lemma preparing_spawns h : preparing h -> spawns h = false.
Proof. intros Hh. apply (preparing_none is_spawn _ Hh). by intros []. Qed.

Lemma preparing_kills h : preparing h -> kills h = false.
Proof. intros Hh. apply (preparing_none is_kill _ Hh). by intros []. Qed.

Lemma kills_cons e h : is_kill (ev_call e) = false -> kills (e :: h) = kills h.
Proof. intros He. unfold kills, any. cbn. by rewrite He. Qed.

Lemma output_path_rule h : preparing h ->
  wp local_calls (output_path (inv_message_id inv)) (fun h' r => preparing h' /\ r <> Err SpawnFailed /\ forall p, r = Ok p -> private_file h' p) h.
Proof.
  intros Hh. unfold output_path, or_else. rewrite wp_bind. cbn [perform wp]. split; [done|]. intros temp.
  pose proof (preparing_cons (Ev TempDir temp) h Hh eq_refl) as H1. set (h1 := _ :: h) in *. clearbody h1.
  set (dir := path_join temp _). rewrite wp_bind. cbn [perform wp]. split; [done|]. intros made.
  pose proof (preparing_cons (Ev (CreateDirAll dir) made) h1 H1 eq_refl) as H2. destruct made; [|by split_and!].
  rewrite wp_bind. cbn [perform wp]. split; [done|]. intros set_.
  pose proof (preparing_cons (Ev (SetPermissions dir 448) set_) _ H2 eq_refl) as H3. destruct set_; [|by split_and!].
  rewrite wp_bind. cbn [perform wp]. split; [done|]. intros nanos. rewrite wp_bind. cbn [perform wp]. split; [done|]. intros pid.
  set (p := path_join dir _). rewrite wp_bind. cbn [perform wp]. split; [done|]. intros created.
  pose proof (preparing_cons (Ev (CreateNew p) created) _ (preparing_cons (Ev OwnPid pid) _ (preparing_cons (Ev SystemNanos nanos) _ H3 eq_refl) eq_refl) eq_refl) as H4.
  destruct created; [|by split_and!]. rewrite wp_bind. cbn [perform wp]. split; [done|]. intros private.
  pose proof (preparing_cons (Ev (SetPermissions p 384) private) _ H4 eq_refl) as H5. destruct private; cbn [wp]; [|by split_and!].
  split; [done|]. split; [done|]. intros p' [= <-]. split; [by right; left|by left].
Qed.

Lemma private_extends h h' p : extends h h' -> private_file h p -> private_file h' p.
Proof. intros Hx [? ?]. split; by eapply extends_in. Qed.

Lemma child_extends h h' : extends h h' -> child_started h -> child_started h'.
Proof. intros Hx (c & ?). exists c. by eapply extends_in. Qed.

Lemma terminate_group_rule h : child_started h ->
  wp local_calls terminate_child_group (fun h' _ => extends h h' /\ reaped h') h.
Proof.
  intros Hc. unfold terminate_child_group.
  assert (forall h1, extends h h1 -> wp local_calls
    (let* _ := (perform KillChild : prog runner_answer unit) in let* _ := (perform WaitChild : prog runner_answer unit) in Ret tt)
    (fun h' _ => extends h h' /\ reaped h') h1) as Hfinish.
  { intros h1 Hx. cbn. split; [done|]. intros []. split; [done|]. intros []. split; [auto with trace|]. right; right. by left. }
  rewrite wp_bind. cbn [perform wp]. split; [done|]. intros [pid|]; [|apply Hfinish; auto with trace].
  rewrite wp_bind. cbn [perform wp]. split.
  { split; [by eapply child_extends; [|exact Hc]; auto with trace|]. exists pid. split; [by left|done]. }
  intros []. rewrite wp_bind. cbn [perform wp]. split; [done|]. intros [|]; cbn [wp].
  - split; [auto with trace|]. right; left. by left.
  - rewrite wp_bind. cbn [perform wp]. split.
    { split; [by eapply child_extends; [|exact Hc]; auto with trace|]. exists pid. split; [|done]. do 2 right. by left. }
    intros []. apply Hfinish. auto 10 with trace.
Qed.

Lemma abandon_rule h p : child_started h -> private_file h p ->
  wp local_calls (abandon p) (fun h' _ => extends h h' /\ reaped h' /\ removed h') h.
Proof.
  intros Hc Hp. unfold abandon. rewrite wp_bind. eapply wp_consequence; [by apply terminate_group_rule|]. intros h1 [] [Hx Hr].
  assert (private_file h1 p) as Hp1 by (by eapply private_extends).
  cbn. split; [done|]. intros out. split; [done|]. intros err. split; [by do 2 right; apply Hp1|]. intros b.
  split; [auto 10 with trace|]. split.
  - destruct Hr as [(s & Hr)|[Hr|Hr]]; [left; exists s|right; left|right; right]; by do 3 right.
  - exists p, b. split; [eapply private_extends; [|exact Hp1]; auto 10 with trace|by left].
Qed.

Lemma collect_rule h p status : child_started h -> private_file h p -> (Ev WaitInTime (Done (Some status)) : ev) ∈ h -> kills h = false ->
  wp local_calls (collect config p status) (fun h' r => local_end h' r) h.
Proof.
  intros Hc Hp Hw Hk. unfold collect, join_reader.
  assert (forall h' r, extends h h' -> (r = Err ReaderJoinFailed \/ r = Err ReaderFailed) -> local_end h' r) as Hread.
  { intros h' r Hx Hr. split; [|destruct Hr as [->| ->]; discriminate]. intros _.
    split; [left; exists status; by eapply extends_in|]. destruct Hr as [->| ->]; congruence. }
  assert (forall h' b r, extends h h' -> (Ev (RemoveFile p) b : ev) ∈ h' ->
    (forall out, r = Ok out -> status = Code 0 /\ kills h' = false /\ trim (final_message out) <> []
       /\ char_count (final_message out) <= N.max (cx_output_limit_chars config) 1 + char_count truncation_suffix) -> local_end h' r) as Hend.
  { intros h' b r Hx Hr Ho. split.
    - intros _. split; [left; exists status; by eapply extends_in|]. intros _ _. exists p, b. split; [by eapply private_extends|done].
    - intros out ->. destruct (Ho out eq_refl) as (-> & ?). split; [by eapply extends_in|done]. }
  rewrite wp_bind_ok, wp_bind. cbn [perform wp]. split; [done|]. intros out. cbn [wp].
  destruct out as [chunks|]; [|apply Hread; auto with trace].
  destruct (read_limited_text _ chunks) as [stdout|]; cbn [ok_or]; [|apply Hread; auto with trace].
  rewrite wp_bind_ok, wp_bind. cbn [perform wp]. split; [done|]. intros err. cbn [wp].
  destruct err as [chunks'|]; [|apply Hread; auto with trace].
  destruct (read_limited_text _ chunks') as [stderr|]; cbn [ok_or]; [|apply Hread; auto with trace].
  assert (own_file h p) as Hown by apply Hp.
  destruct (status_success status) eqn:Es; cbn [negb].
  - apply bool_decide_eq_true in Es as ->. rewrite wp_bind. cbn [perform wp]. split; [by do 2 right|]. intros file.
    rewrite wp_bind. cbn [perform wp]. split; [by do 3 right|]. intros b. rewrite wp_bind_ok. cbn [wp].
    destruct (normalize_final_message _ _) as [text|e] eqn:En; cbn [wp].
    + eapply Hend; [auto 10 with trace|by left|]. intros x [= <-]. cbn [final_message]. split; [done|].
      split; [by rewrite !kills_cons|]. split; [by eapply normalize_final_ok|by eapply normalize_final_bounded].
    + eapply Hend; [auto 10 with trace|by left|discriminate].
  - rewrite wp_bind. cbn [perform wp]. split; [by do 2 right|]. intros b.
    eapply Hend; [auto 10 with trace|by left|discriminate].
Qed.

Lemma execute_local_rule : wp local_calls (execute_as_current_user vars inv) local_end [].
Proof.
  unfold execute_as_current_user, or_else, write_prompt_and_wait. rewrite wp_bind_ok.
  eapply wp_consequence; [apply output_path_rule; by intros e ?%not_elem_of_nil|]. intros h r (Hh & _ & Hp).
  assert (forall h' (r : result RunnerError CodexRunOutput), ~ child_started h' -> is_ok r = false -> local_end h' r) as Hnone.
  { intros h' r' Hn Hr. split; [done|]. intros out ->. done. }
  assert (~ child_started h) as Hnc.
  { intros (c & Hin). apply Hh in Hin. done. }
  destruct r as [output|e]; cbn [wp]; [|by apply Hnone]. specialize (Hp _ eq_refl).
  rewrite wp_bind. cbn [perform wp]. set (cmd := mkCommand _ _ _). split.
  { split; [by apply preparing_spawns|]. split; [done|]. split.
    - destruct (codex_exec_args_shape output) as (rest & Hr). exists output, rest. by split.
    - intros key value. apply runner_env_spec. }
  intros started. destruct started; cbn [wp].
  2: { apply Hnone; [|done]. intros (c & Hin). apply elem_of_cons in Hin as [He|Hin]; [|apply Hnc; by exists c].
       by apply (f_equal started_event) in He. }
  set (h1 := Ev (SpawnChild cmd) true :: h). assert (child_started h1) as Hc by (exists cmd; by left).
  assert (private_file h1 output) as Hp1 by (eapply private_extends; [|exact Hp]; unfold h1; auto with trace).
  assert (kills h1 = false) as Hk by (unfold h1; rewrite kills_cons by done; by apply preparing_kills).
  assert (forall h2 e, extends h1 h2 ->
    wp local_calls (let* _ := abandon output in Ret (Err e)) local_end h2) as Habandon.
  { intros h2 e Hx. rewrite wp_bind. eapply wp_consequence; [apply (abandon_rule _ output)|].
    - by eapply child_extends.
    - by eapply private_extends.
    - intros h3 [] (Hx3 & Hr & Hm). split; [done|]. discriminate. }
  clearbody h1. rewrite !wp_bind. cbn [perform wp]. split; [done|]. intros [[|]|]; cbn [wp]; [|apply Habandon; auto with trace..].
  rewrite wp_bind. cbn [perform wp]. split; [done|]. intros []. rewrite wp_bind. cbn [perform wp]. split; [done|].
  intros [[status|]|]; cbn [wp ok_or]; [|apply Habandon; auto with trace..].
  apply collect_rule.
  - eapply child_extends; [|exact Hc]. auto with trace.
  - eapply private_extends; [|exact Hp1]. auto with trace.
  - by left.
  - by rewrite !kills_cons.
Qed.
End local_run.

(** ** The isolated backend *)

Section isolated_run.
Context (inv : CodexInvocation).

(** Everything that touches the host as the current user. *)
Definition is_local (c : runner_call) : bool :=
  match c with
  | Preflight | StageWorkspace _ _ | LaunchRun _ | CleanupWorkspace => false
  | _ => true
  end.

(** One preflight, then one staging, then at most one run and one clean-up. *)
Definition isolated_calls (h : list ev) (c : runner_call) : Prop :=
  match c with
  | Preflight => h = []
  | StageWorkspace id source => h = [Ev Preflight (Ok tt)] /\ id = inv_message_id inv /\ source = inv_workspace_source inv
  | LaunchRun r => exists run_id,
      h = [Ev (StageWorkspace (inv_message_id inv) (inv_workspace_source inv)) (Ok run_id); Ev Preflight (Ok tt)]
      /\ run_id = LauncherProtocol.run_id r /\ validate_execute r = Ok tt /\ prompt r = inv_prompt inv
      /\ workspace r = path_join CODEX_INPUT_ROOT (as_bytes run_id) /\ model r = cx_model (inv_config inv)
  | CleanupWorkspace => exists t run_id,
      h = t ++ [Ev (StageWorkspace (inv_message_id inv) (inv_workspace_source inv)) (Ok run_id); Ev Preflight (Ok tt)]
      /\ forall e, e ∈ t -> ev_call e <> CleanupWorkspace
  | _ => False
  end.

Definition staged (h : list ev) : Prop := exists id source run_id, (Ev (StageWorkspace id source) (Ok run_id) : ev) ∈ h.

(** The last call cleaned up, if anything was staged; an answer is the launcher's, normalised. *)
Definition isolated_end (h : list ev) (r : result RunnerError CodexRunOutput) : Prop :=
  (staged h -> exists c h', h = Ev CleanupWorkspace c :: h')
  /\ forall out, r = Ok out ->
       run_stdout out = [] /\ run_stderr out = [] /\ (exists h', h = Ev CleanupWorkspace (Ok tt) :: h')
       /\ exists request completed, (Ev (LaunchRun request) (Ok completed) : ev) ∈ h
          /\ normalize_launcher_message (output completed) (truncated completed) (cx_output_limit_chars (inv_config inv)) = Ok (final_message out).

Lemma request_ok message_prompt id run_id r :
  ephemeral_execute_request (inv_config inv) message_prompt id run_id = Ok r ->
  LauncherProtocol.run_id r = run_id /\ validate_execute r = Ok tt /\ prompt r = message_prompt
  /\ workspace r = path_join CODEX_INPUT_ROOT (as_bytes run_id) /\ model r = cx_model (inv_config inv).
Proof.
  unfold ephemeral_execute_request. intros (effort & _ & Hk)%rbind_ok. apply then_ok in Hk as [Hv [= <-]]. cbn.
  split_and!; try done. by destruct (validate_execute _) as [[]|].
Qed.

Lemma execute_isolated_rule : wp isolated_calls (execute_isolated inv) isolated_end [].
Proof.
  assert (forall h e, ~ staged h -> isolated_end h (Err e)) as Hnone by (intros h e Hn; by split).
  unfold execute_isolated. rewrite wp_bind. cbn [perform wp]. split; [done|]. intros [[]|e]; cbn [wp].
  2: { apply Hnone. intros (? & ? & ? & Hin). by apply list_elem_of_singleton in Hin. }
  rewrite wp_bind. cbn [perform wp]. split; [done|]. intros [run_id|e]; cbn [wp].
  2: { apply Hnone. intros (id & src & rid & Hin). apply elem_of_cons in Hin as [He|Hin]; [|by apply list_elem_of_singleton in Hin].
       by apply (f_equal (fun e : ev => match e with Ev c a => match c return runner_answer c -> bool with StageWorkspace _ _ => fun r => is_ok r | _ => fun _ => false end a end)) in He. }
  set (h := [Ev (StageWorkspace _ _) (Ok run_id); _] : list ev) in *.
  rewrite wp_bind. eapply (wp_consequence _ _ (fun h' r =>
    exists t, h' = t ++ h /\ (forall e, e ∈ t -> ev_call e <> CleanupWorkspace) /\
      forall text, r = Ok text -> exists request completed, (Ev (LaunchRun request) (Ok completed) : ev) ∈ h'
          /\ normalize_launcher_message (output completed) (truncated completed) (cx_output_limit_chars (inv_config inv)) = Ok text)).
  - unfold launch_run. rewrite wp_bind_ok. cbn [wp].
    destruct (ephemeral_execute_request _ _ _ _) as [request|e] eqn:Er; cbn [wp];
      [|by exists []; split; [|split; [intros ? ?%not_elem_of_nil|]]].
    apply request_ok in Er as (H1 & H2 & H3 & H4 & H5). rewrite wp_bind. cbn [perform wp]. split; [exists run_id; by rewrite H1|].
    intros [completed|e]; cbn [wp]; (eexists [_]; split; [reflexivity|split; [by intros ? ->%list_elem_of_singleton|]]); [|done].
    intros text Ht. exists request, completed. split; [by left|done].
  - intros h' r (t & -> & Ht & Hr). rewrite wp_bind. cbn [perform wp]. split; [by exists t, run_id|]. intros c. rewrite wp_bind_ok. cbn [wp].
    destruct r as [text|e], c as [[]|x]; cbn [finalise_ephemeral_execution wp]; (split; [by intros _; eexists _, _|]); try discriminate.
    intros out [= <-]. cbn. split_and!; [done|done|by eexists|]. destruct (Hr _ eq_refl) as (request & completed & Hin & Hn).
    exists request, completed. split; [by right|done].
Qed.
End isolated_run.


(** ** A file that stays *)

Lemma collect_not_spawn config output status h :
  wp (fun _ _ => True) (collect config output status) (fun _ r => r <> Err SpawnFailed) h.
Proof.
  unfold collect, join_reader. rewrite wp_bind_ok, wp_bind. cbn [perform wp]. split; [done|]. intros [c1|]; cbn [wp]; [|discriminate].
  destruct (read_limited_text _ c1); cbn [ok_or wp]; [|discriminate].
  rewrite wp_bind_ok, wp_bind. cbn [perform wp]. split; [done|]. intros [c2|]; cbn [wp]; [|discriminate].
  destruct (read_limited_text _ c2); cbn [ok_or wp]; [|discriminate].
  destruct (negb _); rewrite wp_bind; cbn [perform wp]; (split; [done|]); intros x; [discriminate|].
  rewrite wp_bind. cbn [perform wp]. split; [done|]. intros b. rewrite wp_bind_ok. cbn [wp].
  destruct (normalize_final_message _ _) as [|e] eqn:En; cbn [wp]; [discriminate|].
  unfold normalize_final_message in En. destruct (is_empty _); cbn in En; [by injection En as <-|discriminate].
Qed.

(** When the child cannot be started, its output file stays. Whatever the host answers
    otherwise, a run that fails to spawn its child has made a private file and has not tried
    to remove it. *)
Theorem failed_spawn_leaves_file env vars inv :
  let (h, r) := exec env [] (execute_as_current_user vars inv) in
  r = Err SpawnFailed -> exists p, private_file h p /\ forall b, ~ (Ev (RemoveFile p) b : ev) ∈ h.
Proof.
  assert (wp (fun _ _ => True) (execute_as_current_user vars inv)
    (fun h r => r = Err SpawnFailed -> exists p, private_file h p /\ forall b, ~ (Ev (RemoveFile p) b : ev) ∈ h) []) as Hw.
  { unfold execute_as_current_user, or_else, write_prompt_and_wait. rewrite wp_bind_ok. eapply wp_mono.
    { apply (output_path_rule vars inv). by intros e ?%not_elem_of_nil. } { done. }
    intros h r (Hh & Hne & Hp). destruct r as [output|e]; cbn [wp]; [|intros [= ->]; by destruct Hne].
    rewrite wp_bind. cbn [perform wp]. split; [done|]. intros [|]; cbn [wp].
    - assert (forall h2 e, e <> SpawnFailed -> wp (fun _ _ => True) (let* _ := abandon output in Ret (Err e : result RunnerError CodexRunOutput))
        (fun h r => r = Err SpawnFailed -> exists p, private_file h p /\ forall b, ~ (Ev (RemoveFile p) b : ev) ∈ h) h2) as Ha.
      { intros h2 e He. rewrite wp_bind. eapply wp_consequence; [apply wp_any|]. intros h3 [] _. cbn. congruence. }
      rewrite !wp_bind. cbn [perform wp]. split; [done|]. intros [[|]|]; cbn [wp]; [|by apply Ha..].
      rewrite wp_bind. cbn [perform wp]. split; [done|]. intros []. rewrite wp_bind. cbn [perform wp]. split; [done|].
      intros [[status|]|]; cbn [wp ok_or]; [|by apply Ha..].
      eapply wp_consequence; [apply collect_not_spawn|]. intros h2 r Hr ->. by destruct Hr.
    - intros _. exists output. split; [eapply private_extends; [|by apply Hp]; auto with trace|].
      intros b [He|Hin]%elem_of_cons; [done|]. by apply Hh in Hin. }
  pose proof (wp_exec _ _ _ env [] Hw I) as [_ He]. by destruct (exec env [] _).
Qed.

(** A host without the executable. *)
Definition bare_host : environment runner_answer := fun _ c =>
  match c return runner_answer c with
  | TempDir => lit "/tmp"
  | SystemNanos | OwnPid => 7
  | CreateDirAll _ | SetPermissions _ _ | CreateNew _ | RemoveFile _ => true
  | SpawnChild _ => false
  | ReadFile _ | JoinReader _ => None
  | WritePrompt _ => Elapsed
  | WaitInTime => Elapsed
  | ChildId => None
  | WaitBriefly => false
  | ShutdownStdin | Kill _ _ | KillChild | WaitChild => tt
  | Preflight => Ok tt
  | StageWorkspace _ _ => Ok (lit "run-1")
  | LaunchRun _ => Err ConnectionFailed
  | CleanupWorkspace => Ok tt
  end.

Definition sample_invocation : CodexInvocation := mkInvocation default_CodexConfig (lit "why?") (lit "m/1") None.

Definition sample_spawn_failure : list ev * result RunnerError CodexRunOutput :=
  exec bare_host [] (execute_as_current_user (fun _ => None) sample_invocation).

Lemma failed_spawn_leaves_file_witness :
  sample_spawn_failure.2 = Err SpawnFailed
  /\ (exists p, private_file sample_spawn_failure.1 p /\ forall b, ~ (Ev (RemoveFile p) b : ev) ∈ sample_spawn_failure.1).
Proof.
  pose proof (failed_spawn_leaves_file bare_host (fun _ => None) sample_invocation) as T.
  change (exec bare_host [] _) with sample_spawn_failure in T.
  assert (sample_spawn_failure.2 = Err SpawnFailed) as Hr by (vm_compute; reflexivity).
  split; [exact Hr|]. destruct sample_spawn_failure as [h r]. exact (T Hr).
Defined.

(** ** The name of the output file *)

(** Only harmless characters of a message ID reach the file name. *)
Lemma sanitize_fragment_safe value :
  Forall (fun c => is_fragment_char c = true) (sanitize_path_fragment value) /\ len (sanitize_path_fragment value) <= 80.
Proof.
  unfold sanitize_path_fragment. set (mapped := map _ value).
  assert (Forall (fun c => is_fragment_char c = true) mapped) as Hm.
  { unfold mapped. apply List.Forall_forall. intros c (x & <- & _)%List.in_map_iff. destruct (is_fragment_char x) eqn:E; [done|reflexivity]. }
  split; [|rewrite len_take_N; lia]. apply Forall_take_N. by apply trim_matches_Forall.
Qed.
