(* ===== verification/JenkinsHelper.v ===== *)
(** * The Jenkins helper of [src/main.rs]

    The directory a helper writes to, the helper process itself and the loop over the URLs of
    a message: [jenkins_context_prompt] and everything below it. Several messages are handled
    at once; what they share (the set of active directories, the set-up lock, the attempt
    counter) is reached by calls. Directories are left and locks released by [Drop] in the
    code; here these are calls at the end of the block that owns the value. *)

From S2P Require Import Prelude Effects Text Capture Paths HostFiles Config Policy Jenkins Programs.
From S2P Require Import Descriptors HostPaths Runner.

Local Open Scope N_scope.

Abbreviation location := (list Component) (only parsing).

(** ** Paths *)

(** The bytes of a path that was built with [push] or resolved by the system. *)
Definition component_bytes (c : Component) : path :=
  match c with
  | RootDir => [separator]
  | CurDir => lit "."
  | ParentDir => lit ".."
  | Normal name => name
  end.

Definition render (p : location) : path := fold_left path_join (map component_bytes p) [].

(** [absolute_lexical] of [src/main.rs], which names the empty path [.]. *)
Definition artifact_absolute_lexical (env : PathEnv) (p : location) : location :=
  let joined := if bool_decide (head p = Some RootDir) then p else components (default (lit ".") (current_dir env)) ++ p in
  match normalize_lexical joined with
  | [] => [CurDir]
  | normalized => normalized
  end.

Definition is_normal_component (c : Component) : bool := match c with Normal _ => true | _ => false end.

(** ** Calls *)

(** How a child ended; [core] is the core-dump bit. *)
Inductive helper_status : Type := Exited (code : N) | Signaled (signal : N) (core : bool).

Definition helper_success (s : helper_status) : bool := match s with Exited 0 => true | _ => false end.

(** What the helper is started with; its standard input is [/dev/null]. *)
Record HelperCommand : Type := mkHelperCommand {
  hc_program : str;
  hc_args : list bytes;
  hc_env : gmap str str;
  hc_dir : location;
  hc_process_group : N;
  hc_umask : N;
  hc_kill_on_drop : bool
}.

Inductive jenkins_call : Type :=
| SymlinkMetadata (p : location)
| Resolve (p : location)
| CreateDir (p : location)
| SetPrivateMode (p : location) (mode : N)
| RemoveDirAll (p : location)
| ReadEntries (p : location)
| PathExists (p : location)
| LockSetup
| UnlockSetup
| Register (p : location)
| Unregister (p : location)
| ActiveDirs
| SpawnRemoval (p : location)
| NextAttempt
| UnixNanos
| SpawnHelper (c : HelperCommand)
| HelperId
| WaitUntilDeadline
| SignalGroup (group signal : Z)
| WaitGrace
| StartKill
| JoinPipe (p : pipe)
| AbortPipes
| AwaitAborted
| EvidenceLogs.

(** [RemoveDirAll] answers [None] or an error number; [JoinPipe] ends with the deadline or with
    the task's reads, [None] when the task itself failed; [EvidenceLogs] is what the files
    answer while the evidence of one helper is read. *)
Definition jenkins_answer (c : jenkins_call) : Type :=
  match c with
  | SymlinkMetadata _ => result N StatSnapshot
  | Resolve _ => result N location
  | CreateDir _ | SetPrivateMode _ _ | RemoveDirAll _ => result N unit
  | ReadEntries _ => result N Listing
  | PathExists _ | SpawnHelper _ | WaitGrace => bool
  | LockSetup | UnlockSetup | Register _ | Unregister _ | SpawnRemoval _ | SignalGroup _ _ | StartKill | AbortPipes | AwaitAborted => unit
  | ActiveDirs => list location
  | NextAttempt | UnixNanos => N
  | HelperId => option N
  | WaitUntilDeadline => timed (option helper_status)
  | JoinPipe _ => timed (option reads)
  | EvidenceLogs => EvidenceOps
  end.

(** An [anyhow] error, without its contexts. *)
Inductive JenkinsError : Type :=
| JenkinsIo (errno : N)
| JenkinsBail (message : str)
| JenkinsEvidence (e : EvidenceError)
| HelperSpawnFailed
| HelperWaitFailed
| HelperTimedOut (seconds : N)
| HelperOutputFailed (seconds : N).

Abbreviation jprog A := (Effects.prog jenkins_answer (result JenkinsError A)) (only parsing).
Abbreviation jcall c := (perform c : Effects.prog jenkins_answer (jenkins_answer c)) (only parsing).

Definition jio {A} (p : Effects.prog jenkins_answer (result N A)) : jprog A := let* r := p in Ret (map_err JenkinsIo r).
Definition jbail {A} (message : str) : jprog A := Ret (Err (JenkinsBail message)).
Definition jbail_if (b : bool) (message : str) : jprog unit := Ret (fail_if b (JenkinsBail message)).

(** What the process knows of itself: its id, [env::var] and the working directory. *)
Record JenkinsProcess : Type := mkJenkinsProcess { jp_pid : N; jp_vars : str -> option str; jp_paths : PathEnv }.

(** ** Private directories *)

Definition real_directory (m : StatSnapshot) : bool := negb (is_link m) && is_directory m.

Definition set_private_dir_permissions (p : location) : jprog unit := jio (jcall (SetPrivateMode p 448)).

(** The body of the loop over the components below the root. *)
Definition ensure_component (current : location) : jprog unit :=
  let* found := jcall (SymlinkMetadata current) in
  let*? _ :=
    match found with
    | Ok m =>
        if is_link m then jbail (lit "private directory path must not contain symlinks")
        else jbail_if (negb (is_directory m)) (lit "private directory path component is not a directory")
    | Err errno =>
        if errno =? ENOENT then
          let* created := jcall (CreateDir current) in
          let*? _ := Ret (match created with
                          | Ok _ => Ok tt
                          | Err errno => fail_if (negb (errno =? EEXIST)) (JenkinsIo errno)
                          end) in
          let*? m := jio (jcall (SymlinkMetadata current)) in
          jbail_if (negb (real_directory m)) (lit "created private path is not a real directory")
        else Ret (Err (JenkinsIo errno))
    end in
  set_private_dir_permissions current.

Fixpoint ensure_components (current : location) (parts : list Component) : jprog location :=
  match parts with
  | [] => Ret (Ok current)
  | part :: parts =>
      let current := current ++ [part] in
      let*? _ := ensure_component current in
      ensure_components current parts
  end.

Definition create_private_subdirectory (env : PathEnv) (root path : location) : jprog location :=
  let root := artifact_absolute_lexical env root in
  let path := artifact_absolute_lexical env path in
  let*? _ := jbail_if (negb (path_starts_with path root)) (lit "private directory must remain under its root") in
  let relative := drop (length root) path in
  let*? _ := jbail_if (is_empty relative || negb (all is_normal_component relative)) (lit "private directory must be a normal descendant") in
  let*? root_metadata := jio (jcall (SymlinkMetadata root)) in
  let*? _ := jbail_if (negb (real_directory root_metadata)) (lit "private directory root must be a real directory") in
  let*? canonical_root := jio (jcall (Resolve root)) in
  let*? current := ensure_components root relative in
  let*? canonical_path := jio (jcall (Resolve current)) in
  let*? _ := jbail_if (negb (path_starts_with canonical_path canonical_root)) (lit "private directory escaped its root") in
  Ret (Ok canonical_path).

Definition reset_jenkins_artifact_dir (env : PathEnv) (root path : location) : jprog location :=
  let* found := jcall (SymlinkMetadata path) in
  let*? _ :=
    match found with
    | Ok m =>
        if is_link m then jbail (lit "Jenkins artifact directory must not be a symlink")
        else if is_directory m then jio (jcall (RemoveDirAll path))
        else jbail (lit "Jenkins artifact path must be a directory")
    | Err errno => Ret (fail_if (negb (errno =? ENOENT)) (JenkinsIo errno))
    end in
  create_private_subdirectory env root path.

(** [fs::remove_dir_all], where a directory that is gone is no error. *)
Definition remove_jenkins_artifact_dir (p : location) : jprog unit :=
  let* removed := jcall (RemoveDirAll p) in
  Ret (match removed with
       | Ok _ => Ok tt
       | Err errno => fail_if (negb (errno =? ENOENT)) (JenkinsIo errno)
       end).

Definition cleanup_jenkins_artifact_dir (p : location) : jprog unit :=
  let* result := remove_jenkins_artifact_dir p in
  let* _ := jcall (Unregister p) in
  Ret result.

(** [JenkinsArtifactCleanupGuard::drop]. *)
Definition drop_guard (p : location) : Effects.prog jenkins_answer unit :=
  let* _ := jcall (Unregister p) in
  let* _ := jcall (SpawnRemoval p) in
  Ret tt.

(** ** Keeping the directories few *)

Definition JENKINS_ARTIFACT_RETENTION_LIMIT : N := 32.

(** [while let Some(entry) = entries.next_entry().await?]: the names, then an error or the end. *)
Fixpoint each_entry {S} (body : S -> bytes -> jprog S) (names : list bytes) (error : option N) (s : S) : jprog S :=
  match names with
  | [] => Ret (match error with Some errno => Err (JenkinsIo errno) | None => Ok s end)
  | name :: names =>
      let*? s := body s name in
      each_entry body names error s
  end.

(** [fs::read_dir(dir)] and the loop over it, for a directory that may be missing. *)
Definition with_entries {S} (dir : location) (missing : S) (body : S -> bytes -> jprog S) (initial : S) : jprog S :=
  let* listing := jcall (ReadEntries dir) in
  match listing with
  | Ok l => each_entry body (ls_names l) (ls_error l) initial
  | Err errno => Ret (if errno =? ENOENT then Ok missing else Err (JenkinsIo errno))
  end.

(** [entry.metadata()]; [None] for an entry that is gone. *)
Definition entry_metadata (p : location) : jprog (option StatSnapshot) :=
  let* m := jcall (SymlinkMetadata p) in
  Ret (match m with
       | Ok m => Ok (Some m)
       | Err errno => if errno =? ENOENT then Ok None else Err (JenkinsIo errno)
       end).

Record ArtifactDir : Type := mkArtifactDir { ad_seconds : Z; ad_nanoseconds : Z; ad_name : bytes; ad_path : location }.

(** The newest first, then by name. *)
Definition newer_first (l r : ArtifactDir) : bool :=
  if (ad_seconds r =? ad_seconds l)%Z then
    if (ad_nanoseconds r =? ad_nanoseconds l)%Z then str_leb (ad_name l) (ad_name r)
    else (ad_nanoseconds r <? ad_nanoseconds l)%Z
  else (ad_seconds r <? ad_seconds l)%Z.

Fixpoint remove_all (paths : list location) : jprog unit :=
  match paths with
  | [] => Ret (Ok tt)
  | p :: paths =>
      let*? _ := remove_jenkins_artifact_dir p in
      remove_all paths
  end.

Definition collect_entry (root : location) (active : list location) (dirs : list ArtifactDir) (name : bytes) : jprog (list ArtifactDir) :=
  let p := child root name in
  if bool_decide (p ∈ active) then Ret (Ok dirs)
  else
    let*? m := entry_metadata p in
    Ret (Ok (match m with
             | Some m => if is_directory m then dirs ++ [mkArtifactDir (st_modified_seconds m) (st_modified_nanoseconds m) name p] else dirs
             | None => dirs
             end)).

Definition prune_jenkins_artifact_dirs_in (root : location) : jprog unit :=
  let* active := jcall ActiveDirs in
  let*? dirs := with_entries root [] (collect_entry root active) [] in
  if len dirs <=? JENKINS_ARTIFACT_RETENTION_LIMIT then Ret (Ok tt)
  else remove_all (map ad_path (drop_N JENKINS_ARTIFACT_RETENTION_LIMIT (stable_sort newer_first dirs))).

Definition jenkins_artifact_base_root (env : PathEnv) (codex_cwd : path) : location :=
  artifact_absolute_lexical env (components codex_cwd) ++ [Normal (lit ".codex-tmp"); Normal (lit "jenkins-diagnostics")].

Definition jenkins_artifact_process_root (proc : JenkinsProcess) (codex_cwd : path) : location :=
  child (jenkins_artifact_base_root (jp_paths proc) codex_cwd) (as_bytes (lit "process-" ++ decimal (jp_pid proc))).

(** Of the name of a directory entry. *)
Definition jenkins_artifact_process_root_pid (name : bytes) : option N :=
  name ← from_utf8 name;
  digits ← strip_prefix (lit "process-") name;
  parse_unsigned u32_max digits.

Definition process_may_be_running (pid : N) : Effects.prog jenkins_answer bool :=
  jcall (PathExists [RootDir; Normal (lit "proc"); Normal (as_bytes (decimal pid))]).

Definition prune_entry (base_root current_process_root : location) (_ : unit) (name : bytes) : jprog unit :=
  let p := child base_root name in
  let*? m := entry_metadata p in
  match m with
  | None => Ret (Ok tt)
  | Some m =>
      if negb (is_directory m) then Ret (Ok tt)
      else if bool_decide (p = current_process_root) then prune_jenkins_artifact_dirs_in p
      else
        match jenkins_artifact_process_root_pid name with
        | None => Ret (Ok tt)
        | Some pid =>
            let* running := process_may_be_running pid in
            if running then Ret (Ok tt) else remove_jenkins_artifact_dir p
        end
  end.

Definition prune_jenkins_artifact_process_roots_in (base_root current_process_root : location) : jprog unit :=
  with_entries base_root tt (prune_entry base_root current_process_root) tt.

(** ** The directory of one message *)

Definition attempt_name (pid nanos counter : N) (message_id : str) : str :=
  decimal pid ++ lit "-" ++ decimal nanos ++ lit "-" ++ decimal counter ++ lit "-" ++ safe_path_fragment message_id.

Definition jenkins_artifact_attempt_dir (pid : N) (process_root : location) (message_id : str) : Effects.prog jenkins_answer location :=
  let* counter := jcall NextAttempt in
  let* nanos := jcall UnixNanos in
  Ret (child process_root (as_bytes (attempt_name pid nanos counter message_id))).

Definition jenkins_artifact_dir (attempt_root : location) (index : N) : location :=
  child attempt_root (as_bytes (lit "url-" ++ decimal index)).

Definition ensure_jenkins_artifact_base_root (proc : JenkinsProcess) (codex_cwd : path) : jprog location :=
  create_private_subdirectory (jp_paths proc) (components codex_cwd) (jenkins_artifact_process_root proc codex_cwd).

(** The directory is registered before it is created, and dropped again when it cannot be. *)
Definition prepare_registered (proc : JenkinsProcess) (process_root : location) (message_id : str) : jprog location :=
  let* artifact_path := jenkins_artifact_attempt_dir (jp_pid proc) process_root message_id in
  let* _ := jcall (Register artifact_path) in
  let* created :=
    let*? canonical_path := create_private_subdirectory (jp_paths proc) process_root artifact_path in
    jbail_if (negb (bool_decide (canonical_path = artifact_path))) (lit "Jenkins artifact path changed during creation") in
  match created with
  | Ok _ => Ret (Ok artifact_path)
  | Err error =>
      let* _ := drop_guard artifact_path in
      Ret (Err error)
  end.

(** Below the set-up lock. *)
Definition prepare_locked (proc : JenkinsProcess) (codex_cwd : path) (message_id : str) : jprog location :=
  let*? process_root := ensure_jenkins_artifact_base_root proc codex_cwd in
  let*? base_root := Ret (ok_or (parent process_root) (JenkinsBail (lit "Jenkins diagnostics process root has no parent"))) in
  let*? _ := prune_jenkins_artifact_process_roots_in base_root process_root in
  prepare_registered proc process_root message_id.

Definition prepare_jenkins_artifact_root (proc : JenkinsProcess) (codex_cwd : path) (message_id : str) : jprog location :=
  let* _ := jcall LockSetup in
  let* result := prepare_locked proc codex_cwd message_id in
  let* _ := jcall UnlockSetup in
  Ret result.

(** ** The helper process *)

Definition script_dir (config : JenkinsContextConfig) : location := default [RootDir] (parent (components (script config))).

Definition helper_args (config : JenkinsContextConfig) (url : str) (artifact_dir : path) : list bytes :=
  [script config; lit "--env-file"; env_file config; lit "--artifact-dir"; artifact_dir; lit "diagnose"; lit "--url"; as_bytes url;
   lit "--max-nodes"; lit "32"; lit "--max-total-log-bytes"; lit "104857600"; lit "--max-log-bytes-per-node"; lit "10485760";
   lit "--max-api-response-bytes"; lit "1048576";
   lit "--max-fetch-seconds"; as_bytes (decimal (jenkins_fetch_timeout_seconds (jk_timeout_secs config)));
   lit "--fetch-retries"; as_bytes (decimal JENKINS_FETCH_RETRIES); lit "--max-parallel-fetches"; lit "4"].

Definition jenkins_helper_env (vars : str -> option str) : gmap str str := <[lit "PATH" := lit "/usr/bin:/bin"]> (scrubbed_env vars).

(** [configure_jenkins_helper_process]: a process group of its own and the mask [0o077]. *)
Definition helper_command (vars : str -> option str) (config : JenkinsContextConfig) (url : str) (artifact_dir : path) : HelperCommand :=
  mkHelperCommand (node_bin config) (helper_args config url artifact_dir) (jenkins_helper_env vars) (script_dir config) 0 63 true.

Definition terminate_jenkins_helper_process_group (group : option Z) (signal : Z) : Effects.prog jenkins_answer unit :=
  match group with
  | Some group => jcall (SignalGroup group signal)
  | None => Ret tt
  end.

Definition terminate_jenkins_helper : Effects.prog jenkins_answer unit :=
  let finish :=
    let* _ := jcall StartKill in
    let* _ := jcall WaitGrace in
    Ret tt in
  let* id := jcall HelperId in
  match id with
  | Some pid =>
      let* _ := terminate_jenkins_helper_process_group (Some (process_group pid)) SIGTERM in
      let* ended := jcall WaitGrace in
      if ended then Ret tt
      else
        let* _ := terminate_jenkins_helper_process_group (Some (process_group pid)) SIGKILL in
        finish
  | None => finish
  end.

Definition abort_helper_output : Effects.prog jenkins_answer unit :=
  let* _ := jcall AbortPipes in
  let* _ := jcall AwaitAborted in
  Ret tt.

(** What a joined reader gives; [None] is a failed task or a failed read. *)
Definition joined_text (limit : N) (joined : option reads) : option str := chunks ← joined; read_limited_text limit chunks.

Definition join_helper_output_until (limit seconds : N) : jprog (str * str) :=
  let failed := Err (HelperOutputFailed seconds) in
  let elapsed := let* _ := abort_helper_output in Ret failed in
  let* stdout := jcall (JoinPipe ChildStdout) in
  match stdout with
  | Elapsed => elapsed
  | Done joined =>
      match joined_text limit joined with
      | None => Ret failed
      | Some stdout =>
          let* stderr := jcall (JoinPipe ChildStderr) in
          match stderr with
          | Elapsed => elapsed
          | Done joined => Ret (match joined_text limit joined with Some stderr => Ok (stdout, stderr) | None => failed end)
          end
      end
  end.

(** [Display] of [std::process::ExitStatus]. *)
Definition signal_names : list str :=
  [lit "SIGHUP"; lit "SIGINT"; lit "SIGQUIT"; lit "SIGILL"; lit "SIGTRAP"; lit "SIGABRT"; lit "SIGBUS"; lit "SIGFPE"; lit "SIGKILL";
   lit "SIGUSR1"; lit "SIGSEGV"; lit "SIGUSR2"; lit "SIGPIPE"; lit "SIGALRM"; lit "SIGTERM"; lit "SIGSTKFLT"; lit "SIGCHLD";
   lit "SIGCONT"; lit "SIGSTOP"; lit "SIGTSTP"; lit "SIGTTIN"; lit "SIGTTOU"; lit "SIGURG"; lit "SIGXCPU"; lit "SIGXFSZ";
   lit "SIGVTALRM"; lit "SIGPROF"; lit "SIGWINCH"; lit "SIGIO"; lit "SIGPWR"; lit "SIGSYS"].

Definition signal_string (signal : N) : str :=
  match lookup (N.to_nat (signal - 1)) signal_names with
  | Some name => if signal =? 0 then [] else lit " (" ++ name ++ lit ")"
  | None => []
  end.

Definition display_status (s : helper_status) : str :=
  match s with
  | Exited code => lit "exit status: " ++ decimal code
  | Signaled signal core => lit "signal: " ++ decimal signal ++ signal_string signal ++ (if core then lit " (core dumped)" else [])
  end.

Definition helper_report (status : helper_status) (stdout stderr : str) : str :=
  if helper_success status then compact_jenkins_helper_output stdout
  else
    lit "helper_exit_status=" ++ display_status status ++ [10] ++ lit "stdout:" ++ [10] ++ compact_jenkins_helper_output stdout
    ++ [10] ++ lit "stderr:" ++ [10] ++ stderr.

Definition give_up_helper (error : JenkinsError) : jprog str :=
  let* _ := terminate_jenkins_helper in
  let* _ := abort_helper_output in
  Ret (Err error).

Definition run_jenkins_context_helper (proc : JenkinsProcess) (config : JenkinsContextConfig) (url : str) (artifact_dir : location) : jprog str :=
  let* spawned := jcall (SpawnHelper (helper_command (jp_vars proc) config url (render artifact_dir))) in
  if negb spawned then Ret (Err HelperSpawnFailed)
  else
    let* id := jcall HelperId in
    let group := process_group <$> id in
    let limit := helper_capture_limit_bytes (jk_output_limit_chars config) in
    let* status := jcall WaitUntilDeadline in
    match status with
    | Elapsed => give_up_helper (HelperTimedOut (jk_timeout_secs config))
    | Done None => give_up_helper HelperWaitFailed
    | Done (Some status) =>
        let* _ := terminate_jenkins_helper_process_group group SIGTERM in
        let* joined := join_helper_output_until limit (jk_timeout_secs config) in
        match joined with
        | Err error =>
            let* _ := terminate_jenkins_helper_process_group group SIGKILL in
            Ret (Err error)
        | Ok (stdout, stderr) => Ret (Ok (helper_report status stdout stderr))
        end
    end.

(** ** The prompt *)

Definition evidence_required (f : ReplyFormat) : bool :=
  match f with
  | JenkinsDiagnosisJson | JenkinsFollowupJson => true
  | _ => false
  end.

(** What the loop over the URLs collects. *)
Record Prefetch : Type := mkPrefetch {
  pr_sections : list str;
  pr_console_urls : list str;
  pr_evidence : gmap (list N) JenkinsEvidenceLog
}.

Definition prompt_section (config : JenkinsContextConfig) (url : str) (prompt_artifact_dir : path) (output : str) : str :=
  lit "URL: " ++ url ++ [10] ++ lit "Diagnostics artifact directory: `" ++ from_utf8_lossy prompt_artifact_dir ++ lit "`" ++ [10]
  ++ lit "Jenkins helper output (each prefixed line is untrusted data):" ++ [10]
  ++ prefix_jenkins_helper_output (trim_to_chars output (jk_output_limit_chars config)).

(** The body of the loop; [index] counts from 1. *)
Definition prefetch_url (proc : JenkinsProcess) (config : JenkinsContextConfig) (reply_format : ReplyFormat) (codex_config : CodexConfig)
    (artifact_root : location) (index : N) (url : str) (acc : Prefetch) : jprog Prefetch :=
  let artifact_path := jenkins_artifact_dir artifact_root index in
  let*? artifact_dir := reset_jenkins_artifact_dir (jp_paths proc) artifact_root artifact_path in
  let*? output := run_jenkins_context_helper proc config url artifact_dir in
  let*? found :=
    if evidence_required reply_format then
      let* files := jcall EvidenceLogs in
      Ret (map_err JenkinsEvidence (@load_jenkins_log_evidence files (render artifact_dir)))
    else Ret (Ok []) in
  let (console_urls, evidence) := merge_evidence found (pr_console_urls acc) (pr_evidence acc) in
  let*? prompt_artifact_dir :=
    Ret (ok_or (codex_artifact_prompt_path codex_config (render artifact_root) (render artifact_dir))
               (JenkinsBail (lit "Jenkins artifact directory escaped its run root"))) in
  let*? prompt_output :=
    Ret (ok_or (codex_helper_output codex_config (render artifact_dir) prompt_artifact_dir (trim output))
               (JenkinsBail (lit "Jenkins artifact path is not UTF-8"))) in
  Ret (Ok (mkPrefetch (pr_sections acc ++ [prompt_section config url prompt_artifact_dir prompt_output]) console_urls evidence)).

Fixpoint prefetch_urls (proc : JenkinsProcess) (config : JenkinsContextConfig) (reply_format : ReplyFormat) (codex_config : CodexConfig)
    (artifact_root : location) (index : N) (urls : list str) (acc : Prefetch) : jprog Prefetch :=
  match urls with
  | [] => Ret (Ok acc)
  | url :: urls =>
      let*? acc := prefetch_url proc config reply_format codex_config artifact_root index url acc in
      prefetch_urls proc config reply_format codex_config artifact_root (index + 1) urls acc
  end.

Definition prefetch_prompt (sections : list str) : str :=
  lit "Prefetched Jenkins diagnostics (read-only helper output and local artifact files; use these instead of running Jenkins commands from Codex):"
  ++ [10; 10] ++ join [10; 10] sections.

(** With the directory of the message prepared. *)
Definition prefetch_into (proc : JenkinsProcess) (config : JenkinsContextConfig) (reply_format : ReplyFormat) (codex_config : CodexConfig)
    (urls : list str) (artifact_root : location) : jprog (option JenkinsPrefetchedContext) :=
  let* built := prefetch_urls proc config reply_format codex_config artifact_root 1 urls (mkPrefetch [] [] ∅) in
  match built with
  | Ok acc =>
      Ret (Ok (Some (mkJenkinsPrefetchedContext (prefetch_prompt (pr_sections acc)) (render artifact_root) (pr_console_urls acc) (pr_evidence acc))))
  | Err error =>
      let* _ := cleanup_jenkins_artifact_dir artifact_root in
      Ret (Err error)
  end.

Definition jenkins_context_prompt (proc : JenkinsProcess) (policy : RoomPolicy) (reply_format : ReplyFormat) (codex_config : CodexConfig)
    (context : MessageContext) : jprog (option JenkinsPrefetchedContext) :=
  match jenkins_context policy with
  | None => Ret (Ok None)
  | Some config =>
      if negb (jk_enabled config) then Ret (Ok None)
      else
        let urls := extract_jenkins_urls (mc_body context) (max_urls config) in
        if is_empty urls then Ret (Ok None)
        else
          let*? artifact_root := prepare_jenkins_artifact_root proc (cwd codex_config) (mc_message_id context) in
          prefetch_into proc config reply_format codex_config urls artifact_root
  end.

(** ** The directory of a message, from its preparation to its removal *)

(** What the handler of a message does with a prefetched context: the guard is made again, the
    run reads the directory, and the directory is cleaned up. *)
Definition message_prefetch (proc : JenkinsProcess) (policy : RoomPolicy) (reply_format : ReplyFormat) (codex_config : CodexConfig)
    (context : MessageContext) : Effects.prog jenkins_answer unit :=
  let* prefetched := jenkins_context_prompt proc policy reply_format codex_config context in
  match prefetched with
  | Ok (Some prefetched) =>
      let root := components (artifact_root prefetched) in
      let* _ := jcall (Register root) in
      let* _ := cleanup_jenkins_artifact_dir root in
      Ret tt
  | _ => Ret tt
  end.

(** A handler that is dropped: its guard, if it holds one, and then the set-up lock. *)
Definition abandoned (guard : option location) (locked : bool) : Effects.prog jenkins_answer unit :=
  let* _ := match guard with Some p => drop_guard p | None => Ret tt end in
  if locked then jcall UnlockSetup else Ret tt.
