(* ===== verification/JenkinsHelperRules.v ===== *)
(** * What the Jenkins helper keeps to

    Handlers of messages run at once and share the artifact directories; none of them removes
    a directory that another one still holds. A helper is started once for every URL of a
    message, in a directory of that message, and a prefetch that fails leaves no directory
    registered. *)

From S2P Require Import Prelude Effects Text Digest Paths HostFiles Config Policy Jenkins Programs.
From S2P Require Import Descriptors HostPaths Runner JenkinsHelper.

Local Open Scope N_scope.

Abbreviation jevent := (Effects.event jenkins_answer) (only parsing).
Abbreviation jtrace := (list jevent) (only parsing).

(** ** Names of directories *)

(** A name that stands for itself in a path. *)
Definition plain_name (n : bytes) : Prop :=
  n <> [] /\ n <> lit "." /\ n <> lit ".." /\ Forall (fun c => N.eqb separator c = false) n.

(** What [realpath] answers: the root and names. *)
Definition canonical (p : location) : Prop := exists names, p = RootDir :: map Normal names /\ Forall plain_name names.

Lemma component_of_plain n : plain_name n -> component_of n = [Normal n].
Proof.
  intros (H0 & H1 & H2 & _). unfold component_of. apply is_empty_false in H0. apply str_eqb_neq in H1, H2. by rewrite H0, H1, H2.
Qed.

Lemma plain_not_rooted n : plain_name n -> is_absolute n = false.
Proof.
  intros (H0 & _ & _ & Hs). unfold is_absolute, has_root. apply not_true_iff_false. intros (x & ->)%starts_with_spec.
  apply Forall_cons in Hs as [Hc _]. by rewrite N.eqb_refl in Hc.
Qed.

Lemma plain_end acc n : plain_name n -> ends_with [separator] (acc ++ n) = false.
Proof.
  intros (H0 & _ & _ & Hs). apply not_true_iff_false. intros (x & Hx)%ends_with_spec.
  destruct n as [|c n _] using rev_ind; [done|]. rewrite app_assoc in Hx. apply app_inj_tail in Hx as [_ ->].
  apply Forall_app in Hs as [_ [Hs _]%Forall_cons]. by rewrite N.eqb_refl in Hs.
Qed.

Lemma render_names acc names :
  acc <> [] -> ends_with [separator] acc = false -> Forall plain_name names ->
  fold_left path_join names acc = acc ++ concat (map (cons separator) names).
Proof.
  intros Ha He Hn. revert acc Ha He. induction Hn as [|n names Hn _ IH]; intros acc Ha He; cbn [fold_left map concat]; [by rewrite app_nil_r|].
  unfold path_join at 2. rewrite (plain_not_rooted n Hn), He. apply is_empty_false in Ha as ->. cbn [orb].
  rewrite IH.
  - by rewrite <-!app_assoc.
  - by destruct acc.
  - rewrite app_assoc. by apply plain_end.
Qed.

Lemma concat_join names : names <> [] -> concat (map (cons separator) names) = separator :: join [separator] names.
Proof.
  induction names as [|n names IH]; [done|]. intros _. cbn [map concat]. destruct names as [|n' names]; [cbn; by rewrite app_nil_r|].
  rewrite IH by done. by cbn.
Qed.

Lemma components_plain names : Forall plain_name names -> concat (map component_of names) = map Normal names.
Proof. induction 1 as [|m ns Hm _ IH]; [done|]. cbn [map concat]. by rewrite IH, component_of_plain. Qed.

(** The bytes of a canonical path stand for it. *)
Lemma components_render p : canonical p -> components (render p) = p.
Proof.
  intros (names & -> & Hn). destruct names as [|n names]; [done|].
  assert (render (RootDir :: map Normal (n :: names)) = separator :: join [separator] (n :: names)) as ->.
  { unfold render. cbn [map fold_left]. replace (map component_bytes (map Normal names)) with names
      by (rewrite map_map; cbn; by rewrite map_id). apply Forall_cons in Hn as [Hp Hn]. cbn [component_bytes].
    change (path_join [] [separator]) with [separator]. unfold path_join at 2. rewrite (plain_not_rooted n Hp). cbn [is_empty orb].
    change (ends_with [separator] [separator]) with true. cbn [app].
    rewrite render_names; [|done|by apply (plain_end [separator])|done].
    rewrite <-(concat_join (n :: names)) by done. reflexivity. }
  unfold components. change (has_root (separator :: _)) with true. cbn [app]. cbn [split_by].
  change (separator =? separator) with true. cbn iota. rewrite split_by_join.
  - change (map component_of ([] :: n :: names)) with ([] :: map component_of (n :: names)). cbn [concat app]. by rewrite components_plain.
  - apply N.eqb_refl.
  - done.
  - eapply Forall_impl; [exact Hn|]. by intros m (_ & _ & _ & ?).
Qed.

Lemma canonical_child p n : canonical p -> plain_name n -> canonical (child p n).
Proof.
  intros (names & -> & Hn) Hp. exists (names ++ [n]). unfold child. rewrite map_app. split; [done|]. apply Forall_app. by split; [|constructor].
Qed.

(** The name of an attempt is one component, and tells the attempt's counter. *)
Definition name_char (c : char) : bool := is_ascii_alphanumeric c || one_of (lit "-_.") c.

Lemma digit_name_char s : all is_ascii_digit s = true -> Forall (fun c => name_char c = true) s.
Proof.
  intros Hs%all_true. eapply Forall_impl; [exact Hs|]. intros c Hc. unfold name_char, is_ascii_alphanumeric. by rewrite Hc.
Qed.

Lemma decimal_name_char n : Forall (fun c => name_char c = true) (decimal n).
Proof. apply digit_name_char. pose proof (decimal_all_digits n) as Hd. unfold all_digits in Hd. by apply andb_true_iff in Hd as [_ ?]. Qed.

Lemma Forall_infix {A} (P : A -> Prop) a l b : Forall P (a ++ l ++ b) -> Forall P l.
Proof. rewrite !Forall_app. tauto. Qed.

Lemma fragment_name_char value : Forall (fun c => name_char c = true) (safe_path_fragment value).
Proof.
  unfold safe_path_fragment. set (m := map _ value). assert (Forall (fun c => name_char c = true) m) as Hm.
  { apply Forall_forall. intros c (x & -> & _)%elem_of_map. unfold name_char. destruct (is_ascii_alphanumeric x || one_of (lit "-_.") x) eqn:E; done. }
  destruct (trim_matches_infix (N.eqb (ch "_")) m) as (a & b & He & _). set (t := trim_matches _ m) in *. rewrite He in Hm.
  destruct (is_empty t); [by repeat constructor|]. by apply Forall_take_N, (Forall_infix _ a _ b).
Qed.

Lemma attempt_name_chars pid nanos counter message_id : Forall (fun c => name_char c = true) (attempt_name pid nanos counter message_id).
Proof.
  unfold attempt_name. repeat apply Forall_app_2; try apply decimal_name_char; try apply fragment_name_char; by repeat constructor.
Qed.

Lemma name_char_ascii c : name_char c = true -> is_ascii_char c = true /\ N.eqb separator c = false.
Proof.
  unfold name_char, is_ascii_char. unfold is_ascii_alphanumeric, is_ascii_uppercase, is_ascii_lowercase, is_ascii_digit, one_of, any. cbn.
  change separator with 47. rewrite N.leb_le, N.eqb_neq. rewrite !orb_true_iff, !andb_true_iff, !N.leb_le, !N.eqb_eq. lia.
Qed.

Lemma attempt_name_bytes pid nanos counter message_id :
  as_bytes (attempt_name pid nanos counter message_id) = attempt_name pid nanos counter message_id.
Proof. apply as_bytes_ascii_text. eapply Forall_impl; [apply attempt_name_chars|]. intros c Hc. by apply name_char_ascii. Qed.

Lemma attempt_name_plain pid nanos counter message_id : plain_name (as_bytes (attempt_name pid nanos counter message_id)).
Proof.
  rewrite attempt_name_bytes. assert (ch "-" ∈ attempt_name pid nanos counter message_id) as Hd.
  { unfold attempt_name. apply elem_of_app. right. apply elem_of_app. left. by apply list_elem_of_singleton. }
  repeat split.
  - intros He. rewrite He in Hd. by apply not_elem_of_nil in Hd.
  - intros He. rewrite He in Hd. by apply list_elem_of_singleton in Hd.
  - intros He. rewrite He in Hd. cbn in Hd. by apply elem_of_cons in Hd as [?|?%list_elem_of_singleton].
  - eapply Forall_impl; [apply attempt_name_chars|]. intros c Hc. by apply name_char_ascii.
Qed.

Lemma digits_dash a b x y :
  all is_ascii_digit a = true -> all is_ascii_digit b = true -> a ++ ch "-" :: x = b ++ ch "-" :: y -> a = b /\ x = y.
Proof.
  revert b. induction a as [|c a IH]; intros [|d b] Ha Hb He; cbn in *.
  - by injection He as ->.
  - injection He as <- _. by apply andb_true_iff in Hb as [? _].
  - injection He as -> _. by apply andb_true_iff in Ha as [? _].
  - injection He as -> He. apply andb_true_iff in Ha as [_ Ha], Hb as [_ Hb]. destruct (IH b Ha Hb He) as [-> ->]. done.
Qed.

Lemma decimal_digits n : all is_ascii_digit (decimal n) = true.
Proof. pose proof (decimal_all_digits n) as Hd. unfold all_digits in Hd. by apply andb_true_iff in Hd as [_ ?]. Qed.

Lemma attempt_name_counter pid n1 c1 m1 n2 c2 m2 :
  as_bytes (attempt_name pid n1 c1 m1) = as_bytes (attempt_name pid n2 c2 m2) -> c1 = c2.
Proof.
  rewrite !attempt_name_bytes. unfold attempt_name. change (lit "-") with [ch "-"]. cbn [app].
  intros [_ He]%digits_dash; [|apply decimal_digits..]. apply digits_dash in He as [_ He]; [|apply decimal_digits..].
  apply digits_dash in He as [He _]; [|apply decimal_digits..]. rewrite <-(decimal_value c1), <-(decimal_value c2). by rewrite He.
Qed.

(** ** The protocol of the shared state *)

(** Calls that do not touch the active directories, the set-up lock or a directory tree. *)
Definition quiet (c : jenkins_call) : bool :=
  match c with
  | LockSetup | UnlockSetup | Register _ | Unregister _ | ActiveDirs | SpawnRemoval _ | RemoveDirAll _ => false
  | _ => true
  end.

(** The events of a trace that matter to the protocol. *)
Definition proto (h : jtrace) : jtrace := List.filter (fun e => negb (quiet (ev_call e))) h.

(** The set-up lock is held. *)
Fixpoint holds (h : jtrace) : bool :=
  match h with
  | [] => false
  | e :: h => match ev_call e with LockSetup => true | UnlockSetup => false | _ => holds h end
  end.

(** What the set of active directories was when it was last read. *)
Fixpoint snapshot (h : jtrace) : option (list location) :=
  match h with
  | [] => None
  | Ev ActiveDirs r :: _ => Some r
  | Ev LockSetup _ :: _ => None
  | _ :: h => snapshot h
  end.

(** The handler registered [p], ever or without giving it up since. *)
Fixpoint registered (h : jtrace) (p : location) : Prop :=
  match h with
  | [] => False
  | e :: h => ev_call e = Register p \/ registered h p
  end.

Fixpoint live (h : jtrace) (p : location) : Prop :=
  match h with
  | [] => False
  | e :: h =>
      match ev_call e with
      | Register q => q = p \/ live h p
      | Unregister q => q <> p /\ live h p
      | _ => live h p
      end
  end.

Lemma holds_proto h : holds (proto h) = holds h.
Proof. induction h as [|[c r] h IH]; [done|]. unfold proto in *. destruct c; cbn; done. Qed.

Lemma snapshot_proto h : snapshot (proto h) = snapshot h.
Proof. induction h as [|[c r] h IH]; [done|]. unfold proto in *. destruct c; cbn; done. Qed.

Lemma registered_proto h p : registered (proto h) p <-> registered h p.
Proof. induction h as [|[c r] h IH]; [done|]. unfold proto in *. destruct c; cbn; rewrite ?IH; naive_solver. Qed.

Lemma live_proto h p : live (proto h) p <-> live h p.
Proof. induction h as [|[c r] h IH]; [done|]. unfold proto in *. destruct c; cbn; rewrite ?IH; naive_solver. Qed.

Lemma live_registered h p : live h p -> registered h p.
Proof. induction h as [|[c r] h IH]; cbn; [done|]. destruct c; naive_solver. Qed.

(** Quiet events change none of it. *)
Section same_protocol.
Context (h h' : jtrace) (Hp : proto h' = proto h).

Lemma same_holds : holds h' = holds h.
Proof using Hp. by rewrite <-holds_proto, Hp, holds_proto. Qed.
Lemma same_snapshot : snapshot h' = snapshot h.
Proof using Hp. by rewrite <-snapshot_proto, Hp, snapshot_proto. Qed.
Lemma same_registered p : registered h' p <-> registered h p.
Proof using Hp. by rewrite <-registered_proto, Hp, registered_proto. Qed.
Lemma same_live p : live h' p <-> live h p.
Proof using Hp. by rewrite <-live_proto, Hp, live_proto. Qed.
End same_protocol.

(** ** Several handlers at once *)

Section shared.
Context (proc : JenkinsProcess) (resolve : location -> location).

(** The process root of a working directory. *)
Definition artifact_home (codex_cwd : path) : location :=
  resolve (artifact_absolute_lexical (jp_paths proc) (jenkins_artifact_process_root proc codex_cwd)).

(** Paths resolved as [resolve] says. *)
Definition consistent (h : jtrace) : Prop := forall p q, Ev (Resolve p) (Ok q) ∈ h -> q = resolve p.

Definition attempt_path (home : location) (nanos counter : N) (message_id : str) : location :=
  child home (as_bytes (attempt_name (jp_pid proc) nanos counter message_id)).

(** A removal below the lock: an old directory of this process that was not active, or what
    another process left behind. *)
Definition stale (home : location) (h : jtrace) (p : location) : Prop :=
  holds h = true
  /\ ((exists active name, snapshot h = Some active /\ p = child home name /\ p ∉ active)
      \/ (exists base name, parent home = Some base /\ p = child base name /\ p <> home)).

(** What a handler may do after its own events [h]. *)
Definition allowed (home : location) (h : jtrace) (c : jenkins_call) : Prop :=
  match c with
  | LockSetup => holds h = false
  | UnlockSetup | ActiveDirs => holds h = true
  | Register q =>
      live h q
      \/ (holds h = true /\ (forall p, ~ registered h p)
          /\ exists nanos counter message_id, Ev NextAttempt counter ∈ h /\ q = attempt_path home nanos counter message_id)
  | Unregister q => registered h q
  | RemoveDirAll p => (exists q, registered h q /\ path_starts_with p q = true) \/ stale home h p
  | SpawnRemoval p => registered h p /\ ~ live h p
  | _ => True
  end.

Definition rule (home : location) (h : jtrace) (c : jenkins_call) : Prop := consistent h -> allowed home h c.

Lemma consistent_cons e h : consistent (e :: h) -> consistent h.
Proof. intros Hc p q Hin. apply Hc, elem_of_cons. by right. Qed.

Lemma consistent_extends h h' : extends h h' -> consistent h' -> consistent h.
Proof. intros Hx Hc p q Hin. apply Hc. by eapply extends_in. Qed.

(** Nothing is asked of a handler whose paths are not resolved as [resolve] says. *)
Lemma wp_when_consistent home {A} (p : Effects.prog jenkins_answer A) Q h :
  (consistent h -> wp (rule home) p Q h) -> wp (rule home) p (fun h' a => consistent h' -> Q h' a) h.
Proof.
  revert h. induction p as [a|c k IH]; intros h Hw; cbn; [exact Hw|]. split.
  - intros Hc. by apply Hw.
  - intros r. apply IH. intros Hc. apply Hw. by eapply consistent_cons.
Qed.

(** The state a quiet program leaves. *)
Lemma quiet_rule home {A} (p : Effects.prog jenkins_answer A) h :
  calls_only quiet p -> wp (rule home) p (fun h' _ => extends h h' /\ proto h' = proto h) h.
Proof.
  intros Hq. eapply wp_mono; [by apply wp_calls_only|by intros h' [] Hc|done].
Qed.

Lemma quiet_result home {A} (p : Effects.prog jenkins_answer A) (Q : jtrace -> A -> Prop) h :
  calls_only quiet p -> wp (fun _ _ => True) p Q h -> wp (rule home) p (fun h' a => Q h' a /\ extends h h' /\ proto h' = proto h) h.
Proof.
  intros Hq HQ. eapply wp_mono; [exact (wp_and _ _ _ _ _ _ HQ (quiet_rule home p h Hq))|by intros h' c [_ ?]|done].
Qed.

(** ** Quiet programs *)

Lemma jio_quiet {A} (p : Effects.prog jenkins_answer (result N A)) : calls_only quiet p -> calls_only quiet (jio p).
Proof. intros Hp. apply calls_only_bind; [done|]. intros r. apply calls_only_ret. Qed.

#[local] Hint Resolve jio_quiet : calls_only.

Lemma ensure_component_quiet current : calls_only quiet (ensure_component current).
Proof. unfold ensure_component, jbail, jbail_if, set_private_dir_permissions, jio. calls_only. Qed.

#[local] Hint Resolve ensure_component_quiet : calls_only.

Lemma ensure_components_quiet current parts : calls_only quiet (ensure_components current parts).
Proof. revert current. induction parts as [|part parts IH]; intros current; cbn [ensure_components]; calls_only. Qed.

#[local] Hint Resolve ensure_components_quiet : calls_only.

Lemma create_private_subdirectory_quiet env root p : calls_only quiet (create_private_subdirectory env root p).
Proof. unfold create_private_subdirectory, jbail_if. calls_only. Qed.

Lemma entry_metadata_quiet p : calls_only quiet (entry_metadata p).
Proof. unfold entry_metadata. calls_only. Qed.

#[local] Hint Resolve create_private_subdirectory_quiet entry_metadata_quiet : calls_only.

Lemma run_helper_quiet config url dir : calls_only quiet (run_jenkins_context_helper proc config url dir).
Proof.
  unfold run_jenkins_context_helper, give_up_helper, terminate_jenkins_helper, abort_helper_output, join_helper_output_until,
    terminate_jenkins_helper_process_group. calls_only.
Qed.

#[local] Hint Resolve run_helper_quiet : calls_only.

(** The path a created directory resolves to. *)
Lemma ensure_components_path current parts h :
  wp (fun _ _ => True) (ensure_components current parts) (fun _ r => forall q, r = Ok q -> q = current ++ parts) h.
Proof.
  revert current h. induction parts as [|part parts IH]; intros current h; cbn [ensure_components].
  - intros q [= <-]. by rewrite app_nil_r.
  - rewrite wp_bind_ok. eapply wp_consequence; [apply wp_any|]. intros h' [_|e] _; [|done].
    eapply wp_consequence; [apply IH|]. cbn. intros _ r Hr q Hq. rewrite (Hr q Hq). by rewrite <-app_assoc.
Qed.

Lemma create_private_subdirectory_resolved env root p h :
  wp (fun _ _ => True) (create_private_subdirectory env root p)
    (fun h' r => forall q, r = Ok q -> Ev (Resolve (artifact_absolute_lexical env p)) (Ok q) ∈ h'
       /\ exists canonical_root, Ev (Resolve (artifact_absolute_lexical env root)) (Ok canonical_root) ∈ h' /\ path_starts_with q canonical_root = true) h.
Proof.
  unfold create_private_subdirectory, jbail_if. set (r0 := artifact_absolute_lexical env root). set (p0 := artifact_absolute_lexical env p).
  rewrite wp_bind_ok. cbn [wp]. destruct (path_starts_with p0 r0) eqn:Hs; [|done].
  apply path_starts_with_spec in Hs as (k & ->). rewrite drop_app_length. cbn [negb fail_if].
  rewrite wp_bind_ok. cbn [wp]. destruct (is_empty k || _); [done|]. cbn [fail_if].
  rewrite wp_bind_ok. eapply wp_consequence; [apply wp_any|]. intros h1 [m|e] _; [|done].
  rewrite wp_bind_ok. cbn [wp]. destruct (negb (real_directory m)); [done|]. cbn [fail_if].
  rewrite wp_bind_ok. unfold jio at 1. rewrite wp_bind. cbn [wp perform]. split; [done|]. intros [canonical_root|e]; [|done]. cbn [map_err].
  set (h2 := Ev (Resolve r0) (Ok canonical_root) :: h1).
  rewrite wp_bind_ok. eapply wp_consequence; [apply wp_extends, ensure_components_path|].
  intros h3 [current|e] [Hx Hc]; [|done]. rewrite (Hc current eq_refl).
  rewrite wp_bind_ok. unfold jio. rewrite wp_bind. cbn [wp perform]. split; [done|]. intros [q|e]; cbn; [|done].
  destruct (path_starts_with q canonical_root) eqn:Hq; cbn; [|done]. intros q' [= <-]. split; [apply elem_of_cons; by left|].
  exists canonical_root. split; [|done]. apply elem_of_cons. right. eapply extends_in; [exact Hx|]. apply elem_of_cons. by left.
Qed.

(** ** The handlers follow the protocol *)

(** The lock is held and nothing was registered yet. *)
Definition unregistered (h : jtrace) : Prop := holds h = true /\ forall p, ~ registered h p.

(** The handler owns [q] and does not hold the lock. *)
Definition owning (q : location) (h : jtrace) : Prop := holds h = false /\ live h q.

Lemma unregistered_same h h' : proto h' = proto h -> unregistered h -> unregistered h'.
Proof. intros Hp [Hh Hr]. split; [by rewrite (same_holds h h')|]. intros p Hx. apply (Hr p). by apply (same_registered h h'). Qed.

Lemma owning_same q h h' : proto h' = proto h -> owning q h -> owning q h'.
Proof. intros Hp [Hh Hl]. split; [by rewrite (same_holds h h')|by apply (same_live h h')]. Qed.

(** A quiet step of a handler, with an invariant that quiet events keep. *)
Lemma quiet_step home {A B} (Inv : jtrace -> Prop) (p : Effects.prog jenkins_answer A) (f : A -> Effects.prog jenkins_answer B) Q h :
  calls_only quiet p -> (forall h h', proto h' = proto h -> Inv h -> Inv h') -> Inv h ->
  (forall h' a, extends h h' -> Inv h' -> wp (rule home) (f a) Q h') -> wp (rule home) (Effects.bind p f) Q h.
Proof.
  intros Hq HI Hh Hf. rewrite wp_bind. eapply wp_consequence; [by apply quiet_rule|].
  intros h' a [Hx Hp]. apply Hf; [done|]. by eapply HI.
Qed.

Lemma quiet_step_ok home {E A B} (Inv : jtrace -> Prop) (p : Effects.prog jenkins_answer (result E A)) (f : A -> Effects.prog jenkins_answer (result E B))
    (Q : jtrace -> result E B -> Prop) h :
  calls_only quiet p -> (forall h h', proto h' = proto h -> Inv h -> Inv h') -> Inv h ->
  (forall h' e, extends h h' -> Inv h' -> Q h' (Err e)) ->
  (forall h' a, extends h h' -> Inv h' -> wp (rule home) (f a) Q h') -> wp (rule home) (bind_ok p f) Q h.
Proof. intros Hq HI Hh He Hf. eapply quiet_step; [done..|]. intros h' [a|e]; [by apply Hf|by apply He]. Qed.

Lemma each_entry_rule home {S} (Inv : jtrace -> Prop) (body : S -> bytes -> jprog S) names error s h :
  (forall s name h, Inv h -> wp (rule home) (body s name) (fun h' _ => Inv h') h) ->
  Inv h -> wp (rule home) (each_entry body names error s) (fun h' _ => Inv h') h.
Proof.
  intros Hb. revert s h. induction names as [|name names IH]; intros s h Hh; cbn [each_entry]; [done|].
  rewrite wp_bind_ok. eapply wp_consequence; [by apply Hb|]. intros h' [s'|e] Hh'; [by apply IH|done].
Qed.

Lemma with_entries_rule home {S} (Inv : jtrace -> Prop) dir missing (body : S -> bytes -> jprog S) s h :
  (forall h h', proto h' = proto h -> Inv h -> Inv h') ->
  (forall s name h, Inv h -> wp (rule home) (body s name) (fun h' _ => Inv h') h) ->
  Inv h -> wp (rule home) (with_entries dir missing body s) (fun h' _ => Inv h') h.
Proof.
  intros HI Hb Hh. unfold with_entries. eapply quiet_step; [calls_only|done..|].
  intros h' [l|e] _ Hh'; [by apply each_entry_rule|done].
Qed.

(** Removing under the lock. *)
Lemma remove_rule home (Inv : jtrace -> Prop) p h :
  (forall r h, Inv h -> Inv (Ev (RemoveDirAll p) r :: h)) -> (Inv h -> consistent h -> allowed home h (RemoveDirAll p)) ->
  Inv h -> wp (rule home) (remove_jenkins_artifact_dir p) (fun h' _ => Inv h') h.
Proof.
  intros HI Ha Hh. unfold remove_jenkins_artifact_dir. rewrite wp_bind. cbn [wp]. split.
  - intros Hc. by apply Ha.
  - intros r. cbn. by apply HI.
Qed.

Lemma remove_unregistered p r h : unregistered h -> unregistered (Ev (RemoveDirAll p) r :: h).
Proof. intros [Hh Hr]. split; [done|]. intros q [Hq|Hq]; [done|]. by eapply Hr. Qed.

Lemma remove_owning q p r h : owning q h -> owning q (Ev (RemoveDirAll p) r :: h).
Proof. by intros [Hh Hl]. Qed.

(** Unregistered, with [active] as the last reading of the set. *)
Definition pruning (active : list location) (h : jtrace) : Prop := unregistered h /\ snapshot h = Some active.

Lemma pruning_same active h h' : proto h' = proto h -> pruning active h -> pruning active h'.
Proof. intros Hp [Hu Hs]. split; [by eapply unregistered_same|]. by rewrite (same_snapshot h h'). Qed.

Lemma remove_all_rule home active paths h :
  Forall (fun p => (exists name, p = child home name) /\ p ∉ active) paths -> pruning active h ->
  wp (rule home) (remove_all paths) (fun h' _ => pruning active h') h.
Proof.
  intros Hall. revert h. induction Hall as [|p paths [(name & Hn) Hp] _ IH]; intros h Hh; cbn [remove_all]; [done|].
  rewrite wp_bind_ok. eapply wp_consequence; [apply (remove_rule home (pruning active))| ].
  - intros r h1 [Hu Hs]. split; [by apply remove_unregistered|done].
  - intros [[Hl _] Hs] _. right. split; [done|]. left. by exists active, name.
  - done.
  - intros h' [[]|e] Hh'; [by apply IH|done].
Qed.

(** What the listing of a process root keeps. *)
Definition removable (root : location) (active : list location) (d : ArtifactDir) : Prop :=
  ad_path d = child root (ad_name d) /\ ad_path d ∉ active.

Lemma collect_entries root active names error dirs h :
  Forall (removable root active) dirs ->
  wp (fun _ _ => True) (each_entry (collect_entry root active) names error dirs)
    (fun _ r => forall ds, r = Ok ds -> Forall (removable root active) ds) h.
Proof.
  revert dirs h. induction names as [|name names IH]; intros dirs h Hd; cbn [each_entry].
  - intros ds. destruct error; [done|]. by intros [= <-].
  - rewrite wp_bind_ok. unfold collect_entry at 1. case_bool_decide as Ha; [by apply IH|].
    rewrite wp_bind_ok. eapply wp_consequence; [apply wp_any|]. intros h' [[m|]|e] _; cbn [wp]; [|by apply IH|done].
    destruct (is_directory m); [|by apply IH]. apply IH, Forall_app. split; [done|]. by repeat constructor.
Qed.

Lemma collect_entry_quiet root active dirs name : calls_only quiet (collect_entry root active dirs name).
Proof. unfold collect_entry. calls_only. Qed.

Lemma each_entry_quiet {S} (body : S -> bytes -> jprog S) names error s :
  (forall s name, calls_only quiet (body s name)) -> calls_only quiet (each_entry body names error s).
Proof. intros Hb. revert s. induction names as [|name names IH]; intros s; cbn [each_entry]; calls_only. Qed.

Lemma prune_dirs_rule home h :
  unregistered h -> wp (rule home) (prune_jenkins_artifact_dirs_in home) (fun h' _ => unregistered h') h.
Proof.
  intros Hu. unfold prune_jenkins_artifact_dirs_in. rewrite wp_bind. cbn [wp perform]. split; [by intros _; apply Hu|]. intros active.
  set (h1 := _ :: h). assert (pruning active h1) as Hp.
  { split; [|done]. destruct Hu as [Hh Hr]. split; [done|]. intros p [Hp|Hp]; [done|]. by eapply Hr. }
  rewrite wp_bind_ok. unfold with_entries. eapply quiet_step with (Inv := pruning active); [calls_only|apply pruning_same|done|].
  intros h2 [l|e] _ Hp2; [|by destruct (e =? ENOENT); apply Hp2].
  eapply wp_consequence; [apply (quiet_result home)|].
  { apply each_entry_quiet. intros. apply collect_entry_quiet. }
  { apply (collect_entries home active _ _ []). constructor. }
  intros h3 r (Hd & _ & Hs). assert (pruning active h3) as Hp3 by by eapply pruning_same.
  destruct r as [dirs|e]; [|by apply Hp3]. specialize (Hd _ eq_refl).
  destruct (_ <=? _); [by apply Hp3|].
  eapply wp_consequence; [apply remove_all_rule; [|done]|by intros h4 _ [? _]].
  apply Forall_forall. intros p (d & -> & Hin)%elem_of_map. rewrite Forall_forall in Hd.
  assert (d ∈ dirs) as Hin'. { rewrite <-(stable_sort_perm newer_first). rewrite <-(take_drop_N JENKINS_ARTIFACT_RETENTION_LIMIT). apply elem_of_app. by right. }
  destruct (Hd d Hin') as [Hn Ha]. split; [by exists (ad_name d)|done].
Qed.

Lemma prune_entry_rule base home name h :
  parent home = Some base -> unregistered h -> wp (rule home) (prune_entry base home tt name) (fun h' _ => unregistered h') h.
Proof.
  intros Hb Hu. unfold prune_entry. eapply quiet_step_ok with (Inv := unregistered); [calls_only|apply unregistered_same|done|done|].
  intros h1 [m|] _ Hu1; [|done]. destruct (negb (is_directory m)); [done|].
  case_bool_decide as Hc; [rewrite Hc; by apply prune_dirs_rule|].
  destruct (jenkins_artifact_process_root_pid name) as [pid|]; [|done].
  eapply quiet_step with (Inv := unregistered); [unfold process_may_be_running; calls_only|apply unregistered_same|done|].
  intros h2 [] _ Hu2; [done|]. apply (remove_rule home unregistered); [intros; by apply remove_unregistered| |done].
  intros [Hl _] _. right. split; [done|]. right. by exists base, name.
Qed.

Lemma prune_roots_rule base home h :
  parent home = Some base -> unregistered h ->
  wp (rule home) (prune_jenkins_artifact_process_roots_in base home) (fun h' _ => unregistered h') h.
Proof.
  intros Hb Hu. apply (with_entries_rule home unregistered); [apply unregistered_same| |done].
  intros [] name h1 Hu1. by apply prune_entry_rule.
Qed.

(** ** Preparing *)

(** Giving the directory up. *)
Lemma drop_guard_rule home q h (Q : jtrace -> unit -> Prop) :
  live h q -> Q (Ev (SpawnRemoval q) tt :: Ev (Unregister q) tt :: h) tt -> wp (rule home) (drop_guard q) Q h.
Proof.
  intros Hl HQ. unfold drop_guard. cbn. split; [by intros _; apply live_registered|]. intros []. split; [|by intros []].
  intros _. cbn. split; [right; by apply live_registered|]. by intros [? _].
Qed.

Definition prepared (home : location) (h : jtrace) (r : result JenkinsError location) : Prop :=
  holds h = true /\ forall q, r = Ok q -> live h q /\ exists nanos counter message_id, q = attempt_path home nanos counter message_id.

Lemma prepare_registered_rule home message_id h :
  unregistered h -> wp (rule home) (prepare_registered proc home message_id) (prepared home) h.
Proof.
  intros Hu. unfold prepare_registered, jenkins_artifact_attempt_dir. cbn [Effects.bind perform wp].
  split; [done|]. intros counter. split; [done|]. intros nanos.
  set (q := child home _). set (h1 := _ :: _ :: h). assert (unregistered h1) as [Hh Hn] by by apply (unregistered_same h).
  assert (q = attempt_path home nanos counter message_id) as Hq by done.
  split. { intros _. right. split; [done|]. split; [done|]. exists nanos, counter, message_id. split; [|done].
    apply elem_of_cons. right. apply elem_of_cons. by left. }
  intros []. set (h2 := _ :: h1). eapply quiet_step with (Inv := fun h => holds h = true /\ live h q).
  { unfold jbail_if. calls_only. }
  { intros h3 h4 Hp [? ?]. split; [by rewrite (same_holds h3 h4)|by apply (same_live h3 h4)]. }
  { split; [done|by left]. }
  intros h3 [[]|e] _ [Hh3 Hl3].
  - split; [done|]. intros q' [= <-]. split; [done|]. by exists nanos, counter, message_id.
  - rewrite wp_bind. by apply drop_guard_rule.
Qed.

Lemma prepare_locked_rule codex_cwd message_id h :
  unregistered h ->
  wp (rule (artifact_home codex_cwd)) (prepare_locked proc codex_cwd message_id)
    (fun h' r => consistent h' -> prepared (artifact_home codex_cwd) h' r) h.
Proof.
  intros Hu. unfold prepare_locked. rewrite wp_bind_ok. eapply wp_consequence.
  { apply (quiet_result (artifact_home codex_cwd)); [apply create_private_subdirectory_quiet|apply create_private_subdirectory_resolved]. }
  intros h1 r (Hres & _ & Hs1). assert (unregistered h1) as Hu1 by by eapply unregistered_same.
  destruct r as [home|e]; [|by split; [apply Hu1|]]. destruct (Hres _ eq_refl) as [Hin _]. clear Hres. rename Hin into Hres.
  rewrite wp_bind_ok. cbn [wp]. destruct (parent home) as [base|] eqn:Hb; cbn [ok_or]; [|by split; [apply Hu1|]].
  assert (wp (rule home) (let*? _ := prune_jenkins_artifact_process_roots_in base home in prepare_registered proc home message_id) (prepared home) h1) as Hw.
  { rewrite wp_bind_ok. eapply wp_consequence; [by apply prune_roots_rule|]. intros h2 [[]|e] Hu2; [by apply prepare_registered_rule|].
    split; [apply Hu2|done]. }
  assert (forall h', extends h1 h' -> consistent h' -> home = artifact_home codex_cwd) as Heq.
  { intros h' Hx Hc. by eapply (consistent_extends _ _ Hx Hc). }
  apply wp_extends_guard in Hw. eapply wp_mono; [exact Hw|..].
  - intros h' c [Hr Hx] Hc. rewrite <-(Heq h' Hx Hc). by apply Hr.
  - intros h' a [Hp Hx] Hc. by rewrite <-(Heq h' Hx Hc).
Qed.

Lemma prepare_rule codex_cwd message_id :
  wp (rule (artifact_home codex_cwd)) (prepare_jenkins_artifact_root proc codex_cwd message_id)
    (fun h' r => consistent h' -> forall q, r = Ok q ->
       owning q h' /\ exists nanos counter message_id, q = attempt_path (artifact_home codex_cwd) nanos counter message_id) [].
Proof.
  unfold prepare_jenkins_artifact_root. cbn [Effects.bind perform wp]. split; [done|]. intros []. rewrite wp_bind.
  eapply wp_consequence; [apply prepare_locked_rule; split; [done|by intros p [?|?]]|].
  intros h1 r Hp. cbn. split; [intros Hc; apply Hp; done|]. intros [] Hc q Hq.
  destruct (Hp (consistent_cons _ _ Hc)) as [_ Hr]. destruct (Hr q Hq) as (Hl & Hn). split; [|done]. split; [done|exact Hl].
Qed.

(** ** Prefetching *)

Lemma starts_with_self p : path_starts_with p p = true.
Proof. apply path_starts_with_spec. exists []. by rewrite app_nil_r. Qed.

Lemma remove_owned_rule home q p h :
  path_starts_with p q = true -> owning q h -> wp (rule home) (remove_jenkins_artifact_dir p) (fun h' _ => owning q h') h.
Proof.
  intros Hp Hh. apply (remove_rule home (owning q)); [by intros r h1 [? ?]| |done].
  intros [_ Hl] _. left. exists q. split; [by apply live_registered|done].
Qed.

Lemma reset_rule home env q p h :
  path_starts_with p q = true -> owning q h -> wp (rule home) (reset_jenkins_artifact_dir env q p) (fun h' _ => owning q h') h.
Proof.
  intros Hp Hh. unfold reset_jenkins_artifact_dir. eapply quiet_step with (Inv := owning q); [calls_only|apply owning_same|done|].
  intros h1 found _ Hh1. rewrite wp_bind_ok.
  assert (forall h2 (r : result JenkinsError unit), owning q h2 -> match r with
    | Ok _ => wp (rule home) (create_private_subdirectory env q p) (fun h' _ => owning q h') h2
    | Err e => owning q h2
    end) as Hrest.
  { intros h2 [_|e] Hh2; [|done]. eapply wp_consequence; [apply quiet_rule, create_private_subdirectory_quiet|].
    intros h3 _ [_ Hs]. by eapply owning_same. }
  destruct found as [m|errno]; [|cbn; destruct (negb (errno =? ENOENT)); cbn; [done|by apply (Hrest h1 (Ok tt))]].
  destruct (is_link m); [done|]. destruct (is_directory m); [|done]. unfold jio. rewrite wp_bind. cbn [wp]. split.
  - intros _. left. exists q. split; [by apply live_registered, Hh1|done].
  - intros r. apply (Hrest (Ev (RemoveDirAll p) r :: h1)). by destruct Hh1.
Qed.

Lemma prefetch_url_rule home config reply_format codex_config q index url acc h :
  owning q h -> wp (rule home) (prefetch_url proc config reply_format codex_config q index url acc) (fun h' _ => owning q h') h.
Proof.
  intros Hh. unfold prefetch_url. rewrite wp_bind_ok. eapply wp_consequence; [apply (reset_rule home _ q)|].
  - apply path_starts_with_spec. by eexists.
  - done.
  - intros h1 [dir|e] Hh1; [|done].
    eapply quiet_step_ok with (Inv := owning q); [apply run_helper_quiet|apply owning_same|done|done|]. intros h2 output _ Hh2.
    eapply quiet_step_ok with (Inv := owning q); [calls_only|apply owning_same|done|done|]. intros h3 found _ Hh3.
    destruct (merge_evidence found (pr_console_urls acc) (pr_evidence acc)) as [console_urls evidence].
    rewrite wp_bind_ok. cbn [wp]. destruct (ok_or _ _) as [prompt_dir|e]; [|done].
    rewrite wp_bind_ok. cbn [wp]. by destruct (ok_or _ _) as [prompt_output|e].
Qed.

Lemma prefetch_urls_rule home config reply_format codex_config q index urls acc h :
  owning q h -> wp (rule home) (prefetch_urls proc config reply_format codex_config q index urls acc) (fun h' _ => owning q h') h.
Proof.
  revert index acc h. induction urls as [|url urls IH]; intros index acc h Hh; cbn [prefetch_urls]; [done|].
  rewrite wp_bind_ok. eapply wp_consequence; [by apply prefetch_url_rule|]. intros h1 [acc'|e] Hh1; [by apply IH|done].
Qed.

Lemma cleanup_owned_rule home q h (Q : jtrace -> result JenkinsError unit -> Prop) :
  registered h q -> (forall h' r, Q h' r) -> wp (rule home) (cleanup_jenkins_artifact_dir q) Q h.
Proof.
  intros Hr HQ. unfold cleanup_jenkins_artifact_dir, remove_jenkins_artifact_dir. cbn. split.
  - intros _. left. exists q. split; [done|apply starts_with_self].
  - intros r. split; [by right|]. intros []. apply HQ.
Qed.

Definition prefetched (codex_config : CodexConfig) (h : jtrace) (r : result JenkinsError (option JenkinsPrefetchedContext)) : Prop :=
  forall ctx, r = Ok (Some ctx) -> exists q, owning q h /\ artifact_root ctx = render q
    /\ exists nanos counter message_id, q = attempt_path (artifact_home (cwd codex_config)) nanos counter message_id.

Lemma prompt_rule policy reply_format codex_config context :
  wp (rule (artifact_home (cwd codex_config))) (jenkins_context_prompt proc policy reply_format codex_config context)
    (fun h' r => consistent h' -> prefetched codex_config h' r) [].
Proof.
  unfold jenkins_context_prompt. destruct (jenkins_context policy) as [config|]; [|done]. destruct (negb (jk_enabled config)); [done|].
  destruct (is_empty (extract_jenkins_urls _ _)); [done|]. set (urls := extract_jenkins_urls _ _). set (home := artifact_home (cwd codex_config)).
  rewrite wp_bind_ok. eapply wp_consequence; [apply prepare_rule|]. intros h1 [q|e] Hp; [|by intros _ ctx].
  apply wp_when_consistent. intros Hc. destruct (Hp Hc q eq_refl) as [Ho Hn].
  unfold prefetch_into. rewrite wp_bind. eapply wp_consequence; [by apply prefetch_urls_rule|].
  intros h2 [acc|e] Hh2; [intros ctx [= <-]; by exists q|].
  rewrite wp_bind. apply cleanup_owned_rule; [by apply live_registered, Hh2|]. by intros h3 r ctx.
Qed.

Hypothesis resolve_canonical : forall p, canonical (resolve p).

(** The handler of a message follows the protocol from its start to its end. *)
Lemma message_prefetch_rule policy reply_format codex_config context :
  wp (rule (artifact_home (cwd codex_config))) (message_prefetch proc policy reply_format codex_config context) (fun _ _ => True) [].
Proof.
  unfold message_prefetch. rewrite wp_bind. eapply wp_consequence; [apply prompt_rule|].
  intros h1 [[ctx|]|e] Hp; [|done..]. set (root := components (artifact_root ctx)).
  cbn [Effects.bind perform wp]. split.
  - intros Hc. left. destruct (Hp Hc ctx eq_refl) as (q & [_ Hl] & Hr & nanos & counter & mid & Hq).
    unfold root. rewrite Hr, components_render; [done|]. rewrite Hq. apply canonical_child; [apply resolve_canonical|apply attempt_name_plain].
  - intros []. rewrite wp_bind. apply cleanup_owned_rule; [by left|done].
Qed.

Lemma abandoned_rule home guard locked h :
  (forall q, guard = Some q -> live h q) -> (locked = true -> holds h = true) -> wp (rule home) (abandoned guard locked) (fun _ _ => True) h.
Proof.
  intros Hg Hl. unfold abandoned. rewrite wp_bind.
  assert (forall h', holds h' = holds h -> wp (rule home) (if locked then (perform UnlockSetup : Effects.prog jenkins_answer unit) else Ret tt) (fun _ _ => True) h') as Hu.
  { intros h' Hh. destruct locked; [|done]. split; [|done]. intros _. cbn. rewrite Hh. by apply Hl. }
  destruct guard as [q|]; [|by apply Hu]. apply drop_guard_rule; [by apply Hg|]. by apply Hu.
Qed.

(** ** What a trace that follows the protocol says *)

Lemma registered_attempt home h q :
  guarded (allowed home) h -> registered h q ->
  exists nanos counter message_id, Ev NextAttempt counter ∈ h /\ q = attempt_path home nanos counter message_id.
Proof.
  induction h as [|[c r] h IH]; cbn; [done|]. intros [Hc Hg] [->|Hr].
  - destruct Hc as [Hl|(_ & _ & n & m & mid & Hin & ->)].
    + destruct (IH Hg (live_registered _ _ Hl)) as (n & m & mid & Hin & ->). exists n, m, mid. split; [apply elem_of_cons; by right|done].
    + exists n, m, mid. split; [apply elem_of_cons; by right|done].
  - destruct (IH Hg Hr) as (n & m & mid & Hin & ->). exists n, m, mid. split; [apply elem_of_cons; by right|done].
Qed.

Lemma spawned_given_up home h p r :
  guarded (allowed home) h -> Ev (SpawnRemoval p) r ∈ h -> registered h p /\ ~ live h p.
Proof.
  induction h as [|[c r'] h IH]; cbn; [by intros _ ?%not_elem_of_nil|]. intros [Hc Hg] [[= <- _]|Hin]%elem_of_cons.
  - destruct Hc as [Hr Hl]. split; [by right|done].
  - destruct (IH Hg Hin) as [Hr Hl]. split; [by right|]. destruct c; try done.
    + intros [->|?]; [|done]. destruct Hc as [?|(_ & Hn & _)]; [done|]. by apply (Hn p).
    + by intros [_ ?].
Qed.

(** ** The handlers of many messages *)

Record shared_state : Type := mkShared { sh_active : list location; sh_lock : option nat; sh_counter : N }.

(** What a call of handler [i] may answer, and the state after it. *)
Definition answers (i : nat) (s : shared_state) (c : jenkins_call) : jenkins_answer c -> shared_state -> Prop :=
  match c with
  | LockSetup => fun _ s' => sh_lock s = None /\ s' = mkShared (sh_active s) (Some i) (sh_counter s)
  | UnlockSetup => fun _ s' => s' = mkShared (sh_active s) None (sh_counter s)
  | Register p => fun _ s' => s' = mkShared (p :: sh_active s) (sh_lock s) (sh_counter s)
  | Unregister p => fun _ s' => s' = mkShared (List.filter (fun q => negb (bool_decide (q = p))) (sh_active s)) (sh_lock s) (sh_counter s)
  | ActiveDirs => fun r s' => r = sh_active s /\ s' = s
  | NextAttempt => fun r s' => r = sh_counter s /\ r < 2 ^ 64 /\ s' = mkShared (sh_active s) (sh_lock s) (sh_counter s + 1)
  | Resolve p => fun r s' => s' = s /\ forall q, r = Ok q -> q = resolve p
  | _ => fun _ s' => s' = s
  end.

(** A handler: where its directories are, what it did and what is left to do. *)
Record task : Type := mkTask { tk_home : location; tk_trace : jtrace; tk_rest : Effects.prog jenkins_answer unit }.

Context (cwds : list path).

Inductive pool_step : shared_state * list task -> shared_state * list task -> Prop :=
| pool_start s ts policy reply_format codex_config context :
    cwd codex_config ∈ cwds ->
    pool_step (s, ts)
      (s, ts ++ [mkTask (artifact_home (cwd codex_config)) [] (message_prefetch proc policy reply_format codex_config context)])
| pool_call s ts i home h c k r s' :
    ts !! i = Some (mkTask home h (Do c k)) -> answers i s c r s' ->
    pool_step (s, ts) (s', <[i := mkTask home (Ev c r :: h) (k r)]> ts)
| pool_drop s ts i home h p guard locked :
    ts !! i = Some (mkTask home h p) ->
    (forall q, guard = Some q -> live h q) -> (locked = true -> holds h = true) ->
    pool_step (s, ts) (s, <[i := mkTask home h (abandoned guard locked)]> ts).

Inductive reachable : shared_state * list task -> Prop :=
| reachable_start : reachable (mkShared [] None 0, [])
| reachable_step w w' : reachable w -> pool_step w w' -> reachable w'.

(** The process roots have parents, and none of them lies below the parent of another. *)
Definition separate : Prop :=
  forall a b, a ∈ cwds -> b ∈ cwds -> exists base x, artifact_home a = child base x
    /\ (path_starts_with (artifact_home b) base = true -> artifact_home a = artifact_home b).

Record pool_inv (s : shared_state) (ts : list task) : Prop := {
  inv_rule : forall i t, ts !! i = Some t ->
    wp (rule (tk_home t)) (tk_rest t) (fun _ _ => True) (tk_trace t) /\ consistent (tk_trace t)
    /\ guarded (allowed (tk_home t)) (tk_trace t) /\ exists cwd, cwd ∈ cwds /\ tk_home t = artifact_home cwd;
  inv_lock : forall i t, ts !! i = Some t -> holds (tk_trace t) = true <-> sh_lock s = Some i;
  inv_holder : forall i, sh_lock s = Some i -> exists t, ts !! i = Some t;
  inv_snapshot : forall i t active q, ts !! i = Some t -> holds (tk_trace t) = true -> snapshot (tk_trace t) = Some active ->
    q ∈ sh_active s -> registered (tk_trace t) q \/ q ∈ active;
  inv_active : forall q, q ∈ sh_active s <-> exists i t, ts !! i = Some t /\ live (tk_trace t) q;
  inv_counter : forall i t n, ts !! i = Some t -> Ev NextAttempt n ∈ tk_trace t -> n < sh_counter s;
  inv_fresh : forall i j t u n, i <> j -> ts !! i = Some t -> ts !! j = Some u ->
    Ev NextAttempt n ∈ tk_trace t -> Ev NextAttempt n ∉ tk_trace u
}.

(** Two handlers never register the same directory. *)
Lemma registered_once s ts i j t u q :
  pool_inv s ts -> i <> j -> ts !! i = Some t -> ts !! j = Some u -> registered (tk_trace t) q -> registered (tk_trace u) q -> False.
Proof.
  intros HI Hij Ht Hu Hrt Hru. destruct (inv_rule _ _ HI i t Ht) as (_ & _ & Hgt & _), (inv_rule _ _ HI j u Hu) as (_ & _ & Hgu & _).
  destruct (registered_attempt _ _ _ Hgt Hrt) as (n1 & c1 & m1 & Hin1 & Hq1), (registered_attempt _ _ _ Hgu Hru) as (n2 & c2 & m2 & Hin2 & Hq2).
  rewrite Hq1 in Hq2. apply app_inj_tail in Hq2 as [_ [= Hn%attempt_name_counter]]. subst c2. by eapply (inv_fresh _ _ HI i j).
Qed.

(** ** Every step keeps the invariant *)

(** What an event says of a path. *)
Definition resolved_as (e : jevent) : option (location * location) :=
  match e with
  | Ev (Resolve p) (Ok q) => Some (p, q)
  | _ => None
  end.

Definition attempt_of (e : jevent) : option N :=
  match e with
  | Ev NextAttempt n => Some n
  | _ => None
  end.

Section call.
Context (s s' : shared_state) (ts : list task) (i : nat) (home : location) (h : jtrace) (c : jenkins_call).
Context (k : jenkins_answer c -> Effects.prog jenkins_answer unit) (r : jenkins_answer c).
Hypothesis HI : pool_inv s ts.
Hypothesis Ht : ts !! i = Some (mkTask home h (Do c k)).
Hypothesis Ha : answers i s c r s'.

#[local] Abbreviation t' := (mkTask home (Ev c r :: h) (k r)).

Lemma call_lookup j u : <[i := t']> ts !! j = Some u -> (j = i /\ u = t') \/ (j <> i /\ ts !! j = Some u).
Proof using HI Ht Ha. intros [(-> & -> & _)|[? ?]]%list_lookup_insert_Some; [by left|by right; split; [intros ->|]]. Qed.

Lemma call_self : <[i := t']> ts !! i = Some t'.
Proof using HI Ht Ha. apply list_lookup_insert_eq. by eapply lookup_lt_Some. Qed.

Lemma call_other j u : j <> i -> ts !! j = Some u -> <[i := t']> ts !! j = Some u.
Proof using HI Ht Ha. intros Hj Hu. by rewrite list_lookup_insert_ne. Qed.

Lemma call_consistent : consistent (Ev c r :: h).
Proof using HI Ht Ha.
  destruct (inv_rule _ _ HI i _ Ht) as (_ & Hc & _). cbn in Hc. intros p q [He|Hin]%elem_of_cons; [|by apply Hc].
  apply (f_equal resolved_as) in He. cbn in He. clear k Ht Hc. destruct c as [|p'| | | | | | | | | | | | | | | | | | | | | | |]; try done.
  cbn in He, Ha, r. destruct r as [q'|]; [|done]. injection He as -> ->. by apply Ha.
Qed.

Lemma call_allowed : allowed home h c.
Proof using HI Ht Ha. destruct (inv_rule _ _ HI i _ Ht) as ([Hr _] & Hc & _). by apply Hr. Qed.

Lemma call_rule j u : <[i := t']> ts !! j = Some u ->
  wp (rule (tk_home u)) (tk_rest u) (fun _ _ => True) (tk_trace u) /\ consistent (tk_trace u)
  /\ guarded (allowed (tk_home u)) (tk_trace u) /\ exists cwd, cwd ∈ cwds /\ tk_home u = artifact_home cwd.
Proof using HI Ht Ha.
  intros [[-> ->]|[_ Hu]]%call_lookup; [|by apply (inv_rule _ _ HI j)]. destruct (inv_rule _ _ HI i _ Ht) as ([_ Hk] & _ & Hg & Hcwd).
  split; [apply Hk|]. split; [apply call_consistent|]. split; [|exact Hcwd]. split; [apply call_allowed|exact Hg].
Qed.

(** Who holds the lock. *)
Lemma call_lock j u : <[i := t']> ts !! j = Some u -> holds (tk_trace u) = true <-> sh_lock s' = Some j.
Proof using HI Ht Ha.
  pose proof call_allowed as Hal. pose proof (inv_lock _ _ HI i _ Ht) as Hi. cbn [tk_trace] in Hi.
  intros [[-> ->]|[Hj Hu]]%call_lookup; [|pose proof (inv_lock _ _ HI j u Hu) as Hl]; cbn [tk_trace]; clear k Ht.
  - destruct c; cbn in Ha, Hal |- *; try (subst s'; exact Hi); try (by subst s').
    + by destruct Ha as [-> _].
    + by destruct Ha as [_ ->].
    + by destruct Ha as [_ ->].
    + by destruct Ha as (_ & _ & ->).
  - destruct c; cbn in Ha, Hal |- *; try (subst s'; exact Hl).
    + by destruct Ha as [-> _].
    + destruct Ha as [Hn ->]. rewrite Hl, Hn. cbn. naive_solver.
    + subst s'. rewrite Hl, (proj1 Hi Hal). cbn. naive_solver.
    + by destruct Ha as [_ ->].
    + by destruct Ha as (_ & _ & ->).
Qed.

Lemma call_holder j : sh_lock s' = Some j -> exists u, <[i := t']> ts !! j = Some u.
Proof using HI Ht Ha.
  intros Hj. assert (exists u, ts !! j = Some u) as (u & Hu).
  { assert (sh_lock s = Some j \/ j = i) as [Hl| ->]; [|by apply (inv_holder _ _ HI)|by eexists].
    clear k Ht. destruct c; cbn in Ha; try (subst s'; by left); try (destruct Ha as [_ ->]; by left).
    + destruct Ha as [-> _]. by left.
    + destruct Ha as [_ ->]. injection Hj as <-. by right.
    + destruct Ha as (_ & _ & ->). by left. }
  destruct (decide (j = i)) as [->|Hne]; [exists t'; apply call_self|]. exists u. by apply call_other.
Qed.

(** The set of active directories. *)
Lemma call_active q : q ∈ sh_active s' <-> c = Register q \/ (q ∈ sh_active s /\ c <> Unregister q).
Proof using HI Ht Ha.
  clear k Ht. destruct c as [| | | | | | | | |p|p| | | | | | | | | | | | | |]; cbn in Ha; try (subst s'; naive_solver).
  - destruct Ha as [-> _]. naive_solver.
  - destruct Ha as [_ ->]. naive_solver.
  - subst s'. cbn. rewrite elem_of_cons. naive_solver.
  - subst s'. cbn. rewrite list_elem_of_In, filter_In, <-list_elem_of_In, negb_true_iff, bool_decide_eq_false. naive_solver.
  - destruct Ha as [_ ->]. naive_solver.
  - destruct Ha as (_ & _ & ->). naive_solver.
Qed.

Lemma call_live q : live (Ev c r :: h) q <-> c = Register q \/ (live h q /\ c <> Unregister q).
Proof using HI Ht Ha. clear k Ht. destruct c; cbn; naive_solver. Qed.

Lemma call_new q : c = Register q -> q ∈ sh_active s \/ holds h = true.
Proof using HI Ht Ha.
  pose proof call_allowed as Hal. intros Hc. pose proof (inv_active _ _ HI q) as Hact. rewrite Hc in Hal. cbn in Hal.
  destruct Hal as [Hl|[Hh _]]; [|by right]. left. apply Hact. by exists i, (mkTask home h (Do c k)).
Qed.

Lemma call_snapshot j u active q : <[i := t']> ts !! j = Some u -> holds (tk_trace u) = true -> snapshot (tk_trace u) = Some active ->
  q ∈ sh_active s' -> registered (tk_trace u) q \/ q ∈ active.
Proof using HI Ht Ha.
  intros Hlook Hh Hs Hq. assert (q ∈ sh_active s \/ (holds h = true /\ c = Register q)) as [Hq'|[Hhold Hreg]].
  { apply call_active in Hq as [Hc|[Hq _]]; [|by left]. destruct (call_new q Hc); [by left|by right]. }
  all: clear Hq; try rename Hq' into Hq; apply call_lookup in Hlook as [[-> ->]|[Hj Hu]].
  - pose proof (inv_snapshot _ _ HI i _ active q Ht) as Hi. cbn [tk_trace] in *. clear k Ht.
    destruct c; cbn in Ha, Hh, Hs |- *; try done; try (by right; apply Hi); try (destruct (Hi Hh Hs Hq); [left; by right|by right]).
    injection Hs as <-. right. by destruct Ha as [-> _].
  - by apply (inv_snapshot _ _ HI j u).
  - left. cbn. by left.
  - exfalso. apply (inv_lock _ _ HI i _ Ht) in Hhold. apply (inv_lock _ _ HI j u Hu) in Hh. congruence.
Qed.

Lemma call_active_live q : q ∈ sh_active s' <-> exists j u, <[i := t']> ts !! j = Some u /\ live (tk_trace u) q.
Proof using HI Ht Ha.
  rewrite call_active, (inv_active _ _ HI). split.
  - intros [Hc|[(j & u & Hu & Hl) Hn]].
    + exists i, t'. split; [apply call_self|]. apply call_live. by left.
    + destruct (decide (j = i)) as [->|Hj].
      * rewrite Ht in Hu. injection Hu as <-. exists i, t'. split; [apply call_self|]. apply call_live. by right.
      * exists j, u. split; [by apply call_other|done].
  - intros (j & u & [[-> ->]|[Hj Hu]]%call_lookup & Hl).
    + apply call_live in Hl as [?|[Hl Hn]]; [by left|]. right. split; [|done]. by exists i, (mkTask home h (Do c k)).
    + right. split; [by exists j, u|]. intros Hc. pose proof call_allowed as Hal. rewrite Hc in Hal.
      eapply (registered_once s ts i j); [exact HI|by intros ->|exact Ht|exact Hu|exact Hal|by apply live_registered].
Qed.

(** The counter of attempts. *)
Lemma call_counter_mono : sh_counter s <= sh_counter s'.
Proof using HI Ht Ha.
  clear k Ht. destruct c; cbn in Ha; try (subst s'; cbn; lia); try (destruct Ha as [-> _]; cbn; lia); try (destruct Ha as [_ ->]; cbn; lia).
  destruct Ha as (_ & _ & ->). cbn. lia.
Qed.

Lemma call_attempt n : Ev NextAttempt n ∈ Ev c r :: h -> Ev NextAttempt n ∈ h \/ (n = sh_counter s /\ n < sh_counter s').
Proof using HI Ht Ha.
  intros [He|?]%elem_of_cons; [|by left]. right. apply (f_equal attempt_of) in He. clear k Ht. destruct c; try done.
  cbn in He, Ha, r. injection He as ->. destruct Ha as (-> & _ & ->). cbn. lia.
Qed.

Lemma pool_inv_call : pool_inv s' (<[i := t']> ts).
Proof using HI Ht Ha.
  split.
  - apply call_rule.
  - apply call_lock.
  - apply call_holder.
  - apply call_snapshot.
  - apply call_active_live.
  - intros j u n [[-> ->]|[Hj Hu]]%call_lookup Hin.
    + apply call_attempt in Hin as [Hin|[_ ?]]; [|done]. pose proof (inv_counter _ _ HI i _ n Ht Hin). pose proof call_counter_mono. lia.
    + pose proof (inv_counter _ _ HI j u n Hu Hin). pose proof call_counter_mono. lia.
  - assert (forall j u n, j <> i -> ts !! j = Some u -> Ev NextAttempt n ∈ Ev c r :: h -> Ev NextAttempt n ∉ tk_trace u) as Hnew.
    { intros j u n Hj Hu [Hin|[-> _]]%call_attempt; [by apply (inv_fresh _ _ HI i j _ _ n (not_eq_sym Hj) Ht Hu)|].
      intros Hin. pose proof (inv_counter _ _ HI j u _ Hu Hin). lia. }
    intros j l u v n Hne [[-> ->]|[Hj Hu]]%call_lookup [[-> ->]|[Hl Hv]]%call_lookup; [done|by apply (Hnew l)| |by apply (inv_fresh _ _ HI j l)].
    intros Hin Hin'. by apply (Hnew j u n Hj Hu Hin').
Qed.
End call.

Lemma pool_inv_start s ts policy reply_format codex_config context :
  pool_inv s ts -> cwd codex_config ∈ cwds ->
  pool_inv s (ts ++ [mkTask (artifact_home (cwd codex_config)) [] (message_prefetch proc policy reply_format codex_config context)]).
Proof using resolve_canonical.
  intros HI Hcwd. set (new := mkTask _ _ _).
  assert (forall j u, (ts ++ [new]) !! j = Some u -> ts !! j = Some u \/ (u = new /\ ts !! j = None)) as Hlook.
  { intros j u [Hu|[Hl Hu]]%lookup_app_Some; [by left|right]. apply list_lookup_singleton_Some in Hu as [_ <-]. split; [done|]. by apply lookup_ge_None. }
  assert (forall j u, ts !! j = Some u -> (ts ++ [new]) !! j = Some u) as Hold by (intros j u Hu; by apply lookup_app_l_Some).
  split.
  - intros j u [Hu|[-> _]]%Hlook; [by apply (inv_rule _ _ HI j)|]. split; [by apply message_prefetch_rule|]. split; [by intros p q ?%not_elem_of_nil|].
    split; [done|]. by eexists.
  - intros j u [Hu|[-> Hn]]%Hlook; [by apply (inv_lock _ _ HI j)|]. split; [done|]. intros (v & Hv)%(inv_holder _ _ HI). congruence.
  - intros j (u & Hu)%(inv_holder _ _ HI). exists u. by apply Hold.
  - intros j u active q [Hu|[-> _]]%Hlook; [by apply (inv_snapshot _ _ HI j)|done].
  - intros q. rewrite (inv_active _ _ HI). split.
    + intros (j & u & Hu & Hl). exists j, u. split; [by apply Hold|done].
    + intros (j & u & [Hu|[-> _]]%Hlook & Hl); [by exists j, u|done].
  - intros j u n [Hu|[-> _]]%Hlook; [by apply (inv_counter _ _ HI j)|by intros ?%not_elem_of_nil].
  - intros j l u v n Hne [Hu|[-> _]]%Hlook [Hv|[-> _]]%Hlook.
    + by apply (inv_fresh _ _ HI j l).
    + by intros _ ?%not_elem_of_nil.
    + by intros ?%not_elem_of_nil.
    + by intros ?%not_elem_of_nil.
Qed.

Lemma pool_inv_drop s ts i home h p guard locked :
  pool_inv s ts -> ts !! i = Some (mkTask home h p) ->
  (forall q, guard = Some q -> live h q) -> (locked = true -> holds h = true) ->
  pool_inv s (<[i := mkTask home h (abandoned guard locked)]> ts).
Proof.
  intros HI Ht Hg Hl. set (t' := mkTask home h (abandoned guard locked)).
  assert (forall j u, <[i := t']> ts !! j = Some u -> exists v, ts !! j = Some v /\ tk_trace v = tk_trace u /\ tk_home v = tk_home u
    /\ (v = u \/ u = t')) as Hlook.
  { intros j u [(-> & <- & _)|[Hj Hu]]%list_lookup_insert_Some; [|exists u; auto].
    exists (mkTask home h p). split; [done|]. split; [done|]. split; [done|]. by right. }
  assert (forall j u, ts !! j = Some u -> exists v, <[i := t']> ts !! j = Some v /\ tk_trace v = tk_trace u) as Hback.
  { intros j u Hu. destruct (decide (i = j)) as [<-|Hj]; [|exists u; by rewrite list_lookup_insert_ne].
    exists t'. split; [apply list_lookup_insert_eq; by eapply lookup_lt_Some|]. rewrite Ht in Hu. by injection Hu as <-. }
  split.
  - intros j u (v & Hv & Htr & Hho & Hor)%Hlook. destruct (inv_rule _ _ HI j v Hv) as (Hw & Hc & Hgd & Hcwd). rewrite <-Htr, <-Hho.
    split; [|done]. destruct Hor as [->| ->]; [exact Hw|]. cbn in Htr. rewrite Htr. by apply abandoned_rule.
  - intros j u (v & Hv & <- & _)%Hlook. by apply (inv_lock _ _ HI j).
  - intros j (u & Hu)%(inv_holder _ _ HI). destruct (Hback j u Hu) as (v & Hv & _). by exists v.
  - intros j u active q (v & Hv & <- & _)%Hlook. by apply (inv_snapshot _ _ HI j).
  - intros q. rewrite (inv_active _ _ HI). split.
    + intros (j & u & Hu & Hlv). destruct (Hback j u Hu) as (v & Hv & He). exists j, v. by rewrite He.
    + intros (j & u & (v & Hv & <- & _)%Hlook & Hlv). by exists j, v.
  - intros j u n (v & Hv & <- & _)%Hlook. by apply (inv_counter _ _ HI j).
  - intros j l u v n Hne (u' & Hu & <- & _)%Hlook (v' & Hv & <- & _)%Hlook. by apply (inv_fresh _ _ HI j l).
Qed.

Lemma reachable_inv w : reachable w -> pool_inv w.1 w.2.
Proof using resolve_canonical.
  induction 1 as [|w w' Hr IH Hstep].
  - assert (forall i t, @nil task !! i <> Some t) as Hnil by (intros i t; by rewrite lookup_nil).
    split; cbn; try (intros i t; intros; by destruct (Hnil i t)); try done.
    intros q. split; [by intros ?%not_elem_of_nil|]. intros (i & t & Ht & _). by destruct (Hnil i t).
  - destruct Hstep; cbn [fst snd] in *; [by apply pool_inv_start|by eapply pool_inv_call|by eapply pool_inv_drop].
Qed.

(** ** What a removal can touch *)

Definition next_removal (p : Effects.prog jenkins_answer unit) : option location :=
  match p with
  | Do (RemoveDirAll p) _ | Do (SpawnRemoval p) _ => Some p
  | _ => None
  end.

Lemma prefix_same_length (a b : location) : path_starts_with a b = true -> length a = length b -> a = b.
Proof. intros (k & ->)%path_starts_with_spec. rewrite length_app. intros Hl. destruct k; [by rewrite app_nil_r|cbn in Hl; lia]. Qed.

(** A registered directory lies directly in its handler's process root. *)
Lemma registered_child s ts i t q :
  pool_inv s ts -> ts !! i = Some t -> registered (tk_trace t) q -> exists name, q = child (tk_home t) name.
Proof.
  intros HI Ht Hr. destruct (inv_rule _ _ HI i t Ht) as (_ & _ & Hg & _).
  destruct (registered_attempt _ _ _ Hg Hr) as (n & c & m & _ & ->). by eexists.
Qed.

(** A directory in one process root that lies below one directly in another is that one. *)
Lemma process_roots_apart a b name name' :
  separate -> a ∈ cwds -> b ∈ cwds ->
  path_starts_with (child (artifact_home b) name) (child (artifact_home a) name') = true ->
  child (artifact_home b) name = child (artifact_home a) name'.
Proof.
  intros Hsep Ha Hb (k & Hk)%path_starts_with_spec. destruct k as [|z k _] using rev_ind; [by rewrite app_nil_r in Hk|].
  destruct (Hsep a b Ha Hb) as (base & x & Hx & Heq). rewrite Hk. exfalso. unfold child in *.
  rewrite app_assoc in Hk. apply app_inj_tail in Hk as [Hk _].
  assert (artifact_home a = artifact_home b) as He.
  { apply Heq, path_starts_with_spec. exists ([Normal x; Normal name'] ++ k). rewrite Hk, Hx. by rewrite <-!app_assoc. }
  rewrite He in Hk. apply (f_equal length) in Hk. rewrite !length_app in Hk. cbn in Hk. lia.
Qed.

(** Nor is it below what another process left beside that process root. *)
Lemma stale_roots_apart a b base name name' :
  separate -> a ∈ cwds -> b ∈ cwds -> parent (artifact_home a) = Some base -> child base name' <> artifact_home a ->
  path_starts_with (child (artifact_home b) name) (child base name') = false.
Proof.
  intros Hsep Ha Hb Hbase Hne. apply not_true_iff_false. intros (k & Hk)%path_starts_with_spec.
  destruct (Hsep a b Ha Hb) as (base' & x & Hx & Heq). unfold child in *. rewrite Hx, parent_snoc in Hbase by done. injection Hbase as ->.
  destruct k as [|z k _] using rev_ind.
  - rewrite app_nil_r in Hk. apply app_inj_tail in Hk as [Hk _].
    assert (artifact_home a = artifact_home b) as He by (apply Heq, path_starts_with_spec; exists []; by rewrite app_nil_r).
    rewrite He, Hk in Hx. apply (f_equal length) in Hx. rewrite length_app in Hx. cbn in Hx. lia.
  - rewrite app_assoc in Hk. apply app_inj_tail in Hk as [Hk _].
    assert (artifact_home a = artifact_home b) as He.
    { apply Heq, path_starts_with_spec. exists ([Normal name'] ++ k). by rewrite Hk, <-app_assoc. }
    rewrite He, Hk, <-app_assoc in Hx. apply app_inv_head in Hx. cbn in Hx. injection Hx as -> ->.
    apply Hne. by rewrite He, Hk, app_nil_r.
Qed.

(** What a handler removes is never what another one holds. *)
Lemma removal_apart s ts i j t u p q :
  separate -> pool_inv s ts -> i <> j -> ts !! i = Some t -> ts !! j = Some u ->
  allowed (tk_home t) (tk_trace t) (RemoveDirAll p) -> live (tk_trace u) q -> path_starts_with q p = false.
Proof.
  intros Hsep HI Hij Ht Hu Hal Hl. apply not_true_iff_false. intros Hp.
  destruct (inv_rule _ _ HI i t Ht) as (_ & _ & _ & a & Ha & Hta), (inv_rule _ _ HI j u Hu) as (_ & _ & _ & b & Hb & Hub).
  destruct (registered_child _ _ _ _ _ HI Hu (live_registered _ _ Hl)) as (name & Hq). rewrite Hub in Hq.
  destruct Hal as [(q0 & Hr0 & Hs0)|[Hh [(active & name' & Hsn & -> & Hna)|(base & name' & Hbase & -> & Hne)]]].
  - destruct (registered_child _ _ _ _ _ HI Ht Hr0) as (name0 & Hq0). rewrite Hta in Hq0. subst q q0.
    assert (child (artifact_home b) name = child (artifact_home a) name0) as He.
    { apply process_roots_apart; [done..|]. apply path_starts_with_spec in Hs0 as (k0 & ->). apply path_starts_with_spec in Hp as (k & ->).
      apply path_starts_with_spec. exists (k0 ++ k). by rewrite app_assoc. }
    rewrite <-He in Hr0. by eapply (registered_once s ts i j), live_registered.
  - rewrite Hta in *. subst q. apply process_roots_apart in Hp as He; [|done..]. rewrite <-He in Hna.
    destruct (inv_snapshot _ _ HI i t active (child (artifact_home b) name) Ht Hh Hsn) as [Hr|?]; [|by eapply (registered_once s ts i j), live_registered|done].
    apply (inv_active _ _ HI). by exists j, u.
  - rewrite Hta in *. subst q. by rewrite (stale_roots_apart a b base) in Hp.
Qed.
End shared.

(** ** One helper per URL *)

Section helpers.
Context (proc : JenkinsProcess) (config : JenkinsContextConfig) (urls : list str).

(** Calls that neither register nor give up a directory and start no helper. *)
Definition plain_call (c : jenkins_call) : bool :=
  match c with
  | Register _ | Unregister _ | SpawnHelper _ => false
  | _ => true
  end.

(** A helper runs for one of the URLs, and writes to the directory of that URL: it was resolved
    and lies in the directory of the message, which is registered. *)
Definition contained (h : jtrace) (c : jenkins_call) : Prop :=
  match c with
  | SpawnHelper command =>
      exists message_dir index url dir canonical_root,
        live h message_dir /\ urls !! N.to_nat (index - 1) = Some url /\ 1 <= index
        /\ Ev (Resolve (artifact_absolute_lexical (jp_paths proc) message_dir)) (Ok canonical_root) ∈ h
        /\ Ev (Resolve (artifact_absolute_lexical (jp_paths proc) (jenkins_artifact_dir message_dir index))) (Ok dir) ∈ h
        /\ path_starts_with dir canonical_root = true
        /\ command = helper_command (jp_vars proc) config url (render dir)
  | _ => True
  end.

(** The only directory the handler registered, which it holds or gave up. *)
Definition sole (q : location) (h : jtrace) : Prop := forall p, registered h p -> p = q.

Definition given_up (h : jtrace) : Prop :=
  forall q, registered h q -> ~ live h q /\ (Ev (SpawnRemoval q) tt ∈ h \/ exists r, Ev (RemoveDirAll q) r ∈ h).

Lemma plain_contained {A} (p : Effects.prog jenkins_answer A) h :
  calls_only plain_call p ->
  wp contained p (fun h' _ => extends h h' /\ (forall q, registered h' q <-> registered h q) /\ (forall q, live h' q <-> live h q)) h.
Proof.
  intros Hp. eapply wp_mono; [by apply wp_calls_only|by intros h' [] Hc|]. intros h' _ [Hx Hf]. split; [done|].
  assert (forall g q, registered (List.filter (fun e : jevent => negb (plain_call (ev_call e))) g) q <-> registered g q) as Hr.
  { intros g q. induction g as [|[c r] g IH]; [done|]. cbn. destruct c; cbn; rewrite ?IH; naive_solver. }
  assert (forall g q, live (List.filter (fun e : jevent => negb (plain_call (ev_call e))) g) q <-> live g q) as Hl.
  { intros g q. induction g as [|[c r] g IH]; [done|]. cbn. destruct c; cbn; rewrite ?IH; naive_solver. }
  split; intros q; [by rewrite <-(Hr h'), Hf|by rewrite <-(Hl h'), Hf].
Qed.

Lemma plain_result {A} (p : Effects.prog jenkins_answer A) (Q : jtrace -> A -> Prop) h :
  calls_only plain_call p -> wp (fun _ _ => True) p Q h ->
  wp contained p (fun h' a => Q h' a /\ extends h h' /\ (forall q, registered h' q <-> registered h q) /\ (forall q, live h' q <-> live h q)) h.
Proof.
  intros Hp HQ. eapply wp_mono; [exact (wp_and _ _ _ _ _ _ HQ (plain_contained p h Hp))|by intros h' c [_ ?]|done].
Qed.

(** Which programs make only such calls. *)
Lemma jio_plain {A} (p : Effects.prog jenkins_answer (result N A)) : calls_only plain_call p -> calls_only plain_call (jio p).
Proof. intros Hp. apply calls_only_bind; [done|]. intros r. apply calls_only_ret. Qed.

#[local] Hint Resolve jio_plain : calls_only.

Lemma ensure_component_plain current : calls_only plain_call (ensure_component current).
Proof. unfold ensure_component, jbail, jbail_if, set_private_dir_permissions, jio. calls_only. Qed.

#[local] Hint Resolve ensure_component_plain : calls_only.

Lemma ensure_components_plain current parts : calls_only plain_call (ensure_components current parts).
Proof. revert current. induction parts as [|part parts IH]; intros current; cbn [ensure_components]; calls_only. Qed.

#[local] Hint Resolve ensure_components_plain : calls_only.

Lemma create_private_subdirectory_plain env root p : calls_only plain_call (create_private_subdirectory env root p).
Proof. unfold create_private_subdirectory, jbail_if. calls_only. Qed.

Lemma remove_plain p : calls_only plain_call (remove_jenkins_artifact_dir p).
Proof. unfold remove_jenkins_artifact_dir. calls_only. Qed.

Lemma remove_all_plain paths : calls_only plain_call (remove_all paths).
Proof.
  induction paths as [|p paths IH]; cbn [remove_all]; [apply calls_only_ret|]. apply calls_only_bind_ok; [apply remove_plain|done].
Qed.

Lemma entry_metadata_plain p : calls_only plain_call (entry_metadata p).
Proof. unfold entry_metadata. calls_only. Qed.

Lemma with_entries_plain {S} dir missing (body : S -> bytes -> jprog S) s :
  (forall s name, calls_only plain_call (body s name)) -> calls_only plain_call (with_entries dir missing body s).
Proof.
  intros Hb. unfold with_entries. apply calls_only_bind; [calls_only|]. intros [l|e]; [|calls_only].
  generalize (ls_names l). intros names. revert s. induction names as [|name names IH]; intros s; cbn [each_entry]; [apply calls_only_ret|].
  apply calls_only_bind_ok; [apply Hb|done].
Qed.

#[local] Hint Resolve create_private_subdirectory_plain remove_plain remove_all_plain entry_metadata_plain : calls_only.

Lemma prune_dirs_plain root : calls_only plain_call (prune_jenkins_artifact_dirs_in root).
Proof.
  unfold prune_jenkins_artifact_dirs_in. apply calls_only_bind; [calls_only|]. intros active. apply calls_only_bind_ok.
  - apply with_entries_plain. intros dirs name. unfold collect_entry. calls_only.
  - intros dirs. calls_only.
Qed.

#[local] Hint Resolve prune_dirs_plain : calls_only.

Lemma prune_roots_plain base home : calls_only plain_call (prune_jenkins_artifact_process_roots_in base home).
Proof. apply with_entries_plain. intros [] name. unfold prune_entry, process_may_be_running. calls_only. Qed.

#[local] Hint Resolve prune_roots_plain : calls_only.

Lemma drop_guard_gives_up q h (Q : jtrace -> unit -> Prop) :
  sole q h -> (forall h', given_up h' -> Q h' tt) -> wp contained (drop_guard q) Q h.
Proof.
  intros Hs HQ. unfold drop_guard. cbn. split; [done|]. intros []. split; [done|]. intros []. apply HQ.
  intros p [?|[?|Hp]]; [done..|]. rewrite (Hs p Hp). cbn. split; [naive_solver|]. left. apply elem_of_cons. by left.
Qed.

Definition ready (h : jtrace) (r : result JenkinsError location) : Prop :=
  match r with
  | Ok q => live h q /\ sole q h
  | Err _ => given_up h
  end.

Lemma nothing_given_up h : (forall q, ~ registered h q) -> given_up h.
Proof. intros Hn q Hq. by destruct (Hn q). Qed.

Lemma prepare_registered_ready home message_id h :
  (forall q, ~ registered h q) -> wp contained (prepare_registered proc home message_id) ready h.
Proof.
  intros Hn. unfold prepare_registered, jenkins_artifact_attempt_dir. cbn [Effects.bind perform wp].
  split; [done|]. intros counter. split; [done|]. intros nanos. set (q := child home _). split; [done|]. intros [].
  set (h2 := _ :: _ :: _ :: h). assert (sole q h2) as Hs.
  { intros p [Hp|[?|[?|Hp]]]; [by injection Hp|done..|by destruct (Hn p)]. }
  rewrite wp_bind. eapply wp_consequence; [apply plain_contained; unfold jbail_if; calls_only|].
  intros h3 [[]|e] (_ & Hr & Hl).
  - split; [apply Hl; by left|]. intros p Hp. by apply Hs, Hr.
  - rewrite wp_bind. apply drop_guard_gives_up; [intros p Hp; by apply Hs, Hr|done].
Qed.

Lemma prepare_ready codex_cwd message_id : wp contained (prepare_jenkins_artifact_root proc codex_cwd message_id) ready [].
Proof.
  unfold prepare_jenkins_artifact_root. cbn [Effects.bind perform wp]. split; [done|]. intros []. rewrite wp_bind.
  assert (forall h r, ready h r -> wp contained (let* _ := (perform UnlockSetup : Effects.prog jenkins_answer unit) in Ret r) ready h) as Hunlock.
  { intros h [q|e] Hr; (split; [done|]); intros []; cbn in *.
    - destruct Hr as [Hl Hs]. split; [done|]. intros p [?|Hp]; [done|by apply Hs].
    - intros p [?|Hp]; [done|]. destruct (Hr p Hp) as [Hl [Hin|(r & Hin)]]; (split; [done|]); [left|right; exists r]; apply elem_of_cons; by right. }
  assert (forall q, ~ registered [Ev LockSetup tt] q) as Hn by (by intros q [?|?]).
  unfold prepare_locked. rewrite wp_bind_ok. eapply wp_consequence; [apply plain_contained, create_private_subdirectory_plain|].
  intros h1 [home|e] (_ & Hr1 & _); [|apply Hunlock, nothing_given_up; intros q Hq; by apply (Hn q), Hr1].
  rewrite wp_bind_ok. cbn [wp]. destruct (parent home) as [base|]; cbn [ok_or]; [|apply Hunlock, nothing_given_up; intros q Hq; by apply (Hn q), Hr1].
  rewrite wp_bind_ok. eapply wp_consequence; [apply plain_contained, prune_roots_plain|].
  intros h2 [[]|e] (_ & Hr2 & _); [|apply Hunlock, nothing_given_up; intros q Hq; by apply (Hn q), Hr1, Hr2].
  eapply wp_consequence; [apply prepare_registered_ready; intros q Hq; by apply (Hn q), Hr1, Hr2|]. exact Hunlock.
Qed.

(** A directory that is held is the only one. *)
Definition holding (q : location) (h : jtrace) : Prop := live h q /\ sole q h.

Lemma holding_same q h h' :
  (forall p, registered h' p <-> registered h p) -> (forall p, live h' p <-> live h p) -> holding q h -> holding q h'.
Proof. intros Hr Hl [Hh Hs]. split; [by apply Hl|]. intros p Hp. by apply Hs, Hr. Qed.

Lemma plain_holding {A} (p : Effects.prog jenkins_answer A) q h :
  calls_only plain_call p -> holding q h -> wp contained p (fun h' _ => extends h h' /\ holding q h') h.
Proof.
  intros Hp Hh. eapply wp_consequence; [by apply plain_contained|]. intros h' _ (Hx & Hr & Hl). split; [done|]. by eapply holding_same.
Qed.

Lemma plain_step_ok {A B} (p : jprog A) (f : A -> jprog B) q (Q : jtrace -> result JenkinsError B -> Prop) h :
  calls_only plain_call p -> holding q h -> (forall h' e, holding q h' -> Q h' (Err e)) ->
  (forall h' a, holding q h' -> wp contained (f a) Q h') -> wp contained (bind_ok p f) Q h.
Proof.
  intros Hp Hh He Hf. rewrite wp_bind_ok. eapply wp_consequence; [by apply plain_holding|]. intros h' [a|e] [_ Hh']; [by apply Hf|by apply He].
Qed.

Lemma run_helper_holding url dir q h :
  holding q h -> contained h (SpawnHelper (helper_command (jp_vars proc) config url (render dir))) ->
  wp contained (run_jenkins_context_helper proc config url dir) (fun h' _ => holding q h') h.
Proof.
  intros Hh Hc. unfold run_jenkins_context_helper. rewrite wp_bind. cbn [wp perform]. split; [exact Hc|]. intros spawned.
  set (h1 := _ :: h). assert (holding q h1) as Hh1. { destruct Hh as [Hl Hs]. split; [done|]. intros p [?|Hp]; [done|by apply Hs]. }
  destruct (negb spawned); [done|]. eapply wp_consequence; [apply plain_holding; [|exact Hh1]|by intros h' _ [_ ?]].
  unfold give_up_helper, terminate_jenkins_helper, abort_helper_output, join_helper_output_until, terminate_jenkins_helper_process_group. calls_only.
Qed.

(** The directory of a URL. *)
Lemma reset_resolved q index h :
  holding q h ->
  wp contained (reset_jenkins_artifact_dir (jp_paths proc) q (jenkins_artifact_dir q index))
    (fun h' r => holding q h' /\ forall dir, r = Ok dir ->
       Ev (Resolve (artifact_absolute_lexical (jp_paths proc) (jenkins_artifact_dir q index))) (Ok dir) ∈ h'
       /\ exists canonical_root, Ev (Resolve (artifact_absolute_lexical (jp_paths proc) q)) (Ok canonical_root) ∈ h' /\ path_starts_with dir canonical_root = true) h.
Proof.
  intros Hh. unfold reset_jenkins_artifact_dir. rewrite wp_bind. eapply wp_consequence; [apply plain_holding; [calls_only|exact Hh]|].
  intros h1 found [_ Hh1]. eapply plain_step_ok; [|exact Hh1|done|].
  - destruct found; unfold jbail, jio; calls_only.
  - intros h2 [] Hh2. eapply wp_consequence.
    + apply plain_result; [apply create_private_subdirectory_plain|apply create_private_subdirectory_resolved].
    + intros h3 r (Hres & _ & Hr & Hl). split; [by eapply holding_same|exact Hres].
Qed.

(** A section of the prompt speaks of its URL. *)
Definition section_of (url section : str) : Prop :=
  exists prompt_artifact_dir output, section = prompt_section config url prompt_artifact_dir output.

Lemma prefetch_url_holding reply_format codex_config q index url acc h :
  holding q h -> urls !! N.to_nat (index - 1) = Some url -> 1 <= index ->
  wp contained (prefetch_url proc config reply_format codex_config q index url acc)
    (fun h' r => holding q h' /\ forall acc', r = Ok acc' -> exists section, pr_sections acc' = pr_sections acc ++ [section] /\ section_of url section) h.
Proof.
  intros Hh Hurl Hi. unfold prefetch_url. rewrite wp_bind_ok. eapply wp_consequence; [by apply reset_resolved|].
  intros h1 [dir|e] [Hh1 Hres]; [|done]. destruct (Hres dir eq_refl) as (Hin & canonical_root & Hroot & Hs).
  rewrite wp_bind_ok. eapply wp_consequence; [apply (run_helper_holding url dir q h1 Hh1)|].
  { exists q, index, url, dir, canonical_root. by destruct Hh1. }
  intros h2 [output|e] Hh2; [|done].
  eapply plain_step_ok; [destruct (evidence_required reply_format); calls_only|exact Hh2|done|]. intros h3 found Hh3.
  destruct (merge_evidence found (pr_console_urls acc) (pr_evidence acc)) as [console_urls evidence].
  rewrite wp_bind_ok. cbn [wp]. destruct (ok_or (codex_artifact_prompt_path _ _ _) _) as [prompt_dir|e]; [|done].
  rewrite wp_bind_ok. cbn [wp]. destruct (ok_or _ _) as [prompt_output|e]; [|done].
  split; [done|]. intros acc' [= <-]. cbn. eexists. split; [done|]. by eexists _, _.
Qed.

Lemma prefetch_urls_holding reply_format codex_config q index rest acc h :
  holding q h -> drop (N.to_nat (index - 1)) urls = rest -> 1 <= index ->
  wp contained (prefetch_urls proc config reply_format codex_config q index rest acc)
    (fun h' r => holding q h' /\ forall acc', r = Ok acc' -> exists more, pr_sections acc' = pr_sections acc ++ more /\ Forall2 section_of rest more) h.
Proof.
  revert index acc h. induction rest as [|url rest IH]; intros index acc h Hh Hd Hi; cbn [prefetch_urls].
  - split; [done|]. intros acc' [= <-]. exists []. by rewrite app_nil_r.
  - assert (urls !! N.to_nat (index - 1) = Some url) as Hurl. { rewrite <-(Nat.add_0_r (N.to_nat _)), <-lookup_drop, Hd. done. }
    rewrite wp_bind_ok. eapply wp_consequence; [by apply prefetch_url_holding|]. intros h1 [acc1|e] [Hh1 Hsec]; [|done].
    destruct (Hsec acc1 eq_refl) as (section & Hs1 & Hof). eapply wp_consequence; [apply (IH (index + 1) acc1 h1 Hh1)|].
    + replace (N.to_nat (index + 1 - 1)) with (S (N.to_nat (index - 1))) by lia. by rewrite (drop_S _ _ _ Hurl) in Hd; injection Hd.
    + lia.
    + intros h2 r [Hh2 Hr]. split; [done|]. intros acc' Hacc. destruct (Hr acc' Hacc) as (more & -> & Hall).
      exists (section :: more). rewrite Hs1, <-app_assoc. split; [done|]. by constructor.
Qed.

(** What is left of a prefetch. *)
Definition outcome (h : jtrace) (r : result JenkinsError (option JenkinsPrefetchedContext)) : Prop :=
  match r with
  | Ok None => h = [] /\ (jk_enabled config = false \/ urls = [])
  | Ok (Some ctx) =>
      exists q sections, holding q h /\ artifact_root ctx = render q
        /\ jp_prompt ctx = prefetch_prompt sections /\ Forall2 section_of urls sections
  | Err _ => given_up h
  end.

Lemma prompt_outcome policy reply_format codex_config context :
  jenkins_context policy = Some config -> urls = extract_jenkins_urls (mc_body context) (max_urls config) ->
  wp contained (jenkins_context_prompt proc policy reply_format codex_config context) outcome [].
Proof.
  intros Hp Hu. unfold jenkins_context_prompt. rewrite Hp, <-Hu. clear Hp Hu.
  destruct (jk_enabled config) eqn:He; cbn [negb]; [|by split; [|left]].
  destruct (is_empty urls) eqn:Hurls; [apply is_empty_true in Hurls; by split; [|right]|].
  rewrite wp_bind_ok. eapply wp_consequence; [apply prepare_ready|]. intros h1 [q|e] Hr; [|done].
  unfold prefetch_into. rewrite wp_bind. eapply wp_consequence; [by apply prefetch_urls_holding|].
  intros h2 [acc|e] [Hh2 Hacc].
  - destruct (Hacc acc eq_refl) as (more & Hm & Hall). exists q, more. cbn in Hm. cbn. by rewrite Hm.
  - unfold cleanup_jenkins_artifact_dir, remove_jenkins_artifact_dir. cbn. split; [done|]. intros r. split; [done|]. intros [].
    intros p [?|[?|Hreg]]; [done..|]. destruct Hh2 as [_ Hs]. rewrite (Hs p Hreg). cbn. split; [naive_solver|]. right. exists r.
    apply elem_of_cons. right. apply elem_of_cons. by left.
Qed.
End helpers.

(** ** The end of a helper *)

(** A helper that was started has ended by itself, and what it left in its process group was
    told to stop; or the run failed and the helper was stopped or killed. *)
Definition stopped (h : jtrace) (r : result JenkinsError str) : Prop :=
  r = Err HelperSpawnFailed
  \/ (exists status, Ev WaitUntilDeadline (Done (Some status)) ∈ h
      /\ forall pid, Ev HelperId (Some pid) ∈ h -> Ev (SignalGroup (process_group pid) SIGTERM) tt ∈ h)
  \/ ((exists e, r = Err e) /\ (Ev WaitGrace true ∈ h \/ Ev StartKill tt ∈ h)).

Definition id_of (e : jevent) : option (option N) := match e with Ev HelperId pid => Some pid | _ => None end.

Definition asks_id (c : jenkins_call) : bool := match c with HelperId => true | _ => false end.

(** Which process ids a trace holds. *)
Lemma ids_kept {A} (p : Effects.prog jenkins_answer A) h :
  calls_only (fun c => negb (asks_id c)) p ->
  wp (fun _ _ => True) p (fun h' _ => extends h h' /\ forall pid, Ev HelperId pid ∈ h' -> Ev HelperId pid ∈ h) h.
Proof.
  intros Hp. eapply wp_mono; [by apply wp_calls_only|done|]. intros h' _ [Hx Hf]. split; [done|].
  assert (forall g pid, Ev HelperId pid ∈ List.filter (fun e : jevent => negb (negb (asks_id (ev_call e)))) g <-> Ev HelperId pid ∈ g) as Hg.
  { intros g pid. rewrite !list_elem_of_In, filter_In. cbn. naive_solver. }
  intros pid. rewrite <-(Hg h'), Hf. by rewrite Hg.
Qed.

Lemma give_up_stopped error h : wp (fun _ _ => True) (give_up_helper error) stopped h.
Proof.
  unfold give_up_helper. rewrite wp_bind.
  assert (forall h1, Ev WaitGrace true ∈ h1 \/ Ev StartKill tt ∈ h1 ->
    wp (fun _ _ => True) (let* _ := abort_helper_output in Ret (Err error)) stopped h1) as Hend.
  { intros h1 Hk. cbn. split; [done|]. intros []. split; [done|]. intros []. right. right. split; [by eexists|].
    destruct Hk; [left|right]; do 2 (apply elem_of_cons; right); done. }
  assert (forall h1, wp (fun _ _ => True) (let* _ := (perform StartKill : Effects.prog jenkins_answer unit) in
    let* _ := (perform WaitGrace : Effects.prog jenkins_answer bool) in Ret tt)
    (fun h' _ => wp (fun _ _ => True) (let* _ := abort_helper_output in Ret (Err error)) stopped h') h1) as Hkill.
  { intros h1. cbn -[abort_helper_output]. split; [done|]. intros []. split; [done|]. intros ended. apply Hend. right. apply elem_of_cons. right. apply elem_of_cons. by left. }
  unfold terminate_jenkins_helper. rewrite wp_bind. cbn [wp perform]. split; [done|]. intros [pid|]; [|apply Hkill].
  cbn [Effects.bind wp perform terminate_jenkins_helper_process_group]. split; [done|]. intros []. split; [done|]. intros [].
  - cbn [wp]. apply Hend. left. apply elem_of_cons. by left.
  - cbn [Effects.bind wp]. split; [done|]. intros []. apply Hkill.
Qed.

Lemma run_helper_stopped proc config url dir :
  wp (fun _ _ => True) (run_jenkins_context_helper proc config url dir) stopped [].
Proof.
  unfold run_jenkins_context_helper. rewrite wp_bind. cbn [wp perform]. split; [done|]. intros [|]; cbn [negb]; [|by left].
  rewrite wp_bind. cbn [wp perform]. split; [done|]. intros id. rewrite wp_bind. cbn [wp perform]. split; [done|].
  intros [[status|]|]; [|apply give_up_stopped..].
  set (h := [_; _; _]). rewrite wp_bind.
  assert (forall h1, Ev WaitUntilDeadline (Done (Some status)) ∈ h1 -> (forall pid, id = Some pid -> Ev (SignalGroup (process_group pid) SIGTERM) tt ∈ h1) ->
    (forall pid, Ev HelperId pid ∈ h1 -> pid = id) -> forall r, stopped h1 r) as Hend.
  { intros h1 Hs Hk Hid r. right. left. exists status. split; [done|]. intros pid Hin. apply Hk. symmetry. by apply Hid. }
  eapply wp_consequence with (Q := fun h1 _ => Ev WaitUntilDeadline (Done (Some status)) ∈ h1
    /\ (forall pid, id = Some pid -> Ev (SignalGroup (process_group pid) SIGTERM) tt ∈ h1) /\ (forall pid, Ev HelperId pid ∈ h1 -> pid = id)).
  { assert (forall pid, Ev HelperId pid ∈ h -> pid = id) as Hids.
    { intros pid [He|[He|[He|Hn%not_elem_of_nil]%elem_of_cons]%elem_of_cons]%elem_of_cons; [discriminate He| |discriminate He|done].
      apply (f_equal id_of) in He. by injection He. }
    destruct id as [pid|]; cbn.
    - split; [done|]. intros []. split; [apply elem_of_cons; right; apply elem_of_cons; by left|]. split.
      + intros p [= <-]. apply elem_of_cons. by left.
      + intros p [He|Hin]%elem_of_cons; [discriminate He|by apply Hids].
    - split; [apply elem_of_cons; by left|]. done. }
  intros h1 _ (Hs & Hk & Hid). rewrite wp_bind. eapply wp_consequence; [apply ids_kept; unfold join_helper_output_until, abort_helper_output; calls_only|].
  intros h2 joined [Hx Hid2]. assert (forall r, stopped h2 r) as Hend2.
  { apply Hend; [by eapply extends_in| |auto]. intros pid He. eapply extends_in; [exact Hx|by apply Hk]. }
  destruct joined as [[stdout stderr]|e]; [apply Hend2|].
  destruct id as [pid|]; cbn; [|apply Hend2]. split; [done|]. intros []. apply Hend; [by apply elem_of_cons; right; eapply extends_in| |].
  - intros p Hp. apply elem_of_cons. right. eapply extends_in; [exact Hx|by apply Hk].
  - intros p [He|Hin]%elem_of_cons; [discriminate He|auto].
Qed.

(** ** Properties *)

(** C17: handlers run at once and never remove what another one uses. In every state that the
    handlers of any messages reach, in any interleaving and with any of them dropped at any
    point: the active directories are those some handler registered and still holds; a
    directory a handler is about to remove is not one that another handler holds, nor a parent
    of one; what is left to a background task for removal is held by nobody, then and ever
    after; and two handlers never registered the same directory. *)
Theorem held_directories_kept (proc : JenkinsProcess) (resolve : location -> location) (cwds : list path) (s : shared_state) (ts : list task) :
  (forall p, canonical (resolve p)) -> separate proc resolve cwds -> reachable proc resolve cwds (s, ts) ->
  (forall q, q ∈ sh_active s <-> exists i t, ts !! i = Some t /\ live (tk_trace t) q)
  /\ (forall i j t u p q, i <> j -> ts !! i = Some t -> ts !! j = Some u -> next_removal (tk_rest t) = Some p -> live (tk_trace u) q ->
       path_starts_with q p = false)
  /\ (forall i t p q, ts !! i = Some t -> Ev (SpawnRemoval p) tt ∈ tk_trace t -> q ∈ sh_active s -> path_starts_with q p = false)
  /\ (forall i j t u q, i <> j -> ts !! i = Some t -> ts !! j = Some u -> registered (tk_trace t) q -> ~ registered (tk_trace u) q).
Proof.
  intros Hcan Hsep Hr. apply reachable_inv in Hr as HI; [|done]. cbn [fst snd] in HI.
  split; [apply HI|]. split; [|split].
  - intros i j t u p q Hij Ht Hu Hn Hl. apply (removal_apart proc resolve cwds s ts i j t u); [done..| |done].
    destruct (inv_rule _ _ _ _ _ HI i t Ht) as (Hw & Hc & _). destruct t as [home h [|c k]]; [done|]. cbn in Hn, Hw, Hc |- *.
    destruct Hw as [Hal _]. specialize (Hal Hc). destruct c; try done; injection Hn as ->; [done|]. left. exists p. split; [apply Hal|apply starts_with_self].
  - intros i t p q Ht Hsp Hq. destruct (inv_rule _ _ _ _ _ HI i t Ht) as (_ & _ & Hg & _). destruct (spawned_given_up _ _ _ _ _ Hg Hsp) as [Hrp Hlp].
    apply (inv_active _ _ _ _ _ HI) in Hq as (j & u & Hu & Hl). destruct (decide (i = j)) as [<-|Hij].
    + rewrite Ht in Hu. injection Hu as <-. apply not_true_iff_false. intros Hp.
      destruct (registered_child _ _ _ _ _ _ _ _ HI Ht Hrp) as (n1 & H1), (registered_child _ _ _ _ _ _ _ _ HI Ht (live_registered _ _ Hl)) as (n2 & H2).
      subst p q. apply prefix_same_length in Hp; [|by unfold child; rewrite !length_app]. by rewrite Hp in Hl.
    + apply (removal_apart proc resolve cwds s ts i j t u); [done..| |done]. left. exists p. split; [done|apply starts_with_self].
  - intros i j t u q Hij Ht Hu Hrt Hru. by eapply (registered_once proc resolve cwds s ts i j).
Qed.

(** C21: a prefetch has one of its outcomes, against any host: every helper runs for one of
    the URLs of the message and writes to that URL's directory, resolved below the resolved
    directory of the message, which is registered at that moment; a prefetch that succeeds
    holds exactly one directory, and its prompt has one section per URL, in their order, each
    line of a helper's output marked as data; a prefetch that fails holds none, and the
    directory it had registered was removed or left to a background task. *)
Theorem prefetch_outcome (env : Effects.environment jenkins_answer) (proc : JenkinsProcess) (policy : RoomPolicy) (reply_format : ReplyFormat)
    (codex_config : CodexConfig) (context : MessageContext) (config : JenkinsContextConfig) :
  jenkins_context policy = Some config ->
  let urls := extract_jenkins_urls (mc_body context) (max_urls config) in
  let r := exec env [] (jenkins_context_prompt proc policy reply_format codex_config context) in
  guarded (contained proc config urls) r.1 /\ outcome config urls r.1 r.2.
Proof. intros Hp urls. by apply wp_exec; [apply (prompt_outcome proc config urls policy)|]. Qed.

(** a started helper does not outlive its run: either it ended before the deadline and its
    process group was told to terminate, or the run fails after the helper was seen to end
    within the grace period or was killed. *)
Theorem helper_stopped (env : Effects.environment jenkins_answer) (proc : JenkinsProcess) (config : JenkinsContextConfig) (url : str) (dir : location) :
  let r := exec env [] (run_jenkins_context_helper proc config url dir) in stopped r.1 r.2.
Proof. intros r. eapply proj2, (wp_exec (fun _ _ => True)); [apply run_helper_stopped|done]. Qed.

(** ** Two messages at once *)

Definition plain_nameb (n : bytes) : bool :=
  negb (is_empty n) && negb (str_eqb n (lit ".")) && negb (str_eqb n (lit "..")) && all (fun c => negb (N.eqb separator c)) n.

(** Paths without links. *)
Definition plain_resolve (p : location) : location :=
  RootDir :: map Normal (List.filter plain_nameb (omap component_name p)).

Lemma plain_resolve_canonical p : canonical (plain_resolve p).
Proof.
  exists (List.filter plain_nameb (omap component_name p)). split; [done|]. apply Forall_forall. intros n [_ Hn]%list_elem_of_In%filter_In.
  unfold plain_nameb in Hn. rewrite !andb_true_iff, !negb_true_iff, is_empty_false, !str_eqb_neq, all_true in Hn. destruct Hn as [[[? ?] ?] Hs].
  repeat split; try done. eapply Forall_impl; [exact Hs|]. by intros c ->%negb_true_iff.
Qed.

(** A host on which every directory exists and nothing is listed. *)
Definition calm_answer (c : jenkins_call) : jenkins_answer c :=
  match c with
  | SymlinkMetadata _ => Ok (mkStat 1 1 16832 2 0 0 0 0 0 0 0)
  | Resolve p => Ok (plain_resolve p)
  | CreateDir _ | SetPrivateMode _ _ | RemoveDirAll _ => Ok tt
  | ReadEntries _ => Err ENOENT
  | PathExists _ => false
  | SpawnHelper _ | WaitGrace => true
  | ActiveDirs => []
  | NextAttempt | UnixNanos => 0
  | HelperId => Some 42
  | WaitUntilDeadline => Done (Some (Exited 0))
  | JoinPipe _ => Done (Some [Some (lit "ok")])
  | EvidenceLogs => sample_evidence_ops
  | _ => tt
  end.

(** The answer a handler gets from this host and the shared state; [None] where it waits. *)
Definition respond (i : nat) (s : shared_state) (c : jenkins_call) : option (jenkins_answer c * shared_state) :=
  match c with
  | LockSetup => match sh_lock s with None => Some (tt, mkShared (sh_active s) (Some i) (sh_counter s)) | Some _ => None end
  | UnlockSetup => Some (tt, mkShared (sh_active s) None (sh_counter s))
  | Register p => Some (tt, mkShared (p :: sh_active s) (sh_lock s) (sh_counter s))
  | Unregister p => Some (tt, mkShared (List.filter (fun q => negb (bool_decide (q = p))) (sh_active s)) (sh_lock s) (sh_counter s))
  | ActiveDirs => Some (sh_active s, s)
  | NextAttempt => if sh_counter s <? 2 ^ 64 then Some (sh_counter s, mkShared (sh_active s) (sh_lock s) (sh_counter s + 1)) else None
  | c => Some (calm_answer c, s)
  end.

Fixpoint drive (n : nat) (i : nat) (w : shared_state * list task) : shared_state * list task :=
  match n with
  | O => w
  | S n =>
      match w.2 !! i with
      | Some (mkTask home h (Do c k)) =>
          match respond i w.1 c with
          | Some (r, s') => drive n i (s', <[i := mkTask home (Ev c r :: h) (k r)]> w.2)
          | None => w
          end
      | _ => w
      end
  end.

Lemma respond_answers i s c r s' : respond i s c = Some (r, s') -> answers plain_resolve i s c r s'.
Proof.
  destruct c; cbn; try (intros [= <- <-]; done); try (intros [= <-]; done).
  - intros [= <- <-]. split; [done|]. by intros q [= <-].
  - destruct (sh_lock s); [done|]. by intros [= <-].
  - destruct (N.ltb_spec (sh_counter s) (2 ^ 64)); [|done]. by intros [= <- <-].
Qed.

Lemma drive_reachable proc cwds n i w : reachable proc plain_resolve cwds w -> reachable proc plain_resolve cwds (drive n i w).
Proof.
  revert w. induction n as [|n IH]; intros [s ts] Hw; cbn [drive fst snd]; [done|]. destruct (ts !! i) as [[home h [a|c k]]|] eqn:Ht; [done| |done].
  destruct (respond i s c) as [[r s']|] eqn:Hr; [|done]. apply IH. eapply reachable_step; [exact Hw|].
  eapply pool_call; [exact Ht|by apply respond_answers].
Qed.

Definition pool_process : JenkinsProcess := mkJenkinsProcess 7 (fun _ => None) (mkPathEnv (Some (lit "/w")) (fun _ => None)).
Definition pool_policy : RoomPolicy :=
  mkRoomPolicy (lit "room") None None false false (Some default_JenkinsContextConfig) default_FollowupConfig Markdown Always [] true [] []
    DEFAULT_PROMPT_TEMPLATE None.
Definition pool_context (message_id : str) : MessageContext :=
  mkMessageContext message_id (lit "room") None None (lit "https://engci-private-sjc.cisco.com/job/a/1").

(** Both are started; the first prepares its directory, then the second is about to clear the
    directory of its first URL. *)
Definition two_messages : shared_state * list task :=
  let start message_id := mkTask (artifact_home pool_process plain_resolve (cwd default_CodexConfig)) []
    (message_prefetch pool_process pool_policy Markdown default_CodexConfig (pool_context message_id)) in
  drive 21 1 (drive 28 0 (mkShared [] None 0, [start (lit "m1"); start (lit "m2")])).

Definition sample_home : location :=
  [RootDir; Normal (lit "w"); Normal (lit ".codex-tmp"); Normal (lit "jenkins-diagnostics"); Normal (lit "process-7")].

Lemma two_messages_reachable : reachable pool_process plain_resolve [cwd default_CodexConfig] two_messages.
Proof.
  unfold two_messages. do 2 apply drive_reachable.
  assert (cwd default_CodexConfig ∈ [cwd default_CodexConfig]) as Hin by apply list_elem_of_here.
  eapply reachable_step; [eapply reachable_step; [apply reachable_start|]|]; [apply (pool_start _ _ _ _ [] pool_policy Markdown _ (pool_context (lit "m1")) Hin)|].
  apply (pool_start _ _ _ _ [_] pool_policy Markdown _ (pool_context (lit "m2")) Hin).
Qed.

Lemma one_process_root : separate pool_process plain_resolve [cwd default_CodexConfig].
Proof.
  intros a b ->%list_elem_of_singleton ->%list_elem_of_singleton. eexists (removelast sample_home), (lit "process-7").
  split; [vm_compute; reflexivity|done].
Qed.

Definition m1_directory : location := child sample_home (lit "7-0-0-m1").
Definition m2_directory : location := child sample_home (lit "7-0-1-m2").

Lemma held_directories_kept_witness :
  exists t u, two_messages.2 !! 1%nat = Some t /\ two_messages.2 !! 0%nat = Some u
    /\ next_removal (tk_rest t) = Some (child m2_directory (lit "url-1")) /\ live (tk_trace u) m1_directory
    /\ path_starts_with m1_directory (child m2_directory (lit "url-1")) = false.
Proof.
  assert (from_option (fun t => next_removal (tk_rest t)) None (two_messages.2 !! 1%nat) = Some (child m2_directory (lit "url-1"))) as Hn
    by (vm_compute; reflexivity).
  assert (from_option (fun u => live (tk_trace u) m1_directory) False (two_messages.2 !! 0%nat)) as Hl by (vm_compute; tauto).
  revert Hn Hl. destruct (two_messages.2 !! 1%nat) as [t|] eqn:Ht; [|intros Hn; discriminate Hn].
  destruct (two_messages.2 !! 0%nat) as [u|] eqn:Hu; [|intros _ []]. intros Hn Hl.
  exists t, u. do 4 (split; [assumption || reflexivity|]).
  destruct (held_directories_kept pool_process plain_resolve [cwd default_CodexConfig] two_messages.1 two_messages.2) as (_ & Hkept & _).
  - apply plain_resolve_canonical.
  - apply one_process_root.
  - rewrite <-surjective_pairing. apply two_messages_reachable.
  - apply (Hkept 1%nat 0%nat t u); [lia|exact Ht|exact Hu|exact Hn|exact Hl].
Defined.

(** A handler alone on this host. *)
Lemma prefetch_outcome_witness :
  let r := exec (fun _ c => calm_answer c) [] (jenkins_context_prompt pool_process pool_policy Markdown default_CodexConfig (pool_context (lit "m1"))) in
  jenkins_context pool_policy = Some default_JenkinsContextConfig /\ is_ok r.2 = true
  /\ outcome default_JenkinsContextConfig (extract_jenkins_urls (mc_body (pool_context (lit "m1"))) 3) r.1 r.2.
Proof.
  split; [reflexivity|]. split; [vm_compute; reflexivity|].
  apply (prefetch_outcome (fun _ c => calm_answer c) pool_process pool_policy Markdown default_CodexConfig (pool_context (lit "m1"))). reflexivity.
Defined.
