(* ===== verification/CanaryHost.v ===== *)
(** * Fixtures and listeners of the host

    [src/canary_host.rs]: what a renewal of the activation sets up on the host to see whether a
    run touches it. Files are captured with their identity and digest; Unix and TCP listeners
    count the connections they get in a thread of their own, which is here a machine whose
    steps interleave with connections and with the request to stop. *)

From S2P Require Import Prelude Effects Text Paths Net HostFiles Digest WorkBudget Descriptors HostPaths DescriptorRules.

Local Open Scope N_scope.

Definition MONITOR_START_TIMEOUT : N := 2000.
Definition ACCEPT_POLL_INTERVAL : N := 5.
Definition FILE_HASH_BUFFER_BYTES : N := 16 * 1024.

(** ** Regular files *)

Record RegularFileIdentity : Type := mkRegularIdentity {
  ri_device : N;
  ri_inode : N;
  ri_file_type : N;
  ri_mode : N;
  ri_links : N;
  ri_uid : N;
  ri_gid : N;
  ri_size : N
}.

#[export] Instance RegularFileIdentity_eq_dec : EqDecision RegularFileIdentity.
Proof. solve_decision. Defined.

Definition from_metadata (m : StatSnapshot) : RegularFileIdentity :=
  mkRegularIdentity (st_device m) (st_inode m) (file_type m) (st_permissions m) (st_links m) (st_uid m) (st_gid m) (file_len m).

Definition validate_regular_file (i : RegularFileIdentity) (max_bytes : N) : result FsError unit :=
  fail_if (negb (ri_file_type i =? S_IFREG)) (Bail (lit "canary fixture is not a regular file")) ;?
  fail_if (negb (ri_links i =? 1)) (Bail (lit "canary fixture has multiple hard links")) ;?
  fail_if (max_bytes <? ri_size i) (Bail (lit "canary fixture exceeds its size limit")).

Definition no_follow_metadata (p : list Component) : fsprog StatSnapshot := lstat p.
Definition open_no_follow (p : list Component) : fsprog fd := open_path p FileNoFollow.

Definition verify_file_identity (f : fd) (expected : RegularFileIdentity) (max_bytes : N) : fsprog unit :=
  let*? m := stat_fd f in
  let actual := from_metadata m in
  let*? _ := Ret (validate_regular_file actual max_bytes) in
  bail_if (negb (bool_decide (actual = expected))) (lit "open canary fixture identity changed").

Definition verify_current_path (p : list Component) (expected : RegularFileIdentity) (max_bytes : N) : fsprog unit :=
  let*? m := no_follow_metadata p in
  let actual := from_metadata m in
  let*? _ := Ret (validate_regular_file actual max_bytes) in
  bail_if (negb (bool_decide (actual = expected))) (lit "canary fixture path identity changed").

Definition fixture_policy (max_bytes : N) : ReadPolicy :=
  mkReadPolicy [] FILE_HASH_BUFFER_BYTES max_bytes (lit "canary fixture size overflowed") (lit "canary fixture exceeds its size limit").

Record BoundedRegularFileSnapshot : Type := mkFileSnapshot {
  sn_path : list Component;
  sn_identity : RegularFileIdentity;
  sn_sha256 : bytes;
  sn_max_bytes : N
}.

Section snapshots.
Context `{Sha256}.

Definition hash_bounded_file (f : fd) (expected_size max_bytes : N) : fsprog bytes :=
  let*? data := read_to_limit (fixture_policy max_bytes) None f [] in
  let*? _ := bail_if (negb (len data =? expected_size)) (lit "canary fixture size changed while hashing") in
  Ret (Ok (sha256 data)).

Definition capture (p : list Component) (max_bytes : N) : fsprog BoundedRegularFileSnapshot :=
  let*? m := no_follow_metadata p in
  let identity := from_metadata m in
  let*? _ := Ret (validate_regular_file identity max_bytes) in
  let*? f := open_no_follow p in
  let*? _ := verify_file_identity f identity max_bytes in
  let*? _ := verify_current_path p identity max_bytes in
  let*? content_sha256 := hash_bounded_file f (ri_size identity) max_bytes in
  let*? _ := verify_file_identity f identity max_bytes in
  let*? _ := verify_current_path p identity max_bytes in
  Ret (Ok (mkFileSnapshot p identity content_sha256 max_bytes)).

Definition open_verified_path (s : BoundedRegularFileSnapshot) : fsprog fd :=
  let*? _ := verify_current_path (sn_path s) (sn_identity s) (sn_max_bytes s) in
  let*? f := open_no_follow (sn_path s) in
  let*? _ := verify_file_identity f (sn_identity s) (sn_max_bytes s) in
  let*? _ := verify_current_path (sn_path s) (sn_identity s) (sn_max_bytes s) in
  Ret (Ok f).

Definition verify_path_identity_unchanged (s : BoundedRegularFileSnapshot) : fsprog unit :=
  let*? f := open_verified_path s in
  let*? _ := verify_file_identity f (sn_identity s) (sn_max_bytes s) in
  verify_current_path (sn_path s) (sn_identity s) (sn_max_bytes s).

Definition verify_contents_unchanged (s : BoundedRegularFileSnapshot) : fsprog unit :=
  let*? f := open_verified_path s in
  let*? actual_digest := hash_bounded_file f (ri_size (sn_identity s)) (sn_max_bytes s) in
  let*? _ := bail_if (negb (bool_decide (actual_digest = sn_sha256 s))) (lit "canary fixture contents changed") in
  let*? _ := verify_file_identity f (sn_identity s) (sn_max_bytes s) in
  verify_current_path (sn_path s) (sn_identity s) (sn_max_bytes s).
End snapshots.

(** ** The monitor of a listener *)

(** Where the thread is: not started yet, about to accept, past an accept that would have
    blocked, parked, or ended, which closes the listener. *)
Inductive monitor_pc : Type := Starting | Polling | WouldBlock | Parked | Finished.

#[export] Instance monitor_pc_eq_dec : EqDecision monitor_pc.
Proof. solve_decision. Defined.

(** [ListenerMonitorState], the thread, and the connections the kernel holds for the listener. *)
Record ListenerMonitorState : Type := mkMonitorState {
  ms_stop : bool;
  ms_live : bool;
  ms_failed : bool;
  ms_accepts : N;
  ms_pc : monitor_pc;
  ms_backlog : N
}.

Definition new_monitor : ListenerMonitorState := mkMonitorState false false false 0 Starting 0.

(** The results of [accept_once]. *)
Inductive accepted : Type := AcceptedOne | AcceptInterrupted | AcceptWouldBlock | AcceptError.

Inductive monitor_event : Type :=
| Arrives
| StopStored
| Starts
| Accepts (a : accepted)
| LooksAtStop
| Unparks.

Definition with_pc (s : ListenerMonitorState) (pc : monitor_pc) : ListenerMonitorState :=
  mkMonitorState (ms_stop s) (ms_live s) (ms_failed s) (ms_accepts s) pc (ms_backlog s).

(** The thread ends: the guard clears [live]. *)
Definition finish (s : ListenerMonitorState) : ListenerMonitorState :=
  mkMonitorState (ms_stop s) false (ms_failed s) (ms_accepts s) Finished (ms_backlog s).

Definition record_accept (s : ListenerMonitorState) : ListenerMonitorState :=
  mkMonitorState (ms_stop s) (ms_live s) (ms_failed s) (sat_add (ms_accepts s) 1) (ms_pc s) (ms_backlog s - 1).

(** One step; [None] where it cannot happen. A connection can come as long as the listener is
    open, an accept succeeds exactly when one waits. *)
Definition monitor_step (s : ListenerMonitorState) (e : monitor_event) : option ListenerMonitorState :=
  match e, ms_pc s with
  | Arrives, Finished => None
  | Arrives, pc => Some (mkMonitorState (ms_stop s) (ms_live s) (ms_failed s) (ms_accepts s) pc (ms_backlog s + 1))
  | StopStored, pc => Some (mkMonitorState true (ms_live s) (ms_failed s) (ms_accepts s) pc (ms_backlog s))
  | Starts, Starting => Some (mkMonitorState (ms_stop s) true (ms_failed s) (ms_accepts s) Polling (ms_backlog s))
  | Accepts AcceptedOne, Polling => if 0 <? ms_backlog s then Some (record_accept s) else None
  | Accepts AcceptInterrupted, Polling => Some s
  | Accepts AcceptWouldBlock, Polling => if ms_backlog s =? 0 then Some (with_pc s WouldBlock) else None
  | Accepts AcceptError, Polling =>
      Some (finish (mkMonitorState (ms_stop s) (ms_live s) true (ms_accepts s) Polling (ms_backlog s)))
  | LooksAtStop, WouldBlock => Some (if ms_stop s then finish s else with_pc s Parked)
  | Unparks, Parked => Some (with_pc s Polling)
  | _, _ => None
  end.

(** A run of the monitor, the newest event last. *)
Fixpoint monitor_run (s : ListenerMonitorState) (es : list monitor_event) : option ListenerMonitorState :=
  match es with
  | [] => Some s
  | e :: es => s ← monitor_step s e; monitor_run s es
  end.

(** What the thread does next, left alone. *)
Definition monitor_next (s : ListenerMonitorState) : option monitor_event :=
  match ms_pc s with
  | Starting => Some Starts
  | Polling => Some (Accepts (if 0 <? ms_backlog s then AcceptedOne else AcceptWouldBlock))
  | WouldBlock => Some LooksAtStop
  | Parked => Some Unparks
  | Finished => None
  end.

(** [ListenerMonitor::is_live], and what [shutdown] says of a thread that ended. *)
Definition monitor_is_live (s : ListenerMonitorState) : bool := ms_live s && negb (ms_failed s).

(** ** Calls *)

(** The address of an interface as [getifaddrs] lists it; IPv6 with its scope. *)
Inductive InterfaceAddress : Type :=
| Inet (a b c d : N)
| Inet6 (groups : list N) (scope : N)
| OtherFamily.

Record Interface : Type := mkInterface { if_up : bool; if_loopback : bool; if_address : option InterfaceAddress }.

(** Beside the calls on files: sockets, monitor threads and the network interfaces. A monitor
    goes by the number of its listener. [AwaitReady] waits for the start of the thread,
    [StopMonitor] stores the request to stop, wakes the thread and joins it; it answers
    whether the thread ended without a panic. *)
Inductive host_call : Type :=
| HostFile (c : fs_call)
| BindUnix (p : list Component)
| BindTcp (a : SocketAddr)
| SetNonblocking (l : N)
| LocalAddr (l : N)
| SpawnMonitor (l : N)
| AwaitReady (l : N)
| StopMonitor (l : N)
| MonitorState (l : N)
| Interfaces.

Definition host_answer (c : host_call) : Type :=
  match c with
  | HostFile c => fs_answer c
  | BindUnix _ | BindTcp _ => result N N
  | SetNonblocking _ | SpawnMonitor _ => result N unit
  | LocalAddr _ => result N SocketAddr
  | AwaitReady _ | StopMonitor _ => bool
  | MonitorState _ => ListenerMonitorState
  | Interfaces => result N (list Interface)
  end.

#[export] Instance files_on_host : Embedding (answer := fs_answer) (answer' := host_answer) := {
  inject := HostFile;
  answered c r := r;
  view e := match e with Ev c r => match c return host_answer c -> option (Effects.event fs_answer) with
                                   | HostFile c => fun r => Some (Ev c r)
                                   | _ => fun _ => None
                                   end r end;
  view_inject c r := eq_refl
}.

Abbreviation hostprog A := (prog host_answer (result FsError A)) (only parsing).
Abbreviation hcall c := (perform c : prog host_answer (host_answer c)) (only parsing).

Definition host_files {A} (p : fsprog A) : hostprog A := embed p.
Definition host_os {A} (p : prog host_answer (result N A)) : hostprog A := let* r := p in Ret (map_err Os r).
Definition host_bail {A} (message : str) : hostprog A := Ret (Err (Bail message)).
Definition host_bail_if (b : bool) (message : str) : hostprog unit := Ret (fail_if b (Bail message)).

(** ** Monitors *)

(** The owner's side: the thread is there until it was joined. *)
Record ListenerMonitor : Type := mkMonitor { lm_listener : N; lm_running : bool }.

Definition spawn_monitor (l : N) : hostprog ListenerMonitor :=
  let*? _ := host_os (hcall (SpawnMonitor l)) in
  let* ready := hcall (AwaitReady l) in
  if ready then Ret (Ok (mkMonitor l true))
  else
    let* _ := hcall (StopMonitor l) in
    host_bail (lit "canary listener monitor did not start").

Definition is_live (m : ListenerMonitor) : prog host_answer bool :=
  let* s := hcall (MonitorState (lm_listener m)) in Ret (monitor_is_live s).

Definition accept_count (m : ListenerMonitor) : prog host_answer N :=
  let* s := hcall (MonitorState (lm_listener m)) in Ret (ms_accepts s).

Definition monitor_shutdown (m : ListenerMonitor) : prog host_answer (ListenerMonitor * result FsError unit) :=
  if negb (lm_running m) then Ret (m, Ok tt)
  else
    let stopped := mkMonitor (lm_listener m) false in
    let* joined := hcall (StopMonitor (lm_listener m)) in
    if negb joined then Ret (stopped, Err (Bail (lit "canary listener monitor panicked")))
    else
      let* s := hcall (MonitorState (lm_listener m)) in
      Ret (stopped, fail_if (ms_failed s) (Bail (lit "canary listener monitor failed"))).

Definition verify_zero_accepts (m : ListenerMonitor) : hostprog unit :=
  let*? _ := host_bail_if (lm_running m) (lit "listener must be shut down before final zero-accept verification") in
  let* accepts := accept_count m in
  host_bail_if (negb (accepts =? 0)) (lit "canary listener accepted a connection").

(** ** Unix listeners *)

Definition S_IFSOCK : N := 49152.

Record SocketPathIdentity : Type := mkSocketIdentity { so_device : N; so_inode : N }.

Definition is_socket (m : StatSnapshot) : bool := file_type m =? S_IFSOCK.

Definition socket_identity (m : StatSnapshot) : result FsError SocketPathIdentity :=
  fail_if (negb (is_socket m)) (Bail (lit "bound Unix canary path is not a socket")) ;?
  Ok (mkSocketIdentity (st_device m) (st_inode m)).

Definition socket_matches (i : SocketPathIdentity) (m : StatSnapshot) : bool :=
  is_socket m && (st_device m =? so_device i) && (st_inode m =? so_inode i).

Record InstrumentedUnixListener : Type := mkUnixListener {
  ul_path : list Component;
  ul_identity : SocketPathIdentity;
  ul_monitor : ListenerMonitor;
  ul_cleanup_pending : bool
}.

Definition canonical_socket_path (p : list Component) : fsprog (list Component) :=
  let*? file_name := Ret (match last p with
                          | Some (Normal name) => Ok name
                          | _ => Err (Bail (lit "Unix canary listener path has no file name"))
                          end) in
  let directory := match parent p with
                   | Some (c :: cs) => c :: cs
                   | _ => [CurDir]
                   end in
  let*? canonical_parent := os (perform (Canonicalize directory)) in
  Ret (Ok (child (components canonical_parent) file_name)).

Definition remove_owned_socket_path (p : list Component) (expected : SocketPathIdentity) : fsprog unit :=
  let*? found := lstat_existing p in
  match found with
  | None => Ret (Ok tt)
  | Some m =>
      let*? _ := bail_if (negb (socket_matches expected m)) (lit "Unix canary listener path was replaced; refusing to remove it") in
      remove_file p
  end.

Definition ignore {A} (p : hostprog A) : prog host_answer unit := let* _ := p in Ret tt.

Definition unix_bind (p : list Component) : hostprog InstrumentedUnixListener :=
  let*? bound_path := host_files (canonical_socket_path p) in
  let*? existing := host_files (lstat_existing bound_path) in
  match existing with
  | Some _ => host_bail (lit "Unix canary listener path already exists")
  | None =>
      let*? l := host_os (hcall (BindUnix bound_path)) in
      let*? m := host_files (lstat bound_path) in
      let*? path_identity := Ret (socket_identity m) in
      let* nonblocking := host_os (hcall (SetNonblocking l)) in
      let fails error :=
        let* _ := ignore (host_files (remove_owned_socket_path bound_path path_identity)) in
        Ret (Err error) in
      match nonblocking with
      | Err error => fails error
      | Ok _ =>
          let* monitor := spawn_monitor l in
          match monitor with
          | Err error => fails error
          | Ok monitor => Ret (Ok (mkUnixListener bound_path path_identity monitor true))
          end
      end
  end.

Definition unix_is_live (u : InstrumentedUnixListener) : prog host_answer bool :=
  let* live := is_live (ul_monitor u) in
  if live then
    let* m := host_files (lstat (ul_path u)) in
    Ret (match m with Ok m => socket_matches (ul_identity u) m | Err _ => false end)
  else Ret false.

Definition cleanup_path (u : InstrumentedUnixListener) : prog host_answer (InstrumentedUnixListener * result FsError unit) :=
  if negb (ul_cleanup_pending u) then Ret (u, Ok tt)
  else
    let* r := host_files (remove_owned_socket_path (ul_path u) (ul_identity u)) in
    Ret (mkUnixListener (ul_path u) (ul_identity u) (ul_monitor u) false, r).

Definition unix_shutdown (u : InstrumentedUnixListener) : prog host_answer (InstrumentedUnixListener * result FsError unit) :=
  let* (monitor, monitor_result) := monitor_shutdown (ul_monitor u) in
  let* (u, cleanup_result) := cleanup_path (mkUnixListener (ul_path u) (ul_identity u) monitor (ul_cleanup_pending u)) in
  Ret (u, monitor_result ;? cleanup_result).

Definition unix_shutdown_and_verify_zero_accepts (u : InstrumentedUnixListener)
  : prog host_answer (InstrumentedUnixListener * result FsError unit) :=
  let* (u, r) := unix_shutdown u in
  match r with
  | Err error => Ret (u, Err error)
  | Ok _ => let* r := verify_zero_accepts (ul_monitor u) in Ret (u, r)
  end.

(** [Drop]. *)
Definition drop_unix (u : InstrumentedUnixListener) : prog host_answer unit :=
  let* _ := unix_shutdown u in Ret tt.

(** ** TCP listeners *)

Definition ensure_unicast_ip (a : IpAddr) : result FsError unit :=
  match a with
  | V4 x y z w =>
      fail_if (is_unspecified a || is_multicast a || is_broadcast x y z w)
        (Bail (lit "TCP canary listener requires a concrete unicast IPv4 address"))
  | V6 _ => fail_if (is_unspecified a || is_multicast a) (Bail (lit "TCP canary listener requires a concrete unicast IPv6 address"))
  end.

(** Of both address families. *)
Definition is_unicast_non_loopback (a : IpAddr) : bool := is_ok (ensure_unicast_ip a) && negb (is_loopback a).

Record InstrumentedTcpListener : Type := mkTcpListener { tl_endpoint : SocketAddr; tl_monitor : ListenerMonitor }.

(** The checks of the address that was bound. *)
Definition bound_as_requested (requested bound : SocketAddr) : result FsError unit :=
  fail_if (negb (bool_decide (ip bound = ip requested))) (Bail (lit "TCP canary listener did not bind the requested IP address")) ;?
  fail_if (negb ((port requested =? 0) || (port bound =? port requested)))
    (Bail (lit "TCP canary listener did not bind the requested port")) ;?
  match ip requested, ip bound with
  | V4 _ _ _ _, V4 _ _ _ _ => Ok tt
  | V6 _, V6 _ =>
      fail_if (negb (scope_id requested =? scope_id bound)) (Bail (lit "TCP canary listener did not bind the requested IPv6 scope"))
  | _, _ => Err (Bail (lit "TCP canary listener changed address family while binding"))
  end.

Definition tcp_bind (endpoint : SocketAddr) : hostprog InstrumentedTcpListener :=
  let*? _ := Ret (ensure_unicast_ip (ip endpoint)) in
  let*? l := host_os (hcall (BindTcp endpoint)) in
  let*? _ := host_os (hcall (SetNonblocking l)) in
  let*? bound_endpoint := host_os (hcall (LocalAddr l)) in
  let*? _ := Ret (bound_as_requested endpoint bound_endpoint) in
  let*? monitor := spawn_monitor l in
  Ret (Ok (mkTcpListener bound_endpoint monitor)).

Definition tcp_shutdown_and_verify_zero_accepts (t : InstrumentedTcpListener)
  : prog host_answer (InstrumentedTcpListener * result FsError unit) :=
  let* (monitor, r) := monitor_shutdown (tl_monitor t) in
  let t := mkTcpListener (tl_endpoint t) monitor in
  match r with
  | Err error => Ret (t, Err error)
  | Ok _ => let* r := verify_zero_accepts monitor in Ret (t, r)
  end.

(** [Drop] of its monitor. *)
Definition drop_tcp (t : InstrumentedTcpListener) : prog host_answer unit :=
  let* _ := monitor_shutdown (tl_monitor t) in Ret tt.

(** ** Endpoints *)

(** The address of an interface that may be used. *)
Definition interface_endpoint (i : Interface) : option SocketAddr :=
  if if_up i && negb (if_loopback i) then
    match if_address i with
    | Some (Inet a b c d) => if is_unicast_non_loopback (V4 a b c d) then Some (mkSocketAddr (V4 a b c d) 0 0) else None
    | Some (Inet6 groups scope) =>
        if is_unicast_non_loopback (V6 groups) && (scope =? 0) then Some (mkSocketAddr (V6 groups) 0 0) else None
    | _ => None
    end
  else None.

(** The order of [SocketAddr]: IPv4 before IPv6, then by the parts of the address. *)
Definition address_key (a : SocketAddr) : list N :=
  match ip a with
  | V4 a b c d => [0; a; b; c; d]
  | V6 groups => 1 :: groups
  end.

Definition address_leb (a b : SocketAddr) : bool := str_leb (address_key a) (address_key b).

(** Collected in a [BTreeSet]. *)
Definition assigned_non_loopback_socket_addresses : hostprog (list SocketAddr) :=
  let*? interfaces := host_os (hcall Interfaces) in
  Ret (Ok (stable_sort address_leb (remove_dups (omap interface_endpoint interfaces)))).

Fixpoint select_preferred_from (ipv6 : option SocketAddr) (addresses : list SocketAddr) : option SocketAddr :=
  match addresses with
  | [] => ipv6
  | a :: addresses =>
      match ip a with
      | V4 _ _ _ _ => Some a
      | V6 _ => select_preferred_from (match ipv6 with None => Some a | Some _ => ipv6 end) addresses
      end
  end.

Definition select_preferred_non_loopback_endpoint (addresses : list SocketAddr) : option SocketAddr := select_preferred_from None addresses.

Definition select_assigned_non_loopback_endpoint : hostprog SocketAddr :=
  let*? addresses := assigned_non_loopback_socket_addresses in
  Ret (ok_or (select_preferred_non_loopback_endpoint addresses) (Bail (lit "no assigned non-loopback unicast IP address is available"))).

Definition bind_assigned_non_loopback_listener : hostprog InstrumentedTcpListener :=
  let*? endpoint := select_assigned_non_loopback_endpoint in
  tcp_bind endpoint.

Definition bind_loopback_bot_listener : hostprog InstrumentedTcpListener := tcp_bind (mkSocketAddr (V4 127 0 0 1) 0 0).

(** ** What the monitor counts *)

Definition is_arrival (e : monitor_event) : bool := match e with Arrives => true | _ => false end.
Definition is_accept (e : monitor_event) : bool := match e with Accepts AcceptedOne => true | _ => false end.

(** How many events of a kind a run has. *)
Definition count_of (kind : monitor_event -> bool) (es : list monitor_event) : N := len (List.filter kind es).

(** Events after the last accept that would have blocked and before the end of the thread. *)
Definition closing (e : monitor_event) : bool := match e with Arrives | StopStored | LooksAtStop => true | _ => false end.

(** A run whose last accept found nothing: all that came before it was accepted. *)
Definition drained (es : list monitor_event) : Prop :=
  exists t1 t2, es = t1 ++ Accepts AcceptWouldBlock :: t2 /\ forallb closing t2 = true /\
    count_of is_accept t1 = count_of is_arrival t1.

Record monitor_invariant (es : list monitor_event) (s : ListenerMonitorState) : Prop := {
  mi_accepts : ms_accepts s = N.min (count_of is_accept es) u64_max;
  mi_backlog : count_of is_accept es + ms_backlog s = count_of is_arrival es;
  mi_live : ms_live s = bool_decide (ms_pc s <> Starting /\ ms_pc s <> Finished);
  mi_failed : ms_failed s = true -> ms_pc s = Finished;
  mi_stop : ms_pc s = Finished -> ms_failed s = false -> ms_stop s = true;
  mi_drained : ms_pc s = WouldBlock \/ (ms_pc s = Finished /\ ms_failed s = false) -> drained es
}.

Lemma monitor_run_app s es es' : monitor_run s (es ++ es') = monitor_run s es ≫= (λ s', monitor_run s' es').
Proof. revert s; induction es as [|e es IH]; intros s; [done|]. cbn. by destruct (monitor_step s e); cbn. Qed.

Lemma count_of_app kind es es' : count_of kind (es ++ es') = count_of kind es + count_of kind es'.
Proof. unfold count_of. by rewrite List.filter_app, len_app. Qed.

Lemma count_of_snoc kind es e : count_of kind (es ++ [e]) = count_of kind es + (if kind e then 1 else 0).
Proof. rewrite count_of_app. unfold count_of; cbn. by destruct (kind e). Qed.

Lemma closing_not_accept es : forallb closing es = true -> count_of is_accept es = 0.
Proof.
  unfold count_of. induction es as [|e es IH]; [done|]. cbn. intros [He Hes]%andb_true_iff.
  destruct e as [| | |[]| |]; try done; auto.
Qed.

Lemma drained_snoc es e : closing e = true -> drained es -> drained (es ++ [e]).
Proof.
  intros He (t1 & t2 & -> & Ht & Hc). exists t1, (t2 ++ [e]). repeat split; [|by rewrite forallb_app, Ht; cbn; rewrite He|done].
  by rewrite <- app_assoc.
Qed.

Lemma monitor_invariant_step es s e s' :
  monitor_invariant es s -> monitor_step s e = Some s' -> monitor_invariant (es ++ [e]) s'.
Proof.
  destruct s as [stop live failed accepts pc backlog]. intros [Ha Hb Hl Hf Hs Hd]; cbn in *. intros Hstep.
  destruct e as [| | |[]| |], pc; cbn in Hstep; try discriminate; try case_match; simplify_eq;
    (split; cbn in *; rewrite ?count_of_snoc; cbn; rewrite ?N.add_0_r;
     [try done; unfold sat_add, u64_max in *; lia|try (rewrite N.ltb_lt in * || rewrite N.eqb_eq in *); lia|try done|let Hx := fresh in intros Hx; first [discriminate (Hf Hx)|reflexivity|auto]|intros; try congruence; auto|]).
  all: cbn; try (intros [?|[? ?]]; first [discriminate|apply drained_snoc; [done|]; apply Hd; intuition done]).
  intros _. exists es, []. apply N.eqb_eq in H. repeat split. lia.
Qed.

Lemma monitor_run_invariant es s : monitor_run new_monitor es = Some s -> monitor_invariant es s.
Proof.
  revert s. induction es as [|e es IH] using rev_ind; intros s.
  - cbn. intros [= <-]. split; cbn; try done; naive_solver.
  - rewrite monitor_run_app. intros (s1 & Hs1 & Hs)%bind_Some. cbn in Hs. apply bind_Some in Hs as (s2 & Hs2 & [= <-]).
    eapply monitor_invariant_step; eauto.
Qed.

(** Left alone after the request to stop, the thread accepts what waits and ends. *)
Fixpoint monitor_alone (fuel : nat) (s : ListenerMonitorState) : ListenerMonitorState :=
  match fuel with
  | O => s
  | S fuel =>
      match monitor_next s with
      | None => s
      | Some e => match monitor_step s e with Some s' => monitor_alone fuel s' | None => s end
      end
  end.

Lemma monitor_alone_finished fuel s : ms_pc s = Finished -> monitor_alone fuel s = s.
Proof. intros Hs. destruct fuel; [done|]. cbn. unfold monitor_next. by rewrite Hs. Qed.

Lemma monitor_alone_polling k fuel s :
  ms_pc s = Polling -> ms_stop s = true -> N.to_nat (ms_backlog s) = k -> (k + 2 <= fuel)%nat ->
  ms_pc (monitor_alone fuel s) = Finished /\ ms_failed (monitor_alone fuel s) = ms_failed s /\
  ms_backlog (monitor_alone fuel s) = 0 /\ ms_live (monitor_alone fuel s) = false.
Proof.
  revert fuel s. induction k as [|k IH]; intros fuel [stop live failed accepts pc backlog] Hpc Hstop Hk Hfuel; cbn in *; subst.
  - destruct fuel as [|[|fuel]]; [lia..|]. assert (backlog = 0) as -> by lia. cbn.
    by rewrite monitor_alone_finished.
  - destruct fuel as [|fuel]; [lia|]. destruct backlog as [|p]; [lia|].
    apply (IH fuel (record_accept (mkMonitorState true live failed accepts Polling (N.pos p)))); cbn -[N.sub]; auto; lia.
Qed.

(** A stopped monitor ends on its own, one step per waiting connection and at most four
    more; it leaves a connection waiting only when it had already looked for connections for
    the last time. *)
Theorem stopped_monitor_ends es s fuel :
  monitor_run new_monitor es = Some s -> ms_stop s = true -> ms_failed s = false ->
  (N.to_nat (ms_backlog s) + 4 <= fuel)%nat ->
  let s' := monitor_alone fuel s in
  ms_pc s' = Finished /\ ms_failed s' = false /\ ms_live s' = false /\
  (ms_backlog s' = 0 \/ drained es).
Proof.
  intros Hrun Hstop Hfailed Hfuel s'; subst s'. pose proof (monitor_run_invariant _ _ Hrun) as [_ _ Hlive _ _ Hdrained].
  destruct s as [stop live failed accepts pc backlog]; cbn in *; subst stop failed.
  destruct fuel as [|fuel]; [lia|].
  assert (forall live n, (N.to_nat backlog + 2 <= n)%nat ->
    let s' := monitor_alone n (mkMonitorState true live false accepts Polling backlog) in
    ms_pc s' = Finished /\ ms_failed s' = false /\ ms_live s' = false /\ (ms_backlog s' = 0 \/ drained es)) as Hpolling.
  { intros live' n Hn. destruct (monitor_alone_polling (N.to_nat backlog) n (mkMonitorState true live' false accepts Polling backlog))
      as (? & ? & ? & ?); auto. }
  destruct pc.
  - apply (Hpolling true fuel). lia.
  - apply (Hpolling live (S fuel)). lia.
  - cbn. rewrite monitor_alone_finished by done. cbn. auto 8.
  - apply (Hpolling live fuel). lia.
  - cbn. rewrite Hlive. cbn. auto 8.
Qed.

Definition racing : list monitor_event := [Starts; Accepts AcceptWouldBlock; LooksAtStop; Arrives; StopStored].

Lemma stopped_monitor_ends_witness :
  exists s, monitor_run new_monitor racing = Some s /\
  (ms_pc (monitor_alone 5 s) = Finished /\ ms_failed (monitor_alone 5 s) = false /\ ms_live (monitor_alone 5 s) = false /\
   (ms_backlog (monitor_alone 5 s) = 0 \/ drained racing)).
Proof.
  eexists. split; [reflexivity|]. apply (stopped_monitor_ends racing); [reflexivity..|cbn; lia].
Defined.

(** A connection that comes after the last accept is missed, though it came before the request
    to stop. *)
Example connection_before_stop_missed :
  monitor_run new_monitor [Starts; Accepts AcceptWouldBlock; Arrives; StopStored; LooksAtStop]
  = Some (mkMonitorState true false false 0 Finished 1).
Proof. reflexivity. Qed.

(** ** What a stopped listener says *)

(** Joining a thread waits for its end, and what it stored is there from then on. *)
Section stopped_thread.
Context (env : environment host_answer) (l : N) (es : list monitor_event) (s : ListenerMonitorState).
Hypothesis joined_state : forall h, Ev (StopMonitor l) true ∈ h -> env h (MonitorState l) = s.
Hypothesis joined_run : monitor_run new_monitor es = Some s.
Hypothesis joined_finished : ms_pc s = Finished.

#[local] Arguments verify_zero_accepts : simpl never.
#[local] Arguments cleanup_path : simpl never.

(** No connection came before the last accept. *)
Definition untouched (es : list monitor_event) : Prop :=
  exists t1 t2, es = t1 ++ Accepts AcceptWouldBlock :: t2 /\ forallb closing t2 = true /\ count_of is_arrival t1 = 0.

Lemma finished_without_accepts : ms_failed s = false -> ms_accepts s = 0 -> untouched es.
Proof using joined_run joined_finished.
  intros Hfailed Haccepts. destruct (monitor_run_invariant _ _ joined_run) as [Ha _ _ _ _ Hd].
  destruct (Hd (or_intror (conj joined_finished Hfailed))) as (t1 & t2 & -> & Ht & Hc).
  exists t1, t2. repeat split; [done|]. rewrite <- Hc. rewrite count_of_app in Ha. unfold u64_max in Ha. lia.
Qed.

Lemma shut_down_monitor m h h' m' :
  lm_listener m = l -> lm_running m = true -> exec env h (monitor_shutdown m) = (h', (m', Ok tt)) ->
  Ev (StopMonitor l) true ∈ h' /\ ms_failed s = false /\ m' = mkMonitor l false.
Proof using joined_state.
  destruct m as [l' running]; cbn; intros -> ->. unfold monitor_shutdown; cbn.
  destruct (env h (StopMonitor l)) eqn:Hstop; cbn; [|by intros [= <- <-]].
  rewrite joined_state by left. destruct (ms_failed s) eqn:Hf; cbn; intros [= <- <-].
  split; [|done]. right. left.
Qed.

Lemma stopped_monitor_verified m h h' r :
  lm_listener m = l -> lm_running m = false -> Ev (StopMonitor l) true ∈ h ->
  exec env h (verify_zero_accepts m) = (h', r) -> r = Ok tt -> ms_accepts s = 0.
Proof using joined_state.
  destruct m as [l' running]; cbn; intros -> -> Hin Hrun ->. revert Hrun. unfold verify_zero_accepts; cbn -[lit].
  rewrite joined_state by done. by destruct (N.eqb_spec (ms_accepts s) 0).
Qed.

(** C20: A listener that was shut down and passed its check was not touched: whatever came and
    was accepted, interrupted or asked to stop in whatever order, no connection came before
    the last time its monitor looked for one, and only connections and the end of the thread
    follow. *)
Theorem listeners_untouched :
  (forall t h h' t', lm_listener (tl_monitor t) = l -> lm_running (tl_monitor t) = true ->
    exec env h (tcp_shutdown_and_verify_zero_accepts t) = (h', (t', Ok tt)) -> untouched es) /\
  (forall u h h' u', lm_listener (ul_monitor u) = l -> lm_running (ul_monitor u) = true ->
    exec env h (unix_shutdown_and_verify_zero_accepts u) = (h', (u', Ok tt)) -> untouched es).
Proof using joined_state joined_run joined_finished.
  split.
  - intros t h h' t' Hl Hrunning. unfold tcp_shutdown_and_verify_zero_accepts. rewrite exec_bind.
    destruct (exec env h (monitor_shutdown (tl_monitor t))) as [h1 [m [[]|e]]] eqn:Hm; cbn; [|done].
    apply shut_down_monitor in Hm as (Hin & Hf & ->); [|done..]. rewrite exec_bind.
    destruct (exec env h1 (verify_zero_accepts (mkMonitor l false))) as [h2 r] eqn:Hv; cbn. intros [= <- <- ->].
    apply finished_without_accepts; [done|]. by eapply stopped_monitor_verified in Hv.
  - intros u h h' u' Hl Hrunning. unfold unix_shutdown_and_verify_zero_accepts, unix_shutdown. rewrite !exec_bind.
    destruct (exec env h (monitor_shutdown (ul_monitor u))) as [h1 [m rm]] eqn:Hm; cbn. rewrite exec_bind.
    destruct (exec env h1 (cleanup_path _)) as [h2 [u2 rc]] eqn:Hc; cbn.
    destruct rm as [[]|e]; cbn; [|done]. destruct rc as [[]|e]; cbn; [|done].
    apply shut_down_monitor in Hm as (Hin & Hf & ->); [|done..]. pose proof (exec_extends_to _ _ _ _ _ Hc) as Hext.
    assert (ul_monitor u2 = mkMonitor l false) as Hu2.
    { revert Hc. unfold cleanup_path; cbn. destruct (ul_cleanup_pending u); cbn; [|by intros [= _ <-]].
      rewrite exec_bind. repeat case_match; simplify_eq/=; intros; simplify_eq; done. }
    rewrite Hu2, exec_bind. destruct (exec env h2 (verify_zero_accepts _)) as [h3 r] eqn:Hv; cbn. intros [= <- <- ->].
    apply finished_without_accepts; [done|]. eapply stopped_monitor_verified in Hv; eauto. by eapply extends_in.
Qed.
End stopped_thread.

(** A host whose listener 7 saw a connection only while its thread ended. *)
Definition quiet_run : list monitor_event :=
  [Starts; Accepts AcceptWouldBlock; LooksAtStop; Unparks; StopStored; Accepts AcceptInterrupted; Accepts AcceptWouldBlock; Arrives; LooksAtStop].

Definition quiet_end : ListenerMonitorState := mkMonitorState true false false 0 Finished 1.

Definition quiet_host : environment host_answer := fun h c =>
  match c with
  | StopMonitor _ | AwaitReady _ => true
  | MonitorState _ => quiet_end
  | BindUnix _ | BindTcp _ => Ok 7
  | SetNonblocking _ | SpawnMonitor _ => Ok tt
  | LocalAddr _ => Ok (mkSocketAddr (V4 127 0 0 1) 4000 0)
  | Interfaces => Ok []
  | HostFile c => refused c
  end.

Lemma listeners_untouched_witness :
  untouched quiet_run.
Proof.
  destruct (listeners_untouched quiet_host 7 quiet_run quiet_end (fun _ _ => eq_refl) eq_refl eq_refl) as [Htcp _].
  apply (Htcp (mkTcpListener (mkSocketAddr (V4 127 0 0 1) 4000 0) (mkMonitor 7 true)) []
    [Ev (MonitorState 7) quiet_end; Ev (MonitorState 7) quiet_end; Ev (StopMonitor 7) true]
    (mkTcpListener (mkSocketAddr (V4 127 0 0 1) 4000 0) (mkMonitor 7 false))); reflexivity.
Defined.

(** ** The preferred address *)

Lemma select_preferred_from_spec ipv6 addresses :
  select_preferred_from ipv6 addresses =
  match List.find (fun a => match ip a with V4 _ _ _ _ => true | V6 _ => false end) addresses with
  | Some a => Some a
  | None => match ipv6 with Some a => Some a | None => head addresses end
  end.
Proof.
  revert ipv6. induction addresses as [|a addresses IH]; intros ipv6; cbn; [by destruct ipv6|].
  destruct (ip a); cbn; [done|]. rewrite IH. by destruct ipv6, (List.find _ addresses).
Qed.
