(* ===== verification/ActivationCanary.v ===== *)
(** * The canaries of an activation

    The renewal in [src/activation_canary.rs]: an activation receipt is only committed after
    a reboot was seen, after the runtime canary ran between fixtures and listeners of the
    host without touching them, and after systemd was seen to clean up units whose time,
    owner or peer is gone. Files, listeners, the supervision of a launched unit and the
    commands for units are calls of their own kinds. Times are in milliseconds. *)

From S2P Require Import Prelude Effects Text Net Paths HostFiles Digest WorkBudget Descriptors HostPaths Webex Serde.
From S2P Require Import CanaryProtocol CodexLauncher LauncherClient ConfigActions IsolatedPlan IsolatedRun IsolatedWorkspace.
From S2P Require Import RunnerInput Activation RebootChallenge CanaryHost.

Local Open Scope N_scope.

Definition ACTIVATION_LOCK_PATH : path := lit "/run/webex-codex-activation/renew.lock".
Definition SHELL_PATH : str := lit "/bin/sh".
Definition PROC_NET_UNIX : path := lit "/proc/net/unix".
Definition FIXTURE_MAX_BYTES : N := 64 * 1024.
Definition COMMAND_TIMEOUT : N := 30000.
Definition UNIT_STATE_TIMEOUT : N := 15000.
Definition DEPENDENCY_SOCKET_READY_TIMEOUT : N := 60000.
Definition BOT_PEER_EXIT_CANARY_TIMEOUT_SECONDS : N := 30.
Definition EWOULDBLOCK : N := 11.

(** ** Calls *)

(** The supervision of a launched unit, and the descriptor of the process that stands for the
    peer: [pidfd_open] and [fcntl]. *)
Inductive launch_call : Type :=
| Supervise (c : run_call)
| OpenPidfd (pid : N)
| ProtectPidfd.

Definition launch_answer (c : launch_call) : Type :=
  match c with
  | Supervise c => run_answer c
  | OpenPidfd _ | ProtectPidfd => result N unit
  end.

(** How a command under a time limit ends. *)
Inductive command_end : Type :=
| CommandTimedOut
| CommandFailed
| CommandExited (success : bool).

#[export] Instance command_end_eq_dec : EqDecision command_end.
Proof. solve_decision. Defined.

(** Commands, the clock, and the child process of the peer canary. *)
Inductive unit_call : Type :=
| RunCommand (program : path) (arguments : list str) (limit : N)
| RunOutput (program : path) (arguments : list str) (limit : N)
| MonotonicNow
| Sleep (duration : N)
| SpawnPeer (program : path) (arguments : list str)
| PeerId
| KillPeer
| ReapPeer
| DropPeer.

Definition unit_answer (c : unit_call) : Type :=
  match c with
  | RunCommand _ _ _ => command_end
  | RunOutput _ _ _ => command_end * bytes
  | MonotonicNow => N
  | Sleep _ | DropPeer => unit
  | SpawnPeer _ _ | KillPeer | ReapPeer => bool
  | PeerId => option N
  end.

(** [PrepareCanary], [CleanWorkspace], [StageCanary] and [CleanPending] are the blocking
    programs [prepare_runtime_canary], [VerifiedWorkspace::cleanup],
    [stage_runtime_canary_workspace] and [PendingWorkspace::cleanup] under their watchdogs.
    [FirstMoves] is asked where [join!] has two parts to poll. *)
Inductive renewal_call : Type :=
| OnHost (c : host_call)
| OnLaunch (c : launch_call)
| OnUnit (c : unit_call)
| OpenLock (p : path) (mode : N)
| TryLock (f : fd)
| Unlock (f : fd)
| MakeDirectory (p : list Component)
| SetMode (p : list Component) (mode : N)
| RemoveDirectory (p : list Component)
| StageCanary (nonce : str) (root : list Component)
| CleanPending (w : PendingWorkspace)
| PrepareCanary (request : RuntimeCanaryLaunchRequest) (candidate : VerifiedActivation)
| CleanWorkspace (w : VerifiedWorkspace)
| FirstMoves.

Definition renewal_answer (c : renewal_call) : Type :=
  match c with
  | OnHost c => host_answer c
  | OnLaunch c => launch_answer c
  | OnUnit c => unit_answer c
  | OpenLock _ _ => result N fd
  | TryLock _ | MakeDirectory _ | SetMode _ _ | RemoveDirectory _ => result N unit
  | Unlock _ => unit
  | StageCanary _ _ => result FsError PendingWorkspace
  | CleanPending _ | CleanWorkspace _ => result FsError unit
  | PrepareCanary _ _ => result FsError (TransientRunPlan * VerifiedWorkspace)
  | FirstMoves => bool
  end.

#[export] Instance runs_on_launch : Embedding (answer := run_answer) (answer' := launch_answer) := {
  inject := Supervise;
  answered c r := r;
  view e := match e with Ev c r => match c return launch_answer c -> option (Effects.event run_answer) with
                                   | Supervise c => fun r => Some (Ev c r)
                                   | _ => fun _ => None
                                   end r end;
  view_inject c r := eq_refl
}.

#[export] Instance host_on_renewal : Embedding (answer := host_answer) (answer' := renewal_answer) := {
  inject := OnHost;
  answered c r := r;
  view e := match e with Ev c r => match c return renewal_answer c -> option (Effects.event host_answer) with
                                   | OnHost c => fun r => Some (Ev c r)
                                   | _ => fun _ => None
                                   end r end;
  view_inject c r := eq_refl
}.

#[export] Instance launch_on_renewal : Embedding (answer := launch_answer) (answer' := renewal_answer) := {
  inject := OnLaunch;
  answered c r := r;
  view e := match e with Ev c r => match c return renewal_answer c -> option (Effects.event launch_answer) with
                                   | OnLaunch c => fun r => Some (Ev c r)
                                   | _ => fun _ => None
                                   end r end;
  view_inject c r := eq_refl
}.

#[export] Instance units_on_renewal : Embedding (answer := unit_answer) (answer' := renewal_answer) := {
  inject := OnUnit;
  answered c r := r;
  view e := match e with Ev c r => match c return renewal_answer c -> option (Effects.event unit_answer) with
                                   | OnUnit c => fun r => Some (Ev c r)
                                   | _ => fun _ => None
                                   end r end;
  view_inject c r := eq_refl
}.

#[export] Instance files_on_renewal : Embedding (answer := fs_answer) (answer' := renewal_answer) := {
  inject c := OnHost (HostFile c);
  answered c r := r;
  view e := match e with
            | Ev c r => match c return renewal_answer c -> option (Effects.event fs_answer) with
                        | OnHost (HostFile c) => fun r => Some (Ev c r)
                        | _ => fun _ => None
                        end r
            end;
  view_inject c r := eq_refl
}.

Abbreviation unitprog A := (prog unit_answer (result FsError A)) (only parsing).
Abbreviation launchprog A := (prog launch_answer (result FsError A)) (only parsing).
Abbreviation renewal A := (prog renewal_answer (result FsError A)) (only parsing).
Abbreviation rcall c := (perform c : prog renewal_answer (renewal_answer c)) (only parsing).
Abbreviation ucall c := (perform c : prog unit_answer (unit_answer c)) (only parsing).

Definition on_files {A} (p : fsprog A) : renewal A := embed p.
Definition on_host {A} (p : prog host_answer A) : prog renewal_answer A := embed p.
Definition on_launch {A} (p : prog launch_answer A) : prog renewal_answer A := embed p.
Definition on_units {A} (p : prog unit_answer A) : prog renewal_answer A := embed p.

Definition rn_os {A} (p : prog renewal_answer (result N A)) : renewal A := let* r := p in Ret (map_err Os r).
Definition rn_bail {A} (message : str) : renewal A := Ret (Err (Bail message)).
Definition rn_bail_if (b : bool) (message : str) : renewal unit := Ret (fail_if b (Bail message)).
Definition unit_bail {A} (message : str) : unitprog A := Ret (Err (Bail message)).
Definition unit_bail_if (b : bool) (message : str) : unitprog unit := Ret (fail_if b (Bail message)).

(** [match (result, cleanup)]: the clean-up's error follows the first one. *)
Definition with_cleanup {A} (r : result FsError A) (cleanup : result FsError unit) : result FsError A :=
  match r, cleanup with
  | Ok a, Ok _ => Ok a
  | Err error, Ok _ => Err error
  | Ok _, Err error => Err error
  | Err error, Err cleanup_error => Err (AlsoFailed error [cleanup_error])
  end.

(** [tokio::join!]: which part moves is open while both can; both are run to their end. *)
Fixpoint join_both {A B} (p : prog renewal_answer A) : prog renewal_answer B -> prog renewal_answer (A * B) :=
  match p with
  | Ret a => fun q => let* b := q in Ret (a, b)
  | Do c k =>
      fix right q :=
        match q with
        | Ret b => let* a := Do c k in Ret (a, b)
        | Do d l =>
            let* first := rcall FirstMoves in
            if first then Do c (fun r => join_both (k r) q) else Do d (fun r => right (l r))
        end
  end.

(** ** Units *)

Definition activation_owner_properties : list str := [lit "--property=BindsTo=" ++ ACTIVATION_RENEWAL_UNIT].

Definition lifecycle_unit_name (kind nonce : str) : str := lit "webex-codex-canary-" ++ kind ++ lit "-" ++ nonce_prefix nonce ++ lit ".service".

Definition run_command (program : path) (arguments : list str) : unitprog bool :=
  let* ended := ucall (RunCommand program arguments COMMAND_TIMEOUT) in
  Ret (match ended with
       | CommandTimedOut => Err (Bail (lit "fixed lifecycle command timed out"))
       | CommandFailed => Err (Bail (lit "failed to run fixed lifecycle command " ++ program))
       | CommandExited success => Ok success
       end).

Definition run_command_output (program : path) (arguments : list str) : unitprog (bool * bytes) :=
  let* (ended, stdout) := ucall (RunOutput program arguments COMMAND_TIMEOUT) in
  match ended with
  | CommandTimedOut => unit_bail (lit "fixed lifecycle command timed out")
  | CommandFailed => unit_bail (lit "failed to run fixed lifecycle command " ++ program)
  | CommandExited success =>
      let*? _ := unit_bail_if (128 <? len stdout) (lit "fixed lifecycle command output is oversized") in
      Ret (Ok (success, stdout))
  end.

(** A command that has to succeed. *)
Definition run_checked (program : path) (arguments : list str) (failed : str) : unitprog unit :=
  let*? success := run_command program arguments in
  unit_bail_if (negb success) failed.

Definition stop_args (u : str) : list str := [lit "--no-ask-password"; lit "stop"; u].
Definition reset_args (u : str) : list str := [lit "--no-ask-password"; lit "reset-failed"; u].
Definition show_result_args (u : str) : list str :=
  [lit "--no-pager"; lit "--no-ask-password"; lit "show"; lit "--property=Result"; lit "--value"; u].
Definition is_active_args (u : str) : list str := [lit "--quiet"; lit "is-active"; u].

Definition stop_lifecycle_unit (u : str) : unitprog unit := run_checked SYSTEMCTL_PATH (stop_args u) (lit "failed to stop lifecycle canary unit").
Definition reset_failed_unit (u : str) : unitprog unit := run_checked SYSTEMCTL_PATH (reset_args u) (lit "failed to reset lifecycle canary unit").

Definition cleanup_lifecycle_unit (u : str) : unitprog unit :=
  let* stop := stop_lifecycle_unit u in
  let* reset := reset_failed_unit u in
  Ret (with_cleanup stop reset).

Definition cleanup_owner_lifecycle_units (anchor : str) (anchor_may_exist : bool) (child : str) (child_may_exist : bool) : unitprog unit :=
  let* child_result := (if child_may_exist then cleanup_lifecycle_unit child else Ret (Ok tt)) in
  let* anchor_result := (if anchor_may_exist then cleanup_lifecycle_unit anchor else Ret (Ok tt)) in
  Ret (with_cleanup child_result anchor_result).

Definition validate_timeout_unit_result (output : bytes) : result FsError unit :=
  fail_if (negb (str_eqb output (lit "timeout" ++ [10]))) (Bail (lit "timeout canary unit did not finish because RuntimeMaxSec expired")).

Definition verify_timeout_unit_result (u : str) : unitprog unit :=
  let*? (success, stdout) := run_command_output SYSTEMCTL_PATH (show_result_args u) in
  let*? _ := unit_bail_if (negb success) (lit "failed to inspect timeout canary result") in
  Ret (validate_timeout_unit_result stdout).

Inductive RequiredUnitState : Type := Active | Inactive.

Definition reached (required : RequiredUnitState) (is_active : bool) : bool := match required with Active => is_active | Inactive => negb is_active end.
Definition description (required : RequiredUnitState) : str := match required with Active => lit "active" | Inactive => lit "inactive" end.

(** A round looks, compares the clock, and sleeps a tenth of a second. *)
Fixpoint wait_for_state_loop (fuel : nat) (u : str) (required : RequiredUnitState) (deadline : N) : unitprog unit :=
  match fuel with
  | O => Ret (Err Exhausted)
  | S fuel =>
      let*? active := run_command SYSTEMCTL_PATH (is_active_args u) in
      if reached required active then Ret (Ok tt)
      else
        let* now := ucall MonotonicNow in
        if deadline <=? now then unit_bail (lit "lifecycle canary unit did not become " ++ description required)
        else
          let* _ := ucall (Sleep 100) in
          wait_for_state_loop fuel u required deadline
  end.

Definition wait_for_unit_state (fuel : nat) (u : str) (required : RequiredUnitState) : unitprog unit :=
  let* now := ucall MonotonicNow in
  wait_for_state_loop fuel u required (now + UNIT_STATE_TIMEOUT).

Definition wait_for_unit_inactive (fuel : nat) (u : str) : unitprog unit := wait_for_unit_state fuel u Inactive.
Definition wait_for_unit_active (fuel : nat) (u : str) : unitprog unit := wait_for_unit_state fuel u Active.

(** ** The time of a unit *)

Definition timeout_args (u : str) : list str :=
  [lit "--quiet"; lit "--service-type=exec"; lit "--unit=" ++ u] ++ activation_owner_properties
  ++ [lit "--property=RuntimeMaxSec=2s"; lit "--property=TimeoutStopSec=5s"; lit "--property=KillMode=control-group"; SHELL_PATH; lit "-c";
      lit "exec sleep 30"].

Definition run_timeout_cleanup_canary (fuel : nat) (nonce : str) : unitprog unit :=
  let u := lifecycle_unit_name (lit "timeout") nonce in
  let* r :=
    (let*? _ := run_checked SYSTEMD_RUN_PATH (timeout_args u) (lit "timeout canary failed to start") in
     let*? _ := wait_for_unit_active fuel u in
     let*? _ := wait_for_unit_inactive fuel u in
     verify_timeout_unit_result u) in
  let* cleanup := cleanup_lifecycle_unit u in
  Ret (with_cleanup r cleanup).

(** ** The owner of a unit *)

Definition owner_anchor_args (anchor : str) : list str :=
  [lit "--quiet"; lit "--service-type=exec"; lit "--unit=" ++ anchor] ++ activation_owner_properties ++ [SHELL_PATH; lit "-c"; lit "exec sleep 30"].

Definition owner_child_args (anchor child : str) : list str :=
  [lit "--quiet"; lit "--service-type=exec"; lit "--unit=" ++ child; lit "--property=BindsTo=" ++ anchor; lit "--property=After=" ++ anchor;
   lit "--property=KillMode=control-group"; SHELL_PATH; lit "-c"; lit "exec sleep 30"].

(** What follows the start of the anchor. *)
Definition owner_child_part (fuel : nat) (anchor child : str) : unitprog unit :=
  let*? _ := run_checked SYSTEMD_RUN_PATH (owner_child_args anchor child) (lit "lifecycle child failed to start") in
  let*? _ := wait_for_unit_active fuel child in
  let*? _ := stop_lifecycle_unit anchor in
  wait_for_unit_inactive fuel child.

(** The child may exist from the moment it is started; so may the anchor. *)
Definition owner_part (fuel : nat) (anchor child : str) : prog unit_answer (bool * result FsError unit) :=
  let* started := run_checked SYSTEMD_RUN_PATH (owner_anchor_args anchor) (lit "lifecycle anchor failed to start") in
  match started with
  | Err error => Ret (false, Err error)
  | Ok _ => let* r := owner_child_part fuel anchor child in Ret (true, r)
  end.

Definition run_owner_crash_cleanup_canary (fuel : nat) (nonce owner : str) : unitprog unit :=
  let anchor := lifecycle_unit_name (owner ++ lit "-anchor") nonce in
  let child := lifecycle_unit_name (owner ++ lit "-child") nonce in
  let* (child_may_exist, r) := owner_part fuel anchor child in
  let* cleanup := cleanup_owner_lifecycle_units anchor true child child_may_exist in
  Ret (with_cleanup r cleanup).

(** ** The peer of a unit *)

(** The error of a supervised run as an [anyhow] error. *)
Definition run_failure (e : TransientError) : FsError :=
  match e with
  | TransientCancelled operation => Budget (BudgetCancelled operation)
  | AuthorisedPeerExited phase => Bail (lit "authorised bot caller exited " ++ phase)
  | TransientFailed message => Bail message
  | OutOfFuel => Exhausted
  end.

Definition canary_text (e : CanaryError) : str := match e with Invalid message => message | InvalidJson => lit "runtime canary evidence is invalid JSON" end.
Definition canary_result {A} (r : result CanaryError A) : result FsError A := map_err (fun e => Bail (canary_text e)) r.

Definition launch_os {A} (p : prog launch_answer (result N A)) : launchprog A := let* r := p in Ret (map_err Os r).

(** [ProcessCanaryPeer::open]. *)
Definition open_canary_peer (pid : N) : launchprog unit :=
  if pid <=? 1 then Ret (Err (Bail (lit "bot peer-exit canary PID is invalid")))
  else
    let*? _ := launch_os (perform (OpenPidfd pid)) in
    let*? _ := launch_os (perform ProtectPidfd) in
    let* alive := (embed (perform PeerAlive) : prog launch_answer bool) in
    Ret (fail_if (negb alive) (Bail (lit "launcher caller exited during request"))).

Definition peer_exit_verdict (r : result TransientError IsolatedRunResult) : result FsError unit :=
  match r with
  | Err (AuthorisedPeerExited _) => Ok tt
  | Ok _ => Err (Bail (lit "bot peer-exit canary completed without detecting peer exit"))
  | Err error => Err (run_failure error)
  end.

Definition execute_bot_peer_exit_cleanup_canary (fuel : nat) (nonce : str) (peer_pid : N) : launchprog unit :=
  let*? _ := open_canary_peer peer_pid in
  let*? plan := Ret (canary_result (build_bot_peer_exit_canary_plan nonce)) in
  let* r := embed (run_transient_with_peer fuel plan (lit "bot-peer-exit-canary" ++ [10]) BOT_PEER_EXIT_CANARY_TIMEOUT_SECONDS 1024) in
  Ret (peer_exit_verdict r).

(** The process is killed and reaped even when the unit never became active. *)
Definition terminate_peer (fuel : nat) (u : str) : unitprog unit :=
  let* readiness := wait_for_unit_active fuel u in
  let* termination := ucall KillPeer in
  let* reaped := ucall ReapPeer in
  let*? _ := Ret readiness in
  let*? _ := unit_bail_if (negb termination) (lit "failed to terminate bot peer-exit canary process") in
  unit_bail_if (negb reaped) (lit "failed to reap bot peer-exit canary process").

(** Both parts, and the unit seen to end. *)
Definition peer_exit_part (fuel : nat) (nonce u : str) (peer_pid : N) : renewal unit :=
  let* (execution, termination) := join_both (on_launch (execute_bot_peer_exit_cleanup_canary fuel nonce peer_pid)) (on_units (terminate_peer fuel u)) in
  let*? _ := Ret execution in
  let*? _ := Ret termination in
  on_units (wait_for_unit_inactive fuel u).

(** A peer that is left is killed when it is dropped. *)
Definition run_bot_peer_exit_cleanup_canary (fuel : nat) (nonce : str) : renewal unit :=
  let*? u := Ret (canary_result (bot_peer_exit_canary_unit_name nonce)) in
  let* spawned := rcall (OnUnit (SpawnPeer SHELL_PATH [lit "-c"; lit "exec sleep 30"])) in
  if negb spawned then rn_bail (lit "failed to start bot peer-exit canary process")
  else
    let* id := rcall (OnUnit PeerId) in
    let* r :=
      match id with
      | None => rn_bail (lit "bot peer-exit canary process has no PID")
      | Some peer_pid =>
          let* r := peer_exit_part fuel nonce u peer_pid in
          let* cleanup := on_units (cleanup_lifecycle_unit u) in
          Ret (with_cleanup r cleanup)
      end in
    let* _ := rcall (OnUnit DropPeer) in
    Ret r.

(** ** Live sockets of the host *)

(** [u32::from_str_radix(text, 16)]. *)
Definition parse_hex_u32 (text : str) : option N :=
  let digits := match text with
                | c :: (_ :: _) as rest => if c =? ch "+" then rest else text
                | _ => text
                end in
  match read_digits 16 u32_max None 0 0 digits with
  | Some (n, count, []) => if (0 <? count)%nat then Some n else None
  | _ => None
  end.

(** The first line of the table that names the path decides. *)
Fixpoint socket_listed (expected : str) (table : list str) : result FsError bool :=
  match table with
  | [] => Ok false
  | line :: table =>
      match split_ascii_whitespace line with
      | _ :: _ :: _ :: flags :: _ :: state :: _ :: name :: _ =>
          if str_eqb name expected then
            let? flags := ok_or (parse_hex_u32 flags) (Bail (lit "Unix socket table contains invalid flags")) in
            Ok (negb (N.land flags 65536 =? 0) && str_eqb state (lit "01"))
          else socket_listed expected table
      | _ => socket_listed expected table
      end
  end.

Definition unix_listener_live (p : path) : fsprog bool :=
  let*? found := lstat_existing (components p) in
  match found with
  | None => Ret (Ok false)
  | Some m =>
      if negb (is_socket m) then Ret (Ok false)
      else
        let*? f := open_path (components PROC_NET_UNIX) FileFollow in
        let*? data := os (perform (ReadToEnd f)) in
        let*? table := Ret (ok_or (from_utf8 data) (Bail (lit "stream did not contain valid UTF-8"))) in
        let*? _ := bail_if (1024 * 1024 <? byte_len table) (lit "Unix socket table is oversized") in
        Ret (socket_listed p (drop 1 (lines table)))
  end.

Fixpoint wait_for_listener_loop (fuel : nat) (p : path) (what : str) (deadline : N) : renewal unit :=
  match fuel with
  | O => Ret (Err Exhausted)
  | S fuel =>
      let*? live := on_files (unix_listener_live p) in
      if live then Ret (Ok tt)
      else
        let* now := rcall (OnUnit MonotonicNow) in
        if deadline <=? now then rn_bail (what ++ lit " did not become live before the runtime canary")
        else
          let* _ := rcall (OnUnit (Sleep 100)) in
          wait_for_listener_loop fuel p what deadline
  end.

Definition wait_for_unix_listener_live (fuel : nat) (p : path) (what : str) (timeout : N) : renewal unit :=
  let* now := rcall (OnUnit MonotonicNow) in
  wait_for_listener_loop fuel p what (now + timeout).

(** ** Fixtures *)

Inductive FixtureSetupKind : Type := SetupFile | SetupDirectory.

Definition kind_matches (k : FixtureSetupKind) (m : StatSnapshot) : bool :=
  negb (is_link m) && match k with SetupFile => is_regular m | SetupDirectory => is_directory m end.

Record FixtureSetupEntry : Type := mkSetupEntry { se_path : list Component; se_device : N; se_inode : N; se_kind : FixtureSetupKind }.

(** [FixtureSetupGuard::track]; the guard is the list of its entries. *)
Definition track (p : list Component) (k : FixtureSetupKind) : fsprog FixtureSetupEntry :=
  let*? m := lstat p in
  let*? _ := bail_if (negb (kind_matches k m)) (lit "created canary fixture type is invalid") in
  Ret (Ok (mkSetupEntry p (st_device m) (st_inode m) k)).

Definition remove_fixture (p : list Component) (k : FixtureSetupKind) : renewal unit :=
  match k with
  | SetupFile => on_files (remove_file p)
  | SetupDirectory => rn_os (rcall (RemoveDirectory p))
  end.

(** One entry of the roll-back: only what was created is removed. *)
Definition roll_back_entry (e : FixtureSetupEntry) : renewal unit :=
  let*? found := on_files (lstat_existing (se_path e)) in
  match found with
  | None => Ret (Ok tt)
  | Some m =>
      let*? _ := rn_bail_if (negb (kind_matches (se_kind e) m && (st_device m =? se_device e) && (st_inode m =? se_inode e)))
                   (lit "created canary fixture was replaced before rollback") in
      remove_fixture (se_path e) (se_kind e)
  end.

(** [FixtureSetupGuard::cleanup] on the newest entry first; all are tried. *)
Fixpoint roll_back (entries : list FixtureSetupEntry) : prog renewal_answer (list FsError) :=
  match entries with
  | [] => Ret []
  | e :: entries =>
      let* r := roll_back_entry e in
      let* failures := roll_back entries in
      Ret (match r with Ok _ => failures | Err error => error :: failures end)
  end.

(** The guard is dropped armed when a step fails; its own failures are only logged. *)
Definition or_roll_back {A B} (entries : list FixtureSetupEntry) (p : renewal A) (k : A -> renewal B) : renewal B :=
  let* r := p in
  match r with
  | Ok a => k a
  | Err error => let* _ := roll_back entries in Ret (Err error)
  end.

(** [failed_creation_error] for a directory. *)
Definition failed_directory_creation {A} (p : list Component) (error : FsError) : renewal A :=
  let* removed := rcall (RemoveDirectory p) in
  match removed with
  | Ok _ => Ret (Err error)
  | Err errno => Ret (Err (AlsoFailed error [Os errno]))
  end.

Definition create_private_directory (p : list Component) : renewal unit :=
  let*? _ := rn_os (rcall (MakeDirectory p)) in
  let* r :=
    (let*? _ := rn_os (rcall (SetMode p 448)) in
     let*? m := on_files (lstat p) in
     rn_bail_if (negb (private_directory_ok m 448 ROOT_FILE_OWNER)) (lit "created canary directory metadata is invalid")) in
  match r with
  | Ok _ => Ret (Ok tt)
  | Err error => failed_directory_creation p error
  end.

Definition random_fixture_contents : fsprog bytes :=
  let* random := (perform RandomBytes : prog fs_answer (option bytes)) in
  Ret (match random with
       | Some data => Ok (as_bytes (lit "webex-runtime-canary-v1:" ++ hex data ++ [10]))
       | None => Err (Bail (lit "failed to obtain canary fixture randomness"))
       end).

Definition workspace_probe_payload (nonce : str) : result FsError bytes :=
  canary_result (validate_runtime_canary_nonce nonce) ;? Ok (as_bytes nonce).

Record HostFixtureSet : Type := mkFixtureSet {
  fx_protected : BoundedRegularFileSnapshot;
  fx_workspace : BoundedRegularFileSnapshot;
  fx_workspace_root : list Component;
  fx_workspace_nonce_root : list Component;
  fx_workspace_canary_root : list Component;
  fx_unix : InstrumentedUnixListener;
  fx_forbidden : InstrumentedTcpListener;
  fx_bot : InstrumentedTcpListener;
  fx_files_cleaned : bool
}.

Definition host_child (root : str) (name : str) : list Component := HostPaths.child (components root) (as_bytes name).
Definition protected_fixture_path (nonce : str) : list Component := host_child RUNTIME_CANARY_HOST_PROTECTED_FIXTURE_ROOT nonce.
Definition workspace_fixture_root (nonce : str) : list Component := host_child RUNTIME_CANARY_HOST_UNIX_FIXTURE_ROOT (nonce ++ lit ".workspace").
Definition unix_fixture_path (nonce : str) : list Component := host_child RUNTIME_CANARY_HOST_UNIX_FIXTURE_ROOT (nonce ++ lit ".sock").

Section renewal.
Context `{Sha256} `{JsonText} `{JsonPrint}.

(** The listeners, dropped in reverse when a later one fails, before the guard. *)
Definition bind_listeners (entries : list FixtureSetupEntry) (nonce : str)
  : renewal (InstrumentedUnixListener * InstrumentedTcpListener * InstrumentedTcpListener) :=
  or_roll_back entries (on_host (unix_bind (unix_fixture_path nonce))) (fun unix =>
  let* forbidden := on_host bind_assigned_non_loopback_listener in
  match forbidden with
  | Err error =>
      let* _ := on_host (drop_unix unix) in
      let* _ := roll_back entries in
      Ret (Err error)
  | Ok forbidden =>
      let* bot := on_host bind_loopback_bot_listener in
      match bot with
      | Err error =>
          let* _ := on_host (drop_tcp forbidden) in
          let* _ := on_host (drop_unix unix) in
          let* _ := roll_back entries in
          Ret (Err error)
      | Ok bot => Ret (Ok (unix, forbidden, bot))
      end
  end).

(** A directory or file that is created and tracked. *)
Definition tracked_directory {A} (entries : list FixtureSetupEntry) (p : list Component) (k : list FixtureSetupEntry -> renewal A) : renewal A :=
  or_roll_back entries (create_private_directory p) (fun _ =>
  or_roll_back entries (on_files (track p SetupDirectory)) (fun e => k (e :: entries))).

Definition tracked_file {A} (entries : list FixtureSetupEntry) (p : list Component) (contents : fsprog bytes)
    (k : list FixtureSetupEntry -> renewal A) : renewal A :=
  or_roll_back entries (on_files (let*? data := contents in create_private_fixture p data)) (fun _ =>
  or_roll_back entries (on_files (track p SetupFile)) (fun e => k (e :: entries))).

(** [HostFixtureSet::create]. *)
Definition create_fixtures (nonce : str) : renewal HostFixtureSet :=
  let*? _ := Ret (canary_result (validate_runtime_canary_nonce nonce)) in
  let*? _ := on_files (validate_root_directory (components RUNTIME_CANARY_HOST_UNIX_FIXTURE_ROOT) 448 (lit "runtime canary root")) in
  let*? _ := on_files (validate_root_directory (components RUNTIME_CANARY_HOST_PROTECTED_FIXTURE_ROOT) 448 (lit "protected canary root")) in
  let protected_path := protected_fixture_path nonce in
  tracked_file [] protected_path random_fixture_contents (fun entries =>
  or_roll_back entries (on_files (capture protected_path FIXTURE_MAX_BYTES)) (fun protected =>
  let workspace_root := workspace_fixture_root nonce in
  let workspace_canary_root := HostPaths.child workspace_root (lit ".webex-codex-canary") in
  let workspace_nonce_root := HostPaths.child workspace_canary_root (as_bytes nonce) in
  tracked_directory entries workspace_root (fun entries =>
  tracked_directory entries workspace_canary_root (fun entries =>
  tracked_directory entries workspace_nonce_root (fun entries =>
  let workspace_path := HostPaths.child workspace_nonce_root (lit "probe.txt") in
  tracked_file entries workspace_path (Ret (workspace_probe_payload nonce)) (fun entries =>
  or_roll_back entries (on_files (capture workspace_path FIXTURE_MAX_BYTES)) (fun workspace =>
  let*? (unix, forbidden, bot) := bind_listeners entries nonce in
  Ret (Ok (mkFixtureSet protected workspace workspace_root workspace_nonce_root workspace_canary_root unix forbidden bot false))))))))).

Definition set_listeners (fx : HostFixtureSet) (unix : InstrumentedUnixListener) (forbidden bot : InstrumentedTcpListener) : HostFixtureSet :=
  mkFixtureSet (fx_protected fx) (fx_workspace fx) (fx_workspace_root fx) (fx_workspace_nonce_root fx) (fx_workspace_canary_root fx)
    unix forbidden bot (fx_files_cleaned fx).

(** All three are shut down before the first error is returned. *)
Definition shutdown_listeners (fx : HostFixtureSet) : prog renewal_answer (HostFixtureSet * result FsError unit) :=
  let* (unix, unix_result) := on_host (unix_shutdown_and_verify_zero_accepts (fx_unix fx)) in
  let* (forbidden, forbidden_result) := on_host (tcp_shutdown_and_verify_zero_accepts (fx_forbidden fx)) in
  let* (bot, bot_result) := on_host (tcp_shutdown_and_verify_zero_accepts (fx_bot fx)) in
  Ret (set_listeners fx unix forbidden bot, unix_result ;? forbidden_result ;? bot_result).

Definition cleanup_files (fx : HostFixtureSet) : prog renewal_answer (HostFixtureSet * result FsError unit) :=
  let* r :=
    (let*? _ := on_files (verify_path_identity_unchanged (fx_protected fx)) in
     let*? _ := on_files (verify_path_identity_unchanged (fx_workspace fx)) in
     let*? _ := on_files (remove_file (sn_path (fx_protected fx))) in
     let*? _ := on_files (remove_file (sn_path (fx_workspace fx))) in
     let*? _ := rn_os (rcall (RemoveDirectory (fx_workspace_nonce_root fx))) in
     let*? _ := rn_os (rcall (RemoveDirectory (fx_workspace_canary_root fx))) in
     rn_os (rcall (RemoveDirectory (fx_workspace_root fx)))) in
  Ret (mkFixtureSet (fx_protected fx) (fx_workspace fx) (fx_workspace_root fx) (fx_workspace_nonce_root fx) (fx_workspace_canary_root fx)
         (fx_unix fx) (fx_forbidden fx) (fx_bot fx) (fx_files_cleaned fx || is_ok r), r).

(** [Drop], and that of the listeners. *)
Definition drop_fixtures (fx : HostFixtureSet) : prog renewal_answer unit :=
  let* _ := (if fx_files_cleaned fx then Ret tt else let* _ := cleanup_files fx in Ret tt) in
  let* _ := on_host (drop_unix (fx_unix fx)) in
  let* _ := on_host (drop_tcp (fx_forbidden fx)) in
  on_host (drop_tcp (fx_bot fx)).

(** ** The boundary of the runtime *)

(** The run of the canary plan between its preparation and its clean-up. *)
Definition execute_runtime_canary (fuel : nat) (request : RuntimeCanaryLaunchRequest) (candidate : VerifiedActivation) : renewal str :=
  let*? _ := Ret (map_err Bail (validate_launch_request request)) in
  let*? (plan, w) := rcall (PrepareCanary request candidate) in
  let* execution := on_launch (embed (run_runtime_canary_transient fuel plan)) in
  let* cleanup := rcall (CleanWorkspace w) in
  Ret (with_cleanup (map_err run_failure execution) cleanup).

(** [path.to_string_lossy()] of an absolute path. *)
Definition path_text (p : list Component) : str := from_utf8_lossy (separator :: Text.join [separator] (omap (fun c => match c with Normal name => Some name | _ => None end) p)).

Definition launch_request (nonce : str) (fx : HostFixtureSet) : RuntimeCanaryLaunchRequest :=
  mkCanaryLaunch nonce (socket_addr_to_string (tl_endpoint (fx_forbidden fx))) (socket_addr_to_string (tl_endpoint (fx_bot fx)))
    (path_text (ul_path (fx_unix fx))) (path_text (sn_path (fx_protected fx))).

Definition fixture_inputs (pid : N) (secret : str) (launch : RuntimeCanaryLaunchRequest) : RuntimeCanaryFixtureInputs :=
  mkFixtureInputs pid secret (lr_forbidden_tcp launch) (lr_bot_tcp launch) (lr_host_unix launch) (lr_host_protected_path launch).

(** One line; its own values give the inputs it is checked against. *)
Definition parse_runtime_evidence (output : str) (launch : RuntimeCanaryLaunchRequest) : result FsError RuntimeCanaryRuntimeEvidence :=
  let data := as_bytes output in
  fail_if (is_empty data || negb (ends_with [10] data) || any (N.eqb 10) (without_last data))
    (Bail (lit "runtime canary evidence framing is invalid")) ;?
  let? preliminary := ok_or (json_from_slice (without_last data) ≫= decode_evidence) (Bail (lit "runtime canary evidence is invalid JSON")) in
  let inputs := fixture_inputs (re_main_pid preliminary) (re_fd_secret_sha256 preliminary) launch in
  let? binding := canary_result (runtime_canary_fixture_binding (lr_nonce launch) inputs) in
  canary_result (parse_runtime_canary_runtime_evidence data (lr_nonce launch) binding inputs).

(** The run, and its input taken away again. *)
Definition run_canary (fuel : nat) (candidate : VerifiedActivation) (launch : RuntimeCanaryLaunchRequest) (fx : HostFixtureSet) : renewal str :=
  let*? pending := rcall (StageCanary (lr_nonce launch) (fx_workspace_root fx)) in
  let* execution := execute_runtime_canary fuel launch candidate in
  let* cleanup := rcall (CleanPending pending) in
  Ret (with_cleanup execution cleanup).

(** What the host has to say: the evidence of the runtime with what the listeners counted and
    whether the sockets of the services are live. *)
Definition host_evidence (nonce : str) (runtime : RuntimeCanaryRuntimeEvidence) (fx : HostFixtureSet) (launcher_live_after config_live_after : bool)
  : prog renewal_answer RuntimeCanaryHostEvidence :=
  let* unix_live := on_host (unix_is_live (fx_unix fx)) in
  let* unix_accepts := on_host (accept_count (ul_monitor (fx_unix fx))) in
  let* forbidden_live := on_host (is_live (tl_monitor (fx_forbidden fx))) in
  let* forbidden_accepts := on_host (accept_count (tl_monitor (fx_forbidden fx))) in
  let* bot_live := on_host (is_live (tl_monitor (fx_bot fx))) in
  let* bot_accepts := on_host (accept_count (tl_monitor (fx_bot fx))) in
  Ret (mkHostEvidence nonce (re_fixture_binding runtime) true true true true
    (re_credential_path_regular_file_before runtime) (re_credential_path_regular_file_after runtime)
    (re_credential_path_identity_unchanged runtime) (re_credential_path_contents_unchanged runtime)
    (re_main_home_fixture_regular_file_before runtime) (re_main_home_fixture_regular_file_after runtime)
    (re_main_home_fixture_identity_unchanged runtime) (re_main_home_fixture_contents_unchanged runtime)
    (re_codex_home_fixture_regular_file_before runtime) (re_codex_home_fixture_regular_file_after runtime)
    (re_codex_home_fixture_identity_unchanged runtime) (re_codex_home_fixture_contents_unchanged runtime)
    (re_final_output_fixture_regular_file_before runtime) (re_final_output_fixture_regular_file_after runtime)
    (re_final_output_fixture_identity_unchanged runtime) (re_final_output_fixture_contents_unchanged runtime)
    (re_workspace_fixture_regular_file_before runtime) (re_workspace_fixture_regular_file_after runtime)
    (re_workspace_fixture_identity_unchanged runtime) (re_workspace_fixture_contents_unchanged runtime)
    true unix_live unix_accepts true forbidden_live forbidden_accepts true bot_live bot_accepts
    true config_live_after true launcher_live_after).

Record RuntimeBoundaryResult : Type := mkBoundaryResult { rb_nonce : str; rb_report : RuntimeCanaryReport }.

(** Up to the check of the report. *)
Definition boundary_evidence (fuel : nat) (candidate : VerifiedActivation) (nonce : str) (fx : HostFixtureSet) : renewal RuntimeCanaryReport :=
  let launch := launch_request nonce fx in
  let*? output := run_canary fuel candidate launch fx in
  let*? runtime := Ret (parse_runtime_evidence output launch) in
  let*? _ := on_files (verify_path_identity_unchanged (fx_protected fx)) in
  let*? _ := on_files (verify_contents_unchanged (fx_protected fx)) in
  let*? _ := on_files (verify_path_identity_unchanged (fx_workspace fx)) in
  let*? _ := on_files (verify_contents_unchanged (fx_workspace fx)) in
  let*? launcher_live_after := on_files (unix_listener_live LAUNCHER_SOCKET_PATH) in
  let*? config_live_after := on_files (unix_listener_live CONFIG_ACTION_SOCKET) in
  let* evidence := host_evidence nonce runtime fx launcher_live_after config_live_after in
  let*? _ := Ret (canary_result (ensure_success (re_report runtime) nonce (re_fixture_binding runtime) evidence)) in
  Ret (Ok (re_report runtime)).

(** With the fixtures as they are left. *)
Definition boundary_part (fuel : nat) (candidate : VerifiedActivation) (nonce : str) (fx : HostFixtureSet)
  : prog renewal_answer (HostFixtureSet * result FsError RuntimeBoundaryResult) :=
  let* report := boundary_evidence fuel candidate nonce fx in
  match report with
  | Err error => Ret (fx, Err error)
  | Ok report =>
      let* (fx, shut_down) := shutdown_listeners fx in
      match shut_down with
      | Err error => Ret (fx, Err error)
      | Ok _ =>
          let* (fx, cleaned) := cleanup_files fx in
          Ret (fx, cleaned ;? Ok (mkBoundaryResult nonce report))
      end
  end.

Definition run_runtime_boundary_canary (fuel : nat) (candidate : VerifiedActivation) : renewal RuntimeBoundaryResult :=
  let*? nonce := on_files random_nonce in
  let*? _ := wait_for_unix_listener_live fuel LAUNCHER_SOCKET_PATH (lit "launcher socket") DEPENDENCY_SOCKET_READY_TIMEOUT in
  let*? _ := wait_for_unix_listener_live fuel CONFIG_ACTION_SOCKET (lit "config worker socket") DEPENDENCY_SOCKET_READY_TIMEOUT in
  let*? fx := create_fixtures nonce in
  let* (fx, r) := boundary_part fuel candidate nonce fx in
  let* _ := drop_fixtures fx in
  Ret r.

(** ** The renewal *)

Definition ensure_root_helper : fsprog unit :=
  let* uid := (perform EffectiveUid : prog fs_answer N) in
  bail_if (negb (uid =? 0)) (lit "activation canary helper must run as root").

(** [RenewalLock::acquire]. *)
Definition acquire_lock : renewal fd :=
  let*? f := rn_os (rcall (OpenLock ACTIVATION_LOCK_PATH 384)) in
  let*? m := on_files (stat_fd f) in
  let*? _ := Ret (validate_private_file m (lit "activation renewal lock") ROOT_FILE_OWNER) in
  let* locked := rcall (TryLock f) in
  match locked with
  | Ok _ => Ret (Ok f)
  | Err errno => if errno =? EWOULDBLOCK then rn_bail (lit "activation renewal is already in progress") else Ret (Err (Os errno))
  end.

(** The report of the canary was checked: every required name is entered as passed. *)
Definition passing_receipt_canaries : gmap str bool := list_to_map (map (fun name => (name, true)) REQUIRED_CANARIES).

Section receipts.
Context `{JsonPretty}.

(** The asynchronous block of [renew_activation_receipt]. *)
Definition renewal_steps (fuel : nat) (candidate : VerifiedActivation) : renewal VerifiedActivation :=
  let*? _ := on_files (verify_reboot_cleanup_challenge candidate) in
  let*? runtime := run_runtime_boundary_canary fuel candidate in
  let*? _ := on_units (run_timeout_cleanup_canary fuel (rb_nonce runtime)) in
  let*? _ := on_units (run_owner_crash_cleanup_canary fuel (rb_nonce runtime) (lit "launcher")) in
  let*? _ := run_bot_peer_exit_cleanup_canary fuel (rb_nonce runtime) in
  on_files (commit_activation_receipt candidate passing_receipt_canaries).

Definition renew_locked (fuel : nat) : renewal VerifiedActivation :=
  let*? candidate := on_files begin_activation_renewal in
  let* r := renewal_steps fuel candidate in
  match r with
  | Ok verified => Ret (Ok verified)
  | Err error =>
      let* aborted := on_files abort_activation_renewal in
      match aborted with
      | Ok _ => Ret (Err error)
      | Err abort_error => Ret (Err (AlsoFailed error [abort_error]))
      end
  end.

Definition renew_activation_receipt (fuel : nat) : renewal VerifiedActivation :=
  let*? _ := on_files ensure_root_helper in
  let*? lock := acquire_lock in
  let* r := renew_locked fuel in
  let* _ := rcall (Unlock lock) in
  Ret r.

(** A receipt that verifies is left alone. *)
Definition ensure_activation_receipt_with (verify : fsprog VerifiedActivation) (renew : renewal VerifiedActivation) : renewal VerifiedActivation :=
  let* verified := on_files verify in
  match verified with
  | Ok verified => Ret (Ok verified)
  | Err verification_error =>
      let* renewed := renew in
      Ret (map_err (fun renewal_error => AlsoFailed verification_error [renewal_error]) renewed)
  end.

Definition ensure_activation_receipt (fuel : nat) : renewal VerifiedActivation :=
  let*? _ := on_files ensure_root_helper in
  ensure_activation_receipt_with (verify_activation_with production_paths) (renew_activation_receipt fuel).
End receipts.

(** ** Preparing the challenge *)

Record RebootChallengePreparationReport : Type := mkPreparationReport {
  pr_version : N;
  pr_mode : str;
  pr_status : str;
  pr_writes_performed : N;
  pr_activation_binding : ActivationBindingReport;
  pr_challenge : RebootChallengeReport
}.

Definition preparation (apply_ : bool) : fsprog RebootChallengePreparationReport :=
  let*? binding := verify_preactivation_candidate in
  let expected_binding := binding_report binding in
  let*? (status, writes_performed, challenge) := prepare_reboot_cleanup_challenge apply_ expected_binding in
  Ret (Ok (mkPreparationReport REBOOT_CHALLENGE_VERSION (if apply_ then lit "applied" else lit "dry-run") status writes_performed
             expected_binding challenge)).

Definition prepare_activation_reboot_challenge (apply_ : bool) : renewal RebootChallengePreparationReport :=
  let*? _ := on_files ensure_root_helper in
  if apply_ then
    let*? lock := acquire_lock in
    let* r := on_files (preparation apply_) in
    let* _ := rcall (Unlock lock) in
    Ret r
  else on_files (preparation apply_).
End renewal.
