(* ===== verification/ActivationCanaryRules.v ===== *)
(** * What a renewed activation has been through

    A receipt is only committed after every canary of the renewal passed, in order, and a
    renewal that fails takes the receipt away. Whatever happens, the units that the canaries
    start are told to stop, and their waits end. *)

From S2P Require Import Prelude Effects Text Net Paths HostFiles Digest WorkBudget Descriptors HostPaths Webex Serde.
From S2P Require Import CanaryProtocol CanaryRules CodexLauncher LauncherClient ConfigActions Capture LauncherProtocol IsolatedPlan IsolatedRun IsolatedWorkspace.
From S2P Require Import IsolatedRunRules DescriptorRules RunnerInput Activation ActivationRules RebootChallenge RebootChallengeRules Descriptors CanaryHost ActivationCanary.

Local Open Scope N_scope.

(** ** Events in order *)

(** A run leaves these events, the newest first, among those it adds. *)
Definition leaves {call} {answer : call -> Type} (es h h' : list (Effects.event answer)) : Prop :=
  exists t, h' = t ++ h /\ es `sublist_of` t.

Section leaves.
Context {call : Type} {answer : call -> Type}.
Implicit Types h es : list (Effects.event answer).

Lemma leaves_refl h : leaves [] h h.
Proof. exists []. by split. Qed.

Lemma leaves_event e h : leaves [e] h (e :: h).
Proof. by exists [e]. Qed.

Lemma leaves_more e h : leaves [] h (e :: h).
Proof. exists [e]. split; [done|]. apply sublist_nil_l. Qed.

Lemma leaves_app es es' h h1 h2 : leaves es h h1 -> leaves es' h1 h2 -> leaves (es' ++ es) h h2.
Proof. intros (t & -> & Ht) (t' & -> & Ht'). exists (t' ++ t). split; [by rewrite app_assoc|]. by apply sublist_app. Qed.

Lemma leaves_then h h1 h2 es es' : leaves es h h1 -> leaves es' h1 h2 -> leaves es h h2.
Proof.
  intros H1 H2. destruct (leaves_app _ _ _ _ _ H1 H2) as (t & -> & Ht). exists t. split; [done|].
  etrans; [apply sublist_inserts_l|exact Ht]; done.
Qed.

Lemma leaves_after h h1 h2 es : extends h h1 -> leaves es h1 h2 -> leaves es h h2.
Proof. intros (t & ->) (t' & -> & Ht). exists (t' ++ t). split; [by rewrite app_assoc|]. by apply sublist_inserts_r. Qed.

Lemma leaves_before h h1 h2 es : leaves es h h1 -> extends h1 h2 -> leaves es h h2.
Proof. intros H1 (t & ->). eapply leaves_then; [exact H1|]. exists t. split; [done|apply sublist_nil_l]. Qed.

Lemma leaves_extends es h h' : leaves es h h' -> extends h h'.
Proof. intros (t & -> & _). by exists t. Qed.

Lemma leaves_in es h h' e : leaves es h h' -> e ∈ es -> e ∈ h'.
Proof. intros (t & -> & Ht) He. apply elem_of_app. left. eapply elem_of_submseteq; [exact He|]. by apply sublist_submseteq. Qed.
End leaves.

(** ** Programs side by side *)

Abbreviation rtrace := (list (Effects.event renewal_answer)) (only parsing).

Section alone.
Context {call : Type} {answer : call -> Type} {E : Embedding (answer := answer) (answer' := renewal_answer)}.

Definition visible (e : Effects.event renewal_answer) : bool := is_some_and (view e) (fun _ => true).

(** The history when the [n]th event of a part was still to come. *)
Fixpoint before (n : nat) (h : rtrace) : rtrace :=
  match h with
  | [] => []
  | e :: h => if (length (seen h) <=? n)%nat && visible e then h else before n h
  end.

(** The environment of a part alone. *)
Definition alone (env : environment renewal_answer) (final : rtrace) : environment answer :=
  fun g c => answered c (env (before (length g) final) (inject c)).

Lemma seen_app (t h : rtrace) : seen (t ++ h) = seen t ++ seen h.
Proof. unfold seen. by rewrite omap_app. Qed.

Lemma before_event c (r : renewal_answer (inject c)) h final :
  extends (Ev (inject c) r :: h) final -> before (length (seen h)) final = h.
Proof.
  intros (t & ->). induction t as [|e t IH]; cbn [app before].
  - unfold visible. by rewrite view_inject, Nat.leb_refl.
  - rewrite IH. replace (_ <=? _)%nat with false; [done|]. symmetry. apply Nat.leb_gt.
    rewrite seen_app, seen_inject, length_app. cbn [length]. lia.
Qed.

Lemma alone_answer (env : environment renewal_answer) c h final :
  extends (Ev (inject c) (env h (inject c)) :: h) final -> alone env final (seen h) c = answered c (env h (inject c)).
Proof. intros Hx. unfold alone. by rewrite (before_event c _ h final Hx). Qed.

(** A part that runs to its end by itself. *)
Lemma alone_embed {A} (p : prog answer A) env h h' final a :
  exec env h (embed p) = (h', a) -> extends h' final -> exec (alone env final) (seen h) p = (seen h', a).
Proof.
  revert h. induction p as [x|c k IH]; intros h; cbn; [by intros [= <- <-]|]. intros He Hx.
  rewrite alone_answer; [|eapply extends_trans; [by eapply exec_extends_to|done]].
  rewrite <-seen_inject. by apply IH.
Qed.
End alone.

Section join.
Context {call1 call2 : Type} {answer1 : call1 -> Type} {answer2 : call2 -> Type}.
Context (E1 : Embedding (answer := answer1) (answer' := renewal_answer)) (E2 : Embedding (answer := answer2) (answer' := renewal_answer)).
Hypothesis apart1 : forall (c : call1) (r : renewal_answer (inject c)), view (Embedding := E2) (Ev (inject c) r) = None.
Hypothesis apart2 : forall (c : call2) (r : renewal_answer (inject c)), view (Embedding := E1) (Ev (inject c) r) = None.
Hypothesis choice1 : forall r, view (Embedding := E1) (Ev FirstMoves r) = None.
Hypothesis choice2 : forall r, view (Embedding := E2) (Ev FirstMoves r) = None.

#[local] Abbreviation embed1 := (@embed _ _ _ _ E1 _).
#[local] Abbreviation embed2 := (@embed _ _ _ _ E2 _).
#[local] Abbreviation seen1 := (@seen _ _ _ _ E1).
#[local] Abbreviation seen2 := (@seen _ _ _ _ E2).

Lemma seen2_inject1 c r (h : rtrace) : seen2 (Ev (@inject _ _ _ _ E1 c) r :: h) = seen2 h.
Proof using apart1. unfold seen. cbn. by rewrite apart1. Qed.

Lemma seen1_inject2 c r (h : rtrace) : seen1 (Ev (@inject _ _ _ _ E2 c) r :: h) = seen1 h.
Proof using apart2. unfold seen. cbn. by rewrite apart2. Qed.

Lemma seen2_embed1 {A} (p : prog answer1 A) env h : seen2 (exec env h (embed1 p)).1 = seen2 h.
Proof using apart1. revert h. induction p as [a|c k IH]; intros h; cbn; [done|]. by rewrite IH, seen2_inject1. Qed.

Lemma seen1_embed2 {A} (p : prog answer2 A) env h : seen1 (exec env h (embed2 p)).1 = seen1 h.
Proof using apart2. revert h. induction p as [a|c k IH]; intros h; cbn; [done|]. by rewrite IH, seen1_inject2. Qed.

(** Whatever the order in which the parts move, each runs as it would alone. *)
Lemma join_alone {A B} (p : prog answer1 A) (q : prog answer2 B) env h h' a b :
  exec env h (join_both (embed1 p) (embed2 q)) = (h', (a, b)) ->
  exists env1 env2, exec env1 (seen1 h) p = (seen1 h', a) /\ exec env2 (seen2 h) q = (seen2 h', b).
Proof using apart1 apart2 choice1 choice2.
  intros He. exists (alone env h'), (alone env h'). revert q h He.
  induction p as [x|c k IHp]; intros q h.
  { cbn [embed join_both]. rewrite exec_bind. destruct (exec env h (embed2 q)) as [h1 y] eqn:E. cbn. intros [= <- <- <-].
    pose proof (seen1_embed2 q env h) as Hs. rewrite E in Hs. cbn [fst] in Hs. rewrite Hs. split; [done|].
    eapply alone_embed; [exact E|apply extends_refl]. }
  induction q as [y|d l IHq] in h |- *.
  { change (join_both (embed1 (Do c k)) (embed2 (Ret y))) with (bind (embed1 (Do c k)) (fun a => Ret (a, y))).
    rewrite exec_bind. destruct (exec env h (embed1 (Do c k))) as [h1 x] eqn:E. cbn [exec fst snd]. intros [= <- <- <-].
    pose proof (seen2_embed1 (Do c k) env h) as Hs. rewrite E in Hs. cbn [fst] in Hs. rewrite Hs. split; [|done].
    exact (alone_embed (E := E1) (Do c k) env h h1 h1 x E (extends_refl h1)). }
  change (join_both (embed1 (Do c k)) (embed2 (Do d l))) with
    (bind (perform FirstMoves) (fun first : bool =>
       if first then Do (@inject _ _ _ _ E1 c) (fun r => join_both (embed1 (k (answered c r))) (embed2 (Do d l)))
       else Do (@inject _ _ _ _ E2 d) (fun r => join_both (embed1 (Do c k)) (embed2 (l (answered d r)))))).
  rewrite exec_bind. cbn [exec perform fst snd]. set (h0 := Ev FirstMoves _ :: h).
  assert (seen1 h0 = seen1 h) as H1 by (unfold seen; cbn; by rewrite choice1).
  assert (seen2 h0 = seen2 h) as H2 by (unfold seen; cbn; by rewrite choice2).
  destruct (env h FirstMoves); cbn [exec]; intros He; pose proof (exec_extends_to _ _ _ _ _ He) as Hx.
  - apply IHp in He as [Hp Hq]. rewrite seen2_inject1, H2 in Hq. split; [|done].
    rewrite seen_inject, H1 in Hp. cbn [exec]. rewrite <-H1, (alone_answer (E := E1)) by done. by rewrite H1.
  - apply IHq in He as [Hp Hq]. rewrite seen1_inject2, H1 in Hp. split; [done|].
    rewrite seen_inject, H2 in Hq. cbn [exec]. rewrite <-H2, (alone_answer (E := E2)) by done. by rewrite H2.
Qed.
End join.

(** ** Units *)

Abbreviation utrace := (list (Effects.event unit_answer)) (only parsing).

Definition ran (program : path) (arguments : list str) (success : bool) : Effects.event unit_answer :=
  Ev (RunCommand program arguments COMMAND_TIMEOUT) (CommandExited success).

Definition told_to_stop (u : str) : Effects.event unit_answer := ran SYSTEMCTL_PATH (stop_args u) true.
Definition was_reset (u : str) : Effects.event unit_answer := ran SYSTEMCTL_PATH (reset_args u) true.
Definition found_active (u : str) (active : bool) : Effects.event unit_answer := ran SYSTEMCTL_PATH (is_active_args u) active.

(** A unit that systemd ended when its time was over. *)
Definition timeout_events (nonce : str) : utrace :=
  let u := lifecycle_unit_name (lit "timeout") nonce in
  [was_reset u; told_to_stop u;
   Ev (RunOutput SYSTEMCTL_PATH (show_result_args u) COMMAND_TIMEOUT) (CommandExited true, lit "timeout" ++ [10]);
   found_active u false; found_active u true; ran SYSTEMD_RUN_PATH (timeout_args u) true].

(** A unit that systemd ended with the one it is bound to. *)
Definition owner_events (nonce owner : str) : utrace :=
  let anchor := lifecycle_unit_name (owner ++ lit "-anchor") nonce in
  let child := lifecycle_unit_name (owner ++ lit "-child") nonce in
  [was_reset anchor; told_to_stop anchor; was_reset child; told_to_stop child; found_active child false; told_to_stop anchor;
   found_active child true; ran SYSTEMD_RUN_PATH (owner_child_args anchor child) true; ran SYSTEMD_RUN_PATH (owner_anchor_args anchor) true].

(** The peer was killed while the unit was active, and the unit ended. *)
Definition peer_events (u : str) (pid : N) : utrace :=
  [was_reset u; told_to_stop u; found_active u false; Ev ReapPeer true; Ev KillPeer true; found_active u true; Ev PeerId (Some pid);
   Ev (SpawnPeer SHELL_PATH [lit "-c"; lit "exec sleep 30"]) true].

Lemma run_command_ok env (h h' : utrace) program arguments success :
  exec env h (run_command program arguments) = (h', Ok success) -> h' = ran program arguments success :: h.
Proof.
  unfold run_command, ran. rewrite exec_bind. cbn -[lit]. destruct (env h _) as [| |b]; intros [= <- Hs]; first [discriminate|congruence].
Qed.

Lemma run_checked_ok env (h h' : utrace) program arguments failed :
  exec env h (run_checked program arguments failed) = (h', Ok tt) -> leaves [ran program arguments true] h h'.
Proof.
  unfold run_checked. intros (h1 & success & ->%run_command_ok & Hk)%exec_bind_ok. injection Hk as <- Hs.
  destruct success; [|discriminate]. apply leaves_event.
Qed.

Lemma wait_loop_ok env fuel u required deadline (h h' : utrace) :
  exec env h (wait_for_state_loop fuel u required deadline) = (h', Ok tt) ->
  leaves [found_active u (match required with Active => true | Inactive => false end)] h h'.
Proof.
  revert h. induction fuel as [|fuel IH]; intros h; cbn [wait_for_state_loop]; [done|].
  intros (h1 & active & ->%run_command_ok & Hk)%exec_bind_ok.
  destruct (reached required active) eqn:Hr.
  - injection Hk as <-. destruct required, active; try discriminate; apply leaves_event.
  - rewrite exec_bind in Hk. cbn [exec perform fst snd] in Hk. destruct (deadline <=? _); [discriminate|].
    rewrite exec_bind in Hk. cbn [exec perform fst snd] in Hk. apply IH in Hk. eapply leaves_after; [|exact Hk]. auto with trace.
Qed.

Lemma wait_for_unit_ok env fuel u required (h h' : utrace) :
  exec env h (wait_for_unit_state fuel u required) = (h', Ok tt) ->
  leaves [found_active u (match required with Active => true | Inactive => false end)] h h'.
Proof.
  unfold wait_for_unit_state. rewrite exec_bind. cbn [exec perform fst snd]. intros Hk%wait_loop_ok.
  eapply leaves_after; [|exact Hk]. auto with trace.
Qed.

Lemma with_cleanup_ok {A} (r : result FsError A) c a : with_cleanup r c = Ok a <-> r = Ok a /\ c = Ok tt.
Proof. destruct r, c as [[]|]; cbn; naive_solver. Qed.

(** A clean-up that follows whatever happened. *)
Lemma cleanup_bind_ok {call} {answer : call -> Type} {A} env (h h' : list (Effects.event answer)) (p : prog answer (result FsError A))
    (c : prog answer (result FsError unit)) a :
  exec env h (let* r := p in let* cleanup := c in Ret (with_cleanup r cleanup)) = (h', Ok a) ->
  exists h1, exec env h p = (h1, Ok a) /\ exec env h1 c = (h', Ok tt).
Proof.
  rewrite exec_bind. destruct (exec env h p) as [h1 r]. cbn [fst snd]. rewrite exec_bind. destruct (exec env h1 c) as [h2 r2] eqn:E. cbn.
  intros [= <- Hw]. apply with_cleanup_ok in Hw as [-> ->]. by exists h1.
Qed.

Lemma cleanup_unit_ok env u (h h' : utrace) :
  exec env h (cleanup_lifecycle_unit u) = (h', Ok tt) -> leaves [was_reset u; told_to_stop u] h h'.
Proof.
  unfold cleanup_lifecycle_unit. intros (h1 & H1%run_checked_ok & H2%run_checked_ok)%cleanup_bind_ok.
  exact (leaves_app _ _ _ _ _ H1 H2).
Qed.

Lemma verify_timeout_ok env u (h h' : utrace) :
  exec env h (verify_timeout_unit_result u) = (h', Ok tt) ->
  leaves [Ev (RunOutput SYSTEMCTL_PATH (show_result_args u) COMMAND_TIMEOUT) (CommandExited true, lit "timeout" ++ [10])] h h'.
Proof.
  unfold verify_timeout_unit_result. intros (h1 & [success stdout] & H1 & Hk)%exec_bind_ok.
  apply exec_bind_ok in Hk as (? & [] & [= <- ->%fail_if_ok%negb_false_iff] & [= <- Hv]).
  unfold validate_timeout_unit_result in Hv. apply fail_if_ok, negb_false_iff, str_eqb_eq in Hv as ->.
  revert H1. unfold run_command_output. rewrite exec_bind. cbn [exec perform fst snd].
  destruct (env h _) as [[| |b] out] eqn:E; cbn -[lit]; try discriminate.
  destruct (128 <? len out); cbn -[lit]; [discriminate|]. intros [= <- -> ->]. apply leaves_event.
Qed.

Lemma timeout_canary_ok env fuel nonce (h h' : utrace) :
  exec env h (run_timeout_cleanup_canary fuel nonce) = (h', Ok tt) -> leaves (timeout_events nonce) h h'.
Proof.
  unfold run_timeout_cleanup_canary, timeout_events. set (u := lifecycle_unit_name _ _).
  intros (h1 & (h2 & [] & H2%run_checked_ok & Hk)%exec_bind_ok & Hc%cleanup_unit_ok)%cleanup_bind_ok.
  apply exec_bind_ok in Hk as (h3 & [] & H3%wait_for_unit_ok & Hk).
  apply exec_bind_ok in Hk as (h4 & [] & H4%wait_for_unit_ok & Hk%verify_timeout_ok).
  exact (leaves_app _ _ _ _ _ (leaves_app _ _ _ _ _ (leaves_app _ _ _ _ _ (leaves_app _ _ _ _ _ H2 H3) H4) Hk) Hc).
Qed.

Lemma owner_canary_ok env fuel nonce owner (h h' : utrace) :
  exec env h (run_owner_crash_cleanup_canary fuel nonce owner) = (h', Ok tt) -> leaves (owner_events nonce owner) h h'.
Proof.
  unfold run_owner_crash_cleanup_canary, owner_events. set (anchor := lifecycle_unit_name _ _). set (child := lifecycle_unit_name (owner ++ lit "-child") _).
  rewrite exec_bind. destruct (exec env h (owner_part fuel anchor child)) as [h1 [may r]] eqn:E. cbn [fst snd].
  rewrite exec_bind. destruct (exec env h1 _) as [h2 c] eqn:Ec. cbn. intros [= <- [-> ->]%with_cleanup_ok].
  revert E. unfold owner_part. rewrite exec_bind. destruct (exec env h _) as [h3 [[]|e]] eqn:E3; cbn [fst snd]; [|by intros [=]].
  apply run_checked_ok in E3. rewrite exec_bind. destruct (exec env h3 _) as [h4 r4] eqn:E4. cbn. intros [= <- <- ->].
  revert E4. unfold owner_child_part. intros (h5 & [] & H5%run_checked_ok & Hk)%exec_bind_ok.
  apply exec_bind_ok in Hk as (h6 & [] & H6%wait_for_unit_ok & Hk). apply exec_bind_ok in Hk as (h7 & [] & H7%run_checked_ok & H8%wait_for_unit_ok).
  revert Ec. unfold cleanup_owner_lifecycle_units. intros (h9 & H9%cleanup_unit_ok & H10%cleanup_unit_ok)%cleanup_bind_ok.
  exact (leaves_app _ _ _ _ _ (leaves_app _ _ _ _ _ (leaves_app _ _ _ _ _ (leaves_app _ _ _ _ _ (leaves_app _ _ _ _ _
           (leaves_app _ _ _ _ _ E3 H5) H6) H7) H8) H9) H10).
Qed.

(** ** The supervised unit of the peer *)

Abbreviation runtrace := (list (Effects.event run_answer)) (only parsing).

(** The peer was found dead while the plan ran, and the unit was told to stop. *)
Definition peer_exit_events (plan : TransientRunPlan) : runtrace := [Ev (SpawnStop (unit_name plan)) true; Ev PeerAlive false; Ev (Spawn plan) true].

Definition peer_exited {A} (r : result TransientError A) : Prop := exists phase, r = Err (AuthorisedPeerExited phase).

Lemma stop_unit_result env u (h h' : runtrace) r :
  exec env h (IsolatedRun.stop_unit u) = (h', r) -> ~ peer_exited r /\ (r = Ok tt -> leaves [Ev (SpawnStop u) true] h h').
Proof.
  unfold IsolatedRun.stop_unit, fail_run. rewrite exec_bind. cbn [exec perform fst snd]. destruct (env h (SpawnStop u)) eqn:Es; cbn [negb].
  2:{ intros [= <- <-]. split; [intros [? ?]|]; discriminate. }
  rewrite exec_bind. cbn [exec perform fst snd]. destruct (env _ (WaitStop _)) as [[[|]|]|]; cbn [exec].
  2-3: intros [= <- <-]; split; [intros [? ?]|]; discriminate.
  - intros [= <- <-]. split; [intros [? ?]; discriminate|]. intros _. eapply leaves_before; [apply leaves_event|]. auto with trace.
  - rewrite exec_bind. destruct (exec env _ (terminate_systemd_run StopChild)) as [h1 ?]. cbn. intros [= <- <-].
    split; [intros [? ?]|]; discriminate.
Qed.

Lemma stop_with_peer_exited {A} env u (r r' : result TransientError A) (h h' : runtrace) :
  exec env h (stop_with u r) = (h', r') -> peer_exited r' -> r' = r /\ leaves [Ev (SpawnStop u) true] h h'.
Proof.
  unfold stop_with, terminate_and_discard_captures, terminate_transient_unit, bind_ok. rewrite !exec_bind.
  destruct (exec env h (IsolatedRun.stop_unit u)) as [h1 r1] eqn:E. apply stop_unit_result in E as [Hn Hl]. cbn [fst snd].
  destruct (exec env h1 (terminate_systemd_run RunChild)) as [h2 []] eqn:E2. cbn.
  pose proof (exec_extends_to _ _ _ _ _ E2) as Hx. destruct r1 as [[]|e]; cbn; intros [= <- <-] Hp.
  - split; [done|]. eapply leaves_before; [by apply Hl|]. auto with trace.
  - exfalso. apply Hn. destruct Hp as [phase [= ->]]. by exists phase.
Qed.

Lemma poll_peer_gone env deadline (h h' : runtrace) : exec env h (poll deadline) = (h', PeerGone) -> leaves [Ev PeerAlive false] h h'.
Proof.
  unfold poll. rewrite exec_bind. cbn [exec perform fst snd]. destruct (env h CancelRequested); [discriminate|].
  rewrite exec_bind. cbn [exec perform fst snd]. destruct (env _ PeerAlive) eqn:Ea; cbn [negb exec].
  - rewrite exec_bind. cbn [exec perform fst snd]. destruct (deadline <=? _); discriminate.
  - intros [= <-]. eapply leaves_after; [|apply leaves_event]. auto with trace.
Qed.

Lemma write_prompt_peer_exited env fuel text deadline (h h' : runtrace) :
  exec env h (write_prompt fuel text deadline) = (h', Some PromptPeerExited) -> leaves [Ev PeerAlive false] h h'.
Proof.
  revert h. induction fuel as [|fuel IH]; intros h; cbn [write_prompt]; [discriminate|].
  rewrite exec_bind. cbn [exec perform fst snd]. destruct (env h (WritePrompt text)) eqn:Ew; [discriminate|].
  rewrite exec_bind. set (h0 := _ :: h). destruct (exec env h0 (poll deadline)) as [h1 v] eqn:E. cbn [fst snd].
  pose proof (exec_extends_to _ _ _ _ _ E) as Hx. destruct v; cbn [exec]; try discriminate; intros Hk.
  - apply IH in Hk. eapply leaves_after; [|exact Hk]. eapply extends_trans; [|exact Hx]. unfold h0. auto with trace.
  - injection Hk as <-. apply poll_peer_gone in E. eapply leaves_after; [|exact E]. unfold h0. auto with trace.
Qed.

Lemma wait_status_peer_exited env fuel u deadline (h h' : runtrace) r :
  exec env h (wait_status fuel u deadline) = (h', r) -> peer_exited r -> leaves [Ev (SpawnStop u) true; Ev PeerAlive false] h h'.
Proof.
  revert h. induction fuel as [|fuel IH]; intros h; cbn [wait_status]; [intros [= _ <-] [? ?]; discriminate|].
  rewrite exec_bind. cbn [exec perform fst snd]. set (h0 := _ :: h). destruct (env h WaitChild) as [[b|]|] eqn:Ew; cbn [exec].
  - intros [= _ <-] [? ?]. discriminate.
  - intros E Hp. destruct (stop_with_peer_exited _ _ _ _ _ _ E Hp) as [-> _]. by destruct Hp.
  - rewrite exec_bind. destruct (exec env h0 (poll deadline)) as [h1 v] eqn:E. cbn [fst snd].
    pose proof (exec_extends_to _ _ _ _ _ E) as Hx. assert (extends h h0) as Hx0 by (unfold h0; auto with trace). destruct v; intros Hk Hp.
    + eapply leaves_after; [|by eapply IH]. by eapply extends_trans.
    + destruct (stop_with_peer_exited _ _ _ _ _ _ Hk Hp) as [-> _]. by destruct Hp.
    + destruct (stop_with_peer_exited _ _ _ _ _ _ Hk Hp) as [_ Hs]. eapply leaves_after; [exact Hx0|].
      exact (leaves_app _ _ _ _ _ (poll_peer_gone _ _ _ _ E) Hs).
    + destruct (stop_with_peer_exited _ _ _ _ _ _ Hk Hp) as [-> _]. by destruct Hp.
Qed.

Lemma collect_output_no_peer env deadline limit success (h h' : runtrace) r :
  exec env h (collect_output deadline limit success) = (h', r) -> ~ peer_exited r.
Proof.
  unfold collect_output, collect_capture, collect_capture_of, bind_ok. repeat (rewrite exec_bind; cbn [exec perform fst snd]).
  destruct (env h (JoinCapture Stdout CLEANUP_MARGIN)) as [[c1|]|]; [destruct (read_limited _ c1) as [[? ?]|]|..]; cbn [ok_or exec bind];
    try (intros [= _ <-] [? ?]; discriminate).
  destruct (env _ (JoinCapture Stderr CLEANUP_MARGIN)) as [[c2|]|]; [destruct (read_limited _ c2) as [[? ?]|]|..]; cbn [ok_or exec bind];
    try (intros [= _ <-] [? ?]; discriminate).
  destruct success; cbn [negb exec bind perform]; intros [= _ <-] [? ?]; discriminate.
Qed.

Lemma run_peer_exited env fuel plan text timeout limit (h h' : runtrace) r :
  exec env h (run_transient_with_peer fuel plan text timeout limit) = (h', r) -> peer_exited r -> leaves (peer_exit_events plan) h h'.
Proof.
  unfold run_transient_with_peer, fail_run, peer_exit_events. rewrite exec_bind. cbn [exec perform fst snd].
  destruct (env h CancelRequested); [intros [= _ <-] [? ?]; discriminate|].
  rewrite exec_bind. cbn [exec perform fst snd]. destruct (env _ PeerAlive); cbn [negb]; [|intros [= _ <-] [? ?]; discriminate].
  rewrite exec_bind. cbn [exec perform fst snd]. rewrite exec_bind. cbn [exec perform fst snd].
  set (h0 := _ :: _ :: _ :: h). assert (extends h h0) as Hx0 by (unfold h0; auto 10 with trace).
  destruct (env h0 (Spawn plan)) eqn:Es; cbn [negb]; [|intros [= _ <-] [? ?]; discriminate].
  set (h1 := _ :: h0). set (deadline := _ + _). rewrite exec_bind. destruct (exec env h1 (write_prompt fuel text deadline)) as [h2 o] eqn:Ew. cbn [fst snd].
  pose proof (exec_extends_to _ _ _ _ _ Ew) as Hx2. intros Hk Hp. eapply leaves_after; [exact Hx0|].
  change (leaves ([Ev (SpawnStop (unit_name plan)) true; Ev PeerAlive false] ++ [Ev (Spawn plan) true]) h0 h').
  apply (leaves_app _ _ _ h1); [apply leaves_event|]. revert Hk.
  destruct o as [[[|]| | |]|]; cbn [exec]; intros Hk; try (destruct Hp; by injection Hk as _ <-).
  - unfold bind_ok in Hk. rewrite exec_bind in Hk. destruct (exec env h2 (wait_status fuel (unit_name plan) deadline)) as [h3 s] eqn:E3. cbn [fst snd] in Hk.
    destruct s as [[success|r3]|e]; cbn [exec] in Hk; [|by injection Hk as _ <-; destruct Hp|].
    + rewrite exec_bind in Hk. cbn [exec perform fst snd] in Hk. destruct (deadline <=? _) in Hk.
      * rewrite exec_bind in Hk. destruct (exec env _ discard_captures). cbn in Hk. by injection Hk as _ <-; destruct Hp.
      * by apply collect_output_no_peer in Hk.
    + injection Hk as <- <-. eapply leaves_after; [exact Hx2|]. eapply wait_status_peer_exited; [exact E3|]. destruct Hp as [phase [= ->]]. by exists phase.
  - destruct (stop_with_peer_exited _ _ _ _ _ _ Hk Hp) as [-> _]. by destruct Hp.
  - destruct (stop_with_peer_exited _ _ _ _ _ _ Hk Hp) as [-> _]. by destruct Hp.
  - destruct (stop_with_peer_exited _ _ _ _ _ _ Hk Hp) as [_ Hs]. exact (leaves_app _ _ _ _ _ (write_prompt_peer_exited _ _ _ _ _ _ Ew) Hs).
  - destruct (stop_with_peer_exited _ _ _ _ _ _ Hk Hp) as [-> _]. by destruct Hp.
Qed.

(** ** The peer *)

Definition units_of (h : rtrace) : utrace := @seen _ _ _ _ units_on_renewal h.
Definition launches_of (h : rtrace) : list (Effects.event launch_answer) := @seen _ _ _ _ launch_on_renewal h.
Definition runs_of (h : rtrace) : runtrace := @seen _ _ _ _ runs_on_launch (launches_of h).
Definition files_of (h : rtrace) : list (Effects.event fs_answer) := @seen _ _ _ _ files_on_renewal h.
Definition host_of (h : rtrace) : list (Effects.event host_answer) := @seen _ _ _ _ host_on_renewal h.

Lemma execute_peer_ok env fuel nonce pid (g g' : list (Effects.event launch_answer)) :
  exec env g (execute_bot_peer_exit_cleanup_canary fuel nonce pid) = (g', Ok tt) ->
  exists plan, build_bot_peer_exit_canary_plan nonce = Ok plan
    /\ leaves [Ev (OpenPidfd pid) (Ok tt)] g g'
    /\ leaves (peer_exit_events plan) (@seen _ _ _ _ runs_on_launch g) (@seen _ _ _ _ runs_on_launch g').
Proof.
  unfold execute_bot_peer_exit_cleanup_canary. intros (g1 & [] & H1 & Hk)%exec_bind_ok.
  apply exec_bind_ok in Hk as (g2 & plan & [= <- Hplan] & Hk). exists plan.
  assert (build_bot_peer_exit_canary_plan nonce = Ok plan) as Hb.
  { unfold canary_result in Hplan. destruct (build_bot_peer_exit_canary_plan nonce); cbn in Hplan; congruence. }
  split; [done|]. revert Hk. rewrite exec_bind. destruct (exec env g1 _) as [g3 r] eqn:E. cbn [fst snd exec]. intros [= <- Hv].
  apply exec_embed in E as [Hx E].
  assert (peer_exited r) as Hp by (destruct r as [|[]]; cbn in Hv; try discriminate; by eexists).
  pose proof (run_peer_exited _ _ _ _ _ _ _ _ _ E Hp) as Hl.
  assert (leaves [Ev (OpenPidfd pid) (Ok tt)] g g1) as Ho.
  { revert H1. unfold open_canary_peer, launch_os. destruct (pid <=? 1); [discriminate|]. unfold bind_ok.
    repeat (rewrite exec_bind; cbn [exec perform fst snd]). destruct (env g (OpenPidfd pid)) as [[]|] eqn:Eo; cbn [map_err exec]; [|discriminate].
    repeat (rewrite exec_bind; cbn [exec perform fst snd]). destruct (env _ ProtectPidfd) as [[]|]; cbn [map_err exec]; [|discriminate].
    rewrite exec_bind. cbn [exec perform fst snd embed inject answered runs_on_launch]. intros [= <- _].
    eapply leaves_before; [apply leaves_event|]. auto with trace. }
  split; [by eapply leaves_before|]. eapply leaves_after; [|exact Hl]. apply seen_extends. by eapply leaves_extends.
Qed.

Lemma terminate_peer_ok env fuel u (g g' : utrace) :
  exec env g (terminate_peer fuel u) = (g', Ok tt) -> leaves [Ev ReapPeer true; Ev KillPeer true; found_active u true] g g'.
Proof.
  unfold terminate_peer, bind_ok. rewrite exec_bind. destruct (exec env g _) as [g1 r] eqn:E. cbn [fst snd].
  repeat (rewrite exec_bind; cbn [exec perform fst snd]). destruct r as [[]|e]; cbn [exec]; [|discriminate].
  apply wait_for_unit_ok in E. destruct (env g1 KillPeer) eqn:Ek; cbn -[lit]; [|discriminate].
  destruct (env _ ReapPeer) eqn:Er; cbn -[lit]; [|discriminate]. intros [= <-].
  refine (leaves_app _ [_; _] _ _ _ E _). exists [Ev ReapPeer true; Ev KillPeer true]. done.
Qed.

Lemma units_exec {A} env (p : prog unit_answer A) h h' a :
  exec env h (on_units p) = (h', a) -> exists env', exec env' (units_of h) p = (units_of h', a).
Proof. intros [_ He]%exec_embed. by eexists. Qed.

Lemma extends_leaves {call} {answer : call -> Type} (h h' : list (Effects.event answer)) : extends h h' -> leaves [] h h'.
Proof. intros (t & ->). exists t. split; [done|apply sublist_nil_l]. Qed.

Lemma peer_canary_ok env fuel nonce h h' :
  exec env h (run_bot_peer_exit_cleanup_canary fuel nonce) = (h', Ok tt) ->
  exists u pid plan, bot_peer_exit_canary_unit_name nonce = Ok u /\ build_bot_peer_exit_canary_plan nonce = Ok plan
    /\ leaves (peer_events u pid) (units_of h) (units_of h') /\ leaves [Ev (OpenPidfd pid) (Ok tt)] (launches_of h) (launches_of h')
    /\ leaves (peer_exit_events plan) (runs_of h) (runs_of h').
Proof.
  unfold run_bot_peer_exit_cleanup_canary. intros (h1 & u & [= <- Hu] & Hk)%exec_bind_ok.
  assert (bot_peer_exit_canary_unit_name nonce = Ok u) as Hn.
  { unfold canary_result in Hu. destruct (bot_peer_exit_canary_unit_name nonce); cbn in Hu; congruence. }
  exists u. revert Hk. rewrite exec_bind. cbn [exec perform fst snd]. set (spawn := OnUnit (SpawnPeer _ _)).
  destruct (env h spawn) eqn:Es; cbn [negb]; [|discriminate].
  rewrite exec_bind. cbn [exec perform fst snd]. set (h2 := _ :: h).
  rewrite exec_bind. destruct (env h2 (OnUnit PeerId)) as [pid|] eqn:Ei; [|by cbn]. set (h3 := _ :: h2).
  destruct (exec env h3 _) as [h4 r] eqn:E. cbn [fst snd]. rewrite exec_bind. cbn [exec perform fst snd]. intros [= <- ->].
  apply cleanup_bind_ok in E as (h5 & E & Hc). pose proof (exec_extends_to _ _ _ _ _ Hc) as X5.
  apply units_exec in Hc as (env5 & Hc%cleanup_unit_ok).
  revert E. unfold peer_exit_part. rewrite exec_bind. destruct (exec env h3 (join_both _ _)) as [h6 [execution termination]] eqn:Ej. cbn [fst snd].
  intros (h7 & [] & [= <- ->] & (h8 & [] & [= <- ->] & Hi)%exec_bind_ok)%exec_bind_ok.
  pose proof (exec_extends_to _ _ _ _ _ Hi) as X8. apply units_exec in Hi as (env8 & Hi%wait_for_unit_ok).
  apply join_alone in Ej as (env1 & env2 & (plan & Hplan & Hopen & Hrun)%execute_peer_ok & Ht%terminate_peer_ok); [|done..].
  pose proof (leaves_app _ _ _ _ _ (leaves_app _ _ _ _ _ Ht Hi) Hc) as Hunits.
  assert (leaves [Ev PeerId (Some pid); Ev (SpawnPeer SHELL_PATH [lit "-c"; lit "exec sleep 30"]) true] (units_of h) (units_of h3)) as Hstart by by eexists [_; _].
  pose proof (extends_trans _ _ _ X8 X5) as X6.
  exists pid, plan. split_and!; [done..| | |].
  - eapply leaves_before; [exact (leaves_app _ _ _ _ _ Hstart Hunits)|]. exists [Ev DropPeer (env h4 (OnUnit DropPeer))]. done.
  - eapply leaves_before; [exact Hopen|]. apply (seen_extends h6). auto with trace.
  - eapply leaves_before; [exact Hrun|]. apply seen_extends, (seen_extends h6). auto with trace.
Qed.

(** ** Listeners *)

Abbreviation htrace := (list (Effects.event host_answer)) (only parsing).

(** The monitor of a listener was stopped and had then counted no connection. *)
Definition counted_nothing (l : N) (h h' : htrace) : Prop :=
  exists s, ms_accepts s = 0 /\ leaves [Ev (MonitorState l) s; Ev (StopMonitor l) true] h h'.

Lemma counted_nothing_wider l h h1 h2 h3 : extends h h1 -> counted_nothing l h1 h2 -> extends h2 h3 -> counted_nothing l h h3.
Proof. intros H1 (s & Hs & Hl) H2. exists s. split; [done|]. eapply leaves_before; [|exact H2]. by eapply leaves_after. Qed.

#[local] Arguments verify_zero_accepts : simpl never.
#[local] Arguments monitor_shutdown : simpl never.
#[local] Arguments cleanup_path : simpl never.

Lemma monitor_shutdown_ok env m (h h' : htrace) m' :
  lm_running m = true -> exec env h (monitor_shutdown m) = (h', (m', Ok tt)) ->
  m' = mkMonitor (lm_listener m) false /\ leaves [Ev (StopMonitor (lm_listener m)) true] h h'.
Proof.
  unfold monitor_shutdown. intros ->. cbn [negb]. rewrite exec_bind. cbn [exec perform fst snd].
  destruct (env h _) eqn:E; cbn [negb exec]; [|discriminate]. rewrite exec_bind. cbn [exec perform fst snd]. intros [= <- <- _].
  split; [done|]. eapply leaves_before; [apply leaves_event|]. auto with trace.
Qed.

Lemma verify_zero_accepts_ok env l (h h' : htrace) :
  exec env h (verify_zero_accepts (mkMonitor l false)) = (h', Ok tt) -> exists s, ms_accepts s = 0 /\ leaves [Ev (MonitorState l) s] h h'.
Proof.
  unfold verify_zero_accepts. intros (h1 & [] & [= <-] & Hk)%exec_bind_ok. revert Hk. unfold accept_count.
  repeat (rewrite exec_bind; cbn [exec perform fst snd]). cbn [lm_listener exec]. intros [= <- Hz]. apply fail_if_ok, negb_false_iff, N.eqb_eq in Hz.
  eexists. split; [exact Hz|apply leaves_event].
Qed.

Lemma tcp_shutdown_ok env t (h h' : htrace) t' :
  lm_running (tl_monitor t) = true -> exec env h (tcp_shutdown_and_verify_zero_accepts t) = (h', (t', Ok tt)) ->
  counted_nothing (lm_listener (tl_monitor t)) h h'.
Proof.
  unfold tcp_shutdown_and_verify_zero_accepts. intros Hr. rewrite exec_bind. destruct (exec env h _) as [h1 [m [[]|e]]] eqn:E; cbn [fst snd exec]; [|discriminate].
  apply monitor_shutdown_ok in E as [-> Hs]; [|done]. rewrite exec_bind. destruct (exec env h1 _) as [h2 r] eqn:Ev2. cbn. intros [= <- _ ->].
  apply verify_zero_accepts_ok in Ev2 as (s & Hz & Hl). exists s. split; [done|]. exact (leaves_app _ _ _ _ _ Hs Hl).
Qed.

Lemma cleanup_path_monitor env u (h h' : htrace) u' r : exec env h (cleanup_path u) = (h', (u', r)) -> ul_monitor u' = ul_monitor u.
Proof.
  unfold cleanup_path. destruct (ul_cleanup_pending u); cbn [negb exec]; [|by intros [= _ <- _]].
  rewrite exec_bind. destruct (exec env h _) as [h1 r1]. by intros [= _ <- _].
Qed.

Lemma unix_shutdown_ok env u (h h' : htrace) u' :
  lm_running (ul_monitor u) = true -> exec env h (unix_shutdown_and_verify_zero_accepts u) = (h', (u', Ok tt)) ->
  counted_nothing (lm_listener (ul_monitor u)) h h'.
Proof.
  unfold unix_shutdown_and_verify_zero_accepts, unix_shutdown. intros Hr. rewrite !exec_bind. destruct (exec env h _) as [h1 [m rm]] eqn:E; cbn [fst snd].
  rewrite exec_bind. destruct (exec env h1 _) as [h2 [u2 rc]] eqn:Ec; cbn [fst snd exec]. destruct rm as [[]|]; cbn [rbind]; [|discriminate].
  destruct rc as [[]|]; [|discriminate]. apply monitor_shutdown_ok in E as [-> Hs]; [|done].
  apply exec_extends_to in Ec as Hx. apply cleanup_path_monitor in Ec. cbn [ul_monitor] in Ec. rewrite exec_bind, Ec.
  destruct (exec env h2 _) as [h3 r] eqn:Ev2. cbn. intros [= <- _ ->].
  apply verify_zero_accepts_ok in Ev2 as (s & Hz & Hl). exists s. split; [done|].
  exact (leaves_app _ _ _ _ _ (leaves_before _ _ _ _ Hs Hx) Hl).
Qed.

Lemma host_os_ok {A} env (h h' : htrace) (p : prog host_answer (result N A)) a :
  exec env h (host_os p) = (h', Ok a) -> exec env h p = (h', Ok a).
Proof. unfold host_os. rewrite exec_bind. destruct (exec env h p) as [h1 [x|e]]; cbn; intros [= <- ?]; congruence. Qed.

Lemma spawn_monitor_ok env l (h h' : htrace) m : exec env h (spawn_monitor l) = (h', Ok m) -> m = mkMonitor l true.
Proof.
  unfold spawn_monitor. intros (h1 & [] & _ & Hk)%exec_bind_ok. rewrite exec_bind in Hk. cbn [exec perform fst snd] in Hk.
  destruct (env h1 (AwaitReady l)); cbn in Hk; [congruence|discriminate].
Qed.

Lemma bound_as_requested_ok requested bound : bound_as_requested requested bound = Ok tt -> ip bound = ip requested.
Proof. unfold bound_as_requested. rewrite then_ok, fail_if_ok, negb_false_iff. intros [He _]. by apply bool_decide_eq_true in He. Qed.

Lemma tcp_bind_ok env a (h h' : htrace) t :
  exec env h (tcp_bind a) = (h', Ok t) -> lm_running (tl_monitor t) = true /\ ip (tl_endpoint t) = ip a.
Proof.
  unfold tcp_bind. intros (h1 & [] & _ & Hk)%exec_bind_ok. apply exec_bind_ok in Hk as (h2 & l & _ & Hk).
  apply exec_bind_ok in Hk as (h3 & [] & _ & Hk). apply exec_bind_ok in Hk as (h4 & b & _ & Hk).
  apply exec_bind_ok in Hk as (h5 & [] & [= <- Hb%bound_as_requested_ok] & Hk).
  apply exec_bind_ok in Hk as (h6 & m & ->%spawn_monitor_ok & [= _ <-]). done.
Qed.

Lemma unix_bind_ok env p (h h' : htrace) u : exec env h (unix_bind p) = (h', Ok u) -> lm_running (ul_monitor u) = true.
Proof.
  unfold unix_bind. intros (h1 & q & _ & Hk)%exec_bind_ok. apply exec_bind_ok in Hk as (h2 & o & _ & Hk).
  destruct o; [discriminate|]. apply exec_bind_ok in Hk as (h3 & l & _ & Hk). apply exec_bind_ok in Hk as (h4 & m & _ & Hk).
  apply exec_bind_ok in Hk as (h5 & i & _ & Hk). rewrite exec_bind in Hk. destruct (exec env h5 _) as [h6 [n|e]]; cbn [fst snd] in Hk.
  2:{ rewrite exec_bind in Hk. destruct (exec env h6 _). discriminate. }
  rewrite exec_bind in Hk. destruct (exec env h6 (spawn_monitor l)) as [h7 [mo|e]] eqn:E; cbn [fst snd] in Hk.
  - injection Hk as _ <-. by apply spawn_monitor_ok in E as ->.
  - rewrite exec_bind in Hk. destruct (exec env h7 _). discriminate.
Qed.

Lemma interface_endpoint_ok i a : interface_endpoint i = Some a -> is_unicast_non_loopback (ip a) = true.
Proof.
  unfold interface_endpoint. repeat case_match; try discriminate; intros [= <-]; cbn [ip]; [done|]. by apply andb_true_iff in H2 as [? _] || by destruct_and?.
Qed.

Lemma select_preferred_in addresses ipv6 a : select_preferred_from ipv6 addresses = Some a -> ipv6 = Some a \/ a ∈ addresses.
Proof.
  revert ipv6. induction addresses as [|b addresses IH]; intros ipv6; cbn [select_preferred_from]; [by left|].
  destruct (ip b).
  - intros [= <-]. right. by left.
  - intros [Hi|Hi]%IH; [|right; by right]. destruct ipv6; [by left|]. injection Hi as <-. right. by left.
Qed.

Lemma bind_assigned_ok env (h h' : htrace) t :
  exec env h bind_assigned_non_loopback_listener = (h', Ok t) ->
  lm_running (tl_monitor t) = true /\ is_unicast_non_loopback (ip (tl_endpoint t)) = true.
Proof.
  unfold bind_assigned_non_loopback_listener. intros (h1 & a & H1 & [Hr Hi]%tcp_bind_ok)%exec_bind_ok. split; [done|]. rewrite Hi.
  revert H1. unfold select_assigned_non_loopback_endpoint. intros (h2 & addresses & H2 & [= _ Ha%ok_or_ok])%exec_bind_ok.
  revert H2. unfold assigned_non_loopback_socket_addresses. intros (h3 & interfaces & _ & [= _ <-])%exec_bind_ok.
  apply select_preferred_in in Ha as [?|Ha]; [done|]. rewrite stable_sort_perm in Ha. apply elem_of_remove_dups, list_elem_of_omap in Ha as (i & _ & Hi').
  by eapply interface_endpoint_ok.
Qed.

(** ** Fixtures *)

Lemma or_roll_back_ok {A B} env entries (p : renewal A) (k : A -> renewal B) h h' b :
  exec env h (or_roll_back entries p k) = (h', Ok b) ->
  exists h1 a, exec env h p = (h1, Ok a) /\ exec env h1 (k a) = (h', Ok b).
Proof.
  unfold or_roll_back. rewrite exec_bind. destruct (exec env h p) as [h1 [a|e]] eqn:E; cbn [fst snd]; [intros Hk; by exists h1, a|].
  rewrite exec_bind. destruct (exec env h1 _). discriminate.
Qed.

Lemma tracked_directory_ok {A} env entries p (k : list FixtureSetupEntry -> renewal A) h h' a :
  exec env h (tracked_directory entries p k) = (h', Ok a) -> exists h1 entries', extends h h1 /\ exec env h1 (k entries') = (h', Ok a).
Proof.
  unfold tracked_directory. intros (h1 & ? & H1%exec_extends_to & (h2 & e & H2%exec_extends_to & Hk)%or_roll_back_ok)%or_roll_back_ok.
  exists h2, (e :: entries). split; [by eapply extends_trans|done].
Qed.

Lemma tracked_file_ok {A} env entries p contents (k : list FixtureSetupEntry -> renewal A) h h' a :
  exec env h (tracked_file entries p contents k) = (h', Ok a) -> exists h1 entries', extends h h1 /\ exec env h1 (k entries') = (h', Ok a).
Proof.
  unfold tracked_file. intros (h1 & ? & H1%exec_extends_to & (h2 & e & H2%exec_extends_to & Hk)%or_roll_back_ok)%or_roll_back_ok.
  exists h2, (e :: entries). split; [by eapply extends_trans|done].
Qed.

Lemma host_extends (h h' : rtrace) : extends h h' -> extends (host_of h) (host_of h').
Proof. apply seen_extends. Qed.

Lemma host_exec {A} env (p : prog host_answer A) h h' a :
  exec env h (on_host p) = (h', a) -> exists env', exec env' (host_of h) p = (host_of h', a).
Proof. intros [_ He]%exec_embed. by eexists. Qed.

(** Monitors run, and the listeners are where they should be. *)
Record fixtures_ready (fx : HostFixtureSet) : Prop := {
  fr_unix : lm_running (ul_monitor (fx_unix fx)) = true;
  fr_forbidden : lm_running (tl_monitor (fx_forbidden fx)) = true;
  fr_bot : lm_running (tl_monitor (fx_bot fx)) = true;
  fr_forbidden_address : is_unicast_non_loopback (ip (tl_endpoint (fx_forbidden fx))) = true;
  fr_bot_address : ip (tl_endpoint (fx_bot fx)) = V4 127 0 0 1;
  fr_files : fx_files_cleaned fx = false
}.

Lemma bind_listeners_ok env entries nonce h h' unix forbidden bot :
  exec env h (bind_listeners entries nonce) = (h', Ok (unix, forbidden, bot)) ->
  lm_running (ul_monitor unix) = true /\ (lm_running (tl_monitor forbidden) = true /\ is_unicast_non_loopback (ip (tl_endpoint forbidden)) = true)
  /\ lm_running (tl_monitor bot) = true /\ ip (tl_endpoint bot) = V4 127 0 0 1.
Proof.
  unfold bind_listeners. intros (h1 & u & (e1 & H1%unix_bind_ok)%host_exec & Hk)%or_roll_back_ok. revert Hk.
  rewrite exec_bind. destruct (exec env h1 _) as [h2 [f|e]] eqn:E2; cbn [fst snd].
  2:{ rewrite exec_bind. destruct (exec env h2 _) as [h3 ?]. cbn [fst snd]. rewrite exec_bind. destruct (exec env h3 _). discriminate. }
  rewrite exec_bind. destruct (exec env h2 _) as [h3 [b|e]] eqn:E3; cbn [fst snd].
  2:{ rewrite exec_bind. destruct (exec env h3 _) as [h4 ?]. cbn [fst snd]. rewrite exec_bind. destruct (exec env h4 _) as [h5 ?]. cbn [fst snd].
      rewrite exec_bind. destruct (exec env h5 _). discriminate. }
  intros [= <- <- <- <-]. apply host_exec in E2 as (e2 & H2%bind_assigned_ok), E3 as (e3 & H3%tcp_bind_ok). by destruct H3.
Qed.

Section boundary.
Context `{HS : Sha256} `{HT : JsonText} `{HP : JsonPrint}.

Lemma create_fixtures_ok env nonce h h' fx :
  exec env h (create_fixtures nonce) = (h', Ok fx) -> fixtures_ready fx /\ fx_workspace_root fx = workspace_fixture_root nonce.
Proof.
  unfold create_fixtures. intros (h1 & [] & _ & Hk)%exec_bind_ok. apply exec_bind_ok in Hk as (h2 & [] & _ & Hk).
  apply exec_bind_ok in Hk as (h3 & [] & _ & Hk). apply tracked_file_ok in Hk as (h4 & e1 & _ & Hk).
  apply or_roll_back_ok in Hk as (h5 & protected & _ & Hk). apply tracked_directory_ok in Hk as (h6 & e2 & _ & Hk).
  apply tracked_directory_ok in Hk as (h7 & e3 & _ & Hk). apply tracked_directory_ok in Hk as (h8 & e4 & _ & Hk).
  apply tracked_file_ok in Hk as (h9 & e5 & _ & Hk). apply or_roll_back_ok in Hk as (h10 & workspace & _ & Hk).
  apply exec_bind_ok in Hk as (h11 & [[unix forbidden] bot] & (Hu & [Hf Ha] & Hb & Hi)%bind_listeners_ok & [= _ <-]). done.
Qed.

(** The three monitors of the fixtures. *)
Definition monitors (fx : HostFixtureSet) : list N :=
  [lm_listener (ul_monitor (fx_unix fx)); lm_listener (tl_monitor (fx_forbidden fx)); lm_listener (tl_monitor (fx_bot fx))].

Lemma shutdown_listeners_ok env fx h h' fx' :
  fixtures_ready fx -> exec env h (shutdown_listeners fx) = (h', (fx', Ok tt)) ->
  Forall (fun l => counted_nothing l (host_of h) (host_of h')) (monitors fx)
  /\ exists unix forbidden bot, fx' = set_listeners fx unix forbidden bot.
Proof.
  intros Hready. unfold shutdown_listeners. rewrite exec_bind. destruct (exec env h _) as [h1 [u ru]] eqn:E1. cbn [fst snd].
  rewrite exec_bind. destruct (exec env h1 _) as [h2 [f rf]] eqn:E2. cbn [fst snd].
  rewrite exec_bind. destruct (exec env h2 _) as [h3 [b rb]] eqn:E3. cbn. intros [= <- <- Hr].
  destruct ru as [[]|]; [|discriminate]. destruct rf as [[]|]; [|discriminate]. cbn in Hr. subst rb.
  pose proof (exec_extends_to _ _ _ _ _ E1) as X1%host_extends. pose proof (exec_extends_to _ _ _ _ _ E2) as X2%host_extends.
  pose proof (exec_extends_to _ _ _ _ _ E3) as X3%host_extends.
  apply host_exec in E1 as (e1 & H1%unix_shutdown_ok); [|by apply fr_unix].
  apply host_exec in E2 as (e2 & H2%tcp_shutdown_ok); [|by apply fr_forbidden].
  apply host_exec in E3 as (e3 & H3%tcp_shutdown_ok); [|by apply fr_bot].
  split; [|by eexists _, _, _]. pose proof (extends_trans _ _ _ X1 X2) as X12. pose proof (extends_trans _ _ _ X2 X3) as X23.
  unfold monitors. constructor; [|constructor; [|constructor; [|constructor]]].
  - exact (counted_nothing_wider _ _ _ _ _ (extends_refl _) H1 X23).
  - exact (counted_nothing_wider _ _ _ _ _ X1 H2 X3).
  - exact (counted_nothing_wider _ _ _ _ _ X12 H3 (extends_refl _)).
Qed.

(** *** The run of the canary *)

Lemma wait_canary_ok env fuel u deadline (g g' : runtrace) success :
  exec env g (wait_canary fuel u deadline) = (g', Ok success) -> leaves [Ev WaitChild (Ready (Some success))] g g'.
Proof.
  assert (forall (h1 h2 : runtrace) e b, exec env h1 (stop_with u (Err e)) = (h2, Ok (b : bool)) -> False) as Hstop.
  { intros h1 h2 e b. unfold stop_with, bind_ok. rewrite exec_bind. by destruct (exec env h1 _) as [? [[]|]]. }
  revert g. induction fuel as [|fuel IH]; intros g; cbn [wait_canary]; [discriminate|].
  rewrite exec_bind. cbn [exec perform fst snd]. destruct (env g WaitChild) as [[b|]|] eqn:E; cbn [exec].
  - intros [= <- ->]. apply leaves_event.
  - by intros ?%Hstop.
  - rewrite exec_bind. cbn [exec perform fst snd]. destruct (env _ CancelRequested); [by intros ?%Hstop|].
    rewrite exec_bind. cbn [exec perform fst snd]. destruct (deadline <=? _); [by intros ?%Hstop|]. intros Hk%IH.
    eapply leaves_after; [|exact Hk]. auto with trace.
Qed.

(** The canary plan ran to a success. *)
Definition canary_ran (plan : TransientRunPlan) (g g' : runtrace) : Prop :=
  leaves [Ev WaitChild (Ready (Some true)); Ev (Spawn plan) true] g g'.

Lemma canary_run_ok env fuel plan (g g' : runtrace) out :
  exec env g (run_runtime_canary_transient fuel plan) = (g', Ok out) -> canary_ran plan g g'.
Proof.
  unfold run_runtime_canary_transient, fail_run. rewrite exec_bind. cbn [exec perform fst snd]. destruct (env g CancelRequested); [discriminate|].
  rewrite exec_bind. cbn [exec perform fst snd]. rewrite exec_bind. cbn [exec perform fst snd]. destruct (env _ (Spawn plan)) eqn:Es; cbn [negb]; [|discriminate].
  intros (g1 & success & Hw%wait_canary_ok & Hk)%exec_bind_ok. rewrite exec_bind in Hk. cbn [exec perform fst snd] in Hk.
  destruct (_ <=? _) in Hk; [rewrite exec_bind in Hk; by destruct (exec env _ discard_captures)|].
  rewrite exec_bind in Hk. destruct (exec env _ (collect_capture_of _ Stdout)) as [g2 r2] eqn:E2. cbn [fst snd] in Hk. apply exec_extends_to in E2.
  rewrite exec_bind in Hk. destruct (exec env _ (collect_capture_of _ Stderr)) as [g3 r3] eqn:E3. cbn [fst snd] in Hk. apply exec_extends_to in E3.
  apply exec_bind_ok in Hk as (g4 & [out1 t1] & [= -> ->] & Hk). apply exec_bind_ok in Hk as (g5 & [out2 t2] & [= -> ->] & Hk).
  destruct success; [|discriminate]. destruct (_ || _ || _ || _) in Hk; [discriminate|]. injection Hk as -> ->.
  eapply leaves_before; [|eapply extends_trans; [|exact E3]; eapply extends_trans; [|exact E2]; apply extends_cons, extends_refl].
  eapply (leaves_app [_] [_]); [|exact Hw]. eapply leaves_after; [|apply leaves_event]. auto with trace.
Qed.

Lemma runs_exec {A} env (p : prog run_answer A) h h' a :
  exec env h (on_launch (embed p)) = (h', a) -> exists env', exec env' (runs_of h) p = (runs_of h', a).
Proof. intros [_ [_ He]%exec_embed]%exec_embed. by eexists. Qed.

Lemma runs_extends (h h' : rtrace) : extends h h' -> extends (runs_of h) (runs_of h').
Proof. intros Hx. by apply seen_extends, seen_extends. Qed.

(** The input was staged and cleaned up, and between that the plan prepared for it was run. *)
Definition canary_staged (nonce : str) (root : list Component) (candidate : VerifiedActivation) (h h' : rtrace) : Prop :=
  exists request pending plan w, lr_nonce request = nonce /\ canary_ran plan (runs_of h) (runs_of h')
    /\ leaves [Ev (CleanPending pending) (Ok tt); Ev (CleanWorkspace w) (Ok tt); Ev (PrepareCanary request candidate) (Ok (plan, w));
               Ev (StageCanary nonce root) (Ok pending)] h h'.

Lemma run_canary_ok env fuel candidate nonce fx h h' out :
  exec env h (run_canary fuel candidate (launch_request nonce fx) fx) = (h', Ok out) ->
  canary_staged nonce (fx_workspace_root fx) candidate h h'.
Proof.
  unfold run_canary. intros (h1 & pending & H1 & Hk)%exec_bind_ok. injection H1 as <- Hs.
  apply cleanup_bind_ok in Hk as (h2 & He & Hc). injection Hc as <- Hc.
  revert He. unfold execute_runtime_canary. intros (h3 & [] & [= <- _] & Hk)%exec_bind_ok.
  apply exec_bind_ok in Hk as (h4 & [plan w] & H4 & Hk). injection H4 as <- Hp. set (h5 := _ :: _ :: h) in Hk.
  rewrite exec_bind in Hk. destruct (exec env h5 _) as [h6 r] eqn:Er. cbn [fst snd] in Hk. rewrite exec_bind in Hk. cbn [exec perform fst snd] in Hk.
  injection Hk as <- [Hr Hw]%with_cleanup_ok. pose proof (exec_extends_to _ _ _ _ _ Er) as (t & ->).
  apply runs_exec in Er as (env' & Er). destruct r as [out'|]; [|discriminate]. apply canary_run_ok in Er.
  exists (launch_request nonce fx), pending, plan, w. split; [done|]. rewrite Hw in Hc. rewrite Hw, Hc. split.
  - eapply leaves_before; [exact Er|]. apply runs_extends. auto with trace.
  - exists ([Ev (CleanPending pending) (Ok tt); Ev (CleanWorkspace w) (Ok tt)] ++ t ++ [Ev (PrepareCanary (launch_request nonce fx) candidate) (Ok (plan, w));
             Ev (StageCanary nonce (fx_workspace_root fx)) (Ok pending)]). split.
    + unfold h5. rewrite Hp. cbn [lr_nonce launch_request]. cbn [lr_nonce launch_request] in Hs. rewrite Hs. by rewrite <-!app_assoc.
    + apply (sublist_app [_; _] _ [_; _]); [done|]. by apply sublist_inserts_l.
Qed.

(** *** The boundary *)

(** A program ran to success within a part of a run. *)
Definition succeeded {A} (env : environment renewal_answer) (p : renewal A) (a : A) (h h' : rtrace) : Prop :=
  exists g g', extends h g /\ exec env g p = (g', Ok a) /\ extends g' h'.

Lemma succeeded_wider {A} env (p : renewal A) a h h1 h2 h3 :
  extends h h1 -> succeeded env p a h1 h2 -> extends h2 h3 -> succeeded env p a h h3.
Proof.
  intros X1 (g & g' & X2 & He & X3) X4. exists g, g'. split_and!; [by eapply extends_trans|done|by eapply extends_trans].
Qed.

Lemma removed_file env p h h' : exec env h (on_files (remove_file p)) = (h', Ok tt) -> leaves [Ev (OnHost (HostFile (RemoveFile p))) (Ok tt)] h h'.
Proof.
  unfold on_files, remove_file, os. cbn -[lit]. destruct (env h _) as [[]|] eqn:E; cbn; intros [= <-]; [apply leaves_event].
Qed.

Lemma removed_directory env p h h' : exec env h (rn_os (perform (RemoveDirectory p))) = (h', Ok tt) -> leaves [Ev (RemoveDirectory p) (Ok tt)] h h'.
Proof. unfold rn_os. cbn. destruct (env h _) as [[]|] eqn:E; cbn; intros [= <-]; [apply leaves_event]. Qed.

(** The fixtures are gone. *)
Definition fixtures_removed (fx : HostFixtureSet) : rtrace :=
  [Ev (RemoveDirectory (fx_workspace_root fx)) (Ok tt); Ev (RemoveDirectory (fx_workspace_canary_root fx)) (Ok tt);
   Ev (RemoveDirectory (fx_workspace_nonce_root fx)) (Ok tt); Ev (OnHost (HostFile (RemoveFile (sn_path (fx_workspace fx))))) (Ok tt);
   Ev (OnHost (HostFile (RemoveFile (sn_path (fx_protected fx))))) (Ok tt)].

Lemma cleanup_files_ok env fx h h' fx' : exec env h (cleanup_files fx) = (h', (fx', Ok tt)) -> leaves (fixtures_removed fx) h h'.
Proof.
  unfold cleanup_files. rewrite exec_bind. destruct (exec env h _) as [h1 r] eqn:E. cbn [fst snd exec]. intros [= <- _ ->]. revert E.
  intros (h2 & [] & H2%exec_extends_to & Hk)%exec_bind_ok. apply exec_bind_ok in Hk as (h3 & [] & H3%exec_extends_to & Hk).
  apply exec_bind_ok in Hk as (h4 & [] & H4%removed_file & Hk). apply exec_bind_ok in Hk as (h5 & [] & H5%removed_file & Hk).
  apply exec_bind_ok in Hk as (h6 & [] & H6%removed_directory & Hk). apply exec_bind_ok in Hk as (h7 & [] & H7%removed_directory & H8%removed_directory).
  eapply leaves_after; [by eapply extends_trans|].
  exact (leaves_app _ _ _ _ _ (leaves_app _ _ _ _ _ (leaves_app _ _ _ _ _ (leaves_app _ _ _ _ _ H4 H5) H6) H7) H8).
Qed.

(** What a passed boundary canary leaves: the run of the canary between its staging and its
    clean-up, the one successful report, both files read again with their contents unchanged,
    a listener on an address of the host and one on its loop-back that, like the Unix one,
    counted no connection until they were stopped, and no file left. *)
Record boundary_kept (env : environment renewal_answer) (candidate : VerifiedActivation) (nonce : str) (fx : HostFixtureSet) (report : RuntimeCanaryReport)
    (h h' : rtrace) : Prop := {
  bk_canary : canary_staged nonce (fx_workspace_root fx) candidate h h';
  bk_report : exists binding, report = successful_report nonce binding;
  bk_protected : succeeded env (on_files (verify_contents_unchanged (fx_protected fx))) tt h h';
  bk_workspace : succeeded env (on_files (verify_contents_unchanged (fx_workspace fx))) tt h h';
  bk_ready : fixtures_ready fx;
  bk_untouched : Forall (fun l => counted_nothing l (host_of h) (host_of h')) (monitors fx);
  bk_removed : leaves (fixtures_removed fx) h h'
}.

Lemma canary_staged_wider nonce root candidate h h1 h2 h3 :
  extends h h1 -> canary_staged nonce root candidate h1 h2 -> extends h2 h3 -> canary_staged nonce root candidate h h3.
Proof.
  intros X1 (request & pending & plan & w & Hn & Hr & Hl) X2. exists request, pending, plan, w. split; [done|]. split.
  - eapply leaves_before; [|by apply runs_extends]. eapply leaves_after; [by apply runs_extends|done].
  - eapply leaves_before; [|exact X2]. by eapply leaves_after.
Qed.

Lemma boundary_evidence_ok env fuel candidate nonce fx h h' report :
  exec env h (boundary_evidence fuel candidate nonce fx) = (h', Ok report) ->
  canary_staged nonce (fx_workspace_root fx) candidate h h' /\ (exists binding, report = successful_report nonce binding)
  /\ succeeded env (on_files (verify_contents_unchanged (fx_protected fx))) tt h h'
  /\ succeeded env (on_files (verify_contents_unchanged (fx_workspace fx))) tt h h'.
Proof.
  unfold boundary_evidence. intros (h1 & out & E1 & Hk)%exec_bind_ok. pose proof (exec_extends_to _ _ _ _ _ E1) as X1. apply run_canary_ok in E1.
  apply exec_bind_ok in Hk as (h2 & runtime & [= <- _] & Hk). apply exec_bind_ok in Hk as (h3 & [] & X3%exec_extends_to & Hk).
  apply exec_bind_ok in Hk as (h4 & [] & E4 & Hk). pose proof (exec_extends_to _ _ _ _ _ E4) as X4.
  apply exec_bind_ok in Hk as (h5 & [] & X5%exec_extends_to & Hk).
  apply exec_bind_ok in Hk as (h6 & [] & E6 & Hk). pose proof (exec_extends_to _ _ _ _ _ E6) as X6.
  apply exec_bind_ok in Hk as (h7 & launcher & X7%exec_extends_to & Hk). apply exec_bind_ok in Hk as (h8 & config & X8%exec_extends_to & Hk).
  rewrite exec_bind in Hk. destruct (exec env h8 (host_evidence _ _ _ _ _)) as [h9 evidence] eqn:E9. cbn [fst snd] in Hk. apply exec_extends_to in E9 as X9.
  apply exec_bind_ok in Hk as (h10 & [] & [= <- Hs] & [= <- <-]).
  assert (extends h6 h9) as X69 by eauto using extends_trans. assert (extends h4 h9) as X49 by eauto using extends_trans.
  assert (extends h1 h9) as X19 by eauto using extends_trans.
  split_and!.
  - by eapply canary_staged_wider; [apply extends_refl| |].
  - exists (re_fixture_binding runtime). unfold canary_result in Hs.
    destruct (ensure_success _ _ _ _) as [u|] eqn:Eq; [|discriminate]. by apply only_successful_report_accepted in Eq as (_ & _ & -> & _).
  - exists h3, h4. split; [by eapply extends_trans|]. by split.
  - exists h5, h6. split; [|by split]. eauto using extends_trans.
Qed.

Lemma boundary_canary_ok env fuel candidate h h' b :
  exec env h (run_runtime_boundary_canary fuel candidate) = (h', Ok b) ->
  exists fx, boundary_kept env candidate (rb_nonce b) fx (rb_report b) h h'.
Proof.
  unfold run_runtime_boundary_canary. intros (h1 & nonce & X1%exec_extends_to & Hk)%exec_bind_ok.
  apply exec_bind_ok in Hk as (h2 & [] & X2%exec_extends_to & Hk). apply exec_bind_ok in Hk as (h3 & [] & X3%exec_extends_to & Hk).
  apply exec_bind_ok in Hk as (h4 & fx & E4 & Hk). pose proof (exec_extends_to _ _ _ _ _ E4) as X4. apply create_fixtures_ok in E4 as [Hready Hroot].
  rewrite exec_bind in Hk. destruct (exec env h4 (boundary_part fuel candidate nonce fx)) as [h5 [fx' r]] eqn:E5. cbn [fst snd] in Hk.
  rewrite exec_bind in Hk. destruct (exec env h5 (drop_fixtures fx')) as [h6 u] eqn:E6. cbn [fst snd exec] in Hk. injection Hk as -> ->.
  apply exec_extends_to in E6 as X6. assert (extends h h4) as X04 by eauto using extends_trans.
  revert E5. unfold boundary_part. rewrite exec_bind. destruct (exec env h4 (boundary_evidence fuel candidate nonce fx)) as [h7 [report|e]] eqn:E7; cbn [fst snd]; [|discriminate].
  apply exec_extends_to in E7 as X7. apply boundary_evidence_ok in E7 as (Hc & Hr & Hp & Hw).
  rewrite exec_bind. destruct (exec env h7 (shutdown_listeners fx)) as [h8 [fx8 r8]] eqn:E8. cbn [fst snd]. apply exec_extends_to in E8 as X8.
  destruct r8 as [[]|]; [|discriminate]. apply shutdown_listeners_ok in E8 as (Hq & u8 & f8 & b8 & ->); [|done].
  rewrite exec_bind. destruct (exec env h8 (cleanup_files _)) as [h9 [fx9 r9]] eqn:E9. cbn [fst snd exec]. apply exec_extends_to in E9 as X9.
  intros [= -> -> Hb]. destruct r9 as [[]|]; [|discriminate]. injection Hb as <-. apply cleanup_files_ok in E9. cbn [rb_nonce rb_report].
  assert (extends h7 h') as X7' by eauto using extends_trans. assert (extends h8 h') as X8' by eauto using extends_trans.
  exists fx. split; [by eapply canary_staged_wider|done|by eapply succeeded_wider|by eapply succeeded_wider|done| |].
  - eapply Forall_impl; [exact Hq|]. intros l Hl. eapply counted_nothing_wider; [|exact Hl|by apply host_extends].
    apply host_extends. by eapply extends_trans.
  - eapply leaves_before; [|exact X6]. eapply leaves_after; [|exact E9].
    eauto using extends_trans.
Qed.
End boundary.

(** ** The renewal *)

Section renewals.
Context `{HS : Sha256} `{HT : JsonText} `{HP : JsonPrint} `{HY : JsonPretty}.

(** What a renewal has been through before it commits, in this order: the reboot, the
    boundary of the runtime, and the units whose time, owner and peer were gone. *)
Definition canaries_passed (env : environment renewal_answer) (candidate : VerifiedActivation) (h h' : rtrace) : Prop :=
  exists h1 h2 fx nonce report u pid plan,
    exec env h (on_files (verify_reboot_cleanup_challenge candidate)) = (h1, Ok tt)
    /\ boundary_kept env candidate nonce fx report h1 h2
    /\ bot_peer_exit_canary_unit_name nonce = Ok u /\ build_bot_peer_exit_canary_plan nonce = Ok plan
    /\ leaves (peer_events u pid ++ owner_events nonce (lit "launcher") ++ timeout_events nonce) (units_of h2) (units_of h')
    /\ leaves [Ev (OpenPidfd pid) (Ok tt)] (launches_of h2) (launches_of h') /\ leaves (peer_exit_events plan) (runs_of h2) (runs_of h').

Lemma units_extends (h h' : rtrace) : extends h h' -> extends (units_of h) (units_of h').
Proof. apply seen_extends. Qed.

Lemma launches_extends (h h' : rtrace) : extends h h' -> extends (launches_of h) (launches_of h').
Proof. apply seen_extends. Qed.

Lemma renewal_steps_ok env fuel candidate h h' v :
  exec env h (renewal_steps fuel candidate) = (h', Ok v) ->
  exists h1, canaries_passed env candidate h h1 /\ exec env h1 (on_files (commit_activation_receipt candidate all_canaries)) = (h', Ok v).
Proof.
  unfold renewal_steps. intros (h1 & [] & H1 & Hk)%exec_bind_ok. apply exec_bind_ok in Hk as (h2 & [nonce report] & H2 & Hk).
  cbn [rb_nonce] in Hk. apply exec_bind_ok in Hk as (h3 & [] & H3 & Hk). apply exec_bind_ok in Hk as (h4 & [] & H4 & Hk).
  apply exec_bind_ok in Hk as (h5 & [] & H5 & Hk). exists h5. split; [|exact Hk].
  apply boundary_canary_ok in H2 as (fx & Hb). pose proof (exec_extends_to _ _ _ _ _ H3) as X3. pose proof (exec_extends_to _ _ _ _ _ H4) as X4.
  apply units_exec in H3 as (e3 & H3%timeout_canary_ok), H4 as (e4 & H4%owner_canary_ok).
  apply peer_canary_ok in H5 as (u & pid & plan & Hu & Hp & Hl & Ho & Hr).
  assert (extends h2 h4) as X24 by eauto using extends_trans.
  exists h1, h2, fx, nonce, report, u, pid, plan. split_and!; [done..| | |].
  - exact (leaves_app _ _ _ _ _ (leaves_app _ _ _ _ _ H3 H4) Hl).
  - eapply leaves_after; [by apply launches_extends|exact Ho].
  - eapply leaves_after; [by apply runs_extends|exact Hr].
Qed.

Lemma files_exec {A} env (p : fsprog A) h h' a :
  exec env h (on_files p) = (h', a) -> exists env', exec env' (files_of h) p = (files_of h', a).
Proof. intros [_ He]%exec_embed. by eexists. Qed.

Lemma commit_ok env candidate canaries h h' v :
  exec env h (commit_activation_receipt candidate canaries) = (h', Ok v) -> sound h' ->
  same_binding candidate v /\ vouches_for production_paths h' v
  /\ exists r, ar_canaries r = all_canaries /\ receipt_installed production_paths r h'.
Proof.
  unfold commit_activation_receipt. intros (h1 & [] & _ & Hk)%exec_bind_ok Hs. revert Hk. unfold commit_activation_receipt_with.
  rewrite exec_bind. destruct (exec env h1 _) as [h2 [w|e]] eqn:E; cbn [fst snd].
  - intros [= <- <-]. by apply mint_receipt_ok in E as (_ & ? & ? & ?).
  - rewrite exec_bind. by destruct (exec env h2 _) as [? [[]|]].
Qed.

Lemma abort_ok env h h' : exec env h abort_activation_renewal = (h', Ok tt) -> receipt_taken_away production_paths h'.
Proof. unfold abort_activation_renewal. intros (h1 & [] & _ & Hk%invalidate_ok)%exec_bind_ok. done. Qed.

(** Files alone start no unit. *)
Lemma files_start_nothing {A} env (p : fsprog A) h h' a :
  exec env h (on_files p) = (h', a) -> units_of h' = units_of h /\ launches_of h' = launches_of h.
Proof.
  intros He. split; (replace h' with (exec env h (on_files p)).1 by (by rewrite He)); clear He; revert h; unfold on_files;
    (induction p as [x|c k IH]; intros h; cbn [embed exec]; [done|]); by rewrite IH.
Qed.

Definition nothing_started (h h' : rtrace) : Prop := units_of h' = units_of h /\ launches_of h' = launches_of h.

Lemma acquire_lock_starts_nothing env h h' r :
  exec env h acquire_lock = (h', r) -> nothing_started h h' /\ forall f, r = Ok f -> Ev (TryLock f) (Ok tt) ∈ h'.
Proof.
  unfold acquire_lock, nothing_started, rn_os, bind_ok. rewrite exec_bind, exec_bind. cbn [exec perform fst snd].
  destruct (env h _) as [f|errno]; cbn [map_err exec]; [|by intros [= <- <-]].
  rewrite exec_bind. set (h0 := _ :: h). destruct (exec env h0 (on_files (stat_fd f))) as [h1 [m|e]] eqn:E; cbn [fst snd exec];
    apply files_start_nothing in E as [Hu Hl]; [|by intros [= <- <-]].
  rewrite exec_bind. cbn [exec fst snd]. destruct (validate_private_file _ _ _); cbn [exec]; [|by intros [= <- <-]].
  rewrite exec_bind. cbn [exec perform fst snd]. destruct (env h1 (TryLock f)) as [[]|errno] eqn:Et; cbn [exec].
  - intros [= <- <-]. split; [done|]. intros ? [= <-]. by left.
  - destruct (errno =? EWOULDBLOCK); by intros [= <- <-].
Qed.

Lemma renew_locked_ok env fuel h h' r :
  exec env h (renew_locked fuel) = (h', r) ->
  match r with
  | Ok v => exists candidate h1 h2, exec env h (on_files begin_activation_renewal) = (h1, Ok candidate)
              /\ canaries_passed env candidate h1 h2
              /\ exec env h2 (on_files (commit_activation_receipt candidate all_canaries)) = (h', Ok v)
  | Err e => nothing_started h h' \/ receipt_taken_away production_paths (files_of h')
             \/ exists first abort_error g, e = AlsoFailed first [abort_error]
                 /\ exec env g (on_files abort_activation_renewal) = (h', Err abort_error)
  end.
Proof.
  unfold renew_locked, bind_ok. rewrite exec_bind. destruct (exec env h (on_files begin_activation_renewal)) as [h1 [candidate|e]] eqn:E1; cbn [fst snd exec].
  2:{ intros [= <- <-]. left. by apply files_start_nothing in E1. }
  rewrite exec_bind. destruct (exec env h1 (renewal_steps fuel candidate)) as [h2 [v|e]] eqn:E2; cbn [fst snd exec].
  - intros [= <- <-]. apply renewal_steps_ok in E2 as (h3 & Hc & Hv). by exists candidate, h1, h3.
  - rewrite exec_bind. destruct (exec env h2 (on_files abort_activation_renewal)) as [h3 [[]|a]] eqn:E3; cbn [fst snd exec]; intros [= <- <-]; right.
    + left. apply files_exec in E3 as (env' & E3). by apply abort_ok in E3.
    + right. by exists e, a, h2.
Qed.

End renewals.

(** ** No unit is left *)

(** The unit that a call starts. *)
Definition unit_argument (arguments : list str) : str := default [] (head (omap (strip_prefix (lit "--unit=")) arguments)).

Definition started_by (c : renewal_call) : option str :=
  match c with
  | OnUnit (RunCommand program arguments _) => if str_eqb program SYSTEMD_RUN_PATH then Some (unit_argument arguments) else None
  | OnLaunch (Supervise (Spawn plan)) => Some (unit_name plan)
  | _ => None
  end.

Definition told (u : str) (t : rtrace) : Prop :=
  (exists a, Ev (OnUnit (RunCommand SYSTEMCTL_PATH (stop_args u) COMMAND_TIMEOUT)) a ∈ t)
  /\ exists a, Ev (OnUnit (RunCommand SYSTEMCTL_PATH (reset_args u) COMMAND_TIMEOUT)) a ∈ t.

(** Every unit a run starts is told to stop and reset later in the run. *)
Definition tidy (h h' : rtrace) : Prop :=
  exists t, h' = t ++ h /\ forall t1 e t2 u, t = t2 ++ e :: t1 -> started_by (ev_call e) = Some u -> told u t2.

(** Calls that start no other units than these. *)
Definition starts_only (us : list str) (c : renewal_call) : bool :=
  match started_by c with
  | Some u => bool_decide (u ∈ us)
  | None => true
  end.

Lemma told_app u t t' : told u t -> told u (t ++ t').
Proof. intros [(a & Ha) (b & Hb)]. split; [exists a|exists b]; apply elem_of_app; by left. Qed.

Lemma told_app_r u t t' : told u t -> told u (t' ++ t).
Proof. intros [(a & Ha) (b & Hb)]. split; [exists a|exists b]; apply elem_of_app; by right. Qed.

Lemma tidy_cleanup us (h t t' : rtrace) :
  (forall e, e ∈ t -> starts_only us (ev_call e) = true) -> (forall e, e ∈ t' -> starts_only [] (ev_call e) = true) ->
  (forall u, u ∈ us -> told u t') -> tidy h (t' ++ t ++ h).
Proof.
  intros Ht Ht' Hu. exists (t' ++ t). split; [by rewrite app_assoc|]. intros t1 e t2 u Heq Hs.
  assert (forall us' (l : rtrace), (forall e, e ∈ l -> starts_only us' (ev_call e) = true) -> e ∈ l -> u ∈ us') as Hin.
  { intros us' l Hl He%Hl. unfold starts_only in He. rewrite Hs in He. by apply bool_decide_eq_true in He. }
  apply app_eq_inv in Heq as [(k & -> & Hk)|(k & -> & Hk)].
  - destruct k as [|e' k]; cbn in Hk.
    + subst t. rewrite app_nil_r in Hu. apply Hu. apply (Hin _ _ Ht). by left.
    + injection Hk as <- ->. exfalso. eapply not_elem_of_nil, (Hin _ _ Ht'). apply elem_of_app. right. by left.
  - apply told_app, Hu. apply (Hin _ _ Ht). rewrite Hk. apply elem_of_app. right. by left.
Qed.

Lemma run_checked_runs env (h : rtrace) program arguments failed :
  let c := OnUnit (RunCommand program arguments COMMAND_TIMEOUT) in
  (exec env h (on_units (run_checked program arguments failed))).1 = Ev c (env h c) :: h.
Proof.
  intros c. unfold on_units, run_checked, run_command. cbn -[lit]. change (OnUnit _) with c. by destruct (env h c) as [| |[]].
Qed.

Lemma cleanup_unit_tells env u h h' r :
  exec env h (on_units (cleanup_lifecycle_unit u)) = (h', r) ->
  exists t, h' = t ++ h /\ told u t /\ forall e, e ∈ t -> starts_only [] (ev_call e) = true.
Proof.
  set (c1 := OnUnit (RunCommand SYSTEMCTL_PATH (stop_args u) COMMAND_TIMEOUT)).
  set (c2 := OnUnit (RunCommand SYSTEMCTL_PATH (reset_args u) COMMAND_TIMEOUT)).
  assert (exists a1 a2, (exec env h (on_units (cleanup_lifecycle_unit u))).1 = Ev c2 a2 :: Ev c1 a1 :: h) as (a1 & a2 & He).
  { unfold on_units, cleanup_lifecycle_unit. rewrite !exec_embed_bind. cbn [embed exec fst].
    pose proof (run_checked_runs env h SYSTEMCTL_PATH (stop_args u) (lit "failed to stop lifecycle canary unit")) as H1.
    cbv zeta in H1. unfold on_units in H1. fold c1 in H1. unfold stop_lifecycle_unit. rewrite H1. unfold reset_failed_unit.
    pose proof (run_checked_runs env (Ev c1 (env h c1) :: h) SYSTEMCTL_PATH (reset_args u) (lit "failed to reset lifecycle canary unit")) as H2.
    cbv zeta in H2. unfold on_units in H2. fold c2 in H2. rewrite H2. by eexists _, _. }
  intros Hr. rewrite Hr in He. cbn [fst] in He. exists [Ev c2 a2; Ev c1 a1]. split; [done|]. split.
  - split; eexists; [right; by left|by left].
  - intros e [->|[->|[]%not_elem_of_nil]%elem_of_cons]%elem_of_cons; reflexivity.
Qed.

Lemma tidy_quiet (h t : rtrace) : (forall e, e ∈ t -> starts_only [] (ev_call e) = true) -> tidy h (t ++ h).
Proof. intros Ht. apply (tidy_cleanup [] h [] t); [by intros e ?%not_elem_of_nil|done|by intros u ?%not_elem_of_nil]. Qed.

Lemma tidy_trans h h1 h2 : tidy h h1 -> tidy h1 h2 -> tidy h h2.
Proof.
  intros (t & -> & Ht) (t' & -> & Ht'). exists (t' ++ t). split; [by rewrite app_assoc|]. intros t1 e t2 u Heq Hs.
  apply app_eq_inv in Heq as [(k & -> & Hk)|(k & -> & Hk)].
  - destruct k as [|e' k]; cbn in Hk.
    + subst t. apply (Ht t1 e []) in Hs as [[? []%not_elem_of_nil] _]; done.
    + injection Hk as <- ->. by eapply Ht'.
  - apply told_app_r. by eapply Ht.
Qed.

Lemma calls_quiet {A} (p : prog renewal_answer A) us env h h' a :
  calls_only (starts_only us) p -> exec env h p = (h', a) -> exists t, h' = t ++ h /\ forall e, e ∈ t -> starts_only us (ev_call e) = true.
Proof. apply exec_calls_only. Qed.

(** Unit programs that start only these. *)
Definition unit_starts (us : list str) (c : unit_call) : bool := starts_only us (OnUnit c).

Lemma on_units_starts us {A} (p : prog unit_answer A) : calls_only (unit_starts us) p -> calls_only (starts_only us) (on_units p).
Proof.
  intros Hp h. unfold on_units. eapply wp_mono; [apply (wp_embed (fun _ c => unit_starts us c = true) (fun _ c => starts_only us c = true) _ (fun _ _ => True))| |].
  - apply Hp.
  - done.
  - done.
  - done.
Qed.

Lemma run_checked_starts us program arguments failed :
  unit_starts us (RunCommand program arguments COMMAND_TIMEOUT) = true -> calls_only (unit_starts us) (run_checked program arguments failed).
Proof.
  intros Hu. unfold run_checked, run_command, unit_bail_if. apply calls_only_bind_ok; [|intros; apply calls_only_ret].
  apply calls_only_bind; [by apply calls_only_perform|]. intros; apply calls_only_ret.
Qed.

Lemma systemctl_starts us arguments : unit_starts us (RunCommand SYSTEMCTL_PATH arguments COMMAND_TIMEOUT) = true.
Proof. reflexivity. Qed.

Lemma wait_for_unit_starts us fuel u required : calls_only (unit_starts us) (wait_for_unit_state fuel u required).
Proof.
  unfold wait_for_unit_state. apply calls_only_bind; [by apply calls_only_perform|]. intros now. generalize (now + UNIT_STATE_TIMEOUT); intros deadline.
  induction fuel as [|fuel IH]; cbn [wait_for_state_loop]; [apply calls_only_ret|]. apply calls_only_bind_ok.
  - unfold run_command. apply calls_only_bind; [apply calls_only_perform, systemctl_starts|]. intros; apply calls_only_ret.
  - intros active. destruct (reached required active); [apply calls_only_ret|]. apply calls_only_bind; [by apply calls_only_perform|].
    intros t. destruct (deadline <=? t); [apply calls_only_ret|]. apply calls_only_bind; [by apply calls_only_perform|]. by intros [].
Qed.

Lemma verify_timeout_starts us u : calls_only (unit_starts us) (verify_timeout_unit_result u).
Proof.
  unfold verify_timeout_unit_result, run_command_output, unit_bail_if, unit_bail. apply calls_only_bind_ok.
  - apply calls_only_bind; [by apply calls_only_perform|]. intros [[| |s] out]; [apply calls_only_ret..|].
    apply calls_only_bind_ok; [apply calls_only_ret|]. intros; apply calls_only_ret.
  - intros [s out]. apply calls_only_bind_ok; [apply calls_only_ret|]. intros; apply calls_only_ret.
Qed.

Lemma stop_starts us u : calls_only (unit_starts us) (stop_lifecycle_unit u).
Proof. apply run_checked_starts, systemctl_starts. Qed.

Lemma unit_argument_timeout u : unit_argument (timeout_args u) = u.
Proof. reflexivity. Qed.

Lemma systemd_run_starts us arguments u : unit_argument arguments = u -> u ∈ us -> unit_starts us (RunCommand SYSTEMD_RUN_PATH arguments COMMAND_TIMEOUT) = true.
Proof. intros Ha Hu. unfold unit_starts, starts_only, started_by. change (str_eqb SYSTEMD_RUN_PATH SYSTEMD_RUN_PATH) with true. cbn iota. rewrite Ha. by apply bool_decide_eq_true. Qed.

Lemma timeout_canary_tidy env fuel nonce h : tidy h (exec env h (on_units (run_timeout_cleanup_canary fuel nonce))).1.
Proof.
  unfold run_timeout_cleanup_canary. set (u := lifecycle_unit_name _ _). set (p := bind_ok (run_checked SYSTEMD_RUN_PATH _ _) _).
  assert (calls_only (starts_only [u]) (on_units p)) as Hp.
  { apply on_units_starts. unfold p. apply calls_only_bind_ok; [apply run_checked_starts; apply (systemd_run_starts _ _ u); [reflexivity|by left]|intros []].
    apply calls_only_bind_ok; [apply wait_for_unit_starts|intros []]. apply calls_only_bind_ok; [apply wait_for_unit_starts|intros []].
    apply verify_timeout_starts. }
  unfold on_units. rewrite exec_embed_bind, exec_embed_bind. cbn [embed exec fst].
  destruct (exec env h (embed p)) as [h1 r] eqn:E. apply (calls_quiet _ _ _ _ _ _ Hp) in E as (t & -> & Ht). cbn [fst].
  destruct (exec env (t ++ h) (embed (cleanup_lifecycle_unit u))) as [h2 c] eqn:Ec. apply cleanup_unit_tells in Ec as (t' & -> & Hu & Ht'). cbn [fst].
  apply (tidy_cleanup [u]); [done..|]. by intros u' ->%list_elem_of_singleton.
Qed.

Lemma owner_part_starts env fuel anchor child h h' may r :
  exec env h (on_units (owner_part fuel anchor child)) = (h', (may, r)) ->
  exists t, h' = t ++ h /\ forall e, e ∈ t -> starts_only (anchor :: if may then [child] else []) (ev_call e) = true.
Proof.
  unfold owner_part, on_units. rewrite exec_embed_bind. destruct (exec env h _) as [h1 [[]|e]] eqn:E; cbn [fst snd embed exec].
  2:{ intros [= <- <- _]. eapply calls_quiet; [|exact E]. apply on_units_starts, run_checked_starts. apply (systemd_run_starts _ _ anchor); [reflexivity|by left]. }
  rewrite exec_embed_bind. cbn [embed exec fst snd]. destruct (exec env h1 _) as [h2 r2] eqn:E2. cbn [fst snd]. intros [= <- <- _].
  assert (calls_only (starts_only [anchor; child]) (on_units (run_checked SYSTEMD_RUN_PATH (owner_anchor_args anchor) (lit "lifecycle anchor failed to start")))) as H1.
  { apply on_units_starts, run_checked_starts. apply (systemd_run_starts _ _ anchor); [reflexivity|by left]. }
  assert (calls_only (starts_only [anchor; child]) (on_units (owner_child_part fuel anchor child))) as H2.
  { apply on_units_starts. unfold owner_child_part. apply calls_only_bind_ok; [|intros []].
    { apply run_checked_starts. apply (systemd_run_starts _ _ child); [reflexivity|right; by left]. }
    apply calls_only_bind_ok; [apply wait_for_unit_starts|intros []]. apply calls_only_bind_ok; [apply stop_starts|intros []].
    apply wait_for_unit_starts. }
  apply (calls_quiet _ _ _ _ _ _ H1) in E as (t & -> & Ht). apply (calls_quiet _ _ _ _ _ _ H2) in E2 as (t' & -> & Ht').
  exists (t' ++ t). split; [by rewrite app_assoc|]. intros e [He|He]%elem_of_app; auto.
Qed.

Lemma owner_cleanup_tells env anchor child (may : bool) h h' r :
  exec env h (on_units (cleanup_owner_lifecycle_units anchor true child may)) = (h', r) ->
  exists t, h' = t ++ h /\ (forall u, u ∈ anchor :: (if may then [child] else []) -> told u t) /\ forall e, e ∈ t -> starts_only [] (ev_call e) = true.
Proof.
  unfold cleanup_owner_lifecycle_units, on_units. rewrite !exec_embed_bind. cbn [embed exec fst snd].
  assert (exists t, (exec env h (embed (if may then cleanup_lifecycle_unit child else Ret (Ok tt)))).1 = t ++ h
    /\ (forall u, u ∈ (if may then [child] else []) -> told u t) /\ forall e, e ∈ t -> starts_only [] (ev_call e) = true) as (t & -> & Hu & Ht).
  { destruct may; cbn [embed exec fst].
    - destruct (exec env h _) as [h1 r1] eqn:E. apply cleanup_unit_tells in E as (t & -> & Hu & Ht). exists t. split; [done|]. split; [|done].
      by intros u ->%list_elem_of_singleton.
    - exists []. split; [done|]. split; intros ? []%not_elem_of_nil. }
  destruct (exec env (t ++ h) _) as [h2 r2] eqn:E2. apply cleanup_unit_tells in E2 as (t' & -> & Hu' & Ht'). cbn [fst]. intros [= <- _].
  exists (t' ++ t). split; [by rewrite app_assoc|]. split.
  - intros u [->|Hin]%elem_of_cons; [by apply told_app|by apply told_app_r, Hu].
  - intros e [He|He]%elem_of_app; auto.
Qed.

Lemma owner_canary_tidy env fuel nonce owner h : tidy h (exec env h (on_units (run_owner_crash_cleanup_canary fuel nonce owner))).1.
Proof.
  unfold run_owner_crash_cleanup_canary. set (anchor := lifecycle_unit_name _ _). set (child := lifecycle_unit_name (owner ++ lit "-child") _).
  unfold on_units. rewrite exec_embed_bind. destruct (exec env h (embed (owner_part fuel anchor child))) as [h1 [may r]] eqn:E. cbn [fst snd].
  apply owner_part_starts in E as (t & -> & Ht). rewrite exec_embed_bind. cbn [embed exec fst].
  destruct (exec env (t ++ h) _) as [h2 c] eqn:Ec. apply owner_cleanup_tells in Ec as (t' & -> & Hu & Ht'). cbn [fst].
  by eapply tidy_cleanup.
Qed.

(** *** The peer *)

(** The kind of a call does not depend on the history. *)
Lemma calls_only_at {call} {answer : call -> Type} kind {A} (p : prog answer A) h :
  wp (fun _ c => kind c = true) p (fun _ _ => True) h -> calls_only kind p.
Proof. revert h. induction p as [a|c k IH]; intros h; [done|]. intros [Hc Hk] h'. split; [done|]. intros r. by eapply IH. Qed.

Lemma join_starts us {A B} (p : prog renewal_answer A) (q : prog renewal_answer B) :
  calls_only (starts_only us) p -> calls_only (starts_only us) q -> calls_only (starts_only us) (join_both p q).
Proof.
  intros Hp. revert q. induction p as [a|c k IHp]; intros q Hq.
  { apply calls_only_bind; [done|]. intros; apply calls_only_ret. }
  induction q as [b|d l IHq].
  { apply (calls_only_bind _ (Do c k)); [done|]. intros; apply calls_only_ret. }
  intros h. change (join_both (Do c k) (Do d l)) with
    (bind (perform FirstMoves) (fun first : bool => if first then Do c (fun r => join_both (k r) (Do d l)) else Do d (fun r => join_both (Do c k) (l r)))).
  rewrite wp_bind. cbn [perform wp]. split; [done|]. intros [|]; cbn [wp].
  - destruct (Hp h) as [Hc Hk]. split; [done|]. intros r. apply IHp; [eapply calls_only_at, Hk|done].
  - destruct (Hq h) as [Hd Hl]. split; [done|]. intros r. apply IHq. eapply calls_only_at, Hl.
Qed.

(** Supervised runs that start only these. *)
Definition run_starts (us : list str) (c : run_call) : bool := starts_only us (OnLaunch (Supervise c)).

Lemma inner_starts us {A} (p : prog run_answer A) : calls_only inner p -> calls_only (run_starts us) p.
Proof. intros Hp. eapply calls_only_mono; [exact Hp|]. intros c. by destruct c. Qed.

Lemma run_transient_starts fuel plan text timeout limit :
  calls_only (run_starts [unit_name plan]) (run_transient_with_peer fuel plan text timeout limit).
Proof.
  assert (run_starts [unit_name plan] (Spawn plan) = true) as Hs.
  { unfold run_starts, starts_only, started_by. apply bool_decide_eq_true. by left. }
  unfold run_transient_with_peer, fail_run.
  apply calls_only_bind; [by apply calls_only_perform|]. intros [|]; [apply calls_only_ret|].
  apply calls_only_bind; [by apply calls_only_perform|]. intros [|]; cbn [negb]; [|apply calls_only_ret].
  apply calls_only_bind; [by apply calls_only_perform|]. intros now.
  apply calls_only_bind; [by apply calls_only_perform|]. intros [|]; cbn [negb]; [|apply calls_only_ret].
  apply calls_only_bind; [apply inner_starts, write_prompt_inner|].
  intros [[[|]| | |]|]; try (apply inner_starts; first [apply stop_with_inner|apply calls_only_ret]).
  apply calls_only_bind_ok; [apply inner_starts, wait_status_inner|]. intros [success|r]; [|apply calls_only_ret].
  apply calls_only_bind; [by apply calls_only_perform|]. intros t. destruct (_ <=? t); [|apply inner_starts, collect_output_inner].
  apply calls_only_bind; [|intros; apply calls_only_ret]. apply inner_starts. unfold discard_captures. calls_only.
Qed.

Lemma execute_peer_starts fuel nonce u pid :
  bot_peer_exit_canary_unit_name nonce = Ok u -> calls_only (starts_only [u]) (on_launch (execute_bot_peer_exit_cleanup_canary fuel nonce pid)).
Proof.
  intros Hu. unfold on_launch.
  assert (calls_only (fun c => starts_only [u] (OnLaunch c)) (execute_bot_peer_exit_cleanup_canary fuel nonce pid)) as Hp.
  { unfold execute_bot_peer_exit_cleanup_canary, open_canary_peer, launch_os. apply calls_only_bind_ok; [|intros []].
    - destruct (pid <=? 1); [apply calls_only_ret|]. apply calls_only_bind_ok; [calls_only|intros []]. apply calls_only_bind_ok; [calls_only|intros []].
      apply calls_only_bind; [intros h; by split|]. intros; apply calls_only_ret.
    - unfold build_bot_peer_exit_canary_plan. rewrite Hu. cbn [rbind canary_result map_err]. unfold bind_ok. cbn [bind]. set (plan := mkPlan _ _ _ _).
      apply calls_only_bind; [|intros; apply calls_only_ret]. intros h.
      eapply wp_mono; [apply (wp_embed (fun _ c => run_starts [u] c = true) (fun _ c => starts_only [u] (OnLaunch c) = true) _ (fun _ _ => True)); [|done]|done|done].
      apply (run_transient_starts fuel plan). }
  intros h. eapply wp_mono; [apply (wp_embed (fun _ c => starts_only [u] (OnLaunch c) = true) (fun _ c => starts_only [u] c = true) _ (fun _ _ => True)); [apply Hp|done]|done|done].
Qed.

Lemma peer_canary_tidy env fuel nonce h : tidy h (exec env h (run_bot_peer_exit_cleanup_canary fuel nonce)).1.
Proof.
  unfold run_bot_peer_exit_cleanup_canary, canary_result. destruct (bot_peer_exit_canary_unit_name nonce) as [u|e] eqn:Hu; unfold bind_ok; cbn [map_err bind].
  2:{ cbn [exec fst]. apply (tidy_quiet h []). by intros ? []%not_elem_of_nil. }
  rewrite exec_bind. cbn [exec perform fst snd]. set (h1 := _ :: h).
  assert (tidy h h1) as H1 by (apply (tidy_quiet h [_]); by intros ? ->%list_elem_of_singleton).
  destruct (env h _); cbn [negb]; [|by cbn]. rewrite exec_bind. cbn [exec perform fst snd]. set (h2 := _ :: h1).
  assert (tidy h1 h2) as H2 by (apply (tidy_quiet h1 [_]); by intros ? ->%list_elem_of_singleton).
  eapply tidy_trans; [exact H1|]. eapply tidy_trans; [exact H2|]. rewrite exec_bind. match goal with |- context [(exec env h2 ?q).1] => set (p := q) end.
  assert (tidy h2 (exec env h2 p).1) as H3.
  { unfold p. destruct (env h1 (OnUnit PeerId)) as [pid|]; [|apply (tidy_quiet h2 []); by intros ? []%not_elem_of_nil].
    assert (calls_only (starts_only [u]) (peer_exit_part fuel nonce u pid)) as Hp.
    { unfold peer_exit_part. apply calls_only_bind.
      - apply join_starts; [by apply execute_peer_starts|]. apply on_units_starts. unfold terminate_peer, unit_bail_if.
        apply calls_only_bind; [apply wait_for_unit_starts|intros r]. apply calls_only_bind; [by apply calls_only_perform|intros k].
        apply calls_only_bind; [by apply calls_only_perform|intros d]. apply calls_only_bind_ok; [apply calls_only_ret|intros]. calls_only.
      - intros [x y]. apply calls_only_bind_ok; [apply calls_only_ret|intros]. apply calls_only_bind_ok; [apply calls_only_ret|intros].
        apply on_units_starts, wait_for_unit_starts. }
    rewrite exec_bind. destruct (exec env h2 (peer_exit_part fuel nonce u pid)) as [h3 r] eqn:E. apply (calls_quiet _ _ _ _ _ _ Hp) in E as (t & -> & Ht). cbn [fst snd].
    rewrite exec_bind. destruct (exec env (t ++ h2) _) as [h4 c] eqn:Ec. apply cleanup_unit_tells in Ec as (t' & -> & Ht1 & Ht'). cbn [exec fst].
    apply (tidy_cleanup [u]); [done..|]. by intros u' ->%list_elem_of_singleton. }
  eapply tidy_trans; [exact H3|]. rewrite exec_bind. cbn [exec perform fst snd]. apply (tidy_quiet _ [_]). by intros ? ->%list_elem_of_singleton.
Qed.


(** ** Example: a renewal that succeeds *)

Definition any_event (kind : renewal_call -> bool) (h : rtrace) : bool := any (fun e => kind (ev_call e)) h.

Definition sample_nonce : str := hex (repeat 171 32).

Definition sample_inputs : RuntimeCanaryFixtureInputs :=
  mkFixtureInputs 100 (hex (repeat 7 32)) (lit "10.0.0.5:4002") (lit "127.0.0.1:4003")
    (path_text (unix_fixture_path sample_nonce)) (path_text (protected_fixture_path sample_nonce)).

Definition sample_binding : str := Eval vm_compute in
  match @runtime_canary_fixture_binding checksum_sha256 line_print sample_nonce sample_inputs with Ok b => b | Err _ => [] end.

Definition sample_evidence : bytes := Eval vm_compute in
  match @evidence_to_json_line line_print
          (mkRuntimeEvidence sample_nonce sample_binding (successful_report sample_nonce sample_binding) 100 (hex (repeat 7 32))
             true true true true true true true true true true true true true true true true true true true true) with
  | Ok line => line
  | Err _ => []
  end.

(** *** Files *)

Definition renamed_elsewhere (p : list Component) (e : Effects.event fs_answer) : Effects.event fs_answer :=
  match ev_call e with
  | RenamePath _ target => if bool_decide (target = p) then e else Ev ProcessId 0
  | _ => e
  end.

(** The histories the hosts of the receipt and of the challenge see. *)
Definition receipt_history (h : list (Effects.event fs_answer)) := map (renamed_elsewhere (components ACTIVATION_RECEIPT_PATH)) h.
Definition challenge_history (h : list (Effects.event fs_answer)) := map (renamed_elsewhere (components REBOOT_CHALLENGE_PATH)) h.

(** A challenge for the same artifacts, written in the boot before. *)
Definition earlier_challenge : option bytes := Eval vm_compute in
  installed None (exec (boot_host next_boot None) []
    (@verify_reboot_cleanup_challenge_with line_text line_print challenge_paths (activation_of sample_receipt))).1.

Definition made_on_boot (p : list Component) : bool :=
  components_prefix (components RUNTIME_CANARY_HOST_UNIX_FIXTURE_ROOT) p || components_prefix (components RUNTIME_CANARY_HOST_PROTECTED_FIXTURE_ROOT) p.

Definition socket_stat (inode : N) : StatSnapshot := mkStat 1 inode (S_IFSOCK + 384) 1 0 0 0 0 0 0 0.

Definition socket_table : bytes := Eval vm_compute in
  lit "Num RefCount Protocol Flags Type St Inode Path" ++ [10]
  ++ lit "0000: 00000002 00000000 00010000 0005 01 1234 " ++ LAUNCHER_SOCKET_PATH ++ [10]
  ++ lit "0000: 00000002 00000000 00010000 0001 01 1235 " ++ CONFIG_ACTION_SOCKET ++ [10].

Definition created_directory (h : rtrace) (p : list Component) : bool :=
  any_event (fun c => match c with MakeDirectory q => bool_decide (q = p) | _ => false end) h.

Definition lock_fd : fd := 9000.

Definition files_host (h : rtrace) : environment fs_answer := fun g c =>
  let receipt := activation_host None (receipt_history g) in
  let challenge := boot_host sample_boot earlier_challenge (challenge_history g) in
  match c return fs_answer c with
  | Descriptors.EffectiveUid => 0
  | RandomBytes => Some (repeat 171 32)
  | Canonicalize _ => Ok RUNTIME_CANARY_HOST_UNIX_FIXTURE_ROOT
  | Lstat p =>
      if bool_decide (p = components LAUNCHER_SOCKET_PATH \/ p = components CONFIG_ACTION_SOCKET) then Ok (socket_stat 77)
      else if bool_decide (p = unix_fixture_path sample_nonce)
      then if any_event (fun c => match c with OnHost (BindUnix _) => true | _ => false end) h then Ok (socket_stat 78) else Err ENOENT
      else if created_directory h p then Ok private_directory
      else if made_on_boot p then challenge (Lstat p) else receipt (Lstat p)
  | Fstat f =>
      if f =? lock_fd then Ok (sample_stat [] 384)
      else if made_on_boot (opened_path g f) then challenge (Fstat f) else receipt (Fstat f)
  | ReadFd f limit =>
      if made_on_boot (opened_path g f)
      then match boot_file sample_boot earlier_challenge g (opened_path g f) with
           | Some data => Ok (take_N limit (drop_N (len (received f g)) data))
           | None => Err ENOENT
           end
      else receipt (ReadFd f limit)
  | ReadToEnd f => if bool_decide (opened_path g f = components PROC_NET_UNIX) then Ok socket_table else challenge (ReadToEnd f)
  | c => receipt c
  end.

(** *** The rest of the host *)

Definition stopped_monitor (l : N) (h : rtrace) : bool :=
  any_event (fun c => match c with OnHost (StopMonitor l') => l' =? l | _ => false end) h.
Definition peer_started (h : rtrace) : bool := any_event (fun c => match c with OnUnit (SpawnPeer _ _) => true | _ => false end) h.
Definition peer_reaped (h : rtrace) : bool := any_event (fun c => match c with OnUnit ReapPeer => true | _ => false end) h.

Definition sockets_host (h : rtrace) (c : host_call) : host_answer c :=
  match c return host_answer c with
  | HostFile c => files_host h (files_of h) c
  | BindUnix _ => Ok 1
  | BindTcp a => Ok (if is_loopback (ip a) then 3 else 2)
  | SetNonblocking _ | SpawnMonitor _ => Ok tt
  | LocalAddr l => Ok (mkSocketAddr (if l =? 3 then V4 127 0 0 1 else V4 10 0 0 5) (4000 + l) 0)
  | AwaitReady _ | StopMonitor _ => true
  | MonitorState l => if stopped_monitor l h then mkMonitorState true false false 0 Finished 0 else mkMonitorState false true false 0 Polling 0
  | Interfaces => Ok [mkInterface true true (Some (Inet 127 0 0 1)); mkInterface true false (Some (Inet 10 0 0 5))]
  end.

Definition supervision_host (h : rtrace) (c : run_call) : run_answer c :=
  match c return run_answer c with
  | CancelRequested => false
  | PeerAlive => negb (peer_reaped h)
  | IsolatedRun.Now => 0
  | Spawn _ | SpawnStop _ => true
  | WritePrompt _ => Ready true
  | WaitChild => if peer_started h then Tick else Ready (Some true)
  | WaitStop _ => Some (Some true)
  | ChildHasId _ => false
  | KillGroup _ _ => tt
  | WaitFor _ _ => true
  | DiscardCaptures => tt
  | JoinCapture s _ => Some (Some [Some match s with Stdout => sample_evidence | Stderr => [] end])
  | Prepare => Err (OtherError [])
  | Cleanup => Ok tt
  end.

Definition launch_host (h : rtrace) (c : launch_call) : launch_answer c :=
  match c return launch_answer c with
  | Supervise c => supervision_host h c
  | OpenPidfd _ | ProtectPidfd => Ok tt
  end.

(** A unit is found active the first time it is looked at and ended after that. *)
Definition looked_at (arguments : list str) (h : rtrace) : bool :=
  any_event (fun c => match c with OnUnit (RunCommand _ arguments' _) => bool_decide (arguments' = arguments) | _ => false end) h.

Definition unit_host (h : rtrace) (c : unit_call) : unit_answer c :=
  match c return unit_answer c with
  | RunCommand _ arguments _ => CommandExited (negb (bool_decide (lit "is-active" ∈ arguments) && looked_at arguments h))
  | RunOutput _ _ _ => (CommandExited true, lit "timeout" ++ [10])
  | MonotonicNow => 0
  | Sleep _ | DropPeer => tt
  | SpawnPeer _ _ | KillPeer | ReapPeer => true
  | PeerId => Some 4242
  end.

(** The supervised part moves until its unit runs, then the other one to its end. *)
Definition peer_unit_runs (h : rtrace) : bool :=
  2 <=? len (List.filter (fun e => match ev_call e with OnLaunch (Supervise (Spawn _)) => true | _ => false end) h).

Definition sample_pending : PendingWorkspace := mkPending (lit "run") 1 2 (lit "w") (mkIdentity 1 1) true.
Definition sample_workspace : VerifiedWorkspace := mkVerifiedWorkspace (lit "/workspace") (lit "/workspace") 1 (lit "w") (mkIdentity 1 1) true 2.

Definition renewal_host : environment renewal_answer := fun h c =>
  match c return renewal_answer c with
  | OnHost c => sockets_host h c
  | OnLaunch c => launch_host h c
  | OnUnit c => unit_host h c
  | OpenLock _ _ => Ok lock_fd
  | TryLock _ | MakeDirectory _ | SetMode _ _ | RemoveDirectory _ => Ok tt
  | Unlock _ => tt
  | StageCanary _ _ => Ok sample_pending
  | CleanPending _ | CleanWorkspace _ => Ok tt
  | PrepareCanary _ _ => Ok (mkPlan (lit "webex-codex-canary.service") SYSTEMD_RUN_PATH [] (lit "/"), sample_workspace)
  | FirstMoves => negb (peer_unit_runs h) || peer_reaped h
  end.

(** The same host, except that the timed unit ends by itself. *)
Definition early_end_host : environment renewal_answer := fun h c =>
  match c return renewal_answer c with
  | OnUnit c =>
      match c return unit_answer c with
      | RunOutput _ _ _ => (CommandExited true, lit "success" ++ [10])
      | c => unit_host h c
      end
  | c => renewal_host h c
  end.

#[local] Abbreviation sample_renewal host := (exec host [] (@renew_activation_receipt checksum_sha256 line_text line_print line_pretty 5)).

Example sample_renewed : (sample_renewal renewal_host).2 = Ok (activation_of sample_receipt).
Proof. vm_compute. reflexivity. Qed.

Example sample_not_renewed :
  (sample_renewal early_end_host).2 = Err (Bail (lit "timeout canary unit did not finish because RuntimeMaxSec expired")).
Proof. vm_compute. reflexivity. Qed.

