(* ===== verification/CodexRuntime.v ===== *)
(** * The runtime wrapper

    [src/bin/webex-codex-runtime.rs], the program that runs Codex inside the isolated unit:
    its arguments, the private directories and the credential of a run, the hardening of the
    process, the fixed Codex command, the final message, and the mode in which it proves the
    isolation from the inside (the runtime canary). Parsing the command line is the clap
    crate; the value parsers it is given are here. *)

From S2P Require Import Prelude Effects Text Digest Paths Net HostFiles Webex Runner.
From S2P Require Import WorkBudget LauncherProtocol Serde CanaryProtocol CanaryExec IsolatedPlan Descriptors HostPaths RebootChallenge.

Local Open Scope N_scope.

Definition CODEX_PATH : str := lit "/opt/codex/bin/codex".
Definition WORKSPACE_PATH : str := lit "/workspace".
Definition CREDENTIAL_NAME : str := lit "codex-auth.json".
Definition MAIN_HOME : path := lit "/tmp/webex-codex-main-home".
Definition CODEX_HOME : path := lit "/tmp/webex-codex-main".
Definition TOOL_HOME : path := lit "/tmp/webex-codex-tool-home".
Definition TOOL_TMP : path := lit "/tmp/webex-codex-tool-tmp".
Definition FINAL_OUTPUT_PATH : path := lit "/tmp/webex-codex-main/final-message.txt".
Definition AUTH_MAX_BYTES : N := 1024 * 1024.
Definition FINAL_OUTPUT_MAX_BYTES : N := OUTPUT_MAX_BYTES.
Definition RUNTIME_CANARY_FIXTURE_MAX_BYTES : N := 64 * 1024.
Definition MAIN_PATH : str := lit "/opt/codex/codex-resources:/opt/codex/codex-path:/bin".

(** ** Arguments *)

(** A TOML basic string. *)
Definition toml (s : str) : str := [34] ++ s ++ [34].

Definition access_entry (what access : str) : str := toml what ++ lit "=" ++ toml access.

Definition DENIED_PATHS : list str :=
  [lit "/tmp/webex-codex-main"; lit "/tmp/webex-codex-main-home"; lit "/run/credentials"; lit "/run/systemd"; lit "/run/dbus";
   lit "/run/webex-codex-launcher"; lit "/run/webex-codex-canary"; lit "/run/webex-config-pull";
   lit "/var/lib/webex-generic-account-bot/canary-fixtures"; lit "/opt/codex/bin"; lit "/opt/codex/codex-resources"; lit "/usr/libexec"].

Definition PERMISSION_PROFILE : str :=
  lit "permissions.webex-isolated.filesystem={"
  ++ join (lit ",")
       ([access_entry (lit ":minimal") (lit "read");
         toml (lit ":workspace_roots") ++ lit "={" ++ access_entry (lit ".") (lit "read") ++ lit "}";
         access_entry (lit "/tmp/webex-codex-tool-home") (lit "write");
         access_entry (lit "/tmp/webex-codex-tool-tmp") (lit "write")]
        ++ map (fun p => access_entry p (lit "deny")) DENIED_PATHS)
  ++ lit "}".

Definition TOOL_ENVIRONMENT : str :=
  lit "shell_environment_policy.set={"
  ++ join (lit ",")
       [lit "PATH=" ++ toml (lit "/opt/codex/codex-path:/bin"); lit "HOME=" ++ toml (lit "/tmp/webex-codex-tool-home");
        lit "TMPDIR=" ++ toml (lit "/tmp/webex-codex-tool-tmp"); lit "SHELL=" ++ toml (lit "/bin/sh"); lit "LANG=" ++ toml (lit "C.UTF-8")]
  ++ lit "}".

Inductive RuntimeEffort : Type := EffortMinimal | EffortLow | EffortMedium | EffortHigh | EffortXhigh.

Definition effort_as_str (e : RuntimeEffort) : str :=
  match e with
  | EffortMinimal => lit "minimal"
  | EffortLow => lit "low"
  | EffortMedium => lit "medium"
  | EffortHigh => lit "high"
  | EffortXhigh => lit "xhigh"
  end.

Record Cli : Type := mkCli { cli_workspace : path; cli_model : str; cli_effort : option RuntimeEffort }.

Record RuntimeCanaryCli : Type := mkCanaryCli {
  rcc_runtime_canary : bool;
  rcc_nonce : str;
  rcc_forbidden_tcp : str;
  rcc_bot_tcp : str;
  rcc_host_unix : path;
  rcc_host_protected_path : path
}.

Record ValidatedRuntimeCanaryCli : Type := mkValidatedCli {
  vc_nonce : str;
  vc_forbidden_tcp : str;
  vc_bot_tcp : str;
  vc_host_unix : str;
  vc_host_protected_path : str
}.

Definition validate_workspace (value : str) : result str path :=
  fail_if (negb (str_eqb value WORKSPACE_PATH)) (lit "workspace must be " ++ WORKSPACE_PATH) ;? Ok (as_bytes value).

Definition validate_model (value : str) : result str str :=
  fail_if (negb (str_eqb value (lit "gpt-5.5"))) (lit "model is not allowlisted") ;? Ok value.

Definition validate_runtime_canary_nonce_cli (value : str) : result str str :=
  map_err (fun _ => lit "runtime canary nonce must be 32 lowercase hexadecimal bytes") (validate_runtime_canary_nonce value) ;? Ok value.

Definition validate_forbidden_tcp (value : str) : result str str :=
  let? endpoint := ok_or (parse_socket_addr value) (lit "forbidden runtime canary TCP endpoint is invalid") in
  fail_if ((port endpoint =? 0) || negb (runtime_canary_forbidden_ip_allowed (ip endpoint))
           || negb (str_eqb (socket_addr_to_string endpoint) value))
    (lit "forbidden runtime canary TCP endpoint must be canonical non-loopback unicast") ;?
  Ok value.

Definition validate_bot_tcp (value : str) : result str str :=
  let? endpoint := ok_or (parse_socket_addr value) (lit "bot runtime canary TCP endpoint is invalid") in
  fail_if ((port endpoint =? 0) || negb (is_loopback (ip endpoint)) || negb (str_eqb (socket_addr_to_string endpoint) value))
    (lit "bot runtime canary TCP endpoint must be canonical loopback with a nonzero port") ;?
  Ok value.

(** What clap makes of the arguments of the process; without a value it ends the process with
    a message. The values it gives went through their parsers. *)
Class CommandLine : Type := {
  parse_cli : list bytes -> option Cli;
  parse_canary_cli : list bytes -> option RuntimeCanaryCli
}.

Definition cli_checked (cli : Cli) : Prop :=
  (exists value, validate_workspace value = Ok (cli_workspace cli)) /\ exists value, validate_model value = Ok (cli_model cli).

Definition canary_cli_checked (cli : RuntimeCanaryCli) : Prop :=
  rcc_runtime_canary cli = true /\ (exists value, validate_runtime_canary_nonce_cli value = Ok (rcc_nonce cli))
  /\ (exists value, validate_forbidden_tcp value = Ok (rcc_forbidden_tcp cli)) /\ exists value, validate_bot_tcp value = Ok (rcc_bot_tcp cli).

Class CommandLineLaws `{CommandLine} : Prop := {
  parse_cli_checked : forall arguments cli, parse_cli arguments = Some cli -> cli_checked cli;
  parse_canary_cli_checked : forall arguments cli, parse_canary_cli arguments = Some cli -> canary_cli_checked cli
}.

(** [cli.host_unix != Path::new(..)] compares components. *)
Definition validate_runtime_canary_cli (cli : RuntimeCanaryCli) : result FsError ValidatedRuntimeCanaryCli :=
  fail_if (negb (rcc_runtime_canary cli) || str_eqb (rcc_forbidden_tcp cli) (rcc_bot_tcp cli))
    (Bail (lit "runtime canary mode inputs are invalid")) ;?
  let expected_unix := RUNTIME_CANARY_HOST_UNIX_FIXTURE_ROOT ++ lit "/" ++ rcc_nonce cli ++ lit ".sock" in
  let expected_protected := RUNTIME_CANARY_HOST_PROTECTED_FIXTURE_ROOT ++ lit "/" ++ rcc_nonce cli in
  fail_if (negb (bool_decide (components (rcc_host_unix cli) = components (as_bytes expected_unix)))
           || negb (bool_decide (components (rcc_host_protected_path cli) = components (as_bytes expected_protected))))
    (Bail (lit "host runtime canary paths do not match the nonce")) ;?
  Ok (mkValidatedCli (rcc_nonce cli) (rcc_forbidden_tcp cli) (rcc_bot_tcp cli) expected_unix expected_protected).

(** One [-c] option. *)
Definition override (setting : str) : list bytes := [lit "-c"; as_bytes setting].

(** The global options, before [exec]. *)
Definition codex_global_args (cli : Cli) : list bytes :=
  [lit "--ask-for-approval"; lit "never"; lit "--strict-config"; lit "--model"; as_bytes (cli_model cli)]
  ++ override (lit "default_permissions=" ++ toml (lit "webex-isolated"))
  ++ override PERMISSION_PROFILE
  ++ override (lit "permissions.webex-isolated.network.enabled=false")
  ++ override (lit "shell_environment_policy.inherit=" ++ toml (lit "none"))
  ++ override (lit "shell_environment_policy.ignore_default_excludes=false")
  ++ override TOOL_ENVIRONMENT
  ++ override (lit "shell_environment_policy.include_only=["
       ++ join (lit ",") (map toml [lit "PATH"; lit "HOME"; lit "TMPDIR"; lit "SHELL"; lit "LANG"]) ++ lit "]")
  ++ override (lit "web_search=" ++ toml (lit "disabled"))
  ++ override (lit "project_doc_max_bytes=0")
  ++ override (lit "allow_login_shell=false")
  ++ override (lit "features.apps=false")
  ++ override (lit "features.hooks=false")
  ++ override (lit "features.memories=false")
  ++ override (lit "features.multi_agent=false")
  ++ override (lit "features.shell_snapshot=false").

(** The options of [exec]. *)
Definition codex_exec_options (cli : Cli) : list bytes :=
  [lit "--ignore-user-config"; lit "--ignore-rules"; lit "--color"; lit "never"; lit "--ephemeral"; lit "--cd"; cli_workspace cli;
   lit "--skip-git-repo-check"; lit "--output-last-message"; FINAL_OUTPUT_PATH]
  ++ match cli_effort cli with
     | Some e => override (lit "model_reasoning_effort=" ++ toml (effort_as_str e))
     | None => []
     end
  ++ [lit "-"].

Definition codex_args (cli : Cli) : list bytes := codex_global_args cli ++ [lit "exec"] ++ codex_exec_options cli.

Definition canary_cli : Cli := mkCli WORKSPACE_PATH (lit "gpt-5.5") (Some EffortXhigh).

(** [args.insert(position("exec") + 1, "--json")]. *)
Definition runtime_canary_codex_args : list bytes :=
  codex_global_args canary_cli ++ [lit "exec"; lit "--json"] ++ codex_exec_options canary_cli.

(** The environment of Codex, which inherits nothing. *)
Definition codex_environment : gmap str str :=
  list_to_map
    [(lit "HOME", MAIN_HOME); (lit "CODEX_HOME", CODEX_HOME); (lit "PATH", MAIN_PATH); (lit "SHELL", lit "/bin/sh");
     (lit "LANG", lit "C.UTF-8"); (lit "SSL_CERT_FILE", lit "/etc/ssl/certs/ca-certificates.crt")].

Definition codex_command (args : list bytes) : command := mkCommand CODEX_PATH args codex_environment.

(** ** Calls *)

(** Beside the calls on files: the environment and the modes of paths, the hardening, the
    child, the sealed memory file, and standard output. [RunCodex] runs the command with the
    standard input and error of the wrapper and no output, until it exits; [SpawnCodex] starts
    it with pipes. [WriteStdin] writes, flushes and closes the pipe, [ReadStdout] reads the
    pipe to its end or to one byte more than the limit. *)
Inductive rt_call : Type :=
| Fs (c : fs_call)
| CredentialsDirectory
| MakeDirectory (p : path) (mode : N)
| SetMode (p : path) (mode : N)
| DisableDumping
| NoNewPrivileges
| SetUmask (mask : N)
| CloseDescriptorsFrom (first : N)
| RunCodex (c : command)
| SpawnCodex (c : command)
| WriteStdin (data : bytes)
| ReadStdout (limit : N)
| KillCodex
| WaitCodex
| MemfdCreate
| AddSeals (f : fd)
| DescriptorFlags (f : fd)
| WriteOutput (data : bytes)
| FlushOutput.

Definition rt_answer (c : rt_call) : Type :=
  match c with
  | Fs c => fs_answer c
  | CredentialsDirectory => option path
  | RunCodex _ | WaitCodex => result N exit_status
  | ReadStdout _ => result N bytes
  | MemfdCreate => result N fd
  | DescriptorFlags _ => Z
  | SetUmask _ | KillCodex => unit
  | _ => result N unit
  end.

#[export] Instance files_in_runtime : Embedding (answer := fs_answer) (answer' := rt_answer) := {
  inject := Fs;
  answered c r := r;
  view e := match e with Ev c r => match c return rt_answer c -> option (Effects.event fs_answer) with
                                   | Fs c => fun r => Some (Ev c r)
                                   | _ => fun _ => None
                                   end r end;
  view_inject c r := eq_refl
}.

Abbreviation rtprog A := (prog rt_answer (result FsError A)) (only parsing).

Definition files {A} (p : fsprog A) : rtprog A := embed p.

Definition system {A} (p : prog rt_answer (result N A)) : rtprog A := let* r := p in Ret (map_err Os r).
Definition failed {A} (message : str) : rtprog A := Ret (Err (Bail message)).
Definition failed_if (b : bool) (message : str) : rtprog unit := Ret (fail_if b (Bail message)).
Definition of_canary {A} (r : result CanaryError A) : rtprog A :=
  Ret (map_err (fun e => Bail (match e with Invalid message => message | InvalidJson => lit "invalid JSON" end)) r).

(** ** The private directories and the credential *)

Fixpoint make_directories (paths : list path) : rtprog unit :=
  match paths with
  | [] => Ret (Ok tt)
  | p :: paths =>
      let*? _ := system (perform (MakeDirectory p 448)) in
      let*? _ := system (perform (SetMode p 448)) in
      make_directories paths
  end.

Definition prepare_private_directories : rtprog unit := make_directories [MAIN_HOME; CODEX_HOME; TOOL_HOME; TOOL_TMP].

Definition credential_path : rtprog path :=
  let* found := (perform CredentialsDirectory : prog rt_answer (option path)) in
  match found with
  | None => failed (lit "systemd credential directory is unavailable")
  | Some directory =>
      match from_utf8 directory with
      | None => failed (lit "systemd credential directory is invalid")
      | Some text =>
          if negb (starts_with (lit "/run/credentials/") text)
             || any (fun component => str_eqb component (lit ".") || str_eqb component (lit "..")) (split_by (N.eqb (ch "/")) text)
          then failed (lit "systemd credential directory is invalid")
          else Ret (Ok (path_join directory CREDENTIAL_NAME))
      end
  end.

Definition credential_object `{JsonText} (contents : bytes) : result FsError unit :=
  match json_from_slice contents with
  | None => Err (Bail (lit "Codex credential is not valid JSON"))
  | Some (JObject _) => Ok tt
  | Some _ => Err (Bail (lit "Codex credential is not a JSON object"))
  end.

Definition credential_metadata_ok (m : StatSnapshot) : bool :=
  is_regular m && negb (file_len m =? 0) && (file_len m <=? AUTH_MAX_BYTES).

Definition auth_path : path := path_join CODEX_HOME (lit "auth.json").

Definition install_run_credential `{JsonText} (source : path) : rtprog unit :=
  let*? f := files (open_path (components source) FileNoFollow) in
  let*? m := files (stat_fd f) in
  let*? _ := failed_if (negb (credential_metadata_ok m)) (lit "systemd Codex credential is invalid") in
  let*? contents := files (os (perform (ReadToEnd f))) in
  let*? _ := Ret (credential_object contents) in
  let*? target := files (os (perform (CreatePath (components auth_path) 384))) in
  let*? _ := files (os (perform (WriteAll target contents))) in
  let*? _ := files (sync_checked target) in
  system (perform (SetMode auth_path 384)).

(** ** Hardening *)

Definition harden_process : rtprog unit :=
  let*? _ := system (perform DisableDumping) in
  let*? _ := system (perform NoNewPrivileges) in
  let* _ := (perform (SetUmask 63) : prog rt_answer unit) in
  Ret (Ok tt).

Definition close_nonstandard_descriptors : rtprog unit := system (perform (CloseDescriptorsFrom 3)).

(** ** The final message *)

Definition FINAL_INVALID : str := lit "final Codex message metadata is invalid".

Definition same_final_output_metadata (left right : StatSnapshot) : bool :=
  (st_device left =? st_device right) && (st_inode left =? st_inode right) && (st_mode left =? st_mode right)
  && (st_links left =? st_links right) && (st_uid left =? st_uid right) && (st_gid left =? st_gid right)
  && (file_len left =? file_len right) && (st_modified_seconds left =? st_modified_seconds right)%Z
  && (st_modified_nanoseconds left =? st_modified_nanoseconds right)%Z && (st_changed_seconds left =? st_changed_seconds right)%Z
  && (st_changed_nanoseconds left =? st_changed_nanoseconds right)%Z.

(** [||] asks for the user only after the kind and the links of the file. *)
Definition read_final_output (p : path) : fsprog bytes :=
  let*? f := open_path (components p) FileNoFollow in
  let*? m := stat_fd f in
  let*? _ := bail_if (negb (is_regular m) || negb (st_links m =? 1)) FINAL_INVALID in
  let* uid := (perform EffectiveUid : prog fs_answer N) in
  let*? _ := bail_if (negb (st_uid m =? uid) || negb (N.land (st_mode m) 511 =? 384) || (file_len m =? 0)
                      || (FINAL_OUTPUT_MAX_BYTES <? file_len m)) FINAL_INVALID in
  let*? data := os (perform (ReadToEnd f)) in
  let output := take_N (FINAL_OUTPUT_MAX_BYTES + 1) data in
  let*? _ := bail_if (FINAL_OUTPUT_MAX_BYTES <? len output) (lit "final Codex message exceeds its size limit") in
  let*? after := stat_fd f in
  let*? _ := bail_if (negb (same_final_output_metadata m after) || negb (file_len after =? len output))
               (lit "final Codex message changed while it was read") in
  let*? _ := Ret (ok_or (from_utf8 output) (Bail (lit "final Codex message is not UTF-8"))) in
  Ret (Ok output).

(** The path of the final message must be free. *)
Definition require_no_output (p : path) : fsprog unit :=
  let*? found := lstat_existing (components p) in
  match found with
  | None => Ret (Ok tt)
  | Some _ => bail (lit "final Codex message path already exists")
  end.

Definition run_codex (c : command) (output_path : path) : rtprog bytes :=
  let*? _ := files (require_no_output output_path) in
  let*? status := system (perform (RunCodex c)) in
  let*? _ := failed_if (negb (status_success status)) (lit "fixed Codex runtime failed") in
  files (read_final_output output_path).

Definition write_stdout (data : bytes) : rtprog unit :=
  let*? _ := system (perform (WriteOutput data)) in
  system (perform FlushOutput).

Definition run_normal_runtime `{JsonText} (cli : Cli) : rtprog unit :=
  let*? _ := prepare_private_directories in
  let*? source := credential_path in
  let*? _ := install_run_credential source in
  let*? _ := harden_process in
  let*? _ := close_nonstandard_descriptors in
  let*? output := run_codex (codex_command (codex_args cli)) FINAL_OUTPUT_PATH in
  write_stdout output.

(** ** The runtime canary *)

(** *** The descriptor secret *)

Record RuntimeCanaryDescriptorSecret : Type := mkSecret { ds_file : fd; ds_sha256 : str }.

(** [F_GETFD] answers negatively when it fails; [FD_CLOEXEC] is its lowest bit. *)
Definition verify_descriptor_secret_is_held (secret : RuntimeCanaryDescriptorSecret) : rtprog unit :=
  let* flags := (perform (DescriptorFlags (ds_file secret)) : prog rt_answer Z) in
  failed_if ((flags <? 0)%Z || (Z.land flags 1 =? 0)%Z) (lit "runtime canary descriptor secret is not held with CLOEXEC").

Definition create_runtime_canary_descriptor_secret `{Sha256} : rtprog RuntimeCanaryDescriptorSecret :=
  let* random := (perform (Fs RandomBytes) : prog rt_answer (option bytes)) in
  match random with
  | None => failed (lit "failed to generate the runtime canary descriptor secret")
  | Some data =>
      let*? f := system (perform MemfdCreate) in
      let*? _ := files (os (perform (WriteAll f data))) in
      let*? _ := system (perform (AddSeals f)) in
      let secret := mkSecret f (hex (sha256 data)) in
      let*? _ := verify_descriptor_secret_is_held secret in
      Ret (Ok secret)
  end.

(** *** Fixtures *)

Record RegularFileIdentity : Type := mkRegularIdentity {
  rf_device : N;
  rf_inode : N;
  rf_file_type : N;
  rf_mode : N;
  rf_links : N;
  rf_uid : N;
  rf_gid : N;
  rf_size : N
}.

#[export] Instance RegularFileIdentity_eq_dec : EqDecision RegularFileIdentity.
Proof. solve_decision. Defined.

(** [RegularFileIdentity::from_metadata]. *)
Definition regular_identity (m : StatSnapshot) : RegularFileIdentity :=
  mkRegularIdentity (st_device m) (st_inode m) (file_type m) (st_permissions m) (st_links m) (st_uid m) (st_gid m) (file_len m).

Definition identity_valid (i : RegularFileIdentity) (max_bytes : N) (required_mode : option N) : bool :=
  (rf_file_type i =? S_IFREG) && (rf_links i =? 1) && (0 <? rf_size i) && (rf_size i <=? max_bytes)
  && match required_mode with Some mode => rf_mode i =? mode | None => true end.

Record RuntimeCanaryFixturePaths : Type := mkFixturePaths {
  fp_main_home : path;
  fp_codex_home : path;
  fp_final_output : path;
  fp_workspace : path
}.

Definition FIXTURE_INVALID : str := lit "runtime canary fixture metadata is invalid".

Definition fixture_contents (label nonce : str) : str :=
  lit "webex-codex-runtime-canary " ++ label ++ lit " " ++ nonce ++ [10].

(** [||] asks for the user only when the identity is valid. *)
Definition create_runtime_canary_fixture (p : path) (label nonce : str) : fsprog unit :=
  let*? f := os (perform (CreatePath (components p) 384)) in
  let*? _ := os (perform (WriteAll f (as_bytes (fixture_contents label nonce)))) in
  let*? _ := sync_checked f in
  let*? _ := os (perform (Fchmod f 384)) in
  let*? m := stat_fd f in
  let i := regular_identity m in
  let*? _ := bail_if (negb (identity_valid i RUNTIME_CANARY_FIXTURE_MAX_BYTES (Some 384))) FIXTURE_INVALID in
  let* uid := (perform EffectiveUid : prog fs_answer N) in
  bail_if (negb (rf_uid i =? uid)) FIXTURE_INVALID.

Definition create_runtime_canary_fixtures (nonce : str) : rtprog RuntimeCanaryFixturePaths :=
  let*? main_home := of_canary (runtime_canary_main_home_fixture_path nonce) in
  let*? codex_home := of_canary (runtime_canary_codex_home_fixture_path nonce) in
  let*? final_output := of_canary (runtime_canary_final_output_fixture_path nonce) in
  let*? workspace := of_canary (runtime_canary_workspace_fixture_path nonce) in
  let paths := mkFixturePaths (as_bytes main_home) (as_bytes codex_home) (as_bytes final_output) (as_bytes workspace) in
  let*? _ := files (create_runtime_canary_fixture (fp_main_home paths) (lit "main-home") nonce) in
  let*? _ := files (create_runtime_canary_fixture (fp_codex_home paths) (lit "codex-home") nonce) in
  let*? _ := files (create_runtime_canary_fixture (fp_final_output paths) (lit "final-output-sibling") nonce) in
  Ret (Ok paths).

(** *** Snapshots *)

Section snapshots.
Context `{Sha256}.

Definition hash_policy (max_bytes : N) : ReadPolicy :=
  mkReadPolicy [] (16 * 1024) max_bytes (lit "runtime canary fixture size overflowed") (lit "runtime canary fixture exceeds its size limit").

(** The loop keeps what it read, whose digest it computes on the way. *)
Definition hash_bounded_file (f : fd) (expected_size max_bytes : N) : fsprog bytes :=
  let*? data := read_to_limit (hash_policy max_bytes) None f [] in
  let*? _ := bail_if (negb (len data =? expected_size)) (lit "runtime canary fixture size changed while hashing") in
  Ret (Ok (sha256 data)).

Definition capture_regular_file_state (p : path) (max_bytes : N) (required_mode : option N)
  : fsprog (RegularFileIdentity * bytes) :=
  let*? m := lstat (components p) in
  let path_identity := regular_identity m in
  let*? _ := bail_if (negb (identity_valid path_identity max_bytes required_mode)) FIXTURE_INVALID in
  let*? f := open_path (components p) FileNoFollow in
  let*? m := stat_fd f in
  let open_identity := regular_identity m in
  let*? _ := bail_if (negb (bool_decide (open_identity = path_identity)) || negb (identity_valid open_identity max_bytes required_mode))
               (lit "runtime canary fixture identity changed") in
  let*? content_sha256 := hash_bounded_file f (rf_size open_identity) max_bytes in
  let*? final_open := stat_fd f in
  let*? final_path := lstat (components p) in
  let*? _ := bail_if (negb (bool_decide (regular_identity final_open = open_identity))
                      || negb (bool_decide (regular_identity final_path = open_identity)))
               (lit "runtime canary fixture changed while it was read") in
  Ret (Ok (open_identity, content_sha256)).

Record RegularFileSnapshot : Type := mkSnapshot {
  sn_path : path;
  sn_identity : RegularFileIdentity;
  sn_content_sha256 : bytes;
  sn_max_bytes : N;
  sn_required_mode : option N
}.

Record FileIntegrityEvidence : Type := mkIntegrity {
  regular_file_after : bool;
  identity_unchanged : bool;
  contents_unchanged : bool
}.

(** [RegularFileSnapshot::capture]. *)
Definition capture_snapshot (p : path) (max_bytes : N) (required_mode : option N) : fsprog RegularFileSnapshot :=
  let*? state := capture_regular_file_state p max_bytes required_mode in
  Ret (Ok (mkSnapshot p (fst state) (snd state) max_bytes required_mode)).

(** [RegularFileSnapshot::verify_after]. *)
Definition verify_after (s : RegularFileSnapshot) : prog fs_answer FileIntegrityEvidence :=
  let* m := lstat (components (sn_path s)) in
  let regular := match m with
                 | Ok m => identity_valid (regular_identity m) (sn_max_bytes s) (sn_required_mode s)
                 | Err _ => false
                 end in
  let* state := capture_regular_file_state (sn_path s) (sn_max_bytes s) (sn_required_mode s) in
  Ret (match state with
       | Ok (i, content) => mkIntegrity regular (bool_decide (i = sn_identity s)) (str_eqb content (sn_content_sha256 s))
       | Err _ => mkIntegrity regular false false
       end).

Record RuntimeCanarySnapshots : Type := mkSnapshots {
  ss_credential : RegularFileSnapshot;
  ss_main_home : RegularFileSnapshot;
  ss_codex_home : RegularFileSnapshot;
  ss_final_output : RegularFileSnapshot;
  ss_workspace : RegularFileSnapshot
}.

Record RuntimeCanaryIntegrityEvidence : Type := mkIntegrityEvidence {
  ie_credential : FileIntegrityEvidence;
  ie_main_home : FileIntegrityEvidence;
  ie_codex_home : FileIntegrityEvidence;
  ie_final_output : FileIntegrityEvidence;
  ie_workspace : FileIntegrityEvidence
}.

(** [RuntimeCanarySnapshots::capture]. *)
Definition capture_snapshots (credential : path) (fixtures : RuntimeCanaryFixturePaths) : fsprog RuntimeCanarySnapshots :=
  let*? credential := capture_snapshot credential AUTH_MAX_BYTES None in
  let*? main_home := capture_snapshot (fp_main_home fixtures) RUNTIME_CANARY_FIXTURE_MAX_BYTES (Some 384) in
  let*? codex_home := capture_snapshot (fp_codex_home fixtures) RUNTIME_CANARY_FIXTURE_MAX_BYTES (Some 384) in
  let*? final_output := capture_snapshot (fp_final_output fixtures) RUNTIME_CANARY_FIXTURE_MAX_BYTES (Some 384) in
  let*? workspace := capture_snapshot (fp_workspace fixtures) RUNTIME_CANARY_FIXTURE_MAX_BYTES None in
  Ret (Ok (mkSnapshots credential main_home codex_home final_output workspace)).

(** [RuntimeCanarySnapshots::verify_after]. *)
Definition verify_snapshots (s : RuntimeCanarySnapshots) : prog fs_answer RuntimeCanaryIntegrityEvidence :=
  let* credential := verify_after (ss_credential s) in
  let* main_home := verify_after (ss_main_home s) in
  let* codex_home := verify_after (ss_codex_home s) in
  let* final_output := verify_after (ss_final_output s) in
  let* workspace := verify_after (ss_workspace s) in
  Ret (mkIntegrityEvidence credential main_home codex_home final_output workspace).
End snapshots.

(** *** The run *)

Definition terminate_child : prog rt_answer unit :=
  let* _ := (perform KillCodex : prog rt_answer unit) in
  let* _ := (perform WaitCodex : prog rt_answer (result N exit_status)) in
  Ret tt.

(** A step of the child's exchange; when it fails, the child is killed and reaped. *)
Definition or_terminate {A B} (p : rtprog A) (k : A -> rtprog B) : rtprog B :=
  let* r := p in
  match r with
  | Ok a => k a
  | Err error => let* _ := terminate_child in Ret (Err error)
  end.

Definition read_events : rtprog bytes :=
  let*? jsonl := system (perform (ReadStdout (CODEX_EXEC_CANARY_JSONL_MAX_BYTES + 1))) in
  let*? _ := failed_if (CODEX_EXEC_CANARY_JSONL_MAX_BYTES <? len jsonl) (lit "fixed Codex runtime canary JSONL is too large") in
  Ret (Ok jsonl).

Definition verify_runtime_canary_final_output (output : bytes) (expected_line : str) : result FsError unit :=
  let expected := as_bytes expected_line in
  fail_if (negb (str_eqb output expected)
           && negb ((len output =? len expected + 1) && starts_with expected output && bool_decide (last output = Some 10)))
    (Bail (lit "final Codex canary message does not match its fixture binding")).

Section canary.
Context `{Sha256} `{JsonText} `{JsonPrint}.

Definition run_runtime_canary_codex (c : command) (output_path : path) (prompt nonce : str) (inputs : RuntimeCanaryFixtureInputs)
  : rtprog RuntimeCanaryReport :=
  let*? _ := files (require_no_output output_path) in
  let*? _ := system (perform (SpawnCodex c)) in
  or_terminate (system (perform (WriteStdin (as_bytes prompt)))) (fun _ =>
  or_terminate read_events (fun jsonl =>
  let*? status := system (perform WaitCodex) in
  let*? _ := failed_if (negb (status_success status)) (lit "fixed Codex runtime canary failed") in
  let*? report := of_canary (parse_runtime_canary_exec_jsonl jsonl nonce inputs) in
  let*? final_output := files (read_final_output output_path) in
  let*? _ := Ret (verify_runtime_canary_final_output final_output (rr_final_line report)) in
  Ret (Ok report))).

Definition runtime_evidence (nonce binding : str) (report : RuntimeCanaryReport) (main_pid : N) (secret : str)
    (e : RuntimeCanaryIntegrityEvidence) : RuntimeCanaryRuntimeEvidence :=
  mkRuntimeEvidence nonce binding report main_pid secret
    true (regular_file_after (ie_credential e)) (identity_unchanged (ie_credential e)) (contents_unchanged (ie_credential e))
    true (regular_file_after (ie_main_home e)) (identity_unchanged (ie_main_home e)) (contents_unchanged (ie_main_home e))
    true (regular_file_after (ie_codex_home e)) (identity_unchanged (ie_codex_home e)) (contents_unchanged (ie_codex_home e))
    true (regular_file_after (ie_final_output e)) (identity_unchanged (ie_final_output e)) (contents_unchanged (ie_final_output e))
    true (regular_file_after (ie_workspace e)) (identity_unchanged (ie_workspace e)) (contents_unchanged (ie_workspace e)).

(** What happens from the fixtures on, once the process is hardened. *)
Definition probe_runtime (cli : ValidatedRuntimeCanaryCli) (credential : path) : rtprog unit :=
  let*? secret := create_runtime_canary_descriptor_secret in
  let* main_pid := (perform (Fs ProcessId) : prog rt_answer N) in
  let inputs := mkFixtureInputs main_pid (ds_sha256 secret) (vc_forbidden_tcp cli) (vc_bot_tcp cli) (vc_host_unix cli)
                  (vc_host_protected_path cli) in
  let*? rendered := of_canary (render_runtime_canary_exec (vc_nonce cli) inputs) in
  let*? fixture_paths := create_runtime_canary_fixtures (vc_nonce cli) in
  let*? snapshots := files (capture_snapshots credential fixture_paths) in
  let*? report := run_runtime_canary_codex (codex_command runtime_canary_codex_args) FINAL_OUTPUT_PATH (prompt rendered) (vc_nonce cli)
                    inputs in
  let* integrity := (embed (verify_snapshots snapshots) : prog rt_answer RuntimeCanaryIntegrityEvidence) in
  let*? _ := verify_descriptor_secret_is_held secret in
  let evidence := runtime_evidence (vc_nonce cli) (fixture_binding rendered) report main_pid (ds_sha256 secret) integrity in
  let*? _ := of_canary (validate_runtime_evidence evidence (vc_nonce cli) (fixture_binding rendered) inputs) in
  let*? output := of_canary (evidence_to_json_line evidence) in
  write_stdout output.

Definition run_runtime_canary (cli : RuntimeCanaryCli) : rtprog unit :=
  let*? cli := Ret (validate_runtime_canary_cli cli) in
  let*? _ := prepare_private_directories in
  let*? credential := credential_path in
  let*? expected_credential := of_canary (runtime_canary_credential_path (vc_nonce cli)) in
  let*? _ := failed_if (negb (bool_decide (components credential = components (as_bytes expected_credential))))
               (lit "systemd credential path does not match the runtime canary nonce") in
  let*? _ := install_run_credential credential in
  let*? _ := harden_process in
  let*? _ := close_nonstandard_descriptors in
  probe_runtime cli credential.

(** ** The program *)

(** Without a usable command line clap ends the process. *)
Definition main `{CommandLine} (arguments : list bytes) : rtprog unit :=
  if any (fun argument => str_eqb argument (lit "--runtime-canary")) arguments then
    match parse_canary_cli arguments with
    | Some cli => run_runtime_canary cli
    | None => failed (lit "usage")
    end
  else
    match parse_cli arguments with
    | Some cli => run_normal_runtime cli
    | None => failed (lit "usage")
    end.
End canary.
