(* ===== verification/CodexRuntimeRules.v ===== *)
(** * What the runtime wrapper guarantees

    Codex is started at most once, by a hardened process without inherited descriptors, with
    the fixed command and the credential installed; what the wrapper prints is the final
    message of that run, or, as a canary, evidence that the run left the watched files alone. *)

From S2P Require Import Prelude Effects Text Digest Paths Net HostFiles Webex Runner.
From S2P Require Import WorkBudget LauncherProtocol Serde JsonCompact CanaryProtocol CanaryRules CanaryExec CanaryExecRules.
From S2P Require Import IsolatedPlan Descriptors DescriptorRules HostPaths HostPathRules ActivationRules RebootChallenge RebootChallengeRules CodexRuntime.

Local Open Scope N_scope.

Abbreviation rt_event := (Effects.event rt_answer) (only parsing).

(** ** Runs of parts *)

Lemma exec_system_ok {A} (p : prog rt_answer (result N A)) env h h' a :
  exec env h (system p) = (h', Ok a) -> exec env h p = (h', Ok a).
Proof. unfold system. rewrite exec_bind. destruct (exec env h p) as [h1 [x|e]]; cbn; congruence. Qed.

Lemma exec_failed_if env h h' b message : exec env h (failed_if b message) = (h', Ok tt) -> h' = h /\ b = false.
Proof. unfold failed_if. cbn. intros [= -> Hb]. split; [done|]. by destruct b. Qed.

Lemma exec_of_canary {A} env h h' (r : result CanaryError A) a : exec env h (of_canary r) = (h', Ok a) -> h' = h /\ r = Ok a.
Proof. unfold of_canary. cbn. intros [= -> Hr]. split; [done|]. by destruct r; [injection Hr as ->|]. Qed.

Lemma exec_files {A} (p : fsprog A) env h h' r :
  exec env h (files p) = (h', r) -> extends h h' /\ exists env', exec env' (seen h) p = (seen h', r).
Proof. intros [Hx He]%exec_embed. split; [done|]. by eexists. Qed.

Lemma exec_failed_not {A} env h h' message a : exec env h (failed message : rtprog A) = (h', Ok a) -> False.
Proof. done. Qed.

(** One call through [system], whose answer is an [io::Result]. *)
Ltac rt_ok H := apply exec_system_ok in H; cbn in H; injection H as <- H; rewrite ?H.

(** The calls that start Codex or print. *)
Definition quiet_call (c : rt_call) : bool := match c with RunCodex _ | SpawnCodex _ | WriteOutput _ => false | _ => true end.

Definition launched (h : list rt_event) : list rt_event := List.filter (fun e => negb (quiet_call (ev_call e))) h.

Lemma launched_quiet {A} (p : prog rt_answer A) env h h' a :
  calls_only quiet_call p -> exec env h p = (h', a) -> extends h h' /\ launched h' = launched h.
Proof.
  intros Hp He. destruct (exec_calls_only _ _ _ _ _ _ Hp He) as (t & -> & Ht). split; [by exists t|].
  unfold launched. rewrite List.filter_app. replace (List.filter _ t) with (@nil rt_event); [done|].
  symmetry. clear He. induction t as [|e t IH]; [done|]. cbn. rewrite Ht by left. cbn. apply IH. intros e' He'. apply Ht. by right.
Qed.

Lemma files_quiet {A} (p : fsprog A) : calls_only quiet_call (files p).
Proof. by apply calls_only_embed. Qed.

Lemma embed_quiet {A} (p : prog fs_answer A) : calls_only quiet_call (embed p : prog rt_answer A).
Proof. by apply calls_only_embed. Qed.

Lemma system_quiet {A} (p : prog rt_answer (result N A)) : calls_only quiet_call p -> calls_only quiet_call (system p).
Proof. intros Hp. apply calls_only_bind; [done|]. intros r. apply calls_only_ret. Qed.

#[export] Hint Resolve files_quiet embed_quiet : calls_only.
#[export] Hint Extern 2 (calls_only quiet_call (system (perform _))) => apply system_quiet; calls_only_call : calls_only.
#[export] Hint Extern 2 (calls_only quiet_call (failed_if _ _)) => apply calls_only_ret : calls_only.
#[export] Hint Extern 2 (calls_only quiet_call (failed _)) => apply calls_only_ret : calls_only.
#[export] Hint Extern 2 (calls_only quiet_call (of_canary _)) => apply calls_only_ret : calls_only.

Lemma make_directories_quiet paths : calls_only quiet_call (make_directories paths).
Proof. induction paths as [|p paths IH]; cbn [make_directories]; calls_only. Qed.

Lemma credential_path_quiet : calls_only quiet_call credential_path.
Proof. unfold credential_path. calls_only. Qed.

Lemma install_quiet `{JsonText} source : calls_only quiet_call (install_run_credential source).
Proof. unfold install_run_credential. calls_only. Qed.

Lemma harden_quiet : calls_only quiet_call harden_process.
Proof. unfold harden_process. calls_only. Qed.

Lemma close_quiet : calls_only quiet_call close_nonstandard_descriptors.
Proof. unfold close_nonstandard_descriptors. calls_only. Qed.

Lemma held_quiet secret : calls_only quiet_call (verify_descriptor_secret_is_held secret).
Proof. unfold verify_descriptor_secret_is_held. calls_only. Qed.

Lemma secret_quiet `{Sha256} : calls_only quiet_call create_runtime_canary_descriptor_secret.
Proof.
  unfold create_runtime_canary_descriptor_secret. apply calls_only_bind; [exact (calls_only_perform quiet_call (Fs RandomBytes) eq_refl)|].
  intros [data|]; [|calls_only].
  repeat (apply calls_only_bind_ok; [auto with calls_only|]; intros ?); [apply held_quiet|apply calls_only_ret].
Qed.

Lemma fixtures_quiet `{Sha256} nonce : calls_only quiet_call (create_runtime_canary_fixtures nonce).
Proof. unfold create_runtime_canary_fixtures. calls_only. Qed.

#[export] Hint Resolve make_directories_quiet credential_path_quiet install_quiet harden_quiet close_quiet held_quiet secret_quiet
  fixtures_quiet : calls_only.

Lemma exec_file_ok {A} (p : prog fs_answer (result N A)) env h h' a :
  exec env h (files (os p)) = (h', Ok a) -> exec env h (embed p) = (h', Ok a).
Proof. unfold files, os. rewrite exec_embed_bind. destruct (exec env h (embed p)) as [h1 [x|e]]; cbn; congruence. Qed.

(** The answer of a single call, everywhere. *)
Ltac answered_ok H :=
  cbn in H; injection H as <- H;
  lazymatch type of H with
  | ?answer = _ =>
      repeat match goal with
      | H' : context [answer] |- _ => lazymatch H' with H => fail | _ => rewrite H in H' end
      end
  end; rewrite ?H.

Ltac system_ok H := apply exec_system_ok in H; answered_ok H.
Ltac file_ok H := apply exec_file_ok in H; answered_ok H.

(** ** Before Codex starts *)

(** The process cannot be dumped or gain privileges, its files are private, and it holds no
    inherited descriptor. *)
Definition hardened (h : list rt_event) : Prop :=
  (Ev DisableDumping (Ok tt) : rt_event) ∈ h /\ (Ev NoNewPrivileges (Ok tt) : rt_event) ∈ h
  /\ (Ev (SetUmask 63) tt : rt_event) ∈ h /\ (Ev (CloseDescriptorsFrom 3) (Ok tt) : rt_event) ∈ h.

(** A JSON object was read from a credential file and written into the private home. *)
Definition credential_installed `{JsonText} (h : list rt_event) : Prop :=
  exists source contents f g,
    (Ev (Fs (OpenPath source FileNoFollow)) (Ok f) : rt_event) ∈ h /\ (Ev (Fs (ReadToEnd f)) (Ok contents) : rt_event) ∈ h
    /\ credential_object contents = Ok tt
    /\ (Ev (Fs (CreatePath (components auth_path) 384)) (Ok g) : rt_event) ∈ h /\ (Ev (Fs (WriteAll g contents)) (Ok tt) : rt_event) ∈ h
    /\ (Ev (Fs (Fsync g)) (Ok tt) : rt_event) ∈ h.

Definition ready `{JsonText} (h : list rt_event) : Prop := hardened h /\ credential_installed h /\ launched h = [].

Lemma hardened_later h h' : extends h h' -> hardened h -> hardened h'.
Proof. intros Hx (? & ? & ? & ?). split_and!; by eapply extends_in. Qed.

Lemma installed_later `{JsonText} h h' : extends h h' -> credential_installed h -> credential_installed h'.
Proof.
  intros Hx (source & contents & f & g & ? & ? & ? & ? & ? & ?). exists source, contents, f, g. split_and!; try done; by eapply extends_in.
Qed.

Lemma install_ok `{JsonText} env h h' source :
  exec env h (install_run_credential source) = (h', Ok tt) -> credential_installed h'.
Proof.
  unfold install_run_credential. intros (h1 & f & H1 & Hk)%exec_bind_ok. file_ok H1.
  apply exec_bind_ok in Hk as (h2 & m & H2 & Hk). unfold stat_fd in H2. file_ok H2.
  apply exec_bind_ok in Hk as (h3 & [] & [-> _]%exec_failed_if & Hk). apply exec_bind_ok in Hk as (h4 & contents & H4 & Hk). file_ok H4.
  apply exec_bind_ok in Hk as (h5 & [] & Hc & Hk). cbn in Hc. injection Hc as <- Hc.
  apply exec_bind_ok in Hk as (h6 & g & H6 & Hk). file_ok H6. apply exec_bind_ok in Hk as (h7 & [] & H7 & Hk). file_ok H7.
  apply exec_bind_ok in Hk as (h8 & [] & H8 & Hk). unfold sync_checked in H8. file_ok H8. system_ok Hk.
  exists (components source), contents, f, g. split_and!; try done; repeat first [left|right]; done.
Qed.

Lemma harden_close_ok env h h1 h' :
  exec env h harden_process = (h1, Ok tt) -> exec env h1 close_nonstandard_descriptors = (h', Ok tt) -> hardened h'.
Proof.
  unfold harden_process, close_nonstandard_descriptors. intros (g1 & [] & H1 & Hk)%exec_bind_ok. system_ok H1.
  apply exec_bind_ok in Hk as (g2 & [] & H2 & Hk). system_ok H2. cbn in Hk. injection Hk as <-. intros H3. system_ok H3.
  destruct (env _ (SetUmask 63)). split_and!; repeat first [by left|right].
Qed.

(** ** The final message *)

(** A private file at the path was opened and read to its end, during the part [t] of a run. *)
Definition final_read (p : path) (t : list ev) (data : bytes) : Prop :=
  exists f m, (Ev (OpenPath (components p) FileNoFollow) (Ok f) : ev) ∈ t /\ (Ev (Fstat f) (Ok m) : ev) ∈ t
    /\ (Ev (ReadToEnd f) (Ok data) : ev) ∈ t
    /\ is_regular m = true /\ st_links m = 1 /\ N.land (st_mode m) 511 = 384
    /\ 0 < len data /\ len data <= FINAL_OUTPUT_MAX_BYTES /\ is_Some (from_utf8 data).

Lemma same_metadata_len m m' : same_final_output_metadata m m' = true -> file_len m = file_len m'.
Proof. unfold same_final_output_metadata. intros H. repeat (apply andb_true_iff in H as [H ?]). by apply N.eqb_eq. Qed.

Lemma final_output_ok env h h' p data :
  exec env h (read_final_output p) = (h', Ok data) -> exists t, h' = t ++ h /\ final_read p t data.
Proof.
  unfold read_final_output, open_path, stat_fd. intros (h1 & f & H1 & Hk)%exec_bind_ok. prim_ok H1.
  apply exec_bind_ok in Hk as (h2 & m & H2 & Hk). prim_ok H2.
  apply exec_bind_ok in Hk as (h3 & [] & [-> [Hr%negb_false_iff Hl%negb_false_iff%N.eqb_eq]%orb_false_iff]%exec_bail_if & Hk).
  rewrite exec_bind in Hk. cbn [exec perform fst snd] in Hk.
  apply exec_bind_ok in Hk as (h4 & [] & [-> Hm]%exec_bail_if & Hk). apply orb_false_iff in Hm as [[[_ Hm]%orb_false_iff H0]%orb_false_iff _].
  apply negb_false_iff, N.eqb_eq in Hm. apply N.eqb_neq in H0.
  apply exec_bind_ok in Hk as (h5 & all & H5 & Hk). prim_ok H5.
  apply exec_bind_ok in Hk as (h6 & [] & [-> Hx%N.ltb_ge]%exec_bail_if & Hk). pose proof (take_short _ _ Hx) as Et. rewrite Et in Hk, Hx.
  apply exec_bind_ok in Hk as (h7 & m' & H7 & Hk). prim_ok H7.
  apply exec_bind_ok in Hk as (h8 & [] & [-> [Hs%negb_false_iff%same_metadata_len He%negb_false_iff%N.eqb_eq]%orb_false_iff]%exec_bail_if & Hk).
  apply exec_bind_ok in Hk as (h9 & s & Hu & Hk). cbn in Hu. injection Hu as <- Hu. cbn in Hk. injection Hk as <- <-.
  eexists [_; _; _; _; _]. split; [reflexivity|]. exists f, m.
  assert (is_Some (from_utf8 all)) as Ht by (destruct (from_utf8 all); [by eexists|done]).
  split_and!; try done; [|by repeat first [left|right]..|lia]. by do 4 right; left.
Qed.

Lemma require_no_output_ok env h h' p :
  exec env h (require_no_output p) = (h', Ok tt) -> h' = Ev (Lstat (components p)) (Err ENOENT) :: h.
Proof. unfold require_no_output. intros (h1 & [m|] & H1%lstat_existing_ok & Hk)%exec_bind_ok; [done|]. by injection Hk as <-. Qed.

(** ** What is started and printed *)

Definition canary_command : command := codex_command runtime_canary_codex_args.

(** The final message of the one run, of a path that was free before it. *)
Definition message_of_run (h : list rt_event) (data : bytes) : Prop :=
  exists c before t, launched h = [Ev (RunCodex c) (Ok (Code 0))] /\ h = t ++ Ev (RunCodex c) (Ok (Code 0)) :: before
    /\ (Ev (Lstat (components FINAL_OUTPUT_PATH)) (Err ENOENT) : ev) ∈ seen before /\ final_read FINAL_OUTPUT_PATH (seen t) data.

(** Evidence of a canary that passed, after its one run. *)
Definition evidence_of_canary `{Sha256} `{JsonPrint} (h : list rt_event) (line : bytes) : Prop :=
  launched h = [Ev (SpawnCodex canary_command) (Ok tt)]
  /\ exists nonce inputs binding, runtime_canary_fixture_binding nonce inputs = Ok binding
       /\ evidence_to_json_line (successful_evidence nonce binding inputs) = Ok line.

Section confinement.
Context {sha : Sha256} {text : JsonText} {print : JsonPrint}.

Definition confined_call (h : list rt_event) (c : rt_call) : Prop :=
  match c with
  | RunCodex c => ready h /\ exists cli, cli_checked cli /\ c = codex_command (codex_args cli)
  | SpawnCodex c => ready h /\ c = canary_command
  | WriteOutput data => message_of_run h data \/ evidence_of_canary h data
  | _ => True
  end.

Lemma quiet_confined h c : quiet_call c = true -> confined_call h c.
Proof. by destruct c. Qed.

(** A part that starts and prints nothing. *)
Lemma guarded_quiet {A B} env h (p : rtprog A) (k : A -> rtprog B) :
  calls_only quiet_call p -> guarded confined_call h ->
  (forall h1 a, exec env h p = (h1, Ok a) -> extends h h1 -> launched h1 = launched h -> guarded confined_call h1 ->
     guarded confined_call (exec env h1 (k a)).1) ->
  guarded confined_call (exec env h (bind_ok p k)).1.
Proof.
  intros Hp Hh Hk. apply guarded_bind_ok; [by eapply guarded_calls_only; [apply quiet_confined|..]|].
  intros h1 a He Hg. destruct (launched_quiet _ _ _ _ _ Hp He) as [Hx Hl]. by apply Hk.
Qed.

Lemma guarded_stdout env h data :
  guarded confined_call h -> confined_call h (WriteOutput data) -> guarded confined_call (exec env h (write_stdout data)).1.
Proof.
  intros Hh Hw. unfold write_stdout. apply guarded_bind_ok; [by split|]. intros h1 [] He Hg. by split.
Qed.

(** The common beginning: directories, credential, hardening. *)
Lemma guarded_prepared {B} env h (source : rtprog path) (k : path -> rtprog B) :
  calls_only quiet_call source -> guarded confined_call h -> launched h = [] ->
  (forall h1 p, ready h1 -> guarded confined_call h1 -> guarded confined_call (exec env h1 (k p)).1) ->
  guarded confined_call (exec env h (bind_ok source (fun p => bind_ok (install_run_credential p) (fun _ =>
    bind_ok harden_process (fun _ => bind_ok close_nonstandard_descriptors (fun _ => k p)))))).1.
Proof.
  intros Hs Hh Hl Hk. apply guarded_quiet; [done|done|]. intros h1 p _ _ L1 G1.
  apply guarded_quiet; [apply install_quiet|done|]. intros h2 [] I2%install_ok _ L2 G2.
  apply guarded_quiet; [apply harden_quiet|done|]. intros h3 [] E3 X3 L3 G3.
  apply guarded_quiet; [apply close_quiet|done|]. intros h4 [] E4 X4 L4 G4.
  apply Hk; [|done]. split; [by eapply harden_close_ok|]. split; [eapply installed_later; [|exact I2]; by eapply extends_trans|congruence].
Qed.

Lemma run_codex_confined env h cli :
  cli_checked cli -> ready h -> guarded confined_call h ->
  guarded confined_call (exec env h (bind_ok (run_codex (codex_command (codex_args cli)) FINAL_OUTPUT_PATH) write_stdout)).1.
Proof.
  intros Hc Hr Hh. unfold run_codex.
  rewrite exec_bind_ok_assoc. apply guarded_quiet; [apply files_quiet|done|]. intros h1 [] E1 X1 L1 G1.
  apply exec_files in E1 as [_ (env1 & E1%require_no_output_ok)].
  rewrite exec_bind_ok_assoc. apply guarded_bind_ok.
  { split; [|done]. split; [|by exists cli]. destruct Hr as (Hr1 & Hr2 & Hr3). split; [by eapply hardened_later|].
    split; [by eapply installed_later|congruence]. }
  intros h2 status E2 G2. system_ok E2. rewrite exec_bind_ok_assoc. apply guarded_quiet; [auto with calls_only|done|].
  intros h3 [] [-> Hst%negb_false_iff%bool_decide_eq_true]%exec_failed_if _ _ _. subst status.
  apply guarded_bind_ok; [eapply guarded_calls_only; [apply quiet_confined|apply files_quiet|done]|].
  intros h4 data E4 G4. apply guarded_stdout; [done|]. left.
  destruct (launched_quiet _ _ _ _ _ (files_quiet _) E4) as [(t & ->) L4]. apply exec_files in E4 as [_ (env4 & E4%final_output_ok)].
  destruct E4 as (t' & Et & Hf). exists (codex_command (codex_args cli)), h1, t. split.
  - rewrite L4. unfold launched at 1. cbn [List.filter ev_call quiet_call negb]. change (List.filter _ h1) with (launched h1).
    f_equal. destruct Hr as (_ & _ & Hr). congruence.
  - split; [done|]. split; [rewrite E1; left|]. unfold seen in Et. rewrite omap_app in Et. apply app_inv_tail in Et. unfold seen. by rewrite Et.
Qed.

(** *** The canary's run *)

Definition JSONL_READ : rt_call := ReadStdout (CODEX_EXEC_CANARY_JSONL_MAX_BYTES + 1).

(** Codex was started after [before], given the prompt, and ended well at [ended]; its events
    carry the report, and its final message the line of the report. *)
Definition canary_ran (c : command) (prompt nonce : str) (inputs : RuntimeCanaryFixtureInputs) (report : RuntimeCanaryReport)
    (before ended h : list rt_event) : Prop :=
  extends (Ev (SpawnCodex c) (Ok tt) :: before) ended /\ extends ended h
  /\ (Ev (WriteStdin (as_bytes prompt)) (Ok tt) : rt_event) ∈ ended
  /\ (exists jsonl, (Ev JSONL_READ (Ok jsonl) : rt_event) ∈ ended /\ parse_runtime_canary_exec_jsonl jsonl nonce inputs = Ok report)
  /\ (Ev WaitCodex (Ok (Code 0)) : rt_event) ∈ ended
  /\ exists output t, h = t ++ ended /\ final_read FINAL_OUTPUT_PATH (seen t) output
       /\ verify_runtime_canary_final_output output (rr_final_line report) = Ok tt.

Lemma or_terminate_quiet {A B} (p : rtprog A) (k : A -> rtprog B) :
  calls_only quiet_call p -> (forall a, calls_only quiet_call (k a)) -> calls_only quiet_call (or_terminate p k).
Proof.
  intros Hp Hk. apply calls_only_bind; [done|]. intros [a|e]; [apply Hk|]. unfold terminate_child. calls_only.
Qed.

Lemma or_terminate_ok {A B} (p : rtprog A) (k : A -> rtprog B) env h h' b :
  exec env h (or_terminate p k) = (h', Ok b) -> exists h1 a, exec env h p = (h1, Ok a) /\ exec env h1 (k a) = (h', Ok b).
Proof.
  unfold or_terminate. rewrite exec_bind. destruct (exec env h p) as [h1 [a|e]]; cbn; [by eauto|]. by destruct (env _ _).
Qed.

Lemma read_events_ok env h h' jsonl : exec env h read_events = (h', Ok jsonl) -> h' = Ev JSONL_READ (Ok jsonl) :: h.
Proof.
  unfold read_events. intros (h1 & data & H1 & Hk)%exec_bind_ok. system_ok H1.
  apply exec_bind_ok in Hk as (h2 & [] & [-> _]%exec_failed_if & Hk). cbn in Hk. by injection Hk as <- <-.
Qed.

Lemma read_events_quiet : calls_only quiet_call read_events.
Proof. unfold read_events. calls_only. Qed.

(** What follows the start of Codex. *)
Definition after_spawn (prompt nonce : str) (inputs : RuntimeCanaryFixtureInputs) : rtprog RuntimeCanaryReport :=
  or_terminate (system (perform (WriteStdin (as_bytes prompt)))) (fun _ =>
  or_terminate read_events (fun jsonl =>
  let*? status := system (perform WaitCodex) in
  let*? _ := failed_if (negb (status_success status)) (lit "fixed Codex runtime canary failed") in
  let*? report := of_canary (parse_runtime_canary_exec_jsonl jsonl nonce inputs) in
  let*? final_output := files (read_final_output FINAL_OUTPUT_PATH) in
  let*? _ := Ret (verify_runtime_canary_final_output final_output (rr_final_line report)) in
  Ret (Ok report))).

Lemma after_spawn_quiet prompt nonce inputs : calls_only quiet_call (after_spawn prompt nonce inputs).
Proof.
  apply or_terminate_quiet; [auto with calls_only|]. intros _. apply or_terminate_quiet; [apply read_events_quiet|]. intros jsonl. calls_only.
Qed.

Lemma after_spawn_ok c prompt nonce inputs env before h' report :
  exec env (Ev (SpawnCodex c) (Ok tt) :: before) (after_spawn prompt nonce inputs) = (h', Ok report) ->
  exists ended, canary_ran c prompt nonce inputs report before ended h'.
Proof.
  intros (h1 & [] & H1 & (h2 & jsonl & ->%read_events_ok & Hk)%or_terminate_ok)%or_terminate_ok. system_ok H1.
  apply exec_bind_ok in Hk as (h3 & status & H3 & Hk). system_ok H3.
  apply exec_bind_ok in Hk as (h4 & [] & [-> Hst%negb_false_iff%bool_decide_eq_true]%exec_failed_if & Hk). subst status.
  apply exec_bind_ok in Hk as (h5 & r & [-> Hp]%exec_of_canary & Hk).
  apply exec_bind_ok in Hk as (h6 & output & [Hx (env' & (t' & Et & Hf)%final_output_ok)]%exec_files & Hk).
  apply exec_bind_ok in Hk as (h7 & [] & Hv & Hk). cbn in Hv, Hk. injection Hv as <- Hv. injection Hk as <- <-.
  eexists. split; [|split; [exact Hx|]]; [by do 3 apply extends_cons; apply extends_refl|].
  split; [by do 2 right; left|]. split; [exists jsonl; split; [by right; left|done]|]. split; [left|].
  destruct Hx as (t & ->). exists output, t. split; [done|]. split; [|done].
  unfold seen in Et. rewrite omap_app in Et. apply app_inv_tail in Et. unfold seen. by rewrite Et.
Qed.

(** A ready process may be started from; starting it makes it the only run. *)
Lemma ready_later h h' : extends h h' -> launched h' = launched h -> ready h -> ready h'.
Proof.
  intros Hx Hl (Hr1 & Hr2 & Hr3). split; [by eapply hardened_later|]. split; [by eapply installed_later|congruence].
Qed.

Lemma canary_codex_guarded env h prompt nonce inputs :
  ready h -> guarded confined_call h ->
  guarded confined_call (exec env h (run_runtime_canary_codex canary_command FINAL_OUTPUT_PATH prompt nonce inputs)).1.
Proof.
  intros Hr Hh. apply guarded_quiet; [apply files_quiet|done|]. intros h1 [] E1 X1 L1 G1.
  apply guarded_bind_ok; [split; [|done]; by split; [by eapply ready_later|]|]. intros h2 [] E2 G2.
  eapply guarded_calls_only; [apply quiet_confined|apply (after_spawn_quiet prompt nonce inputs)|done].
Qed.

Lemma canary_codex_ok env h prompt nonce inputs h' report :
  exec env h (run_runtime_canary_codex canary_command FINAL_OUTPUT_PATH prompt nonce inputs) = (h', Ok report) ->
  launched h' = Ev (SpawnCodex canary_command) (Ok tt) :: launched h
  /\ exists before ended, extends h before /\ launched before = launched h
       /\ canary_ran canary_command prompt nonce inputs report before ended h'.
Proof.
  intros (h1 & [] & E1 & (h2 & [] & E2 & Hk)%exec_bind_ok)%exec_bind_ok.
  destruct (launched_quiet _ _ _ _ _ (files_quiet _) E1) as [X1 L1]. system_ok E2.
  destruct (launched_quiet _ _ _ _ _ (after_spawn_quiet prompt nonce inputs) Hk) as [_ L2]. rewrite L2. split.
  - unfold launched at 1. cbn [List.filter ev_call quiet_call negb]. by rewrite <-L1.
  - apply after_spawn_ok in Hk as (ended & Hk). by exists h1, ended.
Qed.

Lemma probe_runtime_guarded env h cli credential :
  ready h -> guarded confined_call h -> guarded confined_call (exec env h (probe_runtime cli credential)).1.
Proof.
  intros Hr Hh. unfold probe_runtime. apply guarded_quiet; [auto with calls_only|done|]. intros h1 secret _ X1 L1 G1.
  apply guarded_bind; [by split|]. intros h2 pid E2 G2. cbn in E2. injection E2 as <- _.
  apply guarded_quiet; [auto with calls_only|done|]. intros h3 rendered [-> Hrn]%exec_of_canary _ _ _.
  apply guarded_quiet; [auto with calls_only|done|]. intros h4 paths _ X4 L4 G4.
  apply guarded_quiet; [apply files_quiet|done|]. intros h5 snapshots _ X5 L5 G5.
  assert (ready h5) as R5.
  { eapply ready_later; [| |exact Hr].
    - eapply extends_trans; [exact X1|]. eapply extends_trans; [|exact X5]. eapply extends_trans; [|exact X4]. apply extends_cons, extends_refl.
    - rewrite L5, L4. exact L1. }
  apply guarded_bind_ok; [by apply canary_codex_guarded|]. intros h6 report [L6 _]%canary_codex_ok G6.
  apply guarded_bind; [eapply guarded_calls_only; [apply quiet_confined|apply embed_quiet|done]|]. intros h7 integrity E7 G7.
  destruct (launched_quiet _ _ _ _ _ (embed_quiet _) E7) as [_ L7].
  apply guarded_quiet; [auto with calls_only|done|]. intros h8 [] _ _ L8 G8.
  apply guarded_quiet; [auto with calls_only|done|]. intros h9 [] [-> [Hb He]%runtime_evidence_valid]%exec_of_canary _ _ _.
  apply guarded_quiet; [auto with calls_only|done|]. intros h10 line [-> Hline]%exec_of_canary _ _ _.
  apply guarded_stdout; [done|]. right. split; [rewrite L8, L7, L6; by destruct R5 as (_ & _ & ->)|]. rewrite He in Hline. eauto 10.
Qed.

(** C32: Codex only runs confined. Whatever the host answers, the wrapper starts at most one
    Codex, from a process that has made itself undumpable, given up new privileges, masked its
    files and closed every inherited descriptor, after the credential was read, checked and
    installed; the command is the fixed one for the allowed model and workspace. What it prints
    is the private final message of that run, which did not exist before it, or evidence that
    passes for a canary. *)
Theorem codex_runs_confined `{CommandLineLaws} env arguments :
  guarded confined_call (exec env [] (main arguments)).1.
Proof.
  unfold main. destruct (any _ _).
  - destruct (parse_canary_cli arguments) as [cli|] eqn:Ep; [|done]. unfold run_runtime_canary.
    apply guarded_quiet; [apply calls_only_ret|done|]. intros h1 v E1 _ L1 G1. cbn in E1. injection E1 as <- _.
    apply guarded_quiet; [unfold prepare_private_directories; auto with calls_only|done|]. intros h2 [] _ _ L2 G2.
    apply guarded_quiet; [auto with calls_only|done|]. intros h3 credential _ _ L3 G3.
    apply guarded_quiet; [auto with calls_only|done|]. intros h4 expected [-> _]%exec_of_canary _ _ _.
    apply guarded_quiet; [auto with calls_only|done|]. intros h5 [] [-> _]%exec_failed_if _ _ _.
    apply (guarded_prepared env h3 (Ret (Ok credential)) (fun p => probe_runtime v p)); [apply calls_only_ret|done|by rewrite L3, L2|].
    intros h4 p Hr Hg. by apply probe_runtime_guarded.
  - destruct (parse_cli arguments) as [cli|] eqn:Ep; [|done]. apply parse_cli_checked in Ep. unfold run_normal_runtime.
    apply guarded_quiet; [unfold prepare_private_directories; auto with calls_only|done|]. intros h1 [] _ _ L1 G1.
    apply (guarded_prepared env h1 credential_path
             (fun _ => bind_ok (run_codex (codex_command (codex_args cli)) FINAL_OUTPUT_PATH) write_stdout)); [auto with calls_only|done|done|].
    intros h2 p Hr Hg. by apply run_codex_confined.
Qed.
End confinement.

(** ** What the canary's evidence says *)

(** After [h0] the file at the path was opened, [data] was read from it, and then the path
    still named it; all along its identity was [i]. *)
Definition held_still (h0 h : list ev) (p : list Component) (i : RegularFileIdentity) (data : bytes) : Prop :=
  exists f h1 h2 h3 m m',
    extends h0 h1 /\ extends (Ev (OpenPath p FileNoFollow) (Ok f) :: h1) h2 /\ received f h2 = data
    /\ (Ev (Fstat f) (Ok m) : ev) ∈ h2 /\ regular_identity m = i
    /\ extends h2 h3 /\ extends (Ev (Lstat p) (Ok m') :: h3) h /\ regular_identity m' = i.

Lemma held_later h0 h0' h h' p i data : extends h0' h0 -> extends h h' -> held_still h0 h p i data -> held_still h0' h' p i data.
Proof.
  intros X0 X (f & h1 & h2 & h3 & m & m' & H1 & H2 & H3 & H4 & H5 & H6 & H7 & H8). exists f, h1, h2, h3, m, m'.
  split_and!; try done; by eapply extends_trans.
Qed.

Section evidence.
Context {sha : Sha256} {text : JsonText} {print : JsonPrint}.

Lemma hash_bounded_ok env f size max h h' digest :
  exec env h (hash_bounded_file f size max) = (h', Ok digest) ->
  exists data, digest = sha256 data /\ extends h h' /\ received f h' = received f h ++ data.
Proof.
  unfold hash_bounded_file. intros (h1 & data & E1 & Hk)%exec_bind_ok. pose proof (exec_extends_to _ _ _ _ _ E1) as X1.
  apply read_to_limit_ok in E1 as (more & -> & [_ Ha]). apply exec_bind_ok in Hk as (h2 & [] & [-> _]%exec_bail_if & Hk).
  injection Hk as <- <-. exists more. split; [done|]. split; [done|]. rewrite (proj2 (Ha f)). unfold only. by rewrite bool_decide_eq_true_2.
Qed.

Lemma capture_state_ok env p max mode h h' i digest :
  exec env h (capture_regular_file_state p max mode) = (h', Ok (i, digest)) ->
  exists data, digest = sha256 data /\ held_still h h' (components p) i data.
Proof.
  unfold capture_regular_file_state, lstat, open_path, stat_fd. intros (h1 & m1 & H1 & Hk)%exec_bind_ok. prim_ok H1.
  apply exec_bind_ok in Hk as (h2 & [] & [-> _]%exec_bail_if & Hk). apply exec_bind_ok in Hk as (h3 & f & H3 & Hk). prim_ok H3.
  apply exec_bind_ok in Hk as (h4 & m4 & H4 & Hk). prim_ok H4. apply exec_bind_ok in Hk as (h5 & [] & [-> _]%exec_bail_if & Hk).
  apply exec_bind_ok in Hk as (h6 & d & H6 & Hk). apply hash_bounded_ok in H6 as (data & -> & X6 & R6).
  apply exec_bind_ok in Hk as (h7 & m7 & H7 & Hk). prim_ok H7. apply exec_bind_ok in Hk as (h8 & m8 & H8 & Hk). prim_ok H8.
  apply exec_bind_ok in Hk as (h9 & [] & [-> [_ Hp%negb_false_iff%bool_decide_eq_true]%orb_false_iff]%exec_bail_if & Hk).
  injection Hk as <- <- <-. exists data. split; [done|].
  rewrite (proj2 (look_same f (Ev (Fstat f) (Ok m4)) _ eq_refl)),
    (proj2 (opened_empty f (Ev (OpenPath (components p) FileNoFollow) (Ok f)) _ eq_refl)) in R6.
  exists f, (Ev (Lstat (components p)) (Ok m1) :: h), h6, (Ev (Fstat f) (Ok m7) :: h6), m4, m8.
  split; [apply extends_cons, extends_refl|]. split; [eapply extends_trans; [|exact X6]; apply extends_cons, extends_refl|].
  split; [exact R6|]. split; [eapply extends_in; [exact X6|left]|]. split; [done|].
  split; [apply extends_cons, extends_refl|]. split; [apply extends_refl|done].
Qed.

(** What a snapshot remembers of a part of a run. *)
Definition remembers (h0 h : list ev) (s : RegularFileSnapshot) : Prop :=
  exists data, held_still h0 h (components (sn_path s)) (sn_identity s) data /\ sn_content_sha256 s = sha256 data.

Lemma remembers_later h0 h0' h h' s : extends h0' h0 -> extends h h' -> remembers h0 h s -> remembers h0' h' s.
Proof. intros X0 X (data & Hd & He). exists data. split; [by eapply held_later|done]. Qed.

Lemma capture_snapshot_ok env p max mode h h' s :
  exec env h (capture_snapshot p max mode) = (h', Ok s) -> remembers h h' s /\ sn_path s = p /\ extends h h'.
Proof.
  unfold capture_snapshot. intros (h1 & [i d] & E1 & Hk)%exec_bind_ok. pose proof (exec_extends_to _ _ _ _ _ E1) as X1. injection Hk as <- <-.
  apply capture_state_ok in E1 as (data & -> & Hd). split; [by exists data|done].
Qed.

(** The paths of the snapshots are those of the files. *)
Definition snapshots_of (credential : path) (fixtures : RuntimeCanaryFixturePaths) (s : RuntimeCanarySnapshots) : list (path * RegularFileSnapshot) :=
  [(credential, ss_credential s); (fp_main_home fixtures, ss_main_home s); (fp_codex_home fixtures, ss_codex_home s);
   (fp_final_output fixtures, ss_final_output s); (fp_workspace fixtures, ss_workspace s)].

Lemma capture_snapshots_ok env credential fixtures h h' s :
  exec env h (capture_snapshots credential fixtures) = (h', Ok s) ->
  Forall (fun ps => sn_path (snd ps) = fst ps /\ remembers h h' (snd ps)) (snapshots_of credential fixtures s).
Proof.
  unfold capture_snapshots. intros (h1 & s1 & (R1 & P1 & X1)%capture_snapshot_ok & Hk)%exec_bind_ok.
  apply exec_bind_ok in Hk as (h2 & s2 & (R2 & P2 & X2)%capture_snapshot_ok & Hk).
  apply exec_bind_ok in Hk as (h3 & s3 & (R3 & P3 & X3)%capture_snapshot_ok & Hk).
  apply exec_bind_ok in Hk as (h4 & s4 & (R4 & P4 & X4)%capture_snapshot_ok & Hk).
  apply exec_bind_ok in Hk as (h5 & s5 & (R5 & P5 & X5)%capture_snapshot_ok & Hk). injection Hk as <- <-.
  repeat constructor; cbn; try done; (eapply remembers_later; [| |first [exact R1|exact R2|exact R3|exact R4|exact R5]]); eauto 10 with trace.
Qed.

(** The file a snapshot remembers still had its identity and its digest. *)
Definition same_again (h0 h : list ev) (s : RegularFileSnapshot) : Prop :=
  exists data, held_still h0 h (components (sn_path s)) (sn_identity s) data /\ sha256 data = sn_content_sha256 s.

Lemma verify_after_ok env s h h' e :
  exec env h (verify_after s) = (h', e) -> extends h h' /\ (identity_unchanged e = true -> contents_unchanged e = true -> same_again h h' s).
Proof.
  intros He. split; [by eapply exec_extends_to|]. revert He. unfold verify_after. rewrite exec_bind.
  pose proof (exec_extends env h (lstat (components (sn_path s)))) as X1.
  destruct (exec env h (lstat (components (sn_path s)))) as [h1 m]. cbn [fst snd] in *.
  pose proof (fun h' i d => capture_state_ok env (sn_path s) (sn_max_bytes s) (sn_required_mode s) h1 h' i d) as Hc.
  generalize dependent (capture_regular_file_state (sn_path s) (sn_max_bytes s) (sn_required_mode s)). intros p Hc.
  rewrite exec_bind. destruct (exec env h1 p) as [h2 [[i d]|error]]; cbn; intros [= <- <-]; cbn; [|done].
  destruct (Hc h2 i d eq_refl) as (data & -> & Hd). intros ->%bool_decide_eq_true Hd'%str_eqb_eq. exists data.
  split; [by eapply held_later; [exact X1|apply extends_refl|]|done].
Qed.

Definition unchanged_says (e : FileIntegrityEvidence) : Prop := identity_unchanged e = true /\ contents_unchanged e = true.

Definition integrity_of (e : RuntimeCanaryIntegrityEvidence) : list FileIntegrityEvidence :=
  [ie_credential e; ie_main_home e; ie_codex_home e; ie_final_output e; ie_workspace e].

Lemma verify_snapshots_ok env credential fixtures s h h' e :
  exec env h (verify_snapshots s) = (h', e) -> Forall unchanged_says (integrity_of e) ->
  Forall (fun ps => same_again h h' (snd ps)) (snapshots_of credential fixtures s).
Proof.
  unfold verify_snapshots. rewrite exec_bind. destruct (exec env h (verify_after (ss_credential s))) as [h1 e1] eqn:E1. cbn [fst snd].
  rewrite exec_bind. destruct (exec env h1 (verify_after (ss_main_home s))) as [h2 e2] eqn:E2. cbn [fst snd].
  rewrite exec_bind. destruct (exec env h2 (verify_after (ss_codex_home s))) as [h3 e3] eqn:E3. cbn [fst snd].
  rewrite exec_bind. destruct (exec env h3 (verify_after (ss_final_output s))) as [h4 e4] eqn:E4. cbn [fst snd].
  rewrite exec_bind. destruct (exec env h4 (verify_after (ss_workspace s))) as [h5 e5] eqn:E5. cbn [fst snd exec]. intros [= <- <-].
  apply verify_after_ok in E1 as [X1 S1], E2 as [X2 S2], E3 as [X3 S3], E4 as [X4 S4], E5 as [X5 S5].
  unfold integrity_of. rewrite !Forall_cons. cbn [ie_credential ie_main_home ie_codex_home ie_final_output ie_workspace].
  intros ([? ?] & [? ?] & [? ?] & [? ?] & [? ?] & _).
  assert (forall g g' s, extends h g -> extends g' h5 -> same_again g g' s -> same_again h h5 s) as Hl.
  { intros g g' s' Xg Xg' (data & Hd & He). exists data. split; [by eapply held_later|done]. }
  repeat constructor; cbn; (eapply Hl; [| |first [by apply S1|by apply S2|by apply S3|by apply S4|by apply S5]]); eauto 10 with trace.
Qed.

(** The files a canary watches. *)
Definition watched_files (nonce : str) : list (result CanaryError str) :=
  [runtime_canary_credential_path nonce; runtime_canary_main_home_fixture_path nonce; runtime_canary_codex_home_fixture_path nonce;
   runtime_canary_final_output_fixture_path nonce; runtime_canary_workspace_fixture_path nonce].

(** Read before the run and again after it, the file had one identity and one digest. *)
Definition unchanged (before ended h : list ev) (p : list Component) : Prop :=
  exists i data data', held_still [] before p i data /\ held_still ended h p i data' /\ sha256 data' = sha256 data.

Lemma fixtures_ok env nonce h h' paths :
  exec env h (create_runtime_canary_fixtures nonce) = (h', Ok paths) ->
  exists a b c d, runtime_canary_main_home_fixture_path nonce = Ok a /\ runtime_canary_codex_home_fixture_path nonce = Ok b
    /\ runtime_canary_final_output_fixture_path nonce = Ok c /\ runtime_canary_workspace_fixture_path nonce = Ok d
    /\ paths = mkFixturePaths (as_bytes a) (as_bytes b) (as_bytes c) (as_bytes d).
Proof.
  unfold create_runtime_canary_fixtures. intros (h1 & a & [-> Ha]%exec_of_canary & Hk)%exec_bind_ok.
  apply exec_bind_ok in Hk as (h2 & b & [-> Hb]%exec_of_canary & Hk). apply exec_bind_ok in Hk as (h3 & c & [-> Hc]%exec_of_canary & Hk).
  apply exec_bind_ok in Hk as (h4 & d & [-> Hd]%exec_of_canary & Hk).
  do 3 (apply exec_bind_ok in Hk as (? & ? & _ & Hk)). injection Hk as <- <-. by exists a, b, c, d.
Qed.

(** What was read before, within [before], and what is found again, after [ended]. *)
Lemma unchanged_files credential fixtures s before ended h g g' :
  Forall (fun ps => sn_path (snd ps) = fst ps /\ remembers g g' (snd ps)) (snapshots_of credential fixtures s) -> extends g' before ->
  Forall (fun ps => same_again ended h (snd ps)) (snapshots_of credential fixtures s) ->
  Forall (fun ps => unchanged before ended h (components (fst ps))) (snapshots_of credential fixtures s).
Proof.
  intros Hr Hx Hs. apply Forall_forall. intros [p sn] Hin. rewrite Forall_forall in Hr, Hs.
  destruct (Hr _ Hin) as [<- (data & Hd & He)], (Hs _ Hin) as (data' & Hd' & He'). cbn in *.
  exists (sn_identity sn), data, data'. split; [eapply held_later; [|exact Hx|exact Hd]; by exists g; rewrite app_nil_r|]. split; [done|congruence].
Qed.

Lemma stdout_ok env data h h' : exec env h (write_stdout data) = (h', Ok tt) -> (Ev (WriteOutput data) (Ok tt) : rt_event) ∈ h' /\ extends h h'.
Proof.
  unfold write_stdout. intros (h1 & [] & H1 & Hk)%exec_bind_ok. system_ok H1. system_ok Hk. split; [by right; left|].
  by do 2 apply extends_cons; apply extends_refl.
Qed.

Lemma secret_ok env h h' s :
  exec env h create_runtime_canary_descriptor_secret = (h', Ok s) ->
  extends h h' /\ exists data, (Ev (Fs RandomBytes) (Some data) : rt_event) ∈ h' /\ ds_sha256 s = hex (sha256 data).
Proof.
  intros He. pose proof (exec_extends_to _ _ _ _ _ He) as Hx. split; [done|]. revert He. unfold create_runtime_canary_descriptor_secret.
  rewrite exec_bind. cbn [exec perform fst snd]. destruct (env h (Fs RandomBytes)) as [data|] eqn:Er; [|done]. intros Hk.
  pose proof (exec_extends_to _ _ _ _ _ Hk) as Hx'. exists data. split; [eapply extends_in; [exact Hx'|left]|].
  apply exec_bind_ok in Hk as (? & f & _ & Hk). do 3 (apply exec_bind_ok in Hk as (? & ? & _ & Hk)). by injection Hk as <- <-.
Qed.

(** What a probe that printed its evidence has seen. *)
Definition evidence_seen (nonce forbidden bot : str) (credential : path) (h0 h : list rt_event) : Prop :=
  exists inputs binding rendered line secret before ended,
    runtime_canary_fixture_binding nonce inputs = Ok binding /\ render_runtime_canary_exec nonce inputs = Ok rendered
    /\ evidence_to_json_line (successful_evidence nonce binding inputs) = Ok line /\ (Ev (WriteOutput line) (Ok tt) : rt_event) ∈ h
    /\ (Ev (Fs RandomBytes) (Some secret) : rt_event) ∈ before /\ fi_fd_secret_sha256 inputs = hex (sha256 secret)
    /\ (Ev (Fs ProcessId) (fi_main_pid inputs) : rt_event) ∈ before
    /\ fi_forbidden_tcp inputs = forbidden /\ fi_bot_tcp inputs = bot
    /\ extends h0 before /\ canary_ran canary_command (prompt rendered) nonce inputs (successful_report nonce binding) before ended h
    /\ unchanged (seen before) (seen ended) (seen h) (components credential)
    /\ forall file, file ∈ tail (watched_files nonce) -> exists p, file = Ok p /\ unchanged (seen before) (seen ended) (seen h) (components (as_bytes p)).

Lemma canary_ran_later c prompt nonce inputs report before ended h h' :
  extends h h' -> canary_ran c prompt nonce inputs report before ended h ->
  exists t, h' = t ++ ended.
Proof. intros Hx (_ & Hx' & _). destruct (extends_trans _ _ _ Hx' Hx) as (t & ->). by exists t. Qed.

Lemma final_read_later p t t' data : final_read p t data -> final_read p (t' ++ t) data.
Proof.
  intros (f & m & H1 & H2 & H3 & H4). exists f, m. split_and!; try tauto; apply elem_of_app; by right.
Qed.

Lemma canary_ran_extends c prompt nonce inputs report before ended h h' :
  extends h h' -> canary_ran c prompt nonce inputs report before ended h -> canary_ran c prompt nonce inputs report before ended h'.
Proof.
  intros (t' & ->) (H1 & H2 & H3 & H4 & H5 & output & t & -> & Hf & Hv). split; [done|]. split; [by exists (t' ++ t); rewrite app_assoc|].
  split; [done|]. split; [done|]. split; [done|]. exists output, (t' ++ t). split; [by rewrite app_assoc|]. split; [|done].
  unfold seen. rewrite omap_app. by apply final_read_later.
Qed.

Lemma probe_runtime_ok env h h' cli credential :
  exec env h (probe_runtime cli credential) = (h', Ok tt) ->
  evidence_seen (vc_nonce cli) (vc_forbidden_tcp cli) (vc_bot_tcp cli) credential h h'.
Proof.
  unfold probe_runtime. intros (h1 & secret & [X1 (random & Hr & Hs)]%secret_ok & Hk)%exec_bind_ok.
  rewrite exec_bind in Hk. cbn [exec perform fst snd] in Hk. set (pid := env h1 (Fs ProcessId)) in Hk.
  apply exec_bind_ok in Hk as (h3 & rendered & [-> Hrn]%exec_of_canary & Hk).
  apply exec_bind_ok in Hk as (h4 & paths & E4 & Hk). pose proof (exec_extends_to _ _ _ _ _ E4) as X4.
  apply fixtures_ok in E4 as (a & b & c & d & Pa & Pb & Pc & Pd & Epaths).
  apply exec_bind_ok in Hk as (h5 & snapshots & [X5 (env5 & R5%capture_snapshots_ok)]%exec_files & Hk).
  apply exec_bind_ok in Hk as (h6 & report & [_ (before & ended & X6 & _ & Hran)]%canary_codex_ok & Hk).
  rewrite exec_bind in Hk. pose proof (surjective_pairing (exec env h6 (embed (verify_snapshots snapshots)))) as E7.
  apply exec_embed in E7 as [X7 E7]. destruct (exec env h6 (embed (verify_snapshots snapshots))) as [h7 integrity]. cbn [fst snd] in *.
  apply exec_bind_ok in Hk as (h8 & [] & E8 & Hk). pose proof (exec_extends_to _ _ _ _ _ E8) as X8.
  apply exec_bind_ok in Hk as (h9 & [] & [-> [Hb He]%runtime_evidence_valid]%exec_of_canary & Hk).
  apply exec_bind_ok in Hk as (h10 & line & [-> Hline]%exec_of_canary & [Hw Xw]%stdout_ok). rewrite He in Hline.
  pose proof (f_equal re_report He) as Hrep. cbn in Hrep. subst report.
  assert (Forall unchanged_says (integrity_of integrity)) as Hu.
  { unfold runtime_evidence, successful_evidence in He. injection He as. unfold integrity_of. repeat constructor; done. }
  pose proof (verify_snapshots_ok _ credential paths _ _ _ _ E7 Hu) as Hsame.
  assert (extends h before) as X06.
  { eapply extends_trans; [exact X1|]. eapply extends_trans; [|exact X6]. eapply extends_trans; [|exact X5].
    eapply extends_trans; [|exact X4]. apply extends_cons, extends_refl. }
  assert (extends h1 before) as X16.
  { eapply extends_trans; [|exact X6]. eapply extends_trans; [|exact X5]. eapply extends_trans; [|exact X4]. apply extends_cons, extends_refl. }
  assert (extends h6 h') as X6h by (eapply extends_trans; [exact X7|]; by eapply extends_trans).
  assert (extends ended h6) as Xe by (by destruct Hran as (_ & ? & _)).
  assert (Forall (fun ps => unchanged (seen before) (seen ended) (seen h') (components (fst ps))) (snapshots_of credential paths snapshots)) as Hall.
  { eapply unchanged_files; [exact R5|by apply seen_extends|]. eapply Forall_impl; [exact Hsame|]. cbn. intros ps (data & Hd & Hsha).
    exists data. split; [|done]. exact (held_later _ _ _ _ _ _ _ (seen_extends _ _ Xe) (seen_extends _ _ (extends_trans _ _ _ X8 Xw)) Hd). }
  unfold snapshots_of in Hall. rewrite !Forall_cons in Hall. cbn [fst] in Hall. destruct Hall as (U1 & U2 & U3 & U4 & U5 & _). subst paths.
  eexists _, _, rendered, line, random, before, ended. split; [exact Hb|]. split; [exact Hrn|]. split; [exact Hline|]. split; [exact Hw|].
  split; [by eapply extends_in|]. split; [exact Hs|]. split.
  { apply (extends_in _ _ _ (extends_trans _ _ _ X4 (extends_trans _ _ _ X5 X6))). left. }
  split; [done|]. split; [done|]. split; [exact X06|]. split; [by eapply canary_ran_extends|]. split; [exact U1|].
  intros file. unfold watched_files. cbn [tail]. rewrite !elem_of_cons, elem_of_nil. rewrite Pa, Pb, Pc, Pd.
  intros [->|[->|[->|[->|[]]]]]; eexists; split; done.
Qed.

(** C33: The evidence of a runtime canary is true. When the canary mode succeeds it has printed
    the evidence of success for its nonce, and the trace shows what that stands for: the fixed
    Codex command was given the rendered prompt and exited well, its event stream carries the
    successful report, its final message is the line of that report, and the credential and the
    four fixtures, each read without interference before the run and again after it, had the
    same identity and the same SHA-256. The descriptor secret and the process of the inputs are
    those of the wrapper. *)
Theorem canary_evidence_true env cli h :
  exec env [] (run_runtime_canary cli) = (h, Ok tt) ->
  exists credential h0, evidence_seen (rcc_nonce cli) (rcc_forbidden_tcp cli) (rcc_bot_tcp cli) credential h0 h /\ ready h0
    /\ exists expected, runtime_canary_credential_path (rcc_nonce cli) = Ok expected /\ components credential = components (as_bytes expected).
Proof.
  unfold run_runtime_canary. intros (h1 & v & E1 & Hk)%exec_bind_ok. cbn in E1. injection E1 as <- [_ [_ [= <-]]%then_ok]%then_ok.
  apply exec_bind_ok in Hk as (h2 & [] & E2 & Hk). apply exec_bind_ok in Hk as (h3 & credential & E3 & Hk).
  apply exec_bind_ok in Hk as (h4 & expected & [-> Hexp]%exec_of_canary & Hk).
  apply exec_bind_ok in Hk as (h5 & [] & [-> Hc%negb_false_iff%bool_decide_eq_true]%exec_failed_if & Hk).
  apply exec_bind_ok in Hk as (h6 & [] & E6 & Hk). apply exec_bind_ok in Hk as (h7 & [] & E7 & Hk).
  apply exec_bind_ok in Hk as (h8 & [] & E8 & Hk). exists credential, h8. split; [exact (probe_runtime_ok _ _ _ _ _ Hk)|].
  split; [|by exists expected].
  destruct (launched_quiet _ _ _ _ _ (make_directories_quiet _) E2) as [_ L2], (launched_quiet _ _ _ _ _ credential_path_quiet E3) as [_ L3],
    (launched_quiet _ _ _ _ _ (install_quiet _) E6) as [_ L6], (launched_quiet _ _ _ _ _ harden_quiet E7) as [X7 L7],
    (launched_quiet _ _ _ _ _ close_quiet E8) as [X8 L8].
  split; [by eapply harden_close_ok|]. split; [|by rewrite L8, L7, L6, L3, L2].
  eapply installed_later; [|by eapply install_ok]. by eapply extends_trans.
Qed.
End evidence.

(** ** Examples *)

(** Arguments are read as they are written in the plans. *)
Fixpoint option_values (names : list str) (arguments : list bytes) : option (list str) :=
  match names, arguments with
  | [], [] => Some []
  | n :: names, a :: v :: arguments =>
      match from_utf8 v, option_values names arguments with
      | Some v, Some values => if str_eqb a n then Some (v :: values) else None
      | _, _ => None
      end
  | _, _ => None
  end.

Definition checked {A} (r : result str A) : option A := match r with Ok a => Some a | Err _ => None end.

Definition plain_parse_cli (arguments : list bytes) : option Cli :=
  values ← option_values [lit "--workspace"; lit "--model"] arguments;
  match values with
  | [w; m] => w ← checked (validate_workspace w); m ← checked (validate_model m); Some (mkCli w m None)
  | _ => None
  end.

Definition plain_parse_canary (arguments : list bytes) : option RuntimeCanaryCli :=
  values ← option_values [lit "--nonce"; lit "--forbidden-tcp"; lit "--bot-tcp"; lit "--host-unix"; lit "--host-protected-path"]
             (tail arguments);
  match values with
  | [n; f; b; u; p] =>
      n ← checked (validate_runtime_canary_nonce_cli n); f ← checked (validate_forbidden_tcp f); b ← checked (validate_bot_tcp b);
      Some (mkCanaryCli true n f b (as_bytes u) (as_bytes p))
  | _ => None
  end.

Definition plain_command_line : CommandLine := {| parse_cli := plain_parse_cli; parse_canary_cli := plain_parse_canary |}.

Lemma checked_some {A} (r : result str A) a : checked r = Some a -> r = Ok a.
Proof. destruct r; cbn; congruence. Qed.

Lemma plain_command_line_laws : @CommandLineLaws plain_command_line.
Proof.
  split; intros arguments cli.
  - change (parse_cli arguments) with (plain_parse_cli arguments). unfold plain_parse_cli. destruct (option_values _ _) as [[|w [|m []]]|]; cbn; try done.
    destruct (checked (validate_workspace w)) eqn:Ew, (checked (validate_model m)) eqn:Em; cbn; try done. intros [= <-].
    apply checked_some in Ew, Em. split; eauto.
  - change (parse_canary_cli arguments) with (plain_parse_canary arguments). unfold plain_parse_canary.
    destruct (option_values _ _) as [[|n [|f [|b [|u [|p []]]]]]|]; cbn; try done.
    destruct (checked (validate_runtime_canary_nonce_cli n)) eqn:En, (checked (validate_forbidden_tcp f)) eqn:Ef,
      (checked (validate_bot_tcp b)) eqn:Eb; cbn; try done. intros [= <-]. apply checked_some in En, Ef, Eb. split_and!; eauto.
Qed.

Definition sample_credential : path := Eval vm_compute in ok_value [] (@runtime_canary_credential_path checksum_sha256 sample_nonce).
Definition sample_workspace : path := Eval vm_compute in ok_value [] (runtime_canary_workspace_fixture_path sample_nonce).

(** Bytes whose checksum is that of the sample inputs. *)
Definition sample_random : bytes := replicate 31 0 ++ [198].

Definition sample_message : bytes := expected_runtime_canary_final_line sample_nonce sample_binding.
Definition sample_events : bytes := Eval vm_compute in stream_bytes (sample_stream (JNumber (lit "0")) (lit "item_2")).

Definition runtime_file (h : list rt_event) (p : list Component) : option bytes :=
  if bool_decide (p = components sample_credential) then Some (lit "{}")
  else if bool_decide (p = components sample_workspace) then Some (lit "probe")
  else if bool_decide (p = components FINAL_OUTPUT_PATH) then (if bool_decide (launched h = []) then None else Some sample_message)
  else (fun f => contents f (seen h)) <$> created_as (seen h) p.

(** A host whose Codex follows the prompt. *)
Definition runtime_host : environment rt_answer :=
  fun h c =>
    match c return rt_answer c with
    | Fs c =>
        let file (f : fd) := default [] (runtime_file h (opened_path (seen h) f)) in
        match c return fs_answer c with
        | Lstat p => match runtime_file h p with Some data => Ok (sample_stat data 384) | None => Err ENOENT end
        | OpenPath _ _ | CreatePath _ _ => Ok (len (seen h))
        | Fstat f => Ok (sample_stat (file f) 384)
        | ReadToEnd f => Ok (file f)
        | ReadFd f limit => Ok (take_N limit (drop_N (len (received f (seen h))) (file f)))
        | WriteAll _ _ | Fsync _ | Fchmod _ _ => Ok tt
        | RandomBytes => Some sample_random
        | ProcessId => 77
        | EffectiveUid => 0
        | c => refused c
        end
    | CredentialsDirectory => Some (take (length sample_credential - 16) sample_credential)
    | RunCodex _ | WaitCodex => Ok (Code 0)
    | ReadStdout _ => Ok sample_events
    | MemfdCreate => Ok 1000000
    | DescriptorFlags _ => 1%Z
    | SetUmask _ | KillCodex => tt
    | _ => Ok tt
    end.

Definition sample_canary_cli : RuntimeCanaryCli :=
  mkCanaryCli true sample_nonce (lit "192.0.2.10:443") (lit "127.0.0.1:8787")
    (as_bytes (fi_host_unix (sample_inputs 77))) (as_bytes (fi_host_protected_path (sample_inputs 77))).

Definition normal_arguments : list bytes := [lit "--workspace"; lit "/workspace"; lit "--model"; lit "gpt-5.5"].

Definition canary_arguments : list bytes :=
  lit "--runtime-canary"
  :: [lit "--nonce"; sample_nonce; lit "--forbidden-tcp"; lit "192.0.2.10:443"; lit "--bot-tcp"; lit "127.0.0.1:8787";
      lit "--host-unix"; rcc_host_unix sample_canary_cli; lit "--host-protected-path"; rcc_host_protected_path sample_canary_cli].

#[local] Abbreviation sample_main arguments :=
  (exec runtime_host [] (@main checksum_sha256 compact_text compact_print plain_command_line arguments)).

Example normal_run_succeeds : (sample_main normal_arguments).2 = Ok tt.
Proof. vm_compute. reflexivity. Qed.

Example canary_run_succeeds : (sample_main canary_arguments).2 = Ok tt.
Proof. vm_compute. reflexivity. Qed.

Lemma codex_runs_confined_witness :
  (sample_main normal_arguments).2 = Ok tt
  /\ guarded (@confined_call checksum_sha256 compact_text compact_print) (sample_main normal_arguments).1
  /\ guarded (@confined_call checksum_sha256 compact_text compact_print) (sample_main canary_arguments).1.
Proof.
  split; [exact normal_run_succeeds|].
  split; exact (@codex_runs_confined checksum_sha256 compact_text compact_print plain_command_line plain_command_line_laws runtime_host _).
Defined.

#[local] Abbreviation sample_canary :=
  (exec runtime_host [] (@run_runtime_canary checksum_sha256 compact_text compact_print sample_canary_cli)).

Example canary_succeeds : sample_canary.2 = Ok tt.
Proof. vm_compute. reflexivity. Qed.

Lemma canary_evidence_true_witness :
  exists credential h0,
    @evidence_seen checksum_sha256 compact_text compact_print sample_nonce (lit "192.0.2.10:443") (lit "127.0.0.1:8787") credential h0
      sample_canary.1
    /\ @ready compact_text h0
    /\ exists expected, @runtime_canary_credential_path checksum_sha256 sample_nonce = Ok expected
         /\ components credential = components (as_bytes expected).
Proof.
  pose proof (surjective_pairing sample_canary) as He. rewrite canary_succeeds in He.
  exact (@canary_evidence_true checksum_sha256 compact_text compact_print runtime_host sample_canary_cli _ He).
Defined.
