(* ===== verification/LauncherService.v ===== *)
(** * The launcher's service process

    [src/bin/webex-codex-launcher.rs]: one process per connection. It authorises the peer,
    drops its own capabilities, reads one request packet and answers it with one packet,
    unless the client disconnects while the run is still going. *)

From S2P Require Import Prelude Effects Text Digest Paths Net HostFiles Webex Serde LauncherProtocol CanaryProtocol CodexLauncher IsolatedPlan.

Local Open Scope N_scope.

Definition STUCK_WORK_EXIT_CODE : N := 70.

(** ** How the process stops early

    An error of [main], or [std::process::exit]. *)
Inductive halt : Type :=
| Fault (message : str)
| Exit (code : N).

Definition fault {A} (message : str) : hprog (result halt A) := Ret (Err (Fault message)).

(** [?] on a result with a message. *)
Definition checked {A} (p : hprog (result str A)) : hprog (result halt A) := bind p (fun r => Ret (map_err Fault r)).

(** ** Answers *)

Definition protocol_rejection_code (error : ProtocolError) : RejectionCode :=
  match error with
  | UnsupportedVersion => RejUnsupportedVersion
  | RequestTooLarge => RejRequestTooLarge
  | InvalidRunId => RejInvalidRunId
  | InvalidMessageId => RejInvalidMessageId
  | InvalidPrompt => RejInvalidPrompt
  | InvalidWorkspace => RejInvalidWorkspace
  | InvalidModel => RejInvalidModel
  | InvalidReasoningEffort => RejInvalidReasoningEffort
  | InvalidTimeout => RejInvalidTimeout
  | InvalidOutputLimit => RejInvalidOutputLimit
  | _ => RejMalformedRequest
  end.

Definition service_rejected (run_id : option str) (code : RejectionCode) (message : str) : result halt LauncherResponse :=
  let? r := map_err (fun _ => Fault (lit "rejection")) (rejected_bounded run_id code message) in
  Ok (rejected r).

Definition one_packet : str := lit "launcher connection violated the one-packet protocol".

Definition execute_policy_rejection (request : ExecuteRequest) : result halt (option LauncherResponse) :=
  match validate_execution_policy request with
  | Ok _ => Ok None
  | Err error =>
      let? r := service_rejected (Some (run_id request)) (protocol_rejection_code error)
        (lit "launcher execute request failed policy validation") in
      Ok (Some r)
  end.

Definition execution_response (run_id : str) (output_char_limit : N) (r : IsolatedRunResult) : result halt LauncherResponse :=
  match r with
  | RunCompleted out out_truncated =>
      let? c := map_err (fun _ => Fault (lit "output")) (completed_bounded run_id out output_char_limit) in
      Ok (completed (mkCompletedResponse (comp_run_id c) (output c) (truncated c || out_truncated)))
  | RunTimedOut => service_rejected (Some run_id) RejExecutionTimedOut (lit "isolated Codex execution timed out")
  | RunFailed => service_rejected (Some run_id) RejExecutionFailed (lit "isolated Codex execution failed")
  end.

Inductive ExecuteRequestError : Type :=
| Execution (error : IsolatedExecutionError)
| Protocol
| DisconnectedFailure (error : IsolatedExecutionError).

Inductive ExecuteRequestOutcome : Type :=
| Response (r : IsolatedRunResult)
| Disconnected.

Definition execute_error_response (run_id : str) (error : ExecuteRequestError) : result halt LauncherResponse :=
  match error with
  | Execution (Unavailable _) =>
      service_rejected (Some run_id) RejExecutionUnavailable (lit "isolated Codex runtime is unavailable")
  | Execution (ExecutionFailedError _) =>
      service_rejected (Some run_id) RejInternalError (lit "isolated Codex execution failed internally")
  | Execution Cancelled =>
      service_rejected (Some run_id) RejInternalError (lit "isolated Codex execution was cancelled unexpectedly")
  | Protocol => service_rejected (Some run_id) RejMalformedRequest one_packet
  | DisconnectedFailure _ => Err (Fault (lit "disconnected execution failure has no response"))
  end.

(** ** The client's side of the connection *)

Inductive ClientSocketState : Type := SocketOpen | SocketClosed.
Inductive ClientReadSideState : Type := ReadOpen | ReadHalfClosed | ReadClosed.

(** The error of these two is an [io::Error]. *)
Definition client_read_side_state : hprog (result unit ClientReadSideState) :=
  let* polled := (perform PollSocket : hprog (option PollBits)) in
  Ret (match polled with
       | None => Err tt
       | Some bits =>
           if pollnval bits then Err tt
           else if pollerr bits && negb (pollhup bits) then Err tt
           else Ok (if pollhup bits then ReadClosed else if pollrdhup bits then ReadHalfClosed else ReadOpen)
       end).

Definition inspect_client_socket : hprog (result unit ClientSocketState) :=
  let* peek := (perform PeekSocket : hprog Peek) in
  match peek with
  | PeekWouldBlock => Ret (Ok SocketOpen)
  | PeekError => Ret (Err tt)
  | Peeked received has_control ctrunc =>
      if 0 <? received then Ret (Err tt)
      else if has_control || ctrunc then Ret (Err tt)
      else
        let*? state := client_read_side_state in
        Ret (match state with
             | ReadClosed => Ok SocketClosed
             | ReadHalfClosed | ReadOpen => Err tt
             end)
  end.

Definition pre_dispatch_protocol_response : hprog (result halt (option LauncherResponse)) :=
  let* state := inspect_client_socket in
  match state with
  | Ok SocketOpen => Ret (Ok None)
  | Ok SocketClosed => fault (lit "launcher client disconnected before request dispatch")
  | Err _ => Ret (let? r := service_rejected None RejMalformedRequest one_packet in Ok (Some r))
  end.

(** ** Runs *)

Definition terminate_stuck_launcher {A} : hprog (result halt A) := Ret (Err (Exit STUCK_WORK_EXIT_CODE)).

(** [select!] between the preflight and the disconnection; the inner result is an
    [io::Result]. *)
Definition preflight_available : hprog (result halt (result unit (option bool))) :=
  let* race := (perform RunPreflight : hprog (Race bool)) in
  match race with
  | RunFirst available =>
      let* state := inspect_client_socket in
      Ret (Ok (let? state := state in
               Ok (match state with SocketOpen => Some available | SocketClosed => None end)))
  | DisconnectFirst _ None => terminate_stuck_launcher
  | DisconnectFirst io_error (Some _) => Ret (Ok (if io_error then Err tt else Ok None))
  end.

Definition disconnected_execution_outcome (r : result IsolatedExecutionError IsolatedRunResult)
  : result ExecuteRequestError ExecuteRequestOutcome :=
  match r with
  | Ok _ | Err Cancelled => Ok Disconnected
  | Err error => Err (DisconnectedFailure error)
  end.

Definition execute_until_disconnect (request : ExecuteRequest)
  : hprog (result halt (result ExecuteRequestError ExecuteRequestOutcome)) :=
  let* race := (perform (RunExecute request) : hprog (Race (result IsolatedExecutionError IsolatedRunResult))) in
  match race with
  | RunFirst r =>
      let* state := inspect_client_socket in
      Ret (Ok (match state with
               | Ok SocketOpen => match r with Ok done => Ok (Response done) | Err error => Err (Execution error) end
               | Ok SocketClosed => disconnected_execution_outcome r
               | Err _ => Err Protocol
               end))
  | DisconnectFirst _ None => terminate_stuck_launcher
  | DisconnectFirst io_error (Some r) => Ret (Ok (if io_error then Err Protocol else disconnected_execution_outcome r))
  end.

(** [.map(Some)]. *)
Definition answered (r : result halt LauncherResponse) : result halt (option LauncherResponse) :=
  let? response := r in Ok (Some response).

Definition response_for_request (r : result ProtocolError LauncherRequest) : hprog (result halt (option LauncherResponse)) :=
  match r with
  | Err error =>
      Ret (answered (service_rejected None (protocol_rejection_code error) (lit "launcher request failed protocol validation")))
  | Ok (mkLauncherRequest _ Preflight) =>
      let*? available := preflight_available in
      Ret (match available with
           | Ok (Some available) => Ok (Some (ready available))
           | Ok None => Ok None
           | Err _ => answered (service_rejected None RejMalformedRequest one_packet)
           end)
  | Ok (mkLauncherRequest _ (Execute request)) =>
      let*? rejection := Ret (execute_policy_rejection request) in
      match rejection with
      | Some response => Ret (Ok (Some response))
      | None =>
          let*? outcome := execute_until_disconnect request in
          Ret (match outcome with
               | Ok (Response r) => answered (execution_response (run_id request) (output_char_limit request) r)
               | Ok Disconnected => Ok None
               | Err (DisconnectedFailure _) =>
                   Err (Fault (lit "isolated execution failed while draining a disconnected client"))
               | Err error => answered (execute_error_response (run_id request) error)
               end)
      end
  end.

(** ** The request packet *)

Fixpoint message_credentials_loop (control : list ControlMessage) (found : option PeerCredentials)
  : result str PeerCredentials :=
  match control with
  | [] => ok_or found (lit "launcher packet credentials are unavailable")
  | None :: _ => Err (lit "launcher packet contains unexpected control data")
  | Some (sized, raw) :: rest =>
      if negb sized || is_some_and found (fun _ => true) then Err (lit "launcher packet credentials are invalid")
      else if (raw.1.1 <=? 1)%Z then Err (lit "launcher packet sender is invalid")
      else message_credentials_loop rest (Some (credentials_of raw))
  end.

Definition message_credentials (control : list ControlMessage) : result str PeerCredentials :=
  message_credentials_loop control None.

Definition REQUEST_BUFFER_BYTES : N := FRAME_HEADER_BYTES + REQUEST_MAX_BYTES + 1.

Record ReceivedRequest : Type := mkReceivedRequest { rq_frame : list N; rq_sender : PeerCredentials; rq_truncated : bool }.

(** [receive_request_packet_now]: the buffer holds one byte more than the largest frame. *)
Definition receive_request_packet_now (p : Packet) : result str ReceivedRequest :=
  let? sender := message_credentials (pk_control p) in
  Ok (mkReceivedRequest (take_N REQUEST_BUFFER_BYTES (pk_bytes p)) sender
        ((REQUEST_BUFFER_BYTES <? len (pk_bytes p)) || pk_truncated p)).

Definition receive_request_packet : hprog (result str ReceivedRequest) :=
  let*? p := or_fail (perform ReceiveRequest) (lit "launcher request read timed out") in
  Ret (receive_request_packet_now p).

Definition request_writer_is_authorised (sender peer : PeerCredentials) : bool := bool_decide (sender = peer).

Section service.
Context `{!JsonCodec LauncherRequest} `{!JsonCodec LauncherResponse}.

Definition write_response (response : LauncherResponse) : hprog (result halt unit) :=
  let*? frame := Ret (map_err (fun _ => Fault (lit "response")) (encode_response_frame response)) in
  let* sent := (perform (SendResponse frame) : hprog bool) in
  if sent then Ret (Ok tt) else fault (lit "launcher response write timed out").

Definition duplicate_launcher_socket (fd : N) : hprog (result str unit) :=
  let* duplicated := (perform (DuplicateSocket fd) : hprog bool) in
  if duplicated then Ret (Ok tt) else fails (lit "fcntl failed").

Definition decoded_request (p : ReceivedRequest) : result ProtocolError LauncherRequest :=
  if rq_truncated p then Err RequestTooLarge else decode_request_frame (rq_frame p).

(** [main]: standard input is descriptor 0, standard output 1. *)
Definition main : hprog (result halt unit) :=
  let*? _ := checked validate_launcher_process in
  let*? _ := checked (validate_socket_stdio 0 1) in
  let*? _ := checked (duplicate_launcher_socket 0) in
  let*? credentials_of_peer := checked (socket_peer_credentials 0) in
  let*? peer := checked (authorise_bot_peer 0 credentials_of_peer) in
  let*? _ := checked drop_peer_inspection_capability in
  let*? _ := checked (ensure_alive peer) in
  let*? packet := checked receive_request_packet in
  if negb (request_writer_is_authorised (rq_sender packet) (credentials peer))
  then fault (lit "launcher request writer is not authorised")
  else
    let*? _ := checked (ensure_alive peer) in
    let*? early := pre_dispatch_protocol_response in
    let*? response := match early with
                      | Some response => Ret (Ok (Some response))
                      | None => response_for_request (decoded_request packet)
                      end in
    match response with
    | None => Ret (Ok tt)
    | Some response =>
        let*? _ := checked (ensure_alive peer) in
        write_response response
    end.
End service.
