(* ===== verification/LauncherServiceRules.v ===== *)
(** * What the launcher's service process does, call by call

    The order of its checks and effects on every path: whom it serves, with which
    privileges, what it runs and what it answers. *)

From S2P Require Import Prelude Effects Text Digest Paths HostFiles LauncherProtocol CodexLauncher CodexLauncherRules IsolatedPlan IsolatedPlanRules LauncherService.

Local Open Scope N_scope.

(** ** Checks and effects *)

Definition checking (c : host_call) : bool :=
  match c with
  | ReceiveRequest | RunPreflight | RunExecute _ | SendResponse _ => false
  | _ => true
  end.

Abbreviation only_checks := (calls_only checking).

Lemma trusted_ancestors_checks above : only_checks (trusted_ancestors above).
Proof. induction above as [|d above IH]; cbn [trusted_ancestors]; unfold or_fail, fails; calls_only. Qed.
#[local] Hint Resolve trusted_ancestors_checks : calls_only.

Lemma executable_metadata_checks cs : only_checks (executable_metadata cs).
Proof. unfold executable_metadata, or_fail. calls_only. Qed.
#[local] Hint Resolve executable_metadata_checks : calls_only.

Lemma trusted_root_executable_checks p : only_checks (trusted_root_executable p).
Proof. unfold trusted_root_executable, fails. calls_only. Qed.
#[local] Hint Resolve trusted_root_executable_checks : calls_only.

Lemma process_snapshot_checks n : only_checks (process_snapshot n).
Proof. unfold process_snapshot, or_fail, lift. calls_only. Qed.
#[local] Hint Resolve process_snapshot_checks : calls_only.

Lemma bot_main_pid_checks : only_checks bot_main_pid.
Proof. unfold bot_main_pid, or_fail, fails, lift. calls_only. Qed.
#[local] Hint Resolve bot_main_pid_checks : calls_only.

Lemma pidfd_is_alive_checks n : only_checks (pidfd_is_alive n).
Proof. unfold pidfd_is_alive, or_fail, fails. calls_only. Qed.
#[local] Hint Resolve pidfd_is_alive_checks : calls_only.

Lemma or_unauthorised_checks {A} (p : hprog (result str A)) : only_checks p -> only_checks (or_unauthorised p).
Proof. unfold or_unauthorised. calls_only. Qed.
#[local] Hint Resolve or_unauthorised_checks : calls_only.

Lemma authorise_with_checks peer n : only_checks (authorise_bot_peer_with peer n).
Proof. unfold authorise_bot_peer_with, fails. calls_only. Qed.
#[local] Hint Resolve authorise_with_checks : calls_only.

Lemma socket_peer_pidfd_checks fd n : only_checks (socket_peer_pidfd fd n).
Proof. unfold socket_peer_pidfd, pidfd_process_id, or_fail, fails, lift. calls_only. Qed.
#[local] Hint Resolve socket_peer_pidfd_checks : calls_only.

Lemma authorise_checks fd peer : only_checks (authorise_bot_peer fd peer).
Proof. unfold authorise_bot_peer. calls_only. Qed.

Lemma socket_peer_credentials_checks fd : only_checks (socket_peer_credentials fd).
Proof. unfold socket_peer_credentials, or_fail, fails. calls_only. Qed.

Lemma read_bounding_set_checks fuel c acc : only_checks (read_bounding_set fuel c acc).
Proof.
  revert c acc. induction fuel as [|fuel IH]; intros c acc; cbn [read_bounding_set]; [apply calls_only_ret|].
  apply (calls_only_bind checking (perform (CapBsetRead c))); [by apply calls_only_perform|]. intros [[b|]|]; [apply IH|apply calls_only_ret..].
Qed.

Lemma bounding_set_checks : only_checks capability_bounding_set.
Proof. apply read_bounding_set_checks. Qed.
#[local] Hint Resolve bounding_set_checks : calls_only.
#[local] Opaque capability_bounding_set.

Lemma confirm_dropped_checks : only_checks confirm_dropped.
Proof. unfold confirm_dropped, or_fail, fails. calls_only. Qed.
#[local] Hint Resolve confirm_dropped_checks : calls_only.

Lemma drop_checks : only_checks drop_peer_inspection_capability.
Proof.
  unfold drop_peer_inspection_capability, set_capabilities, or_fail, fails. cbn [drop_each inspection_capabilities].
  unfold drop_bounding_capability, fails. calls_only.
Qed.

Lemma validate_process_checks : only_checks validate_launcher_process.
Proof. unfold validate_launcher_process, or_fail, fails. calls_only. Qed.

Lemma validate_stdio_checks a b : only_checks (validate_socket_stdio a b).
Proof. unfold validate_socket_stdio, descriptor_metadata, socket_option, or_fail, fails. calls_only. Qed.

Lemma inspect_checks : only_checks inspect_client_socket.
Proof. unfold inspect_client_socket, client_read_side_state. calls_only. Qed.
#[local] Hint Resolve inspect_checks : calls_only.

(** ** What is known before a request is served *)

Abbreviation trace := (list (event host_answer)) (only parsing).

(** The kernel named the peer, systemd its process as the bot's, and it is not root. *)
Definition vouched (h : trace) (peer : PeerCredentials) : Prop :=
  (exists raw, (Ev (PeerCred 0) (Some (true, raw)) : event host_answer) ∈ h /\ credentials_of raw = peer)
  /\ (exists out, (Ev SystemctlMainPid (Some (true, out)) : event host_answer) ∈ h /\ parse_main_pid out = Ok (pid peer))
  /\ uid peer <> 0.

(** The launcher read its own capabilities back as empty. *)
Definition unprivileged (h : trace) : Prop :=
  exists data, (Ev Capget (Some data) : event host_answer) ∈ h /\ capability_sets_are_empty data = true.

Lemma vouched_extends h h' peer : vouched h peer -> extends h h' -> vouched h' peer.
Proof.
  intros ((raw & H1 & H2) & (out & H3 & H4) & H5) Hx. split; [|split; [|done]].
  - exists raw. split; [by eapply extends_in|done].
  - exists out. split; [by eapply extends_in|done].
Qed.

Lemma unprivileged_extends h h' : unprivileged h -> extends h h' -> unprivileged h'.
Proof. intros (data & H1 & H2) Hx. exists data. split; [by eapply extends_in|done]. Qed.

Abbreviation known p Q := (forall h, wp (fun _ _ => True) p (fun h' r => extends h h' /\ Q h' r) h).

(** One step of a program whose errors prove nothing. *)
Ltac skip_step h :=
  rewrite wp_bind_ok; eapply wp_consequence; [apply wp_any|];
  intros h [?|?] ?; [|split; [by eauto 10 with trace|done]].

Lemma socket_peer_credentials_known :
  known (socket_peer_credentials 0) (fun h r => forall p, r = Ok p ->
    exists raw, (Ev (PeerCred 0) (Some (true, raw)) : event host_answer) ∈ h /\ credentials_of raw = p).
Proof.
  intros h. unfold socket_peer_credentials, or_fail, fails. cbn. split; [done|]. intros [[sized raw]|]; cbn.
  2:{ split; [auto with trace|done]. }
  destruct sized; cbn; [|split; [auto with trace|done]]. destruct (raw.1.1 <=? 1)%Z; cbn; (split; [auto with trace|]); [done|].
  intros p [= <-]. exists raw. split; [by left|done].
Qed.

Lemma bot_main_pid_known :
  known bot_main_pid (fun h r => forall p, r = Ok p ->
    exists out, (Ev SystemctlMainPid (Some (true, out)) : event host_answer) ∈ h /\ parse_main_pid out = Ok p).
Proof.
  intros h. unfold bot_main_pid. rewrite wp_bind_ok. eapply wp_consequence; [apply wp_any|]. intros h1 [[]|e] Hx; [|done].
  cbn. split; [done|]. intros [[success out]|]; cbn; [|split; [eauto with trace|done]].
  destruct success, (32 <? len out); cbn; (split; [eauto with trace|]); try done.
  intros p Hp. exists out. split; [by left|done].
Qed.

Lemma authorise_known peer :
  known (authorise_bot_peer 0 peer) (fun h r => forall a, r = Ok a ->
    credentials a = peer /\ uid peer <> 0
    /\ exists out, (Ev SystemctlMainPid (Some (true, out)) : event host_answer) ∈ h /\ parse_main_pid out = Ok (pid peer)).
Proof.
  intros h. unfold authorise_bot_peer. skip_step h0. unfold authorise_bot_peer_with.
  destruct ((pid peer <=? 1) || (uid peer =? 0)) eqn:Eu; [done|]. apply orb_false_iff in Eu as [_ Eu%N.eqb_neq].
  skip_step h1. skip_step h2. rewrite wp_bind_ok. unfold or_unauthorised at 1. rewrite wp_bind.
  eapply wp_consequence; [apply bot_main_pid_known|]. intros h3 [main|e] [? Hm]; cbn [wp map_err]; [|split; [by eauto 12 with trace|done]].
  destruct (Hm main eq_refl) as (out & Hout & Hp).
  match goal with |- context [if ?b then fails _ else _] => destruct b eqn:Ec; [split; [by eauto 12 with trace|done]|] end.
  rewrite !orb_false_iff, !negb_false_iff in Ec. destruct Ec as [[->%N.eqb_eq _] _].
  skip_step h4. match goal with |- context [metadata_is_trusted ?m] => destruct (metadata_is_trusted m) end; cbn [negb]; [|split; [by eauto 12 with trace|done]].
  skip_step h5. match goal with |- context [if ?b then fails _ else _] => destruct b end; [split; [by eauto 12 with trace|done]|].
  skip_step h6. split; [by eauto 12 with trace|]. intros auth [= <-]. split; [done|]. split; [done|].
  exists out. split; [|done]. eapply extends_in; [|exact Hout]. eauto with trace.
Qed.

Lemma drop_known :
  known drop_peer_inspection_capability (fun h r => r = Ok tt -> unprivileged h).
Proof.
  intros h. unfold drop_peer_inspection_capability. skip_step h1.
  match goal with |- context [if ?b then fails _ else _] => destruct b end; [split; [by eauto 12 with trace|done]|].
  skip_step h2. match goal with |- context [if ?b then fails _ else _] => destruct b end; [split; [by eauto 12 with trace|done]|].
  match goal with |- context [if ?b then fails _ else _] => destruct b end; [split; [by eauto 12 with trace|done]|].
  skip_step h3. skip_step h4. unfold confirm_dropped. rewrite wp_bind_ok. cbn [or_fail perform bind wp]. split; [done|].
  intros [data|]; cbn [ok_or]; [|split; [by eauto 12 with trace|done]].
  destruct (capability_sets_are_empty data) eqn:Ed; cbn [negb]; [|split; [by eauto 12 with trace|done]].
  skip_step h5. match goal with |- context [if ?b then fails _ else _] => destruct b end; (split; [by eauto 12 with trace|]); [done|].
  intros _. exists data. split; [|done]. eapply extends_in; [eassumption|]. by left.
Qed.

(** ** The rules of service *)

Section service.
Context `{!JsonCodec LauncherRequest} `{!JsonCodec LauncherResponse}.

(** The effects so far, without the checks. *)
Definition effects (h : trace) : trace := List.filter (fun e => negb (checking (ev_call e))) h.

(** The one packet was written by the peer and holds the request. *)
Definition requested (h : trace) (peer : PeerCredentials) (r : LauncherRequest) : Prop :=
  exists p rq, effects h = [Ev ReceiveRequest (Some p)] /\ receive_request_packet_now p = Ok rq
    /\ rq_sender rq = peer /\ decoded_request rq = Ok r.

(** What an answer reports. *)
Definition reports (h : trace) (r : LauncherResponse) : Prop :=
  match response r with
  | Rejected _ => True
  | Ready available => exists p, effects h = [Ev RunPreflight (RunFirst available); Ev ReceiveRequest (Some p)]
  | Completed c =>
      exists request out cut p, effects h = [Ev (RunExecute request) (RunFirst (Ok (RunCompleted out cut))); Ev ReceiveRequest (Some p)]
        /\ comp_run_id c = run_id request /\ output c = take (N.to_nat (output_char_limit request)) out
        /\ (truncated c = false -> output c = out /\ cut = false)
  end.

Definition is_send (e : event host_answer) : bool := match ev_call e with SendResponse _ => true | _ => false end.

(** When the process may do what. *)
Definition served (h : trace) (c : host_call) : Prop :=
  match c with
  | ReceiveRequest => exists peer, vouched h peer /\ unprivileged h /\ effects h = []
  | RunPreflight =>
      exists peer version, vouched h peer /\ unprivileged h /\ requested h peer (mkLauncherRequest version Preflight)
  | RunExecute request =>
      exists peer version, vouched h peer /\ unprivileged h /\ requested h peer (mkLauncherRequest version (Execute request))
        /\ validate_execution_policy request = Ok tt
  | SendResponse frame =>
      (exists peer, vouched h peer) /\ unprivileged h /\ List.filter is_send h = []
      /\ exists r, encode_response_frame r = Ok frame /\ reports h r
  | _ => True
  end.

Lemma served_checking h c : checking c = true -> served h c.
Proof. by destruct c. Qed.

(** A step of checks keeps the effects. *)
Lemma served_checks {A} (p : hprog A) (Q : trace -> A -> Prop) h :
  only_checks p -> (forall h' a, extends h h' -> effects h' = effects h -> Q h' a) -> wp served p Q h.
Proof.
  intros Hp HQ. eapply wp_mono; [by apply wp_calls_only| |].
  - intros h' c. apply served_checking.
  - intros h' a [Hx He]. by apply HQ.
Qed.

(** With what a step proved on the side. *)
Lemma served_known {A} (p : hprog A) (P : trace -> A -> Prop) (Q : trace -> A -> Prop) h :
  only_checks p -> wp (fun _ _ => True) p (fun h' r => extends h h' /\ P h' r) h ->
  (forall h' a, extends h h' -> effects h' = effects h -> P h' a -> Q h' a) -> wp served p Q h.
Proof.
  intros Hp HP HQ. eapply wp_mono; [apply (wp_and _ _ _ _ _ _ (wp_calls_only checking p h Hp) HP)|..].
  - intros h' c [Hc _]. by apply served_checking.
  - intros h' a [[Hx He] [_ Ha]]. by apply HQ.
Qed.

Lemma wp_checked G {A} (p : hprog (result str A)) Q h :
  wp G p (fun h' r => Q h' (map_err Fault r)) h -> wp G (checked p) Q h.
Proof. unfold checked. by rewrite wp_bind. Qed.

(** A rejection is an answer for any trace. *)
Lemma rejected_reports run_id code message r h : service_rejected run_id code message = Ok r -> reports h r.
Proof. unfold service_rejected. by intros (j & _ & [= <-])%rbind_ok. Qed.

Lemma policy_rejection_reports request r h : execute_policy_rejection request = Ok (Some r) -> reports h r.
Proof.
  unfold execute_policy_rejection. destruct (validate_execution_policy request); [done|].
  intros (j & Hj & [= <-])%rbind_ok. by eapply rejected_reports.
Qed.

Lemma error_response_reports run_id error r h : execute_error_response run_id error = Ok r -> reports h r.
Proof. destruct error as [[]| |]; cbn; first [apply rejected_reports|done]. Qed.

(** Output that is not reported as cut is whole. *)
Lemma execution_response_reports request r0 r h p :
  effects h = [Ev (RunExecute request) (RunFirst (Ok r0)); Ev ReceiveRequest (Some p)] ->
  execution_response (run_id request) (output_char_limit request) r0 = Ok r -> reports h r.
Proof.
  intros He. destruct r0 as [out cut| |]; cbn [execution_response]; [|apply rejected_reports..].
  intros (c & Hc%map_err_ok & [= <-])%rbind_ok. unfold reports, completed. cbn [response].
  exists request, out, cut, p. split; [done|]. unfold completed_bounded in Hc. rewrite then_ok in Hc. destruct Hc as [_ Hc].
  rewrite then_ok in Hc. destruct Hc as [_ Hc]. apply rbind_ok in Hc as ([text t] & Hb & [= <-]). cbn [comp_run_id output truncated].
  unfold bound_output in Hb. rewrite then_ok in Hb. destruct Hb as [_ Hb].
  destruct (N.leb_spec (char_count out) (output_char_limit request)) as [Hl|Hl]; injection Hb as <- <-; cbn [orb].
  - split; [done|]. split; [|done]. symmetry. apply take_ge. unfold char_count, len in Hl. lia.
  - split; [done|]. by split.
Qed.

Lemma inspect_served h (Q : trace -> result unit ClientSocketState -> Prop) :
  (forall h' a, extends h h' -> effects h' = effects h -> Q h' a) -> wp served inspect_client_socket Q h.
Proof. apply served_checks, inspect_checks. Qed.

(** What the answer to a request is and in which trace. *)
Definition answer_ready (h0 : trace) (h : trace) (r : result halt (option LauncherResponse)) : Prop :=
  extends h0 h /\ List.filter is_send h = [] /\ forall response, r = Ok (Some response) -> reports h response.

Lemma no_send_effects h : List.filter is_send h = List.filter is_send (effects h).
Proof.
  induction h as [|[c a] h IH]; [done|]. unfold effects in *. cbn [List.filter is_send ev_call].
  destruct c; cbn [checking negb List.filter is_send ev_call]; by rewrite IH.
Qed.

Lemma answer_ready_intro h0 h r : extends h0 h -> List.filter is_send (effects h) = [] ->
  (forall response, r = Ok (Some response) -> reports h response) -> answer_ready h0 h r.
Proof. intros Hx Hs Hr. split; [done|]. split; [by rewrite no_send_effects|done]. Qed.

Lemma answered_some r response : answered r = Ok (Some response) -> r = Ok response.
Proof. unfold answered. by intros (x & -> & [= ->])%rbind_ok. Qed.

Lemma preflight_served h0 h version p peer rq :
  extends h0 h -> effects h = [Ev ReceiveRequest (Some p)] -> vouched h peer -> unprivileged h ->
  receive_request_packet_now p = Ok rq -> rq_sender rq = peer ->
  decoded_request rq = Ok (mkLauncherRequest version Preflight) ->
  wp served (response_for_request (decoded_request rq)) (answer_ready h0) h.
Proof.
  intros Hx He Hv Hu Hp Hs Hd. rewrite Hd. cbn [response_for_request]. rewrite wp_bind_ok. unfold preflight_available.
  rewrite wp_bind. cbn [perform wp]. split.
  { exists peer, version. split; [done|]. split; [done|]. exists p, rq. done. }
  intros race. assert (forall a, effects (Ev RunPreflight a :: h) = [Ev RunPreflight a; Ev ReceiveRequest (Some p)]) as Hf.
  { intros a. unfold effects in *. cbn [List.filter checking negb ev_call]. by rewrite He. }
  destruct race as [available|io_error [drained|]]; cbn [wp terminate_stuck_launcher].
  - rewrite wp_bind. apply inspect_served. intros h1 state Hx1 He1. cbn [wp].
    assert (extends h0 h1) as Hx01 by (eapply extends_trans; [exact Hx|]; eapply extends_trans; [|exact Hx1]; auto with trace).
    apply answer_ready_intro; [done|by rewrite He1, Hf|]. intros response.
    destruct state as [[]|[]]; cbn [rbind]; [intros [= <-]; exists p; by rewrite He1, Hf|done|].
    intros Hr%answered_some. by eapply rejected_reports.
  - apply answer_ready_intro; [auto with trace|by rewrite Hf|]. destruct io_error; [|done].
    intros response Hr%answered_some. by eapply rejected_reports.
  - apply answer_ready_intro; [auto with trace|by rewrite Hf|done].
Qed.

Lemma execute_served h0 h version request p peer rq :
  extends h0 h -> effects h = [Ev ReceiveRequest (Some p)] -> vouched h peer -> unprivileged h ->
  receive_request_packet_now p = Ok rq -> rq_sender rq = peer ->
  decoded_request rq = Ok (mkLauncherRequest version (Execute request)) ->
  wp served (response_for_request (decoded_request rq)) (answer_ready h0) h.
Proof.
  intros Hx He Hv Hu Hp Hs Hd. rewrite Hd. cbn [response_for_request]. rewrite wp_bind_ok. cbn [wp].
  destruct (execute_policy_rejection request) as [[response|]|halted] eqn:Er; cbn [wp].
  - apply answer_ready_intro; [done|by rewrite He|]. intros ? [= <-]. by eapply policy_rejection_reports.
  - assert (validate_execution_policy request = Ok tt) as Hvalid.
    { revert Er. unfold execute_policy_rejection. destruct (validate_execution_policy request) as [[]|]; [done|].
      by intros (? & _ & [=])%rbind_ok. }
    rewrite wp_bind_ok. unfold execute_until_disconnect. rewrite wp_bind. cbn [perform wp]. split.
    { exists peer, version. split; [done|]. split; [done|]. split; [|done]. exists p, rq. done. }
    intros race. assert (forall a, effects (Ev (RunExecute request) a :: h) = [Ev (RunExecute request) a; Ev ReceiveRequest (Some p)]) as Hf.
    { intros a. unfold effects in *. cbn [List.filter checking negb ev_call]. by rewrite He. }
    assert (forall h1 a r, extends (Ev (RunExecute request) a :: h) h1 -> effects h1 = effects (Ev (RunExecute request) a :: h) ->
      (forall response, r = Ok (Some response) -> reports h1 response) -> answer_ready h0 h1 r) as Hready.
    { intros h1 a r Hx1 He1 Hr. apply answer_ready_intro; [|by rewrite He1, Hf|done].
      eapply extends_trans; [exact Hx|]. eapply extends_trans; [|exact Hx1]. auto with trace. }
    destruct race as [outcome|io_error [drained|]]; cbn [wp terminate_stuck_launcher].
    + rewrite wp_bind. apply inspect_served. intros h1 state Hx1 He1. cbn [wp]. eapply Hready; [done..|].
      destruct state as [[]|[]].
      * destruct outcome as [r0|error]; intros response Hr%answered_some.
        -- eapply execution_response_reports; [|exact Hr]. by rewrite He1, Hf.
        -- by eapply error_response_reports.
      * destruct outcome as [|[]]; done.
      * intros response Hr%answered_some. by eapply error_response_reports.
    + eapply Hready; [auto with trace|done|]. destruct io_error.
      * intros response Hr%answered_some. by eapply error_response_reports.
      * destruct drained as [|[]]; done.
    + by eapply Hready; [auto with trace|done|].
  - apply answer_ready_intro; [done|by rewrite He|done].
Qed.

Lemma response_for_request_served h0 h p peer rq :
  extends h0 h -> effects h = [Ev ReceiveRequest (Some p)] -> vouched h peer -> unprivileged h ->
  receive_request_packet_now p = Ok rq -> rq_sender rq = peer ->
  wp served (response_for_request (decoded_request rq)) (answer_ready h0) h.
Proof.
  intros Hx He Hv Hu Hp Hs. destruct (decoded_request rq) as [[version [|request]]|error] eqn:Ed.
  - rewrite <-Ed. by eapply preflight_served.
  - rewrite <-Ed. by eapply execute_served.
  - cbn [response_for_request wp]. apply answer_ready_intro; [done|by rewrite He|].
    intros response Hr%answered_some. by eapply rejected_reports.
Qed.

Lemma write_response_served h response :
  (exists peer, vouched h peer) -> unprivileged h -> List.filter is_send h = [] -> reports h response ->
  wp served (write_response response) (fun _ _ => True) h.
Proof.
  intros Hv Hu Hs Hr. unfold write_response. rewrite wp_bind_ok. cbn [wp].
  destruct (encode_response_frame response) as [frame|e] eqn:Ef; cbn [map_err]; [|done].
  rewrite wp_bind. cbn [perform wp]. split; [|intros []; done]. split; [done|]. split; [done|]. split; [done|].
  exists response. done.
Qed.

Lemma main_served : wp served main (fun _ _ => True) [].
Proof.
  unfold main. rewrite wp_bind_ok. apply wp_checked, served_checks; [apply validate_process_checks|].
  intros h1 [[]|] Hx1 He1; [|done]. cbn [map_err]. rewrite wp_bind_ok. apply wp_checked, served_checks; [apply validate_stdio_checks|].
  intros h2 [[]|] Hx2 He2; [|done]. cbn [map_err]. rewrite wp_bind_ok.
  apply wp_checked, served_checks; [unfold duplicate_launcher_socket, fails; calls_only|].
  intros h3 [[]|] Hx3 He3; [|done]. cbn [map_err]. rewrite wp_bind_ok.
  apply wp_checked. eapply served_known; [apply socket_peer_credentials_checks|apply socket_peer_credentials_known|].
  intros h4 [c|] Hx4 He4 Hc; [|done]. cbn [map_err]. rewrite wp_bind_ok.
  apply wp_checked. eapply served_known; [apply authorise_checks|apply authorise_known|].
  intros h5 [peer|] Hx5 He5 Ha; [|done]. cbn [map_err]. destruct (Hc c eq_refl) as (raw & Hraw & Hof).
  destruct (Ha peer eq_refl) as (Hpeer & Huid & out & Hout & Hpid).
  assert (vouched h5 (credentials peer)) as Hv5.
  { rewrite Hpeer. split; [|split; [|done]]; [exists raw; split; [by eapply extends_in|done]|by exists out]. }
  rewrite wp_bind_ok. apply wp_checked. eapply served_known; [apply drop_checks|apply drop_known|].
  intros h6 [[]|] Hx6 He6 Hd; [|done]. cbn [map_err]. specialize (Hd eq_refl).
  rewrite wp_bind_ok. apply wp_checked, served_checks; [apply pidfd_is_alive_checks|].
  intros h7 [[]|] Hx7 He7; [|done]. cbn [map_err].
  assert (effects h7 = []) as He07 by (rewrite He7, He6, He5, He4, He3, He2, He1; done).
  assert (vouched h7 (credentials peer)) as Hv7 by (eapply vouched_extends; [exact Hv5|]; eauto with trace).
  assert (unprivileged h7) as Hu7 by (eapply unprivileged_extends; [exact Hd|done]).
  rewrite wp_bind_ok. apply wp_checked. unfold receive_request_packet, or_fail. rewrite wp_bind_ok, wp_bind. cbn [perform wp].
  split; [by exists (credentials peer)|]. intros [p|]; cbn [wp ok_or map_err]; [|done].
  destruct (receive_request_packet_now p) as [rq|] eqn:Ep; cbn [map_err]; [|done].
  unfold request_writer_is_authorised. destruct (bool_decide_reflect (rq_sender rq = credentials peer)) as [Hs|]; cbn [negb]; [|done].
  set (h8 := Ev ReceiveRequest (Some p) :: h7).
  assert (effects h8 = [Ev ReceiveRequest (Some p)]) as He8 by (unfold effects in *; cbn [h8 List.filter checking negb ev_call]; by rewrite He07).
  rewrite wp_bind_ok. apply wp_checked, served_checks; [apply pidfd_is_alive_checks|].
  intros h9 [[]|] Hx9 He9; [|done]. cbn [map_err]. rewrite wp_bind_ok. unfold pre_dispatch_protocol_response. rewrite wp_bind.
  apply inspect_served. intros h10 state Hx10 He10.
  assert (extends h7 h10) as Hx710 by (eapply extends_trans; [|eapply extends_trans; [exact Hx9|exact Hx10]]; apply extends_cons, extends_refl).
  assert (effects h10 = [Ev ReceiveRequest (Some p)]) as He010 by (by rewrite He10, He9).
  assert (vouched h10 (credentials peer)) as Hv10 by (by eapply vouched_extends).
  assert (unprivileged h10) as Hu10 by (by eapply unprivileged_extends).
  assert (forall early, (forall response, early = Some response -> reports h10 response) ->
    wp served (let*? response := match early with
                 | Some response => Ret (Ok (Some response))
                 | None => response_for_request (decoded_request rq) end in
               match response with
               | None => Ret (Ok tt)
               | Some response => let*? _ := checked (ensure_alive peer) in write_response response
               end) (fun _ _ => True) h10) as Hfinish.
  { intros early Hearly. rewrite wp_bind_ok.
    eapply (wp_consequence _ _ (answer_ready h10)).
    { destruct early as [response|]; [|by eapply response_for_request_served].
      cbn [wp]. apply answer_ready_intro; [done|by rewrite He010|]. intros ? [= <-]. by apply Hearly. }
    intros h11 r (Hx11 & Hn11 & Hr11). destruct r as [[response|]|]; [|done..]. specialize (Hr11 response eq_refl).
    rewrite wp_bind_ok. apply wp_checked, served_checks; [apply pidfd_is_alive_checks|].
    intros h12 [[]|] Hx12 He12; [|done]. cbn [map_err].
    assert (extends h10 h12) as Hx1012 by eauto with trace.
    apply write_response_served; [exists (credentials peer); by eapply vouched_extends|by eapply unprivileged_extends| |].
    - by rewrite no_send_effects, He12, <-no_send_effects.
    - unfold reports in *. destruct (LauncherProtocol.response response) as [|?|?]; by rewrite ?He12. }
  destruct state as [[]|[]]; cbn [wp]; [by apply (Hfinish None)|done|].
  destruct (service_rejected None RejMalformedRequest one_packet) as [r|] eqn:Er; cbn [rbind]; [|done].
  apply (Hfinish (Some r)). intros ? [= <-]. by eapply rejected_reports.
Qed.
End service.

(** C36: On every run, whatever the host answers, the launcher reads a request only from a
    peer the kernel and systemd vouch for and after its own capabilities read back empty; it
    starts a preflight or a run only for the one well-formed packet that this peer itself
    wrote, a run only within the execution policy; and it sends at most one packet, a valid
    response, where a completed answer carries the output of that run and marks every cut. *)
Theorem launcher_serves_only_bot `{!JsonCodec LauncherRequest} `{!JsonCodec LauncherResponse} env :
  guarded served (exec env [] main).1.
Proof. exact (proj1 (wp_exec served main (fun _ _ => True) env [] main_served I)). Qed.

(** A run from the connection to the answer. *)
Definition service_request_codec : JsonCodec LauncherRequest := {|
  to_vec _ := None;
  from_slice b := if bool_decide (b = lit "{}") then Some (execute sample_run_request) else None
|}.

Definition service_response_codec : JsonCodec LauncherResponse := {|
  to_vec r := match LauncherProtocol.response r with
              | Completed c => Some (output c)
              | Ready _ => Some (lit "ready")
              | Rejected j => Some (lit "no: " ++ message j)
              end;
  from_slice _ := None
|}.

Definition service_host (sender : Z) : environment host_answer := fun _ c =>
  match c return host_answer c with
  | Geteuid => 0
  | ReadLink p => Some (if str_eqb p (lit "/proc/self/exe") then LAUNCHER_EXECUTABLE_PATH else BOT_EXECUTABLE_PATH)
  | ReadFile p => if str_eqb p (lit "/proc/self/fdinfo/4") then Some (lit "pos:	0" ++ [10] ++ lit "Pid:	77" ++ [10])
                  else sample_answer (ReadFile p)
  | Fstat _ => Some (mkDescriptorMetadata 1 2 Socket)
  | GetSocketOption _ SO_TYPE => Some (true, SOCK_SEQPACKET)
  | GetSocketOption _ SO_PASSCRED => Some (true, 1%Z)
  | DuplicateSocket _ | ProtectPidfd _ | Capset _ | SendResponse _ => true
  | PeerCred _ => Some (true, (77%Z, 1000, 1000))
  | PeerPidfd _ => Some (true, 4%Z)
  | Capget => Some [no_capabilities; no_capabilities]
  | CapBsetRead _ => Some None
  | ReceiveRequest => Some (mkPacket ([0; 0; 0; 2] ++ lit "{}") [Some (true, (sender, 1000, 1000))] false)
  | PeekSocket => PeekWouldBlock
  | RunExecute _ => RunFirst (Ok (RunCompleted (lit "done") false))
  | c => sample_answer c
  end.

Definition service_run (sender : Z) : list (event host_answer) * result halt unit :=
  exec (service_host sender) [] (@main service_request_codec service_response_codec).

Example run_is_answered :
  (service_run 77).2 = Ok tt
  /\ map ev_call (effects (service_run 77).1)
     = [SendResponse ([0; 0; 0; 4] ++ lit "done"); RunExecute sample_run_request; ReceiveRequest].
Proof. split; vm_compute; reflexivity. Qed.

(** A packet another process wrote to the peer's connection is refused. *)
Example foreign_writer_refused : (service_run 78).2 = Err (Fault (lit "launcher request writer is not authorised")).
Proof. vm_compute. reflexivity. Qed.
